(* ===== verification/_CoqProject ===== *)
-Q . S2P
Prelude.v
GoStrings.v
Sorting.v
GoFloats.v
Json.v
Semver.v
Compat.v
FilePaths.v
Migrations.v
Model.v
RunBuilder.v
Disk.v
RunFiles.v
RunCollection.v
RunMetadata.v
RunUpdates.v
RunArchive.v
RunEntries.v
RunImport.v
RunQueries.v
RunRecovery.v
Workload.v
Digraph.v
RenderTables.v
RendererSpec.v
RenderSession.v
SessionStorage.v
Insights.v
HotFunctions.v
CallTree.v
SourceFetcher.v
SourceLines.v
SourceWindows.v
DisasmRanges.v
DisasmWindows.v
RunDetails.v
InsightsBundle.v
TransferSlots.v
TransferProgress.v
TransferManager.v
TransferWorkers.v
TransferRequests.v
TransferPhases.v
Admission.v
TokenStorage.v
Messages.v
MessageCatalog.v
ProcessManager.v
ProcessShutdown.v
ProcessHandles.v
Regexp.v
SyscallTrace.v
Parameters.v
CmdSync.v
StageDriver.v
DeploymentSupport.v
TargetLock.v
RecipeStages.v
RecipeJob.v
NoiseConn.v
NoiseHandshake.v
Targets.v
TargetAccess.v
RunRenders.v
RenderLocks.v
Packages.v
Deployer.v
