(* ===== verification/Prelude.v ===== *)
(** * Performix: a verification library

    Performix runs performance recipes on a target, records runs and renders them. Its core
    is written in Go: the engine ([core/apap-engine]), the agent on the target
    ([core/atperf-agent]), the command line and its built-in tools ([core/apap-cli]) and the
    compatibility matrix ([core/atperf-compatibility]). This library models the parts of
    it that decide something: which renderers run and in which order, who may transfer
    files, which tokens are valid, which inputs are accepted, how recorded files are found
    again and how traces are read. The names of the definitions are those of the source.

    ** The parts, and the files that model them

    - [Prelude]: results of fallible functions, machine integers, lists, sorted lists and
      transitive closures. [GoStrings]: the functions of Go's [strings] and [strconv]
      that the sources call, on strings as sequences of bytes. [Regexp]: the anchored
      regular expressions of the trace parser. [Sorting]: comparisons of several keys,
      sorting as a class of functions, and the binary search of [sort.Search]. [GoFloats]:
      Go's floating-point numbers, by the standard library's IEEE 754 functions. [Json]: the
      text that [encoding/json] writes, and its length.
    - [Semver]: [cdf/semver/semver.go]. Versions, their order, ranges, the intersection of
      ranges and the search for disjoint ones. Theorems: the intersection has exactly the
      common versions, disjoint ranges are found exactly when there are some, versions
      survive writing and reading.
    - [Compat]: [compatibility/compatibility.go] and [render/compatibility.go]. The matrix of
      engine versions and the warning shown before runs are rendered; the checker is the
      class [CompatibilityChecker] with [CheckerLaws], proved of the concrete checker and
      used by the warning. Theorems: the range of a run ends at the newest listed engine,
      no nil version is dereferenced, and there is a warning exactly when a run is not
      compatible.
    - [Migrations]: [cdf/migrations.go], [cdf/normalize.go] and the selection of migrations in
      [render/session_lifecycle.go]. Theorems: a rename rewrites one folder and is undone by
      its inverse, a chain of rewrites ends or reports a real repetition, and selecting
      migrations for a recorded tool is undone by applying them.
    - [FilePaths]: [util/path.go], with the cleaning, joining and relating of paths. Theorems:
      a remapped path stays below its template, and the children of a path are those below it
      by their components. [Workload]: [util/workloadsplitting.go] and the quoting of
      [conductor/adb.go]. Theorem: splitting quoted words gives the words.
    - [Model]: [cdf/model.go] and [cdf/overlay_model.go]. The components of a recorded run, and
      a render laid over it. Both are instances of the class [ModelView], which states the
      interface of models, with the contract [ModelLaws]. Theorems: every component lies below
      the directories of its model and is of the type and version that were asked for, which
      manifest entry a path resolves to, and what the listings of an overlay contain.
    - [RunBuilder]: [run/run_builder.go] and [run_manifest_updater.go]. The manifest of a run
      while the run is recorded. Theorems: updates act on each entry as on a map, in whichever
      order those of different transfers come, and what goes wrong when two transfers share
      a path.
    - [Disk]: what the sources use of [os] and [filepath]: a disk maps paths to files and
      directories, and may refuse to create or to write. On it, the runs of [run/run.go]:
      + [RunFiles]: the metadata of a run and its text ([cdf/metadata.go], [util/json.go]);
      + [RunCollection]: looking up, listing, creating and deleting runs, an operation being
        a function on the disk that may fail, and what a lock answers an argument;
      + [RunMetadata]: changing the metadata. Theorem: the recorded size of a run is the size
        that it has with this size recorded;
      + [RunUpdates]: [run/update.go] and [categorization.go]. Theorem: updates act on groups
        and tags as on a name and a set, and every outcome is stated;
      + [RunArchive] and [RunEntries]: the archives of runs. Theorem: extracting an archive
        stays below its destination and overwrites nothing;
      + [RunImport]: [ImportRun]. Theorems: an import fails without a trace or adds one run,
        and a run that was exported is imported as it was.
      + [RunQueries]: descriptions of runs, the newest run, and the checks that runs have the
        same recipe, which are decided exactly;
      + [RunRecovery]: [recovery/recovery.go]. Theorem: stale runs are marked as failed, and
        nothing else changes;
      + [RunRenders] and [RenderLocks]: [run/rerender_builder.go] with the part of
        [render/rerender.go] that makes and removes renders. Theorems: a result stays in its
        render, cleaning up removes what is stale and nothing else, and, as steps of sessions
        and engines that run at the same time, when it leaves alone a render in use.
    - [Digraph]: [render/digraph.go]. The dependency graph of renderers. Theorems: the search
      for children is reachability, the search for a cycle decides whether there is one,
      removing nodes leaves the induced subgraph.
    - [RenderTables]: [render/manifest.go], [inputoutputspec.go], [datasource.go] and
      [RemoveTempTables]. The manifest of tables that the renderers share: names, entries,
      data sources and their resolution. Theorems: reachable manifests have unique names
      (under a condition on component types, with the failures outside it), which sources
      resolve and validate, announcing pending outputs is idempotent.
    - [RendererSpec]: [render/rendererspec.go]. The graph of the renderers of a session and the
      errors of unknown and cyclic dependencies. Theorem: the renderers that are left without
      an error have known dependencies and no cycle among them.
    - [RenderSession]: [render/session_lifecycle.go] and the parts of [visualization.go] and
      [renderer.go] it calls. Renderers are the class [Renderer], with [RendererLaws] for what
      the session relies on. Theorems: initialisation ends and respects the dependencies,
      the outputs that are accepted, and what starting a session does to the storage.
    - [SessionStorage]: [render/session_storage.go]. Threads that look up, use and close
      sessions, as a step relation over the lock of every session. Theorems: closing
      excludes use, no deadlock, and the uses after closing that remain possible.
    - [TransferSlots]: [recipe/transfer_slots.go]. The queues of callers that wait for a
      transfer slot, as a step relation. Theorems: requests are served in order, the limit
      is never exceeded, no channel is closed twice and no slot is lost.
    - [TransferManager]: [recipe/transfer_manager.go] and [transfer_errors.go]. The goroutine of
      [Listen], those that start requests and those that receive files, as the executable step
      function [exec]; a label holds what the environment answers. They share the slots of
      [TransferSlots], the manifest of [RunBuilder] and the progress bars of
      [TransferProgress] ([transfer_logging.go]). Theorems, in
      + [TransferProgress]: reports have a fixed total and the last one is the final state;
      + [TransferWorkers]: the wait groups are the numbers of goroutines they wait for;
      + [TransferRequests]: every request is finished at most once, and successfully only when
        all its files have arrived;
      + [TransferPhases]: after a failed run only logs are kept, and a flush without errors
        has received everything.
    - [Admission]: [grpcserver/admission.go] of the agent. Theorem: after the restriction has
      been waited for, nothing runs and nothing starts.
    - [TokenStorage]: [privilege/tokenstorage.go] of the agent. Tokens with a reference count,
      time to live and absolute lifetime, and the two phases of their collection, as a step
      relation with a clock. Theorems: no token outlives its lifetime, marked tokens are dead.
    - [Messages] and [MessageCatalog]: [message/message.go], [error_payload.go], [catalog.go] and
      the interceptors. Errors are trees whose nodes have an identity. Theorems: what of an
      error arrives at a client of the engine; the texts of the catalog are filled in
      whatever the order of a map.
    - [ProcessManager]: [process/process_manager_common.go] of the agent, with its data and the
      command lines of Unix. A call of [StartProcessCommon] or [ExecCommandCommon] with the
      goroutine it starts, the clients and [shutdownProcesses] are threads of one step relation;
      what the system answers is an argument, a process identifier is used once, and a group
      controller ends with its child. Over it:
      + [ProcessShutdown]: a shutdown reaches every process, also one that is being started;
        a graceful one leaves nothing behind, and can return unless a call was abandoned;
      + [ProcessHandles]: what is open is accounted for, whatever fails.
    - [SyscallTrace]: [tools-builtin/syscall-trace/source]. From the lines of [strace] to the
      sorted events. Theorems: exact times, the statistics account for every line, every
      event comes from its own lines, the order of the output.
    - [CmdSync]: [cmdsync/command_state_map.go] and [command_state_channel.go]. The stop and
      cancel commands of runs, and the goroutine that polls them. Theorems: commands reach
      their run, no channel is closed twice, a command that is still set is noticed.
    - [StageDriver]: [recipe/runtime/driver.go]. Driving the stages of a recipe, with the
      command state of [CmdSync]. Theorem: which stages execute, how they are announced, in
      which order their cleanups run and what the result is.
      [RecipeStages]: the stages that [BuildStages] of [recipe/runtime/run.go] makes of a
      configuration, driven by it. Theorem: scripts run only while the lock of the target is
      held, and files are retrieved after it is given back.
    - [TargetLock]: [recipe/stages/target_lock_stage.go] and [filelock/cross_process_lock.go] of
      the agent. Recipes, the goroutines that watch for their commands, and the handlers of any
      number of agents, as a step relation. Theorems: one recipe has the lock, and once
      released it can be given back.
    - [RecipeJob]: [recipe/runtime/recipe_job.go], [recipe/notifiers.go] and [awaitRecipeJob] of
      [grpcserver/api_apap.go]. A job, its notifications and the call of its client, which may
      detach, as a step relation. Theorems: a client that detached hears nothing more, and
      nothing blocks.
    - [DeploymentSupport]: [deploymentsupport/deployment_support.go] and the stages that use it.
      Theorems: a recipe runs only on a platform that supports what the parameters require,
      and exactly the tool bundles that are needed are deployed.
    - [Packages]: [packages/packages.go]. Theorem: a tool bundle is found in the first package
      that has it. [Deployer]: [tool/deployer/deployer.go] and the stage that deploys tools. The
      class [Unpacking] says what is known of the command that unpacks a bundle. Theorems: a
      tool is deployed as a whole or does not pass for deployed, and after the stage every
      tool is deployed that the recipe needs.
    - [Targets]: [target/config.go], [target.go], [jsontarget.go], [conversion.go], and the
      conversion of targets in [grpcserver/conversion.go]. Operations on a [Disk]. Theorems: the
      manager acts on the stored targets as on a map, with the local host added when it is
      read, and what of a target survives the API. [TargetAccess]: [target/access.go], a step
      relation of calls. Theorems: one call per target, and a waiting call can get it.
    - [NoiseConn]: the encrypted connection of [grpcserver/transport/noiselistener.go] of the
      agent, over a network that cuts bytes and fails as it likes. Theorems: it carries a
      stream, what it returns was sealed by its peer, and every frame has its limits.
      [NoiseHandshake]: the handshakes of both ends. Theorems: when both have a connection, and
      with whom.
    - [Parameters]: [parameters/parameter.go] and [options.go]. Binding and validating the
      inputs of recipes and renders. Theorems: exactly which inputs are bound and to what,
      which values are valid, and that render values stay typed.

    - [Insights]: [insights/summary.go] and [table_resolution.go]. Summaries of a run for an
      assistant, the tables they are made from, and the class [KeepsBudget]: what a summarizer
      promises that is given a byte limit. It is satisfied by the four such summarizers:
      + [HotFunctions]: [insights/hot_functions.go]. Theorem: the functions listed are the
        shortest prefix that covers the share of samples and fits.
      + [CallTree]: [insights/call_tree.go]. Theorems: the recursion ends and lists the hot
        paths depth first; the payload is the largest closed prefix that fits.
      + [SourceLines] and [SourceWindows]: [insights/source_window.go], over the files that
        [SourceFetcher] ([sourcecontent/fetcher.go]) fetches with concurrent workers. Theorems:
        the hot lines are the shortest prefix that covers the share of samples, windows do
        not overlap and miss no sampled line near a hot one, no index fails, and the
        payload depends neither on the sort nor on the order of maps; the workers end and
        return the files in order.
      + [DisasmRanges] and [DisasmWindows]: [insights/disassembly_window.go]. Theorems: which
        instructions are seeds, the windows are disjoint parts of the instructions that have
        every seed, and the source ranges of a window are exact.

      [RunDetails] ([insights/run_details.go]) has no limit. [InsightsBundle]:
      [grpcserver/api_apap_insights.go]. Theorem: against the interface, and for the actual
      summarizers, the bundle of summaries that succeed stays within its limit.

    ** Conventions

    A function with an error result returns [result E T]. A Go panic, and a nil dereference,
    is a separate outcome ([None], or the error type [panic] in [Compat]), and the theorems say
    that it does not happen. The order in which Go visits a map is a parameter with the
    hypothesis that it visits every entry once; theorems hold for every such order. [sort.Sort]
    does not promise the order of equal elements: a sort is a parameter with the hypothesis
    that it returns a sorted permutation (the class [SliceSort]). Concurrent parts are step relations in which one
    step is one critical section or one atomic operation, and invariants hold in every
    reachable state. Integers are [Z]; where the source can overflow, the wrap-around is
    written out ([wrap_int64]).

    Recursion is structural, with exceptions in which the source's closures recurse over a
    graph, or a loop is not over a list: [Digraph] takes a fuel of the number of nodes
    plus one, enough because a search never enters a node twice on a path or a visited node
    again; [TransferSlots] takes the number of queued requests plus one, enough because every
    turn takes a request from a queue; [CallTree] takes the number of nodes plus one, enough
    when the identifiers of the nodes are unique; [Search] in [Sorting] takes the length of
    its interval, which halves; [seed_loop] in [DisasmRanges] takes the number of instructions,
    of which every turn uses up at least one; [write_loop] in [NoiseConn] takes the number of
    bytes, of which every turn writes at least one. The theorems about them state that the result
    exists.

    ** What is not modelled

    Code that is only input and output (files, databases, subprocesses, terminal), generated
    clients and servers of the API, logging, and the renderers themselves, which are parameters
    of the session. What renderers, decoders of JSON, the loader of runs and the session
    factory return is a parameter, and so are the matching of globs and, outside the runs of [Disk], the file system. Left
    for later: [RunRecipe] around the stage driver, retrieving files without the transfer manager,
    emitting the outputs of a render and the conversions of query results. The locks of
    runs are what taking them answers; permissions and links are not modelled. The queries
    themselves are SQL: a summarizer takes the rows they give. *)

From stdpp Require Export base tactics option list list_numbers gmap sets strings sorting relations.
From Stdlib Require Export ZArith Lia.

(** ** Fallible functions

    A Go function that returns [(T, error)] is modelled by [result E T]: [Ok] is the
    return with a nil error, [Err] the return with a non-nil one. *)

Inductive result (E A : Type) : Type :=
| Ok (a : A)
| Err (e : E).
Arguments Ok {E A} a.
Arguments Err {E A} e.

#[export] Instance result_ret E : MRet (result E) := fun A => Ok.
#[export] Instance result_bind E : MBind (result E) := fun A B f m =>
  match m with Ok a => f a | Err e => Err e end.
#[export] Instance result_fmap E : FMap (result E) := fun A B f m =>
  match m with Ok a => Ok (f a) | Err e => Err e end.

Definition is_ok {E A} (r : result E A) : bool :=
  match r with Ok _ => true | Err _ => false end.

Definition ok_value {E A} (r : result E A) : option A :=
  match r with Ok a => Some a | Err _ => None end.

(** Turns an optional value into a result with the given error. *)
Definition or_err {E A} (e : E) (o : option A) : result E A :=
  match o with Some a => Ok a | None => Err e end.

Lemma bind_Ok {E A B} (m : result E A) (f : A -> result E B) b :
  (m ≫= f) = Ok b <-> exists a, m = Ok a /\ f a = Ok b.
Proof. destruct m; cbn; naive_solver. Qed.

(** The loop [for _, x := range l { if err := f(x); err != nil { return err } }]. *)
Fixpoint for_each {E A} (f : A -> result E unit) (l : list A) : result E unit :=
  match l with
  | [] => Ok tt
  | x :: l' => _ ← f x; for_each f l'
  end.

(** The same loop with a state threaded through. *)
Fixpoint fold_res {E A S} (f : S -> A -> result E S) (s : S) (l : list A) : result E S :=
  match l with
  | [] => Ok s
  | x :: l' => s' ← f s x; fold_res f s' l'
  end.

Lemma for_each_Ok {E A} (f : A -> result E unit) l :
  for_each f l = Ok tt <-> Forall (fun x => f x = Ok tt) l.
Proof.
  induction l as [|x l IH]; cbn; [by split|].
  destruct (f x) as [[]|e] eqn:Hx; cbn.
  - rewrite IH. split; [by constructor | by inversion 1].
  - split; [done|]. inversion 1; congruence.
Qed.

(** ** Machine integers

    Go's [int] and [int64] are 64-bit two's complement on the platforms the program
    is built for; [uint64] and [uint32] wrap modulo a power of two. *)

Definition int64_min : Z := (- 2 ^ 63)%Z.
Definition int64_max : Z := (2 ^ 63 - 1)%Z.
Definition wrap_int64 (z : Z) : Z := ((z + 2 ^ 63) mod 2 ^ 64 - 2 ^ 63)%Z.
Definition wrap_uint64 (z : Z) : Z := (z mod 2 ^ 64)%Z.
Definition wrap_uint32 (z : Z) : Z := (z mod 2 ^ 32)%Z.
Definition int_in_range (bits : Z) (z : Z) : bool :=
  ((- 2 ^ (bits - 1) <=? z) && (z <? 2 ^ (bits - 1)))%Z.

Lemma wrap_int64_id z : (int64_min <= z <= int64_max)%Z -> wrap_int64 z = z.
Proof.
  unfold int64_min, int64_max, wrap_int64. intros Hz.
  rewrite Z.mod_small; lia.
Qed.

Lemma wrap_int64_bounds z : (int64_min <= wrap_int64 z <= int64_max)%Z.
Proof.
  unfold int64_min, int64_max, wrap_int64.
  pose proof (Z.mod_pos_bound (z + 2 ^ 63) (2 ^ 64)). lia.
Qed.

Lemma wrap_uint64_id z : (0 <= z < 2 ^ 64)%Z -> wrap_uint64 z = z.
Proof. apply Z.mod_small. Qed.

Lemma int_in_range_spec bits z :
  int_in_range bits z = true <-> (- 2 ^ (bits - 1) <= z < 2 ^ (bits - 1))%Z.
Proof. unfold int_in_range. rewrite andb_true_iff, Z.leb_le, Z.ltb_lt. done. Qed.

(** ** Lists *)

(** First index whose element satisfies [p]: Go's search loops that return [i] or [-1]. *)
Fixpoint find_index {A} (p : A -> bool) (l : list A) : option nat :=
  match l with
  | [] => None
  | x :: l' => if p x then Some 0 else S <$> find_index p l'
  end.

Lemma find_index_Some {A} (p : A -> bool) l i :
  find_index p l = Some i ->
  exists x, l !! i = Some x /\ p x = true /\
            forall j y, j < i -> l !! j = Some y -> p y = false.
Proof.
  revert i. induction l as [|x l IH]; intros i; cbn; [done|].
  destruct (p x) eqn:Hp.
  - intros [= <-]. exists x. split_and!; [done..|]. lia.
  - intros (k & Hk & ->)%fmap_Some. destruct (IH _ Hk) as (y & ? & ? & Hmin).
    exists y. split_and!; [done..|]. intros [|j] z ?; cbn; [naive_solver|].
    apply Hmin. lia.
Qed.

Lemma find_index_None {A} (p : A -> bool) l :
  find_index p l = None <-> Forall (fun x => p x = false) l.
Proof.
  induction l as [|x l IH]; cbn; [by split|].
  rewrite Forall_cons. destruct (p x) eqn:Hp.
  - split; [done|naive_solver].
  - rewrite fmap_None, IH. naive_solver.
Qed.

Lemma find_index_lt {A} (p : A -> bool) l i : find_index p l = Some i -> i < length l.
Proof.
  intros (x & Hx & _)%find_index_Some. by apply lookup_lt_Some in Hx.
Qed.

(** Boolean [existsb]/[forallb] against membership. *)
Lemma existsb_elem_of {A} (p : A -> bool) l :
  existsb p l = true <-> exists x, x ∈ l /\ p x = true.
Proof.
  rewrite existsb_exists. setoid_rewrite list_elem_of_In. done.
Qed.

Lemma forallb_elem_of {A} (p : A -> bool) l :
  forallb p l = true <-> forall x, x ∈ l -> p x = true.
Proof.
  rewrite forallb_forall. setoid_rewrite list_elem_of_In. done.
Qed.

Lemma Forall_lookup_r {A} (P : A -> Prop) l i x : Forall P l -> l !! i = Some x -> P x.
Proof. rewrite Forall_lookup. eauto. Qed.

Lemma filter_filter_implied {A} (P Q : A -> Prop) 
    `{!forall x, Decision (P x)} `{!forall x, Decision (Q x)} (l : list A) :
  (forall x, x ∈ l -> P x -> Q x) -> filter P (filter Q l) = filter P l.
Proof.
  induction l as [|x l IH]; intros Himp; [done|].
  assert (filter P (filter Q l) = filter P l) as IH' by (apply IH; intros y ?; apply Himp; by right).
  rewrite !filter_cons. destruct (decide (Q x)) as [HQ|HQ]; rewrite ?filter_cons;
    destruct (decide (P x)) as [HP|HP]; rewrite ?IH'; try done.
  exfalso. apply HQ, Himp; [left|done].
Qed.

Lemma fmap_nil_iff {A B} (f : A -> B) (l : list A) : f <$> l = [] <-> l = [].
Proof. by destruct l. Qed.

Lemma filter_nil_iff {A} (P : A -> Prop) `{!forall x, Decision (P x)} (l : list A) :
  filter P l = [] <-> forall x, x ∈ l -> ~ P x.
Proof.
  split; [intros Hf x Hx HP; by eapply filter_nil_not_elem_of|].
  intros Hall. induction l as [|x l IH]; [done|]. rewrite filter_cons_False by (apply Hall; left).
  apply IH. intros y ?. apply Hall. by right.
Qed.

Lemma mapM_ext_elem {A B} (f g : A -> option B) l : (forall x, x ∈ l -> f x = g x) -> mapM f l = mapM g l.
Proof.
  induction l as [|x l IH]; [done|]. intros Hfg. cbn. rewrite (Hfg x) by left. by rewrite IH by (intros y ?; apply Hfg; by right).
Qed.

Lemma and_iff_compat (A B C D : Prop) : (A <-> C) -> (B <-> D) -> (A /\ B <-> C /\ D).
Proof. tauto. Qed.

(** ** Sorted lists *)

Lemma StronglySorted_sublist {A} (R : relation A) l k : l `sublist_of` k -> StronglySorted R k -> StronglySorted R l.
Proof.
  induction 1 as [|x l k Hlk IH|x l k Hlk IH]; [done|..]; inversion 1 as [|? ? Hs Hf]; subst; [|by apply IH].
  constructor; [by apply IH|]. rewrite Forall_forall in *. intros y Hy. apply Hf.
  by eapply elem_of_submseteq, sublist_submseteq.
Qed.

Lemma StronglySorted_reverse {A} (R S : relation A) l : (forall x y, R x y -> S y x) ->
  StronglySorted R l -> StronglySorted S (reverse l).
Proof.
  intros HRS. induction 1 as [|x l Hs IH Hf]; [constructor|]. rewrite reverse_cons.
  apply StronglySorted_app_2; [|done|by repeat constructor].
  intros y z Hy Hz. apply list_elem_of_singleton in Hz as ->. apply HRS. rewrite elem_of_reverse in Hy.
  rewrite Forall_forall in Hf. by apply Hf.
Qed.

Lemma StronglySorted_fmap {A B} (R : relation A) (S : relation B) (f : A -> B) l :
  (forall x y, x ∈ l -> y ∈ l -> R x y -> S (f x) (f y)) -> StronglySorted R l -> StronglySorted S (f <$> l).
Proof.
  intros HRS. induction 1 as [|x l Hs IH Hf]; [constructor|]. constructor.
  - apply IH. intros y z ? ?. apply HRS; by right.
  - rewrite Forall_forall in Hf. apply Forall_forall. intros y (z & -> & Hz)%list_elem_of_fmap. apply HRS; [left|by right|by apply Hf].
Qed.

Lemma StronglySorted_connected {A} (R : relation A) l x y : StronglySorted R l -> x ∈ l -> y ∈ l ->
  x = y \/ R x y \/ R y x.
Proof.
  induction 1 as [|z l Hs IH Hf]; [by intros ?%elem_of_nil|]. rewrite Forall_forall in Hf.
  intros [->|Hx]%elem_of_cons [->|Hy]%elem_of_cons; auto.
Qed.

(** ** Transitive closures *)

Lemma tc_split_r {A} (R : relation A) x y : tc R x y <-> exists z, rtc R x z /\ R z y.
Proof.
  split; [|intros (z & ? & ?); eapply tc_rtc_l; [done|by apply tc_once]].
  induction 1 as [x y Hxy|x y z Hxy _ (w & ? & ?)]; [by exists x|].
  exists w. split; [by eapply rtc_l|done].
Qed.

Lemma tc_split_l {A} (R : relation A) x y : tc R x y <-> exists z, R x z /\ rtc R z y.
Proof.
  split; [|intros (z & ? & ?); eapply tc_rtc_r; [by apply tc_once|done]].
  destruct 1 as [x y Hxy|x y z Hxy Hyz]; [by exists y|]. exists y. split; [done|by apply tc_rtc].
Qed.

Lemma tc_subrel {A} (R S : relation A) a b : (forall x y, R x y -> S x y) -> tc R a b -> tc S a b.
Proof. intros H. induction 1; [apply tc_once|eapply tc_l]; eauto. Qed.

(** ** Counting the entries of a map *)

Section Count.

Local Open Scope Z_scope.

Definition count_if {A} (P : A -> bool) (m : gmap nat A) : Z := Z.of_nat (size (filter (fun kv => P kv.2 = true) m)).

Lemma count_if_empty {A} (P : A -> bool) : count_if P ∅ = 0.
Proof. unfold count_if. rewrite map_filter_empty. by rewrite map_size_empty. Qed.

Lemma count_if_nonneg {A} (P : A -> bool) m : 0 <= count_if P m.
Proof. unfold count_if. lia. Qed.

Lemma count_if_new {A} (P : A -> bool) m i x : m !! i = None ->
  count_if P (<[i := x]> m) = count_if P m + Z.b2z (P x).
Proof.
  intros Hi. unfold count_if. rewrite map_filter_insert. cbn. destruct (P x) eqn:Hx; cbn.
  - rewrite decide_True by done. rewrite map_size_insert_None; [lia|]. apply map_lookup_filter_None. by left.
  - rewrite decide_False by done. rewrite map_filter_delete, delete_id; [lia|]. apply map_lookup_filter_None. by left.
Qed.

Lemma count_if_update {A} (P : A -> bool) m i x y : m !! i = Some x ->
  count_if P (<[i := y]> m) = count_if P m - Z.b2z (P x) + Z.b2z (P y).
Proof.
  intros Hi. pose proof (count_if_new P (delete i m) i x (lookup_delete_eq m i)) as Hx.
  pose proof (count_if_new P (delete i m) i y (lookup_delete_eq m i)) as Hy.
  rewrite insert_delete_id in Hx by done. rewrite insert_delete_eq in Hy. lia.
Qed.

Lemma count_if_zero {A} (P : A -> bool) m : count_if P m = 0 -> forall i x, m !! i = Some x -> P x = false.
Proof.
  intros Hc i x Hi. destruct (P x) eqn:Hx; [|done].
  assert (filter (fun kv => P kv.2 = true) m = ∅) as He by (apply map_size_empty_inv; unfold count_if in Hc; lia).
  assert (filter (fun kv => P kv.2 = true) m !! i = Some x) as Hf by (by apply map_lookup_filter_Some).
  by rewrite He in Hf.
Qed.

Lemma count_if_zero_iff {A} (P : A -> bool) m : count_if P m = 0 <-> forall i x, m !! i = Some x -> P x = false.
Proof.
  split; [apply count_if_zero|]. intros Ha. unfold count_if.
  assert (filter (fun kv => P kv.2 = true) m = ∅) as ->; [|by rewrite map_size_empty].
  apply map_empty. intros i. apply map_lookup_filter_None. right. intros x Hx Hp. cbn in Hp. by rewrite (Ha i x Hx) in Hp.
Qed.

End Count.

(** ** Tactics *)

(** Splits on the scrutinee of the first [match] or [if] of the goal, remembering it. *)
Ltac case_goal :=
  match goal with
  | |- context [match ?x with _ => _ end] => destruct x eqn:?
  end.

(** The same in a hypothesis. *)
Ltac case_hyp H :=
  match type of H with
  | context [match ?x with _ => _ end] => destruct x eqn:?
  end.

(** Turns boolean comparisons of integers in the context into propositions. *)
Ltac bool_to_prop :=
  repeat match goal with
  | H : (_ && _)%bool = true |- _ => apply andb_true_iff in H as [? ?]
  | H : (_ && _)%bool = false |- _ => apply andb_false_iff in H
  | H : (_ || _)%bool = false |- _ => apply orb_false_iff in H as [? ?]
  | H : (_ || _)%bool = true |- _ => apply orb_true_iff in H
  | H : negb _ = true |- _ => apply negb_true_iff in H
  | H : negb _ = false |- _ => apply negb_false_iff in H
  | H : (_ <? _)%Z = true |- _ => apply Z.ltb_lt in H
  | H : (_ <? _)%Z = false |- _ => apply Z.ltb_ge in H
  | H : (_ <=? _)%Z = true |- _ => apply Z.leb_le in H
  | H : (_ <=? _)%Z = false |- _ => apply Z.leb_gt in H
  | H : (_ =? _)%Z = true |- _ => apply Z.eqb_eq in H
  | H : (_ =? _)%Z = false |- _ => apply Z.eqb_neq in H
  | H : (_ <? _)%nat = true |- _ => apply Nat.ltb_lt in H
  | H : (_ <? _)%nat = false |- _ => apply Nat.ltb_ge in H
  | H : (_ <=? _)%nat = true |- _ => apply Nat.leb_le in H
  | H : (_ <=? _)%nat = false |- _ => apply Nat.leb_gt in H
  | H : (_ =? _)%nat = true |- _ => apply Nat.eqb_eq in H
  | H : (_ =? _)%nat = false |- _ => apply Nat.eqb_neq in H
  | H : bool_decide _ = true |- _ => apply bool_decide_eq_true in H
  | H : bool_decide _ = false |- _ => apply bool_decide_eq_false in H
  end.

Create HintDb performix.
#[export] Hint Resolve wrap_int64_bounds : performix.
#[export] Hint Rewrite @bind_Ok : performix.
