(* ===== verification/GoStrings.v ===== *)
(** * Performix: the Go string functions the sources use

    A Go string is a sequence of bytes, modelled by [string] (a list of 8-bit
    characters). The functions below follow the documentation of Go's [strings] and
    [strconv] packages for the arguments the program passes; separators are single
    bytes wherever the sources only use single-byte separators. *)

From S2P Require Import Prelude.
From Stdlib Require Import Ascii DecimalString DecimalN Decimal.
From Stdlib Require String.

Local Open Scope Z_scope.

#[global] Arguments Ascii.eqb : simpl never.
#[global] Arguments N_of_ascii : simpl never.

(** ** Lengths and slices *)

Definition len (s : string) : Z := Z.of_nat (String.length s).

Fixpoint sdrop (n : nat) (s : string) : string :=
  match n, s with
  | O, _ => s
  | S n', EmptyString => EmptyString
  | S n', String _ s' => sdrop n' s'
  end.

Fixpoint stake (n : nat) (s : string) : string :=
  match n, s with
  | O, _ => EmptyString
  | S n', EmptyString => EmptyString
  | S n', String c s' => String c (stake n' s')
  end.

(** [s[i:j]] *)
Definition slice (s : string) (i j : Z) : string :=
  sdrop (Z.to_nat i) (stake (Z.to_nat j) s).

(** ** Prefixes, suffixes, search *)

Definition HasPrefix (s pre : string) : bool := String.prefix pre s.

Fixpoint HasSuffix (s suf : string) : bool :=
  bool_decide (s = suf) ||
  match s with EmptyString => false | String _ s' => HasSuffix s' suf end.

Definition TrimPrefix (s pre : string) : string :=
  if HasPrefix s pre then sdrop (String.length pre) s else s.

(** [strings.Index]: the first position where [sub] occurs, or -1. *)
Fixpoint index_from (i : Z) (s sub : string) : Z :=
  if HasPrefix s sub then i
  else match s with
       | EmptyString => -1
       | String _ s' => index_from (i + 1) s' sub
       end.
Definition Index (s sub : string) : Z := index_from 0 s sub.

(** [strings.LastIndex]: the last position where [sub] occurs, or -1. *)
Fixpoint last_index_from (i acc : Z) (s sub : string) : Z :=
  let acc' := if HasPrefix s sub then i else acc in
  match s with
  | EmptyString => acc'
  | String _ s' => last_index_from (i + 1) acc' s' sub
  end.
Definition LastIndex (s sub : string) : Z := last_index_from 0 (-1) s sub.

Definition Contains (s sub : string) : bool := negb (Index s sub =? -1).

(** [strings.Count] for a one-byte substring. *)
Fixpoint CountByte (s : string) (c : ascii) : Z :=
  match s with
  | EmptyString => 0
  | String d s' => (if Ascii.eqb d c then 1 else 0) + CountByte s' c
  end.

(** ** Splitting and joining *)

(** [strings.Split] with a one-byte separator: never the empty list. *)
Fixpoint Split (sep : ascii) (s : string) : list string :=
  match s with
  | EmptyString => [EmptyString]
  | String c s' =>
      if Ascii.eqb c sep then EmptyString :: Split sep s'
      else match Split sep s' with
           | [] => [String c EmptyString]
           | w :: ws => String c w :: ws
           end
  end.

(** [strings.Cut] with a one-byte separator. *)
Fixpoint Cut (sep : ascii) (s : string) : option (string * string) :=
  match s with
  | EmptyString => None
  | String c s' =>
      if Ascii.eqb c sep then Some (EmptyString, s')
      else match Cut sep s' with
           | Some (a, b) => Some (String c a, b)
           | None => None
           end
  end.

(** [strings.SplitN] with a one-byte separator and a positive bound. *)
Fixpoint SplitN (sep : ascii) (n : nat) (s : string) : list string :=
  match n with
  | O => []
  | S O => [s]
  | S n' => match Cut sep s with
            | Some (a, b) => a :: SplitN sep n' b
            | None => [s]
            end
  end.

Fixpoint Join (sep : string) (l : list string) : string :=
  match l with
  | [] => EmptyString
  | [w] => w
  | w :: ws => w +:+ sep +:+ Join sep ws
  end.

(** ** White space

    [strings.TrimSpace] removes the Unicode white space characters; these are their
    UTF-8 encodings. *)

Definition bytes (l : list nat) : string :=
  fold_right (fun n s => String (ascii_of_nat n) s) EmptyString l.

Definition space_encodings : list string :=
  map bytes
    [[9]; [10]; [11]; [12]; [13]; [32]; [194; 133]; [194; 160]; [225; 154; 128];
     [226; 128; 128]; [226; 128; 129]; [226; 128; 130]; [226; 128; 131];
     [226; 128; 132]; [226; 128; 133]; [226; 128; 134]; [226; 128; 135];
     [226; 128; 136]; [226; 128; 137]; [226; 128; 138]; [226; 128; 168];
     [226; 128; 169]; [226; 128; 175]; [226; 129; 159]; [227; 128; 128]]%nat.

#[global] Arguments space_encodings : simpl never.

Fixpoint trim_left_fuel (fuel : nat) (s : string) : string :=
  match fuel with
  | O => s
  | S fuel' =>
      match find_index (HasPrefix s) space_encodings with
      | Some i => trim_left_fuel fuel' (sdrop (String.length (nth i space_encodings EmptyString)) s)
      | None => s
      end
  end.

Fixpoint trim_right_fuel (fuel : nat) (s : string) : string :=
  match fuel with
  | O => s
  | S fuel' =>
      match find_index (HasSuffix s) space_encodings with
      | Some i =>
          trim_right_fuel fuel'
            (stake (String.length s - String.length (nth i space_encodings EmptyString)) s)
      | None => s
      end
  end.

Definition TrimSpace (s : string) : string :=
  let t := trim_left_fuel (String.length s) s in trim_right_fuel (String.length t) t.

(** ** UTF-8

    The width of the character that starts a string, as [range] over a string steps:
    an invalid encoding is one byte wide. *)

Definition byte_of (c : ascii) : Z := Z.of_N (N_of_ascii c).
Definition between (lo hi : Z) (c : ascii) : bool := (lo <=? byte_of c) && (byte_of c <=? hi).
Definition is_continuation : ascii -> bool := between 128 191.

Definition rune_len (s : string) : nat :=
  match s with
  | EmptyString => 0%nat
  | String b0 s1 =>
      if between 194 223 b0 then
        match s1 with String b1 _ => if is_continuation b1 then 2%nat else 1%nat | _ => 1%nat end
      else if between 224 239 b0 then
        match s1 with
        | String b1 (String b2 _) =>
            if between (if byte_of b0 =? 224 then 160 else 128) (if byte_of b0 =? 237 then 159 else 191) b1
               && is_continuation b2 then 3%nat else 1%nat
        | _ => 1%nat
        end
      else if between 240 244 b0 then
        match s1 with
        | String b1 (String b2 (String b3 _)) =>
            if between (if byte_of b0 =? 240 then 144 else 128) (if byte_of b0 =? 244 then 143 else 191) b1
               && is_continuation b2 && is_continuation b3 then 4%nat else 1%nat
        | _ => 1%nat
        end
      else 1%nat
  end.

(** ** Numbers *)

(** [strconv.Itoa] and the [%d] verb. *)
Definition Itoa (z : Z) : string :=
  if z <? 0 then String "-" (NilEmpty.string_of_uint (N.to_uint (Z.abs_N z)))
  else NilEmpty.string_of_uint (N.to_uint (Z.to_N z)).

(** Digits only, at least one. *)
Definition parse_digits (s : string) : option Z :=
  match s with
  | EmptyString => None
  | _ => (fun d => Z.of_N (N.of_uint d)) <$> NilEmpty.uint_of_string s
  end.

(** [strconv.ParseInt(s, 10, bits)]; [None] stands for every error it returns. *)
Definition ParseInt (bits : Z) (s : string) : option Z :=
  let (neg, ds) := match s with
                   | String "+" s' => (false, s')
                   | String "-" s' => (true, s')
                   | _ => (false, s)
                   end in
  z ← parse_digits ds;
  let v := if neg : bool then - z else z in
  if int_in_range bits v then Some v else None.

Definition Atoi : string -> option Z := ParseInt 64.

(** ** Facts *)

(** All bytes of [s] satisfy [P]. *)
Fixpoint sall (P : ascii -> bool) (s : string) : bool :=
  match s with
  | EmptyString => true
  | String c s' => P c && sall P s'
  end.

Definition is_digit (c : ascii) : bool :=
  (48 <=? Z.of_N (N_of_ascii c)) && (Z.of_N (N_of_ascii c) <=? 57).

Lemma sapp_nil_r s : s +:+ EmptyString = s.
Proof. induction s as [|c s IH]; [done|]. cbn. unfold String.app in *. by rewrite IH. Qed.

Lemma sapp_nil_l s : EmptyString +:+ s = s.
Proof. done. Qed.

Lemma sapp_cons c s t : String c s +:+ t = String c (s +:+ t).
Proof. done. Qed.

Lemma stake_prefix s t : stake (String.length s) (s +:+ t) = s.
Proof. induction s as [|c s IH]; [by destruct t|]. rewrite sapp_cons. cbn. by rewrite IH. Qed.

Lemma sapp_assoc s t u : (s +:+ t) +:+ u = s +:+ (t +:+ u).
Proof. induction s as [|c s IH]; [done|]. rewrite !sapp_cons. by rewrite IH. Qed.

Lemma slength_app s t : String.length (s +:+ t) = (String.length s + String.length t)%nat.
Proof. induction s as [|c s IH]; [done|]. rewrite sapp_cons. cbn. by rewrite IH. Qed.

Lemma sall_app P s t : sall P (s +:+ t) = sall P s && sall P t.
Proof. induction s as [|c s IH]; [done|]. rewrite sapp_cons. cbn. by rewrite IH, andb_assoc. Qed.

Lemma sall_impl (P Q : ascii -> bool) s :
  (forall c, P c = true -> Q c = true) -> sall P s = true -> sall Q s = true.
Proof.
  intros HPQ. induction s as [|c s IH]; [done|]. cbn.
  intros [Hc Hs]%andb_true_iff. by rewrite HPQ, IH.
Qed.

Lemma sdrop_app s t : sdrop (String.length s) (s +:+ t) = t.
Proof. induction s as [|c s IH]; [done|]. rewrite sapp_cons. exact IH. Qed.

Lemma stake_length s : stake (String.length s) s = s.
Proof. induction s as [|c s IH]; [done|]. cbn. by rewrite IH. Qed.

Lemma slice_full s : slice s 0 (len s) = s.
Proof. unfold slice, len. rewrite Nat2Z.id, stake_length. done. Qed.

Lemma prefix_app s t : HasPrefix (s +:+ t) s = true.
Proof.
  induction s as [|c s IH]; [by destruct t|].
  rewrite sapp_cons. cbn. destruct (ascii_dec c c); [exact IH|done].
Qed.

Lemma prefix_spec s p : HasPrefix s p = true <-> exists t, s = p +:+ t.
Proof.
  split; [|intros [t ->]; apply prefix_app].
  revert s. induction p as [|c p IH]; intros s; [by exists s|].
  destruct s as [|d s]; [done|]. cbn. destruct (ascii_dec c d) as [->|]; [|done].
  intros [t ->]%IH. by exists t.
Qed.

Lemma TrimPrefix_app p t : TrimPrefix (p +:+ t) p = t.
Proof. unfold TrimPrefix. by rewrite prefix_app, sdrop_app. Qed.

Lemma suffix_spec s t : HasSuffix s t = true <-> exists u, s = u +:+ t.
Proof.
  induction s as [|c s IH]; cbn.
  - rewrite orb_false_r, bool_decide_eq_true. split.
    + intros <-. by exists EmptyString.
    + intros [[|] Hu]; done.
  - rewrite orb_true_iff, bool_decide_eq_true, IH. split.
    + intros [<-|[u ->]]; [by exists EmptyString|]. by exists (String c u).
    + intros [[|d u] Hu]; [by left|]. right.
      rewrite sapp_cons in Hu. injection Hu as -> ->. by exists u.
Qed.

Lemma suffix_sall P s t : HasSuffix s t = true -> sall P s = true -> sall P t = true.
Proof. intros [u ->]%suffix_spec. rewrite sall_app. by intros [_ ?]%andb_true_iff. Qed.

Lemma prefix_sall P s t : HasPrefix s t = true -> sall P s = true -> sall P t = true.
Proof. intros [u ->]%prefix_spec. rewrite sall_app. by intros [? _]%andb_true_iff. Qed.

(** A byte that does not occur. *)
Definition byte_free (c : ascii) : string -> bool := sall (fun d => negb (Ascii.eqb d c)).

Lemma index_from_byte_free c i s : byte_free c s = true -> index_from i s (String c EmptyString) = -1.
Proof.
  revert i. induction s as [|d s IH]; intros i; cbn; [done|].
  intros [Hd%negb_true_iff%Ascii.eqb_neq Hs]%andb_true_iff.
  destruct (ascii_dec c d); [congruence|]. by apply IH.
Qed.

Lemma Index_byte_free c s : byte_free c s = true -> Index s (String c EmptyString) = -1.
Proof. apply index_from_byte_free. Qed.

Lemma CountByte_byte_free c s : byte_free c s = true -> CountByte s c = 0.
Proof.
  induction s as [|d s IH]; cbn; [done|].
  intros [Hd%negb_true_iff Hs]%andb_true_iff. by rewrite Hd, IH.
Qed.

Lemma Split_byte_free c s : byte_free c s = true -> Split c s = [s].
Proof.
  induction s as [|d s IH]; cbn; [done|].
  intros [Hd%negb_true_iff Hs]%andb_true_iff. by rewrite Hd, IH.
Qed.

Lemma Split_cons_sep c s t : byte_free c s = true ->
  Split c (s +:+ String c t) = s :: Split c t.
Proof.
  induction s as [|d s IH]; [rewrite sapp_nil_l; cbn; by rewrite Ascii.eqb_refl|].
  rewrite sapp_cons. cbn. intros [Hd%negb_true_iff Hs]%andb_true_iff.
  by rewrite Hd, IH.
Qed.

Lemma Split_nonempty c s : Split c s <> [].
Proof. induction s as [|d s IH]; cbn; [done|]. repeat case_match; done. Qed.

(** [strings.Split] undoes [strings.Join] on fields without the separator. *)
Lemma Split_Join c l :
  l <> [] -> Forall (fun w => byte_free c w = true) l ->
  Split c (Join (String c EmptyString) l) = l.
Proof.
  induction l as [|w l IH]; [done|]. intros _ [Hw Hl]%Forall_cons.
  destruct l as [|w' l]; [by apply Split_byte_free|].
  change (Split c (w +:+ String c (Join (String c EmptyString) (w' :: l))) = w :: w' :: l).
  rewrite Split_cons_sep by done. rewrite IH; done.
Qed.

(** And the other way round, with no condition. *)
Lemma Join_Split c s : Join (String c EmptyString) (Split c s) = s.
Proof.
  induction s as [|d s IH]; [done|]. cbn.
  destruct (Ascii.eqb d c) eqn:Hd.
  - apply Ascii.eqb_eq in Hd as ->. destruct (Split c s) eqn:Hs; [by apply Split_nonempty in Hs|].
    change (String c (Join (String c EmptyString) (s0 :: l)) = String c s). by rewrite IH.
  - destruct (Split c s) as [|w [|w' ws]] eqn:Hs; [by apply Split_nonempty in Hs|..].
    + cbn in *. by rewrite IH.
    + change (String d (Join (String c EmptyString) (w :: w' :: ws)) = String d s). by rewrite IH.
Qed.

Lemma Split_fields_free c s : Forall (fun w => byte_free c w = true) (Split c s).
Proof.
  induction s as [|d s IH]; cbn; [by constructor|].
  destruct (Ascii.eqb d c) eqn:Hd; [by constructor|].
  destruct (Split c s) as [|w ws]; [by repeat constructor; cbn; rewrite Hd|].
  apply Forall_cons in IH as [Hw Hws]. constructor; [|done].
  cbn. rewrite Hd. exact Hw.
Qed.

Lemma Cut_Some c s a b : Cut c s = Some (a, b) <-> s = a +:+ String c b /\ byte_free c a = true.
Proof.
  revert a. induction s as [|d s IH]; intros a; cbn.
  { split; [done|]. intros [Ha _]. destruct a; done. }
  destruct (Ascii.eqb d c) eqn:Hd.
  - apply Ascii.eqb_eq in Hd as ->. split; [by intros [= <- <-]|].
    intros [Ha Hf]. destruct a as [|e a]; [by injection Ha as ->|].
    rewrite sapp_cons in Ha. injection Ha as <- _. cbn in Hf. by rewrite Ascii.eqb_refl in Hf.
  - destruct (Cut c s) as [[a' b']|] eqn:Hc.
    + split.
      * intros [= <- <-]. destruct (IH a') as [IH' _]. destruct (IH' eq_refl) as [-> Hf].
        split; [done|]. cbn. by rewrite Hd.
      * intros [Ha Hf]. destruct a as [|e a]; [injection Ha as ->; by rewrite Ascii.eqb_refl in Hd|].
        rewrite sapp_cons in Ha. injection Ha as <- Ha. cbn in Hf. apply andb_true_iff in Hf as [_ Hf].
        destruct (IH a) as [_ IH']. specialize (IH' (conj Ha Hf)). by injection IH' as -> ->.
    + split; [done|]. intros [Ha Hf].
      destruct a as [|e a]; [injection Ha as ->; by rewrite Ascii.eqb_refl in Hd|].
      rewrite sapp_cons in Ha. injection Ha as <- Ha. cbn in Hf. apply andb_true_iff in Hf as [_ Hf].
      destruct (IH a) as [_ IH']. by specialize (IH' (conj Ha Hf)).
Qed.

(** ** Decimal numerals *)

Lemma uint_string_digits d : sall is_digit (NilEmpty.string_of_uint d) = true.
Proof. induction d; cbn; done. Qed.

Lemma Itoa_digits z : 0 <= z -> sall is_digit (Itoa z) = true.
Proof.
  intros Hz. unfold Itoa. destruct (Z.ltb_spec z 0); [lia|]. apply uint_string_digits.
Qed.

Lemma uint_string_nonempty n : NilEmpty.string_of_uint (N.to_uint n) <> EmptyString.
Proof.
  destruct (N.to_uint n) eqn:Hn; cbn; try done.
  assert (N.of_uint (N.to_uint n) = N.of_uint Decimal.Nil) as H0 by by rewrite Hn.
  rewrite DecimalN.Unsigned.of_to in H0. cbn in H0. by subst n.
Qed.

Lemma parse_digits_string n : parse_digits (NilEmpty.string_of_uint (N.to_uint n)) = Some (Z.of_N n).
Proof.
  unfold parse_digits.
  destruct (NilEmpty.string_of_uint (N.to_uint n)) eqn:Hs; [by apply uint_string_nonempty in Hs|].
  rewrite <- Hs, NilEmpty.usu. cbn. by rewrite DecimalN.Unsigned.of_to.
Qed.

(** [strconv.ParseInt] reads back what [%d] prints. *)
Lemma ParseInt_Itoa bits z : int_in_range bits z = true -> ParseInt bits (Itoa z) = Some z.
Proof.
  intros Hz. unfold ParseInt, Itoa. destruct (Z.ltb_spec z 0) as [Hneg|Hpos].
  - rewrite parse_digits_string. cbn. rewrite N2Z.inj_abs_N.
    replace (- Z.abs z) with z by lia. by rewrite Hz.
  - pose proof (uint_string_digits (N.to_uint (Z.to_N z))) as Hd.
    pose proof (parse_digits_string (Z.to_N z)) as Hp.
    destruct (NilEmpty.string_of_uint (N.to_uint (Z.to_N z))) as [|c s] eqn:Hs;
      [by apply uint_string_nonempty in Hs|].
    assert (forall d, is_digit d = false -> c <> d) as Hne.
    { intros d Hf ->. cbn in Hd. by rewrite Hf in Hd. }
    assert (match String c s with
            | String "+" s' => (false, s') | String "-" s' => (true, s') | _ => (false, String c s)
            end = (false, String c s)) as ->.
    { assert (c <> "+"%char /\ c <> "-"%char) as [Hp1 Hm1] by (split; apply Hne; done).
      destruct c as [[] [] [] [] [] [] [] []]; try done. }
    rewrite Hp. cbn. rewrite Z2N.id by lia. by rewrite Hz.
Qed.

Lemma ParseInt_range bits s z : ParseInt bits s = Some z -> int_in_range bits z = true.
Proof.
  unfold ParseInt. case_match. intros (v & _ & Hv)%bind_Some. cbn in Hv.
  by destruct (int_in_range bits (if b then - v else v)) eqn:Hr; [injection Hv as <-|].
Qed.

(** Strings free of white space bytes are fixed by [strings.TrimSpace]. *)
Definition not_space (c : ascii) : bool :=
  forallb (fun e => match e with String d _ => negb (Ascii.eqb c d) | _ => true end) space_encodings &&
  forallb (fun e => negb (HasSuffix (String c EmptyString) e)) space_encodings &&
  (Z.of_N (N_of_ascii c) <? 128).

Lemma no_space_prefix s : sall not_space s = true -> find_index (HasPrefix s) space_encodings = None.
Proof.
  intros Hs. apply find_index_None, Forall_forall. intros e He.
  destruct (HasPrefix s e) eqn:Hp; [|done]. exfalso.
  apply (prefix_sall not_space _ _ Hp) in Hs.
  assert (forallb (fun e => negb (sall not_space e)) space_encodings = true) as Hall by done.
  rewrite forallb_elem_of in Hall. specialize (Hall e He). by rewrite Hs in Hall.
Qed.

Lemma no_space_suffix s : sall not_space s = true -> find_index (HasSuffix s) space_encodings = None.
Proof.
  intros Hs. apply find_index_None, Forall_forall. intros e He.
  destruct (HasSuffix s e) eqn:Hp; [|done]. exfalso.
  apply (suffix_sall not_space _ _ Hp) in Hs.
  assert (forallb (fun e => negb (sall not_space e)) space_encodings = true) as Hall by done.
  rewrite forallb_elem_of in Hall. specialize (Hall e He). by rewrite Hs in Hall.
Qed.

Lemma TrimSpace_id s : sall not_space s = true -> TrimSpace s = s.
Proof.
  intros Hs. unfold TrimSpace.
  assert (forall n, trim_left_fuel n s = s) as ->.
  { intros [|n]; cbn [trim_left_fuel]; [done|]. by rewrite no_space_prefix. }
  destruct (String.length s) eqn:?; [done|]. cbn [trim_right_fuel]. by rewrite no_space_suffix.
Qed.

#[export] Hint Rewrite sapp_nil_r sapp_assoc sall_app : gostrings.

(** Decimal printing of naturals is injective, and never prints an underscore. *)
Lemma Itoa_inj a b : 0 <= a -> 0 <= b -> Itoa a = Itoa b -> a = b.
Proof.
  unfold Itoa. intros Ha Hb. destruct (Z.ltb_spec a 0), (Z.ltb_spec b 0); try lia.
  intros H1%(f_equal parse_digits). rewrite !parse_digits_string in H1.
  injection H1 as H1. lia.
Qed.

Lemma digits_byte_free c s : is_digit c = false -> sall is_digit s = true -> byte_free c s = true.
Proof.
  intros Hc. apply sall_impl. intros d Hd.
  destruct (Ascii.eqb_spec d c) as [->|]; [by rewrite Hc in Hd|done].
Qed.

(** A string is cut in only one way at its last separator. *)
Lemma last_cut_unique c a1 a2 b1 b2 : byte_free c b1 = true -> byte_free c b2 = true ->
  a1 +:+ String c b1 = a2 +:+ String c b2 -> a1 = a2 /\ b1 = b2.
Proof.
  assert (forall s b, byte_free c (s +:+ String c b) = true -> False) as Hbad.
  { intros s b. unfold byte_free. rewrite sall_app. cbn. rewrite Ascii.eqb_refl. cbn.
    by rewrite andb_false_r. }
  intros H1 H2. revert a2. induction a1 as [|x a1 IH]; intros [|y a2].
  - rewrite !sapp_nil_l. by intros [= ->].
  - rewrite sapp_nil_l, sapp_cons. intros [= -> ->]. by apply Hbad in H1.
  - rewrite sapp_nil_l, sapp_cons. intros [= -> <-]. by apply Hbad in H2.
  - rewrite !sapp_cons. intros [= -> Ha]. by destruct (IH a2 Ha) as [-> ->].
Qed.

Lemma byte_prefix c d s : HasPrefix (String d s) (String c EmptyString) = Ascii.eqb d c.
Proof.
  apply eq_true_iff_eq. rewrite prefix_spec, Ascii.eqb_eq. split; [intros [t Ht]; by injection Ht|]. intros ->. by exists s.
Qed.

Lemma last_index_from_free c acc b : forall i, byte_free c b = true -> last_index_from i acc b (String c EmptyString) = acc.
Proof.
  induction b as [|d b IH]; intros i Hb; [done|]. cbn in Hb. apply andb_true_iff in Hb as [Hd Hb].
  unfold last_index_from; fold last_index_from. rewrite byte_prefix. apply negb_true_iff in Hd. rewrite Hd. by apply IH.
Qed.

Lemma last_index_from_app c b : byte_free c b = true -> forall a i acc,
  last_index_from i acc (a +:+ String c b) (String c EmptyString) = i + Z.of_nat (String.length a).
Proof.
  intros Hb. induction a as [|d a IH]; intros i acc.
  - rewrite sapp_nil_l. unfold last_index_from; fold last_index_from. rewrite byte_prefix, Ascii.eqb_refl.
    rewrite last_index_from_free by done. cbn. lia.
  - rewrite sapp_cons. unfold last_index_from at 1; fold last_index_from. rewrite IH. cbn [String.length]. lia.
Qed.

(** ** The value of a string of digits *)

Fixpoint digits_value (s : string) (acc : Z) : Z :=
  match s with
  | EmptyString => acc
  | String c s' => digits_value s' (10 * acc + (byte_of c - 48))
  end.

Lemma digits_value_app s t acc : digits_value (s +:+ t) acc = digits_value t (digits_value s acc).
Proof. revert acc. induction s as [|c s IH]; intros acc; [by rewrite sapp_nil_l|]. rewrite sapp_cons. apply IH. Qed.

Lemma digit_range c : is_digit c = true -> 0 <= byte_of c - 48 <= 9.
Proof. unfold is_digit, between, byte_of. intros H. bool_to_prop. lia. Qed.

Lemma digits_value_bounds s : forall acc, sall is_digit s = true -> 0 <= acc ->
  acc * 10 ^ len s <= digits_value s acc < (acc + 1) * 10 ^ len s.
Proof.
  induction s as [|c s IH]; intros acc Hs Hacc; [change (len EmptyString) with 0; cbn [digits_value]; lia|].
  cbn [sall] in Hs. apply andb_true_iff in Hs as [Hc%digit_range Hs].
  cbn [digits_value]. specialize (IH (10 * acc + (byte_of c - 48)) Hs ltac:(lia)).
  assert (len (String c s) = len s + 1) as -> by (unfold len; cbn [String.length]; lia).
  rewrite Z.pow_add_r by (unfold len; lia). nia.
Qed.

(** The value of a parsed numeral, digit by digit. *)
Fixpoint uint_value (d : Decimal.uint) (acc : N) : N :=
  match d with
  | Decimal.Nil => acc
  | Decimal.D0 d => uint_value d (10 * acc)
  | Decimal.D1 d => uint_value d (10 * acc + 1)
  | Decimal.D2 d => uint_value d (10 * acc + 2)
  | Decimal.D3 d => uint_value d (10 * acc + 3)
  | Decimal.D4 d => uint_value d (10 * acc + 4)
  | Decimal.D5 d => uint_value d (10 * acc + 5)
  | Decimal.D6 d => uint_value d (10 * acc + 6)
  | Decimal.D7 d => uint_value d (10 * acc + 7)
  | Decimal.D8 d => uint_value d (10 * acc + 8)
  | Decimal.D9 d => uint_value d (10 * acc + 9)
  end%N.

Lemma of_uint_acc_value d : forall p, Npos (Pos.of_uint_acc d p) = uint_value d (Npos p).
Proof. induction d; intros p; cbn [Pos.of_uint_acc uint_value]; [done|..]; rewrite IHd; apply (f_equal (uint_value d)); lia. Qed.

Lemma of_uint_value d : N.of_uint d = uint_value d 0.
Proof.
  unfold N.of_uint. induction d; cbn [Pos.of_uint uint_value]; [done|done|..]; rewrite of_uint_acc_value; apply (f_equal (uint_value d)); lia.
Qed.

Lemma uint_of_string_value s : forall d acc, sall is_digit s = true -> NilEmpty.uint_of_string s = Some d ->
  Z.of_N (uint_value d acc) = digits_value s (Z.of_N acc).
Proof.
  induction s as [|c s IH]; intros d acc Hs; cbn [NilEmpty.uint_of_string]; [by intros [= <-]|].
  cbn [sall] in Hs. apply andb_true_iff in Hs as [Hc Hs].
  destruct (NilEmpty.uint_of_string s) as [d'|]; [|by destruct c as [[] [] [] [] [] [] [] []]].
  cbn [digits_value]. specialize (IH d').
  destruct c as [[] [] [] [] [] [] [] []]; try discriminate Hc; intros [= <-]; cbn [uint_value];
    rewrite IH by done; apply (f_equal (digits_value s));
    match goal with |- context [byte_of ?c] => let v := eval vm_compute in (byte_of c) in change (byte_of c) with v end;
    lia.
Qed.

Lemma uint_of_string_digits s : sall is_digit s = true -> is_Some (NilEmpty.uint_of_string s).
Proof.
  induction s as [|c s IH]; intros Hs; [by eexists|]. cbn [sall] in Hs. apply andb_true_iff in Hs as [Hc Hs].
  cbn [NilEmpty.uint_of_string]. destruct (IH Hs) as [d ->].
  destruct c as [[] [] [] [] [] [] [] []]; try discriminate Hc; by eexists.
Qed.

Lemma parse_digits_value s : sall is_digit s = true -> s <> EmptyString -> parse_digits s = Some (digits_value s 0).
Proof.
  intros Hs Hne. unfold parse_digits. destruct s as [|c s]; [done|].
  destruct (uint_of_string_digits _ Hs) as [d Hd]. rewrite Hd. cbn [fmap option_fmap option_map]. f_equal.
  rewrite of_uint_value. by apply (uint_of_string_value _ d 0%N).
Qed.

Lemma ParseInt_digits bits s : sall is_digit s = true -> s <> EmptyString ->
  ParseInt bits s = if int_in_range bits (digits_value s 0) then Some (digits_value s 0) else None.
Proof.
  intros Hs Hne. pose proof (parse_digits_value s Hs Hne) as Hp. unfold ParseInt.
  destruct s as [|c s]; [done|]. cbn [sall] in Hs. apply andb_true_iff in Hs as [Hc _].
  destruct c as [[] [] [] [] [] [] [] []]; try discriminate Hc; rewrite Hp; reflexivity.
Qed.
