(* ===== verification/Sorting.v ===== *)
(** * Performix: sorting and searching

    What the sources use of Go's [sort]: comparisons that look at one key after the other,
    [sort.Slice] and [sort.SliceStable] as a class of functions that return a sorted permutation,
    and the binary search of [sort.Search]. *)

From S2P Require Import Prelude.

(** ** Comparisons *)

Definition asc {A} (key : A -> Z) (a b : A) : comparison := Z.compare (key a) (key b).
Definition desc {A} (key : A -> Z) (a b : A) : comparison := Z.compare (key b) (key a).
Definition asc_string {A} (key : A -> string) (a b : A) : comparison := String.compare (key a) (key b).
Definition then_by {A} (c d : A -> A -> comparison) (a b : A) : comparison :=
  match c a b with Eq => d a b | r => r end.

(** The function [less] of a sort. *)
Definition less {A} (c : A -> A -> comparison) (a b : A) : bool := match c a b with Lt => true | _ => false end.
Definition not_after {A} (c : A -> A -> comparison) (a b : A) : Prop := c a b <> Gt.

#[export] Instance not_after_dec {A} (c : A -> A -> comparison) : RelDecision (not_after c).
Proof. intros a b. unfold not_after. destruct (c a b); [by left|by left|right; by intros []]. Defined.

Class Order {A} (c : A -> A -> comparison) : Prop := {
  order_opp a b : c b a = CompOpp (c a b);
  order_trans x y z : not_after c x y -> not_after c y z -> not_after c x z
}.

#[export] Instance asc_order {A} (key : A -> Z) : Order (asc key).
Proof.
  split; unfold not_after, asc; intros *; [by rewrite Z.compare_antisym|]. change (~ (key x > key y)%Z -> ~ (key y > key z)%Z -> ~ (key x > key z)%Z). lia.
Qed.

#[export] Instance desc_order {A} (key : A -> Z) : Order (desc key).
Proof.
  split; unfold not_after, desc; intros *; [by rewrite Z.compare_antisym|]. change (~ (key y > key x)%Z -> ~ (key z > key y)%Z -> ~ (key z > key x)%Z). lia.
Qed.

#[export] Instance asc_string_order {A} (key : A -> string) : Order (asc_string key).
Proof.
  split; unfold not_after, asc_string; intros *; [apply String.compare_antisym|].
  generalize (key x) (key y) (key z). clear. intros s t u.
  revert t u. induction s as [|a s IH]; intros [|b t] [|d u]; cbn; try done.
  destruct (Ascii.compare a b) eqn:Hab, (Ascii.compare b d) eqn:Hbd, (Ascii.compare a d) eqn:Had; try done;
    unfold Ascii.compare in *; rewrite ?N.compare_eq_iff, ?N.compare_lt_iff, ?N.compare_gt_iff in *; try lia.
  apply IH.
Qed.

Lemma order_eq {A} (c : A -> A -> comparison) `{Order A c} a b : c a b = Eq -> c b a = Eq.
Proof. intros Hc. by rewrite order_opp, Hc. Qed.

Lemma order_refl {A} (c : A -> A -> comparison) `{Order A c} a : c a a = Eq.
Proof. pose proof (order_opp a a) as Ho. by destruct (c a a). Qed.

Lemma order_gt {A} (c : A -> A -> comparison) `{Order A c} a b : c a b = Gt -> not_after c b a.
Proof. unfold not_after. intros Hc. by rewrite order_opp, Hc. Qed.

#[export] Instance then_by_order {A} (c d : A -> A -> comparison) `{Hc : Order A c} `{Hd : Order A d} : Order (then_by c d).
Proof.
  split; unfold not_after, then_by; intros *.
  - rewrite (order_opp (c := c)). destruct (c a b); cbn; [apply order_opp|done..].
  - intros Hxy Hyz.
    assert (forall u v, c u v = Lt -> not_after c v u -> False) as Hlt
      by (intros u v Huv; unfold not_after; by rewrite (order_opp (c := c) u v), Huv).
    pose proof (order_trans (c := c) x y z) as Hxz. unfold not_after in Hxz.
    destruct (c x y) eqn:E1, (c y z) eqn:E2; try done; (destruct (c x z) eqn:E3; [|done|by exfalso; apply Hxz]).
    + by apply (order_trans (c := d) x y z).
    + exfalso. apply order_eq in E3; [|done]. apply (Hlt _ _ E2), (order_trans (c := c) z x y); unfold not_after; congruence.
    + exfalso. apply order_eq in E3; [|done]. apply (Hlt _ _ E1), (order_trans (c := c) y z x); unfold not_after; congruence.
    + exfalso. apply order_eq in E3; [|done]. apply (Hlt _ _ E1), (order_trans (c := c) y z x); unfold not_after; congruence.
Qed.

#[export] Instance not_after_trans {A} (c : A -> A -> comparison) `{Order A c} : Transitive (not_after c).
Proof. intros x y z. apply order_trans. Qed.

#[export] Instance not_after_total {A} (c : A -> A -> comparison) `{Order A c} : Total (not_after c).
Proof. intros x y. destruct (c x y) eqn:Hc; [left; unfold not_after; congruence..|right; by apply order_gt]. Qed.

(** ** Sorting *)

Class Sorts {A} (c : A -> A -> comparison) (sort : list A -> list A) : Prop := {
  sort_permutes l : sort l ≡ₚ l;
  sort_sorted l : StronglySorted (not_after c) (sort l)
}.

Definition sort_by {A} (c : A -> A -> comparison) : list A -> list A := merge_sort (not_after c).

#[export] Instance sort_by_sorts {A} (c : A -> A -> comparison) `{Order A c} : Sorts c (sort_by c).
Proof.
  split; intros l; [apply merge_sort_Permutation|]. apply Sorted_StronglySorted; [by apply not_after_trans|].
  apply Sorted_merge_sort. apply _.
Qed.

(** A sort that works with every order, as the functions of the package do. *)
Class SliceSort (sort : forall A : Type, (A -> A -> comparison) -> list A -> list A) : Prop :=
  slice_sorts A (c : A -> A -> comparison) : Order c -> Sorts c (sort A c).

#[export] Instance sort_by_slice_sort : SliceSort (@sort_by).
Proof. intros A c Hc. by apply sort_by_sorts. Qed.

Lemma StronglySorted_weaken {A} (R S : relation A) l : (forall x y, R x y -> S x y) -> StronglySorted R l -> StronglySorted S l.
Proof. intros HRS. induction 1 as [|x l Hs IH Hf]; constructor; [done|]. eapply Forall_impl; [exact Hf|apply HRS]. Qed.

Lemma StronglySorted_lookup_lt {A} (R : relation A) l i j x y : StronglySorted R l -> l !! i = Some x -> l !! j = Some y ->
  (i < j)%nat -> R x y.
Proof.
  intros Hs. revert i j. induction Hs as [|z l Hs IH Hf]; intros [|i] [|j] Hx Hy Hlt; try done; try lia; cbn in Hx, Hy.
  - injection Hx as ->. rewrite Forall_forall in Hf. by eapply Hf, list_elem_of_lookup_2.
  - apply (IH i j); [done|done|lia].
Qed.

(** Sorting has one result when only equal elements compare as equal. *)
Lemma sorted_unique {A} (c : A -> A -> comparison) `{Order A c} l k :
  (forall x y, x ∈ l -> y ∈ l -> c x y = Eq -> x = y) -> l ≡ₚ k ->
  StronglySorted (not_after c) l -> StronglySorted (not_after c) k -> l = k.
Proof.
  intros Heq Hp Hl. revert k Hp. induction Hl as [|x l Hs IH Hf]; intros k Hp Hk.
  { by apply Permutation_nil in Hp as ->. }
  destruct k as [|y k]; [by apply Permutation_sym, Permutation_nil in Hp|].
  inversion Hk as [|? ? Hks Hkf]; subst. assert (x = y) as ->.
  { assert (x ∈ y :: k) as Hx by (rewrite <- Hp; left). assert (y ∈ x :: l) as Hy by (rewrite Hp; left).
    apply elem_of_cons in Hx as [Hx|Hx]; [done|]. apply elem_of_cons in Hy as [Hy|Hy]; [done|].
    rewrite Forall_forall in Hf, Hkf. apply Heq; [left|by right|].
    specialize (Hf y Hy). specialize (Hkf x Hx). unfold not_after in *. rewrite (order_opp x y) in Hkf. by destruct (c x y). }
  f_equal. apply IH; [|by eapply Permutation_cons_inv|done]. intros u v ? ?. apply Heq; by right.
Qed.

(** ** Searching *)

(** [sort.Search]: the loop between [i] and [j]. *)
Fixpoint search_loop (fuel : nat) (f : nat -> bool) (i j : nat) : nat :=
  match fuel with
  | O => i
  | S fuel =>
      if (i <? j)%nat then
        let h := ((i + j) / 2)%nat in
        if negb (f h) then search_loop fuel f (S h) j else search_loop fuel f i h
      else i
  end.

Definition Search (n : nat) (f : nat -> bool) : nat := search_loop n f 0 n.

(** The indices at which a search calls its function. *)
Fixpoint search_probes (fuel : nat) (f : nat -> bool) (i j : nat) : list nat :=
  match fuel with
  | O => []
  | S fuel =>
      if (i <? j)%nat then
        let h := ((i + j) / 2)%nat in
        h :: (if negb (f h) then search_probes fuel f (S h) j else search_probes fuel f i h)
      else []
  end.

(** The search ends: the fuel of [n] steps is enough, and the index found is the first at which
    [f] holds, when [f] holds from some index on. *)
Lemma search_loop_spec f : forall fuel i j, (j - i <= fuel)%nat -> (i <= j)%nat ->
  (forall a b, (a <= b < j)%nat -> f a = true -> f b = true) ->
  (forall k, (k < i)%nat -> f k = false) ->
  let r := search_loop fuel f i j in
  (i <= r <= j)%nat /\ (forall k, (k < r)%nat -> f k = false) /\ (forall k, (r <= k < j)%nat -> f k = true).
Proof.
  induction fuel as [|fuel IH]; intros i j Hf Hij Hm Hlow; cbn zeta.
  - cbn. split_and!; [lia|lia|done|]. intros k ?. lia.
  - cbn [search_loop]. destruct (Nat.ltb_spec i j) as [Hlt|]; [|split_and!; [lia|lia|done|intros; lia]].
    assert (i <= (i + j) / 2 < j)%nat as Hh.
    { split; [apply Nat.div_le_lower_bound; lia|apply Nat.div_lt_upper_bound; lia]. }
    set (h := ((i + j) / 2)%nat) in *. destruct (f h) eqn:Hfh; cbn [negb].
    + destruct (IH i h) as (? & ? & ?); [lia|lia|intros ? ? ?; apply Hm; lia|done|]. split_and!; [lia|lia|done|].
      intros k ?. destruct (decide (k < h)%nat); [apply H1; lia|]. apply (Hm h); [lia|done].
    + destruct (IH (S h) j) as (? & ? & ?); [lia|lia|done| |].
      { intros k ?. destruct (f k) eqn:Hk; [|done]. rewrite (Hm k h) in Hfh; [done|lia|done]. }
      split_and!; [lia|lia|done|done].
Qed.

Lemma Search_first n f : (forall a b, (a <= b < n)%nat -> f a = true -> f b = true) ->
  (Search n f <= n)%nat /\ (forall k, (k < Search n f)%nat -> f k = false) /\ (forall k, (Search n f <= k < n)%nat -> f k = true).
Proof.
  intros Hm. destruct (search_loop_spec f n 0 n) as ([_ ?] & ? & ?); [lia|lia|done|intros; lia|]. done.
Qed.

Example search_sample : Search 10 (fun i => 7 <=? i)%nat = 7%nat.
Proof. reflexivity. Qed.
