(* ===== verification/GoFloats.v ===== *)
(** * Performix: floating-point numbers

    Go's [float64] and [float32] as IEEE 754 numbers, by the functions of the standard library's
    specification of them: the numbers of 53 and 24 bits, rounded to nearest, ties to even. *)

From S2P Require Import Prelude.
From Stdlib Require Export SpecFloat.

Local Open Scope Z_scope.

(** ** float64 *)

Definition float64 (n : Z) : spec_float := binary_normalize 53 1024 n 0 false.
Definition mul64 : spec_float -> spec_float -> spec_float := SFmul 53 1024.
Definition div64 : spec_float -> spec_float -> spec_float := SFdiv 53 1024.

(** ** float32 *)

Definition float32 (n : Z) : spec_float := binary_normalize 24 128 n 0 false.
Definition add32 : spec_float -> spec_float -> spec_float := SFadd 24 128.
Definition mul32 : spec_float -> spec_float -> spec_float := SFmul 24 128.
Definition div32 : spec_float -> spec_float -> spec_float := SFdiv 24 128.

(** The comparison operators: false when an operand is not a number. *)
Definition float_le (x y : spec_float) : bool :=
  match SFcompare x y with Some Lt | Some Eq => true | _ => false end.
Definition float_lt (x y : spec_float) : bool :=
  match SFcompare x y with Some Lt => true | _ => false end.
Definition float_ge (x y : spec_float) : bool := float_le y x.
Definition float_gt (x y : spec_float) : bool := float_lt y x.

Definition is_finite (x : spec_float) : bool :=
  match x with S754_zero _ | S754_finite _ _ _ => true | _ => false end.

(** The integer part, which a conversion to an integer type keeps when it is in range. *)
Definition truncate (x : spec_float) : Z :=
  match x with
  | S754_finite s m e =>
      let v := if 0 <=? e then Z.shiftl (Zpos m) e else Z.shiftr (Zpos m) (- e) in
      if s then - v else v
  | _ => 0
  end.

(** The conversion to [uint64]: outside its range the result is up to the implementation. *)
Definition uint64_of (out_of_range : spec_float -> Z) (x : spec_float) : Z :=
  let z := truncate x in
  if is_finite x && (0 <=? z) && (z <? 2 ^ 64) then z else out_of_range x.

(** [float64(total) * percent / 100.0], as the thresholds of the summaries are computed. *)
Definition percent_of (total percent : Z) : spec_float :=
  div64 (mul64 (float64 total) (float64 percent)) (float64 100).

Example percent_exact : float_ge (float64 990) (percent_of 1000 99) = true /\ float_ge (float64 989) (percent_of 1000 99) = false.
Proof. vm_compute. done. Qed.

(** A large count is rounded to 53 bits. *)
Example float64_rounds : SFcompare (float64 (2 ^ 53 + 1)) (float64 (2 ^ 53)) = Some Eq.
Proof. vm_compute. reflexivity. Qed.

Example truncate_sample : truncate (div64 (float64 7) (float64 2)) = 3.
Proof. vm_compute. reflexivity. Qed.
