(* ===== verification/Json.v ===== *)
(** * Performix: JSON

    What the sources use of [encoding/json]: the text of strings, numbers, arrays and objects
    that [json.Marshal] writes, with its escaping for HTML. *)

From S2P Require Import Prelude.
From S2P Require Import GoStrings.
From S2P Require Import GoFloats.
From Stdlib Require Import Ascii.

Local Open Scope Z_scope.

(** ** Strings *)

Definition dquote : ascii := "034".
Definition hex_digit (n : Z) : ascii := ascii_of_N (Z.to_N (if n <? 10 then 48 + n else 87 + n)).

(** The escapes of the bytes below 128. *)
Definition escape_byte (c : ascii) : string :=
  let n := byte_of c in
  if Ascii.eqb c "\" || Ascii.eqb c dquote then String "\" (String c EmptyString)
  else if n =? 8 then "\b" else if n =? 12 then "\f" else if n =? 10 then "\n"
  else if n =? 13 then "\r" else if n =? 9 then "\t"
  else if (n <? 32) || Ascii.eqb c "<" || Ascii.eqb c ">" || Ascii.eqb c "&"
  then "\u00" +:+ String (hex_digit (n / 16)) (String (hex_digit (n mod 16)) EmptyString)
  else String c EmptyString.

(** [skip] counts the bytes left of the current character, and [keep] says whether they are
    copied. An invalid byte becomes the replacement character, and the two separators of lines
    and paragraphs are escaped. *)
Fixpoint escape_from (skip : nat) (keep : bool) (s : string) : string :=
  match s with
  | EmptyString => EmptyString
  | String c s' =>
      match skip with
      | S k => (if keep then String c EmptyString else EmptyString) +:+ escape_from k keep s'
      | O =>
          if byte_of c <? 128 then escape_byte c +:+ escape_from 0 true s'
          else if (rune_len s <=? 1)%nat then "\ufffd" +:+ escape_from 0 true s'
          else if HasPrefix s (bytes [226; 128; 168]%nat) then "\u2028" +:+ escape_from 2 false s'
          else if HasPrefix s (bytes [226; 128; 169]%nat) then "\u2029" +:+ escape_from 2 false s'
          else String c (escape_from (rune_len s - 1) true s')
      end
  end.

Definition quote (s : string) : string := String dquote (escape_from 0 true s +:+ String dquote EmptyString).

(** ** Values *)

Inductive json :=
| JNull
| JInt (n : Z)
| JBool (b : bool)
| JFloat32 (f : spec_float)
| JString (s : string)
| JArray (l : list json)
| JObject (fields : list (string * json)).

Section Print.

(** The shortest decimal text of a finite [float32] ([strconv.AppendFloat]). *)
Context (format_float32 : spec_float -> string).

Fixpoint print (j : json) : string :=
  match j with
  | JNull => "null"
  | JInt n => Itoa n
  | JBool b => if b then "true" else "false"
  | JFloat32 f => format_float32 f
  | JString s => quote s
  | JArray l => "[" +:+ Join "," (map print l) +:+ "]"
  | JObject fields => "{" +:+ Join "," (map (fun '(key, v) => quote key +:+ ":" +:+ print v) fields) +:+ "}"
  end.

(** Only the floats can fail: NaN and the infinities have no text. *)
Fixpoint printable (j : json) : bool :=
  match j with
  | JFloat32 f => is_finite f
  | JArray l => forallb printable l
  | JObject fields => forallb (fun '(_, v) => printable v) fields
  | _ => true
  end.

(** [json.Marshal]: [None] is the error. *)
Definition Marshal (j : json) : option string := if printable j then Some (print j) else None.

End Print.

Arguments print format_float32 !j /.

(** ** Lengths *)

Lemma len_app s t : len (s +:+ t) = len s + len t.
Proof. unfold len. rewrite slength_app. lia. Qed.

Lemma len_nonneg s : 0 <= len s.
Proof. unfold len. lia. Qed.

(** The length of a list of fields with separators. *)
Definition joined_len (l : list string) : Z := foldr (fun s n => len s + n) 0 l + Z.max 0 (Z.of_nat (length l) - 1).

Lemma len_Join l : len (Join "," l) = joined_len l.
Proof.
  unfold joined_len. induction l as [|x l IH]; [done|]. destruct l as [|y l]; [cbn [foldr length Join]; lia|].
  change (Join "," (x :: y :: l)) with (x +:+ "," +:+ Join "," (y :: l)). rewrite !len_app, IH.
  change (len ",") with 1. cbn [foldr length]. lia.
Qed.

Definition total_len (l : list string) : Z := foldr (fun s n => len s + n) 0 l.

Lemma total_len_app l k : total_len (l ++ k) = total_len l + total_len k.
Proof. unfold total_len. induction l as [|x l IH]; cbn [foldr app]; [lia|]. rewrite IH. lia. Qed.

Lemma total_len_nonneg l : 0 <= total_len l.
Proof. unfold total_len. induction l as [|x l IH]; cbn [foldr]; [lia|]. pose proof (len_nonneg x). lia. Qed.

Lemma joined_len_total l : joined_len l = total_len l + Z.max 0 (Z.of_nat (length l) - 1).
Proof. done. Qed.

(** Longer texts, and more of them, have a longer list. *)
Lemma joined_len_le l l1 l2 : Forall2 (fun a b => len a <= len b) l l1 -> joined_len l <= joined_len (l1 ++ l2).
Proof.
  intros Hl. rewrite !joined_len_total, total_len_app, length_app, (Forall2_length _ _ _ Hl).
  assert (total_len l <= total_len l1) by (unfold total_len; induction Hl; cbn [foldr]; lia). pose proof (total_len_nonneg l2). lia.
Qed.

Lemma joined_len_snoc l x : joined_len (l ++ [x]) = joined_len l + len x + (if bool_decide (l = []) then 0 else 1).
Proof.
  unfold joined_len. rewrite foldr_app, length_app. cbn [foldr length].
  assert (forall n, foldr (fun s n => len s + n) n l = foldr (fun s n => len s + n) 0 l + n) as Hf.
  { intros n. induction l as [|y l IH]; cbn [foldr]; [lia|]. rewrite IH. lia. }
  rewrite (Hf (len x + 0)). destruct l as [|y l]; [cbn; lia|]. rewrite bool_decide_false by done. cbn [length]. lia.
Qed.

Lemma len_array fmt l : len (print fmt (JArray l)) = 2 + joined_len (print fmt <$> l).
Proof.
  cbn [print]. rewrite !len_app, len_Join. change (map (print fmt) l) with (print fmt <$> l).
  change (len "[") with 1. change (len "]") with 1. lia.
Qed.

Lemma len_array_snoc fmt l j : len (print fmt (JArray (l ++ [j]))) =
  len (print fmt (JArray l)) + len (print fmt j) + (if bool_decide (l = []) then 0 else 1).
Proof.
  rewrite !len_array, fmap_app. cbn [fmap list_fmap]. rewrite joined_len_snoc.
  assert (bool_decide (print fmt <$> l = []) = bool_decide (l = [])) as -> by (apply bool_decide_ext, fmap_nil_iff). lia.
Qed.

Definition field_text (fmt : spec_float -> string) (f : string * json) : string := quote f.1 +:+ ":" +:+ print fmt f.2.

Lemma len_object fmt fields : len (print fmt (JObject fields)) = 2 + joined_len (field_text fmt <$> fields).
Proof.
  cbn [print]. rewrite !len_app, len_Join. change (len "{") with 1. change (len "}") with 1.
  assert (map (fun '(key, v) => quote key +:+ ":" +:+ print fmt v) fields = field_text fmt <$> fields) as ->
    by (unfold fmap; induction fields as [|[k v] fs IH]; cbn; [done|]; by rewrite IH). lia.
Qed.

Example print_sample : print (fun _ => "0.5") (JObject [("fn", JString "a<b"); ("s", JInt 3); ("c", JArray [JInt 1; JInt 2])]) =
  bytes [123; 34; 102; 110; 34; 58; 34; 97; 92; 117; 48; 48; 51; 99; 98; 34; 44; 34; 115; 34; 58; 51; 44; 34; 99; 34; 58;
         91; 49; 44; 50; 93; 125]%nat.
Proof. vm_compute. reflexivity. Qed.
