(* ===== verification/Semver.v ===== *)
(** * Performix: semantic versions and version ranges

    Models [core/apap-engine/cdf/semver/semver.go]: the two- or three-part versions
    that runs, recipes and tools carry, their comparison, and the version ranges from
    which render compatibility is computed. *)

From S2P Require Import Prelude.
From S2P Require Import GoStrings.
From Stdlib Require Import Ascii.

Local Open Scope Z_scope.

(** ** Versions *)

Record SemVer := { Major : Z; Minor : Z; Patch : Z }.

#[export] Instance SemVer_eq_dec : EqDecision SemVer.
Proof. solve_decision. Defined.

#[export] Instance SemVer_countable : Countable SemVer.
Proof.
  apply (inj_countable' (fun v => (Major v, Minor v, Patch v))
                        (fun t => {| Major := t.1.1; Minor := t.1.2; Patch := t.2 |})).
  by intros [].
Defined.

(** The errors of [ParseSemVer], one per message. *)
Inductive semver_error :=
| EmptyVersion
| TrailingDashOrPlus
| MultiplePlus
| DoubleDash
| MultipleDash
| WrongPartCount (s : string)
| EmptySegment
| InvalidSegment (p : string).

(** The closure [toInt] of [ParseSemVer]. *)
Definition toInt (p : string) : result semver_error Z :=
  if bool_decide (p = EmptyString) then Err EmptySegment
  else match Atoi p with
       | Some n => if n <? 0 then Err (InvalidSegment p) else Ok n
       | None => Err (InvalidSegment p)
       end.

(** The pre-release checks: a dash before any [+]. *)
Definition check_prerelease (s : string) (plusIdx dashIdx : Z) : result semver_error unit :=
  if negb (dashIdx =? -1) && ((plusIdx =? -1) || (dashIdx <? plusIdx)) then
    let preEnd := if plusIdx =? -1 then len s else plusIdx in
    let pre := slice s dashIdx preEnd in
    if Contains pre "--" then Err DoubleDash
    else if 1 <? CountByte (slice s 0 preEnd) "-" then Err MultipleDash
    else Ok tt
  else Ok tt.

(** Where the [MAJOR.MINOR.PATCH] part ends. *)
Definition core_end (s : string) (plusIdx dashIdx : Z) : Z :=
  let coreEnd :=
    if negb (dashIdx =? -1) && ((plusIdx =? -1) || (dashIdx <? plusIdx)) then dashIdx else len s in
  if negb (plusIdx =? -1) && (plusIdx <? coreEnd) then plusIdx else coreEnd.

Definition ParseSemVer (s0 : string) : result semver_error SemVer :=
  let s := TrimSpace s0 in
  if bool_decide (s = EmptyString) then Err EmptyVersion
  else if HasSuffix s "-" || HasSuffix s "+" then Err TrailingDashOrPlus
  else if 1 <? CountByte s "+" then Err MultiplePlus
  else
    let plusIdx := Index s "+" in
    let dashIdx := Index s "-" in
    _ ← check_prerelease s plusIdx dashIdx;
    let parts := Split "." (slice s 0 (core_end s plusIdx dashIdx)) in
    match parts with
    | [p0; p1] =>
        maj ← toInt p0;
        min ← toInt p1;
        Ok {| Major := maj; Minor := min; Patch := 0 |}
    | [p0; p1; p2] =>
        maj ← toInt p0;
        min ← toInt p1;
        patch ← toInt p2;
        Ok {| Major := maj; Minor := min; Patch := patch |}
    | _ => Err (WrongPartCount s)
    end.

(** -1, 0 or 1, comparing major, then minor, then patch. *)
Definition Cmp (a b : SemVer) : Z :=
  if negb (Major a =? Major b) then (if Major a <? Major b then -1 else 1)
  else if negb (Minor a =? Minor b) then (if Minor a <? Minor b then -1 else 1)
  else if negb (Patch a =? Patch b) then (if Patch a <? Patch b then -1 else 1)
  else 0.

Definition SemVer_String (v : SemVer) : string :=
  Itoa (Major v) +:+ "." +:+ Itoa (Minor v) +:+ "." +:+ Itoa (Patch v).

(** ** Ranges

    A nil [*SemVer] is [None]. *)

Record VersionRange := { Min : option SemVer; Max : option SemVer; InclusiveMax : bool }.

#[export] Instance VersionRange_eq_dec : EqDecision VersionRange.
Proof. solve_decision. Defined.

(** [VersionRange{}] *)
Definition empty_range : VersionRange := {| Min := None; Max := None; InclusiveMax := false |}.

Definition InRange (v : SemVer) (r : VersionRange) : bool :=
  match Min r with
  | Some m => if Cmp v m <? 0 then false else
      match Max r with
      | Some x => let c := Cmp v x in negb ((0 <? c) || ((c =? 0) && negb (InclusiveMax r)))
      | None => true
      end
  | None =>
      match Max r with
      | Some x => let c := Cmp v x in negb ((0 <? c) || ((c =? 0) && negb (InclusiveMax r)))
      | None => true
      end
  end.

(** The three variables of the loop of [Intersection]. *)
Record inter_state := { greatestMin : option SemVer; smallestMax : option SemVer; inclusiveMax : bool }.

Definition inter_step (st : inter_state) (r : VersionRange) : inter_state :=
  let gm := match Min r with
            | Some m => match greatestMin st with
                        | None => Some m
                        | Some g => if 0 <? Cmp m g then Some m else Some g
                        end
            | None => greatestMin st
            end in
  match Max r with
  | Some x => match smallestMax st with
              | None => {| greatestMin := gm; smallestMax := Some x; inclusiveMax := InclusiveMax r |}
              | Some s => if Cmp x s <? 0
                          then {| greatestMin := gm; smallestMax := Some x; inclusiveMax := InclusiveMax r |}
                          else {| greatestMin := gm; smallestMax := smallestMax st; inclusiveMax := inclusiveMax st |}
              end
  | None => {| greatestMin := gm; smallestMax := smallestMax st; inclusiveMax := inclusiveMax st |}
  end.

Definition inter_init : inter_state := {| greatestMin := None; smallestMax := None; inclusiveMax := false |}.

Definition Intersection (ranges : list VersionRange) : option VersionRange :=
  match ranges with
  | [] => None
  | _ =>
      let st := foldl inter_step inter_init ranges in
      let result := {| Min := greatestMin st; Max := smallestMax st; InclusiveMax := inclusiveMax st |} in
      match greatestMin st, smallestMax st with
      | Some g, Some s => if 0 <? Cmp g s then Some empty_range else Some result
      | None, None => None
      | _, _ => Some result
      end
  end.

(** [x != nil && *x == VersionRange{}] *)
Definition is_empty_range (x : option VersionRange) : bool := bool_decide (x = Some empty_range).

(** The inner loop: the first [j] such that [vr1] and [rest[j]] are disjoint. *)
Definition find_disjoint_with (vr1 : VersionRange) (rest : list VersionRange) : option nat :=
  find_index (fun vr2 => is_empty_range (Intersection [vr1; vr2])) rest.

(** The outer loop, at index [i] with [ranges[i:]] left. *)
Fixpoint find_disjoint_from (i : nat) (ranges : list VersionRange) : Z * Z :=
  match ranges with
  | [] => (-1, -1)
  | vr1 :: rest =>
      if negb (is_empty_range (Intersection rest)) then
        match find_disjoint_with vr1 ranges with
        | Some j => (Z.of_nat i, Z.of_nat (i + j))
        | None => find_disjoint_from (S i) rest
        end
      else find_disjoint_from (S i) rest
  end.

Definition FindDisjointRanges (ranges : list VersionRange) : Z * Z :=
  if negb (is_empty_range (Intersection ranges)) then (-1, -1)
  else find_disjoint_from 0 ranges.

Definition VersionRange_String (vr : VersionRange) : string :=
  let parts :=
    match Min vr with Some m => [">= " +:+ SemVer_String m] | None => [] end ++
    match Max vr with Some m => ["< " +:+ SemVer_String m] | None => [] end in
  match parts with
  | [] => "(any)"
  | _ => Join ", " parts
  end.

(** ** Examples *)

Example parse_two_part : ParseSemVer " 1.2 " = Ok {| Major := 1; Minor := 2; Patch := 0 |}.
Proof. reflexivity. Qed.
Example parse_prerelease : ParseSemVer "1.2.3-rc1+b-7" = Ok {| Major := 1; Minor := 2; Patch := 3 |}.
Proof. reflexivity. Qed.
Example parse_double_dash : ParseSemVer "1.2--rc" = Err DoubleDash.
Proof. reflexivity. Qed.

(** ** Comparison is the lexicographic total order *)

Definition lex_compare (a b : SemVer) : comparison :=
  match Major a ?= Major b with
  | Eq => match Minor a ?= Minor b with
          | Eq => Patch a ?= Patch b
          | c => c
          end
  | c => c
  end.

Definition lex_lt (a b : SemVer) : Prop :=
  Major a < Major b \/ (Major a = Major b /\
    (Minor a < Minor b \/ (Minor a = Minor b /\ Patch a < Patch b))).

Lemma Cmp_cases a b :
  (Cmp a b = -1 /\ lex_lt a b) \/ (Cmp a b = 0 /\ a = b) \/ (Cmp a b = 1 /\ lex_lt b a).
Proof.
  destruct a as [a1 a2 a3], b as [b1 b2 b3]. unfold Cmp, lex_lt. cbn.
  destruct (Z.eqb_spec a1 b1) as [->|], (Z.eqb_spec a2 b2) as [->|], (Z.eqb_spec a3 b3) as [->|];
    cbn; rewrite ?Z.eqb_refl; cbn; auto; case_match; bool_to_prop; lia.
Qed.

Lemma Cmp_lex a b :
  Cmp a b = match lex_compare a b with Lt => -1 | Eq => 0 | Gt => 1 end.
Proof.
  unfold lex_compare. pose proof (Cmp_cases a b) as Hc. unfold lex_lt in Hc.
  destruct (Z.compare_spec (Major a) (Major b)), (Z.compare_spec (Minor a) (Minor b)),
    (Z.compare_spec (Patch a) (Patch b)); destruct Hc as [[? ?]|[[? ->]|[? ?]]]; lia.
Qed.

Lemma Cmp_eq a b : Cmp a b = 0 <-> a = b.
Proof.
  pose proof (Cmp_cases a b) as [[H ?]|[[H ->]|[H ?]]]; rewrite H; split; try lia; try done;
    intros ->; unfold lex_lt in *; lia.
Qed.

Lemma Cmp_refl a : Cmp a a = 0.
Proof. by apply Cmp_eq. Qed.

Lemma Cmp_antisym a b : Cmp b a = - Cmp a b.
Proof. destruct (decide (a = b)) as [->|]; [by rewrite Cmp_refl|].
  pose proof (Cmp_cases a b). pose proof (Cmp_cases b a). unfold lex_lt in *.
  naive_solver lia.
Qed.

Lemma Cmp_range a b : Cmp a b = -1 \/ Cmp a b = 0 \/ Cmp a b = 1.
Proof. pose proof (Cmp_cases a b). naive_solver. Qed.

Lemma lex_lt_trans a b c : lex_lt a b -> lex_lt b c -> lex_lt a c.
Proof. unfold lex_lt. lia. Qed.

Lemma Cmp_lt_iff a b : Cmp a b < 0 <-> lex_lt a b.
Proof.
  pose proof (Cmp_cases a b) as [[-> ?]|[[-> ->]|[-> ?]]]; split; try lia; try done;
    unfold lex_lt in *; lia.
Qed.

Lemma Cmp_le_iff a b : Cmp a b <= 0 <-> lex_lt a b \/ a = b.
Proof.
  rewrite <- Cmp_lt_iff, <- Cmp_eq. lia.
Qed.

Lemma Cmp_le_trans a b c : Cmp a b <= 0 -> Cmp b c <= 0 -> Cmp a c <= 0.
Proof.
  rewrite !Cmp_le_iff. intros [H1| ->] [H2| <-]; eauto using lex_lt_trans.
Qed.

Lemma Cmp_lt_le_trans a b c : Cmp a b < 0 -> Cmp b c <= 0 -> Cmp a c < 0.
Proof.
  rewrite !Cmp_lt_iff. intros H1 Hbc.
  pose proof (Cmp_cases b c) as [[_ H2]|[[_ <-]|[? ?]]]; [|done|lia].
  by eapply lex_lt_trans.
Qed.

Lemma Cmp_le_lt_trans a b c : Cmp a b <= 0 -> Cmp b c < 0 -> Cmp a c < 0.
Proof.
  rewrite !Cmp_lt_iff. intros Hab H2.
  pose proof (Cmp_cases a b) as [[_ H1]|[[_ ->]|[? ?]]]; [|done|lia].
  by eapply lex_lt_trans.
Qed.

#[export] Hint Resolve Cmp_refl Cmp_le_trans Cmp_lt_le_trans Cmp_le_lt_trans : performix.

(** ** Membership in a range, split into its two bounds *)

Definition min_ok (v : SemVer) (m : option SemVer) : bool :=
  match m with Some m => 0 <=? Cmp v m | None => true end.

Definition max_ok (v : SemVer) (x : option SemVer) (incl : bool) : bool :=
  match x with Some x => (Cmp v x <? 0) || ((Cmp v x =? 0) && incl) | None => true end.

Lemma InRange_split v r :
  InRange v r = min_ok v (Min r) && max_ok v (Max r) (InclusiveMax r).
Proof.
  unfold InRange, min_ok, max_ok. cbv zeta.
  assert (forall x, negb ((0 <? Cmp v x) || ((Cmp v x =? 0) && negb (InclusiveMax r))) =
                    (Cmp v x <? 0) || ((Cmp v x =? 0) && InclusiveMax r)) as Hmax.
  { intros x. destruct (Cmp_range v x) as [-> | [-> | ->]], (InclusiveMax r); done. }
  assert (forall m, (0 <=? Cmp v m) = negb (Cmp v m <? 0)) as Hmin by (intros; by rewrite Z.leb_antisym).
  destruct (Min r), (Max r); cbn; rewrite ?Hmin, ?Hmax; try done; by case_match.
Qed.

(** ** Intersection

    The loop keeps the greatest minimum and the smallest maximum, so membership in the
    accumulated bounds is membership in every range seen so far. *)

(** Ranges that share a maximum agree on whether it is included. *)
Definition max_consistent (rs : list VersionRange) : Prop :=
  forall r1 r2 x, r1 ∈ rs -> r2 ∈ rs -> Max r1 = Some x -> Max r2 = Some x ->
                  InclusiveMax r1 = InclusiveMax r2.

(** Membership in what [Intersection] returns: nil is "no constraint", and the zero
    range returned for disjoint ranges contains nothing. *)
Definition in_result (v : SemVer) (res : option VersionRange) : bool :=
  match res with
  | None => true
  | Some r => if bool_decide (r = empty_range) then false else InRange v r
  end.

Lemma inter_step_min st r :
  greatestMin (inter_step st r) =
  match Min r, greatestMin st with
  | Some m, Some g => Some (if 0 <? Cmp m g then m else g)
  | Some m, None => Some m
  | None, o => o
  end.
Proof. unfold inter_step. repeat (case_match; cbn; simplify_eq); done. Qed.

Lemma min_ok_step v st r :
  min_ok v (greatestMin (inter_step st r)) = min_ok v (greatestMin st) && min_ok v (Min r).
Proof.
  rewrite inter_step_min. destruct (Min r) as [m|], (greatestMin st) as [g|]; cbn;
    [|done|by rewrite andb_true_r|done].
  destruct (0 <? Cmp m g) eqn:Hc; bool_to_prop; apply eq_true_iff_eq;
    rewrite andb_true_iff, !Z.leb_le; (split; [intros Hv|by intros [??]]).
  - split; [|done]. pose proof (Cmp_antisym g m). pose proof (Cmp_antisym v m).
    pose proof (Cmp_antisym v g). pose proof (Cmp_le_trans g m v). lia.
  - split; [done|]. pose proof (Cmp_antisym v m). pose proof (Cmp_antisym v g).
    pose proof (Cmp_le_trans m g v). lia.
Qed.

Lemma max_ok_true v x incl :
  max_ok v (Some x) incl = true <-> Cmp v x < 0 \/ (Cmp v x = 0 /\ incl = true).
Proof. unfold max_ok. rewrite orb_true_iff, andb_true_iff, Z.ltb_lt, Z.eqb_eq. done. Qed.

Lemma max_ok_step v st r :
  (forall x, Max r = Some x -> smallestMax st = Some x -> InclusiveMax r = inclusiveMax st) ->
  max_ok v (smallestMax (inter_step st r)) (inclusiveMax (inter_step st r)) =
  max_ok v (smallestMax st) (inclusiveMax st) && max_ok v (Max r) (InclusiveMax r).
Proof.
  intros Hcons. unfold inter_step.
  destruct (Max r) as [x|]; [|cbn; by rewrite andb_true_r].
  destruct (smallestMax st) as [s|]; [|done].
  destruct (Cmp x s <? 0) eqn:Hc; bool_to_prop; cbn [smallestMax inclusiveMax];
    apply eq_true_iff_eq; rewrite andb_true_iff, !max_ok_true;
    (split; [intros Hv|tauto]); (split; [|done]) || (split; [done|]).
  - left. destruct Hv as [Hv|[Hv%Cmp_eq _]]; [|congruence].
    eapply Cmp_lt_le_trans; [done|lia].
  - destruct (decide (x = s)) as [->|Hne].
    + rewrite (Hcons s) by done. done.
    + pose proof (Cmp_antisym s x). assert (Cmp s x <> 0) by (rewrite Cmp_eq; congruence).
      left. destruct Hv as [Hv|[Hv%Cmp_eq _]].
      * eapply Cmp_lt_le_trans; [done|lia].
      * subst v. lia.
Qed.

(** The accumulated maximum is the maximum of some range of the list. *)
Definition max_from (l : list VersionRange) (st : inter_state) : Prop :=
  forall x, smallestMax st = Some x ->
    exists r, r ∈ l /\ Max r = Some x /\ InclusiveMax r = inclusiveMax st.

Lemma max_from_step l st r : max_from l st -> max_from (l ++ [r]) (inter_step st r).
Proof.
  intros Hst x. assert (forall r', r' ∈ l -> r' ∈ l ++ [r]) by set_solver.
  assert (r ∈ l ++ [r]) by set_solver. unfold inter_step.
  destruct (Max r) as [y|] eqn:Hy; [destruct (smallestMax st) as [s|] eqn:Hs; [destruct (Cmp y s <? 0)|]|];
    cbn [smallestMax inclusiveMax]; try (intros [= <-]; eauto; fail);
    intros Hx; destruct (Hst x) as (r' & ? & ? & ?); (congruence || eauto).
Qed.

Lemma inter_loop_spec v l :
  max_consistent l ->
  let st := foldl inter_step inter_init l in
  max_from l st /\
  min_ok v (greatestMin st) && max_ok v (smallestMax st) (inclusiveMax st) =
    forallb (InRange v) l.
Proof.
  induction l as [|r l IH] using rev_ind; intros Hcons; cbn zeta.
  { split; [intros x; done|done]. }
  destruct IH as [Hfrom IH].
  { intros r1 r2 x ? ?. apply Hcons; set_solver. }
  rewrite foldl_app. cbn [foldl]. split; [by apply max_from_step|].
  rewrite forallb_app. cbn [forallb]. rewrite andb_true_r, <- IH, InRange_split.
  rewrite min_ok_step, max_ok_step.
  - destruct (min_ok v (greatestMin _)), (min_ok v (Min r)); cbn; try done.
    by rewrite andb_false_r.
  - intros x Hx Hs. destruct (Hfrom x Hs) as (r' & ? & ? & <-).
    apply (Hcons r r' x); set_solver.
Qed.

Lemma in_bounds_nonempty v g s incl :
  min_ok v (Some g) && max_ok v (Some s) incl = true -> Cmp g s <= 0.
Proof.
  rewrite andb_true_iff, max_ok_true. unfold min_ok. rewrite Z.leb_le. intros [Hg Hs].
  pose proof (Cmp_antisym v g). apply Cmp_le_trans with v; lia.
Qed.

(** The intersection of ranges contains exactly the versions that are in every one of
    them, provided that ranges with the same maximum agree on whether it is included. *)
Theorem Intersection_correct rs v :
  max_consistent rs ->
  in_result v (Intersection rs) = forallb (InRange v) rs.
Proof.
  intros Hcons. destruct (inter_loop_spec v rs Hcons) as [_ Hspec].
  destruct rs as [|r rs]; [done|]. unfold Intersection.
  set (st := foldl inter_step inter_init (r :: rs)) in *. rewrite <- Hspec.
  destruct (greatestMin st) as [g|] eqn:Hg, (smallestMax st) as [s|] eqn:Hs;
    try (unfold in_result; rewrite bool_decide_false by (unfold empty_range; congruence);
         rewrite InRange_split; done).
  - destruct (0 <? Cmp g s) eqn:Hc; bool_to_prop.
    + cbn. rewrite bool_decide_true by done. symmetry. apply not_true_iff_false.
      intros Hv%in_bounds_nonempty. lia.
    + unfold in_result. rewrite bool_decide_false by (unfold empty_range; congruence).
      by rewrite InRange_split.
  - done.
Qed.

(** ** Disjoint ranges *)

(** [a] starts above the end of [b]. *)
Definition starts_above (a b : VersionRange) : Prop :=
  exists m x, Min a = Some m /\ Max b = Some x /\ 0 < Cmp m x.

Lemma loop_min_bound l :
  let st := foldl inter_step inter_init l in
  (forall r m, r ∈ l -> Min r = Some m -> exists g, greatestMin st = Some g /\ Cmp m g <= 0) /\
  (forall g, greatestMin st = Some g -> exists r, r ∈ l /\ Min r = Some g).
Proof.
  induction l as [|r l IH] using rev_ind; cbn zeta.
  { split; [set_solver|done]. }
  destruct IH as [IH1 IH2]. rewrite foldl_app. cbn [foldl].
  set (st := foldl inter_step inter_init l) in *. rewrite inter_step_min. split.
  - intros r' m [Hr| ->%list_elem_of_singleton]%elem_of_app Hm.
    + destruct (IH1 _ _ Hr Hm) as (g & -> & Hg).
      destruct (Min r) as [m'|]; [|by exists g]. eexists; split; [done|].
      destruct (0 <? Cmp m' g) eqn:Hc; bool_to_prop; [|done].
      pose proof (Cmp_antisym g m'). apply Cmp_le_trans with g; lia.
    + rewrite Hm. destruct (greatestMin st) as [g|].
      * eexists; split; [done|]. destruct (0 <? Cmp m g) eqn:Hc; bool_to_prop; [|done].
        rewrite Cmp_refl. lia.
      * eexists; split; [done|]. rewrite Cmp_refl. lia.
  - intros g. destruct (Min r) as [m|] eqn:Hm.
    + destruct (greatestMin st) as [g'|] eqn:Hg'.
      * destruct (0 <? Cmp m g'); intros [= <-]; [exists r; set_solver|].
        destruct (IH2 g') as (r' & ? & ?); [done|]. exists r'. set_solver.
      * intros [= <-]. exists r. set_solver.
    + intros Hg. destruct (IH2 g) as (r' & ? & ?); [done|]. exists r'. set_solver.
Qed.

Lemma inter_step_max st r :
  smallestMax (inter_step st r) =
  match Max r, smallestMax st with
  | Some x, Some s => Some (if Cmp x s <? 0 then x else s)
  | Some x, None => Some x
  | None, o => o
  end.
Proof. unfold inter_step. repeat (case_match; cbn; simplify_eq); done. Qed.

Lemma loop_max_bound l :
  let st := foldl inter_step inter_init l in
  (forall r x, r ∈ l -> Max r = Some x -> exists s, smallestMax st = Some s /\ Cmp s x <= 0) /\
  (forall s, smallestMax st = Some s -> exists r, r ∈ l /\ Max r = Some s).
Proof.
  induction l as [|r l IH] using rev_ind; cbn zeta.
  { split; [set_solver|done]. }
  destruct IH as [IH1 IH2]. rewrite foldl_app. cbn [foldl].
  set (st := foldl inter_step inter_init l) in *. rewrite inter_step_max. split.
  - intros r' x [Hr| ->%list_elem_of_singleton]%elem_of_app Hx.
    + destruct (IH1 _ _ Hr Hx) as (s & -> & Hs).
      destruct (Max r) as [x'|]; [|by exists s]. eexists; split; [done|].
      destruct (Cmp x' s <? 0) eqn:Hc; bool_to_prop; [|done].
      apply Cmp_le_trans with s; lia.
    + rewrite Hx. destruct (smallestMax st) as [s|].
      * eexists; split; [done|]. destruct (Cmp x s <? 0) eqn:Hc; bool_to_prop.
        -- rewrite Cmp_refl. lia.
        -- pose proof (Cmp_antisym x s). lia.
      * eexists; split; [done|]. rewrite Cmp_refl. lia.
  - intros s. destruct (Max r) as [x|] eqn:Hx.
    + destruct (smallestMax st) as [s'|] eqn:Hs'.
      * destruct (Cmp x s' <? 0); intros [= <-]; [exists r; set_solver|].
        destruct (IH2 s') as (r' & ? & ?); [done|]. exists r'. set_solver.
      * intros [= <-]. exists r. set_solver.
    + intros Hs. destruct (IH2 s) as (r' & ? & ?); [done|]. exists r'. set_solver.
Qed.

Lemma is_empty_range_iff l :
  is_empty_range (Intersection l) = true <->
  exists a b, a ∈ l /\ b ∈ l /\ starts_above a b.
Proof.
  destruct (loop_min_bound l) as [Hmin1 Hmin2]. destruct (loop_max_bound l) as [Hmax1 Hmax2].
  unfold is_empty_range. rewrite bool_decide_eq_true.
  destruct l as [|r l]; [cbn; split; [done|set_solver]|]. unfold Intersection.
  set (st := foldl inter_step inter_init (r :: l)) in *. split.
  - destruct (greatestMin st) as [g|] eqn:Hg, (smallestMax st) as [s|] eqn:Hs;
      [|unfold empty_range; congruence..|done].
    destruct (0 <? Cmp g s) eqn:Hc; [|unfold empty_range; congruence].
    intros _. bool_to_prop. destruct (Hmin2 g) as (a & ? & ?); [done|].
    destruct (Hmax2 s) as (b & ? & ?); [done|]. exists a, b. split_and!; [done..|].
    by exists g, s.
  - intros (a & b & Ha & Hb & m & x & Hm & Hx & Hlt).
    destruct (Hmin1 a m) as (g & -> & Hg); [done..|].
    destruct (Hmax1 b x) as (s & -> & Hs); [done..|].
    assert (0 < Cmp g s) as ->%Z.ltb_lt; [|done].
    pose proof (Cmp_antisym s g). pose proof (Cmp_antisym x m).
    assert (Cmp s g < 0); [|lia].
    apply Cmp_le_lt_trans with x; [done|].
    apply Cmp_lt_le_trans with m; lia.
Qed.

Lemma find_disjoint_from_correct i l :
  is_empty_range (Intersection l) = true ->
  exists a b r1 r2, find_disjoint_from i l = (Z.of_nat (i + a), Z.of_nat (i + b)) /\
    (a <= b)%nat /\ l !! a = Some r1 /\ l !! b = Some r2 /\
    is_empty_range (Intersection [r1; r2]) = true.
Proof.
  revert i. induction l as [|vr1 rest IH]; intros i Hempty; [done|].
  cbn [find_disjoint_from].
  destruct (is_empty_range (Intersection rest)) eqn:Hrest; cbn [negb].
  - destruct (IH (S i)) as (a & b & r1 & r2 & -> & ? & ? & ? & ?); [done|].
    exists (S a), (S b), r1, r2. split_and!; try done; [f_equal; lia|lia].
  - destruct (find_disjoint_with vr1 (vr1 :: rest)) as [j|] eqn:Hj.
    + apply find_index_Some in Hj as (r2 & Hr2 & He & _).
      exists 0%nat, j, vr1, r2. split_and!; try done; [f_equal; lia|lia].
    + exfalso. unfold find_disjoint_with in Hj. apply find_index_None in Hj.
      rewrite Forall_forall in Hj. apply is_empty_range_iff in Hempty as (a & b & Ha & Hb & Hab).
      assert (is_empty_range (Intersection rest) <> true) as Hr by congruence.
      rewrite is_empty_range_iff in Hr.
      destruct (decide (a = vr1 \/ b = vr1)) as [Hor|Hnor].
      * assert (exists c, c ∈ vr1 :: rest /\ is_empty_range (Intersection [vr1; c]) = true)
          as (c & Hc & He); [|specialize (Hj c Hc); congruence].
        destruct Hor as [->| ->]; [exists b|exists a]; (split; [done|]);
          apply is_empty_range_iff; [exists vr1, b|exists a, vr1]; split_and!; set_solver.
      * apply Hr. exists a, b. split_and!; set_solver.
Qed.

(** Searching for disjoint ranges finds a pair exactly when the intersection of all the
    ranges is empty, and of the pair it returns, one range starts above the end of the other
    or of itself. *)
Theorem FindDisjointRanges_correct rs :
  match FindDisjointRanges rs with
  | (i, j) =>
      if is_empty_range (Intersection rs) then
        exists r1 r2, 0 <= i <= j /\ rs !! Z.to_nat i = Some r1 /\ rs !! Z.to_nat j = Some r2 /\
          (starts_above r1 r2 \/ starts_above r2 r1 \/ starts_above r1 r1 \/ starts_above r2 r2)
      else i = -1 /\ j = -1
  end.
Proof.
  unfold FindDisjointRanges. destruct (is_empty_range (Intersection rs)) eqn:He; cbn [negb]; [|done].
  destruct (find_disjoint_from_correct 0 rs He) as (a & b & r1 & r2 & -> & ? & ? & ? & Hd).
  exists r1, r2. rewrite !Nat2Z.id. split_and!; [lia..|done|done|].
  apply is_empty_range_iff in Hd as (x & y & Hx & Hy & Hxy).
  set_unfold in Hx. set_unfold in Hy. naive_solver.
Qed.

(** ** Parsing *)

(** Bytes of a printed version: digits and dots. *)
Definition version_byte (c : ascii) : bool := is_digit c || Ascii.eqb c ".".

Lemma version_byte_cases c :
  version_byte c = true ->
  not_space c = true /\ c <> "-"%char /\ c <> "+"%char.
Proof.
  destruct c as [[] [] [] [] [] [] [] []]; vm_compute; intuition congruence.
Qed.

Lemma version_bytes_free s d :
  sall version_byte s = true -> d = "-"%char \/ d = "+"%char -> byte_free d s = true.
Proof.
  intros Hs Hd. eapply sall_impl; [|exact Hs]. intros c Hc. apply negb_true_iff, Ascii.eqb_neq.
  apply version_byte_cases in Hc as (_ & ? & ?). destruct Hd as [-> | ->]; done.
Qed.

Lemma no_suffix s d : byte_free d s = true -> s <> EmptyString -> HasSuffix s (String d EmptyString) = false.
Proof.
  intros Hf _. apply not_true_iff_false. intros Hp. apply (suffix_sall _ _ _ Hp) in Hf.
  cbn in Hf. by rewrite Ascii.eqb_refl in Hf.
Qed.

(** A version made of digits and dots goes straight to the split. *)
Lemma ParseSemVer_plain s :
  sall version_byte s = true -> s <> EmptyString ->
  ParseSemVer s =
    match Split "." s with
    | [p0; p1] =>
        maj ← toInt p0; min ← toInt p1; Ok {| Major := maj; Minor := min; Patch := 0 |}
    | [p0; p1; p2] =>
        maj ← toInt p0; min ← toInt p1; patch ← toInt p2;
        Ok {| Major := maj; Minor := min; Patch := patch |}
    | _ => Err (WrongPartCount s)
    end.
Proof.
  intros Hs Hne. unfold ParseSemVer.
  assert (sall not_space s = true) as Hsp
    by (eapply sall_impl; [|exact Hs]; intros c Hc; apply version_byte_cases in Hc; tauto).
  rewrite TrimSpace_id by done. rewrite bool_decide_false by done.
  assert (byte_free "-" s = true) as Hm by (apply version_bytes_free; auto).
  assert (byte_free "+" s = true) as Hp by (apply version_bytes_free; auto).
  rewrite !no_suffix by done. rewrite CountByte_byte_free by done. cbn [orb].
  rewrite !Index_byte_free by done. cbn.
  unfold core_end. cbn. by rewrite slice_full.
Qed.

Lemma toInt_Itoa z : 0 <= z <= int64_max -> toInt (Itoa z) = Ok z.
Proof.
  intros Hz. unfold toInt. rewrite bool_decide_false.
  - unfold Atoi. rewrite ParseInt_Itoa.
    + destruct (Z.ltb_spec z 0); [lia|done].
    + apply int_in_range_spec. unfold int64_max in Hz. lia.
  - unfold Itoa. destruct (Z.ltb_spec z 0); [lia|]. apply uint_string_nonempty.
Qed.

Lemma toInt_bounds p n : toInt p = Ok n -> 0 <= n <= int64_max.
Proof.
  unfold toInt. case_bool_decide; [done|]. destruct (Atoi p) as [z|] eqn:Ha; [|done].
  destruct (Z.ltb_spec z 0); [done|]. intros [= <-].
  apply ParseInt_range, int_in_range_spec in Ha. unfold int64_max. lia.
Qed.

Lemma digits_version_bytes s : sall is_digit s = true -> sall version_byte s = true.
Proof. apply sall_impl. unfold version_byte. intros c ->. done. Qed.

Lemma digits_dot_free s : sall is_digit s = true -> byte_free "." s = true.
Proof.
  apply sall_impl. intros c Hc. apply negb_true_iff, Ascii.eqb_neq. intros ->. done.
Qed.

(** A version whose numbers fit in 64 bits is read back from the string it is written as. *)
Theorem parse_SemVer_String v :
  0 <= Major v <= int64_max -> 0 <= Minor v <= int64_max -> 0 <= Patch v <= int64_max ->
  ParseSemVer (SemVer_String v) = Ok v.
Proof.
  intros Hma Hmi Hpa. unfold SemVer_String.
  pose proof (Itoa_digits (Major v)) as Hd1. pose proof (Itoa_digits (Minor v)) as Hd2.
  pose proof (Itoa_digits (Patch v)) as Hd3.
  rewrite ParseSemVer_plain.
  - change (Itoa (Major v) +:+ "." +:+ Itoa (Minor v) +:+ "." +:+ Itoa (Patch v))
      with (Join "." [Itoa (Major v); Itoa (Minor v); Itoa (Patch v)]).
    rewrite Split_Join; [|done|].
    + rewrite !toInt_Itoa by done. cbn. by destruct v.
    + repeat constructor; apply digits_dot_free; auto with lia.
  - rewrite !sall_app. cbn. rewrite !digits_version_bytes; auto with lia.
  - destruct (Itoa (Major v)); done.
Qed.

(** The numbers of a version that was read are not negative and fit in 64 bits. *)
Theorem ParseSemVer_bounds s v :
  ParseSemVer s = Ok v ->
  0 <= Major v <= int64_max /\ 0 <= Minor v <= int64_max /\ 0 <= Patch v <= int64_max.
Proof.
  unfold ParseSemVer. case_bool_decide; [done|]. destruct (_ || _); [done|].
  destruct (1 <? _); [done|]. cbv zeta. intros (u & _ & Hv)%bind_Ok.
  destruct (Split _ _) as [|p0 [|p1 [|p2 [|]]]]; try done.
  - apply bind_Ok in Hv as (ma & ?%toInt_bounds & Hv). apply bind_Ok in Hv as (mi & ?%toInt_bounds & Hv).
    injection Hv as <-. cbn. unfold int64_max in *. lia.
  - apply bind_Ok in Hv as (ma & ?%toInt_bounds & Hv). apply bind_Ok in Hv as (mi & ?%toInt_bounds & Hv).
    apply bind_Ok in Hv as (pa & ?%toInt_bounds & Hv).
    injection Hv as <-. cbn. lia.
Qed.

(** ** Where the range operations and their comments part

    Ties on an exclusive maximum. The intersection of two ranges with the same
    maximum keeps the flag of the first, so a version outside the second can be in the
    result; and two ranges that touch at an exclusive maximum have no version in common
    but are not reported as disjoint. *)
Theorem exclusive_max_ties :
  (exists r1 r2 v, InRange v r2 = false /\ in_result v (Intersection [r1; r2]) = true) /\
  (exists r1 r2, (forall v, InRange v r1 && InRange v r2 = false) /\
                 FindDisjointRanges [r1; r2] = (-1, -1)).
Proof.
  set (v1 := {| Major := 1; Minor := 0; Patch := 0 |}).
  set (v2 := {| Major := 2; Minor := 0; Patch := 0 |}).
  set (v3 := {| Major := 3; Minor := 0; Patch := 0 |}). split.
  - exists {| Min := Some v1; Max := Some v2; InclusiveMax := true |},
      {| Min := Some v1; Max := Some v2; InclusiveMax := false |}, v2. done.
  - exists {| Min := Some v1; Max := Some v2; InclusiveMax := false |},
      {| Min := Some v2; Max := Some v3; InclusiveMax := false |}. split; [|done].
    intros v. rewrite !InRange_split. cbn. rewrite !andb_false_r, !orb_false_r, !Z.leb_antisym.
    by destruct (Cmp v v1 <? 0), (Cmp v v2 <? 0).
Qed.

(** ** Witnesses *)

Definition mkv (a b c : Z) : SemVer := {| Major := a; Minor := b; Patch := c |}.
Definition mkrange (lo hi : SemVer) (incl : bool) : VersionRange :=
  {| Min := Some lo; Max := Some hi; InclusiveMax := incl |}.

Lemma Intersection_correct_witness :
  in_result (mkv 1 5 0) (Intersection [mkrange (mkv 1 0 0) (mkv 2 0 0) true; mkrange (mkv 1 5 0) (mkv 3 0 0) false]) = true.
Proof.
  rewrite (Intersection_correct [mkrange (mkv 1 0 0) (mkv 2 0 0) true; mkrange (mkv 1 5 0) (mkv 3 0 0) false]); [done|].
  intros r1 r2 x Hr1 Hr2. set_unfold in Hr1. set_unfold in Hr2.
  destruct Hr1 as [-> |[-> |[]]], Hr2 as [-> |[-> |[]]]; unfold mkrange, mkv; cbn; congruence.
Defined.

Lemma parse_SemVer_String_witness : ParseSemVer "1.20.3" = Ok (mkv 1 20 3).
Proof. apply (parse_SemVer_String (mkv 1 20 3)); unfold int64_max; cbn; lia. Defined.

Lemma ParseSemVer_bounds_witness : 0 <= Major (mkv 1 2 0) <= int64_max.
Proof. apply (ParseSemVer_bounds "1.2" (mkv 1 2 0)). reflexivity. Defined.
