(* ===== verification/Compat.v ===== *)
(** * Performix: render compatibility of runs

    Models [core/atperf-compatibility/compatibility/compatibility.go] (the matrix of which
    engine version renders the runs of which versions) and
    [core/apap-engine/render/compatibility.go] (the warning shown before runs are rendered).
    A nil [*SemVer] that is dereferenced is the error [NilDereference]. *)

From S2P Require Import Prelude.
From S2P Require Import GoStrings.
From S2P Require Import Semver.

Local Open Scope Z_scope.

Inductive panic := NilDereference | InvalidEngineVersion (s : string) | InvalidMinimumVersion (s : string).

(** ** The compatibility matrix *)

Notation recipe_ranges := (gmap SemVer VersionRange).
Notation compat_matrix := (gmap string recipe_ranges).

(** The decoded matrix: a Go map is given by its entries, in the order of the iteration. *)
Record versionSpec := { Minimum : string }.

Notation raw_recipe := (list (string * versionSpec)).

Definition nextVersionString : string := "NEXT_VERSION".

Definition load_entry (entry : recipe_ranges) (e : string * versionSpec) : result panic recipe_ranges :=
  let (engineVersion, vs) := e in
  if bool_decide (engineVersion = nextVersionString) then Ok entry
  else
    match ParseSemVer engineVersion with
    | Err _ => Err (InvalidEngineVersion engineVersion)
    | Ok engVer =>
        match ParseSemVer (Minimum vs) with
        | Err _ => Err (InvalidMinimumVersion (Minimum vs))
        | Ok minVer => Ok (<[engVer := {| Min := Some minVer; Max := None; InclusiveMax := false |}]> entry)
        end
    end.

Definition load_recipe (m : compat_matrix) (r : string * raw_recipe) : result panic compat_matrix :=
  entry ← fold_res load_entry ∅ r.2;
  Ok (<[r.1 := entry]> m).

Definition loadMatrix (raw : list (string * raw_recipe)) : result panic compat_matrix :=
  fold_res load_recipe ∅ raw.

(** ** The checker *)

Inductive compat_error := RecipeUndefined (recipeName : string) | CurrentUndefined (recipeName : string)
  | NoCompatibleEngine (recipeName : string) (v : SemVer).

(** The interface of the checker; a call can panic. *)
Class CompatibilityChecker (C : Type) := {
  GetCurrentCompatibilityForRecipe : C -> string -> result compat_error VersionRange;
  CompatibleVersionRange : C -> string -> SemVer -> result panic (result compat_error VersionRange);
  GetCurrentEngineVersion : C -> SemVer
}.

(** [*p] *)
Definition deref {A} (p : option A) : result panic A := or_err NilDereference p.

(** The state that [ConcreteCompatibilityChecker] reads: the loaded matrix, the version of
    the build, and the order in which a loop visits the entries of a map. *)
Record Concrete := { compatibilityMatrix : compat_matrix; engineVersion : SemVer;
                     iteration : recipe_ranges -> list (SemVer * VersionRange) }.

(** One turn of the loop of [CompatibleVersionRange] on [foundCompatibleVersion] and [maxVer]. *)
Definition max_step (runVersion : SemVer) (st : bool * SemVer) (e : SemVer * VersionRange) : result panic (bool * SemVer) :=
  m ← deref (Min e.2);
  Ok (if Cmp m runVersion <=? 0 then (true, if 0 <? Cmp e.1 st.2 then e.1 else st.2) else st).

#[export] Instance ConcreteCompatibilityChecker : CompatibilityChecker Concrete := {
  GetCurrentCompatibilityForRecipe c recipeName :=
    match compatibilityMatrix c !! recipeName with
    | None => Err (RecipeUndefined recipeName)
    | Some recipeVersioning => or_err (CurrentUndefined recipeName) (recipeVersioning !! engineVersion c)
    end;
  CompatibleVersionRange c recipeName runVersion :=
    st ← fold_res (max_step runVersion) (false, runVersion)
           (iteration c (default ∅ (compatibilityMatrix c !! recipeName)));
    Ok (if (st : bool * SemVer).1 then Ok {| Min := Some runVersion; Max := Some st.2; InclusiveMax := true |}
        else Err (NoCompatibleEngine recipeName runVersion));
  GetCurrentEngineVersion := engineVersion
}.

Definition IsRecipeArmProvided (m : compat_matrix) (recipeName : string) : bool := bool_decide (is_Some (m !! recipeName)).

(** ** The warning about the selected runs *)

Record RunDetails := { runID : string; compatibilityRange : VersionRange; runVersion : SemVer }.

Inductive message_code :=
| IncompatibleMutuallyIncompatible | IndeterminableTooNew | IndeterminableOldAndNew
| IndeterminableTooNewSameVersion | IndeterminableTooNewPlural
| IncompatibleTooOld | IncompatibleTooOldSameVersion | IncompatibleTooOldPlural.

Record Message := { code : message_code; metadata : list (string * string) }.

(** [p.String()] on a [*SemVer] *)
Definition String_of (p : option SemVer) : result panic string := SemVer_String <$> deref p.

Definition DisplayErrorStringSlice (s : list string) : string :=
  match s with [] => "none" | _ => "`" +:+ Join "`, `" s +:+ "`" end.

Definition mapping_of (r : RunDetails) : string := runID r +:+ " (" +:+ SemVer_String (runVersion r) +:+ ")".

(** One turn of the loop of [handleTooNew] on [sameVersions] and [newestRunVersion]. *)
Definition newest_step (st : bool * SemVer) (r : RunDetails) : bool * SemVer :=
  if bool_decide (runVersion r = st.2) then st
  else (false, if 0 <? Cmp (runVersion r) st.2 then runVersion r else st.2).

Section Handlers.

Context (current : SemVer).

Definition handleTooNew (tooOldRuns tooNewRuns : list RunDetails) : option Message :=
  match tooNewRuns with
  | [] => None
  | [new] =>
      match tooOldRuns with
      | [] => Some {| code := IndeterminableTooNew;
                      metadata := [("runID", runID new); ("runVersion", SemVer_String (runVersion new));
                                   ("currentEngineVersion", SemVer_String current)] |}
      | old :: _ => Some {| code := IndeterminableOldAndNew;
                            metadata := [("oldRunID", runID old); ("newRunID", runID new);
                                         ("currentEngineVersion", SemVer_String current);
                                         ("newRunVersion", SemVer_String (runVersion new))] |}
      end
  | first :: _ =>
      let (sameVersions, newest) := foldl newest_step (true, runVersion first) tooNewRuns in
      if sameVersions : bool then
        Some {| code := IndeterminableTooNewSameVersion;
                metadata := [("currentEngineVersion", SemVer_String current); ("runVersion", SemVer_String newest);
                             ("runIDs", DisplayErrorStringSlice (runID <$> tooNewRuns))] |}
      else
        Some {| code := IndeterminableTooNewPlural;
                metadata := [("currentEngineVersion", SemVer_String current);
                             ("versionMapping", DisplayErrorStringSlice (mapping_of <$> tooNewRuns));
                             ("newestRunVersion", SemVer_String newest)] |}
  end.

Definition handleTooOld (tooOldRuns : list RunDetails) (currentMinSupportedVersion : SemVer)
    (compatIntersection : option VersionRange) : result panic (option Message) :=
  match tooOldRuns with
  | [] => Ok None
  | first :: others =>
      range ← deref compatIntersection;
      minCompatible ← String_of (Min range);
      maxCompatible ← String_of (Max range);
      let bounds := [("currentEngineVersion", SemVer_String current);
                     ("currentMinSupportedVersion", SemVer_String currentMinSupportedVersion);
                     ("minCompatibleVersion", minCompatible); ("maxCompatibleVersion", maxCompatible)] in
      match others with
      | [] => Ok (Some {| code := IncompatibleTooOld;
                          metadata := ("runID", runID first) :: ("runVersion", SemVer_String (runVersion first)) :: bounds |})
      | _ =>
          if forallb (fun r => bool_decide (runVersion r = runVersion first)) tooOldRuns then
            Ok (Some {| code := IncompatibleTooOldSameVersion;
                        metadata := bounds ++ [("runVersion", SemVer_String (runVersion first));
                                               ("runIDs", DisplayErrorStringSlice (runID <$> tooOldRuns))] |})
          else
            Ok (Some {| code := IncompatibleTooOldPlural;
                        metadata := bounds ++ [("versionMapping", DisplayErrorStringSlice (mapping_of <$> tooOldRuns))] |})
      end
  end.

Definition too_new (r : RunDetails) : bool := 0 <? Cmp (runVersion r) current.
Definition too_old (r : RunDetails) : bool := negb (too_new r) && negb (InRange current (compatibilityRange r)).

Definition consolidateRuns (runDetails : list RunDetails) (currentMinSupportedVersion : SemVer) : result panic (option Message) :=
  let ranges := compatibilityRange <$> runDetails in
  let (index1, index2) := FindDisjointRanges ranges in
  if negb (index1 =? -1) && negb (index2 =? -1) then
    detail1 ← deref (runDetails !! Z.to_nat index1);
    detail2 ← deref (runDetails !! Z.to_nat index2);
    min1 ← String_of (Min (compatibilityRange detail1));
    max1 ← String_of (Max (compatibilityRange detail1));
    min2 ← String_of (Min (compatibilityRange detail2));
    max2 ← String_of (Max (compatibilityRange detail2));
    Ok (Some {| code := IncompatibleMutuallyIncompatible;
                metadata := [("runID1", runID detail1); ("run1MinVersion", min1); ("run1MaxVersion", max1);
                             ("runID2", runID detail2); ("run2MinVersion", min2); ("run2MaxVersion", max2)] |})
  else
    let tooOldRuns := List.filter too_old runDetails in
    let tooNewRuns := List.filter too_new runDetails in
    match tooOldRuns, tooNewRuns with
    | [], [] => Ok None
    | _, _ :: _ => Ok (handleTooNew tooOldRuns tooNewRuns)
    | _, [] => handleTooOld tooOldRuns currentMinSupportedVersion (Intersection ranges)
    end.

End Handlers.

Inductive SelectionPolicy := UseInstalledVersion | FromContent | OverrideByName.

(** What [RunDescription] says of a run, as far as it is read here. *)
Record RunDescription := { RecipeName : string; EngineVersion : string }.

(** Adds the details of a run in front of those of the later runs. *)
Definition with_details {E} (found : list RunDetails) (later : result E (option (string * list RunDetails))) :
    result E (option (string * list RunDetails)) :=
  match later with
  | Ok (Some (recipeName, details)) => Ok (Some (recipeName, found ++ details))
  | _ => later
  end.

Section Check.

Context {C : Type} `{CompatibilityChecker C} {E : Type}.
Context (RunDescription_of : string -> result E RunDescription) (armProvided : string -> bool) (compChecker : C).

(** The loop over the selected runs: [None] is the early return for a user-created recipe,
    otherwise the details and the recipe of the last run. *)
Fixpoint gather_runs (recipeName : string) (runIDs : list string) : result panic (result E (option (string * list RunDetails))) :=
  match runIDs with
  | [] => Ok (Ok (Some (recipeName, [])))
  | id :: rest =>
      match RunDescription_of id with
      | Err e => Ok (Err e)
      | Ok description =>
          if negb (armProvided (RecipeName description)) then Ok (Ok None)
          else
            let continue_with (found : list RunDetails) :=
              with_details found <$> gather_runs (RecipeName description) rest in
            match ParseSemVer (EngineVersion description) with
            | Err _ => continue_with []
            | Ok v =>
                if 0 <? Cmp v (GetCurrentEngineVersion compChecker) then
                  continue_with [{| runID := id; compatibilityRange := empty_range; runVersion := v |}]
                else
                  range ← CompatibleVersionRange compChecker (RecipeName description) v;
                  match range with
                  | Err _ => continue_with []
                  | Ok r => continue_with [{| runID := id; compatibilityRange := r; runVersion := v |}]
                  end
            end
      end
  end.

Definition getMinSupportedVersion (recipeName : string) : result panic (result compat_error SemVer) :=
  match GetCurrentCompatibilityForRecipe compChecker recipeName with
  | Err e => Ok (Err e)
  | Ok r => Ok <$> deref (Min r)
  end.

Definition CheckRunCompatibility (policy : SelectionPolicy) (runIDs : list string) : result panic (result E (option Message)) :=
  match policy, runIDs with
  | FromContent, _ | OverrideByName, _ | _, [] => Ok (Ok None)
  | UseInstalledVersion, _ =>
      gathered ← gather_runs EmptyString runIDs;
      match gathered with
      | Err e => Ok (Err e)
      | Ok None => Ok (Ok None)
      | Ok (Some (recipeName, details)) =>
          minimum ← getMinSupportedVersion recipeName;
          match minimum with
          | Err _ => Ok (Ok None)
          | Ok m => Ok <$> consolidateRuns (GetCurrentEngineVersion compChecker) details m
          end
      end
  end.

End Check.

(** ** The matrix is well formed *)

(** Every loaded range has a minimum and no maximum. *)
Definition matrix_ok (m : compat_matrix) : Prop :=
  forall name entry v r, m !! name = Some entry -> entry !! v = Some r ->
    exists minVer, r = {| Min := Some minVer; Max := None; InclusiveMax := false |}.

(** The raw line that a range of recipe [name] and engine [v] was read from. *)
Definition line_for (lines : raw_recipe) (v : SemVer) (r : VersionRange) : Prop :=
  exists s vs minVer, (s, vs) ∈ lines /\ s <> nextVersionString /\ ParseSemVer s = Ok v /\
    ParseSemVer (Minimum vs) = Ok minVer /\ r = {| Min := Some minVer; Max := None; InclusiveMax := false |}.

Lemma load_entry_cases entry e entry' : load_entry entry e = Ok entry' ->
  (e.1 = nextVersionString /\ entry' = entry) \/
  exists v r, line_for [e] v r /\ entry' = <[v := r]> entry.
Proof.
  destruct e as [s vs]. cbn. case_bool_decide; [intros [= <-]; by left|].
  destruct (ParseSemVer s) as [v|] eqn:Hv; [|done]. destruct (ParseSemVer (Minimum vs)) as [mn|] eqn:Hm; [|done].
  intros [= <-]. right. do 2 eexists. split; [|done]. exists s, vs, mn. split_and!; [left|done..].
Qed.

Lemma line_for_mono l l' v r : l ⊆ l' -> line_for l v r -> line_for l' v r.
Proof. intros Hl (s & vs & mn & Hin & Hrest). exists s, vs, mn. split; [by apply Hl|done]. Qed.

Lemma load_entries_spec lines : forall entry entry', fold_res load_entry entry lines = Ok entry' ->
  (forall v r, entry' !! v = Some r -> entry !! v = Some r \/ line_for lines v r) /\
  (forall v, is_Some (entry !! v) -> is_Some (entry' !! v)) /\
  (forall s vs v, (s, vs) ∈ lines -> s <> nextVersionString -> ParseSemVer s = Ok v -> is_Some (entry' !! v)).
Proof.
  induction lines as [|e lines IH]; intros entry entry'; cbn [fold_res].
  { intros [= <-]. split_and!; [by left|done|]. by intros ? ? ? ?%elem_of_nil. }
  intros (mid & Hmid & Hrest)%bind_Ok. destruct (IH _ _ Hrest) as (H1 & H2 & H3).
  apply load_entry_cases in Hmid as Hcases.
  assert (lines ⊆ e :: lines /\ [e] ⊆ e :: lines) as [Hl1 Hl2] by set_solver. split_and!.
  - intros v r [Hr|Hr]%H1; [|right; by apply (line_for_mono lines)].
    destruct Hcases as [[_ ->]|(v' & r' & Hl & ->)]; [by left|].
    apply lookup_insert_Some in Hr as [[<- <-]|[_ Hr]]; [right; by apply (line_for_mono [e])|by left].
  - intros v Hv. apply H2. destruct Hcases as [[_ ->]|(v' & r' & _ & ->)]; [done|].
    destruct (decide (v = v')) as [->|]; [by rewrite lookup_insert_eq|by rewrite lookup_insert_ne].
  - intros s vs v [<-|Hin]%elem_of_cons Hs Hv; [|by eapply H3].
    apply H2. destruct Hcases as [[Hn _]|(v' & r' & (s' & vs' & mn & Heq & _ & Hv' & _) & ->)]; [done|].
    apply list_elem_of_singleton in Heq as [= <- <-]. rewrite Hv in Hv'. injection Hv' as <-.
    by rewrite lookup_insert_eq.
Qed.

Lemma load_recipes_spec raw : forall m m', fold_res load_recipe m raw = Ok m' ->
  (forall name entry, m' !! name = Some entry -> m !! name = Some entry \/
     exists lines, (name, lines) ∈ raw /\ fold_res load_entry ∅ lines = Ok entry) /\
  (forall name, is_Some (m !! name) \/ name ∈ raw.*1 -> is_Some (m' !! name)).
Proof.
  induction raw as [|[name0 lines0] raw IH]; intros m m'; cbn [fold_res].
  { intros [= <-]. split; [by left|]. intros name [?|?%elem_of_nil]; done. }
  intros (mid & Hmid & Hrest)%bind_Ok. destruct (IH _ _ Hrest) as [H1 H2].
  apply bind_Ok in Hmid as (entry0 & He & Hmid). injection Hmid as <-. split.
  - intros name entry [Hn|(lines & Hin & Hl)]%H1; [|right; exists lines; split; [by right|done]].
    cbn in Hn. apply lookup_insert_Some in Hn as [[<- <-]|[_ Hn]]; [|by left]. right. exists lines0. split; [left|done].
  - intros name Hn. apply H2. cbn. destruct (decide (name = name0)) as [->|Hne]; [left; by rewrite lookup_insert_eq|].
    rewrite lookup_insert_ne by done. destruct Hn as [Hn|[->|Hn]%elem_of_cons]; [by left|done|by right].
Qed.

Lemma loadMatrix_ok raw m : loadMatrix raw = Ok m -> matrix_ok m.
Proof.
  intros Hm name entry v r Hn Hv. destruct (load_recipes_spec _ _ _ Hm) as [H1 _].
  destruct (H1 _ _ Hn) as [?|(lines & _ & Hl)]; [done|]. destruct (load_entries_spec _ _ _ Hl) as [H2 _].
  destruct (H2 _ _ Hv) as [?|(? & ? & mn & ? & ? & ? & ? & ->)]; [done|]. by exists mn.
Qed.

(** ** The range of a run *)

(** Engine [e] is listed as able to render runs of [name] made by version [v]. *)
Definition listed (m : compat_matrix) (name : string) (v e : SemVer) : Prop :=
  exists entry r mn, m !! name = Some entry /\ entry !! e = Some r /\ Min r = Some mn /\ Cmp mn v <= 0.

(** The maximum of the listed engines among [l] and a starting version. *)
Definition max_of (v start : SemVer) (l : list (SemVer * VersionRange)) (x : SemVer) : Prop :=
  (x = start \/ exists r mn, (x, r) ∈ l /\ Min r = Some mn /\ Cmp mn v <= 0) /\ Cmp start x <= 0 /\
  forall e r mn, (e, r) ∈ l -> Min r = Some mn -> Cmp mn v <= 0 -> Cmp e x <= 0.

Lemma max_step_some v st e r mn : Min r = Some mn ->
  max_step v st (e, r) = Ok (if Cmp mn v <=? 0 then (true, if 0 <? Cmp e st.2 then e else st.2) else st).
Proof. intros Hm. unfold max_step. cbn [snd fst]. by rewrite Hm. Qed.

Lemma max_loop v l : Forall (fun e : SemVer * VersionRange => is_Some (Min e.2)) l -> forall found start,
  exists x, max_of v start l x /\ fold_res (max_step v) (found, start) l =
    Ok (found || existsb (fun e : SemVer * VersionRange => match Min e.2 with Some mn => Cmp mn v <=? 0 | None => false end) l, x).
Proof.
  induction 1 as [|[e r] l [mn Hmn] _ IH]; intros found start; cbn [fold_res existsb].
  { exists start. rewrite orb_false_r. split; [|done]. split_and!; [by left|by rewrite Cmp_refl|set_solver]. }
  cbn [fst snd] in *. rewrite (max_step_some v _ e r mn Hmn), Hmn. cbn [mbind result_bind].
  destruct (Cmp mn v <=? 0) eqn:Hc; bool_to_prop; cbn [fst snd orb].
  - set (start' := if 0 <? Cmp e start then e else start).
    destruct (IH true start') as (x & (Hfrom & Hle & Hub) & Hx). exists x. split; [|rewrite orb_true_r; exact Hx].
    assert (Cmp start start' <= 0 /\ Cmp e start' <= 0 /\ (start' = e \/ start' = start)) as (Hs1 & Hs2 & Hs3).
    { subst start'. pose proof (Cmp_antisym e start).
      destruct (0 <? Cmp e start) eqn:Hlt; bool_to_prop; rewrite ?Cmp_refl; split_and!; try lia; auto. }
    split_and!.
    + destruct Hfrom as [->|(r' & mn' & ? & ? & ?)]; [|right; exists r', mn'; set_solver].
      destruct Hs3 as [->| ->]; [|by left]. right. exists r, mn. split_and!; [left|done..].
    + by apply Cmp_le_trans with start'.
    + intros e' r' mn' [[= -> ->]|Hin]%elem_of_cons Hm Hv; [by apply Cmp_le_trans with start'|by apply (Hub e' r' mn')].
  - destruct (IH found start) as (x & (Hfrom & Hle & Hub) & Hx). exists x. split; [|done]. split_and!; [|done|].
    + destruct Hfrom as [->|(r' & mn' & ? & ? & ?)]; [by left|]. right. exists r', mn'. set_solver.
    + intros e' r' mn' [[= -> ->]|Hin]%elem_of_cons Hm Hv; [|by apply (Hub e' r' mn')]. rewrite Hmn in Hm. injection Hm as <-. lia.
Qed.

(** A concrete checker as the program has it: a loaded matrix, and loops that visit every
    entry of a map once. *)
Definition concrete_ok (c : Concrete) : Prop :=
  matrix_ok (compatibilityMatrix c) /\ forall entry, iteration c entry ≡ₚ map_to_list entry.

Lemma elem_of_iteration c name e r : concrete_ok c ->
  (e, r) ∈ iteration c (default ∅ (compatibilityMatrix c !! name)) <->
  exists entry, compatibilityMatrix c !! name = Some entry /\ entry !! e = Some r.
Proof.
  intros [_ Hit]. rewrite Hit, elem_of_map_to_list. destruct (compatibilityMatrix c !! name) as [entry|]; cbn.
  - split; [by exists entry|]. by intros (? & [= <-] & ?).
  - rewrite lookup_empty. split; [done|]. by intros (? & ? & ?).
Qed.

Lemma iteration_has_min c name : concrete_ok c ->
  Forall (fun e : SemVer * VersionRange => is_Some (Min e.2)) (iteration c (default ∅ (compatibilityMatrix c !! name))).
Proof.
  intros Hc. apply Forall_forall. intros [e r] Hin. apply (elem_of_iteration c name e r Hc) in Hin as (entry & Hn & He).
  destruct Hc as [Hm _]. destruct (Hm _ _ _ _ Hn He) as [mn ->]. by eexists.
Qed.

Lemma listed_iteration c name v e : concrete_ok c ->
  listed (compatibilityMatrix c) name v e <->
  exists r mn, (e, r) ∈ iteration c (default ∅ (compatibilityMatrix c !! name)) /\ Min r = Some mn /\ Cmp mn v <= 0.
Proof.
  intros Hc. setoid_rewrite (elem_of_iteration c name _ _ Hc). unfold listed. split.
  - intros (entry & r & mn & ? & ? & ? & ?). exists r, mn. split_and!; [by exists entry|done..].
  - intros (r & mn & (entry & ? & ?) & ? & ?). by exists entry, r, mn.
Qed.

(** What the loop of [CompatibleVersionRange] computes. *)
Lemma CompatibleVersionRange_cases c name v : concrete_ok c ->
  exists res, CompatibleVersionRange c name v = Ok res /\
    match res with
    | Ok r => exists x e, r = {| Min := Some v; Max := Some x; InclusiveMax := true |} /\
        listed (compatibilityMatrix c) name v e /\ Cmp v x <= 0 /\
        (x = v \/ listed (compatibilityMatrix c) name v x) /\
        (forall e', listed (compatibilityMatrix c) name v e' -> Cmp e' x <= 0)
    | Err e => e = NoCompatibleEngine name v /\ forall e', ~ listed (compatibilityMatrix c) name v e'
    end.
Proof.
  intros Hc. destruct (max_loop v _ (iteration_has_min c name Hc) false v) as (x & (Hfrom & Hle & Hub) & Hx).
  cbn [CompatibleVersionRange ConcreteCompatibilityChecker]. rewrite Hx. cbn [mbind result_bind orb fst snd].
  eexists. split; [done|].
  set (l := iteration c _) in *. destruct (existsb _ l) eqn:Hex.
  - apply existsb_elem_of in Hex as ([e r] & Hin & He). cbn in He. destruct (Min r) as [mn|] eqn:Hm; [|done].
    apply Z.leb_le in He. exists x, e. split_and!; [done| |done| |].
    + apply listed_iteration; [done|]. by exists r, mn.
    + destruct Hfrom as [->|Hfrom]; [by left|right]. by apply listed_iteration.
    + intros e' (r' & mn' & ? & ? & ?)%listed_iteration; [|done]. by apply (Hub e' r' mn').
  - split; [done|]. intros e' (r' & mn' & Hin & Hm & Hv)%listed_iteration; [|done].
    apply not_true_iff_false in Hex. apply Hex, existsb_elem_of. exists (e', r'). split; [done|].
    cbn. rewrite Hm. by apply Z.leb_le.
Qed.

(** For a run of version [v], the range starts at [v] and ends at the newest engine that
    the matrix lists as able to render runs of [v] (or at [v], when those are all older);
    an error means that no engine is listed. The loop never dereferences a nil minimum, and
    the order in which it visits the matrix does not matter. *)
Theorem CompatibleVersionRange_newest raw c name v :
  loadMatrix raw = Ok (compatibilityMatrix c) -> (forall entry, iteration c entry ≡ₚ map_to_list entry) ->
  (forall e, ~ listed (compatibilityMatrix c) name v e) /\
    CompatibleVersionRange c name v = Ok (Err (NoCompatibleEngine name v)) \/
  (exists e, listed (compatibilityMatrix c) name v e) /\
  exists x, CompatibleVersionRange c name v = Ok (Ok {| Min := Some v; Max := Some x; InclusiveMax := true |}) /\
    forall x', CompatibleVersionRange c name v = Ok (Ok {| Min := Some v; Max := Some x'; InclusiveMax := true |}) <->
      Cmp v x' <= 0 /\ (x' = v \/ listed (compatibilityMatrix c) name v x') /\
      forall e, listed (compatibilityMatrix c) name v e -> Cmp e x' <= 0.
Proof.
  intros Hraw Hit. assert (concrete_ok c) as Hc by (split; [by eapply loadMatrix_ok|done]).
  destruct (CompatibleVersionRange_cases c name v Hc) as ([r|e] & -> & Hres).
  2: { destruct Hres as [-> Hno]. by left. }
  destruct Hres as (x & e & -> & He & Hle & Hfrom & Hub). right. split; [by exists e|]. exists x. split; [done|].
  intros x'. split; [by intros [= <-]|]. intros (Hle' & Hfrom' & Hub').
  enough (x = x') as -> by done. apply Cmp_eq.
  assert (Cmp x x' <= 0) by (destruct Hfrom as [->|?]; auto).
  assert (Cmp x' x <= 0) by (destruct Hfrom' as [->|?]; auto).
  pose proof (Cmp_antisym x x'). lia.
Qed.

Lemma CompatibleVersionRange_newest_witness :
  let raw := [("hotspots", [("1.0.0", {| Minimum := "1.0.0" |}); ("2.0.0", {| Minimum := "1.0.0" |});
                            ("3.0.0", {| Minimum := "2.0.0" |}); ("NEXT_VERSION", {| Minimum := "x" |})])] in
  let v1 := {| Major := 1; Minor := 0; Patch := 0 |} in
  let c := {| compatibilityMatrix := default ∅ (ok_value (loadMatrix raw)); engineVersion := v1;
              iteration := map_to_list |} in
  exists x, CompatibleVersionRange c "hotspots" v1 = Ok (Ok {| Min := Some v1; Max := Some x; InclusiveMax := true |}) /\
    x = {| Major := 2; Minor := 0; Patch := 0 |}.
Proof.
  intros raw v1 c.
  destruct (CompatibleVersionRange_newest raw c "hotspots" v1) as [[_ H]|[_ (x & H & _)]].
  - reflexivity.
  - done.
  - vm_compute in H. discriminate H.
  - exists x. split; [exact H|]. vm_compute in H. by injection H as <-.
Defined.

(** ** The interface between the checker and the warning *)

(** What [CheckRunCompatibility] needs of a checker. *)
Class CheckerLaws (C : Type) `{CompatibilityChecker C} (c : C) := {
  range_of_run : forall name v, exists res, CompatibleVersionRange c name v = Ok res /\
    forall r, res = Ok r -> exists x, r = {| Min := Some v; Max := Some x; InclusiveMax := true |} /\ Cmp v x <= 0;
  current_has_min : forall name r, GetCurrentCompatibilityForRecipe c name = Ok r -> is_Some (Min r)
}.

Lemma concrete_laws c : concrete_ok c -> CheckerLaws Concrete c.
Proof.
  intros Hc. split.
  - intros name v. destruct (CompatibleVersionRange_cases c name v Hc) as (res & -> & Hres). exists res. split; [done|].
    intros r ->. destruct Hres as (x & e & -> & _ & Hle & _). by exists x.
  - intros name r. cbn. destruct (compatibilityMatrix c !! name) as [entry|] eqn:Hn; [|done].
    destruct (entry !! engineVersion c) as [r'|] eqn:He; [|done]. intros [= <-].
    destruct Hc as [Hm _]. destruct (Hm _ _ _ _ Hn He) as [mn ->]. by eexists.
Qed.

(** The details of a run: newer than the engine and without a range, or with the range that
    starts at its version. *)
Definition detail_ok (current : SemVer) (r : RunDetails) : Prop :=
  (0 < Cmp (runVersion r) current /\ compatibilityRange r = empty_range) \/
  (Cmp (runVersion r) current <= 0 /\ exists x, Cmp (runVersion r) x <= 0 /\
     compatibilityRange r = {| Min := Some (runVersion r); Max := Some x; InclusiveMax := true |}).

Lemma FindDisjointRanges_cases rs :
  (is_empty_range (Intersection rs) = false /\ FindDisjointRanges rs = (-1, -1)) \/
  (exists a b r1 r2, FindDisjointRanges rs = (Z.of_nat a, Z.of_nat b) /\ rs !! a = Some r1 /\ rs !! b = Some r2 /\
     is_empty_range (Intersection [r1; r2]) = true /\ is_empty_range (Intersection rs) = true).
Proof.
  unfold FindDisjointRanges. destruct (is_empty_range (Intersection rs)) eqn:He; [right|by left].
  destruct (find_disjoint_from_correct 0 rs He) as (a & b & r1 & r2 & Hf & _ & Ha & Hb & Hd).
  exists a, b, r1, r2. by split_and!.
Qed.

(** Two well-formed ranges that are disjoint both have bounds. *)
Lemma disjoint_have_bounds current d1 d2 : detail_ok current d1 -> detail_ok current d2 ->
  is_empty_range (Intersection [compatibilityRange d1; compatibilityRange d2]) = true ->
  exists x1 x2,
    compatibilityRange d1 = {| Min := Some (runVersion d1); Max := Some x1; InclusiveMax := true |} /\
    compatibilityRange d2 = {| Min := Some (runVersion d2); Max := Some x2; InclusiveMax := true |} /\
    (0 < Cmp (runVersion d1) x2 \/ 0 < Cmp (runVersion d2) x1).
Proof.
  intros H1 H2 (a & b & Ha & Hb & m & x & Hm & Hx & Hlt)%is_empty_range_iff.
  rewrite !elem_of_cons in Ha, Hb.
  destruct H1 as [[_ He1]|(_ & x1 & Hle1 & He1)], H2 as [[_ He2]|(_ & x2 & Hle2 & He2)];
    rewrite He1, He2 in *; destruct Ha as [->|[->|?%elem_of_nil]], Hb as [->|[->|?%elem_of_nil]]; try done;
    cbn in Hm, Hx; try injection Hm as <-; try injection Hx as <-; try done; try lia; exists x1, x2; auto.
Qed.

Lemma intersection_bounds current details : Forall (detail_ok current) details ->
  is_empty_range (Intersection (compatibilityRange <$> details)) = false ->
  (exists d, d ∈ details /\ Cmp (runVersion d) current <= 0) ->
  exists g s incl, Intersection (compatibilityRange <$> details) = Some {| Min := Some g; Max := Some s; InclusiveMax := incl |} /\
    Cmp g s <= 0 /\ forall d, d ∈ details -> InRange g (compatibilityRange d) = true /\ InRange s (compatibilityRange d) = true.
Proof.
  intros Hok Hne (d & Hd & Hold). rewrite Forall_forall in Hok.
  set (rs := compatibilityRange <$> details) in *.
  destruct (loop_min_bound rs) as [Hmin _], (loop_max_bound rs) as [Hmax _].
  assert (forall d', d' ∈ details -> compatibilityRange d' ∈ rs) as Hin by (intros; by apply list_elem_of_fmap_2).
  destruct (Hok d Hd) as [[? _]|(_ & x & Hle & Hr)]; [lia|].
  destruct (Hmin (compatibilityRange d) (runVersion d)) as (g & Hg & _); [by apply Hin|by rewrite Hr|].
  destruct (Hmax (compatibilityRange d) x) as (s & Hs & _); [by apply Hin|by rewrite Hr|].
  assert (exists r0 rs', rs = r0 :: rs') as (r0 & rs' & Hrs).
  { specialize (Hin d Hd). destruct rs; [by apply elem_of_nil in Hin|by do 2 eexists]. }
  revert Hne. unfold is_empty_range, Intersection. rewrite Hrs, <- Hrs, Hg, Hs.
  destruct (0 <? Cmp g s) eqn:Hc; [by rewrite bool_decide_true|]. bool_to_prop. intros _.
  eexists g, s, _. split; [done|]. split; [done|]. intros d' Hd'.
  destruct (Hok d' Hd') as [[_ ->]|(_ & x' & Hle' & Hr')]; [done|].
  destruct (Hmin (compatibilityRange d') (runVersion d')) as (g' & Hg' & Hlg); [by apply Hin|by rewrite Hr'|].
  destruct (Hmax (compatibilityRange d') x') as (s' & Hs' & Hls); [by apply Hin|by rewrite Hr'|].
  rewrite Hg in Hg'. injection Hg' as <-. rewrite Hs in Hs'. injection Hs' as <-.
  assert (forall v, Cmp g v <= 0 -> Cmp v s <= 0 -> InRange v (compatibilityRange d') = true) as Hall.
  { intros v Hgv Hvs. rewrite Hr', InRange_split. cbn [Min Max InclusiveMax]. apply andb_true_iff. split.
    - unfold min_ok. apply Z.leb_le. rewrite Cmp_antisym. pose proof (Cmp_le_trans _ _ _ Hlg Hgv). lia.
    - apply max_ok_true. pose proof (Cmp_le_trans _ _ _ Hvs Hls). pose proof (Cmp_range v x'). lia. }
  split; apply Hall; rewrite ?Cmp_refl; done || lia.
Qed.

Lemma disjoint_no_common l v : is_empty_range (Intersection l) = true -> ~ forall r, r ∈ l -> InRange v r = true.
Proof.
  intros (a & b & Ha & Hb & m & x & Hm & Hx & Hlt)%is_empty_range_iff Hall.
  pose proof (Hall a Ha) as Hva. pose proof (Hall b Hb) as Hvb. rewrite InRange_split in Hva, Hvb.
  apply andb_true_iff in Hva as [Hva _], Hvb as [_ Hvb]. rewrite Hm in Hva. rewrite Hx in Hvb.
  unfold min_ok in Hva. apply Z.leb_le in Hva. apply max_ok_true in Hvb.
  pose proof (Cmp_antisym m v). pose proof (Cmp_le_trans m v x). lia.
Qed.

Definition too_new_code (c : message_code) : Prop :=
  c ∈ [IndeterminableTooNew; IndeterminableOldAndNew; IndeterminableTooNewSameVersion; IndeterminableTooNewPlural].
Definition too_old_code (c : message_code) : Prop :=
  c ∈ [IncompatibleTooOld; IncompatibleTooOldSameVersion; IncompatibleTooOldPlural].

Lemma handleTooNew_code current old new : new <> [] ->
  exists m, handleTooNew current old new = Some m /\ too_new_code (code m).
Proof.
  intros Hne. unfold handleTooNew, too_new_code. destruct new as [|r [|r' new]]; [done| |].
  - destruct old; eexists; (split; [done|]); cbn; set_solver.
  - destruct (foldl _ _ _) as [[] newest]; eexists; (split; [done|]); cbn; set_solver.
Qed.

Lemma handleTooOld_code current old minSupported g s incl : old <> [] ->
  exists m, handleTooOld current old minSupported (Some {| Min := Some g; Max := Some s; InclusiveMax := incl |}) = Ok (Some m) /\
    too_old_code (code m) /\ ("minCompatibleVersion", SemVer_String g) ∈ metadata m /\
    ("maxCompatibleVersion", SemVer_String s) ∈ metadata m.
Proof.
  intros Hne. unfold handleTooOld, too_old_code. destruct old as [|r [|r' old]]; [done| |].
  - eexists. split; [done|]. cbn. set_solver.
  - cbn [deref or_err mbind result_bind String_of fmap result_fmap Min Max].
    destruct (forallb _ _); eexists; (split; [done|]); cbn; set_solver.
Qed.

(** The verdict of a warning about the given runs. *)
Definition verdict (current : SemVer) (details : list RunDetails) (m : Message) : Prop :=
  (code m = IncompatibleMutuallyIncompatible /\
     exists d1 d2, d1 ∈ details /\ d2 ∈ details /\
       forall v, InRange v (compatibilityRange d1) && InRange v (compatibilityRange d2) = false) \/
  (too_new_code (code m) /\ exists d, d ∈ details /\ 0 < Cmp (runVersion d) current) \/
  (too_old_code (code m) /\ (forall d, d ∈ details -> Cmp (runVersion d) current <= 0) /\
     (exists d, d ∈ details /\ InRange current (compatibilityRange d) = false) /\
     exists g s, ("minCompatibleVersion", SemVer_String g) ∈ metadata m /\
       ("maxCompatibleVersion", SemVer_String s) ∈ metadata m /\ Cmp g s <= 0 /\
       forall d, d ∈ details -> InRange g (compatibilityRange d) = true /\ InRange s (compatibilityRange d) = true).

Lemma elem_of_List_filter {A} (p : A -> bool) l x : x ∈ List.filter p l <-> x ∈ l /\ p x = true.
Proof. by rewrite !list_elem_of_In, List.filter_In. Qed.

Lemma List_filter_nil {A} (p : A -> bool) l : List.filter p l = [] <-> forall x, x ∈ l -> p x = false.
Proof.
  split.
  - intros Hn x Hx. apply not_true_iff_false. intros Hp. assert (x ∈ List.filter p l) as Hin by by apply elem_of_List_filter.
    rewrite Hn in Hin. by apply elem_of_nil in Hin.
  - intros Hall. destruct (List.filter p l) as [|y k] eqn:Hf; [done|]. assert (y ∈ List.filter p l) as Hin by (rewrite Hf; left).
    apply elem_of_List_filter in Hin as [Hy Hp]. rewrite (Hall y Hy) in Hp. done.
Qed.

(** When no ranges are disjoint, the rest of the function. *)
Lemma consolidate_connected current details minSupported : Forall (detail_ok current) details ->
  is_empty_range (Intersection (compatibilityRange <$> details)) = false ->
  FindDisjointRanges (compatibilityRange <$> details) = (-1, -1) ->
  exists msg, consolidateRuns current details minSupported = Ok msg /\
    match msg with
    | None => forall d, d ∈ details -> Cmp (runVersion d) current <= 0 /\ InRange current (compatibilityRange d) = true
    | Some m => verdict current details m
    end.
Proof.
  intros Hok Hne Hf. unfold consolidateRuns. rewrite Hf. cbn [negb andb Z.eqb Pos.eqb].
  destruct (List.filter (too_new current) details) as [|n new] eqn:Hnew.
  - rewrite List_filter_nil in Hnew.
    assert (forall d, d ∈ details -> Cmp (runVersion d) current <= 0) as Hold.
    { intros d Hd. specialize (Hnew d Hd). unfold too_new in Hnew. by apply Z.ltb_ge in Hnew. }
    destruct (List.filter (too_old current) details) as [|o old] eqn:Hoe.
    + exists None. split; [done|]. intros d Hd. split; [by apply Hold|]. rewrite List_filter_nil in Hoe.
      specialize (Hoe d Hd). unfold too_old in Hoe. rewrite (Hnew d Hd) in Hoe. by apply negb_false_iff in Hoe.
    + assert (o ∈ List.filter (too_old current) details) as [Ho1 Ho2]%elem_of_List_filter by (rewrite Hoe; left).
      unfold too_old in Ho2. apply andb_true_iff in Ho2 as [_ Ho2%negb_true_iff].
      destruct (intersection_bounds current details Hok Hne) as (g & s & incl & -> & Hgs & Hall); [eauto|].
      destruct (handleTooOld_code current (o :: old) minSupported g s incl) as (m & -> & Hc & Hg & Hs); [done|].
      exists (Some m). split; [done|]. right. right. split_and!; eauto 10.
  - assert (n ∈ List.filter (too_new current) details) as [Hn1 Hn2]%elem_of_List_filter by (rewrite Hnew; left).
    destruct (handleTooNew_code current (List.filter (too_old current) details) (n :: new)) as (m & Hm & Hc); [done|].
    exists (Some m). rewrite Hm. split; [by destruct (List.filter (too_old current) details)|].
    right. left. split; [done|]. exists n. split; [done|]. by apply Z.ltb_lt.
Qed.

Lemma verdict_not_silent current details m :
  (forall d, d ∈ details -> Cmp (runVersion d) current <= 0 /\ InRange current (compatibilityRange d) = true) ->
  ~ verdict current details m.
Proof.
  intros Hall [[_ (d1 & d2 & H1 & H2 & Hv)]|[[_ (d & Hd & Hn)]|(_ & _ & (d & Hd & Hr) & _)]].
  - specialize (Hv current). destruct (Hall d1 H1) as [_ Hr1], (Hall d2 H2) as [_ Hr2]. rewrite Hr1, Hr2 in Hv. done.
  - destruct (Hall d Hd). lia.
  - destruct (Hall d Hd). congruence.
Qed.

Lemma consolidateRuns_spec current details minSupported : Forall (detail_ok current) details ->
  exists msg, consolidateRuns current details minSupported = Ok msg /\
    match msg with
    | None => forall d, d ∈ details -> Cmp (runVersion d) current <= 0 /\ InRange current (compatibilityRange d) = true
    | Some m => verdict current details m
    end.
Proof.
  intros Hok.
  destruct (FindDisjointRanges_cases (compatibilityRange <$> details)) as [[Hne Hf]|(a & b & r1 & r2 & Hf & Ha & Hb & Hd & _)].
  { by apply consolidate_connected. }
  apply list_lookup_fmap_Some in Ha as (d1 & -> & Ha), Hb as (d2 & -> & Hb). rewrite Forall_forall in Hok.
  apply list_elem_of_lookup_2 in Ha as Hd1. apply list_elem_of_lookup_2 in Hb as Hd2.
  destruct (disjoint_have_bounds current d1 d2) as (x1 & x2 & H1 & H2 & _); [auto..|].
  unfold consolidateRuns. rewrite Hf. destruct (Z.of_nat a =? -1) eqn:?; [bool_to_prop; lia|].
  destruct (Z.of_nat b =? -1) eqn:?; [bool_to_prop; lia|]. cbn [negb andb]. rewrite !Nat2Z.id, Ha, Hb.
  cbn [deref or_err mbind result_bind]. rewrite H1, H2. cbn. eexists. split; [done|]. left. split; [done|].
  exists d1, d2. split_and!; [done..|]. intros v. apply not_true_iff_false. intros [Hv1 Hv2]%andb_true_iff.
  apply (disjoint_no_common _ v Hd). intros r. rewrite !elem_of_cons. intros [->|[->|?%elem_of_nil]]; done.
Qed.

(** The verdict about the selected runs never dereferences a nil version, and there is no
    warning exactly when every run is compatible with the current engine. A warning is true:
    mutually incompatible runs share no engine version, an indeterminable verdict has a run
    newer than the engine, and the versions that a too-old warning suggests are in the range
    of every run. *)
Theorem consolidateRuns_verdict current details minSupported : Forall (detail_ok current) details ->
  exists msg, consolidateRuns current details minSupported = Ok msg /\
    (msg = None <-> forall d, d ∈ details -> Cmp (runVersion d) current <= 0 /\ InRange current (compatibilityRange d) = true) /\
    (forall m, msg = Some m -> verdict current details m).
Proof.
  intros (msg & Hmsg & Hv)%(consolidateRuns_spec _ _ minSupported). exists msg. split; [done|].
  destruct msg as [m|]; [|done]. split; [|by intros ? [= <-]].
  split; [done|]. intros Hall. by destruct (verdict_not_silent current details m).
Qed.

Lemma consolidateRuns_verdict_witness :
  let v n := {| Major := n; Minor := 0; Patch := 0 |} in
  let run id a b := {| runID := id; runVersion := v a;
                       compatibilityRange := {| Min := Some (v a); Max := Some (v b); InclusiveMax := true |} |} in
  exists msg, consolidateRuns (v 5) [run "r1" 1 3; run "r2" 2 4] (v 4) = Ok msg /\
    (forall m, msg = Some m -> verdict (v 5) [run "r1" 1 3; run "r2" 2 4] m) /\
    code <$> msg = Some IncompatibleTooOldPlural.
Proof.
  intros v run. destruct (consolidateRuns_verdict (v 5) [run "r1" 1 3; run "r2" 2 4] (v 4)) as (msg & Hmsg & _ & Hv).
  - apply Forall_cons. split; [|apply Forall_singleton]; right; (split; [done|]); eexists; (split; [|reflexivity]); done.
  - exists msg. split; [exact Hmsg|]. split; [exact Hv|]. vm_compute in Hmsg. by injection Hmsg as <-.
Defined.

Section Safety.

Context {C : Type} `{HC : CompatibilityChecker C} {E : Type}.
Context (describe : string -> result E RunDescription) (armProvided : string -> bool) (c : C) {Hlaws : CheckerLaws C c}.

(** The details gathered from the runs are well formed. *)
Lemma gather_runs_ok runIDs : forall recipeName, exists res,
  gather_runs describe armProvided c recipeName runIDs = Ok res /\
  forall name details, res = Ok (Some (name, details)) -> Forall (detail_ok (GetCurrentEngineVersion c)) details.
Proof.
  induction runIDs as [|id rest IH]; intros recipeName; cbn [gather_runs].
  { eexists. split; [done|]. intros ? ? [= <- <-]. constructor. }
  destruct (describe id) as [d|e]; [|eexists; split; [done|]; done].
  destruct (armProvided (RecipeName d)); cbn [negb]; [|eexists; split; [done|]; done].
  destruct (IH (RecipeName d)) as (later & -> & Hlater). cbn [fmap result_fmap].
  assert (forall found, Forall (detail_ok (GetCurrentEngineVersion c)) found -> forall name details,
            with_details found later = Ok (Some (name, details)) -> Forall (detail_ok (GetCurrentEngineVersion c)) details) as Hadd.
  { intros found Hfound name details. unfold with_details. destruct later as [[[n l]|]|e]; [|done..].
    intros [= <- <-]. apply Forall_app. split; [done|by eapply Hlater]. }
  destruct (ParseSemVer (EngineVersion d)) as [v|]; [|eexists; split; [done|]; by apply Hadd].
  destruct (0 <? Cmp v (GetCurrentEngineVersion c)) eqn:Hnew; bool_to_prop.
  { eexists. split; [done|]. apply Hadd. apply Forall_singleton. by left. }
  destruct (range_of_run (c := c) (RecipeName d) v) as (res & -> & Hres). cbn [mbind result_bind].
  destruct res as [r|]; (eexists; split; [done|]); apply Hadd; [|constructor]. apply Forall_singleton.
  destruct (Hres r eq_refl) as (x & -> & Hle). right. split; [done|]. exists x. by split.
Qed.

(** With any checker that keeps its promises, checking the compatibility of any selection
    of runs ends without a nil dereference. Nothing is checked, and no warning given, unless
    the installed version of the recipe renders the runs. *)
Theorem CheckRunCompatibility_safe policy runIDs :
  exists res, CheckRunCompatibility describe armProvided c policy runIDs = Ok res /\
    (policy <> UseInstalledVersion -> res = Ok None).
Proof.
  destruct policy; cbn; [|by eexists..]. destruct runIDs as [|id rest]; [by eexists|].
  destruct (gather_runs_ok (id :: rest) EmptyString) as (gathered & -> & Hg). cbn [mbind result_bind].
  destruct gathered as [[[name details]|]|e]; [|by eexists..]. unfold getMinSupportedVersion.
  destruct (GetCurrentCompatibilityForRecipe c name) as [r|] eqn:Hr; [|by eexists].
  destruct (current_has_min (c := c) name r Hr) as [m ->]. cbn.
  destruct (consolidateRuns_spec _ details m (Hg name details eq_refl)) as (msg & -> & _). by eexists.
Qed.

End Safety.

Lemma CheckRunCompatibility_safe_witness :
  let raw := [("hotspots", [("1.0.0", {| Minimum := "1.0.0" |}); ("2.0.0", {| Minimum := "2.0.0" |})])] in
  let c := {| compatibilityMatrix := default ∅ (ok_value (loadMatrix raw));
              engineVersion := {| Major := 2; Minor := 0; Patch := 0 |}; iteration := map_to_list |} in
  let describe (id : string) : result unit RunDescription := Ok {| RecipeName := "hotspots"; EngineVersion := id |} in
  exists res, CheckRunCompatibility describe (IsRecipeArmProvided (compatibilityMatrix c)) c UseInstalledVersion ["1.0.0"] = Ok res /\
    fmap (option_map code) res = Ok (Some IncompatibleTooOld).
Proof.
  intros raw c describe.
  assert (CheckerLaws Concrete c) as Hc.
  { apply concrete_laws. split; [by apply (loadMatrix_ok raw)|done]. }
  destruct (CheckRunCompatibility_safe describe (IsRecipeArmProvided (compatibilityMatrix c)) c UseInstalledVersion ["1.0.0"])
    as (res & Hres & _).
  exists res. split; [exact Hres|]. vm_compute in Hres. by injection Hres as <-.
Defined.
