(* ===== verification/FilePaths.v ===== *)
(** * Performix: file paths

    Cleaning of paths, and from [core/apap-engine/util/path.go] the composition of local paths
    for the files that a remote glob matched ([RemapGlobbedPath]) and the exclusion of files
    ([MatchesAny]). Paths have the separator [/]. *)

From S2P Require Import Prelude.
From S2P Require Import GoStrings.
From Stdlib Require Import Ascii.

Local Open Scope Z_scope.

(** [filepath.Clean] on a system with [/] as separator: the stack of components is kept in
    reverse. *)
Fixpoint clean_components (rooted : bool) (stack : list string) (comps : list string) : list string :=
  match comps with
  | [] => reverse stack
  | c :: rest =>
      if bool_decide (c = EmptyString) || bool_decide (c = ".") then clean_components rooted stack rest
      else if bool_decide (c = "..") then
        match stack with
        | [] => clean_components rooted (if rooted then [] else [".."]) rest
        | top :: stack' => if bool_decide (top = "..") then clean_components rooted (".." :: stack) rest
                           else clean_components rooted stack' rest
        end
      else clean_components rooted (c :: stack) rest
  end.

Definition Clean (path : string) : string :=
  let rooted := HasPrefix path "/" in
  let body := Join "/" (clean_components rooted [] (Split "/" path)) in
  if rooted then "/" +:+ body else if bool_decide (body = EmptyString) then "." else body.

Fixpoint smap (f : ascii -> ascii) (s : string) : string :=
  match s with EmptyString => EmptyString | String c s' => String (f c) (smap f s') end.

(** [filepath.Join]: empty elements are ignored. *)
Definition JoinPath (elems : list string) : string :=
  match filter (fun e => e <> EmptyString) elems with
  | [] => EmptyString
  | l => Clean (Join "/" l)
  end.

Definition components (p : string) : list string := clean_components (HasPrefix p "/") [] (Split "/" p).

Fixpoint strip_common (a b : list string) : list string * list string :=
  match a, b with
  | x :: a', y :: b' => if bool_decide (x = y) then strip_common a' b' else (a, b)
  | _, _ => (a, b)
  end.

(** [filepath.Rel]: [None] is the error. *)
Definition Rel (basepath targpath : string) : option string :=
  let base := Clean basepath in
  let targ := Clean targpath in
  if bool_decide (targ = base) then Some "."
  else if negb (Bool.eqb (HasPrefix base "/") (HasPrefix targ "/")) then None
  else
    let (rb, rt) := strip_common (components base) (if bool_decide (targ = ".") then ["."] else components targ) in
    match rb with
    | [] => Some (Join "/" rt)
    | c :: _ => if bool_decide (c = "..") then None else Some (Join "/" (replicate (length rb) ".." ++ rt))
    end.

Example rel_paths : (Rel "/a/b" "/a/b/c/d", Rel "/a/b" "/a/x", Rel "a" "..", Rel "../a" "b") =
  (Some "c/d", Some "../x", Some "../..", None).
Proof. vm_compute. reflexivity. Qed.

(** Every backslash becomes a slash. *)
Definition ForceToSlash (p : string) : string := smap (fun c => if Ascii.eqb c "\" then "/"%char else c) p.

Definition IsChildPath (basePath childPath : string) : bool :=
  match Rel basePath childPath with
  | None => false
  | Some rel =>
      if bool_decide (rel = ".") || bool_decide (rel = "..") then false
      else if HasPrefix rel "../" then false
      else negb (HasPrefix rel "/")
  end.

(** ** Glob templates *)

Definition containsMetachar (p : string) : bool := Contains p "*".

(** [strings.ContainsAny(p, unsupportedMetachars)] *)
Definition has_unsupported (p : string) : bool :=
  negb (sall (fun c => negb (bool_decide (c ∈ ["?"; "["; "]"; "{"; "}"]%char))) p).

(** [unicode.IsLetter] of a byte, as a rune below 256. *)
Definition is_latin1_letter (c : ascii) : bool :=
  between 65 90 c || between 97 122 c || (byte_of c =? 170) || (byte_of c =? 181) || (byte_of c =? 186) ||
  (between 192 255 c && negb ((byte_of c =? 215) || (byte_of c =? 247))).

Definition isAbsolutePath (p : string) : bool :=
  let normalised := ForceToSlash p in
  HasPrefix normalised "/" ||
  match normalised with
  | String c (String ":" (String "/" _)) => is_latin1_letter c
  | _ => false
  end.

Definition containsParentPathSegment (p : string) : bool := bool_decide (".." ∈ Split "/" p).

Definition splitAtFirstWildcardSegment (path : string) : string * string * bool :=
  let segments := Split "/" path in
  match find_index containsMetachar segments with
  | None => (path, EmptyString, false)
  | Some i =>
      let suffix := Join "/" (drop i segments) in
      match i, segments with
      | O, _ => (EmptyString, suffix, true)
      | 1%nat, EmptyString :: _ => ("/", suffix, true)
      | _, _ => (Join "/" (take i segments), suffix, true)
      end
  end.

Definition joinPrefixAndDelta (prefix delta : string) : string :=
  if bool_decide (prefix = EmptyString) then delta
  else if bool_decide (delta = EmptyString) then prefix
  else prefix +:+ "/" +:+ delta.

Inductive remap_error (E : Type) :=
| UnsupportedMetachar (p : string) | IsDirectory (p : string) | CoordinateSpaceMismatch (remotePath remoteBase : string)
| RemoteNotConcrete (remote : string) | BothConcrete (remote remoteBase : string) | LocalGlobbed (local : string)
| WildcardSuffixMismatch (localPath remoteBase : string) | MatchError (e : E)
| RemotePathPatternMismatch (remotePath remoteBase : string)
| PathTraversal (remappedPath pathComponent : string)
| RelativeTemplateAbsolutePath (remappedPath localTemplate : string)
| RelativeTemplateBaseEscape (remappedPath localTemplate : string).
Arguments UnsupportedMetachar {E}. Arguments IsDirectory {E}. Arguments CoordinateSpaceMismatch {E}.
Arguments RemoteNotConcrete {E}. Arguments BothConcrete {E}. Arguments LocalGlobbed {E}.
Arguments WildcardSuffixMismatch {E}. Arguments MatchError {E}. Arguments RemotePathPatternMismatch {E}.
Arguments PathTraversal {E}. Arguments RelativeTemplateAbsolutePath {E}. Arguments RelativeTemplateBaseEscape {E}.

Section Remap.

(** [doublestar.Match], of the pattern and the path. *)
Context {E : Type} (Match : string -> string -> result E bool).

Definition validate_path (p : string) : result (remap_error E) unit :=
  if has_unsupported p then Err (UnsupportedMetachar p)
  else if HasSuffix p "/" then Err (IsDirectory p) else Ok tt.

Definition validateRemappedLocalPath (localTemplate remappedLocal : string) (pathParts : list string)
    : result (remap_error E) unit :=
  _ ← for_each (fun p => if containsParentPathSegment p then Err (PathTraversal remappedLocal p) else Ok tt) pathParts;
  if isAbsolutePath localTemplate then Ok tt
  else
    let cleaned := ForceToSlash (Clean remappedLocal) in
    if isAbsolutePath cleaned then Err (RelativeTemplateAbsolutePath remappedLocal localTemplate)
    else if bool_decide (cleaned = "..") || HasPrefix cleaned "../"
    then Err (RelativeTemplateBaseEscape remappedLocal localTemplate)
    else Ok tt.

(** The end of the function: the concrete part [delta] below the local prefix. *)
Definition remap_delta (cleanLocal localPrefix delta : string) : result (remap_error E) string :=
  let remappedLocal := joinPrefixAndDelta localPrefix delta in
  _ ← validateRemappedLocalPath cleanLocal remappedLocal [delta];
  Ok (Clean remappedLocal).

Definition RemapGlobbedPath (local remote remoteBase : string) : result (remap_error E) string :=
  let normalisedLocal := ForceToSlash local in
  let normalisedRemote := ForceToSlash remote in
  let normalisedRemoteBase := ForceToSlash remoteBase in
  _ ← for_each validate_path [normalisedLocal; normalisedRemote; normalisedRemoteBase];
  let cleanLocal := ForceToSlash (Clean normalisedLocal) in
  let cleanRemote := ForceToSlash (Clean normalisedRemote) in
  let cleanRemoteBase := ForceToSlash (Clean normalisedRemoteBase) in
  if negb (Bool.eqb (isAbsolutePath cleanRemote) (isAbsolutePath cleanRemoteBase))
  then Err (CoordinateSpaceMismatch remote remoteBase)
  else if containsMetachar cleanRemote then Err (RemoteNotConcrete remote)
  else if negb (containsMetachar cleanRemoteBase) then
    if negb (bool_decide (cleanRemote = cleanRemoteBase)) then Err (BothConcrete remote remoteBase)
    else if containsMetachar cleanLocal then Err (LocalGlobbed local)
    else Ok cleanLocal
  else
    let '(localPrefix, localSuffix, localHas) := splitAtFirstWildcardSegment cleanLocal in
    let '(remotePrefix, remoteSuffix, remoteHas) := splitAtFirstWildcardSegment cleanRemoteBase in
    if negb localHas || negb remoteHas || negb (bool_decide (localSuffix = remoteSuffix))
    then Err (WildcardSuffixMismatch local remoteBase)
    else
      match Match cleanRemoteBase cleanRemote with
      | Err e => Err (MatchError e)
      | Ok false => Err (RemotePathPatternMismatch remote remoteBase)
      | Ok true =>
          if bool_decide (remotePrefix = EmptyString) then remap_delta cleanLocal localPrefix cleanRemote
          else remap_delta cleanLocal localPrefix (TrimPrefix (TrimPrefix cleanRemote remotePrefix) "/")
      end.

Definition MatchesAny (filePath : string) (patterns : list string) : result E bool :=
  let cleanedPath := ForceToSlash (Clean (ForceToSlash filePath)) in
  (fix any (patterns : list string) : result E bool :=
     match patterns with
     | [] => Ok false
     | pattern :: rest =>
         shouldExclude ← Match (ForceToSlash (Clean (ForceToSlash pattern))) cleanedPath;
         if shouldExclude : bool then Ok true else any rest
     end) patterns.

End Remap.

Example remap_csv : RemapGlobbedPath (E := unit) (fun _ _ => Ok true) "out/*.csv" "/data/run/a.csv" "/data/run/*.csv" = Ok "out/a.csv".
Proof. vm_compute. reflexivity. Qed.

(** ** Components of a path *)

Definition names (comps : list string) : list string := filter (fun c => c <> EmptyString /\ c <> ".") comps.

Lemma Split_app c a b : Split c (a +:+ String c b) = Split c a ++ Split c b.
Proof.
  induction a as [|d a IH]; [rewrite sapp_nil_l; cbn; by rewrite Ascii.eqb_refl|]. rewrite sapp_cons. cbn [Split].
  rewrite IH. destruct (Ascii.eqb d c); [done|]. destruct (Split c a) as [|w l] eqn:Ha; [by apply Split_nonempty in Ha|done].
Qed.

Lemma clean_components_app rooted A B : forall stack,
  clean_components rooted stack (A ++ B) = clean_components rooted (reverse (clean_components rooted stack A)) B.
Proof.
  induction A as [|c A IH]; intros stack; cbn [clean_components app]; [by rewrite reverse_involutive|].
  destruct (_ || _); [apply IH|]. destruct (bool_decide (c = "..")); [|apply IH].
  destruct stack as [|top stack]; [apply IH|]. destruct (bool_decide (top = "..")); apply IH.
Qed.

Lemma clean_no_parent rooted comps : ".." ∉ comps -> forall stack,
  clean_components rooted stack comps = reverse stack ++ names comps.
Proof.
  induction comps as [|c comps IH]; intros Hn stack; cbn [clean_components]; [by rewrite app_nil_r|].
  apply not_elem_of_cons in Hn as [Hc Hn]. unfold names. rewrite filter_cons.
  destruct (bool_decide (c = EmptyString)) eqn:H1; [|destruct (bool_decide (c = ".")) eqn:H2]; bool_to_prop; cbn [orb].
  - rewrite decide_False by tauto. by apply IH.
  - rewrite decide_False by tauto. by apply IH.
  - rewrite bool_decide_false by done. rewrite decide_True by done. rewrite IH by done.
    by rewrite reverse_cons, <- app_assoc.
Qed.

(** Parent directories are only left at the start of a relative path. *)
Definition stack_ok (rooted : bool) (stack : list string) : Prop :=
  exists ups, stack = filter (fun c => c <> "..") stack ++ replicate ups ".." /\ (rooted = true -> ups = 0%nat).

Lemma clean_stack_ok rooted comps : forall stack, stack_ok rooted stack ->
  stack_ok rooted (reverse (clean_components rooted stack comps)).
Proof.
  induction comps as [|c comps IH]; intros stack Hst; cbn [clean_components]; [by rewrite reverse_involutive|].
  destruct (_ || _); [by apply IH|]. destruct (bool_decide (c = "..")) eqn:Hc; bool_to_prop.
  - destruct stack as [|top stack].
    + apply IH. destruct rooted; [by exists 0%nat|]. exists 1%nat. split; [|done]. vm_compute. reflexivity.
    + destruct Hst as (ups & Heq & Hr). destruct (bool_decide (top = "..")) eqn:Ht; bool_to_prop; apply IH.
      * subst top. rewrite filter_cons_False in Heq by tauto.
        exists (S ups). assert (filter (fun c : string => c <> "..") stack = []) as Hnil.
        { destruct (filter _ stack) as [|y l] eqn:Hf; [done|]. cbn in Heq. injection Heq as Hy _.
          assert (y ∈ filter (fun c : string => c <> "..") stack) as [Hne _]%list_elem_of_filter by (rewrite Hf; left). done. }
        rewrite Hnil in Heq. cbn in Heq. split.
        -- rewrite !filter_cons_False by tauto. rewrite Hnil. cbn. by rewrite <- Heq.
        -- intros ->. destruct ups; [done|]. by specialize (Hr eq_refl).
      * rewrite filter_cons_True in Heq by done. cbn in Heq. injection Heq as Heq. by exists ups.
  - apply IH. destruct Hst as (ups & Heq & Hr). exists ups. split; [|done].
    rewrite filter_cons_True by done. cbn. by rewrite <- Heq.
Qed.

Lemma components_no_parent p : head (components p) <> Some ".." -> ".." ∉ components p.
Proof.
  intros Hh. destruct (clean_stack_ok (HasPrefix p "/") (Split "/" p) []) as (ups & Heq & _); [by exists 0%nat|].
  fold (components p) in Heq. intros Hin.
  destruct ups as [|ups].
  - rewrite app_nil_r in Heq. rewrite <- elem_of_reverse in Hin. rewrite Heq in Hin. by apply list_elem_of_filter in Hin as [? _].
  - apply Hh. rewrite <- (reverse_involutive (components p)), Heq, reverse_app, reverse_replicate. done.
Qed.

Lemma components_rooted_no_parent p : HasPrefix p "/" = true -> ".." ∉ components p.
Proof.
  intros Hp Hin. destruct (clean_stack_ok (HasPrefix p "/") (Split "/" p) []) as (ups & Heq & Hr); [by exists 0%nat|].
  fold (components p) in Heq. rewrite (Hr Hp), app_nil_r in Heq.
  rewrite <- elem_of_reverse, Heq in Hin. by apply list_elem_of_filter in Hin as [? _].
Qed.

(** What is joined below a prefix without parent segments is below the prefix. *)
Lemma components_join prefix delta : ".." ∉ Split "/" delta ->
  components (joinPrefixAndDelta prefix delta) = components prefix ++ names (Split "/" delta).
Proof.
  intros Hn. unfold joinPrefixAndDelta, components.
  destruct (bool_decide (prefix = EmptyString)) eqn:Hp; bool_to_prop.
  - subst prefix. rewrite clean_no_parent by done. done.
  - destruct (bool_decide (delta = EmptyString)) eqn:Hd; bool_to_prop.
    + subst delta. cbn. by rewrite app_nil_r.
    + change (prefix +:+ "/" +:+ delta) with (prefix +:+ String "/" delta).
      assert (HasPrefix (prefix +:+ String "/" delta) "/" = HasPrefix prefix "/") as ->.
      { destruct prefix as [|c prefix]; [done|]. cbn. by destruct prefix. }
      rewrite Split_app, clean_components_app, clean_no_parent by done. by rewrite reverse_involutive.
Qed.

Lemma smap_app f a b : smap f (a +:+ b) = smap f a +:+ smap f b.
Proof. induction a as [|c a IH]; [by rewrite !sapp_nil_l|]. rewrite !sapp_cons. cbn [smap]. by rewrite IH. Qed.

Lemma smap_id_twice f s : (forall c, f (f c) = f c) -> smap f (smap f s) = smap f s.
Proof. intros Hf. induction s as [|c s IH]; cbn; [done|]. by rewrite Hf, IH. Qed.

Lemma ForceToSlash_twice p : ForceToSlash (ForceToSlash p) = ForceToSlash p.
Proof. apply smap_id_twice. intros c. cbn beta. destruct (Ascii.eqb c "\") eqn:Hc; [done|by rewrite Hc]. Qed.

Lemma Clean_components p : Clean p =
  if HasPrefix p "/" then "/" +:+ Join "/" (components p)
  else if bool_decide (Join "/" (components p) = EmptyString) then "." else Join "/" (components p).
Proof. done. Qed.

Lemma Join_cons sep w l : exists r, Join sep (w :: l) = w +:+ r /\ (l = [] -> r = EmptyString) /\ (l <> [] -> exists r', r = sep +:+ r').
Proof.
  destruct l as [|v l]; [exists EmptyString; by rewrite sapp_nil_r|].
  exists (sep +:+ Join sep (v :: l)). split; [done|]. split; [done|]. intros _. by eexists.
Qed.

(** A path that passes the last checks of [validateRemappedLocalPath] stays below the current
    directory. *)
Lemma confined_components x : isAbsolutePath (ForceToSlash (Clean x)) = false ->
  bool_decide (ForceToSlash (Clean x) = "..") || HasPrefix (ForceToSlash (Clean x)) "../" = false ->
  HasPrefix x "/" = false /\ ".." ∉ components x.
Proof.
  intros Ha [Hd Hp]%orb_false_iff. bool_to_prop. unfold isAbsolutePath in Ha. rewrite ForceToSlash_twice in Ha.
  apply orb_false_iff in Ha as [Ha _]. rewrite Clean_components in *.
  assert (HasPrefix x "/" = false) as Hx.
  { apply not_true_iff_false. intros Hx. rewrite Hx in Ha. unfold ForceToSlash in Ha. rewrite smap_app in Ha.
    rewrite prefix_app in Ha. done. }
  rewrite Hx in *. split; [done|]. apply components_no_parent. intros Hh.
  destruct (components x) as [|c comps]; [done|]. cbn in Hh. injection Hh as ->.
  destruct (Join_cons "/" ".." comps) as (r & Hj & Hnil & Hr).
  destruct (bool_decide (Join "/" (".." :: comps) = EmptyString)) eqn:He; bool_to_prop; [rewrite Hj in He; done|].
  rewrite Hj in Hd, Hp. unfold ForceToSlash in *. rewrite smap_app in Hd, Hp.
  destruct comps as [|c comps].
  - apply Hd. by rewrite (Hnil eq_refl).
  - destruct (Hr ltac:(done)) as [r' ->]. rewrite smap_app in Hp. change (smap _ "..") with ".." in Hp.
    change (smap _ "/") with "/" in Hp. rewrite <- sapp_assoc in Hp. rewrite (prefix_app "../") in Hp. done.
Qed.

Section Remapped.

Context {E : Type} (Match : string -> string -> result E bool).

Lemma remap_delta_Ok cleanLocal prefix delta p : remap_delta (E := E) cleanLocal prefix delta = Ok p ->
  p = Clean (joinPrefixAndDelta prefix delta) /\ ".." ∉ Split "/" delta /\
  (isAbsolutePath cleanLocal = false -> HasPrefix (joinPrefixAndDelta prefix delta) "/" = false /\
     ".." ∉ components (joinPrefixAndDelta prefix delta)).
Proof.
  unfold remap_delta. intros (u & Hv & [= <-])%bind_Ok. split; [done|].
  unfold validateRemappedLocalPath in Hv. apply bind_Ok in Hv as (u' & Hf & Hv).
  cbn [for_each] in Hf. unfold containsParentPathSegment in Hf.
  destruct (bool_decide (".." ∈ Split "/" delta)) eqn:Hd; [done|]. bool_to_prop. split; [done|].
  intros Habs. rewrite Habs in Hv. destruct (isAbsolutePath (ForceToSlash _)) eqn:Ha; [done|].
  destruct (_ || _) eqn:Ho; [done|]. by apply confined_components.
Qed.

(** A remapped path stays where its template puts it. For a remote path that a glob
    matched, the result lies below the concrete prefix of the local template: its components
    are those of the prefix followed by those of the matched part, without a parent segment;
    and for a relative template it stays below the current directory. Without a glob both
    remote paths agree and the result is the local path. *)
Theorem remapped_stays_below local remote remoteBase p : RemapGlobbedPath Match local remote remoteBase = Ok p ->
  let cleanLocal := ForceToSlash (Clean (ForceToSlash local)) in
  let cleanRemote := ForceToSlash (Clean (ForceToSlash remote)) in
  let cleanBase := ForceToSlash (Clean (ForceToSlash remoteBase)) in
  containsMetachar cleanRemote = false /\
  if containsMetachar cleanBase then
    Match cleanBase cleanRemote = Ok true /\
    exists prefix suffix delta, splitAtFirstWildcardSegment cleanLocal = (prefix, suffix, true) /\
      p = Clean (joinPrefixAndDelta prefix delta) /\
      components (joinPrefixAndDelta prefix delta) = components prefix ++ names (Split "/" delta) /\
      ".." ∉ names (Split "/" delta) /\
      (isAbsolutePath cleanLocal = false -> HasPrefix (joinPrefixAndDelta prefix delta) "/" = false /\
         ".." ∉ components (joinPrefixAndDelta prefix delta))
  else cleanRemote = cleanBase /\ p = cleanLocal /\ containsMetachar p = false.
Proof.
  cbn zeta. unfold RemapGlobbedPath. intros (u & _ & H)%bind_Ok.
  set (cl := ForceToSlash (Clean (ForceToSlash local))) in *.
  set (cr := ForceToSlash (Clean (ForceToSlash remote))) in *.
  set (cb := ForceToSlash (Clean (ForceToSlash remoteBase))) in *.
  destruct (negb _); [done|]. destruct (containsMetachar cr); [done|]. split; [done|].
  destruct (containsMetachar cb); cbn [negb] in H.
  - destruct (splitAtFirstWildcardSegment cl) as [[prefix suffix] has].
    destruct (splitAtFirstWildcardSegment cb) as [[rp rs] rhas].
    destruct has; [|done]. cbn [negb orb] in H. destruct (negb rhas || _); [done|].
    destruct (Match cb cr) as [[]|]; [|done..]. split; [done|].
    assert (exists delta, remap_delta (E := E) cl prefix delta = Ok p) as [delta Hd].
    { destruct (bool_decide (rp = EmptyString)); by eexists. }
    exists prefix, suffix, delta. split; [done|]. apply remap_delta_Ok in Hd as (-> & Hn & Hrel).
    split; [done|]. split; [by apply components_join|]. split; [|done].
    intros [_ ?]%list_elem_of_filter. done.
  - destruct (bool_decide (cr = cb)) eqn:Heq; cbn [negb] in H; [|done]. bool_to_prop.
    destruct (containsMetachar cl) eqn:Hc; [done|]. by injection H as <-.
Qed.

End Remapped.

Lemma remapped_stays_below_witness :
  let always (_ _ : string) : result unit bool := Ok true in
  exists p, RemapGlobbedPath always "out/logs/*.txt" "/var/a/../b/x.txt" "/var/b/*.txt" = Ok p /\
    containsMetachar (ForceToSlash (Clean (ForceToSlash "/var/a/../b/x.txt"))) = false.
Proof.
  intros always. exists "out/logs/x.txt". assert (RemapGlobbedPath always "out/logs/*.txt" "/var/a/../b/x.txt" "/var/b/*.txt" = Ok "out/logs/x.txt") as H
    by (vm_compute; reflexivity).
  split; [exact H|]. exact (proj1 (remapped_stays_below always _ _ _ _ H)).
Defined.

(** ** Cleaning twice *)

Definition component_ok (c : string) : Prop := c <> EmptyString /\ c <> "." /\ byte_free "/" c = true.

Lemma clean_components_ok rooted comps : Forall (fun c => byte_free "/" c = true) comps -> forall stack,
  Forall component_ok stack -> Forall component_ok (clean_components rooted stack comps).
Proof.
  induction 1 as [|c comps Hc _ IH]; intros stack Hs; cbn [clean_components].
  { rewrite Forall_forall in *. intros c Hc. apply Hs. by rewrite elem_of_reverse in Hc. }
  destruct (bool_decide (c = EmptyString)) eqn:H1; [by apply IH|].
  destruct (bool_decide (c = ".")) eqn:H2; [by apply IH|]. cbn [orb]. bool_to_prop.
  assert (component_ok "..") as Hup by (split_and!; done).
  destruct (bool_decide (c = "..")) eqn:H3; [|apply IH; by constructor].
  destruct Hs as [|top stack Ht Hs]; [apply IH; destruct rooted; [constructor|constructor; [done|constructor]]|].
  destruct (bool_decide (top = "..")); apply IH; [constructor; [done|by constructor]|done].
Qed.

Lemma components_ok p : Forall component_ok (components p).
Proof. apply clean_components_ok; [apply Split_fields_free|constructor]. Qed.

Lemma names_ok_id l : Forall component_ok l -> names l = l.
Proof.
  induction 1 as [|c l (H1 & H2 & _) _ IH]; [done|]. unfold names. rewrite filter_cons_True by done. f_equal. exact IH.
Qed.

Lemma clean_ups k : forall j, clean_components false (replicate j "..") (replicate k "..") = replicate (j + k) "..".
Proof.
  induction k as [|k IH]; intros j; cbn [replicate clean_components].
  { by rewrite reverse_replicate, Nat.add_0_r. }
  change (bool_decide (".." = EmptyString)) with false. change (bool_decide (".." = ".")) with false.
  change (bool_decide (".." = "..")) with true. cbn [orb].
  replace (j + S k)%nat with (S j + k)%nat by lia. rewrite <- IH. destruct j as [|j]; [done|]. cbn [replicate].
  by change (bool_decide (".." = "..")) with true.
Qed.

Lemma clean_components_fix rooted l : Forall component_ok l -> stack_ok rooted (reverse l) -> clean_components rooted [] l = l.
Proof.
  intros Hl (ups & Heq & Hr).
  assert (l = replicate ups ".." ++ reverse (filter (fun c => c <> "..") (reverse l))) as Hsplit.
  { rewrite <- (reverse_involutive l) at 1. rewrite Heq at 1. by rewrite reverse_app, reverse_replicate. }
  set (nm := reverse (filter _ _)) in *.
  assert (".." ∉ nm) as Hn by (unfold nm; rewrite elem_of_reverse; by intros [? _]%list_elem_of_filter).
  rewrite Hsplit at 1. rewrite clean_components_app, clean_no_parent, reverse_involutive by done.
  rewrite Hsplit, Forall_app in Hl. rewrite (names_ok_id nm) by apply Hl. etransitivity; [|symmetry; exact Hsplit]. f_equal.
  destruct rooted; [by rewrite (Hr eq_refl)|]. exact (clean_ups ups 0).
Qed.

Lemma components_stack_ok p : stack_ok (HasPrefix p "/") (reverse (components p)).
Proof. apply (clean_stack_ok (HasPrefix p "/") (Split "/" p) []). exists 0%nat. done. Qed.

Lemma Join_components_head p r : Join "/" (components p) = String "/" r -> False.
Proof.
  intros Hj. pose proof (components_ok p) as Hok. destruct (components p) as [|c l]; [done|].
  apply Forall_cons in Hok as [(H1 & _ & H3) _]. destruct (Join_cons "/" c l) as (r' & Hj' & _). rewrite Hj' in Hj.
  destruct c as [|d c]; [done|]. rewrite sapp_cons in Hj. injection Hj as -> _. done.
Qed.

Lemma Clean_rooted p : HasPrefix (Clean p) "/" = HasPrefix p "/".
Proof.
  rewrite Clean_components. destruct (HasPrefix p "/") eqn:Hp; [apply prefix_app|].
  destruct (bool_decide _); [done|]. apply not_true_iff_false. intros (r & Hr)%prefix_spec.
  by apply (Join_components_head p r).
Qed.

Lemma components_Clean p : components (Clean p) = components p.
Proof.
  unfold components at 1. rewrite Clean_rooted. pose proof (components_ok p) as Hok. pose proof (components_stack_ok p) as Hst.
  assert (Forall (fun w => byte_free "/" w = true) (components p)) as Hfree.
  { eapply Forall_impl; [exact Hok|]. by intros c (_ & _ & ?). }
  rewrite Clean_components. destruct (HasPrefix p "/") eqn:Hp.
  - change ("/" +:+ Join "/" (components p)) with (EmptyString +:+ String "/" (Join "/" (components p))).
    rewrite Split_app. destruct (components p) as [|c l] eqn:Hc; [done|]. rewrite Split_Join by done.
    exact (clean_components_fix true (c :: l) Hok Hst).
  - destruct (components p) as [|c l] eqn:Hc; [done|]. rewrite <- Hc in *. rewrite bool_decide_false.
    + rewrite Split_Join by (done || congruence). by apply clean_components_fix.
    + intros He. rewrite Hc in *. destruct (Join_cons "/" c l) as (r & Hj & _). rewrite Hj in He.
      apply Forall_cons in Hok as [(? & _) _]. by destruct c.
Qed.

(** ** Paths below a base *)

Definition below (base p : string) : Prop :=
  HasPrefix p "/" = HasPrefix base "/" /\ components base `prefix_of` components p.

Lemma strip_common_spec a b : forall ra rb, strip_common a b = (ra, rb) -> exists c, a = c ++ ra /\ b = c ++ rb.
Proof.
  revert b. induction a as [|x a IH]; intros [|y b] ra rb; cbn; [intros [= <- <-]; by exists []..|].
  case_bool_decide; [|intros [= <- <-]; by exists []]. subst y. intros (c & -> & ->)%IH. by exists (x :: c).
Qed.

Lemma Rel_below base targ r : Rel base targ = Some r -> r <> ".." -> HasPrefix r "../" = false -> below base targ.
Proof.
  unfold Rel. rewrite !components_Clean. destruct (bool_decide (Clean targ = Clean base)) eqn:He; bool_to_prop.
  { intros _ _ _. split.
    - rewrite <- (Clean_rooted targ), He. apply Clean_rooted.
    - rewrite <- (components_Clean targ), He, components_Clean. done. }
  destruct (Bool.eqb _ _) eqn:Hr; cbn [negb]; [|done]. apply Bool.eqb_prop in Hr. rewrite !Clean_rooted in Hr.
  destruct (strip_common _ _) as [rb rt] eqn:Hs. apply strip_common_spec in Hs as (c & Hb & Ht).
  destruct rb as [|d rb].
  - intros _ _ _. split; [done|]. rewrite app_nil_r in Hb. rewrite Hb.
    destruct (bool_decide (Clean targ = ".")) eqn:Hd; [|rewrite Ht; by exists rt].
    destruct c as [|c0 c]; [by exists (components targ)|]. exfalso. cbn in Ht. injection Ht as <- _.
    pose proof (components_ok base) as Hok. rewrite Hb in Hok. by apply Forall_cons in Hok as [(_ & ? & _) _].
  - destruct (bool_decide (d = "..")); [done|]. intros Hr' Hne Hp. injection Hr' as <-.
    destruct (replicate (length rb) ".." ++ rt) as [|x l]; [done|].
    rewrite <- sapp_assoc in Hp. by rewrite (prefix_app "../") in Hp.
Qed.

Lemma Clean_Clean p : Clean (Clean p) = Clean p.
Proof. by rewrite (Clean_components (Clean p)), Clean_rooted, components_Clean, <- Clean_components. Qed.

(** Two clean paths with the same root and the same components are equal. *)
Lemma clean_determined p q : Clean p = p -> Clean q = q -> HasPrefix p "/" = HasPrefix q "/" -> components p = components q -> p = q.
Proof. intros <- <-. rewrite !Clean_rooted, !components_Clean. intros Hr Hc. by rewrite !Clean_components, Hr, Hc. Qed.

Lemma Join_app sep a b : a <> [] -> b <> [] -> Join sep (a ++ b) = Join sep a +:+ sep +:+ Join sep b.
Proof.
  induction a as [|x a IH]; [done|]. intros _ Hb. destruct a as [|y a].
  - cbn [app]. destruct b; [done|]. done.
  - change (Join sep ((x :: y :: a) ++ b)) with (x +:+ sep +:+ Join sep ((y :: a) ++ b)). rewrite IH by done.
    change (Join sep (x :: y :: a)) with (x +:+ sep +:+ Join sep (y :: a)). by rewrite !sapp_assoc.
Qed.

(** The text of a clean path with components. *)
Lemma Clean_text p : components p <> [] ->
  Clean p = (if HasPrefix p "/" then "/" else EmptyString) +:+ Join "/" (components p).
Proof.
  intros Hne. rewrite Clean_components. destruct (HasPrefix p "/"); [done|]. rewrite bool_decide_false; [done|].
  pose proof (components_ok p) as Hok. destruct (components p) as [|c l]; [done|].
  destruct (Join_cons "/" c l) as (r & -> & _). apply Forall_cons in Hok as [(? & _) _]. by destruct c.
Qed.

Lemma sapp_inj_l a s t : a +:+ s = a +:+ t -> s = t.
Proof. induction a as [|c a IH]; [by rewrite !sapp_nil_l|]. rewrite !sapp_cons. intros [= ?]. by apply IH. Qed.

(** Comparing the texts of clean paths compares their components. *)
Lemma text_prefix_below root p : Clean root = root -> Clean p = p -> components root <> [] ->
  HasPrefix p (root +:+ "/") = true <-> below root p /\ p <> root.
Proof.
  intros Hroot Hp Hne. rewrite prefix_spec. split.
  - intros [t Ht]. assert (HasPrefix p "/" = HasPrefix root "/") as Hr.
    { rewrite Ht. destruct root as [|c root]; [done|]. rewrite !sapp_cons. cbn. by destruct root. }
    split; [|rewrite Ht; intros He; apply (f_equal String.length) in He; rewrite !slength_app in He; cbn in He; lia].
    split; [done|]. exists (Split "/" t).
    assert (components p <> []) as Hpn.
    { intros Hc. assert (String.length p = 1%nat) as Hlen.
      { rewrite <- Hp, Clean_components, Hc. by destruct (HasPrefix p "/"). }
      rewrite Ht, !slength_app in Hlen. cbn in Hlen. destruct root as [|c root]; [done|]. cbn in Hlen. lia. }
    rewrite sapp_assoc, <- Hp, <- Hroot, !Clean_text, Hr in Ht by done. rewrite !sapp_assoc in Ht. apply sapp_inj_l in Ht.
    apply (f_equal (Split "/")) in Ht. change ("/" +:+ t) with (String "/" t) in Ht. rewrite Split_app in Ht.
    assert (forall q, components q <> [] -> Split "/" (Join "/" (components q)) = components q) as HS.
    { intros q Hq. apply (Split_Join "/"); [done|]. eapply Forall_impl; [apply components_ok|]. by intros c (_ & _ & ?). }
    by rewrite !HS in Ht.
  - intros [[Hr [l Hl]] Hneq]. assert (l <> []) as Hln.
    { intros ->. apply Hneq. rewrite app_nil_r in Hl. by apply clean_determined. }
    assert (components p <> []) as Hpn by (rewrite Hl; intros [? ?]%app_nil; done).
    pose proof (Clean_text p Hpn) as Htp. pose proof (Clean_text root Hne) as Htr.
    exists (Join "/" l). rewrite Hp, Hr, Hl, Join_app in Htp by done. rewrite Hroot in Htr. rewrite Htp.
    by rewrite <- !sapp_assoc, <- Htr.
Qed.

Lemma Join_up l : Join "/" (".." :: l) = ".." \/ HasPrefix (Join "/" (".." :: l)) "../" = true.
Proof.
  destruct (Join_cons "/" ".." l) as (r & -> & Hnil & Hr). destruct l as [|x l]; [left; by rewrite Hnil|right].
  destruct (Hr ltac:(done)) as [r' ->]. rewrite <- sapp_assoc. apply prefix_app.
Qed.

Lemma Join_first c l : Forall component_ok (c :: l) -> c <> ".." ->
  Join "/" (c :: l) <> "." /\ Join "/" (c :: l) <> ".." /\
  HasPrefix (Join "/" (c :: l)) "../" = false /\ HasPrefix (Join "/" (c :: l)) "/" = false.
Proof.
  intros Hok Hup.
  assert (Split "/" (Join "/" (c :: l)) = c :: l) as Hs.
  { apply (Split_Join "/"); [done|]. eapply Forall_impl; [exact Hok|]. by intros x (_ & _ & ?). }
  apply Forall_cons in Hok as [(Hne & Hdot & _) _]. set (j := Join "/" (c :: l)) in *.
  split_and!; [intros Hj; rewrite Hj in Hs; by injection Hs as <- _..| |]; apply not_true_iff_false; intros [t Hj]%prefix_spec; rewrite Hj in Hs.
  - change ("../" +:+ t) with (".." +:+ String "/" t) in Hs. rewrite Split_app in Hs. by injection Hs as <- _.
  - change ("/" +:+ t) with (EmptyString +:+ String "/" t) in Hs. rewrite Split_app in Hs. by injection Hs as <- _.
Qed.

Lemma strip_common_prefix a t : strip_common a (a ++ t) = ([], t).
Proof. induction a as [|x a IH]; cbn; [by destruct t|]. by rewrite bool_decide_true. Qed.

(** Exactly the paths strictly below the base, by their components, are its children. *)
Lemma IsChildPath_spec basePath childPath : IsChildPath basePath childPath = true <->
  HasPrefix childPath "/" = HasPrefix basePath "/" /\
  exists c l, components childPath = components basePath ++ c :: l /\ c <> "..".
Proof.
  unfold IsChildPath, Rel. rewrite !components_Clean, !Clean_rooted.
  destruct (bool_decide (Clean childPath = Clean basePath)) eqn:He; bool_to_prop.
  { split; [done|]. intros (_ & c & l & Hc & _). rewrite <- components_Clean, He, components_Clean in Hc.
    apply (f_equal length) in Hc. rewrite length_app in Hc. cbn in Hc. lia. }
  destruct (Bool.eqb _ _) eqn:Hr; cbn [negb]; [apply Bool.eqb_prop in Hr|split; [done|]; intros [Hq _]; by rewrite Hq, eqb_reflx in Hr].
  assert (Clean childPath = "." -> components childPath = []) as Hdot by (intros Hc; by rewrite <- components_Clean, Hc).
  destruct (strip_common _ _) as [rb rt] eqn:Hs. split.
  - intros Hrel. split; [done|]. apply strip_common_spec in Hs as (cc & Hb & Ht). destruct rb as [|d rb].
    + rewrite app_nil_r in Hb. subst cc. assert (components childPath <> components basePath) as Hneq.
      { intros Hc. apply He. by rewrite !Clean_components, Hc, Hr. }
      destruct (bool_decide (Clean childPath = ".")) eqn:Hd; bool_to_prop.
      * rewrite (Hdot Hd) in Hneq. destruct (components basePath) as [|x k] eqn:Hk; [done|]. injection Ht as <- _.
        pose proof (components_ok basePath) as Hok. rewrite Hk in Hok. by apply Forall_cons in Hok as [(_ & ? & _) _].
      * destruct rt as [|c l]; [by rewrite app_nil_r in Ht|]. exists c, l. split; [done|]. intros ->.
        destruct (Join_up l) as [Hj|Hj]; rewrite Hj in Hrel; [done|]. by destruct (_ || _).
    + destruct (bool_decide (d = "..")); [done|]. change (replicate (length (d :: rb)) ".." ++ rt) with (".." :: (replicate (length rb) ".." ++ rt)) in Hrel.
      destruct (Join_up (replicate (length rb) ".." ++ rt)) as [Hj|Hj]; rewrite Hj in Hrel; [done|]. by destruct (_ || _).
  - intros (_ & c & l & Hc & Hup). rewrite bool_decide_false in Hs.
    2:{ intros Hd. rewrite (Hdot Hd) in Hc. symmetry in Hc. by apply app_nil in Hc as [_ ?]. }
    rewrite Hc, strip_common_prefix in Hs. injection Hs as <- <-.
    assert (Forall component_ok (c :: l)) as Hok by (pose proof (components_ok childPath) as Hok; rewrite Hc in Hok; by apply Forall_app in Hok as [_ ?]).
    destruct (Join_first c l Hok Hup) as (H1 & H2 & -> & ->). by rewrite !bool_decide_false.
Qed.
