(* ===== verification/Migrations.v ===== *)
(** * Performix: migrations of tool paths

    Models [core/apap-engine/cdf/migrations.go] and [normalize.go] (rewriting a path of
    today's layout to the layout a run was recorded with) and the part of [LoadContent] in
    [core/apap-engine/render/session_lifecycle.go] that selects the migrations of a run. *)

From S2P Require Import Prelude.
From S2P Require Import GoStrings.
From S2P Require Import Semver.
From S2P Require Import FilePaths.
From Stdlib Require Import Ascii.

Local Open Scope Z_scope.

Inductive PathMigration :=
| ToolNameMigration (From To : string) (Ver : SemVer)
| ToolPathSuffixMigration (From : string) (Ver : SemVer) (OldSuffix NewSuffix : string)
| ToolInvocationMigration (From : string) (Ver : SemVer).

Definition Version (m : PathMigration) : SemVer :=
  match m with
  | ToolNameMigration _ _ v | ToolPathSuffixMigration _ v _ _ | ToolInvocationMigration _ v => v
  end.

(** ** Paths *)

Definition NormalizePath (path : string) : string :=
  let p1 := Clean path in
  let p2 := ForceToSlash p1 in
  let p3 := if HasPrefix p2 "/" then slice p2 1 (len p2) else p2 in
  if HasSuffix p3 "/" then slice p3 0 (len p3 - 1) else p3.

Example normalize_path : NormalizePath "/a/./b/../tool\x//" = "a/tool/x".
Proof. vm_compute. reflexivity. Qed.

Record PathParts := { Tool : string; Invocation : string; Suffix : string }.

Definition is_number (s : string) : bool := match Atoi s with Some _ => true | None => false end.

Definition parsePathParts (p : string) : option PathParts :=
  if negb (HasPrefix p "tool/") then None
  else
    match SplitN "/" 3 (slice p 5 (len p)) with
    | [name] => Some {| Tool := name; Invocation := EmptyString; Suffix := EmptyString |}
    | [name; x] => if is_number x then Some {| Tool := name; Invocation := x; Suffix := EmptyString |}
                   else Some {| Tool := name; Invocation := EmptyString; Suffix := x |}
    | [name; x; suffix] => if is_number x then Some {| Tool := name; Invocation := x; Suffix := suffix |} else None
    | _ => None
    end.

Definition parseMissingInvocationPathParts (p : string) : option PathParts :=
  if negb (HasPrefix p "tool/") then None
  else
    match SplitN "/" 2 (slice p 5 (len p)) with
    | [name; suffix] => Some {| Tool := name; Invocation := EmptyString; Suffix := suffix |}
    | name :: _ => Some {| Tool := name; Invocation := EmptyString; Suffix := EmptyString |}
    | [] => None
    end.

Definition opt_segment (s : string) : string := if bool_decide (s = EmptyString) then EmptyString else "/" +:+ s.

Definition buildPath (pp : PathParts) : string := "tool/" +:+ Tool pp +:+ opt_segment (Invocation pp) +:+ opt_segment (Suffix pp).

Definition parts_for (path : string) (mig : PathMigration) : option PathParts :=
  match parsePathParts path with
  | Some parts => Some parts
  | None => match mig with
            | ToolNameMigration _ _ _ | ToolPathSuffixMigration _ _ _ _ => parseMissingInvocationPathParts path
            | ToolInvocationMigration _ _ => None
            end
  end.

Definition rewriteViaMigration (path : string) (mig : PathMigration) : option string :=
  parts ← parts_for path mig;
  match mig with
  | ToolInvocationMigration from _ =>
      if negb (bool_decide (Tool parts = from)) || negb (bool_decide (Invocation parts = "0")) then None
      else Some (buildPath {| Tool := Tool parts; Invocation := EmptyString; Suffix := Suffix parts |})
  | ToolNameMigration from to _ =>
      if negb (bool_decide (Tool parts = to)) then None
      else Some (buildPath {| Tool := from; Invocation := Invocation parts; Suffix := Suffix parts |})
  | ToolPathSuffixMigration from _ old new =>
      if negb (bool_decide (Tool parts = from)) then None
      else if negb (HasPrefix (Suffix parts) new) then None
      else Some (buildPath {| Tool := Tool parts; Invocation := Invocation parts;
                              Suffix := old +:+ slice (Suffix parts) (len new) (len (Suffix parts)) |})
  end.

(** ** Applying the migrations of a run, newest first *)

Inductive migrate_error := DetectedCycle (current candidate : string).

Fixpoint migrate_loop (migs : list PathMigration) (current : string) (seen : gset string) : result migrate_error string :=
  match migs with
  | [] => Ok current
  | pm :: rest =>
      match rewriteViaMigration current pm with
      | None => migrate_loop rest current seen
      | Some cand =>
          if bool_decide (cand = current) then migrate_loop rest current seen
          else if bool_decide (cand ∈ seen) then Err (DetectedCycle current cand)
          else migrate_loop rest cand ({[cand]} ∪ seen)
      end
  end.

Fixpoint migrate_name_loop (migs : list PathMigration) (current : string) (seen : gset string) : result migrate_error string :=
  match migs with
  | [] => Ok current
  | ToolNameMigration from to _ :: rest =>
      if negb (bool_decide (current = to)) || bool_decide (current = from) then migrate_name_loop rest current seen
      else if bool_decide (from ∈ seen) then Err (DetectedCycle current from)
      else migrate_name_loop rest from ({[from]} ∪ seen)
  | _ :: rest => migrate_name_loop rest current seen
  end.

(** [Some] is the true flag with the rewritten name. *)
Definition changed (original : string) (r : result migrate_error string) : result migrate_error (option string) :=
  (fun current => if bool_decide (current = original) then None else Some current) <$> r.

Section Sorting.

(** [sort.Sort] with [byVersionDesc]: it orders the migrations newest first and does not
    promise the order of equal versions. *)
Context (sort_desc : list PathMigration -> list PathMigration).

Definition MigratePath (original : string) (ms : list PathMigration) : result migrate_error (option string) :=
  let norm := NormalizePath original in
  changed norm (migrate_loop (sort_desc ms) norm {[norm]}).

Definition MigrateToolName (toolName : string) (ms : list PathMigration) : result migrate_error (option string) :=
  changed toolName (migrate_name_loop (sort_desc ms) toolName {[toolName]}).

End Sorting.

(** ** Selecting the migrations of a run *)

(** The declared migration of a tool integration, before it is read. *)
Record Migration := { mig_Type : string; mig_From : string; mig_To : string; mig_Version : string;
                      mig_OldSuffix : string; mig_NewSuffix : string }.

Definition read_migration (m : Migration) : option PathMigration :=
  match ParseSemVer (mig_Version m) with
  | Err _ => None
  | Ok v =>
      if bool_decide (mig_Type m = "missingInvocation") then Some (ToolInvocationMigration (mig_From m) v)
      else if bool_decide (mig_Type m = "suffixRewrite") then
        Some (ToolPathSuffixMigration (mig_From m) v (mig_OldSuffix m) (mig_NewSuffix m))
      else if bool_decide (mig_Type m = "renameTool") then Some (ToolNameMigration (mig_From m) (mig_To m) v)
      else None
  end.

(** The loop over the sorted migrations for one recorded tool: the migrations picked, and
    the folder name after the renames. *)
Fixpoint select_loop (runVer : SemVer) (cur : string) (sorted : list PathMigration) : list PathMigration * string :=
  match sorted with
  | [] => ([], cur)
  | pm :: rest =>
      if 0 <=? Cmp runVer (Version pm) then select_loop runVer cur rest
      else
        match pm with
        | ToolNameMigration from to _ =>
            if bool_decide (from = cur) then let r := select_loop runVer to rest in (pm :: r.1, r.2)
            else select_loop runVer cur rest
        | ToolInvocationMigration from _ | ToolPathSuffixMigration from _ _ _ =>
            if bool_decide (from = cur) then let r := select_loop runVer cur rest in (pm :: r.1, r.2)
            else select_loop runVer cur rest
        end
  end.

Record ToolUsed := { tu_Tool : string; tu_Version : string; tu_Invocation : Z }.

Definition zero_version : SemVer := {| Major := 0; Minor := 0; Patch := 0 |}.

(** An unreadable version counts as 0.0.0. *)
Definition select_for_tool (sorted : list PathMigration) (tu : ToolUsed) : list PathMigration * string :=
  select_loop (match ParseSemVer (tu_Version tu) with Ok v => v | Err _ => zero_version end) (tu_Tool tu) sorted.

Definition run_migrations (sorted : list PathMigration) (toolsUsed : list ToolUsed) : list PathMigration :=
  toolsUsed ≫= (fun tu => (select_for_tool sorted tu).1).

(** [InjectLegacyToolOutputs] on the paths of the manifest. *)
Fixpoint inject_legacy (defaultVersion : string) (seen : gset string) (paths : list string) : list ToolUsed :=
  match paths with
  | [] => []
  | p :: rest =>
      match Split "/" p with
      | first :: name :: _ =>
          if negb (bool_decide (first = "tool")) || bool_decide (name ∈ seen) then inject_legacy defaultVersion seen rest
          else {| tu_Tool := name; tu_Version := defaultVersion; tu_Invocation := 0 |} ::
               inject_legacy defaultVersion ({[name]} ∪ seen) rest
      | _ => inject_legacy defaultVersion seen rest
      end
  end.

Definition InjectLegacyToolOutputs (toolsUsed : list ToolUsed) (paths : list string) (defaultVersion : string) : list ToolUsed :=
  toolsUsed ++ inject_legacy defaultVersion (list_to_set (tu_Tool <$> toolsUsed)) paths.

(** ** Paths and their parts *)

Lemma slice_after_prefix p r : slice (p +:+ r) (len p) (len (p +:+ r)) = r.
Proof. unfold slice, len. rewrite !Nat2Z.id, stake_length. apply sdrop_app. Qed.

Lemma Cut_byte_free_None c s : byte_free c s = true -> Cut c s = None.
Proof.
  induction s as [|d s IH]; [done|]. cbn. intros [Hd%negb_true_iff Hs]%andb_true_iff. by rewrite Hd, IH.
Qed.

Lemma Cut_app c a b : byte_free c a = true -> Cut c (a +:+ String c b) = Some (a, b).
Proof. intros Ha. by apply Cut_Some. Qed.

Definition segment (s : string) : Prop := s <> EmptyString /\ byte_free "/" s = true.

(** The layouts of today: with an invocation number, or without one and at most one more
    segment, which is not a number. *)
Definition modern (pp : PathParts) : Prop :=
  segment (Tool pp) /\
  ((segment (Invocation pp) /\ is_number (Invocation pp) = true) \/
   (Invocation pp = EmptyString /\ (Suffix pp = EmptyString \/ (segment (Suffix pp) /\ is_number (Suffix pp) = false)))).

Lemma build_prefix pp : HasPrefix (buildPath pp) "tool/" = true /\
  slice (buildPath pp) 5 (len (buildPath pp)) = Tool pp +:+ opt_segment (Invocation pp) +:+ opt_segment (Suffix pp).
Proof.
  unfold buildPath. split; [apply prefix_app|]. apply (slice_after_prefix "tool/").
Qed.

Lemma opt_segment_nonempty s : s <> EmptyString -> opt_segment s = String "/" s.
Proof. intros Hs. unfold opt_segment. rewrite bool_decide_false by done. by rewrite sapp_cons, sapp_nil_l. Qed.

Lemma parse_build pp : modern pp -> parsePathParts (buildPath pp) = Some pp.
Proof.
  intros [[_ Ht] H]. unfold parsePathParts. destruct (build_prefix pp) as [-> ->]. cbn [negb].
  destruct pp as [t i s]; cbn [Tool Invocation Suffix] in *. destruct H as [[[Hi Hif] Hn]|[-> H]].
  - rewrite (opt_segment_nonempty i) by done.
    destruct (decide (s = EmptyString)) as [->|Hs].
    + change (opt_segment EmptyString) with EmptyString. rewrite sapp_nil_r. cbn [SplitN].
      rewrite Cut_app, (Cut_byte_free_None _ i) by done. by rewrite Hn.
    + rewrite (opt_segment_nonempty s) by done. cbn [SplitN]. rewrite sapp_cons, Cut_app by done.
      rewrite Cut_app by done. by rewrite Hn.
  - change (opt_segment EmptyString) with EmptyString. rewrite sapp_nil_l.
    destruct H as [->|[[Hs Hsf] Hn]].
    + change (opt_segment EmptyString) with EmptyString. rewrite sapp_nil_r. cbn [SplitN]. by rewrite Cut_byte_free_None.
    + rewrite (opt_segment_nonempty s) by done. cbn [SplitN]. rewrite Cut_app, (Cut_byte_free_None _ s) by done. by rewrite Hn.
Qed.

(** Paths of today's layout survive being taken apart and rebuilt, and undoing a rename
    changes exactly the folder of the tool: the invocation and the rest of the path stay,
    and only paths of the renamed tool are touched. *)
Theorem rename_rewrites_tool pp from v : modern pp -> segment from ->
  parsePathParts (buildPath pp) = Some pp /\
  (forall to, to <> Tool pp -> rewriteViaMigration (buildPath pp) (ToolNameMigration from to v) = None) /\
  exists p, rewriteViaMigration (buildPath pp) (ToolNameMigration from (Tool pp) v) = Some p /\
    parsePathParts p = Some {| Tool := from; Invocation := Invocation pp; Suffix := Suffix pp |} /\
    rewriteViaMigration p (ToolNameMigration (Tool pp) from v) = Some (buildPath pp).
Proof.
  intros Hm Hf. pose proof (parse_build pp Hm) as Hp.
  assert (forall a b, rewriteViaMigration (buildPath pp) (ToolNameMigration a b v) =
            if negb (bool_decide (Tool pp = b)) then None
            else Some (buildPath {| Tool := a; Invocation := Invocation pp; Suffix := Suffix pp |})) as Hrw.
  { intros a b. unfold rewriteViaMigration, parts_for. by rewrite Hp. }
  split; [done|]. split.
  - intros to Hto. rewrite Hrw, bool_decide_false; [done|congruence].
  - rewrite Hrw, bool_decide_true by done. eexists. split; [done|].
    assert (modern {| Tool := from; Invocation := Invocation pp; Suffix := Suffix pp |}) as Hm'.
    { destruct Hm as [_ Hm]. by split. }
    pose proof (parse_build _ Hm') as Hp'. split; [done|]. unfold rewriteViaMigration, parts_for. rewrite Hp'. cbn.
    rewrite bool_decide_true by done. by destruct pp.
Qed.

Lemma rename_rewrites_tool_witness :
  let pp := {| Tool := "new"; Invocation := "0"; Suffix := "out/a.csv" |} in
  parsePathParts (buildPath pp) = Some pp /\
  (forall to, to <> "new" -> rewriteViaMigration "tool/new/0/out/a.csv" (ToolNameMigration "old" to zero_version) = None) /\
  exists p, rewriteViaMigration "tool/new/0/out/a.csv" (ToolNameMigration "old" "new" zero_version) = Some p /\
    parsePathParts p = Some {| Tool := "old"; Invocation := "0"; Suffix := "out/a.csv" |} /\
    rewriteViaMigration p (ToolNameMigration "new" "old" zero_version) = Some "tool/new/0/out/a.csv".
Proof.
  intros pp. apply (rename_rewrites_tool pp "old" zero_version); repeat split; try done. left. by repeat split.
Defined.

(** ** Chains of rewrites *)

(** The rewrites that the loop performs, as a path of intermediate results. *)
Inductive rewrites : list PathMigration -> string -> list string -> Prop :=
| rw_nil cur : rewrites [] cur []
| rw_skip m ms cur trail : rewriteViaMigration cur m = None \/ rewriteViaMigration cur m = Some cur ->
    rewrites ms cur trail -> rewrites (m :: ms) cur trail
| rw_step m ms cur next trail : rewriteViaMigration cur m = Some next -> next <> cur ->
    rewrites ms next trail -> rewrites (m :: ms) cur (next :: trail).

(** The last result of a chain that starts at [cur]. *)
Definition final (cur : string) (trail : list string) : string := default cur (last trail).

Lemma final_cons cur next trail : final cur (next :: trail) = final next trail.
Proof. unfold final. rewrite last_cons. by destruct (last trail). Qed.

Lemma migrate_loop_spec migs : forall cur seen, exists trail, rewrites migs cur trail /\
  match migrate_loop migs cur seen with
  | Ok r => NoDup trail /\ (forall x, x ∈ trail -> x ∉ seen) /\ r = final cur trail
  | Err (DetectedCycle _ cand) => cand ∈ trail /\ (cand ∈ seen \/ ~ NoDup trail)
  end.
Proof.
  induction migs as [|m migs IH]; intros cur seen; cbn [migrate_loop].
  { exists []. split; [constructor|]. split; [constructor|]. split; [set_solver|done]. }
  destruct (rewriteViaMigration cur m) as [cand|] eqn:Hr.
  2: { destruct (IH cur seen) as (trail & ? & ?). exists trail. split; [by apply rw_skip; [left|]|done]. }
  case_bool_decide as Hc.
  { subst cand. destruct (IH cur seen) as (trail & ? & ?). exists trail. split; [by apply rw_skip; [right|]|done]. }
  case_bool_decide as Hs.
  { destruct (IH cand ∅) as (trail & ? & _). exists (cand :: trail). split; [by eapply rw_step|]. split; [left|by left]. }
  destruct (IH cand ({[cand]} ∪ seen)) as (trail & Hw & Hres). exists (cand :: trail). split; [by eapply rw_step|].
  destruct (migrate_loop migs cand ({[cand]} ∪ seen)) as [r|[c1 c2]].
  - destruct Hres as (Hnd & Hfr & ->). split_and!.
    + apply NoDup_cons. split; [|done]. intros Hin%Hfr. set_solver.
    + intros x [->|Hx]%elem_of_cons; [done|]. specialize (Hfr x Hx). set_solver.
    + by rewrite final_cons.
  - destruct Hres as [Hin Hor]. split; [by right|]. destruct Hor as [Hor|Hor].
    + destruct (decide (c2 = cand)) as [->|]; [|left; set_solver]. right. rewrite NoDup_cons. tauto.
    + right. rewrite NoDup_cons. tauto.
Qed.

(** Migrating a path follows the chain of rewrites from the newest migration to the
    oldest. A result is the last path of a chain that changes the path at every step and
    never visits a path twice; no result means that no migration changes the path; and an
    error is reported exactly when the chain comes back to a path it has visited. *)
Theorem MigratePath_follows_chain sort_desc original ms :
  let norm := NormalizePath original in
  exists trail, rewrites (sort_desc ms) norm trail /\
    match MigratePath sort_desc original ms with
    | Ok (Some p) => trail <> [] /\ NoDup (norm :: trail) /\ p = final norm trail
    | Ok None => trail = []
    | Err _ => ~ NoDup (norm :: trail)
    end.
Proof.
  cbn zeta. set (norm := NormalizePath original). unfold MigratePath. fold norm.
  destruct (migrate_loop_spec (sort_desc ms) norm {[norm]}) as (trail & Hw & Hres). exists trail. split; [done|].
  destruct (migrate_loop _ _ _) as [r|[c1 c2]]; cbn.
  - destruct Hres as (Hnd & Hfr & ->).
    assert (NoDup (norm :: trail)) as Hnd' by (apply NoDup_cons; split; [intros Hin%Hfr; set_solver|done]).
    destruct trail as [|x trail]; [by rewrite bool_decide_true|].
    rewrite bool_decide_false; [done|]. intros Heq. apply NoDup_cons in Hnd' as [Hn _]. apply Hn.
    rewrite <- Heq. unfold final. destruct (last (x :: trail)) as [y|] eqn:Hl; [|by apply last_None in Hl].
    cbn. apply last_Some in Hl as [l ->]. apply elem_of_app. right. left.
  - destruct Hres as [Hin Hor]. rewrite NoDup_cons. intros [Hn Hnd]. destruct Hor as [Hor|Hor]; [|done].
    apply elem_of_singleton in Hor as ->. done.
Qed.

(** ** Selecting and undoing *)

(** The folder names that the selected migrations lead through. *)
Fixpoint names_through (cur : string) (migs : list PathMigration) : list string :=
  match migs with
  | [] => [cur]
  | ToolNameMigration _ to _ :: rest => cur :: names_through to rest
  | _ :: rest => names_through cur rest
  end.

Lemma names_through_head cur migs : exists l, names_through cur migs = cur :: l.
Proof.
  revert cur. induction migs as [|m migs IH]; intros cur; cbn; [by exists []|].
  destruct m as [? to ?|? ? ? ?|? ?]; [by eexists|apply IH|apply IH].
Qed.

Lemma select_final runVer sorted : forall cur migs fin, select_loop runVer cur sorted = (migs, fin) ->
  fin ∈ names_through cur migs.
Proof.
  induction sorted as [|pm sorted IH]; intros cur migs fin; cbn [select_loop]; [intros [= <- <-]; left|].
  destruct (0 <=? _); [apply IH|]. destruct pm as [from to v|from v old new|from v]; case_bool_decide; try apply IH.
  - destruct (select_loop runVer to sorted) as [ms f] eqn:Hr. intros [= <- <-]. cbn. right. by eapply IH.
  - destruct (select_loop runVer cur sorted) as [ms f] eqn:Hr. intros [= <- <-]. cbn. by eapply IH.
  - destruct (select_loop runVer cur sorted) as [ms f] eqn:Hr. intros [= <- <-]. cbn. by eapply IH.
Qed.

(** Walking back over the selected migrations leads from the last name to the first. *)
Lemma undo_selection runVer sorted : forall cur migs fin rest seen, select_loop runVer cur sorted = (migs, fin) ->
  NoDup (names_through cur migs) -> fin ∈ seen -> (forall x, x ∈ names_through cur migs -> x <> fin -> x ∉ seen) ->
  migrate_name_loop (reverse migs ++ rest) fin seen =
  migrate_name_loop rest cur (list_to_set (names_through cur migs) ∪ seen).
Proof.
  assert (forall (x : string) (X : gset string), x ∈ X -> {[x]} ∪ ∅ ∪ X = X) as Hone by set_solver.
  induction sorted as [|pm sorted IH]; intros cur migs fin rest seen; cbn [select_loop].
  { intros [= <- <-] _ Hin _. cbn. by rewrite Hone. }
  destruct (0 <=? _); [apply IH|]. destruct pm as [from to v|from v old new|from v]; case_bool_decide; try apply IH.
  - destruct (select_loop runVer to sorted) as [ms f] eqn:Hr. intros [= <- <-] Hnd Hin Hfr. subst from.
    cbn [names_through] in *. apply NoDup_cons in Hnd as [Hcur Hnd].
    rewrite reverse_cons, <- app_assoc. cbn [app].
    assert (f ∈ names_through to ms) as Hf by by eapply select_final.
    erewrite (IH to ms f); [|done|done|done|intros x Hx; apply Hfr; by right].
    cbn [migrate_name_loop]. rewrite bool_decide_true by done.
    assert (to ∈ names_through to ms) as Hto by (destruct (names_through_head to ms) as [l ->]; left).
    rewrite (bool_decide_false (to = cur)) by (intros ->; done). cbn [negb orb].
    rewrite bool_decide_false.
    + f_equal. cbn [list_to_set]. set_solver.
    + rewrite elem_of_union, elem_of_list_to_set. intros [?|?]; [done|].
      apply (Hfr cur); [left|intros ->; done|done].
  - destruct (select_loop runVer cur sorted) as [ms f] eqn:Hr. intros [= <- <-] Hnd Hin Hfr. cbn [names_through] in *.
    rewrite reverse_cons, <- app_assoc. cbn [app]. by erewrite (IH cur ms f).
  - destruct (select_loop runVer cur sorted) as [ms f] eqn:Hr. intros [= <- <-] Hnd Hin Hfr. cbn [names_through] in *.
    rewrite reverse_cons, <- app_assoc. cbn [app]. by erewrite (IH cur ms f).
Qed.

Definition older (a b : PathMigration) : Prop := Cmp (Version a) (Version b) < 0.
Definition not_older (a b : PathMigration) : Prop := 0 <= Cmp (Version a) (Version b).

Lemma select_sublist runVer sorted : forall cur, (select_loop runVer cur sorted).1 `sublist_of` sorted.
Proof.
  induction sorted as [|pm sorted IH]; intros cur; cbn [select_loop]; [constructor|].
  destruct (0 <=? _); [by apply sublist_cons|].
  destruct pm; case_bool_decide; try (by apply sublist_cons); cbn; by apply sublist_skip.
Qed.

(** A sort that is newest first can only reverse a list that is strictly oldest first. *)
Lemma sort_desc_reverses sort_desc migs :
  (forall ms, sort_desc ms ≡ₚ ms /\ StronglySorted not_older (sort_desc ms)) ->
  StronglySorted older migs -> sort_desc migs = reverse migs.
Proof.
  intros Hsort Hm. destruct (Hsort migs) as [Hp Hs].
  assert (StronglySorted not_older (reverse migs)) as Hr.
  { apply (StronglySorted_reverse older); [|done]. intros x y. unfold older, not_older.
    rewrite (Cmp_antisym (Version x)). lia. }
  apply (StronglySorted_unique_strong not_older); [|done|done|by rewrite Hp, reverse_Permutation].
  intros x y Hx Hy Hxy Hyx. rewrite Hp in Hx. rewrite !elem_of_reverse in Hy.
  destruct (StronglySorted_connected older migs x y Hm Hx Hy) as [?|[Ho|Ho]]; [done|..];
    unfold older, not_older in *; lia.
Qed.

(** The migrations selected for a recorded tool undo exactly the renames since: when
    their versions differ and no folder name comes back, migrating the final name of the
    tool over them gives the name it was recorded with. *)
Theorem selection_is_undone sort_desc sorted runVer tool migs fin :
  (forall ms, sort_desc ms ≡ₚ ms /\ StronglySorted not_older (sort_desc ms)) ->
  StronglySorted older sorted -> select_loop runVer tool sorted = (migs, fin) ->
  NoDup (names_through tool migs) ->
  MigrateToolName sort_desc fin migs = Ok (if bool_decide (tool = fin) then None else Some tool).
Proof.
  intros Hsort Hold Hsel Hnd. pose proof (select_sublist runVer sorted tool) as Hsub. rewrite Hsel in Hsub. cbn in Hsub.
  assert (StronglySorted older migs) as Hm by by eapply StronglySorted_sublist.
  unfold MigrateToolName. rewrite (sort_desc_reverses sort_desc migs Hsort Hm). rewrite <- (app_nil_r (reverse migs)).
  rewrite (undo_selection runVer sorted tool migs fin [] {[fin]} Hsel Hnd); [|set_solver|set_solver].
  cbn. done.
Qed.

#[global] Instance not_older_dec : RelDecision not_older.
Proof. intros a b. unfold not_older. apply _. Defined.

#[global] Instance not_older_trans : Transitive not_older.
Proof.
  intros a b c. unfold not_older. rewrite (Cmp_antisym (Version b) (Version a)), (Cmp_antisym (Version c) (Version b)),
    (Cmp_antisym (Version c) (Version a)). pose proof (Cmp_le_trans (Version c) (Version b) (Version a)). lia.
Qed.

#[global] Instance not_older_total : Total not_older.
Proof. intros a b. unfold not_older. rewrite (Cmp_antisym (Version a) (Version b)). lia. Qed.

Lemma selection_is_undone_witness :
  let v1 := {| Major := 1; Minor := 0; Patch := 0 |} in
  let v2 := {| Major := 2; Minor := 0; Patch := 0 |} in
  let v3 := {| Major := 3; Minor := 0; Patch := 0 |} in
  let migs := [ToolNameMigration "a" "b" v2; ToolNameMigration "b" "c" v3] in
  MigrateToolName (merge_sort not_older) "c" migs = Ok (Some "a").
Proof.
  intros v1 v2 v3 migs.
  apply (selection_is_undone (merge_sort not_older) migs v1 "a" migs "c").
  - intros ms. split; [apply merge_sort_Permutation|apply StronglySorted_merge_sort; apply _].
  - repeat constructor.
  - reflexivity.
  - apply (bool_decide_unpack _). vm_compute. done.
Defined.
