(* ===== verification/Model.v ===== *)
(** * Performix: the components of a run

    Models [core/apap-engine/cdf/model.go] (looking up the components of a recorded run by its
    manifest and its migrations), the manifest of [core/apap-engine/cdf/manifest.go], and
    [core/apap-engine/cdf/overlay_model.go] (a render laid over a run). Both kinds of model
    are instances of the class [ModelView]. *)

From S2P Require Import Prelude.
From S2P Require Import GoStrings.
From S2P Require Import Semver.
From S2P Require Import FilePaths.
From S2P Require Import Migrations.
From Stdlib Require Import Ascii.

Local Open Scope Z_scope.

Record ComponentType := { type_Name : string; SchemaVersion : string }.

#[export] Instance ComponentType_eq_dec : EqDecision ComponentType.
Proof. solve_decision. Defined.

Record Component := { c_Type : ComponentType; RelativePath : string; AbsolutePath : string }.
Record Entity := { entity_path : string }.

Record ManifestEntry := { me_Path : string; me_ComponentType : ComponentType; me_Pending : bool }.

Definition unknownComponentType : ComponentType := {| type_Name := "unknown"; SchemaVersion := EmptyString |}.

(** The errors, with [Wrapped] for [%w]; a text stands for the errors of other packages, and
    [not_exist] says whether the file system's error is a missing file. *)
Inductive cdf_error :=
| ErrComponentNotFound (path : string)
| ErrComponentPending
| PathEscapes (path : string)
| NotRelative (path : string)
| MigrationFailed (e : migrate_error)
| PatternError (text : string)
| WrongType (got : ComponentType)
| BadSchemaVersion (e : semver_error)
| VersionNotInRange (v : SemVer)
| FileSystemError (not_exist : bool) (text : string)
| NilViews
| Wrapped (text : string) (cause : cdf_error).

(** [errors.Is] with [ErrComponentNotFound] and with [fs.ErrNotExist]. *)
Fixpoint is_component_not_found (e : cdf_error) : bool :=
  match e with ErrComponentNotFound _ => true | Wrapped _ c => is_component_not_found c | _ => false end.

Fixpoint isNotExist (e : cdf_error) : bool :=
  match e with FileSystemError b _ => b | Wrapped _ c => isNotExist c | _ => false end.

Definition not_exist_result {A} (r : result cdf_error A) : bool :=
  match r with Ok _ => false | Err e => isNotExist e end.

(** The interface of models. [Metadata] is left out; [view_Migrations] is [None] for a nil
    slice. *)
Class ModelView (V : Type) := {
  ResolveComponent : V -> string -> result cdf_error Component;
  ResolveComponentExpectType : V -> string -> ComponentType -> result cdf_error Component;
  ResolveComponentExpectTypes : V -> string -> list ComponentType -> result cdf_error Component;
  ResolveComponentByManifestPattern : V -> string -> result cdf_error Component;
  ResolveComponentExpectTypeV : V -> string -> string -> VersionRange -> result cdf_error (Component * SemVer);
  ResolveComponentByPatternExpectTypeV : V -> string -> string -> VersionRange -> result cdf_error (Component * SemVer);
  FindEntities : V -> string -> result cdf_error (list Entity);
  FindComponents : V -> string -> result cdf_error (list Component);
  ListEntityComponents : V -> Entity -> result cdf_error (list Component);
  view_Migrations : V -> option (list PathMigration);
  BasePath : V -> string
}.

Section Filtered.
Context {V : Type} `{ModelView V}.

Definition ListEntityComponentsMatching (m : V) (entity : Entity) (pred : Component -> bool) : result cdf_error (list Component) :=
  List.filter pred <$> ListEntityComponents m entity.

Definition ListEntityComponentsByTypeName (m : V) (entity : Entity) (name : string) : result cdf_error (list Component) :=
  ListEntityComponentsMatching m entity (fun c => bool_decide (type_Name (c_Type c) = name)).

End Filtered.

(** ** The model of a run on disk *)

Inductive stat_result := StatFile | StatDir | StatError (not_exist : bool) (text : string).

(** The file system and [doublestar.Match], of a pattern and a path. A walk is given by the
    files and directories it visits, in order, and by the error that ends it, if any. *)
Record environment := {
  Match : string -> string -> result string bool;
  Stat : string -> stat_result;
  ReadDir : string -> result (bool * string) (list (string * bool));
  Walk : string -> list (string * bool) * option (bool * string);
  sort_desc : list PathMigration -> list PathMigration;
  sort_by_path : list Component -> list Component
}.

Record OnDiskModel := {
  basePath : string;
  Entries : list ManifestEntry;
  ToolsUsed : list ToolUsed;
  migrations : list PathMigration;
  env : environment
}.

Definition Lookup (m : OnDiskModel) (path : string) : option ManifestEntry :=
  List.find (fun e => bool_decide (me_Path e = NormalizePath path)) (Entries m).

Definition AddEntry (m : OnDiskModel) (e : ManifestEntry) : OnDiskModel :=
  {| basePath := basePath m; Entries := Entries m ++ [e]; ToolsUsed := ToolsUsed m; migrations := migrations m; env := env m |}.

Definition AddToolOutput (m : OnDiskModel) (tu : ToolUsed) : OnDiskModel :=
  {| basePath := basePath m; Entries := Entries m; ToolsUsed := ToolsUsed m ++ [tu]; migrations := migrations m; env := env m |}.

Definition AddPathMigrations (m : OnDiskModel) (ms : list PathMigration) : OnDiskModel :=
  {| basePath := basePath m; Entries := Entries m; ToolsUsed := ToolsUsed m; migrations := migrations m ++ ms; env := env m |}.

Definition resolveModelPath (m : OnDiskModel) (path : string) : result cdf_error string :=
  let base := Clean (basePath m) in
  let resolvedPath := JoinPath [base; path] in
  match Rel base resolvedPath with
  | None => Err (NotRelative path)
  | Some rel => if bool_decide (rel = "..") || HasPrefix rel "../" || HasPrefix rel "/" then Err (PathEscapes path)
                else Ok resolvedPath
  end.

Definition migratePath (m : OnDiskModel) (original : string) : result migrate_error (option string) :=
  MigratePath (sort_desc (env m)) original (migrations m).

(** From the label [FOUND] on. *)
Definition resolve_found (m : OnDiskModel) (entry : ManifestEntry) : result cdf_error Component :=
  if me_Pending entry then Err ErrComponentPending
  else if existsb (fun e => match Match (env m) (me_Path entry) (me_Path e) with Ok true => me_Pending e | _ => false end) (Entries m)
  then Err ErrComponentPending
  else
    absolute ← resolveModelPath m (me_Path entry);
    Ok {| c_Type := me_ComponentType entry; RelativePath := me_Path entry; AbsolutePath := absolute |}.

(** The component is in no manifest entry. *)
Definition resolve_on_disk (m : OnDiskModel) (normalized : string) : result cdf_error Component :=
  absolute ← resolveModelPath m normalized;
  match Stat (env m) absolute with
  | StatFile => Ok {| c_Type := unknownComponentType; RelativePath := normalized; AbsolutePath := absolute |}
  | _ => Err (ErrComponentNotFound normalized)
  end.

Definition disk_ResolveComponent (m : OnDiskModel) (componentPath : string) : result cdf_error Component :=
  let normalized := NormalizePath componentPath in
  match Lookup m normalized with
  | Some entry => resolve_found m entry
  | None =>
      match migratePath m normalized with
      | Err e => Err (Wrapped "failed to migrate path" (MigrationFailed e))
      | Ok None => resolve_on_disk m normalized
      | Ok (Some rewrote) =>
          match Lookup m rewrote with
          | Some entry => resolve_found m entry
          | None => resolve_on_disk m rewrote
          end
      end
  end.

Definition expect_types (m : OnDiskModel) (componentPath : string) (expected : list ComponentType) : result cdf_error Component :=
  component ← disk_ResolveComponent m componentPath;
  if bool_decide (c_Type component ∈ expected) then Ok component else Err (WrongType (c_Type component)).

(** The loop over the manifest: the first entry whose pattern matches [want]; [None] when
    there is none. *)
Fixpoint match_entries (m : OnDiskModel) (want : string) (entries : list ManifestEntry) : result cdf_error (option Component) :=
  match entries with
  | [] => Ok None
  | e :: rest =>
      match Match (env m) (me_Path e) want with
      | Err t => Err (Wrapped "pattern match error" (PatternError t))
      | Ok false => match_entries m want rest
      | Ok true =>
          if me_Pending e then Err ErrComponentPending
          else
            abs ← resolveModelPath m want;
            Ok (Some {| c_Type := me_ComponentType e; RelativePath := me_Path e; AbsolutePath := abs |})
      end
  end.

Definition disk_ByManifestPattern (m : OnDiskModel) (componentPath : string) : result cdf_error Component :=
  let want := NormalizePath componentPath in
  direct ← match_entries m want (Entries m);
  match direct with
  | Some c => Ok c
  | None =>
      match migratePath m want with
      | Err e => Err (Wrapped "failed to migrate path" (MigrationFailed e))
      | Ok None => Err (ErrComponentNotFound componentPath)
      | Ok (Some rewrote) =>
          migrated ← match_entries m rewrote (Entries m);
          or_err (ErrComponentNotFound componentPath) migrated
      end
  end.

(** The check of a component's schema version. *)
Definition in_version_range (c : Component) (vr : VersionRange) : result cdf_error (Component * SemVer) :=
  match ParseSemVer (SchemaVersion (c_Type c)) with
  | Err e => Err (BadSchemaVersion e)
  | Ok sv => if InRange sv vr then Ok (c, sv) else Err (VersionNotInRange sv)
  end.

Definition disk_ExpectTypeV (m : OnDiskModel) (componentPath typeName : string) (vr : VersionRange)
    : result cdf_error (Component * SemVer) :=
  c ← disk_ResolveComponent m componentPath;
  if negb (bool_decide (type_Name (c_Type c) = typeName)) then Err (WrongType (c_Type c))
  else in_version_range c vr.

(** The loop of [findManifestPatternComponentByType]; [firstMatch] is the type of the first
    match of another type. *)
Fixpoint find_by_type (m : OnDiskModel) (matchPath expected : string) (firstMatch : option ComponentType)
    (entries : list ManifestEntry) : result cdf_error (option Component) :=
  match entries with
  | [] => match firstMatch with Some t => Err (WrongType t) | None => Ok None end
  | e :: rest =>
      match Match (env m) (me_Path e) matchPath with
      | Err t => Err (Wrapped "pattern match error" (PatternError t))
      | Ok false => find_by_type m matchPath expected firstMatch rest
      | Ok true =>
          if bool_decide (type_Name (me_ComponentType e) = expected) then
            if me_Pending e then Err ErrComponentPending
            else
              abs ← resolveModelPath m matchPath;
              Ok (Some {| c_Type := me_ComponentType e; RelativePath := me_Path e; AbsolutePath := abs |})
          else find_by_type m matchPath expected
                 (match firstMatch with None => Some (me_ComponentType e) | _ => firstMatch end) rest
      end
  end.

Definition resolveComponentByManifestPatternAndType (m : OnDiskModel) (componentPath expected : string) : result cdf_error Component :=
  direct ← find_by_type m componentPath expected None (Entries m);
  match direct with
  | Some c => Ok c
  | None =>
      match migratePath m componentPath with
      | Err e => Err (Wrapped "failed to migrate path" (MigrationFailed e))
      | Ok None => Err (ErrComponentNotFound componentPath)
      | Ok (Some migratedPath) =>
          migrated ← find_by_type m migratedPath expected None (Entries m);
          or_err (ErrComponentNotFound componentPath) migrated
      end
  end.

Definition disk_ByPatternExpectTypeV (m : OnDiskModel) (componentPath expected : string) (vr : VersionRange)
    : result cdf_error (Component * SemVer) :=
  c ← resolveComponentByManifestPatternAndType m (NormalizePath componentPath) expected;
  in_version_range c vr.

(** ** Finding and listing *)

Definition wrap {A} (text : string) (r : result cdf_error A) : result cdf_error A :=
  match r with Ok a => Ok a | Err e => Err (Wrapped text e) end.

Definition normalizeGlob (glob : string) : string := TrimPrefix (ForceToSlash glob) "/".

(** [strings.ContainsAny(path, "*?[{")] *)
Definition hasGlobMeta (path : string) : bool :=
  negb (sall (fun c => negb (bool_decide (c ∈ ["*"; "?"; "["; "{"]%char))) path).

Fixpoint literal_segments (segments : list string) : list string :=
  match segments with
  | [] => []
  | segment :: rest => if hasGlobMeta segment then [] else segment :: literal_segments rest
  end.

Definition literalGlobPrefix (glob : string) : string := Join "/" (literal_segments (Split "/" glob)).

(** [afero.Walk] with a function that collects values: it ends at the first error. *)
Fixpoint walk_files {A} (walkFunc : string * bool -> result cdf_error (list A)) (items : list (string * bool))
    (stop : option (bool * string)) : result cdf_error (list A) :=
  match items with
  | [] => match stop with None => Ok [] | Some (missing, text) => Err (FileSystemError missing text) end
  | item :: rest =>
      matches ← walkFunc item;
      more ← walk_files walkFunc rest stop;
      Ok (matches ++ more)
  end.

(** The path of a visited file in the model. *)
Definition subpath (m : OnDiskModel) (path : string) : string :=
  ForceToSlash (slice path (Z.min (len path) (len (basePath m) + 1)) (len path)).

Definition glob_match (m : OnDiskModel) (glob path : string) : result cdf_error bool :=
  match Match (env m) glob path with
  | Ok b => Ok b
  | Err t => Err (Wrapped "failure during pattern match" (PatternError t))
  end.

Definition entity_at (m : OnDiskModel) (glob : string) (item : string * bool) : result cdf_error (list Entity) :=
  let '(path, dir) := item in
  if negb dir then Ok []
  else
    isMatch ← glob_match m glob (subpath m path);
    Ok (if isMatch : bool then [{| entity_path := subpath m path |}] else []).

Definition disk_FindEntities (m : OnDiskModel) (glob : string) : result cdf_error (list Entity) :=
  let (items, stop) := Walk (env m) (basePath m) in
  wrap "failed to list entities" (walk_files (entity_at m (normalizeGlob glob)) items stop).

Definition component_at (m : OnDiskModel) (glob : string) (item : string * bool) : result cdf_error (list Component) :=
  let '(path, dir) := item in
  if dir : bool then Ok []
  else
    isMatch ← glob_match m glob (subpath m path);
    if negb isMatch then Ok []
    else
      component ← wrap "failed to resolve component" (disk_ResolveComponent m (subpath m path));
      Ok [component].

Definition disk_FindComponents (m : OnDiskModel) (glob : string) : result cdf_error (list Component) :=
  let glob := normalizeGlob glob in
  _ ← glob_match m glob glob;
  if negb (hasGlobMeta glob) then
    match disk_ResolveComponent m glob with
    | Ok component => Ok [component]
    | Err e => if is_component_not_found e then Ok [] else Err (Wrapped "failed to resolve component" e)
    end
  else
    searchRoot ← wrap "failed to list components" (resolveModelPath m (literalGlobPrefix glob));
    match Stat (env m) searchRoot with
    | StatError missing text => if missing then Ok [] else Err (Wrapped "failed to list components" (FileSystemError missing text))
    | StatFile => Ok []
    | StatDir =>
        let (items, stop) := Walk (env m) searchRoot in
        matches ← wrap "failed to list components" (walk_files (component_at m glob) items stop);
        Ok (sort_by_path (env m) matches)
    end.

(** The loop of [ListEntityComponents] over the entries of the directory. *)
Fixpoint list_components (m : OnDiskModel) (entity : string) (entries : list (string * bool)) : result cdf_error (list Component) :=
  match entries with
  | [] => Ok []
  | (name, dir) :: rest =>
      if dir : bool then list_components m entity rest
      else
        component ← wrap "failed to list components in entity" (disk_ResolveComponent m (JoinPath [entity; name]));
        more ← list_components m entity rest;
        Ok (component :: more)
  end.

Definition disk_ListEntityComponents (m : OnDiskModel) (entity : Entity) : result cdf_error (list Component) :=
  match ReadDir (env m) (JoinPath [basePath m; entity_path entity]) with
  | Err (missing, text) => Err (Wrapped "failed to list components in entity" (FileSystemError missing text))
  | Ok entries => list_components m (entity_path entity) entries
  end.

#[export] Instance OnDiskModel_view : ModelView OnDiskModel := {
  ResolveComponent := disk_ResolveComponent;
  ResolveComponentExpectType m p t := expect_types m p [t];
  ResolveComponentExpectTypes := expect_types;
  ResolveComponentByManifestPattern := disk_ByManifestPattern;
  ResolveComponentExpectTypeV := disk_ExpectTypeV;
  ResolveComponentByPatternExpectTypeV := disk_ByPatternExpectTypeV;
  FindEntities := disk_FindEntities;
  FindComponents := disk_FindComponents;
  ListEntityComponents := disk_ListEntityComponents;
  view_Migrations m := match migrations m with [] => None | ms => Some ms end;
  BasePath := basePath
}.

(** ** A render laid over a run *)

Record OverlayModel (B O : Type) := { base : B; overlay : O }.
Arguments base {B O}.
Arguments overlay {B O}.

Definition NewOverlayModel {B O} (b : option B) (o : option O) : result cdf_error (OverlayModel B O) :=
  match b, o with
  | Some b, Some o => Ok {| base := b; overlay := o |}
  | _, _ => Err NilViews
  end.

Definition mergeByRelativePath {T} (key : T -> string) (overlayItems baseItems : list T) : list T :=
  overlayItems ++ filter (fun item => key item ∉ key <$> overlayItems) baseItems.

Definition overlayRootIsNested (baseRoot overlayRoot : string) : bool :=
  if bool_decide (baseRoot = EmptyString) || bool_decide (overlayRoot = EmptyString) then false
  else if bool_decide (overlayRoot = baseRoot) then false
  else HasPrefix overlayRoot (baseRoot +:+ "/").

(** A path equals the root or starts with the root and a separator. *)
Definition at_or_under (root p : string) : bool := bool_decide (p = root) || HasPrefix p (root +:+ "/").

Definition filterOutsideOverlayRoot {T} (baseRoot overlayRoot : string) (relPath : T -> string) (items : list T) : list T :=
  if negb (overlayRootIsNested (Clean baseRoot) (Clean overlayRoot)) then items
  else filter (fun item => at_or_under overlayRoot (Clean (JoinPath [baseRoot; relPath item])) = false) items.

Section Overlay.
Context {B O : Type} `{ModelView B} `{ModelView O}.
Implicit Types m : OverlayModel B O.

(** Only a component that the overlay does not have is looked up in the base. *)
Definition fall_back {A} (over : result cdf_error A) (from_base : result cdf_error A) : result cdf_error A :=
  match over with
  | Ok a => Ok a
  | Err e => if is_component_not_found e then from_base else Err e
  end.

(** The error that ends a listing; a missing directory counts as an empty one. *)
Definition fatal {A} (r : result cdf_error A) : option cdf_error :=
  match r with Err e => if isNotExist e then None else Some e | Ok _ => None end.

Definition items_of {T} (r : result cdf_error (list T)) : list T := default [] (ok_value r).

(** The listings of both are merged. *)
Definition overlay_list {T} (m : OverlayModel B O) (key : T -> string) (over from_base : result cdf_error (list T)) : result cdf_error (list T) :=
  match fatal over, fatal from_base with
  | Some e, _ => Err e
  | None, Some e => Err e
  | None, None =>
      if not_exist_result over && not_exist_result from_base then Err (FileSystemError true "file does not exist")
      else Ok (mergeByRelativePath key (items_of over)
                 (filterOutsideOverlayRoot (BasePath (base m)) (BasePath (overlay m)) key (items_of from_base)))
  end.

#[export] Instance OverlayModel_view : ModelView (OverlayModel B O) := {
  ResolveComponent m p := fall_back (ResolveComponent (overlay m) p) (ResolveComponent (base m) p);
  ResolveComponentExpectType m p t := fall_back (ResolveComponentExpectType (overlay m) p t) (ResolveComponentExpectType (base m) p t);
  ResolveComponentExpectTypes m p ts := fall_back (ResolveComponentExpectTypes (overlay m) p ts) (ResolveComponentExpectTypes (base m) p ts);
  ResolveComponentByManifestPattern m p :=
    fall_back (ResolveComponentByManifestPattern (overlay m) p) (ResolveComponentByManifestPattern (base m) p);
  ResolveComponentExpectTypeV m p t vr :=
    fall_back (ResolveComponentExpectTypeV (overlay m) p t vr) (ResolveComponentExpectTypeV (base m) p t vr);
  ResolveComponentByPatternExpectTypeV m p t vr :=
    fall_back (ResolveComponentByPatternExpectTypeV (overlay m) p t vr) (ResolveComponentByPatternExpectTypeV (base m) p t vr);
  FindEntities m glob := overlay_list m entity_path (FindEntities (overlay m) glob) (FindEntities (base m) glob);
  FindComponents m glob := overlay_list m RelativePath (FindComponents (overlay m) glob) (FindComponents (base m) glob);
  ListEntityComponents m entity :=
    overlay_list m RelativePath (ListEntityComponents (overlay m) entity) (ListEntityComponents (base m) entity);
  view_Migrations m := match view_Migrations (overlay m) with Some ms => Some ms | None => view_Migrations (base m) end;
  BasePath m := BasePath (overlay m)
}.

End Overlay.

(** A run with a table, a trace that is still transferred and a file outside the manifest, and
    a render laid over it. The sample matcher only knows [*] as a whole pattern after a
    directory. *)
Definition sample_match (glob path : string) : result string bool :=
  Ok (bool_decide (glob = path) || HasSuffix glob "/*" && HasPrefix path (slice glob 0 (len glob - 1))).

Definition sample_env (files : list (string * bool)) : environment :=
  {| Match := sample_match;
     Stat p := match List.find (fun f => bool_decide (f.1 = p)) files with
               | Some (_, true) => StatDir | Some (_, false) => StatFile | None => StatError true "no such file" end;
     ReadDir p := Err (true, "no such directory");
     Walk root := (List.filter (fun f => HasPrefix f.1 root) files, None);
     sort_desc := id; sort_by_path := id |}.

Definition sample_run : OnDiskModel :=
  {| basePath := "/runs/1";
     Entries := [{| me_Path := "data/*"; me_ComponentType := {| type_Name := "table"; SchemaVersion := "1.2.0" |}; me_Pending := false |};
                 {| me_Path := "trace"; me_ComponentType := {| type_Name := "trace"; SchemaVersion := "1.0.0" |}; me_Pending := true |}];
     ToolsUsed := []; migrations := [];
     env := sample_env [("/runs/1", true); ("/runs/1/extra/notes", false); ("/runs/1/extra/more", false); ("/runs/1/extra", true);
                        ("/runs/1/render/2/extra/notes", false); ("/runs/1/render/2/extra", true)] |}.

Definition sample_render : OnDiskModel :=
  {| basePath := "/runs/1/render/2"; Entries := []; ToolsUsed := []; migrations := []; env := env sample_run |}.

Example resolve_sample : (disk_ResolveComponent sample_run "extra/notes", disk_ResolveComponent sample_run "trace",
    disk_ResolveComponent sample_run "../secret", disk_ResolveComponent sample_run "absent") =
  (Ok {| c_Type := unknownComponentType; RelativePath := "extra/notes"; AbsolutePath := "/runs/1/extra/notes" |},
   Err ErrComponentPending, Err (PathEscapes "../secret"), Err (ErrComponentNotFound "absent")).
Proof. vm_compute. reflexivity. Qed.

Example find_sample : disk_FindComponents sample_run "/extra/*" =
  Ok [{| c_Type := unknownComponentType; RelativePath := "extra/notes"; AbsolutePath := "/runs/1/extra/notes" |};
      {| c_Type := unknownComponentType; RelativePath := "extra/more"; AbsolutePath := "/runs/1/extra/more" |}].
Proof. vm_compute. reflexivity. Qed.

Example pattern_sample : disk_ByPatternExpectTypeV sample_run "data/a.csv" "table"
    {| Min := Some {| Major := 1; Minor := 0; Patch := 0 |}; Max := None; InclusiveMax := false |} =
  Ok ({| c_Type := {| type_Name := "table"; SchemaVersion := "1.2.0" |}; RelativePath := "data/*"; AbsolutePath := "/runs/1/data/a.csv" |},
      {| Major := 1; Minor := 2; Patch := 0 |}).
Proof. vm_compute. reflexivity. Qed.

(** ** What every model promises *)

Section Contract.
Context {V : Type} `{ModelView V}.

Definition inside (roots : list string) (c : Component) : Prop := exists root, root ∈ roots /\ below root (AbsolutePath c).

(** Every component a model returns lies below one of the given roots, and has the type and a
    version in the range that were asked for. *)
Record model_contract (v : V) (roots : list string) : Prop := {
  resolve_inside p c : ResolveComponent v p = Ok c -> inside roots c;
  expect_type p t c : ResolveComponentExpectType v p t = Ok c -> inside roots c /\ c_Type c = t;
  expect_one_of p ts c : ResolveComponentExpectTypes v p ts = Ok c -> inside roots c /\ c_Type c ∈ ts;
  pattern_inside p c : ResolveComponentByManifestPattern v p = Ok c -> inside roots c;
  expect_version p name vr c sv : ResolveComponentExpectTypeV v p name vr = Ok (c, sv) ->
    inside roots c /\ type_Name (c_Type c) = name /\ ParseSemVer (SchemaVersion (c_Type c)) = Ok sv /\ InRange sv vr = true;
  pattern_version p name vr c sv : ResolveComponentByPatternExpectTypeV v p name vr = Ok (c, sv) ->
    inside roots c /\ type_Name (c_Type c) = name /\ ParseSemVer (SchemaVersion (c_Type c)) = Ok sv /\ InRange sv vr = true;
  find_inside glob cs : FindComponents v glob = Ok cs -> Forall (inside roots) cs;
  list_inside entity cs : ListEntityComponents v entity = Ok cs -> Forall (inside roots) cs
}.

End Contract.

Lemma resolveModelPath_below m p abs : resolveModelPath m p = Ok abs -> below (basePath m) abs.
Proof.
  unfold resolveModelPath. destruct (Rel _ _) as [rel|] eqn:Hr; [|done].
  destruct (_ || _ || _) eqn:Ho; [done|]. intros [= <-]. bool_to_prop. destruct (Rel_below _ _ _ Hr) as [Hroot Hcomps]; [done..|].
  split; [by rewrite Clean_rooted in Hroot|by rewrite components_Clean in Hcomps].
Qed.

#[local] Hint Resolve resolveModelPath_below : performix.

Section Disk.
Variable m : OnDiskModel.

Definition in_base (c : Component) : Prop := below (basePath m) (AbsolutePath c).

Lemma resolve_found_inside e c : resolve_found m e = Ok c -> in_base c.
Proof.
  unfold resolve_found. destruct (me_Pending e); [done|]. destruct (existsb _ _); [done|].
  intros (abs & ? & [= <-])%bind_Ok. unfold in_base. cbn. eauto with performix.
Qed.

Lemma resolve_on_disk_inside p c : resolve_on_disk m p = Ok c -> in_base c.
Proof.
  unfold resolve_on_disk. intros (abs & ? & Hs)%bind_Ok. destruct (Stat _ _); [|done..]. injection Hs as <-.
  unfold in_base. cbn. eauto with performix.
Qed.

#[local] Hint Resolve resolve_found_inside resolve_on_disk_inside : performix.

Lemma disk_ResolveComponent_inside p c : disk_ResolveComponent m p = Ok c -> in_base c.
Proof.
  unfold disk_ResolveComponent. intros H. repeat (case_hyp H; try done); eauto with performix.
Qed.

Lemma match_entries_inside want entries c : match_entries m want entries = Ok (Some c) -> in_base c.
Proof.
  induction entries as [|e entries IH]; cbn [match_entries]; [done|].
  destruct (Match _ _ _) as [[]|]; [|done..]. destruct (me_Pending e); [done|].
  intros (abs & ? & [= <-])%bind_Ok. unfold in_base. cbn. eauto with performix.
Qed.

Lemma disk_ByManifestPattern_inside p c : disk_ByManifestPattern m p = Ok c -> in_base c.
Proof.
  unfold disk_ByManifestPattern. intros ([d|] & Hd & H)%bind_Ok; [injection H as <-; by eapply match_entries_inside|].
  destruct (migratePath m _) as [[rw|]|]; [|done..]. apply bind_Ok in H as ([d|] & Hm & H); [|done].
  injection H as <-. by eapply match_entries_inside.
Qed.

Lemma in_version_range_Ok c vr d sv : in_version_range c vr = Ok (d, sv) <->
  d = c /\ ParseSemVer (SchemaVersion (c_Type c)) = Ok sv /\ InRange sv vr = true.
Proof.
  unfold in_version_range. destruct (ParseSemVer _) as [v|e]; [|split; [done|by intros (_ & ? & _)]].
  destruct (InRange v vr) eqn:Hr; split; [by intros [= <- <-]|by intros (-> & [= <-] & _)|done|].
  intros (_ & [= <-] & ?). congruence.
Qed.

(** The first entry of the expected type whose pattern matches is found, unless a pattern
    before it is malformed. *)
Lemma find_by_type_Some p t entries : forall first c, find_by_type m p t first entries = Ok (Some c) <->
  exists before e after abs, entries = before ++ e :: after /\
    Forall (fun x => Match (env m) (me_Path x) p = Ok false \/
                     Match (env m) (me_Path x) p = Ok true /\ type_Name (me_ComponentType x) <> t) before /\
    Match (env m) (me_Path e) p = Ok true /\ type_Name (me_ComponentType e) = t /\ me_Pending e = false /\
    resolveModelPath m p = Ok abs /\ c = {| c_Type := me_ComponentType e; RelativePath := me_Path e; AbsolutePath := abs |}.
Proof.
  induction entries as [|x entries IH]; intros first c; cbn [find_by_type].
  - split; [by destruct first|]. by intros ([|] & ? & ? & ? & ? & _).
  - destruct (Match (env m) (me_Path x) p) as [b|t'] eqn:Hm.
    2:{ split; [done|]. intros ([|y before] & e & after & abs & Heq & Hb & He & _); injection Heq as -> ->; [congruence|].
        apply Forall_cons in Hb as [[|[]] _]; congruence. }
    assert (forall f, (b = false \/ b = true /\ type_Name (me_ComponentType x) <> t) ->
      find_by_type m p t f entries = Ok (Some c) <-> exists before e after abs, x :: entries = before ++ e :: after /\
        Forall (fun x => Match (env m) (me_Path x) p = Ok false \/
                         Match (env m) (me_Path x) p = Ok true /\ type_Name (me_ComponentType x) <> t) before /\
        Match (env m) (me_Path e) p = Ok true /\ type_Name (me_ComponentType e) = t /\ me_Pending e = false /\
        resolveModelPath m p = Ok abs /\ c = {| c_Type := me_ComponentType e; RelativePath := me_Path e; AbsolutePath := abs |}) as Hskip.
    { intros f Hb. rewrite IH. split.
      - intros (before & e & after & abs & -> & Hf & Hrest). exists (x :: before), e, after, abs. split; [done|].
        split; [|done]. constructor; [|done]. rewrite Hm. destruct Hb as [->|[-> ?]]; [by left|by right].
      - intros ([|y before] & e & after & abs & Heq & Hf & Hrest); injection Heq as -> ->.
        + destruct Hrest as (He & Ht & _). rewrite Hm in He. injection He as ->. destruct Hb as [|[]]; congruence.
        + apply Forall_cons in Hf as [_ Hf]. by exists before, e, after, abs. }
    destruct b; [|apply Hskip; by left].
    destruct (bool_decide _) eqn:Ht; bool_to_prop; [|apply Hskip; by right].
    split.
    + destruct (me_Pending x) eqn:Hp; [done|]. intros (abs & Ha & [= <-])%bind_Ok. by exists [], x, entries, abs.
    + intros ([|y before] & e & after & abs & Heq & Hf & Hrest); injection Heq as -> ->.
      * destruct Hrest as (_ & _ & -> & -> & ->). done.
      * apply Forall_cons in Hf as [[?|[_ ?]] _]; congruence.
Qed.

Lemma find_by_type_None p t entries : forall first, find_by_type m p t first entries = Ok None <->
  first = None /\ Forall (fun x => Match (env m) (me_Path x) p = Ok false) entries.
Proof.
  induction entries as [|x entries IH]; intros first; cbn [find_by_type].
  - destruct first; naive_solver.
  - rewrite Forall_cons. destruct (Match (env m) (me_Path x) p) as [[]|] eqn:Hm; [|rewrite IH; naive_solver|naive_solver].
    destruct (bool_decide _).
    + destruct (me_Pending x); [naive_solver|]. destruct (resolveModelPath m p); naive_solver.
    + rewrite IH. destruct first; naive_solver.
Qed.

Lemma by_type_Ok p t c : resolveComponentByManifestPatternAndType m p t = Ok c <->
  exists q first, find_by_type m q t first (Entries m) = Ok (Some c) /\
    (q = p \/ migratePath m p = Ok (Some q) /\ Forall (fun x => Match (env m) (me_Path x) p = Ok false) (Entries m)).
Proof.
  assert (forall q f g, find_by_type m q t f (Entries m) = Ok (Some c) -> find_by_type m q t g (Entries m) = Ok (Some c)) as Hany
    by (intros q f g; by rewrite !find_by_type_Some).
  unfold resolveComponentByManifestPatternAndType. rewrite bind_Ok. split.
  - intros ([d|] & Hd & Hc); [injection Hc as ->; eauto|].
    apply find_by_type_None in Hd as [_ Hd]. destruct (migratePath m p) as [[q|]|]; [|done..].
    apply bind_Ok in Hc as ([d|] & Hq & Hc); [|done]. injection Hc as ->. eauto 10.
  - intros (q & f & Hq & [->|[Hm Hn]]).
    + exists (Some c). split; [by eapply Hany|done].
    + exists None. split; [by apply find_by_type_None|]. rewrite Hm. rewrite (Hany _ _ None Hq). done.
Qed.

(** A component is resolved by pattern, type and version exactly when the manifest has an
    entry of the expected type whose pattern matches the path and that is not pending, every
    entry before it does not match or has another type, the path stays in the model, and the
    schema version of the entry parses and lies in the range. The path is the normalised one,
    or, when no entry at all matches that one, the path it migrates to. *)
Theorem pattern_resolution_exact p t vr c sv : disk_ByPatternExpectTypeV m p t vr = Ok (c, sv) <->
  exists q before e after abs,
    (q = NormalizePath p \/
     migratePath m (NormalizePath p) = Ok (Some q) /\ Forall (fun x => Match (env m) (me_Path x) (NormalizePath p) = Ok false) (Entries m)) /\
    Entries m = before ++ e :: after /\
    Forall (fun x => Match (env m) (me_Path x) q = Ok false \/
                     Match (env m) (me_Path x) q = Ok true /\ type_Name (me_ComponentType x) <> t) before /\
    Match (env m) (me_Path e) q = Ok true /\ type_Name (me_ComponentType e) = t /\ me_Pending e = false /\
    resolveModelPath m q = Ok abs /\ c = {| c_Type := me_ComponentType e; RelativePath := me_Path e; AbsolutePath := abs |} /\
    ParseSemVer (SchemaVersion (me_ComponentType e)) = Ok sv /\ InRange sv vr = true.
Proof.
  unfold disk_ByPatternExpectTypeV. rewrite bind_Ok. split.
  - intros (d & (q & f & Hf & Hq)%by_type_Ok & (-> & Hs & Hr)%in_version_range_Ok).
    apply find_by_type_Some in Hf as (before & e & after & abs & ? & ? & ? & ? & ? & ? & ->). exists q, before, e, after, abs. by split_and!.
  - intros (q & before & e & after & abs & Hq & He & Hb & Hm & Ht & Hp & Ha & -> & Hs & Hr). eexists. split.
    + apply by_type_Ok. exists q, None. split; [|done]. apply find_by_type_Some. by exists before, e, after, abs.
    + by apply in_version_range_Ok.
Qed.

Lemma wrap_Ok {A} text (r : result cdf_error A) a : wrap text r = Ok a <-> r = Ok a.
Proof. destruct r; naive_solver. Qed.

Lemma walk_Forall {A} (P : A -> Prop) f stop items : forall l, walk_files f items stop = Ok l ->
  (forall x l, f x = Ok l -> Forall P l) -> Forall P l.
Proof.
  induction items as [|x items IH]; intros l; cbn [walk_files]; [by destruct stop as [[]|]; intros [= <-]|].
  intros (a & Ha & (b & Hb & [= <-])%bind_Ok)%bind_Ok Hf. apply Forall_app. split; [by eapply Hf|by apply IH].
Qed.

Lemma component_at_inside glob item l : component_at m glob item = Ok l -> Forall in_base l.
Proof.
  destruct item as [p dir]. cbn [component_at]. destruct dir; [by intros [= <-]|].
  intros ([] & _ & H)%bind_Ok; cbn [negb] in H; [|by injection H as <-].
  apply bind_Ok in H as (c & Hc%wrap_Ok & [= <-]). constructor; [by eapply disk_ResolveComponent_inside|done].
Qed.

Lemma disk_FindComponents_inside glob cs : (forall l, sort_by_path (env m) l ≡ₚ l) ->
  disk_FindComponents m glob = Ok cs -> Forall in_base cs.
Proof.
  intros Hs. unfold disk_FindComponents. intros (u & _ & H)%bind_Ok. destruct (negb _).
  - destruct (disk_ResolveComponent _ _) as [c|e] eqn:Hc.
    + injection H as <-. constructor; [by eapply disk_ResolveComponent_inside|done].
    + destruct (is_component_not_found e); [by injection H as <-|done].
  - apply bind_Ok in H as (root & _ & H). destruct (Stat _ _) as [| |[]]; [by injection H as <-| |by injection H as <-|done].
    destruct (Walk _ _) as [items stop]. apply bind_Ok in H as (l & Hl%wrap_Ok & [= <-]). rewrite Hs.
    eapply walk_Forall; [exact Hl|]. intros x k. apply component_at_inside.
Qed.

Lemma disk_ListEntityComponents_inside entity cs : disk_ListEntityComponents m entity = Ok cs -> Forall in_base cs.
Proof.
  unfold disk_ListEntityComponents. destruct (ReadDir _ _) as [entries|[]]; [|done]. revert cs.
  induction entries as [|[name dir] entries IH]; intros cs; cbn [list_components]; [by intros [= <-]|].
  destruct dir; [apply IH|]. intros (c & Hc%wrap_Ok & (l & Hl & [= <-])%bind_Ok)%bind_Ok.
  constructor; [by eapply disk_ResolveComponent_inside|by apply IH].
Qed.

End Disk.

(** The models of the library keep the contract. *)
Class ModelLaws (V : Type) `{ModelView V} (roots : V -> list string) (fine : V -> Prop) : Prop :=
  keeps_contract v : fine v -> model_contract v (roots v).

#[export] Instance OnDiskModel_laws : ModelLaws OnDiskModel (fun m => [basePath m]) (fun m => forall l, sort_by_path (env m) l ≡ₚ l).
Proof.
  intros m Hs.
  assert (forall c, in_base m c -> inside [basePath m] c) as Hin.
  { intros c Hc. exists (basePath m). split; [by left|done]. }
  split; cbn.
  - intros p c Hc%disk_ResolveComponent_inside. by apply Hin.
  - unfold expect_types. intros p t c (d & Hd%disk_ResolveComponent_inside & Hc)%bind_Ok.
    destruct (bool_decide _) eqn:Ht; [|done]. bool_to_prop. injection Hc as <-. split; [by apply Hin|by apply list_elem_of_singleton].
  - unfold expect_types. intros p ts c (d & Hd%disk_ResolveComponent_inside & Hc)%bind_Ok.
    destruct (bool_decide _) eqn:Ht; [|done]. bool_to_prop. injection Hc as <-. split; [by apply Hin|done].
  - intros p c Hc%disk_ByManifestPattern_inside. by apply Hin.
  - unfold disk_ExpectTypeV. intros p name vr c sv (d & Hd%disk_ResolveComponent_inside & Hc)%bind_Ok.
    destruct (bool_decide _) eqn:Ht; [|done]. bool_to_prop. apply in_version_range_Ok in Hc as (-> & Hc). split_and!; [by apply Hin|done|apply Hc..].
  - unfold disk_ByPatternExpectTypeV. intros p name vr c sv (d & (q & f & Hf & _)%by_type_Ok & (-> & Hs' & Hr)%in_version_range_Ok)%bind_Ok.
    apply find_by_type_Some in Hf as (before & e & after & abs & ? & ? & ? & ? & ? & Ha & ->). split_and!; [|done..].
    apply Hin. by eapply resolveModelPath_below.
  - intros glob cs Hc%disk_FindComponents_inside; [|done]. eapply Forall_impl; [exact Hc|]. exact Hin.
  - intros entity cs Hc%disk_ListEntityComponents_inside. eapply Forall_impl; [exact Hc|]. exact Hin.
Qed.

Lemma fall_back_Ok {A} (over from_base : result cdf_error A) a : fall_back over from_base = Ok a <->
  over = Ok a \/ exists e, over = Err e /\ is_component_not_found e = true /\ from_base = Ok a.
Proof.
  unfold fall_back. destruct over as [b|e].
  - split; [by left|]. intros [?|(e & ? & _)]; done.
  - destruct (is_component_not_found e) eqn:He.
    + split; [right; eauto|]. by intros [|(? & _ & _ & ?)].
    + split; [done|]. intros [|(? & [= ->] & ? & _)]; congruence.
Qed.

Lemma overlay_list_Ok {B O T} `{ModelView B} `{ModelView O} (m : OverlayModel B O) (key : T -> string) over from_base items :
  overlay_list m key over from_base = Ok items ->
  items = mergeByRelativePath key (items_of over) (filterOutsideOverlayRoot (BasePath (base m)) (BasePath (overlay m)) key (items_of from_base)).
Proof. unfold overlay_list. intros Hl. repeat (case_hyp Hl; try done). by injection Hl as <-. Qed.

Lemma filterOutside_sublist {T} b o (key : T -> string) items : filterOutsideOverlayRoot b o key items `sublist_of` items.
Proof. unfold filterOutsideOverlayRoot. destruct (negb _); [done|apply sublist_filter]. Qed.

Lemma merged_Forall {T} (P : T -> Prop) key over b o items : Forall P over -> Forall P items ->
  Forall P (mergeByRelativePath key over (filterOutsideOverlayRoot b o key items)).
Proof.
  intros Ho Hb. apply Forall_app. split; [done|]. rewrite Forall_forall in *. intros x Hx. apply Hb.
  eapply elem_of_submseteq; [exact Hx|]. apply sublist_submseteq. etransitivity; [apply sublist_filter|apply filterOutside_sublist].
Qed.

#[export] Instance OverlayModel_laws {B O} `{ModelLaws B rootsB fineB} `{ModelLaws O rootsO fineO} :
  ModelLaws (OverlayModel B O) (fun m => rootsO (overlay m) ++ rootsB (base m)) (fun m => fineO (overlay m) /\ fineB (base m)).
Proof.
  intros m [Ho%keeps_contract Hb%keeps_contract].
  assert (forall c, inside (rootsO (overlay m)) c -> inside (rootsO (overlay m) ++ rootsB (base m)) c) as HO
    by (intros c (r & ? & ?); exists r; rewrite elem_of_app; auto).
  assert (forall c, inside (rootsB (base m)) c -> inside (rootsO (overlay m) ++ rootsB (base m)) c) as HB
    by (intros c (r & ? & ?); exists r; rewrite elem_of_app; auto).
  split; cbn [ResolveComponent ResolveComponentExpectType ResolveComponentExpectTypes ResolveComponentByManifestPattern
    ResolveComponentExpectTypeV ResolveComponentByPatternExpectTypeV FindComponents ListEntityComponents OverlayModel_view].
  - intros p c [Hc|(e & _ & _ & Hc)]%fall_back_Ok; [by apply HO, (resolve_inside _ _ Ho p)|by apply HB, (resolve_inside _ _ Hb p)].
  - intros p t c [Hc|(e & _ & _ & Hc)]%fall_back_Ok; [apply (expect_type _ _ Ho) in Hc as [? ?]|apply (expect_type _ _ Hb) in Hc as [? ?]]; auto.
  - intros p ts c [Hc|(e & _ & _ & Hc)]%fall_back_Ok; [apply (expect_one_of _ _ Ho) in Hc as [? ?]|apply (expect_one_of _ _ Hb) in Hc as [? ?]]; auto.
  - intros p c [Hc|(e & _ & _ & Hc)]%fall_back_Ok; [by apply HO, (pattern_inside _ _ Ho p)|by apply HB, (pattern_inside _ _ Hb p)].
  - intros p name vr c sv [Hc|(e & _ & _ & Hc)]%fall_back_Ok; [apply (expect_version _ _ Ho) in Hc as [? ?]|apply (expect_version _ _ Hb) in Hc as [? ?]]; auto.
  - intros p name vr c sv [Hc|(e & _ & _ & Hc)]%fall_back_Ok; [apply (pattern_version _ _ Ho) in Hc as [? ?]|apply (pattern_version _ _ Hb) in Hc as [? ?]]; auto.
  - intros glob cs ->%overlay_list_Ok. apply merged_Forall; unfold items_of.
    + destruct (FindComponents (overlay m) glob) as [l|] eqn:Hl; cbn; [|done]. eapply Forall_impl; [exact (find_inside _ _ Ho _ _ Hl)|done].
    + destruct (FindComponents (base m) glob) as [l|] eqn:Hl; cbn; [|done]. eapply Forall_impl; [exact (find_inside _ _ Hb _ _ Hl)|done].
  - intros entity cs ->%overlay_list_Ok. apply merged_Forall; unfold items_of.
    + destruct (ListEntityComponents (overlay m) entity) as [l|] eqn:Hl; cbn; [|done]. eapply Forall_impl; [exact (list_inside _ _ Ho _ _ Hl)|done].
    + destruct (ListEntityComponents (base m) entity) as [l|] eqn:Hl; cbn; [|done]. eapply Forall_impl; [exact (list_inside _ _ Hb _ _ Hl)|done].
Qed.

(** Every model keeps its contract. A component that a model on disk resolves, finds or
    lists lies below the directory of the model, and has the type and a version in the range
    that were asked for; and a render laid over a run keeps the contract with the roots of
    both, whichever models they are. *)
Theorem models_keep_contract :
  (forall m : OnDiskModel, (forall l, sort_by_path (env m) l ≡ₚ l) -> model_contract m [basePath m]) /\
  (forall B O `{ModelLaws B rootsB fineB} `{ModelLaws O rootsO fineO} (m : OverlayModel B O),
     fineO (overlay m) -> fineB (base m) -> model_contract m (rootsO (overlay m) ++ rootsB (base m))).
Proof.
  split; [intros m; apply OnDiskModel_laws|].
  intros B O H rootsB fineB HB H' rootsO fineO HO m ? ?. exact (OverlayModel_laws m ltac:(done)).
Qed.

Lemma models_keep_contract_witness :
  model_contract sample_run ["/runs/1"] /\
  model_contract {| base := sample_run; overlay := sample_render |} (["/runs/1/render/2"] ++ ["/runs/1"]).
Proof.
  destruct models_keep_contract as [Hdisk Hoverlay]. split; [by apply (Hdisk sample_run)|].
  by apply (Hoverlay _ _ _ _ _ OnDiskModel_laws _ _ _ OnDiskModel_laws {| base := sample_run; overlay := sample_render |}).
Defined.

(** ** Merged listings *)

Lemma Clean_nonempty p : Clean p <> EmptyString.
Proof. rewrite Clean_components. destruct (HasPrefix p "/"); [done|]. destruct (bool_decide _) eqn:He; by bool_to_prop. Qed.

Lemma below_refl p : below p p.
Proof. by split. Qed.

Lemma below_Clean r p : below (Clean r) (Clean p) <-> below r p.
Proof. unfold below. by rewrite !Clean_rooted, !components_Clean. Qed.

Lemma at_or_under_below root p : Clean root = root -> components root <> [] -> at_or_under root (Clean p) = true <-> below root p.
Proof.
  intros Hr Hne. rewrite <- (below_Clean root p), Hr. unfold at_or_under. rewrite orb_true_iff, bool_decide_eq_true.
  rewrite text_prefix_below by (done || apply Clean_Clean). split.
  - intros [->|[? _]]; [apply below_refl|done].
  - intros Hb. destruct (decide (Clean p = root)); auto.
Qed.

Definition nested (baseRoot overlayRoot : string) : Prop := below baseRoot overlayRoot /\ Clean overlayRoot <> Clean baseRoot.

Lemma overlayRootIsNested_nested b o : components b <> [] -> overlayRootIsNested (Clean b) (Clean o) = true <-> nested b o.
Proof.
  intros Hne. unfold overlayRootIsNested, nested. rewrite !bool_decide_false by apply Clean_nonempty. cbn [orb].
  rewrite <- (below_Clean b o). destruct (bool_decide (Clean o = Clean b)) eqn:He; bool_to_prop; [by split; [|intros [_ ?]]|].
  apply text_prefix_below; [apply Clean_Clean..|by rewrite components_Clean].
Qed.

Lemma nested_components b o : components b <> [] -> nested b o -> components o <> [].
Proof. intros Hne [[_ [l Hl]] _] Ho. rewrite Ho in Hl. symmetry in Hl. by apply app_nil in Hl as [? _]. Qed.

(** An item of the base is shown unless the overlay has one with its path, or its file lies in
    the directory of an overlay inside the base. *)
Definition shown {T} (b o : string) (key : T -> string) (over : list T) (x : T) : Prop :=
  key x ∉ key <$> over /\ ~ (nested b o /\ below o (JoinPath [b; key x])).

Lemma filterOutside_spec {T} b o (key : T -> string) items x : Clean o = o -> components b <> [] ->
  x ∈ filterOutsideOverlayRoot b o key items <-> x ∈ items /\ ~ (nested b o /\ below o (JoinPath [b; key x])).
Proof.
  intros Ho Hb. unfold filterOutsideOverlayRoot. destruct (overlayRootIsNested _ _) eqn:Hn; cbn [negb].
  - apply overlayRootIsNested_nested in Hn; [|done]. rewrite list_elem_of_filter.
    rewrite <- (at_or_under_below o) by (done || by eapply nested_components).
    destruct (at_or_under _ _); split; [by intros [? _]|by intros [_ []]|by intros [_ ?]; split; [|intros [_ ?]]|by intros [? _]].
  - assert (~ nested b o) as Hnn by (rewrite <- overlayRootIsNested_nested, Hn by done; done). tauto.
Qed.

(** What a merged listing returns. *)
Definition merged {T} (b o : string) (key : T -> string) (over from_base res : result cdf_error (list T)) : Prop :=
  match res with
  | Ok items =>
      fatal over = None /\ fatal from_base = None /\ (is_ok over || is_ok from_base = true) /\
      (exists kept, items = items_of over ++ kept /\ kept `sublist_of` items_of from_base /\
         forall x, x ∈ kept <-> x ∈ items_of from_base /\ shown b o key (items_of over) x) /\
      (NoDup (key <$> items_of over) -> NoDup (key <$> items_of from_base) -> NoDup (key <$> items))
  | Err e =>
      fatal over = Some e \/ fatal over = None /\ fatal from_base = Some e \/
      not_exist_result over = true /\ not_exist_result from_base = true /\ isNotExist e = true
  end.

Lemma fmap_sublist {A B} (f : A -> B) (l k : list A) : l `sublist_of` k -> f <$> l `sublist_of` f <$> k.
Proof. induction 1; cbn; by constructor. Qed.

Lemma overlay_list_merged {B O T} `{ModelView B} `{ModelView O} (m : OverlayModel B O) (key : T -> string) over from_base :
  Clean (BasePath (overlay m)) = BasePath (overlay m) -> components (BasePath (base m)) <> [] ->
  merged (BasePath (base m)) (BasePath (overlay m)) key over from_base (overlay_list m key over from_base).
Proof.
  intros Ho Hb. unfold overlay_list.
  destruct (fatal over) as [e|] eqn:Hf; [by left|]. destruct (fatal from_base) as [e|] eqn:Hf'; [by right; left|].
  destruct (not_exist_result over && not_exist_result from_base) eqn:Hn.
  { bool_to_prop. by right; right. }
  assert (forall x, x ∈ filter (fun item => key item ∉ key <$> items_of over)
      (filterOutsideOverlayRoot (BasePath (base m)) (BasePath (overlay m)) key (items_of from_base)) <->
      x ∈ items_of from_base /\ shown (BasePath (base m)) (BasePath (overlay m)) key (items_of over) x) as Hx.
  { intros x. rewrite list_elem_of_filter, filterOutside_spec by done. unfold shown. tauto. }
  set (kept := filter _ _) in *.
  assert (kept `sublist_of` items_of from_base) as Hsub by (etransitivity; [apply sublist_filter|apply filterOutside_sublist]).
  split_and!; [done..| | |].
  - unfold not_exist_result, fatal in *. destruct over, from_base; cbn in *; try done.
    destruct (isNotExist e), (isNotExist e0); done.
  - by exists kept.
  - intros Hno Hnb. unfold mergeByRelativePath. fold kept. rewrite fmap_app. apply NoDup_app. split_and!; [done| |].
    + intros k Hk (x & -> & Hx')%list_elem_of_fmap. apply Hx in Hx' as [_ [? _]]. done.
    + eapply sublist_NoDup; [exact Hnb|]. by apply fmap_sublist.
Qed.

(** The listings of an overlay. A listing fails exactly with the first error of the overlay
    or the base that is not a missing file, or when the files are missing in both. Otherwise it
    has the items of the overlay, followed by the items of the base, in order, that no item of
    the overlay shadows and that do not lie in the directory of the overlay when this is
    inside the base; paths that are unique in both stay unique. The root of the overlay has to
    be clean, as a joined path is. *)
Theorem overlay_listings {B O} `{ModelView B} `{ModelView O} (m : OverlayModel B O)
    (Hclean : Clean (BasePath (overlay m)) = BasePath (overlay m)) (Hbase : components (BasePath (base m)) <> []) :
  let b := BasePath (base m) in
  let o := BasePath (overlay m) in
  (forall glob, merged b o entity_path (FindEntities (overlay m) glob) (FindEntities (base m) glob) (FindEntities m glob)) /\
  (forall glob, merged b o RelativePath (FindComponents (overlay m) glob) (FindComponents (base m) glob) (FindComponents m glob)) /\
  (forall entity, merged b o RelativePath (ListEntityComponents (overlay m) entity) (ListEntityComponents (base m) entity)
                    (ListEntityComponents m entity)).
Proof. split_and!; intros; by apply overlay_list_merged. Qed.

Definition sample_view : OverlayModel OnDiskModel OnDiskModel := {| base := sample_run; overlay := sample_render |}.

Lemma overlay_listings_witness :
  merged (BasePath (base sample_view)) (BasePath (overlay sample_view)) RelativePath (FindComponents (overlay sample_view) "extra/*")
    (FindComponents (base sample_view) "extra/*") (FindComponents sample_view "extra/*") /\
  is_ok (FindComponents sample_view "extra/*") = true.
Proof.
  split; [|vm_compute; reflexivity]. 
  assert (Clean (BasePath (overlay sample_view)) = BasePath (overlay sample_view)) as Hclean by (vm_compute; reflexivity).
  assert (components (BasePath (base sample_view)) <> []) as Hbase by (vm_compute; discriminate).
  pose proof (overlay_listings sample_view Hclean Hbase) as Hl. cbv zeta in Hl. destruct Hl as (_ & Hfind & _).
  exact (Hfind "extra/*").
Defined.

(** A root that ends in a separator hides nothing. *)
Example unclean_root_hides_nothing :
  (filterOutsideOverlayRoot "/runs/1" "/runs/1/render/2" id ["a"; "render/2/b"],
   filterOutsideOverlayRoot "/runs/1" "/runs/1/render/2/" id ["a"; "render/2/b"]) = (["a"], ["a"; "render/2/b"]).
Proof. vm_compute. reflexivity. Qed.
