(* ===== verification/RunBuilder.v ===== *)
(** * Performix: the manifest of a run under construction

    Models [core/apap-engine/run/run_builder.go] (the entities, components and tools of a run
    that is being recorded), [run_manifest_updater.go] (updates of it that are written to disk
    one at a time) and the removal of stale pending entries in [run.go]. *)

From S2P Require Import Prelude.
From S2P Require Import GoStrings.
From S2P Require Import FilePaths.
From S2P Require Import Migrations.
From S2P Require Import Model.
From Stdlib Require Import Ascii.

Local Open Scope Z_scope.

#[export] Instance Component_eq_dec : EqDecision Component.
Proof. solve_decision. Defined.
#[export] Instance Entity_eq_dec : EqDecision Entity.
Proof. solve_decision. Defined.
#[export] Instance ManifestEntry_eq_dec : EqDecision ManifestEntry.
Proof. solve_decision. Defined.

Definition recipeNamePrefixLength : Z := 16.
Definition runIDSuffixLength : Z := 3.

(** [builderComponent]: the embedded component and its pending flag. *)
Record builderComponent := { component : Component; Pending : bool }.

Definition path_of (c : builderComponent) : string := RelativePath (component c).

Record RunBuilder := {
  runID : string;
  builder_basePath : string;
  runPath : string;
  entities : list Entity;
  b_components : list builderComponent;
  toolsUsed : list ToolUsed
}.

Definition set_entities (b : RunBuilder) (es : list Entity) : RunBuilder :=
  {| runID := runID b; builder_basePath := builder_basePath b; runPath := runPath b;
     entities := es; b_components := b_components b; toolsUsed := toolsUsed b |}.

Definition set_components (b : RunBuilder) (cs : list builderComponent) : RunBuilder :=
  {| runID := runID b; builder_basePath := builder_basePath b; runPath := runPath b;
     entities := entities b; b_components := cs; toolsUsed := toolsUsed b |}.

Definition GenerateRunName (b : RunBuilder) (recipeName : string) : string :=
  let name := if len recipeName >? recipeNamePrefixLength then slice recipeName 0 recipeNamePrefixLength else recipeName in
  let id := if len (runID b) >? runIDSuffixLength then slice (runID b) (len (runID b) - runIDSuffixLength) (len (runID b))
            else runID b in
  name +:+ "_" +:+ id.

Definition ContainsEntity (es : list Entity) (relativePath : string) : bool :=
  bool_decide ({| entity_path := NormalizePath relativePath |} ∈ es).

(** [strings.ContainsAny(dir, "*?[")] *)
Definition is_wildcard (dir : string) : bool :=
  negb (sall (fun c => negb (bool_decide (c ∈ ["*"; "?"; "["]%char))) dir).

(** The loop of [AddEntity]. *)
Fixpoint add_dirs (dirPath : string) (dirs : list string) (es : list Entity) : list Entity :=
  match dirs with
  | [] => es
  | d :: rest =>
      if is_wildcard d then es
      else
        let dirPath' := JoinPath [dirPath; d] in
        add_dirs dirPath' rest (if ContainsEntity es dirPath' then es else es ++ [{| entity_path := NormalizePath dirPath' |}])
  end.

Definition AddEntity (b : RunBuilder) (relativePath : string) : RunBuilder :=
  if bool_decide (relativePath = EmptyString) then b
  else set_entities b (add_dirs EmptyString (Split "/" (NormalizePath relativePath)) (entities b)).

Definition AddToolOutput (b : RunBuilder) (toolName version : string) (invocation : Z) : RunBuilder :=
  {| runID := runID b; builder_basePath := builder_basePath b; runPath := runPath b; entities := entities b;
     b_components := b_components b;
     toolsUsed := toolsUsed b ++ [{| tu_Tool := toolName; tu_Version := version; tu_Invocation := invocation |}] |}.

(** The directory that [filepath.Split] returns. *)
Definition split_dir (path : string) : string := slice path 0 (LastIndex path "/" + 1).

Definition addComponent (b : RunBuilder) (t : ComponentType) (relativePath : string) (pending : bool) : RunBuilder :=
  let relativePath := NormalizePath relativePath in
  let b := AddEntity b (split_dir relativePath) in
  set_components b (b_components b ++
    [{| component := {| c_Type := t; RelativePath := relativePath; AbsolutePath := JoinPath [runPath b; relativePath] |};
        Pending := pending |}]).

Definition AddComponent (b : RunBuilder) (t : ComponentType) (relativePath : string) : RunBuilder :=
  addComponent b t relativePath false.
Definition AddPendingComponent (b : RunBuilder) (t : ComponentType) (relativePath : string) : RunBuilder :=
  addComponent b t relativePath true.

Fixpoint clear_first (p : string) (cs : list builderComponent) : list builderComponent :=
  match cs with
  | [] => []
  | c :: rest => if bool_decide (path_of c = p) && Pending c then {| component := component c; Pending := false |} :: rest
                 else c :: clear_first p rest
  end.

Definition ClearPending (b : RunBuilder) (relativePath : string) : RunBuilder :=
  set_components b (clear_first (NormalizePath relativePath) (b_components b)).

Fixpoint remove_first (p : string) (cs : list builderComponent) : list builderComponent :=
  match cs with
  | [] => []
  | c :: rest => if bool_decide (path_of c = p) then rest else c :: remove_first p rest
  end.

Definition RemoveComponent (b : RunBuilder) (relativePath : string) : RunBuilder :=
  set_components b (remove_first (NormalizePath relativePath) (b_components b)).

Definition IsComponentPending (b : RunBuilder) (relativePath : string) : bool :=
  match List.find (fun c => bool_decide (path_of c = NormalizePath relativePath)) (b_components b) with
  | Some c => Pending c
  | None => false
  end.

Record Manifest := { m_Entries : list ManifestEntry; m_ToolsUsed : list ToolUsed }.

Definition manifest_entry (c : builderComponent) : ManifestEntry :=
  {| me_Path := path_of c; me_ComponentType := c_Type (component c); me_Pending := Pending c |}.

Definition buildManifest (b : RunBuilder) : Manifest :=
  {| m_Entries := manifest_entry <$> b_components b; m_ToolsUsed := toolsUsed b |}.

(** ** Updates that are written to disk *)

Inductive mutation :=
| MAddPending (path : string) (t : ComponentType)
| MAdd (path : string) (t : ComponentType)
| MTool (toolName version : string) (invocation : Z)
| MClear (path : string)
| MRemove (path : string)
| MRemovePending (path : string).

(** The operations other than [AddToolOutput] return nil at once for an empty path. *)
Definition ignored (m : mutation) : bool :=
  match m with
  | MAddPending p _ | MAdd p _ | MClear p | MRemove p | MRemovePending p => bool_decide (p = EmptyString)
  | MTool _ _ _ => false
  end.

(** What an operation passes to [update]. *)
Definition mutate (m : mutation) (b : RunBuilder) : RunBuilder :=
  match m with
  | MAddPending p t => AddPendingComponent b t p
  | MAdd p t => AddComponent b t p
  | MTool n v i => AddToolOutput b n v i
  | MClear p => ClearPending b p
  | MRemove p => RemoveComponent b p
  | MRemovePending p => if IsComponentPending b p then RemoveComponent b p else b
  end.

(** The builder that the updater owns and the manifest in the run's directory. The file is
    replaced atomically: a write that fails leaves the old one. [werr] is the error of the
    write. *)
Record RunManifestUpdater := { builder : RunBuilder; on_disk : option Manifest }.

Definition update {E} (f : RunBuilder -> RunBuilder) (werr : option E) (u : RunManifestUpdater) : RunManifestUpdater * option E :=
  let updatedBuilder := f (builder u) in
  match werr with
  | Some e => (u, Some e)
  | None => ({| builder := updatedBuilder; on_disk := Some (buildManifest updatedBuilder) |}, None)
  end.

Definition apply_mutation {E} (m : mutation) (werr : option E) (u : RunManifestUpdater) : RunManifestUpdater * option E :=
  if ignored m then (u, None) else update (mutate m) werr u.

Definition ComponentPath (u : RunManifestUpdater) (relativePath : string) : string :=
  JoinPath [runPath (builder u); NormalizePath relativePath].

(** The directories that [CreateEntityDirs] makes for the builder; [None] when [MkdirAll] fails. *)
Fixpoint CreateEntityDirs (mkdir : string -> bool) (dir : string) (es : list Entity) : option (list string) :=
  match es with
  | [] => Some []
  | e :: rest => let entryPath := JoinPath [dir; entity_path e] in
                 if mkdir entryPath then made ← CreateEntityDirs mkdir dir rest; Some (entryPath :: made) else None
  end.

(** [RemovePendingManifestEntries] of a manifest that could be read: [None] when there is
    nothing to write. *)
Definition RemovePendingManifestEntries (m : Manifest) : option Manifest :=
  let entries := List.filter (fun e => negb (me_Pending e)) (m_Entries m) in
  if existsb me_Pending (m_Entries m) then Some {| m_Entries := entries; m_ToolsUsed := m_ToolsUsed m |} else None.

Example two_transfers :
  let t := {| type_Name := "perf"; SchemaVersion := "1.0.0" |} in
  let b := {| runID := "r1"; builder_basePath := "/runs"; runPath := "/runs/r1"; entities := []; b_components := []; toolsUsed := [] |} in
  let b' := foldl (fun b m => mutate m b) b [MAddPending "tool/a/*.csv" t; MAddPending "\tool\b\x" t; MClear "tool/b/x"; MRemove "/tool/a/*.csv/"] in
  (entities b', m_Entries (buildManifest b')) =
  ([{| entity_path := "tool" |}; {| entity_path := "tool/a" |}; {| entity_path := "tool/b" |}],
   [{| me_Path := "tool/b/x"; me_ComponentType := t; me_Pending := false |}]).
Proof. vm_compute. reflexivity. Qed.

(** ** The manifest on disk *)

Section Disk.
Context {E : Type}.

Definition run_updates (u : RunManifestUpdater) (ops : list (mutation * option E)) : RunManifestUpdater :=
  foldl (fun u op => (apply_mutation op.1 op.2 u).1) u ops.

(** The operations that were written. *)
Definition effective (ops : list (mutation * option E)) : list mutation :=
  (filter (fun op => ignored op.1 = false /\ op.2 = None) ops).*1.

Definition mutate_all (b : RunBuilder) (ms : list mutation) : RunBuilder := foldl (fun b m => mutate m b) b ms.

Definition in_step (u : RunManifestUpdater) : Prop := on_disk u = Some (buildManifest (builder u)).

Lemma apply_mutation_in_step m (werr : option E) u : in_step u -> in_step (apply_mutation m werr u).1.
Proof. intros Hu. unfold apply_mutation. destruct (ignored m); [done|]. by destruct werr. Qed.

(** Whatever updates are made and whichever of them fail to be written, the manifest on
    disk is the manifest of the builder, and the builder is the result of exactly the updates
    that were written, in their order. *)
Theorem manifest_on_disk_in_step (u : RunManifestUpdater) (ops : list (mutation * option E)) :
  on_disk u = Some (buildManifest (builder u)) ->
  on_disk (run_updates u ops) = Some (buildManifest (builder (run_updates u ops))) /\
  builder (run_updates u ops) = mutate_all (builder u) (effective ops).
Proof.
  unfold run_updates. revert u. induction ops as [|[m werr] ops IH]; intros u Hu; [done|].
  destruct (IH _ (apply_mutation_in_step m werr u Hu)) as [Hd Hb]. cbn [foldl fst snd]. split; [done|].
  rewrite Hb. unfold effective. rewrite filter_cons. cbn [fst snd]. unfold apply_mutation.
  destruct (ignored m), werr; cbn; by repeat case_decide; naive_solver.
Qed.

End Disk.

(** ** The abstract manifest *)

(** What is known of a path: its type and whether it is pending. *)
Notation abstract_manifest := (gmap string (ComponentType * bool)).

Definition status_of (c : builderComponent) : string * (ComponentType * bool) :=
  (path_of c, (c_Type (component c), Pending c)).

Definition abs (b : RunBuilder) : abstract_manifest := list_to_map (status_of <$> b_components b).

Definition target (m : mutation) : option string :=
  match m with
  | MAddPending p _ | MAdd p _ | MClear p | MRemove p | MRemovePending p => Some (NormalizePath p)
  | MTool _ _ _ => None
  end.

(** What an update does to the entry of its path. *)
Definition spec_entry (m : mutation) (o : option (ComponentType * bool)) : option (ComponentType * bool) :=
  match m with
  | MAddPending _ t => Some (t, true)
  | MAdd _ t => Some (t, false)
  | MTool _ _ _ => o
  | MClear _ => (fun e => (e.1, false)) <$> o
  | MRemove _ => None
  | MRemovePending _ => match o with Some (_, true) => None | _ => o end
  end.

Definition spec_step (m : mutation) (g : abstract_manifest) : abstract_manifest :=
  match target m with Some q => partial_alter (spec_entry m) q g | None => g end.

(** No path is added while it has an entry. *)
Definition fresh (m : mutation) (b : RunBuilder) : Prop :=
  match m with MAddPending p _ | MAdd p _ => NormalizePath p ∉ path_of <$> b_components b | _ => True end.

Fixpoint all_fresh (b : RunBuilder) (ms : list mutation) : Prop :=
  match ms with [] => True | m :: rest => fresh m b /\ all_fresh (mutate m b) rest end.

Lemma status_keys cs : (status_of <$> cs).*1 = path_of <$> cs.
Proof. by rewrite <- list_fmap_compose. Qed.

Lemma set_components_AddEntity b p cs : b_components (set_components (AddEntity b p) cs) = cs /\ b_components (AddEntity b p) = b_components b.
Proof. unfold AddEntity. by case_bool_decide. Qed.

Lemma addComponent_components b t p pending : exists c,
  b_components (addComponent b t p pending) = b_components b ++ [c] /\ status_of c = (NormalizePath p, (t, pending)).
Proof. eexists. unfold addComponent. cbn [set_components b_components]. split; [by rewrite (proj2 (set_components_AddEntity _ _ []))|done]. Qed.

Lemma clear_first_paths p cs : path_of <$> clear_first p cs = path_of <$> cs.
Proof. induction cs as [|c cs IH]; cbn; [done|]. destruct (bool_decide _ && _); cbn; [done|by rewrite IH]. Qed.

Lemma remove_first_paths p cs : path_of <$> remove_first p cs `sublist_of` path_of <$> cs.
Proof. induction cs as [|c cs IH]; cbn; [done|]. case_bool_decide; [by apply sublist_cons|by apply sublist_skip]. Qed.

Lemma addComponent_abs b t p pending : NormalizePath p ∉ path_of <$> b_components b ->
  NoDup (path_of <$> b_components b) ->
  NoDup (path_of <$> b_components (addComponent b t p pending)) /\
  abs (addComponent b t p pending) = <[NormalizePath p := (t, pending)]> (abs b).
Proof.
  intros Hf Hnd. unfold abs. destruct (addComponent_components b t p pending) as (c & -> & Hc).
  assert (path_of c = NormalizePath p) as Hp by exact (f_equal fst Hc). split.
  - rewrite fmap_app. cbn. rewrite Hp. apply NoDup_app. split; [done|]. split; [set_solver|apply NoDup_singleton].
  - rewrite fmap_app. change (status_of <$> [c]) with [status_of c]. rewrite Hc.
    change (<[NormalizePath p := (t, pending)]> (list_to_map (M := abstract_manifest) (status_of <$> b_components b)))
      with (list_to_map (M := abstract_manifest) ((NormalizePath p, (t, pending)) :: (status_of <$> b_components b))).
    apply list_to_map_proper; [|symmetry; apply Permutation_cons_append].
    rewrite fmap_app, status_keys. cbn. rewrite <- Permutation_cons_append. by constructor.
Qed.

Lemma clear_first_abs p cs : NoDup (path_of <$> cs) ->
  list_to_map (M := abstract_manifest) (status_of <$> clear_first p cs) =
  partial_alter (fmap (fun e => (e.1, false))) p (list_to_map (status_of <$> cs)).
Proof.
  induction cs as [|c cs IH]; cbn [clear_first fmap list_fmap list_to_map foldr uncurry]; intros Hnd.
  - apply map_eq. intros q. destruct (decide (q = p)) as [->|]; by rewrite ?lookup_partial_alter_eq, ?lookup_partial_alter_ne.
  - apply NoDup_cons in Hnd as [Hc Hnd]. apply map_eq. intros q.
    destruct (decide (path_of c = p)) as [Hp|Hp]; [destruct (Pending c) eqn:Hpend|].
    + rewrite bool_decide_true by done. cbn. change (path_of {| component := component c; Pending := false |}) with (path_of c).
      rewrite Hp. destruct (decide (q = p)) as [->|]; [by rewrite lookup_partial_alter_eq, !lookup_insert_eq|].
      by rewrite lookup_partial_alter_ne, !lookup_insert_ne.
    + rewrite andb_false_r. cbn. rewrite Hp, IH by done.
      destruct (decide (q = p)) as [->|]; [|by rewrite lookup_partial_alter_ne, !lookup_insert_ne, lookup_partial_alter_ne].
      by rewrite lookup_partial_alter_eq, !lookup_insert_eq, Hpend.
    + rewrite bool_decide_false by done. cbn. rewrite IH by done.
      destruct (decide (q = path_of c)) as [->|]; [by rewrite lookup_partial_alter_ne, !lookup_insert_eq|].
      rewrite lookup_insert_ne by done.
      destruct (decide (q = p)) as [->|]; [by rewrite !lookup_partial_alter_eq, lookup_insert_ne|].
      by rewrite !lookup_partial_alter_ne, lookup_insert_ne.
Qed.

Lemma remove_first_abs p cs : NoDup (path_of <$> cs) ->
  list_to_map (M := abstract_manifest) (status_of <$> remove_first p cs) = delete p (list_to_map (status_of <$> cs)).
Proof.
  induction cs as [|c cs IH]; cbn [remove_first fmap list_fmap list_to_map foldr uncurry]; intros Hnd; [by rewrite delete_empty|].
  apply NoDup_cons in Hnd as [Hc Hnd]. case_bool_decide as Hp.
  - cbn. rewrite Hp, delete_insert_id; [done|]. apply not_elem_of_list_to_map_1. by rewrite status_keys, <- Hp.
  - cbn. by rewrite IH, delete_insert_ne.
Qed.

Lemma abs_lookup_find cs q : NoDup (path_of <$> cs) ->
  list_to_map (M := abstract_manifest) (status_of <$> cs) !! q =
  (fun c => (c_Type (component c), Pending c)) <$> List.find (fun c => bool_decide (path_of c = q)) cs.
Proof.
  induction cs as [|c cs IH]; cbn; intros Hnd; [done|]. apply NoDup_cons in Hnd as [_ Hnd].
  case_bool_decide as Hp; [by rewrite Hp, lookup_insert_eq|]. rewrite lookup_insert_ne by done. by apply IH.
Qed.

Lemma alter_const {A} (f : option A -> option A) (g : gmap string A) p : f (g !! p) = g !! p -> partial_alter f p g = g.
Proof.
  intros Hf. apply map_eq. intros q. destruct (decide (q = p)) as [->|]; by rewrite ?lookup_partial_alter_eq, ?lookup_partial_alter_ne.
Qed.

Lemma IsComponentPending_abs b p : NoDup (path_of <$> b_components b) ->
  IsComponentPending b p = match abs b !! NormalizePath p with Some (_, pending) => pending | None => false end.
Proof. intros Hnd. unfold IsComponentPending, abs. rewrite abs_lookup_find by done. by destruct (List.find _ _). Qed.

(** Every operation without duplicates is its step of the abstract manifest. *)
Lemma mutate_refines b m : NoDup (path_of <$> b_components b) -> fresh m b ->
  NoDup (path_of <$> b_components (mutate m b)) /\ abs (mutate m b) = spec_step m (abs b).
Proof.
  intros Hnd Hf. destruct m as [p t|p t|n v i|p|p|p]; cbn [mutate fresh target spec_step] in *.
  - by apply addComponent_abs.
  - by apply addComponent_abs.
  - done.
  - unfold spec_step, target, abs, ClearPending. cbn [set_components b_components].
    rewrite clear_first_paths. split; [done|]. by apply clear_first_abs.
  - unfold spec_step, target, abs, RemoveComponent. cbn [set_components b_components].
    split; [eapply sublist_NoDup; [done|apply remove_first_paths]|]. by apply remove_first_abs.
  - unfold spec_step, target. rewrite IsComponentPending_abs by done.
    destruct (abs b !! NormalizePath p) as [[t [|]]|] eqn:Hl; [|by rewrite alter_const by (rewrite Hl; done)..].
    split; [eapply sublist_NoDup; [done|apply remove_first_paths]|].
    unfold abs at 1, RemoveComponent. cbn [set_components b_components]. rewrite remove_first_abs by done. fold (abs b).
    apply map_eq. intros q. destruct (decide (q = NormalizePath p)) as [->|].
    + by rewrite lookup_partial_alter_eq, lookup_delete_eq, Hl.
    + by rewrite lookup_partial_alter_ne, lookup_delete_ne.
Qed.

Lemma spec_step_lookup m g q : spec_step m g !! q = if bool_decide (target m = Some q) then spec_entry m (g !! q) else g !! q.
Proof.
  unfold spec_step. destruct (target m) as [p|] eqn:Ht; [|by rewrite bool_decide_false].
  case_bool_decide as Hq; [injection Hq as <-; apply lookup_partial_alter_eq|].
  apply lookup_partial_alter_ne. congruence.
Qed.

(** The updates of one path. *)
Definition updates_of (q : string) (ms : list mutation) : list mutation := filter (fun m => target m = Some q) ms.

(** A sequence of updates, however those of different transfers are interleaved, that
    never adds a path while it is listed: the manifest lists every path at most once, and a
    path's entry is what its own updates, alone and in their order, make of it: added
    pending or complete, cleared of pending, or removed, a complete entry surviving the
    removal of pending ones. *)
Theorem manifest_refines_entries b ms q :
  NoDup (path_of <$> b_components b) -> all_fresh b ms ->
  NoDup (me_Path <$> m_Entries (buildManifest (mutate_all b ms))) /\
  (fun e => (me_ComponentType e, me_Pending e)) <$>
    List.find (fun e => bool_decide (me_Path e = q)) (m_Entries (buildManifest (mutate_all b ms))) =
  foldl (fun o m => spec_entry m o) (abs b !! q) (updates_of q ms).
Proof.
  assert (forall b, NoDup (path_of <$> b_components b) ->
    NoDup (me_Path <$> m_Entries (buildManifest b)) /\
    (fun e => (me_ComponentType e, me_Pending e)) <$> List.find (fun e => bool_decide (me_Path e = q)) (m_Entries (buildManifest b)) = abs b !! q)
    as Hread.
  { intros b' Hnd. cbn. rewrite <- list_fmap_compose. split; [done|]. unfold abs. rewrite abs_lookup_find by done. clear.
    induction (b_components b') as [|c cs IH]; cbn; [done|]. unfold path_of at 1 3. by case_bool_decide. }
  revert b. induction ms as [|m ms IH]; intros b Hnd Hf; [by apply Hread|]. destruct Hf as [Hm Hf].
  destruct (mutate_refines b m Hnd Hm) as [Hnd' Ha]. destruct (IH _ Hnd' Hf) as [? Hl]. cbn [mutate_all foldl] in *.
  split; [done|]. fold (mutate_all (mutate m b) ms). rewrite Hl, Ha, spec_step_lookup. unfold updates_of. rewrite filter_cons.
  by case_bool_decide; case_decide.
Qed.

Definition empty_builder : RunBuilder :=
  {| runID := "r1"; builder_basePath := "/runs"; runPath := "/runs/r1"; entities := []; b_components := []; toolsUsed := [] |}.

Definition some_type : ComponentType := {| type_Name := "perf"; SchemaVersion := "1.0.0" |}.

Definition interleaved : list mutation :=
  [MAddPending "tool/a" some_type; MAddPending "tool/b" some_type; MClear "tool/b"; MRemove "tool/a"; MRemovePending "tool/b"].

Lemma manifest_refines_entries_witness :
  NoDup (me_Path <$> m_Entries (buildManifest (mutate_all empty_builder interleaved))) /\
  (fun e => (me_ComponentType e, me_Pending e)) <$>
    List.find (fun e => bool_decide (me_Path e = "tool/b")) (m_Entries (buildManifest (mutate_all empty_builder interleaved))) =
  foldl (fun o m => spec_entry m o) (abs empty_builder !! "tool/b") (updates_of "tool/b" interleaved).
Proof.
  apply (manifest_refines_entries empty_builder interleaved "tool/b"); [constructor|].
  repeat split; refine (bool_decide_unpack _ _); vm_compute; exact I.
Defined.

Lemma manifest_on_disk_in_step_witness :
  let u := {| builder := empty_builder; on_disk := Some (buildManifest empty_builder) |} in
  let ops := (fun m => (m, @None string)) <$> interleaved in
  on_disk (run_updates u ops) = Some (buildManifest (builder (run_updates u ops))) /\
  builder (run_updates u ops) = mutate_all empty_builder (effective ops).
Proof. cbv zeta. apply (manifest_on_disk_in_step {| builder := empty_builder; on_disk := Some (buildManifest empty_builder) |}). reflexivity. Defined.

(** The outcome of one transfer's updates, whatever else happens. *)
Lemma transfer_outcomes t p o :
  foldl (fun o m => spec_entry m o) o [MAddPending p t; MClear p] = Some (t, false) /\
  foldl (fun o m => spec_entry m o) o [MAddPending p t; MRemove p] = None /\
  foldl (fun o m => spec_entry m o) o [MAddPending p t; MRemovePending p] = None.
Proof. done. Qed.

(** ** Two transfers to the same path *)

Lemma remove_first_app p cs c : p ∉ path_of <$> cs -> path_of c = p -> forall rest, remove_first p (cs ++ c :: rest) = cs ++ rest.
Proof.
  intros Hp Hc rest. induction cs as [|d cs IH]; cbn.
  - by rewrite bool_decide_true.
  - rewrite bool_decide_false by set_solver. f_equal. apply IH. set_solver.
Qed.

Lemma clear_first_app p cs c : p ∉ path_of <$> cs -> path_of c = p -> Pending c = true ->
  clear_first p (cs ++ [c]) = cs ++ [{| component := component c; Pending := false |}].
Proof.
  intros Hp Hc Hpend. induction cs as [|d cs IH]; cbn.
  - by rewrite bool_decide_true, Hpend.
  - rewrite bool_decide_false by set_solver. cbn. f_equal. apply IH. set_solver.
Qed.

(** When a second transfer to a path that is already listed as complete fails, the
    complete entry is removed and the pending entry of the failed transfer stays; removing
    pending entries leaves it as well, since it looks at the first entry only. *)
Theorem failed_duplicate_loses_complete_entry b p t :
  let q := NormalizePath p in
  q ∉ path_of <$> b_components b ->
  let again := mutate_all b [MAddPending p t; MClear p; MAddPending p t] in
  (status_of <$> b_components (mutate (MRemove p) again)) = (status_of <$> b_components b) ++ [(q, (t, true))] /\
  b_components (mutate (MRemovePending p) again) = b_components again /\
  (status_of <$> b_components again) = (status_of <$> b_components b) ++ [(q, (t, false)); (q, (t, true))].
Proof.
  intros q Hq again. cbn [mutate_all foldl mutate] in again.
  destruct (addComponent_components b t p true) as (c1 & Hb1 & Hc1). assert (path_of c1 = q) as Hp1 by exact (f_equal fst Hc1).
  assert (b_components (ClearPending (AddPendingComponent b t p) p) = b_components b ++ [{| component := component c1; Pending := false |}]) as Hb2.
  { unfold ClearPending, AddPendingComponent. cbn [set_components b_components]. rewrite Hb1. apply clear_first_app; [done..|].
    exact (f_equal (snd ∘ snd) Hc1). }
  destruct (addComponent_components (ClearPending (AddPendingComponent b t p) p) t p true) as (c3 & Hb3 & Hc3).
  rewrite Hb2, <- app_assoc in Hb3. cbn [app] in Hb3.
  change (addComponent (ClearPending (AddPendingComponent b t p) p) t p true) with again in Hb3. clearbody again.
  assert (status_of {| component := component c1; Pending := false |} = (q, (t, false))) as Hs.
  { unfold status_of, path_of in *. cbn. injection Hc1 as -> -> _. done. }
  split_and!.
  - unfold mutate, RemoveComponent. cbn [set_components b_components]. rewrite Hb3, remove_first_app by done.
    rewrite fmap_app. cbn. by rewrite Hc3.
  - unfold mutate. assert (IsComponentPending again p = false) as ->; [|done].
    unfold IsComponentPending. rewrite Hb3. clear Hb1 Hb2 Hb3 again. induction (b_components b) as [|d cs IH]; cbn in *.
    + by rewrite bool_decide_true.
    + rewrite bool_decide_false by set_solver. apply IH. set_solver.
  - rewrite Hb3, fmap_app. cbn [fmap list_fmap]. by rewrite Hs, Hc3.
Qed.

Lemma failed_duplicate_loses_complete_entry_witness :
  let again := mutate_all empty_builder [MAddPending "a" some_type; MClear "a"; MAddPending "a" some_type] in
  (status_of <$> b_components (mutate (MRemove "a") again)) = [] ++ [(NormalizePath "a", (some_type, true))] /\
  b_components (mutate (MRemovePending "a") again) = b_components again /\
  (status_of <$> b_components again) = [] ++ [(NormalizePath "a", (some_type, false)); (NormalizePath "a", (some_type, true))].
Proof. apply (failed_duplicate_loses_complete_entry empty_builder "a" some_type). apply not_elem_of_nil. Defined.

(** ** The entities of the components *)

(** A component of a path that is written as it is stored. *)
Definition plain (c : string) : Prop := component_ok c /\ c <> ".." /\ byte_free "\" c = true.

Lemma plain_ok l : Forall plain l -> Forall component_ok l.
Proof. intros Hl. eapply Forall_impl; [exact Hl|]. by intros c [? _]. Qed.

Lemma plain_free l : Forall plain l -> Forall (fun w => byte_free "/" w = true) l.
Proof. intros Hl. eapply Forall_impl; [exact Hl|]. by intros c [(_ & _ & ?) _]. Qed.

Lemma plain_no_parent l : Forall plain l -> ".." ∉ l.
Proof. intros Hl Hp. rewrite Forall_forall in Hl. by destruct (Hl _ Hp) as (_ & ? & _). Qed.

Lemma plain_rooted l : Forall plain l -> HasPrefix (Join "/" l) "/" = false.
Proof.
  intros Hl. destruct l as [|c l]; [done|]. apply Join_first; [by apply plain_ok|].
  apply Forall_cons in Hl as [[_ [? _]] _]. done.
Qed.

Lemma plain_Split l : l <> [] -> Forall plain l -> Split "/" (Join "/" l) = l.
Proof. intros Hne Hl. apply (Split_Join "/"); [done|by apply plain_free]. Qed.

(** Cleaning a path whose components, empty ones aside, are plain. *)
Lemma clean_plain p l : l <> [] -> Forall plain l -> HasPrefix p "/" = false -> ".." ∉ Split "/" p -> names (Split "/" p) = l ->
  Clean p = Join "/" l.
Proof.
  intros Hne Hl Hp Hup Hn. assert (components p = l) as Hc.
  { unfold components. rewrite Hp, clean_no_parent by done. exact Hn. }
  rewrite Clean_text, Hp, Hc by congruence. apply sapp_nil_l.
Qed.

Lemma names_app a b : names (a ++ b) = names a ++ names b.
Proof. apply filter_app. Qed.

Lemma Clean_Join l : l <> [] -> Forall plain l -> Clean (Join "/" l) = Join "/" l.
Proof.
  intros Hne Hl. apply clean_plain; [done|done|by apply plain_rooted| |]; rewrite plain_Split by done;
    [by apply plain_no_parent|by apply names_ok_id, plain_ok].
Qed.

Lemma ForceToSlash_free s : byte_free "\" s = true -> ForceToSlash s = s.
Proof.
  unfold ForceToSlash. induction s as [|c s IH]; [done|]. cbn. intros [Hc Hs]%andb_true_iff. rewrite IH by done.
  by destruct (Ascii.eqb c "\").
Qed.

Lemma ForceToSlash_Join l : Forall plain l -> ForceToSlash (Join "/" l) = Join "/" l.
Proof.
  intros Hl. apply ForceToSlash_free. induction Hl as [|c l (_ & _ & Hc) _ IH]; [done|].
  destruct l as [|d l]; [done|]. change (byte_free "\" (c +:+ "/" +:+ Join "/" (d :: l)) = true).
  unfold byte_free in *. by rewrite !sall_app, Hc, IH.
Qed.

Lemma HasSuffix_slash_Join l : Forall plain l -> l <> [] -> HasSuffix (Join "/" l) "/" = false.
Proof.
  intros Hl Hne. apply not_true_iff_false. intros (u & Hu)%suffix_spec.
  pose proof (plain_Split l Hne Hl) as Hs. rewrite Hu in Hs. change (u +:+ "/") with (u +:+ String "/" EmptyString) in Hs.
  rewrite Split_app in Hs. pose proof (plain_ok l Hl) as Hok. rewrite <- Hs in Hok. apply Forall_app in Hok as [_ Hok].
  apply Forall_cons in Hok as [(? & _) _]. done.
Qed.

Lemma NormalizePath_plain p l : l <> [] -> Forall plain l -> Clean p = Join "/" l -> NormalizePath p = Join "/" l.
Proof.
  intros Hne Hl Hc. unfold NormalizePath. rewrite Hc, ForceToSlash_Join, plain_rooted, HasSuffix_slash_Join by done. done.
Qed.

Lemma NormalizePath_Join l : l <> [] -> Forall plain l -> NormalizePath (Join "/" l) = Join "/" l.
Proof. intros. apply NormalizePath_plain; [done|done|by apply Clean_Join]. Qed.

Lemma plain_nonempty l : l <> [] -> Forall plain l -> Join "/" l <> EmptyString.
Proof.
  intros Hne Hl He. pose proof (plain_Split l Hne Hl) as Hs. rewrite He in Hs. cbn in Hs.
  rewrite <- Hs in Hl. by apply Forall_cons in Hl as [[(? & _) _] _].
Qed.

Lemma JoinPath_snoc l c : Forall plain (l ++ [c]) -> JoinPath [Join "/" l; c] = Join "/" (l ++ [c]).
Proof.
  intros Hl. pose proof Hl as [Hp Hc]%Forall_app. assert (c <> EmptyString) as Hce by (by apply Forall_cons in Hc as [[(? & _) _] _]).
  unfold JoinPath. destruct (decide (l = [])) as [->|Hne].
  - rewrite filter_cons_False by (cbn; by intros []). rewrite filter_cons_True by done. apply (Clean_Join [c]); done.
  - rewrite filter_cons_True by (by apply plain_nonempty). rewrite filter_cons_True by done. cbn [filter list_filter].
    change (Clean (Join "/" l +:+ "/" +:+ Join "/" [c]) = Join "/" (l ++ [c])).
    rewrite <- Join_app by done. apply Clean_Join; [by destruct l|done].
Qed.

Lemma split_dir_app a b : byte_free "/" b = true -> split_dir (a +:+ String "/" b) = a +:+ "/".
Proof.
  intros Hb. unfold split_dir, LastIndex, slice. rewrite last_index_from_app by done. cbn [sdrop Z.to_nat].
  replace (Z.to_nat (0 + Z.of_nat (String.length a) + 1)) with (String.length (a +:+ "/")) by (rewrite slength_app; cbn; lia).
  change (String "/" b) with ("/" +:+ b). rewrite <- sapp_assoc. apply stake_prefix.
Qed.

(** The directories above a file, up to the first with a wildcard. *)
Definition directories (dirs : list string) : list string :=
  let n := default (length dirs) (find_index is_wildcard dirs) in
  (fun k => Join "/" (take k dirs)) <$> seq 1 n.

Lemma prefixes_cons pre d dirs n e :
  (exists k, (1 <= k <= S n)%nat /\ e = {| entity_path := Join "/" (pre ++ take k (d :: dirs)) |}) <->
  e = {| entity_path := Join "/" (pre ++ [d]) |} \/
  exists k, (1 <= k <= n)%nat /\ e = {| entity_path := Join "/" ((pre ++ [d]) ++ take k dirs) |}.
Proof.
  split.
  - intros ([|[|k]] & Hk & ->); [lia|by left|right]. exists (S k). split; [lia|]. by rewrite <- app_assoc.
  - intros [-> | (k & Hk & ->)]; [exists 1%nat; split; [lia|done]|]. exists (S k). split; [lia|]. by rewrite <- app_assoc.
Qed.

Lemma add_dirs_spec done dirs es : Forall plain (done ++ dirs) ->
  let es' := add_dirs (Join "/" done) dirs es in
  let n := default (length dirs) (find_index is_wildcard dirs) in
  (NoDup es -> NoDup es') /\
  forall e, e ∈ es' <-> e ∈ es \/ exists k, (1 <= k <= n)%nat /\ e = {| entity_path := Join "/" (done ++ take k dirs) |}.
Proof.
  revert done es. induction dirs as [|d dirs IH]; intros pre es Hl; cbn [add_dirs find_index length].
  { cbn. split; [done|]. intros e. split; [by left|]. intros [?|(k & ? & _)]; [done|lia]. }
  destruct (is_wildcard d) eqn:Hd.
  { cbn. split; [done|]. intros e. split; [by left|]. intros [?|(k & ? & _)]; [done|lia]. }
  assert (Forall plain (pre ++ [d])) as Hpd.
  { rewrite Forall_app in *. destruct Hl as [? [? _]%Forall_cons]. split; [done|by constructor]. }
  assert (Forall plain ((pre ++ [d]) ++ dirs)) as Hl' by (by rewrite <- app_assoc).
  rewrite JoinPath_snoc, NormalizePath_Join by (done || by destruct pre).
  set (e0 := {| entity_path := Join "/" (pre ++ [d]) |}).
  assert (ContainsEntity es (Join "/" (pre ++ [d])) = bool_decide (e0 ∈ es)) as ->.
  { unfold ContainsEntity. rewrite NormalizePath_Join by (done || by destruct pre). done. }
  destruct (IH (pre ++ [d]) (if bool_decide (e0 ∈ es) then es else es ++ [e0]) Hl') as [Hnd He]. split.
  - intros Hes. apply Hnd. case_bool_decide; [done|]. apply NoDup_app. split; [done|]. split; [|apply NoDup_singleton].
    intros x Hx Hx'%list_elem_of_singleton. by subst.
  - intros e. rewrite He. assert (e ∈ (if bool_decide (e0 ∈ es) then es else es ++ [e0]) <-> e ∈ es \/ e = e0) as ->.
    { case_bool_decide; [naive_solver|]. rewrite elem_of_app, list_elem_of_singleton. done. }
    set (n := default (length dirs) (find_index is_wildcard dirs)).
    assert (default (S (length dirs)) (S <$> find_index is_wildcard dirs) = S n) as ->.
    { unfold n. by destruct (find_index is_wildcard dirs). }
    rewrite prefixes_cons. fold e0. tauto.
Qed.

(** Adding a component of a file lists each directory above it as an entity, down to the
    first one with a wildcard; it lists no entity twice, and no entity is lost or invented. *)
Theorem component_directories_are_entities b t dirs file pending :
  Forall plain (dirs ++ [file]) ->
  let b' := addComponent b t (Join "/" (dirs ++ [file])) pending in
  (NoDup (entities b) -> NoDup (entities b')) /\
  forall e, e ∈ entities b' <-> e ∈ entities b \/ exists p, p ∈ directories dirs /\ e = {| entity_path := p |}.
Proof.
  intros Hl b'. assert (entities b' = add_dirs EmptyString dirs (entities b)) as ->.
  { unfold b', addComponent. cbn [set_components entities]. pose proof Hl as [Hd Hf]%Forall_app.
    assert (byte_free "/" file = true) as Hfree by (by apply Forall_cons in Hf as [[(_ & _ & ?) _] _]).
    rewrite NormalizePath_Join by (done || by destruct dirs). destruct (decide (dirs = [])) as [->|Hne].
    - cbn [app Join add_dirs]. unfold split_dir, LastIndex. rewrite last_index_from_free by done. done.
    - rewrite Join_app by done. change ("/" +:+ Join "/" [file]) with (String "/" file). rewrite split_dir_app by done.
      unfold AddEntity. rewrite bool_decide_false by (destruct (Join "/" dirs); discriminate). cbn [set_entities entities].
      rewrite (NormalizePath_plain _ dirs), plain_Split; [done..|].
      apply clean_plain; [done|done| | |].
      + pose proof (plain_rooted dirs Hd) as Hr. pose proof (plain_nonempty dirs Hne Hd).
        destruct (Join "/" dirs) as [|c s]; [done|]. apply not_true_iff_false. intros [r Hs]%prefix_spec. injection Hs as -> _.
        apply not_true_iff_false in Hr. destruct Hr. exact (prefix_app "/" s).
      + change (Join "/" dirs +:+ "/") with (Join "/" dirs +:+ String "/" EmptyString). rewrite Split_app, plain_Split by done.
        intros [?|Hx]%elem_of_app; [by apply (plain_no_parent dirs)|]. by apply list_elem_of_singleton in Hx.
      + change (Join "/" dirs +:+ "/") with (Join "/" dirs +:+ String "/" EmptyString). rewrite Split_app, plain_Split by done.
        rewrite names_app. rewrite names_ok_id by (by apply plain_ok). apply app_nil_r. }
  destruct (add_dirs_spec [] dirs (entities b)) as [Hnd He]; [by apply Forall_app in Hl as [? _]|].
  split; [exact Hnd|]. intros e. rewrite He. unfold directories. apply or_iff_compat_l. split.
  - intros (k & Hk & ->). eexists. split; [|done]. apply list_elem_of_fmap. exists k. rewrite elem_of_seq. split; [done|lia].
  - intros (p & (k & -> & Hk)%list_elem_of_fmap & ->). exists k. rewrite elem_of_seq in Hk. split; [lia|done].
Qed.

Lemma component_directories_are_entities_witness :
  let b' := addComponent empty_builder some_type (Join "/" (["tool"; "perf"; "*"] ++ ["x.csv"])) true in
  (NoDup (entities empty_builder) -> NoDup (entities b')) /\
  forall e, e ∈ entities b' <-> e ∈ entities empty_builder \/ exists p, p ∈ directories ["tool"; "perf"; "*"] /\ e = {| entity_path := p |}.
Proof.
  apply component_directories_are_entities. repeat constructor; try done; vm_compute; done.
Defined.

(** ** Recovery *)

(** Recovery of an interrupted run: nothing is written exactly when nothing is pending, and
    otherwise the entries that are left are those that were complete, in their order. *)
Lemma recovery_keeps_complete m :
  (RemovePendingManifestEntries m = None <-> Forall (fun e => me_Pending e = false) (m_Entries m)) /\
  forall m', RemovePendingManifestEntries m = Some m' ->
    m_Entries m' = filter (fun e => me_Pending e = false) (m_Entries m) /\ m_ToolsUsed m' = m_ToolsUsed m.
Proof.
  unfold RemovePendingManifestEntries. destruct (existsb me_Pending (m_Entries m)) eqn:He; split.
  - split; [done|]. rewrite Forall_forall. intros Hf. apply existsb_elem_of in He as (e & Hin & Hp). rewrite Hf in Hp; done.
  - intros m' [= <-]. cbn. split; [|done]. clear He. induction (m_Entries m) as [|e l IH]; [done|]. rewrite filter_cons. cbn.
    destruct (me_Pending e); cbn; [by rewrite decide_False|rewrite decide_True by done; by rewrite IH].
  - split; [intros _|done]. rewrite Forall_forall. intros e Hin. destruct (me_Pending e) eqn:Hp; [|done].
    assert (existsb me_Pending (m_Entries m) = true) by (apply existsb_elem_of; by exists e). congruence.
  - done.
Qed.
