(* ===== verification/Disk.v ===== *)
(** * Performix: the disk

    What the sources use of [os] and [filepath] on directories and files: a disk maps absolute
    paths, as lists of components, to files and directories. Which operations the disk refuses
    is a parameter of every operation that changes it. Links, permissions and open files are
    left out. *)

From S2P Require Import Prelude.
From S2P Require Import GoStrings.
From S2P Require Import Sorting.
From S2P Require Import FilePaths.
From Stdlib Require Import Ascii.

(** ** Paths and nodes *)

Notation path := (list string).

Inductive node := NFile (content : string) | NDir.

#[export] Instance node_eq_dec : EqDecision node.
Proof. solve_decision. Defined.

Notation disk := (gmap (list string) node).

(** The root is always there. *)
Definition node_at (d : disk) (p : path) : option node := match p with [] => Some NDir | _ => d !! p end.

Definition is_dir (d : disk) (p : path) : bool := bool_decide (node_at d p = Some NDir).

(** [util.PathExists], of which only absence is an error that is looked at. *)
Definition PathExists (d : disk) (p : string) : bool := bool_decide (is_Some (node_at d (components p))).

Definition parent (p : path) : path := removelast p.

(** What a disk refuses: to create an entry, and to write a file beyond some of its content. *)
Record faults := { refuses : path -> bool; cut_short : path -> option string }.

Definition no_faults : faults := {| refuses := fun _ => false; cut_short := fun _ => None |}.

(** ** Creating *)

(** [os.MkdirAll] below a directory that is there; the flag says whether it succeeds. *)
Fixpoint mkdir_from (f : faults) (done rest : path) (d : disk) : disk * bool :=
  match rest with
  | [] => (d, true)
  | c :: rest' =>
      let p := done ++ [c] in
      match d !! p with
      | Some NDir => mkdir_from f p rest' d
      | Some (NFile _) => (d, false)
      | None => if refuses f p then (d, false) else mkdir_from f p rest' (<[p := NDir]> d)
      end
  end.

Definition MkdirAll (f : faults) (p : path) (d : disk) : disk * bool := mkdir_from f [] p d.

(** [os.Mkdir] *)
Definition Mkdir (f : faults) (p : path) (d : disk) : disk * bool :=
  if is_dir d (parent p) && bool_decide (node_at d p = None) && negb (refuses f p) then (<[p := NDir]> d, true) else (d, false).

(** Opening a file to write it, creating it when it is absent, and writing the content:
    without [truncate], what is beyond the content stays. *)
Definition write_file (f : faults) (truncate : bool) (p : path) (content : string) (d : disk) : disk * bool :=
  if negb (is_dir d (parent p)) then (d, false)
  else
    match node_at d p with
    | Some NDir => (d, false)
    | found =>
        let old := match found with Some (NFile c) => if truncate then EmptyString else c | _ => EmptyString end in
        if bool_decide (found = None) && refuses f p then (d, false)
        else
          let '(written, ok) := match cut_short f p with Some part => (part, false) | None => (content, true) end in
          (<[p := NFile (written +:+ sdrop (String.length written) old)]> d, ok)
    end.

Definition WriteFile (f : faults) := write_file f true.

(** ** Removing and moving *)

(** [os.RemoveAll] *)
Definition RemoveAll (p : path) (d : disk) : disk := filter (fun kv => ~ p `prefix_of` kv.1) d.

(** What is below a path, by the components from there. *)
Definition below_path (p : path) (d : disk) : disk :=
  list_to_map (omap (fun kv => if decide (p `prefix_of` kv.1) then Some (drop (length p) kv.1, kv.2) else None) (map_to_list d)).

(** [os.Rename], which in Go fails when the new name is a directory. *)
Definition Rename (f : faults) (old new : path) (d : disk) : disk * bool :=
  match node_at d old with
  | None => (d, false)
  | Some n =>
      if negb (is_dir d (parent new)) || is_dir d new || bool_decide (old `prefix_of` new) || refuses f new
         || (bool_decide (n = NDir) && bool_decide (is_Some (node_at d new)))
      then (d, false)
      else (kmap (app new) (below_path old d) ∪ RemoveAll new (RemoveAll old d), true)
  end.

(** ** Listing *)

(** Directories before what is in them, and names in order. *)
Fixpoint path_compare (p q : path) : comparison :=
  match p, q with
  | [], [] => Eq
  | [], _ => Lt
  | _, [] => Gt
  | x :: p', y :: q' => match String.compare x y with Eq => path_compare p' q' | r => r end
  end.

Definition entry_compare (a b : path * node) : comparison := path_compare a.1 b.1.

#[export] Instance entry_order : Order entry_compare.
Proof.
  unfold entry_compare. split.
  - intros [a ?] [b ?]. cbn. revert b. induction a as [|x a IH]; intros [|y b]; cbn; [done..|].
    destruct (String.compare x y) eqn:E; rewrite String.compare_antisym, E; cbn; [apply IH|done..].
  - intros [x ?] [y ?] [z ?]. unfold not_after. cbn. revert y z.
    induction x as [|a x IH]; intros [|b y] [|c z]; cbn; try done.
    pose proof (order_trans (c := asc_string id) a b c) as Ht. unfold not_after, asc_string, id in Ht.
    pose proof (fun u v => String.compare_eq_iff u v) as He.
    destruct (String.compare a b) eqn:E1; try done.
    + apply He in E1 as ->. destruct (String.compare b c) eqn:E2; try done. intros Hxy Hyz. by apply (IH y z).
    + destruct (String.compare b c) eqn:E2; try done.
      * apply He in E2 as ->. by rewrite E1.
      * intros _ _. destruct (String.compare a c) eqn:E3; try done.
        -- apply He in E3 as ->. rewrite String.compare_antisym, E2 in E1. done.
        -- by destruct Ht.
Qed.

(** The paths and nodes that [filepath.Walk] visits. *)
Definition walk (p : path) (d : disk) : list (path * node) :=
  merge_sort (not_after entry_compare) (map_to_list (filter (fun kv => p `prefix_of` kv.1) d)).

(** The names that [os.ReadDir] returns. *)
Definition ReadDir (p : path) (d : disk) : option (list (string * node)) :=
  if is_dir d p then
    Some (omap (fun kv => match drop (length p) kv.1 with [c] => Some (c, kv.2) | _ => None end) (walk p d))
  else None.

(** ** Joining paths *)

Lemma parent_prefix (p : path) : parent p `prefix_of` p.
Proof. unfold parent. destruct p as [|x p] using rev_ind; [done|]. rewrite removelast_last. by eexists. Qed.

Lemma components_slash a r : a <> EmptyString ->
  components (a +:+ String "/" r) = clean_components (HasPrefix a "/") (reverse (components a)) (Split "/" r).
Proof.
  intros Ha. unfold components. assert (HasPrefix (a +:+ String "/" r) "/" = HasPrefix a "/") as ->.
  { destruct a as [|c a]; [done|]. rewrite sapp_cons. cbn. by destruct a. }
  by rewrite Split_app, clean_components_app.
Qed.

Lemma JoinPath_pair a r : a <> EmptyString -> r <> EmptyString -> JoinPath [a; r] = Clean (a +:+ String "/" r).
Proof. intros Ha Hr. unfold JoinPath. by rewrite !filter_cons_True by done. Qed.

Lemma JoinPath_triple a b r : a <> EmptyString -> b <> EmptyString -> r <> EmptyString ->
  JoinPath [a; b; r] = Clean (a +:+ String "/" (b +:+ String "/" r)).
Proof. intros Ha Hb Hr. unfold JoinPath. by rewrite !filter_cons_True by done. Qed.

Lemma JoinPath_rooted a r : HasPrefix a "/" = true -> HasPrefix (JoinPath [a; r]) "/" = true.
Proof.
  intros Ha. assert (a <> EmptyString) as Hne by (by intros ->). unfold JoinPath. rewrite filter_cons_True by done.
  destruct (decide (r = EmptyString)) as [->|Hr].
  - rewrite filter_cons_False by (by intros H). by rewrite Clean_rooted.
  - rewrite filter_cons_True by done. rewrite Clean_rooted. cbn [Join]. destruct a as [|c a]; [done|]. rewrite sapp_cons. cbn. by destruct a.
Qed.

(** A name as [os.ReadDir] gives it. *)
Definition plain_name (c : string) : Prop := component_ok c /\ c <> "..".

#[export] Instance plain_name_dec c : Decision (plain_name c).
Proof. unfold plain_name, component_ok. apply _. Defined.

Lemma plain_name_nonempty c : plain_name c -> c <> EmptyString.
Proof. by intros [[? _] _]. Qed.

Lemma components_names rooted stack l : Forall plain_name l -> clean_components rooted stack l = reverse stack ++ l.
Proof.
  intros Hl. rewrite clean_no_parent.
  - rewrite names_ok_id; [done|]. eapply Forall_impl; [exact Hl|]. by intros c [? _].
  - intros Hin. rewrite Forall_forall in Hl. by destruct (Hl _ Hin).
Qed.

Lemma plain_name_Split c : plain_name c -> Split "/" c = [c].
Proof. intros [(_ & _ & Hf) _]. by apply Split_byte_free. Qed.

Lemma components_child a c : a <> EmptyString -> plain_name c -> components (JoinPath [a; c]) = components a ++ [c].
Proof.
  intros Ha Hc. rewrite JoinPath_pair, components_Clean, components_slash, plain_name_Split by (done || by apply plain_name_nonempty).
  rewrite components_names by (by constructor). by rewrite reverse_involutive.
Qed.

Lemma components_grandchild a b c : a <> EmptyString -> plain_name b -> plain_name c ->
  components (JoinPath [a; b; c]) = components a ++ [b; c].
Proof.
  intros Ha Hb Hc. rewrite JoinPath_triple, components_Clean, components_slash by (done || by apply plain_name_nonempty).
  rewrite Split_app, !plain_name_Split by done. cbn [app]. rewrite components_names by (by repeat constructor; try apply Hb; try apply Hc).
  by rewrite reverse_involutive.
Qed.

Lemma IsChildPath_child a c : HasPrefix a "/" = true -> plain_name c -> IsChildPath a (JoinPath [a; c]) = true.
Proof.
  intros Ha Hc. assert (a <> EmptyString) as Hne by (by intros ->). apply IsChildPath_spec. split.
  - by rewrite Ha, JoinPath_rooted.
  - exists c, []. split; [by apply components_child|apply Hc].
Qed.

(** ** What the operations change *)

(** Entries are only added, at paths in [P]. *)
Definition adds (P : path -> Prop) (d d' : disk) : Prop := forall p, d' !! p = d !! p \/ d !! p = None /\ P p.

#[export] Instance adds_preorder P : PreOrder (adds P).
Proof.
  split; [by left|]. intros d1 d2 d3 H1 H2 p. destruct (H2 p) as [-> |[Hn Hp]]; [apply H1|].
  right. split; [|done]. destruct (H1 p) as [<-|[? _]]; [done..].
Qed.

Lemma adds_weaken (P Q : path -> Prop) d d' : (forall p, P p -> Q p) -> adds P d d' -> adds Q d d'.
Proof. intros HPQ H p. destruct (H p) as [?|[? ?]]; [by left|right; auto]. Qed.

Lemma adds_insert (P : path -> Prop) d p n : d !! p = None -> P p -> adds P d (<[p := n]> d).
Proof. intros Hn Hp q. destruct (decide (q = p)) as [->|]; [by right|left; by rewrite lookup_insert_ne]. Qed.

Lemma adds_kept P d d' p n : adds P d d' -> d !! p = Some n -> d' !! p = Some n.
Proof. intros H Hp. destruct (H p) as [-> |[? _]]; [done|congruence]. Qed.

Lemma adds_node_at P d d' p n : adds P d d' -> node_at d p = Some n -> node_at d' p = Some n.
Proof. destruct p; [done|]. apply adds_kept. Qed.

Lemma is_dir_true d p : is_dir d p = true <-> node_at d p = Some NDir.
Proof. apply bool_decide_eq_true. Qed.

Lemma mkdir_from_adds f rest : forall done d, let '(d', ok) := mkdir_from f done rest d in
  adds (fun p => p <> [] /\ p `prefix_of` done ++ rest) d d' /\
  (ok = true -> forall q, q `prefix_of` rest -> q <> [] -> d' !! (done ++ q) = Some NDir).
Proof.
  induction rest as [|c rest IH]; intros done d; cbn [mkdir_from].
  { split; [done|]. intros _ q Hq%prefix_nil_inv. done. }
  specialize (IH (done ++ [c])). rewrite <- app_assoc in IH. cbn [app] in IH.
  assert (forall d', adds (fun p => p <> [] /\ p `prefix_of` done ++ c :: rest) d d' -> d' !! (done ++ [c]) = Some NDir ->
    let '(d'', ok) := mkdir_from f (done ++ [c]) rest d' in
    adds (fun p => p <> [] /\ p `prefix_of` done ++ c :: rest) d d'' /\
    (ok = true -> forall q, q `prefix_of` c :: rest -> q <> [] -> d'' !! (done ++ q) = Some NDir)) as Hgo.
  { intros d' Ha Hd. specialize (IH d'). destruct (mkdir_from f (done ++ [c]) rest d') as [d'' ok]. destruct IH as [Ha' Hok].
    split; [by etransitivity|]. intros Ho q Hq Hne. destruct q as [|x q]; [done|].
    apply prefix_cons_inv_1 in Hq as Hx. subst x. apply prefix_cons_inv_2 in Hq. destruct q as [|y q]; [by eapply adds_kept|].
    specialize (Hok Ho (y :: q) Hq ltac:(done)). by rewrite <- app_assoc in Hok. }
  destruct (d !! (done ++ [c])) as [[|]|] eqn:Hc.
  - split; [done|discriminate].
  - by apply Hgo.
  - destruct (refuses f (done ++ [c])); [split; [done|discriminate]|]. apply Hgo; [|apply lookup_insert_eq].
    apply adds_insert; [done|]. split; [by destruct done|]. exists rest. by rewrite <- app_assoc.
Qed.

Lemma MkdirAll_adds f p d : let '(d', ok) := MkdirAll f p d in
  adds (fun q => q <> [] /\ q `prefix_of` p) d d' /\ (ok = true -> forall q, q `prefix_of` p -> is_dir d' q = true).
Proof.
  pose proof (mkdir_from_adds f p [] d) as H. unfold MkdirAll. destruct (mkdir_from f [] p d) as [d' ok].
  destruct H as [Ha Hok]. split; [done|]. intros Ho q Hq. apply is_dir_true. destruct q as [|x q]; [done|]. by apply (Hok Ho).
Qed.

(** Directories that are there are passed. *)
Lemma mkdir_from_dirs f l d rest : forall made, (forall q, q `prefix_of` made ++ rest -> is_dir d q = true) ->
  mkdir_from f made (rest ++ l) d = mkdir_from f (made ++ rest) l d.
Proof.
  induction rest as [|x rest IH]; intros made Hd; [by rewrite app_nil_r|]. cbn [app mkdir_from].
  rewrite cons_middle, app_assoc in Hd. assert (is_dir d (made ++ [x]) = true) as Hx by (apply Hd; by exists rest).
  apply is_dir_true in Hx. unfold node_at in Hx. destruct (made ++ [x]) eqn:Ed; [by destruct made|]. rewrite <- Ed in *. rewrite Hx, IH by done.
  by rewrite Ed, <- Ed, <- app_assoc.
Qed.

Lemma MkdirAll_last f p c d : (forall q, q `prefix_of` p -> is_dir d q = true) -> d !! (p ++ [c]) = None -> refuses f (p ++ [c]) = false ->
  MkdirAll f (p ++ [c]) d = (<[p ++ [c] := NDir]> d, true).
Proof. intros Hp Hn Hr. unfold MkdirAll. rewrite mkdir_from_dirs by done. cbn [app mkdir_from]. by rewrite Hn, Hr. Qed.

Lemma MkdirAll_done f p d : (forall q, q `prefix_of` p -> is_dir d q = true) -> MkdirAll f p d = (d, true).
Proof. intros Hp. unfold MkdirAll. rewrite <- (app_nil_r p). by rewrite mkdir_from_dirs. Qed.

(** A new file. *)
Lemma write_new f t p content d d' ok : node_at d p = None -> write_file f t p content d = (d', ok) ->
  adds (eq p) d d' /\ (ok = true -> d' = <[p := NFile content]> d /\ is_dir d (parent p) = true).
Proof.
  unfold write_file. intros Hn. rewrite Hn. destruct (is_dir d (parent p)); cbn [negb]; [|by intros [= <- <-]].
  assert (d !! p = None) as Hn' by (by destruct p). rewrite bool_decide_true by done. cbn [andb].
  destruct (refuses f p); [by intros [= <- <-]|].
  assert (forall n, adds (eq p) d (<[p := n]> d)) as Ha by (intros n; by apply adds_insert).
  assert (forall w, w +:+ sdrop (String.length w) EmptyString = w) as Hw by (intros w; by destruct (String.length w); rewrite sapp_nil_r).
  destruct (cut_short f p) as [part|]; intros [= <- <-]; (split; [apply Ha|]); [discriminate|]. by rewrite Hw.
Qed.

(** Writing a file changes at most this file. *)
Lemma write_file_spec f t p content d d' ok : write_file f t p content d = (d', ok) ->
  d' = d /\ ok = false \/ exists w, d' = <[p := NFile w]> d /\ (ok = true -> t = true -> w = content).
Proof.
  unfold write_file. destruct (negb (is_dir d (parent p))); [intros [= <- <-]; by left|].
  assert (forall w, w +:+ sdrop (String.length w) EmptyString = w) as Hw by (intros w; by destruct (String.length w); rewrite sapp_nil_r).
  destruct (node_at d p) as [[old|]|]; [|intros [= <- <-]; by left|]; destruct (_ && refuses f p); try (intros [= <- <-]; by left);
    (destruct (cut_short f p) as [part|]; intros [= <- <-]; right; eexists; (split; [reflexivity|]); [discriminate|]); intros _ Ht; subst; try apply Hw.
Qed.

(** *** Moving *)

Lemma below_path_lookup p d q : below_path p d !! q = d !! (p ++ q).
Proof.
  apply option_eq. intros n. unfold below_path. rewrite <- elem_of_list_to_map.
  - rewrite list_elem_of_omap. split.
    + intros ([k m] & Hk & H). cbn in H. destruct (decide (p `prefix_of` k)) as [[r ->]|]; [|done]. injection H as <- <-.
      rewrite drop_app_length. by apply elem_of_map_to_list.
    + intros Hq. exists (p ++ q, n). split; [by apply elem_of_map_to_list|]. cbn. rewrite decide_True by (by exists q). by rewrite drop_app_length.
  - pose proof (NoDup_fst_map_to_list d) as Hnd. induction (map_to_list d) as [|[k m] l IH]; [constructor|].
    cbn [fmap list_fmap fst] in Hnd. apply NoDup_cons in Hnd as [Hk Hnd]. specialize (IH Hnd). cbn [omap list_omap fst snd].
    destruct (decide (p `prefix_of` k)) as [[r ->]|]; [|done]. rewrite drop_app_length. cbn [fmap list_fmap fst]. apply NoDup_cons. split; [|done].
    intros ([k' m'] & -> & ([k2 m2] & Hin & H)%list_elem_of_omap)%list_elem_of_fmap. cbn in H. destruct (decide (p `prefix_of` k2)) as [[r2 ->]|]; [|done].
    injection H as <- <-. rewrite drop_app_length in Hk. apply Hk. apply list_elem_of_fmap. by exists (p ++ r2, m2).
Qed.

Lemma RemoveAll_lookup p d q : RemoveAll p d !! q = if decide (p `prefix_of` q) then None else d !! q.
Proof.
  unfold RemoveAll. destruct (decide (p `prefix_of` q)).
  - apply map_lookup_filter_None. right. intros x _ H. by apply H.
  - destruct (d !! q) eqn:Hq; [by apply map_lookup_filter_Some|]. apply map_lookup_filter_None. by left.
Qed.

(** A successful move: what was below the old path is below the new one. *)
Lemma Rename_lookup f old new d d' : Rename f old new d = (d', true) ->
  (forall q, d' !! (new ++ q) = d !! (old ++ q)) /\
  (forall p, ~ new `prefix_of` p -> d' !! p = if decide (old `prefix_of` p) then None else d !! p).
Proof.
  unfold Rename. destruct (node_at d old) as [n|]; [|done].
  destruct (_ || _ || bool_decide (old `prefix_of` new) || _ || _) eqn:Hb; intros [= <-].
  apply orb_false_iff in Hb as [Hb _]. apply orb_false_iff in Hb as [Hb _]. apply orb_false_iff in Hb as [_ Hpre]. bool_to_prop.
  assert (forall q, (kmap (app new) (below_path old d) : disk) !! (new ++ q) = d !! (old ++ q)) as Hk.
  { intros q. rewrite <- (below_path_lookup old d q). apply lookup_kmap, _. }
  split.
  - intros q. rewrite lookup_union, Hk, RemoveAll_lookup, decide_True by (by exists q). by destruct (d !! (old ++ q)).
  - intros p Hp. rewrite lookup_union, RemoveAll_lookup, decide_False, RemoveAll_lookup by done.
    assert ((kmap (app new) (below_path old d) : disk) !! p = None) as ->; [|by destruct (if decide _ then _ else _)].
    apply lookup_kmap_None; [apply _|]. intros q ->. exfalso. apply Hp. by exists q.
Qed.

(** What a successful move needs. *)
Lemma Rename_true f old new d d' : Rename f old new d = (d', true) -> is_Some (node_at d old) /\ is_dir d new = false.
Proof.
  unfold Rename. destruct (node_at d old); [|done]. destruct (negb _); [done|]. cbn [orb]. destruct (is_dir d new); [done|]. by split.
Qed.

Lemma Rename_ok old new d : node_at d old = Some NDir -> is_dir d (parent new) = true -> node_at d new = None -> ~ old `prefix_of` new ->
  exists d', Rename no_faults old new d = (d', true).
Proof.
  intros Ho Hp Hn Hpre. unfold Rename, is_dir at 2. rewrite Ho, Hp, Hn, !bool_decide_false by (done || by intros []). cbn. by eexists.
Qed.

Lemma Rename_failed f old new d d' : Rename f old new d = (d', false) -> d' = d.
Proof. unfold Rename. destruct (node_at d old); [|by intros [= <-]]. destruct (_ || _); by intros [= <-]. Qed.

(** *** Listing *)

Lemma elem_of_walk p d k n : (k, n) ∈ walk p d <-> d !! k = Some n /\ p `prefix_of` k.
Proof. unfold walk. rewrite merge_sort_Permutation, elem_of_map_to_list, map_lookup_filter_Some. done. Qed.

Lemma walk_NoDup p d : NoDup (walk p d).*1.
Proof. unfold walk. rewrite merge_sort_Permutation. apply NoDup_fst_map_to_list. Qed.

Lemma walk_sorted p d : StronglySorted (not_after entry_compare) (walk p d).
Proof. apply (StronglySorted_merge_sort _). Qed.

(** A directory comes before what is in it. *)
Lemma path_compare_extension p q : q <> [] -> path_compare (p ++ q) p = Gt.
Proof.
  intros Hq. induction p as [|x p IH]; cbn; [by destruct q|].
  pose proof (order_refl (asc_string id) x) as Hx. unfold asc_string, id in Hx. by rewrite Hx.
Qed.
