(* ===== verification/RunFiles.v ===== *)
(** * Performix: the files of a run

    The metadata of [core/apap-engine/cdf/metadata.go] with the JSON text in which it is
    stored, and [ReadJSONFile] and [WriteJSONFile] of [util/json.go]. What [encoding/json] reads
    from a text is a parameter, with the law that it reads what was written. *)

From S2P Require Import Prelude.
From S2P Require Import GoStrings.
From S2P Require Import Json.
From S2P Require Import FilePaths.
From S2P Require Import Disk.
From S2P Require Import Model.
From S2P Require Import RunBuilder.
From Stdlib Require Import Ascii DecimalString DecimalN DecimalFacts.

Local Open Scope Z_scope.

(** ** Metadata *)

(** Times are their RFC 3339 texts; parameters, the environment and the target are their JSON
    texts. [None] is a nil pointer. *)
Record Metadata := {
  EngineVersion : string;
  md_Name : string;
  StartTime : string;
  EndTime : string;
  RecipeName : string;
  md_Parameters : string;
  WorkloadType : string;
  Cmdline : string;
  WorkingDir : string;
  Env : string;
  UseShell : bool;
  AndroidPackageName : string;
  AndroidActivityName : string;
  Pid : Z;
  Timeout : Z;
  md_RunResult : string;
  RunError : string;
  SizeBytes : option Z;
  TargetName : string;
  TargetConfig : string;
  SupportsStop : option bool
}.

#[export] Instance Metadata_eq_dec : EqDecision Metadata.
Proof. solve_decision. Defined.

(** [util.InvalidTime], as it is written. *)
Definition InvalidTime : string := "0001-01-01T00:00:00Z".

Definition with_result (r e : string) (m : Metadata) : Metadata :=
  {| EngineVersion := EngineVersion m; md_Name := md_Name m; StartTime := StartTime m; EndTime := EndTime m; RecipeName := RecipeName m;
     md_Parameters := md_Parameters m; WorkloadType := WorkloadType m; Cmdline := Cmdline m; WorkingDir := WorkingDir m; Env := Env m;
     UseShell := UseShell m; AndroidPackageName := AndroidPackageName m; AndroidActivityName := AndroidActivityName m; Pid := Pid m;
     Timeout := Timeout m; md_RunResult := r; RunError := e; SizeBytes := SizeBytes m; TargetName := TargetName m;
     TargetConfig := TargetConfig m; SupportsStop := SupportsStop m |}.

Definition with_end_time (t : string) (m : Metadata) : Metadata :=
  {| EngineVersion := EngineVersion m; md_Name := md_Name m; StartTime := StartTime m; EndTime := t; RecipeName := RecipeName m;
     md_Parameters := md_Parameters m; WorkloadType := WorkloadType m; Cmdline := Cmdline m; WorkingDir := WorkingDir m; Env := Env m;
     UseShell := UseShell m; AndroidPackageName := AndroidPackageName m; AndroidActivityName := AndroidActivityName m; Pid := Pid m;
     Timeout := Timeout m; md_RunResult := md_RunResult m; RunError := RunError m; SizeBytes := SizeBytes m; TargetName := TargetName m;
     TargetConfig := TargetConfig m; SupportsStop := SupportsStop m |}.

Definition with_name (name : string) (m : Metadata) : Metadata :=
  {| EngineVersion := EngineVersion m; md_Name := name; StartTime := StartTime m; EndTime := EndTime m; RecipeName := RecipeName m;
     md_Parameters := md_Parameters m; WorkloadType := WorkloadType m; Cmdline := Cmdline m; WorkingDir := WorkingDir m; Env := Env m;
     UseShell := UseShell m; AndroidPackageName := AndroidPackageName m; AndroidActivityName := AndroidActivityName m; Pid := Pid m;
     Timeout := Timeout m; md_RunResult := md_RunResult m; RunError := RunError m; SizeBytes := SizeBytes m; TargetName := TargetName m;
     TargetConfig := TargetConfig m; SupportsStop := SupportsStop m |}.

Definition with_working_dir (w : string) (m : Metadata) : Metadata :=
  {| EngineVersion := EngineVersion m; md_Name := md_Name m; StartTime := StartTime m; EndTime := EndTime m; RecipeName := RecipeName m;
     md_Parameters := md_Parameters m; WorkloadType := WorkloadType m; Cmdline := Cmdline m; WorkingDir := w; Env := Env m;
     UseShell := UseShell m; AndroidPackageName := AndroidPackageName m; AndroidActivityName := AndroidActivityName m; Pid := Pid m;
     Timeout := Timeout m; md_RunResult := md_RunResult m; RunError := RunError m; SizeBytes := SizeBytes m; TargetName := TargetName m;
     TargetConfig := TargetConfig m; SupportsStop := SupportsStop m |}.

Definition with_size (n : option Z) (m : Metadata) : Metadata :=
  {| EngineVersion := EngineVersion m; md_Name := md_Name m; StartTime := StartTime m; EndTime := EndTime m; RecipeName := RecipeName m;
     md_Parameters := md_Parameters m; WorkloadType := WorkloadType m; Cmdline := Cmdline m; WorkingDir := WorkingDir m; Env := Env m;
     UseShell := UseShell m; AndroidPackageName := AndroidPackageName m; AndroidActivityName := AndroidActivityName m; Pid := Pid m;
     Timeout := Timeout m; md_RunResult := md_RunResult m; RunError := RunError m; SizeBytes := n; TargetName := TargetName m;
     TargetConfig := TargetConfig m; SupportsStop := SupportsStop m |}.

Definition with_supports_stop (b : option bool) (m : Metadata) : Metadata :=
  {| EngineVersion := EngineVersion m; md_Name := md_Name m; StartTime := StartTime m; EndTime := EndTime m; RecipeName := RecipeName m;
     md_Parameters := md_Parameters m; WorkloadType := WorkloadType m; Cmdline := Cmdline m; WorkingDir := WorkingDir m; Env := Env m;
     UseShell := UseShell m; AndroidPackageName := AndroidPackageName m; AndroidActivityName := AndroidActivityName m; Pid := Pid m;
     Timeout := Timeout m; md_RunResult := md_RunResult m; RunError := RunError m; SizeBytes := SizeBytes m; TargetName := TargetName m;
     TargetConfig := TargetConfig m; SupportsStop := b |}.

(** ** The text of the metadata *)

Definition field (key value : string) : string := quote key +:+ ":" +:+ value.
Definition bool_text (b : bool) : string := if b then "true" else "false".

(** A field with [omitempty]. *)
Definition omit_string (key value : string) : list string :=
  if bool_decide (value = EmptyString) then [] else [field key (quote value)].
Definition omit_nil {A} (key : string) (text : A -> string) (value : option A) : list string :=
  match value with Some a => [field key (text a)] | None => [] end.

Definition fields_before (m : Metadata) : list string :=
  [field "engine.version" (quote (EngineVersion m)); field "run.name" (quote (md_Name m));
   field "run.start_time" (quote (StartTime m)); field "run.end_time" (quote (EndTime m));
   field "run.recipe_name" (quote (RecipeName m)); field "run.parameters" (md_Parameters m);
   field "run.workload.type" (quote (WorkloadType m)); field "run.workload.cmdline" (quote (Cmdline m));
   field "run.workload.working_dir" (quote (WorkingDir m)); field "run.workload.env" (Env m);
   field "run.workload.use_shell" (bool_text (UseShell m))] ++
  omit_string "run.workload.android.package_name" (AndroidPackageName m) ++
  omit_string "run.workload.android.activity_name" (AndroidActivityName m) ++
  [field "run.workload.pid" (Itoa (Pid m)); field "run.timeout" (Itoa (Timeout m));
   field "run.result" (quote (md_RunResult m)); field "run.error" (quote (RunError m))].

Definition fields_after (m : Metadata) : list string :=
  [field "target.name" (quote (TargetName m)); field "target.config" (TargetConfig m)] ++
  omit_nil "run.supports_stop" bool_text (SupportsStop m).

Definition metadata_text (m : Metadata) : string :=
  "{" +:+ Join "," (fields_before m ++ omit_nil "run.size_bytes" Itoa (SizeBytes m) ++ fields_after m) +:+ "}".

(** ** Reading and writing *)

(** The zero value of [Metadata], which has this text for its target. *)
Definition zero_metadata (zero_target : string) : Metadata :=
  {| EngineVersion := ""; md_Name := ""; StartTime := InvalidTime; EndTime := InvalidTime; RecipeName := ""; md_Parameters := "null";
     WorkloadType := ""; Cmdline := ""; WorkingDir := ""; Env := "null"; UseShell := false; AndroidPackageName := "";
     AndroidActivityName := ""; Pid := 0; Timeout := 0; md_RunResult := ""; RunError := ""; SizeBytes := None; TargetName := "";
     TargetConfig := zero_target; SupportsStop := None |}.

Inductive read_error := NotExist | Unreadable | Malformed.

(** [util.ReadJSONFile]: an empty file is the zero value. *)
Definition ReadJSONFile {A} (zero : A) (decode : string -> option A) (d : disk) (p : path) : result read_error A :=
  match node_at d p with
  | None => Err NotExist
  | Some NDir => Err Unreadable
  | Some (NFile t) => if bool_decide (t = EmptyString) then Ok zero else or_err Malformed (decode t)
  end.

(** [encoding/json] on metadata and manifests. Values in [survives] are read as they were
    written: those of which every string is valid UTF-8. *)
Class JsonFiles := {
  zero_target : string;
  decode_metadata : string -> option Metadata;
  survives : Metadata -> Prop;
  decode_metadata_text m : survives m -> decode_metadata (metadata_text m) = Some m;
  manifest_text : Manifest -> string;
  decode_manifest : string -> option Manifest;
  manifest_survives : Manifest -> Prop;
  manifest_text_nonempty m : manifest_text m <> EmptyString;
  decode_manifest_text m : manifest_survives m -> decode_manifest (manifest_text m) = Some m
}.

Definition zero_manifest : Manifest := {| m_Entries := []; m_ToolsUsed := [] |}.

(** ** The size of the text *)

Definition digits (n : Z) : Z := len (Itoa n).

Lemma len_size_field n : len (field "run.size_bytes" (Itoa n)) = 17 + digits n.
Proof. unfold field, digits. rewrite !len_app. change (len (quote "run.size_bytes")) with 16. change (len ":") with 1. lia. Qed.

(** Recording a size adds the field, a comma, and as many digits as the size has. *)
Lemma len_metadata_text m : len (metadata_text m) = len (metadata_text (with_size None m)) +
  match SizeBytes m with Some n => 18 + digits n | None => 0 end.
Proof.
  unfold metadata_text. rewrite !len_app, !len_Join, !joined_len_total, !length_app, !total_len_app.
  change (fields_before (with_size None m)) with (fields_before m). change (fields_after (with_size None m)) with (fields_after m).
  destruct (SizeBytes m) as [n|]; cbn [omit_nil with_size SizeBytes]; [|lia].
  unfold total_len at 2. cbn [foldr length]. rewrite len_size_field. change (total_len []) with 0.
  assert (0 < length (fields_before m))%nat as Hb by (unfold fields_before; rewrite length_app; cbn [length]; lia).
  cbn [length]. lia.
Qed.

(** A positive number is written without leading zeros. *)
Lemma to_uint_no_zero n d : N.to_uint n = Decimal.D0 d -> n = 0%N.
Proof.
  intros Hd. pose proof (DecimalN.Unsigned.of_to n) as Hof. pose proof (DecimalN.Unsigned.to_of (N.to_uint n)) as Hto.
  rewrite Hof, Hd in Hto. unfold Decimal.unorm in Hto. destruct (Decimal.nzhead (Decimal.D0 d)) eqn:Hz; try discriminate Hto.
  - injection Hto as ->. by rewrite <- Hof, Hd.
  - by apply nzhead_nonzero in Hz.
Qed.

Lemma digits_spec n : 0 < n -> 1 <= digits n /\ 10 ^ (digits n - 1) <= n < 10 ^ digits n.
Proof.
  intros Hn. unfold digits, Itoa. destruct (Z.ltb_spec n 0); [lia|]. set (s := NilEmpty.string_of_uint (N.to_uint (Z.to_N n))).
  pose proof (uint_string_digits (N.to_uint (Z.to_N n))) as Hs. fold s in Hs.
  pose proof (uint_string_nonempty (Z.to_N n)) as Hne. fold s in Hne.
  pose proof (parse_digits_string (Z.to_N n)) as Hp. fold s in Hp. rewrite parse_digits_value in Hp by done. injection Hp as Hv.
  rewrite Z2N.id in Hv by lia. pose proof (digits_value_bounds s 0 Hs ltac:(lia)) as Hb. rewrite Hv in Hb.
  destruct s as [|c t] eqn:Hst; [done|]. assert (len (String c t) = len t + 1) as Hl by (unfold len; cbn [String.length]; lia).
  pose proof (len_nonneg t). rewrite Hl in Hb |- *. split; [lia|]. split; [|lia]. replace (len t + 1 - 1) with (len t) by lia.
  cbn [sall] in Hs. apply andb_true_iff in Hs as [Hc Ht]. cbn [digits_value] in Hv. pose proof (digit_range c Hc) as Hr.
  pose proof (digits_value_bounds t (10 * 0 + (byte_of c - 48)) Ht ltac:(lia)) as Hb'. rewrite Hv in Hb'.
  assert (byte_of c <> 48) as Hz; [|nia]. intros Hz.
  assert (exists d, N.to_uint (Z.to_N n) = Decimal.D0 d) as [d Hd].
  { unfold s in Hst. destruct (N.to_uint (Z.to_N n)) as [|d|d|d|d|d|d|d|d|d|d]; cbn in Hst; try discriminate Hst; try (injection Hst as <- _; discriminate Hz). by exists d. }
  apply to_uint_no_zero in Hd. lia.
Qed.

Lemma digits_unique n k : 1 <= k -> 10 ^ (k - 1) <= n < 10 ^ k -> digits n = k.
Proof.
  intros Hk Hn. assert (0 < 10 ^ (k - 1)) by (apply Z.pow_pos_nonneg; lia). destruct (digits_spec n ltac:(lia)) as (H1 & H2 & H3).
  destruct (Z.lt_trichotomy (digits n) k) as [Hlt|[?|Hlt]]; [|done|].
  - assert (10 ^ digits n <= 10 ^ (k - 1)) by (apply Z.pow_le_mono_r; lia). lia.
  - assert (10 ^ k <= 10 ^ (digits n - 1)) by (apply Z.pow_le_mono_r; lia). lia.
Qed.

(** Every length in the goal is not negative. *)
Ltac lens_nonneg := repeat match goal with |- context [len ?s] => pose proof (len_nonneg s); generalize dependent (len s); intros end.

Lemma metadata_text_long m : 100 <= len (metadata_text m).
Proof.
  unfold metadata_text. rewrite !len_app, len_Join, joined_len_total, total_len_app. unfold fields_before. rewrite total_len_app.
  match goal with |- context [total_len [?a1; ?a2; ?a3; ?a4; ?a5; ?a6; ?a7; ?a8; ?a9; ?a10; ?a11]] =>
    assert (100 <= total_len [a1; a2; a3; a4; a5; a6; a7; a8; a9; a10; a11]) as Hl end.
  { unfold total_len, field. cbn [foldr]. rewrite !len_app.
    change (len (quote "engine.version")) with 16. change (len (quote "run.name")) with 10. change (len (quote "run.start_time")) with 16.
    change (len (quote "run.end_time")) with 14. change (len (quote "run.recipe_name")) with 17. change (len (quote "run.parameters")) with 16.
    change (len (quote "run.workload.type")) with 19. lens_nonneg. lia. }
  set (A := total_len _) in Hl |- *.
  repeat match goal with |- context [total_len ?l] => pose proof (total_len_nonneg l); generalize dependent (total_len l); intros end.
  lens_nonneg. lia.
Qed.

Lemma metadata_text_nonempty m : metadata_text m <> EmptyString.
Proof. intros H. pose proof (metadata_text_long m) as Hl. rewrite H in Hl. done. Qed.

(** ** A sample of decoders *)

(** Decoders that know the values of two lists, and the given metadata with any size. *)
Section Sample.

Context (base : Metadata) (metadatas : list Metadata) (manifests : list Manifest).

Definition size_prefix : string := "{" +:+ Join "," (fields_before base) +:+ "," +:+ field "run.size_bytes" "".

Definition decode_sized (t : string) : option Metadata :=
  ab ← Cut "," (TrimPrefix t size_prefix); n ← ParseInt 66 ab.1; Some (with_size (Some n) base).

Definition sample_decode (t : string) : option Metadata :=
  match List.find (fun m => bool_decide (metadata_text m = t)) metadatas with Some m => Some m | None => decode_sized t end.

Definition sample_manifest_text (m : Manifest) : string :=
  match find_index (fun x => bool_decide (m_Entries x = m_Entries m)) manifests with Some i => Itoa (Z.of_nat i) | None => "-" end.

Definition sample_decode_manifest (t : string) : option Manifest := n ← Atoi t; manifests !! Z.to_nat n.

Program Definition sample_json : JsonFiles := {|
  zero_target := "{}";
  decode_metadata := sample_decode;
  survives m := sample_decode (metadata_text m) = Some m;
  manifest_text := sample_manifest_text;
  decode_manifest := sample_decode_manifest;
  manifest_survives m := sample_decode_manifest (sample_manifest_text m) = Some m
|}.
Next Obligation. done. Qed.
Next Obligation.
  intros m. unfold sample_manifest_text. destruct (find_index _ _); [|done]. unfold Itoa.
  destruct (Z.ltb_spec (Z.of_nat n) 0); [lia|]. apply uint_string_nonempty.
Qed.
Next Obligation. done. Qed.

Lemma sized_text n : metadata_text (with_size (Some n) base) =
  size_prefix +:+ Itoa n +:+ "," +:+ Join "," (fields_after base) +:+ "}".
Proof.
  unfold metadata_text, size_prefix. cbn [with_size SizeBytes omit_nil app].
  change (fields_before (with_size (Some n) base)) with (fields_before base). change (fields_after (with_size (Some n) base)) with (fields_after base).
  assert (fields_before base <> []) by done. assert (fields_after base <> []) by done.
  rewrite Join_app by done. change (field "run.size_bytes" (Itoa n) :: fields_after base) with ([field "run.size_bytes" (Itoa n)] ++ fields_after base).
  rewrite Join_app by done. cbn [Join]. unfold field. rewrite !sapp_assoc. by rewrite sapp_nil_l.
Qed.

Lemma sized_survives n : 0 <= n < 2 ^ 64 -> decode_sized (metadata_text (with_size (Some n) base)) = Some (with_size (Some n) base).
Proof.
  intros Hn. unfold decode_sized. rewrite sized_text, TrimPrefix_app.
  change ("," +:+ Join "," (fields_after base) +:+ "}") with (String "," (Join "," (fields_after base) +:+ "}")).
  assert (Cut "," (Itoa n +:+ String "," (Join "," (fields_after base) +:+ "}")) = Some (Itoa n, Join "," (fields_after base) +:+ "}")) as ->.
  { apply Cut_Some. split; [done|]. apply digits_byte_free; [done|]. apply Itoa_digits. lia. }
  cbn. rewrite ParseInt_Itoa; [done|]. apply int_in_range_spec. lia.
Qed.

End Sample.

Definition sample_metadata : Metadata :=
  with_result "success" "" (with_name "cpu_042" (zero_metadata "{}")).
