(* ===== verification/RunCollection.v ===== *)
(** * Performix: the runs on disk

    Models the collection of runs of [core/apap-engine/run/run.go]: where runs are looked up,
    identifiers of new runs, creating, reading and deleting runs, and their metadata. An
    operation is a function on the disk that may fail; what taking a file lock answers is an
    argument. *)

From S2P Require Import Prelude.
From S2P Require Import GoStrings.
From S2P Require Import Disk.
From S2P Require Import Model.
From S2P Require Import RunBuilder.
From S2P Require Import RunFiles.
From S2P Require Import FilePaths.
From Stdlib Require Import Ascii.

Local Open Scope Z_scope.

(** ** Operations *)

Inductive run_error :=
| RunDoesNotExist (id : string) | RunBusy (id : string) | RunCreateLock (id : string)
| RunReadManifest (id : string) (cause : read_error) | RunReadMetadata (id : string) (cause : read_error)
| RunReadCategorization (id : string) (cause : read_error)
| RunUpdateMetadata (id : string) | RunUpdateSourceCodePaths (id : string) | RunUpdateCategorization (id : string)
| RunInvalidGroup (group : string) | RunInvalidTags (tags : list string)
| RunParseTarget (id : string) | RunDifferentRecipes (id1 id2 name1 name2 : string)
| RunDifferentRecipeSchemas (id1 id2 schema1 schema2 : string)
| WriteFailed | UnknownError (text : string).

(** A function that changes the disk and returns a value or an error. *)
Definition op (A : Type) : Type := disk -> disk * result run_error A.

#[export] Instance op_ret : MRet op := fun A a d => (d, Ok a).
#[export] Instance op_bind : MBind op := fun A B k m d =>
  match m d with (d', Ok a) => k a d' | (d', Err e) => (d', Err e) end.

Definition throw {A} (e : run_error) : op A := fun d => (d, Err e).
Definition from_result {A} (r : disk -> result run_error A) : op A := fun d => (d, r d).

(** A change of the disk: one of the operation's own, or what other processes do meanwhile. *)
Definition modify (g : disk -> disk) : op unit := fun d => (g d, Ok tt).

(** An operation of the disk, whose failure is this error. *)
Definition attempt (e : run_error) (g : disk -> disk * bool) : op unit := fun d =>
  match g d with (d', true) => (d', Ok tt) | (d', false) => (d', Err e) end.

(** ** The collection *)

Definition runIDLength : Z := 12.
Definition manifestFileName : string := "manifest.json".
Definition metadataFileName : string := "metadata.json".
Definition renderDirName : string := "render".
Definition InvalidRunID : string := "************".

Record RunCollection := { primaryPath : string; allPaths : list string }.

(** [filepath.Abs] in this working directory. *)
Definition Abs (cwd p : string) : string := if HasPrefix p "/" then Clean p else JoinPath [cwd; p].

Definition NewRunCollectionWithSecondaryPaths (cwd primary : string) (secondaryPaths : list string) : RunCollection :=
  {| primaryPath := Abs cwd primary; allPaths := Abs cwd primary :: (Abs cwd <$> secondaryPaths) |}.

(** [strings.ContainsAny(id, "./\")], with the test for an empty identifier. *)
Definition looks_like_path (id : string) : bool :=
  bool_decide (id = EmptyString) || negb (sall (fun c => negb (bool_decide (c ∈ ["."; "/"; "\"]%char))) id).

(** What taking a lock or a lease answers. *)
Inductive lock_answer := Locked | LockDirFailed | LockBusy.

Section Collection.

Context (c : RunCollection) (f : faults) {J : JsonFiles}.

Definition runBasePath (d : disk) (id : string) : string * bool :=
  match List.find (fun basePath => PathExists d (JoinPath [basePath; id])) (allPaths c) with
  | Some basePath => (basePath, true)
  | None => (primaryPath c, false)
  end.

Fixpoint exists_in (paths : list string) (d : disk) (id : string) : bool :=
  match paths with
  | [] => false
  | basePath :: rest =>
      let runPath := JoinPath [basePath; id] in
      if negb (IsChildPath basePath runPath) then false else if PathExists d runPath then true else exists_in rest d id
  end.

Definition runExists (d : disk) (id : string) : bool :=
  if bool_decide (id = EmptyString) then false else exists_in (allPaths c) d id.

(** [GetRunPath], and the paths of files in a run. *)
Definition GetRunPath (d : disk) (id : string) : string := JoinPath [(runBasePath d id).1; id].
Definition file_path (d : disk) (id name : string) : path := components (JoinPath [(runBasePath d id).1; id; name]).

(** [metadataExists] and [manifestExists] *)
Definition file_exists (name : string) (d : disk) (id : string) : bool :=
  if (runBasePath d id).2 then bool_decide (is_Some (node_at d (file_path d id name))) else false.

Definition collection_exists (d : disk) : bool := PathExists d (primaryPath c).

(** ** Reading and writing *)

Definition read_with {A} (zero : A) (decode : string -> option A) (e : string -> read_error -> run_error) (name id : string) : op A :=
  from_result (fun d => match ReadJSONFile zero decode d (file_path d id name) with Ok a => Ok a | Err x => Err (e id x) end).

Definition readManifest : string -> op Manifest := read_with zero_manifest decode_manifest RunReadManifest manifestFileName.
Definition readMetadata : string -> op Metadata := read_with (zero_metadata zero_target) decode_metadata RunReadMetadata metadataFileName.

Definition writeMetadata (e : run_error) (id : string) (m : Metadata) : op unit :=
  attempt e (fun d => WriteFile f (file_path d id metadataFileName) (metadata_text m) d).

(** [WriteJSONFileAtomic]: the file is replaced as a whole or stays as it was. *)
Definition write_atomic (e : run_error) (name id text : string) : op unit := fun d =>
  let p := file_path d id name in
  if refuses f p || bool_decide (is_Some (cut_short f p)) || negb (is_dir d (parent p)) || is_dir d p then (d, Err e)
  else (<[p := NFile text]> d, Ok tt).

Definition writeMetadataAtomic (id : string) (m : Metadata) : op unit := write_atomic WriteFailed metadataFileName id (metadata_text m).
Definition writeManifest (id : string) (m : Manifest) : op unit := write_atomic WriteFailed manifestFileName id (manifest_text m).

(** ** Locks *)

Definition lockRun (ans : lock_answer) (id : string) : op unit := fun d =>
  (d, if negb (runExists d id) then Err (RunDoesNotExist id)
      else match ans with Locked => Ok tt | LockDirFailed => Err (RunCreateLock id) | LockBusy => Err (RunBusy id) end).

Definition LeaseRun (ans : lock_answer) (id : string) : op unit := fun d =>
  (d, if looks_like_path id then Err (RunDoesNotExist id)
      else match ans with Locked => Ok tt | LockDirFailed => Err (RunCreateLock id) | LockBusy => Err (RunBusy id) end).

(** The check after a lock has been taken. *)
Definition still_exists (id : string) : op unit := fun d => (d, if runExists d id then Ok tt else Err (RunDoesNotExist id)).

(** Taking the lock, during which others may change the disk, and checking that the run is
    still there. *)
Definition locked_run (ans : lock_answer) (meanwhile : disk -> disk) (id : string) : op unit :=
  lockRun ans id ;; modify meanwhile ;; still_exists id.

(** ** Listing *)

Definition entryLooksValid (ans : lock_answer) (d : disk) (id : string) : bool :=
  is_ok (lockRun ans id d).2 &&
  (file_exists metadataFileName d id && is_ok (readMetadata id d).2) &&
  (file_exists manifestFileName d id && is_ok (readManifest id d).2).

(** The identifiers of the runs in one directory. *)
Definition runs_in (locks : string -> lock_answer) (d : disk) (entries : list (string * node)) : list string :=
  omap (fun e => if bool_decide (e.2 = NDir) && entryLooksValid (locks e.1) d e.1 then Some e.1 else None) entries.

Fixpoint list_paths (locks : string -> lock_answer) (primary : bool) (paths : list string) (d : disk) : result run_error (list string) :=
  match paths with
  | [] => Ok []
  | basePath :: rest =>
      match Disk.ReadDir (components basePath) d with
      | None => if primary then Err (UnknownError "failed to list runs") else list_paths locks false rest d
      | Some entries =>
          match list_paths locks false rest d with
          | Ok more => Ok (runs_in locks d entries ++ more)
          | Err e => Err e
          end
      end
  end.

Definition create : op unit := fun d =>
  if collection_exists d then (d, Err (UnknownError "failed to create run directory, already exists"))
  else attempt (UnknownError "failed to create run directory") (MkdirAll f (components (primaryPath c))) d.

Definition ensure_collection : op unit := fun d => if collection_exists d then (d, Ok tt) else create d.

Definition ListRuns (locks : string -> lock_answer) : op (list string) :=
  ensure_collection ;; from_result (list_paths locks true (allPaths c)).

(** ** Creating and deleting *)

(** [getNextRunID] with the identifiers that [uuid.New] gives. *)
Fixpoint next_run_id (tries : nat) (uuids : list string) (d : disk) : result run_error string :=
  match tries, uuids with
  | S n, u :: rest =>
      if negb (len u =? 36) then next_run_id n rest d
      else
        let id := slice u (len u - runIDLength) (len u) in
        if negb (runExists d id) && (len id =? runIDLength) then Ok id else next_run_id n rest d
  | _, _ => Err (UnknownError "failed to get next run ID")
  end.

Definition getNextRunID : list string -> disk -> result run_error string := next_run_id 3.

(** [RunCollection.RunBuilder] *)
Definition new_builder (uuids : list string) : op RunBuilder := from_result (fun d =>
  match getNextRunID uuids d with
  | Ok id => Ok {| runID := id; builder_basePath := primaryPath c; runPath := GetRunPath d id; entities := []; b_components := []; toolsUsed := [] |}
  | Err e => Err e
  end).

(** The directories of [RunBuilder.CreateEntityDirs] are made one after the other. *)
Fixpoint make_dirs (dir : string) (es : list Entity) : op unit :=
  match es with
  | [] => mret tt
  | e :: rest => attempt (UnknownError "failed to create entity dir for run") (MkdirAll f (components (JoinPath [dir; entity_path e]))) ;;
                 make_dirs dir rest
  end.

Definition UpdateManifest (b : RunBuilder) : op unit := writeManifest (runID b) (buildManifest b).

Definition CreateRun (b : RunBuilder) (m : Metadata) : op string :=
  ensure_collection ;;
  (fun d => (d, if runExists d (runID b) then Err (UnknownError "failed to create run, already exists") else Ok tt)) ;;
  (fun d => attempt (UnknownError "failed to create runID directory") (Mkdir f (components (GetRunPath d (runID b)))) d) ;;
  (fun d => make_dirs (GetRunPath d (runID b)) (entities b) d) ;;
  UpdateManifest b ;;
  writeMetadata (UnknownError "failed to create metadata for run") (runID b) m ;;
  mret (runID b).

Definition DeleteRun (lease lock : lock_answer) (meanwhile : disk -> disk) (id : string) : op unit :=
  LeaseRun lease id ;; locked_run lock meanwhile id ;;
  modify (fun d => RemoveAll (components (GetRunPath d id)) d).

Fixpoint DeleteRuns (answers : list (lock_answer * lock_answer)) (ids : list string) (d : disk) : disk * list (option run_error) :=
  match ids, answers with
  | id :: rest, (lease, lock) :: more =>
      let '(d1, r) := DeleteRun lease lock (fun d => d) id d in
      let '(d2, errs) := DeleteRuns more rest d1 in
      (d2, match r with Ok _ => None | Err e => Some e end :: errs)
  | _, _ => (d, [])
  end.

(** ** Where the files of a run are *)

(** The directories of the collection are absolute. *)
Definition rooted_collection : Prop := Forall (fun b => HasPrefix b "/" = true) (primaryPath c :: allPaths c).

Lemma NewRunCollection_rooted cwd primary secondary : HasPrefix cwd "/" = true ->
  Forall (fun b => HasPrefix b "/" = true)
    (primaryPath (NewRunCollectionWithSecondaryPaths cwd primary secondary) :: allPaths (NewRunCollectionWithSecondaryPaths cwd primary secondary)).
Proof.
  intros Hcwd. assert (forall p, HasPrefix (Abs cwd p) "/" = true) as Ha.
  { intros p. unfold Abs. destruct (HasPrefix p "/") eqn:Hp; [by rewrite Clean_rooted|by apply JoinPath_rooted]. }
  cbn. repeat (constructor; [apply Ha|]). induction secondary; constructor; auto.
Qed.

Lemma runBasePath_rooted d id : rooted_collection -> HasPrefix (runBasePath d id).1 "/" = true.
Proof.
  intros [Hp Ha]%Forall_cons. unfold runBasePath. destruct (List.find _ _) eqn:Hf; [|done]. apply List.find_some in Hf as [Hin _].
  rewrite Forall_forall in Ha. by apply Ha, list_elem_of_In.
Qed.

Definition base_of (d : disk) (id : string) : path := components (runBasePath d id).1.

Lemma GetRunPath_components d id : rooted_collection -> plain_name id -> components (GetRunPath d id) = base_of d id ++ [id].
Proof. intros Hc Hid. apply components_child; [|done]. pose proof (runBasePath_rooted d id Hc) as Hr. by intros He; rewrite He in Hr. Qed.

Lemma file_path_components d id name : rooted_collection -> plain_name id -> plain_name name ->
  file_path d id name = base_of d id ++ [id; name].
Proof. intros Hc Hid Hn. apply components_grandchild; [|done..]. pose proof (runBasePath_rooted d id Hc) as Hr. by intros He; rewrite He in Hr. Qed.

Lemma runExists_spec d id : rooted_collection -> plain_name id ->
  runExists d id = existsb (fun b => PathExists d (JoinPath [b; id])) (allPaths c).
Proof.
  intros [_ Hc]%Forall_cons Hid. unfold runExists. rewrite bool_decide_false by (by apply plain_name_nonempty).
  induction Hc as [|b l Hb _ IH]; [done|]. cbn [exists_in existsb]. rewrite IsChildPath_child by done. cbn [negb].
  destruct (PathExists d _); [done|apply IH].
Qed.

(** What is looked up only depends on which paths there are. *)
Lemma PathExists_same d d' p : (forall q, d' !! q = None <-> d !! q = None) -> PathExists d' p = PathExists d p.
Proof.
  intros Hd. unfold PathExists. apply bool_decide_ext. rewrite <- !not_eq_None_Some. unfold node_at.
  destruct (components p); [done|]. by rewrite Hd.
Qed.

Lemma runBasePath_same d d' id : (forall q, d' !! q = None <-> d !! q = None) -> runBasePath d' id = runBasePath d id.
Proof.
  intros Hd. unfold runBasePath. induction (allPaths c) as [|b l IH]; [done|]. cbn [List.find]. rewrite (PathExists_same d d') by done.
  destruct (PathExists d _); [done|apply IH].
Qed.

(** A file in a directory that is not a run of this name is nowhere looked up as the run. *)
Lemma runBasePath_insert d id x name n : rooted_collection -> plain_name id -> name <> id ->
  runBasePath (<[x ++ [name] := n]> d) id = runBasePath d id.
Proof.
  intros [_ Hc]%Forall_cons Hid Hne. unfold runBasePath. induction Hc as [|b l Hb _ IH]; [done|]. cbn [List.find].
  assert (PathExists (<[x ++ [name] := n]> d) (JoinPath [b; id]) = PathExists d (JoinPath [b; id])) as ->.
  { unfold PathExists. rewrite components_child by (done || by intros He; rewrite He in Hb). unfold node_at.
    destruct (components b ++ [id]) eqn:Hp; [done|]. rewrite lookup_insert_ne; [done|]. rewrite <- Hp. intros [_ He]%app_inj_2; [by simplify_eq|done]. }
  destruct (PathExists d _); [done|apply IH].
Qed.

(** An operation that rewrites at most one file of the run. *)
Definition rewrites {A} (name id : string) (m : op A) : Prop :=
  forall d, (m d).1 = d \/ exists w, (m d).1 = <[file_path d id name := NFile w]> d.

Definition reads_only {A} (m : op A) : Prop := forall d, (m d).1 = d.

Lemma from_result_reads {A} (r : disk -> result run_error A) : reads_only (from_result r).
Proof. done. Qed.

Lemma bind_reads_rewrites {A B} name id (m : op A) (k : A -> op B) : reads_only m -> (forall a, rewrites name id (k a)) -> rewrites name id (m ≫= k).
Proof.
  intros Hm Hk d. unfold mbind, op_bind. specialize (Hm d). destruct (m d) as [d1 [a|e]]; cbn in Hm; subst; [apply Hk|by left].
Qed.

Lemma bind_rewrites_ret {A B} name id (m : op A) (b : B) : rewrites name id m -> rewrites name id (m ;; mret b).
Proof. intros Hm d. unfold mbind, op_bind, mret, op_ret. specialize (Hm d). by destruct (m d) as [d1 [a|e]]. Qed.

Lemma ret_rewrites {A} name id (a : A) : rewrites name id (mret a).
Proof. intros d. by left. Qed.

Lemma writeMetadata_rewrites e id m : rewrites metadataFileName id (writeMetadata e id m).
Proof.
  intros d. unfold writeMetadata, attempt. destruct (WriteFile _ _ _ _) as [d1 ok] eqn:Hw.
  destruct (write_file_spec _ _ _ _ _ _ _ Hw) as [[-> ->]|(w & -> & _)]; [by left|]. destruct ok; right; by exists w.
Qed.

Lemma insert_same_paths (d : disk) p n m : d !! p = Some n -> forall q, <[p := m]> d !! q = None <-> d !! q = None.
Proof. intros Hp q. destruct (decide (q = p)) as [->|Hne]; [by rewrite lookup_insert_eq, Hp|by rewrite lookup_insert_ne]. Qed.

End Collection.
