(* ===== verification/RunMetadata.v ===== *)
(** * Performix: the metadata of a run

    The operations of [core/apap-engine/run/run.go] that read the metadata of a run, change it and
    write it back, the size of a run that is recorded in its metadata, and
    [AccumulateSupportsStop] of [run_metadata_updater.go]. *)

From S2P Require Import Prelude.
From S2P Require Import GoStrings.
From S2P Require Import Json.
From S2P Require Import Disk.
From S2P Require Import Model.
From S2P Require Import RunBuilder.
From S2P Require Import RunFiles.
From S2P Require Import RunCollection.
From S2P Require Import FilePaths.

Local Open Scope Z_scope.

Definition max_uint64 : Z := 2 ^ 64 - 1.

(** ** Results of runs *)

(** [run_result.go] *)
Definition RecipeSuccess : string := "success".
Definition RecipeInProgress : string := "in_progress".
Definition RecipeInProgressPhase1Complete : string := "in_progress_phase1_complete".
Definition RecipeFailureRetrievePhase1Complete : string := "failure_retrieve_output_files_phase1_complete".
Definition RecipeFailureIncomplete : string := "failure_incomplete_run".
Definition RecipeFailureIncompletePhase1Complete : string := "failure_incomplete_run_phase1_complete".

Definition RecipeResultIsFailure (r : string) : bool := HasPrefix r "failure_".
Definition RecipeResultIsRunning (r : string) : bool := bool_decide (r = RecipeInProgress).
Definition RecipeResultIsCompletingTransfer (r : string) : bool := bool_decide (r = RecipeInProgressPhase1Complete).
Definition RecipeResultIsInProgress (r : string) : bool := RecipeResultIsRunning r || RecipeResultIsCompletingTransfer r.
Definition RecipeResultIsRenderable (r : string) : bool :=
  bool_decide (r ∈ [RecipeSuccess; RecipeInProgressPhase1Complete; RecipeFailureRetrievePhase1Complete; RecipeFailureIncompletePhase1Complete]).
Definition RecipeResultShouldShowFailure (r : string) : bool := RecipeResultIsFailure r && negb (RecipeResultIsRenderable r).

(** ** The size of a run *)

(** Entries that [calculateRunSizeLocked] passes: files that are not in the directory of renders. *)
Definition counted (render_is_dir : bool) (render : path) (e : path * node) : bool :=
  negb (render_is_dir && bool_decide (render `prefix_of` e.1)).

Fixpoint add_sizes (render_is_dir : bool) (render : path) (sizeBytes : Z) (entries : list (path * node)) : result run_error Z :=
  match entries with
  | [] => Ok sizeBytes
  | e :: rest =>
      match counted render_is_dir render e, e.2 with
      | true, NFile content =>
          if len content >? max_uint64 - sizeBytes then Err (UnknownError "failed to calculate size of run")
          else add_sizes render_is_dir render (sizeBytes + len content) rest
      | _, _ => add_sizes render_is_dir render sizeBytes rest
      end
  end.

(** [adjustSizeForMetadata] *)
Definition adjustSizeForMetadata (m : Metadata) (newSizeBytes : Z) : result run_error Z :=
  let finish adjusted :=
    let digitChange := digits adjusted - digits newSizeBytes in
    Ok (if digitChange >? 0 then wrap_uint64 (adjusted + 1) else if digitChange <? 0 then wrap_uint64 (adjusted - 1) else adjusted) in
  match SizeBytes m with
  | None => finish (wrap_uint64 (newSizeBytes + len (field "run.size_bytes" (Itoa newSizeBytes) +:+ ",")))
  | Some old =>
      let diff := digits newSizeBytes - digits old in
      if diff >? 0 then
        if diff >? max_uint64 - newSizeBytes then Err (UnknownError "updated run size too large") else finish (newSizeBytes + diff)
      else if diff <? 0 then
        if - diff >? newSizeBytes then Err (UnknownError "updated run size less than 0") else finish (newSizeBytes + diff)
      else Ok newSizeBytes
  end.

Section Metadata.

Context (c : RunCollection) (f : faults) {J : JsonFiles}.

Definition calculateRunSizeLocked (id : string) : op Z := from_result (fun d =>
  let run := components (GetRunPath c d id) in
  match node_at d run with
  | None => Err (UnknownError "failed to calculate size of run")
  | Some _ => let render := run ++ [renderDirName] in add_sizes (is_dir d render) render 0 (walk run d)
  end).

Definition persistRunSizeLocked (id : string) : op bool :=
  metadata ← readMetadata c id;
  if RecipeResultIsInProgress (md_RunResult metadata) then mret false
  else
    sizeBytes ← calculateRunSizeLocked id;
    if bool_decide (SizeBytes metadata = Some sizeBytes) then mret false
    else
      adjusted ← from_result (fun _ => adjustSizeForMetadata metadata sizeBytes);
      writeMetadata c f (RunUpdateMetadata id) id (with_size (Some adjusted) metadata) ;;
      mret true.

(** The first look is under a shared lock, which is given up before the exclusive lock is
    taken: [meanwhile] happens in between. *)
Definition PersistRunSize (shared exclusive : lock_answer) (meanwhile : disk -> disk) (id : string) : op bool :=
  lockRun c shared id ;;
  metadata ← readMetadata c id;
  if RecipeResultIsInProgress (md_RunResult metadata) then mret false
  else
    sizeBytes ← calculateRunSizeLocked id;
    if bool_decide (SizeBytes metadata = Some sizeBytes) then mret false
    else lockRun c exclusive id ;; modify meanwhile ;; persistRunSizeLocked id.

(** ** Changing the metadata *)

(** [UpdateRunResult], with the text of the error if there is one. *)
Definition UpdateRunResult (ans : lock_answer) (meanwhile : disk -> disk) (id recipeResult : string) (e : option string) : op unit :=
  locked_run c ans meanwhile id ;;
  metadata ← readMetadata c id;
  writeMetadata c f WriteFailed id (with_result recipeResult (default (RunError metadata) e) metadata).

Definition SetRunEndTime (ans : lock_answer) (meanwhile : disk -> disk) (now id : string) : op unit :=
  locked_run c ans meanwhile id ;;
  metadata ← readMetadata c id;
  writeMetadata c f WriteFailed id (if bool_decide (EndTime metadata = InvalidTime) then with_end_time now metadata else metadata).

Definition UpdateWorkingDir (ans : lock_answer) (meanwhile : disk -> disk) (id workingDir : string) : op unit :=
  locked_run c ans meanwhile id ;;
  metadata ← readMetadata c id;
  if negb (bool_decide (WorkloadType metadata = "Launch")) || negb (bool_decide (WorkingDir metadata = EmptyString))
     || bool_decide (workingDir = EmptyString)
  then mret tt
  else writeMetadata c f (RunUpdateMetadata id) id (with_working_dir workingDir metadata).

(** Errors of recording the size are only logged. *)
Definition quietly {A} (m : op A) : op unit := fun d => ((m d).1, Ok tt).

Definition RenameRun (ans : lock_answer) (meanwhile : disk -> disk) (id newName : string) : op unit :=
  locked_run c ans meanwhile id ;;
  metadata ← readMetadata c id;
  writeMetadata c f (RunUpdateMetadata id) id (with_name newName metadata) ;;
  quietly (persistRunSizeLocked id).

(** [RunMetadataUpdater.AccumulateSupportsStop]: the flag says whether the notifier is called. *)
Definition AccumulateSupportsStop (ans : lock_answer) (id : string) (supportsStop : bool) : op bool :=
  lockRun c ans id ;;
  metadata ← readMetadata c id;
  let supportsStop := match SupportsStop metadata with Some b => b && supportsStop | None => supportsStop end in
  if bool_decide (SupportsStop metadata = Some supportsStop) then mret false
  else writeMetadataAtomic c f id (with_supports_stop (Some supportsStop) metadata) ;; mret true.

Definition runSupportsStop (m : Metadata) : bool := default true (SupportsStop m).

End Metadata.

(** ** The recorded size *)

Definition is_uint64 (z : Z) : Prop := 0 <= z < 2 ^ 64.

Lemma digits_bounds n : is_uint64 n -> 1 <= digits n <= 20.
Proof.
  intros [H0 H1]. destruct (Z.eq_dec n 0) as [->|]; [done|]. destruct (digits_spec n ltac:(lia)) as (Hd & Hl & _). split; [done|].
  assert (10 ^ (digits n - 1) < 10 ^ 20) as Hlt by (change (10 ^ 20) with 100000000000000000000; lia).
  apply Z.pow_lt_mono_r_iff in Hlt; lia.
Qed.

Lemma digits_large n : 100 <= n -> 3 <= digits n.
Proof.
  intros Hn. destruct (digits_spec n ltac:(lia)) as (_ & _ & Hu). destruct (Z.le_gt_cases 3 (digits n)); [done|].
  assert (10 ^ digits n <= 10 ^ 2) by (apply Z.pow_le_mono_r; lia). lia.
Qed.

(** Adding or taking away a few bytes changes the number of digits by at most one, and the
    byte for that digit does not change it again. *)
Lemma digits_grow n a : 100 <= n -> 0 <= a <= 40 ->
  digits (n + a) = digits n \/ digits (n + a) = digits n + 1 /\ digits (n + a + 1) = digits n + 1.
Proof.
  intros Hn Ha. pose proof (digits_large n Hn) as Hk. destruct (digits_spec n ltac:(lia)) as (_ & Hl & Hu).
  destruct (Z.lt_ge_cases (n + a) (10 ^ digits n)); [left; apply digits_unique; lia|right].
  assert (10 ^ 3 <= 10 ^ digits n) by (apply Z.pow_le_mono_r; lia).
  assert (10 ^ (digits n + 1) = 10 * 10 ^ digits n) as Hs by (rewrite Z.pow_add_r by lia; lia).
  split; apply digits_unique; try lia; rewrite ?Z.add_simpl_r; lia.
Qed.

Lemma digits_shrink n a : 100 <= n -> 0 <= a <= 20 ->
  digits (n - a) = digits n \/ digits (n - a) = digits n - 1 /\ digits (n - a - 1) = digits n - 1.
Proof.
  intros Hn Ha. pose proof (digits_large n Hn) as Hk. destruct (digits_spec n ltac:(lia)) as (_ & Hl & Hu).
  destruct (Z.lt_ge_cases (n - a) (10 ^ (digits n - 1))) as [Hlt|]; [right|left; apply digits_unique; lia].
  assert (10 ^ (digits n - 1) = 10 * 10 ^ (digits n - 2)) as Hs.
  { replace (digits n - 1) with (1 + (digits n - 2)) by lia. rewrite Z.pow_add_r by lia. lia. }
  assert (10 ^ 1 <= 10 ^ (digits n - 2)) by (apply Z.pow_le_mono_r; lia).
  split; apply digits_unique; try lia; replace (digits n - 1 - 1) with (digits n - 2) by lia; lia.
Qed.

Definition size_ok (m : Metadata) : Prop := match SizeBytes m with Some n => is_uint64 n | None => True end.

(** The adjusted size is the size that the run has once it is recorded: the rest of the run
    and the metadata with it. *)
Lemma adjust_fixpoint m S : size_ok m -> len (metadata_text m) <= S -> S + 64 < 2 ^ 64 ->
  exists S', adjustSizeForMetadata m S = Ok S' /\ is_uint64 S' /\
    S' = S - len (metadata_text m) + len (metadata_text (with_size (Some S') m)).
Proof.
  intros Hm HS Hmax. pose proof (metadata_text_long m) as Hlong. pose proof (digits_bounds S ltac:(unfold is_uint64; lia)) as HdS.
  assert (forall n, with_size None (with_size n m) = with_size None m) as Hn by done.
  rewrite (len_metadata_text m) in HS |- *. pose proof (len_nonneg (metadata_text (with_size None m))) as Hrest.
  assert (exists S', adjustSizeForMetadata m S = Ok S' /\ is_uint64 S' /\
    S' = S - match SizeBytes m with Some n => 18 + digits n | None => 0 end + (18 + digits S')) as (S' & Ha & Hr & HS').
  2:{ exists S'. split; [done|]. split; [done|]. rewrite (len_metadata_text (with_size (Some S') m)), Hn. cbn [with_size SizeBytes]. lia. }
  rewrite (len_metadata_text m) in Hlong. unfold adjustSizeForMetadata, size_ok, is_uint64, max_uint64 in *. cbv zeta.
  assert (forall z, 0 <= z < 2 ^ 64 -> wrap_uint64 z = z) as Hw by (intros; by apply wrap_uint64_id).
  destruct (SizeBytes m) as [old|].
  - pose proof (digits_bounds old Hm) as Ho. destruct (Z.gtb_spec (digits S - digits old) 0); [|destruct (Z.ltb_spec (digits S - digits old) 0)].
    + destruct (Z.gtb_spec (digits S - digits old) (2 ^ 64 - 1 - S)); [lia|]. eexists. split; [reflexivity|].
      destruct (digits_grow S (digits S - digits old)) as [Hd|[Hd Hd']]; [lia..| |]; rewrite Hd.
      * rewrite Z.sub_diag. cbn. lia.
      * replace (digits S + 1 - digits S) with 1 by lia. cbn. rewrite Hw; lia.
    + destruct (Z.gtb_spec (- (digits S - digits old)) S); [lia|]. eexists. split; [reflexivity|].
      replace (S + (digits S - digits old)) with (S - (digits old - digits S)) by lia.
      destruct (digits_shrink S (digits old - digits S)) as [Hd|[Hd Hd']]; [lia..| |]; rewrite Hd.
      * rewrite Z.sub_diag. cbn. lia.
      * replace (digits S - 1 - digits S) with (-1) by lia. cbn. rewrite Hw; lia.
    + eexists. split; [reflexivity|]. lia.
  - eexists. split; [reflexivity|]. rewrite len_app, len_size_field. change (len ",") with 1.
    replace (S + (17 + digits S + 1)) with (S + (18 + digits S)) by lia. rewrite (Hw (S + _)) by lia.
    destruct (digits_grow S (18 + digits S)) as [Hd|[Hd Hd']]; [lia..| |]; rewrite Hd.
    + rewrite Z.sub_diag. cbn. lia.
    + replace (digits S + 1 - digits S) with 1 by lia. cbn. rewrite Hw; lia.
Qed.

Definition entry_size (rd : bool) (render : path) (e : path * node) : Z :=
  match counted rd render e, e.2 with true, NFile content => len content | _, _ => 0 end.

Definition total_size (rd : bool) (render : path) (l : list (path * node)) : Z := foldr (fun e n => entry_size rd render e + n) 0 l.

Lemma entry_size_nonneg rd render e : 0 <= entry_size rd render e.
Proof. unfold entry_size. destruct (counted _ _ _), e.2; try lia. apply len_nonneg. Qed.

Lemma total_size_nonneg rd render l : 0 <= total_size rd render l.
Proof. unfold total_size. induction l as [|e l IH]; cbn [foldr]; [lia|]. pose proof (entry_size_nonneg rd render e). lia. Qed.

(** The sizes are added exactly, or there is an error, when they exceed 64 bits. *)
Lemma add_sizes_total rd render l : forall acc, 0 <= acc <= max_uint64 -> add_sizes rd render acc l =
  if acc + total_size rd render l <=? max_uint64 then Ok (acc + total_size rd render l) else Err (UnknownError "failed to calculate size of run").
Proof.
  induction l as [|e l IH]; intros acc Hacc; cbn [add_sizes].
  { change (total_size rd render []) with 0. rewrite Z.add_0_r. destruct (Z.leb_spec acc max_uint64); [done|lia]. }
  change (total_size rd render (e :: l)) with (entry_size rd render e + total_size rd render l). unfold entry_size.
  pose proof (total_size_nonneg rd render l). destruct (counted rd render e); [|by rewrite IH].
  destruct (e.2) as [content|]; [|by rewrite IH]. pose proof (len_nonneg content).
  destruct (Z.gtb_spec (len content) (max_uint64 - acc)).
  - destruct (Z.leb_spec (acc + (len content + total_size rd render l)) max_uint64); [lia|done].
  - rewrite IH by lia. by rewrite Z.add_assoc.
Qed.

#[export] Instance total_size_proper rd render : Proper ((≡ₚ) ==> (=)) (total_size rd render).
Proof. unfold total_size. intros l k Hp. induction Hp; cbn [foldr]; lia. Qed.

(** The size of what is below a path, when one file is rewritten. *)
Lemma total_size_insert rd render run p t t' d : d !! p = Some (NFile t) -> run `prefix_of` p -> counted rd render (p, NFile t) = true ->
  total_size rd render (walk run (<[p := NFile t']> d)) = total_size rd render (walk run d) - len t + len t'.
Proof.
  intros Hp Hrun Hc. unfold walk. rewrite !merge_sort_Permutation, map_filter_insert_True by done.
  set (m := filter (fun kv => run `prefix_of` kv.1) d : disk). assert (m !! p = Some (NFile t)) as Hm by (by apply map_lookup_filter_Some).
  rewrite <- (map_to_list_delete (<[p := NFile t']> m) p (NFile t')) by apply lookup_insert_eq.
  rewrite <- (map_to_list_delete m p (NFile t)) by done. rewrite delete_insert_eq.
  unfold total_size. cbn [foldr]. unfold entry_size at 1 3. change (counted rd render (p, NFile t')) with (counted rd render (p, NFile t)).
  rewrite Hc. cbn [snd]. lia.
Qed.

Section Size.

Context (c : RunCollection) (f : faults) {J : JsonFiles}.

Lemma readMetadata_text d id m : node_at d (file_path c d id metadataFileName) = Some (NFile (metadata_text m)) -> survives m ->
  readMetadata c id d = (d, Ok m).
Proof.
  intros Hd Hs. unfold readMetadata, read_with, from_result, ReadJSONFile. rewrite Hd, bool_decide_false by apply metadata_text_nonempty.
  by rewrite decode_metadata_text.
Qed.

Definition run_size (d : disk) (run : path) : Z := total_size (is_dir d (run ++ [renderDirName])) (run ++ [renderDirName]) (walk run d).

Lemma calculate_ok d id : is_Some (node_at d (components (GetRunPath c d id))) -> run_size d (components (GetRunPath c d id)) <= max_uint64 ->
  calculateRunSizeLocked c id d = (d, Ok (run_size d (components (GetRunPath c d id)))).
Proof.
  intros [n Hn] Hmax. unfold calculateRunSizeLocked, from_result. rewrite Hn, add_sizes_total by (unfold max_uint64; lia).
  rewrite Z.add_0_l. fold (run_size d (components (GetRunPath c d id))). by destruct (Z.leb_spec (run_size d (components (GetRunPath c d id))) max_uint64); [|lia].
Qed.

(** The paths of a run, while the same directory has it. *)
Lemma run_paths d d' id : rooted_collection c -> plain_name id -> runBasePath c d' id = runBasePath c d id ->
  components (GetRunPath c d' id) = components (GetRunPath c d id) /\
  file_path c d' id metadataFileName = components (GetRunPath c d id) ++ [metadataFileName].
Proof.
  intros Hc Hid Hb. unfold GetRunPath, file_path. rewrite Hb. split; [done|]. fold (GetRunPath c d id). rewrite GetRunPath_components by done.
  change (file_path c d id metadataFileName = (base_of c d id ++ [id]) ++ [metadataFileName]).
  rewrite file_path_components; [by rewrite <- app_assoc|done|done|]. refine (bool_decide_unpack _ _). by vm_compute.
Qed.

(** [persistRunSizeLocked] of a run that is not in progress. *)
Lemma persist_unfold d id m n : readMetadata c id d = (d, Ok m) -> calculateRunSizeLocked c id d = (d, Ok n) ->
  RecipeResultIsInProgress (md_RunResult m) = false ->
  persistRunSizeLocked c f id d =
    if bool_decide (SizeBytes m = Some n) then (d, Ok false)
    else match adjustSizeForMetadata m n with
         | Ok a => (writeMetadata c f (RunUpdateMetadata id) id (with_size (Some a) m) ;; mret true) d
         | Err e => (d, Err e)
         end.
Proof.
  intros Hread Hcalc Hres. unfold persistRunSizeLocked, mbind at 1, op_bind at 1. rewrite Hread, Hres.
  unfold mbind at 1, op_bind at 1. rewrite Hcalc. destruct (bool_decide _); [done|]. unfold from_result, mbind, op_bind.
  by destruct (adjustSizeForMetadata m n).
Qed.

Lemma persist_rewrites id : rewrites c metadataFileName id (persistRunSizeLocked c f id).
Proof.
  unfold persistRunSizeLocked. apply bind_reads_rewrites; [apply from_result_reads|]. intros m.
  destruct (RecipeResultIsInProgress _); [apply ret_rewrites|]. apply bind_reads_rewrites; [apply from_result_reads|]. intros n.
  destruct (bool_decide _); [apply ret_rewrites|]. apply bind_reads_rewrites; [apply from_result_reads|]. intros a.
  apply bind_rewrites_ret, writeMetadata_rewrites.
Qed.

(** Rewriting a file of the run. *)
Lemma rewrite_file d p t t' : d !! p = Some (NFile t) -> p <> [] -> is_dir d (parent p) = true -> cut_short f p = None ->
  WriteFile f p t' d = (<[p := NFile t']> d, true).
Proof.
  intros Hp Hne Hd Hcut. unfold WriteFile, write_file. rewrite Hd, Hcut. cbn [negb].
  assert (node_at d p = Some (NFile t)) as -> by (by destruct p). rewrite bool_decide_false by done. cbn [andb].
  by destruct (String.length _); rewrite sapp_nil_r.
Qed.

(** The metadata of the run is this text, and the run is not too large. *)
Definition sized_run (d : disk) (run : path) (m : Metadata) : Prop :=
  d !! run = Some NDir /\ d !! (run ++ [metadataFileName]) = Some (NFile (metadata_text m)) /\ run_size d run <= max_uint64.

Lemma sized_run_reads d id m : rooted_collection c -> plain_name id -> survives m -> sized_run d (components (GetRunPath c d id)) m ->
  readMetadata c id d = (d, Ok m) /\ calculateRunSizeLocked c id d = (d, Ok (run_size d (components (GetRunPath c d id)))).
Proof.
  intros Hc Hid Hs (Hrun & Hp & Hmax). destruct (run_paths d d id Hc Hid eq_refl) as [_ Hpath]. split.
  - apply readMetadata_text; [|done]. rewrite Hpath. by destruct (components (GetRunPath c d id)).
  - apply calculate_ok; [|done]. unfold node_at. destruct (components (GetRunPath c d id)) eqn:Er; [by eexists|by rewrite Hrun; eexists].
Qed.

(** Rewriting the metadata of a run changes its size by the difference of the texts. *)
Lemma rewritten_size d run m m' : sized_run d run m -> let d' := <[run ++ [metadataFileName] := NFile (metadata_text m')]> d in
  run_size d' run = run_size d run - len (metadata_text m) + len (metadata_text m') /\
  d' !! run = Some NDir /\ len (metadata_text m) <= run_size d run.
Proof.
  intros (Hrun & Hp & _) d'.
  assert (counted (is_dir d (run ++ [renderDirName])) (run ++ [renderDirName]) (run ++ [metadataFileName], NFile (metadata_text m)) = true) as Hcounted.
  { unfold counted. rewrite (bool_decide_false (_ `prefix_of` _)), andb_false_r; [done|]. cbn. intros [k Hk].
    rewrite <- app_assoc in Hk. apply app_inv_head in Hk. done. }
  assert (run `prefix_of` run ++ [metadataFileName]) as Hpre by (by exists [metadataFileName]).
  assert (forall t', total_size (is_dir d (run ++ [renderDirName])) (run ++ [renderDirName]) (walk run (<[run ++ [metadataFileName] := NFile t']> d)) =
    run_size d run - len (metadata_text m) + len t') as Ht by (intros t'; by apply total_size_insert).
  split_and!.
  - unfold run_size at 1. rewrite <- Ht. f_equal. unfold is_dir, node_at, d'. destruct (run ++ [renderDirName]) eqn:Er; [done|].
    rewrite lookup_insert_ne; [done|]. rewrite <- Er. intros [_ Hf]%app_inj_2; done.
  - unfold d'. rewrite lookup_insert_ne; [done|]. intros Hf. apply (f_equal length) in Hf. rewrite length_app in Hf. cbn in Hf. lia.
  - pose proof (total_size_nonneg (is_dir d (run ++ [renderDirName])) (run ++ [renderDirName]) (walk run (<[run ++ [metadataFileName] := NFile EmptyString]> d))) as Hnn.
    rewrite Ht in Hnn. change (len EmptyString) with 0 in Hnn. lia.
Qed.

(** Recording the size of a finished run ends with the size in its metadata that the run
    has with this metadata, renders aside; nothing else changes; recording it again
    changes nothing. *)
Theorem recorded_size_is_actual d id m : rooted_collection c -> plain_name id ->
  let run := components (GetRunPath c d id) in
  let p := run ++ [metadataFileName] in
  sized_run d run m -> run_size d run + 64 < 2 ^ 64 -> size_ok m -> survives m ->
  (forall n, is_uint64 n -> survives (with_size (Some n) m)) ->
  RecipeResultIsInProgress (md_RunResult m) = false -> cut_short f p = None ->
  exists d' updated n, persistRunSizeLocked c f id d = (d', Ok updated) /\
    calculateRunSizeLocked c id d' = (d', Ok n) /\ readMetadata c id d' = (d', Ok (with_size (Some n) m)) /\
    persistRunSizeLocked c f id d' = (d', Ok false) /\ (forall q, q <> p -> d' !! q = d !! q).
Proof.
  intros Hc Hid run p Hd Hmax Hm Hs Hs' Hres Hcut. destruct (sized_run_reads d id m Hc Hid Hs Hd) as [Hread Hcalc]. fold run in Hcalc.
  pose proof (persist_unfold d id m _ Hread Hcalc Hres) as Hper. destruct (bool_decide (SizeBytes m = Some (run_size d run))) eqn:Hsz; bool_to_prop.
  { exists d, false, (run_size d run). split_and!; try done. by rewrite Hread, <- Hsz; destruct m. }
  destruct (rewritten_size d run m m Hd) as (_ & _ & Hle).
  destruct (adjust_fixpoint m (run_size d run) Hm Hle Hmax) as (S' & Hadj & Hu & HS').
  set (d' := <[p := NFile (metadata_text (with_size (Some S') m))]> d).
  destruct (rewritten_size d run m (with_size (Some S') m) Hd) as (Hsize & Hrun' & _). fold p d' in Hsize, Hrun'.
  assert (p <> []) as Hpne by (unfold p; by destruct run). destruct Hd as (Hrun & Hp & _). fold p in Hp.
  assert (forall q, d' !! q = None <-> d !! q = None) as Hsame by (intros q; by eapply insert_same_paths).
  destruct (run_paths d d' id Hc Hid (runBasePath_same c d d' id Hsame)) as [He1 He2]. destruct (run_paths d d id Hc Hid eq_refl) as [_ Hdp].
  assert (sized_run d' (components (GetRunPath c d' id)) (with_size (Some S') m)) as Hd'.
  { rewrite He1. fold run. split; [done|]. split; [apply lookup_insert_eq|]. unfold is_uint64, max_uint64 in *. lia. }
  destruct (sized_run_reads d' id _ Hc Hid (Hs' S' Hu) Hd') as [Hread' Hcalc']. rewrite He1 in Hcalc'. fold run in Hcalc'.
  replace (run_size d' run) with S' in Hcalc' by lia. exists d', true, S'. split_and!; [|done|done| |intros q Hq; by apply lookup_insert_ne].
  - rewrite Hper, Hadj. unfold writeMetadata, attempt, mbind, op_bind. rewrite Hdp. fold run p.
    rewrite (rewrite_file d p (metadata_text m)); [done|done|done| |done]. apply is_dir_true. unfold p, parent. rewrite removelast_last. by destruct run.
  - rewrite (persist_unfold d' id _ _ Hread' Hcalc' Hres). by rewrite bool_decide_true.
Qed.

End Size.

(** A finished run of one file and a render. *)
Definition sample_collection : RunCollection := NewRunCollectionWithSecondaryPaths "/" "/data/runs" ["/old/runs"].

Definition sample_disk (m : Metadata) : disk :=
  list_to_map [(["data"], NDir); (["data"; "runs"], NDir); (["data"; "runs"; "r042"], NDir);
    (["data"; "runs"; "r042"; "metadata.json"], NFile (metadata_text m)); (["data"; "runs"; "r042"; "perf.csv"], NFile "a,b");
    (["data"; "runs"; "r042"; "render"], NDir); (["data"; "runs"; "r042"; "render"; "t.db"], NFile "0123456789")].

Lemma recorded_size_is_actual_witness :
  let J := sample_json sample_metadata [sample_metadata] [] in
  let d := sample_disk sample_metadata in
  exists d' updated n, persistRunSizeLocked sample_collection no_faults (J := J) "r042" d = (d', Ok updated) /\
    calculateRunSizeLocked sample_collection "r042" d' = (d', Ok n) /\
    readMetadata sample_collection (J := J) "r042" d' = (d', Ok (with_size (Some n) sample_metadata)) /\
    persistRunSizeLocked sample_collection no_faults (J := J) "r042" d' = (d', Ok false) /\
    (forall q, q <> ["data"; "runs"; "r042"; "metadata.json"] -> d' !! q = d !! q).
Proof.
  intros J d.
  exact (recorded_size_is_actual sample_collection no_faults (J := J) d "r042" sample_metadata
    ltac:(repeat constructor; reflexivity) ltac:(refine (bool_decide_unpack _ _); vm_compute; exact I)
    ltac:(split; [vm_compute; reflexivity|split; [vm_compute; reflexivity|vm_compute; discriminate]])
    ltac:(vm_compute; reflexivity) I ltac:(vm_compute; reflexivity)
    ltac:(intros n Hn; cbn [survives J sample_json]; unfold sample_decode; cbn [List.find];
          rewrite bool_decide_false; [by apply sized_survives|];
          intros H; apply (f_equal len) in H; rewrite (len_metadata_text (with_size (Some n) _)) in H; cbn [with_size SizeBytes] in H;
          pose proof (digits_bounds n Hn); change (with_size None (with_size (Some n) sample_metadata)) with sample_metadata in H; lia)
    ltac:(reflexivity) eq_refl).
Defined.
