(* ===== verification/RunUpdates.v ===== *)
(** * Performix: updates of runs

    Models [core/apap-engine/run/categorization.go] and [update.go]: the group and the tags of a run,
    its source code paths, and the updates that change several of them at once. *)

From S2P Require Import Prelude.
From S2P Require Import GoStrings.
From S2P Require Import Json.
From S2P Require Import FilePaths.
From S2P Require Import Disk.
From S2P Require Import Model.
From S2P Require Import RunBuilder.
From S2P Require Import RunFiles.
From S2P Require Import RunCollection.
From S2P Require Import RunMetadata.
From Stdlib Require Import Ascii.

(** ** Groups and tags *)

Record RunCategorization := { Group : string; Tags : list string }.

Definition CategorizationFilename : string := "categorization.json".
Definition SourceCodeFilename : string := "source-code.json".

Definition no_categorization : RunCategorization := {| Group := EmptyString; Tags := [] |}.

Definition normalizeRunGroup (group : string) : result run_error string :=
  let trimmed := TrimSpace group in
  if bool_decide (trimmed = EmptyString) then Err (RunInvalidGroup group) else Ok trimmed.

(** The tags that were seen are those in [normalized]. *)
Fixpoint normalize_loop (all normalized tags : list string) : result run_error (list string) :=
  match tags with
  | [] => Ok normalized
  | t :: rest =>
      let tag := TrimSpace t in
      if bool_decide (tag = EmptyString) then Err (RunInvalidTags all)
      else if bool_decide (tag ∈ normalized) then normalize_loop all normalized rest
      else normalize_loop all (normalized ++ [tag]) rest
  end.

Definition normalizeRunTags (tags : list string) : result run_error (list string) := normalize_loop tags [] tags.

Definition addRunTags (existing tags : list string) : list string :=
  foldl (fun result tag => if bool_decide (tag ∈ result) then result else result ++ [tag]) existing tags.

Definition removeRunTags (existing tags : list string) : list string := filter (fun tag => tag ∉ tags) existing.

Definition categorization_text (x : RunCategorization) : string :=
  "{" +:+ Join "," [field "group" (quote (Group x)); field "tags" ("[" +:+ Join "," (quote <$> Tags x) +:+ "]")] +:+ "}".

Definition source_code_text (paths : list string) : string := "{" +:+ field "paths" ("[" +:+ Join "," (quote <$> paths) +:+ "]") +:+ "}".

(** ** Updates *)

(** [Unknown] is a nil operation. *)
Inductive RunUpdateOperation :=
| SetHostSourceCodePaths (paths : list string) | ClearHostSourceCodePaths
| SetRunGroup (group : string) | ClearRunGroup
| SetRunTags (tags : list string) | AddRunTags (tags : list string) | RemoveRunTags (tags : list string) | ClearRunTags
| UnknownOperation.

Definition normalize_operation (o : RunUpdateOperation) : result run_error RunUpdateOperation :=
  match o with
  | SetRunGroup group => g ← normalizeRunGroup group; mret (SetRunGroup g)
  | SetRunTags tags => ts ← normalizeRunTags tags; mret (SetRunTags ts)
  | AddRunTags tags => ts ← normalizeRunTags tags; mret (AddRunTags ts)
  | RemoveRunTags tags => ts ← normalizeRunTags tags; mret (RemoveRunTags ts)
  | UnknownOperation => Err (UnknownError "invalid update")
  | _ => Ok o
  end.

Fixpoint Normalize (update : list RunUpdateOperation) : result run_error (list RunUpdateOperation) :=
  match update with
  | [] => Ok []
  | o :: rest => o' ← normalize_operation o; rest' ← Normalize rest; mret (o' :: rest')
  end.

(** The variables of [UpdateRun]: paths to write, the categorization once it is loaded, and
    whether it has changed. *)
Record update_state := { sourceCodePaths : option (list string); categorization : option RunCategorization; categorizationChanged : bool }.

Definition start_update : update_state := {| sourceCodePaths := None; categorization := None; categorizationChanged := false |}.

(** [encoding/json] on categorizations. *)
Class CategorizationFiles := {
  decode_categorization : string -> option RunCategorization;
  categorization_survives : RunCategorization -> Prop;
  decode_categorization_text x : categorization_survives x -> decode_categorization (categorization_text x) = Some x
}.

Section Update.

Context (c : RunCollection) (f : faults) {J : JsonFiles} {K : CategorizationFiles}.

(** [readCategorization]: a missing file is an empty categorization. *)
Definition readCategorization (id : string) : op RunCategorization := from_result (fun d =>
  match ReadJSONFile no_categorization decode_categorization d (file_path c d id CategorizationFilename) with
  | Ok x => Ok x
  | Err NotExist => Ok no_categorization
  | Err e => Err (RunReadCategorization id e)
  end).

Definition ensureCategorization (id : string) (s : update_state) : op RunCategorization :=
  match categorization s with Some x => mret x | None => readCategorization id end.

Definition set_categorization (s : update_state) (x : RunCategorization) : update_state :=
  {| sourceCodePaths := sourceCodePaths s; categorization := Some x; categorizationChanged := true |}.

Definition set_sources (s : update_state) (paths : list string) : update_state :=
  {| sourceCodePaths := Some paths; categorization := categorization s; categorizationChanged := categorizationChanged s |}.

Definition update_step (id : string) (s : update_state) (o : RunUpdateOperation) : op update_state :=
  match o with
  | SetHostSourceCodePaths paths => mret (set_sources s paths)
  | ClearHostSourceCodePaths => mret (set_sources s [])
  | SetRunGroup group => x ← ensureCategorization id s; mret (set_categorization s {| Group := group; Tags := Tags x |})
  | ClearRunGroup => x ← ensureCategorization id s; mret (set_categorization s {| Group := EmptyString; Tags := Tags x |})
  | SetRunTags tags => x ← ensureCategorization id s; mret (set_categorization s {| Group := Group x; Tags := tags |})
  | AddRunTags tags => x ← ensureCategorization id s; mret (set_categorization s {| Group := Group x; Tags := addRunTags (Tags x) tags |})
  | RemoveRunTags tags => x ← ensureCategorization id s; mret (set_categorization s {| Group := Group x; Tags := removeRunTags (Tags x) tags |})
  | ClearRunTags => x ← ensureCategorization id s; mret (set_categorization s {| Group := Group x; Tags := [] |})
  | UnknownOperation => mret s
  end.

Fixpoint update_loop (id : string) (s : update_state) (os : list RunUpdateOperation) : op update_state :=
  match os with [] => mret s | o :: rest => s' ← update_step id s o; update_loop id s' rest end.

Definition updateHostSourceCodePaths (id : string) (paths : list string) : op unit :=
  attempt (RunUpdateSourceCodePaths id) (fun d => WriteFile f (file_path c d id SourceCodeFilename) (source_code_text paths) d).

Definition writeCategorization (id : string) (x : RunCategorization) : op unit :=
  attempt (RunUpdateCategorization id) (fun d => WriteFile f (file_path c d id CategorizationFilename) (categorization_text x) d).

(** What is written after the loop over the operations. *)
Definition write_update (id : string) (s : update_state) : op unit :=
  match sourceCodePaths s with Some paths => updateHostSourceCodePaths id paths | None => mret tt end ;;
  (if categorizationChanged s then writeCategorization id (default no_categorization (categorization s)) else mret tt) ;;
  quietly (persistRunSizeLocked c f id).

Definition UpdateRun (ans : lock_answer) (meanwhile : disk -> disk) (id : string) (update : list RunUpdateOperation) : op unit :=
  match Normalize update with
  | Err e => throw e
  | Ok [] => still_exists c id
  | Ok os => locked_run c ans meanwhile id ;; s ← update_loop id start_update os; write_update id s
  end.

(** [UpdateRuns], with the answers of the locks. *)
Fixpoint UpdateRuns (answers : list lock_answer) (ids : list string) (update : list RunUpdateOperation) (d : disk) : disk * list (option run_error) :=
  match ids, answers with
  | id :: rest, ans :: more =>
      let '(d1, r) := UpdateRun ans (fun d => d) id update d in
      let '(d2, errs) := UpdateRuns more rest update d1 in
      (d2, match r with Ok _ => None | Err e => Some e end :: errs)
  | _, _ => (d, [])
  end.

End Update.

(** ** What an update means *)

(** The abstract categorization: a group, and a set of tags. *)
Notation abstract := (string * gset string)%type.

Definition abs (x : RunCategorization) : abstract := (Group x, list_to_set (Tags x)).

Definition tag_set (trim : string -> string) (tags : list string) : gset string := list_to_set (trim <$> tags).

Definition spec_operation (trim : string -> string) (a : abstract) (o : RunUpdateOperation) : abstract :=
  match o with
  | SetRunGroup group => (trim group, a.2)
  | ClearRunGroup => (EmptyString, a.2)
  | SetRunTags tags => (a.1, tag_set trim tags)
  | AddRunTags tags => (a.1, a.2 ∪ tag_set trim tags)
  | RemoveRunTags tags => (a.1, a.2 ∖ tag_set trim tags)
  | ClearRunTags => (a.1, ∅)
  | _ => a
  end.

Definition spec_sources (s : option (list string)) (o : RunUpdateOperation) : option (list string) :=
  match o with SetHostSourceCodePaths paths => Some paths | ClearHostSourceCodePaths => Some [] | _ => s end.

Definition categorizes (o : RunUpdateOperation) : bool :=
  match o with SetHostSourceCodePaths _ | ClearHostSourceCodePaths | UnknownOperation => false | _ => true end.

(** What an operation asks for is not blank. *)
Definition acceptable (o : RunUpdateOperation) : Prop :=
  match o with
  | SetRunGroup group => TrimSpace group <> EmptyString
  | SetRunTags tags | AddRunTags tags | RemoveRunTags tags => Forall (fun t => TrimSpace t <> EmptyString) tags
  | UnknownOperation => False
  | _ => True
  end.

(** A set of tags as it is stored. *)
Definition tags_ok (tags : list string) : Prop := NoDup tags /\ EmptyString ∉ tags.

Lemma normalize_loop_spec all tags : forall normalized, tags_ok normalized ->
  (Forall (fun t => TrimSpace t <> EmptyString) tags ->
     exists ts, normalize_loop all normalized tags = Ok ts /\ tags_ok ts /\ (list_to_set ts : gset string) = list_to_set normalized ∪ tag_set TrimSpace tags) /\
  (~ Forall (fun t => TrimSpace t <> EmptyString) tags -> normalize_loop all normalized tags = Err (RunInvalidTags all)).
Proof.
  induction tags as [|t tags IH]; intros normalized Hn; cbn [normalize_loop].
  { split; [|intros H; by destruct H]. intros _. exists normalized. split_and!; [done|done|]. unfold tag_set. cbn. set_solver. }
  destruct (bool_decide (TrimSpace t = EmptyString)) eqn:He; bool_to_prop.
  { split; [|done]. by intros [? _]%Forall_cons. }
  assert (forall n', tags_ok n' -> (list_to_set n' : gset string) = list_to_set normalized ∪ {[TrimSpace t]} ->
    (Forall (fun t => TrimSpace t <> EmptyString) (t :: tags) ->
       exists ts, normalize_loop all n' tags = Ok ts /\ tags_ok ts /\ (list_to_set ts : gset string) = list_to_set normalized ∪ tag_set TrimSpace (t :: tags)) /\
    (~ Forall (fun t => TrimSpace t <> EmptyString) (t :: tags) -> normalize_loop all n' tags = Err (RunInvalidTags all))) as Hgo.
  { intros n' Hn' Hset. destruct (IH n' Hn') as [H1 H2]. split.
    - intros [_ Ht]%Forall_cons. destruct (H1 Ht) as (ts & ? & ? & Hts). exists ts. split_and!; [done|done|]. rewrite Hts, Hset. unfold tag_set. cbn. set_solver.
    - intros Ht. apply H2. intros Hf. apply Ht. by constructor. }
  destruct (bool_decide (TrimSpace t ∈ normalized)) eqn:Hin; bool_to_prop; apply Hgo; [done|set_solver| |].
  - destruct Hn as [Hnd Hne]. split; [apply NoDup_app; split; [done|split; [set_solver|apply NoDup_singleton]]|set_solver].
  - rewrite list_to_set_app_L. cbn. set_solver.
Qed.

Lemma normalizeRunTags_spec tags :
  (Forall (fun t => TrimSpace t <> EmptyString) tags -> exists ts, normalizeRunTags tags = Ok ts /\ tags_ok ts /\ tag_set id ts = tag_set TrimSpace tags) /\
  (~ Forall (fun t => TrimSpace t <> EmptyString) tags -> normalizeRunTags tags = Err (RunInvalidTags tags)).
Proof.
  destruct (normalize_loop_spec tags tags []) as [H1 H2]; [split; [constructor|set_solver]|]. split; [|done].
  intros Ht. destruct (H1 Ht) as (ts & ? & ? & Hs). exists ts. split_and!; [done|done|]. unfold tag_set at 1. rewrite list_fmap_id, Hs. set_solver.
Qed.

(** A normalized operation means the same, without trimming, and its tags are a set. *)
Definition normal (o : RunUpdateOperation) : Prop :=
  match o with SetRunTags tags | AddRunTags tags | RemoveRunTags tags => tags_ok tags | _ => True end.

Definition same_meaning (o o' : RunUpdateOperation) : Prop :=
  normal o' /\ (forall a, spec_operation id a o' = spec_operation TrimSpace a o) /\
  (forall s, spec_sources s o' = spec_sources s o) /\ categorizes o' = categorizes o.

#[export] Instance acceptable_dec o : Decision (acceptable o).
Proof. destruct o; cbn; apply _. Defined.

Lemma normalize_operation_spec o :
  (acceptable o -> exists o', normalize_operation o = Ok o' /\ same_meaning o o') /\ (~ acceptable o -> exists e, normalize_operation o = Err e).
Proof.
  destruct o as [paths| |group| |tags|tags|tags| |]; cbn [acceptable normalize_operation];
    try (split; [intros _; eexists; split; [reflexivity|done]|done]).
  - unfold normalizeRunGroup. destruct (bool_decide (TrimSpace group = EmptyString)) eqn:He; bool_to_prop; (split; [intros H|intros H]); try done; by eexists.
  - destruct (normalizeRunTags_spec tags) as [H1 H2]. split; [|intros Ht; rewrite H2 by done; by eexists].
    intros Ht. destruct (H1 Ht) as (ts & -> & Hok & Hs). exists (SetRunTags ts). split; [done|]. split_and!; cbn; try done. intros a. by rewrite Hs.
  - destruct (normalizeRunTags_spec tags) as [H1 H2]. split; [|intros Ht; rewrite H2 by done; by eexists].
    intros Ht. destruct (H1 Ht) as (ts & -> & Hok & Hs). exists (AddRunTags ts). split; [done|]. split_and!; cbn; try done. intros a. by rewrite Hs.
  - destruct (normalizeRunTags_spec tags) as [H1 H2]. split; [|intros Ht; rewrite H2 by done; by eexists].
    intros Ht. destruct (H1 Ht) as (ts & -> & Hok & Hs). exists (RemoveRunTags ts). split; [done|]. split_and!; cbn; try done. intros a. by rewrite Hs.
  - split; [done|]. intros _. by eexists.
Qed.

(** An update is rejected exactly when one of its operations is not acceptable. *)
Lemma Normalize_spec update :
  (Forall acceptable update -> exists os, Normalize update = Ok os /\ Forall2 same_meaning update os) /\
  (~ Forall acceptable update -> exists e, Normalize update = Err e).
Proof.
  induction update as [|o rest [IH1 IH2]]; cbn [Normalize].
  { split; [|intros H; by destruct H]. intros _. by exists []. }
  destruct (normalize_operation_spec o) as [H1 H2]. split.
  - intros [Ho Hr]%Forall_cons. destruct (H1 Ho) as (o' & -> & Hm). destruct (IH1 Hr) as (os & -> & Hf). exists (o' :: os). by split; [|constructor].
  - intros Hn. destruct (decide (acceptable o)) as [Ho|Ho]; [|destruct (H2 Ho) as [e ->]; by exists e]. destruct (H1 Ho) as (o' & -> & _).
    destruct IH2 as [e He]; [intros Hf; apply Hn; by constructor|]. exists e. cbn. by rewrite He.
Qed.

(** ** What an update does *)

Lemma abs_tags x tags : abs {| Group := Group x; Tags := tags |} = (Group x, list_to_set tags).
Proof. done. Qed.

Lemma addRunTags_spec existing tags : tags_ok existing -> tags_ok tags ->
  tags_ok (addRunTags existing tags) /\ (list_to_set (addRunTags existing tags) : gset string) = list_to_set existing ∪ list_to_set tags.
Proof.
  intros He [_ Hne]. unfold addRunTags. revert existing He. induction tags as [|t tags IH]; intros existing He; cbn [foldl].
  { split; [done|]. set_solver. }
  destruct (bool_decide (t ∈ existing)) eqn:Hin; bool_to_prop.
  - destruct (IH ltac:(set_solver) existing He) as [? ->]. split; [done|]. set_solver.
  - destruct (IH ltac:(set_solver) (existing ++ [t])) as [? ->].
    + destruct He as [Hnd He]. split; [apply NoDup_app; split; [done|split; [set_solver|apply NoDup_singleton]]|set_solver].
    + split; [done|]. rewrite list_to_set_app_L. set_solver.
Qed.

Lemma removeRunTags_spec existing tags : tags_ok existing ->
  tags_ok (removeRunTags existing tags) /\ (list_to_set (removeRunTags existing tags) : gset string) = list_to_set existing ∖ list_to_set tags.
Proof.
  intros [Hnd Hne]. unfold removeRunTags. split.
  - split; [by apply NoDup_filter|]. by intros [_ ?]%list_elem_of_filter.
  - apply set_eq. intros t. rewrite elem_of_difference, !elem_of_list_to_set, list_elem_of_filter. tauto.
Qed.

(** One operation on a loaded categorization. *)
Definition apply_operation (x : RunCategorization) (o : RunUpdateOperation) : RunCategorization :=
  match o with
  | SetRunGroup group => {| Group := group; Tags := Tags x |}
  | ClearRunGroup => {| Group := EmptyString; Tags := Tags x |}
  | SetRunTags tags => {| Group := Group x; Tags := tags |}
  | AddRunTags tags => {| Group := Group x; Tags := addRunTags (Tags x) tags |}
  | RemoveRunTags tags => {| Group := Group x; Tags := removeRunTags (Tags x) tags |}
  | ClearRunTags => {| Group := Group x; Tags := [] |}
  | _ => x
  end.

Lemma apply_operation_spec x o : tags_ok (Tags x) -> normal o ->
  tags_ok (Tags (apply_operation x o)) /\ abs (apply_operation x o) = spec_operation id (abs x) o.
Proof.
  intros Hx Ho. assert (forall tags, tag_set id tags = list_to_set tags) as Hid by (intros; unfold tag_set; by rewrite list_fmap_id).
  destruct o; cbn in *; rewrite ?Hid; unfold abs; cbn; try done.
  - destruct (addRunTags_spec (Tags x) tags Hx Ho) as [? ->]. done.
  - destruct (removeRunTags_spec (Tags x) tags Hx) as [? ->]. done.
  - split; [split; [constructor|set_solver]|done].
Qed.

Section Refinement.

Context (c : RunCollection) (f : faults) {J : JsonFiles} {K : CategorizationFiles}.

(** The state of the loop, when [r] is what reading the categorization gives. *)
Definition loaded (r : result run_error RunCategorization) (s : update_state) : result run_error RunCategorization :=
  match categorization s with Some x => Ok x | None => r end.

(** The loop reads the categorization when it is needed first, and goes on from there. *)
Lemma update_loop_spec id d r os : readCategorization c id d = (d, r) -> forall s,
  update_loop c id s os d =
    (d, if existsb categorizes os then
          x ← loaded r s;
          Ok {| sourceCodePaths := foldl spec_sources (sourceCodePaths s) os; categorization := Some (foldl apply_operation x os); categorizationChanged := true |}
        else Ok {| sourceCodePaths := foldl spec_sources (sourceCodePaths s) os; categorization := categorization s;
                   categorizationChanged := categorizationChanged s |}).
Proof.
  intros Hr. induction os as [|o os IH]; intros s; [by destruct s|]. cbn [update_loop existsb foldl].
  assert (forall x, update_loop c id (set_categorization s x) os d =
    (d, Ok {| sourceCodePaths := foldl spec_sources (sourceCodePaths s) os; categorization := Some (foldl apply_operation x os); categorizationChanged := true |})) as Hset.
  { intros x. rewrite IH. cbn. destruct (existsb categorizes os) eqn:He; [done|]. do 3 f_equal. clear -He. revert x.
    induction os as [|o os IH]; intros x; [done|]. cbn in *. apply orb_false_iff in He as [Ho He]. rewrite <- IH by done. by destruct o. }
  assert (ensureCategorization c id s d = (d, loaded r s)) as Hens.
  { unfold ensureCategorization, loaded. by destruct (categorization s). }
  destruct (categorizes o) eqn:Ho; cbn [orb].
  - assert (forall g, (s' ← (x ← ensureCategorization c id s; mret (set_categorization s (g x))); update_loop c id s' os) d =
      (d, x ← loaded r s; Ok {| sourceCodePaths := foldl spec_sources (sourceCodePaths s) os; categorization := Some (foldl apply_operation (g x) os); categorizationChanged := true |})) as Hgo.
    { intros g. unfold mbind at 1 2, op_bind at 1 2. rewrite Hens. destruct (loaded r s) as [x|e]; [|done]. apply Hset. }
    destruct o; try discriminate Ho; cbn [update_step spec_sources apply_operation]; apply (Hgo (fun x => _)).
  - assert (forall s', (s1 ← mret s'; update_loop c id s1 os) d = update_loop c id s' os d) as Hret by done.
    destruct o; try discriminate Ho; cbn [update_step spec_sources apply_operation]; rewrite Hret, IH; cbn; by destruct (existsb categorizes os).
Qed.

(** An identifier is not the name of one of the files. *)
Lemma id_plain id : looks_like_path id = false -> plain_name id /\ id <> metadataFileName /\ id <> CategorizationFilename /\ id <> SourceCodeFilename.
Proof.
  unfold looks_like_path. intros [He Hs]%orb_false_iff. bool_to_prop.
  assert (forall d, d ∈ ["."; "/"; "\"]%char -> byte_free d id = true) as Hf.
  { intros d Hd. eapply sall_impl; [|exact Hs]. intros a Ha. apply negb_true_iff in Ha. bool_to_prop. destruct (Ascii.eqb a d) eqn:Had; [|done].
    apply Ascii.eqb_eq in Had as ->. done. }
  assert (byte_free "." id = true) as Hdot by (apply Hf; set_solver). assert (byte_free "/" id = true) as Hsl by (apply Hf; set_solver).
  split_and!; try (intros ->; discriminate Hdot). split; [split_and!; [done| |done]|]; intros ->; discriminate Hdot.
Qed.

Definition three_files (d : disk) (id : string) : list path :=
  (fun name => file_path c d id name) <$> [metadataFileName; CategorizationFilename; SourceCodeFilename].

Lemma file_path_insert d id name name' n : rooted_collection c -> looks_like_path id = false ->
  name ∈ [metadataFileName; CategorizationFilename; SourceCodeFilename] ->
  file_path c (<[file_path c d id name := n]> d) id name' = file_path c d id name'.
Proof.
  intros Hc Hid Hn. destruct (id_plain id Hid) as (Hp & H1 & H2 & H3). unfold file_path. do 2 f_equal.
  assert (plain_name name /\ name <> id) as [Hpn Hne].
  { rewrite !elem_of_cons in Hn. destruct Hn as [-> |[-> |[-> |Hn]]]; [split; [|done]..|by apply elem_of_nil in Hn]; refine (bool_decide_unpack _ _); by vm_compute. }
  fold (file_path c d id name). rewrite file_path_components by done.
  change (base_of c d id ++ [id; name]) with (base_of c d id ++ [id] ++ [name]). rewrite app_assoc. by rewrite runBasePath_insert.
Qed.

(** What is written after the loop, and when writing fails. *)
Definition failed_write (d : disk) (id : string) : Prop := exists p text d1, p ∈ three_files d id /\ (WriteFile f p text d1).2 = false.

Lemma write_one e id name text d (k : op unit) : rooted_collection c -> looks_like_path id = false -> name ∈ [CategorizationFilename; SourceCodeFilename] ->
  let m := attempt e (fun d => WriteFile f (file_path c d id name) text d) ;; k in
  failed_write d id /\ (m d).2 = Err e \/ m d = k (<[file_path c d id name := NFile text]> d).
Proof.
  intros Hc Hid Hn m. unfold m, attempt, mbind, op_bind. destruct (WriteFile f _ text d) as [d1 ok] eqn:Hw. destruct ok.
  - right. destruct (write_file_spec _ _ _ _ _ _ _ Hw) as [[_ ?]|(w & -> & Hok)]; [done|]. by rewrite (Hok eq_refl eq_refl).
  - left. split; [|done]. exists (file_path c d id name), text, d. rewrite Hw. split; [|done]. unfold three_files. apply list_elem_of_fmap.
    exists name. split; [done|]. set_solver.
Qed.

Lemma file_path_ne d id name name' : rooted_collection c -> looks_like_path id = false ->
  plain_name name -> plain_name name' -> name <> name' -> file_path c d id name <> file_path c d id name'.
Proof.
  intros Hc Hid H1 H2 Hne. destruct (id_plain id Hid) as [Hp _]. rewrite !file_path_components by done.
  change (base_of c d id ++ [id] ++ [name] <> base_of c d id ++ [id] ++ [name']). rewrite !app_assoc. intros [_ He]%app_inj_2; [by simplify_eq|done].
Qed.

Definition sources_written (s : update_state) (d : disk) (id : string) : disk :=
  match sourceCodePaths s with Some ps => <[file_path c d id SourceCodeFilename := NFile (source_code_text ps)]> d | None => d end.

Definition tags_written (s : update_state) (d : disk) (id : string) : disk :=
  if categorizationChanged s
  then <[file_path c d id CategorizationFilename := NFile (categorization_text (default no_categorization (categorization s)))]> d else d.

(** The steps of [write_update], one after the other. *)
Lemma write_update_spec id s d d' r : rooted_collection c -> looks_like_path id = false -> write_update c f id s d = (d', r) ->
  match r with
  | Err e => failed_write d id
  | Ok _ => let d2 := tags_written s (sources_written s d id) id in
            d' = d2 \/ exists w, d' = <[file_path c d id metadataFileName := NFile w]> d2
  end.
Proof.
  intros Hc Hid. unfold write_update. set (tail := quietly (persistRunSizeLocked c f id)).
  set (mid := (if categorizationChanged s then writeCategorization c f id (default no_categorization (categorization s)) else mret tt) ;; tail).
  assert (forall name, file_path c (sources_written s d id) id name = file_path c d id name) as Hsrc.
  { intros name. unfold sources_written. destruct (sourceCodePaths s); [|done]. apply file_path_insert; [done|done|set_solver]. }
  assert (forall name d1, file_path c (tags_written s d1 id) id name = file_path c d1 id name) as Htag.
  { intros name d1. unfold tags_written. destruct (categorizationChanged s); [|done]. apply file_path_insert; [done|done|set_solver]. }
  assert (forall d1 d2 r2, three_files d1 id = three_files d id -> mid d1 = (d2, r2) ->
    match r2 with Err _ => failed_write d id | Ok _ => (tail (tags_written s d1 id)).1 = d2 end) as Hmid.
  { intros d1 d2 r2 H3 Hm. unfold mid, tags_written in *. destruct (categorizationChanged s).
    - destruct (write_one (RunUpdateCategorization id) id CategorizationFilename (categorization_text (default no_categorization (categorization s))) d1 tail)
        as [[Hf He]|He]; [done|done|set_solver| |].
      + unfold writeCategorization in Hm. rewrite Hm in He. cbn in He. subst r2. destruct Hf as (p & t & d0 & Hp & Hw). exists p, t, d0. by rewrite <- H3.
      + unfold writeCategorization in Hm. rewrite He in Hm. by injection Hm as <- <-.
    - cbn in Hm. by injection Hm as <- <-. }
  assert (three_files (sources_written s d id) id = three_files d id) as H3.
  { unfold three_files. apply list_fmap_ext. intros i name _. apply Hsrc. }
  intros Hw. assert (match r with Err _ => failed_write d id | Ok _ => (tail (tags_written s (sources_written s d id) id)).1 = d' end) as Hend.
  { unfold sources_written in *. destruct (sourceCodePaths s) as [ps|]; [|apply (Hmid d); [done|exact Hw]].
    destruct (write_one (RunUpdateSourceCodePaths id) id SourceCodeFilename (source_code_text ps) d mid) as [[Hf He]|He]; [done|done|set_solver| |].
    - unfold updateHostSourceCodePaths in Hw. rewrite Hw in He. cbn in He. by subst r.
    - unfold updateHostSourceCodePaths in Hw. rewrite He in Hw. by apply (Hmid _ d' r) in Hw. }
  destruct r as [u|]; [|done]. cbn zeta. subst d'. unfold tail, quietly. cbn [fst].
  destruct (persist_rewrites c f id (tags_written s (sources_written s d id) id)) as [->|[w ->]]; [by left|right; exists w]. by rewrite Htag, Hsrc.
Qed.

(** The normalized operations do what the operations that were asked for mean. *)
Lemma same_meaning_fold update os : Forall2 same_meaning update os ->
  (forall s, foldl spec_sources s os = foldl spec_sources s update) /\ existsb categorizes os = existsb categorizes update /\
  (forall x, tags_ok (Tags x) -> tags_ok (Tags (foldl apply_operation x os)) /\
     abs (foldl apply_operation x os) = foldl (spec_operation TrimSpace) (abs x) update).
Proof.
  induction 1 as [|o o' update os (Hn & Hm & Hs & Hc) _ (IH1 & IH2 & IH3)]; [done|]. cbn. split_and!.
  - intros s. by rewrite IH1, Hs.
  - by rewrite IH2, Hc.
  - intros x Hx. destruct (apply_operation_spec x o' Hx Hn) as [Hx' Ha]. destruct (IH3 _ Hx') as [Ht ->]. split; [done|]. by rewrite Ha, Hm.
Qed.

(** Why an update that writes nothing fails. *)
Definition refused (ans : lock_answer) (d d1 : disk) (id : string) (update : list RunUpdateOperation) : Prop :=
  ~ Forall acceptable update \/ runExists c d id = false \/ ans <> Locked \/ runExists c d1 id = false \/
  exists e, (readCategorization c id d1).2 = Err e.

(** What a successful update has done to the run. *)
Definition updated (d1 d' : disk) (id : string) (update : list RunUpdateOperation) : Prop :=
  let src := file_path c d1 id SourceCodeFilename in
  let cat := file_path c d1 id CategorizationFilename in
  (forall q, q ∉ three_files d1 id -> d' !! q = d1 !! q) /\
  d' !! src = match foldl spec_sources None update with Some paths => Some (NFile (source_code_text paths)) | None => d1 !! src end /\
  if existsb categorizes update then
    exists x x', (readCategorization c id d1).2 = Ok x /\ d' !! cat = Some (NFile (categorization_text x')) /\
      (tags_ok (Tags x) -> tags_ok (Tags x') /\ abs x' = foldl (spec_operation TrimSpace) (abs x) update)
  else d' !! cat = d1 !! cat.

(** The disk after a successful write, file by file. *)
Lemma written_updated s d1 d' id update os : rooted_collection c -> looks_like_path id = false -> Forall2 same_meaning update os ->
  (exists r, readCategorization c id d1 = (d1, r) /\ update_loop c id start_update os d1 = (d1, Ok s)) ->
  (let d2 := tags_written s (sources_written s d1 id) id in d' = d2 \/ exists w, d' = <[file_path c d1 id metadataFileName := NFile w]> d2) ->
  updated d1 d' id update.
Proof.
  intros Hc Hid Hm (r & Hr & Hloop) Hd'. destruct (same_meaning_fold update os Hm) as (Hsrc & Hcat & Hx).
  rewrite (update_loop_spec id d1 r os Hr), Hcat, Hsrc in Hloop. cbn [loaded start_update categorization sourceCodePaths categorizationChanged] in Hloop.
  set (p := file_path c d1 id) in *.
  assert (forall a b, a ∈ [metadataFileName; CategorizationFilename; SourceCodeFilename] -> b ∈ [metadataFileName; CategorizationFilename; SourceCodeFilename] -> a <> b -> p a <> p b) as Hne.
  { intros a b Ha Hb. apply file_path_ne; [done|done|..]; rewrite !elem_of_cons in *;
      repeat match goal with H : _ \/ _ |- _ => destruct H as [-> |H] | H : _ ∈ [] |- _ => by apply elem_of_nil in H end; refine (bool_decide_unpack _ _); by vm_compute. }
  assert (forall name, file_path c (sources_written s d1 id) id name = p name) as Hps.
  { intros name. unfold sources_written. destruct (sourceCodePaths s); [|done]. apply file_path_insert; [done|done|set_solver]. }
  assert (forall q, q <> p metadataFileName -> d' !! q = tags_written s (sources_written s d1 id) id !! q) as Hmeta.
  { intros q Hq. destruct Hd' as [-> |[w ->]]; [done|]. by apply lookup_insert_ne. }
  unfold tags_written in Hmeta. rewrite Hps in Hmeta. unfold updated. fold (p SourceCodeFilename) (p CategorizationFilename). split_and!.
  - intros q Hq. unfold three_files in Hq. cbn in Hq. fold p in Hq. rewrite Hmeta by set_solver.
    transitivity (sources_written s d1 id !! q); [destruct (categorizationChanged s); [apply lookup_insert_ne; set_solver|done]|].
    unfold sources_written. fold p. destruct (sourceCodePaths s); [apply lookup_insert_ne; set_solver|done].
  - rewrite Hmeta by (apply not_eq_sym, Hne; [set_solver..|done]).
    transitivity (sources_written s d1 id !! p SourceCodeFilename); [destruct (categorizationChanged s); [|done]; apply lookup_insert_ne, Hne; [set_solver..|done]|].
    assert (sourceCodePaths s = foldl spec_sources None update) as <-.
    { destruct (existsb categorizes update); [|by injection Hloop as <-]. destruct r; [by injection Hloop as <-|done]. }
    unfold sources_written. fold p. destruct (sourceCodePaths s); [apply lookup_insert_eq|done].
  - assert (p CategorizationFilename <> p metadataFileName) as Hcm by (apply Hne; [set_solver..|done]).
    destruct (existsb categorizes update).
    + rewrite Hr. destruct r as [x|e]; [|done]. injection Hloop as <-. exists x, (foldl apply_operation x os). split; [done|]. split; [|by apply Hx].
      rewrite Hmeta by done. apply lookup_insert_eq.
    + injection Hloop as <-. rewrite Hmeta by done. cbn [categorizationChanged]. unfold sources_written. fold p. cbn [sourceCodePaths].
      destruct (foldl spec_sources None update); [|done]. apply lookup_insert_ne, Hne; [set_solver..|done].
Qed.

(** An update of a run that fails has written nothing, unless writing one of its files
    failed; an update that succeeds has set the source code paths to the last ones given,
    has applied the operations on groups and sets of tags in their order, with blanks trimmed
    and without duplicates, and has changed nothing else but the recorded size. *)
Theorem update_refines_sets ans meanwhile id update d d' r : rooted_collection c -> looks_like_path id = false ->
  UpdateRun c f ans meanwhile id update d = (d', r) ->
  let d1 := meanwhile d in
  match r with
  | Err _ => refused ans d d1 id update /\ (d' = d \/ d' = d1) \/ failed_write d1 id
  | Ok _ => Forall acceptable update /\ (update = [] /\ d' = d \/ updated d1 d' id update)
  end.
Proof.
  intros Hc Hid Hu d1. unfold UpdateRun in Hu. destruct (Normalize_spec update) as [H1 H2].
  destruct (decide (Forall acceptable update)) as [Hacc|Hacc].
  2:{ destruct (H2 Hacc) as [e He]. rewrite He in Hu. injection Hu as <- <-. left. split; [by left|by left]. }
  destruct (H1 Hacc) as (os & Hos & Hm). rewrite Hos in Hu. destruct os as [|o os].
  { inversion Hm. subst. unfold still_exists in Hu. destruct (runExists c d id) eqn:He; injection Hu as <- <-; [split; [done|by left]|].
    left. split; [right; by left|by left]. }
  set (rest := fun (_ : unit) => s ← update_loop c id start_update (o :: os); write_update c f id s) in Hu.
  assert (readCategorization c id d1 = (d1, (readCategorization c id d1).2)) as Hr by done.
  unfold locked_run, lockRun, still_exists, modify, mbind, op_bind in Hu. destruct (runExists c d id) eqn:He; cbn [negb] in Hu.
  2:{ injection Hu as <- <-. left. split; [right; by left|by left]. }
  destruct ans; [|injection Hu as <- <-; left; split; [right; right; by left|by left]..]. fold d1 in Hu.
  destruct (runExists c d1 id) eqn:He1; [|injection Hu as <- <-; left; split; [do 3 right; by left|by right]].
  unfold rest, mbind, op_bind in Hu. pose proof (update_loop_spec id d1 _ (o :: os) Hr start_update) as Hloop. rewrite Hloop in Hu.
  match type of Hu with context [match (if ?b then ?x else ?y) with _ => _ end] => destruct (if b then x else y) as [s|e] eqn:Hs end.
  - pose proof (write_update_spec id s d1 d' r Hc Hid Hu) as Hw. destruct r as [u|e]; [|by right]. split; [done|]. right.
    eapply written_updated; [done|done|exact Hm| |exact Hw]. exists (readCategorization c id d1).2. split; [done|]. rewrite Hloop. by f_equal.
  - injection Hu as <- <-. left. split; [|by right]. do 4 right. destruct (existsb categorizes (o :: os)); [|done].
    unfold loaded in Hs. cbn [start_update categorization] in Hs. destruct ((readCategorization c id d1).2) as [x|e']; [done|by exists e'].
Qed.

End Refinement.

(** A decoder that knows some categorizations. *)
Program Definition sample_categorizations (known : list RunCategorization) : CategorizationFiles := {|
  decode_categorization t := List.find (fun x => bool_decide (categorization_text x = t)) known;
  categorization_survives x := List.find (fun y => bool_decide (categorization_text y = categorization_text x)) known = Some x
|}.
Next Obligation. done. Qed.

Definition sample_update : list RunUpdateOperation :=
  [SetRunTags [" a"; "b"; "a "]; SetHostSourceCodePaths ["/src"]; RemoveRunTags ["b"]; AddRunTags ["c"; "a"]; SetRunGroup " g "].

Definition sample_categorization : RunCategorization := {| Group := "old"; Tags := ["z"] |}.

Definition sample_update_disk : disk :=
  <[["data"; "runs"; "r042"; "categorization.json"] := NFile (categorization_text sample_categorization)]> (sample_disk sample_metadata).

Lemma update_refines_sets_witness :
  let J := sample_json sample_metadata [sample_metadata] [] in
  let K := sample_categorizations [sample_categorization] in
  exists d', UpdateRun sample_collection no_faults (J := J) (K := K) Locked (fun d => d) "r042" sample_update sample_update_disk = (d', Ok tt) /\
    d' !! ["data"; "runs"; "r042"; "categorization.json"] = Some (NFile (categorization_text {| Group := "g"; Tags := ["a"; "c"] |})) /\
    (Forall acceptable sample_update /\ (sample_update = [] /\ d' = sample_update_disk \/
      updated sample_collection (K := K) sample_update_disk d' "r042" sample_update)).
Proof.
  intros J K.
  pose proof (update_refines_sets sample_collection no_faults (J := J) (K := K) Locked (fun d => d) "r042" sample_update sample_update_disk
    (UpdateRun sample_collection no_faults (J := J) (K := K) Locked (fun d => d) "r042" sample_update sample_update_disk).1 (Ok tt)
    ltac:(repeat constructor; reflexivity) ltac:(vm_compute; reflexivity)) as H.
  assert ((UpdateRun sample_collection no_faults (J := J) (K := K) Locked (fun d => d) "r042" sample_update sample_update_disk).2 = Ok tt) as Hok
    by (vm_compute; reflexivity).
  eexists. split; [rewrite <- Hok; apply surjective_pairing|]. split; [vm_compute; reflexivity|].
  apply H. rewrite <- Hok. apply surjective_pairing.
Defined.
