(* ===== verification/RunArchive.v ===== *)
(** * Performix: exporting and importing runs

    Models [ExportRun] and [ImportRun] of [core/apap-engine/run/run.go]: the entries of the zip
    archive of a run, the validation of an archive, and its extraction. An archive is the list of
    its entries, as [archive/zip] writes and reads them. *)

From S2P Require Import Prelude.
From S2P Require Import GoStrings.
From S2P Require Import FilePaths.
From S2P Require Import Disk.
From S2P Require Import RunFiles.
From S2P Require Import RunCollection.
From S2P Require Import RunMetadata.
From Stdlib Require Import Ascii.

Local Open Scope Z_scope.

(** ** Archives *)

(** [zip.File]: what can be read of the content, and whether it is read without an error. *)
Record zip_file := { z_Name : string; z_IsDir : bool; z_data : string; z_intact : bool; UncompressedSize64 : Z }.

(** [filepath.Base] *)
Fixpoint trim_slashes (s : string) : string :=
  match s with
  | EmptyString => EmptyString
  | String c s' => let t := trim_slashes s' in
                   if bool_decide (t = EmptyString) && Ascii.eqb c "/" then EmptyString else String c t
  end.

Definition Base (p : string) : string :=
  if bool_decide (p = EmptyString) then "."
  else match trim_slashes p with
       | EmptyString => "/"
       | t => List.last (Split "/" t) EmptyString
       end.

Inductive archive_error :=
| EmptyArchive | TopLevelFile (name : string) | TopLevels (n : nat) | MissingFiles (names : list string)
| AbsoluteEntry (name : string) | EntryExists (name : string) | OutsideEntry (name : string) | DiskFailed.

#[export] Instance archive_error_eq_dec : EqDecision archive_error.
Proof. solve_decision. Defined.

(** The loop of [validateZipArchive]: the top-level names, and whether a manifest and metadata
    were seen. *)
Record seen := { topLevels : gset string; hasManifest : bool; hasMetadata : bool }.

Fixpoint validate_loop (files : list zip_file) (s : seen) : result archive_error seen :=
  match files with
  | [] => Ok s
  | file :: rest =>
      let normalized := TrimPrefix (z_Name file) "/" in
      if bool_decide (normalized = EmptyString) || bool_decide (normalized = ".") then validate_loop rest s
      else
        match Split "/" normalized with
        | [] => validate_loop rest s
        | topLevel :: parts =>
            if bool_decide (topLevel = EmptyString) then validate_loop rest s
            else
              let s1 := {| topLevels := {[topLevel]} ∪ topLevels s; hasManifest := hasManifest s; hasMetadata := hasMetadata s |} in
              match parts with
              | [] => if negb (z_IsDir file) then Err (TopLevelFile (z_Name file)) else validate_loop rest s1
              | [name] =>
                  if negb (z_IsDir file)
                  then validate_loop rest {| topLevels := topLevels s1;
                         hasManifest := hasManifest s1 || bool_decide (name = manifestFileName);
                         hasMetadata := hasMetadata s1 || bool_decide (name = metadataFileName) |}
                  else validate_loop rest s1
              | _ => validate_loop rest s1
              end
        end
  end.

Definition validateZipArchive (files : list zip_file) : result archive_error unit :=
  match validate_loop files {| topLevels := ∅; hasManifest := false; hasMetadata := false |} with
  | Err e => Err e
  | Ok s =>
      if negb (size (topLevels s) =? 1)%nat then Err (TopLevels (size (topLevels s)))
      else
        match (if hasMetadata s then [] else [metadataFileName]) ++ (if hasManifest s then [] else [manifestFileName]) with
        | [] => Ok tt
        | missing => Err (MissingFiles missing)
        end
  end.

(** [getRunIDFromZipFn] of an archive that can be opened. *)
Definition getRunIDFromZip (files : list zip_file) : result archive_error string :=
  match files with
  | [] => Err EmptyArchive
  | first :: _ => match validateZipArchive files with Ok _ => Ok (Base (z_Name first)) | Err e => Err e end
  end.

(** [estimatedUnzipSizeFn]: [None] when the sum overflows. *)
Definition estimatedUnzipSize (files : list zip_file) : option Z :=
  foldl (fun total file => t ← total; if z_IsDir file then Some t
                           else if UncompressedSize64 file >? max_uint64 - t then None else Some (t + UncompressedSize64 file)) (Some 0) files.

(** ** Extraction *)

Section Unzip.

Context (cwd : string) (f : faults).

Definition sanitizeArchiveEntry (d : disk) (entryPath dstDir : string) : result archive_error string :=
  let dstDirAbs := Abs cwd dstDir in
  if HasPrefix entryPath "/" then Err (AbsoluteEntry entryPath)
  else
    let entryPathAbs := Abs cwd (JoinPath [dstDir; entryPath]) in
    if PathExists d entryPathAbs then Err (EntryExists entryPathAbs)
    else if negb (IsChildPath dstDirAbs entryPathAbs) then Err (OutsideEntry entryPath)
    else Ok entryPathAbs.

(** One turn of the loop of [unzipFn]. *)
Definition unzip_entry (dstDir : string) (file : zip_file) (d : disk) : disk * result archive_error unit :=
  match sanitizeArchiveEntry d (z_Name file) dstDir with
  | Err e => (d, Err e)
  | Ok fpath =>
      let p := components fpath in
      let '(d1, ok1) := MkdirAll f (if z_IsDir file then p else parent p) d in
      if negb ok1 then (d1, Err DiskFailed)
      else if z_IsDir file then (d1, Ok tt)
      else
        let '(d2, ok2) := write_file f false p (z_data file) d1 in
        (d2, if ok2 && z_intact file then Ok tt else Err DiskFailed)
  end.

Fixpoint unzip_loop (dstDir : string) (files : list zip_file) (d : disk) : disk * result archive_error unit :=
  match files with
  | [] => (d, Ok tt)
  | file :: rest =>
      match unzip_entry dstDir file d with
      | (d1, Ok _) => unzip_loop dstDir rest d1
      | (d1, Err e) => (d1, Err e)
      end
  end.

Definition unzip (files : list zip_file) (dstDir : string) (d : disk) : disk * result archive_error unit :=
  match MkdirAll f (components (Abs cwd dstDir)) d with
  | (d1, true) => unzip_loop dstDir files d1
  | (d1, false) => (d1, Err DiskFailed)
  end.

End Unzip.

(** ** Export *)

(** The entries that [zipDirectory] writes, for the components below the directory [run]. *)
Definition zip_entry (run : path) (baseDir : string) (e : path * node) : option zip_file :=
  let rel := drop (length run) e.1 in
  if bool_decide (head rel = Some renderDirName) then None
  else
    let name := Join "/" (baseDir :: rel) in
    Some match e.2 with
         | NDir => {| z_Name := name +:+ "/"; z_IsDir := true; z_data := EmptyString; z_intact := true; UncompressedSize64 := 0 |}
         | NFile content => {| z_Name := name; z_IsDir := false; z_data := content; z_intact := true; UncompressedSize64 := len content |}
         end.

Definition zipDirectory (run : path) (baseDir : string) (d : disk) : list zip_file := omap (zip_entry run baseDir) (walk run d).

(** [ExportRun]: the archive that is written. *)
Definition ExportRun (c : RunCollection) (ans : lock_answer) (meanwhile : disk -> disk) (id : string) : op (list zip_file) :=
  locked_run c ans meanwhile id ;;
  from_result (fun d => Ok (zipDirectory (components (GetRunPath c d id)) (Base (GetRunPath c d id)) d)).

(** ** Extraction stays in its directory *)

Section Extraction.

Context (cwd : string) (f : faults).

(** At or below the directory, or on the way to it. *)
Definition near (dst q : path) : Prop := q <> [] /\ (dst `prefix_of` q \/ q `prefix_of` dst).

Lemma Abs_rooted p : HasPrefix p "/" = true -> Abs cwd p = Clean p.
Proof. intros Hp. unfold Abs. by rewrite Hp. Qed.

Lemma sanitize_ok d entryPath dstDir p : HasPrefix dstDir "/" = true -> sanitizeArchiveEntry cwd d entryPath dstDir = Ok p ->
  HasPrefix entryPath "/" = false /\ components p = components (JoinPath [dstDir; entryPath]) /\ node_at d (components p) = None /\
  exists x l, components p = components dstDir ++ x :: l.
Proof.
  intros Hdst. unfold sanitizeArchiveEntry. rewrite (Abs_rooted dstDir) by done.
  rewrite (Abs_rooted (JoinPath [dstDir; entryPath])) by (by apply JoinPath_rooted).
  destruct (HasPrefix entryPath "/"); [done|]. destruct (PathExists d _) eqn:He; [done|].
  destruct (IsChildPath _ _) eqn:Hch; [|done]. cbn [negb]. intros [= <-]. rewrite components_Clean. split_and!; [done|done| |].
  - unfold PathExists in He. rewrite components_Clean in He. bool_to_prop. by apply eq_None_not_Some.
  - apply IsChildPath_spec in Hch as (_ & x & l & Hc & _). rewrite !components_Clean in Hc. by exists x, l.
Qed.

Lemma prefix_near (dst q : path) l : q <> [] -> q `prefix_of` dst ++ l -> near dst q.
Proof. intros Hne Hq. split; [done|]. destruct (prefix_weak_total q dst (dst ++ l)) as [?|?]; [done|by exists l|by right|by left]. Qed.

Lemma unzip_entry_adds dstDir file d : HasPrefix dstDir "/" = true -> adds (near (components dstDir)) d (unzip_entry cwd f dstDir file d).1.
Proof.
  intros Hdst. unfold unzip_entry. destruct (sanitizeArchiveEntry _ _ _ _) as [p|] eqn:Hs; [|done].
  destruct (sanitize_ok _ _ _ _ Hdst Hs) as (_ & _ & Hn & x & l & Hp).
  set (target := if z_IsDir file then components p else parent (components p)).
  pose proof (MkdirAll_adds f target d) as Hm. destruct (MkdirAll f target d) as [d1 ok1]. destruct Hm as [Hm Hok].
  assert (target `prefix_of` components p) as Ht by (unfold target; destruct (z_IsDir file); [done|apply parent_prefix]).
  assert (adds (near (components dstDir)) d d1) as Ha.
  { eapply adds_weaken; [|exact Hm]. intros q [Hne Hq]. apply (prefix_near _ _ (x :: l)); [done|]. rewrite <- Hp. etransitivity; [exact Hq|exact Ht]. }
  destruct ok1; cbn [negb]; [|done]. destruct (z_IsDir file) eqn:Hdir; [done|].
  destruct (write_file f false (components p) (z_data file) d1) as [d2 ok2] eqn:Hw. cbn [fst]. etransitivity; [exact Ha|].
  assert (components p <> []) as Hne by (rewrite Hp; by destruct (components dstDir)).
  assert (node_at d1 (components p) = None) as Hn1.
  { unfold node_at in *. destruct (components p) as [|y k] eqn:Hc; [done|]. destruct (Hm (y :: k)) as [-> |[_ [_ Hpre]]]; [done|]. exfalso.
    apply prefix_length in Hpre. unfold target, parent in Hpre. pose proof (app_removelast_last EmptyString Hne) as Hl.
    apply (f_equal length) in Hl. rewrite length_app in Hl. cbn in Hl, Hpre. lia. }
  destruct (write_new _ _ _ _ _ _ _ Hn1 Hw) as [Hadd _]. eapply adds_weaken; [|exact Hadd]. intros q <-. split; [done|]. left. exists (x :: l). exact Hp.
Qed.

Lemma unzip_loop_adds dstDir files : HasPrefix dstDir "/" = true -> forall d, adds (near (components dstDir)) d (unzip_loop cwd f dstDir files d).1.
Proof.
  intros Hdst. induction files as [|file files IH]; intros d; [done|]. cbn [unzip_loop].
  pose proof (unzip_entry_adds dstDir file d Hdst) as Ha. destruct (unzip_entry cwd f dstDir file d) as [d1 [u|e]]; [|done].
  etransitivity; [exact Ha|apply IH].
Qed.

Lemma unzip_adds files dstDir d : HasPrefix dstDir "/" = true -> adds (near (components dstDir)) d (unzip cwd f files dstDir d).1.
Proof.
  intros Hdst. unfold unzip. rewrite Abs_rooted, components_Clean by done.
  pose proof (MkdirAll_adds f (components dstDir) d) as Hm. destruct (MkdirAll f (components dstDir) d) as [d1 ok]. destruct Hm as [Hm _].
  assert (adds (near (components dstDir)) d d1) as Ha by (eapply adds_weaken; [|exact Hm]; intros q [? Hq]; split; [done|by right]).
  destruct ok; [|exact Ha]. etransitivity; [exact Ha|by apply unzip_loop_adds].
Qed.

(** C27: whatever an archive contains, extracting it, whether it succeeds or fails, leaves
    every file and directory that was there as it was, and creates entries only below the
    destination, or the directories that lead to it. *)
Theorem unzip_stays_below files dstDir d : HasPrefix dstDir "/" = true ->
  let d' := (unzip cwd f files dstDir d).1 in
  forall p, d' !! p = d !! p \/ d !! p = None /\ near (components dstDir) p.
Proof.
  intros Hdst. exact (unzip_adds files dstDir d Hdst).
Qed.

End Extraction.

Lemma unzip_stays_below_witness :
  let evil := [{| z_Name := "r1/a"; z_IsDir := false; z_data := "x"; z_intact := true; UncompressedSize64 := 1 |};
               {| z_Name := "r1/../../b"; z_IsDir := false; z_data := "y"; z_intact := true; UncompressedSize64 := 1 |}] in
  let d := <[["d"] := NDir]> ∅ : disk in
  (unzip "/" no_faults evil "/d/t" d).2 = Err (OutsideEntry "r1/../../b") /\
  let d' := (unzip "/" no_faults evil "/d/t" d).1 in
  forall p, d' !! p = d !! p \/ d !! p = None /\ near ["d"; "t"] p.
Proof. intros evil d. split; [vm_compute; reflexivity|]. exact (unzip_stays_below "/" no_faults evil "/d/t" d eq_refl). Defined.
