(* ===== verification/RunEntries.v ===== *)
(** * Performix: the archive of a run

    What [zipDirectory] writes for a run ([core/apap-engine/run/run.go]), seen from the importing
    side: the archive is valid, its identifier is that of the run, and extracting it gives the
    directories and files of the run. *)

From S2P Require Import Prelude.
From S2P Require Import GoStrings.
From S2P Require Import Sorting.
From S2P Require Import FilePaths.
From S2P Require Import Disk.
From S2P Require Import RunFiles.
From S2P Require Import RunCollection.
From S2P Require Import RunArchive.
From Stdlib Require Import Ascii.

Local Open Scope Z_scope.

(** ** Names of entries *)

Lemma rooted_nonempty p : HasPrefix p "/" = true -> p <> EmptyString.
Proof. by intros Hp ->. Qed.

Lemma plain_name_free c : plain_name c -> byte_free "/" c = true.
Proof. by intros [(_ & _ & ?) _]. Qed.

(** The name of an entry, of a directory or not. *)
Definition entry_name (l : path) (dir : bool) : string := Join "/" l +:+ (if dir then "/" else EmptyString).

Lemma entry_name_Split l dir : l <> [] -> Forall plain_name l -> Split "/" (entry_name l dir) = l ++ (if dir then [EmptyString] else []).
Proof.
  intros Hne Hl. assert (Split "/" (Join "/" l) = l) as Hs.
  { apply Split_Join; [done|]. eapply Forall_impl; [exact Hl|]. apply plain_name_free. }
  unfold entry_name. destruct dir; [|by rewrite sapp_nil_r, app_nil_r]. rewrite Split_app, Hs. done.
Qed.

Lemma entry_name_first l dir : l <> [] -> Forall plain_name l -> exists ch r, entry_name l dir = String ch r /\ Ascii.eqb ch "/" = false.
Proof.
  intros Hne Hl. destruct l as [|c l]; [done|]. apply Forall_cons in Hl as [Hc _]. unfold entry_name. destruct (Join_cons "/" c l) as (r & -> & _).
  destruct c as [|ch c]; [by destruct Hc as [[? _] _]|]. exists ch. eexists. split; [by rewrite !sapp_cons|].
  apply plain_name_free in Hc. cbn in Hc. by apply andb_true_iff in Hc as [?%negb_true_iff _].
Qed.

Lemma entry_name_relative l dir : l <> [] -> Forall plain_name l ->
  HasPrefix (entry_name l dir) "/" = false /\ TrimPrefix (entry_name l dir) "/" = entry_name l dir /\
  entry_name l dir <> EmptyString /\ entry_name l dir <> ".".
Proof.
  intros Hne Hl. destruct (entry_name_first l dir Hne Hl) as (ch & r & Hn & Hch).
  assert (HasPrefix (entry_name l dir) "/" = false) as Hp.
  { rewrite Hn. destruct (HasPrefix _ _) eqn:E; [|done]. apply prefix_spec in E as [t Ht]. rewrite sapp_cons in Ht. injection Ht as -> _. done. }
  split_and!; [done| |by rewrite Hn|].
  - unfold TrimPrefix. by rewrite Hp.
  - intros He. pose proof (entry_name_Split l dir Hne Hl) as Hs. rewrite He in Hs. cbn in Hs. destruct l as [|c l]; [done|].
    injection Hs as <- _. apply Forall_cons in Hl as [[(_ & Hd & _) _] _]. done.
Qed.

(** Where an entry is extracted. *)
Lemma entry_name_components dst l dir : HasPrefix dst "/" = true -> l <> [] -> Forall plain_name l ->
  components (JoinPath [dst; entry_name l dir]) = components dst ++ l.
Proof.
  intros Hdst Hne Hl. destruct (entry_name_relative l dir Hne Hl) as (_ & _ & Hn & _). pose proof (rooted_nonempty _ Hdst).
  rewrite JoinPath_pair, components_Clean, components_slash, entry_name_Split, clean_components_app, (components_names _ _ l) by done.
  destruct dir; cbn [clean_components]; rewrite ?bool_decide_true by done; cbn [orb clean_components]; by rewrite !reverse_involutive.
Qed.

(** [filepath.Base] of a path that ends with a plain name, possibly with a slash. *)
Lemma trim_slashes_app a b : trim_slashes b <> EmptyString -> trim_slashes (a +:+ b) = a +:+ trim_slashes b.
Proof.
  intros Hb. induction a as [|ch a IH]; [by rewrite !sapp_nil_l|]. rewrite !sapp_cons. cbn [trim_slashes]. rewrite IH.
  rewrite bool_decide_false; [done|]. destruct a; [by rewrite sapp_nil_l|by rewrite sapp_cons].
Qed.

Lemma trim_slashes_free s : byte_free "/" s = true -> trim_slashes s = s.
Proof.
  induction s as [|ch s IH]; [done|]. cbn. intros [Hch%negb_true_iff Hs]%andb_true_iff. by rewrite IH, Hch, andb_false_r.
Qed.

Lemma Base_name pre c : plain_name c -> Split "/" (pre +:+ c) <> [] -> List.last (Split "/" (pre +:+ c)) EmptyString = c -> Base (pre +:+ c) = c.
Proof.
  intros Hc _ Hl. assert (trim_slashes c = c) as Ht by (by apply trim_slashes_free, plain_name_free). pose proof (plain_name_nonempty _ Hc) as Hne.
  unfold Base. rewrite trim_slashes_app by (by rewrite Ht). rewrite Ht. assert (pre +:+ c <> EmptyString) as Hpc.
  { destruct pre; [by rewrite sapp_nil_l|by rewrite sapp_cons]. }
  rewrite bool_decide_false by done. by destruct (pre +:+ c).
Qed.

Lemma Base_path dst c : HasPrefix dst "/" = true -> plain_name c -> Base (JoinPath [dst; c]) = c.
Proof.
  intros Hdst Hc. pose proof (rooted_nonempty _ Hdst) as Hne. pose proof (components_child dst c Hne Hc) as Hcomp.
  pose proof (JoinPath_rooted dst c Hdst) as Hr. rewrite JoinPath_pair in * by (done || by apply plain_name_nonempty).
  rewrite <- Clean_Clean, Clean_text by (rewrite Hcomp; by destruct (components dst)). rewrite Hr, Hcomp.
  assert (exists pre, "/" +:+ Join "/" (components dst ++ [c]) = (pre +:+ "/") +:+ c) as [pre ->].
  { destruct (components dst) as [|x l] eqn:E; [by exists EmptyString|]. exists ("/" +:+ Join "/" (x :: l)). rewrite Join_app by done. by rewrite <- !sapp_assoc. }
  apply Base_name; [done|apply Split_nonempty|]. rewrite sapp_assoc. change ("/" +:+ c) with (String "/" c). rewrite Split_app.
  rewrite (plain_name_Split c) by done. apply List.last_last.
Qed.

Lemma Base_directory c : plain_name c -> Base (c +:+ "/") = c.
Proof.
  intros Hc. pose proof (plain_name_nonempty _ Hc) as Hne. assert (trim_slashes (c +:+ "/") = c) as Ht.
  { pose proof (plain_name_free _ Hc) as Hf. clear Hc Hne. induction c as [|ch c IH]; [done|]. rewrite sapp_cons. cbn in Hf |- *.
    apply andb_true_iff in Hf as [Hch%negb_true_iff Hf]. by rewrite IH, Hch, andb_false_r. }
  unfold Base. rewrite Ht, bool_decide_false by (destruct c; by rewrite ?sapp_cons). destruct c as [|ch c]; [done|]. by rewrite plain_name_Split.
Qed.

(** ** The entries of a run *)

Section Run.

Context (id : string) (run : path) (d : disk) (Hid : plain_name id).

(** The run is a directory of plain names, what is above an entry is a directory, and the run
    has its metadata and its manifest. *)
Record run_tree := {
  tree_root : d !! run = Some NDir;
  tree_above : forall q r, r <> [] -> is_Some (d !! (run ++ q ++ r)) -> d !! (run ++ q) = Some NDir;
  tree_names : forall q n, d !! (run ++ q) = Some n -> Forall plain_name q;
  tree_files : forall name, name = metadataFileName \/ name = manifestFileName -> exists t, d !! (run ++ [name]) = Some (NFile t)
}.

Context (Htree : run_tree).

Definition is_directory (n : node) : bool := match n with NDir => true | NFile _ => false end.

(** The entry of a component of the run, which the render is not. *)
Definition entry_of (q : path) (n : node) : zip_file :=
  {| z_Name := entry_name (id :: q) (is_directory n); z_IsDir := is_directory n;
     z_data := match n with NFile t => t | NDir => EmptyString end; z_intact := true;
     UncompressedSize64 := match n with NFile t => len t | NDir => 0 end |}.

Lemma zip_entry_below q n : zip_entry run id (run ++ q, n) = if bool_decide (head q = Some renderDirName) then None else Some (entry_of q n).
Proof.
  unfold zip_entry. cbn [fst snd]. rewrite drop_app_length. destruct (bool_decide _); [done|]. unfold entry_of, entry_name.
  destruct n; cbn [is_directory]; by rewrite ?sapp_nil_r.
Qed.

(** What [walk] visits later is not above what it visits before. *)
Lemma walk_before made k n rest q : walk run d = made ++ (k, n) :: rest -> q <> [] -> k = run ++ q ->
  forall q1 r m, q = q1 ++ r -> r <> [] -> (run ++ q1, m) ∈ walk run d -> (run ++ q1, m) ∈ made.
Proof.
  intros Hw Hq -> q1 r m -> Hr Hin. pose proof (walk_sorted run d) as Hs. rewrite Hw in Hin, Hs.
  apply elem_of_app in Hin as [?|Hin]; [done|]. exfalso. apply StronglySorted_app_1_r in Hs. apply StronglySorted_inv in Hs as [_ Hall].
  apply elem_of_cons in Hin as [Hin|Hin].
  - injection Hin as Hin _. rewrite app_assoc in Hin. symmetry in Hin. rewrite <- (app_nil_r (run ++ q1)) in Hin at 2. by apply app_inv_head in Hin.
  - rewrite Forall_forall in Hall. apply (Hall _ Hin). unfold entry_compare. cbn [fst]. rewrite app_assoc. by apply path_compare_extension.
Qed.

Lemma walk_first : exists rest, walk run d = (run, NDir) :: rest.
Proof.
  assert ((run, NDir) ∈ walk run d) as Hin by (apply elem_of_walk; split; [apply Htree|done]).
  destruct (walk run d) as [|[k n] rest] eqn:Hw; [by apply not_elem_of_nil in Hin|]. assert ((k, n) ∈ walk run d) as Hk by (rewrite Hw; by left).
  apply elem_of_walk in Hk as [Hk [q ->]]. destruct (decide (q = [])) as [->|Hq].
  - rewrite app_nil_r in *. exists rest. rewrite (tree_root Htree) in Hk. by injection Hk as <-.
  - pose proof (walk_before [] _ _ rest q Hw Hq eq_refl [] q NDir eq_refl Hq) as Hb. rewrite app_nil_r, Hw in Hb. by apply Hb, not_elem_of_nil in Hin.
Qed.

(** *** Validation *)

Definition file_named (name : string) (q : path) (n : node) : bool := negb (is_directory n) && bool_decide (q = [name]).

Definition see (q : path) (n : node) (s : seen) : seen :=
  {| topLevels := {[id]} ∪ topLevels s; hasManifest := hasManifest s || file_named manifestFileName q n;
     hasMetadata := hasMetadata s || file_named metadataFileName q n |}.

Lemma validate_entry q n rest s : Forall plain_name q -> (is_directory n = false -> q <> []) ->
  validate_loop (entry_of q n :: rest) s = validate_loop rest (see q n s).
Proof.
  intros Hq Hn. assert (Forall plain_name (id :: q)) as Hl by by constructor.
  destruct (entry_name_relative (id :: q) (is_directory n) ltac:(done) Hl) as (_ & Ht & Hne & Hdot).
  cbn [validate_loop entry_of z_Name z_IsDir]. rewrite Ht, (bool_decide_false (_ = EmptyString)), (bool_decide_false (_ = ".")) by done. cbn [orb].
  rewrite entry_name_Split by done. cbn [app]. rewrite bool_decide_false by (by apply plain_name_nonempty). unfold see, file_named.
  destruct n as [t|]; cbn [is_directory negb andb].
  - rewrite app_nil_r. destruct q as [|x [|y q]]; [by destruct Hn| |rewrite !(bool_decide_false (_ = [_])) by done; by rewrite !orb_false_r].
    do 2 f_equal; f_equal; apply bool_decide_ext; split; congruence.
  - rewrite !orb_false_r. destruct q as [|x [|y q]]; done.
Qed.

Lemma validate_skipped q n : head q = Some renderDirName -> file_named manifestFileName q n = false /\ file_named metadataFileName q n = false.
Proof. intros Hq. unfold file_named. split; destruct (bool_decide (q = _)) eqn:E; bool_to_prop; subst; try done; by rewrite andb_false_r. Qed.

(** The entries that are looked at, with what is on the disk. *)
Definition of_run (l : list (path * node)) : Prop := Forall (fun e => exists q, e.1 = run ++ q /\ d !! e.1 = Some e.2) l.

Lemma walk_of_run : of_run (walk run d).
Proof. apply Forall_forall. intros [k n] Hin. apply elem_of_walk in Hin as [Hk [q ->]]. by exists q. Qed.

Definition saw (name : string) (l : list (path * node)) : bool := existsb (fun e => file_named name (drop (length run) e.1) e.2) l.

Lemma validate_entries l : of_run l -> forall s, topLevels s = {[id]} ->
  validate_loop (omap (zip_entry run id) l) s =
    Ok {| topLevels := {[id]}; hasManifest := hasManifest s || saw manifestFileName l; hasMetadata := hasMetadata s || saw metadataFileName l |}.
Proof.
  induction 1 as [|[k n] l (q & Hk & Hn) _ IH]; intros s Hs; cbn [fst snd] in *.
  { cbn. destruct s. cbn in *. by rewrite Hs, !orb_false_r. }
  subst k. cbn [omap list_omap]. rewrite zip_entry_below. cbn [saw existsb fst snd]. rewrite drop_app_length.
  pose proof (tree_names Htree q n Hn) as Hq. destruct (bool_decide (head q = Some renderDirName)) eqn:Hr; bool_to_prop.
  - destruct (validate_skipped q n Hr) as [-> ->]. by rewrite IH.
  - rewrite validate_entry; [|done|].
    + rewrite IH by (unfold see; cbn; rewrite Hs; apply union_idemp_L). unfold see. cbn [hasManifest hasMetadata]. by rewrite <- !orb_assoc.
    + intros Hd ->. rewrite app_nil_r, (tree_root Htree) in Hn. by injection Hn as <-.
Qed.

(** The archive of a run is that of a run with its identifier. *)
Lemma exported_id : getRunIDFromZip (zipDirectory run id d) = Ok id.
Proof.
  assert (forall name, name = metadataFileName \/ name = manifestFileName -> saw name (walk run d) = true) as Hsaw.
  { intros name Hname. destruct (tree_files Htree name Hname) as [t Ht]. apply existsb_exists. exists (run ++ [name], NFile t). split.
    - apply list_elem_of_In, elem_of_walk. split; [done|by eexists].
    - cbn [fst snd]. rewrite drop_app_length. unfold file_named. cbn. by apply bool_decide_eq_true. }
  pose proof walk_of_run as Hof. destruct walk_first as [rest Hw]. unfold zipDirectory. rewrite Hw in *. cbn [omap list_omap].
  pose proof (zip_entry_below [] NDir) as Hz. rewrite app_nil_r in Hz. rewrite Hz. cbn [getRunIDFromZip bool_decide head].
  rewrite bool_decide_false by done. cbn [getRunIDFromZip]. unfold validateZipArchive. rewrite validate_entry by done.
  apply Forall_cons in Hof as [_ Hof]. rewrite validate_entries; [|done|by cbn; rewrite union_empty_r_L].
  cbn [see hasManifest hasMetadata topLevels]. rewrite size_singleton. cbn [Nat.eqb negb].
  assert (forall name, name = metadataFileName \/ name = manifestFileName -> saw name rest = true) as Hsaw'.
  { intros name Hname. specialize (Hsaw name Hname). unfold saw in Hsaw |- *. cbn [existsb fst snd] in Hsaw. rewrite drop_ge in Hsaw by done. exact Hsaw. }
  rewrite !Hsaw' by auto. rewrite !orb_true_r. cbn [app]. cbn [entry_of z_Name is_directory]. unfold entry_name. cbn [Join]. by rewrite Base_directory.
Qed.

(** *** Extraction *)

Context (cwd dst : string) (Hdst : HasPrefix dst "/" = true).

Definition target : path := components dst.

(** The disk when these entries of the run have been extracted to the destination. *)
Definition extracted (seen : list (path * node)) (d' : disk) : Prop :=
  (forall q, q `prefix_of` target -> is_dir d' q = true) /\
  forall q, d' !! (target ++ id :: q) =
    if bool_decide (head q = Some renderDirName) then None else if bool_decide ((run ++ q) ∈ seen.*1) then d !! (run ++ q) else None.

Lemma extracted_skip made q n d' : head q = Some renderDirName -> extracted made d' -> extracted (made ++ [(run ++ q, n)]) d'.
Proof.
  intros Hq [Hdirs Hin]. split; [done|]. intros q'. rewrite Hin. destruct (bool_decide (head q' = _)) eqn:Hr; bool_to_prop; [done|].
  rewrite fmap_app. cbn. erewrite bool_decide_ext; [done|]. rewrite elem_of_app, list_elem_of_singleton. split; [by left|]. intros [?|Heq]; [done|].
  apply app_inv_head in Heq as ->. done.
Qed.

Lemma extracted_add made q n d' : head q <> Some renderDirName -> d !! (run ++ q) = Some n -> extracted made d' ->
  extracted (made ++ [(run ++ q, n)]) (<[target ++ id :: q := n]> d').
Proof.
  intros Hq Hn [Hdirs Hin]. split.
  - intros p Hp. specialize (Hdirs p Hp). apply is_dir_true in Hdirs. apply is_dir_true. unfold node_at in *. destruct p as [|x p]; [done|].
    rewrite lookup_insert_ne; [done|]. intros He. rewrite <- He in Hp. apply prefix_length in Hp. rewrite length_app in Hp. cbn in Hp. lia.
  - intros q'. destruct (decide (q' = q)) as [->|Hne].
    + rewrite lookup_insert_eq, bool_decide_false, bool_decide_true by (done || (rewrite fmap_app; apply elem_of_app; right; by left)). done.
    + rewrite lookup_insert_ne by (intros [= He]%app_inv_head; done). rewrite Hin, fmap_app. destruct (bool_decide (head q' = _)); [done|].
      erewrite bool_decide_ext; [done|]. cbn. rewrite elem_of_app, list_elem_of_singleton. split; [by left|]. intros [?|Heq]; [done|]. by apply app_inv_head in Heq.
Qed.

(** What is above an entry is there when its turn comes. *)
Lemma above_extracted made q n rest d' : walk run d = made ++ (run ++ q, n) :: rest -> head q <> Some renderDirName -> extracted made d' ->
  forall p, p `prefix_of` target ++ id :: q -> p <> target ++ id :: q -> is_dir d' p = true.
Proof.
  intros Hw Hq [Hdirs Hin] p Hp Hne. destruct (prefix_weak_total p target _ Hp ltac:(by eexists)) as [Ht|[k ->]]; [by apply Hdirs|].
  destruct k as [|x q1]; [apply Hdirs; by rewrite app_nil_r|]. apply prefix_app_inv in Hp. apply prefix_cons_inv_1 in Hp as Hx. subst x.
  apply prefix_cons_inv_2 in Hp as [r ->]. assert (r <> []) as Hr by (intros ->; by rewrite app_nil_r in Hne).
  assert ((run ++ q1 ++ r, n) ∈ walk run d) as Hk by (rewrite Hw; apply elem_of_app; right; by left). apply elem_of_walk in Hk as [Hk _].
  assert (d !! (run ++ q1) = Some NDir) as Hd1 by (apply (tree_above Htree q1 r); [done|by eexists]).
  assert ((run ++ q1, NDir) ∈ made) as Hmade.
  { eapply (walk_before made _ n rest (q1 ++ r) Hw); [by destruct q1|done|done|done|]. apply elem_of_walk. split; [done|by eexists]. }
  apply is_dir_true. unfold node_at. destruct (target ++ id :: q1) eqn:Et; [by destruct target|]. rewrite <- Et, Hin.
  rewrite bool_decide_false; [|intros He; apply Hq; by destruct q1]. rewrite bool_decide_true; [done|]. apply list_elem_of_fmap. by exists (run ++ q1, NDir).
Qed.

Lemma sanitize_entry made q n rest d' : walk run d = made ++ (run ++ q, n) :: rest -> Forall plain_name q -> extracted made d' ->
  exists p, sanitizeArchiveEntry cwd d' (z_Name (entry_of q n)) dst = Ok p /\ components p = target ++ id :: q /\ d' !! (target ++ id :: q) = None.
Proof.
  intros Hw Hq [Hdirs Hin]. assert (Forall plain_name (id :: q)) as Hl by by constructor. cbn [entry_of z_Name].
  pose proof (entry_name_components dst (id :: q) (is_directory n) Hdst ltac:(done) Hl) as Hc. fold target in Hc.
  destruct (entry_name_relative (id :: q) (is_directory n) ltac:(done) Hl) as (Hrel & _ & Hne & _).
  assert (d' !! (target ++ id :: q) = None) as Hnone.
  { rewrite Hin. destruct (bool_decide _); [done|]. rewrite bool_decide_false; [done|]. pose proof (walk_NoDup run d) as Hnd. rewrite Hw, fmap_app in Hnd.
    apply NoDup_app in Hnd as (_ & Hnd & _). intros He. apply (Hnd _ He). by left. }
  exists (Clean (JoinPath [dst; entry_name (id :: q) (is_directory n)])). rewrite components_Clean, Hc. split_and!; [|done|done].
  unfold sanitizeArchiveEntry. rewrite Hrel, (Abs_rooted cwd dst), (Abs_rooted cwd (JoinPath [dst; _])) by (done || by apply JoinPath_rooted).
  unfold PathExists. rewrite components_Clean, Hc. unfold node_at. destruct (target ++ id :: q) eqn:Et; [by destruct target|]. rewrite <- Et in *. rewrite Hnone.
  rewrite bool_decide_false by (by intros []). assert (IsChildPath (Clean dst) (Clean (JoinPath [dst; entry_name (id :: q) (is_directory n)])) = true) as ->; [|done].
  apply IsChildPath_spec. rewrite !Clean_rooted, !components_Clean, Hc. split; [by rewrite Hdst, JoinPath_rooted|].
  exists id, q. split; [done|apply Hid].
Qed.

Lemma extract_entry made q n rest d' : walk run d = made ++ (run ++ q, n) :: rest -> Forall plain_name q -> head q <> Some renderDirName -> extracted made d' ->
  unzip_entry cwd no_faults dst (entry_of q n) d' = (<[target ++ id :: q := n]> d', Ok tt).
Proof.
  intros Hw Hq Hr Hx. destruct (sanitize_entry made q n rest d' Hw Hq Hx) as (p & Hs & Hp & Hnone).
  pose proof (above_extracted made q n rest d' Hw Hr Hx) as Habove.
  assert (exists up x, target ++ id :: q = up ++ [x]) as (up & x & Hup).
  { exists (removelast (target ++ id :: q)), (List.last (target ++ id :: q) EmptyString). apply app_removelast_last. by destruct target. }
  assert (forall k, k `prefix_of` up -> is_dir d' k = true) as Hdirs.
  { intros k [r ->]. apply Habove; [rewrite Hup; exists (r ++ [x]); by rewrite app_assoc|]. rewrite Hup. intros He.
    apply (f_equal length) in He. rewrite !length_app in He. cbn in He. lia. }
  unfold unzip_entry. rewrite Hs, Hp. rewrite Hup in *. destruct n as [t|]; cbn [entry_of z_IsDir is_directory z_data z_intact].
  - unfold parent. rewrite removelast_last, MkdirAll_done by done. cbn [negb]. unfold write_file, parent. rewrite removelast_last, Hdirs by done. cbn [negb].
    assert (node_at d' (up ++ [x]) = None) as -> by (unfold node_at; destruct (up ++ [x]) eqn:E; [by destruct up|done]). cbn. by destruct (String.length t); rewrite sapp_nil_r.
  - by rewrite MkdirAll_last.
Qed.

Lemma extract_entries l : forall made d', walk run d = made ++ l -> extracted made d' ->
  exists d2, unzip_loop cwd no_faults dst (omap (zip_entry run id) l) d' = (d2, Ok tt) /\ extracted (walk run d) d2.
Proof.
  induction l as [|[k n] l IH]; intros made d' Hw Hx.
  { rewrite app_nil_r in Hw. exists d'. split; [done|]. by rewrite Hw. }
  pose proof walk_of_run as Hof. unfold of_run in Hof. rewrite Hw, Forall_app, Forall_cons in Hof. destruct Hof as (_ & (q & Hk & Hn) & _).
  cbn [fst snd] in Hk, Hn. subst k. cbn [omap list_omap]. rewrite zip_entry_below. destruct (bool_decide (head q = _)) eqn:Hr; bool_to_prop.
  - apply (IH (made ++ [(run ++ q, n)])); [by rewrite <- app_assoc|by apply extracted_skip].
  - cbn [unzip_loop]. rewrite (extract_entry made q n l) by (done || by eapply tree_names).
    apply (IH (made ++ [(run ++ q, n)])); [by rewrite <- app_assoc|by apply extracted_add].
Qed.

(** Extracting the archive of a run where nothing is at its destination. *)
Lemma unzip_exported d' : (forall q, q `prefix_of` target -> is_dir d' q = true) -> (forall q, d' !! (target ++ id :: q) = None) ->
  exists d2, unzip cwd no_faults (zipDirectory run id d) dst d' = (d2, Ok tt) /\
    (forall q, q `prefix_of` target -> is_dir d2 q = true) /\
    forall q, d2 !! (target ++ id :: q) = if bool_decide (head q = Some renderDirName) then None else d !! (run ++ q).
Proof.
  intros Hdirs Hnone. unfold unzip. rewrite Abs_rooted, components_Clean by done. fold target. rewrite MkdirAll_done by done.
  destruct (extract_entries (walk run d) [] d' eq_refl) as (d2 & Hu & Hd2 & Hin).
  { split; [done|]. intros q. rewrite Hnone. by destruct (bool_decide _). }
  exists d2. split_and!; [done..|]. intros q. rewrite Hin. destruct (bool_decide (head q = _)); [done|].
  destruct (d !! (run ++ q)) as [n|] eqn:Hn; [|by destruct (bool_decide _)]. rewrite bool_decide_true; [done|].
  apply list_elem_of_fmap. exists (run ++ q, n). split; [done|]. apply elem_of_walk. split; [done|by eexists].
Qed.

End Run.
