(* ===== verification/RunImport.v ===== *)
(** * Performix: importing runs

    Models [ImportRun] of [core/apap-engine/run/run.go]: an archive is extracted to a temporary
    directory, and the run in it is moved to the collection. An import that fails leaves the
    disk as it was, and what has been exported is imported as it was. *)

From S2P Require Import Prelude.
From S2P Require Import GoStrings.
From S2P Require Import Sorting.
From S2P Require Import FilePaths.
From S2P Require Import Disk.
From S2P Require Import RunFiles.
From S2P Require Import RunCollection.
From S2P Require Import RunMetadata.
From S2P Require Import RunArchive.
From S2P Require Import RunEntries.
From Stdlib Require Import Ascii.

Local Open Scope Z_scope.

(** ** Import *)

Inductive import_error :=
| ZipFileNotExist | OpenZipFile | ZipFileInvalid (cause : option archive_error) | GenerateRunIdFailed
| LowDiskSpaceTempDir (required : option Z) | LowDiskSpaceRunDir (required : option Z) | ImportUnknown.

Section Importing.

Context (c : RunCollection) (cwd : string) (f : faults) {J : JsonFiles}.

(** An error of the disk, by [util.IsLowDiskSpace]. *)
Definition disk_error (low : bool) (yes no : import_error) : import_error := if low then yes else no.

(** What is done between creating and cleaning the temporary directory. *)
Definition import_through (tempDir oldID runID : string) (files : list zip_file) (low : bool) (d : disk) : disk * result import_error unit :=
  let required := estimatedUnzipSize files in
  match unzip cwd f files tempDir d with
  | (d1, Err e) => (d1, Err (disk_error (low && bool_decide (e = DiskFailed)) (LowDiskSpaceTempDir required) (ZipFileInvalid (Some e))))
  | (d1, Ok _) =>
      match Rename f (components (JoinPath [tempDir; oldID])) (components (JoinPath [primaryPath c; runID])) d1 with
      | (d2, true) => (d2, Ok tt)
      | (d2, false) => (d2, Err (disk_error low (LowDiskSpaceRunDir required) (ZipFileInvalid None)))
      end
  end.

(** The identifier under which the archive is imported. *)
Definition import_id (oldID : string) (uuids : list string) (d : disk) : result import_error string :=
  if looks_like_path oldID then Err (ZipFileInvalid None)
  else if runExists c d oldID then match getNextRunID c uuids d with Ok id => Ok id | Err _ => Err GenerateRunIdFailed end
  else Ok oldID.

(** [archive] is what opening the file gives, and whether the file is missing. The temporary
    directory has the name [temp_name], which is not used. *)
Definition ImportRun (archive : result bool (list zip_file)) (uuids : list string) (temp_name : string) (low : bool)
    (shared exclusive : lock_answer) (meanwhile : disk -> disk) (d : disk) : disk * result import_error string :=
  match archive with
  | Err missing => (d, Err (if missing then ZipFileNotExist else OpenZipFile))
  | Ok files =>
      match getRunIDFromZip files with
      | Err e => (d, Err (ZipFileInvalid (Some e)))
      | Ok oldID =>
          match import_id oldID uuids d with
          | Err e => (d, Err e)
          | Ok runID =>
              let tempDir := JoinPath [primaryPath c; temp_name] in
              match Mkdir f (components tempDir) d with
              | (d1, false) => (d1, Err (disk_error low (LowDiskSpaceTempDir (estimatedUnzipSize files)) ImportUnknown))
              | (d1, true) =>
                  match import_through tempDir oldID runID files low d1 with
                  | (d2, Err e) => (RemoveAll (components tempDir) d2, Err e)
                  | (d2, Ok _) =>
                      let '(d3, _) := quietly (PersistRunSize c f shared exclusive meanwhile runID) d2 in
                      (RemoveAll (components tempDir) d3, Ok runID)
                  end
              end
          end
      end
  end.

End Importing.

(** ** An import that fails leaves nothing *)

(** What does not look like a path is a plain name. *)
Lemma name_not_path id : looks_like_path id = false -> plain_name id.
Proof.
  unfold looks_like_path. intros [Hne Hall]%orb_false_iff. bool_to_prop.
  assert (byte_free "/" id = true) as Hs.
  { eapply sall_impl; [|exact Hall]. intros x Hx. bool_to_prop. destruct (Ascii.eqb_spec x "/") as [->|]; [|done]. by vm_compute in Hx. }
  split; [split; [done|split; [|done]]|]; intros ->; vm_compute in Hall; discriminate.
Qed.

Section Imported.

Context (c : RunCollection) (cwd : string) (f : faults) {J : JsonFiles}.

Lemma next_run_id_ok uuids d tries id : next_run_id c tries uuids d = Ok id ->
  runExists c d id = false /\ exists u, u ∈ uuids /\ id = slice u (len u - runIDLength) (len u).
Proof.
  revert uuids. induction tries as [|tries IH]; intros [|u uuids]; cbn [next_run_id]; try done.
  assert (next_run_id c tries uuids d = Ok id -> runExists c d id = false /\ exists u', u' ∈ u :: uuids /\ id = slice u' (len u' - runIDLength) (len u')) as Hgo.
  { intros H. destruct (IH _ H) as [? (u' & ? & ?)]. split; [done|]. exists u'. split; [by right|done]. }
  destruct (negb _); [done|]. destruct (negb (runExists c d _) && _) eqn:He; [|done]. intros [= <-].
  apply andb_true_iff in He as [He%negb_true_iff _]. split; [done|]. exists u. split; [by left|done].
Qed.

(** The tail of every new identifier is a plain name. *)
Definition plain_uuids (uuids : list string) : Prop := Forall (fun u => plain_name (slice u (len u - runIDLength) (len u))) uuids.

Lemma import_id_ok oldID uuids d id : plain_uuids uuids -> import_id c oldID uuids d = Ok id ->
  plain_name oldID /\ plain_name id /\ runExists c d id = false.
Proof.
  intros Hu. unfold import_id. destruct (looks_like_path oldID) eqn:Hl; [done|]. apply name_not_path in Hl.
  destruct (runExists c d oldID) eqn:He; [|by intros [= <-]]. unfold getNextRunID. destruct (next_run_id c 3 uuids d) as [i|] eqn:Hn; [|done].
  intros [= <-]. destruct (next_run_id_ok _ _ _ _ Hn) as [? (u & Hin & ->)]. split_and!; [done| |done]. unfold plain_uuids in Hu. rewrite Forall_forall in Hu. by apply Hu.
Qed.

(** Recording the size rewrites at most the metadata. *)
Lemma PersistRunSize_rewrites shared exclusive id :
  rewrites c metadataFileName id (PersistRunSize c f shared exclusive (fun d => d) id).
Proof.
  unfold PersistRunSize. apply bind_reads_rewrites; [done|]. intros _. apply bind_reads_rewrites; [apply from_result_reads|]. intros m.
  destruct (RecipeResultIsInProgress _); [apply ret_rewrites|]. apply bind_reads_rewrites; [apply from_result_reads|]. intros n.
  destruct (bool_decide _); [apply ret_rewrites|]. do 2 (apply bind_reads_rewrites; [done|]; intros _). apply persist_rewrites.
Qed.

(** *** The temporary directory *)

Context (Hc : rooted_collection c) (temp_name : string) (Htemp : plain_name temp_name).

Definition primary : path := components (primaryPath c).
Definition temp : path := primary ++ [temp_name].

Lemma temp_components : components (JoinPath [primaryPath c; temp_name]) = temp.
Proof. apply components_child; [|done]. apply rooted_nonempty. by apply Forall_cons in Hc as [? _]. Qed.

Lemma temp_rooted : HasPrefix (JoinPath [primaryPath c; temp_name]) "/" = true.
Proof. apply JoinPath_rooted. by apply Forall_cons in Hc as [? _]. Qed.

Lemma extracted_components oldID : plain_name oldID -> components (JoinPath [JoinPath [primaryPath c; temp_name]; oldID]) = temp ++ [oldID].
Proof. intros Hold. rewrite components_child, temp_components by (done || apply rooted_nonempty, temp_rooted). done. Qed.

Lemma moved_components id : plain_name id -> components (JoinPath [primaryPath c; id]) = primary ++ [id].
Proof. intros Hid. apply components_child; [|done]. apply rooted_nonempty. by apply Forall_cons in Hc as [? _]. Qed.

(** Before the import: the collection is there, and nothing below the temporary directory. *)
Definition ready (d : disk) : Prop :=
  (forall q, q `prefix_of` primary -> is_dir d q = true) /\ (forall q, temp `prefix_of` q -> d !! q = None).

(** After an extraction, everything outside the temporary directory is as it was. *)
Lemma outside_kept d d1 : ready d -> adds (near temp) (<[temp := NDir]> d) d1 -> forall p, ~ temp `prefix_of` p -> d1 !! p = d !! p.
Proof.
  intros [Hdirs _] Ha p Hp. assert (p <> temp) as Hne by (by intros ->). destruct (Ha p) as [-> |[Hn [Hpne [?|[k Hk]]]]]; [by rewrite lookup_insert_ne| done |].
  rewrite lookup_insert_ne in Hn by done. exfalso. destruct k as [|x k _] using rev_ind; [rewrite app_nil_r in Hk; congruence|].
  unfold temp in Hk. rewrite app_assoc in Hk. apply app_inj_tail in Hk as [Hk _].
  specialize (Hdirs p ltac:(by exists k)). apply is_dir_true in Hdirs. unfold node_at in Hdirs. destruct p; [done|]. congruence.
Qed.

Lemma cleanup_restores d d1 : ready d -> adds (near temp) (<[temp := NDir]> d) d1 -> RemoveAll temp d1 = d.
Proof.
  intros Hd Ha. apply map_eq. intros p. rewrite RemoveAll_lookup. destruct (decide (temp `prefix_of` p)) as [Hp|Hp].
  - symmetry. by apply Hd.
  - by apply (outside_kept d).
Qed.

(** What extracting and moving does. *)
Lemma import_through_spec oldID runID files low d d2 r : plain_name oldID -> plain_name runID ->
  import_through c cwd f (JoinPath [primaryPath c; temp_name]) oldID runID files low d = (d2, r) ->
  exists d1, adds (near temp) d d1 /\
    match r with Err _ => d2 = d1 | Ok _ => unzip cwd f files (JoinPath [primaryPath c; temp_name]) d = (d1, Ok tt) /\ Rename f (temp ++ [oldID]) (primary ++ [runID]) d1 = (d2, true) end.
Proof.
  intros Hold Hid. unfold import_through. rewrite extracted_components, moved_components by done.
  pose proof (unzip_adds cwd f files _ d temp_rooted) as Ha. rewrite temp_components in Ha.
  destruct (unzip cwd f files _ d) as [d1 [[]|e]]; [|intros [= <- <-]; by exists d1].
  destruct (Rename f _ _ d1) as [d3 [|]] eqn:Hr; intros [= <- <-]; exists d1; [done|]. split; [done|]. by eapply Rename_failed.
Qed.

(** *** The run that is imported *)

(** The primary directory is one of those that are looked at, and no other is inside it. *)
Definition separate : Prop := primaryPath c ∈ allPaths c /\ Forall (fun b => primary `prefix_of` components b -> components b = primary) (allPaths c).

(** A disk that has changed only below the primary directory at an absent run's path finds the
    run there, if anywhere. *)
Lemma base_is_primary d d2 id : separate -> is_dir d primary = true -> plain_name id -> runExists c d id = false ->
  (forall p, ~ primary `prefix_of` p -> d2 !! p = d !! p \/ d2 !! p = None) -> base_of c d2 id = primary.
Proof.
  intros [_ Hsep] Hprim Hid He Hd2. rewrite runExists_spec in He by done. unfold base_of, runBasePath.
  destruct (List.find _ _) as [b|] eqn:Hf; [|done]. apply List.find_some in Hf as [Hin Hex]. cbn [fst].
  rewrite Forall_forall in Hsep. specialize (Hsep b ltac:(by apply list_elem_of_In)).
  destruct (decide (primary `prefix_of` components b)) as [Hpre|Hpre]; [by apply Hsep|]. exfalso.
  assert (PathExists d (JoinPath [b; id]) = false) as Hno.
  { destruct (PathExists d (JoinPath [b; id])) eqn:E; [|done]. rewrite (proj2 (existsb_exists _ _)) in He; [done|]. by exists b. }
  unfold PathExists in Hex, Hno. bool_to_prop. rewrite components_child in Hex, Hno; [|apply rooted_nonempty|done|apply rooted_nonempty|done].
  2,3: apply Forall_cons in Hc as [_ Hall]; rewrite Forall_forall in Hall; apply Hall; by apply list_elem_of_In.
  unfold node_at in Hex, Hno. destruct (components b ++ [id]) eqn:Eb; [by destruct (components b)|]. rewrite <- Eb in *.
  destruct (decide (primary `prefix_of` components b ++ [id])) as [[k Hk]|Hk].
  - destruct k as [|x k _] using rev_ind; [|rewrite app_assoc in Hk; apply app_inj_tail in Hk as [Hk _]; apply Hpre; by exists k].
    rewrite app_nil_r in Hk. apply is_dir_true in Hprim. rewrite <- Hk in Hprim. unfold node_at in Hprim. rewrite Eb, <- Eb in Hprim. apply Hno. by eexists.
  - destruct (Hd2 _ Hk) as [Hs|Hs]; rewrite Hs in Hex; [done|by destruct Hex].
Qed.

(** After the move, everything but the run and the temporary directory is as it was. *)
Lemma moved_kept d d1 d2 oldID id : ready d -> adds (near temp) (<[temp := NDir]> d) d1 ->
  Rename f (temp ++ [oldID]) (primary ++ [id]) d1 = (d2, true) ->
  forall p, ~ primary ++ [id] `prefix_of` p -> ~ temp `prefix_of` p -> d2 !! p = d !! p.
Proof.
  intros Hd Ha Hr p Hp Ht. destruct (Rename_lookup _ _ _ _ _ Hr) as [_ Hother]. rewrite Hother by done.
  rewrite decide_False by (intros [k ->]; apply Ht; exists ([oldID] ++ k); by rewrite app_assoc). by apply (outside_kept d).
Qed.

(** The run is not at the temporary directory. *)
Lemma moved_elsewhere d d1 d2 oldID id : adds (near temp) (<[temp := NDir]> d) d1 ->
  Rename f (temp ++ [oldID]) (primary ++ [id]) d1 = (d2, true) -> ~ temp `prefix_of` primary ++ [id] /\ is_Some (d2 !! (primary ++ [id])).
Proof.
  intros Ha Hr. destruct (Rename_true _ _ _ _ _ Hr) as [Hold Hnew]. destruct (Rename_lookup _ _ _ _ _ Hr) as [Hin _]. split.
  - intros [k Hk]. unfold temp in Hk. rewrite <- app_assoc in Hk. apply app_inv_head in Hk. destruct k; [|by destruct k].
    injection Hk as ->. apply not_true_iff_false in Hnew. apply Hnew, is_dir_true. unfold node_at. fold temp. destruct temp eqn:Et; [by unfold temp in Et; destruct primary|].
    rewrite <- Et in *. eapply adds_kept; [exact Ha|]. apply lookup_insert_eq.
  - specialize (Hin []). rewrite !app_nil_r in Hin. rewrite Hin. unfold node_at in Hold. by destruct (temp ++ [oldID]) eqn:Et; [destruct temp|].
Qed.


End Imported.

(** ** What is exported is imported *)

Section RoundTrip.

Context (c : RunCollection) (cwd : string) {J : JsonFiles} (Hc : rooted_collection c) (temp_name : string) (Htemp : plain_name temp_name).

Lemma Mkdir_temp d : ready c temp_name d -> Mkdir no_faults (temp c temp_name) d = (<[temp c temp_name := NDir]> d, true).
Proof.
  intros [Hdirs Hfresh]. unfold Mkdir, parent, temp. rewrite removelast_last, Hdirs by (exists []; by rewrite app_nil_r).
  specialize (Hfresh (temp c temp_name) ltac:(exists []; by rewrite app_nil_r)). unfold node_at, temp in *.
  destruct (primary c ++ [temp_name]) eqn:E; [by destruct (primary c)|]. rewrite Hfresh. done.
Qed.

Lemma temp_dirs d : ready c temp_name d -> forall q, q `prefix_of` temp c temp_name -> is_dir (<[temp c temp_name := NDir]> d) q = true.
Proof.
  intros [Hdirs _] q [k Hk]. apply is_dir_true. unfold node_at. destruct q as [|x q]; [done|].
  destruct (decide (x :: q = temp c temp_name)) as [->|Hne]; [apply lookup_insert_eq|]. rewrite lookup_insert_ne by done.
  destruct k as [|y k _] using rev_ind; [rewrite app_nil_r in Hk; congruence|]. unfold temp in Hk. rewrite app_assoc in Hk. apply app_inj_tail in Hk as [Hk _].
  specialize (Hdirs (x :: q) ltac:(by exists k)). by apply is_dir_true in Hdirs.
Qed.

(** Extracting the archive of a run and moving it to a free identifier. *)
Lemma import_through_exported run ds d id low : run_tree run ds -> plain_name id -> id <> temp_name -> ready c temp_name d ->
  d !! (primary c ++ [id]) = None ->
  exists d2, import_through c cwd no_faults (JoinPath [primaryPath c; temp_name]) id id (zipDirectory run id ds) low (<[temp c temp_name := NDir]> d) = (d2, Ok tt) /\
    (forall q, d2 !! (primary c ++ id :: q) = if bool_decide (head q = Some renderDirName) then None else ds !! (run ++ q)) /\
    (forall p, ~ primary c `prefix_of` p -> d2 !! p = d !! p).
Proof.
  intros Htree Hid Hne Hd Hfree. pose proof (temp_rooted c Hc temp_name) as Hr. pose proof (temp_components c Hc temp_name Htemp) as Ht.
  destruct (unzip_exported id run ds Hid Htree cwd _ Hr (<[temp c temp_name := NDir]> d)) as (d1 & Hu & Hdirs & Hin).
  - unfold target. rewrite Ht. by apply temp_dirs.
  - intros q. unfold target. rewrite Ht, lookup_insert_ne; [apply Hd; by eexists|]. intros He. apply (f_equal length) in He. rewrite length_app in He. cbn in He. lia.
  - pose proof (unzip_adds cwd no_faults (zipDirectory run id ds) _ (<[temp c temp_name := NDir]> d) Hr) as Ha. rewrite Hu, Ht in Ha. cbn [fst] in Ha.
    unfold target in Hdirs, Hin. rewrite Ht in Hdirs, Hin. unfold import_through. rewrite Hu, extracted_components, moved_components by done.
    assert (~ temp c temp_name `prefix_of` primary c ++ [id]) as Hnot.
    { intros [k Hk]. unfold temp in Hk. rewrite <- app_assoc in Hk. apply app_inv_head in Hk. by injection Hk. }
    assert (node_at d1 (primary c ++ [id]) = None) as Hnew.
    { unfold node_at. destruct (primary c ++ [id]) eqn:E; [by destruct (primary c)|]. rewrite <- E in *. by rewrite (outside_kept c temp_name d d1 Hd Ha). }
    assert (is_dir d1 (parent (primary c ++ [id])) = true) as Hpar by (unfold parent; rewrite removelast_last; apply Hdirs; by eexists).
    assert (node_at d1 (temp c temp_name ++ [id]) = Some NDir) as Hold.
    { unfold node_at. destruct (temp c temp_name ++ [id]) eqn:E; [by destruct (temp c temp_name)|]. rewrite <- E, Hin. cbn. rewrite app_nil_r. apply Htree. }
    destruct (Rename_ok (temp c temp_name ++ [id]) (primary c ++ [id]) d1 Hold Hpar Hnew) as [d2 Hren].
    { intros Hp. apply Hnot. etransitivity; [by eexists|exact Hp]. }
    exists d2. rewrite Hren. split; [done|]. split; [|intros p Hp; apply (moved_kept c no_faults temp_name d d1 d2 id id Hd Ha Hren)].
    + intros q. destruct (Rename_lookup _ _ _ _ _ Hren) as [Hmoved _]. specialize (Hmoved q).
      rewrite <- !app_assoc in Hmoved. cbn [app] in Hmoved. by rewrite Hmoved, Hin.
    + intros [k ->]. apply Hp. exists ([id] ++ k). by rewrite app_assoc.
    + intros [k ->]. apply Hp. exists ([temp_name] ++ k). unfold temp. by rewrite app_assoc.
Qed.


End RoundTrip.

(** *** A run of one file and a render, and an empty collection *)

Definition source_entries : list (path * node) :=
  [(["data"], NDir); (["data"; "runs"], NDir); (["data"; "runs"; "r042"], NDir);
   (["data"; "runs"; "r042"; "metadata.json"], NFile "{}"); (["data"; "runs"; "r042"; "manifest.json"], NFile "{}");
   (["data"; "runs"; "r042"; "perf"], NDir); (["data"; "runs"; "r042"; "perf"; "perf.csv"], NFile "a,b");
   (["data"; "runs"; "r042"; "render"], NDir); (["data"; "runs"; "r042"; "render"; "t.db"], NFile "0123456789")].

Definition source_disk : disk := list_to_map source_entries.

Definition source_run : path := components (GetRunPath sample_collection source_disk "r042").

Lemma source_tree : run_tree source_run source_disk.
Proof.
  assert (source_run = ["data"; "runs"; "r042"]) as -> by (vm_compute; reflexivity).
  assert (forall q n, source_disk !! (["data"; "runs"; "r042"] ++ q) = Some n ->
    q ∈ [[]; ["metadata.json"]; ["manifest.json"]; ["perf"]; ["perf"; "perf.csv"]; ["render"]; ["render"; "t.db"]]) as Hin.
  { intros q n Hq. apply elem_of_list_to_map_2 in Hq. unfold source_entries in Hq. apply list_elem_of_In in Hq. apply list_elem_of_In. cbn in Hq |- *.
    intuition (simplify_eq; auto 10). }
  split; [by vm_compute| | |].
  - intros q r Hr [n Hn]. specialize (Hin _ _ Hn). 
    assert (Forall (fun l => Forall (fun i => source_disk !! (["data"; "runs"; "r042"] ++ take i l) = Some NDir) (seq 0 (length l)))
      [[]; ["metadata.json"]; ["manifest.json"]; ["perf"]; ["perf"; "perf.csv"]; ["render"]; ["render"; "t.db"]]) as Hall
      by (refine (bool_decide_unpack _ _); by vm_compute).
    rewrite Forall_forall in Hall. specialize (Hall _ Hin). rewrite Forall_forall in Hall. specialize (Hall (length q)).
    rewrite take_app_length in Hall. apply Hall, elem_of_seq. rewrite length_app. destruct r; cbn; [done|lia].
  - intros q n Hn. specialize (Hin _ _ Hn). clear Hn. revert q Hin. apply Forall_forall. refine (bool_decide_unpack _ _). by vm_compute.
  - intros name [-> | ->]; by eexists.
Qed.

Definition home_collection : RunCollection := NewRunCollectionWithSecondaryPaths "/" "/home/runs" ["/old/runs"].
Definition home_disk : disk := <[["home"] := NDir]> (<[["home"; "runs"] := NDir]> ∅).

Lemma home_ready : ready home_collection "perf-run-import-1" home_disk.
Proof.
  split.
  - intros q [k Hk]. change (["home"; "runs"] = q ++ k) in Hk. destruct q as [|x [|y [|z q]]]; simplify_eq/=; by vm_compute.
  - intros q [k ->]. change (home_disk !! ("home" :: "runs" :: "perf-run-import-1" :: k) = None). unfold home_disk.
    by rewrite !lookup_insert_ne by done.
Qed.

Lemma home_separate : separate home_collection.
Proof. split; [by left|]. refine (bool_decide_unpack _ _). by vm_compute. Qed.

Definition home_files : JsonFiles := sample_json sample_metadata [] [].

Definition source_archive : list zip_file := zipDirectory source_run (Base (GetRunPath sample_collection source_disk "r042")) source_disk.

Lemma source_exported : ExportRun sample_collection Locked (fun d => d) "r042" source_disk = (source_disk, Ok source_archive).
Proof.
  unfold ExportRun, locked_run, from_result, modify, still_exists, lockRun, mbind, op_bind.
  assert (runExists sample_collection source_disk "r042" = true) as -> by (vm_compute; reflexivity). reflexivity.
Qed.

Lemma home_free : runExists home_collection home_disk "r042" = false.
Proof. vm_compute. reflexivity. Qed.


