(* ===== verification/RunQueries.v ===== *)
(** * Performix: questions about runs

    Models the queries of [core/apap-engine/run/run.go]: the description of a run, with the
    migration of recipe names of [run/recipemigration], the newest run and the checks that runs
    have the same recipe. What [target.EngineTargetFromJSON] reads, the loading of a recipe
    component and the embedded list of migrations are parameters. *)

From S2P Require Import Prelude.
From S2P Require Import GoStrings.
From S2P Require Import Sorting.
From S2P Require Import Semver.
From S2P Require Import Migrations.
From S2P Require Import Disk.
From S2P Require Import Model.
From S2P Require Import RunBuilder.
From S2P Require Import RunFiles.
From S2P Require Import RunCollection.
From S2P Require Import RunMetadata.
From S2P Require Import RunUpdates.

(** ** Migrated names *)

Record recipe_migration := { from : string; to : string; version : SemVer }.

(** [GetMigratedName] with the migrations in the order of their versions. *)
Definition GetMigratedName (migrations : list recipe_migration) (recipeName runVer : string) : string :=
  if bool_decide (runVer = EmptyString) then recipeName
  else
    match ParseSemVer runVer with
    | Err _ => recipeName
    | Ok v => foldl (fun name mi => if (0 <=? Cmp v (version mi))%Z then name else if bool_decide (from mi = name) then to mi else name) recipeName migrations
    end.

Example migrated_names :
  let ms := [{| from := "topdown"; to := "cpu_microarchitecture"; version := {| Major := 0; Minor := 56; Patch := 0 |} |}] in
  (GetMigratedName ms "topdown" "0.55.9", GetMigratedName ms "topdown" "0.56.0", GetMigratedName ms "topdown" "x") =
  ("cpu_microarchitecture", "topdown", "topdown").
Proof. vm_compute. reflexivity. Qed.

(** ** Descriptions *)

Section Queries.

Context (c : RunCollection) (f : faults) {J : JsonFiles} {K : CategorizationFiles}.
Context {Target : Type} (EngineTargetFromJSON : string -> option Target) (migrations : list recipe_migration).

(** A description; [rd_Metadata] has the fields that are copied from the metadata. *)
Record RunDescription := {
  rd_ID : string;
  rd_Metadata : Metadata;
  rd_RecipeName : string;
  rd_Group : string;
  rd_Tags : list string;
  rd_Target : Target;
  rd_ToolsUsed : list ToolUsed;
  rd_SupportsStop : bool
}.

Definition describe (ans : lock_answer) (meanwhile : disk -> disk) (id : string) : op RunDescription :=
  locked_run c ans meanwhile id ;;
  metadata ← readMetadata c id;
  manifest ← readManifest c id;
  categorization ← readCategorization c id;
  from_result (fun _ =>
    match EngineTargetFromJSON (TargetConfig metadata) with
    | None => Err (RunParseTarget id)
    | Some tgt => Ok {| rd_ID := id; rd_Metadata := metadata; rd_RecipeName := GetMigratedName migrations (RecipeName metadata) (EngineVersion metadata);
                        rd_Group := Group categorization; rd_Tags := Tags categorization; rd_Target := tgt; rd_ToolsUsed := m_ToolsUsed manifest;
                        rd_SupportsStop := runSupportsStop metadata |}
    end).

Definition GetRecipeName (ans : lock_answer) (id : string) : op string := desc ← describe ans (fun d => d) id; mret (rd_RecipeName desc).

(** The run with the latest start, the last of several. Times in UTC are ordered like texts. *)
Fixpoint newest_loop (answers : string -> lock_answer) (latest : string) (newest : string) (ids : list string) : op string :=
  match ids with
  | [] => mret newest
  | id :: rest =>
      desc ← describe (answers id) (fun d => d) id;
      if String.leb latest (StartTime (rd_Metadata desc)) then newest_loop answers (StartTime (rd_Metadata desc)) id rest
      else newest_loop answers latest newest rest
  end.

Definition GetNewestRun (answers : string -> lock_answer) (ids : list string) : op string :=
  match ids with
  | [] => throw (UnknownError "no runs provided")
  | id :: _ => newest_loop answers EmptyString id ids
  end.

Fixpoint EnsureRunsExist (ids : list string) (d : disk) : result run_error unit :=
  match ids with
  | [] => Ok tt
  | id :: rest => if runExists c d id then EnsureRunsExist rest d else Err (RunDoesNotExist id)
  end.

End Queries.

Section SameRecipe.

(** ** The same recipe *)

(** Names are given here by what [GetRecipeName] returns for each run, and schemas by what
    [GetRecipeSchema] returns. *)
Context (recipe_name : string -> result run_error string) (recipe_schema : string -> option string).

Fixpoint name_only_loop (referenceName referenceID : string) (ids : list string) : result run_error unit :=
  match ids with
  | [] => Ok tt
  | id :: rest =>
      recipeName ← recipe_name id;
      if bool_decide (referenceName = EmptyString) then name_only_loop recipeName id rest
      else if bool_decide (recipeName = referenceName) then name_only_loop referenceName referenceID rest
      else Err (RunDifferentRecipes referenceID id referenceName recipeName)
  end.

Definition CheckRunsUseSameRecipeNameOnly (ids : list string) : result run_error unit :=
  match ids with [] => Err (UnknownError "no runs provided") | _ => name_only_loop EmptyString EmptyString ids end.

(** The references are [None] as long as their identifiers are empty. *)
Fixpoint same_recipe_loop (name schema : option (string * string)) (ids : list string) : result run_error unit :=
  match ids with
  | [] => Ok tt
  | id :: rest =>
      recipeName ← recipe_name id;
      let reference := default (recipeName, id) name in
      if negb (bool_decide (recipeName = reference.1)) then Err (RunDifferentRecipes reference.2 id reference.1 recipeName)
      else
        match recipe_schema id with
        | None => same_recipe_loop (Some reference) schema rest
        | Some s =>
            let referenceSchema := default (s, id) schema in
            if negb (bool_decide (s = referenceSchema.1)) then Err (RunDifferentRecipeSchemas referenceSchema.2 id referenceSchema.1 s)
            else same_recipe_loop (Some reference) (Some referenceSchema) rest
        end
  end.

Definition CheckRunsUseSameRecipe (ids : list string) : result run_error unit :=
  match ids with [] => Err (UnknownError "no runs provided") | _ => same_recipe_loop None None ids end.

(** ** What the checks decide *)

(** The runs agree with the references, and with each other. *)
Definition same_names (name : option string) (ids : list string) : Prop :=
  exists n, (forall r, name = Some r -> r = n) /\ forall id, id ∈ ids -> recipe_name id = Ok n.
Definition same_schemas (schema : option string) (ids : list string) : Prop :=
  exists s, (forall r, schema = Some r -> r = s) /\ forall id s', id ∈ ids -> recipe_schema id = Some s' -> s' = s.

Lemma same_recipe_loop_Ok ids : forall name schema,
  same_recipe_loop name schema ids = Ok tt <-> same_names (fst <$> name) ids /\ same_schemas (fst <$> schema) ids.
Proof.
  induction ids as [|id ids IH]; intros name schema.
  - split; [intros _|done]. split.
    + exists (default EmptyString (fst <$> name)). split; [by intros r ->|by intros ? ?%elem_of_nil].
    + exists (default EmptyString (fst <$> schema)). split; [by intros r ->|by intros ? ? ?%elem_of_nil].
  - cbn [same_recipe_loop]. destruct (recipe_name id) as [n|e] eqn:Hn.
    2:{ split; [done|]. intros [(n & _ & Hall) _]. rewrite Hall in Hn by (by left). done. }
    assert (forall r : string * string, same_names (fst <$> Some r) ids /\ n = r.1 /\ (forall x, fst <$> name = Some x -> x = r.1) <->
      same_names (fst <$> name) (id :: ids) /\ r.1 = n) as Hnames.
    { intros r. split.
      - intros ((m & Hm & Hall) & -> & Hname). specialize (Hm r.1 eq_refl). subst m. split; [|done]. exists r.1. split; [done|].
        intros x [->|Hx]%elem_of_cons; [done|by apply Hall].
      - intros [(m & Hm & Hall) Hr]. assert (m = n) as -> by (specialize (Hall id ltac:(by left)); congruence).
        split_and!; [|done|intros x Hx; rewrite Hr; by apply Hm]. exists n. split; [by intros ? [= <-]|]. intros x Hx. apply Hall. by right. }
    change (Ok n ≫= ?k) with (k n). cbv beta zeta.
    destruct (decide (n = (default (n, id) name).1)) as [Hd|Hd].
    2:{ rewrite bool_decide_false by done. cbn [negb]. split; [done|]. intros [(m & Hm & Hall) _]. destruct Hd.
        destruct name as [[r rid]|]; [|done]. cbn. rewrite (Hm r eq_refl). specialize (Hall id ltac:(by left)). congruence. }
    rewrite bool_decide_true by done. cbn [negb]. specialize (Hnames (default (n, id) name)).
    assert (forall x, fst <$> name = Some x -> x = (default (n, id) name).1) as Hself by (destruct name; naive_solver).
    destruct (recipe_schema id) as [s|] eqn:Hs.
    + destruct (decide (s = (default (s, id) schema).1)) as [Hds|Hds].
      2:{ rewrite bool_decide_false by done. cbn [negb]. split; [done|]. intros [_ (m & Hm & Hall)]. destruct Hds.
          destruct schema as [[r rid]|]; [|done]. cbn. rewrite (Hm r eq_refl). by apply (Hall id); [left|]. }
      rewrite bool_decide_true by done. cbn [negb]. rewrite IH. apply and_iff_compat; [naive_solver|].
      split; intros (m & Hm & Hall); exists m.
      * assert (m = s) as -> by (rewrite Hds; by symmetry; apply Hm). split.
        -- intros r Hr. destruct schema as [[x xi]|]; [|done]. cbn in Hr, Hds. congruence.
        -- intros x s' [->|Hx]%elem_of_cons; [congruence|by apply (Hall x)].
      * split; [|intros x s' Hx; apply (Hall x); by right]. cbn. intros r [= <-]. rewrite <- Hds. by apply (Hall id); [left|].
    + rewrite IH. apply and_iff_compat; [naive_solver|]. split; intros (m & Hm & Hall); exists m; (split; [done|]).
      * intros x s' [->|Hx]%elem_of_cons; [congruence|by apply (Hall x)].
      * intros x s' Hx. apply (Hall x). by right.
Qed.

(** Why the check fails: a name could not be read, or two runs differ in what the error says. *)
Definition explained (ids : list string) (e : run_error) : Prop :=
  (exists id, id ∈ ids /\ recipe_name id = Err e) \/
  (exists id1 id2 n1 n2, e = RunDifferentRecipes id1 id2 n1 n2 /\ recipe_name id1 = Ok n1 /\ recipe_name id2 = Ok n2 /\ n1 <> n2) \/
  (exists id1 id2 s1 s2, e = RunDifferentRecipeSchemas id1 id2 s1 s2 /\ recipe_schema id1 = Some s1 /\ recipe_schema id2 = Some s2 /\ s1 <> s2).

(** Where runs differ the error names two of them with their different names or schemas. *)
Lemma same_recipe_loop_Err ids : forall name schema e,
  (forall r rid, name = Some (r, rid) -> recipe_name rid = Ok r) -> (forall s sid, schema = Some (s, sid) -> recipe_schema sid = Some s) ->
  same_recipe_loop name schema ids = Err e -> explained ids e.
Proof.
  induction ids as [|id ids IH]; intros name schema e Hname Hschema; [done|]. cbn [same_recipe_loop].
  destruct (recipe_name id) as [n|e'] eqn:Hn; [|intros [= ->]; left; exists id; split; [by left|done]].
  change (Ok n ≫= ?k) with (k n). cbv beta zeta.
  assert (recipe_name (default (n, id) name).2 = Ok (default (n, id) name).1) as Href by (destruct name as [[r rid]|]; [by apply Hname|done]).
  assert (forall schema', (forall s sid, schema' = Some (s, sid) -> recipe_schema sid = Some s) ->
    same_recipe_loop (Some (default (n, id) name)) schema' ids = Err e -> explained (id :: ids) e) as Hrest.
  { intros schema' Hs' He. apply IH in He; [|by intros r rid [= Heq]; rewrite Heq in Href|exact Hs'].
    destruct He as [(x & Hx & He)|He]; [left; exists x; split; [by right|done]|by right]. }
  case_bool_decide as Hd; cbn [negb]; [|intros [= <-]; right; left; do 4 eexists; split_and!; [done|exact Href|exact Hn|congruence]].
  destruct (recipe_schema id) as [s|] eqn:Hs; [|by apply Hrest].
  assert (recipe_schema (default (s, id) schema).2 = Some (default (s, id) schema).1) as Hrefs by (destruct schema as [[r rid]|]; [by apply Hschema|done]).
  case_bool_decide as Hds; cbn [negb]; [|intros [= <-]; right; right; do 4 eexists; split_and!; [done|exact Hrefs|exact Hs|congruence]].
  apply Hrest. intros x xid [= Heq]. by rewrite Heq in Hrefs.
Qed.

(** Runs pass the check exactly when all have the same recipe name and those with a stored
    recipe have the same version of its schema; otherwise the error comes from reading a name
    or names two runs that differ. *)
Theorem same_recipe_decided ids : ids <> [] ->
  (CheckRunsUseSameRecipe ids = Ok tt <-> same_names None ids /\ same_schemas None ids) /\
  (forall e, CheckRunsUseSameRecipe ids = Err e -> explained ids e).
Proof.
  intros Hne. assert (CheckRunsUseSameRecipe ids = same_recipe_loop None None ids) as -> by (by destruct ids). split.
  - apply same_recipe_loop_Ok.
  - intros e. by apply same_recipe_loop_Err.
Qed.

End SameRecipe.

(** Where a name is empty the check by name only forgets it. *)
Example empty_name_is_forgotten :
  let names id := if bool_decide (id = "r1") then Ok EmptyString else Ok "topdown" in
  (CheckRunsUseSameRecipeNameOnly names ["r1"; "r2"], is_ok (CheckRunsUseSameRecipeNameOnly names ["r2"; "r1"])) = (Ok tt, false).
Proof. vm_compute. reflexivity. Qed.
