(* ===== verification/RunRecovery.v ===== *)
(** * Performix: recovery of stale runs

    Models [core/apap-engine/recovery/recovery.go]: when the engine starts, runs that are in
    progress and that nobody holds are marked as failed. While a run is recovered no other
    process changes the disk. *)

From S2P Require Import Prelude.
From S2P Require Import GoStrings.
From S2P Require Import FilePaths.
From S2P Require Import Semver.
From S2P Require Import Disk.
From S2P Require Import Model.
From S2P Require Import RunBuilder.
From S2P Require Import RunFiles.
From S2P Require Import RunCollection.
From S2P Require Import RunMetadata.
From S2P Require Import RunUpdates.
From S2P Require Import RunQueries.

Definition idle (d : disk) : disk := d.

(** What taking the lease and the locks of a run answers. *)
Record recovery_answers := { a_lease : lock_answer; a_read : lock_answer; a_result : lock_answer; a_end : lock_answer }.

Section Recovery.

Context (c : RunCollection) (f : faults) {J : JsonFiles} {K : CategorizationFiles}.
Context {Target : Type} (EngineTargetFromJSON : string -> option Target) (migrations : list recipe_migration).

(** The text of the message for an incomplete run, the time, and the answers for each run. *)
Context (incomplete_text now : string) (answers : string -> recovery_answers).

(** [RunCollection.RemovePendingManifestEntries] *)
Definition remove_pending (id : string) : op bool :=
  manifest ← readManifest c id;
  match RemovePendingManifestEntries manifest with
  | None => mret false
  | Some m => writeManifest c f id m ;; mret true
  end.

Definition recoveredResult (result : string) : option string :=
  if bool_decide (result = RecipeInProgress) then Some RecipeFailureIncomplete
  else if bool_decide (result = RecipeInProgressPhase1Complete) then Some RecipeFailureIncompletePhase1Complete
  else None.

(** The loop body of [recoverStaleRuns]: an error ends the recovery. *)
Definition recover_run (id : string) : op unit := fun d =>
  let a := answers id in
  match LeaseRun (a_lease a) id d with
  | (_, Err _) => (d, Ok tt)
  | (_, Ok _) =>
      match describe c EngineTargetFromJSON migrations (a_read a) idle id d with
      | (d1, Err _) => (d1, Ok tt)
      | (d1, Ok desc) =>
          match recoveredResult (md_RunResult (rd_Metadata desc)) with
          | None => (d1, Ok tt)
          | Some result =>
              (UpdateRunResult c f (a_result a) idle id result (Some incomplete_text) ;; SetRunEndTime c f (a_end a) idle now id) (remove_pending id d1).1
          end
      end
  end.

Fixpoint recover_loop (ids : list string) : op unit :=
  match ids with [] => mret tt | id :: rest => recover_run id ;; recover_loop rest end.

Definition recoverStaleRuns (locks : string -> lock_answer) : op unit := runs ← ListRuns c f locks; recover_loop runs.

(** [backfillRunSizes], until the context ends: the number of runs whose size was recorded. *)
Fixpoint backfill_loop (shared exclusive : string -> lock_answer) (ids : list string) (d : disk) : disk * nat :=
  match ids with
  | [] => (d, 0)
  | id :: rest =>
      let '(d1, r) := PersistRunSize c f (shared id) (exclusive id) idle id d in
      let '(d2, n) := backfill_loop shared exclusive rest d1 in
      (d2, match r with Ok true => S n | _ => n end)
  end.

(** ** Runs that are recovered *)

(** The result that a run gets, if it is recovered. *)
Definition recovers (d : disk) (id : string) : option string :=
  if is_ok (LeaseRun (a_lease (answers id)) id d).2
  then match (describe c EngineTargetFromJSON migrations (a_read (answers id)) idle id d).2 with
       | Ok desc => recoveredResult (md_RunResult (rd_Metadata desc))
       | Err _ => None
       end
  else None.

(** The metadata of a recovered run. *)
Definition failed_metadata (result : string) (m : Metadata) : Metadata := with_result result incomplete_text m.
Definition ended_metadata (m : Metadata) : Metadata := if bool_decide (EndTime m = InvalidTime) then with_end_time now m else m.
Definition without_pending (m : Manifest) : Manifest := default m (RemovePendingManifestEntries m).

(** A run in progress that can be recovered: its files are the texts of values that can be
    read, also after the recovery, and its locks are free. *)
Record stale (d : disk) (id result : string) (m : Metadata) (man : Manifest) : Prop := {
  st_recovers : recovers d id = Some result;
  st_locks : a_result (answers id) = Locked /\ a_end (answers id) = Locked;
  st_metadata : d !! file_path c d id metadataFileName = Some (NFile (metadata_text m));
  st_manifest : d !! file_path c d id manifestFileName = Some (NFile (manifest_text man));
  st_dir : is_dir d (parent (file_path c d id metadataFileName)) = true;
  st_survives : survives m /\ survives (failed_metadata result m) /\ survives (ended_metadata (failed_metadata result m));
  st_manifest_survives : manifest_survives man /\ manifest_survives (without_pending man);
  st_writable : forall name, name ∈ [metadataFileName; manifestFileName] ->
    refuses f (file_path c d id name) = false /\ cut_short f (file_path c d id name) = None
}.

(** The disk after a run is recovered. *)
Definition recovered_disk (d : disk) (id result : string) (m : Metadata) (man : Manifest) : disk :=
  <[file_path c d id metadataFileName := NFile (metadata_text (ended_metadata (failed_metadata result m)))]>
    (<[file_path c d id manifestFileName := NFile (manifest_text (without_pending man))]> d).

(** ** One run *)

Context (Hc : rooted_collection c).

Definition same_paths (d d' : disk) : Prop := forall q, d' !! q = None <-> d !! q = None.

Lemma runExists_same d d' id : same_paths d d' -> runExists c d' id = runExists c d id.
Proof.
  intros Hd. unfold runExists. destruct (bool_decide _); [done|]. induction (allPaths c) as [|b l IH]; [done|]. cbn [exists_in].
  rewrite (PathExists_same d d') by done. by rewrite IH.
Qed.

Lemma file_path_same d d' id name : same_paths d d' -> file_path c d' id name = file_path c d id name.
Proof. intros Hd. unfold file_path. by rewrite (runBasePath_same c d d'). Qed.

(** The files that a recovery reads. *)
Definition read_files : list string := [metadataFileName; manifestFileName; CategorizationFilename].

Lemma read_files_plain name : name ∈ read_files -> plain_name name.
Proof.
  unfold read_files. rewrite !elem_of_cons, elem_of_nil. intros [->|[->|[->|[]]]]; refine (bool_decide_unpack _ _); by vm_compute.
Qed.

Lemma lease_plain id d : is_ok (LeaseRun (a_lease (answers id)) id d).2 = true -> plain_name id.
Proof. unfold LeaseRun. destruct (looks_like_path id) eqn:Hl; [done|]. intros _. by apply id_plain. Qed.

Lemma file_path_parent d id name : plain_name id -> plain_name name -> parent (file_path c d id name) = base_of c d id ++ [id].
Proof.
  intros Hid Hn. rewrite file_path_components by done. change (base_of c d id ++ [id; name]) with (base_of c d id ++ [id] ++ [name]).
  rewrite app_assoc. unfold parent. apply removelast_last.
Qed.

(** Files of different runs, and different files of a run. *)
Lemma file_path_differs d id1 id2 name1 name2 : plain_name id1 -> plain_name id2 -> plain_name name1 -> plain_name name2 ->
  id1 <> id2 \/ name1 <> name2 -> file_path c d id1 name1 <> file_path c d id2 name2.
Proof.
  intros H1 H2 H3 H4 Hne. rewrite !file_path_components by done. intros [_ He]%app_inj_2; [|done]. injection He as -> ->. by destruct Hne.
Qed.

Lemma read_same {A} zero (decode : string -> option A) e name id d d' : same_paths d d' ->
  d' !! file_path c d id name = d !! file_path c d id name -> file_path c d id name <> [] ->
  (read_with c zero decode e name id d').2 = (read_with c zero decode e name id d).2.
Proof.
  intros Hd Hf Hne. unfold read_with, from_result, ReadJSONFile. cbn [snd]. rewrite (file_path_same d d') by done.
  unfold node_at. destruct (file_path c d id name); [done|]. by rewrite Hf.
Qed.

Lemma file_path_nonempty d id name : plain_name id -> plain_name name -> file_path c d id name <> [].
Proof. intros H1 H2. rewrite file_path_components by done. by destruct (base_of c d id). Qed.

Lemma metadata_plain : plain_name metadataFileName.
Proof. apply read_files_plain. set_solver. Qed.
Lemma manifest_plain : plain_name manifestFileName.
Proof. apply read_files_plain. set_solver. Qed.

(** A description only reads. *)
Lemma describe_unfold ans id d : describe c EngineTargetFromJSON migrations ans idle id d =
  (d, if negb (runExists c d id) then Err (RunDoesNotExist id)
      else match ans with
           | LockDirFailed => Err (RunCreateLock id)
           | LockBusy => Err (RunBusy id)
           | Locked =>
               metadata ← (readMetadata c id d).2; manifest ← (readManifest c id d).2; x ← (readCategorization c id d).2;
               match EngineTargetFromJSON (TargetConfig metadata) with
               | None => Err (RunParseTarget id)
               | Some tgt => Ok {| rd_ID := id; rd_Metadata := metadata; rd_RecipeName := GetMigratedName migrations (RecipeName metadata) (EngineVersion metadata);
                                   rd_Group := Group x; rd_Tags := Tags x; rd_Target := tgt; rd_ToolsUsed := m_ToolsUsed manifest;
                                   rd_SupportsStop := runSupportsStop metadata |}
               end
           end).
Proof.
  unfold describe, locked_run, lockRun, still_exists, modify, idle, from_result, mbind, op_bind. destruct (runExists c d id) eqn:He; cbn [negb]; [|done].
  destruct ans; [|done..]. unfold readMetadata, readManifest, readCategorization, read_with, from_result. cbn [snd].
  destruct (ReadJSONFile _ _ d _); [|done]. destruct (ReadJSONFile _ decode_manifest d _); [|done].
  destruct (ReadJSONFile _ decode_categorization d _) as [x|[]]; cbn; try done; by destruct (EngineTargetFromJSON _).
Qed.

Lemma recovers_same d d' id : same_paths d d' -> (forall name, name ∈ read_files -> d' !! file_path c d id name = d !! file_path c d id name) ->
  recovers d' id = recovers d id.
Proof.
  intros Hd Hf. unfold recovers. unfold LeaseRun. cbn [snd].
  destruct (looks_like_path id) eqn:Hl; [done|]. destruct (id_plain id Hl) as [Hid _]. destruct (is_ok _); [|done].
  rewrite !describe_unfold. cbn [snd]. rewrite (runExists_same d d') by done. destruct (negb _); [done|]. destruct (a_read _); [|done..].
  assert (forall name, name ∈ read_files -> file_path c d id name <> []) as Hne by (intros name Hn; by apply file_path_nonempty, read_files_plain).
  assert ((readMetadata c id d').2 = (readMetadata c id d).2) as -> by (apply read_same; [done|apply Hf|apply Hne]; set_solver).
  assert ((readManifest c id d').2 = (readManifest c id d).2) as -> by (apply read_same; [done|apply Hf|apply Hne]; set_solver).
  assert ((readCategorization c id d').2 = (readCategorization c id d).2) as ->; [|done].
  unfold readCategorization, from_result, ReadJSONFile. cbn [snd]. rewrite (file_path_same d d') by done.
  specialize (Hne CategorizationFilename ltac:(set_solver)). specialize (Hf CategorizationFilename ltac:(set_solver)).
  unfold node_at. destruct (file_path c d id CategorizationFilename); [done|]. by rewrite Hf.
Qed.

Lemma recover_alone d id : recovers d id = None -> recover_run id d = (d, Ok tt).
Proof.
  unfold recovers, recover_run, LeaseRun. destruct (if looks_like_path id then _ else _) as [[]|]; cbn [is_ok snd]; [|done].
  rewrite describe_unfold. match goal with |- context [(d, ?r)] => destruct r as [desc|]; cbn [snd]; [|done] end. by intros ->.
Qed.

(** What [recovers] knows of the run. *)
Lemma recovers_Some d id result : recovers d id = Some result ->
  plain_name id /\ runExists c d id = true /\ exists m, (readMetadata c id d).2 = Ok m /\ recoveredResult (md_RunResult m) = Some result.
Proof.
  unfold recovers. destruct (is_ok _) eqn:Hl; [|done]. apply lease_plain in Hl. rewrite describe_unfold. cbn [snd].
  destruct (runExists c d id); cbn [negb]; [|done]. destruct (a_read _); [|done..]. destruct ((readMetadata c id d).2) as [m|]; [|done].
  destruct ((readManifest c id d).2); [|done]. destruct ((readCategorization c id d).2); [|done]. change (Ok ?x ≫= ?k) with (k x). cbv beta.
  destruct (EngineTargetFromJSON _); [|done]. cbn. eauto.
Qed.

(** What [recover_run] does to it. *)
Lemma recover_unfold d id result : recovers d id = Some result -> recover_run id d =
  (UpdateRunResult c f (a_result (answers id)) idle id result (Some incomplete_text) ;; SetRunEndTime c f (a_end (answers id)) idle now id) (remove_pending id d).1.
Proof.
  unfold recovers, recover_run. destruct (LeaseRun _ _ _) as [d1 [[]|]]; cbn [is_ok snd]; [|done].
  rewrite describe_unfold. match goal with |- context [(d, ?r)] => destruct r as [desc|]; cbn [snd]; [|done] end. by intros ->.
Qed.

Lemma recoveredResult_final result r : recoveredResult r = Some result -> recoveredResult result = None.
Proof. unfold recoveredResult. repeat case_bool_decide; intros [= <-]; by vm_compute. Qed.

(** A file of the run that is there is replaced. *)
Lemma replaced_paths d id name n m : d !! file_path c d id name = Some n -> same_paths d (<[file_path c d id name := m]> d).
Proof. intros Hd q. by eapply insert_same_paths. Qed.

Lemma node_at_nonempty (d : disk) p : p <> [] -> node_at d p = d !! p.
Proof. by destruct p. Qed.

Ltac differ := apply file_path_differs; first [assumption|apply metadata_plain|apply manifest_plain|by apply read_files_plain|by auto].

Section Stale.

Context (d : disk) (id result : string) (m : Metadata) (man : Manifest) (Hst : stale d id result m man).

Let meta := file_path c d id metadataFileName.
Let mani := file_path c d id manifestFileName.

Lemma stale_id : plain_name id.
Proof. by apply (recovers_Some d id result), Hst. Qed.

Lemma stale_nonempty : meta <> [] /\ mani <> [].
Proof. split; apply file_path_nonempty; first [apply stale_id|apply read_files_plain; set_solver]. Qed.

Lemma stale_files_ne : meta <> mani.
Proof. apply file_path_differs; [apply stale_id|apply stale_id|apply read_files_plain; set_solver..|by right]. Qed.

Lemma stale_dir d1 : same_paths d d1 -> d1 !! (base_of c d id ++ [id]) = d !! (base_of c d id ++ [id]) -> 
  is_dir d1 (parent (file_path c d1 id metadataFileName)) = true /\ is_dir d1 (parent (file_path c d1 id manifestFileName)) = true.
Proof.
  intros Hd Hp. rewrite !(file_path_same d d1) by done. rewrite !file_path_parent by (apply stale_id || (apply read_files_plain; set_solver)).
  pose proof (st_dir _ _ _ _ _ Hst) as Hdir. rewrite file_path_parent in Hdir by (apply stale_id || (apply read_files_plain; set_solver)).
  apply is_dir_true in Hdir. rewrite is_dir_true. unfold node_at in *. destruct (base_of c d id ++ [id]); [done|]. by rewrite Hp.
Qed.

(** The directory of the run is not one of its files. *)
Lemma run_dir_kept name n : name ∈ [metadataFileName; manifestFileName] ->
  <[file_path c d id name := NFile n]> d !! (base_of c d id ++ [id]) = d !! (base_of c d id ++ [id]).
Proof.
  intros Hn. apply lookup_insert_ne. rewrite file_path_components; [|done|apply stale_id|apply read_files_plain; unfold read_files; set_solver].
  intros He. apply (f_equal length) in He. rewrite !length_app in He. cbn in He. lia.
Qed.

Lemma remove_pending_stale : (remove_pending id d).1 = <[mani := NFile (manifest_text (without_pending man))]> d.
Proof.
  destruct (st_manifest_survives _ _ _ _ _ Hst) as [Hsurv _]. pose proof (st_manifest _ _ _ _ _ Hst) as Hf. fold mani in Hf.
  assert (readManifest c id d = (d, Ok man)) as Hread.
  { unfold readManifest, read_with, from_result, ReadJSONFile. fold mani. assert (node_at d mani = Some (NFile (manifest_text man))) as ->.
    { rewrite node_at_nonempty; [done|apply stale_nonempty]. }
    rewrite bool_decide_false by apply manifest_text_nonempty. by rewrite decode_manifest_text. }
  unfold remove_pending, mbind, op_bind. rewrite Hread. unfold without_pending. destruct (RemovePendingManifestEntries man) as [m'|]; cbn [default].
  2:{ cbn. symmetry. by apply insert_id. }
  unfold writeManifest, write_atomic. fold mani. destruct (st_writable _ _ _ _ _ Hst manifestFileName ltac:(set_solver)) as [Hr Hcut]. fold mani in Hr, Hcut. rewrite Hr, Hcut.
  rewrite (bool_decide_false (is_Some None)) by (by intros []). cbn [orb].
  destruct (stale_dir d ltac:(done) eq_refl) as [_ Hdir]. fold mani in Hdir. rewrite Hdir. cbn [negb orb].
  assert (is_dir d mani = false) as ->; [|done]. apply not_true_iff_false. rewrite is_dir_true, node_at_nonempty by apply stale_nonempty. congruence.
Qed.

(** Reading and rewriting the metadata of the run on a disk with the same paths. *)
Lemma rewrite_metadata ans d1 m1 (g : Metadata -> Metadata) : same_paths d d1 -> d1 !! (base_of c d id ++ [id]) = d !! (base_of c d id ++ [id]) ->
  d1 !! meta = Some (NFile (metadata_text m1)) -> survives m1 -> ans = Locked ->
  (locked_run c ans idle id ;; x ← readMetadata c id; writeMetadata c f WriteFailed id (g x)) d1 = (<[meta := NFile (metadata_text (g m1))]> d1, Ok tt).
Proof.
  intros Hd Hp Hm Hs ->. destruct (recovers_Some d id result (st_recovers _ _ _ _ _ Hst)) as (Hid & Hex & _).
  assert (meta <> []) as Hne by (by apply file_path_nonempty, read_files_plain; [|set_solver]).
  unfold locked_run, lockRun, still_exists, modify, idle, mbind, op_bind. rewrite (runExists_same d d1), Hex by done. cbn [negb].
  assert (file_path c d1 id metadataFileName = meta) as Hfp by (by apply file_path_same).
  rewrite (readMetadata_text c d1 id m1) by (done || (rewrite Hfp, node_at_nonempty; done)).
  unfold writeMetadata, attempt. rewrite Hfp. destruct (st_writable _ _ _ _ _ Hst metadataFileName ltac:(set_solver)) as [_ Hcut].
  rewrite (rewrite_file f d1 meta (metadata_text m1)); [done|done|done| |done].
  rewrite <- Hfp. by apply stale_dir.
Qed.

Lemma recover_stale : recover_run id d = (recovered_disk d id result m man, Ok tt).
Proof.
  rewrite (recover_unfold d id result) by apply Hst. rewrite remove_pending_stale. destruct (st_locks _ _ _ _ _ Hst) as [Hl1 Hl2].
  destruct (st_survives _ _ _ _ _ Hst) as (Hs1 & Hs2 & _). pose proof (st_metadata _ _ _ _ _ Hst) as Hmf. fold meta in Hmf.
  pose proof (st_manifest _ _ _ _ _ Hst) as Hnf. pose proof stale_files_ne as Hne.
  set (d1 := <[mani := _]> d). assert (same_paths d d1) as Hd1 by (by eapply replaced_paths).
  assert (d1 !! meta = Some (NFile (metadata_text m))) as Hm1 by (unfold d1; by rewrite lookup_insert_ne).
  assert (d1 !! (base_of c d id ++ [id]) = d !! (base_of c d id ++ [id])) as Hp1 by (apply run_dir_kept; set_solver).
  unfold mbind at 1, op_bind at 1. unfold UpdateRunResult.
  rewrite (rewrite_metadata _ d1 m (fun x => with_result result (default (RunError x) (Some incomplete_text)) x)) by done. cbn [default].
  change (with_result result incomplete_text m) with (failed_metadata result m). set (d2 := <[meta := _]> d1).
  assert (same_paths d d2) as Hd2.
  { intros q. unfold d2. rewrite <- (Hd1 q). revert q. eapply insert_same_paths. exact Hm1. }
  unfold SetRunEndTime. rewrite (rewrite_metadata _ d2 (failed_metadata result m) ended_metadata); [|done| |apply lookup_insert_eq|done|done].
  - unfold d2, recovered_disk. by rewrite insert_insert_eq.
  - unfold d2. rewrite lookup_insert_ne; [done|]. intros He. apply (f_equal length) in He. unfold meta in He.
    rewrite file_path_components in He by (done || apply stale_id || (apply read_files_plain; set_solver)). rewrite !length_app in He. cbn in He. lia.
Qed.

Let d' := recovered_disk d id result m man.

Lemma recovered_lookup q : q <> meta -> q <> mani -> d' !! q = d !! q.
Proof. intros H1 H2. unfold d', recovered_disk. by rewrite !lookup_insert_ne. Qed.

Lemma recovered_paths : same_paths d d'.
Proof.
  intros q. unfold d', recovered_disk. fold meta mani. pose proof (st_metadata _ _ _ _ _ Hst) as H1. pose proof (st_manifest _ _ _ _ _ Hst) as H2. fold meta mani in H1, H2.
  destruct (decide (q = meta)) as [->|]; [by rewrite lookup_insert_eq, H1|]. rewrite lookup_insert_ne by done.
  destruct (decide (q = mani)) as [->|]; [by rewrite lookup_insert_eq, H2|]. by rewrite lookup_insert_ne.
Qed.

Lemma recovered_files : d' !! meta = Some (NFile (metadata_text (ended_metadata (failed_metadata result m)))) /\
  d' !! mani = Some (NFile (manifest_text (without_pending man))).
Proof.
  unfold d', recovered_disk. fold meta mani. rewrite lookup_insert_eq. split; [done|]. rewrite lookup_insert_ne by apply stale_files_ne. apply lookup_insert_eq.
Qed.

(** A run is recovered once. *)
Lemma recovered_final : recovers d' id = None.
Proof.
  destruct (recovers d' id) as [r|] eqn:Hr; [|done]. apply recovers_Some in Hr as (_ & _ & x & Hx & Hres). exfalso.
  destruct (st_survives _ _ _ _ _ Hst) as (_ & _ & Hs). rewrite (readMetadata_text c d' id (ended_metadata (failed_metadata result m))) in Hx; [| |done].
  - injection Hx as <-. assert (md_RunResult (ended_metadata (failed_metadata result m)) = result) as Hm by (unfold ended_metadata; by case_bool_decide).
    rewrite Hm in Hres. destruct (recovers_Some d id result (st_recovers _ _ _ _ _ Hst)) as (_ & _ & y & _ & Hy). by rewrite (recoveredResult_final _ _ Hy) in Hres.
  - rewrite (file_path_same d d') by apply recovered_paths. fold meta. rewrite node_at_nonempty; [apply recovered_files|apply stale_nonempty].
Qed.

(** The files of another run, and the directory, stay. *)
Lemma recovered_other id' name : id' <> id -> plain_name id' -> name ∈ read_files -> d' !! file_path c d id' name = d !! file_path c d id' name.
Proof.
  intros Hne Hid' Hn. pose proof stale_id. apply recovered_lookup; differ.
Qed.

Lemma recovered_recovers id' : id' <> id -> recovers d' id' = recovers d id'.
Proof.
  intros Hne. destruct (decide (plain_name id')) as [Hp|Hp]; [apply recovers_same; [apply recovered_paths|intros; by apply recovered_other]|].
  assert (forall x, recovers x id' = None) as Hnone; [|by rewrite !Hnone].
  intros x. destruct (recovers x id') eqn:Hx; [|done]. by apply recovers_Some in Hx as [? _].
Qed.

Lemma recovered_stale id' result' m' man' : id' <> id -> stale d id' result' m' man' -> stale d' id' result' m' man'.
Proof.
  intros Hne Hs'. pose proof (proj1 (recovers_Some _ _ _ (st_recovers _ _ _ _ _ Hs'))) as Hp. destruct Hs' as [S1 S2 S3 S4 S5 S6 S7 S8].
  pose proof (fun name => file_path_same d d' id' name recovered_paths) as Hfp. split; rewrite ?Hfp; try done.
  - by rewrite recovered_recovers.
  - rewrite recovered_other; [done..|set_solver].
  - rewrite recovered_other; [done..|set_solver].
  - apply is_dir_true. apply is_dir_true in S5. rewrite file_path_parent in S5 |- * by (done || (apply read_files_plain; set_solver)).
    assert (base_of c d id' ++ [id'] <> []) as Hnil by (by destruct (base_of c d id')). rewrite node_at_nonempty in S5 |- * by done.
    pose proof (st_metadata _ _ _ _ _ Hst) as H1. pose proof (st_manifest _ _ _ _ _ Hst) as H2. fold meta mani in H1, H2.
    rewrite recovered_lookup; [done|congruence..].
  - intros name Hn. rewrite Hfp. by apply S8.
Qed.

End Stale.

(** ** All runs *)

(** The runs that are recovered can be. *)
Definition recoverable (d : disk) (ids : list string) : Prop :=
  forall id result, id ∈ ids -> recovers d id = Some result -> exists m man, stale d id result m man.

(** What the recovery of these runs has done. *)
Record all_recovered (d d' : disk) (ids : list string) : Prop := {
  ar_paths : same_paths d d';
  ar_files : forall id result m man, id ∈ ids -> stale d id result m man ->
    d' !! file_path c d id metadataFileName = Some (NFile (metadata_text (ended_metadata (failed_metadata result m)))) /\
    d' !! file_path c d id manifestFileName = Some (NFile (manifest_text (without_pending man)));
  ar_frame : forall q, (forall id, id ∈ ids -> is_Some (recovers d id) -> q <> file_path c d id metadataFileName /\ q <> file_path c d id manifestFileName) ->
    d' !! q = d !! q;
  ar_final : forall id, id ∈ ids -> recovers d' id = None
}.

Lemma all_recovered_alone d d' id ids : recovers d id = None -> all_recovered d d' ids -> all_recovered d d' (id :: ids).
Proof.
  intros Hnone [A1 A2 A3 A4]. split; [done| | |].
  - intros id' result m man [->|Hin]%elem_of_cons Hst; [|by eapply A2]. pose proof (st_recovers _ _ _ _ _ Hst). congruence.
  - intros q Hq. apply A3. intros id' Hin. apply Hq. by right.
  - intros id' [->|Hin]%elem_of_cons; [|by apply A4]. destruct (decide (plain_name id)) as [Hp|Hp].
    + rewrite (recovers_same d d'); [done|done|]. intros name Hn. apply A3. intros id' Hin [r Hr].
      assert (id' <> id) by (intros ->; congruence). pose proof (proj1 (recovers_Some _ _ _ Hr)).
      split; differ.
    + destruct (recovers d' id) eqn:Hx; [|done]. by apply recovers_Some in Hx as [? _].
Qed.

Lemma all_recovered_stale d d' id ids result m man : stale d id result m man ->
  all_recovered (recovered_disk d id result m man) d' ids -> all_recovered d d' (id :: ids).
Proof.
  intros Hst. set (d1 := recovered_disk d id result m man). intros Har. pose proof (recovered_final d id result m man Hst) as Hfin. fold d1 in Hfin.
  pose proof (all_recovered_alone d1 d' id ids Hfin Har) as Hall. destruct Har as [A1 A2 A3 A4].
  pose proof (recovered_paths d id result m man Hst) as Hp. fold d1 in Hp. pose proof (fun i name => file_path_same d d1 i name Hp) as Hfp.
  pose proof (stale_id d id result m man Hst) as Hid.
  assert (forall name, name ∈ read_files -> d' !! file_path c d id name = d1 !! file_path c d id name) as Hself.
  { intros name Hn. apply A3. intros id' Hin [r Hr]. assert (id' <> id) by (intros ->; congruence). rewrite !Hfp.
    pose proof (proj1 (recovers_Some _ _ _ Hr)). split; differ. }
  split.
  - intros q. by rewrite (A1 q), (Hp q).
  - intros id' result' m' man' Hin Hst'. destruct (decide (id' = id)) as [->|Hne].
    + rewrite !Hself by set_solver. destruct (recovered_files d id result' m' man' Hst') as [H1 H2].
      assert (recovered_disk d id result' m' man' = d1) as Heq; [|by rewrite Heq in H1, H2].
      pose proof (recover_stale d id result' m' man' Hst') as E1. rewrite (recover_stale d id result m man Hst) in E1. by injection E1 as <-.
    + apply elem_of_cons in Hin as [->|Hin]; [done|]. rewrite <- !(Hfp id'). apply A2; [done|]. by apply recovered_stale.
  - intros q Hq. destruct (Hq id ltac:(by left) (ex_intro _ _ (st_recovers _ _ _ _ _ Hst))) as [H1 H2].
    rewrite A3; [by apply recovered_lookup|]. intros id' Hin [r Hr]. rewrite !Hfp. apply Hq; [by right|].
    destruct (decide (id' = id)) as [->|Hne]; [by rewrite Hfin in Hr|]. unfold d1 in Hr. rewrite (recovered_recovers d id result m man Hst) in Hr by done. by eexists.
  - apply Hall.
Qed.

Lemma recover_loop_spec ids : forall d, recoverable d ids -> exists d', recover_loop ids d = (d', Ok tt) /\ all_recovered d d' ids.
Proof.
  induction ids as [|id ids IH]; intros d Hrec.
  { exists d. split; [done|]. split; [done| |done|]; [by intros ? ? ? ? ?%elem_of_nil|by intros ? ?%elem_of_nil]. }
  cbn [recover_loop]. unfold mbind, op_bind. destruct (recovers d id) as [result|] eqn:Hr.
  - destruct (Hrec id result ltac:(by left) Hr) as (m & man & Hst). rewrite (recover_stale d id result m man Hst).
    destruct (IH (recovered_disk d id result m man)) as (d' & Hl & Har).
    + intros id' r Hin Hr'. assert (id' <> id) as Hne by (intros ->; by rewrite (recovered_final d id result m man Hst) in Hr').
      rewrite (recovered_recovers d id result m man Hst) in Hr' by done. destruct (Hrec id' r ltac:(by right) Hr') as (m' & man' & Hst').
      exists m', man'. by apply recovered_stale.
    + exists d'. split; [done|]. by eapply all_recovered_stale.
  - rewrite (recover_alone d id Hr). destruct (IH d) as (d' & Hl & Har); [intros id' r Hin; apply Hrec; by right|]. exists d'. split; [done|].
    by apply all_recovered_alone.
Qed.


End Recovery.

(** ** A run that was transferring when the engine stopped, and a finished one *)

Definition stale_metadata : Metadata := with_result RecipeInProgressPhase1Complete "" sample_metadata.
Definition stale_manifest : Manifest :=
  {| m_Entries := [{| me_Path := "perf.csv"; me_ComponentType := {| type_Name := "perf"; SchemaVersion := "1.0.0" |}; me_Pending := false |};
                   {| me_Path := "trace"; me_ComponentType := {| type_Name := "trace"; SchemaVersion := "1.0.0" |}; me_Pending := true |}];
     m_ToolsUsed := [] |}.

Definition failed_sample : Metadata := failed_metadata "incomplete" RecipeFailureIncompletePhase1Complete stale_metadata.

Definition stale_json : JsonFiles :=
  sample_json sample_metadata [stale_metadata; failed_sample; ended_metadata "2026-01-02T03:04:05Z" failed_sample; sample_metadata]
    [stale_manifest; without_pending stale_manifest].

Definition stale_disk : disk :=
  list_to_map [(["data"], NDir); (["data"; "runs"], NDir); (["data"; "runs"; "r042"], NDir);
    (["data"; "runs"; "r042"; "metadata.json"], NFile (metadata_text stale_metadata)); (["data"; "runs"; "r042"; "manifest.json"], NFile "0");
    (["data"; "runs"; "r041"], NDir);
    (["data"; "runs"; "r041"; "metadata.json"], NFile (metadata_text sample_metadata)); (["data"; "runs"; "r041"; "manifest.json"], NFile "1")].

Definition all_free (id : string) : recovery_answers := {| a_lease := Locked; a_read := Locked; a_result := Locked; a_end := Locked |}.

Lemma stale_sample :
  let J := stale_json in let K := sample_categorizations [] in
  stale sample_collection no_faults (J := J) (K := K) (fun _ => Some tt) [] "incomplete" "2026-01-02T03:04:05Z" all_free stale_disk "r042"
    RecipeFailureIncompletePhase1Complete stale_metadata stale_manifest.
Proof.
  intros J K. split.
  - vm_compute. reflexivity.
  - done.
  - vm_compute. reflexivity.
  - vm_compute. reflexivity.
  - vm_compute. reflexivity.
  - split_and!; vm_compute; reflexivity.
  - split; vm_compute; reflexivity.
  - done.
Qed.

