(* ===== verification/Workload.v ===== *)
(** * Performix: splitting a workload into arguments

    Models [core/apap-engine/util/workloadsplitting.go] (the command line of a workload as a
    list of arguments) and the shell quoting [adbShellQuote] of
    [core/apap-engine/conductor/adb.go]. A string is its list of runes. *)

From S2P Require Import Prelude.

Local Open Scope Z_scope.

Notation runes := (list Z).

Definition rune_tab : Z := 9.
Definition rune_newline : Z := 10.
Definition rune_return : Z := 13.
Definition rune_space : Z := 32.
Definition rune_dquote : Z := 34.
Definition rune_dollar : Z := 36.
Definition rune_squote : Z := 39.
Definition rune_backslash : Z := 92.
Definition rune_backtick : Z := 96.

(** The variables of the loop: [inQuote] with [quoteChar], and [quoteStartLen]. *)
Record split_state := {
  args : list runes;
  buf : runes;
  tokenStarted : bool;
  inQuote : option Z;
  quoteStartLen : nat
}.

Definition split_init : split_state :=
  {| args := []; buf := []; tokenStarted := false; inQuote := None; quoteStartLen := 0 |}.

(** [buf = append(buf, rs...)] and [tokenStarted = true]. *)
Definition push (st : split_state) (rs : runes) : split_state :=
  {| args := args st; buf := buf st ++ rs; tokenStarted := true; inQuote := inQuote st; quoteStartLen := quoteStartLen st |}.

Definition end_quote (st : split_state) : split_state :=
  {| args := args st; buf := buf st; tokenStarted := true; inQuote := None; quoteStartLen := quoteStartLen st |}.

Definition start_quote (st : split_state) (r : Z) : split_state :=
  {| args := args st; buf := buf st; tokenStarted := true; inQuote := Some r; quoteStartLen := length (buf st) |}.

Definition end_token (st : split_state) : split_state :=
  if tokenStarted st then
    {| args := args st ++ [buf st]; buf := []; tokenStarted := false; inQuote := inQuote st; quoteStartLen := quoteStartLen st |}
  else st.

Definition is_blank (r : Z) : bool :=
  (r =? rune_space) || (r =? rune_tab) || (r =? rune_newline) || (r =? rune_return).

(** What a backslash escapes inside double quotes. *)
Definition escapable (r : Z) : bool :=
  (r =? rune_backslash) || (r =? rune_dquote) || (r =? rune_dollar) || (r =? rune_backtick) || (r =? rune_newline).

Fixpoint split_loop (rs : runes) (st : split_state) : split_state :=
  match rs with
  | [] => st
  | r :: rest =>
      match inQuote st with
      | Some quoteChar =>
          if r =? quoteChar then split_loop rest (end_quote st)
          else if (r =? rune_backslash) && (quoteChar =? rune_dquote) then
            match rest with
            | next :: rest' =>
                if escapable next
                then split_loop rest' (push st (if next =? rune_newline then [] else [next]))
                else split_loop rest' (push st [r; next])
            | [] => split_loop rest (push st [r])
            end
          else split_loop rest (push st [r])
      | None =>
          if is_blank r then split_loop rest (end_token st)
          else if (r =? rune_squote) || (r =? rune_dquote) then split_loop rest (start_quote st r)
          else if r =? rune_backslash then
            match rest with
            | next :: rest' => split_loop rest' (push st (if next =? rune_newline then [] else [next]))
            | [] => split_loop rest (push st [r])
            end
          else split_loop rest (push st [r])
      end
  end.

(** After the loop: the quote that was not closed is put back where it started. *)
Definition split_finish (st : split_state) : list runes :=
  let b := match inQuote st with
           | Some quoteChar =>
               let n := if (length (buf st) <? quoteStartLen st)%nat then length (buf st) else quoteStartLen st in
               take n (buf st) ++ [quoteChar] ++ drop n (buf st)
           | None => buf st
           end in
  if tokenStarted st then args st ++ [b] else args st.

Definition WorkloadStringToSlice (w : runes) : list runes := split_finish (split_loop w split_init).

(** Every single quote closes the quotes, is escaped, and opens them again. *)
Definition escape_squote (r : Z) : runes :=
  if r =? rune_squote then [rune_squote; rune_backslash; rune_squote; rune_squote] else [r].

Definition adbShellQuote (s : runes) : runes := [rune_squote] ++ (s ≫= escape_squote) ++ [rune_squote].

Fixpoint join_blank (l : list runes) : runes :=
  match l with
  | [] => []
  | [w] => w
  | w :: rest => w ++ [rune_space] ++ join_blank rest
  end.

Example split_quotes : (* a "" 'b c'd \e *)
  WorkloadStringToSlice [97; 32; 34; 34; 32; 39; 98; 32; 99; 39; 100; 32; 92; 101] = [[97]; []; [98; 32; 99; 100]; [101]].
Proof. vm_compute. reflexivity. Qed.

(** ** Quoted words *)

(** Inside single quotes everything but the quote is taken as it is. *)
Lemma split_body s : forall rest st, inQuote st = Some rune_squote ->
  exists n, split_loop ((s ≫= escape_squote) ++ rest) st =
    split_loop rest {| args := args st; buf := buf st ++ s; tokenStarted := bool_decide (s <> []) || tokenStarted st;
                       inQuote := Some rune_squote; quoteStartLen := n |}.
Proof.
  induction s as [|r s IH]; intros rest st Hq.
  { exists (quoteStartLen st). cbn [mbind list_bind app]. rewrite app_nil_r. by destruct st; cbn in *; subst. }
  rewrite bind_cons, <- app_assoc. unfold escape_squote at 1.
  destruct (r =? rune_squote) eqn:Hr; bool_to_prop.
  - subst r. cbn [app]. cbn [split_loop]. rewrite Hq. cbn [end_quote inQuote].
    change (rune_squote =? rune_squote) with true. cbn iota.
    change (is_blank rune_backslash) with false. change ((rune_backslash =? rune_squote) || (rune_backslash =? rune_dquote)) with false.
    change (rune_backslash =? rune_backslash) with true. cbn iota. change (rune_squote =? rune_newline) with false. cbn iota.
    cbn [push inQuote]. change (is_blank rune_squote) with false.
    change ((rune_squote =? rune_squote) || (rune_squote =? rune_dquote)) with true. cbn iota.
    destruct (IH rest (start_quote (push (end_quote st) [rune_squote]) rune_squote) eq_refl) as [n Hn].
    exists n. rewrite Hn. cbn. rewrite <- app_assoc. rewrite orb_true_r. done.
  - cbn [app split_loop]. rewrite Hq. apply Z.eqb_neq in Hr. rewrite Hr.
    change (rune_squote =? rune_dquote) with false. rewrite andb_false_r.
    destruct (IH rest (push st [r]) Hq) as [n Hn]. exists n. rewrite Hn. cbn. rewrite <- app_assoc.
    by rewrite orb_true_r.
Qed.

Lemma split_quoted s rest st : inQuote st = None ->
  exists n, split_loop (adbShellQuote s ++ rest) st =
    split_loop rest {| args := args st; buf := buf st ++ s; tokenStarted := true; inQuote := None; quoteStartLen := n |}.
Proof.
  intros Hq. unfold adbShellQuote. rewrite <- !app_assoc. cbn [app split_loop]. rewrite Hq.
  change (is_blank rune_squote) with false. change ((rune_squote =? rune_squote) || (rune_squote =? rune_dquote)) with true.
  cbn iota. destruct (split_body s ([rune_squote] ++ rest) (start_quote st rune_squote) eq_refl) as [n Hn].
  exists n. cbn [app] in Hn. rewrite Hn. cbn [split_loop inQuote]. done.
Qed.

Lemma split_words l : forall st, inQuote st = None -> tokenStarted st = false -> buf st = [] ->
  split_finish (split_loop (join_blank (adbShellQuote <$> l)) st) = args st ++ l.
Proof.
  induction l as [|s l IH]; intros st Hq Ht Hb.
  { cbn. unfold split_finish. by rewrite Ht, app_nil_r. }
  destruct l as [|s' l].
  - cbn [fmap list_fmap join_blank]. destruct (split_quoted s [] st Hq) as [n Hn]. rewrite app_nil_r in Hn.
    rewrite Hn. cbn. by rewrite Hb.
  - change (join_blank (adbShellQuote <$> s :: s' :: l))
      with (adbShellQuote s ++ [rune_space] ++ join_blank (adbShellQuote <$> s' :: l)).
    destruct (split_quoted s ([rune_space] ++ join_blank (adbShellQuote <$> s' :: l)) st Hq) as [n Hn]. rewrite Hn.
    cbn [app split_loop inQuote]. change (is_blank rune_space) with true. cbn iota. rewrite IH by done.
    cbn. rewrite Hb, <- app_assoc. done.
Qed.

(** A command line made of arguments that are quoted for the shell is split into exactly
    these arguments, whatever characters they contain. *)
Theorem split_shell_quoted l : WorkloadStringToSlice (join_blank (adbShellQuote <$> l)) = l.
Proof. unfold WorkloadStringToSlice. by rewrite split_words. Qed.

(** ** Words without quoting *)

Definition plain_rune (r : Z) : bool :=
  negb (is_blank r) && negb (r =? rune_squote) && negb (r =? rune_dquote) && negb (r =? rune_backslash).

Lemma split_plain s : forallb plain_rune s = true -> forall rest st, inQuote st = None ->
  split_loop (s ++ rest) st =
  split_loop rest {| args := args st; buf := buf st ++ s; tokenStarted := bool_decide (s <> []) || tokenStarted st;
                     inQuote := None; quoteStartLen := quoteStartLen st |}.
Proof.
  induction s as [|r s IH]; intros Hs rest st Hq.
  { cbn. rewrite app_nil_r. by destruct st; cbn in *; subst. }
  cbn in Hs. apply andb_true_iff in Hs as [Hr Hs]. unfold plain_rune in Hr.
  apply andb_true_iff in Hr as [Hr H4%negb_true_iff]. apply andb_true_iff in Hr as [Hr H3%negb_true_iff].
  apply andb_true_iff in Hr as [H1%negb_true_iff H2%negb_true_iff].
  cbn [app split_loop]. rewrite Hq, H1, H2, H3, H4. cbn [orb]. rewrite (IH Hs) by done.
  cbn. rewrite <- app_assoc, orb_true_r. done.
Qed.

(** A quote that is not closed is an ordinary character. *)
Lemma unclosed_quote_kept s t : forallb plain_rune s = true -> rune_squote ∉ t ->
  WorkloadStringToSlice (s ++ [rune_squote] ++ t) = [s ++ [rune_squote] ++ t].
Proof.
  intros Hs Ht. unfold WorkloadStringToSlice. rewrite (split_plain s Hs) by done. cbn [app split_loop inQuote split_init].
  change (is_blank rune_squote) with false. change ((rune_squote =? rune_squote) || (rune_squote =? rune_dquote)) with true.
  cbn iota.
  assert (forall t0 st, rune_squote ∉ t0 -> inQuote st = Some rune_squote -> tokenStarted st = true ->
            split_loop t0 st = {| args := args st; buf := buf st ++ t0; tokenStarted := true;
                                  inQuote := Some rune_squote; quoteStartLen := quoteStartLen st |}) as Hloop.
  { intros t0. induction t0 as [|r t0 IH]; intros st Hn Hq Hts; [cbn; rewrite app_nil_r; by destruct st; cbn in *; subst|].
    apply not_elem_of_cons in Hn as [Hr Hn]. cbn [split_loop]. rewrite Hq, (proj2 (Z.eqb_neq r rune_squote)) by congruence.
    change (rune_squote =? rune_dquote) with false. rewrite andb_false_r, IH by done. cbn. by rewrite <- app_assoc. }
  rewrite Hloop by done. unfold split_finish.
  cbn [buf quoteStartLen inQuote args tokenStarted start_quote split_init app].
  rewrite length_app, (proj2 (Nat.ltb_ge _ _)) by lia. by rewrite take_app_length, drop_app_length.
Qed.
