(* ===== verification/Digraph.v ===== *)
(** * Performix: the renderer dependency graph

    Models [core/apap-engine/render/digraph.go]: the directed graph of renderers, node
    removal, roots, transitive children and the cycle search.

    A [NodeSet] is a [gset Z] and the successor relation a [gmap Z (gset Z)]. Go iterates
    over a map in an unspecified order, so the functions whose result depends on it take
    an [order]: for the call identified by a path of nodes and the set iterated over, the
    list of its elements in the order visited. The recursive closures of the source take
    a fuel argument; [None] is "out of fuel", and the theorems show that the number of
    nodes plus one is always enough. *)

From S2P Require Import Prelude.

Local Open Scope Z_scope.

(** ** The graph *)

Record Digraph := { nodes : gset Z; successors : gmap Z (gset Z) }.

Inductive graph_error :=
| NodeNotExist (node : Z)
| UnknownSuccessor (node successor : Z).

Definition NodeExists (g : Digraph) (node : Z) : bool := bool_decide (node ∈ nodes g).

Definition IsEmpty (g : Digraph) : bool := bool_decide (nodes g = ∅).

(** The only invalid state is a child relation that names a missing node. *)
Definition validate_node (nodes : gset Z) (successors : gmap Z (gset Z)) (node : Z) : result graph_error unit :=
  match successors !! node with
  | None => Ok tt
  | Some s => for_each (fun successor =>
                if bool_decide (successor ∈ nodes) then Ok tt
                else Err (UnknownSuccessor node successor)) (elements s)
  end.

Definition validateNodesAndSuccessors (nodes : gset Z) (successors : gmap Z (gset Z)) : result graph_error unit :=
  for_each (validate_node nodes successors) (elements nodes).

Definition NewDigraph (nodes : gset Z) (successors : gmap Z (gset Z)) : result graph_error Digraph :=
  _ ← validateNodesAndSuccessors nodes successors;
  Ok {| nodes := nodes; successors := successors |}.

Definition getDirectChildren (g : Digraph) (node : Z) : gset Z := default ∅ (successors g !! node).

Definition GetDirectChildren (g : Digraph) (node : Z) : result graph_error (gset Z) :=
  if NodeExists g node then Ok (getDirectChildren g node) else Err (NodeNotExist node).

Definition GetDirectParents (g : Digraph) (node : Z) : result graph_error (gset Z) :=
  if NodeExists g node then
    Ok (set_fold (fun n parents =>
          match successors g !! n with
          | None => parents
          | Some s => if bool_decide (node ∈ s) then {[n]} ∪ parents else parents
          end) ∅ (nodes g))
  else Err (NodeNotExist node).

Definition GetRoots (g : Digraph) : gset Z :=
  set_fold (fun n roots =>
    match successors g !! n with
    | None => roots
    | Some s => roots ∖ s
    end) (nodes g) (nodes g).

(** One iteration of [RemoveAllNodes] on the cloned nodes and successors. *)
Definition remove_one (g : Digraph) (st : gset Z * gmap Z (gset Z)) (node : Z)
  : result graph_error (gset Z * gmap Z (gset Z)) :=
  if NodeExists g node then
    parents ← GetDirectParents g node;
    let newNodes := st.1 ∖ {[node]} in
    let newSuccessors := delete node st.2 in
    Ok (newNodes,
        set_fold (fun p succs => alter (fun s => s ∖ {[node]}) p succs) newSuccessors parents)
  else Err (NodeNotExist node).

Section Iteration.

(** The order in which [range] visits a map or set, per call site. *)
Context (order : list Z -> gset Z -> list Z).

Definition RemoveAllNodes (g : Digraph) (ns : gset Z) : result graph_error Digraph :=
  st ← fold_res (remove_one g) (nodes g, successors g) (order [] ns);
  NewDigraph st.1 st.2.

Definition RemoveNode (g : Digraph) (node : Z) : result graph_error Digraph :=
  RemoveAllNodes g {[node]}.

(** The closure [dfs] of [getAllChildren], with its captured variables [allChildren] and
    [hasCycleToRoot] as state. *)
Fixpoint dfs_children (fuel : nat) (g : Digraph) (root n : Z) (st : gset Z * bool) : option (gset Z * bool) :=
  match fuel with
  | O => None
  | S fuel' =>
      if bool_decide (n ∈ st.1) then
        Some (if bool_decide (n = root) then (st.1, true) else st)
      else
        foldl (fun acc child => acc ≫= dfs_children fuel' g root child)
              (Some ({[n]} ∪ st.1, st.2)) (order [n] (getDirectChildren g n))
  end.

Definition graph_fuel (g : Digraph) : nat := S (size (nodes g)).

Definition getAllChildren (g : Digraph) (node : Z) : option (gset Z) :=
  match dfs_children (graph_fuel g) g node node (∅, false) with
  | Some (allChildren, hasCycleToRoot) =>
      Some (if hasCycleToRoot then allChildren else allChildren ∖ {[node]})
  | None => None
  end.

Definition GetAllChildren (g : Digraph) (node : Z) : option (result graph_error (gset Z)) :=
  if NodeExists g node then Ok <$> getAllChildren g node else Some (Err (NodeNotExist node)).

(** The closure [dfs] of [findCycle]: [seen] holds the nodes of the current path, [path]
    identifies the call. [Some None] is "no cycle found below this node". *)
Fixpoint dfs_cycle (fuel : nat) (g : Digraph) (path : list Z) (n : Z) (seen : gset Z) : option (option (list Z)) :=
  match fuel with
  | O => None
  | S fuel' =>
      if bool_decide (n ∈ seen) then Some (Some [n])
      else
        let seen' := {[n]} ∪ seen in
        (fix loop (children : list Z) : option (option (list Z)) :=
           match children with
           | [] => Some None
           | child :: rest =>
               match dfs_cycle fuel' g (path ++ [n]) child seen' with
               | None => None
               | Some (Some found) =>
                   Some (Some (match found with
                               | p0 :: _ => if bool_decide (p0 ∈ seen') then found ++ [n] else found
                               | [] => found
                               end))
               | Some None => loop rest
               end
           end) (order (path ++ [n]) (getDirectChildren g n))
  end.

Definition findCycle (g : Digraph) (node : Z) : option (bool * list Z) :=
  match dfs_cycle (graph_fuel g) g [] node ∅ with
  | None => None
  | Some (Some path) => Some (true, reverse path)
  | Some None => Some (false, [])
  end.

(** The two loops of [ContainsCycle]: [inl] is an early return with the cycle found,
    [inr] the set left in [unvisited] at the end of the loop over the roots. *)
Fixpoint scan_roots (g : Digraph) (roots : list Z) (unvisited : gset Z) : option (list Z + gset Z) :=
  match roots with
  | [] => Some (inr unvisited)
  | root :: rest =>
      match findCycle g root with
      | None => None
      | Some (true, cycle) => Some (inl cycle)
      | Some (false, _) =>
          match getAllChildren g root with
          | None => None
          | Some children => scan_roots g rest ((unvisited ∖ {[root]}) ∖ children)
          end
      end
  end.

Fixpoint scan_unvisited (g : Digraph) (l : list Z) : option (bool * list Z) :=
  match l with
  | [] => Some (false, [])
  | node :: rest =>
      match findCycle g node with
      | None => None
      | Some (true, cycle) => Some (true, cycle)
      | Some (false, _) => scan_unvisited g rest
      end
  end.

Definition ContainsCycle (g : Digraph) : option (bool * list Z) :=
  if IsEmpty g then Some (false, [])
  else
    match scan_roots g (order [] (GetRoots g)) (nodes g) with
    | None => None
    | Some (inl cycle) => Some (true, cycle)
    | Some (inr unvisited) => scan_unvisited g (order [] unvisited)
    end.

End Iteration.

Example cycle_found :
  ContainsCycle (fun _ s => elements s)
    {| nodes := {[0; 1; 2; 3]};
       successors := {[ 0 := {[1]}; 1 := {[2]}; 2 := {[3]}; 3 := {[1]} ]} |} = Some (true, [1; 2; 3; 1]).
Proof. vm_compute. reflexivity. Qed.

(** ** The graph as a relation *)

Definition edge (g : Digraph) (a b : Z) : Prop := a ∈ nodes g /\ b ∈ getDirectChildren g a.

(** Every edge leads to a node. *)
Definition wf (g : Digraph) : Prop := forall a b, edge g a b -> b ∈ nodes g.

#[export] Instance edge_dec g a b : Decision (edge g a b).
Proof. unfold edge. apply _. Defined.

Lemma validate_node_Ok ns ss n :
  validate_node ns ss n = Ok tt <-> default ∅ (ss !! n) ⊆ ns.
Proof.
  unfold validate_node. destruct (ss !! n) as [s|]; cbn; [|split; [set_solver|done]].
  rewrite for_each_Ok, Forall_forall. setoid_rewrite elem_of_elements.
  split; intros H x Hx; specialize (H x Hx); [by case_bool_decide|].
  by rewrite bool_decide_true.
Qed.

(** [NewDigraph] accepts exactly the graphs without dangling edges. *)
Lemma NewDigraph_Ok ns ss g :
  NewDigraph ns ss = Ok g <-> g = {| nodes := ns; successors := ss |} /\ wf g.
Proof.
  unfold NewDigraph, validateNodesAndSuccessors. rewrite bind_Ok.
  assert (for_each (validate_node ns ss) (elements ns) = Ok tt <-> wf {| nodes := ns; successors := ss |}) as Hv.
  { rewrite for_each_Ok, Forall_forall. setoid_rewrite elem_of_elements.
    setoid_rewrite validate_node_Ok. unfold wf, edge, getDirectChildren. cbn. set_solver. }
  split.
  - intros ([] & Hf & [= <-]). split; [done|]. by apply Hv.
  - intros [-> Hwf]. exists tt. split; [by apply Hv|done].
Qed.

Lemma NewDigraph_Ok_wf ns ss : wf {| nodes := ns; successors := ss |} ->
  NewDigraph ns ss = Ok {| nodes := ns; successors := ss |}.
Proof. intros H. by apply NewDigraph_Ok. Qed.

(** A property of a fold over a set that does not depend on the order. *)
Lemma set_fold_elem_ind {B} (f : Z -> B -> B) (P : gset Z -> B -> Prop) (b : B) :
  P ∅ b -> (forall x X r, x ∉ X -> P X r -> P ({[x]} ∪ X) (f x r)) ->
  forall X, P X (set_fold f b X).
Proof. intros H0 HS X. apply (set_fold_ind_L (fun r X => P X r)); eauto. Qed.

Lemma GetDirectParents_spec g node ps :
  GetDirectParents g node = Ok ps <-> node ∈ nodes g /\ forall n, n ∈ ps <-> edge g n node.
Proof.
  unfold GetDirectParents, NodeExists. set (f := fun n parents => _).
  assert (forall x r, f x r = if bool_decide (node ∈ getDirectChildren g x) then {[x]} ∪ r else r) as Hstep.
  { intros x r. unfold f, getDirectChildren. destruct (successors g !! x); cbn; [done|].
    rewrite bool_decide_false by set_solver. done. }
  assert (forall (X : gset Z) n, n ∈ set_fold f ∅ X <-> n ∈ X /\ node ∈ getDirectChildren g n) as Hf.
  { apply (set_fold_elem_ind f (fun X r => forall n, n ∈ r <-> n ∈ X /\ node ∈ getDirectChildren g n));
      [set_solver|]. intros x X r Hx IH n. rewrite Hstep, elem_of_union, elem_of_singleton.
    case_bool_decide; rewrite ?elem_of_union, ?elem_of_singleton, IH; (split; [|naive_solver]);
      [intros [->|[??]]; auto|tauto]. }
  case_bool_decide; [|split; [done|tauto]]. split.
  - intros [= <-]. split; [done|]. intros n. apply Hf.
  - intros [_ Hps]. f_equal. apply set_eq. intros n. by rewrite Hf, Hps.
Qed.

(** The roots are the nodes that no node points to. *)
Lemma GetRoots_spec g n : n ∈ GetRoots g <-> n ∈ nodes g /\ forall p, ~ edge g p n.
Proof.
  unfold GetRoots. set (f := fun n roots => _).
  assert (forall x r, f x r = r ∖ getDirectChildren g x) as Hstep.
  { intros x r. unfold f, getDirectChildren. destruct (successors g !! x); cbn; [done|].
    by rewrite difference_empty_L. }
  assert (forall (X : gset Z) m, m ∈ set_fold f (nodes g) X <->
            m ∈ nodes g /\ forall p, p ∈ X -> m ∉ getDirectChildren g p) as Hf.
  { apply (set_fold_elem_ind f (fun X r => forall m, m ∈ r <->
            m ∈ nodes g /\ forall p, p ∈ X -> m ∉ getDirectChildren g p)); [set_solver|].
    intros x X r Hx IH m. rewrite Hstep, elem_of_difference, IH.
    setoid_rewrite elem_of_union. setoid_rewrite elem_of_singleton. split.
    - intros [[? Hm] ?]. split; [done|]. intros p [->|Hp]; auto.
    - intros [? Hm]. auto. }
  rewrite Hf. unfold edge. naive_solver.
Qed.

(** ** Iteration orders

    What Go promises about [range] over a map or set: every element once. *)
Class IterationOrder (order : list Z -> gset Z -> list Z) : Prop :=
  order_elements : forall path s, order path s ≡ₚ elements s.

#[export] Instance elements_order : IterationOrder (fun _ s => elements s).
Proof. by intros path s. Qed.

#[export] Instance reverse_elements_order : IterationOrder (fun _ s => reverse (elements s)).
Proof. intros path s. by rewrite reverse_Permutation. Qed.

Lemma elem_of_order order `{!IterationOrder order} path s x : x ∈ order path s <-> x ∈ s.
Proof. by rewrite (order_elements path s), elem_of_elements. Qed.

Lemma size_difference_lt (s V : gset Z) x : x ∈ s -> x ∉ V -> (size (s ∖ ({[x]} ∪ V)) < size (s ∖ V))%nat.
Proof. intros Hs HV. apply subset_size. set_solver. Qed.

Lemma edges_in_nodes g a b : wf g -> a ∈ nodes g -> rtc (edge g) a b -> b ∈ nodes g.
Proof. intros Hwf Ha Hab. induction Hab; eauto. Qed.

Section Children.
Context (order : list Z -> gset Z -> list Z) `{!IterationOrder order}.
Context (g : Digraph) (root : Z) (Hwf : wf g).

Lemma elem_of_ordered_children path n c :
  n ∈ nodes g -> c ∈ order path (getDirectChildren g n) <-> edge g n c.
Proof. intros Hn. rewrite elem_of_order by done. unfold edge. tauto. Qed.

(** What a visit of the nodes of [l] adds to the visited set [V] and the flag [b]. *)
Definition visit_post (V : gset Z) (b : bool) (l : list Z) (V' : gset Z) (b' : bool) : Prop :=
  V ⊆ V' /\ (forall x, x ∈ l -> x ∈ V') /\
  (forall x, x ∈ V' -> x ∉ V -> exists n, n ∈ l /\ rtc (edge g) n x) /\
  (forall x y, x ∈ V' -> x ∉ V -> edge g x y -> y ∈ V') /\
  (b' = true <-> b = true \/ root ∈ l \/ exists x, x ∈ V' /\ x ∉ V /\ edge g x root).

Definition visit_ok (fuel : nat) : Prop := forall n V b,
  n ∈ nodes g -> root ∈ V -> (size (nodes g ∖ V) < fuel)%nat ->
  exists V' b', dfs_children order fuel g root n (V, b) = Some (V', b') /\ visit_post V b [n] V' b'.

Lemma visit_list fuel : visit_ok fuel -> forall l V b,
  (forall n, n ∈ l -> n ∈ nodes g) -> root ∈ V -> (size (nodes g ∖ V) < fuel)%nat ->
  exists V' b', foldl (fun acc child => acc ≫= dfs_children order fuel g root child) (Some (V, b)) l
                = Some (V', b') /\ visit_post V b l V' b'.
Proof.
  intros Hok l. induction l as [|n l IH]; intros V b Hl Hroot Hsize.
  { exists V, b. cbn. split; [done|]. unfold visit_post. set_solver. }
  destruct (Hok n V b) as (V1 & b1 & Hd & HV1 & Hn & Hr1 & Hc1 & Hb1); [set_solver|done|done|].
  destruct (IH V1 b1) as (V2 & b2 & Hf & HV2 & Hl2 & Hr2 & Hc2 & Hb2); [set_solver|set_solver| |].
  { apply Nat.le_lt_trans with (size (nodes g ∖ V)); [|done]. apply subseteq_size. set_solver. }
  exists V2, b2. split; [cbn; rewrite Hd; exact Hf|].
  assert (forall x, x ∈ V2 -> x ∉ V -> x ∈ V1 \/ x ∉ V1) as Hsplit by (intros x; destruct (decide (x ∈ V1)); auto).
  split_and!.
  - set_solver.
  - set_solver.
  - intros x Hx HxV. destruct (Hsplit x Hx HxV) as [H1|H1].
    + destruct (Hr1 x) as (m & ? & ?); [done..|]. exists m. set_solver.
    + destruct (Hr2 x) as (m & ? & ?); [done..|]. exists m. set_solver.
  - intros x y Hx HxV Hxy. destruct (Hsplit x Hx HxV); [apply HV2|]; eauto.
  - rewrite Hb2, Hb1, list_elem_of_singleton, elem_of_cons. split.
    + intros [[?|[?|(x & ? & ? & ?)]]|[?|(x & ? & ? & ?)]]; eauto;
        right; right; exists x; set_solver.
    + intros [?|[[?|?]|(x & Hx & HxV & ?)]]; eauto.
      destruct (Hsplit x Hx HxV); [left; right; right|right; right]; exists x; eauto.
Qed.

Lemma visit_all fuel : visit_ok fuel.
Proof.
  induction fuel as [|fuel IH]; intros n V b Hn Hroot Hsize; [lia|].
  cbn [dfs_children fst snd]. case_bool_decide as HnV.
  - exists V, (if bool_decide (n = root) then true else b). split; [by case_bool_decide|].
    unfold visit_post. split_and!; [done|by intros x ->%list_elem_of_singleton|done|done|].
    rewrite list_elem_of_singleton. case_bool_decide; naive_solver.
  - destruct (visit_list fuel IH (order [n] (getDirectChildren g n)) ({[n]} ∪ V) b)
      as (V' & b' & Hf & HV' & Hl' & Hr' & Hc' & Hb').
    { intros c Hc. apply elem_of_ordered_children in Hc; eauto. }
    { set_solver. }
    { pose proof (size_difference_lt (nodes g) V n Hn HnV). lia. }
    exists V', b'. split; [exact Hf|]. split_and!.
    + set_solver.
    + set_solver.
    + intros x Hx HxV. exists n. split; [set_solver|]. destruct (decide (x = n)) as [->|]; [done|].
      destruct (Hr' x) as (c & Hc & ?); [done|set_solver|].
      apply elem_of_ordered_children in Hc; [|done]. by eapply rtc_l.
    + intros x y Hx HxV Hxy. destruct (decide (x = n)) as [->|].
      * apply Hl', elem_of_ordered_children; done.
      * eapply Hc'; [done|set_solver|done].
    + rewrite Hb', elem_of_ordered_children by done. split.
      * intros [?|[?|(x & ? & ? & ?)]]; [auto| |]; right; right; [exists n|exists x]; set_solver.
      * intros [?|[?|(x & ? & ? & ?)]]; [auto|set_solver|]. destruct (decide (x = n)) as [->|]; [auto|].
        right; right. exists x. set_solver.
Qed.

(** The transitive children are found, whatever the iteration order. *)
Lemma getAllChildren_tc : root ∈ nodes g ->
  exists s, getAllChildren order g root = Some s /\ forall m, m ∈ s <-> tc (edge g) root m.
Proof.
  intros Hroot. unfold getAllChildren, graph_fuel. cbn [dfs_children fst snd].
  rewrite bool_decide_false by set_solver.
  destruct (visit_list (size (nodes g)) (visit_all _)
              (order [root] (getDirectChildren g root)) ({[root]} ∪ ∅) false)
    as (V & b & -> & HV & Hl & Hr & Hc & Hb).
  { intros c Hc. apply elem_of_ordered_children in Hc; eauto. }
  { set_solver. }
  { apply Nat.lt_le_trans with (size (nodes g ∖ ∅)); [apply size_difference_lt; set_solver|].
    apply subseteq_size. set_solver. }
  assert (forall x y, x ∈ V -> edge g x y -> y ∈ V) as Hclosed.
  { intros x y Hx Hxy. destruct (decide (x = root)) as [->|]; [|eapply Hc; eauto; set_solver].
    by apply Hl, elem_of_ordered_children. }
  assert (forall x, x ∈ V <-> rtc (edge g) root x) as HVrtc.
  { intros x. split.
    - intros Hx. destruct (decide (x = root)) as [->|]; [done|].
      destruct (Hr x) as (c & Hroot_c & ?); [done|set_solver|].
      apply elem_of_ordered_children in Hroot_c; [|done]. by eapply rtc_l.
    - revert x. apply rtc_ind_r; [set_solver|eauto]. }
  assert (b = true <-> exists x, x ∈ V /\ edge g x root) as Hb'.
  { rewrite Hb, elem_of_ordered_children by done. split.
    - intros [?|[?|(x & Hx & _ & ?)]]; [done|exists root; set_solver|exists x; auto].
    - intros (x & Hx & Hxr). right. destruct (decide (x = root)) as [->|]; [auto|].
      right. exists x. set_solver. }
  eexists. split; [done|]. intros m. rewrite tc_split_r.
  destruct (decide (m = root)) as [->|Hne].
  - transitivity (b = true); [destruct b; set_solver|].
    rewrite Hb'. split; intros (x & ? & ?); exists x; rewrite HVrtc in *; auto.
  - transitivity (m ∈ V); [destruct b; set_solver|]. rewrite HVrtc. split.
    + intros [|(y & ? & ?)]%rtc_inv_r; [done|eauto].
    + intros (y & ? & ?). by eapply rtc_r.
Qed.
End Children.

(** ** Cycles *)

(** Consecutive nodes are joined by an edge. *)
Fixpoint walk (g : Digraph) (l : list Z) : Prop :=
  match l with
  | a :: l' => match l' with
               | b :: _ => edge g a b /\ walk g l'
               | [] => True
               end
  | [] => True
  end.

(** A closed walk, written with its first node again at the end. *)
Definition is_cycle (g : Digraph) (l : list Z) : Prop :=
  walk g l /\ (2 <= length l)%nat /\ exists x, head l = Some x /\ last l = Some x.

Definition acyclic (g : Digraph) : Prop := forall n, ~ tc (edge g) n n.

Lemma walk_cons g a l : walk g (a :: l) <-> walk g l /\ forall b, head l = Some b -> edge g a b.
Proof. destruct l as [|b l]; cbn; naive_solver. Qed.

Lemma walk_rtc g a l b : walk g (a :: l) -> last (a :: l) = Some b -> rtc (edge g) a b.
Proof.
  revert a. induction l as [|c l IH]; intros a Hw Hl; cbn in *; [by injection Hl as ->|].
  destruct Hw as [Hac Hw]. eapply rtc_l; [done|]. by apply IH.
Qed.

Lemma is_cycle_tc g l : is_cycle g l -> exists n, tc (edge g) n n.
Proof.
  intros (Hw & Hlen & x & Hh & Hl). exists x.
  destruct l as [|a [|b l]]; cbn in Hlen; try lia. injection Hh as ->.
  destruct Hw as [Hab Hw]. apply tc_split_l. exists b. split; [done|].
  by apply (walk_rtc g b l).
Qed.

(** From a closed walk to a list of nodes; needed for completeness of the search. *)
(** Every node of a cycle reaches itself. *)
Lemma walk_from_head g l : forall a x, walk g (a :: l) -> x ∈ a :: l -> rtc (edge g) a x.
Proof.
  induction l as [|b l IH]; intros a x Hw Hx.
  - apply list_elem_of_singleton in Hx as ->. done.
  - apply elem_of_cons in Hx as [->|Hx]; [done|]. destruct Hw as [Hab Hw].
    eapply rtc_l; [done|]. by apply IH.
Qed.

Lemma walk_to_last g l b x : walk g l -> last l = Some b -> x ∈ l -> rtc (edge g) x b.
Proof.
  induction l as [|a l IH]; intros Hw Hl Hx; [by apply not_elem_of_nil in Hx|].
  apply elem_of_cons in Hx as [->|Hx]; [by eapply walk_rtc|].
  destruct l as [|c l]; [by apply not_elem_of_nil in Hx|]. apply IH; [apply Hw|done|done].
Qed.

Lemma cycle_nodes_tc g l x : is_cycle g l -> x ∈ l -> tc (edge g) x x.
Proof.
  intros (Hw & Hlen & a & Hh & Hl) Hx. destruct l as [|a' [|b l]]; cbn in Hlen; try lia.
  injection Hh as ->. destruct Hw as [Hab Hw].
  eapply tc_rtc_r; [eapply (tc_rtc_l _ _ a)|eapply (walk_from_head g (b :: l)); [done|exact Hx]].
  - by eapply (walk_to_last g (a :: b :: l)).
  - eapply tc_rtc_r; [by apply tc_once|]. eapply walk_to_last; [exact Hw|done|left].
Qed.

Lemma cycle_nonempty g l : is_cycle g l -> l <> [].
Proof. intros (_ & Hlen & _) ->. cbn in Hlen. lia. Qed.

Lemma rtc_walk g a b : rtc (edge g) a b -> exists l, walk g (a :: l) /\ last (a :: l) = Some b.
Proof.
  induction 1 as [a|a c b Hac _ (l & Hw & Hl)]; [by exists []|].
  exists (c :: l). done.
Qed.

Lemma last_elem_of (l : list Z) x : last l = Some x -> x ∈ l.
Proof. intros [l' ->]%last_Some. set_solver. Qed.

Section CycleSearch.
Context (order : list Z -> gset Z -> list Z) `{!IterationOrder order}.
Context (g : Digraph) (Hwf : wf g).

(** The inner loop of the search, named. *)
Fixpoint cycle_loop (rec : Z -> option (option (list Z))) (n : Z) (seen' : gset Z) (children : list Z)
  : option (option (list Z)) :=
  match children with
  | [] => Some None
  | child :: rest =>
      match rec child with
      | None => None
      | Some (Some found) =>
          Some (Some (match found with
                      | p0 :: _ => if bool_decide (p0 ∈ seen') then found ++ [n] else found
                      | [] => found
                      end))
      | Some None => cycle_loop rec n seen' rest
      end
  end.

Lemma dfs_cycle_S fuel path n seen :
  dfs_cycle order (S fuel) g path n seen =
  if bool_decide (n ∈ seen) then Some (Some [n])
  else cycle_loop (fun c => dfs_cycle order fuel g (path ++ [n]) c ({[n]} ∪ seen)) n ({[n]} ∪ seen)
         (order (path ++ [n]) (getDirectChildren g n)).
Proof.
  cbn [dfs_cycle]. case_bool_decide; [done|].
  generalize (order (path ++ [n]) (getDirectChildren g n)) as l.
  induction l as [|c l IH]; [done|]. cbn. by repeat case_match.
Qed.

(** The first child whose search does not end with "nothing found" decides the loop. *)
Lemma cycle_loop_cases rec n seen' l :
  (cycle_loop rec n seen' l = Some None /\ forall c, c ∈ l -> rec c = Some None) \/
  (exists c, c ∈ l /\ rec c = None /\ cycle_loop rec n seen' l = None) \/
  (exists c found, c ∈ l /\ rec c = Some (Some found) /\
     cycle_loop rec n seen' l =
       Some (Some (match found with
                   | p0 :: _ => if bool_decide (p0 ∈ seen') then found ++ [n] else found
                   | [] => found
                   end))).
Proof.
  induction l as [|c l IH]; [left; set_solver|]. cbn [cycle_loop].
  destruct (rec c) as [[found|]|] eqn:Hc.
  - right; right. exists c, found. set_solver.
  - destruct IH as [[-> IH]|[(c' & ? & ? & ?)|(c' & found & ? & ? & ?)]].
    + left. split; [done|]. intros c' [->|?]%elem_of_cons; auto.
    + right; left. exists c'. set_solver.
    + right; right. exists c', found. set_solver.
  - right; left. exists c. set_solver.
Qed.

(** The shape of what the search returns at a node, [path] being in reverse order. *)
Definition found_ok (n : Z) (seen : gset Z) (found : list Z) : Prop :=
  exists x, head found = Some x /\ walk g (reverse found) /\
    ((x ∈ seen /\ last found = Some n) \/
     (x ∉ seen /\ last found = Some x /\ (2 <= length found)%nat)).

Lemma dfs_cycle_sound fuel : forall path n seen found,
  n ∈ nodes g -> dfs_cycle order fuel g path n seen = Some (Some found) -> found_ok n seen found.
Proof.
  induction fuel as [|fuel IH]; intros path n seen found Hn; [done|].
  rewrite dfs_cycle_S. case_bool_decide as Hseen.
  { intros [= <-]. exists n. cbn. auto. }
  destruct (cycle_loop_cases (fun c => dfs_cycle order fuel g (path ++ [n]) c ({[n]} ∪ seen)) n
     ({[n]} ∪ seen) (order (path ++ [n]) (getDirectChildren g n)))
    as [[-> _]|[(c & _ & _ & ->)|(c & f & Hc & Hf & ->)]]; [done..|].
  intros [= <-]. rewrite elem_of_ordered_children in Hc by done.
  apply IH in Hf as (x & Hx & Hw & Hcase); [|by apply (Hwf n)].
  destruct f as [|p0 f]; [done|]. injection Hx as ->. exists x.
  destruct Hcase as [[Hxs Hlast]|(Hxs & Hlast & Hlen)].
  - rewrite bool_decide_true by done. split_and!; [done| |].
    + rewrite reverse_snoc. apply walk_cons. split; [done|].
      intros b. rewrite head_reverse, Hlast. by intros [= <-].
    + apply elem_of_union in Hxs as [->%elem_of_singleton|?].
      * right. rewrite last_snoc, length_app. cbn. split_and!; [done|done|lia].
      * left. by rewrite last_snoc.
  - rewrite bool_decide_false by done. split_and!; [done..|]. right. split; [set_solver|done].
Qed.

Lemma dfs_cycle_complete fuel : forall path n seen,
  n ∈ nodes g -> dfs_cycle order fuel g path n seen = Some None ->
  forall l, walk g (n :: l) -> NoDup (n :: l) /\ (forall x, x ∈ n :: l -> x ∉ seen).
Proof.
  induction fuel as [|fuel IH]; intros path n seen Hn; [done|].
  rewrite dfs_cycle_S. case_bool_decide as Hseen; [done|]. intros Hloop l Hw.
  destruct (cycle_loop_cases (fun c => dfs_cycle order fuel g (path ++ [n]) c ({[n]} ∪ seen)) n
     ({[n]} ∪ seen) (order (path ++ [n]) (getDirectChildren g n)))
    as [[_ Hall]|[(c & _ & _ & Hc)|(c & f & _ & _ & Hc)]]; [|congruence..].
  destruct l as [|c l].
  { split; [by apply NoDup_singleton|]. by intros x ->%list_elem_of_singleton. }
  destruct Hw as [Hnc Hw].
  destruct (IH (path ++ [n]) c ({[n]} ∪ seen)) with (l := l) as [Hnd Havoid];
    [by apply (Hwf n)|by apply Hall, elem_of_ordered_children|done|].
  split.
  - apply NoDup_cons. split; [|done]. intros Hin. specialize (Havoid n Hin). set_solver.
  - intros x [->|Hx]%elem_of_cons; [done|]. specialize (Havoid x Hx). set_solver.
Qed.

Lemma dfs_cycle_total fuel : forall path n seen,
  n ∈ nodes g -> (size (nodes g ∖ seen) < fuel)%nat ->
  dfs_cycle order fuel g path n seen <> None.
Proof.
  induction fuel as [|fuel IH]; intros path n seen Hn Hsize; [lia|].
  rewrite dfs_cycle_S. case_bool_decide as Hseen; [done|].
  destruct (cycle_loop_cases (fun c => dfs_cycle order fuel g (path ++ [n]) c ({[n]} ∪ seen)) n
     ({[n]} ∪ seen) (order (path ++ [n]) (getDirectChildren g n)))
    as [[-> _]|[(c & Hc & Hnone & _)|(c & f & _ & _ & ->)]]; [done| |done].
  rewrite elem_of_ordered_children in Hc by done.
  apply IH in Hnone; [done|by apply (Hwf n)|].
  pose proof (size_difference_lt (nodes g) seen n Hn Hseen). lia.
Qed.

(** [findCycle] returns, with a cycle if and only if one can be reached. *)
Lemma findCycle_spec n : n ∈ nodes g ->
  exists b cyc, findCycle order g n = Some (b, cyc) /\
    (b = true -> is_cycle g cyc) /\
    (b = false -> forall m, rtc (edge g) n m -> ~ tc (edge g) m m).
Proof.
  intros Hn. unfold findCycle, graph_fuel.
  destruct (dfs_cycle order (S (size (nodes g))) g [] n ∅) as [[found|]|] eqn:Hd.
  - exists true, (reverse found). split_and!; [done| |done]. intros _.
    apply dfs_cycle_sound in Hd as (x & Hh & Hw & [[? _]|(_ & Hl & Hlen)]); [set_solver| |done].
    split_and!; [done|by rewrite length_reverse|].
    exists x. by rewrite head_reverse, last_reverse.
  - exists false, []. split_and!; [done..|]. intros _ m Hnm Hmm.
    apply rtc_walk in Hnm as (l1 & Hw1 & Hl1).
    apply tc_split_l in Hmm as (c & Hmc & (l2 & Hw2 & Hl2)%rtc_walk).
    assert (walk g ((n :: l1) ++ c :: l2)) as Hw.
    { clear Hd Hl2. revert n Hn Hw1 Hl1. induction l1 as [|a l1 IH]; intros n Hn Hw1 Hl1; cbn in *.
      - by injection Hl1 as ->.
      - destruct Hw1 as [Hna Hw1]. split; [done|]. apply IH; [by apply (Hwf n)|done|done]. }
    destruct (dfs_cycle_complete _ _ _ _ Hn Hd (l1 ++ c :: l2) Hw) as [Hnd _].
    assert (NoDup ((n :: l1) ++ c :: l2)) as (_ & Hdisj & _)%NoDup_app by done.
    apply (Hdisj m); by apply last_elem_of.
  - exfalso. eapply dfs_cycle_total; [done| |exact Hd].
    apply Nat.lt_succ_r, subseteq_size. set_solver.
Qed.
End CycleSearch.

Section Search.
Context (order : list Z -> gset Z -> list Z) `{!IterationOrder order}.
Context (g : Digraph) (Hwf : wf g).

(** No cycle can be reached from [n]. *)
Definition clean_from (n : Z) : Prop := forall m, rtc (edge g) n m -> ~ tc (edge g) m m.

Lemma scan_roots_spec l : forall u, (forall n, n ∈ l -> n ∈ nodes g) ->
  exists r, scan_roots order g l u = Some r /\
    match r with
    | inl cyc => is_cycle g cyc
    | inr u' => (forall n, n ∈ l -> clean_from n) /\ u' ⊆ u /\
                (forall m, m ∈ u -> m ∉ u' -> exists n, n ∈ l /\ rtc (edge g) n m)
    end.
Proof.
  induction l as [|root l IH]; intros u Hl.
  { exists (inr u). split; [done|]. set_solver. }
  cbn [scan_roots].
  destruct (findCycle_spec order g Hwf root) as ([] & cyc & -> & Ht & Hf); [set_solver| |].
  { exists (inl cyc). auto. }
  destruct (getAllChildren_tc order g root Hwf) as (s & -> & Hs); [set_solver|].
  destruct (IH ((u ∖ {[root]}) ∖ s)) as (r & -> & Hr); [set_solver|].
  exists r. split; [done|]. destruct r as [c|u']; [done|]. destruct Hr as (Hclean & Hsub & Hcov).
  split_and!.
  - intros n [->|Hn]%elem_of_cons; [exact (Hf eq_refl)|auto].
  - set_solver.
  - intros m Hm Hm'. destruct (decide (m = root)) as [->|Hne]; [exists root; set_solver|].
    destruct (decide (m ∈ s)) as [Hms|Hms].
    + exists root. split; [set_solver|]. by apply tc_rtc, Hs.
    + destruct (Hcov m) as (n & ? & ?); [set_solver|done|]. exists n. set_solver.
Qed.

Lemma scan_unvisited_spec l : (forall n, n ∈ l -> n ∈ nodes g) ->
  exists b cyc, scan_unvisited order g l = Some (b, cyc) /\
    (b = true -> is_cycle g cyc) /\ (b = false -> forall n, n ∈ l -> clean_from n).
Proof.
  induction l as [|n l IH]; intros Hl; cbn [scan_unvisited].
  { exists false, []. set_solver. }
  destruct (findCycle_spec order g Hwf n) as ([] & cyc & -> & Ht & Hf); [set_solver| |].
  { by exists true, cyc. }
  destruct IH as (b & cyc' & -> & Ht' & Hf'); [set_solver|].
  exists b, cyc'. split_and!; [done..|]. intros -> m [->|Hm]%elem_of_cons; [exact (Hf eq_refl)|by apply Hf'].
Qed.

Lemma tc_start_in_nodes n m : tc (edge g) n m -> n ∈ nodes g.
Proof. by intros (y & [? _] & _)%tc_split_l. Qed.

Lemma ContainsCycle_spec :
  exists b cyc, ContainsCycle order g = Some (b, cyc) /\
    (b = true -> is_cycle g cyc) /\ (b = false -> acyclic g).
Proof.
  unfold ContainsCycle, IsEmpty. case_bool_decide as Hempty.
  { exists false, []. split_and!; [done..|]. intros _ n Hn%tc_start_in_nodes. set_solver. }
  destruct (scan_roots_spec (order [] (GetRoots g)) (nodes g)) as ([cyc|u] & -> & Hr).
  { intros n. rewrite elem_of_order, GetRoots_spec by done. tauto. }
  { by exists true, cyc. }
  destruct Hr as (Hclean & Hsub & Hcov).
  destruct (scan_unvisited_spec (order [] u)) as (b & cyc & -> & Ht & Hf).
  { intros n. rewrite elem_of_order by done. set_solver. }
  exists b, cyc. split_and!; [done..|]. intros -> n Hn.
  destruct (decide (n ∈ u)) as [Hu|Hu].
  - apply (Hf eq_refl n) in Hn; [done|by apply elem_of_order|done].
  - destruct (Hcov n) as (root & Hroot & ?); [by eapply tc_start_in_nodes|done|].
    by eapply Hclean.
Qed.

(** ** Node removal *)

Lemma alter_all_lookup (f : gset Z -> gset Z) (m : gmap Z (gset Z)) (ps : gset Z) k :
  set_fold (fun p succs => alter f p succs) m ps !! k =
  if decide (k ∈ ps) then f <$> m !! k else m !! k.
Proof.
  revert ps. apply (set_fold_elem_ind (fun p succs => alter f p succs)
    (fun ps (r : gmap Z (gset Z)) => r !! k = if decide (k ∈ ps) then f <$> m !! k else m !! k)).
  { by rewrite decide_False by set_solver. }
  intros p ps r Hp IH. destruct (decide (k = p)) as [->|Hne].
  - rewrite lookup_alter_eq, IH, decide_False, decide_True by set_solver. done.
  - rewrite lookup_alter_ne, IH by done. destruct (decide (k ∈ ps)).
    + by rewrite decide_True by set_solver.
    + by rewrite decide_False by set_solver.
Qed.

(** The clones after the nodes of [removed] have been processed. *)
Definition removal_inv (removed : gset Z) (st : gset Z * gmap Z (gset Z)) : Prop :=
  st.1 = nodes g ∖ removed /\
  forall a, a ∈ nodes g -> a ∉ removed -> default ∅ (st.2 !! a) = getDirectChildren g a ∖ removed.

Lemma remove_one_inv removed st node :
  removal_inv removed st -> node ∈ nodes g ->
  exists st', remove_one g st node = Ok st' /\ removal_inv ({[node]} ∪ removed) st'.
Proof.
  intros [H1 H2] Hnode. unfold remove_one, NodeExists. rewrite bool_decide_true by done.
  destruct (GetDirectParents g node) as [ps|e] eqn:Hps.
  - apply GetDirectParents_spec in Hps as [_ Hps]. cbn. eexists. split; [done|]. split; cbn [fst snd].
    + rewrite H1. set_solver.
    + intros a Ha Har. rewrite alter_all_lookup, lookup_delete_ne by set_solver.
      specialize (H2 a Ha ltac:(set_solver)). destruct (decide (a ∈ ps)) as [Hin|Hin].
      * destruct (st.2 !! a) as [s|]; cbn in *; [rewrite H2; set_solver|].
        apply set_eq. intros x. set_solver.
      * rewrite H2. rewrite Hps in Hin. unfold edge in Hin. set_solver.
  - unfold GetDirectParents, NodeExists in Hps. by rewrite bool_decide_true in Hps.
Qed.

Lemma remove_fold_inv l : forall removed st,
  removal_inv removed st -> (forall n, n ∈ l -> n ∈ nodes g) ->
  exists st', fold_res (remove_one g) st l = Ok st' /\ removal_inv (list_to_set l ∪ removed) st'.
Proof.
  induction l as [|n l IH]; intros removed st Hinv Hl.
  { exists st. split; [done|]. by rewrite list_to_set_nil, union_empty_l_L. }
  destruct (remove_one_inv removed st n) as (st1 & Hst1 & Hinv1); [done|set_solver|].
  destruct (IH _ st1 Hinv1) as (st2 & Hst2 & Hinv2); [set_solver|].
  exists st2. cbn [fold_res]. rewrite Hst1. split; [done|].
  assert (list_to_set (n :: l) ∪ removed = list_to_set l ∪ ({[n]} ∪ removed)) as ->; [|done].
  rewrite list_to_set_cons. set_solver.
Qed.

Lemma remove_fold_missing l : forall st,
  (exists n, n ∈ l /\ n ∉ nodes g) -> exists e, fold_res (remove_one g) st l = Err e.
Proof.
  induction l as [|n l IH]; intros st (m & Hm & Hmn); [set_solver|]. cbn.
  destruct (remove_one g st n) as [st'|e] eqn:Hr; cbn; [|by exists e]. apply IH.
  unfold remove_one, NodeExists in Hr. case_bool_decide; [|done].
  exists m. split; [|done]. apply elem_of_cons in Hm as [->|]; done.
Qed.

(** Removal gives the induced subgraph. *)
Lemma RemoveAllNodes_Ok ns : ns ⊆ nodes g ->
  exists g', RemoveAllNodes order g ns = Ok g' /\ wf g' /\ nodes g' = nodes g ∖ ns /\
    forall a b, edge g' a b <-> edge g a b /\ a ∉ ns /\ b ∉ ns.
Proof.
  intros Hns. unfold RemoveAllNodes.
  destruct (remove_fold_inv (order [] ns) ∅ (nodes g, successors g)) as (st & -> & Hn & Hs).
  { split; cbn; [set_solver|]. intros a _ _. unfold getDirectChildren. set_solver. }
  { intros n. rewrite elem_of_order by done. set_solver. }
  assert (list_to_set (order [] ns) ∪ ∅ = ns) as Heq.
  { apply set_eq. intros x. rewrite union_empty_r_L, elem_of_list_to_set. by apply elem_of_order. }
  rewrite Heq in *. set (g' := {| nodes := st.1; successors := st.2 |}).
  assert (forall a b, edge g' a b <-> edge g a b /\ a ∉ ns /\ b ∉ ns) as Hedge.
  { intros a b. unfold edge at 1. cbn. rewrite Hn, elem_of_difference. split.
    - intros [[Ha Han] Hb]. unfold getDirectChildren in Hb. cbn in Hb.
      rewrite Hs in Hb by done. unfold edge. set_solver.
    - intros ([Ha Hb] & Han & Hbn). split; [done|]. unfold getDirectChildren. cbn.
      rewrite Hs by done. set_solver. }
  assert (wf g') as Hwf'.
  { intros a b Hab. apply Hedge in Hab as (Hab & _ & Hb). cbn. rewrite Hn.
    apply elem_of_difference. split; [by apply (Hwf a)|done]. }
  exists g'. cbn. rewrite NewDigraph_Ok_wf by done. done.
Qed.

Lemma RemoveAllNodes_Err ns : ~ ns ⊆ nodes g -> exists e, RemoveAllNodes order g ns = Err e.
Proof.
  intros Hns. unfold RemoveAllNodes.
  destruct (remove_fold_missing (order [] ns) (nodes g, successors g)) as (e & ->); [|by exists e].
  assert (ns ∖ nodes g ≢ ∅) as [n Hn]%set_choose.
  { intros Hempty. apply Hns. intros x Hx. destruct (decide (x ∈ nodes g)); [done|set_solver]. }
  exists n. rewrite elem_of_order by done. set_solver.
Qed.
End Search.

(** ** The contract of the graph operations *)

(** The children of a node are exactly the nodes that its edges lead to, in any number of
    steps; the search always ends, whatever the order in which it visits the successors, and
    only a node that is not in the graph is an error. *)
Theorem GetAllChildren_reachable order g n :
  IterationOrder order -> wf g ->
  exists r, GetAllChildren order g n = Some r /\
    match r with
    | Ok s => n ∈ nodes g /\ forall m, m ∈ s <-> tc (edge g) n m
    | Err e => n ∉ nodes g /\ e = NodeNotExist n
    end.
Proof.
  intros Hord Hwf. unfold GetAllChildren, NodeExists. case_bool_decide as Hn.
  - destruct (getAllChildren_tc order g n Hwf Hn) as (s & -> & Hs). by exists (Ok s).
  - by exists (Err (NodeNotExist n)).
Qed.

(** The search for a cycle always ends, returns a real cycle of the graph when it finds
    one, and finds none exactly when the graph is acyclic. *)
Theorem ContainsCycle_decides order g :
  IterationOrder order -> wf g ->
  exists b cyc, ContainsCycle order g = Some (b, cyc) /\
    (b = true -> is_cycle g cyc) /\ (b = false <-> acyclic g).
Proof.
  intros Hord Hwf. destruct (ContainsCycle_spec order g Hwf) as (b & cyc & Hc & Ht & Hf).
  exists b, cyc. split_and!; [done..|]. split; [done|]. intros Hacyc.
  destruct b; [|done]. destruct (is_cycle_tc g cyc (Ht eq_refl)) as [n Hn]. by apply Hacyc in Hn.
Qed.

(** Removing nodes leaves the subgraph of the other nodes: the edges that remain are those
    between nodes that were kept, and removing a node that does not exist is an error. *)
Theorem RemoveAllNodes_induced order g ns :
  IterationOrder order -> wf g ->
  match RemoveAllNodes order g ns with
  | Ok g' => ns ⊆ nodes g /\ wf g' /\ nodes g' = nodes g ∖ ns /\
             forall a b, edge g' a b <-> edge g a b /\ a ∉ ns /\ b ∉ ns
  | Err _ => ~ ns ⊆ nodes g
  end.
Proof.
  intros Hord Hwf. destruct (decide (ns ⊆ nodes g)) as [Hns|Hns].
  - destruct (RemoveAllNodes_Ok order g Hwf ns Hns) as (g' & -> & ? & ? & ?). done.
  - by destruct (RemoveAllNodes_Err order g Hwf ns Hns) as (e & ->).
Qed.

(** ** Witnesses *)

Definition sample_graph : Digraph :=
  {| nodes := {[0; 1; 2]}; successors := {[ 0 := {[1]}; 1 := {[2]}; 2 := {[1]} ]} |}.

Lemma sample_graph_wf : wf sample_graph.
Proof.
  assert (NewDigraph (nodes sample_graph) (successors sample_graph) = Ok sample_graph) as H by (vm_compute; reflexivity).
  by apply NewDigraph_Ok in H as [_ H].
Qed.

Lemma GetAllChildren_reachable_witness :
  exists r, GetAllChildren (fun _ s => elements s) sample_graph 0 = Some r /\
    match r with
    | Ok s => 0 ∈ nodes sample_graph /\ forall m, m ∈ s <-> tc (edge sample_graph) 0 m
    | Err e => 0 ∉ nodes sample_graph /\ e = NodeNotExist 0
    end.
Proof. apply GetAllChildren_reachable; [apply _|apply sample_graph_wf]. Defined.

Lemma ContainsCycle_decides_witness :
  exists b cyc, ContainsCycle (fun _ s => elements s) sample_graph = Some (b, cyc) /\
    (b = true -> is_cycle sample_graph cyc) /\ (b = false <-> acyclic sample_graph).
Proof. apply ContainsCycle_decides; [apply _|apply sample_graph_wf]. Defined.

Lemma RemoveAllNodes_induced_witness :
  match RemoveAllNodes (fun _ s => elements s) sample_graph {[1]} with
  | Ok g' => {[1]} ⊆ nodes sample_graph /\ wf g' /\ nodes g' = nodes sample_graph ∖ {[1]} /\
             forall a b, edge g' a b <-> edge sample_graph a b /\ a ∉ ({[1]} : gset Z) /\ b ∉ ({[1]} : gset Z)
  | Err _ => ~ {[1]} ⊆ nodes sample_graph
  end.
Proof. apply (RemoveAllNodes_induced (fun _ s => elements s) sample_graph {[1]}); [apply _|apply sample_graph_wf]. Defined.
