(* ===== verification/RenderTables.v ===== *)
(** * Performix: the tables of a render session

    Models [core/apap-engine/render/manifest.go] (the manifest of tables, generated
    table names), [core/apap-engine/render/inputoutputspec.go] (port specifications and
    pending outputs) and [core/apap-engine/render/datasource.go] (resolving the inputs of
    a renderer to tables). *)

From S2P Require Import Prelude.
From S2P Require Import GoStrings.
From Stdlib Require Import Ascii.

Local Open Scope Z_scope.

(** ** Errors of the render package

    [cdf.ErrComponentPending], errors made by [fmt.Errorf] without and with [%w],
    [errors.Join], and messages with a code, metadata and an optional cause. *)
Inductive rerror :=
| Pending
| Errorf (text : string)
| Wrapf (text : string) (cause : rerror)
| Joined (causes : list rerror)
| Message (code : string) (metadata : list (string * string)) (cause : option rerror).

(** [errors.Is(err, cdf.ErrComponentPending)] on a non-nil error. *)
Fixpoint is_pending_error (e : rerror) : bool :=
  match e with
  | Pending => true
  | Errorf _ => false
  | Wrapf _ c => is_pending_error c
  | Joined cs => existsb is_pending_error cs
  | Message _ _ (Some c) => is_pending_error c
  | Message _ _ None => false
  end.

Definition is_pending (e : option rerror) : bool :=
  match e with Some e => is_pending_error e | None => false end.

(** ** Manifest *)

Record ComponentType := { ct_name : string; SchemaVersion : string }.

#[export] Instance ComponentType_eq_dec : EqDecision ComponentType.
Proof. solve_decision. Defined.

#[export] Instance ComponentType_countable : Countable ComponentType.
Proof.
  apply (inj_countable' (fun c => (ct_name c, SchemaVersion c))
                        (fun p => {| ct_name := p.1; SchemaVersion := p.2 |})).
  by intros [].
Defined.

Record RendererIdentity := { ri_index : Z; ri_id : option string; ri_name : string }.

#[export] Instance RendererIdentity_eq_dec : EqDecision RendererIdentity.
Proof. solve_decision. Defined.

Record ManifestEntryInfo := {
  componentType : ComponentType;
  rendererIdentity : RendererIdentity;
  associatedContent : list string;
  pending : bool
}.

Inductive TableType := RegularTable | HiddenTable | TempTable.

#[export] Instance TableType_eq_dec : EqDecision TableType.
Proof. solve_decision. Defined.

Record ManifestEntry := { info : ManifestEntryInfo; tableName : string; tableType : TableType }.

Definition IsHidden (e : ManifestEntry) : bool := bool_decide (tableType e = HiddenTable).
Definition IsTemp (e : ManifestEntry) : bool := bool_decide (tableType e = TempTable).

(** The entries, in the order they were added. *)
Notation Manifest := (list ManifestEntry).

Definition NewManifest : Manifest := [].

Definition GetEntry (m : Manifest) (name : string) : option ManifestEntry :=
  i ← find_index (fun e => bool_decide (tableName e = name)) m; m !! i.

Definition TempTableNames (m : Manifest) : list string := tableName <$> filter (fun e => IsTemp e = true) m.

(** [None] is the error "manifest entry not found". *)
Fixpoint RemoveEntry (m : Manifest) (name : string) : option Manifest :=
  match m with
  | [] => None
  | e :: m' => if bool_decide (tableName e = name) then Some m' else (e ::.) <$> RemoveEntry m' name
  end.

Definition countEntriesByComponentType (m : Manifest) (c : string) : Z :=
  Z.of_nat (length (filter (fun e => ct_name (componentType (info e)) = c) m)).

Definition is_table_byte (c : ascii) : bool :=
  let n := Z.of_N (N_of_ascii c) in
  ((97 <=? n) && (n <=? 122)) || ((65 <=? n) && (n <=? 90)) || ((48 <=? n) && (n <=? 57)) || (n =? 95).

(** The loop [for i := range s] visits the first byte of each UTF-8 character, so the
    other bytes of a multi-byte character keep the zero value of [make]; [skip] counts
    the bytes left of the current character. *)
Fixpoint sanitize_from (skip : nat) (s : string) : string :=
  match s with
  | EmptyString => EmptyString
  | String c s' =>
      match skip with
      | S k => String "000" (sanitize_from k s')
      | O => String (if is_table_byte c then c else "_") (sanitize_from (rune_len s - 1) s')
      end
  end.

Definition SanitizeTableName (s : string) : string := sanitize_from 0 s.

Definition table_name_for (c : string) (index : Z) : string :=
  SanitizeTableName c +:+ (if 0 <? index then "_" +:+ Itoa index else EmptyString).

Definition addEntryInternal (m : Manifest) (i : ManifestEntryInfo) (t : TableType) : Manifest * string :=
  let index := countEntriesByComponentType m (ct_name (componentType i)) in
  let name := table_name_for (ct_name (componentType i)) index in
  (m ++ [{| info := i; tableName := name; tableType := t |}], name).

Definition AddEntry (m : Manifest) (i : ManifestEntryInfo) : Manifest * string := addEntryInternal m i RegularTable.
Definition AddEntryHidden (m : Manifest) (i : ManifestEntryInfo) : Manifest * string := addEntryInternal m i HiddenTable.

Definition anonymous_info : ManifestEntryInfo := {|
  componentType := {| ct_name := "anonymous"; SchemaVersion := "0.0" |};
  rendererIdentity := {| ri_index := 0; ri_id := None; ri_name := EmptyString |};
  associatedContent := [];
  pending := false
|}.

Definition AddTempTable (m : Manifest) : Manifest * string := addEntryInternal m anonymous_info TempTable.

Definition GetComponentTypeFromTable (m : Manifest) (name : string) : result rerror ComponentType :=
  match GetEntry m name with
  | Some e => Ok (componentType (info e))
  | None => Err (Errorf ("table '" +:+ name +:+ "' not found in manifest"))
  end.

(** ** Ports *)

Inductive Cardinality := CardinalityOne | CardinalityPerRun | CardinalityOther (n : Z).

Record PortSpec := {
  port_name : string;
  Description : string;
  port_cardinality : Cardinality;
  port_component : ComponentType
}.

Notation PortList := (list PortSpec).

Definition port_get (ports : PortList) (name : string) : option PortSpec :=
  i ← find_index (fun p => bool_decide (port_name p = name)) ports; ports !! i.

Definition is_letter (c : ascii) : bool := between 97 122 c || between 65 90 c.

(** [^[a-zA-Z_][a-zA-Z0-9_]*$] *)
Definition IsValidIdentifier (name : string) : bool :=
  match name with
  | EmptyString => false
  | String c s => (is_letter c || Ascii.eqb c "_") &&
                  sall (fun d => is_letter d || is_digit d || Ascii.eqb d "_") s
  end.

(** The loop of [ValidatePortSpec], with the names seen so far. *)
Fixpoint validate_ports (seen : gset string) (ports : PortList) : result rerror unit :=
  match ports with
  | [] => Ok tt
  | p :: ports' =>
      let n := port_name p in
      if bool_decide (n = EmptyString) then Err (Errorf "empty port name")
      else if negb (IsValidIdentifier n) then
        Err (Errorf ("invalid port name: " +:+ n +:+ ": must be a valid identifier"))
      else if bool_decide (n ∈ seen) then Err (Errorf ("duplicate port name: " +:+ n))
      else if bool_decide (ct_name (port_component p) = EmptyString) then
        Err (Errorf ("port " +:+ n +:+ " has empty component type name"))
      else validate_ports ({[n]} ∪ seen) ports'
  end.

Definition ValidatePortSpec (ports : PortList) : result rerror unit := validate_ports ∅ ports.

(** [ValidatePortSpecs], on the name and the two specifications of a renderer. *)
Definition ValidatePortSpecs (name : string) (input output : PortList) : result rerror unit :=
  match ValidatePortSpec input with
  | Err e => Err (Wrapf ("renderer " +:+ name +:+ " has invalid input spec") e)
  | Ok _ =>
      match ValidatePortSpec output with
      | Err e => Err (Wrapf ("renderer " +:+ name +:+ " has invalid output spec") e)
      | Ok _ => Ok tt
      end
  end.

Definition hasMatchingRendererOutput (m : Manifest) (i : ManifestEntryInfo) : bool :=
  existsb (fun e =>
    bool_decide (componentType (info e) = componentType i) &&
    bool_decide (rendererIdentity (info e) = rendererIdentity i) &&
    bool_decide (associatedContent (info e) = associatedContent i)) m.

Definition addPendingRendererOutputEntry (m : Manifest) (i : ManifestEntryInfo) : Manifest :=
  if hasMatchingRendererOutput m i then m else (AddEntry m i).1.

Definition pending_info (c : ComponentType) (r : RendererIdentity) (content : list string) : ManifestEntryInfo :=
  {| componentType := c; rendererIdentity := r; associatedContent := content; pending := true |}.

(** [contents]: the run identifiers of the session, in order. *)
Definition emit_port (contents : list string) (identity : RendererIdentity) (m : Manifest) (p : PortSpec) : Manifest :=
  match port_cardinality p with
  | CardinalityOne => addPendingRendererOutputEntry m (pending_info (port_component p) identity contents)
  | CardinalityPerRun =>
      foldl (fun m id => addPendingRendererOutputEntry m (pending_info (port_component p) identity [id])) m contents
  | CardinalityOther _ => m
  end.

Definition emitPendingRendererOutputSpec (contents : list string) (m : Manifest) (output : PortList)
    (identity : RendererIdentity) : Manifest :=
  foldl (emit_port contents identity) m output.

(** ** Data sources *)

Record TableRef := { ref_name : string; ref_pending : bool }.

(** The two implementations of the interface [DataSource]. *)
Inductive DataSource :=
| OutputTableRef (RendererID Output : string) (ContentIndex : Z)
| TableRefSource (Name : string).

(** Go maps from names, as association lists in the order [range] visits them. *)
Notation DataSourcesMap := (list (string * list DataSource)).
Notation TableRefMap := (list (string * list TableRef)).

Definition IsPending (t : TableRefMap) : bool := existsb (fun kv => existsb ref_pending kv.2) t.

Definition isRunIDInContent (content : list string) (runID : string) : bool :=
  existsb (fun r => bool_decide (r = runID)) content.

(** What resolving reads of the session: the run identifiers of its content and the
    manifest; of a renderer, its output specification. A renderer that was not created is
    [None] in the list. *)
Record SessionView := { sv_content : list string; sv_manifest : Manifest }.
Notation RendererOutputs := (list (option PortList)).

(** The local variables of [Resolve]. *)
Record resolve_state := { matchRendererID : bool; matchRunID : bool; foundTables : list TableRef }.

(** The body of the loop over the manifest entries; [None] is the panic of an index out of
    range. *)
Definition resolve_entry (renderers : RendererOutputs) (rid out runID : string) (st : resolve_state)
    (entry : ManifestEntry) : option (result rerror resolve_state) :=
  let i := info entry in
  match ri_id (rendererIdentity i) with
  | None => Some (Ok st)
  | Some id =>
      if bool_decide (id = rid) then
        if isRunIDInContent (associatedContent i) runID then
          let index := ri_index (rendererIdentity i) in
          match (if index <? 0 then None else renderers !! Z.to_nat index) with
          | None => None
          | Some None => Some (Err (Errorf ("renderer with ID '" +:+ rid +:+ "' not found")))
          | Some (Some outSpec) =>
              match port_get outSpec out with
              | None => Some (Err (Errorf ("failed to get output '" +:+ out +:+ "' from renderer '" +:+ rid +:+ "'")))
              | Some p =>
                  Some (Ok {| matchRendererID := true; matchRunID := true;
                              foundTables := if bool_decide (port_component p = componentType i)
                                then foundTables st ++ [{| ref_name := tableName entry; ref_pending := pending i |}]
                                else foundTables st |})
              end
          end
        else Some (Ok {| matchRendererID := true; matchRunID := matchRunID st; foundTables := foundTables st |})
      else Some (Ok st)
  end.

Fixpoint resolve_loop (renderers : RendererOutputs) (rid out runID : string) (st : resolve_state)
    (entries : Manifest) : option (result rerror resolve_state) :=
  match entries with
  | [] => Some (Ok st)
  | e :: rest =>
      match resolve_entry renderers rid out runID st e with
      | Some (Ok st') => resolve_loop renderers rid out runID st' rest
      | r => r
      end
  end.

(** [Content().FindByIndex] with the zero [RunID] when there is no such entry. *)
Definition content_run (content : list string) (i : Z) : string :=
  if (i <? 0) || (Z.of_nat (length content) <=? i) then EmptyString
  else default EmptyString (content !! Z.to_nat i).

Definition resolve_verdict (rid out runID : string) (st : resolve_state) : result rerror TableRef :=
  if negb (matchRendererID st) then
    Err (Errorf ("rendererID '" +:+ rid +:+ "' not found for output '" +:+ out +:+ "'"))
  else if negb (matchRunID st) then
    Err (Errorf ("table for runID '" +:+ runID +:+ "' not found, for output '" +:+ out +:+
                 "' and rendererID '" +:+ rid +:+ "'"))
  else match foundTables st with
       | [] => Err (Errorf ("no table found with matching component for output '" +:+ out +:+
                            "', rendererID '" +:+ rid +:+ "'"))
       | [t] => Ok t
       | _ => Err (Errorf ("multiple tables found with matching component for output '" +:+ out +:+
                           "', rendererID '" +:+ rid +:+ "' and runID '" +:+ runID +:+ "'"))
       end.

Definition OutputTableRef_Resolve (s : SessionView) (renderers : RendererOutputs) (rid out : string) (idx : Z)
  : option (result rerror TableRef) :=
  let runID := content_run (sv_content s) idx in
  match resolve_loop renderers rid out runID
          {| matchRendererID := false; matchRunID := false; foundTables := [] |} (sv_manifest s) with
  | None => None
  | Some (Err e) => Some (Err e)
  | Some (Ok st) => Some (resolve_verdict rid out runID st)
  end.

Definition TableRefSource_Resolve (name : string) : result rerror TableRef :=
  if bool_decide (name = EmptyString) then Err (Errorf "TableRefSource has no name set")
  else Ok {| ref_name := name; ref_pending := false |}.

Definition Resolve (s : SessionView) (renderers : RendererOutputs) (d : DataSource)
  : option (result rerror TableRef) :=
  match d with
  | OutputTableRef rid out idx => OutputTableRef_Resolve s renderers rid out idx
  | TableRefSource name => Some (TableRefSource_Resolve name)
  end.

Fixpoint resolve_all (s : SessionView) (renderers : RendererOutputs) (ds : list DataSource)
  : option (result rerror (list TableRef)) :=
  match ds with
  | [] => Some (Ok [])
  | d :: rest =>
      match Resolve s renderers d with
      | None => None
      | Some (Err e) => Some (Err e)
      | Some (Ok t) =>
          match resolve_all s renderers rest with
          | Some (Ok ts) => Some (Ok (t :: ts))
          | r => r
          end
      end
  end.

(** A key without sources gets no entry in the new map, since it is never appended to. *)
Fixpoint ResolveDataSources (s : SessionView) (dataSources : DataSourcesMap) (renderers : RendererOutputs)
  : option (result rerror TableRefMap) :=
  match dataSources with
  | [] => Some (Ok [])
  | (key, values) :: rest =>
      match resolve_all s renderers values with
      | None => None
      | Some (Err e) => Some (Err e)
      | Some (Ok ts) =>
          match ResolveDataSources s rest renderers with
          | Some (Ok m) => Some (Ok (if bool_decide (ts = []) then m else (key, ts) :: m))
          | r => r
          end
      end
  end.

(** The checks on the tables after the first. *)
Fixpoint same_component (m : Manifest) (name : string) (first : ComponentType) (tables : list TableRef)
  : result rerror unit :=
  match tables with
  | [] => Ok tt
  | t :: rest =>
      ct ← GetComponentTypeFromTable m (ref_name t);
      if negb (bool_decide (ct_name ct = ct_name first)) || negb (bool_decide (SchemaVersion ct = SchemaVersion first)) then
        Err (Errorf ("data source '" +:+ name +:+ "' has tables with different component types: '" +:+
                     ct_name first +:+ ":" +:+ SchemaVersion first +:+ "' and '" +:+
                     ct_name ct +:+ ":" +:+ SchemaVersion ct +:+ "'"))
      else same_component m name first rest
  end.

Definition validate_source (m : Manifest) (inputs : PortList) (name : string) (tables : list TableRef)
  : result rerror unit :=
  match tables with
  | [] => Err (Errorf ("data source '" +:+ name +:+ "' has no tables"))
  | t :: rest =>
      first ← GetComponentTypeFromTable m (ref_name t);
      _ ← same_component m name first rest;
      match port_get inputs name with
      | None => Err (Errorf ("data source '" +:+ name +:+ "' not found in input spec"))
      | Some input =>
          let c := port_component input in
          if bool_decide (ct_name first = ct_name c) && bool_decide (SchemaVersion first = SchemaVersion c) then Ok tt
          else Err (Errorf ("data source '" +:+ name +:+ "' has component type '" +:+
                            ct_name first +:+ ":" +:+ SchemaVersion first +:+ "', expected '" +:+
                            ct_name c +:+ ":" +:+ SchemaVersion c +:+ "'"))
      end
  end.

(** [inputSet] collects the validated names. *)
Definition ValidateDataSources (m : Manifest) (dataSources : TableRefMap) (inputs : PortList) : result rerror unit :=
  inputSet ← fold_res (fun (set : gset string) kv =>
               _ ← validate_source m inputs kv.1 kv.2; Ok ({[kv.1]} ∪ set)) ∅ dataSources;
  for_each (fun p => if bool_decide (port_name p ∈ inputSet) then Ok tt
                     else Err (Errorf ("required input '" +:+ port_name p +:+ "' not provided in data sources"))) inputs.

(** [RemoveTempTables] of session_lifecycle.go: [drop] is the outcome of the [DROP TABLE]
    statement for a table name. The manifest changed so far is kept on an error. *)
Fixpoint remove_temp_tables (drop : string -> option string) (m : Manifest) (names : list string)
  : Manifest * option rerror :=
  match names with
  | [] => (m, None)
  | n :: rest =>
      match drop n with
      | Some e => (m, Some (Wrapf ("failed to drop temp table '" +:+ n +:+ "'") (Errorf e)))
      | None =>
          match RemoveEntry m n with
          | None => (m, Some (Wrapf ("failed to remove temp table '" +:+ n +:+ "' from manifest")
                                    (Errorf "manifest entry not found")))
          | Some m' => remove_temp_tables drop m' rest
          end
      end
  end.

Definition RemoveTempTables (drop : string -> option string) (m : Manifest) : Manifest * option rerror :=
  remove_temp_tables drop m (TempTableNames m).

(** ** Names of tables are unique *)

(** The manifests a session can reach: tables are added, and after the initialisation of a
    renderer all temporary tables are removed. *)
Definition plain (c : string) : Prop :=
  sall is_table_byte c = true /\ forall b i, 0 < i -> c <> b +:+ String "_" (Itoa i).

Inductive reachable : Manifest -> Prop :=
| reach_new : reachable NewManifest
| reach_add m i : reachable m -> plain (ct_name (componentType i)) ->
    ct_name (componentType i) <> "anonymous" -> reachable (AddEntry m i).1
| reach_hidden m i : reachable m -> plain (ct_name (componentType i)) ->
    ct_name (componentType i) <> "anonymous" -> reachable (AddEntryHidden m i).1
| reach_temp m : reachable m -> reachable (AddTempTable m).1
| reach_clean m drop m' : reachable m -> RemoveTempTables drop m = (m', None) -> reachable m'.

Definition component_of (e : ManifestEntry) : string := ct_name (componentType (info e)).

Definition well_named (m : Manifest) (e : ManifestEntry) : Prop :=
  plain (component_of e) /\ (tableType e = TempTable <-> component_of e = "anonymous") /\
  exists k, 0 <= k < countEntriesByComponentType m (component_of e) /\
            tableName e = table_name_for (component_of e) k.

Definition names_ok (m : Manifest) : Prop :=
  NoDup (tableName <$> m) /\ forall e, e ∈ m -> well_named m e.

Lemma table_byte_ascii c : is_table_byte c = true -> byte_of c < 128.
Proof. unfold is_table_byte, byte_of. intros H. rewrite !orb_true_iff in H. destruct H as [[[H|H]|H]|H]; bool_to_prop; lia. Qed.

Lemma rune_len_table_byte c s : is_table_byte c = true -> rune_len (String c s) = 1%nat.
Proof.
  intros H%table_byte_ascii. unfold rune_len, between.
  rewrite (proj2 (Z.leb_gt 194 (byte_of c))), (proj2 (Z.leb_gt 224 (byte_of c))),
    (proj2 (Z.leb_gt 240 (byte_of c))) by lia. done.
Qed.

Lemma SanitizeTableName_id s : sall is_table_byte s = true -> SanitizeTableName s = s.
Proof.
  unfold SanitizeTableName. induction s as [|c s IH]; intros H; [done|].
  cbn [sall] in H. apply andb_true_iff in H as [Hc H].
  cbn [sanitize_from]. rewrite Hc, rune_len_table_byte by done. cbn. by rewrite (IH H).
Qed.

Lemma table_name_for_inj c1 c2 i j : plain c1 -> plain c2 -> 0 <= i -> 0 <= j ->
  table_name_for c1 i = table_name_for c2 j -> c1 = c2 /\ i = j.
Proof.
  intros [H1 N1] [H2 N2] Hi Hj. unfold table_name_for. rewrite !SanitizeTableName_id by done.
  destruct (Z.ltb_spec 0 i), (Z.ltb_spec 0 j); rewrite ?sapp_nil_r, ?sapp_cons, ?sapp_nil_l.
  - intros [-> Hd]%last_cut_unique; try by apply digits_byte_free, Itoa_digits.
    split; [done|]. by apply Itoa_inj.
  - intros E. by destruct (N2 c1 i).
  - intros E. by destruct (N1 c2 j).
  - intros ->. split; [done|lia].
Qed.

Lemma count_app m e c :
  countEntriesByComponentType (m ++ [e]) c =
  countEntriesByComponentType m c + (if decide (component_of e = c) then 1 else 0).
Proof.
  unfold countEntriesByComponentType, component_of. rewrite filter_app, length_app.
  rewrite filter_cons, filter_nil. destruct (decide _); cbn; lia.
Qed.

Lemma names_ok_add m i t :
  names_ok m -> plain (ct_name (componentType i)) ->
  (t = TempTable <-> ct_name (componentType i) = "anonymous") ->
  names_ok (addEntryInternal m i t).1.
Proof.
  intros [Hnd Hok] Hp Ht. cbn. set (c := ct_name (componentType i)).
  set (n := countEntriesByComponentType m c). set (e := {| info := i; tableName := _; tableType := t |}).
  assert (0 <= n) as Hn by (unfold n, countEntriesByComponentType; lia).
  split.
  - rewrite fmap_app. apply NoDup_app. split; [done|]. split; [|apply NoDup_singleton].
    intros x Hx Hx2. cbn in Hx2. apply list_elem_of_singleton in Hx2 as ->.
    apply list_elem_of_fmap in Hx as (e' & He' & Hin). destruct (Hok _ Hin) as (Hp' & _ & k & Hk & Hname).
    rewrite Hname in He'. apply table_name_for_inj in He' as [Hc Hnk]; [|done..|lia].
    rewrite <- Hc in Hk. change (countEntriesByComponentType m c) with n in Hk. lia.
  - intros e' [Hin| ->%list_elem_of_singleton]%elem_of_app.
    + destruct (Hok _ Hin) as (Hp' & Ht' & k & Hk & Hname).
      split; [done|]. split; [done|]. exists k. rewrite count_app. split; [|done].
      destruct (decide _); lia.
    + split; [done|]. split; [done|]. exists n. rewrite count_app. rewrite decide_True by done.
      change (component_of e) with c. fold n. split; [lia|done].
Qed.

(** Removing one entry of a manifest without repeated names. *)
Lemma RemoveEntry_app m1 e m2 : tableName e ∉ tableName <$> m1 ->
  RemoveEntry (m1 ++ e :: m2) (tableName e) = Some (m1 ++ m2).
Proof.
  induction m1 as [|e1 m1 IH]; cbn; intros Hn.
  - by rewrite bool_decide_true.
  - rewrite bool_decide_false by set_solver. rewrite IH by set_solver. done.
Qed.

Definition is_persistent (e : ManifestEntry) : bool := negb (IsTemp e).

(** Removing the temporary tables, at any point of the loop: the entries [m1] passed have
    no temporary table left. *)
Lemma remove_temp_tables_filter drop m2 : forall m1 m',
  NoDup (tableName <$> (m1 ++ m2)) ->
  remove_temp_tables drop (m1 ++ m2) (TempTableNames m2) = (m', None) ->
  m' = m1 ++ filter (fun e => IsTemp e = false) m2.
Proof.
  induction m2 as [|e m2 IH]; intros m1 m' Hnd.
  { cbn. by intros [= <-]. }
  unfold TempTableNames. rewrite !filter_cons. destruct (IsTemp e) eqn:He.
  - rewrite decide_True, decide_False by done. cbn [fmap list_fmap remove_temp_tables].
    destruct (drop _); [done|]. rewrite RemoveEntry_app.
    + apply IH. rewrite fmap_app in *. apply NoDup_app in Hnd as (? & ? & Hnd%NoDup_cons). apply NoDup_app.
      destruct Hnd. split_and!; [done| |done]. intros x ? ?. by eapply H0; [done|right].
    + rewrite fmap_app in Hnd. apply NoDup_app in Hnd as (_ & Hnd & _). intros Hin.
      apply (Hnd _ Hin). left.
  - rewrite decide_False, decide_True by done. intros H.
    rewrite (cons_middle e m1) in *.
    rewrite (app_assoc m1 [e]) in *. apply IH in H; [|done]. by rewrite H, <- app_assoc.
Qed.

Lemma names_ok_clean drop m m' : names_ok m -> RemoveTempTables drop m = (m', None) ->
  m' = filter (fun e => IsTemp e = false) m /\ names_ok m'.
Proof.
  intros [Hnd Hok] H. apply (remove_temp_tables_filter drop m []) in H; [|done]. cbn in H. subst m'.
  split; [done|]. split.
  - eapply sublist_NoDup; [exact Hnd|]. apply fmap_sublist, sublist_filter.
  - intros e [Ht Hin]%list_elem_of_filter. destruct (Hok _ Hin) as (Hp & Htmp & k & Hk & Hname).
    split; [done|]. split; [done|]. exists k. split; [|done].
    assert (component_of e <> "anonymous") as Hna.
    { intros Hc%Htmp. unfold IsTemp in Ht. by rewrite Hc in Ht. }
    unfold countEntriesByComponentType in *. rewrite filter_filter_implied; [done|].
    intros e' Hin' He'. unfold IsTemp. apply bool_decide_eq_false. intros Ht'.
    destruct (Hok _ Hin') as (_ & [Hc _] & _). apply Hna. rewrite <- He'. by apply Hc.
Qed.

Lemma plain_byte_free c : sall is_table_byte c = true -> byte_free "_" c = true -> plain c.
Proof.
  intros Hc Hf. split; [done|]. intros b i _ ->. unfold byte_free in Hf.
  rewrite sall_app in Hf. cbn in Hf. by rewrite andb_false_r in Hf.
Qed.

Lemma reachable_names_ok m : reachable m -> names_ok m.
Proof.
  induction 1 as [|m i _ IH Hp Hc|m i _ IH Hp Hc|m _ IH|m drop m' _ IH H].
  - split; [constructor|]. set_solver.
  - apply names_ok_add; [done..|]. split; [done|]. intros ?. by destruct Hc.
  - apply names_ok_add; [done..|]. split; [done|]. intros ?. by destruct Hc.
  - apply names_ok_add; [done| |done]. by apply plain_byte_free.
  - by eapply names_ok_clean.
Qed.

(** The names that the manifest generates are unique as long as component type names
    are table identifiers without a numeric suffix and every clean-up of the temporary
    tables succeeds: no two entries of a manifest reached by additions and clean-ups share
    a table name, and every entry is found under its own name. *)
Theorem reachable_names_unique m : reachable m ->
  NoDup (tableName <$> m) /\ forall e, e ∈ m -> GetEntry m (tableName e) = Some e.
Proof.
  intros [Hnd _]%reachable_names_ok. split; [done|]. intros e He.
  unfold GetEntry. destruct (find_index _ m) as [i|] eqn:Hf; cbn.
  - apply find_index_Some in Hf as (e' & Hi & Hn%bool_decide_eq_true & _). rewrite Hi. f_equal.
    apply list_elem_of_lookup in He as [j Hj].
    assert (i = j) as ->; [|congruence].
    eapply NoDup_lookup; [exact Hnd|by rewrite list_lookup_fmap, Hi|]. rewrite list_lookup_fmap, Hj. cbn. by rewrite Hn.
  - apply find_index_None in Hf. rewrite Forall_forall in Hf. specialize (Hf _ He).
    by rewrite bool_decide_true in Hf.
Qed.

Definition info_of (c : string) (index : Z) : ManifestEntryInfo :=
  {| componentType := {| ct_name := c; SchemaVersion := "1.0" |};
     rendererIdentity := {| ri_index := index; ri_id := Some "r"; ri_name := "js" |};
     associatedContent := ["run1"]; pending := false |}.

Definition sample_manifest : Manifest :=
  (AddEntry (AddTempTable (AddEntry (AddEntry NewManifest (info_of "calltree" 0)).1 (info_of "calltree" 0)).1).1
     (info_of "summary" 0)).1.

Lemma reachable_names_unique_witness :
  (tableName <$> sample_manifest) = ["calltree"; "calltree_1"; "anonymous"; "summary"] /\
  NoDup (tableName <$> sample_manifest) /\
  forall e, e ∈ sample_manifest -> GetEntry sample_manifest (tableName e) = Some e.
Proof.
  split; [vm_compute; reflexivity|]. apply (reachable_names_unique sample_manifest).
  repeat (apply reach_add || apply reach_temp || apply reach_new); try done; by apply plain_byte_free.
Defined.

(** A successful clean-up removes exactly the temporary tables, and a [DROP] that fails
    leaves a manifest whose next temporary table repeats the name of a live one. *)
Theorem RemoveTempTables_spec :
  (forall drop m m', reachable m -> RemoveTempTables drop m = (m', None) ->
     m' = filter (fun e => IsTemp e = false) m) /\
  exists drop m e, reachable m /\ (RemoveTempTables drop m).2 = Some e /\
    let m' := (RemoveTempTables drop m).1 in
    (AddTempTable m').2 ∈ tableName <$> m'.
Proof.
  split; [intros drop m m' Hr%reachable_names_ok H; by eapply names_ok_clean|].
  exists (fun n => if bool_decide (n = "anonymous_1") then Some "locked" else None).
  exists (AddTempTable (AddTempTable NewManifest).1).1. eexists.
  split; [repeat constructor|]. split; [vm_compute; reflexivity|]. vm_compute. left.
Qed.

(** The documented guarantee of [AddEntry] fails in general. Component types that
    differ only in bytes outside the identifier alphabet get the same table name, a
    component type whose name ends in [_1] collides with the second table of another, and
    the name of a component type with a two-byte character holds a zero byte. *)
Theorem AddEntry_collisions :
  (let m := (AddEntry (AddEntry NewManifest (info_of "call-tree" 0)).1 (info_of "call.tree" 1)).1 in
   ~ NoDup (tableName <$> m)) /\
  (let m := (AddEntry (AddEntry (AddEntry NewManifest (info_of "a" 0)).1 (info_of "a" 0)).1 (info_of "a_1" 1)).1 in
   ~ NoDup (tableName <$> m)) /\
  SanitizeTableName "é" = String "_" (String "000" EmptyString).
Proof.
  split_and!; [| |reflexivity].
  - vm_compute. rewrite NoDup_cons. intros [H _]. by apply H; left.
  - vm_compute. rewrite !NoDup_cons. intros (_ & H & _). by apply H; left.
Qed.

(** ** Validation of data sources *)

Definition table_component (m : Manifest) (t : TableRef) : option ComponentType :=
  componentType ∘ info <$> GetEntry m (ref_name t).

Lemma GetComponentTypeFromTable_Ok m t c :
  GetComponentTypeFromTable m (ref_name t) = Ok c <-> table_component m t = Some c.
Proof. unfold GetComponentTypeFromTable, table_component. destruct (GetEntry _ _); cbn; naive_solver. Qed.

Lemma ComponentType_ext c d : ct_name c = ct_name d -> SchemaVersion c = SchemaVersion d -> c = d.
Proof. destruct c, d. cbn. congruence. Qed.

Lemma same_component_Ok m name c l :
  same_component m name c l = Ok tt <-> forall t, t ∈ l -> table_component m t = Some c.
Proof.
  induction l as [|t l IH]; cbn; [split; [set_solver|done]|].
  rewrite bind_Ok. setoid_rewrite GetComponentTypeFromTable_Ok. split.
  - intros (d & Hd & H). case_hyp H; [done|]. bool_to_prop.
    assert (d = c) as -> by by apply ComponentType_ext.
    intros t' [->|Hin]%elem_of_cons; [done|]. by apply IH.
  - intros H. exists c. split; [apply H; left|].
    rewrite !bool_decide_true by done. cbn. apply IH. intros t' ?. apply H. by right.
Qed.

Lemma validate_source_Ok m inputs name l :
  validate_source m inputs name l = Ok tt <->
  l <> [] /\ exists p, port_get inputs name = Some p /\
    forall t, t ∈ l -> table_component m t = Some (port_component p).
Proof.
  destruct l as [|t l]; cbn; [naive_solver|]. rewrite bind_Ok.
  setoid_rewrite GetComponentTypeFromTable_Ok. setoid_rewrite bind_Ok. split.
  - intros (c & Hc & [] & Hs & H). rewrite same_component_Ok in Hs. split; [done|].
    destruct (port_get inputs name) as [p|]; [|done]. case_hyp H; [|done]. bool_to_prop.
    assert (c = port_component p) as -> by by apply ComponentType_ext.
    exists p. split; [done|]. intros t' [->|Hin]%elem_of_cons; [done|]. by apply Hs.
  - intros (_ & p & -> & H). exists (port_component p). split; [apply H; left|].
    exists tt. split; [apply same_component_Ok; intros t' ?; apply H; by right|].
    by rewrite !bool_decide_true.
Qed.

Lemma validate_fold_Ok m inputs l : forall set0 set1,
  fold_res (fun (set : gset string) kv =>
    _ ← validate_source m inputs kv.1 kv.2; Ok ({[kv.1]} ∪ set)) set0 l = Ok set1 <->
  (forall kv, kv ∈ l -> validate_source m inputs kv.1 kv.2 = Ok tt) /\ set1 = list_to_set l.*1 ∪ set0.
Proof.
  induction l as [|kv l IH]; intros set0 set1; cbn.
  { rewrite union_empty_l_L. split; [intros [= ->]; split; [set_solver|done]|by intros [_ ->]]. }
  destruct (validate_source m inputs kv.1 kv.2) as [[]|e] eqn:Hkv; cbn.
  - rewrite IH. split; intros [H ->].
    + split; [|set_solver]. intros kv' [->|?]%elem_of_cons; [done|by apply H].
    + split; [|set_solver]. intros kv' ?. apply H. by right.
  - split; [done|]. intros [H _]. rewrite (H kv) in Hkv; [done|left].
Qed.

(** The data sources of a renderer are accepted exactly when every named source has at
    least one table, all its tables are in the manifest with the component type and schema
    version of the input of that name, and every input of the renderer is provided;
    whatever the order in which the map is visited. *)
Theorem ValidateDataSources_accepts m sources inputs :
  ValidateDataSources m sources inputs = Ok tt <->
  (forall name tables, (name, tables) ∈ sources -> tables <> [] /\
     exists p, port_get inputs name = Some p /\
       forall t, t ∈ tables -> table_component m t = Some (port_component p)) /\
  (forall p, p ∈ inputs -> port_name p ∈ sources.*1).
Proof.
  unfold ValidateDataSources. rewrite bind_Ok. setoid_rewrite validate_fold_Ok.
  setoid_rewrite for_each_Ok. setoid_rewrite Forall_forall. split.
  - intros (set1 & [H ->] & Hin). split.
    + intros name tables Hx. by apply validate_source_Ok, (H (name, tables)).
    + intros p Hp. apply Hin in Hp. case_bool_decide as Hs; [|done]. set_solver.
  - intros [H Hin]. eexists. split; [split; [|done]|].
    + intros [name tables] Hx. by apply validate_source_Ok, H.
    + intros p Hp. rewrite bool_decide_true; [done|]. apply Hin in Hp. set_solver.
Qed.

(** ** Resolution of an output of a renderer *)

(** The entries the loop looks at: those of the renderer and the run. *)
Definition of_renderer (rid : string) (e : ManifestEntry) : Prop := ri_id (rendererIdentity (info e)) = Some rid.
Definition of_run (runID : string) (e : ManifestEntry) : Prop := runID ∈ associatedContent (info e).

(** The port [out] of the renderer that wrote the entry. *)
Definition entry_port (renderers : RendererOutputs) (out : string) (e : ManifestEntry) : option PortSpec :=
  let index := ri_index (rendererIdentity (info e)) in
  outs ← (if index <? 0 then None else renderers !! Z.to_nat index); spec ← outs; port_get spec out.

#[export] Instance of_renderer_dec rid e : Decision (of_renderer rid e).
Proof. unfold of_renderer. apply _. Defined.
#[export] Instance of_run_dec r e : Decision (of_run r e).
Proof. unfold of_run. apply _. Defined.

Definition candidate (renderers : RendererOutputs) (rid out runID : string) (e : ManifestEntry) : Prop :=
  (of_renderer rid e /\ of_run runID e) /\
  port_component <$> entry_port renderers out e = Some (componentType (info e)).

#[export] Instance candidate_dec renderers rid out r e : Decision (candidate renderers rid out r e).
Proof. unfold candidate. apply _. Defined.

Definition ref_of (e : ManifestEntry) : TableRef := {| ref_name := tableName e; ref_pending := pending (info e) |}.

Lemma isRunIDInContent_spec content r : isRunIDInContent content r = bool_decide (r ∈ content).
Proof.
  apply eq_true_iff_eq. unfold isRunIDInContent. rewrite existsb_elem_of, bool_decide_eq_true.
  split; [intros (x & ? & <-%bool_decide_eq_true); done|]. intros ?. exists r. by rewrite bool_decide_true.
Qed.

Lemma resolve_entry_skip renderers rid out runID st e : ~ of_renderer rid e ->
  resolve_entry renderers rid out runID st e = Some (Ok st).
Proof.
  unfold of_renderer, resolve_entry. intros H. destruct (ri_id _) as [id|]; [|done].
  rewrite bool_decide_false; [done|]. by intros ->.
Qed.

Lemma resolve_entry_other_run renderers rid out runID st e : of_renderer rid e -> ~ of_run runID e ->
  resolve_entry renderers rid out runID st e =
  Some (Ok {| matchRendererID := true; matchRunID := matchRunID st; foundTables := foundTables st |}).
Proof.
  unfold of_renderer, of_run, resolve_entry. intros -> H. rewrite bool_decide_true by done.
  by rewrite isRunIDInContent_spec, bool_decide_false.
Qed.

Lemma resolve_entry_match renderers rid out runID st e st' : of_renderer rid e -> of_run runID e ->
  resolve_entry renderers rid out runID st e = Some (Ok st') <->
  is_Some (entry_port renderers out e) /\
  st' = {| matchRendererID := true; matchRunID := true;
           foundTables := foundTables st ++
             (if decide (candidate renderers rid out runID e) then [ref_of e] else []) |}.
Proof.
  intros Hr Hc. assert (isRunIDInContent (associatedContent (info e)) runID = true) as Hc'.
  { by rewrite isRunIDInContent_spec, bool_decide_true. }
  unfold resolve_entry. rewrite Hr, bool_decide_true by done. rewrite Hc'.
  destruct (decide (candidate _ _ _ _ _)) as [[_ Hcand]|Hcand]; unfold candidate, entry_port in *;
    (destruct (if _ <? _ then _ else _) as [[spec|]|]; cbn in *; [|by split; [|intros [[? ?] _]]..]);
    (destruct (port_get spec out) as [p|]; cbn in *; [|by split; [|intros [[? ?] _]]]).
  - injection Hcand as Hcand. rewrite bool_decide_true by done. split; [|intros [_ ->]; done].
    intros [= <-]. split; [by eexists|done].
  - rewrite bool_decide_false by (intros ?; apply Hcand; split; [done|congruence]). rewrite app_nil_r. split; [|intros [_ ->]; done].
    intros [= <-]. split; [by eexists|done].
Qed.

Lemma resolve_loop_Ok renderers rid out runID m : forall st st',
  resolve_loop renderers rid out runID st m = Some (Ok st') <->
  (forall e, e ∈ m -> of_renderer rid e -> of_run runID e -> is_Some (entry_port renderers out e)) /\
  matchRendererID st' = matchRendererID st || existsb (fun e => bool_decide (of_renderer rid e)) m /\
  matchRunID st' = matchRunID st || existsb (fun e => bool_decide (of_renderer rid e /\ of_run runID e)) m /\
  foundTables st' = foundTables st ++ (ref_of <$> filter (candidate renderers rid out runID) m).
Proof.
  induction m as [|e m IH]; intros st st'; cbn [resolve_loop existsb].
  { rewrite filter_nil. cbn. rewrite !orb_false_r, app_nil_r. destruct st, st'; cbn.
    split; [intros [= <- <- <-]; split; [set_solver|done]|by intros (_ & -> & -> & ->)]. }
  rewrite filter_cons. destruct (decide (of_renderer rid e)) as [Hr|Hr].
  - destruct (decide (of_run runID e)) as [Hc|Hc].
    + destruct (resolve_entry renderers rid out runID st e) as [[st1|err]|] eqn:Hst.
      * apply resolve_entry_match in Hst as [Hs ->]; [|done..]. rewrite IH. cbn.
        rewrite !bool_decide_true by done. rewrite !orb_true_r, <- app_assoc. cbn.
        split; intros (H & ? & ? & ->); (split; [set_solver|]); (split; [done|]); (split; [done|]);
          by destruct (decide (candidate _ _ _ _ e)).
      * split; [done|]. intros [H _]. destruct (H e) as [p Hp]; [left|done..|].
        pose proof (proj2 (resolve_entry_match renderers rid out runID st e _ Hr Hc)
                      (conj (mk_is_Some _ _ Hp) eq_refl)). congruence.
      * split; [done|]. intros [H _]. destruct (H e) as [p Hp]; [left|done..|].
        pose proof (proj2 (resolve_entry_match renderers rid out runID st e _ Hr Hc)
                      (conj (mk_is_Some _ _ Hp) eq_refl)). congruence.
    + rewrite resolve_entry_other_run by done. rewrite IH. cbn.
      rewrite decide_False by (intros [[_ ?] _]; done).
      rewrite (bool_decide_true (of_renderer rid e)) by done.
      rewrite (bool_decide_false (_ /\ _)) by naive_solver. rewrite orb_true_r. cbn.
      split; intros (H & ?); (split; [set_solver|done]).
  - rewrite resolve_entry_skip by done. rewrite IH.
    rewrite decide_False by (intros [[? _] _]; done).
    rewrite (bool_decide_false (of_renderer rid e)) by done.
    rewrite (bool_decide_false (_ /\ _)) by naive_solver. cbn.
    split; intros (H & ?); (split; [set_solver|done]).
Qed.

(** A reference to an output of a renderer resolves to a table exactly when the
    manifest holds one and only one entry of that renderer, for the run at the given
    position of the session, with the component type of that output, and every entry of
    that renderer and run belongs to a created renderer that declares the output. *)
Theorem OutputTableRef_resolves s renderers rid out idx t :
  OutputTableRef_Resolve s renderers rid out idx = Some (Ok t) <->
  let runID := content_run (sv_content s) idx in
  (forall e, e ∈ sv_manifest s -> of_renderer rid e -> of_run runID e -> is_Some (entry_port renderers out e)) /\
  exists e, filter (candidate renderers rid out runID) (sv_manifest s) = [e] /\ t = ref_of e.
Proof.
  cbn zeta. set (runID := content_run _ idx). unfold OutputTableRef_Resolve. fold runID.
  set (st0 := {| matchRendererID := false; matchRunID := false; foundTables := [] |}).
  split.
  - destruct (resolve_loop _ _ _ _ _ _) as [[st|err]|] eqn:Hl; [|done..].
    apply resolve_loop_Ok in Hl as (Hp & _ & _ & Hf). cbn in Hf. unfold resolve_verdict. intros [= H].
    case_hyp H; [done|]. case_hyp H; [done|]. rewrite Hf in H. split; [done|].
    destruct (filter _ _) as [|e [|e' l]]; cbn in H; [done| |done]. exists e. split; [done|congruence].
  - intros (Hp & e & Hf & ->).
    assert (e ∈ sv_manifest s /\ candidate renderers rid out runID e) as [Hin [[Hr Hc] _]].
    { assert (e ∈ filter (candidate renderers rid out runID) (sv_manifest s)) as He by (rewrite Hf; left).
      by apply list_elem_of_filter in He as [? ?]. }
    assert (resolve_loop renderers rid out runID st0 (sv_manifest s) =
            Some (Ok {| matchRendererID := true; matchRunID := true; foundTables := [ref_of e] |})) as ->.
    { apply resolve_loop_Ok. cbn. rewrite Hf. split_and!; [done| | |done]; symmetry; apply existsb_elem_of;
        exists e; (split; [done|by apply bool_decide_eq_true]). }
    done.
Qed.

(** ** Pending outputs *)

(** The entries a renderer would have produced. *)
Definition expected_outputs (contents : list string) (identity : RendererIdentity) (output : PortList)
  : list ManifestEntryInfo :=
  output ≫= (fun p => match port_cardinality p with
    | CardinalityOne => [pending_info (port_component p) identity contents]
    | CardinalityPerRun => (fun id => pending_info (port_component p) identity [id]) <$> contents
    | CardinalityOther _ => []
    end).

Lemma foldl_fmap {A B C} (f : C -> B -> C) (g : A -> B) l : forall c,
  foldl (fun c a => f c (g a)) c l = foldl f c (g <$> l).
Proof. induction l as [|a l IH]; intros c; cbn; [done|apply IH]. Qed.

Lemma emit_expected contents m output identity :
  emitPendingRendererOutputSpec contents m output identity =
  foldl addPendingRendererOutputEntry m (expected_outputs contents identity output).
Proof.
  unfold emitPendingRendererOutputSpec, expected_outputs. revert m.
  induction output as [|p output IH]; intros m; cbn; [done|].
  rewrite IH, foldl_app. f_equal. unfold emit_port.
  destruct (port_cardinality p); cbn; [done| |done]. apply foldl_fmap.
Qed.

Definition matches (i : ManifestEntryInfo) (e : ManifestEntry) : Prop :=
  componentType (info e) = componentType i /\ rendererIdentity (info e) = rendererIdentity i /\
  associatedContent (info e) = associatedContent i.

Lemma hasMatchingRendererOutput_spec m i :
  hasMatchingRendererOutput m i = true <-> exists e, e ∈ m /\ matches i e.
Proof.
  unfold hasMatchingRendererOutput, matches. rewrite existsb_elem_of.
  setoid_rewrite andb_true_iff. setoid_rewrite andb_true_iff. setoid_rewrite bool_decide_eq_true. naive_solver.
Qed.

Lemma addPending_grows m i : exists l, addPendingRendererOutputEntry m i = m ++ l /\
  (forall e, e ∈ l -> info e = i) /\ exists e, e ∈ m ++ l /\ matches i e.
Proof.
  unfold addPendingRendererOutputEntry. destruct (hasMatchingRendererOutput m i) eqn:H.
  - apply hasMatchingRendererOutput_spec in H. exists []. rewrite app_nil_r. split_and!; [done|set_solver|done].
  - cbn. eexists [_]. split; [reflexivity|]. split; [by intros e ->%list_elem_of_singleton|].
    eexists. split; [apply elem_of_app; right; left|]. done.
Qed.

Lemma addPending_noop m i : (exists e, e ∈ m /\ matches i e) -> addPendingRendererOutputEntry m i = m.
Proof. intros H%hasMatchingRendererOutput_spec. unfold addPendingRendererOutputEntry. by rewrite H. Qed.

Lemma addPending_fold_grows l : forall m, exists new,
  foldl addPendingRendererOutputEntry m l = m ++ new /\ (forall e, e ∈ new -> info e ∈ l) /\
  forall i, i ∈ l -> exists e, e ∈ m ++ new /\ matches i e.
Proof.
  induction l as [|i l IH]; intros m; cbn; [exists []; rewrite app_nil_r; split_and!; set_solver|].
  destruct (addPending_grows m i) as (l1 & -> & Hl1 & e1 & He1 & Hm1).
  destruct (IH (m ++ l1)) as (l2 & -> & Hl2 & Hm2). exists (l1 ++ l2). rewrite <- app_assoc in *.
  split_and!; [done| |].
  - intros e [->%Hl1|?%Hl2]%elem_of_app; [left|by right].
  - intros i' [->|Hi]%elem_of_cons; [|by apply Hm2]. exists e1. split; [|done].
    rewrite !elem_of_app in *. tauto.
Qed.

Lemma addPending_fold_noop l : forall m, (forall i, i ∈ l -> exists e, e ∈ m /\ matches i e) ->
  foldl addPendingRendererOutputEntry m l = m.
Proof.
  induction l as [|i l IH]; intros m H; cbn; [done|].
  rewrite addPending_noop by (apply H; left). apply IH. intros i' ?. apply H. by right.
Qed.

Lemma emitPending_grows contents m output identity : exists new,
  emitPendingRendererOutputSpec contents m output identity = m ++ new /\
  forall e, e ∈ new -> rendererIdentity (info e) = identity.
Proof.
  rewrite emit_expected.
  destruct (addPending_fold_grows (expected_outputs contents identity output) m) as (new & -> & Hnew & _).
  exists new. split; [done|]. intros e He%Hnew. apply list_elem_of_bind in He as (p & He & _).
  destruct (port_cardinality p); [|apply list_elem_of_fmap in He as (id & -> & _); done|by apply not_elem_of_nil in He].
  by apply list_elem_of_singleton in He as ->.
Qed.

(** Announcing the pending outputs of a renderer only appends pending entries for
    outputs it declares, leaves an entry in the manifest for every declared output and run,
    and is idempotent: a second announcement changes nothing. *)
Theorem emitPending_idempotent contents m output identity :
  let m' := emitPendingRendererOutputSpec contents m output identity in
  (exists new, m' = m ++ new /\
     forall e, e ∈ new -> info e ∈ expected_outputs contents identity output /\ pending (info e) = true) /\
  (forall i, i ∈ expected_outputs contents identity output -> exists e, e ∈ m' /\ matches i e) /\
  emitPendingRendererOutputSpec contents m' output identity = m'.
Proof.
  cbn zeta. rewrite !emit_expected.
  destruct (addPending_fold_grows (expected_outputs contents identity output) m) as (new & -> & Hnew & Hall).
  split_and!; [|done|by apply addPending_fold_noop]. exists new. split; [done|]. intros e He. split; [by apply Hnew|].
  apply Hnew in He. unfold expected_outputs in He. apply list_elem_of_bind in He as (p & He & _).
  destruct (port_cardinality p); [|apply list_elem_of_fmap in He as (id & -> & _); done|by apply not_elem_of_nil in He].
  by apply list_elem_of_singleton in He as ->.
Qed.
