(* ===== verification/RendererSpec.v ===== *)
(** * Performix: the dependency graph of the renderers

    Models [core/apap-engine/render/rendererspec.go]: building the graph of renderer
    dependencies from the configurations, reporting unknown and cyclic dependencies, and
    merging lists of errors. *)

From S2P Require Import Prelude.
From S2P Require Import GoStrings.
From S2P Require Import Digraph.
From S2P Require Import RenderTables.

Local Open Scope Z_scope.

Record RendererConfig := { rc_name : string; rc_id : option string; ConfigJSON : string }.

Definition GetDisplayID (c : RendererConfig) : string := default "undefined" (rc_id c).

(** [Tables] is [None] for the nil map. *)
Record Dependencies := {
  dep_tables : option (list (string * list DataSource));
  dep_renderers : list string
}.

Notation RendererConfigList := (list RendererConfig).
Notation errors := (list (option rerror)).

Record RendererSpec := { rs_graph : Digraph; rs_configs : RendererConfigList; rs_dependencies : list Dependencies }.

(** The index of the first configuration with the identifier, [-1] when there is none. *)
Definition rendererIndexFromID (id : string) (configs : RendererConfigList) : Z :=
  match find_index (fun c => bool_decide (rc_id c = Some id)) configs with
  | Some i => Z.of_nat i
  | None => -1
  end.

(** The functions that add successors change the map they are given: they return the new
    map and the error. An edge leads from the dependency to the renderer that needs it. *)
Definition addSuccessor (successors : gmap Z (gset Z)) (rendererID : string) (configs : RendererConfigList)
    (dependeeIndex : Z) : gmap Z (gset Z) * option rerror :=
  let dependencyIndex := rendererIndexFromID rendererID configs in
  if dependencyIndex =? -1 then (successors, Some (Errorf ("unknown renderer ID " +:+ rendererID)))
  else match successors !! dependencyIndex with
       | None => (<[dependencyIndex := {[dependeeIndex]}]> successors, None)
       | Some s => (<[dependencyIndex := {[dependeeIndex]} ∪ s]> successors, None)
       end.

(** The first error is kept, the loops go on. *)
Definition add_keeping_first (configs : RendererConfigList) (dependeeIndex : Z)
    (st : gmap Z (gset Z) * option rerror) (id : string) : gmap Z (gset Z) * option rerror :=
  let (successors, successorErr) := addSuccessor st.1 id configs dependeeIndex in
  (successors, match st.2 with Some e => Some e | None => successorErr end).

Definition addSuccessorsFromRendererDependencies (successors : gmap Z (gset Z)) (dependencies : list string)
    (configs : RendererConfigList) (dependeeIndex : Z) : gmap Z (gset Z) * option rerror :=
  foldl (add_keeping_first configs dependeeIndex) (successors, None) dependencies.

Definition add_source (configs : RendererConfigList) (dependeeIndex : Z)
    (st : gmap Z (gset Z) * option rerror) (ds : DataSource) : gmap Z (gset Z) * option rerror :=
  match ds with
  | OutputTableRef id _ _ => add_keeping_first configs dependeeIndex st id
  | TableRefSource _ => st
  end.

Definition addSuccessorFromTableDependencies (successors : gmap Z (gset Z))
    (dataSources : option (list (string * list DataSource))) (configs : RendererConfigList) (dependeeIndex : Z)
  : gmap Z (gset Z) * option rerror :=
  match dataSources with
  | None => (successors, None)
  | Some m => foldl (fun st kv => foldl (add_source configs dependeeIndex) st kv.2) (successors, None) m
  end.

(** [errors.Join] of the non-nil errors. *)
Definition join_errors (errs : list (option rerror)) : option rerror :=
  match omap id errs with [] => None | es => Some (Joined es) end.

Definition addSuccessorsFromDependencies (successors : gmap Z (gset Z)) (dependencies : Dependencies)
    (configs : RendererConfigList) (dependeeIndex : Z) : gmap Z (gset Z) * option rerror :=
  let '(successors1, err1) := addSuccessorFromTableDependencies successors (dep_tables dependencies) configs dependeeIndex in
  let '(successors2, err2) := addSuccessorsFromRendererDependencies successors1 (dep_renderers dependencies) configs dependeeIndex in
  (successors2, join_errors [err1; err2]).

(** The result has the longer of the two lengths; an existing error wins. *)
Definition merge_at (existing new : errors) (i : nat) : option rerror :=
  match existing !! i with
  | Some (Some e) => Some e
  | _ => match new !! i with Some e => e | None => None end
  end.

Definition merge (existing new : errors) : errors :=
  merge_at existing new <$> seq 0 (Nat.max (length existing) (length new)).

Definition dependency_cycle : string := "EngineRenderRendererspecRendererDependencyCycle".

Definition cycle_label (c : RendererConfig) : string :=
  rc_name c +:+ " (id: `" +:+ GetDisplayID c +:+ "`)".

Definition cycle_error (labels : list string) (c : RendererConfig) : rerror :=
  Message dependency_cycle
    [("cycle", Join " -> " labels); ("type", rc_name c); ("id", GetDisplayID c)] None.

Section Propagate.

(** The order in which maps and sets are visited in each round of the loop. *)
Context (orders : nat -> list Z -> gset Z -> list Z).
Context (configs : RendererConfigList) (configErrs : errors).

(** An index of a slice; [None] is the panic of an index out of range. *)
Definition at_index {A} (l : list A) (i : Z) : option A := if i <? 0 then None else l !! Z.to_nat i.

(** The body of the loop over the nodes of a cycle. *)
Definition flag (labels : list string) (propagationErrs : option errors) (rendererIndex : Z) : option errors :=
  errs ← propagationErrs;
  configErr ← at_index configErrs rendererIndex;
  match configErr with
  | Some _ => Some errs
  | None =>
      c ← at_index configs rendererIndex;
      _ ← at_index errs rendererIndex;
      Some (<[Z.to_nat rendererIndex := Some (cycle_error labels c)]> errs)
  end.

Fixpoint propagate_loop (fuel : nat) (round : nat) (g : Digraph) (errs : errors)
  : option (result graph_error errors) :=
  match fuel with
  | O => None
  | S fuel' =>
      match ContainsCycle (orders round) g with
      | None => None
      | Some (false, _) => Some (Ok errs)
      | Some (true, cycle) =>
          match mapM (fun i => cycle_label <$> at_index configs i) cycle with
          | None => None
          | Some labels =>
              match foldl (flag labels) (Some errs) cycle with
              | None => None
              | Some errs' =>
                  match RemoveAllNodes (orders round) g (list_to_set cycle) with
                  | Err e => Some (Err e)
                  | Ok g' => propagate_loop fuel' (S round) g' errs'
                  end
              end
          end
      end
  end.

Definition propagateCycleErrs (g : Digraph) : option (result graph_error errors) :=
  propagate_loop (S (size (nodes g))) 0 g (replicate (length configErrs) None).

End Propagate.

(** The loop over the configurations. *)
Fixpoint collect (configs : RendererConfigList) (dependencies : list Dependencies) (todo : list nat)
    (successors : gmap Z (gset Z)) (errs : errors) : option (gmap Z (gset Z) * errors) :=
  match todo with
  | [] => Some (successors, errs)
  | i :: rest =>
      match dependencies !! i with
      | None => None
      | Some d =>
          let '(successors', e) := addSuccessorsFromDependencies successors d configs (Z.of_nat i) in
          collect configs dependencies rest successors' (errs ++ [e])
      end
  end.

Definition config_nodes (configs : RendererConfigList) : gset Z :=
  list_to_set (Z.of_nat <$> seq 0 (length configs)).

Definition NewRendererSpec (orders : nat -> list Z -> gset Z -> list Z) (configs : RendererConfigList)
    (dependencies : list Dependencies) : option (result graph_error (RendererSpec * errors)) :=
  match collect configs dependencies (seq 0 (length configs)) ∅ [] with
  | None => None
  | Some (successors, errs) =>
      match NewDigraph (config_nodes configs) successors with
      | Err e => Some (Err e)
      | Ok digraph =>
          match propagateCycleErrs orders configs errs digraph with
          | None => None
          | Some (Err e) => Some (Err e)
          | Some (Ok propagationErrs) =>
              Some (Ok ({| rs_graph := digraph; rs_configs := configs; rs_dependencies := dependencies |},
                        merge errs propagationErrs))
          end
      end
  end.

Definition cfg (id : string) : RendererConfig := {| rc_name := "js"; rc_id := Some id; ConfigJSON := EmptyString |}.
Definition needs (ids : list string) : Dependencies := {| dep_tables := None; dep_renderers := ids |}.

Example spec_cycle :
  match NewRendererSpec (fun _ _ s => elements s) [cfg "a"; cfg "b"; cfg "c"; cfg "d"]
          [needs ["b"]; needs ["a"]; needs ["b"]; needs ["z"]] with
  | Some (Ok (_, errs)) => (fun e => match e with Some _ => true | None => false end) <$> errs
  | _ => []
  end = [true; true; false; true].
Proof. vm_compute. reflexivity. Qed.

(** ** The dependencies of a renderer *)

Definition source_ids (ds : DataSource) : list string :=
  match ds with OutputTableRef id _ _ => [id] | TableRefSource _ => [] end.

(** All identifiers a renderer depends on. *)
Definition dependency_ids (d : Dependencies) : list string :=
  default [] ((fun m => m ≫= (fun kv => kv.2 ≫= source_ids)) <$> dep_tables d) ++ dep_renderers d.

Definition known (configs : RendererConfigList) (id : string) : Prop := rendererIndexFromID id configs <> -1.

Definition link (ss : gmap Z (gset Z)) (a b : Z) : Prop := b ∈ default ∅ (ss !! a).

Lemma rendererIndexFromID_range id configs :
  known configs id -> 0 <= rendererIndexFromID id configs < Z.of_nat (length configs).
Proof.
  unfold known, rendererIndexFromID. destruct (find_index _ configs) eqn:Hf; [|done].
  apply find_index_lt in Hf. lia.
Qed.

Lemma rendererIndexFromID_spec id configs : known configs id <-> exists c, c ∈ configs /\ rc_id c = Some id.
Proof.
  unfold known, rendererIndexFromID. destruct (find_index _ configs) as [i|] eqn:Hf.
  - apply find_index_Some in Hf as (c & Hc & Hid%bool_decide_eq_true & _). split; [|lia].
    intros _. exists c. split; [by eapply list_elem_of_lookup_2|done].
  - apply find_index_None in Hf. rewrite Forall_forall in Hf. split; [done|].
    intros (c & Hc & Hid). apply Hf in Hc. by rewrite bool_decide_true in Hc.
Qed.

(** What adding the identifiers [ids] as dependencies of [i] does to the map and error. *)
Definition added (configs : RendererConfigList) (i : Z) (ids : list string)
    (st st' : gmap Z (gset Z) * option rerror) : Prop :=
  (forall a b, link st'.1 a b <-> link st.1 a b \/
     (b = i /\ exists id, id ∈ ids /\ known configs id /\ a = rendererIndexFromID id configs)) /\
  (st'.2 = None <-> st.2 = None /\ forall id, id ∈ ids -> known configs id).

Lemma added_nil configs i st : added configs i [] st st.
Proof. split; set_solver. Qed.

Lemma added_app configs i ids1 ids2 st1 st2 st3 :
  added configs i ids1 st1 st2 -> added configs i ids2 st2 st3 -> added configs i (ids1 ++ ids2) st1 st3.
Proof.
  intros [HL1 HE1] [HL2 HE2]. split.
  - intros a b. rewrite HL2, HL1. setoid_rewrite elem_of_app. naive_solver.
  - rewrite HE2, HE1. setoid_rewrite elem_of_app. naive_solver.
Qed.

Lemma added_one configs i st id : added configs i [id] st (add_keeping_first configs i st id).
Proof.
  unfold add_keeping_first, addSuccessor. destruct st as [ss err]. cbn.
  destruct (Z.eqb_spec (rendererIndexFromID id configs) (-1)) as [Hu|Hk].
  - split; cbn; setoid_rewrite list_elem_of_singleton.
    + intros a b. split; [by left|]. intros [?|(_ & id' & -> & Hk & _)]; [done|by destruct Hk].
    + destruct err; (split; [done|intros [? H]]); [done|by destruct (H id eq_refl)].
  - assert (forall s, default ∅ (ss !! rendererIndexFromID id configs) = s ->
      forall a b, link (<[rendererIndexFromID id configs := {[i]} ∪ s]> ss) a b <-> link ss a b \/
        b = i /\ exists id', id' ∈ [id] /\ known configs id' /\ a = rendererIndexFromID id' configs) as Hl.
    { intros s Hs a b. unfold link. setoid_rewrite list_elem_of_singleton.
      destruct (decide (a = rendererIndexFromID id configs)) as [->|Ha].
      - rewrite lookup_insert_eq. cbn. rewrite elem_of_union, elem_of_singleton, Hs. naive_solver.
      - rewrite lookup_insert_ne by done. naive_solver. }
    destruct (ss !! rendererIndexFromID id configs) as [s|] eqn:Hs; cbn.
    + split; cbn; [by apply Hl|]. setoid_rewrite list_elem_of_singleton. destruct err; naive_solver.
    + specialize (Hl ∅ eq_refl). rewrite union_empty_r_L in Hl. split; cbn; [by apply Hl|].
      setoid_rewrite list_elem_of_singleton. destruct err; naive_solver.
Qed.

Lemma added_fold configs i ids : forall st, added configs i ids st (foldl (add_keeping_first configs i) st ids).
Proof.
  induction ids as [|id ids IH]; intros st; cbn; [apply added_nil|].
  apply (added_app _ _ [id] ids _ _ _ (added_one configs i st id) (IH _)).
Qed.

Lemma added_sources configs i l : forall st, added configs i (l ≫= source_ids) st (foldl (add_source configs i) st l).
Proof.
  induction l as [|ds l IH]; intros st; cbn; [apply added_nil|].
  eapply added_app; [|apply IH]. destruct ds; cbn; [apply added_one|apply added_nil].
Qed.

Lemma added_tables configs i m : forall st,
  added configs i (m ≫= (fun kv : string * list DataSource => kv.2 ≫= source_ids)) st
        (foldl (fun st (kv : string * list DataSource) => foldl (add_source configs i) st kv.2) st m).
Proof.
  induction m as [|kv m IH]; intros st; cbn; [apply added_nil|].
  eapply added_app; [apply added_sources|apply IH].
Qed.

Lemma addSuccessorsFromDependencies_spec ss d configs i ss' e :
  addSuccessorsFromDependencies ss d configs i = (ss', e) ->
  added configs i (dependency_ids d) (ss, None) (ss', e).
Proof.
  unfold addSuccessorsFromDependencies, addSuccessorsFromRendererDependencies, dependency_ids.
  destruct (addSuccessorFromTableDependencies _ _ _ _) as [ss1 e1] eqn:H1.
  assert (added configs i (default [] ((fun m => m ≫= (fun kv => kv.2 ≫= source_ids)) <$> dep_tables d))
            (ss, None) (ss1, e1)) as Ht.
  { unfold addSuccessorFromTableDependencies in H1. destruct (dep_tables d) as [m|]; cbn in *.
    - rewrite <- H1. apply added_tables.
    - injection H1 as <- <-. apply added_nil. }
  pose proof (added_fold configs i (dep_renderers d) (ss1, None)) as Hr.
  destruct (foldl _ _ _) as [ss2 e2]. intros [= <- <-].
  destruct Ht as [HL1 HE1], Hr as [HL2 HE2]. cbn in *. split; cbn.
  - intros a b. rewrite HL2, HL1. setoid_rewrite elem_of_app. naive_solver.
  - setoid_rewrite elem_of_app. destruct e1, e2; cbn in *; naive_solver.
Qed.

Definition deps_ok (configs : RendererConfigList) (dependencies : list Dependencies) (i : nat) (e : option rerror) : Prop :=
  exists d, dependencies !! i = Some d /\ (e = None <-> forall id, id ∈ dependency_ids d -> known configs id).

(** Renderer [i] names renderer [j] as a dependency. *)
Definition depends_on (configs : RendererConfigList) (dependencies : list Dependencies) (i : nat) (a : Z) : Prop :=
  exists d id, dependencies !! i = Some d /\ id ∈ dependency_ids d /\ known configs id /\
               a = rendererIndexFromID id configs.

Lemma collect_spec configs dependencies todo : forall ss errs,
  (forall i, i ∈ todo -> is_Some (dependencies !! i)) ->
  exists ss' es, collect configs dependencies todo ss errs = Some (ss', errs ++ es) /\
    Forall2 (deps_ok configs dependencies) todo es /\
    forall a b, link ss' a b <-> link ss a b \/
      exists i, i ∈ todo /\ b = Z.of_nat i /\ depends_on configs dependencies i a.
Proof.
  induction todo as [|i todo IH]; intros ss errs Hd; cbn.
  { exists ss, []. rewrite app_nil_r. split_and!; [done|constructor|]. set_solver. }
  destruct (Hd i) as [d Hi]; [left|]. rewrite Hi.
  destruct (addSuccessorsFromDependencies ss d configs (Z.of_nat i)) as [ss1 e] eqn:Ha.
  apply addSuccessorsFromDependencies_spec in Ha as [HL HE]; cbn in HL, HE.
  destruct (IH ss1 (errs ++ [e])) as (ss' & es & -> & Hes & HL'); [intros ??; apply Hd; by right|].
  exists ss', (e :: es). rewrite <- app_assoc. split; [done|]. split.
  - constructor; [|done]. exists d. split; [done|]. rewrite HE. naive_solver.
  - intros a b. rewrite HL', HL. setoid_rewrite elem_of_cons. unfold depends_on. split.
    + intros [[?|(-> & id & ? & ? & ->)]|(j & ? & ? & ?)]; [by left| |right; naive_solver].
      right. exists i. split; [by left|]. split; [done|]. by exists d, id.
    + intros [?|(j & [->|?] & -> & d' & id & Hd' & ? & ? & ->)]; [tauto| |right; naive_solver].
      left. right. split; [done|]. rewrite Hi in Hd'. injection Hd' as <-. by exists id.
Qed.

(** ** Cycles are reported and broken *)

Section PropagateSpec.
Context (orders : nat -> list Z -> gset Z -> list Z) `{!forall k, IterationOrder (orders k)}.
Context (configs : RendererConfigList) (configErrs : errors).
Context (Hlen : length configErrs = length configs).
Context (g0 : Digraph) (Hnodes : forall x, x ∈ nodes g0 -> 0 <= x < Z.of_nat (length configs)).

(** The errors report exactly the removed nodes [R] that had no error before. *)
Definition flagged (errs : errors) (R : gset Z) : Prop :=
  length errs = length configs /\
  forall i, (exists e, errs !! i = Some (Some e)) <-> Z.of_nat i ∈ R /\ configErrs !! i = Some None.

Lemma at_index_lookup {A} (l : list A) x : 0 <= x < Z.of_nat (length l) ->
  exists a, at_index l x = Some a /\ l !! Z.to_nat x = Some a.
Proof.
  intros Hx. unfold at_index. destruct (Z.ltb_spec x 0); [lia|].
  destruct (lookup_lt_is_Some_2 l (Z.to_nat x)) as [a Ha]; [lia|]. by exists a.
Qed.

Lemma flag_one labels errs R x : flagged errs R -> 0 <= x < Z.of_nat (length configs) ->
  exists errs', flag configs configErrs labels (Some errs) x = Some errs' /\ flagged errs' ({[x]} ∪ R).
Proof.
  intros [Hl Hf] Hx. unfold flag. cbn.
  destruct (at_index_lookup configErrs x) as (ce & -> & Hce); [lia|]. cbn.
  destruct (at_index_lookup configs x) as (c & -> & _); [lia|].
  destruct (at_index_lookup errs x) as (e & -> & He); [lia|]. cbn.
  assert (forall i, Z.of_nat i = x -> i = Z.to_nat x) as Hix by lia.
  destruct ce as [ce|]; eexists; (split; [done|]); split.
  - done.
  - intros i. rewrite Hf, elem_of_union, elem_of_singleton. split; [tauto|].
    intros [[->%Hix|?] ?]; [congruence|done].
  - by rewrite length_insert.
  - intros i. rewrite elem_of_union, elem_of_singleton. destruct (decide (i = Z.to_nat x)) as [->|Hi].
    + rewrite list_lookup_insert_eq by lia. split; [|by eexists]. intros _. split; [left; lia|done].
    + rewrite list_lookup_insert_ne by done. rewrite Hf. split; [tauto|].
      intros [[?%Hix|?] ?]; [done|tauto].
Qed.

Lemma flag_fold labels l : forall errs R, flagged errs R ->
  (forall x, x ∈ l -> 0 <= x < Z.of_nat (length configs)) ->
  exists errs', foldl (flag configs configErrs labels) (Some errs) l = Some errs' /\
                flagged errs' (list_to_set l ∪ R).
Proof.
  induction l as [|x l IH]; intros errs R Hf Hx; cbn [foldl list_to_set].
  { exists errs. by rewrite union_empty_l_L. }
  destruct (flag_one labels errs R x) as (errs1 & -> & Hf1); [done|apply Hx; left|].
  destruct (IH errs1 ({[x]} ∪ R)) as (errs2 & -> & Hf2); [done|intros ??; apply Hx; by right|].
  exists errs2. split; [done|]. by replace ({[x]} ∪ list_to_set l ∪ R) with (list_to_set l ∪ ({[x]} ∪ R)) by set_solver.
Qed.

Lemma labels_exist l : (forall x, x ∈ l -> 0 <= x < Z.of_nat (length configs)) ->
  exists labels, mapM (fun i => cycle_label <$> at_index configs i) l = Some labels.
Proof.
  induction l as [|x l IH]; intros Hx; cbn; [by eexists|].
  destruct (at_index_lookup configs x) as (c & -> & _); [apply Hx; left|].
  destruct IH as [ls ->]; [intros ??; apply Hx; by right|]. cbn. by eexists.
Qed.

(** The graph without the removed nodes. *)
Definition without (R : gset Z) (g : Digraph) : Prop :=
  wf g /\ nodes g = nodes g0 ∖ R /\ forall a b, edge g a b <-> edge g0 a b /\ a ∉ R /\ b ∉ R.

Lemma tc_mono (g : Digraph) (R : gset Z) a b : without R g -> tc (edge g) a b -> tc (edge g0) a b.
Proof.
  intros (_ & _ & He). apply tc_subrel. intros x y Hxy. by apply He.
Qed.

Lemma propagate_loop_spec fuel : forall round g R errs,
  without R g -> (forall x, x ∈ R -> tc (edge g0) x x) -> flagged errs R ->
  (size (nodes g) < fuel)%nat ->
  exists errs' R' g', propagate_loop orders configs configErrs fuel round g errs = Some (Ok errs') /\
    without R' g' /\ acyclic g' /\ (forall x, x ∈ R' -> tc (edge g0) x x) /\ flagged errs' R'.
Proof.
  induction fuel as [|fuel IH]; intros round g R errs Hw HR Hf Hsize; [lia|]. cbn [propagate_loop].
  destruct (ContainsCycle_spec (orders round) g) as ([] & cyc & -> & Hc & Ha); [apply Hw| |].
  2: { exists errs, R, g. split_and!; [done|done|by apply Ha|done|done]. }
  specialize (Hc eq_refl).
  assert (forall x, x ∈ cyc -> x ∈ nodes g) as Hcn.
  { intros x Hx. pose proof (cycle_nodes_tc _ _ _ Hc Hx) as Ht. by apply tc_start_in_nodes in Ht. }
  assert (forall x, x ∈ cyc -> 0 <= x < Z.of_nat (length configs)) as Hrange.
  { intros x Hx%Hcn. apply Hnodes. destruct Hw as (_ & Hn & _). rewrite Hn in Hx. set_solver. }
  destruct (labels_exist cyc Hrange) as [labels ->].
  destruct (flag_fold labels cyc errs R Hf Hrange) as (errs1 & -> & Hf1).
  destruct (RemoveAllNodes_Ok (orders round) g (proj1 Hw) (list_to_set cyc)) as (g1 & -> & Hwf1 & Hn1 & He1).
  { intros x Hx%elem_of_list_to_set. by apply Hcn. }
  destruct Hw as (Hwf & Hn & He).
  apply (IH (S round) g1 (list_to_set cyc ∪ R) errs1); [|..|done|].
  - split; [done|]. split; [rewrite Hn1, Hn; set_solver|].
    intros a b. rewrite He1, He, !not_elem_of_union. tauto.
  - intros x [Hx%elem_of_list_to_set|Hx]%elem_of_union; [|by apply HR].
    apply (tc_mono g R); [done|]. by apply (cycle_nodes_tc g cyc).
  - assert (size (nodes g1) < size (nodes g))%nat; [|lia]. rewrite Hn1. apply subset_size.
    assert (exists x, x ∈ cyc) as [x Hx].
    { destruct cyc as [|x l]; [by apply cycle_nonempty in Hc|exists x; left]. }
    pose proof (Hcn _ Hx) as Hxn. split; [set_solver|].
    intros Hs. apply Hs in Hxn. set_solver.
Qed.

Lemma without_none : wf g0 -> without ∅ g0.
Proof. intros Hwf. split; [done|]. split; [set_solver|]. set_solver. Qed.

Lemma propagateCycleErrs_spec : wf g0 ->
  exists errs R g', propagateCycleErrs orders configs configErrs g0 = Some (Ok errs) /\
    without R g' /\ acyclic g' /\ (forall x, x ∈ R -> tc (edge g0) x x) /\ flagged errs R.
Proof.
  intros Hwf. apply (propagate_loop_spec _ _ _ ∅); [by apply without_none|set_solver| |lia].
  split; [by rewrite length_replicate|]. intros i. split; [|set_solver].
  intros [e He]. by apply lookup_replicate in He as [? _].
Qed.

End PropagateSpec.

Lemma merge_length a b : length (merge a b) = Nat.max (length a) (length b).
Proof. unfold merge. by rewrite length_fmap, length_seq. Qed.

Lemma merge_lookup existing new i e :
  merge existing new !! i = Some e <->
  (i < Nat.max (length existing) (length new))%nat /\ e = merge_at existing new i.
Proof.
  unfold merge. rewrite list_lookup_fmap. destruct (decide (i < Nat.max (length existing) (length new))%nat) as [Hi|Hi].
  - rewrite lookup_seq_lt by done. cbn. naive_solver.
  - rewrite lookup_seq_ge by lia. cbn. naive_solver lia.
Qed.

(** Merging two lists of errors keeps the first error of every position, is as long as
    the longer list, and is associative, so the order in which the phases of a render
    session merge their errors does not matter. *)
Theorem merge_first a b c :
  (length (merge a b) = Nat.max (length a) (length b)) /\
  (forall i, (i < length (merge a b))%nat ->
     merge a b !! i = Some (match a !! i with Some (Some e) => Some e | _ => mjoin (b !! i) end)) /\
  merge a (merge b c) = merge (merge a b) c.
Proof.
  assert (forall x y, length (merge x y) = Nat.max (length x) (length y)) as Hlen.
  { intros x y. unfold merge. by rewrite length_fmap, length_seq. }
  split_and!; [done| |].
  - intros i Hi. rewrite Hlen in Hi. apply merge_lookup. split; [done|]. unfold merge_at.
    destruct (a !! i) as [[?|]|], (b !! i) as [[?|]|]; done.
  - apply list_eq. intros i. apply option_eq. intros e. rewrite !merge_lookup, !Hlen, Nat.max_assoc.
    apply and_iff_compat_l. unfold merge_at.
    destruct (merge b c !! i) as [e1|] eqn:H1, (merge a b !! i) as [e2|] eqn:H2;
      rewrite ?merge_lookup in *; rewrite ?lookup_ge_None, ?Hlen in *; unfold merge_at in *.
    + destruct H1 as [_ ->], H2 as [_ ->]. destruct (a !! i) as [[?|]|], (b !! i) as [[?|]|], (c !! i) as [[?|]|]; done.
    + destruct H1 as [_ ->]. rewrite (lookup_ge_None_2 a), (lookup_ge_None_2 b) by lia. done.
    + destruct H2 as [_ ->]. rewrite (lookup_ge_None_2 b), (lookup_ge_None_2 c) by lia.
      by destruct (a !! i) as [[?|]|].
    + by rewrite (lookup_ge_None_2 a), (lookup_ge_None_2 c) by lia.
Qed.

Lemma elem_of_config_nodes configs x : x ∈ config_nodes configs <-> 0 <= x < Z.of_nat (length configs).
Proof.
  unfold config_nodes. rewrite elem_of_list_to_set, list_elem_of_fmap. setoid_rewrite elem_of_seq. split.
  - intros (i & -> & ?). lia.
  - intros ?. exists (Z.to_nat x). lia.
Qed.

(** The outcome of the analysis, with the configurations and dependencies it was made from. *)
Lemma NewRendererSpec_spec orders configs dependencies :
  (forall k, IterationOrder (orders k)) -> length dependencies = length configs ->
  exists spec errs, NewRendererSpec orders configs dependencies = Some (Ok (spec, errs)) /\
    rs_configs spec = configs /\ rs_dependencies spec = dependencies /\
    length errs = length configs /\
    (forall i a, edge (rs_graph spec) a (Z.of_nat i) <-> (i < length configs)%nat /\ depends_on configs dependencies i a) /\
    (forall i d, errs !! i = Some None -> dependencies !! i = Some d ->
       forall id, id ∈ dependency_ids d -> exists c, c ∈ configs /\ rc_id c = Some id) /\
    (forall n, ~ tc (fun a b => edge (rs_graph spec) a b /\
                       errs !! Z.to_nat a = Some None /\ errs !! Z.to_nat b = Some None) n n) /\
    (forall i e, errs !! i = Some (Some e) -> tc (edge (rs_graph spec)) (Z.of_nat i) (Z.of_nat i) \/
       exists d id, dependencies !! i = Some d /\ id ∈ dependency_ids d /\ ~ known configs id).
Proof.
  intros Ho Hdeps. unfold NewRendererSpec.
  destruct (collect_spec configs dependencies (seq 0 (length configs)) ∅ []) as (ss & es & -> & Hes & HL).
  { intros i Hi%elem_of_seq. apply lookup_lt_is_Some. lia. }
  rewrite app_nil_l. assert (length es = length configs) as Hel.
  { apply Forall2_length in Hes. by rewrite length_seq in Hes. }
  assert (forall a b, link ss a b <-> exists i, (i < length configs)%nat /\ b = Z.of_nat i /\
            depends_on configs dependencies i a) as Hlink.
  { intros a b. rewrite HL. setoid_rewrite elem_of_seq. unfold link at 1. rewrite lookup_empty. cbn. split.
    - intros [?|(i & ? & ? & ?)]; [set_solver|]. exists i. split; [lia|done].
    - intros (i & ? & ? & ?). right. exists i. split; [lia|done]. }
  set (g := {| nodes := config_nodes configs; successors := ss |}).
  assert (wf g) as Hwf.
  { intros a b [_ Hb]. change (b ∈ getDirectChildren g a) with (link ss a b) in Hb. apply Hlink in Hb as (i & ? & -> & _).
    apply elem_of_config_nodes. lia. }
  rewrite (NewDigraph_Ok_wf _ _ Hwf). fold g.
  destruct (propagateCycleErrs_spec orders configs es Hel g) as (perrs & R & g' & -> & Hw & Hacy & HR & Hpl & Hpf);
    [intros x; apply elem_of_config_nodes|done|].
  exists {| rs_graph := g; rs_configs := configs; rs_dependencies := dependencies |}, (merge es perrs).
  assert (forall i e, merge es perrs !! i = Some e <-> (i < length configs)%nat /\ e = merge_at es perrs i) as Hm.
  { intros i e. rewrite merge_lookup, Hel, Hpl, Nat.max_id. done. }
  assert (forall i, (i < length configs)%nat -> exists d e, dependencies !! i = Some d /\ es !! i = Some e /\
            (e = None <-> forall id, id ∈ dependency_ids d -> known configs id)) as Hd.
  { intros i Hi. destruct (lookup_lt_is_Some_2 es i) as [e He]; [lia|].
    destruct (Forall2_lookup_r _ _ _ _ _ Hes He) as (j & Hj & d & Hdj & Hiff).
    apply lookup_seq in Hj as [-> _]. by exists d, e. }
  split; [done|]. split; [done|]. split; [done|]. split; [unfold merge; rewrite length_fmap, length_seq; lia|]. split_and!.
  - intros i a. unfold edge. cbn. change (Z.of_nat i ∈ getDirectChildren g a) with (link ss a (Z.of_nat i)).
    rewrite Hlink, elem_of_config_nodes. split; [intros (_ & j & ? & <-%Nat2Z.inj & ?); done|].
    intros [? Hdo]. split; [|by exists i]. destruct Hdo as (d & id & _ & _ & Hk & ->).
    by apply rendererIndexFromID_range.
  - intros i d [Hi Hmi]%Hm Hdi id Hid. apply rendererIndexFromID_spec.
    destruct (Hd i Hi) as (d' & e & Hd' & He & Hiff). assert (d' = d) as -> by congruence.
    unfold merge_at in Hmi. rewrite He in Hmi. destruct e as [e|]; [done|]. by apply Hiff.
  - intros n Ht. apply (Hacy n). eapply tc_subrel; [|exact Ht]. intros a b (Hab & Ha & Hb). apply Hw. split; [done|].
    assert (forall x, 0 <= x < Z.of_nat (length configs) -> merge es perrs !! Z.to_nat x = Some None -> x ∉ R) as Hx.
    { intros x Hx [Hxl Hmx]%Hm Hin. destruct (Hd _ Hxl) as (d & e & _ & He & _).
      unfold merge_at in Hmx. rewrite He in Hmx. destruct e as [e|]; [done|].
      destruct (proj2 (Hpf (Z.to_nat x))) as [e' He']; [|by rewrite He' in Hmx].
      split; [|done]. by rewrite Z2Nat.id by lia. }
    split; apply Hx; try done; apply elem_of_config_nodes; [apply Hab|by eapply Hwf].
  - intros i e [Hi Hmi]%Hm. destruct (Hd i Hi) as (d & e0 & Hdi & He & Hiff). unfold merge_at in Hmi. rewrite He in Hmi.
    destruct e0 as [e0|].
    + right. exists d. destruct (decide (Forall (known configs) (dependency_ids d))) as [Ha|Hn].
      * rewrite Forall_forall in Ha. by apply Hiff in Ha.
      * apply not_Forall_Exists, Exists_exists in Hn as (id & ? & ?); [by exists id|]. intros ?. unfold known. apply _.
    + left. destruct (perrs !! i) as [[pe|]|] eqn:Hpe; try done. apply HR, Hpf. by exists pe.
Qed.

(** C2: analysing the dependencies of the renderers always succeeds. The graph has exactly
    one edge from each known dependency to the renderer that names it. A renderer left
    without an error names only known renderers, and the renderers left without an error
    depend on each other without cycles; conversely an error is only reported for a
    renderer with an unknown dependency or on a dependency cycle. *)
Theorem NewRendererSpec_sound orders configs dependencies :
  (forall k, IterationOrder (orders k)) -> length dependencies = length configs ->
  exists spec errs, NewRendererSpec orders configs dependencies = Some (Ok (spec, errs)) /\
    length errs = length configs /\
    (forall i a, edge (rs_graph spec) a (Z.of_nat i) <-> (i < length configs)%nat /\ depends_on configs dependencies i a) /\
    (forall i d, errs !! i = Some None -> dependencies !! i = Some d ->
       forall id, id ∈ dependency_ids d -> exists c, c ∈ configs /\ rc_id c = Some id) /\
    (forall n, ~ tc (fun a b => edge (rs_graph spec) a b /\
                       errs !! Z.to_nat a = Some None /\ errs !! Z.to_nat b = Some None) n n) /\
    (forall i e, errs !! i = Some (Some e) -> tc (edge (rs_graph spec)) (Z.of_nat i) (Z.of_nat i) \/
       exists d id, dependencies !! i = Some d /\ id ∈ dependency_ids d /\ ~ known configs id).
Proof.
  intros Ho Hd. destruct (NewRendererSpec_spec orders configs dependencies Ho Hd) as (spec & errs & H & _ & _ & Hrest).
  by exists spec, errs.
Qed.

Lemma NewRendererSpec_sound_witness :
  exists spec errs, NewRendererSpec (fun _ _ s => elements s) [cfg "a"; cfg "b"; cfg "c"] [needs ["b"]; needs ["a"]; needs ["b"]]
      = Some (Ok (spec, errs)) /\
    length errs = 3%nat /\
    (forall i a, edge (rs_graph spec) a (Z.of_nat i) <->
       (i < 3)%nat /\ depends_on [cfg "a"; cfg "b"; cfg "c"] [needs ["b"]; needs ["a"]; needs ["b"]] i a).
Proof.
  destruct (NewRendererSpec_sound (fun _ _ s => elements s) [cfg "a"; cfg "b"; cfg "c"]
              [needs ["b"]; needs ["a"]; needs ["b"]]) as (spec & errs & H1 & H2 & H3 & _);
    [intros k; apply elements_order|reflexivity|].
  exists spec, errs. split; [exact H1|]. split; [exact H2|exact H3].
Defined.
