(* ===== verification/RenderSession.v ===== *)
(** * Performix: starting a render session

    Models [core/apap-engine/render/session_lifecycle.go]: validating the renderer
    configurations, creating and initialising the renderers in order, checking their
    dependencies and outputs, and registering the session; with the parts of
    [visualization.go] and [scopecleaner.go] that it calls. *)

From S2P Require Import Prelude.
From S2P Require Import GoStrings.
From S2P Require Import Digraph.
From S2P Require Import RenderTables.
From S2P Require Import RendererSpec.
From Stdlib Require Import Ascii.

Local Open Scope Z_scope.

(** ** Configurations *)

(** [^[A-Za-z][A-Za-z0-9_-]*$] *)
Definition ValidID (s : string) : bool :=
  match s with
  | EmptyString => false
  | String c rest => is_letter c &&
      sall (fun d => is_letter d || is_digit d || Ascii.eqb d "_" || Ascii.eqb d "-") rest
  end.

(** The [%q] of an identifier is left out of the error texts. *)
Definition validateRendererID (id : option string) : result rerror unit :=
  match id with
  | None => Ok tt
  | Some s =>
      if bool_decide (s = EmptyString) then Err (Errorf "renderer ID cannot be empty if provided")
      else if negb (ValidID s) then Err (Errorf "invalid renderer ID") else Ok tt
  end.

Fixpoint validate_configs (seen : gset string) (configs : RendererConfigList) : result rerror unit :=
  match configs with
  | [] => Ok tt
  | c :: rest =>
      _ ← validateRendererID (rc_id c);
      match rc_id c with
      | None => validate_configs seen rest
      | Some id => if bool_decide (id ∈ seen) then Err (Errorf "duplicate renderer ID found")
                   else validate_configs ({[id]} ∪ seen) rest
      end
  end.

Definition validateRendererConfigList (configs : RendererConfigList) : result rerror unit :=
  validate_configs ∅ configs.

(** ** Renderers *)

(** What a renderer offers; [R] holds the state of any renderer. *)
Class Renderer (R : Type) := {
  r_name : R -> string;
  GetInputSpec : R -> PortList;
  GetOutputSpec : R -> PortList;
  Configure : R -> RendererIdentity -> string -> R * option rerror;
  Initialize : R -> SessionView -> TableRefMap -> R * Manifest * option rerror
}.

Definition identity_of (configs : RendererConfigList) (i : nat) : RendererIdentity :=
  match configs !! i with
  | Some c => {| ri_index := Z.of_nat i; ri_id := rc_id c; ri_name := rc_name c |}
  | None => {| ri_index := Z.of_nat i; ri_id := None; ri_name := EmptyString |}
  end.

(** ** Status of the renderers a renderer depends on *)

Definition dependency_failed : string := "EngineRenderRendererspecRendererDependencyFailed".
Definition dependency_not_initialized : string := "EngineRenderRendererspecRendererDependencyNotInitialized".

Definition dependency_metadata (dependent dependency : RendererConfig) : list (string * string) :=
  [("type", rc_name dependent); ("id", GetDisplayID dependent);
   ("dependencyType", rc_name dependency); ("dependencyId", GetDisplayID dependency)].

(** The verdict on one dependency; [None] goes on to the next. *)
Definition dependency_verdict (configs : RendererConfigList) (rendererIndex : nat)
    (dependencyErr : nat -> bool * option rerror) (id : string) : option rerror :=
  let dependencyIndex := rendererIndexFromID id configs in
  if dependencyIndex =? -1 then None
  else
    let j := Z.to_nat dependencyIndex in
    let '(done, rendererErr) := dependencyErr j in
    if is_pending rendererErr then rendererErr
    else
      match configs !! rendererIndex, configs !! j with
      | Some dependent, Some dependency =>
          match rendererErr with
          | Some e => Some (Message dependency_failed (dependency_metadata dependent dependency) (Some e))
          | None => if done then None
                    else Some (Message dependency_not_initialized (dependency_metadata dependent dependency) None)
          end
      | _, _ => None
      end.

Fixpoint first_verdict (verdict : string -> option rerror) (ids : list string) : option rerror :=
  match ids with
  | [] => None
  | id :: rest => match verdict id with Some e => Some e | None => first_verdict verdict rest end
  end.

Definition resolveRendererDependencyStatus (configs : RendererConfigList) (renderers : list string)
    (rendererIndex : nat) (dependencyErr : nat -> bool * option rerror) : option rerror :=
  first_verdict (dependency_verdict configs rendererIndex dependencyErr) renderers.

(** ** Validation of the outputs of a renderer *)

Fixpoint duplicate_component (seen : gset ComponentType) (ports : PortList) : option ComponentType :=
  match ports with
  | [] => None
  | p :: rest => if bool_decide (port_component p ∈ seen) then Some (port_component p)
                 else duplicate_component ({[port_component p]} ∪ seen) rest
  end.

Definition visible_entry (identity : RendererIdentity) (e : ManifestEntry) : bool :=
  negb (IsHidden e) && bool_decide (rendererIdentity (info e) = identity).

Definition undeclared_tables (expected : gset ComponentType) (identity : RendererIdentity) (m : Manifest) : list string :=
  (fun e => "table '" +:+ tableName e +:+ "' not declared in output spec") <$>
  filter (fun e => visible_entry identity e = true /\ componentType (info e) ∉ expected) m.

Definition missing_outputs (expected : gset ComponentType) (identity : RendererIdentity) (m : Manifest) (ports : PortList)
  : list string :=
  let found := list_to_set ((componentType ∘ info) <$>
    filter (fun e => visible_entry identity e = true /\ componentType (info e) ∈ expected) m) : gset ComponentType in
  (fun p => "no table produced for declared output '" +:+ port_name p +:+ "' (" +:+
            ct_name (port_component p) +:+ ":" +:+ SchemaVersion (port_component p) +:+ ")") <$>
  filter (fun p => port_component p ∉ found) ports.

Definition ValidateRendererOutput (m : Manifest) (ports : PortList) (identity : RendererIdentity) : result rerror unit :=
  match ports with
  | [] => Ok tt
  | _ =>
      match duplicate_component ∅ ports with
      | Some c => Err (Errorf ("duplicate output component type '" +:+ ct_name c +:+ ":" +:+ SchemaVersion c +:+
                               "' in specification"))
      | None =>
          let expected := list_to_set (port_component <$> ports) : gset ComponentType in
          match undeclared_tables expected identity m ++ missing_outputs expected identity m ports with
          | [] => Ok tt
          | errs => Err (Errorf (Join "; " errs))
          end
      end
  end.

(** ** Creating and initialising the renderers *)

Section Session.
Context {R : Type} `{!Renderer R}.

(** [factory] constructs a renderer by name: the renderer, if any, and the error, if any. *)
Context (factory : string -> option R * option rerror).

(** A renderer whose configuration fails is kept in the list beside its error. A factory
    that returns no renderer and no error makes [Configure] panic: [None]. *)
Definition createRenderer (i : nat) (c : RendererConfig)
  : option (option R * option rerror) :=
  match factory (rc_name c) with
  | (r, Some e) => Some (r, Some (Wrapf ("failed to construct renderer with name '" +:+ rc_name c +:+ "'") e))
  | (None, None) => None
  | (Some r, None) =>
      let identity := {| ri_index := Z.of_nat i; ri_id := rc_id c; ri_name := rc_name c |} in
      match Configure r identity (ConfigJSON c) with
      | (r', Some e) => Some (Some r', Some (Wrapf ("failed to configure renderer '" +:+ rc_name c +:+ "'") e))
      | (r', None) => Some (Some r', None)
      end
  end.

Fixpoint create_from (i : nat) (cs : RendererConfigList) (errs : errors)
  : option (list (option R) * errors) :=
  match cs, errs with
  | [], _ => Some ([], [])
  | _ :: _, [] => None
  | c :: cs', err :: errs' =>
      first ← match err with
              | Some _ => Some (None, None)
              | None => createRenderer i c
              end;
      rest ← create_from (S i) cs' errs';
      Some (first.1 :: rest.1, first.2 :: rest.2)
  end.

Definition createRenderers (configs : RendererConfigList) (errs : errors) : option (list (option R) * errors) :=
  create_from 0 configs errs.

(** The state of the loop: the manifest of the session, the renderers and the errors. *)
Record init_state := { is_manifest : Manifest; is_renderers : list (option R); is_errs : errors }.

(** The run identifiers of the session, and the outcome of the [DROP TABLE] statements
    after the initialisation of each renderer. *)
Context (content : list string) (drop : nat -> string -> option string).

Definition outputs (renderers : list (option R)) : RendererOutputs := (fun o : option R => GetOutputSpec <$> o) <$> renderers.

Definition set_error (st : init_state) (i : nat) (e : rerror) : init_state :=
  {| is_manifest := is_manifest st; is_renderers := is_renderers st; is_errs := <[i := Some e]> (is_errs st) |}.

Definition emit_pending (st : init_state) (i : nat) (configs : RendererConfigList) (r : R) : init_state :=
  {| is_manifest := emitPendingRendererOutputSpec content (is_manifest st) (GetOutputSpec r) (identity_of configs i);
     is_renderers := is_renderers st; is_errs := is_errs st |}.

(** From the call of [Initialize] on. *)
Definition run_initialize (configs : RendererConfigList) (name : string) (i : nat) (r : R) (sources : TableRefMap)
    (st : init_state) : init_state :=
  let '(r', m1, err) := Initialize r {| sv_content := content; sv_manifest := is_manifest st |} sources in
  let '(m2, errRemoval) := RemoveTempTables (drop i) m1 in
  let st' := {| is_manifest := m2; is_renderers := <[i := Some r']> (is_renderers st); is_errs := is_errs st |} in
  match err with
  | Some e =>
      if is_pending_error e then emit_pending (set_error st' i e) i configs r'
      else set_error st' i (Wrapf ("failed to initialize renderer '" +:+ name +:+ "'") e)
  | None =>
      match errRemoval with
      | Some e => set_error st' i (Wrapf ("failed to cleanup temp tables for renderer '" +:+ name +:+ "'") e)
      | None =>
          match ValidateRendererOutput m2 (GetOutputSpec r') (identity_of configs i) with
          | Err e => set_error st' i (Wrapf ("renderer '" +:+ name +:+ "' output spec validation failed") e)
          | Ok _ => st'
          end
      end
  end.

(** The data sources: [inl] is a state in which the renderer is skipped. *)
Definition prepare_sources (configs : RendererConfigList) (name : string) (i : nat) (r : R)
    (tables : option DataSourcesMap) (st : init_state) : option (init_state + TableRefMap) :=
  match tables with
  | None => Some (inr [])
  | Some ds =>
      match ResolveDataSources {| sv_content := content; sv_manifest := is_manifest st |} ds (outputs (is_renderers st)) with
      | None => None
      | Some (Err e) =>
          Some (inl (set_error st i (Wrapf ("failed to resolve data sources for renderer '" +:+ name +:+ "'") e)))
      | Some (Ok resolved) =>
          match ValidateDataSources (is_manifest st) resolved (GetInputSpec r) with
          | Err e => Some (inl (set_error st i
                       (Wrapf ("data sources do not match input spec for renderer '" +:+ name +:+ "'") e)))
          | Ok _ => if IsPending resolved then Some (inl (emit_pending (set_error st i Pending) i configs r))
                    else Some (inr resolved)
          end
      end
  end.

(** The error the renderer dependencies give, at the turn of renderer [i]. *)
Definition dependency_error (spec : RendererSpec) (errs initializeErrs : errors) (i : nat) (d : Dependencies)
  : option rerror :=
  let rendererErrs := merge errs initializeErrs in
  resolveRendererDependencyStatus (rs_configs spec) (dep_renderers d) i (fun j =>
    match rendererErrs !! j with
    | None => (false, None)
    | Some e => ((j <? i)%nat, e)
    end).

Definition initialize_one (spec : RendererSpec) (errs : errors) (st : init_state) (i : nat) : option init_state :=
  match is_renderers st !! i with
  | None => None
  | Some None => Some st
  | Some (Some r) =>
      match errs !! i, rs_configs spec !! i, rs_dependencies spec !! i with
      | Some (Some _), _, _ => Some st
      | Some None, Some c, Some d =>
          match ValidatePortSpecs (r_name r) (GetInputSpec r) (GetOutputSpec r) with
          | Err e => Some (set_error st i e)
          | Ok _ =>
              match dependency_error spec errs (is_errs st) i d with
              | Some e =>
                  if is_pending_error e then Some (emit_pending (set_error st i e) i (rs_configs spec) r)
                  else Some (set_error st i e)
              | None =>
                  match prepare_sources (rs_configs spec) (rc_name c) i r (dep_tables d) st with
                  | None => None
                  | Some (inl st') => Some st'
                  | Some (inr sources) => Some (run_initialize (rs_configs spec) (rc_name c) i r sources st)
                  end
              end
          end
      | _, _, _ => None
      end
  end.

Fixpoint initialize_loop (spec : RendererSpec) (errs : errors) (todo : list nat) (st : init_state) : option init_state :=
  match todo with
  | [] => Some st
  | i :: rest => st' ← initialize_one spec errs st i; initialize_loop spec errs rest st'
  end.

(** The listeners called at the end and the checkpoint of the database are left out. *)
Definition initializeRenderers (spec : RendererSpec) (renderers : list (option R)) (errs : errors) (m : Manifest)
  : option (result rerror init_state) :=
  match renderers with
  | [] => Some (Err (Errorf "no renderer specified"))
  | _ => Ok <$> initialize_loop spec errs (seq 0 (length renderers))
           {| is_manifest := m; is_renderers := renderers; is_errs := replicate (length renderers) None |}
  end.

End Session.
Arguments init_state R : clear implicits.

(** ** Starting a session *)

(** [ParseWidgetDataSources]: [parse] is the decoding of a widget configuration. *)
Fixpoint ParseWidgetDataSources (parse : string -> result rerror DataSourcesMap)
    (visConfigs : list (option string * string)) (acc : gmap string DataSourcesMap)
  : result rerror (gmap string DataSourcesMap) :=
  match visConfigs with
  | [] => Ok acc
  | (None, _) :: rest => ParseWidgetDataSources parse rest acc
  | (Some id, json) :: rest =>
      match parse json with
      | Err e => Err e
      | Ok ds => ParseWidgetDataSources parse rest (<[id := ds]> acc)
      end
  end.

(** The sources of the widgets of a session; [None] is the nil map of a failed resolution. *)
Definition WidgetDataSources := gmap string (option TableRefMap).

Definition AddDataSources (v : WidgetDataSources) (visName : string) (sources : option TableRefMap)
  : result rerror WidgetDataSources :=
  match v !! visName with
  | Some (Some _) => Err (Errorf ("data sources for visualization '" +:+ visName +:+ "' already exist"))
  | _ => Ok (<[visName := sources]> v)
  end.

Fixpoint ResolveWidgetDataSources (s : SessionView) (renderers : RendererOutputs)
    (dataSources : list (string * DataSourcesMap)) (v : WidgetDataSources) : option (result rerror WidgetDataSources) :=
  match dataSources with
  | [] => Some (Ok v)
  | (id, ds) :: rest =>
      match ResolveDataSources s ds renderers with
      | None => None
      | Some r =>
          match AddDataSources v id (ok_value r) with
          | Err e => Some (Err e)
          | Ok v' => ResolveWidgetDataSources s renderers rest v'
          end
      end
  end.

(** [createDependencies]: [parse] decodes the dependencies of one configuration. *)
Definition parseDependencies (parse : string -> Dependencies * option rerror) (configs : RendererConfigList)
  : list Dependencies * errors :=
  ((fun c => (parse (ConfigJSON c)).1) <$> configs, (fun c => (parse (ConfigJSON c)).2) <$> configs).

Definition createDependencies (parse : string -> Dependencies * option rerror) (configs : RendererConfigList)
  : result rerror (list Dependencies * errors) :=
  match validateRendererConfigList configs with
  | Err e => Err e
  | Ok _ => Ok (parseDependencies parse configs)
  end.

(** The sessions registered in the storage and those closed so far. *)
Record World := { registered : gset string; closed : list string }.

Definition close_session (w : World) (id : string) : World := {| registered := registered w; closed := id :: closed w |}.

Definition AddRenderSession (w : World) (id : string) : result rerror World :=
  if bool_decide (id ∈ registered w) then Err (Errorf ("session with id '" +:+ id +:+ "' already exists in storage"))
  else Ok {| registered := {[id]} ∪ registered w; closed := closed w |}.

(** [util.Contains(errs, nil)]. *)
Definition contains_nil (errs : errors) : bool :=
  existsb (fun e => match e with None => true | Some _ => false end) errs.

Section Start.
Context {R : Type} `{!Renderer R} (factory : string -> option R * option rerror).

(** The orders of the dependency analysis; the outcomes of the statements dropping tables,
    of loading the runs, of the session factory, and of decoding the configurations. *)
Context (orders : nat -> list Z -> gset Z -> list Z) (drop : nat -> string -> option string).
Context (load : list string -> result rerror (list string)) (new_session : result rerror string).
Context (parse : string -> Dependencies * option rerror) (parse_sources : string -> result rerror DataSourcesMap).

(** From the registration of the deferred [session.Close] on: the outcome and, when the
    session is retained, that the cleanup is cancelled. *)
Definition render_in_session (w : World) (id : string) (content : list string) (spec : RendererSpec)
    (renderers : list (option R)) (mergedErrs : errors) (visConfigs : list (option string * string))
  : option (result rerror (option string * errors) * World * bool) :=
  match initializeRenderers content drop spec renderers mergedErrs NewManifest with
  | None => None
  | Some (Err e) => Some (Err (Wrapf "starting session failed" e), w, false)
  | Some (Ok st) =>
      let finalErrs := merge mergedErrs (is_errs st) in
      match ParseWidgetDataSources parse_sources visConfigs ∅ with
      | Err e => Some (Err e, w, false)
      | Ok sources =>
          match ResolveWidgetDataSources {| sv_content := content; sv_manifest := is_manifest st |}
                  (outputs (is_renderers st)) (map_to_list sources) ∅ with
          | None => None
          | Some (Err e) => Some (Err e, w, false)
          | Some (Ok _) =>
              match AddRenderSession w id with
              | Err e => Some (Err (Wrapf "render session add failed" e), w, false)
              | Ok w' =>
                  if contains_nil finalErrs then Some (Ok (Some id, finalErrs), w', true)
                  else Some (Ok (None, finalErrs), w', false)
              end
          end
      end
  end.

Definition StartRenderSession (w : World) (contentSelection : list string) (configs : RendererConfigList)
    (visConfigs : list (option string * string)) : option (result rerror (option string * errors) * World) :=
  match load contentSelection with
  | Err e => Some (Err (Wrapf "starting session failed: failed to load content for new render" e), w)
  | Ok content =>
      match createDependencies parse configs with
      | Err e => Some (Err (Wrapf "creating dependencies failed" e), w)
      | Ok (dependencies, configErrs) =>
          match NewRendererSpec orders configs dependencies with
          | None => None
          | Some (Err _) => Some (Err (Errorf "creating renderer graph failed"), w)
          | Some (Ok (spec, graphErrs)) =>
              let mergedErrs := merge configErrs graphErrs in
              match createRenderers factory (rs_configs spec) mergedErrs with
              | None => None
              | Some (renderers, creationErrs) =>
                  match new_session with
                  | Err e => Some (Err (Wrapf "starting session failed" e), w)
                  | Ok id =>
                      match render_in_session w id content spec renderers (merge mergedErrs creationErrs) visConfigs with
                      | None => None
                      | Some (r, w', true) => Some (r, w')
                      | Some (r, w', false) => Some (r, close_session w' id)
                      end
                  end
              end
          end
      end
  end.

End Start.

(** ** Outputs of a renderer *)

Lemma duplicate_component_None ports : forall seen,
  duplicate_component seen ports = None <->
  NoDup (port_component <$> ports) /\ forall p, p ∈ ports -> port_component p ∉ seen.
Proof.
  induction ports as [|p ports IH]; intros seen; cbn; [split; [split; [constructor|set_solver]|done]|].
  rewrite NoDup_cons, list_elem_of_fmap. case_bool_decide as Hs.
  - split; [done|]. intros [_ Hn]. by destruct (Hn p); [left|].
  - rewrite IH. split.
    + intros [Hnd Hn]. split; [split; [|done]|].
      * intros (q & Heq & Hq). specialize (Hn q Hq). set_solver.
      * intros q [->|Hq]%elem_of_cons; [done|]. specialize (Hn q Hq). set_solver.
    + intros [[Hp Hnd] Hn]. split; [done|]. intros q Hq. rewrite elem_of_union, elem_of_singleton.
      intros [Heq|Hq']; [apply Hp; by exists q|]. by apply (Hn q); [right|].
Qed.

Lemma visible_entry_spec identity e :
  visible_entry identity e = true <-> tableType e <> HiddenTable /\ rendererIdentity (info e) = identity.
Proof. unfold visible_entry, IsHidden. rewrite andb_true_iff, negb_true_iff, bool_decide_eq_false, bool_decide_eq_true. done. Qed.

(** The tables a renderer produced are accepted exactly when it declares no outputs at
    all, or its declared component types are distinct, every visible table it produced has
    a declared component type, and every declared component type has such a table. *)
Theorem ValidateRendererOutput_accepts m ports identity :
  ValidateRendererOutput m ports identity = Ok tt <->
  ports = [] \/
  (NoDup (port_component <$> ports) /\
   (forall e, e ∈ m -> tableType e <> HiddenTable -> rendererIdentity (info e) = identity ->
      exists p, p ∈ ports /\ port_component p = componentType (info e)) /\
   (forall p, p ∈ ports -> exists e, e ∈ m /\ tableType e <> HiddenTable /\
      rendererIdentity (info e) = identity /\ componentType (info e) = port_component p)).
Proof.
  unfold ValidateRendererOutput. destruct ports as [|p0 ports0]; [split; [by left|done]|].
  set (ports := p0 :: ports0). destruct (duplicate_component ∅ ports) as [c|] eqn:Hd.
  { split; [done|]. intros [?|[Hnd _]]; [done|].
    assert (duplicate_component ∅ ports = None) by (apply duplicate_component_None; set_solver). congruence. }
  apply duplicate_component_None in Hd as [Hnd _].
  set (expected := list_to_set (port_component <$> ports) : gset ComponentType).
  assert (forall c, c ∈ expected <-> exists p, p ∈ ports /\ port_component p = c) as Hexp.
  { intros c. unfold expected. rewrite elem_of_list_to_set, list_elem_of_fmap. naive_solver. }
  transitivity (undeclared_tables expected identity m ++ missing_outputs expected identity m ports = []).
  { destruct (_ ++ _); done. }
  rewrite app_nil. unfold undeclared_tables, missing_outputs. rewrite !fmap_nil_iff, !filter_nil_iff.
  set (found := list_to_set _ : gset ComponentType).
  assert (forall c, c ∈ found <-> exists e, e ∈ m /\ tableType e <> HiddenTable /\
            rendererIdentity (info e) = identity /\ c = componentType (info e) /\ c ∈ expected) as Hfound.
  { intros c. unfold found. rewrite elem_of_list_to_set, list_elem_of_fmap. split.
    - intros (e & -> & [[[? ?]%visible_entry_spec ?] ?]%list_elem_of_filter). by exists e.
    - intros (e & ? & ? & ? & -> & ?). exists e. split; [done|]. apply list_elem_of_filter.
      split; [|done]. split; [by apply visible_entry_spec|done]. }
  clearbody found expected. split.
  - intros [Hu Hmi]. right. split; [done|]. split.
    + intros e He Ht Hr. apply Hexp, dec_stable. intros Hn. apply (Hu e He). split; [by apply visible_entry_spec|done].
    + intros p Hp. specialize (Hmi p Hp). apply dec_stable, Hfound in Hmi as (e & ? & ? & ? & ? & _). by exists e.
  - intros [?|(_ & Hu & Hmi)]; [done|]. split.
    + intros e He [[Ht Hr]%visible_entry_spec Hn]. by apply Hn, Hexp, Hu.
    + intros p Hp Hn. destruct (Hmi p Hp) as (e & He & Ht & Hr & Hc). apply Hn, Hfound. exists e.
      split_and!; [done..|]. apply Hexp. by exists p.
Qed.

(** ** Order of initialisation *)

(** Entries with a renderer identifier carry the index of a renderer of the session. *)
Definition indices_ok (n : nat) (m : Manifest) : Prop :=
  forall e, e ∈ m -> is_Some (ri_id (rendererIdentity (info e))) ->
    0 <= ri_index (rendererIdentity (info e)) < Z.of_nat n.

(** What the session relies on of a renderer: initialising keeps the indices in range. *)
Class RendererLaws (R : Type) `{!Renderer R} (n : nat) : Prop :=
  initialize_indices : forall r s t,
    indices_ok n (sv_manifest s) -> indices_ok n (Initialize r s t).1.2.

Lemma RemoveEntry_incl m name m' : RemoveEntry m name = Some m' -> forall e, e ∈ m' -> e ∈ m.
Proof.
  revert m'. induction m as [|e m IH]; intros m'; cbn; [done|]. case_bool_decide.
  - intros [= <-] e' ?. by right.
  - intros (m1 & Hm & ->)%fmap_Some e' [->|Hin]%elem_of_cons; [left|right]. by eapply IH.
Qed.

Lemma remove_temp_incl drop names : forall m e, e ∈ (remove_temp_tables drop m names).1 -> e ∈ m.
Proof.
  induction names as [|n names IH]; intros m e; cbn; [done|].
  destruct (drop n); [done|]. destruct (RemoveEntry m n) as [m'|] eqn:Hr; [|done].
  intros He%IH. by eapply RemoveEntry_incl.
Qed.

Lemma resolve_loop_total n renderers rid out runID m : forall st,
  length renderers = n -> indices_ok n m -> resolve_loop renderers rid out runID st m <> None.
Proof.
  induction m as [|e m IH]; intros st Hlen Hok; cbn; [done|].
  assert (resolve_entry renderers rid out runID st e <> None) as He.
  { unfold resolve_entry. destruct (ri_id _) as [id|] eqn:Hid; [|done]. case_bool_decide; [|done].
    destruct (isRunIDInContent _ _); [|done].
    destruct (Hok e) as [Hlo Hhi]; [left|by eexists|]. destruct (Z.ltb_spec (ri_index (rendererIdentity (info e))) 0); [lia|].
    destruct (lookup_lt_is_Some_2 renderers (Z.to_nat (ri_index (rendererIdentity (info e))))) as [o ->]; [lia|].
    destruct o; [|done]. by destruct (port_get _ _). }
  destruct (resolve_entry _ _ _ _ _ _) as [[st'|]|]; [|done..]. apply IH; [done|].
  intros e' ?. apply Hok. by right.
Qed.

Lemma resolve_all_total s renderers ds : indices_ok (length renderers) (sv_manifest s) ->
  resolve_all s renderers ds <> None.
Proof.
  intros Hok. induction ds as [|d ds IH]; cbn; [done|].
  assert (Resolve s renderers d <> None) as Hd.
  { destruct d; cbn; [|done]. unfold OutputTableRef_Resolve.
    destruct (resolve_loop _ _ _ _ _ _) as [[]|] eqn:Hl; [done..|].
    by apply (resolve_loop_total (length renderers)) in Hl. }
  destruct (Resolve s renderers d) as [[]|]; [|done..]. by destruct (resolve_all _ _ _) as [[]|].
Qed.

Lemma ResolveDataSources_total s ds renderers : indices_ok (length renderers) (sv_manifest s) ->
  ResolveDataSources s ds renderers <> None.
Proof.
  intros Hok. induction ds as [|[key values] ds IH]; cbn; [done|].
  pose proof (resolve_all_total s renderers values Hok) as Ha.
  destruct (resolve_all _ _ _) as [[]|]; [|done..]. by destruct (ResolveDataSources _ _ _) as [[]|].
Qed.

Section Order.
Context {R : Type} `{!Renderer R} (content : list string) (drop : nat -> string -> option string).
Context (spec : RendererSpec) (errs : errors) (n : nat) `{!RendererLaws R n}.
Context (Hconfigs : length (rs_configs spec) = n) (Hdeps : length (rs_dependencies spec) = n) (Herrs : length errs = n).

(** [st'] differs from [st] by the turn of renderer [i] only. *)
Definition turn (i : nat) (st st' : init_state R) : Prop :=
  indices_ok n (is_manifest st') /\ length (is_errs st') = n /\ length (is_renderers st') = n /\
  (forall j, j <> i -> is_errs st' !! j = is_errs st !! j) /\
  (forall j, is_renderers st' !! j = Some None <-> is_renderers st !! j = Some None).

Definition good (st : init_state R) : Prop :=
  indices_ok n (is_manifest st) /\ length (is_errs st) = n /\ length (is_renderers st) = n.

Lemma turn_refl i st : good st -> turn i st st.
Proof. intros (? & ? & ?). split_and!; done. Qed.

Lemma turn_error i st st' e : turn i st st' -> turn i st (set_error st' i e).
Proof.
  intros (? & ? & ? & Hj & Hr). split_and!; cbn; [done|by rewrite length_insert|done| |done].
  intros j ?. rewrite list_lookup_insert_ne by done. by apply Hj.
Qed.

Lemma turn_emit i st st' configs r : turn i st st' -> (i < n)%nat ->
  turn i st (emit_pending content st' i configs r).
Proof.
  intros (Hok & ? & ? & Hj & Hr) Hi. split_and!; cbn; [|done..].
  destruct (emitPending_grows content (is_manifest st') (GetOutputSpec r) (identity_of configs i)) as (new & -> & Hnew).
  intros e [He|He]%elem_of_app; [by apply Hok|]. intros _. rewrite (Hnew e He).
  unfold identity_of. destruct (configs !! i); cbn; lia.
Qed.

Lemma run_initialize_turn configs name i r sources st : good st -> (i < n)%nat ->
  is_renderers st !! i = Some (Some r) ->
  turn i st (run_initialize content drop configs name i r sources st).
Proof.
  intros (Hok & He & Hr) Hi Hri. unfold run_initialize.
  pose proof (initialize_indices r {| sv_content := content; sv_manifest := is_manifest st |} sources Hok) as Hok1.
  destruct (Initialize _ _ _) as [[r' m1] err]. cbn in Hok1.
  pose proof (remove_temp_incl (drop i) (TempTableNames m1) m1) as Hincl.
  unfold RemoveTempTables. destruct (remove_temp_tables _ _ _) as [m2 errRemoval]. cbn in Hincl.
  set (st' := {| is_manifest := m2; is_renderers := _; is_errs := _ |}).
  assert (turn i st st') as Ht.
  { split_and!; cbn; [|done|by rewrite length_insert|done|].
    - intros e' He'. apply Hok1. by apply Hincl.
    - intros j. destruct (decide (j = i)) as [->|?]; [|by rewrite list_lookup_insert_ne].
      rewrite list_lookup_insert_eq by lia. rewrite Hri. done. }
  destruct err as [e|].
  - destruct (is_pending_error e); [apply turn_emit; [|done]|]; by apply turn_error.
  - destruct errRemoval; [by apply turn_error|].
    destruct (ValidateRendererOutput _ _ _); [done|by apply turn_error].
Qed.

Lemma initialize_one_turn st i : good st -> (i < n)%nat ->
  exists st', initialize_one content drop spec errs st i = Some st' /\ turn i st st'.
Proof.
  intros Hg Hi. pose proof Hg as (Hok & He & Hr). unfold initialize_one.
  destruct (lookup_lt_is_Some_2 (is_renderers st) i) as [[r|] Hri]; [lia| |]; rewrite Hri.
  2: { exists st. split; [done|by apply turn_refl]. }
  destruct (lookup_lt_is_Some_2 errs i) as [[e|] Hei]; [lia| |]; rewrite Hei.
  { exists st. split; [done|by apply turn_refl]. }
  destruct (lookup_lt_is_Some_2 (rs_configs spec) i) as [c Hci]; [lia|]. rewrite Hci.
  destruct (lookup_lt_is_Some_2 (rs_dependencies spec) i) as [d Hdi]; [lia|]. rewrite Hdi.
  pose proof (turn_refl i st Hg) as Ht.
  destruct (ValidatePortSpecs _ _ _); [|eexists; split; [done|by apply turn_error]].
  destruct (dependency_error _ _ _ _ _) as [e|].
  { destruct (is_pending_error e); (eexists; split; [done|]); [apply turn_emit; [|done]|]; by apply turn_error. }
  unfold prepare_sources. destruct (dep_tables d) as [ds|].
  - destruct (ResolveDataSources _ _ _) as [[sources|e]|] eqn:Hres.
    + destruct (ValidateDataSources _ _ _); [|eexists; split; [done|by apply turn_error]].
      destruct (IsPending sources); (eexists; split; [done|]);
        [by apply turn_emit; [apply turn_error|]|by apply run_initialize_turn].
    + eexists. split; [done|by apply turn_error].
    + apply ResolveDataSources_total in Hres; [done|]. cbn. unfold outputs. rewrite length_fmap, Hr. done.
  - eexists. split; [done|]. by apply run_initialize_turn.
Qed.

(** Renderer [j] has no error so far. *)
Definition accepted (st : init_state R) (j : nat) : Prop := merge errs (is_errs st) !! j = Some None.

Lemma merge_errs_congr es1 es2 j : length es1 = length es2 -> es1 !! j = es2 !! j ->
  merge errs es1 !! j = merge errs es2 !! j.
Proof.
  intros Hl Hj. apply option_eq. intros e. rewrite !merge_lookup. unfold merge_at. by rewrite Hl, Hj.
Qed.

Lemma dependency_error_None es i d : (i < n)%nat -> dependency_error spec errs es i d = None ->
  forall id j, id ∈ dep_renderers d -> rendererIndexFromID id (rs_configs spec) = Z.of_nat j ->
  (j < i)%nat /\ merge errs es !! j = Some None.
Proof.
  unfold dependency_error, resolveRendererDependencyStatus. set (f := fun j => _). intros Hi Hnone id j Hid Hj.
  assert (dependency_verdict (rs_configs spec) i f id = None) as Hv.
  { induction (dep_renderers d) as [|id' ids IH]; [by apply not_elem_of_nil in Hid|]. cbn in Hnone.
    destruct (dependency_verdict _ _ _ id') eqn:Hid'; [done|].
    apply elem_of_cons in Hid as [->|Hid]; [done|]. by apply IH. }
  unfold dependency_verdict in Hv. rewrite Hj in Hv.
  destruct (Z.eqb_spec (Z.of_nat j) (-1)); [lia|]. rewrite Nat2Z.id in Hv.
  assert (j < n)%nat as Hjn.
  { assert (known (rs_configs spec) id) as Hk by (unfold known; lia). apply rendererIndexFromID_range in Hk. lia. }
  destruct (lookup_lt_is_Some_2 (rs_configs spec) i) as [ci Hci]; [lia|].
  destruct (lookup_lt_is_Some_2 (rs_configs spec) j) as [cj Hcj]; [lia|]. rewrite Hci, Hcj in Hv.
  unfold f in Hv. destruct (Nat.ltb_spec j i) as [Hji|_];
    destruct (merge errs es !! j) as [[e|]|]; cbn in Hv; try done; by destruct (is_pending_error e).
Qed.

Lemma initialize_one_accepts st i st' r d : (i < n)%nat -> length (is_errs st) = n ->
  initialize_one content drop spec errs st i = Some st' ->
  is_renderers st !! i = Some (Some r) -> rs_dependencies spec !! i = Some d -> accepted st' i ->
  dependency_error spec errs (is_errs st) i d = None.
Proof.
  intros Hi Hlen Hst Hri Hdi [_ Hacc]%merge_lookup. unfold initialize_one in Hst. rewrite Hri, Hdi in Hst.
  unfold merge_at in Hacc. destruct (errs !! i) as [[e|]|]; [done| |done].
  destruct (rs_configs spec !! i) as [c|]; [|done].
  assert (forall e, is_errs (set_error st i e) !! i = Some (Some e)) as Hset.
  { intros e. cbn. apply list_lookup_insert_eq. lia. }
  destruct (ValidatePortSpecs _ _ _); [|injection Hst as <-; by rewrite Hset in Hacc].
  destruct (dependency_error _ _ _ _ _) as [e|]; [|done].
  destruct (is_pending_error e); injection Hst as <-; cbn [emit_pending is_errs] in Hacc; by rewrite Hset in Hacc.
Qed.

(** What holds before the turn of renderer [k]. *)
Definition order_inv (renderers : list (option R)) (k : nat) (st : init_state R) : Prop :=
  good st /\ (forall j, is_renderers st !! j = Some None <-> renderers !! j = Some None) /\
  forall i r d id j, (i < k)%nat -> renderers !! i = Some (Some r) -> rs_dependencies spec !! i = Some d ->
    accepted st i -> id ∈ dep_renderers d -> rendererIndexFromID id (rs_configs spec) = Z.of_nat j ->
    (j < i)%nat /\ accepted st j.

Lemma accepted_turn k st st' j : good st -> turn k st st' -> j <> k -> accepted st' j <-> accepted st j.
Proof.
  intros (_ & Hl & _) (_ & Hl' & _ & Hj & _) Hne. unfold accepted.
  rewrite (merge_errs_congr (is_errs st') (is_errs st) j); [done|lia|by apply Hj].
Qed.

Lemma initialize_loop_order renderers m : forall k st, (k + m = n)%nat -> length renderers = n ->
  order_inv renderers k st ->
  exists st', initialize_loop content drop spec errs (seq k m) st = Some st' /\ order_inv renderers n st'.
Proof.
  induction m as [|m IH]; intros k st Hk Hlen (Hg & Hrn & Hinv); cbn.
  { exists st. split; [done|]. replace n with k by lia. done. }
  destruct (initialize_one_turn st k Hg) as (st1 & Hst1 & Ht); [lia|]. rewrite Hst1. cbn.
  apply IH; [lia|done|]. split; [by destruct Ht as (? & ? & ? & _)|]. split.
  { intros j. rewrite <- Hrn. apply Ht. }
  intros i r d id j Hi Hri Hdi Hacc Hid Hj. destruct (decide (i = k)) as [->|Hne].
  - destruct (is_renderers st !! k) as [[r'|]|] eqn:Hrk.
    + pose proof (initialize_one_accepts st k st1 r' d ltac:(lia) (proj1 (proj2 Hg)) Hst1 Hrk Hdi Hacc) as Hnone.
      destruct (dependency_error_None (is_errs st) k d ltac:(lia) Hnone id j Hid Hj) as [Hlt Hm].
      split; [done|]. apply (accepted_turn k st st1); [done|done|lia|done].
    + apply Hrn in Hrk. congruence.
    + apply lookup_ge_None in Hrk. destruct Hg as (_ & _ & Hgl). lia.
  - destruct (Hinv i r d id j) as [Hlt Hm]; [lia|done|done|by apply (accepted_turn k st st1)|done|done|].
    split; [done|]. apply (accepted_turn k st st1); [done|done|lia|done].
Qed.

End Order.


(** A renderer that adds one table with the component type it declares, and is pending or
    fails on request. *)
Record TableRenderer := { tr_identity : RendererIdentity; tr_port : PortSpec; tr_error : option rerror }.

#[export] Instance table_renderer : Renderer TableRenderer := {|
  r_name := fun r => ri_name (tr_identity r);
  GetInputSpec := fun _ => [];
  GetOutputSpec := fun r => [tr_port r];
  Configure := fun r i _ => ({| tr_identity := i; tr_port := tr_port r; tr_error := tr_error r |}, None);
  Initialize := fun r s _ =>
    (r, (AddEntry (sv_manifest s)
           {| componentType := port_component (tr_port r);
              rendererIdentity := {| ri_index := 0; ri_id := ri_id (tr_identity r); ri_name := ri_name (tr_identity r) |};
              associatedContent := sv_content s; pending := false |}).1, tr_error r)
|}.

#[export] Instance table_renderer_laws n : RendererLaws TableRenderer (S n).
Proof.
  intros r s t Hok e [He|He]%elem_of_app Hid; [by apply Hok|].
  apply list_elem_of_singleton in He as ->. cbn. lia.
Qed.

Definition table_port (c : string) : PortSpec :=
  {| port_name := "out"; Description := EmptyString; port_cardinality := CardinalityOne;
     port_component := {| ct_name := c; SchemaVersion := "1.0" |} |}.

Definition table_of (i : Z) (err : option rerror) : option TableRenderer :=
  Some {| tr_identity := {| ri_index := i; ri_id := Some "r"; ri_name := "js" |}; tr_port := table_port "calltree"; tr_error := err |}.

Definition two_spec : RendererSpec :=
  {| rs_graph := {| nodes := ∅; successors := ∅ |}; rs_configs := [cfg "a"; cfg "b"];
     rs_dependencies := [needs []; needs ["a"]] |}.


(** ** Sessions that are kept *)

Lemma contains_nil_spec errs : contains_nil errs = true <-> None ∈ errs.
Proof.
  unfold contains_nil. rewrite existsb_elem_of. split; [by intros ([e|] & ? & ?)|]. intros ?. by exists None.
Qed.

(** What an outcome of [StartRenderSession] says about the sessions. *)
Lemma StartRenderSession_outcome {R} `{!Renderer R} factory orders drop load new_session parse parse_sources
    w selection configs visConfigs :
  match StartRenderSession factory orders drop load new_session parse parse_sources w selection configs visConfigs with
  | None => True
  | Some (Err _, w') => registered w' = registered w /\
      (closed w' = closed w \/ exists id, new_session = Ok id /\ closed w' = id :: closed w)
  | Some (Ok (Some id, errs), w') => new_session = Ok id /\ None ∈ errs /\ id ∉ registered w /\
      registered w' = {[id]} ∪ registered w /\ closed w' = closed w
  | Some (Ok (None, errs), w') => None ∉ errs /\ exists id, new_session = Ok id /\ id ∉ registered w /\
      registered w' = {[id]} ∪ registered w /\ closed w' = id :: closed w
  end.
Proof.
  unfold StartRenderSession, render_in_session, AddRenderSession.
  repeat (match goal with |- context [match ?x with _ => _ end] =>
            lazymatch x with context [match _ with _ => _ end] => fail | _ => destruct x eqn:? end end;
          try done; simplify_eq);
    bool_to_prop; try match goal with H : contains_nil _ = true |- _ => apply contains_nil_spec in H end;
    try match goal with H : contains_nil _ = false |- _ => rewrite <- not_true_iff_false, contains_nil_spec in H end;
    cbn; try (split_and!; done); try (split; [done|]; try (by left); try (by right; eexists); by eexists).
Qed.

(** What a session relies on of the renderer factory: a renderer or an error. *)
Definition factory_ok {R} (factory : string -> option R * option rerror) : Prop :=
  forall name, factory name <> (None, None).

Lemma create_from_total {R} `{!Renderer R} (factory : string -> option R * option rerror) cs : factory_ok factory ->
  forall i errs, (length cs <= length errs)%nat ->
  exists rs es, create_from factory i cs errs = Some (rs, es) /\ length rs = length cs /\ length es = length cs.
Proof.
  intros Hf. induction cs as [|c cs IH]; intros i [|err errs] Hl; cbn in *; try lia; [by eexists _, _..|].
  destruct (IH (S i) errs) as (rs & es & -> & Hrs & Hes); [lia|].
  assert (exists r e, match err with Some _ => Some (None, None) | None => createRenderer factory i c end = Some (r, e)) as (r & e & ->).
  { destruct err; [by eexists _, _|]. unfold createRenderer. specialize (Hf (rc_name c)).
    destruct (factory (rc_name c)) as [[r|] [e|]]; try done; [by eexists _, _| |by eexists _, _].
    destruct (Configure r _ _) as [r' [e|]]; by eexists _, _. }
  cbn. eexists _, _. split; [done|]. cbn. lia.
Qed.

Lemma initialize_total {R} `{!Renderer R} content drop spec errs (renderers : list (option R)) :
  RendererLaws R (length renderers) -> length (rs_configs spec) = length renderers ->
  length (rs_dependencies spec) = length renderers -> length errs = length renderers ->
  match initializeRenderers content drop spec renderers errs NewManifest with
  | None => False
  | Some (Err _) => True
  | Some (Ok st) => indices_ok (length (is_renderers st)) (is_manifest st)
  end.
Proof.
  intros Hlaws Hc Hd He. unfold initializeRenderers. destruct renderers as [|r0 rs0] eqn:Hrs; [done|]. rewrite <- Hrs in *.
  set (st0 := {| is_manifest := NewManifest; is_renderers := renderers; is_errs := replicate (length renderers) None |}).
  destruct (initialize_loop_order content drop spec errs (length renderers) Hc Hd He renderers
              (length renderers) 0 st0) as (st & Hst & (Hok & _ & Hl) & _); [done|done| |].
  { split; [split_and!; cbn; [intros e ?%elem_of_nil; done|by rewrite length_replicate|done]|]. split; [done|]. intros. lia. }
  rewrite Hst. cbn. by rewrite Hl.
Qed.

Lemma ResolveWidgetDataSources_total s renderers ds : indices_ok (length renderers) (sv_manifest s) ->
  forall v, ResolveWidgetDataSources s renderers ds v <> None.
Proof.
  intros Hok. induction ds as [|[id d] ds IH]; intros v; cbn; [done|].
  pose proof (ResolveDataSources_total s d renderers Hok) as Hd.
  destruct (ResolveDataSources s d renderers); [|done]. by destruct (AddDataSources _ _ _).
Qed.

Section Started.
Context {R : Type} `{!Renderer R} (factory : string -> option R * option rerror).
Context (orders : nat -> list Z -> gset Z -> list Z) (drop : nat -> string -> option string).
Context (load : list string -> result rerror (list string)) (new_session : result rerror string).
Context (parse : string -> Dependencies * option rerror) (parse_sources : string -> result rerror DataSourcesMap).
Context (Horders : forall k, IterationOrder (orders k)) (Hfactory : factory_ok factory).

Lemma StartRenderSession_total w selection configs visConfigs : RendererLaws R (length configs) ->
  StartRenderSession factory orders drop load new_session parse parse_sources w selection configs visConfigs <> None.
Proof.
  intros Hlaws. unfold StartRenderSession. destruct (load selection) as [content|]; [|done].
  unfold createDependencies. destruct (validateRendererConfigList configs); [|done]. unfold parseDependencies.
  destruct (NewRendererSpec_spec orders configs ((fun c => (parse (ConfigJSON c)).1) <$> configs) Horders)
    as (spec & graphErrs & -> & Hsc & Hsd & Hgl & _); [by rewrite length_fmap|].
  set (merged := merge _ graphErrs).
  assert (length merged = length configs) as Hml by (unfold merged; rewrite merge_length, length_fmap; lia).
  rewrite Hsc. unfold createRenderers.
  destruct (create_from_total factory configs Hfactory 0 merged) as (rs & es & -> & Hrl & Hel); [lia|].
  destruct new_session as [id|]; [|done]. unfold render_in_session.
  assert (length (merge merged es) = length rs) as Hmr by (rewrite merge_length; lia).
  pose proof (initialize_total content drop spec (merge merged es) rs) as Hinit.
  rewrite Hrl, Hsc, Hsd, length_fmap in Hinit. specialize (Hinit Hlaws eq_refl eq_refl ltac:(lia)).
  destruct (initializeRenderers _ _ _ _ _ _) as [[st|]|]; [|done..].
  destruct (ParseWidgetDataSources _ _ _) as [sources|]; [|done].
  pose proof (ResolveWidgetDataSources_total {| sv_content := content; sv_manifest := is_manifest st |}
    (outputs (is_renderers st)) (map_to_list sources)) as Hres. unfold outputs in *. rewrite length_fmap in Hres.
  specialize (Hres Hinit ∅). destruct (ResolveWidgetDataSources _ _ _ _) as [[]|]; [|done..].
  destruct (AddRenderSession w id); [|done]. by destruct (contains_nil _).
Qed.

(** C38: starting a session always comes to an end, and changes the storage in one of four
    ways. An error leaves the sessions in the storage as they were; a session with at least
    one working renderer is registered and left open; and a session in which every renderer
    failed is reported as absent and closed, although it stays registered. *)
Theorem StartRenderSession_effects w selection configs visConfigs : RendererLaws R (length configs) ->
  exists outcome w',
    StartRenderSession factory orders drop load new_session parse parse_sources w selection configs visConfigs = Some (outcome, w') /\
    match outcome with
    | Err _ => registered w' = registered w /\
        (closed w' = closed w \/ exists id, new_session = Ok id /\ closed w' = id :: closed w)
    | Ok (Some id, errs) => new_session = Ok id /\ None ∈ errs /\ id ∉ registered w /\
        registered w' = {[id]} ∪ registered w /\ closed w' = closed w
    | Ok (None, errs) => None ∉ errs /\ exists id, new_session = Ok id /\ id ∉ registered w /\
        registered w' = {[id]} ∪ registered w /\ closed w' = id :: closed w
    end.
Proof.
  intros Hlaws. pose proof (StartRenderSession_total w selection configs visConfigs Hlaws) as Htotal.
  destruct (StartRenderSession _ _ _ _ _ _ _ _ _ _ _) as [[outcome w']|] eqn:Hstart; [|done].
  exists outcome, w'. split; [done|].
  pose proof (StartRenderSession_outcome factory orders drop load new_session parse parse_sources w selection configs visConfigs) as Ho.
  rewrite Hstart in Ho. by destruct outcome as [[[id|] errs]|e].
Qed.

End Started.

Lemma StartRenderSession_effects_witness :
  exists outcome w',
    StartRenderSession (fun _ => (table_of 0 None, None)) (fun _ _ s => elements s)
       (fun _ _ => None) Ok (Ok "s1") (fun _ => (needs [], None)) (fun _ => Ok [])
       {| registered := ∅; closed := [] |} ["run1"] [cfg "a"] [] = Some (outcome, w') /\
    outcome = Ok (Some "s1", [None]) /\ registered w' = {["s1"]} ∪ ∅.
Proof.
  destruct (StartRenderSession_effects (fun _ => (table_of 0 None, None)) (fun _ _ s => elements s)
       (fun _ _ => None) Ok (Ok "s1") (fun _ => (needs [], None)) (fun _ => Ok [])
       ltac:(intros k; apply elements_order) ltac:(done)
       {| registered := ∅; closed := [] |} ["run1"] [cfg "a"] [] (table_renderer_laws 0)) as (outcome & w' & H & Hout).
  exists outcome, w'. split; [exact H|]. vm_compute in H. injection H as <- <-. split; [reflexivity|]. apply Hout.
Defined.

(** The last case happens: one renderer that fails to initialise leaves its session
    both closed and registered. *)
Theorem failed_session_stays_registered :
  let '(r, w') := default (Err Pending, {| registered := ∅; closed := [] |})
    (StartRenderSession (fun _ => (table_of 0 (Some (Errorf "boom")), None)) (fun _ _ s => elements s)
       (fun _ _ => None) Ok (Ok "s1") (fun _ => (needs [], None)) (fun _ => Ok [])
       {| registered := ∅; closed := [] |} ["run1"] [cfg "a"] []) in
  (exists errs, r = Ok (None, errs)) /\ "s1" ∈ registered w' /\ "s1" ∈ closed w'.
Proof. vm_compute. split; [by eexists|]. split; [reflexivity|left]. Qed.
