(* ===== verification/SessionStorage.v ===== *)
(** * Performix: concurrent access to the render sessions

    Models [core/apap-engine/render/session_storage.go] as a step relation over threads.
    The critical sections under [storageLock] are single steps; taking the reader-writer
    lock of a session, closing it and deleting it are separate steps, as in the code. *)

From S2P Require Import Prelude.

(** [SessionAccess]: the session, how often it was closed, and the threads that hold its
    reader-writer lock. *)
Record SessionAccess := {
  sa_id : string;
  sa_closes : nat;
  sa_readers : gset nat;
  sa_writer : option nat
}.

(** Where a thread is. [Getting] and [Closing] have looked up the address of the session
    and wait for its lock; [Using] holds it for reading until [Done]; [Locked] and [Closed]
    hold it for writing, before and after the call of [S.Close]. *)
Inductive pc :=
| Idle
| Getting (a : nat)
| Using (a : nat)
| Closing (id : string) (a : nat)
| Locked (id : string) (a : nat)
| Closed (id : string) (a : nat).

Record state := {
  sessions : gmap string nat;
  heap : gmap nat SessionAccess;
  threads : nat -> pc
}.

Definition NewSessionStorage : state := {| sessions := ∅; heap := ∅; threads := fun _ => Idle |}.

Definition goto (t : nat) (p : pc) (ths : nat -> pc) : nat -> pc := fun u => if decide (u = t) then p else ths u.

Definition with_heap (s : state) (h : gmap nat SessionAccess) (t : nat) (p : pc) : state :=
  {| sessions := sessions s; heap := h; threads := goto t p (threads s) |}.

Definition getRawSessionByID (s : state) (id : string) : option nat := sessions s !! id.

(** [AddRenderSession] with the address of the new [SessionAccess]; [None] is the error. *)
Definition AddRenderSession (s : state) (a : nat) (id : string) : option state :=
  match sessions s !! id with
  | Some _ => None
  | None => Some {| sessions := <[id := a]> (sessions s);
                    heap := <[a := {| sa_id := id; sa_closes := 0; sa_readers := ∅; sa_writer := None |}]> (heap s);
                    threads := threads s |}
  end.

Definition SessionRegistered (s : state) (id : string) : bool := bool_decide (is_Some (sessions s !! id)).
Definition GetAllSessionIds (s : state) : gset string := dom (sessions s).
Definition SessionCount (s : state) : nat := size (sessions s).

(** The operations on the lock of a session; [None] when the thread has to wait. *)
Definition rlock (t : nat) (x : SessionAccess) : option SessionAccess :=
  match sa_writer x with
  | Some _ => None
  | None => Some {| sa_id := sa_id x; sa_closes := sa_closes x; sa_readers := {[t]} ∪ sa_readers x; sa_writer := None |}
  end.

Definition runlock (t : nat) (x : SessionAccess) : SessionAccess :=
  {| sa_id := sa_id x; sa_closes := sa_closes x; sa_readers := sa_readers x ∖ {[t]}; sa_writer := sa_writer x |}.

Definition lock (t : nat) (x : SessionAccess) : option SessionAccess :=
  match sa_writer x with
  | Some _ => None
  | None => if decide (sa_readers x = ∅)
            then Some {| sa_id := sa_id x; sa_closes := sa_closes x; sa_readers := ∅; sa_writer := Some t |}
            else None
  end.

Definition unlock (x : SessionAccess) : SessionAccess :=
  {| sa_id := sa_id x; sa_closes := sa_closes x; sa_readers := sa_readers x; sa_writer := None |}.

Definition session_close (x : SessionAccess) : SessionAccess :=
  {| sa_id := sa_id x; sa_closes := S (sa_closes x); sa_readers := sa_readers x; sa_writer := sa_writer x |}.

(** The steps. [GetSessionByID] is [get_lookup] then [get_lock], [CloseRenderSession] is
    [close_lookup], [close_lock], [close_call] and [close_delete]; a lookup that fails
    returns and leaves the thread idle. *)
Inductive step : state -> state -> Prop :=
| add_session s s' a id : heap s !! a = None -> AddRenderSession s a id = Some s' -> step s s'
| get_lookup s t id a : threads s t = Idle -> getRawSessionByID s id = Some a ->
    step s (with_heap s (heap s) t (Getting a))
| get_lock s t a x x' : threads s t = Getting a -> heap s !! a = Some x -> rlock t x = Some x' ->
    step s (with_heap s (<[a := x']> (heap s)) t (Using a))
| get_done s t a x : threads s t = Using a -> heap s !! a = Some x ->
    step s (with_heap s (<[a := runlock t x]> (heap s)) t Idle)
| close_lookup s t id a : threads s t = Idle -> getRawSessionByID s id = Some a ->
    step s (with_heap s (heap s) t (Closing id a))
| close_lock s t id a x x' : threads s t = Closing id a -> heap s !! a = Some x -> lock t x = Some x' ->
    step s (with_heap s (<[a := x']> (heap s)) t (Locked id a))
| close_call s t id a x : threads s t = Locked id a -> heap s !! a = Some x ->
    step s (with_heap s (<[a := session_close x]> (heap s)) t (Closed id a))
| close_delete s t id a x : threads s t = Closed id a -> heap s !! a = Some x ->
    step s {| sessions := delete id (sessions s); heap := <[a := unlock x]> (heap s);
              threads := goto t Idle (threads s) |}.

Definition reachable : state -> Prop := rtc step NewSessionStorage.

(** The address a thread refers to. *)
Definition target (p : pc) : option nat :=
  match p with
  | Idle => None
  | Getting a | Using a | Closing _ a | Locked _ a | Closed _ a => Some a
  end.

Definition is_reader (p : pc) (a : nat) : Prop := p = Using a.
Definition is_writer (p : pc) (a : nat) : Prop := exists id, p = Locked id a \/ p = Closed id a.

(** The locks record exactly the threads that are inside. *)
Record lock_inv (s : state) : Prop := {
  inv_sessions : forall id a, sessions s !! id = Some a -> is_Some (heap s !! a);
  inv_target : forall t a, target (threads s t) = Some a -> is_Some (heap s !! a);
  inv_readers : forall a x t, heap s !! a = Some x -> t ∈ sa_readers x <-> is_reader (threads s t) a;
  inv_writer : forall a x t, heap s !! a = Some x -> sa_writer x = Some t <-> is_writer (threads s t) a;
  inv_exclusive : forall a x t, heap s !! a = Some x -> sa_writer x = Some t -> sa_readers x = ∅
}.

Lemma goto_eq t p ths : goto t p ths t = p.
Proof. unfold goto. by rewrite decide_True. Qed.

Lemma goto_ne t u p ths : u <> t -> goto t p ths u = ths u.
Proof. intros. unfold goto. by rewrite decide_False. Qed.

Lemma rlock_Some t x x' : rlock t x = Some x' ->
  sa_writer x = None /\ sa_writer x' = None /\ sa_readers x' = {[t]} ∪ sa_readers x.
Proof. unfold rlock. destruct (sa_writer x); [done|]. by intros [= <-]. Qed.

Lemma lock_Some t x x' : lock t x = Some x' ->
  sa_writer x = None /\ sa_readers x = ∅ /\ sa_writer x' = Some t /\ sa_readers x' = ∅.
Proof. unfold lock. destruct (sa_writer x); [done|]. case_decide; [|done]. by intros [= <-]. Qed.

(** A step of thread [t] to [p] that changes the access at [a] from [x] to [y] keeps the
    invariant if [y] records [t] as [p] says, and the other threads as [x] did. *)
Lemma lock_inv_update s t p a x y ss :
  lock_inv s -> heap s !! a = Some x -> target (threads s t) = Some a -> (p = Idle \/ target p = Some a) ->
  (forall id b, ss !! id = Some b -> sessions s !! id = Some b) ->
  (forall u, u ∈ sa_readers y <-> if decide (u = t) then is_reader p a else u ∈ sa_readers x) ->
  (forall u, sa_writer y = Some u <-> if decide (u = t) then is_writer p a else sa_writer x = Some u) ->
  (forall u, sa_writer y = Some u -> sa_readers y = ∅) ->
  lock_inv {| sessions := ss; heap := <[a := y]> (heap s); threads := goto t p (threads s) |}.
Proof.
  intros [Hs Ht Hr Hw He] Hx Hta Hpa Hss HR HW HE.
  assert (forall b, is_Some (heap s !! b) -> is_Some (<[a := y]> (heap s) !! b)) as Hdom.
  { intros b ?. destruct (decide (b = a)) as [->|]; [by rewrite lookup_insert_eq|by rewrite lookup_insert_ne]. }
  assert (forall b z u, b <> a -> heap s !! b = Some z -> (is_reader (goto t p (threads s) u) b <-> is_reader (threads s u) b)
            /\ (is_writer (goto t p (threads s) u) b <-> is_writer (threads s u) b)) as Hother.
  { intros b z u Hb _. unfold goto. case_decide as Hu; [subst u|done]. unfold is_reader, is_writer.
    destruct p; cbn in Hpa; destruct (threads s t); cbn in Hta; naive_solver. }
  constructor; cbn.
  - intros id b ?%Hss. eauto.
  - intros u b. unfold goto. case_decide; [|eauto]. intros Hb. apply Hdom.
    destruct Hpa as [->|Hpa]; [done|]. rewrite Hb in Hpa. injection Hpa as ->. by eexists.
  - intros b z u Hz. destruct (decide (b = a)) as [->|Hb].
    + rewrite lookup_insert_eq in Hz. injection Hz as <-. rewrite HR. unfold goto. case_decide; [done|]. eauto.
    + rewrite lookup_insert_ne in Hz by done. rewrite (proj1 (Hother b z u Hb Hz)). eauto.
  - intros b z u Hz. destruct (decide (b = a)) as [->|Hb].
    + rewrite lookup_insert_eq in Hz. injection Hz as <-. rewrite HW. unfold goto. case_decide; [done|]. eauto.
    + rewrite lookup_insert_ne in Hz by done. rewrite (proj2 (Hother b z u Hb Hz)). eauto.
  - intros b z u Hz. destruct (decide (b = a)) as [->|Hb].
    + rewrite lookup_insert_eq in Hz. injection Hz as <-. eauto.
    + rewrite lookup_insert_ne in Hz by done. eauto.
Qed.

(** A thread that only moves from [Idle] to waiting. *)
Lemma lock_inv_wait s t p a : lock_inv s -> threads s t = Idle -> is_Some (heap s !! a) ->
  target p = Some a -> (forall b, ~ is_reader p b) -> (forall b, ~ is_writer p b) ->
  lock_inv (with_heap s (heap s) t p).
Proof.
  intros [Hs Ht Hr Hw He] Hidle Ha Hp Hnr Hnw. constructor; cbn; [done| | | |done].
  - intros u b. unfold goto. case_decide; [|eauto]. by intros ?; simplify_eq.
  - intros b z u Hz. rewrite Hr by done. unfold goto. case_decide as Hu; [subst u|done]. rewrite Hidle.
    split; [done|]. intros H. by apply Hnr in H.
  - intros b z u Hz. rewrite Hw by done. unfold goto. case_decide as Hu; [subst u|done]. rewrite Hidle.
    split; [by intros (id & [?|?])|]. intros H. by apply Hnw in H.
Qed.

Ltac not_inside := unfold is_reader, is_writer; naive_solver.

Lemma storage_step_inv s s' : lock_inv s -> step s s' -> lock_inv s'.
Proof.
  intros Hinv Hstep. pose proof Hinv as [Hs Ht Hr Hw He].
  destruct Hstep as [s s' a id Ha Hadd|s t id a Hp Hg|s t a x x' Hp Hx Hl|s t a x Hp Hx|s t id a Hp Hg
                    |s t id a x x' Hp Hx Hl|s t id a x Hp Hx|s t id a x Hp Hx].
  - unfold AddRenderSession in Hadd. destruct (sessions s !! id) eqn:Hid; [done|]. injection Hadd as <-.
    assert (forall u, target (threads s u) <> Some a) as Hna.
    { intros u Hu. apply Ht in Hu as [? ?]. congruence. }
    constructor; cbn.
    + intros i b. destruct (decide (i = id)) as [->|]; [rewrite lookup_insert_eq|rewrite lookup_insert_ne by done].
      * intros [= <-]. rewrite lookup_insert_eq. by eexists.
      * intros Hb%Hs. destruct (decide (b = a)) as [->|]; [rewrite lookup_insert_eq; by eexists|by rewrite lookup_insert_ne].
    + intros u b Hb. rewrite lookup_insert_ne; [eauto|]. intros ->. by apply Hna in Hb.
    + intros b z u Hz. destruct (decide (b = a)) as [->|]; [|rewrite lookup_insert_ne in Hz by done; eauto].
      rewrite lookup_insert_eq in Hz. injection Hz as <-. cbn. split; [set_solver|].
      intros Hu. destruct (Hna u). by rewrite Hu.
    + intros b z u Hz. destruct (decide (b = a)) as [->|]; [|rewrite lookup_insert_ne in Hz by done; eauto].
      rewrite lookup_insert_eq in Hz. injection Hz as <-. cbn. split; [done|].
      intros (i & [Hu|Hu]); destruct (Hna u); by rewrite Hu.
    + intros b z u Hz. destruct (decide (b = a)) as [->|]; [|rewrite lookup_insert_ne in Hz by done; eauto].
      rewrite lookup_insert_eq in Hz. by injection Hz as <-.
  - eapply lock_inv_wait; [done|done|by eapply Hs|done|not_inside..].
  - apply rlock_Some in Hl as (Hn & Hn' & Hr'). eapply lock_inv_update; [done..|by rewrite Hp|by right|done| | |].
    + intros u. rewrite Hr', elem_of_union, elem_of_singleton. case_decide; unfold is_reader; naive_solver.
    + intros u. rewrite Hn', Hn. case_decide; not_inside.
    + intros u. by rewrite Hn'.
  - eapply lock_inv_update; [done..|by rewrite Hp|by left|done| | |]; cbn.
    + intros u. rewrite elem_of_difference, elem_of_singleton. case_decide; unfold is_reader; naive_solver.
    + intros u. case_decide as Hu; [subst u|done]. rewrite Hw by done. rewrite Hp. not_inside.
    + intros u Hu. rewrite (He _ _ _ Hx Hu). set_solver.
  - eapply lock_inv_wait; [done|done|by eapply Hs|done|not_inside..].
  - apply lock_Some in Hl as (Hn & Hr0 & Hn' & Hr'). eapply lock_inv_update; [done..|by rewrite Hp|by right|done| | |].
    + intros u. rewrite Hr', Hr0. case_decide; unfold is_reader; set_solver.
    + intros u. rewrite Hn', Hn. case_decide; not_inside.
    + done.
  - eapply lock_inv_update; [done..|by rewrite Hp|by right|done| | |]; cbn.
    + intros u. case_decide as Hu; [subst u|done]. rewrite Hr by done. rewrite Hp. not_inside.
    + intros u. case_decide as Hu; [subst u|done]. rewrite Hw by done. rewrite Hp. not_inside.
    + eauto.
  - eapply lock_inv_update; [done..|by rewrite Hp|by left| | | |]; cbn.
    + intros i b. rewrite lookup_delete_Some. tauto.
    + intros u. case_decide as Hu; [subst u|done]. rewrite Hr by done. rewrite Hp. not_inside.
    + intros u. case_decide as Hu; [not_inside|]. split; [done|]. intros Hu'.
      assert (is_writer (threads s t) a) as Hwt by (rewrite Hp; exists id; by right).
      apply (Hw a x t Hx) in Hwt. congruence.
    + done.
Qed.

Lemma storage_reachable_inv s : reachable s -> lock_inv s.
Proof.
  unfold reachable. revert s. apply rtc_ind_r; [|intros x y _ ? ?; by eapply storage_step_inv].
  constructor; cbn; set_solver.
Qed.

(** The lock of a session keeps its promise: while one thread closes a session, no
    thread uses it and no other thread closes it, in every reachable state of the storage. *)
Theorem close_excludes_use s t a : reachable s -> is_writer (threads s t) a ->
  (forall u, ~ is_reader (threads s u) a) /\ (forall u, is_writer (threads s u) a -> u = t).
Proof.
  intros [Hs Ht Hr Hw He]%storage_reachable_inv Hwt.
  destruct (Ht t a) as [x Hx]; [destruct Hwt as (id & [->| ->]); done|].
  assert (sa_writer x = Some t) as Hxt by by apply (Hw a x t Hx).
  split.
  - intros u Hu%(Hr a x u Hx). rewrite (He _ _ _ Hx Hxt) in Hu. set_solver.
  - intros u Hu%(Hw a x u Hx). congruence.
Qed.

(** The storage cannot deadlock: whenever some thread is inside an operation, a thread
    inside an operation can take a step. *)
Theorem storage_progress s t : reachable s -> threads s t <> Idle ->
  exists u s', threads s u <> Idle /\ step s s' /\ threads s' u <> threads s u.
Proof.
  intros [Hs Ht Hr Hw He]%storage_reachable_inv Hbusy.
  assert (forall u a x, heap s !! a = Some x -> threads s u = Using a ->
    exists s', step s s' /\ threads s' u <> threads s u) as Hdone.
  { intros u a x Hx Hu. eexists. split; [by eapply get_done|]. cbn. by rewrite goto_eq, Hu. }
  assert (forall u a x, heap s !! a = Some x -> is_writer (threads s u) a ->
    exists s', step s s' /\ threads s' u <> threads s u) as Hwrite.
  { intros u a x Hx (id & [Hu|Hu]); eexists; (split; [by eauto using close_call, close_delete|]); cbn; by rewrite goto_eq, Hu. }
  assert (forall a, target (threads s t) = Some a -> exists x, heap s !! a = Some x) as Hta by (intros a ?; by apply Ht in H).
  destruct (threads s t) as [|a|a|id a|id a|id a] eqn:Hp; [done| | | | |]; destruct (Hta a eq_refl) as [x Hx].
  - destruct (sa_writer x) as [u|] eqn:Hwx.
    + apply (Hw a x u Hx) in Hwx. destruct (Hwrite u a x Hx Hwx) as (s' & ? & ?). exists u, s'.
      split; [|done]. destruct Hwx as (? & [->| ->]); done.
    + eexists t, _. split; [by rewrite Hp|]. split; [eapply get_lock; [done..|]; unfold rlock; by rewrite Hwx|].
      cbn. by rewrite goto_eq, Hp.
  - destruct (Hdone t a x Hx Hp) as (s' & ? & ?). exists t, s'. by rewrite Hp in *.
  - destruct (sa_writer x) as [u|] eqn:Hwx.
    + apply (Hw a x u Hx) in Hwx. destruct (Hwrite u a x Hx Hwx) as (s' & ? & ?). exists u, s'.
      split; [|done]. destruct Hwx as (? & [->| ->]); done.
    + destruct (set_choose_or_empty (sa_readers x)) as [[u Hu]|Hempty].
      * apply (Hr a x u Hx) in Hu. destruct (Hdone u a x Hx Hu) as (s' & ? & ?). exists u, s'. by rewrite Hu in *.
      * eexists t, _. split; [by rewrite Hp|].
        split; [eapply close_lock; [done..|]; unfold lock; rewrite Hwx, decide_True by set_solver; done|].
        cbn. by rewrite goto_eq, Hp.
  - destruct (Hwrite t a x Hx) as (s' & ? & ?); [rewrite Hp; by exists id; left|]. exists t, s'. by rewrite Hp in *.
  - destruct (Hwrite t a x Hx) as (s' & ? & ?); [rewrite Hp; by exists id; right|]. exists t, s'. by rewrite Hp in *.
Qed.

(** A storage with one session, and two threads that looked it up. *)
Definition one_session : state := default NewSessionStorage (AddRenderSession NewSessionStorage 0 "s1").

Lemma one_session_reachable : reachable one_session.
Proof. apply rtc_once. by apply (add_session _ _ 0 "s1"). Qed.

Lemma close_excludes_use_witness : exists s,
  (forall u, ~ is_reader (threads s u) 0) /\ (forall u, is_writer (threads s u) 0 -> u = 1%nat).
Proof.
  eexists. eapply close_excludes_use.
  - eapply rtc_r; [eapply rtc_r; [apply one_session_reachable|by apply (close_lookup _ 1 "s1" 0)]|].
    by eapply (close_lock _ 1 "s1" 0).
  - exists "s1". by left.
Defined.

Lemma storage_progress_witness : exists s u s',
  threads s u <> Idle /\ step s s' /\ threads s' u <> threads s u.
Proof.
  exists (with_heap one_session (heap one_session) 1 (Getting 0)). eapply (storage_progress _ 1).
  - eapply rtc_r; [apply one_session_reachable|by apply (get_lookup _ 1 "s1" 0)].
  - done.
Defined.

(** C40: looking a session up and locking it are separate, and neither operation looks
    again: a session can be used after it was closed and deleted, and closed twice. *)
Theorem use_after_close_and_double_close :
  (exists s x, reachable s /\ threads s 1 = Using 0 /\ heap s !! 0 = Some x /\ sa_closes x = 1 /\
     SessionRegistered s "s1" = false) /\
  (exists s x, reachable s /\ heap s !! 0 = Some x /\ sa_closes x = 2).
Proof.
  split.
  - do 2 eexists. split.
    + eapply rtc_r; [eapply rtc_r; [eapply rtc_r; [eapply rtc_r; [eapply rtc_r; [eapply rtc_r; [apply one_session_reachable|]|]|]|]|]|].
      * by apply (get_lookup _ 1 "s1" 0).
      * by apply (close_lookup _ 2 "s1" 0).
      * by eapply (close_lock _ 2 "s1" 0).
      * by eapply (close_call _ 2 "s1" 0).
      * by eapply (close_delete _ 2 "s1" 0).
      * by eapply (get_lock _ 1 0).
    + split_and!; [done|reflexivity..].
  - do 2 eexists. split.
    1: eapply rtc_r; [eapply rtc_r; [eapply rtc_r; [eapply rtc_r; [eapply rtc_r; [eapply rtc_r; [eapply rtc_r; [apply one_session_reachable|]|]|]|]|]|]|].
    + by apply (close_lookup _ 1 "s1" 0).
    + by apply (close_lookup _ 2 "s1" 0).
    + by eapply (close_lock _ 2 "s1" 0).
    + by eapply (close_call _ 2 "s1" 0).
    + by eapply (close_delete _ 2 "s1" 0).
    + by eapply (close_lock _ 1 "s1" 0).
    + by eapply (close_call _ 1 "s1" 0).
    + split; reflexivity.
Qed.
