(* ===== verification/Insights.v ===== *)
(** * Performix: summaries of runs

    Models [core/apap-engine/insights/summary.go] and [table_resolution.go] (a summary, the
    tables it reads and the byte limits of summarizers), with the parts that the summarizers
    share. A summarizer that is given a byte limit promises to keep it: the class
    [KeepsBudget], which every summarizer of the package is shown to satisfy. *)

From S2P Require Import Prelude.
From S2P Require Import GoStrings.
From S2P Require Import GoFloats.
From S2P Require Import Json.
From S2P Require Import RenderTables.

Local Open Scope Z_scope.

(** The messages of the package, by their codes and the metadata that vary. *)
Inductive insight_error :=
| RenderQueryFailed (summaryName : string)
| RunSummaryMarshalFailed
| InsufficientByteLimit (summaryName : string) (byteLimit : Z)
| RenderTableNotFound (summaryName : string) (componentTypes : list string)
| RunNotSuccessful (runID runResult : string)
| SummarizerNameMissing
| SummarizerNameDuplicated (name : string)
| BundleSizeExceeded (totalBytes limitBytes : Z)
| RenderFailed
(** no message: a recursion that does not end, an index out of range, and a division by zero *)
| RecursionUnbounded
| IndexOutOfRange
| DivisionByZero.

Record RunSummary := { s_Name : string; PromptFragment : string; Payload : string }.

Definition runSummarySizeBytes (s : RunSummary) : Z := len (s_Name s) + len (PromptFragment s) + len (Payload s).

(** [summarizer.Summarize(ctx, desc, session)], and the same with a byte limit. *)
Record UnbudgetedRunSummarizer (D S : Type) := { u_Name : string; u_Summarize : D -> S -> result insight_error RunSummary }.
Record BudgetedRunSummarizer (D S : Type) := { b_Name : string; b_Summarize : D -> S -> Z -> result insight_error RunSummary }.
Record BudgetedRunSummarizerConfig (D S : Type) := { summarizer : BudgetedRunSummarizer D S; Weight : Z }.
Arguments u_Name {D S}. Arguments u_Summarize {D S}.
Arguments b_Name {D S}. Arguments b_Summarize {D S}.
Arguments summarizer {D S}. Arguments Weight {D S}.

Record RecipeRunSummarizers (D S : Type) := {
  Unbudgeted : list (UnbudgetedRunSummarizer D S);
  Budgeted : list (BudgetedRunSummarizerConfig D S)
}.
Arguments Unbudgeted {D S}. Arguments Budgeted {D S}.

(** What a summarizer with a byte limit promises. *)
Class KeepsBudget {D S} (b : BudgetedRunSummarizer D S) : Prop :=
  keeps_budget desc session byteLimit s : b_Summarize b desc session byteLimit = Ok s ->
    s_Name s = b_Name b /\ runSummarySizeBytes s <= byteLimit.

Section Summaries.

Context (format_float32 : spec_float -> string).

Definition NewRunSummary (name promptFragment : string) (payload : json) : result insight_error RunSummary :=
  match Marshal format_float32 payload with
  | Some text => Ok {| s_Name := name; PromptFragment := promptFragment; Payload := text |}
  | None => Err RunSummaryMarshalFailed
  end.

Lemma NewRunSummary_Ok name fragment j s : NewRunSummary name fragment j = Ok s ->
  s_Name s = name /\ runSummarySizeBytes s = len name + len fragment + len (print format_float32 j) /\ printable j = true.
Proof.
  unfold NewRunSummary, Marshal. destruct (printable j); [|done]. intros [= <-]. done.
Qed.

End Summaries.

(** ** Rows of a query *)

(** The rows that [rows.Next] and [rows.Scan] give, [None] for a row that cannot be read, and
    whether the iteration ended with an error. *)
Record Rows (A : Type) := { scanned : list (option A); rows_err : bool }.
Arguments scanned {A}. Arguments rows_err {A}.

(** The loop that reads every row. *)
Definition read_rows {A} (summaryName : string) (rows : Rows A) : result insight_error (list A) :=
  match mapM id (scanned rows) with
  | None => Err (RenderQueryFailed summaryName)
  | Some l => if rows_err rows then Err (RenderQueryFailed summaryName) else Ok l
  end.

(** ** Tables *)

(** The parts of a render session that the summarizers read: the tables of every
    visualization and the manifest. *)
Record SessionTables := { widgetDataSources : option (gmap string TableRefMap); entries : Manifest }.

Definition lookup_refs (refs : TableRefMap) (name : string) : list TableRef :=
  match List.find (fun kv => bool_decide (kv.1 = name)) refs with Some kv => kv.2 | None => [] end.

(** The empty string when there is not exactly one table. *)
Definition singleTableRef (refs : TableRefMap) (name : string) : string :=
  match lookup_refs refs name with [t] => ref_name t | _ => EmptyString end.

Fixpoint single_table (entries : Manifest) (componentTypeName tableName' : string) : string :=
  match entries with
  | [] => tableName'
  | e :: rest =>
      if negb (bool_decide (ct_name (componentType (info e)) = componentTypeName)) then single_table rest componentTypeName tableName'
      else if negb (bool_decide (tableName' = EmptyString)) then EmptyString
      else single_table rest componentTypeName (tableName e)
  end.

Definition singleTableByComponentType (entries : Manifest) (componentTypeName : string) : string :=
  single_table entries componentTypeName EmptyString.

(** The fields are set by [lookup], and the names without a table are reported together. *)
Definition require_tables {T} (summaryName : string) (names : list string) (lookup : string -> string)
    (tables : (string -> string) -> T) : result insight_error T :=
  match filter (fun name => lookup name = EmptyString) names with
  | [] => Ok (tables lookup)
  | missing => Err (RenderTableNotFound summaryName missing)
  end.

Definition resolveSummaryTables {T} (session : SessionTables) (visualizationID summaryName : string) (names : list string)
    (tables : (string -> string) -> T) : result insight_error T :=
  let refs := match widgetDataSources session with Some sources => default [] (sources !! visualizationID) | None => [] end in
  require_tables summaryName names (singleTableRef refs) tables.

Definition resolveSummaryTablesByComponentType {T} (session : SessionTables) (summaryName : string) (names : list string)
    (tables : (string -> string) -> T) : result insight_error T :=
  require_tables summaryName names (singleTableByComponentType (entries session)) tables.

(** A component type has a table when exactly one entry of the manifest is of that type (and
    tables have names). *)
Lemma singleTableByComponentType_spec es name t : Forall (fun e => tableName e <> EmptyString) es ->
  t <> EmptyString ->
  singleTableByComponentType es name = t <->
  exists e, filter (fun e => ct_name (componentType (info e)) = name) es = [e] /\ tableName e = t.
Proof.
  intros Hes Ht. unfold singleTableByComponentType.
  assert (forall es, Forall (fun e => tableName e <> EmptyString) es -> forall t0, t0 <> EmptyString ->
    single_table es name t0 = if decide (filter (fun e => ct_name (componentType (info e)) = name) es = []) then t0 else EmptyString) as Hset.
  { clear. induction 1 as [|e es He _ IH]; intros t0 Ht0; cbn [single_table]; [by rewrite decide_True|]. rewrite filter_cons.
    case_bool_decide; cbn [negb]; [rewrite (decide_True (P := ct_name _ = name)) by done|rewrite (decide_False (P := ct_name _ = name)) by done; by apply IH].
    rewrite bool_decide_false by done. cbn [negb]. by rewrite decide_False. }
  induction Hes as [|e es He Hes IH]; cbn [single_table].
  { split; [intros <-; done|]. intros (e & He & _). done. }
  rewrite filter_cons. case_bool_decide; cbn [negb]; [rewrite decide_True by done|rewrite decide_False by done; apply IH].
  rewrite bool_decide_true by done. cbn [negb]. rewrite (Hset es Hes) by done. split.
  - destruct (decide _) as [Hn|]; [|by intros <-]. intros <-. exists e. by rewrite Hn.
  - intros (e' & [= <- Hn] & <-). by rewrite decide_True.
Qed.

(** ** Windows that fit a byte limit *)

Section Fitting.
Context {W : Type} (summary_of : list W -> result insight_error RunSummary) (byteLimit : Z).

(** The loop that appends one window after the other, and stops at the first that would
    exceed the limit. *)
Fixpoint fit_windows (kept rest : list W) : result insight_error (list W) :=
  match rest with
  | [] => Ok kept
  | window :: rest =>
      summary ← summary_of (kept ++ [window]);
      if byteLimit <? runSummarySizeBytes summary then Ok kept else fit_windows (kept ++ [window]) rest
  end.

Definition fits (windows : list W) : Prop := exists s, summary_of windows = Ok s /\ runSummarySizeBytes s <= byteLimit.

(** The longest prefix such that it and every prefix of it fits. *)
Lemma fit_windows_spec rest : forall kept r, fit_windows kept rest = Ok r ->
  exists taken dropped, rest = taken ++ dropped /\ r = kept ++ taken /\
    (forall p, p `prefix_of` taken -> p <> [] -> fits (kept ++ p)) /\
    (forall w d, dropped = w :: d -> ~ fits (r ++ [w])).
Proof.
  induction rest as [|w rest IH]; intros kept r; cbn [fit_windows].
  - intros [= <-]. exists [], []. split_and!; [done|by rewrite app_nil_r| |done]. by intros p Hp%prefix_nil_inv.
  - intros (s & Hs & H)%bind_Ok. destruct (Z.ltb_spec byteLimit (runSummarySizeBytes s)) as [Hl|Hl].
    + injection H as <-. exists [], (w :: rest). split_and!; [done|by rewrite app_nil_r|by intros p Hp%prefix_nil_inv|].
      intros ? ? [= <- <-] (s' & Hs' & ?). rewrite Hs in Hs'. injection Hs' as <-. lia.
    + destruct (IH _ _ H) as (taken & dropped & -> & -> & Hp & Hd). exists (w :: taken), dropped.
      split_and!; [done|by rewrite <- app_assoc| |done].
      intros p Hpre Hne. destruct p as [|x p]; [done|]. apply prefix_cons_inv_1 in Hpre as Hx. apply prefix_cons_inv_2 in Hpre. subst x.
      destruct (decide (p = [])) as [->|Hpn]; [by exists s|].
      rewrite cons_middle, app_assoc. by apply Hp.
Qed.

Lemma fit_windows_fits rest kept r : fit_windows kept rest = Ok r -> fits kept -> fits r.
Proof.
  intros (taken & dropped & -> & -> & Hp & _)%fit_windows_spec Hk.
  destruct (decide (taken = [])) as [->|]; [by rewrite app_nil_r|]. by apply Hp.
Qed.

End Fitting.
