(* ===== verification/HotFunctions.v ===== *)
(** * Performix: the hot functions of a run

    Models [core/apap-engine/insights/hot_functions.go]: the functions with the most samples, up
    to a share of the samples and a byte limit. *)

From S2P Require Import Prelude.
From S2P Require Import GoStrings.
From S2P Require Import GoFloats.
From S2P Require Import Json.
From S2P Require Import RenderTables.
From S2P Require Import Insights.

Local Open Scope Z_scope.

Definition hotFunctionsSummaryName : string := "hot_functions".
Definition hotFunctionsCoverageThresholdPercent : spec_float := float32 99.

Record hotFunction := {
  FunctionName : string; ImageName : string; SelfSamples : Z; SelfPercent : spec_float;
  SourceFile : option string; FirstSourceLine : option Z; LastSourceLine : option Z
}.

Record hotFunctionsPayload := { TotalSamples : Z; Functions : list hotFunction }.

Record hotFunctionRow := {
  selfSamples : spec_float; functionName : string; imageName : string; sourceFile : option string;
  firstSourceLine : option Z; lastSourceLine : option Z; totalSamples : spec_float; selfPercent : option spec_float
}.

Record hotFunctionsTables := { drilldown : string; symbols : string; images : string; sourceFiles : string }.

(** A field with [omitempty] on a pointer. *)
Definition optional (key : string) (v : option json) : list (string * json) :=
  match v with Some j => [(key, j)] | None => [] end.

Definition hotFunction_json (f : hotFunction) : json :=
  JObject ([("fn", JString (FunctionName f)); ("img", JString (ImageName f)); ("s", JInt (SelfSamples f)); ("pct", JFloat32 (SelfPercent f))] ++
           optional "file" (JString <$> SourceFile f) ++ optional "first" (JInt <$> FirstSourceLine f) ++
           optional "last" (JInt <$> LastSourceLine f)).

Definition payload_json (p : hotFunctionsPayload) : json :=
  JObject [("totalSamples", JInt (TotalSamples p)); ("functions", JArray (hotFunction_json <$> Functions p))].

Section HotFunctions.

(** [strconv.AppendFloat], the conversion of a float outside the range of [uint64], and the
    prompt of the summary. *)
Context (format_float32 : spec_float -> string) (out_of_range : spec_float -> Z) (hotFunctionsPromptFragment : string).

Definition summary_of (p : hotFunctionsPayload) : result insight_error RunSummary :=
  NewRunSummary format_float32 hotFunctionsSummaryName hotFunctionsPromptFragment (payload_json p).

Definition bytesRemainingForEmptyFunctionArray (total byteLimit : Z) : result insight_error Z :=
  emptySummary ← summary_of {| TotalSamples := total; Functions := [] |};
  let bytesRemaining := byteLimit - runSummarySizeBytes emptySummary in
  if bytesRemaining <? 0 then Err (InsufficientByteLimit hotFunctionsSummaryName byteLimit) else Ok bytesRemaining.

Definition bytesRemainingAfterFunction (fn : hotFunction) (currentBytesRemaining : Z) (needsSeparator : bool) : result insight_error Z :=
  match Marshal format_float32 (hotFunction_json fn) with
  | None => Err RunSummaryMarshalFailed
  | Some functionJSON => Ok (currentBytesRemaining - len functionJSON - (if needsSeparator then 1 else 0))
  end.

(** An empty source file counts as none. *)
Definition function_of (row : hotFunctionRow) : hotFunction := {|
  FunctionName := functionName row; ImageName := imageName row; SelfSamples := uint64_of out_of_range (selfSamples row);
  SelfPercent := default (S754_zero false) (selfPercent row);
  SourceFile := match sourceFile row with Some s => if bool_decide (s = EmptyString) then None else Some s | None => None end;
  FirstSourceLine := firstSourceLine row; LastSourceLine := lastSourceLine row |}.

(** The loop after the first row was processed. *)
Fixpoint hot_loop (rows : list (option hotFunctionRow)) (err : bool) (total bytesRemaining : Z) (cumulative : spec_float)
    (functions : list hotFunction) : result insight_error hotFunctionsPayload :=
  match rows with
  | [] => if err then Err (RenderQueryFailed hotFunctionsSummaryName) else Ok {| TotalSamples := total; Functions := functions |}
  | None :: _ => Err (RenderQueryFailed hotFunctionsSummaryName)
  | Some row :: rest =>
      let fn := function_of row in
      next ← bytesRemainingAfterFunction fn bytesRemaining (negb (bool_decide (functions = [])));
      if next <? 0 then Ok {| TotalSamples := total; Functions := functions |}
      else
        let cumulative := add32 cumulative (SelfPercent fn) in
        if float_ge cumulative hotFunctionsCoverageThresholdPercent
        then Ok {| TotalSamples := total; Functions := functions ++ [fn] |}
        else hot_loop rest err total next cumulative (functions ++ [fn])
  end.

(** The first row sets the total and the bytes that are left. *)
Definition collectHotFunctions (rows : Rows hotFunctionRow) (byteLimit : Z) : result insight_error hotFunctionsPayload :=
  match scanned rows with
  | Some row :: _ =>
      let total := uint64_of out_of_range (totalSamples row) in
      bytesRemaining ← bytesRemainingForEmptyFunctionArray total byteLimit;
      hot_loop (scanned rows) (rows_err rows) total bytesRemaining (S754_zero false) []
  | None :: _ => Err (RenderQueryFailed hotFunctionsSummaryName)
  | [] =>
      if rows_err rows then Err (RenderQueryFailed hotFunctionsSummaryName)
      else
        _ ← bytesRemainingForEmptyFunctionArray 0 byteLimit;
        Ok {| TotalSamples := 0; Functions := [] |}
  end.

Definition resolveHotFunctionsTables (session : SessionTables) : result insight_error hotFunctionsTables :=
  resolveSummaryTables session "functions" hotFunctionsSummaryName ["flatFunctions"; "symbols"; "images"; "source_files"]
    (fun t => {| drilldown := t "flatFunctions"; symbols := t "symbols"; images := t "images"; sourceFiles := t "source_files" |}).

(** [query] runs the query over the tables; [None] is its error. *)
Definition SummarizeHotFunctions {D} (query : hotFunctionsTables -> option (Rows hotFunctionRow)) (desc : D) (session : SessionTables)
    (byteLimit : Z) : result insight_error RunSummary :=
  tables ← resolveHotFunctionsTables session;
  match query tables with
  | None => Err (RenderQueryFailed hotFunctionsSummaryName)
  | Some rows =>
      payload ← collectHotFunctions rows byteLimit;
      summary_of payload
  end.

Definition HotFunctionsSummarizer {D} query : BudgetedRunSummarizer D SessionTables :=
  {| b_Name := hotFunctionsSummaryName; b_Summarize := SummarizeHotFunctions query |}.

(** ** The byte limit *)

Definition size_of (p : hotFunctionsPayload) : Z :=
  len hotFunctionsSummaryName + len hotFunctionsPromptFragment + len (print format_float32 (payload_json p)).

Lemma summary_of_size p s : summary_of p = Ok s -> s_Name s = hotFunctionsSummaryName /\ runSummarySizeBytes s = size_of p.
Proof. by intros (? & ? & _)%NewRunSummary_Ok. Qed.

(** Appending a function adds its text and a separator. *)
Lemma size_of_snoc total fs f :
  size_of {| TotalSamples := total; Functions := fs ++ [f] |} =
  size_of {| TotalSamples := total; Functions := fs |} + len (print format_float32 (hotFunction_json f)) +
  (if bool_decide (fs = []) then 0 else 1).
Proof.
  unfold size_of, payload_json. rewrite !len_object. cbn [Functions TotalSamples fmap list_fmap]. unfold field_text. cbn [fst snd].
  unfold joined_len. cbn [foldr length]. rewrite fmap_app. cbn [fmap list_fmap]. rewrite !len_app, len_array_snoc.
  assert (bool_decide (hotFunction_json <$> fs = []) = bool_decide (fs = [])) as -> by (apply bool_decide_ext, fmap_nil_iff).
  lia.
Qed.

Definition functions_of (rows : list (option hotFunctionRow)) : list hotFunction := function_of <$> omap id rows.

(** The share of the samples, as the loop adds it up. *)
Definition coverage (fs : list hotFunction) : spec_float := foldl (fun c f => add32 c (SelfPercent f)) (S754_zero false) fs.

Definition covered (fs : list hotFunction) : bool := float_ge (coverage fs) hotFunctionsCoverageThresholdPercent.

(** What the loop returns. *)
Definition hot_prefix (all : list hotFunction) (byteLimit : Z) (p : hotFunctionsPayload) : Prop :=
  Functions p `prefix_of` all /\ size_of p <= byteLimit /\
  (forall k, (k < length (Functions p))%nat -> (0 < k)%nat -> covered (take k (Functions p)) = false) /\
  (Functions p = all \/ (Functions p <> [] /\ covered (Functions p) = true) \/
   exists f, Functions p ++ [f] `prefix_of` all /\ byteLimit < size_of {| TotalSamples := TotalSamples p; Functions := Functions p ++ [f] |}).

Lemma bytesRemaining_empty total limit r : bytesRemainingForEmptyFunctionArray total limit = Ok r ->
  r = limit - size_of {| TotalSamples := total; Functions := [] |} /\ 0 <= r.
Proof.
  unfold bytesRemainingForEmptyFunctionArray. intros (s & [_ Hs]%summary_of_size & H)%bind_Ok.
  destruct (Z.ltb_spec (limit - runSummarySizeBytes s) 0); [done|]. injection H as <-. rewrite Hs in *. lia.
Qed.

Lemma hot_loop_spec limit rows err total : forall rem fs p,
  rem = limit - size_of {| TotalSamples := total; Functions := fs |} -> 0 <= rem ->
  (forall k, (0 < k <= length fs)%nat -> covered (take k fs) = false) ->
  hot_loop rows err total rem (coverage fs) fs = Ok p -> hot_prefix (fs ++ functions_of rows) limit p /\ TotalSamples p = total.
Proof.
  induction rows as [|[row|] rows IH]; intros rem fs p Hrem Hpos Hcov; cbn [hot_loop]; [| |done].
  - destruct err; [done|]. intros [= <-]. cbn. rewrite app_nil_r. split; [|done].
    split_and!; [done|lia| |by left]. intros k ? ?. apply Hcov. cbn in *. lia.
  - intros (next & Hn & H)%bind_Ok. unfold bytesRemainingAfterFunction, Marshal in Hn. destruct (printable _); [|done].
    pose proof (size_of_snoc total fs (function_of row)) as Hsize. cbn in Hsize.
    assert (next = limit - size_of {| TotalSamples := total; Functions := fs ++ [function_of row] |}) as Hnext.
    { injection Hn as <-. rewrite Hsize. destruct (bool_decide (fs = [])); cbn [negb]; lia. }
    change (functions_of (Some row :: rows)) with (function_of row :: functions_of rows).
    assert (fs ++ function_of row :: functions_of rows = (fs ++ [function_of row]) ++ functions_of rows) as Happ by (by rewrite <- app_assoc).
    assert (coverage (fs ++ [function_of row]) = add32 (coverage fs) (SelfPercent (function_of row))) as Hc
      by (unfold coverage; by rewrite foldl_app).
    destruct (Z.ltb_spec next 0) as [Hneg|Hneg]; [|destruct (float_ge _ _) eqn:Hge].
    + injection H as <-. cbn. split; [|done]. split_and!; [by eexists|cbn; lia| |].
      * intros k ? ?. apply Hcov. cbn in *. lia.
      * right; right. exists (function_of row). rewrite Happ. split; [by eexists|cbn; lia].
    + injection H as <-. cbn. split; [|done]. split_and!; [rewrite Happ; by eexists|cbn; lia| |].
      * intros k Hk ?. cbn [Functions] in *. rewrite length_app in Hk. cbn in Hk. rewrite take_app_le by lia. apply Hcov. lia.
      * right; left. cbn [Functions]. split; [by destruct fs|]. unfold covered. by rewrite Hc.
    + rewrite Happ. rewrite <- Hc in H. apply (IH next (fs ++ [function_of row])); [done|lia| |done].
      intros k Hk. rewrite length_app in Hk. cbn in Hk. destruct (decide (k <= length fs)%nat) as [Hle|Hgt].
      * rewrite take_app_le by lia. apply Hcov. lia.
      * rewrite take_ge by (rewrite length_app; cbn; lia). unfold covered. by rewrite Hc.
Qed.

Lemma collectHotFunctions_spec rows limit p : collectHotFunctions rows limit = Ok p ->
  hot_prefix (functions_of (scanned rows)) limit p.
Proof.
  unfold collectHotFunctions. destruct (scanned rows) as [|[row|] rest] eqn:Hrows; [| |done].
  - destruct (rows_err rows); [done|]. intros (r & [-> Hr]%bytesRemaining_empty & [= <-])%bind_Ok. split_and!; cbn; [done|lia| |by left].
    intros k ?. cbn in *. lia.
  - intros (r & [Heq Hr]%bytesRemaining_empty & H)%bind_Ok.
    apply (hot_loop_spec limit _ _ _ r []) in H as [H _]; [done|done|done|]. intros k [? ?]. cbn in *. lia.
Qed.

#[export] Instance HotFunctions_keeps_budget {D} query : KeepsBudget (@HotFunctionsSummarizer D query).
Proof.
  intros desc session limit s. cbn. unfold SummarizeHotFunctions. intros (tables & _ & H)%bind_Ok.
  destruct (query tables) as [rows|]; [|done]. apply bind_Ok in H as (p & (_ & Hsize & _)%collectHotFunctions_spec & [-> ->]%summary_of_size).
  done.
Qed.

(** The summary of hot functions lists a prefix of the functions in the order of the query,
    stays within the byte limit, and stops at the first prefix whose added percentages reach
    the threshold, at a function that would exceed the limit, or at the end. *)
Theorem hot_functions_prefix {D} query (desc : D) session limit s
    (Hs : SummarizeHotFunctions query desc session limit = Ok s) :
  exists tables rows p, resolveHotFunctionsTables session = Ok tables /\ query tables = Some rows /\
    hot_prefix (functions_of (scanned rows)) limit p /\ summary_of p = Ok s /\ runSummarySizeBytes s <= limit.
Proof.
  unfold SummarizeHotFunctions in Hs. apply bind_Ok in Hs as (tables & Ht & H).
  destruct (query tables) as [rows|] eqn:Hq; [|done]. apply bind_Ok in H as (p & Hp%collectHotFunctions_spec & Hs).
  exists tables, rows, p. split_and!; [done..|]. apply summary_of_size in Hs as [_ ->]. apply Hp.
Qed.

End HotFunctions.

Definition sample_session : SessionTables :=
  {| widgetDataSources := Some {["functions" := (fun n => (n, [{| ref_name := "t_" +:+ n; ref_pending := false |}])) <$>
                                                ["flatFunctions"; "symbols"; "images"; "source_files"]]};
     entries := [] |}.

Definition sample_row (name : string) (samples : Z) : option hotFunctionRow :=
  Some {| selfSamples := float64 samples; functionName := name; imageName := "a.out"; sourceFile := Some "a.c"; firstSourceLine := Some 3;
          lastSourceLine := None; totalSamples := float64 100; selfPercent := Some (float32 samples) |}.

Definition sample_query (t : hotFunctionsTables) : option (Rows hotFunctionRow) :=
  Some {| scanned := [sample_row "f" 60; sample_row "g" 39; sample_row "h" 1]; rows_err := false |}.

(** The third function is not listed: the first two cover 99 percent. *)
Example hot_functions_sample : (fmap (fun p => FunctionName <$> Functions p)
  (collectHotFunctions (fun _ => "60") (fun _ => 0) EmptyString {| scanned := [sample_row "f" 60; sample_row "g" 39; sample_row "h" 1]; rows_err := false |} 400)) =
  Ok ["f"; "g"].
Proof. vm_compute. reflexivity. Qed.

Lemma hot_functions_prefix_witness :
  exists s, SummarizeHotFunctions (fun _ => "60") (fun _ => 0) EmptyString sample_query tt sample_session 120 = Ok s /\ runSummarySizeBytes s <= 120.
Proof.
  destruct (SummarizeHotFunctions (fun _ => "60") (fun _ => 0) EmptyString sample_query tt sample_session 120) as [s|e] eqn:Hs.
  - exists s. split; [done|]. destruct (hot_functions_prefix _ _ _ _ _ _ _ _ Hs) as (? & ? & ? & _ & _ & _ & _ & Hle). exact Hle.
  - vm_compute in Hs. discriminate.
Defined.
