(* ===== verification/CallTree.v ===== *)
(** * Performix: the call tree of a run

    Models [core/apap-engine/insights/call_tree.go]: the hottest paths of the call tree in
    depth-first order, cut to a byte limit. The recursion takes the number of nodes plus one as
    fuel, enough when the identifiers of the nodes are unique and none is the structural
    root: on a path from the root every node is new. *)

From S2P Require Import Prelude.
From S2P Require Import GoStrings.
From S2P Require Import GoFloats.
From S2P Require Import Json.
From S2P Require Import Sorting.
From S2P Require Import RenderTables.
From S2P Require Import Insights.

Local Open Scope Z_scope.

Definition callTreeSummaryName : string := "call_tree".
Definition callTreeStructuralRootID : Z := 0.

Record callTreePayloadNode := {
  ID : Z; ParentID : Z; Depth : Z; FunctionName : string; ImageName : string; SelfSamples : Z; TotalSamples : Z;
  SelfPercent : spec_float; TotalPercent : spec_float; ChildIDs : list Z; SourceFile : option string
}.

Record callTreePayload := { TotalSelfSamples : Z; TotalNodes : Z; RootIDs : list Z; Nodes : list callTreePayloadNode }.

Record callTreeNode := {
  callTreeID : Z; callTreeParentID : Z; depth : Z; functionName : string; imageName : string; sourceFile : option string;
  selfSamples : Z; totalSamples : Z
}.

Record callTreeRow := {
  r_callTreeID : Z; r_callTreeParentID : Z; r_functionName : string; r_imageName : string; r_sourceFile : option string;
  r_selfSamples : spec_float; r_totalSamples : spec_float
}.

Record callTreeTables := { drilldown : string; symbols : string; images : string; sourceFiles : string }.

Definition with_depth (n : callTreeNode) (d : Z) : callTreeNode :=
  {| callTreeID := callTreeID n; callTreeParentID := callTreeParentID n; depth := d; functionName := functionName n;
     imageName := imageName n; sourceFile := sourceFile n; selfSamples := selfSamples n; totalSamples := totalSamples n |}.

Definition node_json (n : callTreePayloadNode) : json :=
  JObject ([("id", JInt (ID n)); ("pid", JInt (ParentID n)); ("d", JInt (Depth n)); ("fn", JString (FunctionName n));
            ("img", JString (ImageName n)); ("s", JInt (SelfSamples n)); ("t", JInt (TotalSamples n));
            ("spct", JFloat32 (SelfPercent n)); ("tpct", JFloat32 (TotalPercent n))] ++
           (if bool_decide (ChildIDs n = []) then [] else [("c", JArray (JInt <$> ChildIDs n))]) ++
           match SourceFile n with Some f => [("file", JString f)] | None => [] end).

Definition payload_json (p : callTreePayload) : json :=
  JObject [("ts", JInt (TotalSelfSamples p)); ("n", JInt (TotalNodes p)); ("roots", JArray (JInt <$> RootIDs p));
           ("nodes", JArray (node_json <$> Nodes p))].

(** ** The tree *)

Definition sumCallTreeSelfSamples (nodes : list callTreeNode) : Z :=
  foldl (fun total n => wrap_uint64 (total + selfSamples n)) 0 nodes.

(** A later node with the same identifier takes the place of an earlier one. *)
Definition node_by_id (nodes : list callTreeNode) : gmap Z callTreeNode :=
  foldl (fun m n => <[callTreeID n := n]> m) ∅ nodes.

Definition children_of (nodes : list callTreeNode) (parent : Z) : list Z :=
  callTreeID <$> filter (fun n => callTreeParentID n = parent) nodes.

(** Total samples, self samples, function name, then node identifier. *)
Definition hotness : callTreeNode -> callTreeNode -> comparison :=
  then_by (desc totalSamples) (then_by (desc selfSamples) (asc_string functionName)).

Definition hotter : callTreeNode -> callTreeNode -> comparison := then_by hotness (asc callTreeID).

Definition zero_node : callTreeNode :=
  {| callTreeID := 0; callTreeParentID := 0; depth := 0; functionName := EmptyString; imageName := EmptyString; sourceFile := None;
     selfSamples := 0; totalSamples := 0 |}.

(** The comparison of identifiers looks their nodes up. *)
Definition hotter_id (byID : gmap Z callTreeNode) : Z -> Z -> comparison :=
  then_by (fun a b => hotness (default zero_node (byID !! a)) (default zero_node (byID !! b))) (asc id).

Section Tree.

Context (sort : forall A : Type, (A -> A -> comparison) -> list A -> list A).

Definition sortCallTreeIDsByHotness (ids : list Z) (byID : gmap Z callTreeNode) : list Z := sort Z (hotter_id byID) ids.

(** [appendDepthFirst]; [None] is a recursion deeper than the fuel. *)
Fixpoint appendDepthFirst (fuel : nat) (nodes : list callTreeNode) (cutoff : spec_float) (id depth : Z) : option (list callTreeNode) :=
  match fuel with
  | O => None
  | S fuel =>
      let node := default zero_node (node_by_id nodes !! id) in
      if float_le (float64 (totalSamples node)) cutoff then Some []
      else
        below ← mapM (fun child => appendDepthFirst fuel nodes cutoff child (wrap_uint32 (depth + 1)))
                  (sortCallTreeIDsByHotness (children_of nodes id) (node_by_id nodes));
        Some (with_depth node depth :: mjoin below)
  end.

Definition cutoff_of (totalSelfSamples : Z) : spec_float := percent_of totalSelfSamples 1.

Definition buildCallTree (nodes : list callTreeNode) (totalSelfSamples : Z) : option (list callTreeNode) :=
  let rootIDs := sortCallTreeIDsByHotness (children_of nodes callTreeStructuralRootID) (node_by_id nodes) in
  mjoin <$> mapM (fun rootID => appendDepthFirst (S (length nodes)) nodes (cutoff_of totalSelfSamples) rootID 0) rootIDs.

End Tree.

(** ** The payload *)

(** [100.0 * float32(samples) / float32(total)] *)
Definition percent32 (samples total : Z) : spec_float := div32 (mul32 (float32 100) (float32 samples)) (float32 total).

Definition payload_node (children : Z -> list Z) (totalSelfSamples : Z) (n : callTreeNode) : callTreePayloadNode := {|
  ID := callTreeID n; ParentID := if depth n =? 0 then -1 else callTreeParentID n; Depth := depth n;
  FunctionName := functionName n; ImageName := imageName n; SelfSamples := selfSamples n; TotalSamples := totalSamples n;
  SelfPercent := if totalSelfSamples =? 0 then S754_zero false else percent32 (selfSamples n) totalSelfSamples;
  TotalPercent := if totalSelfSamples =? 0 then S754_zero false else percent32 (totalSamples n) totalSelfSamples;
  ChildIDs := children (callTreeID n); SourceFile := sourceFile n |}.

(** The identifiers of the nodes below the roots that have the given parent. *)
Definition kept_children (kept : list callTreeNode) (parent : Z) : list Z :=
  callTreeID <$> filter (fun n => 0 < depth n /\ callTreeParentID n = parent) kept.

Definition buildPayloadForNodeLimit (callTree : list callTreeNode) (nodeLimit : nat) (totalSelfSamples numNodes : Z) : callTreePayload :=
  let kept := take nodeLimit callTree in
  {| TotalSelfSamples := totalSelfSamples; TotalNodes := numNodes;
     RootIDs := callTreeID <$> filter (fun n => depth n = 0) kept;
     Nodes := payload_node (kept_children kept) totalSelfSamples <$> kept |}.

(** ** Depth-first order *)

#[export] Instance hotness_order : Order hotness.
Proof. apply _. Qed.

#[export] Instance hotter_order : Order hotter.
Proof. apply _. Qed.

#[export] Instance key_order {A B} (f : A -> B) (c : B -> B -> comparison) `{Order B c} : Order (fun a b => c (f a) (f b)).
Proof. split; intros *; [apply order_opp|]. unfold not_after. apply (order_trans (c := c)). Qed.

#[export] Instance hotter_id_order byID : Order (hotter_id byID).
Proof. apply then_by_order; apply _. Qed.

Section DepthFirst.

Context (nodes : list callTreeNode) (cutoff : spec_float).

Definition hot (n : callTreeNode) : Prop := float_le (float64 (totalSamples n)) cutoff = false.

(** The nodes above the cutoff with the given parent, the hottest first. *)
Definition siblings (parent : Z) (kids : list callTreeNode) : Prop :=
  StronglySorted (not_after hotter) kids /\ NoDup kids /\
  forall n, n ∈ kids <-> n ∈ nodes /\ callTreeParentID n = parent /\ hot n.

(** [listing d kids l]: the siblings [kids] at depth [d] in depth-first order, each followed by
    all that is below it. *)
Inductive listing : nat -> list callTreeNode -> list callTreeNode -> Prop :=
| listing_nil d : listing d [] []
| listing_cons d n kids below sub rest : siblings (callTreeID n) below -> listing (S d) below sub -> listing d kids rest ->
    listing d (n :: kids) (with_depth n (Z.of_nat d) :: sub ++ rest).

(** The level of a node below the structural root. *)
Inductive at_depth : callTreeNode -> nat -> Prop :=
| at_root n : n ∈ nodes -> callTreeParentID n = callTreeStructuralRootID -> at_depth n 0
| at_child n p d : at_depth p d -> n ∈ nodes -> callTreeParentID n = callTreeID p -> at_depth n (S d).

Lemma at_depth_node n d : at_depth n d -> n ∈ nodes.
Proof. by destruct 1. Qed.

(** Identifiers are unique, and none is that of the structural root. *)
Context (Hunique : NoDup (callTreeID <$> nodes)) (Hroot : callTreeStructuralRootID ∉ callTreeID <$> nodes).

Lemma id_inj n m : n ∈ nodes -> m ∈ nodes -> callTreeID n = callTreeID m -> n = m.
Proof.
  clear Hroot cutoff. induction nodes as [|x l IH]; [by intros ?%elem_of_nil|]. cbn in Hunique. apply NoDup_cons in Hunique as [Hx Hl].
  intros [->|Hn]%elem_of_cons [->|Hm]%elem_of_cons Heq; [done| | |by apply IH].
  - exfalso. apply Hx. rewrite Heq. by apply list_elem_of_fmap_2.
  - exfalso. apply Hx. rewrite <- Heq. by apply list_elem_of_fmap_2.
Qed.

Lemma node_by_id_spec i n : node_by_id nodes !! i = Some n <-> n ∈ nodes /\ callTreeID n = i.
Proof.
  unfold node_by_id. clear Hroot cutoff. revert i n.
  induction nodes as [|x l IH] using rev_ind; intros i n; [cbn; rewrite lookup_empty; split; [done|by intros [?%elem_of_nil _]]|].
  rewrite foldl_app. cbn [foldl]. rewrite fmap_app, NoDup_app in Hunique. destruct Hunique as (Hl & Hd & _).
  destruct (decide (i = callTreeID x)) as [->|Hne].
  - rewrite lookup_insert_eq. split; [intros [= <-]; split; [|done]; apply elem_of_app; right; by left|].
    intros [[Hn|Hn]%elem_of_app Heq]; [|by apply list_elem_of_singleton in Hn as ->]. exfalso.
    apply (Hd (callTreeID n)); [by apply list_elem_of_fmap_2|]. rewrite Heq. cbn. left.
  - rewrite lookup_insert_ne by done. rewrite IH by done. rewrite elem_of_app, list_elem_of_singleton. naive_solver.
Qed.

Lemma node_by_id_of n : n ∈ nodes -> default zero_node (node_by_id nodes !! callTreeID n) = n.
Proof. intros Hn. by rewrite (proj2 (node_by_id_spec _ n)) by done. Qed.

Lemma parent_not_root n p : p ∈ nodes -> callTreeParentID n = callTreeID p -> callTreeParentID n <> callTreeStructuralRootID.
Proof. intros Hp Heq Hr. apply Hroot. rewrite <- Hr, Heq. by apply list_elem_of_fmap_2. Qed.

Lemma at_depth_unique n d : at_depth n d -> forall d', at_depth n d' -> d = d'.
Proof.
  induction 1 as [n Hn Hp|n p d Hp IH Hn Heq]; intros d'; inversion 1 as [|? p' d'' Hp' ? Heq']; subst; [done| | |].
  - exfalso. by apply (parent_not_root n p'); [eapply at_depth_node|..].
  - exfalso. by apply (parent_not_root n p); [eapply at_depth_node|..].
  - f_equal. apply IH. assert (p = p') as -> by (apply id_inj; [by eapply at_depth_node..|congruence]). done.
Qed.

(** On the way to the root every node is new. *)
Lemma at_depth_bound n d : at_depth n d -> (d < length nodes)%nat.
Proof.
  intros Hd. assert (exists path, length path = S d /\ forall k p, path !! k = Some p -> at_depth p k) as (path & Hlen & Hpath).
  { induction Hd as [n Hn Hp|n p d Hp (path & Hlen & Hpath) Hn Heq].
    - exists [n]. split; [done|]. intros k p [-> <-]%list_lookup_singleton_Some. by apply at_root.
    - exists (path ++ [n]). split; [rewrite length_app; cbn; lia|]. intros k q [?|[? Hq]]%lookup_app_Some; [by apply Hpath|].
      apply list_lookup_singleton_Some in Hq as [Hk <-]. assert (k = S d) as -> by lia. by eapply at_child. }
  assert (NoDup path) as Hnd.
  { apply NoDup_alt. intros i j x Hi Hj. eapply at_depth_unique; [by apply Hpath|by apply Hpath]. }
  assert (path ⊆+ nodes) as Hsub%submseteq_length; [|lia].
  apply NoDup_submseteq; [done|]. intros x [k Hk]%list_elem_of_lookup_1. by eapply at_depth_node, Hpath.
Qed.

(** [under n m k]: the node [m] is [k] levels below [n]. *)
Inductive under (n : callTreeNode) : callTreeNode -> nat -> Prop :=
| under_refl : under n n 0
| under_step m x k : under n m k -> m ∈ nodes -> x ∈ nodes -> callTreeParentID x = callTreeID m -> under n x (S k).

Lemma under_cons n m x k : n ∈ nodes -> m ∈ nodes -> callTreeParentID m = callTreeID n -> under m x k -> under n x (S k).
Proof. intros Hn Hm Hp. induction 1; [by eapply under_step; [constructor|..]|by eapply under_step]. Qed.

Lemma under_inj n m k : under n m k -> forall n', under n' m k -> n = n'.
Proof.
  induction 1 as [|m x k Hu IH Hm Hx Hp]; intros n'; inversion 1 as [|m' ? ? Hu' Hm' ? Hp']; subst; [done|].
  apply IH. assert (m = m') as -> by (apply id_inj; [done..|congruence]). done.
Qed.

Lemma under_at_depth n m k d : at_depth n d -> under n m k -> at_depth m (d + k).
Proof.
  intros Hn. induction 1 as [|m x k Hu IH Hm Hx Hp]; [by rewrite Nat.add_0_r|].
  rewrite Nat.add_succ_r. by eapply at_child.
Qed.

(** What a listing contains: nodes below its siblings, with their depths. *)
Lemma listing_elements d kids l : listing d kids l -> Forall (fun n => at_depth n d) kids -> forall x, x ∈ l ->
  exists n m k, n ∈ kids /\ under n m k /\ at_depth m (d + k) /\ x = with_depth m (Z.of_nat (d + k)).
Proof.
  induction 1 as [d|d n kids below sub rest (_ & _ & Hb) Hsub IHsub Hrest IHrest]; [by intros _ x ?%elem_of_nil|].
  intros [Hn Hkids]%Forall_cons x [->|[Hx|Hx]%elem_of_app]%elem_of_cons.
  - exists n, n, 0%nat. rewrite Nat.add_0_r. split_and!; [left|constructor|done|done].
  - destruct (IHsub) with (x := x) as (n' & m & k & Hn' & Hu & Hm & ->); [|done|].
    { apply Forall_forall. intros m (? & ? & _)%Hb. by eapply at_child. }
    apply Hb in Hn' as (? & ? & _). exists n, m, (S k). rewrite <- Nat.add_succ_comm.
    split_and!; [left|eapply under_cons; [by eapply at_depth_node|done..]|done|done].
  - destruct (IHrest Hkids x Hx) as (n' & m & k & ? & ?). exists n', m, k. split; [by right|done].
Qed.

Lemma listing_NoDup d kids l : listing d kids l -> NoDup kids -> Forall (fun n => at_depth n d) kids -> NoDup (callTreeID <$> l).
Proof.
  induction 1 as [d|d n kids below sub rest (_ & Hnb & Hb) Hsub IHsub Hrest IHrest]; [constructor|].
  intros [Hnk Hk]%NoDup_cons [Hn Hkids]%Forall_cons.
  assert (Forall (fun m => at_depth m (S d)) below) as Hbelow by (apply Forall_forall; intros m (? & ? & _)%Hb; by eapply at_child).
  cbn. rewrite fmap_app. apply NoDup_cons. split; [|apply NoDup_app; split_and!; [by apply IHsub| |by apply IHrest]].
  - rewrite elem_of_app. intros [(x & Heq & Hx)%list_elem_of_fmap|(x & Heq & Hx)%list_elem_of_fmap].
    + destruct (listing_elements _ _ _ Hsub Hbelow x Hx) as (? & m & k & _ & _ & Hm & ->). cbn in Heq.
      assert (n = m) as -> by (apply id_inj; [by eapply at_depth_node..|done]).
      pose proof (at_depth_unique _ _ Hn _ Hm). lia.
    + destruct (listing_elements _ _ _ Hrest Hkids x Hx) as (n' & m & k & Hn' & Hu & Hm & ->). cbn in Heq.
      assert (n = m) as <- by (apply id_inj; [by eapply at_depth_node..|done]).
      pose proof (at_depth_unique _ _ Hn _ Hm). assert (k = 0%nat) as -> by lia. by inversion Hu; subst.
  - intros i (x & -> & Hx)%list_elem_of_fmap (y & Heq & Hy)%list_elem_of_fmap.
    destruct (listing_elements _ _ _ Hsub Hbelow x Hx) as (c & m & k & Hc & Hu & Hm & ->).
    destruct (listing_elements _ _ _ Hrest Hkids y Hy) as (n' & m' & k' & Hn' & Hu' & Hm' & ->). cbn in Heq.
    assert (m = m') as <- by (apply id_inj; [by eapply at_depth_node..|done]).
    pose proof (at_depth_unique _ _ Hm _ Hm'). assert (k' = S k) as -> by lia. apply Hb in Hc as (? & ? & _).
    apply Hnk. assert (n = n') as -> by (eapply under_inj; [eapply under_cons; [by eapply at_depth_node|done..]|done]). done.
Qed.

Lemma siblings_at_root kids : siblings callTreeStructuralRootID kids -> Forall (fun n => at_depth n 0) kids.
Proof. intros (_ & _ & Hk). apply Forall_forall. intros n (? & ? & _)%Hk. by apply at_root. Qed.

End DepthFirst.

Section Build.

Context (sort : forall A : Type, (A -> A -> comparison) -> list A -> list A) `{!SliceSort sort}.
Context (nodes : list callTreeNode) (cutoff : spec_float).
Context (Hunique : NoDup (callTreeID <$> nodes)) (Hroot : callTreeStructuralRootID ∉ callTreeID <$> nodes).
Context (Hlen : Z.of_nat (length nodes) <= 2 ^ 32).

#[local] Instance hot_dec n : Decision (hot cutoff n).
Proof. unfold hot. apply _. Defined.

Definition nodes_of (ids : list Z) : list callTreeNode := (fun i => default zero_node (node_by_id nodes !! i)) <$> ids.

Definition sorted_children (p : Z) : list Z := sortCallTreeIDsByHotness sort (children_of nodes p) (node_by_id nodes).

Lemma sorted_children_perm p : nodes_of (sorted_children p) ≡ₚ filter (fun n => callTreeParentID n = p) nodes.
Proof.
  unfold nodes_of, sorted_children, sortCallTreeIDsByHotness. rewrite (sort_permutes (Sorts := slice_sorts Z (hotter_id (node_by_id nodes)) _)).
  unfold children_of. rewrite <- list_fmap_compose.
  assert (forall l : list callTreeNode, (forall n, n ∈ l -> n ∈ nodes) -> ((fun i => default zero_node (node_by_id nodes !! i)) ∘ callTreeID) <$> l = l) as Hid.
  { intros l Hl. induction l as [|n l IH]; [done|]. cbn. rewrite IH by (intros m ?; apply Hl; by right). f_equal.
    apply node_by_id_of; [done|]. apply Hl. left. }
  rewrite Hid; [done|]. by intros n [_ ?]%list_elem_of_filter.
Qed.

Lemma sorted_children_node p c : c ∈ sorted_children p -> exists n, n ∈ nodes /\ callTreeParentID n = p /\ callTreeID n = c.
Proof.
  unfold sorted_children, sortCallTreeIDsByHotness. rewrite (sort_permutes (Sorts := slice_sorts Z (hotter_id (node_by_id nodes)) _)).
  intros (n & -> & [? ?]%list_elem_of_filter)%list_elem_of_fmap. by exists n.
Qed.

Lemma hot_children_siblings p : siblings nodes cutoff p (filter (hot cutoff) (nodes_of (sorted_children p))).
Proof.
  split_and!.
  - eapply StronglySorted_sublist; [apply sublist_filter|].
    apply (StronglySorted_fmap (not_after (hotter_id (node_by_id nodes)))).
    + intros c c' (n & Hn & _ & <-)%sorted_children_node (m & Hm & _ & <-)%sorted_children_node.
      unfold not_after, hotter_id, hotter, then_by. by rewrite !node_by_id_of.
    + apply (sort_sorted (Sorts := slice_sorts Z (hotter_id (node_by_id nodes)) _)).
  - apply NoDup_filter. rewrite sorted_children_perm. apply NoDup_filter. by eapply NoDup_fmap_1.
  - intros n. rewrite list_elem_of_filter, sorted_children_perm, list_elem_of_filter. tauto.
Qed.

Lemma nodes_of_ids p : callTreeID <$> nodes_of (sorted_children p) = sorted_children p.
Proof.
  unfold nodes_of. rewrite <- list_fmap_compose. rewrite <- (list_fmap_id (sorted_children p)) at 2.
  apply list_fmap_ext. intros i c Hc. apply list_elem_of_lookup_2 in Hc. apply sorted_children_node in Hc as (m & Hm & _ & <-).
  cbn. by rewrite node_by_id_of.
Qed.

(** What the recursion returns for a node. *)
Definition visited (n : callTreeNode) (d : nat) (l : list callTreeNode) : Prop :=
  if decide (hot cutoff n) then exists below sub, l = with_depth n (Z.of_nat d) :: sub /\
    siblings nodes cutoff (callTreeID n) below /\ listing nodes cutoff (S d) below sub
  else l = [].

Definition recurse (fuel : nat) (d : nat) (id : Z) : option (list callTreeNode) := appendDepthFirst sort fuel nodes cutoff id (Z.of_nat d).

Lemma visit_siblings fuel d : forall ns,
  (forall n, n ∈ ns -> n ∈ nodes /\ exists l, recurse fuel d (callTreeID n) = Some l /\ visited n d l) ->
  exists ls, mapM (recurse fuel d) (callTreeID <$> ns) = Some ls /\ listing nodes cutoff d (filter (hot cutoff) ns) (mjoin ls).
Proof.
  induction ns as [|n ns IH]; intros Hns; [exists []; split; [done|constructor]|].
  destruct IH as (ls & Hls & Hlist); [intros m ?; apply Hns; by right|].
  destruct (Hns n) as (Hn & l & Hl & Hv); [left|]. exists (l :: ls). cbn [fmap list_fmap mapM]. rewrite Hl. cbn [mbind option_bind].
  change (list_fmap callTreeNode Z callTreeID ns) with (callTreeID <$> ns). rewrite Hls. split; [done|].
  rewrite filter_cons. unfold visited in Hv. destruct (decide (hot cutoff n)).
  - destruct Hv as (below & sub & -> & ? & ?). cbn. by econstructor.
  - subst l. done.
Qed.

Lemma visit_ok fuel : forall n d, at_depth nodes n d -> (length nodes < fuel + d)%nat ->
  exists l, recurse fuel d (callTreeID n) = Some l /\ visited n d l.
Proof.
  induction fuel as [|fuel IH]; intros n d Hd Hf.
  { pose proof (at_depth_bound nodes Hunique Hroot n d Hd). lia. }
  unfold recurse. cbn [appendDepthFirst]. pose proof (at_depth_node _ _ _ Hd) as Hn. rewrite node_by_id_of by done.
  unfold visited. destruct (float_le _ _) eqn:Hc.
  { exists []. split; [done|]. rewrite decide_False; [done|]. unfold hot. congruence. }
  fold (sorted_children (callTreeID n)).
  destruct (visit_siblings fuel (S d) (nodes_of (sorted_children (callTreeID n)))) as (ls & Hls & Hlist).
  { intros m Hm. rewrite sorted_children_perm in Hm. apply list_elem_of_filter in Hm as [Hp Hm]. split; [done|].
    apply IH; [by eapply at_child|lia]. }
  rewrite nodes_of_ids in Hls.
  assert (mapM (fun child => appendDepthFirst sort fuel nodes cutoff child (wrap_uint32 (Z.of_nat d + 1))) (sorted_children (callTreeID n)) = Some ls) as ->.
  { rewrite <- Hls. apply mapM_ext_elem. intros c (m & Hm & Hp & <-)%sorted_children_node. unfold recurse. f_equal.
    assert (at_depth nodes m (S d)) as Hb%(at_depth_bound nodes Hunique Hroot) by (by eapply at_child).
    unfold wrap_uint32. rewrite Z.mod_small by lia. lia. }
  cbn. eexists. split; [done|]. rewrite decide_True by exact Hc. eexists _, _. split; [done|]. split; [apply hot_children_siblings|done].
Qed.

Lemma buildCallTree_listing total : cutoff = cutoff_of total ->
  exists roots tree, buildCallTree sort nodes total = Some tree /\
    siblings nodes cutoff callTreeStructuralRootID roots /\ listing nodes cutoff 0 roots tree.
Proof.
  intros Hc. destruct (visit_siblings (S (length nodes)) 0 (nodes_of (sorted_children callTreeStructuralRootID))) as (ls & Hls & Hlist).
  { intros m Hm. rewrite sorted_children_perm in Hm. apply list_elem_of_filter in Hm as [Hp Hm]. split; [done|].
    apply visit_ok; [by apply at_root|lia]. }
  eexists _, (mjoin ls). split; [|split; [apply hot_children_siblings|exact Hlist]].
  unfold buildCallTree. fold (sorted_children callTreeStructuralRootID).
  rewrite nodes_of_ids in Hls. unfold recurse in Hls. rewrite <- Hc. change (Z.of_nat 0) with 0 in Hls. by rewrite Hls.
Qed.

End Build.

(** The call tree is built by a recursion that ends, whenever the identifiers of the rows
    are unique and none is that of the structural root, and it is the depth-first listing of
    the nodes above the cutoff: below the structural root and below every listed node, exactly
    the children above the cutoff follow, the hottest first, each with its depth and each
    followed by all that is below it. No node is listed twice. *)
Theorem call_tree_is_depth_first sort `{!SliceSort sort} nodes total
    (Hunique : NoDup (callTreeID <$> nodes)) (Hroot : callTreeStructuralRootID ∉ callTreeID <$> nodes)
    (Hlen : Z.of_nat (length nodes) <= 2 ^ 32) :
  exists roots tree, buildCallTree sort nodes total = Some tree /\
    siblings nodes (cutoff_of total) callTreeStructuralRootID roots /\ listing nodes (cutoff_of total) 0 roots tree /\
    NoDup (callTreeID <$> tree).
Proof.
  destruct (buildCallTree_listing sort nodes (cutoff_of total) Hunique Hroot Hlen total eq_refl) as (roots & tree & Hb & Hs & Hl).
  exists roots, tree. split_and!; [done..|].
  eapply listing_NoDup; [done..|apply Hs|by eapply siblings_at_root].
Qed.

(** ** References of the payload *)

Lemma listing_parents nodes cutoff d kids l : listing nodes cutoff d kids l -> forall p, (forall n, n ∈ kids -> callTreeParentID n = p) ->
  forall i x, l !! i = Some x -> (depth x = Z.of_nat d /\ callTreeParentID x = p) \/
    exists j y, (j < i)%nat /\ l !! j = Some y /\ callTreeParentID x = callTreeID y /\ depth x = depth y + 1 /\ Z.of_nat d <= depth y.
Proof.
  induction 1 as [d|d n kids below sub rest (_ & _ & Hb) Hsub IHsub Hrest IHrest]; intros p Hp i x; [done|].
  destruct i as [|i]; [intros [= <-]; left; split; [done|exact (Hp n ltac:(left))]|].
  intros Hx. change ((sub ++ rest) !! i = Some x) in Hx. apply lookup_app_Some in Hx as [Hx|[Hge Hx]].
  - right. destruct (IHsub (callTreeID n)) with (i := i) (x := x) as [[Hd Hpx]|(j & y & ? & Hy & ? & ? & ?)]; [by intros m (_ & ? & _)%Hb|done| |].
    + exists 0%nat, (with_depth n (Z.of_nat d)). split_and!; [lia|done|done|cbn; lia|done].
    + exists (S j), y. split_and!; [lia| |done|done|lia]. cbn. by apply lookup_app_l_Some.
  - destruct (IHrest p) with (i := (i - length sub)%nat) (x := x) as [?|(j & y & ? & Hy & ?)]; [intros m ?; apply Hp; by right|done|by left|right].
    exists (S (length sub + j)), y. split; [lia|]. split; [|done].
    change ((sub ++ rest) !! (length sub + j)%nat = Some y). rewrite lookup_app_r by lia.
    by replace (length sub + j - length sub)%nat with j by lia.
Qed.

(** The parents that the nodes of a payload name come before them and name them as children,
    and its children are nodes of it. *)
Definition references_closed (p : callTreePayload) : Prop :=
  (forall i n, Nodes p !! i = Some n ->
     (Depth n = 0 /\ ParentID n = -1 /\ ID n ∈ RootIDs p) \/
     exists j m, (j < i)%nat /\ Nodes p !! j = Some m /\ ParentID n = ID m /\ Depth n = Depth m + 1 /\ ID n ∈ ChildIDs m) /\
  (forall n c, n ∈ Nodes p -> c ∈ ChildIDs n -> exists m, m ∈ Nodes p /\ ID m = c /\ ParentID m = ID n).

Lemma payload_references nodes cutoff roots tree k total num : siblings nodes cutoff callTreeStructuralRootID roots ->
  listing nodes cutoff 0 roots tree -> references_closed (buildPayloadForNodeLimit tree k total num).
Proof.
  intros (_ & _ & Hr) Hl. split; cbn [Nodes RootIDs buildPayloadForNodeLimit]; set (kept := take k tree).
  - intros i n Hn. rewrite list_lookup_fmap in Hn. apply fmap_Some in Hn as (x & Hx & ->). cbn [Depth ParentID ID ChildIDs payload_node].
    unfold kept in Hx. apply lookup_take_Some in Hx as [Htree Hi].
    destruct (listing_parents _ _ _ _ _ Hl callTreeStructuralRootID) with (i := i) (x := x) as [[Hd Hp]|(j & y & Hj & Hy & Hp & Hd & Hge)].
    + by intros n (_ & ? & _)%Hr.
    + done.
    + left. rewrite Hd. split_and!; [done|done|]. apply list_elem_of_fmap. exists x. split; [done|].
      apply list_elem_of_filter. split; [done|]. apply (list_elem_of_lookup_2 _ i). by apply lookup_take_Some.
    + right. exists j, (payload_node (kept_children kept) total y). rewrite list_lookup_fmap.
      assert (kept !! j = Some y) as -> by (apply lookup_take_Some; split; [done|lia]).
      destruct (Z.eqb_spec (depth x) 0); [lia|]. split_and!; [done|done|done|done|]. cbn. unfold kept_children. apply list_elem_of_fmap.
      exists x. split; [done|]. apply list_elem_of_filter. split; [split; [lia|done]|].
      apply (list_elem_of_lookup_2 _ i). by apply lookup_take_Some.
  - intros n c (x & -> & Hx)%list_elem_of_fmap. cbn [ChildIDs payload_node]. unfold kept_children.
    intros (m & -> & [[Hd Hp] Hm]%list_elem_of_filter)%list_elem_of_fmap. exists (payload_node (kept_children kept) total m).
    split; [by apply list_elem_of_fmap_2|]. cbn. split; [done|]. by destruct (Z.eqb_spec (depth m) 0); [lia|].
Qed.

(** ** The byte limit *)

Section Summary.

(** [strconv.AppendFloat], conversions outside the range of [uint64], the sort, and the prompt. *)
Context (format_float32 : spec_float -> string) (out_of_range : spec_float -> Z).
Context (sort : forall A : Type, (A -> A -> comparison) -> list A -> list A) (callTreePromptFragment : string).

Definition summary_of (p : callTreePayload) : result insight_error RunSummary :=
  NewRunSummary format_float32 callTreeSummaryName callTreePromptFragment (payload_json p).

(** The function that is searched for the first limit on nodes that is too large; an error
    counts as too large, and is returned in the end. *)
Definition too_large (callTree : list callTreeNode) (byteLimit total num : Z) (nodeLimit : nat) : bool :=
  match summary_of (buildPayloadForNodeLimit callTree nodeLimit total num) with
  | Ok s => byteLimit <? runSummarySizeBytes s
  | Err _ => true
  end.

Definition buildPayloadFromCallTree (callTree : list callTreeNode) (byteLimit total num : Z) : result insight_error callTreePayload :=
  let n := S (length callTree) in
  let f := too_large callTree byteLimit total num in
  let firstTooLarge := Search n f in
  if existsb (fun k => negb (is_ok (summary_of (buildPayloadForNodeLimit callTree k total num)))) (search_probes n f 0 n)
  then Err RunSummaryMarshalFailed
  else Ok (buildPayloadForNodeLimit callTree (firstTooLarge - 1) total num).

(** An empty source file counts as none. *)
Definition node_of_row (r : callTreeRow) : callTreeNode :=
  {| callTreeID := r_callTreeID r; callTreeParentID := r_callTreeParentID r; depth := 0; functionName := r_functionName r;
     imageName := r_imageName r;
     sourceFile := match r_sourceFile r with Some s => if bool_decide (s = EmptyString) then None else Some s | None => None end;
     selfSamples := uint64_of out_of_range (r_selfSamples r); totalSamples := uint64_of out_of_range (r_totalSamples r) |}.

Definition collectCallTreeNodes (rows : Rows callTreeRow) : result insight_error (list callTreeNode) :=
  (fun rows : list callTreeRow => node_of_row <$> rows) <$> read_rows callTreeSummaryName rows.

Definition collectCallTree (rows : Rows callTreeRow) (byteLimit : Z) : result insight_error callTreePayload :=
  nodes ← collectCallTreeNodes rows;
  let totalSelfSamples := sumCallTreeSelfSamples nodes in
  let numNodes := Z.of_nat (length nodes) in
  let payload := {| TotalSelfSamples := totalSelfSamples; TotalNodes := numNodes; RootIDs := []; Nodes := [] |} in
  summary ← summary_of payload;
  if byteLimit <? runSummarySizeBytes summary then Err (InsufficientByteLimit callTreeSummaryName byteLimit)
  else
    match buildCallTree sort nodes totalSelfSamples with
    | None => Err RecursionUnbounded
    | Some [] => Ok payload
    | Some callTree => buildPayloadFromCallTree callTree byteLimit totalSelfSamples numNodes
    end.

Definition resolveCallTreeTables (session : SessionTables) : result insight_error callTreeTables :=
  resolveSummaryTables session "call_stack" callTreeSummaryName ["drilldown"; "symbols"; "images"; "source_files"]
    (fun t => {| drilldown := t "drilldown"; symbols := t "symbols"; images := t "images"; sourceFiles := t "source_files" |}).

Definition SummarizeCallTree {D} (query : callTreeTables -> option (Rows callTreeRow)) (desc : D) (session : SessionTables)
    (byteLimit : Z) : result insight_error RunSummary :=
  tables ← resolveCallTreeTables session;
  match query tables with
  | None => Err (RenderQueryFailed callTreeSummaryName)
  | Some rows =>
      payload ← collectCallTree rows byteLimit;
      summary_of payload
  end.

Definition CallTreeSummarizer {D} query : BudgetedRunSummarizer D SessionTables :=
  {| b_Name := callTreeSummaryName; b_Summarize := SummarizeCallTree query |}.

Notation plen j := (len (print format_float32 j)).

Lemma ints_longer l k : l `prefix_of` k -> plen (JArray (JInt <$> l)) <= plen (JArray (JInt <$> k)).
Proof.
  intros [r ->]. rewrite !len_array, !fmap_app. enough (joined_len (print format_float32 <$> (JInt <$> l)) <=
    joined_len ((print format_float32 <$> (JInt <$> l)) ++ (print format_float32 <$> (JInt <$> r)))) by lia.
  apply joined_len_le. by apply Forall_Forall2_diag, Forall_true.
Qed.

(** More children make the text of a node longer, and do not change whether it has one. *)
Lemma node_longer c c' total n : c (callTreeID n) `prefix_of` c' (callTreeID n) ->
  plen (node_json (payload_node c total n)) <= plen (node_json (payload_node c' total n)).
Proof.
  intros Hp.
  assert (exists A F, forall c, node_json (payload_node c total n) =
    JObject (A ++ (if bool_decide (c (callTreeID n) = []) then [] else [("c", JArray (JInt <$> c (callTreeID n)))]) ++ F)) as (A & F & Heq)
    by (eexists _, _; intros d; unfold node_json; cbn [payload_node ID ParentID Depth FunctionName ImageName SelfSamples TotalSamples
          SelfPercent TotalPercent SourceFile ChildIDs]; reflexivity).
  rewrite !Heq, !len_object, !joined_len_total, !fmap_app, !total_len_app, !length_app.
  assert (c' (callTreeID n) = [] -> c (callTreeID n) = []) as Hnil by (intros Hn; rewrite Hn in Hp; by apply prefix_nil_inv in Hp).
  destruct (bool_decide (c (callTreeID n) = [])) eqn:H1, (bool_decide (c' (callTreeID n) = [])) eqn:H2; bool_to_prop.
  - lia.
  - pose proof (total_len_nonneg (field_text format_float32 <$> [("c", JArray (JInt <$> c' (callTreeID n)))])).
    change (total_len (field_text format_float32 <$> [])) with 0. change (length (field_text format_float32 <$> [])) with 0%nat. lia.
  - by apply Hnil in H2.
  - assert (forall l, total_len (field_text format_float32 <$> [("c", JArray (JInt <$> l))]) = len (quote "c") + 1 + plen (JArray (JInt <$> l))) as Hf.
    { intros l. cbn [fmap list_fmap total_len foldr]. unfold total_len, field_text. cbn [foldr fst snd]. rewrite !len_app.
      change (len ":") with 1. unfold fmap. lia. }
    rewrite !Hf. pose proof (ints_longer _ _ Hp) as Hl. change (length (field_text format_float32 <$> [("c", JArray (JInt <$> c (callTreeID n)))])) with 1%nat.
    change (length (field_text format_float32 <$> [("c", JArray (JInt <$> c' (callTreeID n)))])) with 1%nat. lia.
Qed.

Lemma node_printable c total n : printable (node_json (payload_node c total n)) =
  is_finite (SelfPercent (payload_node c total n)) && is_finite (TotalPercent (payload_node c total n)).
Proof.
  unfold node_json. cbn [printable]. rewrite forallb_app. cbn [forallb]. rewrite !andb_true_l, andb_true_r, forallb_app.
  assert (forallb (fun '(_, v) => printable v) (if bool_decide (ChildIDs (payload_node c total n) = []) then [] else
    [("c", JArray (JInt <$> ChildIDs (payload_node c total n)))]) = true) as ->.
  { destruct (bool_decide _); [done|]. cbn. rewrite andb_true_r. apply forallb_elem_of. by intros j (i & -> & _)%list_elem_of_fmap. }
  assert (forallb (fun '(_, v) => printable v) match SourceFile (payload_node c total n) with Some f => [("file", JString f)] | None => [] end = true) as ->
    by (by destruct (SourceFile _)). by rewrite !andb_true_r.
Qed.

Lemma take_prefix {A} (l : list A) k k' : (k <= k')%nat -> exists r, take k' l = take k l ++ r.
Proof. intros Hk. exists (drop k (take k' l)). rewrite <- (take_drop k (take k' l)) at 1. by rewrite take_take, Nat.min_l. Qed.

Lemma kept_children_prefix l r p : kept_children l p `prefix_of` kept_children (l ++ r) p.
Proof. unfold kept_children. rewrite filter_app, fmap_app. by eexists. Qed.

(** A payload with more nodes has a longer text. *)
Lemma payload_longer tree k k' total num : (k <= k')%nat ->
  plen (payload_json (buildPayloadForNodeLimit tree k total num)) <= plen (payload_json (buildPayloadForNodeLimit tree k' total num)).
Proof.
  intros Hk. unfold payload_json, buildPayloadForNodeLimit. cbn [TotalSelfSamples TotalNodes RootIDs Nodes].
  destruct (take_prefix tree k k' Hk) as [r ->]. set (kept := take k tree).
  rewrite !len_object. cbn [fmap list_fmap]. rewrite !joined_len_total. unfold total_len. cbn [foldr length]. unfold field_text. cbn [fst snd]. rewrite !len_app.
  assert (plen (JArray (JInt <$> (callTreeID <$> filter (fun n => depth n = 0) kept))) <=
          plen (JArray (JInt <$> (callTreeID <$> filter (fun n => depth n = 0) (kept ++ r))))) as Hroots
    by (apply ints_longer; rewrite filter_app, fmap_app; by eexists).
  assert (plen (JArray (node_json <$> (payload_node (kept_children kept) total <$> kept))) <=
          plen (JArray (node_json <$> (payload_node (kept_children (kept ++ r)) total <$> kept ++ r)))) as Hnodes.
  { rewrite !len_array, !fmap_app.
    pose proof (joined_len_le (print format_float32 <$> (node_json <$> (payload_node (kept_children kept) total <$> kept)))
      (print format_float32 <$> (node_json <$> (payload_node (kept_children (kept ++ r)) total <$> kept)))
      (print format_float32 <$> (node_json <$> (payload_node (kept_children (kept ++ r)) total <$> r)))) as Hj.
    enough (Forall2 (fun a b => len a <= len b) (print format_float32 <$> (node_json <$> (payload_node (kept_children kept) total <$> kept)))
      (print format_float32 <$> (node_json <$> (payload_node (kept_children (kept ++ r)) total <$> kept)))) by (specialize (Hj H); lia).
    do 3 apply Forall2_fmap_2. apply Forall_Forall2_diag, Forall_true. intros n.
    apply node_longer, kept_children_prefix. }
  unfold fmap in *. lia.
Qed.

Lemma payload_printable tree k k' total num : (k <= k')%nat -> printable (payload_json (buildPayloadForNodeLimit tree k' total num)) = true ->
  printable (payload_json (buildPayloadForNodeLimit tree k total num)) = true.
Proof.
  intros Hk. unfold payload_json, buildPayloadForNodeLimit. cbn [TotalSelfSamples TotalNodes RootIDs Nodes printable forallb].
  destruct (take_prefix tree k k' Hk) as [r ->]. rewrite !andb_true_l, !andb_true_r, !andb_true_iff. intros [_ Hn]. split.
  - apply forallb_elem_of. by intros j (i & -> & _)%list_elem_of_fmap.
  - rewrite forallb_elem_of in *. intros j (n & -> & (x & -> & Hx)%list_elem_of_fmap)%list_elem_of_fmap.
    rewrite node_printable. specialize (Hn (node_json (payload_node (kept_children (take k tree ++ r)) total x))).
    rewrite node_printable in Hn. apply Hn. apply list_elem_of_fmap_2, list_elem_of_fmap_2, elem_of_app. by left.
Qed.

Definition node_fits (tree : list callTreeNode) (byteLimit total num : Z) (k : nat) : Prop :=
  exists s, summary_of (buildPayloadForNodeLimit tree k total num) = Ok s /\ runSummarySizeBytes s <= byteLimit.

Lemma too_large_false tree limit total num k : too_large tree limit total num k = false <-> node_fits tree limit total num k.
Proof.
  unfold too_large, node_fits. destruct (summary_of _) as [s|e]; [rewrite Z.ltb_ge; naive_solver|]. split; [done|by intros (? & ? & _)].
Qed.

Lemma node_fits_down tree limit total num k k' : (k <= k')%nat -> node_fits tree limit total num k' -> node_fits tree limit total num k.
Proof.
  intros Hk (s & (_ & Hsize & Hp)%NewRunSummary_Ok & Hle). pose proof (payload_longer tree k k' total num Hk).
  apply (payload_printable _ _ _ _ _ Hk) in Hp. unfold node_fits, summary_of, NewRunSummary, Marshal. rewrite Hp.
  eexists. split; [done|]. unfold runSummarySizeBytes in *. cbn in *. lia.
Qed.

(** The search finds the largest number of nodes that fits. *)
Lemma buildPayload_largest tree limit total num p : node_fits tree limit total num 0 ->
  buildPayloadFromCallTree tree limit total num = Ok p ->
  exists k, (k <= length tree)%nat /\ p = buildPayloadForNodeLimit tree k total num /\ node_fits tree limit total num k /\
    forall j, (k < j <= length tree)%nat -> ~ node_fits tree limit total num j.
Proof.
  intros H0. unfold buildPayloadFromCallTree. destruct (existsb _ _); [done|]. intros [= <-].
  destruct (Search_first (S (length tree)) (too_large tree limit total num)) as (Hle & Hlow & Hhigh).
  { intros a b [Hab _] Ha. destruct (too_large _ _ _ _ b) eqn:Hb; [done|]. apply too_large_false, (node_fits_down _ _ _ _ a b Hab), too_large_false in Hb. congruence. }
  set (r := Search _ _) in *. assert (1 <= r)%nat.
  { destruct (decide (r = 0)%nat) as [Hr|]; [|lia]. specialize (Hhigh 0%nat ltac:(lia)). apply too_large_false in H0. congruence. }
  exists (r - 1)%nat. split_and!; [lia|done|apply too_large_false, Hlow; lia|].
  intros j Hj Hf%too_large_false. rewrite Hhigh in Hf by lia. done.
Qed.

Lemma empty_payload tree total num : buildPayloadForNodeLimit tree 0 total num =
  {| TotalSelfSamples := total; TotalNodes := num; RootIDs := []; Nodes := [] |}.
Proof. unfold buildPayloadForNodeLimit. by rewrite take_0. Qed.

(** The result of [collectCallTree]: the largest prefix of the tree that fits. *)
Lemma collectCallTree_prefix rows limit p : collectCallTree rows limit = Ok p ->
  exists nodes tree k, collectCallTreeNodes rows = Ok nodes /\ buildCallTree sort nodes (sumCallTreeSelfSamples nodes) = Some tree /\
    let total := sumCallTreeSelfSamples nodes in let num := Z.of_nat (length nodes) in
    (k <= length tree)%nat /\ p = buildPayloadForNodeLimit tree k total num /\ node_fits tree limit total num k /\
    forall j, (k < j <= length tree)%nat -> ~ node_fits tree limit total num j.
Proof.
  unfold collectCallTree. intros (nodes & Hn & H)%bind_Ok. cbn zeta in H. apply bind_Ok in H as (s & Hs & H).
  destruct (Z.ltb_spec limit (runSummarySizeBytes s)) as [|Hfit]; [done|].
  destruct (buildCallTree sort nodes _) as [tree|] eqn:Ht; [|done].
  assert (node_fits tree limit (sumCallTreeSelfSamples nodes) (Z.of_nat (length nodes)) 0) as H0
    by (exists s; rewrite empty_payload; split; [exact Hs|lia]).
  destruct tree as [|x tree].
  - injection H as <-. exists nodes, [], 0%nat. split_and!; [done|done|cbn; lia|by rewrite empty_payload|done|cbn; intros; lia].
  - apply buildPayload_largest in H as (k & ? & ? & ? & ?); [|done]. by exists nodes, (x :: tree), k.
Qed.

#[export] Instance CallTree_keeps_budget {D} query : KeepsBudget (@CallTreeSummarizer D query).
Proof.
  intros desc session limit s. cbn. unfold SummarizeCallTree. intros (tables & _ & H)%bind_Ok.
  destruct (query tables) as [rows|]; [|done].
  apply bind_Ok in H as (p & (nodes & tree & k & _ & _ & _ & -> & (s' & Hs' & Hle) & _)%collectCallTree_prefix & Hs).
  rewrite Hs in Hs'. injection Hs' as <-. split; [by apply NewRunSummary_Ok in Hs as [? _]|done].
Qed.

(** The payload of the call tree is the largest prefix of the depth-first listing that fits
    the byte limit, and it refers to itself only: every node that is not a root comes after the
    parent it names, which names it as a child, and all children that are named are nodes. *)
Theorem call_tree_payload `{!SliceSort sort} rows limit p nodes (Hp : collectCallTree rows limit = Ok p)
    (Hn : collectCallTreeNodes rows = Ok nodes)
    (Hunique : NoDup (callTreeID <$> nodes)) (Hroot : callTreeStructuralRootID ∉ callTreeID <$> nodes)
    (Hlen : Z.of_nat (length nodes) <= 2 ^ 32) :
  let total := sumCallTreeSelfSamples nodes in
  let num := Z.of_nat (length nodes) in
  exists tree k, buildCallTree sort nodes total = Some tree /\ (k <= length tree)%nat /\
    p = buildPayloadForNodeLimit tree k total num /\ references_closed p /\
    node_fits tree limit total num k /\ forall j, (k < j <= length tree)%nat -> ~ node_fits tree limit total num j.
Proof.
  cbn zeta. apply collectCallTree_prefix in Hp as (nodes' & tree & k & Hn' & Ht & ? & -> & ? & ?).
  rewrite Hn in Hn'. injection Hn' as <-. exists tree, k. split_and!; [done..| |done|done].
  destruct (buildCallTree_listing sort nodes (cutoff_of (sumCallTreeSelfSamples nodes)) Hunique Hroot Hlen _ eq_refl) as (roots & t & Hb & Hs & Hl).
  rewrite Ht in Hb. injection Hb as <-. by eapply payload_references.
Qed.

End Summary.

(** ** The example of the source *)

Definition sample_node (id parent : Z) (name : string) (self total : Z) : callTreeNode :=
  {| callTreeID := id; callTreeParentID := parent; depth := 0; functionName := name; imageName := "a.out"; sourceFile := None;
     selfSamples := self; totalSamples := total |}.

Definition sample_nodes : list callTreeNode :=
  [sample_node 5 4 "B1" 10 10; sample_node 2 1 "A1" 20 20; sample_node 4 0 "B" 10 20; sample_node 3 1 "A2" 30 30;
   sample_node 1 0 "A" 30 80; sample_node 6 3 "cold" 1 1].

Example call_tree_sample : option_map (map (fun n => (functionName n, depth n))) (buildCallTree (@sort_by) sample_nodes 101) =
  Some [("A", 0); ("A2", 1); ("A1", 1); ("B", 0); ("B1", 1)].
Proof. vm_compute. reflexivity. Qed.

(** A row with the identifier of the structural root is its own child. *)
Example root_row_recurses : buildCallTree (@sort_by) [sample_node 0 0 "root" 1 1] 1 = None.
Proof. vm_compute. reflexivity. Qed.

Lemma call_tree_is_depth_first_witness : exists roots tree, buildCallTree (@sort_by) sample_nodes 101 = Some tree /\
  siblings sample_nodes (cutoff_of 101) 0 roots /\ listing sample_nodes (cutoff_of 101) 0 roots tree /\ NoDup (callTreeID <$> tree).
Proof.
  apply (call_tree_is_depth_first (@sort_by) sample_nodes 101).
  - refine (bool_decide_unpack _ _). vm_compute. exact I.
  - refine (bool_decide_unpack _ _). vm_compute. exact I.
  - vm_compute. discriminate.
Defined.

Definition sample_rows : Rows callTreeRow :=
  {| scanned := (fun n => Some {| r_callTreeID := callTreeID n; r_callTreeParentID := callTreeParentID n; r_functionName := functionName n;
                                  r_imageName := imageName n; r_sourceFile := None; r_selfSamples := float64 (selfSamples n);
                                  r_totalSamples := float64 (totalSamples n) |}) <$> sample_nodes;
     rows_err := false |}.

Definition sample_collect (limit : Z) := collectCallTree (fun _ => "9.5") (fun _ => 0) (@sort_by) EmptyString sample_rows limit.

Example call_tree_truncated : option_map (fun p => (RootIDs p, map (fun n => (ID n, ChildIDs n)) (Nodes p))) (ok_value (sample_collect 320)) =
  Some ([1], [(1, [3; 2]); (3, []); (2, [])]).
Proof. vm_compute. reflexivity. Qed.

Lemma call_tree_payload_witness : exists p, sample_collect 320 = Ok p /\ references_closed p.
Proof.
  destruct (sample_collect 320) as [p|e] eqn:Hp; [|vm_compute in Hp; discriminate]. exists p. split; [done|].
  destruct (call_tree_payload (fun _ => "9.5") (fun _ => 0) (@sort_by) EmptyString sample_rows 320 p sample_nodes Hp) as (tree & k & _ & _ & _ & Hclosed & _).
  - vm_compute. reflexivity.
  - refine (bool_decide_unpack _ _). vm_compute. exact I.
  - refine (bool_decide_unpack _ _). vm_compute. exact I.
  - vm_compute. discriminate.
  - exact Hclosed.
Defined.
