(* ===== verification/SourceFetcher.v ===== *)
(** * Performix: fetching source files

    Models [core/apap-engine/sourcecontent/fetcher.go]: the locations of a source file are tried
    in order, and several workers fetch the files at the same time. The workers are a step
    relation: a step is a receive from the channel of jobs, the fetch of one file with the send
    of its result, or the end of a worker. The session with the target is a parameter. *)

From S2P Require Import Prelude.
From S2P Require Import GoStrings.
From Stdlib Require Import Ascii.

Local Open Scope Z_scope.

Inductive SourceFailureReason :=
| SourceFailureMissingHostMapping | SourceFailureHostPathFailed | SourceFailureHostPathMismatched
| SourceFailureTargetNotReachable | SourceFailureTargetAgentUnavailable | SourceFailureTargetPathFailed
| SourceFailureTargetPathMismatched | sourceFailureNone.

Definition SourceLocationHost : string := "host".
Definition SourceLocationTarget : string := "target".

Record SourceFileLocation := { Location : string; Path : string }.
Record SourceFile := { Locations : list SourceFileLocation; MinimumLineCount : Z }.

(** [Err] is [None] for a nil error. *)
Record SourceFileFailure := { f_Location : string; f_Path : string; f_Err : option string; Reason : SourceFailureReason }.
Record SourceFileContent := { Content : string; Failures : list SourceFileFailure; LoadedLocation : SourceFileLocation }.

Definition no_location : SourceFileLocation := {| Location := EmptyString; Path := EmptyString |}.
Definition no_failure : SourceFileFailure := {| f_Location := EmptyString; f_Path := EmptyString; f_Err := None; Reason := sourceFailureNone |}.

Definition sourceLocationFailure (location : SourceFileLocation) (reason : SourceFailureReason) (err : string) : SourceFileFailure :=
  {| f_Location := Location location; f_Path := Path location; f_Err := Some err; Reason := reason |}.

Definition newline : ascii := "010".

(** The number of lines separated by newlines. *)
Definition sourceContentLineCount (content : string) : Z :=
  CountByte content newline + (if HasSuffix content (String newline EmptyString) then 0 else 1).

(** ** Files of the target *)

(** The session with a target, as far as the fetcher uses it. *)
Record TargetSession (Agent Platform : Type) := {
  Connect : result string unit; TargetAgent : result string Agent; TargetPlatform : result string Platform
}.
Arguments Connect {Agent Platform}. Arguments TargetAgent {Agent Platform}. Arguments TargetPlatform {Agent Platform}.

Section TargetFiles.

Context {Agent Platform : Type}.
Context (FetchTargetFile : Agent -> Platform -> string -> result string string).

(** What [sync.Once] runs at the first file: the agent and the platform, or the failure that is
    reported for every file. *)
Definition setup_target (targetSession : result string (option (TargetSession Agent Platform)))
    : result (SourceFailureReason * string) (Agent * Platform) :=
  match targetSession with
  | Err err => Err (SourceFailureTargetNotReachable, err)
  | Ok None => Err (SourceFailureTargetNotReachable, "target source fetcher required")
  | Ok (Some session) =>
      match Connect session with
      | Err err => Err (SourceFailureTargetNotReachable, err)
      | Ok _ =>
          match TargetAgent session with
          | Err err => Err (SourceFailureTargetAgentUnavailable, err)
          | Ok agentConn =>
              match TargetPlatform session with
              | Err err => Err (SourceFailureTargetAgentUnavailable, err)
              | Ok platform => Ok (agentConn, platform)
              end
          end
      end
  end.

(** [None] stands for a nil target or provider of sessions, and for a nil fetcher. *)
Definition newTargetFileFetcher (targetSession : option (result string (option (TargetSession Agent Platform))))
    : option (string -> string * SourceFailureReason * option string) :=
  match targetSession with
  | None => None
  | Some targetSession => Some (fun targetPath =>
      match setup_target targetSession with
      | Err (setupFailure, setupErr) => (EmptyString, setupFailure, Some setupErr)
      | Ok (agentConn, platform) =>
          match FetchTargetFile agentConn platform targetPath with
          | Err err => (EmptyString, SourceFailureTargetPathFailed, Some err)
          | Ok content => (content, sourceFailureNone, None)
          end
      end)
  end.

(** An error comes with a reason. *)
Lemma newTargetFileFetcher_reason session fetch path content reason err :
  newTargetFileFetcher session = Some fetch -> fetch path = (content, reason, Some err) -> reason <> sourceFailureNone.
Proof.
  destruct session as [session|]; [|done]. intros [= <-]. unfold setup_target.
  destruct session as [[s|]|]; [|by intros [= <- <- <-]..].
  destruct (Connect s) as [u|]; [|by intros [= <- <- <-]]. destruct (TargetAgent s) as [a|]; [|by intros [= <- <- <-]].
  destruct (TargetPlatform s) as [p|]; [|by intros [= <- <- <-]]. by destruct (FetchTargetFile a p path); intros [= <- <- <-].
Qed.

End TargetFiles.

Section Fetch.

(** Reading a file of the host, and of the target when there is a session with it. *)
Context (FetchHostFile : string -> result string string).
Context (tgtFileFetcher : option (string -> string * SourceFailureReason * option string)).

Definition fetchHostSourceLocation (location : SourceFileLocation) : string * SourceFileFailure :=
  if bool_decide (Path location = EmptyString)
  then (EmptyString, sourceLocationFailure location SourceFailureMissingHostMapping "missing host source mapping")
  else
    match FetchHostFile (Path location) with
    | Ok content =>
        if bool_decide (content = EmptyString)
        then (EmptyString, sourceLocationFailure location SourceFailureHostPathFailed "empty source content")
        else (content, no_failure)
    | Err e => (EmptyString, sourceLocationFailure location SourceFailureHostPathFailed e)
    end.

Definition fetchTargetSourceLocation (location : SourceFileLocation) : string * SourceFileFailure :=
  if bool_decide (Path location = EmptyString)
  then (EmptyString, sourceLocationFailure location SourceFailureTargetPathFailed "missing target source path")
  else
    match tgtFileFetcher with
    | None => (EmptyString, sourceLocationFailure location SourceFailureTargetNotReachable "target source fetcher required")
    | Some fetch =>
        match fetch (Path location) with
        | (content, _, None) =>
            if bool_decide (content = EmptyString)
            then (EmptyString, sourceLocationFailure location SourceFailureTargetPathFailed "empty source content")
            else (content, no_failure)
        | (_, failure, Some e) => (EmptyString, sourceLocationFailure location failure e)
        end
    end.

Definition fetch_location (location : SourceFileLocation) : string * SourceFileFailure :=
  if bool_decide (Location location = SourceLocationHost) then fetchHostSourceLocation location
  else if bool_decide (Location location = SourceLocationTarget) then fetchTargetSourceLocation location
  else (EmptyString, sourceLocationFailure location sourceFailureNone ("unsupported source location " +:+ Location location)).

(** The content is too short for the line that is needed. *)
Definition mismatched (location : SourceFileLocation) (minimum : Z) : SourceFileFailure :=
  {| f_Location := Location location; f_Path := Path location;
     f_Err := Some ("source content shorter than minimum line count " +:+ Itoa minimum);
     Reason := if bool_decide (Location location = SourceLocationHost) then SourceFailureHostPathMismatched
               else SourceFailureTargetPathMismatched |}.

Fixpoint fetch_loop (minimum : Z) (locations : list SourceFileLocation) (failures : list SourceFileFailure) : SourceFileContent :=
  match locations with
  | [] =>
      {| Content := EmptyString; LoadedLocation := no_location;
         Failures := match failures with
                     | [] => [{| f_Location := EmptyString; f_Path := EmptyString; f_Err := Some "missing source location"; Reason := sourceFailureNone |}]
                     | _ => failures
                     end |}
  | location :: rest =>
      let (content, failure) := fetch_location location in
      match f_Err failure with
      | Some _ => fetch_loop minimum rest (failures ++ [failure])
      | None =>
          if (minimum =? 0) || (minimum <=? sourceContentLineCount content)
          then {| Content := content; Failures := failures; LoadedLocation := location |}
          else fetch_loop minimum rest (failures ++ [mismatched location minimum])
      end
  end.

Definition fetchSourceFile (f : SourceFile) : SourceFileContent := fetch_loop (MinimumLineCount f) (Locations f) [].

(** A file that was loaded has the lines that are needed and is not empty, and one that was not has failures. *)
Lemma fetchSourceFile_spec f : let r := fetchSourceFile f in
  if bool_decide (Location (LoadedLocation r) = EmptyString) then Failures r <> []
  else LoadedLocation r ∈ Locations f /\ Content r <> EmptyString /\
       (MinimumLineCount f = 0 \/ MinimumLineCount f <= sourceContentLineCount (Content r)).
Proof.
  cbn zeta. unfold fetchSourceFile. generalize (MinimumLineCount f) as minimum. intros minimum.
  assert (forall locations, locations ⊆ Locations f -> forall failures, let r := fetch_loop minimum locations failures in
    if bool_decide (Location (LoadedLocation r) = EmptyString) then Failures r <> []
    else LoadedLocation r ∈ Locations f /\ Content r <> EmptyString /\ (minimum = 0 \/ minimum <= sourceContentLineCount (Content r))) as H.
  { induction locations as [|loc locations IH]; intros Hsub failures; cbn [fetch_loop]; cbn zeta.
    - cbn. by destruct failures.
    - assert (locations ⊆ Locations f) as Hsub' by set_solver. specialize (IH Hsub').
      destruct (fetch_location loc) as [content failure] eqn:Hl. destruct (f_Err failure) eqn:He; [apply IH|].
      destruct (_ || _) eqn:Hm; [|apply IH]. cbn [LoadedLocation Content Failures].
      assert (Location loc <> EmptyString /\ content <> EmptyString) as [Hloc Hc].
      { unfold fetch_location in Hl. destruct (bool_decide (Location loc = SourceLocationHost)) eqn:Hh;
          [|destruct (bool_decide (Location loc = SourceLocationTarget)) eqn:Ht]; bool_to_prop.
        - rewrite Hh. split; [done|]. unfold fetchHostSourceLocation in Hl. repeat (case_hyp Hl; simplify_eq/=); by bool_to_prop.
        - rewrite Ht. split; [done|]. unfold fetchTargetSourceLocation in Hl. repeat (case_hyp Hl; simplify_eq/=); by bool_to_prop.
        - by simplify_eq. }
      rewrite bool_decide_false by done. split; [set_solver|]. split; [done|]. apply orb_true_iff in Hm as [?%Z.eqb_eq|?%Z.leb_le]; auto. }
  by apply H.
Qed.

(** The content comes from a file. *)
Lemma fetchSourceFile_content f : let c := Content (fetchSourceFile f) in
  c = EmptyString \/ (exists path, FetchHostFile path = Ok c) \/
  exists fetch path reason, tgtFileFetcher = Some fetch /\ fetch path = (c, reason, None).
Proof.
  cbn zeta. unfold fetchSourceFile. generalize (@nil SourceFileFailure) as failures. induction (Locations f) as [|loc locations IH]; intros failures; [by left|].
  cbn [fetch_loop]. destruct (fetch_location loc) as [content failure] eqn:Hl. destruct (f_Err failure) eqn:He; [apply IH|]. destruct (_ || _); [|apply IH].
  cbn [Content]. right. unfold fetch_location, fetchHostSourceLocation, fetchTargetSourceLocation in Hl.
  repeat (case_hyp Hl; simplify_eq/=); eauto 10.
Qed.

Lemma fetch_loop_failures minimum locations : forall failures r, r = fetch_loop minimum locations failures ->
  Location (LoadedLocation r) = EmptyString -> failures ⊆ Failures r.
Proof.
  induction locations as [|loc locations IH]; intros failures r ->; cbn [fetch_loop].
  - intros _. cbn. destruct failures; [apply list_subseteq_nil|done].
  - destruct (fetch_location loc) as [content failure]. destruct (f_Err failure); [|destruct (_ || _)].
    + intros Hl. etransitivity; [|by apply IH]. by apply list_subseteq_app_l.
    + cbn. intros _. done.
    + intros Hl. etransitivity; [|by apply IH]. by apply list_subseteq_app_l.
Qed.

(** A file with a location on the host that was not loaded has a failure with a reason. *)
Lemma fetchSourceFile_host_failure f path rest : Locations f = {| Location := SourceLocationHost; Path := path |} :: rest ->
  Location (LoadedLocation (fetchSourceFile f)) = EmptyString ->
  exists failure, failure ∈ Failures (fetchSourceFile f) /\
    (Reason failure = SourceFailureMissingHostMapping \/ Reason failure = SourceFailureHostPathFailed \/
     Reason failure = SourceFailureHostPathMismatched).
Proof.
  unfold fetchSourceFile. intros -> . cbn [fetch_loop]. unfold fetch_location. rewrite bool_decide_true by done.
  unfold fetchHostSourceLocation. cbn [Path].
  assert (forall failure, Location (LoadedLocation (fetch_loop (MinimumLineCount f) rest ([] ++ [failure]))) = EmptyString ->
    failure ∈ Failures (fetch_loop (MinimumLineCount f) rest ([] ++ [failure]))) as Hin.
  { intros failure Hl. by apply (fetch_loop_failures _ _ _ _ eq_refl Hl), list_elem_of_singleton. }
  case_bool_decide; [|destruct (FetchHostFile path) as [content|e]; [case_bool_decide|]]; cbn [f_Err sourceLocationFailure no_failure].
  - intros Hl. eexists. split; [by apply Hin|auto].
  - intros Hl. eexists. split; [by apply Hin|auto].
  - destruct (_ || _); [done|]. intros Hl. eexists. split; [by apply Hin|auto].
  - intros Hl. eexists. split; [by apply Hin|auto].
Qed.

(** ** The workers *)

Inductive worker := Idle | Busy (index : nat) | Finished.

Record pool := { jobs : list nat; workers : list worker; results : list (nat * SourceFileContent) }.

Definition zero_file : SourceFile := {| Locations := []; MinimumLineCount := 0 |}.

Definition fetch_index (files : list SourceFile) (i : nat) : SourceFileContent := fetchSourceFile (nth i files zero_file).

Definition workerCount (concurrency : Z) (files : list SourceFile) : nat :=
  Z.to_nat (Z.min (if concurrency <=? 0 then 1 else concurrency) (Z.of_nat (length files))).

Definition start_pool (concurrency : Z) (files : list SourceFile) : pool :=
  {| jobs := seq 0 (length files); workers := replicate (workerCount concurrency files) Idle; results := [] |}.

(** The channel of jobs is closed, so that a receive from it ends when it is empty. *)
Inductive pool_step (files : list SourceFile) : pool -> pool -> Prop :=
| step_take p w i rest : workers p !! w = Some Idle -> jobs p = i :: rest ->
    pool_step files p {| jobs := rest; workers := <[w := Busy i]> (workers p); results := results p |}
| step_send p w i : workers p !! w = Some (Busy i) ->
    pool_step files p {| jobs := jobs p; workers := <[w := Idle]> (workers p); results := results p ++ [(i, fetch_index files i)] |}
| step_exit p w : workers p !! w = Some Idle -> jobs p = [] ->
    pool_step files p {| jobs := []; workers := <[w := Finished]> (workers p); results := results p |}.

(** The results are stored by their indices; the zero value stands for a missing one. *)
Definition zero_content : SourceFileContent := {| Content := EmptyString; Failures := []; LoadedLocation := no_location |}.

Definition contents (files : list SourceFile) (p : pool) : list SourceFileContent :=
  foldl (fun c r => <[r.1 := r.2]> c) (replicate (length files) zero_content) (results p).

Definition busy_index (w : worker) : list nat := match w with Busy i => [i] | _ => [] end.

Definition pool_inv (concurrency : Z) (files : list SourceFile) (p : pool) : Prop :=
  jobs p ++ (workers p ≫= busy_index) ++ (results p).*1 ≡ₚ seq 0 (length files) /\
  Forall (fun r => r.2 = fetch_index files r.1) (results p) /\
  (Finished ∈ workers p -> jobs p = []) /\ length (workers p) = workerCount concurrency files.

Lemma busy_insert ws w x y : ws !! w = Some x ->
  busy_index x ++ (<[w := y]> ws ≫= busy_index) ≡ₚ busy_index y ++ (ws ≫= busy_index).
Proof.
  revert w. induction ws as [|z ws IH]; intros [|w] Hx; [done..| |]; cbn in Hx |- *.
  - injection Hx as ->. by rewrite !app_assoc, (Permutation_app_comm (busy_index x)).
  - rewrite (Permutation_app_swap_app (busy_index x)), (IH w Hx). by rewrite Permutation_app_swap_app.
Qed.

Lemma start_pool_inv concurrency files : pool_inv concurrency files (start_pool concurrency files).
Proof.
  split_and!; cbn; [|done| |by rewrite length_replicate].
  - rewrite app_nil_r. assert (replicate (workerCount concurrency files) Idle ≫= busy_index = []) as ->; [|by rewrite app_nil_r].
    induction (workerCount concurrency files) as [|k IH]; [done|]. by cbn.
  - intros [? _]%elem_of_replicate. done.
Qed.

Lemma pool_step_inv concurrency files p p' : pool_inv concurrency files p -> pool_step files p p' -> pool_inv concurrency files p'.
Proof.
  intros (Hperm & Hres & Hfin & Hlen). destruct 1 as [p w i rest Hw Hj|p w i Hw|p w Hw Hj]; (split_and!; cbn; [..|by rewrite length_insert]).
  - rewrite Hj in Hperm. pose proof (busy_insert _ _ _ (Busy i) Hw) as Hb. cbn in Hb. rewrite Hb.
    rewrite <- Hperm. cbn. symmetry. apply Permutation_middle.
  - done.
  - intros Hf. rewrite Hfin in Hj; [done|]. apply list_elem_of_lookup in Hf as [k Hk]. destruct (decide (k = w)) as [->|Hne].
    + rewrite list_lookup_insert_eq in Hk by (by eapply lookup_lt_Some). done.
    + rewrite list_lookup_insert_ne in Hk by done. by eapply list_elem_of_lookup_2.
  - pose proof (busy_insert _ _ _ Idle Hw) as Hb. cbn in Hb. rewrite <- Hperm, <- Hb, fmap_app. cbn.
    apply Permutation_app_head. rewrite app_assoc, (Permutation_app_comm _ [i]). done.
  - apply Forall_app. split; [done|]. by apply Forall_singleton.
  - intros Hf. apply Hfin. apply list_elem_of_lookup in Hf as [k Hk]. destruct (decide (k = w)) as [->|Hne].
    + rewrite list_lookup_insert_eq in Hk by (by eapply lookup_lt_Some). done.
    + rewrite list_lookup_insert_ne in Hk by done. by eapply list_elem_of_lookup_2.
  - pose proof (busy_insert _ _ _ Finished Hw) as Hb. cbn in Hb. rewrite Hb. by rewrite Hj in Hperm.
  - done.
  - done.
Qed.

(** Storing the results in any order gives the list of all contents. *)
Lemma store_all (f : nat -> SourceFileContent) l : forall c, Forall (fun r => r.2 = f r.1 /\ (r.1 < length c)%nat) l ->
  (forall i, (i < length c)%nat -> c !! i = Some (f i) \/ i ∈ l.*1) ->
  forall i, (i < length c)%nat -> foldl (fun c r => <[r.1 := r.2]> c) c l !! i = Some (f i).
Proof.
  induction l as [|[j x] l IH]; intros c Hl Hc i Hi; cbn [foldl].
  - destruct (Hc i Hi) as [|?%elem_of_nil]; done.
  - apply Forall_cons in Hl as [[Hx Hj] Hl]. cbn in Hx, Hj. subst x. apply IH.
    + by rewrite length_insert.
    + intros k Hk. rewrite length_insert in Hk. destruct (decide (k = j)) as [->|Hne].
      * left. by apply list_lookup_insert_eq.
      * rewrite list_lookup_insert_ne by done. destruct (Hc k Hk) as [|Hin]; [by left|right].
        by apply elem_of_cons in Hin as [|].
    + by rewrite length_insert.
Qed.

Lemma foldl_insert_length (l : list (nat * SourceFileContent)) : forall c, length (foldl (fun c r => <[r.1 := r.2]> c) c l) = length c.
Proof. induction l as [|r l IH]; intros c; cbn [foldl]; [done|]. by rewrite IH, length_insert. Qed.

Definition weight (w : worker) : nat := match w with Busy _ => 2 | Idle => 1 | Finished => 0 end.
Definition pool_measure (p : pool) : nat := 2 * length (jobs p) + sum_list (weight <$> workers p).

Lemma weight_insert ws w x y : ws !! w = Some x ->
  (weight x + sum_list (weight <$> <[w := y]> ws) = weight y + sum_list (weight <$> ws))%nat.
Proof. revert w. induction ws as [|z ws IH]; intros [|w] Hx; [done..|injection Hx as ->|specialize (IH w Hx)]; cbn -[weight]; [lia|].
  rewrite (Nat.add_shuffle3 (weight x)), (Nat.add_shuffle3 (weight y)). exact (f_equal (Nat.add (weight z)) IH).
Qed.

Lemma all_finished_or ws : Forall (eq Finished) ws \/ exists w x, ws !! w = Some x /\ x <> Finished.
Proof.
  induction ws as [|x ws [IH|(w & y & Hy & ?)]]; [by left| |].
  - destruct x; [right; by exists 0%nat, Idle|right; by exists 0%nat, (Busy index)|left; by constructor].
  - right. by exists (S w), y.
Qed.

(** However the workers are scheduled, fetching ends, and it returns one result for each
    file, in the order of the files: every step makes a measure smaller, a worker that has not
    finished can take a step, and when all have, the stored results are those of fetching
    one file after the other. *)
Theorem pool_fetches_in_order concurrency files p : rtc (pool_step files) (start_pool concurrency files) p ->
  (forall p', pool_step files p p' -> (pool_measure p' < pool_measure p)%nat) /\
  ((exists p', pool_step files p p') \/ contents files p = fetchSourceFile <$> files).
Proof.
  intros Hr. assert (pool_inv concurrency files p) as (Hperm & Hres & Hfin & Hlen).
  { assert (forall q q', rtc (pool_step files) q q' -> pool_inv concurrency files q -> pool_inv concurrency files q') as Hinv.
    { induction 1; [done|]. eauto using pool_step_inv. }
    by eapply Hinv, start_pool_inv. }
  split.
  - destruct 1 as [p w i rest Hw Hj|p w i Hw|p w Hw Hj]; unfold pool_measure; cbn.
    + pose proof (weight_insert _ _ _ (Busy i) Hw) as Hm. rewrite Hj. cbn in *. lia.
    + pose proof (weight_insert _ _ _ Idle Hw) as Hm. cbn in *. lia.
    + pose proof (weight_insert _ _ _ Finished Hw) as Hm. rewrite Hj. cbn in *. lia.
  - destruct (all_finished_or (workers p)) as [Hall|(w & x & Hx & Hne)].
    + right. assert (jobs p = []) as Hj.
      { destruct (workers p) as [|x ws] eqn:Hws.
        - unfold workerCount in Hlen. cbn [length] in Hlen. assert (length files = 0)%nat as Hz.
          { clear -Hlen. revert Hlen. case_match; intros ?%eq_sym; bool_to_prop; lia. }
          rewrite Hz in Hperm. cbn in Hperm. by apply Permutation_sym, Permutation_nil, app_nil in Hperm as [? _].
        - apply Hfin. apply Forall_cons in Hall as [<- _]. left. }
      rewrite Hj in Hperm. cbn in Hperm. assert (workers p ≫= busy_index = []) as Hb.
      { clear -Hall. induction Hall as [|x ws <- _ IH]; [done|]. by cbn. }
      rewrite Hb in Hperm. cbn in Hperm. apply list_eq. intros i. destruct (decide (i < length files)%nat) as [Hi|Hi].
      * unfold contents. rewrite (store_all (fetch_index files)); rewrite ?length_replicate; [| | |done].
        -- rewrite list_lookup_fmap. destruct (lookup_lt_is_Some_2 _ _ Hi) as [f Hf]. rewrite Hf. cbn. unfold fetch_index.
           by rewrite (nth_lookup_Some _ _ _ _ Hf).
        -- apply Forall_forall. intros r Hin. rewrite Forall_forall in Hres. split; [by apply Hres|].
           assert (r.1 ∈ (results p).*1) as Hr1 by (by apply list_elem_of_fmap_2). rewrite Hperm in Hr1. apply elem_of_seq in Hr1. lia.
        -- intros k Hk. right. rewrite Hperm. apply elem_of_seq. lia.
      * rewrite !lookup_ge_None_2; [done|rewrite length_fmap; lia|]. unfold contents. rewrite foldl_insert_length, length_replicate. lia.
    + left. destruct x as [|i|]; [|eexists; by eapply step_send|done].
      destruct (jobs p) as [|i rest] eqn:Hj; eexists; [by eapply step_exit|by eapply step_take].
Qed.

End Fetch.

Definition sample_files : list SourceFile :=
  [{| Locations := [{| Location := "host"; Path := "/a.c" |}; {| Location := "target"; Path := "/b.c" |}]; MinimumLineCount := 2 |};
   {| Locations := [{| Location := "host"; Path := EmptyString |}]; MinimumLineCount := 0 |}].

Definition sample_target (path : string) : string * SourceFailureReason * option string :=
  (bytes [97; 10; 98]%nat, sourceFailureNone, None).

(** The file of the host is too short. *)
Example fetch_sample : map (fun c => (Content c, Location (LoadedLocation c), Reason <$> Failures c))
    (fetchSourceFile (fun _ => Ok "x") (Some sample_target) <$> sample_files) =
  [(bytes [97; 10; 98]%nat, "target", [SourceFailureHostPathMismatched]); (EmptyString, EmptyString, [SourceFailureMissingHostMapping])].
Proof. vm_compute. reflexivity. Qed.

Lemma pool_fetches_in_order_witness :
  let host := fun _ : string => Ok "x" in
  exists p, rtc (pool_step host (Some sample_target) sample_files) (start_pool 4 sample_files) p /\
    ((exists p', pool_step host (Some sample_target) sample_files p p') \/
     contents sample_files p = fetchSourceFile host (Some sample_target) <$> sample_files).
Proof.
  intros host. eexists. assert (rtc (pool_step host (Some sample_target) sample_files) (start_pool 4 sample_files)
    {| jobs := [1%nat]; workers := [Idle; Busy 0]; results := [] |}) as Hr.
  { eapply rtc_once. apply (step_take host (Some sample_target) sample_files (start_pool 4 sample_files) 1 0 [1%nat]); reflexivity. }
  split; [exact Hr|]. exact (proj2 (pool_fetches_in_order host (Some sample_target) 4 sample_files _ Hr)).
Defined.
