(* ===== verification/SourceLines.v ===== *)
(** * Performix: the source lines of a summary

    Models the first half of [core/apap-engine/insights/source_window.go]: ranges of lines around
    sampled lines and their merging, and the choice of the sampled lines whose ranges cover most
    of the samples. *)

From S2P Require Import Prelude.
From S2P Require Import GoFloats.
From S2P Require Import Sorting.

Local Open Scope Z_scope.

Definition max_uint32 : Z := 2 ^ 32 - 1.
Definition sourceWindowsCoverageThresholdPercent : Z := 99.
Definition sourceWindowsContextLines : Z := 10.
Definition sourceWindowsHotWindowThresholdPercent : Z := 5.
Definition sourceWindowsHotWindowContextLines : Z := 100.

Record sourceLineRange := { StartLine : Z; EndLine : Z }.

Record sourceWindowSampleLineRow := {
  sourceFileID : Z; hostLocation : string; targetLocation : string; lineNo : Z; isInlined : bool; periodicSamples : Z
}.

Record indexedSourceWindowSampleLineRow := { row : sourceWindowSampleLineRow; index : nat }.

(** ** Ranges *)

Definition sourceLineRangeForSampleLine (lineNo maxLine : Z) : sourceLineRange := {|
  StartLine := wrap_uint32 (lineNo - Z.min (wrap_uint32 (lineNo - 1)) sourceWindowsContextLines);
  EndLine := wrap_uint32 (lineNo + Z.min (wrap_uint32 (maxLine - lineNo)) sourceWindowsContextLines) |}.

Definition by_line : sourceLineRange -> sourceLineRange -> comparison := then_by (asc StartLine) (asc EndLine).

(** The merged ranges from [last] on. *)
Fixpoint merge_loop (last : sourceLineRange) (ranges : list sourceLineRange) : list sourceLineRange :=
  match ranges with
  | [] => [last]
  | lineRange :: rest =>
      if StartLine lineRange <=? wrap_uint32 (EndLine last + 1)
      then merge_loop {| StartLine := StartLine last;
                         EndLine := if EndLine last <? EndLine lineRange then EndLine lineRange else EndLine last |} rest
      else last :: merge_loop lineRange rest
  end.

(** The row is in the range of lines. *)
Definition row_in (lineRange : sourceLineRange) (r : sourceWindowSampleLineRow) : bool :=
  negb ((lineNo r <? StartLine lineRange) || (EndLine lineRange <? lineNo r)).

Definition sourceWindowSamples (lineRange : sourceLineRange) (rows : list sourceWindowSampleLineRow) : Z :=
  foldl (fun n r => if row_in lineRange r then wrap_uint64 (n + periodicSamples r) else n) 0 rows.

Section Ranges.

Context (sort : forall A : Type, (A -> A -> comparison) -> list A -> list A).

Definition mergeSourceLineRanges (ranges : list sourceLineRange) : list sourceLineRange :=
  match sort sourceLineRange by_line ranges with
  | [] => []
  | first :: rest => merge_loop first rest
  end.

Definition sourceLineRangesForSampleLines (sampleLines : list sourceWindowSampleLineRow) (maxLine : Z) : list sourceLineRange :=
  mergeSourceLineRanges ((fun r => sourceLineRangeForSampleLine (lineNo r) maxLine) <$> filter (fun r => lineNo r <= maxLine) sampleLines).

Definition widen (rows : list sourceWindowSampleLineRow) (totalSourceLineSamples maxLine : Z) (lineRange : sourceLineRange) : sourceLineRange :=
  let extraContextLines := sourceWindowsHotWindowContextLines - sourceWindowsContextLines in
  if float_ge (float64 (sourceWindowSamples lineRange rows)) (percent_of totalSourceLineSamples sourceWindowsHotWindowThresholdPercent)
  then {| StartLine := wrap_uint32 (StartLine lineRange - Z.min (wrap_uint32 (StartLine lineRange - 1)) extraContextLines);
          EndLine := wrap_uint32 (EndLine lineRange + Z.min (wrap_uint32 (maxLine - EndLine lineRange)) extraContextLines) |}
  else lineRange.

Definition widenHotSourceLineRanges (lineRanges : list sourceLineRange) (rows : list sourceWindowSampleLineRow)
    (totalSourceLineSamples maxLine : Z) : list sourceLineRange :=
  if bool_decide (lineRanges = []) || (totalSourceLineSamples =? 0) then lineRanges
  else mergeSourceLineRanges (widen rows totalSourceLineSamples maxLine <$> lineRanges).

End Ranges.

(** ** The choice of lines *)

(** [m[k]] and [m[k] = append(m[k], x)] on a map of slices. *)
Definition slice_at {A} (m : gmap Z (list A)) (k : Z) : list A := default [] (m !! k).
Definition append_at {A} (k : Z) (x : A) (m : gmap Z (list A)) : gmap Z (list A) := <[k := slice_at m k ++ [x]]> m.

Section Select.

Context (sort : forall A : Type, (A -> A -> comparison) -> list A -> list A).

Definition sourceSampleLinesByFileID (sampleLines : list sourceWindowSampleLineRow) : gmap Z (list indexedSourceWindowSampleLineRow) :=
  sort indexedSourceWindowSampleLineRow (asc (fun l => lineNo (row l))) <$>
    foldl (fun m l => append_at (sourceFileID (row l)) l m) ∅ (imap (fun i r => {| row := r; index := i |}) sampleLines).

Definition zero_row : sourceWindowSampleLineRow :=
  {| sourceFileID := 0; hostLocation := EmptyString; targetLocation := EmptyString; lineNo := 0; isInlined := false; periodicSamples := 0 |}.

(** The loop over the lines from the start of the range on. *)
Fixpoint add_loop (lines : list indexedSourceWindowSampleLineRow) (lineRange : sourceLineRange) (selected : list bool) (added : Z)
    : Z * list bool :=
  match lines with
  | [] => (added, selected)
  | l :: rest =>
      if EndLine lineRange <? lineNo (row l) then (added, selected)
      else if nth (index l) selected false then add_loop rest lineRange selected added
      else add_loop rest lineRange (<[index l := true]> selected) (wrap_uint64 (added + periodicSamples (row l)))
  end.

Definition addSourceSampleLinesInRange (lines : list indexedSourceWindowSampleLineRow) (lineRange : sourceLineRange)
    (selected : list bool) : Z * list bool :=
  let startIndex := Search (length lines)
    (fun i => StartLine lineRange <=? lineNo (row (nth i lines {| row := zero_row; index := 0 |}))) in
  add_loop (drop startIndex lines) lineRange selected 0.

Fixpoint select_loop (linesByFileID : gmap Z (list indexedSourceWindowSampleLineRow)) (targetSamples : spec_float)
    (sampleLines : list sourceWindowSampleLineRow) (samplesInWindows : Z) (selected : list bool)
    (hotLinesByFileID : gmap Z (list sourceWindowSampleLineRow)) : list bool * gmap Z (list sourceWindowSampleLineRow) :=
  match sampleLines with
  | [] => (selected, hotLinesByFileID)
  | r :: rest =>
      if float_ge (float64 samplesInWindows) targetSamples then (selected, hotLinesByFileID)
      else
        let lineRange := sourceLineRangeForSampleLine (lineNo r) max_uint32 in
        let (added, selected) := addSourceSampleLinesInRange (slice_at linesByFileID (sourceFileID r)) lineRange selected in
        select_loop linesByFileID targetSamples rest (wrap_uint64 (samplesInWindows + added)) selected
          (append_at (sourceFileID r) r hotLinesByFileID)
  end.

Definition selectSourceWindowSampleLines (sampleLines : list sourceWindowSampleLineRow) (totalSourceLineSamples : Z)
    : list sourceWindowSampleLineRow * gmap Z (list sourceWindowSampleLineRow) :=
  if totalSourceLineSamples =? 0 then ([], ∅)
  else
    let targetSamples := percent_of totalSourceLineSamples sourceWindowsCoverageThresholdPercent in
    let (selected, hotLinesByFileID) := select_loop (sourceSampleLinesByFileID sampleLines) targetSamples sampleLines 0
      (replicate (length sampleLines) false) ∅ in
    if bool_decide (hotLinesByFileID = ∅) then ([], ∅)
    else (fst <$> filter (fun p => p.2 = true) (zip sampleLines selected), hotLinesByFileID).

End Select.

(** ** Ranges and their lines *)

Definition in_range (n : Z) (r : sourceLineRange) : Prop := StartLine r <= n <= EndLine r.

#[export] Instance in_range_dec n r : Decision (in_range n r).
Proof. unfold in_range. apply _. Defined.

(** A range with lines, that does not end at the largest line. *)
Definition range_ok (r : sourceLineRange) : Prop := 1 <= StartLine r <= EndLine r /\ EndLine r < max_uint32.

(** Between two ranges is a line of neither. *)
Definition before (a b : sourceLineRange) : Prop := EndLine a + 1 < StartLine b.

Lemma row_in_spec rg r : row_in rg r = true <-> in_range (lineNo r) rg.
Proof. unfold row_in, in_range. rewrite negb_true_iff, orb_false_iff, !Z.ltb_ge. done. Qed.

Lemma wrap_uint32_id z : 0 <= z < 2 ^ 32 -> wrap_uint32 z = z.
Proof. apply Z.mod_small. Qed.

Lemma sourceLineRange_lines n : 1 <= n <= max_uint32 ->
  StartLine (sourceLineRangeForSampleLine n max_uint32) = Z.max 1 (n - 10) /\
  EndLine (sourceLineRangeForSampleLine n max_uint32) = Z.min max_uint32 (n + 10).
Proof.
  unfold max_uint32, sourceLineRangeForSampleLine, sourceWindowsContextLines. intros ?. cbn [StartLine EndLine].
  rewrite (wrap_uint32_id (n - 1)), (wrap_uint32_id (2 ^ 32 - 1 - n)) by lia. split; rewrite wrap_uint32_id; lia.
Qed.

Lemma widen_lines rows total r : 1 <= StartLine r <= EndLine r -> EndLine r <= max_uint32 ->
  let w := widen rows total max_uint32 r in
  w = r \/ (StartLine w = Z.max 1 (StartLine r - 90) /\ EndLine w = Z.min max_uint32 (EndLine r + 90)).
Proof.
  unfold max_uint32, widen, sourceWindowsHotWindowContextLines, sourceWindowsContextLines. cbn zeta. intros ? ?. destruct (float_ge _ _); [right|by left].
  cbn [StartLine EndLine]. rewrite (wrap_uint32_id (StartLine r - 1)), (wrap_uint32_id (2 ^ 32 - 1 - EndLine r)) by lia.
  split; rewrite wrap_uint32_id; lia.
Qed.

Lemma merge_loop_spec ranges : forall last, Forall range_ok (last :: ranges) ->
  StronglySorted (fun a b => StartLine a <= StartLine b) (last :: ranges) ->
  let merged := merge_loop last ranges in
  StronglySorted before merged /\ Forall range_ok merged /\ Forall (fun r => StartLine last <= StartLine r) merged /\
  (forall n, Exists (in_range n) merged <-> Exists (in_range n) (last :: ranges)).
Proof.
  induction ranges as [|r ranges IH]; intros last Hok Hs; cbn zeta.
  { split_and!; [by repeat constructor|done|by constructor|done]. }
  apply Forall_cons in Hok as [Hl Hok]. pose proof Hok as [Hr _]%Forall_cons. inversion Hs as [|? ? Hs' Hf]; subst.
  apply Forall_cons in Hf as [Hlr Hf]. cbn [merge_loop]. unfold range_ok, max_uint32 in Hl, Hr.
  rewrite wrap_uint32_id by lia. destruct (Z.leb_spec (StartLine r) (EndLine last + 1)) as [Hle|Hgt].
  - set (last' := {| StartLine := _; EndLine := _ |}). assert (EndLine last' = Z.max (EndLine last) (EndLine r)) as He.
    { subst last'. cbn. destruct (Z.ltb_spec (EndLine last) (EndLine r)); lia. }
    apply Forall_cons in Hok as [_ Hok]. inversion Hs' as [|? ? Hs'' _]; subst.
    destruct (IH last') as (H1 & H2 & H3 & H4).
    + constructor; [|done]. unfold range_ok, max_uint32. rewrite He. subst last'. cbn. lia.
    + by constructor.
    + split_and!; [done..|]. intros n. rewrite H4, !Exists_cons.
      assert (in_range n last' <-> in_range n last \/ in_range n r) as ->; [|tauto].
      unfold in_range. rewrite He. subst last'. cbn. lia.
  - destruct (IH r Hok Hs') as (H1 & H2 & H3 & H4). split_and!.
    + constructor; [done|]. eapply Forall_impl; [exact H3|]. unfold before. intros; cbn in *; lia.
    + by constructor.
    + constructor; [lia|]. eapply Forall_impl; [exact H3|]. intros; cbn in *; lia.
    + intros n. rewrite !Exists_cons, H4, Exists_cons. done.
Qed.

Section Merge.
Context (sort : forall A : Type, (A -> A -> comparison) -> list A -> list A) `{!SliceSort sort}.

(** Merging gives ranges in order with a line between any two of them, of exactly the lines of
    the given ranges. *)
Lemma merge_exact ranges (Hok : Forall range_ok ranges) :
  let merged := mergeSourceLineRanges sort ranges in
  StronglySorted before merged /\ Forall range_ok merged /\
  (forall n, Exists (in_range n) merged <-> Exists (in_range n) ranges).
Proof.
  cbn zeta. unfold mergeSourceLineRanges. pose proof (slice_sorts sourceLineRange by_line _) as Hsort.
  pose proof (sort_permutes ranges) as Hp. pose proof (sort_sorted ranges) as Hs.
  assert (forall n, Exists (in_range n) (sort _ by_line ranges) <-> Exists (in_range n) ranges) as Hex
    by (intros n; by rewrite Hp). rewrite <- Hp in Hok.
  destruct (sort _ by_line ranges) as [|first rest]; [by split_and!; [constructor|..]|].
  destruct (merge_loop_spec rest first) as (H1 & H2 & _ & H4); [done| |].
  - eapply StronglySorted_weaken; [|exact Hs]. unfold not_after, by_line, then_by, asc. intros a b Hc. destruct (Z.compare_spec (StartLine a) (StartLine b)); try lia. done.
  - split_and!; [done..|]. intros n. by rewrite H4.
Qed.

(** The line [n] is within so many lines of [h]. *)
Definition lines_around (context : Z) (n h : Z) : Prop := Z.max 1 (h - context) <= n <= h + context.

Lemma ranges_for_sample_lines hot : Forall (fun r => 1 <= lineNo r /\ lineNo r + 10 < max_uint32) hot ->
  let ranges := sourceLineRangesForSampleLines sort hot max_uint32 in
  StronglySorted before ranges /\ Forall range_ok ranges /\
  (forall n, Exists (in_range n) ranges <-> Exists (fun r => lines_around 10 n (lineNo r)) hot).
Proof.
  intros Hhot. cbn zeta. unfold sourceLineRangesForSampleLines. unfold max_uint32 in Hhot.
  assert (filter (fun r => lineNo r <= max_uint32) hot = hot) as ->.
  { clear -Hhot. induction Hhot as [|r hot Hr _ IH]; [done|]. rewrite filter_cons_True by (unfold max_uint32; lia). by rewrite IH. }
  set (around := fun r => sourceLineRangeForSampleLine (lineNo r) max_uint32).
  assert (forall r, r ∈ hot -> StartLine (around r) = Z.max 1 (lineNo r - 10) /\ EndLine (around r) = lineNo r + 10) as Har.
  { intros r Hr. rewrite Forall_forall in Hhot. specialize (Hhot r Hr).
    destruct (sourceLineRange_lines (lineNo r)) as [H1 H2]; unfold max_uint32 in *; [lia|]. split; [done|]. etransitivity; [exact H2|lia]. }
  destruct (merge_exact (around <$> hot)) as (H1 & H2 & H3).
  - apply Forall_fmap, Forall_forall. intros r Hr. destruct (Har r Hr). rewrite Forall_forall in Hhot. specialize (Hhot r Hr).
    change (range_ok (around r)). unfold range_ok, max_uint32. lia.
  - split_and!; [done..|]. intros n. rewrite H3, Exists_fmap, !Exists_exists. unfold compose, in_range, lines_around.
    split; intros (r & Hr & Hn); exists r; (split; [done|]); destruct (Har r Hr); lia.
Qed.

Definition file_ranges (hot rows : list sourceWindowSampleLineRow) (totalSourceLineSamples : Z) : list sourceLineRange :=
  widenHotSourceLineRanges sort (sourceLineRangesForSampleLines sort hot max_uint32) rows totalSourceLineSamples max_uint32.

(** The ranges of a file are in order with a line between any two of them; they have every
    line within 10 lines of a hot line, and every line they have is within 100 lines of
    a hot line. *)
Lemma file_ranges_exact hot rows total (Hhot : Forall (fun r => 1 <= lineNo r /\ lineNo r + 100 < max_uint32) hot) :
  let ranges := file_ranges hot rows total in
  StronglySorted before ranges /\ Forall range_ok ranges /\
  (forall n, Exists (fun r => lines_around 10 n (lineNo r)) hot -> Exists (in_range n) ranges) /\
  (forall n, Exists (in_range n) ranges -> Exists (fun r => lines_around 100 n (lineNo r)) hot).
Proof.
  destruct (ranges_for_sample_lines hot) as (H1 & H2 & H3); [by eapply Forall_impl; [exact Hhot|]; cbn; lia|].
  assert (forall context n, 10 <= context -> Exists (fun r => lines_around 10 n (lineNo r)) hot -> Exists (fun r => lines_around context n (lineNo r)) hot) as Hmore
    by (intros context n ? Hex; eapply Exists_impl; [exact Hex|]; unfold lines_around; intros; cbn in *; lia).
  unfold file_ranges, widenHotSourceLineRanges. set (ranges := sourceLineRangesForSampleLines _ _ _) in *. cbn zeta.
  destruct (bool_decide (ranges = []) || (total =? 0)).
  { split_and!; [done..|intros n; by rewrite H3|]. intros n. rewrite H3. apply Hmore. lia. }
  assert (forall r, r ∈ ranges -> let w := widen rows total max_uint32 r in
    StartLine w <= StartLine r /\ EndLine r <= EndLine w /\ range_ok w /\ Z.max 1 (StartLine r - 90) <= StartLine w /\ EndLine w <= EndLine r + 90) as Hw.
  { intros r Hr. rewrite Forall_forall in H2. pose proof (H2 r Hr) as [Hle Hlt].
    destruct (proj1 (Exists_exists _ _) (proj1 (H3 (EndLine r)) (proj2 (Exists_exists _ _) (ex_intro _ r (conj Hr (conj (proj2 Hle) (Z.le_refl _))))))) as (h & Hh & Hend).
    rewrite Forall_forall in Hhot. specialize (Hhot h Hh). unfold lines_around, range_ok in *. cbn zeta.
    destruct (widen_lines rows total r) as [->|[-> ->]]; unfold max_uint32 in *; cbn in *; lia. }
  destruct (merge_exact (widen rows total max_uint32 <$> ranges)) as (H1' & H2' & H3').
  { apply Forall_fmap, Forall_forall. intros r Hr. by apply Hw. }
  split_and!; [done..| |].
  - intros n Hn%H3. rewrite H3', Exists_fmap. apply Exists_exists in Hn as (r & Hr & Hn). apply Exists_exists. exists r. split; [done|].
    destruct (Hw r Hr) as (? & ? & _). unfold in_range in *. cbn. lia.
  - intros n. rewrite H3', Exists_fmap, Exists_exists. intros (r & Hr & Hn). destruct (Hw r Hr) as (? & ? & Hok & ? & ?).
    rewrite Forall_forall in H2. pose proof (H2 r Hr) as [Hle Hlt].
    assert (in_range (Z.max (StartLine r) (Z.min n (EndLine r))) r) as Hin by (unfold in_range; lia).
    destruct (proj1 (Exists_exists _ _) (proj1 (H3 _) (proj2 (Exists_exists _ _) (ex_intro _ r (conj Hr Hin))))) as (h & Hh & Hl).
    apply Exists_exists. exists h. split; [done|]. unfold in_range, lines_around, range_ok in *. cbn in *. lia.
Qed.

End Merge.

Definition row_at (n samples : Z) : sourceWindowSampleLineRow :=
  {| sourceFileID := 1; hostLocation := "a.c"; targetLocation := "/src/a.c"; lineNo := n; isInlined := false; periodicSamples := samples |}.

Example file_ranges_sample : let hot := [row_at 5 3; row_at 30 90; row_at 150 1] in
  file_ranges (@sort_by) hot hot 100 = [{| StartLine := 1; EndLine := 130 |}; {| StartLine := 140; EndLine := 160 |}].
Proof. vm_compute. reflexivity. Qed.

(** A range that ends at the largest line is not merged with the next: the line after it wraps
    around to 0, so the ranges overlap. *)
Example ranges_at_the_largest_line :
  sourceLineRangesForSampleLines (@sort_by) [row_at max_uint32 1; row_at (max_uint32 - 1) 1] max_uint32 =
    [{| StartLine := max_uint32 - 11; EndLine := max_uint32 |}; {| StartLine := max_uint32 - 10; EndLine := max_uint32 |}].
Proof. vm_compute. reflexivity. Qed.

(** ** Rows by file *)

Lemma slice_at_append {A} (m : gmap Z (list A)) k x j :
  slice_at (append_at k x m) j = slice_at m j ++ (if decide (k = j) then [x] else []).
Proof.
  unfold append_at, slice_at. destruct (decide (k = j)) as [->|Hne]; [by rewrite lookup_insert_eq|].
  by rewrite lookup_insert_ne, app_nil_r.
Qed.

Definition group_by {A} (key : A -> Z) (l : list A) : gmap Z (list A) := foldl (fun m x => append_at (key x) x m) ∅ l.

Lemma group_by_snoc {A} (key : A -> Z) l x : group_by key (l ++ [x]) = append_at (key x) x (group_by key l).
Proof. unfold group_by. by rewrite foldl_app. Qed.

Lemma group_by_slice {A} (key : A -> Z) l k : slice_at (group_by key l) k = filter (fun x => key x = k) l.
Proof.
  induction l as [|x l IH] using rev_ind; [unfold group_by, slice_at; cbn; by rewrite lookup_empty|].
  rewrite group_by_snoc, slice_at_append, IH, filter_app. by destruct (decide (key x = k));
    [rewrite filter_cons_True by done|rewrite filter_cons_False by done].
Qed.

(** A key has a slice when it has an element. *)
Lemma group_by_lookup {A} (key : A -> Z) l k s : group_by key l !! k = Some s <-> s = filter (fun x => key x = k) l /\ s <> [].
Proof.
  split.
  - intros Hs. split; [rewrite <- group_by_slice; unfold slice_at; by rewrite Hs|]. revert s Hs.
    induction l as [|x l IH] using rev_ind; [done|]. rewrite group_by_snoc. intros s.
    unfold append_at. destruct (decide (key x = k)) as [->|Hne]; [rewrite lookup_insert_eq; intros [= <-]; by destruct (slice_at _ _)|].
    rewrite lookup_insert_ne by done. apply IH.
  - intros [-> Hne]. rewrite <- group_by_slice in *. unfold slice_at in *. by destruct (group_by key l !! k).
Qed.

(** ** The reference selection *)

(** The row is in the window around the row [a]. *)
Definition in_window (a r : sourceWindowSampleLineRow) : bool :=
  bool_decide (sourceFileID r = sourceFileID a) && row_in (sourceLineRangeForSampleLine (lineNo a) max_uint32) r.

Definition in_windows (hot : list sourceWindowSampleLineRow) (r : sourceWindowSampleLineRow) : bool := existsb (fun a => in_window a r) hot.

Definition covered (hot rows : list sourceWindowSampleLineRow) : list sourceWindowSampleLineRow := filter (fun r => in_windows hot r = true) rows.

Definition total_samples (rows : list sourceWindowSampleLineRow) : Z := foldr (fun r n => periodicSamples r + n) 0 rows.

(** The samples in the windows around [hot] reach the threshold. *)
Definition enough (rows : list sourceWindowSampleLineRow) (totalSourceLineSamples : Z) (hot : list sourceWindowSampleLineRow) : bool :=
  float_ge (float64 (wrap_uint64 (total_samples (covered hot rows)))) (percent_of totalSourceLineSamples sourceWindowsCoverageThresholdPercent).

Section Selection.

Context (sort : forall A : Type, (A -> A -> comparison) -> list A -> list A) `{!SliceSort sort}.
Context (rows : list sourceWindowSampleLineRow).

Definition selected_samples (selected : list bool) : Z :=
  foldr Z.add 0 (zip_with (fun r (b : bool) => if b then periodicSamples r else 0) rows selected).

Lemma selected_samples_insert selected i r : rows !! i = Some r -> selected !! i = Some false ->
  selected_samples (<[i := true]> selected) = selected_samples selected + periodicSamples r.
Proof.
  unfold selected_samples. revert selected i. induction rows as [|x l IH]; intros [|b selected] [|i] Hr Hs; try done.
  - cbn in Hr, Hs. simplify_eq. cbn [insert list_insert zip_with foldr]. lia.
  - specialize (IH selected i Hr Hs). change (<[S i := true]> (b :: selected)) with (b :: <[i := true]> selected).
    cbn [zip_with foldr]. lia.
Qed.

Definition index_ok (l : indexedSourceWindowSampleLineRow) : Prop := rows !! index l = Some (row l).

(** The indices that the loop marks. *)
Definition marks (lines : list indexedSourceWindowSampleLineRow) (rg : sourceLineRange) (i : nat) : bool :=
  existsb (fun l => (index l =? i)%nat && (lineNo (row l) <=? EndLine rg)) lines.

Lemma add_loop_spec rg lines : Forall index_ok lines -> StronglySorted (fun a b => lineNo (row a) <= lineNo (row b)) lines ->
  forall selected added, length selected = length rows ->
  let r := add_loop lines rg selected added in
  length r.2 = length rows /\
  (forall i b, selected !! i = Some b -> r.2 !! i = Some (b || marks lines rg i)) /\
  exists k, r.1 = added + (selected_samples r.2 - selected_samples selected) + k * 2 ^ 64.
Proof.
  induction 1 as [|l lines Hl Hlines IH]; intros Hs selected added Hlen; cbn zeta.
  { cbn. split_and!; [done|intros i b; by rewrite orb_false_r|exists 0; lia]. }
  inversion Hs as [|? ? Hs' Hf]; subst. cbn [add_loop marks existsb].
  destruct (Z.ltb_spec (EndLine rg) (lineNo (row l))) as [Hgt|Hle].
  { split_and!; [done| |exists 0; cbn; lia]. intros i b Hb. cbn. rewrite Hb. f_equal. rewrite (proj2 (Z.leb_gt _ _)) by done.
    rewrite andb_false_r. cbn. assert (marks lines rg i = false) as Hm; [|unfold marks in Hm; rewrite Hm; by rewrite orb_false_r].
    apply not_true_iff_false. intros (x & Hx & Hx2)%existsb_elem_of. rewrite Forall_forall in Hf. specialize (Hf x Hx).
    apply andb_true_iff in Hx2 as [_ Hx2]. apply Z.leb_le in Hx2. lia. }
  rewrite (proj2 (Z.leb_le _ _)) by done. destruct (nth (index l) selected false) eqn:Hsel.
  - destruct (IH Hs' selected added Hlen) as (H1 & H2 & H3). split_and!; [done| |done]. intros i b Hb. rewrite (H2 i b Hb). f_equal.
    destruct (Nat.eqb_spec (index l) i) as [<-|]; [|done]. apply nth_lookup_Some with (d := false) in Hb. by rewrite Hsel in Hb; subst b.
  - assert (selected !! index l = Some false) as Hfalse.
    { destruct (lookup_lt_is_Some_2 selected (index l)) as [b Hb]; [rewrite Hlen; by eapply lookup_lt_Some|].
      rewrite Hb. f_equal. rewrite <- Hsel. symmetry. by apply nth_lookup_Some. }
    destruct (IH Hs' (<[index l := true]> selected) (wrap_uint64 (added + periodicSamples (row l)))) as (H1 & H2 & (k & H3)); [by rewrite length_insert|].
    split_and!; [done| |].
    + intros i b Hb. destruct (Nat.eqb_spec (index l) i) as [<-|Hne].
      * rewrite (H2 _ true) by (apply list_lookup_insert_eq; by eapply lookup_lt_Some). cbn. by rewrite orb_true_r.
      * rewrite (H2 i b); [done|]. by rewrite list_lookup_insert_ne.
    + rewrite H3, (selected_samples_insert _ _ (row l)) by done. unfold wrap_uint64.
      pose proof (Z.div_mod (added + periodicSamples (row l)) (2 ^ 64)) as Hdiv.
      exists (k - (added + periodicSamples (row l)) / 2 ^ 64). lia.
Qed.

Lemma selected_samples_fmap (P : sourceWindowSampleLineRow -> bool) :
  selected_samples (P <$> rows) = total_samples (filter (fun r => P r = true) rows).
Proof.
  unfold selected_samples, total_samples. induction rows as [|r l IH]; [done|]. rewrite filter_cons, fmap_cons. cbn [zip_with foldr]. rewrite IH.
  destruct (P r); [by rewrite decide_True|]. rewrite decide_False by done. lia.
Qed.

(** The lines of a file with their indices, in the order of the lines. *)
Lemma lines_by_file id : let lines := slice_at (sourceSampleLinesByFileID sort rows) id in
  StronglySorted (fun a b => lineNo (row a) <= lineNo (row b)) lines /\
  forall l, l ∈ lines <-> index_ok l /\ sourceFileID (row l) = id.
Proof.
  cbn zeta. unfold sourceSampleLinesByFileID. set (m := foldl _ _ _).
  pose proof (slice_sorts indexedSourceWindowSampleLineRow (asc (fun l => lineNo (row l))) _) as Hsort.
  assert (slice_at (sort _ (asc (fun l => lineNo (row l))) <$> m) id ≡ₚ slice_at m id /\
          StronglySorted (not_after (asc (fun l => lineNo (row l)))) (slice_at (sort _ (asc (fun l => lineNo (row l))) <$> m) id)) as [Hp Hs].
  { unfold slice_at. rewrite lookup_fmap. destruct (m !! id) as [s|]; cbn; [|by split; [|constructor]].
    split; [apply sort_permutes|apply sort_sorted]. }
  split.
  - eapply StronglySorted_weaken; [|exact Hs]. intros a b. unfold not_after, asc. destruct (Z.compare_spec (lineNo (row a)) (lineNo (row b))); intros ?; [lia..|done].
  - intros l. rewrite Hp. subst m.
    change (foldl _ ∅ ?x) with (group_by (fun l => sourceFileID (row l)) x). rewrite group_by_slice, list_elem_of_filter.
    assert (l ∈ imap (fun i r => {| row := r; index := i |}) rows <-> index_ok l) as ->; [|tauto].
    unfold index_ok. rewrite list_elem_of_lookup. split.
    + intros [i Hi]. rewrite list_lookup_imap in Hi. destruct (rows !! i) eqn:Hr; [|done]. cbn in Hi. by injection Hi as <-.
    + intros Hl. exists (index l). rewrite list_lookup_imap, Hl. by destruct l.
Qed.

(** Adding the rows of a file that are in a range. *)
Lemma addSourceSampleLinesInRange_spec (P : sourceWindowSampleLineRow -> bool) id rg :
  let P' := fun x => P x || (bool_decide (sourceFileID x = id) && row_in rg x) in
  let r := addSourceSampleLinesInRange (slice_at (sourceSampleLinesByFileID sort rows) id) rg (P <$> rows) in
  r.2 = P' <$> rows /\
  exists k, r.1 = total_samples (filter (fun x => P' x = true) rows) - total_samples (filter (fun x => P x = true) rows) + k * 2 ^ 64.
Proof.
  cbn zeta. destruct (lines_by_file id) as [Hs Hin]. set (lines := slice_at _ id) in *. clearbody lines.
  unfold addSourceSampleLinesInRange. set (d := {| row := zero_row; index := 0 |}). set (f := fun i => StartLine rg <=? lineNo (row (nth i lines d))).
  destruct (Search_first (length lines) f) as (Hle & Hlow & Hhigh).
  { intros a b [Hab Hb] Ha%Z.leb_le. apply Z.leb_le. destruct (decide (a = b)) as [->|Hne]; [done|].
    destruct (lookup_lt_is_Some_2 lines a) as [x Hx]; [lia|]. destruct (lookup_lt_is_Some_2 lines b) as [y Hy]; [lia|].
    rewrite (nth_lookup_Some _ _ _ _ Hx) in Ha. rewrite (nth_lookup_Some _ _ _ _ Hy).
    etransitivity; [exact Ha|]. eapply (StronglySorted_lookup_lt (fun a b => lineNo (row a) <= lineNo (row b))); [done|exact Hx|exact Hy|lia]. }
  set (start := Search _ f) in *.
  destruct (add_loop_spec rg (drop start lines)) with (selected := P <$> rows) (added := 0) as (Hlen & Hmark & k & Hsum).
  { apply Forall_drop, Forall_forall. intros l [Hl _]%Hin. exact Hl. }
  { eapply StronglySorted_sublist; [apply sublist_drop|done]. }
  { by rewrite length_fmap. }
  assert ((add_loop (drop start lines) rg (P <$> rows) 0).2 = (fun x => P x || (bool_decide (sourceFileID x = id) && row_in rg x)) <$> rows) as Heq.
  { apply list_eq. intros i. rewrite list_lookup_fmap. destruct (rows !! i) as [x|] eqn:Hx.
    - rewrite (Hmark i (P x)) by (by rewrite list_lookup_fmap, Hx). cbn. f_equal. f_equal. apply eq_bool_prop_intro.
      rewrite !Is_true_true. unfold marks. rewrite existsb_elem_of, andb_true_iff, bool_decide_eq_true, row_in_spec. split.
      + intros (l & Hl & [<-%Nat.eqb_eq Hend%Z.leb_le]%andb_true_iff). apply list_elem_of_lookup in Hl as [j Hj].
        rewrite lookup_drop in Hj. pose proof (list_elem_of_lookup_2 _ _ _ Hj) as [Hok Hid]%Hin. unfold index_ok in Hok. simplify_eq.
        split; [done|]. split; [|done]. specialize (Hhigh (start + j)%nat). unfold f in Hhigh.
        rewrite (nth_lookup_Some _ _ _ _ Hj) in Hhigh. apply Z.leb_le, Hhigh. split; [lia|by eapply lookup_lt_Some].
      + intros [Hid [Hst Hend]]. exists {| row := x; index := i |}. cbn. rewrite Nat.eqb_refl, (proj2 (Z.leb_le _ _)) by done. split; [|done].
        assert ({| row := x; index := i |} ∈ lines) as [j Hj]%list_elem_of_lookup by (by apply Hin).
        apply list_elem_of_lookup. exists (j - start)%nat. rewrite lookup_drop.
        assert (start <= j)%nat; [|by replace (start + (j - start))%nat with j by lia].
        destruct (decide (j < start)%nat) as [Hlt|]; [|lia]. specialize (Hlow j Hlt). unfold f in Hlow.
        rewrite (nth_lookup_Some _ _ _ _ Hj) in Hlow. cbn in Hlow. lia.
    - apply lookup_ge_None_2. rewrite Hlen. by apply lookup_ge_None_1. }
  split; [exact Heq|]. exists k. rewrite Hsum, Heq, !selected_samples_fmap. lia.
Qed.

(** The loop of the selection: [done] are the rows before. *)
Lemma select_loop_spec target rest : forall done,
  let enough hot := float_ge (float64 (wrap_uint64 (total_samples (covered hot rows)))) target in
  exists k, (k <= length rest)%nat /\
    select_loop (sourceSampleLinesByFileID sort rows) target rest (wrap_uint64 (total_samples (covered done rows)))
      (in_windows done <$> rows) (group_by sourceFileID done) =
      (in_windows (done ++ take k rest) <$> rows, group_by sourceFileID (done ++ take k rest)) /\
    (forall j, (j < k)%nat -> enough (done ++ take j rest) = false) /\
    (k = length rest \/ enough (done ++ take k rest) = true).
Proof.
  induction rest as [|r rest IH]; intros hot; cbn zeta; cbn [select_loop].
  { exists 0%nat. cbn. rewrite app_nil_r. split_and!; [done|done|lia|by left]. }
  destruct (float_ge _ _) eqn:Hge.
  { exists 0%nat. cbn [take]. rewrite app_nil_r. split_and!; [lia|done|lia|by right]. }
  destruct (addSourceSampleLinesInRange_spec (in_windows hot) (sourceFileID r) (sourceLineRangeForSampleLine (lineNo r) max_uint32)) as [Hsel [q Hsum]].
  destruct (addSourceSampleLinesInRange _ _ _) as [added selected]. cbn [fst snd] in *.
  assert (forall x, in_windows hot x || (bool_decide (sourceFileID x = sourceFileID r) && row_in (sourceLineRangeForSampleLine (lineNo r) max_uint32) x) =
    in_windows (hot ++ [r]) x) as Hw by (intros x; unfold in_windows; rewrite existsb_app; cbn; by rewrite orb_false_r).
  assert (selected = in_windows (hot ++ [r]) <$> rows) as -> by (rewrite Hsel; apply list_fmap_ext; intros; apply Hw).
  assert (wrap_uint64 (wrap_uint64 (total_samples (covered hot rows)) + added) = wrap_uint64 (total_samples (covered (hot ++ [r]) rows))) as ->.
  { assert (covered (hot ++ [r]) rows = filter (fun x => in_windows hot x ||
      (bool_decide (sourceFileID x = sourceFileID r) && row_in (sourceLineRangeForSampleLine (lineNo r) max_uint32) x) = true) rows) as ->
      by (unfold covered; apply list_filter_iff; intros x; by rewrite Hw).
    rewrite Hsum. unfold wrap_uint64, covered.
    rewrite Zplus_mod_idemp_l. rewrite Z.add_assoc, Z.mod_add by lia. f_equal. lia. }
  rewrite <- group_by_snoc. destruct (IH (hot ++ [r])) as (k & Hk & Heq & Hno & Hend).
  exists (S k). cbn [length take]. rewrite (cons_middle r hot (take k rest)), app_assoc.
  split_and!; [lia|done| |destruct Hend as [->|]; [by left|by right]].
  intros [|j] Hj; cbn [take]; [by rewrite app_nil_r|]. rewrite cons_middle, app_assoc. apply Hno. lia.
Qed.

(** The hot lines are the shortest prefix of the sampled lines such that the windows around
    them have the share of the samples to cover, and the lines selected are those in
    the windows, each counted once; all this for every sort. *)
Lemma selection_is_shortest_prefix total (Ht : total <> 0) :
  exists k, let hot := take k rows in
    selectSourceWindowSampleLines sort rows total = (covered hot rows, group_by sourceFileID hot) /\
    (forall j, (j < k)%nat -> enough rows total (take j rows) = false) /\
    (enough rows total hot = true \/ hot = rows).
Proof.
  unfold selectSourceWindowSampleLines. rewrite (proj2 (Z.eqb_neq _ _)) by done.
  destruct (select_loop_spec (percent_of total sourceWindowsCoverageThresholdPercent) rows []) as (k & Hk & Heq & Hno & Hend).
  exists k. cbn zeta.
  assert (in_windows [] <$> rows = replicate (length rows) false) as Hrep by (clear; induction rows as [|r l IH]; [done|]; cbn; by f_equal).
  assert (wrap_uint64 (total_samples (covered [] rows)) = 0) as Hzero.
  { unfold covered. assert (filter (fun r => in_windows [] r = true) rows = []) as ->; [|done]. by apply filter_nil_iff. }
  rewrite Hrep, Hzero in Heq. change (group_by sourceFileID []) with (∅ : gmap Z (list sourceWindowSampleLineRow)) in Heq. cbn [app] in *. rewrite Heq.
  assert (fst <$> filter (fun p => p.2 = true) (zip rows (in_windows (take k rows) <$> rows)) = covered (take k rows) rows) as Hzip.
  { unfold covered. generalize (in_windows (take k rows)). intros P. clear. induction rows as [|r l IH]; [done|]. cbn [fmap list_fmap zip zip_with].
    rewrite !filter_cons. cbn [snd]. destruct (P r); [rewrite !decide_True by done|rewrite !decide_False by done]; [cbn; f_equal|]; exact IH. }
  rewrite Hzip. split_and!; [|exact Hno|].
  - case_bool_decide as Hemp; [|done]. destruct (take k rows) as [|r l] eqn:Htk.
    + unfold covered. f_equal. symmetry. by apply filter_nil_iff.
    + exfalso. assert (group_by sourceFileID (r :: l) !! sourceFileID r = Some (filter (fun x => sourceFileID x = sourceFileID r) (r :: l))) as Hl.
      { apply group_by_lookup. split; [done|]. by rewrite filter_cons_True. }
      by rewrite Hemp in Hl.
  - destruct Hend as [->|?]; [right; by rewrite take_ge by lia|by left].
Qed.

End Selection.

(** The third row is in the window of the first, and the two files are enough. *)
Example selection_sample : let rows := [row_at 5 60; {| sourceFileID := 2; hostLocation := EmptyString; targetLocation := "/b.c"; lineNo := 7;
      isInlined := true; periodicSamples := 20 |}; row_at 9 19; row_at 40 1] in
  map lineNo (selectSourceWindowSampleLines (@sort_by) rows 100).1 = [5; 7; 9].
Proof. vm_compute. reflexivity. Qed.
