(* ===== verification/SourceWindows.v ===== *)
(** * Performix: the source windows of a run

    Models the second half of [core/apap-engine/insights/source_window.go]: the files of the
    selected lines are fetched, their windows are built, annotated with samples, and cut to a
    byte limit. The iteration over a map takes any order of its entries. *)

From S2P Require Import Prelude.
From S2P Require Import GoStrings.
From S2P Require Import GoFloats.
From S2P Require Import Json.
From S2P Require Import Sorting.
From S2P Require Import RenderTables.
From S2P Require Import Insights.
From S2P Require Import SourceFetcher.
From S2P Require Import SourceLines.
From Stdlib Require Import Ascii.

Local Open Scope Z_scope.

Definition sourceWindowsSummaryName : string := "source_windows".

Record sourceUnavailability := { u_Reason : string; u_Path : string }.

Record sourceWindow := {
  SourceFileID : Z; w_Path : string; w_StartLine : Z; w_EndLine : Z; Samples : Z; SourceLines : list string;
  SourceUnavailability : list sourceUnavailability
}.

Record sourceWindowsPayload := { TotalSourceLineSamples : Z; Windows : list sourceWindow }.

Record sourceWindowsTables := { t_periodicSamples : string; t_sourceFiles : string }.

(** ** Lines of a content *)

Definition carriage_return : ascii := "013".

(** [strings.ReplaceAll(s, "\r\n", "\n")] *)
Fixpoint replace_crlf (s : string) : string :=
  match s with
  | String c s' =>
      match s' with
      | String d s'' =>
          if Ascii.eqb c carriage_return && Ascii.eqb d newline then String newline (replace_crlf s'') else String c (replace_crlf s')
      | EmptyString => String c EmptyString
      end
  | EmptyString => EmptyString
  end.

Definition TrimSuffix (s suf : string) : string :=
  if HasSuffix s suf then stake (String.length s - String.length suf) s else s.

Definition sourceContentLines (content : string) : list string :=
  Split newline (TrimSuffix (replace_crlf content) (String newline EmptyString)).

Example sourceContentLines_sample : sourceContentLines (bytes [97; 13; 10; 10; 98; 13; 10]%nat) = ["a"; EmptyString; "b"].
Proof. reflexivity. Qed.

Lemma string_pair_ind (P : string -> Prop) : P EmptyString -> (forall c, P (String c EmptyString)) ->
  (forall c d s, P s -> P (String d s) -> P (String c (String d s))) -> forall s, P s.
Proof.
  intros H0 H1 H2 s. enough (P s /\ forall c, P (String c s)) by tauto.
  induction s as [|c s [IH1 IH2]]; [by split|]. split; [done|]. intros d. by apply H2.
Qed.

Lemma replace_crlf_cons c d s : replace_crlf (String c (String d s)) =
  if Ascii.eqb c carriage_return && Ascii.eqb d newline then String newline (replace_crlf s) else String c (replace_crlf (String d s)).
Proof. done. Qed.

Lemma replace_crlf_count s : CountByte (replace_crlf s) newline = CountByte s newline.
Proof.
  induction s as [| |c d s IH IHd] using string_pair_ind; [done|done|]. rewrite replace_crlf_cons.
  destruct (_ && _) eqn:Hc; [|cbn [CountByte] in *; by rewrite IHd].
  apply andb_true_iff in Hc as [->%Ascii.eqb_eq ->%Ascii.eqb_eq]. cbn [CountByte]. rewrite IH. reflexivity.
Qed.

Lemma replace_crlf_nonempty c s : exists d t, replace_crlf (String c s) = String d t.
Proof. destruct s; [by eexists _, _|]. rewrite replace_crlf_cons. destruct (_ && _); eauto. Qed.

Lemma HasSuffix_cons c s : s <> EmptyString ->
  HasSuffix (String c s) (String newline EmptyString) = HasSuffix s (String newline EmptyString).
Proof. intros Hs. cbn [HasSuffix]. rewrite bool_decide_false; [done|]. by intros [= _ ->]. Qed.

Lemma replace_crlf_suffix s : HasSuffix (replace_crlf s) (String newline EmptyString) = HasSuffix s (String newline EmptyString).
Proof.
  induction s as [| |c d s IH IHd] using string_pair_ind; [done|done|]. rewrite (HasSuffix_cons c) by done. rewrite replace_crlf_cons.
  destruct (_ && _) eqn:Hc.
  - apply andb_true_iff in Hc as [_ ->%Ascii.eqb_eq]. destruct s as [|e s]; [done|]. destruct (replace_crlf_nonempty e s) as (f & t & Heq).
    rewrite !HasSuffix_cons by (done || by rewrite Heq). exact IH.
  - destruct (replace_crlf_nonempty d s) as (f & t & Heq). rewrite HasSuffix_cons by (by rewrite Heq). exact IHd.
Qed.

Lemma Split_count c s : Z.of_nat (length (Split c s)) = CountByte s c + 1.
Proof.
  induction s as [|d s IH]; [done|]. cbn [Split CountByte]. destruct (Ascii.eqb d c); [cbn [length]; lia|].
  destruct (Split c s) as [|w ws] eqn:Hs; [by apply Split_nonempty in Hs|]. cbn [length] in *. lia.
Qed.

Lemma CountByte_app s t c : CountByte (s +:+ t) c = CountByte s c + CountByte t c.
Proof. induction s as [|d s IH]; [done|]. rewrite sapp_cons. cbn [CountByte]. lia. Qed.

Lemma stake_app s t : stake (String.length (s +:+ t) - String.length t) (s +:+ t) = s.
Proof. rewrite slength_app, Nat.add_sub. apply stake_prefix. Qed.

(** A file that was loaded because it has enough lines has a text for each of them. *)
Lemma sourceContentLines_length content : Z.of_nat (length (sourceContentLines content)) = sourceContentLineCount content.
Proof.
  unfold sourceContentLines, sourceContentLineCount, TrimSuffix. rewrite Split_count, <- (replace_crlf_suffix content), <- (replace_crlf_count content).
  destruct (HasSuffix (replace_crlf content) (String newline EmptyString)) eqn:Hs; [|done]. apply suffix_spec in Hs as [u ->]. rewrite stake_app, CountByte_app.
  assert (CountByte (String newline EmptyString) newline = 1) as -> by done. lia.
Qed.

(** ** Unavailable files *)

Definition unavailability_reason (reason : SourceFailureReason) : option string :=
  match reason with
  | SourceFailureMissingHostMapping => Some "missing_host_source_mapping"
  | SourceFailureHostPathFailed => Some "failed_host_source_path"
  | SourceFailureHostPathMismatched => Some "mismatched_host_source_path"
  | SourceFailureTargetPathFailed => Some "failed_target_source_path"
  | SourceFailureTargetPathMismatched => Some "mismatched_target_source_path"
  | SourceFailureTargetNotReachable => Some "target_not_reachable"
  | SourceFailureTargetAgentUnavailable => Some "target_agent_unavailable"
  | sourceFailureNone => None
  end.

Definition sourceUnavailabilityForFetchFailure (result : SourceFileContent) : list sourceUnavailability :=
  omap (fun failure => (fun reason => {| u_Reason := reason; u_Path := f_Path failure |}) <$> unavailability_reason (Reason failure))
    (Failures result).

(** ** One window *)

(** [%{width}d] *)
Definition pad (width : nat) (s : string) : string :=
  Nat.iter (width - String.length s) (String " ") s.

Definition formatSourceLine (lineNo : Z) (text : string) (samples : Z) (inlined : bool) : string :=
  let line := pad 7 (Itoa lineNo) +:+ ":" +:+ text in
  if samples =? 0 then "         " +:+ line
  else if inlined then pad 8 (Itoa samples) +:+ "i" +:+ line
  else pad 8 (Itoa samples) +:+ " " +:+ line.

Example formatSourceLine_sample : formatSourceLine 12 "x = 1;" 345 true = "     345i     12:x = 1;".
Proof. reflexivity. Qed.

(** The samples and the inlining of a line: those of the last row of the line. *)
Definition annotations (lineRange : sourceLineRange) (rows : list sourceWindowSampleLineRow) : gmap Z (Z * bool) :=
  foldl (fun m r => if row_in lineRange r then <[lineNo r := (periodicSamples r, isInlined r)]> m else m) ∅ rows.

(** The loop over the lines of the range; [None] is an index out of range. The counter wraps
    around, so that no fuel would be enough for a range that ends at the largest line, but
    its last index is out of range. *)
Fixpoint lines_loop (fuel : nat) (ann : gmap Z (Z * bool)) (sourceLines : list string) (lineNo endLine : Z) : option (list string) :=
  match fuel with
  | O => None
  | S fuel =>
      if lineNo <=? endLine then
        text ← sourceLines !! Z.to_nat (wrap_uint32 (lineNo - 1));
        rest ← lines_loop fuel ann sourceLines (wrap_uint32 (lineNo + 1)) endLine;
        let (samples, inlined) := default (0, false) (ann !! lineNo) in
        Some (formatSourceLine lineNo text samples inlined :: rest)
      else Some []
  end.

Definition buildSourceWindow (sourceFileID : Z) (path : string) (lineRange : sourceLineRange)
    (fileSampleLines : list sourceWindowSampleLineRow) (sourceLines : list string) : option sourceWindow :=
  lines ← lines_loop (S (Z.to_nat (EndLine lineRange - StartLine lineRange + 1))) (annotations lineRange fileSampleLines) sourceLines
            (StartLine lineRange) (EndLine lineRange);
  Some {| SourceFileID := sourceFileID; w_Path := path; w_StartLine := StartLine lineRange; w_EndLine := EndLine lineRange;
          Samples := sourceWindowSamples lineRange fileSampleLines; SourceLines := lines; SourceUnavailability := [] |}.

(** ** All windows *)

Section Windows.

Context (sort : forall A : Type, (A -> A -> comparison) -> list A -> list A).
Context (map_range : forall A : Type, gmap Z A -> list (Z * A)).

(** The largest sampled line of the ranges. *)
Definition minimum_line_count (rows : list sourceWindowSampleLineRow) (lineRanges : list sourceLineRange) : Z :=
  foldl (fun n r => foldl (fun n lineRange => if negb (row_in lineRange r) then n else if n <? lineNo r then lineNo r else n) n lineRanges)
    0 rows.

(** The file of rows, of which [first] is the first. *)
Definition source_file (first : sourceWindowSampleLineRow) (rows : list sourceWindowSampleLineRow) (lineRanges : list sourceLineRange)
    : SourceFile :=
  {| Locations := {| Location := SourceLocationHost; Path := hostLocation first |} ::
       (if bool_decide (targetLocation first = EmptyString) then []
        else [{| Location := SourceLocationTarget; Path := targetLocation first |}]);
     MinimumLineCount := minimum_line_count rows lineRanges |}.

(** [None] is an index out of range: a file without rows. *)
Definition source_file_of (lineRangesByFileID : gmap Z (list sourceLineRange)) (file : Z * list sourceWindowSampleLineRow)
    : option (Z * SourceFile) :=
  match file.2 with
  | [] => None
  | first :: _ => Some (file.1, source_file first file.2 (slice_at lineRangesByFileID file.1))
  end.

(** What the results of the fetch add to the two maps. *)
Definition add_result (maps : gmap Z (list string) * gmap Z (list sourceUnavailability)) (r : Z * SourceFileContent)
    : gmap Z (list string) * gmap Z (list sourceUnavailability) :=
  if bool_decide (Location (LoadedLocation r.2) = EmptyString) then
    let unavailable := sourceUnavailabilityForFetchFailure r.2 in
    (maps.1, if bool_decide (unavailable = []) then maps.2 else <[r.1 := unavailable]> maps.2)
  else (<[r.1 := sourceContentLines (Content r.2)]> maps.1, maps.2).

Definition loadSourceLinesByID (fileLines : gmap Z (list sourceWindowSampleLineRow)) (lineRangesByFileID : gmap Z (list sourceLineRange))
    (fetchSourceFiles : list SourceFile -> list SourceFileContent)
    : option (gmap Z (list string) * gmap Z (list sourceUnavailability)) :=
  files ← mapM (source_file_of lineRangesByFileID) (map_range _ fileLines);
  Some (foldl add_result (∅, ∅) (zip (fst <$> files) (fetchSourceFiles (snd <$> files)))).

(** The path shown for a file, of its first row. *)
Definition path_of (rows : list sourceWindowSampleLineRow) : string :=
  match rows with [] => EmptyString | first :: _ => if bool_decide (targetLocation first = EmptyString) then hostLocation first else targetLocation first end.

(** The windows of one file. *)
Definition file_windows (fileLines : gmap Z (list sourceWindowSampleLineRow)) (sourceLinesByID : gmap Z (list string))
    (sourceUnavailabilityByID : gmap Z (list sourceUnavailability)) (file : Z * list sourceLineRange) : option (list sourceWindow) :=
  let fileSampleLines := slice_at fileLines file.1 in
  match fileSampleLines with
  | [] => None
  | _ :: _ =>
      let path := path_of fileSampleLines in
      match sourceUnavailabilityByID !! file.1, sourceLinesByID !! file.1 with
      | Some unavailability, _ =>
          Some ((fun lineRange =>
            {| SourceFileID := file.1; w_Path := path; w_StartLine := StartLine lineRange; w_EndLine := EndLine lineRange;
               Samples := sourceWindowSamples lineRange fileSampleLines; SourceLines := []; SourceUnavailability := unavailability |}) <$> file.2)
      | None, None => Some []
      | None, Some sourceLines =>
          let maxLine := wrap_uint32 (Z.of_nat (length sourceLines)) in
          mapM (fun lineRange =>
                  let lineRange := {| StartLine := StartLine lineRange; EndLine := if maxLine <? EndLine lineRange then maxLine else EndLine lineRange |} in
                  buildSourceWindow file.1 path lineRange fileSampleLines sourceLines)
            (filter (fun lineRange => StartLine lineRange <= maxLine) file.2)
      end
  end.

Definition buildSourceWindows (fileLines : gmap Z (list sourceWindowSampleLineRow)) (lineRangesByFileID : gmap Z (list sourceLineRange))
    (sourceLinesByID : gmap Z (list string)) (sourceUnavailabilityByID : gmap Z (list sourceUnavailability)) : option (list sourceWindow) :=
  mjoin <$> mapM (file_windows fileLines sourceLinesByID sourceUnavailabilityByID) (map_range _ lineRangesByFileID).

(** The windows of [buildSourceWindowsPayload] before the byte limit. *)
Definition selected_file_lines (selected sampleLines : list sourceWindowSampleLineRow) : gmap Z (list sourceWindowSampleLineRow) :=
  let selectedFileIDs : gset Z := list_to_set (sourceFileID <$> selected) in
  foldl (fun m r => if bool_decide (sourceFileID r ∈ selectedFileIDs) then append_at (sourceFileID r) r m else m) ∅ sampleLines.

Definition source_windows (fetchSourceFiles : list SourceFile -> list SourceFileContent) (sampleLines : list sourceWindowSampleLineRow)
    (totalSourceLineSamples : Z) : option (list sourceWindow) :=
  let (selectedSampleLines, hotLinesByFileID) := selectSourceWindowSampleLines sort sampleLines totalSourceLineSamples in
  if bool_decide (selectedSampleLines = []) then Some []
  else
    let fileLines := selected_file_lines selectedSampleLines sampleLines in
    let lineRangesByFileID := map_imap (fun sourceFileID hotLines =>
      Some (widenHotSourceLineRanges sort (sourceLineRangesForSampleLines sort hotLines max_uint32) (slice_at fileLines sourceFileID)
              totalSourceLineSamples max_uint32)) hotLinesByFileID in
    maps ← loadSourceLinesByID fileLines lineRangesByFileID fetchSourceFiles;
    buildSourceWindows fileLines lineRangesByFileID maps.1 maps.2.

End Windows.

(** ** What a window shows *)

(** The last row of a line. *)
Definition row_of_line (rows : list sourceWindowSampleLineRow) (n : Z) : option sourceWindowSampleLineRow :=
  last (filter (fun r => lineNo r = n) rows).

(** The text of line [n]: its samples and its source text. *)
Definition annotated (rows : list sourceWindowSampleLineRow) (sourceLines : list string) (n : Z) : string :=
  let text := default EmptyString (sourceLines !! Z.to_nat (n - 1)) in
  match row_of_line rows n with
  | Some r => formatSourceLine n text (periodicSamples r) (isInlined r)
  | None => formatSourceLine n text 0 false
  end.

Lemma annotations_lookup rg rows n : in_range n rg ->
  annotations rg rows !! n = (fun r => (periodicSamples r, isInlined r)) <$> row_of_line rows n.
Proof.
  intros Hn. unfold annotations, row_of_line. induction rows as [|r rows IH] using rev_ind; [done|].
  rewrite foldl_app, filter_app. cbn [foldl]. rewrite filter_cons, filter_nil. destruct (decide (lineNo r = n)) as [<-|Hne].
  - rewrite (proj2 (row_in_spec rg r)) by done. by rewrite lookup_insert_eq, last_snoc.
  - rewrite app_nil_r, <- IH. destruct (row_in rg r); [|done]. by rewrite lookup_insert_ne.
Qed.

Lemma lines_loop_spec rg rows sourceLines : EndLine rg < max_uint32 -> EndLine rg <= Z.of_nat (length sourceLines) ->
  forall fuel n, 1 <= n -> StartLine rg <= n -> 0 <= EndLine rg - n + 1 < Z.of_nat fuel ->
  lines_loop fuel (annotations rg rows) sourceLines n (EndLine rg) = Some (annotated rows sourceLines <$> seqZ n (EndLine rg - n + 1)).
Proof.
  unfold max_uint32. intros Hend Hlen. induction fuel as [|fuel IH]; intros n Hn Hst Hk; [lia|]. cbn [lines_loop].
  destruct (Z.leb_spec n (EndLine rg)) as [Hle|Hgt]; [|by rewrite seqZ_nil by lia].
  rewrite (wrap_uint32_id (n - 1)), (wrap_uint32_id (n + 1)) by lia.
  destruct (lookup_lt_is_Some_2 sourceLines (Z.to_nat (n - 1))) as [text Ht]; [lia|]. rewrite Ht. cbn [mbind option_bind].
  rewrite (IH (n + 1)) by lia. cbn [mbind option_bind]. rewrite (seqZ_cons n) by lia. rewrite fmap_cons.
  rewrite (annotations_lookup rg rows n) by (unfold in_range; lia).
  replace (Z.pred (EndLine rg - n + 1)) with (EndLine rg - (n + 1) + 1) by lia. unfold Z.succ, annotated. rewrite Ht.
  by destruct (row_of_line rows n).
Qed.

(** ** The windows of a file *)

Section File.

Context (id : Z) (rows : list sourceWindowSampleLineRow).

(** The window of a range, of a file with the lines given or of one that is unavailable. *)
Definition shown (sourceLines : list string) (rg : sourceLineRange) : sourceWindow :=
  {| SourceFileID := id; w_Path := path_of rows; w_StartLine := StartLine rg; w_EndLine := EndLine rg;
     Samples := sourceWindowSamples rg rows; SourceLines := annotated rows sourceLines <$> seqZ (StartLine rg) (EndLine rg - StartLine rg + 1);
     SourceUnavailability := [] |}.

Definition hidden (unavailability : list sourceUnavailability) (rg : sourceLineRange) : sourceWindow :=
  {| SourceFileID := id; w_Path := path_of rows; w_StartLine := StartLine rg; w_EndLine := EndLine rg;
     Samples := sourceWindowSamples rg rows; SourceLines := []; SourceUnavailability := unavailability |}.

Definition clip (maxLine : Z) (rg : sourceLineRange) : sourceLineRange :=
  {| StartLine := StartLine rg; EndLine := Z.min (EndLine rg) maxLine |}.

Definition clipped (maxLine : Z) (ranges : list sourceLineRange) : list sourceLineRange :=
  clip maxLine <$> filter (fun rg => StartLine rg <= maxLine) ranges.

(** The windows of the file, given what was fetched. *)
Definition windows_of (ranges : list sourceLineRange) (content : SourceFileContent) : list sourceWindow :=
  if bool_decide (Location (LoadedLocation content) = EmptyString)
  then hidden (sourceUnavailabilityForFetchFailure content) <$> ranges
  else let sourceLines := sourceContentLines (Content content) in
       shown sourceLines <$> clipped (Z.of_nat (length sourceLines)) ranges.

Lemma buildSourceWindow_spec sourceLines rg : range_ok rg -> EndLine rg <= Z.of_nat (length sourceLines) ->
  buildSourceWindow id (path_of rows) rg rows sourceLines = Some (shown sourceLines rg).
Proof.
  intros [Hrg Hmax] Hlen. unfold buildSourceWindow. rewrite lines_loop_spec by lia. done.
Qed.

Lemma file_windows_spec fileLines linesByID unavailableByID ranges content : slice_at fileLines id = rows -> rows <> [] ->
  sourceContentLineCount (Content content) < max_uint32 -> Forall range_ok ranges ->
  (if bool_decide (Location (LoadedLocation content) = EmptyString)
   then unavailableByID !! id = Some (sourceUnavailabilityForFetchFailure content)
   else unavailableByID !! id = None /\ linesByID !! id = Some (sourceContentLines (Content content))) ->
  file_windows fileLines linesByID unavailableByID (id, ranges) = Some (windows_of ranges content).
Proof.
  intros Hrows Hne Hlen Hok Hmaps. unfold file_windows, windows_of. cbn [fst snd]. rewrite Hrows.
  destruct rows as [|first rest] eqn:Hr; [done|]. rewrite <- Hr in *. cbn zeta.
  destruct (bool_decide (Location _ = _)); [by rewrite Hmaps|]. destruct Hmaps as [-> ->].
  rewrite <- sourceContentLines_length in Hlen. set (sourceLines := sourceContentLines _) in *.
  rewrite wrap_uint32_id by (unfold max_uint32 in Hlen; lia). set (maxLine := Z.of_nat (length sourceLines)) in *. unfold clipped.
  clear Hrows. induction Hok as [|rg ranges [Hrg Hrg'] _ IH]; [done|]. rewrite filter_cons. destruct (decide (StartLine rg <= maxLine)) as [Hle|]; [|exact IH].
  cbn [mapM fmap list_fmap]. 
  assert ({| StartLine := StartLine rg; EndLine := if maxLine <? EndLine rg then maxLine else EndLine rg |} = clip maxLine rg) as ->.
  { unfold clip. f_equal. destruct (Z.ltb_spec maxLine (EndLine rg)); lia. }
  rewrite (buildSourceWindow_spec sourceLines (clip maxLine rg)) by (unfold range_ok, clip; cbn; lia). cbn [mbind option_bind].
  unfold clipped in IH. by rewrite IH.
Qed.

End File.

(** ** What was fetched *)

(** What the maps have for a file. *)
Definition lines_entry (content : SourceFileContent) : option (list string) :=
  if bool_decide (Location (LoadedLocation content) = EmptyString) then None else Some (sourceContentLines (Content content)).

Definition unavailable_entry (content : SourceFileContent) : option (list sourceUnavailability) :=
  if bool_decide (Location (LoadedLocation content) = EmptyString)
  then match sourceUnavailabilityForFetchFailure content with [] => None | u => Some u end
  else None.

Lemma add_results_other l : forall maps id, id ∉ l.*1 ->
  (foldl add_result maps l).1 !! id = maps.1 !! id /\ (foldl add_result maps l).2 !! id = maps.2 !! id.
Proof.
  induction l as [|[i c] l IH]; intros maps id Hid; [done|]. cbn [foldl]. rewrite fmap_cons, not_elem_of_cons in Hid. destruct Hid as [Hne Hid].
  destruct (IH (add_result maps (i, c)) id Hid) as [-> ->]. cbn in Hne. unfold add_result. cbn [fst snd].
  repeat case_bool_decide; cbn; by rewrite ?lookup_insert_ne.
Qed.

Lemma add_results_lookup l : NoDup l.*1 -> forall maps id c, (id, c) ∈ l -> maps.1 !! id = None -> maps.2 !! id = None ->
  (foldl add_result maps l).1 !! id = lines_entry c /\ (foldl add_result maps l).2 !! id = unavailable_entry c.
Proof.
  induction l as [|[i c'] l IH]; intros Hnd maps id c Hin H1 H2; [by apply elem_of_nil in Hin|]. cbn [foldl].
  rewrite fmap_cons in Hnd. apply NoDup_cons in Hnd as [Hi Hnd]. apply elem_of_cons in Hin as [[= <- <-]|Hin].
  - destruct (add_results_other l (add_result maps (id, c)) id Hi) as [-> ->]. unfold add_result, lines_entry, unavailable_entry. cbn [fst snd].
    repeat case_bool_decide; cbn; rewrite ?lookup_insert_eq; try done; [by destruct (sourceUnavailabilityForFetchFailure c)|].
    by destruct (sourceUnavailabilityForFetchFailure c).
  - assert (id <> i) as Hne by (intros ->; apply Hi; by apply (list_elem_of_fmap_2 fst) in Hin).
    apply (IH Hnd _ _ _ Hin); unfold add_result; cbn [fst snd]; repeat case_bool_decide; cbn; by rewrite ?lookup_insert_ne.
Qed.

Class MapRange (map_range : forall A : Type, gmap Z A -> list (Z * A)) : Prop :=
  map_range_perm A (m : gmap Z A) : map_range A m ≡ₚ map_to_list m.

#[export] Instance map_to_list_range : MapRange (fun A m => map_to_list m).
Proof. intros A m. done. Qed.

Lemma elem_of_map_range `{!MapRange map_range} {A} (m : gmap Z A) k x : (k, x) ∈ map_range A m <-> m !! k = Some x.
Proof. by rewrite map_range_perm, elem_of_map_to_list. Qed.

Lemma map_range_NoDup `{!MapRange map_range} {A} (m : gmap Z A) : NoDup (map_range A m).*1.
Proof. rewrite map_range_perm. apply NoDup_fst_map_to_list. Qed.

Definition content_of (one : SourceFile -> SourceFileContent) (lineRangesByFileID : gmap Z (list sourceLineRange))
    (id : Z) (rows : list sourceWindowSampleLineRow) : SourceFileContent :=
  one (source_file (default zero_row (head rows)) rows (slice_at lineRangesByFileID id)).

Lemma loadSourceLinesByID_spec `{!MapRange map_range} fileLines ranges one : (forall id, fileLines !! id <> Some []) ->
  exists maps, loadSourceLinesByID map_range fileLines ranges (fmap one) = Some maps /\
    forall id, maps.1 !! id = (rows ← fileLines !! id; lines_entry (content_of one ranges id rows)) /\
               maps.2 !! id = (rows ← fileLines !! id; unavailable_entry (content_of one ranges id rows)).
Proof.
  intros Hne. unfold loadSourceLinesByID.
  set (file := fun f : Z * list sourceWindowSampleLineRow => (f.1, source_file (default zero_row (head f.2)) f.2 (slice_at ranges f.1))).
  assert (mapM (source_file_of ranges) (map_range _ fileLines) = Some (file <$> map_range _ fileLines)) as ->.
  { apply mapM_Some. apply Forall2_fmap_r, Forall_Forall2_diag, Forall_forall. intros [id rows] Hin%elem_of_map_range.
    unfold source_file_of. cbn. destruct rows as [|first rest]; [by destruct (Hne id)|done]. }
  cbn [mbind option_bind]. eexists. split; [reflexivity|].
  set (l := zip _ _). assert (l = (fun f => (f.1, content_of one ranges f.1 f.2)) <$> map_range _ fileLines) as Hl.
  { subst l. generalize (map_range _ fileLines). induction l as [|f l IH]; [done|]. cbn. f_equal. exact IH. }
  assert (l.*1 = (map_range _ fileLines).*1) as Hkeys by (rewrite Hl, <- list_fmap_compose; by apply list_fmap_ext).
  intros id. destruct (fileLines !! id) as [rows|] eqn:Hid.
  - apply add_results_lookup; [rewrite Hkeys; apply map_range_NoDup| |apply lookup_empty..].
    rewrite Hl. apply list_elem_of_fmap. exists (id, rows). split; [done|]. by apply elem_of_map_range.
  - destruct (add_results_other l (∅, ∅) id) as [-> ->]; [|split; apply lookup_empty]. rewrite Hkeys. intros ([id' rows] & -> & Hin%elem_of_map_range)%list_elem_of_fmap. cbn in Hid. congruence.
Qed.

(** The lines that are needed: none of the sampled lines of the ranges is after the last. *)
Lemma minimum_line_count_spec rows ranges : let n := minimum_line_count rows ranges in
  0 <= n /\ forall r rg, r ∈ rows -> rg ∈ ranges -> in_range (lineNo r) rg -> lineNo r <= n.
Proof.
  cbn zeta. unfold minimum_line_count. set (step := fun n r => foldl _ n ranges).
  assert (forall r n, n <= step n r /\ forall rg, rg ∈ ranges -> in_range (lineNo r) rg -> lineNo r <= step n r) as Hstep.
  { intros r. subst step. cbn beta. induction ranges as [|g gs IH]; intros n; cbn [foldl]; [split; [done|]; by intros ? ?%elem_of_nil|].
    set (n' := if negb _ then n else _). assert (n <= n' /\ (in_range (lineNo r) g -> lineNo r <= n')) as [Hn' Hg].
    { subst n'. destruct (row_in g r) eqn:Hin; cbn [negb].
      - destruct (Z.ltb_spec n (lineNo r)); split; intros; lia.
      - split; [lia|]. intros ?%row_in_spec. congruence. }
    destruct (IH n') as [H1 H2]. split; [lia|]. intros rg [->|Hrg]%elem_of_cons Hin; [specialize (Hg Hin); lia|by apply (H2 rg)]. }
  clearbody step. generalize 0 as n. induction rows as [|r rows IH]; intros n; cbn [foldl]; [split; [done|]; by intros ? ? ?%elem_of_nil|].
  destruct (IH (step n r)) as [H1 H2]. destruct (Hstep r n) as [H3 H4]. split; [lia|].
  intros x rg [->|Hx]%elem_of_cons Hrg Hin; [specialize (H4 rg Hrg Hin); lia|by apply (H2 x rg)].
Qed.

(** ** The windows of a run *)

Definition rows_of_file (id : Z) (rows : list sourceWindowSampleLineRow) : list sourceWindowSampleLineRow := filter (fun r => sourceFileID r = id) rows.

Definition row_ok (r : sourceWindowSampleLineRow) : Prop := 1 <= lineNo r /\ lineNo r + 100 < max_uint32.

Lemma in_window_self r : row_ok r -> in_window r r = true.
Proof.
  intros [Hr Hr']. unfold in_window. apply andb_true_iff. split; [by apply bool_decide_eq_true|]. apply row_in_spec. unfold in_range.
  destruct (sourceLineRange_lines (lineNo r)) as [-> ->]; unfold max_uint32 in *; lia.
Qed.

Section Run.

Context (sort : forall A : Type, (A -> A -> comparison) -> list A -> list A) `{!SliceSort sort}.
Context (map_range : forall A : Type, gmap Z A -> list (Z * A)) `{!MapRange map_range}.
Context (FetchHostFile : string -> result string string).
Context (tgtFileFetcher : option (string -> string * SourceFailureReason * option string)).

Notation one := (fetchSourceFile FetchHostFile tgtFileFetcher).

(** Files have fewer lines than the counters can count. *)
Context (Hsize : forall f, sourceContentLineCount (Content (one f)) < max_uint32).

Context (rows hot : list sourceWindowSampleLineRow) (total : Z) (Hrows : Forall row_ok rows) (Hhot : hot ⊆ rows).

Definition ranges_of_file (id : Z) : list sourceLineRange := file_ranges sort (rows_of_file id hot) (rows_of_file id rows) total.

Definition content_of_file (id : Z) : SourceFileContent :=
  one (source_file (default zero_row (head (rows_of_file id rows))) (rows_of_file id rows) (ranges_of_file id)).

Definition windows_of_file (id : Z) : list sourceWindow := windows_of id (rows_of_file id rows) (ranges_of_file id) (content_of_file id).

Lemma hot_ok : Forall row_ok hot.
Proof using Hrows Hhot. clear -Hrows Hhot. rewrite Forall_forall in Hrows |- *. intros r Hr. by apply Hrows, Hhot. Qed.

Lemma rows_of_file_ok id l : Forall row_ok l -> Forall row_ok (rows_of_file id l).
Proof. rewrite !Forall_forall. intros Hl r [_ Hr]%list_elem_of_filter. by apply Hl. Qed.

Lemma ranges_of_file_ok id : StronglySorted before (ranges_of_file id) /\ Forall range_ok (ranges_of_file id).
Proof using SliceSort0 Hrows Hhot.
  destruct (file_ranges_exact sort (rows_of_file id hot) (rows_of_file id rows) total) as (H1 & H2 & _); [|done].
  apply (rows_of_file_ok id), hot_ok.
Qed.

(** The ranges of a file have every row in the window of a hot row. *)
Lemma ranges_of_file_cover r : r ∈ rows -> in_windows hot r = true -> Exists (in_range (lineNo r)) (ranges_of_file (sourceFileID r)).
Proof using SliceSort0 Hrows Hhot.
  intros Hr (a & Ha & [Hf%bool_decide_eq_true Hin%row_in_spec]%andb_true_iff)%existsb_elem_of.
  destruct (file_ranges_exact sort (rows_of_file (sourceFileID r) hot) (rows_of_file (sourceFileID r) rows) total) as (_ & _ & H3 & _);
    [apply (rows_of_file_ok _), hot_ok|].
  apply H3, Exists_exists. exists a. split; [by apply list_elem_of_filter|]. pose proof hot_ok as Hok. rewrite Forall_forall in Hok.
  destruct (Hok a Ha) as [Ha1 Ha2]. unfold in_range in Hin. destruct (sourceLineRange_lines (lineNo a)) as [Hs He]; [unfold max_uint32 in *; lia|].
  rewrite Hs, He in Hin. unfold lines_around. unfold max_uint32 in *. lia.
Qed.

Lemma selected_files id : id ∈ sourceFileID <$> covered hot rows <-> id ∈ sourceFileID <$> hot.
Proof using Hrows Hhot.
  rewrite !list_elem_of_fmap. split.
  - intros (r & -> & [(a & Ha & [Hf%bool_decide_eq_true _]%andb_true_iff)%existsb_elem_of Hr]%list_elem_of_filter). by exists a.
  - intros (a & -> & Ha). exists a. split; [done|]. apply list_elem_of_filter. split; [|by apply Hhot]. apply existsb_elem_of. exists a.
    split; [done|]. apply in_window_self. pose proof hot_ok as Hok. rewrite Forall_forall in Hok. by apply Hok.
Qed.

Lemma selected_file_lines_lookup id : selected_file_lines (covered hot rows) rows !! id =
  if bool_decide (id ∈ sourceFileID <$> hot) then Some (rows_of_file id rows) else None.
Proof using Hrows Hhot.
  unfold selected_file_lines. set (ids := list_to_set _).
  assert (forall l, foldl (fun m r => if bool_decide (sourceFileID r ∈ ids) then append_at (sourceFileID r) r m else m) ∅ l =
    group_by sourceFileID (filter (fun r => sourceFileID r ∈ ids) l)) as ->.
  { induction l as [|r l IH] using rev_ind; [done|]. rewrite foldl_app, filter_app, IH, filter_cons. cbn [foldl].
    case_bool_decide; [rewrite decide_True by done|rewrite decide_False by done]; rewrite filter_nil; [by rewrite group_by_snoc|by rewrite app_nil_r]. }
  assert (forall i, i ∈ ids <-> i ∈ sourceFileID <$> hot) as Hids by (intros i; subst ids; by rewrite elem_of_list_to_set, selected_files).
  assert (filter (fun r => sourceFileID r = id) (filter (fun r => sourceFileID r ∈ ids) rows) =
          if bool_decide (id ∈ sourceFileID <$> hot) then rows_of_file id rows else []) as Hf.
  { rewrite list_filter_filter. unfold rows_of_file. case_bool_decide as Hin.
    - apply list_filter_iff. intros r. rewrite Hids. naive_solver.
    - apply filter_nil_iff. intros r _ [Heq ?%Hids]. by subst id. }
  case_bool_decide as Hin.
  - apply group_by_lookup. rewrite Hf. split; [done|]. apply list_elem_of_fmap in Hin as (a & -> & Ha). intros Hnil.
    apply (filter_nil_not_elem_of _ _ a Hnil); [done|by apply Hhot].
  - destruct (group_by _ _ !! id) as [s|] eqn:Hs; [|done]. apply group_by_lookup in Hs as [-> Hne]. by rewrite Hf in Hne.
Qed.

Definition hot_ranges : gmap Z (list sourceLineRange) :=
  map_imap (fun sourceFileID hotLines =>
    Some (widenHotSourceLineRanges sort (sourceLineRangesForSampleLines sort hotLines max_uint32)
            (slice_at (selected_file_lines (covered hot rows) rows) sourceFileID) total max_uint32)) (group_by sourceFileID hot).

Lemma hot_ranges_lookup id : hot_ranges !! id = if bool_decide (id ∈ sourceFileID <$> hot) then Some (ranges_of_file id) else None.
Proof using Hrows Hhot.
  unfold hot_ranges. rewrite map_lookup_imap. case_bool_decide as Hin.
  - assert (group_by sourceFileID hot !! id = Some (rows_of_file id hot)) as ->.
    { apply group_by_lookup. split; [done|]. apply list_elem_of_fmap in Hin as (a & -> & Ha). intros Hnil.
      by apply (filter_nil_not_elem_of _ _ a Hnil). }
    cbn [mbind option_bind]. unfold slice_at. rewrite selected_file_lines_lookup, bool_decide_true by done. done.
  - destruct (group_by sourceFileID hot !! id) as [s|] eqn:Hs; [|done]. apply group_by_lookup in Hs as [-> Hne].
    exfalso. destruct (filter _ hot) as [|a l] eqn:Hf; [done|].
    assert (a ∈ filter (fun r => sourceFileID r = id) hot) as [<- Ha]%list_elem_of_filter by (rewrite Hf; left).
    apply Hin. by apply list_elem_of_fmap_2.
Qed.

Lemma rows_of_file_nonempty id : id ∈ sourceFileID <$> hot -> rows_of_file id rows <> [].
Proof using Hhot. intros (a & -> & Ha)%list_elem_of_fmap Hnil. apply (filter_nil_not_elem_of _ _ a Hnil); [done|by apply Hhot]. Qed.

(** A file that was not loaded has a reason to show. *)
Lemma unavailable_file id : rows_of_file id rows <> [] -> Location (LoadedLocation (content_of_file id)) = EmptyString ->
  sourceUnavailabilityForFetchFailure (content_of_file id) <> [].
Proof using.
  intros _ Hl. destruct (fetchSourceFile_host_failure FetchHostFile tgtFileFetcher
    (source_file (default zero_row (head (rows_of_file id rows))) (rows_of_file id rows) (ranges_of_file id)) _ _ eq_refl Hl) as (failure & Hin & Hreason).
  unfold sourceUnavailabilityForFetchFailure. change (fetchSourceFile _ _ _) with (content_of_file id) in Hin. intros Hnil.
  assert (exists u, u ∈ omap (fun failure => (fun reason => {| u_Reason := reason; u_Path := f_Path failure |}) <$> unavailability_reason (Reason failure))
    (Failures (content_of_file id))) as (u & Hu); [|by rewrite Hnil in Hu; apply elem_of_nil in Hu].
  destruct Hreason as [Hr|[Hr|Hr]]; eexists; apply list_elem_of_omap; exists failure; (split; [done|]); by rewrite Hr.
Qed.

Lemma windows_by_files : exists ids, NoDup ids /\ (forall id, id ∈ ids <-> id ∈ sourceFileID <$> hot) /\
  (maps ← loadSourceLinesByID map_range (selected_file_lines (covered hot rows) rows) hot_ranges (fmap one);
   buildSourceWindows map_range (selected_file_lines (covered hot rows) rows) hot_ranges maps.1 maps.2) =
    Some (mjoin (windows_of_file <$> ids)).
Proof using All.
  destruct (loadSourceLinesByID_spec (map_range := map_range) (selected_file_lines (covered hot rows) rows) hot_ranges one) as (maps & -> & Hmaps).
  { intros id. rewrite selected_file_lines_lookup. case_bool_decide; [|done]. intros [= Hnil]. by eapply rows_of_file_nonempty. }
  cbn [mbind option_bind]. unfold buildSourceWindows. exists (map_range _ hot_ranges).*1. split_and!; [apply map_range_NoDup| |].
  - intros id. rewrite list_elem_of_fmap. split.
    + intros ([i rg] & -> & Hi%elem_of_map_range). rewrite hot_ranges_lookup in Hi. by case_bool_decide.
    + intros Hin. exists (id, ranges_of_file id). split; [done|]. apply elem_of_map_range. by rewrite hot_ranges_lookup, bool_decide_true.
  - assert (mapM (file_windows (selected_file_lines (covered hot rows) rows) maps.1 maps.2) (map_range _ hot_ranges) =
      Some (windows_of_file <$> (map_range _ hot_ranges).*1)) as ->; [|done].
    rewrite <- list_fmap_compose. apply mapM_Some. apply Forall2_fmap_r, Forall_Forall2_diag, Forall_forall. intros [id rg] Hi%elem_of_map_range.
    rewrite hot_ranges_lookup in Hi. case_bool_decide as Hin; [|done]. injection Hi as <-. cbn [compose fst].
    specialize (Hmaps id). rewrite selected_file_lines_lookup, bool_decide_true in Hmaps by done. cbn [mbind option_bind] in Hmaps.
    assert (content_of one hot_ranges id (rows_of_file id rows) = content_of_file id) as Hc
      by (unfold content_of, slice_at; by rewrite hot_ranges_lookup, bool_decide_true).
    rewrite Hc in Hmaps. destruct Hmaps as [H1 H2].
    apply file_windows_spec.
    + unfold slice_at. by rewrite selected_file_lines_lookup, bool_decide_true.
    + by apply rows_of_file_nonempty.
    + apply Hsize.
    + apply ranges_of_file_ok.
    + rewrite H1, H2. unfold lines_entry, unavailable_entry. case_bool_decide as Hl; [|done].
      apply unavailable_file in Hl; [|by apply rows_of_file_nonempty]. by destruct (sourceUnavailabilityForFetchFailure _).
Qed.

(** *** Properties of the windows *)

(** Windows of the same file have a line between them. *)
Definition apart (w w' : sourceWindow) : Prop :=
  SourceFileID w = SourceFileID w' -> w_EndLine w + 1 < w_StartLine w' \/ w_EndLine w' + 1 < w_StartLine w.

Definition shows (w : sourceWindow) (r : sourceWindowSampleLineRow) : Prop :=
  SourceFileID w = sourceFileID r /\ w_StartLine w <= lineNo r <= w_EndLine w.

(** A window counts the samples of its lines, and has a text for each of them, or says why
    there is none. *)
Definition window_ok (w : sourceWindow) : Prop :=
  1 <= w_StartLine w <= w_EndLine w /\
  Samples w = sourceWindowSamples {| StartLine := w_StartLine w; EndLine := w_EndLine w |} (rows_of_file (SourceFileID w) rows) /\
  ((SourceLines w = [] /\ SourceUnavailability w <> []) \/
   exists sourceLines, SourceUnavailability w = [] /\ w_EndLine w <= Z.of_nat (length sourceLines) /\
     SourceLines w = annotated (rows_of_file (SourceFileID w) rows) sourceLines <$> seqZ (w_StartLine w) (w_EndLine w - w_StartLine w + 1)).

Lemma apart_join ids (f : Z -> list sourceWindow) : NoDup ids -> (forall id, StronglySorted apart (f id)) ->
  (forall id w, w ∈ f id -> SourceFileID w = id) -> StronglySorted apart (mjoin (f <$> ids)).
Proof.
  intros Hnd Hs Hid. induction Hnd as [|id ids Hin Hnd IH]; [constructor|]. cbn. apply StronglySorted_app. split_and!; [|apply Hs|exact IH].
  intros w w' Hw (l & Hl & (id' & -> & Hid')%list_elem_of_fmap)%list_elem_of_join Heq. exfalso. apply Hin.
  apply Hid in Hw. apply Hid in Hl. congruence.
Qed.

Lemma clipped_before maxLine ranges : StronglySorted before ranges -> StronglySorted before (clipped maxLine ranges).
Proof.
  intros Hs. unfold clipped. eapply StronglySorted_fmap; [|eapply StronglySorted_sublist; [apply sublist_filter|exact Hs]].
  unfold before, clip. cbn. intros. lia.
Qed.

Lemma windows_of_file_apart id : StronglySorted apart (windows_of_file id) /\ forall w, w ∈ windows_of_file id -> SourceFileID w = id /\ (rows_of_file id rows <> [] -> window_ok w).
Proof using SliceSort0 Hrows Hhot.
  destruct (ranges_of_file_ok id) as [Hs Hok]. unfold windows_of_file, windows_of. case_bool_decide as Hl; split.
  - eapply StronglySorted_fmap; [|exact Hs]. unfold before, apart. cbn. intros. by left.
  - intros w (rg & -> & Hrg)%list_elem_of_fmap. split; [done|]. intros Hne. rewrite Forall_forall in Hok. destruct (Hok rg Hrg).
    split_and!; [cbn; lia..|by destruct rg|]. left. split; [done|]. cbn. by apply unavailable_file.
  - eapply StronglySorted_fmap; [|by apply clipped_before]. unfold before, apart. cbn. intros. by left.
  - intros w (rg & -> & (g & -> & [Hle Hrg]%list_elem_of_filter)%list_elem_of_fmap)%list_elem_of_fmap. split; [done|]. intros _.
    rewrite Forall_forall in Hok. destruct (Hok g Hrg).
    unfold window_ok. cbn [shown clip w_StartLine w_EndLine StartLine EndLine]. split_and!; [lia..|done|].
    right. eexists. split_and!; [done| |done]. lia.
Qed.

(** No sampled line of the ranges is cut off: the file has that many lines. *)
Lemma windows_of_file_cover r : r ∈ rows -> in_windows hot r = true -> exists w, w ∈ windows_of_file (sourceFileID r) /\ shows w r.
Proof using SliceSort0 Hrows Hhot.
  intros Hr Hw. pose proof (ranges_of_file_cover r Hr Hw) as (rg & Hrg & Hin)%Exists_exists. unfold windows_of_file, windows_of.
  set (id := sourceFileID r) in *. set (c := content_of_file id).
  case_bool_decide as Hl.
  - eexists. split; [by apply list_elem_of_fmap_2|]. done.
  - assert (lineNo r <= Z.of_nat (length (sourceContentLines (Content c)))) as Hlen.
    { rewrite sourceContentLines_length. destruct (minimum_line_count_spec (rows_of_file id rows) (ranges_of_file id)) as [_ Hmin].
      specialize (Hmin r rg). rewrite Forall_forall in Hrows. destruct (Hrows r Hr).
      pose proof (fetchSourceFile_spec FetchHostFile tgtFileFetcher
        (source_file (default zero_row (head (rows_of_file id rows))) (rows_of_file id rows) (ranges_of_file id))) as Hspec.
      cbn zeta in Hspec. change (fetchSourceFile _ _ _) with c in Hspec. rewrite bool_decide_false in Hspec by done.
      destruct Hspec as (_ & _ & Hspec). cbn [source_file MinimumLineCount] in Hspec.
      assert (lineNo r <= minimum_line_count (rows_of_file id rows) (ranges_of_file id)); [|lia].
      apply Hmin; [by apply list_elem_of_filter|done..]. }
    unfold in_range in Hin. set (maxLine := Z.of_nat _) in *. exists (shown id (rows_of_file id rows) (sourceContentLines (Content c)) (clip maxLine rg)). split.
    + apply list_elem_of_fmap_2, list_elem_of_fmap_2, list_elem_of_filter. split; [lia|done].
    + split; [done|]. cbn. lia.
Qed.

End Run.

(** Any sort and any order of the maps give the same windows, in some order. *)
Lemma merge_any_sort sort1 sort2 `{!SliceSort sort1} `{!SliceSort sort2} ranges : mergeSourceLineRanges sort1 ranges = mergeSourceLineRanges sort2 ranges.
Proof.
  unfold mergeSourceLineRanges. pose proof (SliceSort0 sourceLineRange by_line _) as [P1 S1]. pose proof (SliceSort1 sourceLineRange by_line _) as [P2 S2].
  rewrite (sorted_unique by_line (sort1 _ by_line ranges) (sort2 _ by_line ranges)); [done| |by rewrite P1, P2|apply S1|apply S2].
  intros [s1 e1] [s2 e2] _ _. unfold by_line, then_by, asc. cbn. destruct (Z.compare_spec s1 s2); try done. intros ?%Z.compare_eq_iff. by subst.
Qed.

Lemma ranges_any_sort sort1 sort2 `{!SliceSort sort1} `{!SliceSort sort2} rows hot total id :
  ranges_of_file sort1 rows hot total id = ranges_of_file sort2 rows hot total id.
Proof.
  unfold ranges_of_file, file_ranges, widenHotSourceLineRanges, sourceLineRangesForSampleLines. by rewrite !(merge_any_sort sort1 sort2).
Qed.

Lemma windows_any_sort sort1 sort2 `{!SliceSort sort1} `{!SliceSort sort2} host tgt rows hot total id :
  windows_of_file sort1 host tgt rows hot total id = windows_of_file sort2 host tgt rows hot total id.
Proof. unfold windows_of_file, content_of_file. by rewrite !(ranges_any_sort sort1 sort2). Qed.

(** The shortest prefix is unique. *)
Lemma shortest_prefix_unique {A} (P : list A -> bool) l k1 k2 :
  (forall j, (j < k1)%nat -> P (take j l) = false) -> P (take k1 l) = true \/ take k1 l = l ->
  (forall j, (j < k2)%nat -> P (take j l) = false) -> P (take k2 l) = true \/ take k2 l = l -> take k1 l = take k2 l.
Proof.
  assert (forall a b, (a < b)%nat -> (forall j, (j < b)%nat -> P (take j l) = false) -> P (take a l) = true \/ take a l = l -> take a l = take b l) as Hlt.
  { intros a b Hab Hb [Ha|Ha]; [by rewrite (Hb a Hab) in Ha|]. assert (length l <= a)%nat as Hlen by (rewrite <- Ha, length_take; lia).
    rewrite Ha, take_ge by lia. done. }
  intros H1 E1 H2 E2. destruct (Nat.lt_trichotomy k1 k2) as [?|[->|?]]; [by apply Hlt|done|symmetry; by apply Hlt].
Qed.

Section Complete.

Context (FetchHostFile : string -> result string string).
Context (tgtFileFetcher : option (string -> string * SourceFailureReason * option string)).

Notation one := (fetchSourceFile FetchHostFile tgtFileFetcher).

Context (Hsize : forall f, sourceContentLineCount (Content (one f)) < max_uint32).
Context (rows : list sourceWindowSampleLineRow) (Hrows : Forall row_ok rows) (total : Z) (Ht : total <> 0).

Lemma source_windows_spec sort `{!SliceSort sort} map_range `{!MapRange map_range} :
  exists k ids, let hot := take k rows in
    (forall j, (j < k)%nat -> enough rows total (take j rows) = false) /\ (enough rows total hot = true \/ hot = rows) /\
    NoDup ids /\ (forall id, id ∈ ids <-> id ∈ sourceFileID <$> hot) /\
    source_windows sort map_range (fmap one) rows total =
      Some (mjoin (windows_of_file sort FetchHostFile tgtFileFetcher rows hot total <$> ids)).
Proof using All.
  destruct (selection_is_shortest_prefix sort rows total Ht) as (k & Hsel & Hno & Hend). exists k. cbn zeta in *.
  set (hot := take k rows) in *. assert (hot ⊆ rows) as Hhot by apply subseteq_take.
  destruct (windows_by_files sort map_range FetchHostFile tgtFileFetcher Hsize rows hot total Hrows Hhot) as (ids & Hnd & Hids & Heq).
  exists ids. split_and!; [done..|]. unfold source_windows. rewrite Hsel. case_bool_decide as Hnil; [|exact Heq].
  assert (ids = []) as ->; [|done]. apply elem_of_nil_inv. intros id Hin%Hids. apply (selected_files rows hot Hrows Hhot) in Hin.
  rewrite Hnil in Hin. by apply elem_of_nil in Hin.
Qed.

(** The source windows of a run are built without a failing index: the hot lines are the
    shortest prefix of the sampled lines whose windows have the share of the samples to cover,
    every sampled line near one of them is shown in a window of its file, windows of a file do
    not overlap or touch, and each window counts its samples and has a text for each of
    its lines or a reason why there is none. *)
Theorem source_windows_complete sort `{!SliceSort sort} map_range `{!MapRange map_range} :
  exists k windows, let hot := take k rows in
    source_windows sort map_range (fmap one) rows total = Some windows /\
    (forall j, (j < k)%nat -> enough rows total (take j rows) = false) /\ (enough rows total hot = true \/ hot = rows) /\
    StronglySorted apart windows /\ Forall (window_ok rows) windows /\
    forall r, r ∈ rows -> in_windows hot r = true -> exists w, w ∈ windows /\ shows w r.
Proof using All.
  destruct (source_windows_spec sort map_range) as (k & ids & Hno & Hend & Hnd & Hids & Heq). exists k. eexists. cbn zeta in *. split; [exact Heq|].
  set (hot := take k rows) in *. assert (hot ⊆ rows) as Hhot by apply subseteq_take.
  pose proof (windows_of_file_apart sort FetchHostFile tgtFileFetcher rows hot total Hrows Hhot) as Hfile.
  split_and!; [done|done|apply apart_join; [done|intros id; apply Hfile|intros id w Hw; by apply (Hfile id)]| |].
  - apply Forall_forall. intros w (l & Hw & (id & -> & Hid)%list_elem_of_fmap)%list_elem_of_join. apply (Hfile id) in Hw as [_ Hw]. apply Hw.
    apply (rows_of_file_nonempty rows hot Hhot). by apply Hids.
  - intros r Hr Hw. destruct (windows_of_file_cover sort FetchHostFile tgtFileFetcher rows hot total Hrows Hhot r Hr Hw) as (w & Hin & Hs).
    exists w. split; [|done]. apply list_elem_of_join. eexists. split; [exact Hin|]. apply list_elem_of_fmap_2, Hids, (selected_files rows hot Hrows Hhot).
    apply list_elem_of_fmap_2, list_elem_of_filter. done.
Qed.

Lemma source_windows_any_order sort1 `{!SliceSort sort1} range1 `{!MapRange range1} sort2 `{!SliceSort sort2} range2 `{!MapRange range2} :
  exists ws1 ws2, source_windows sort1 range1 (fmap one) rows total = Some ws1 /\ source_windows sort2 range2 (fmap one) rows total = Some ws2 /\
    ws1 ≡ₚ ws2 /\ StronglySorted apart ws1 /\ Forall (fun w => w_StartLine w <= w_EndLine w) ws1.
Proof using All.
  destruct (source_windows_spec sort1 range1) as (k1 & ids1 & Hno1 & Hend1 & Hnd1 & Hids1 & Heq1).
  destruct (source_windows_spec sort2 range2) as (k2 & ids2 & Hno2 & Hend2 & Hnd2 & Hids2 & Heq2). cbn zeta in *.
  assert (take k1 rows = take k2 rows) as Hk by by apply (shortest_prefix_unique (enough rows total)). rewrite <- Hk in *.
  set (hot := take k1 rows) in *. assert (hot ⊆ rows) as Hhot by apply subseteq_take.
  pose proof (windows_of_file_apart sort1 FetchHostFile tgtFileFetcher rows hot total Hrows Hhot) as Hfile.
  eexists _, _. split_and!; [exact Heq1|exact Heq2| | |].
  - assert (ids1 ≡ₚ ids2) as Hp by (apply NoDup_Permutation; [done..|]; intros id; by rewrite Hids1, Hids2). rewrite Hp.
    assert (windows_of_file sort1 FetchHostFile tgtFileFetcher rows hot total <$> ids2 =
            windows_of_file sort2 FetchHostFile tgtFileFetcher rows hot total <$> ids2) as ->; [|done].
    apply list_fmap_ext. intros i id _. apply (windows_any_sort sort1 sort2).
  - apply apart_join; [done|intros id; apply Hfile|intros id w Hw; by apply (Hfile id)].
  - apply Forall_forall. intros w (l & Hw & (id & -> & Hid)%list_elem_of_fmap)%list_elem_of_join. apply (Hfile id) in Hw as [_ Hw].
    apply Hw. apply (rows_of_file_nonempty rows hot Hhot). by apply Hids1.
Qed.

End Complete.

Definition sample_host (path : string) : result string string :=
  if bool_decide (path = "a.c") then Ok (bytes [97; 10; 98; 10; 99; 10]%nat) else Err "no such file".

Definition sample_rows : list sourceWindowSampleLineRow :=
  [{| sourceFileID := 1; hostLocation := "a.c"; targetLocation := "/src/a.c"; lineNo := 2; isInlined := false; periodicSamples := 90 |};
   {| sourceFileID := 2; hostLocation := EmptyString; targetLocation := "/src/b.c"; lineNo := 40; isInlined := true; periodicSamples := 9 |};
   {| sourceFileID := 1; hostLocation := "a.c"; targetLocation := "/src/a.c"; lineNo := 3; isInlined := true; periodicSamples := 1 |}].

(** The first file has three lines, and the second cannot be read. *)
Example source_windows_sample :
  option_map (map (fun w => (w_Path w, w_StartLine w, w_EndLine w, Samples w, SourceLines w, u_Reason <$> SourceUnavailability w)))
    (source_windows (@sort_by) (fun A m => map_to_list m) (fmap (fetchSourceFile sample_host None)) sample_rows 100) =
  Some [("/src/b.c", 1, 140, 9, [], ["missing_host_source_mapping"; "target_not_reachable"]);
        ("/src/a.c", 1, 3, 91, ["               1:a"; "      90       2:b"; "       1i      3:c"], [])].
Proof. vm_compute. reflexivity. Qed.

Lemma source_windows_complete_witness :
  exists windows, source_windows (@sort_by) (fun A m => map_to_list m) (fmap (fetchSourceFile sample_host None)) sample_rows 100 = Some windows /\
    StronglySorted apart windows.
Proof.
  assert (forall f, sourceContentLineCount (Content (fetchSourceFile sample_host None f)) < max_uint32) as Hsize.
  { intros f. pose proof (fetchSourceFile_content sample_host None f) as Hc. cbn zeta in Hc. revert Hc.
    generalize (Content (fetchSourceFile sample_host None f)). intros c [->|[(path & Hp)|(? & ? & ? & ? & _)]]; [done| |done].
    unfold sample_host in Hp. case_bool_decide; [|done]. injection Hp as <-. vm_compute. reflexivity. }
  assert (Forall row_ok sample_rows) as Hrows by (unfold row_ok; refine (bool_decide_unpack _ _); vm_compute; exact I).
  assert (100 <> 0) as Ht by lia.
  destruct (source_windows_complete sample_host None Hsize sample_rows Hrows 100 Ht (@sort_by) (fun A m => map_to_list m))
    as (k & windows & Hw & _ & _ & Hs & _).
  exists windows. split; [exact Hw|exact Hs].
Defined.

(** ** The payload *)

Definition unavailability_json (u : sourceUnavailability) : json :=
  JObject (("reason", JString (u_Reason u)) :: if bool_decide (u_Path u = EmptyString) then [] else [("path", JString (u_Path u))]).

Definition window_json (w : sourceWindow) : json :=
  JObject ([("file_id", JInt (SourceFileID w)); ("path", JString (w_Path w)); ("start_line", JInt (w_StartLine w)); ("end_line", JInt (w_EndLine w));
            ("samples", JInt (Samples w))] ++
           (if bool_decide (SourceLines w = []) then [] else [("lines", JArray (JString <$> SourceLines w))]) ++
           (if bool_decide (SourceUnavailability w = []) then [] else [("source_unavailable", JArray (unavailability_json <$> SourceUnavailability w))])).

Definition payload_json (p : sourceWindowsPayload) : json :=
  JObject [("total_source_line_samples", JInt (TotalSourceLineSamples p)); ("windows", JArray (window_json <$> Windows p))].

(** Descending samples, file, then position. *)
Definition window_order : sourceWindow -> sourceWindow -> comparison :=
  then_by (desc Samples) (then_by (asc SourceFileID) (then_by (asc w_StartLine) (asc w_EndLine))).

Section Payload.

Context (sort : forall A : Type, (A -> A -> comparison) -> list A -> list A).
Context (map_range : forall A : Type, gmap Z A -> list (Z * A)).
Context (format_float32 : spec_float -> string) (sourceWindowsPromptFragment : string).

Definition summary_of (total : Z) (windows : list sourceWindow) : result insight_error RunSummary :=
  NewRunSummary format_float32 sourceWindowsSummaryName sourceWindowsPromptFragment
    (payload_json {| TotalSourceLineSamples := total; Windows := windows |}).

Definition budgetSourceWindowsPayload (payload : sourceWindowsPayload) (byteLimit : Z) : result insight_error sourceWindowsPayload :=
  emptySummary ← summary_of (TotalSourceLineSamples payload) [];
  if byteLimit <? runSummarySizeBytes emptySummary then Err (InsufficientByteLimit sourceWindowsSummaryName byteLimit)
  else
    windows ← fit_windows (summary_of (TotalSourceLineSamples payload)) byteLimit [] (sort sourceWindow window_order (Windows payload));
    Ok {| TotalSourceLineSamples := TotalSourceLineSamples payload; Windows := windows |}.

Definition buildSourceWindowsPayload (fetchSourceFiles : list SourceFile -> list SourceFileContent)
    (sampleLines : list sourceWindowSampleLineRow) (totalSourceLineSamples byteLimit : Z) : result insight_error sourceWindowsPayload :=
  windows ← or_err IndexOutOfRange (source_windows sort map_range fetchSourceFiles sampleLines totalSourceLineSamples);
  budgetSourceWindowsPayload {| TotalSourceLineSamples := totalSourceLineSamples; Windows := windows |} byteLimit.

(** A row comes with the total of all rows; that of the last is returned. *)
Definition collectSourceSampleLineRows (rows : Rows (sourceWindowSampleLineRow * Z)) : result insight_error (list sourceWindowSampleLineRow * Z) :=
  l ← read_rows sourceWindowsSummaryName rows;
  Ok (l.*1, default 0 (snd <$> last l)).

Definition resolveSourceWindowsTables (session : SessionTables) : result insight_error sourceWindowsTables :=
  resolveSummaryTablesByComponentType session sourceWindowsSummaryName ["periodic_samples"; "source_files"]
    (fun t => {| t_periodicSamples := t "periodic_samples"; t_sourceFiles := t "source_files" |}).

(** [query] runs the query, and [NewSourceFilesFetcher] makes the fetcher for the target. *)
Definition SummarizeSourceWindows {D} (query : sourceWindowsTables -> option (Rows (sourceWindowSampleLineRow * Z)))
    (NewSourceFilesFetcher : D -> list SourceFile -> list SourceFileContent) (desc : D) (session : SessionTables) (byteLimit : Z)
    : result insight_error RunSummary :=
  tables ← resolveSourceWindowsTables session;
  match query tables with
  | None => Err (RenderQueryFailed sourceWindowsSummaryName)
  | Some rows =>
      '(sampleLines, total) ← collectSourceSampleLineRows rows;
      payload ← buildSourceWindowsPayload (NewSourceFilesFetcher desc) sampleLines total byteLimit;
      summary_of (TotalSourceLineSamples payload) (Windows payload)
  end.

Definition SourceWindowsSummarizer {D} query fetcher : BudgetedRunSummarizer D SessionTables :=
  {| b_Name := sourceWindowsSummaryName; b_Summarize := SummarizeSourceWindows query fetcher |}.

Lemma budgetSourceWindowsPayload_fits payload byteLimit p : budgetSourceWindowsPayload payload byteLimit = Ok p ->
  TotalSourceLineSamples p = TotalSourceLineSamples payload /\ fits (summary_of (TotalSourceLineSamples payload)) byteLimit (Windows p) /\
  fit_windows (summary_of (TotalSourceLineSamples payload)) byteLimit [] (sort sourceWindow window_order (Windows payload)) = Ok (Windows p).
Proof.
  unfold budgetSourceWindowsPayload. intros (s & Hs & H)%bind_Ok. destruct (Z.ltb_spec byteLimit (runSummarySizeBytes s)); [done|].
  apply bind_Ok in H as (windows & Hw & [= <-]). split_and!; [done| |done]. eapply fit_windows_fits; [exact Hw|]. by exists s.
Qed.

#[export] Instance SourceWindows_keeps_budget {D} query fetcher : KeepsBudget (@SourceWindowsSummarizer D query fetcher).
Proof.
  intros desc session limit s. cbn. unfold SummarizeSourceWindows. intros (tables & _ & H)%bind_Ok. destruct (query tables) as [rows|]; [|done].
  apply bind_Ok in H as ([lines total] & _ & H). apply bind_Ok in H as (p & Hp & Hs). unfold buildSourceWindowsPayload in Hp.
  apply bind_Ok in Hp as (windows & _ & (Htotal & (s' & Hs' & Hle) & _)%budgetSourceWindowsPayload_fits). cbn in Htotal, Hs'.
  rewrite Htotal, Hs' in Hs. injection Hs as <-. split; [|done]. by apply NewRunSummary_Ok in Hs' as [? _].
Qed.

End Payload.

#[export] Instance reversed_sort : SliceSort (fun A c l => sort_by c (reverse l)).
Proof.
  intros A c Hc. pose proof (sort_by_sorts c) as [Hp Hs]. split; intros l; [by rewrite Hp, reverse_Permutation|apply Hs].
Qed.

#[export] Instance reversed_range : MapRange (fun A m => reverse (map_to_list m)).
Proof. intros A m. apply reverse_Permutation. Qed.

(** Windows with the same key are the same window. *)
Lemma window_order_eq ws x y : StronglySorted apart ws -> Forall (fun w => w_StartLine w <= w_EndLine w) ws ->
  x ∈ ws -> y ∈ ws -> window_order x y = Eq -> x = y.
Proof.
  intros Hs Hok Hx Hy Heq. unfold window_order, then_by, asc, desc in Heq.
  destruct (Z.compare_spec (Samples y) (Samples x)); try done. destruct (Z.compare_spec (SourceFileID x) (SourceFileID y)) as [Hf| |]; try done.
  destruct (Z.compare_spec (w_StartLine x) (w_StartLine y)); try done. apply Z.compare_eq_iff in Heq.
  rewrite Forall_forall in Hok. pose proof (Hok x Hx) as H1. pose proof (Hok y Hy) as H2. cbn in H1, H2.
  destruct (StronglySorted_connected _ _ _ _ Hs Hx Hy) as [|[Ha|Ha]]; [done| |]; exfalso.
  - specialize (Ha Hf). lia.
  - specialize (Ha (eq_sym Hf)). lia.
Qed.

(** The payload of source windows does not depend on the order in which the sort leaves equal
    elements, nor on the order of the iterations over maps: the same lines give the same payload. *)
Theorem source_windows_deterministic host tgt (Hsize : forall f, sourceContentLineCount (Content (fetchSourceFile host tgt f)) < max_uint32)
    rows (Hrows : Forall row_ok rows) total (Ht : total <> 0) fmt fragment limit
    sort1 `{!SliceSort sort1} range1 `{!MapRange range1} sort2 `{!SliceSort sort2} range2 `{!MapRange range2} :
  buildSourceWindowsPayload sort1 range1 fmt fragment (fmap (fetchSourceFile host tgt)) rows total limit =
  buildSourceWindowsPayload sort2 range2 fmt fragment (fmap (fetchSourceFile host tgt)) rows total limit.
Proof.
  destruct (source_windows_any_order host tgt Hsize rows Hrows total Ht sort1 range1 sort2 range2) as (ws1 & ws2 & H1 & H2 & Hp & Hs & Hok).
  unfold buildSourceWindowsPayload. rewrite H1, H2. cbn. unfold budgetSourceWindowsPayload. cbn [TotalSourceLineSamples Windows].
  pose proof (SliceSort0 sourceWindow window_order _) as [P1 S1]. pose proof (SliceSort1 sourceWindow window_order _) as [P2 S2].
  assert (sort1 _ window_order ws1 = sort2 _ window_order ws2) as ->; [|done].
  apply (sorted_unique window_order); [|by rewrite P1, P2|apply S1|apply S2].
  intros x y. rewrite P1. by apply window_order_eq.
Qed.

Lemma source_windows_deterministic_witness :
  buildSourceWindowsPayload (@sort_by) (fun A m => map_to_list m) (fun _ => EmptyString) EmptyString (fmap (fetchSourceFile (fun _ => Err "no file") None))
    sample_rows 100 1000 =
  buildSourceWindowsPayload (fun A c l => sort_by c (reverse l)) (fun A m => reverse (map_to_list m)) (fun _ => EmptyString) EmptyString
    (fmap (fetchSourceFile (fun _ => Err "no file") None)) sample_rows 100 1000.
Proof.
  assert (forall f, sourceContentLineCount (Content (fetchSourceFile (fun _ => Err "no file") None f)) < max_uint32) as Hsize.
  { intros f. pose proof (fetchSourceFile_content (fun _ => Err "no file") None f) as Hc. cbn zeta in Hc. revert Hc.
    generalize (Content (fetchSourceFile (fun _ => Err "no file") None f)). intros c [->|[(path & Hp)|(? & ? & ? & ? & _)]]; done. }
  assert (Forall row_ok sample_rows) as Hrows by (unfold row_ok; refine (bool_decide_unpack _ _); vm_compute; exact I).
  assert (100 <> 0) as Ht by lia.
  exact (source_windows_deterministic (fun _ => Err "no file") None Hsize sample_rows Hrows 100 Ht (fun _ => EmptyString) EmptyString 1000
    (@sort_by) (fun A m => map_to_list m) (fun A c l => sort_by c (reverse l)) (fun A m => reverse (map_to_list m))).
Defined.
