(* ===== verification/DisasmRanges.v ===== *)
(** * Performix: the instructions of a summary

    Models the choice of instructions in [core/apap-engine/insights/disassembly_window.go]: the
    seed instructions, bucket by bucket of equal samples, and the ranges of instructions around
    seeds with their merging, trimming and widening. *)

From S2P Require Import Prelude.
From S2P Require Import GoFloats.
From S2P Require Import Sorting.

Local Open Scope Z_scope.

Definition disassemblyWindowsCoverageThresholdPercent : Z := 90.
Definition disassemblyWindowsContextLines : Z := 12.
Definition disassemblyWindowsHotWindowThresholdPercent : Z := 5.
Definition disassemblyWindowsHotWindowContextLines : Z := 100.
Definition disassemblyWindowsMaxMergedRegionInstructions : Z := 256.

Record disassemblyInstructionRow := {
  imageName : string; address : Z; offset : option Z; instruction : string; arguments : string; periodicSample : Z;
  sourcePath : string; lineNo : Z; seed : bool
}.

Definition with_seed (r : disassemblyInstructionRow) : disassemblyInstructionRow :=
  {| imageName := imageName r; address := address r; offset := offset r; instruction := instruction r; arguments := arguments r;
     periodicSample := periodicSample r; sourcePath := sourcePath r; lineNo := lineNo r; seed := true |}.

Definition zero_instruction : disassemblyInstructionRow :=
  {| imageName := EmptyString; address := 0; offset := None; instruction := EmptyString; arguments := EmptyString; periodicSample := 0;
     sourcePath := EmptyString; lineNo := 0; seed := false |}.

Definition totalDisassemblySamples (instructions : list disassemblyInstructionRow) : Z :=
  foldl (fun total r => wrap_uint64 (total + periodicSample r)) 0 instructions.

(** ** Seeds *)

Fixpoint span {A} (p : A -> bool) (l : list A) : list A * list A :=
  match l with
  | [] => ([], [])
  | x :: l' => if p x then let (a, b) := span p l' in (x :: a, b) else ([], l)
  end.

(** The loop over the buckets, from the indexes that are left on: the indexes that become seeds
    and the samples they have. *)
Fixpoint seed_loop (fuel : nat) (samples : nat -> Z) (targetSamples : spec_float) (sampledIndexes : list nat) (running : Z) : list nat * Z :=
  match fuel, sampledIndexes with
  | S fuel, first :: rest =>
      if float_lt (float64 running) targetSamples then
        let bucketSamples := samples first in
        let (same, rest) := span (fun i => samples i =? bucketSamples) rest in
        let bucket := first :: same in
        let bucketTotal := foldl (fun total _ => wrap_uint64 (total + bucketSamples)) 0 bucket in
        if float_gt (float64 (wrap_uint64 (running + bucketTotal))) targetSamples && (0 <? running) && (1 <? Z.of_nat (length bucket))
        then ([], running)
        else
          let (seeds, running) := seed_loop fuel samples targetSamples rest (wrap_uint64 (running + bucketTotal)) in
          (bucket ++ seeds, running)
      else ([], running)
  | _, _ => ([], running)
  end.

(** Descending samples, address, then image. *)
Definition index_order (instructions : list disassemblyInstructionRow) : nat -> nat -> comparison :=
  let at_index i := nth i instructions zero_instruction in
  then_by (desc (fun i => periodicSample (at_index i)))
    (then_by (asc (fun i => address (at_index i))) (asc_string (fun i => imageName (at_index i)))).

Section Mark.

Context (sort : forall A : Type, (A -> A -> comparison) -> list A -> list A).

Definition sampled_indexes (instructions : list disassemblyInstructionRow) : list nat :=
  sort nat (index_order instructions)
    (filter (fun i => 0 < periodicSample (nth i instructions zero_instruction)) (seq 0 (length instructions))).

(** The indexes of the seeds: the first bucket when the loop selects none. *)
Definition seed_indexes (instructions : list disassemblyInstructionRow) (totalSamples : Z) : list nat :=
  let samples i := periodicSample (nth i instructions zero_instruction) in
  if totalSamples =? 0 then []
  else
    match sampled_indexes instructions with
    | [] => []
    | first :: rest =>
        let (seeds, running) := seed_loop (length instructions) samples
          (percent_of totalSamples disassemblyWindowsCoverageThresholdPercent) (first :: rest) 0 in
        if running =? 0 then seeds ++ (span (fun i => samples i =? samples first) (first :: rest)).1 else seeds
    end.

Definition markDisassemblySeedInstructions (instructions : list disassemblyInstructionRow) (totalSamples : Z) : list disassemblyInstructionRow :=
  let seeds := seed_indexes instructions totalSamples in
  imap (fun i r => if bool_decide (i ∈ seeds) then with_seed r else r) instructions.

End Mark.

(** ** Ranges of indexes *)

Record disassemblyIndexRange := { start : Z; stop : Z }.

Definition by_index : disassemblyIndexRange -> disassemblyIndexRange -> comparison := then_by (asc start) (asc stop).

(** [segment[start : stop+1]] *)
Definition slice_of {A} (segment : list A) (r : disassemblyIndexRange) : option (list A) :=
  if (0 <=? start r) && (start r <=? stop r + 1) && (stop r + 1 <=? Z.of_nat (length segment))
  then Some (take (Z.to_nat (stop r + 1 - start r)) (drop (Z.to_nat (start r)) segment)) else None.

Definition size (r : disassemblyIndexRange) : Z := stop r - start r + 1.

(** The merged ranges from [last] on; [None] is an index out of range. *)
Fixpoint merge_loop (segment : list disassemblyInstructionRow) (last : disassemblyIndexRange) (ranges : list disassemblyIndexRange)
    : option (list disassemblyIndexRange) :=
  match ranges with
  | [] => Some [last]
  | lineRange :: rest =>
      let append r := (fun merged => last :: merged) <$> merge_loop segment r rest in
      if start lineRange <=? stop last + 1 then
        let mergedRange := {| start := start last; stop := Z.max (stop last) (stop lineRange) |} in
        if size mergedRange <=? disassemblyWindowsMaxMergedRegionInstructions then merge_loop segment mergedRange rest
        else
          let lineRange := {| start := if start lineRange <=? stop last then stop last + 1 else start lineRange; stop := stop lineRange |} in
          if stop lineRange <? start lineRange then merge_loop segment last rest
          else
            match slice_of segment lineRange with
            | None => None
            | Some instructions => if existsb seed instructions then append lineRange else merge_loop segment last rest
            end
      else append lineRange
  end.

(** The range around a seed. *)
Definition around (length : Z) (i : Z) : disassemblyIndexRange :=
  {| start := Z.max (i - disassemblyWindowsContextLines) 0; stop := Z.min (i + disassemblyWindowsContextLines) (length - 1) |}.

Definition seed_ranges (segment : list disassemblyInstructionRow) : list disassemblyIndexRange :=
  around (Z.of_nat (length segment)) ∘ Z.of_nat <$> filter (fun i => seed (nth i segment zero_instruction) = true) (seq 0 (length segment)).

Definition widen (hotWindowThresholdSamples : spec_float) (segment : list disassemblyInstructionRow) (r : disassemblyIndexRange)
    : option disassemblyIndexRange :=
  instructions ← slice_of segment r;
  let extraContextLines := disassemblyWindowsHotWindowContextLines - disassemblyWindowsContextLines in
  Some (if float_ge (float64 (totalDisassemblySamples instructions)) hotWindowThresholdSamples
        then {| start := Z.max (start r - extraContextLines) 0; stop := Z.min (stop r + extraContextLines) (Z.of_nat (length segment) - 1) |}
        else r).

(** The loop over pairs of neighbours: ranges that overlap are split between the originals. *)
Fixpoint split_loop (ranges widened : list disassemblyIndexRange) : list disassemblyIndexRange :=
  match ranges, widened with
  | r :: (r' :: _) as ranges', w :: w' :: rest =>
      if stop w <? start w' then w :: split_loop ranges' (w' :: rest)
      else
        let split := Z.quot (stop r + start r') 2 in
        {| start := start w; stop := Z.min (stop w) split |} ::
          split_loop ranges' ({| start := Z.max (start w') (split + 1); stop := stop w' |} :: rest)
  | _, _ => widened
  end.

Definition widenHotDisassemblyIndexRanges (ranges : list disassemblyIndexRange) (segment : list disassemblyInstructionRow)
    (totalSamplesAllImages : Z) : option (list disassemblyIndexRange) :=
  if bool_decide (ranges = []) || (totalSamplesAllImages =? 0) then Some ranges
  else split_loop ranges <$> mapM (widen (percent_of totalSamplesAllImages disassemblyWindowsHotWindowThresholdPercent) segment) ranges.

Section Merge.

Context (sort : forall A : Type, (A -> A -> comparison) -> list A -> list A).

Definition mergeDisassemblyIndexRanges (ranges : list disassemblyIndexRange) (segment : list disassemblyInstructionRow)
    : option (list disassemblyIndexRange) :=
  match sort disassemblyIndexRange by_index ranges with
  | [] => Some []
  | first :: rest => merge_loop segment first rest
  end.

Definition selectedDisassemblyWindowsForSegment (segment : list disassemblyInstructionRow) (totalSamplesAllImages : Z)
    : option (list (list disassemblyInstructionRow)) :=
  merged ← mergeDisassemblyIndexRanges (seed_ranges segment) segment;
  widened ← widenHotDisassemblyIndexRanges merged segment totalSamplesAllImages;
  mapM (slice_of segment) widened.

End Merge.

(** ** Slices *)

Definition in_index (i : Z) (r : disassemblyIndexRange) : Prop := start r <= i <= stop r.

(** A range of instructions of the segment. *)
Definition within (length : Z) (r : disassemblyIndexRange) : Prop := 0 <= start r <= stop r /\ stop r < length.

Definition seed_at (segment : list disassemblyInstructionRow) (i : Z) : Prop :=
  0 <= i /\ exists r, segment !! Z.to_nat i = Some r /\ seed r = true.

Definition has_seed (segment : list disassemblyInstructionRow) (r : disassemblyIndexRange) : Prop := exists i, in_index i r /\ seed_at segment i.

Lemma slice_of_within {A} (segment : list A) r : within (Z.of_nat (length segment)) r ->
  exists l, slice_of segment r = Some l /\ Z.of_nat (length l) = size r /\
    forall i, in_index i r -> l !! Z.to_nat (i - start r) = segment !! Z.to_nat i.
Proof.
  intros [[H0 H1] H2]. unfold slice_of, size. rewrite !(proj2 (Z.leb_le _ _)) by lia. eexists. split; [reflexivity|]. split.
  - rewrite length_take, length_drop. lia.
  - intros i [Hi Hi']. rewrite lookup_take, decide_True by lia. rewrite lookup_drop. f_equal. lia.
Qed.

Lemma slice_has_seed segment r l : within (Z.of_nat (length segment)) r -> slice_of segment r = Some l ->
  existsb seed l = true <-> has_seed segment r.
Proof.
  intros Hr Hl. destruct (slice_of_within segment r Hr) as (l' & Hl' & Hlen & Hlook). rewrite Hl in Hl'. injection Hl' as <-.
  destruct Hr as [Hr0 Hr1]. unfold size in Hlen. rewrite existsb_elem_of. split.
  - intros (x & [k Hk]%list_elem_of_lookup & Hs). pose proof (lookup_lt_Some _ _ _ Hk) as Hlt.
    assert (in_index (start r + Z.of_nat k) r) as Hin by (unfold in_index; lia). exists (start r + Z.of_nat k). split; [done|]. split; [lia|].
    exists x. rewrite <- Hlook by done. split; [|done]. rewrite <- Hk. f_equal. lia.
  - intros (i & Hin & H0 & x & Hx & Hs). exists x. split; [|done]. apply list_elem_of_lookup. eexists. rewrite Hlook by exact Hin. exact Hx.
Qed.

(** ** Merging *)

Definition range_ok (segment : list disassemblyInstructionRow) (r : disassemblyIndexRange) : Prop :=
  within (Z.of_nat (length segment)) r /\ size r <= disassemblyWindowsMaxMergedRegionInstructions /\ has_seed segment r.

Definition disjoint_order (a b : disassemblyIndexRange) : Prop := stop a < start b.

Lemma has_seed_mono segment r r' : has_seed segment r -> start r' <= start r -> stop r <= stop r' -> has_seed segment r'.
Proof. intros (i & [? ?] & Hs) ? ?. exists i. split; [unfold in_index; lia|done]. Qed.

Definition merge_post (segment : list disassemblyInstructionRow) (last : disassemblyIndexRange) (ranges merged : list disassemblyIndexRange) : Prop :=
  StronglySorted disjoint_order merged /\ Forall (range_ok segment) merged /\ Forall (fun r => start last <= start r) merged /\
  (forall i, seed_at segment i -> Exists (in_index i) (last :: ranges) -> i < start last \/ Exists (in_index i) merged) /\
  (forall i, Exists (in_index i) merged -> Exists (in_index i) (last :: ranges)).

Lemma merge_index_loop_spec segment ranges : forall last, range_ok segment last -> Forall (range_ok segment) ranges ->
  StronglySorted (fun a b => start a <= start b) ranges ->
  exists merged, merge_loop segment last ranges = Some merged /\ merge_post segment last ranges merged.
Proof.
  induction ranges as [|r ranges IH]; intros last Hlast Hok Hs; cbn [merge_loop].
  { exists [last]. split; [done|]. split_and!; [by repeat constructor|by constructor|by constructor|by right|done]. }
  apply Forall_cons in Hok as [Hr Hok]. inversion Hs as [|? ? Hs' Hf]; subst. rewrite Forall_forall in Hf.
  (* appending a range that starts after [last] *)
  assert (forall r', range_ok segment r' -> stop last < start r' -> start r <= start r' -> stop r' = stop r -> (start r' = start r \/ start r' = stop last + 1) ->
    exists merged, (fun merged => last :: merged) <$> merge_loop segment r' ranges = Some merged /\ merge_post segment last (r :: ranges) merged) as Happ.
  { intros r' Hr' Hgt Hst Hstop Hcase. destruct (IH r' Hr' Hok Hs') as (merged & Hm & H1 & H2 & H3 & H4 & H5). rewrite Hm. eexists. split; [reflexivity|].
    split_and!.
    - constructor; [done|]. eapply Forall_impl; [exact H3|]. unfold disjoint_order. intros x Hx. cbn in Hx. lia.
    - by constructor.
    - constructor; [lia|]. eapply Forall_impl; [exact H3|]. intros x Hx. cbn in Hx. destruct Hlast as [[? ?] _]. lia.
    - intros i Hi. rewrite !Exists_cons. intros [Hl|Hrr]; [by right; left|].
      assert (start r <= i) as Hge.
      { destruct Hrr as [[? ?]|(x & Hx & [? ?])%Exists_exists]; [done|]. specialize (Hf x Hx). lia. }
      assert (i < start r' \/ Exists (in_index i) (r' :: ranges)) as Hi'.
      { destruct (decide (i < start r')) as [|Hn]; [by left|]. right. apply Exists_cons. destruct Hrr as [[? ?]|?]; [left|by right]. unfold in_index. lia. }
      destruct Hi' as [Hlt|Hex]; [|destruct (H4 i Hi Hex) as [Hlt|]; [|by right; right]].
      all: destruct (decide (i < start last)) as [|]; [by left|]; right; left; unfold in_index; lia.
    - intros i. rewrite !Exists_cons. intros [?|Hx]; [by left|]. apply H5 in Hx. apply Exists_cons in Hx as [[? ?]|?]; [|by right; right].
      right; left. unfold in_index. lia. }
  (* leaving out a range whose seeds are not after [last] *)
  assert ((forall i, seed_at segment i -> in_index i r -> i <= stop last) ->
    exists merged, merge_loop segment last ranges = Some merged /\ merge_post segment last (r :: ranges) merged) as Hskip.
  { intros Hno. destruct (IH last Hlast Hok Hs') as (merged & Hm & H1 & H2 & H3 & H4 & H5). exists merged. split; [done|]. split_and!; [done..| |].
    - intros i Hi. rewrite !Exists_cons. intros Hex. destruct (decide (i < start last)) as [|Hn]; [by left|]. apply H4; [done|]. apply Exists_cons.
      destruct Hex as [|[Hin|]]; [by left| |by right]. left. specialize (Hno i Hi Hin). unfold in_index. lia.
    - intros i Hx%H5. rewrite !Exists_cons in *. tauto. }
  pose proof Hlast as ((Hl0 & Hl1) & Hlsz & Hlseed). pose proof Hr as ((Hr0 & Hr1) & Hrsz & Hrseed).
  destruct (Z.leb_spec (start r) (stop last + 1)) as [Hle|Hgt]; [|apply Happ; [done|lia|lia|done|by left]].
  destruct (Z.leb_spec (size {| start := start last; stop := Z.max (stop last) (stop r) |}) disassemblyWindowsMaxMergedRegionInstructions) as [Hsz|_].
  - set (m := {| start := start last; stop := Z.max (stop last) (stop r) |}) in *.
    assert (start m = start last /\ stop m = Z.max (stop last) (stop r)) as [Hms Hme] by done. clearbody m.
    assert (range_ok segment m) as Hm by (split_and!; [split; lia|done|by eapply has_seed_mono; [exact Hlseed|lia..]]).
    destruct (IH m Hm Hok Hs') as (merged & Hmm & H1 & H2 & H3 & H4 & H5). exists merged. split; [done|]. rewrite Hms in *.
    split_and!; [done..| |].
    + intros i Hi. rewrite !Exists_cons. intros Hex. destruct (decide (i < start last)) as [|Hn]; [by left|]. apply (H4 i Hi). apply Exists_cons.
      destruct Hex as [[? ?]|[[? ?]|?]]; [left|left|by right]; unfold in_index; lia.
    + intros i Hx%H5. rewrite !Exists_cons in *. destruct Hx as [[? Hu]|?]; [|by right; right].
      destruct (decide (i <= stop last)); [left|right; left]; unfold in_index; lia.
  - set (r' := {| start := _; stop := stop r |}).
    assert (start r' = Z.max (start r) (stop last + 1) /\ stop r' = stop r) as [Hst Hsp]
      by (split; [|done]; cbn [r' start]; destruct (Z.leb_spec (start r) (stop last)); lia). clearbody r'.
    destruct (Z.ltb_spec (stop r') (start r')) as [Hlt|Hge]; [apply Hskip; intros i _ [? ?]; lia|].
    assert (within (Z.of_nat (length segment)) r') as Hw by (split; lia).
    destruct (slice_of_within segment r' Hw) as (l & Hsl & _). rewrite Hsl. destruct (existsb seed l) eqn:He.
    + apply (slice_has_seed segment r' l Hw Hsl) in He. unfold size in *. apply Happ; [split_and!; [done|unfold size; lia|done]|lia..].
    + apply Hskip. intros i Hi [? ?]. destruct (decide (i <= stop last)) as [|Hn]; [done|]. exfalso.
      assert (existsb seed l = true) as Ht; [|congruence]. apply (slice_has_seed segment r' l Hw Hsl). exists i. split; [|done].
      unfold in_index. lia.
Qed.

(** ** Widening *)

Definition covers (r w : disassemblyIndexRange) : Prop := start w <= start r /\ stop r <= stop w.

Lemma split_loop_spec ranges : forall widened, Forall2 covers ranges widened -> StronglySorted disjoint_order ranges ->
  Forall (fun r => start r <= stop r) ranges -> Forall (fun r => 0 <= start r) ranges ->
  let result := split_loop ranges widened in
  Forall2 covers ranges result /\ Forall2 (fun w x => covers x w) widened result /\ StronglySorted disjoint_order result /\
  forall w rest, widened = w :: rest -> Forall (fun x => start w <= start x) result.
Proof.
  induction ranges as [|r ranges IH]; intros widened Hc Hs Hle H0; cbn zeta.
  { apply Forall2_nil_inv_l in Hc as ->. split_and!; [constructor..|done]. }
  apply Forall2_cons_inv_l in Hc as (w & rest & [Hc1 Hc2] & Hc & ->). inversion Hs as [|? ? Hs' Hf]; subst.
  apply Forall_cons in Hle as [Hr Hle]. apply Forall_cons in H0 as [Hr0 H0].
  destruct ranges as [|r' ranges].
  { apply Forall2_nil_inv_l in Hc as ->. cbn. split_and!; [by repeat constructor|by repeat constructor|by repeat constructor|].
    intros ? ? [= <- <-]. by constructor. }
  apply Forall2_cons_inv_l in Hc as (w' & rest' & [Hc1' Hc2'] & Hc' & ->). cbn [split_loop]. pose proof Hf as [Hf1 _]%Forall_cons. unfold disjoint_order in Hf1.
  assert (forall x x', start x = start w -> stop r <= stop x <= stop w -> start w' <= start x' <= start r' -> stop x' = stop w' -> stop x < start x' ->
    let result := x :: split_loop (r' :: ranges) (x' :: rest') in
    Forall2 covers (r :: r' :: ranges) result /\ Forall2 (fun w x => covers x w) (w :: w' :: rest') result /\ StronglySorted disjoint_order result /\
    forall w0 rest, w :: w' :: rest' = w0 :: rest -> Forall (fun x => start w0 <= start x) result) as Hstep.
  { intros x x' Hx1 Hx2 Hx3 Hx4 Hlt. cbn zeta. destruct (IH (x' :: rest')) as (H1 & H2 & H3 & H4); [by constructor; [unfold covers; lia|]|done|done|done|].
    specialize (H4 x' rest' eq_refl). split_and!.
    - constructor; [unfold covers; lia|done].
    - apply Forall2_cons_inv_l in H2 as (y & ys & Hy & H2 & Heq). rewrite Heq. constructor; [unfold covers; lia|]. constructor; [|done].
      unfold covers in *. lia.
    - constructor; [done|]. eapply Forall_impl; [exact H4|]. unfold disjoint_order. intros; cbn in *; lia.
    - intros w0 rest [= <- <-]. constructor; [lia|]. eapply Forall_impl; [exact H4|]. intros; cbn in *; lia. }
  destruct (Z.ltb_spec (stop w) (start w')) as [Hlt|Hge]; [by apply Hstep; [|lia..|]|].
  set (split := Z.quot (stop r + start r') 2). assert (stop r <= split < start r') as Hsplit.
  { subst split. rewrite Z.quot_div_nonneg by lia. split; [apply Z.div_le_lower_bound; lia|apply Z.div_lt_upper_bound; lia]. }
  clearbody split. apply Hstep; cbn [start stop]; lia.
Qed.

Lemma widen_within threshold segment r : within (Z.of_nat (length segment)) r ->
  exists w, widen threshold segment r = Some w /\ covers r w /\ within (Z.of_nat (length segment)) w /\ start r - 88 <= start w /\ stop w <= stop r + 88.
Proof.
  intros Hr. destruct (slice_of_within segment r Hr) as (l & Hl & _). destruct Hr as [Hr Hr']. unfold widen. rewrite Hl. cbn [mbind option_bind].
  eexists. split; [reflexivity|]. unfold covers, within, disassemblyWindowsHotWindowContextLines, disassemblyWindowsContextLines.
  destruct (float_ge _ _); cbn [start stop]; lia.
Qed.

(** The windows of a segment: [near n i r] is a range around [r] by at most [n] instructions. *)
Lemma widenHotDisassemblyIndexRanges_spec ranges segment total : StronglySorted disjoint_order ranges ->
  Forall (range_ok segment) ranges ->
  exists widened, widenHotDisassemblyIndexRanges ranges segment total = Some widened /\
    Forall2 (fun r w => covers r w /\ start r - 88 <= start w /\ stop w <= stop r + 88) ranges widened /\
    StronglySorted disjoint_order widened /\ Forall (within (Z.of_nat (length segment))) widened.
Proof.
  intros Hs Hok. unfold widenHotDisassemblyIndexRanges.
  destruct (bool_decide (ranges = []) || (total =? 0)).
  { exists ranges. split_and!; [done| |done|].
    - apply Forall_Forall2_diag, Forall_forall. intros r _. unfold covers. lia.
    - eapply Forall_impl; [exact Hok|]. by intros r [? _]. }
  set (threshold := percent_of _ _).
  assert (exists ws, mapM (widen threshold segment) ranges = Some ws /\
    Forall2 (fun r w => covers r w /\ within (Z.of_nat (length segment)) w /\ start r - 88 <= start w /\ stop w <= stop r + 88) ranges ws) as (ws & -> & Hws).
  { clear Hs. induction Hok as [|r ranges [Hw _] _ (ws & Hws & H2)]; [by exists []|].
    destruct (widen_within threshold segment r Hw) as (w & Hr & ?). exists (w :: ws). cbn. rewrite Hr, Hws. split; [done|by constructor]. }
  eexists. split; [reflexivity|].
  destruct (split_loop_spec ranges ws) as (H1 & H2 & H3 & _); [by eapply Forall2_impl; [exact Hws|]; intros ? ? [? _]|done|..].
  { eapply Forall_impl; [exact Hok|]. intros r [[? ?] _]. cbn. lia. }
  { eapply Forall_impl; [exact Hok|]. intros r [[? ?] _]. cbn. lia. }
  split_and!; [|done|].
  - apply Forall2_same_length_lookup. split; [by eapply Forall2_length|]. intros i r x Hr Hx.
    pose proof (Forall2_lookup_lr _ _ _ _ _ _ H1 Hr Hx) as Hrx. destruct (Forall2_lookup_l _ _ _ _ _ Hws Hr) as (w & Hw & Hrw).
    pose proof (Forall2_lookup_lr _ _ _ _ _ _ H2 Hw Hx) as Hwx. cbn in Hwx. unfold covers in *. lia.
  - apply Forall_forall. intros x [i Hx]%list_elem_of_lookup. destruct (Forall2_lookup_r _ _ _ _ _ H1 Hx) as (r & Hr & Hrx).
    destruct (Forall2_lookup_l _ _ _ _ _ Hws Hr) as (w & Hw & Hrw). pose proof (Forall2_lookup_lr _ _ _ _ _ _ H2 Hw Hx) as Hwx. cbn in Hwx.
    rewrite Forall_forall in Hok. destruct (Hok r) as [[? ?] _]; [by eapply list_elem_of_lookup_2|]. unfold covers, within in *. lia.
Qed.

(** ** The windows of a segment *)

Lemma around_ok segment i : seed_at segment (Z.of_nat i) ->
  let r := around (Z.of_nat (length segment)) (Z.of_nat i) in
  range_ok segment r /\ in_index (Z.of_nat i) r /\ forall j, in_index j r -> Z.abs (j - Z.of_nat i) <= 12.
Proof.
  intros Hi. cbn zeta. pose proof Hi as (_ & x & Hx%lookup_lt_Some & _). rewrite Nat2Z.id in Hx.
  unfold around, disassemblyWindowsContextLines. set (r := {| start := _; stop := _ |}).
  assert (start r = Z.max (Z.of_nat i - 12) 0 /\ stop r = Z.min (Z.of_nat i + 12) (Z.of_nat (length segment) - 1)) as [Hs He] by done. clearbody r.
  assert (in_index (Z.of_nat i) r) as Hin by (unfold in_index; lia).
  split; [split_and!; [split; lia|unfold size, disassemblyWindowsMaxMergedRegionInstructions; lia|by exists (Z.of_nat i)]|].
  split; [done|]. unfold in_index. lia.
Qed.

Lemma seed_ranges_elem segment r : r ∈ seed_ranges segment <->
  exists i, seed_at segment (Z.of_nat i) /\ r = around (Z.of_nat (length segment)) (Z.of_nat i).
Proof.
  unfold seed_ranges. rewrite list_elem_of_fmap. split; intros (i & H1 & H2).
  - apply list_elem_of_filter in H2 as [Hs [_ Hi]%elem_of_seq]. exists i. split; [|done]. split; [lia|]. rewrite Nat2Z.id.
    destruct (lookup_lt_is_Some_2 segment i) as [x Hx]; [lia|]. exists x. by rewrite (nth_lookup_Some _ _ _ _ Hx) in Hs.
  - exists i. split; [done|]. destruct H1 as (_ & x & Hx & Hs). rewrite Nat2Z.id in Hx. apply list_elem_of_filter.
    split; [by rewrite (nth_lookup_Some _ _ _ _ Hx)|]. apply elem_of_seq. apply lookup_lt_Some in Hx. lia.
Qed.

Section Segment.
Context (sort : forall A : Type, (A -> A -> comparison) -> list A -> list A) `{!SliceSort sort}.

Lemma segment_windows segment total :
  exists ranges windows, selectedDisassemblyWindowsForSegment sort segment total = Some windows /\
    Forall2 (fun r l => slice_of segment r = Some l) ranges windows /\
    StronglySorted disjoint_order ranges /\ Forall (within (Z.of_nat (length segment))) ranges /\
    (forall i, seed_at segment i -> Exists (in_index i) ranges) /\
    (forall i, Exists (in_index i) ranges -> exists j, seed_at segment j /\ Z.abs (i - j) <= 100).
Proof.
  unfold selectedDisassemblyWindowsForSegment.
  assert (exists merged, mergeDisassemblyIndexRanges sort (seed_ranges segment) segment = Some merged /\
    StronglySorted disjoint_order merged /\ Forall (range_ok segment) merged /\
    (forall i, seed_at segment i -> Exists (in_index i) merged) /\
    (forall i, Exists (in_index i) merged -> Exists (in_index i) (seed_ranges segment))) as (merged & Hm & Hs & Hok & Hcov & Hsub).
  { unfold mergeDisassemblyIndexRanges. pose proof (SliceSort0 disassemblyIndexRange by_index _) as [P S].
    specialize (P (seed_ranges segment)). specialize (S (seed_ranges segment)).
    assert (Forall (range_ok segment) (sort _ by_index (seed_ranges segment))) as Hok.
    { rewrite P. apply Forall_forall. intros r (i & Hi & ->)%seed_ranges_elem. by apply around_ok. }
    assert (forall i, seed_at segment i -> Exists (in_index i) (sort _ by_index (seed_ranges segment))) as Hin.
    { intros i Hi. rewrite P. pose proof Hi as [H0 _]. apply Exists_exists. exists (around (Z.of_nat (length segment)) i).
      rewrite <- (Z2Nat.id i H0) in Hi |- *. split; [apply seed_ranges_elem; by eexists|by apply around_ok]. }
    assert (forall i, Exists (in_index i) (sort _ by_index (seed_ranges segment)) -> Exists (in_index i) (seed_ranges segment)) as Hsub by (intros i; by rewrite P).
    clear P. destruct (sort _ by_index (seed_ranges segment)) as [|first rest]; [exists []; by split_and!; [|constructor|..]|].
    assert (StronglySorted (fun a b => start a <= start b) (first :: rest)) as Hst.
    { eapply StronglySorted_weaken; [|exact S]. unfold not_after, by_index, then_by, asc. intros a b.
      destruct (Z.compare_spec (start a) (start b)); intros ?; [lia..|done]. }
    inversion Hst as [|? ? Hst' Hf]; subst. apply Forall_cons in Hok as [H1 H2].
    destruct (merge_index_loop_spec segment rest first H1 H2 Hst') as (merged & Hm & M1 & M2 & _ & M4 & M5). exists merged. split_and!; [done..| |].
    - intros i Hi. pose proof (Hin i Hi) as Hex. destruct (M4 i Hi Hex) as [Hlt|]; [|done]. exfalso.
      apply Exists_cons in Hex as [[? ?]|(x & Hx & [? ?])%Exists_exists]; [lia|]. rewrite Forall_forall in Hf. specialize (Hf x Hx). cbn in Hf. lia.
    - intros i Hex. by apply Hsub, M5. }
  rewrite Hm. cbn [mbind option_bind].
  destruct (widenHotDisassemblyIndexRanges_spec merged segment total Hs Hok) as (widened & Hw & Hf & Hs' & Hwi). rewrite Hw. cbn [mbind option_bind].
  assert (exists windows, mapM (slice_of segment) widened = Some windows /\ Forall2 (fun r l => slice_of segment r = Some l) widened windows)
    as (windows & Hwin & Hsl).
  { clear Hf Hs' Hw. induction Hwi as [|r ws Hr _ (windows & Hws & H2)]; [by exists []|]. destruct (slice_of_within segment r Hr) as (l & Hl & _).
    exists (l :: windows). cbn. rewrite Hl, Hws. split; [done|by constructor]. }
  exists widened, windows. split_and!; [done..| |].
  - intros i Hi. apply Hcov in Hi as (r & [k Hr]%list_elem_of_lookup & Hin)%Exists_exists. destruct (Forall2_lookup_l _ _ _ _ _ Hf Hr) as (w & Hkw & Hc & _).
    apply Exists_exists. exists w. split; [by eapply list_elem_of_lookup_2|]. unfold in_index, covers in *. lia.
  - intros i (w & [k Hk]%list_elem_of_lookup & Hin)%Exists_exists. destruct (Forall2_lookup_r _ _ _ _ _ Hf Hk) as (r & Hr & Hc & Hl & Hu).
    rewrite Forall_forall in Hok. destruct (Hok r) as ([Hr1 Hr2] & _); [by eapply list_elem_of_lookup_2|].
    assert (in_index (Z.max (start r) (Z.min i (stop r))) r) as Hj by (unfold in_index; lia).
    assert (Exists (in_index (Z.max (start r) (Z.min i (stop r)))) (seed_ranges segment)) as (x & (j & Hseed & ->)%seed_ranges_elem & Hx)%Exists_exists.
    { apply Hsub, Exists_exists. exists r. split; [by eapply list_elem_of_lookup_2|done]. }
    exists (Z.of_nat j). split; [done|]. destruct (around_ok segment j Hseed) as (_ & _ & Hnear). specialize (Hnear _ Hx).
    unfold in_index in *. lia.
Qed.

End Segment.

(** ** The choice of seeds *)

Lemma span_spec {A} (p : A -> bool) l : let (a, b) := span p l in
  l = a ++ b /\ (forall x, x ∈ a -> p x = true) /\ (forall x b', b = x :: b' -> p x = false).
Proof.
  induction l as [|x l IH]; cbn [span]; [split_and!; [done|by intros ? ?%elem_of_nil|done]|].
  destruct (p x) eqn:Hp.
  - destruct (span p l) as [a b]. destruct IH as (-> & Ha & Hb). split_and!; [done| |done]. intros y [->|?]%elem_of_cons; [done|by apply Ha].
  - split_and!; [done|by intros ? ?%elem_of_nil|]. intros ? ? [= <- <-]. done.
Qed.

Section Seeds.

Context (samples : nat -> Z) (targetSamples : spec_float).

Definition total_of (l : list nat) : Z := foldr (fun i n => samples i + n) 0 l.

Lemma total_of_app l k : total_of (l ++ k) = total_of l + total_of k.
Proof. unfold total_of. induction l as [|i l IH]; cbn [foldr app]; [lia|]. rewrite IH. lia. Qed.

Lemma total_of_nonneg l : Forall (fun i => 0 < samples i) l -> 0 <= total_of l /\ (l <> [] -> 0 < total_of l).
Proof.
  unfold total_of. induction 1 as [|i l Hi _ [IH _]]; cbn [foldr]; [done|]. split; [lia|]. intros _. lia.
Qed.

Lemma bucket_total v b : (forall i, i ∈ b -> samples i = v) -> forall n, 0 <= n -> 0 <= v -> n + total_of b < 2 ^ 64 ->
  foldl (fun total _ => wrap_uint64 (total + v)) n b = n + total_of b.
Proof.
  unfold total_of. induction b as [|i b IH]; intros Hb n Hn Hv Hlt; cbn [foldl foldr] in *; [lia|].
  assert (samples i = v) as Hi by (apply Hb; left).
  assert (0 <= foldr (fun i n => samples i + n) 0 b) as Hpos.
  { clear IH Hlt. assert (forall j, j ∈ b -> samples j = v) as Hb' by (intros j ?; apply Hb; by right). clear Hb Hi.
    induction b as [|j b IHb]; cbn [foldr]; [lia|]. assert (samples j = v) by (apply Hb'; left).
    assert (0 <= foldr (fun i n => samples i + n) 0 b) by (apply IHb; intros; apply Hb'; by right). lia. }
  rewrite wrap_uint64_id by lia. rewrite IH; [lia|intros j ?; apply Hb; by right|lia|done|lia].
Qed.

(** Every sample of the first list is larger than every sample of the second. *)
Definition above (l k : list nat) : Prop := forall i j, i ∈ l -> j ∈ k -> samples j < samples i.

Definition bucket (v : Z) (b : list nat) : Prop := b <> [] /\ forall i, i ∈ b -> samples i = v.

Lemma seed_loop_spec fuel : forall rest selected, (length rest <= fuel)%nat ->
  StronglySorted (fun i j => samples j <= samples i) rest -> above selected rest -> Forall (fun i => 0 < samples i) (selected ++ rest) ->
  total_of (selected ++ rest) < 2 ^ 64 ->
  let (seeds, running) := seed_loop fuel samples targetSamples rest (total_of selected) in
  exists left, rest = seeds ++ left /\ running = total_of (selected ++ seeds) /\ above (selected ++ seeds) left /\
    (left = [] \/ float_lt (float64 running) targetSamples = false \/
     exists v b left', 0 < running /\ left = b ++ left' /\ bucket v b /\ (1 < length b)%nat /\ above b left' /\
       float_gt (float64 (running + total_of b)) targetSamples = true) /\
    (seeds = [] \/ exists v seeds' b, seeds = seeds' ++ b /\ bucket v b /\ above (selected ++ seeds') b /\
       float_lt (float64 (total_of (selected ++ seeds'))) targetSamples = true).
Proof.
  induction fuel as [|fuel IH]; intros rest selected Hlen Hs Hab Hpos Hmax.
  { destruct rest; [|cbn in Hlen; lia]. cbn. exists []. rewrite app_nil_r. split_and!; [done|done|by intros ? ? _ ?%elem_of_nil|by left|by left]. }
  destruct rest as [|first rest]; [cbn; exists []; rewrite app_nil_r; split_and!; [done|done|by intros ? ? _ ?%elem_of_nil|by left|by left]|].
  cbn [seed_loop]. destruct (float_lt (float64 (total_of selected)) targetSamples) eqn:Hlt.
  2: { exists (first :: rest). rewrite app_nil_r. cbn. split_and!; [done|done|done|by right; left|by left]. }
  pose proof (span_spec (fun i => samples i =? samples first) rest) as Hspan.
  destruct (span _ rest) as [same rest'] eqn:Hsp. destruct Hspan as (-> & Hsame & Hnext).
  set (b := first :: same) in *. assert (bucket (samples first) b) as Hb.
  { split; [done|]. intros i [->|Hi]%elem_of_cons; [done|]. by apply Z.eqb_eq, (Hsame i). }
  assert (first :: same ++ rest' = b ++ rest') as Happ by done. rewrite Happ in *.
  apply StronglySorted_app in Hs as (Hcross & _ & Hs').
  assert (above b rest') as Hab'.
  { intros i j Hi Hj. rewrite (proj2 Hb i Hi). destruct rest' as [|x rest'']; [by apply elem_of_nil in Hj|].
    specialize (Hnext x rest'' eq_refl). apply Z.eqb_neq in Hnext.
    assert (samples x <= samples first) as Hx by (apply (Hcross first x); left).
    inversion Hs' as [|? ? _ Hf]; subst. rewrite Forall_forall in Hf. apply elem_of_cons in Hj as [->|Hj]; [lia|]. specialize (Hf j Hj). lia. }
  pose proof Hpos as [Hps [Hpb Hpr]%Forall_app]%Forall_app.
  pose proof (total_of_nonneg selected Hps) as [Hts Hts']. pose proof (total_of_nonneg b Hpb) as [Htb _]. pose proof (total_of_nonneg rest' Hpr) as [Htr _].
  rewrite !total_of_app in Hmax.
  assert (0 < samples first) as Hf0 by (apply Forall_cons in Hpb as [? _]; done).
  rewrite (bucket_total (samples first) b (proj2 Hb) 0) by lia. rewrite Z.add_0_l, wrap_uint64_id by lia.
  destruct (float_gt _ _ && _ && _) eqn:Hstop.
  - apply andb_true_iff in Hstop as [[Hgt Hrun%Z.ltb_lt]%andb_true_iff Hlen2%Z.ltb_lt]. exists (b ++ rest'). rewrite app_nil_r.
    split_and!; [done|done|done| |by left]. right; right. exists (samples first), b, rest'. split_and!; [done|done|apply Hb..|lia|done|done].
  - rewrite <- total_of_app. assert (above (selected ++ b) rest') as Hab2.
    { intros i j [Hi|Hi]%elem_of_app Hj; [|by apply Hab']. apply Hab; [done|]. apply elem_of_app. by right. }
    specialize (IH rest' (selected ++ b)). destruct (seed_loop fuel samples targetSamples rest' (total_of (selected ++ b))) as [seeds running].
    destruct IH as (left & -> & -> & Hleft & Hend & Hlast); [|done|done|by rewrite <- app_assoc|rewrite <- app_assoc, !total_of_app; lia|].
    { cbn in Hlen. rewrite length_app in Hlen. lia. }
    exists left. rewrite <- !app_assoc in *. split_and!; [done|done|done|done|]. right.
    destruct Hlast as [->|(v & seeds' & b' & -> & Hb' & Habb & Hfl)].
    + exists (samples first), [], b. rewrite !app_nil_r. split_and!; [done|apply Hb..| |done].
      intros i j Hi Hj. apply Hab; [done|]. apply elem_of_app. by left.
    + exists v, (b ++ seeds'), b'. rewrite <- !app_assoc in *. by split_and!; [|apply Hb'..| |].
Qed.

End Seeds.

(** *** The threshold of seeds *)

Definition sum_samples (rows : list disassemblyInstructionRow) : Z := foldr (fun r n => periodicSample r + n) 0 rows.

(** The samples of the instructions with at least [t] samples. *)
Definition samples_from (t : Z) (rows : list disassemblyInstructionRow) : Z := sum_samples (filter (fun r => t <= periodicSample r) rows).

#[export] Instance sum_samples_perm : Proper ((≡ₚ) ==> (=)) sum_samples.
Proof. induction 1; unfold sum_samples in *; cbn [foldr] in *; lia. Qed.

Lemma totalDisassemblySamples_sum rows : Forall (fun r => 0 <= periodicSample r) rows -> sum_samples rows < 2 ^ 64 ->
  totalDisassemblySamples rows = sum_samples rows /\ 0 <= sum_samples rows.
Proof.
  intros Hr. unfold totalDisassemblySamples.
  assert (forall n, 0 <= n -> n + sum_samples rows < 2 ^ 64 -> foldl (fun total r => wrap_uint64 (total + periodicSample r)) n rows = n + sum_samples rows /\ 0 <= sum_samples rows) as H.
  { induction Hr as [|r rows Hr' _ IH]; intros n Hn Hlt; unfold sum_samples in *; cbn [foldl foldr] in *; [lia|].
    assert (0 <= foldr (fun r n => periodicSample r + n) 0 rows) as Hp.
    { destruct (decide (foldr (fun r n => periodicSample r + n) 0 rows < 0)); [|lia]. destruct (IH 0); lia. }
    rewrite wrap_uint64_id by lia. destruct (IH (n + periodicSample r)) as [-> _]; lia. }
  intros Hlt. destruct (H 0) as [-> ?]; [lia..|]. done.
Qed.

Section Threshold.

Context (sort : forall A : Type, (A -> A -> comparison) -> list A -> list A) `{!SliceSort sort}.
Context (rows : list disassemblyInstructionRow).

Definition at_index (i : nat) : disassemblyInstructionRow := nth i rows zero_instruction.
Definition samples_at (i : nat) : Z := periodicSample (at_index i).

#[local] Instance index_order_order : Order (index_order rows).
Proof. unfold index_order. apply _. Qed.

Lemma rows_by_index : at_index <$> seq 0 (length rows) = rows.
Proof.
  apply list_eq. intros i. rewrite list_lookup_fmap. destruct (decide (i < length rows)%nat) as [Hi|Hi].
  - rewrite lookup_seq_lt by done. cbn. destruct (lookup_lt_is_Some_2 rows i Hi) as [r Hr]. unfold at_index. rewrite Hr. by rewrite (nth_lookup_Some _ _ _ _ Hr).
  - rewrite lookup_seq_ge by lia. cbn. symmetry. apply lookup_ge_None_2. lia.
Qed.

Lemma filter_by_index (P : disassemblyInstructionRow -> Prop) `{!forall r, Decision (P r)} (l : list nat) :
  at_index <$> filter (fun i => P (at_index i)) l = filter P (at_index <$> l).
Proof.
  induction l as [|i l IH]; [done|]. rewrite fmap_cons, !filter_cons. destruct (decide (P (at_index i))); [|exact IH]. rewrite fmap_cons. by f_equal.
Qed.

Lemma total_by_index (l : list nat) : total_of samples_at l = sum_samples (at_index <$> l).
Proof. unfold total_of, sum_samples. induction l as [|i l IH]; [done|]. rewrite fmap_cons. cbn [foldr]. by rewrite IH. Qed.

Lemma sampled_rows : at_index <$> sampled_indexes sort rows ≡ₚ filter (fun r => 0 < periodicSample r) rows.
Proof.
  unfold sampled_indexes. rewrite (sort_permutes (Sorts := SliceSort0 nat (index_order rows) _)).
  pose proof (filter_by_index (fun r => 0 < periodicSample r) (seq 0 (length rows))) as Hf. rewrite rows_by_index in Hf.
  rewrite <- Hf. reflexivity.
Qed.

Lemma sampled_indexes_spec : StronglySorted (fun i j => samples_at j <= samples_at i) (sampled_indexes sort rows) /\
  (forall i, i ∈ sampled_indexes sort rows <-> 0 < samples_at i /\ (i < length rows)%nat) /\ (length (sampled_indexes sort rows) <= length rows)%nat.
Proof.
  unfold sampled_indexes. pose proof (SliceSort0 nat (index_order rows) _) as [P S]. split_and!.
  - eapply StronglySorted_weaken; [|apply S]. unfold not_after, index_order, then_by, desc. intros i j.
    change (nth ?k rows zero_instruction) with (at_index k). unfold samples_at.
    destruct (Z.compare_spec (periodicSample (at_index j)) (periodicSample (at_index i))); intros ?; [lia..|done].
  - intros i. rewrite P, list_elem_of_filter, elem_of_seq. unfold samples_at, at_index. naive_solver lia.
  - rewrite P. etransitivity; [apply length_filter|]. by rewrite length_seq.
Qed.

(** The seeds are the instructions with at least [t] samples: those with more have not enough,
    and these have, or are all, or the next bucket is a tie that has too much. *)
Definition seed_threshold (target : spec_float) (t : Z) : Prop :=
  0 < t /\ (exists r, r ∈ rows /\ periodicSample r = t) /\ float_lt (float64 (samples_from (t + 1) rows)) target = true /\
  (float_lt (float64 (samples_from t rows)) target = false \/ (forall r, r ∈ rows -> 0 < periodicSample r -> t <= periodicSample r) \/
   exists t', 0 < t' < t /\ (forall r, r ∈ rows -> ~ (t' < periodicSample r < t)) /\
     (1 < length (filter (fun r => periodicSample r = t') rows))%nat /\ float_gt (float64 (samples_from t' rows)) target = true).

(** The rows with at least [t] samples, of a list of indexes split at [t]. *)
Lemma split_at_threshold t (l k : list nat) : 0 < t -> at_index <$> (l ++ k) ≡ₚ filter (fun r => 0 < periodicSample r) rows ->
  (forall i, i ∈ l -> t <= samples_at i) -> (forall j, j ∈ k -> samples_at j < t) -> total_of samples_at l = samples_from t rows.
Proof.
  intros Ht Hp Hl Hk. rewrite total_by_index. unfold samples_from.
  assert (filter (fun r => t <= periodicSample r) (at_index <$> (l ++ k)) = at_index <$> l) as <-.
  { rewrite fmap_app, filter_app. rewrite <- !(filter_by_index (fun r => t <= periodicSample r)).
    assert (filter (fun i => t <= periodicSample (at_index i)) l = l) as ->.
    { clear Hp Hk. induction l as [|i l IH]; [done|]. rewrite filter_cons_True by (apply Hl; left). f_equal. apply IH. intros ? ?. apply Hl. by right. }
    assert (filter (fun i => t <= periodicSample (at_index i)) k = []) as ->; [|by rewrite app_nil_r].
    apply filter_nil_iff. intros j Hj. specialize (Hk j Hj). unfold samples_at in Hk. lia. }
  rewrite Hp, list_filter_filter. f_equal. apply list_filter_iff. intros r. lia.
Qed.

Lemma seed_indexes_spec total : Forall (fun r => 0 <= periodicSample r) rows -> sum_samples rows < 2 ^ 64 ->
  total <> 0 -> filter (fun r => 0 < periodicSample r) rows <> [] ->
  let target := percent_of total disassemblyWindowsCoverageThresholdPercent in
  float_lt (float64 0) target = true ->
  exists t, seed_threshold target t /\ forall i, i ∈ seed_indexes sort rows total <-> (i < length rows)%nat /\ t <= samples_at i.
Proof.
  intros Hnn Hmax Ht Hne target Hpos. destruct sampled_indexes_spec as (Hs & Hin & Hlen). pose proof sampled_rows as Hp.
  unfold seed_indexes. rewrite (proj2 (Z.eqb_neq _ _)) by done. fold target. set (sampled := sampled_indexes sort rows) in *.
  assert (sampled <> []) as Hsne by (intros Hnil; rewrite Hnil in Hp; by apply Permutation_sym, Permutation_nil in Hp || (apply Hne; by apply Permutation_nil)).
  destruct sampled as [|first rest] eqn:Heq; [done|]. rewrite <- Heq in *. clearbody sampled.
  change (fun i => periodicSample (nth i rows zero_instruction)) with samples_at.
  assert (Forall (fun i => 0 < samples_at i) sampled) as Hpos' by (apply Forall_forall; intros i [? _]%Hin; done).
  assert (sum_samples (filter (fun r => 0 < periodicSample r) rows) = sum_samples rows) as Hsum.
  { clear -Hnn. unfold sum_samples. induction Hnn as [|r l Hr _ IH]; [done|]. rewrite filter_cons. cbn [foldr]. destruct (decide _); cbn [foldr]; lia. }
  pose proof (seed_loop_spec samples_at target (length rows) sampled [] Hlen Hs) as Hspec.
  destruct (seed_loop (length rows) samples_at target sampled (total_of samples_at [])) as [seeds running] eqn:Hloop.
  change (total_of samples_at []) with 0 in Hloop. rewrite Hloop.
  destruct Hspec as (left & -> & -> & Hleft & Hend & Hlast); [by intros ? ? ?%elem_of_nil|done|by rewrite total_by_index, Hp, Hsum|].
  cbn [app] in *. apply Forall_app in Hpos' as [Hps Hpl]. pose proof (total_of_nonneg samples_at seeds Hps) as [H0 H1].
  destruct Hlast as [->|(t & seeds' & b & -> & [Hbne Hb] & Hab & Hfl)].
  { exfalso. destruct Hend as [->|[Hend|(? & ? & ? & Hrun & _)]]; [done| |cbn in Hrun; lia].
    change (float_lt (float64 0) target = false) in Hend. congruence. }
  assert (0 < total_of samples_at (seeds' ++ b)) as Hrun by (apply H1; by destruct seeds', b).
  rewrite (proj2 (Z.eqb_neq _ _)) by lia.
  assert (exists x, x ∈ b) as (x & Hx) by (destruct b as [|y b]; [done|]; exists y; left). pose proof (Hb x Hx) as Hxt.
  assert (0 < t) as Htpos by (rewrite <- Hxt; rewrite Forall_forall in Hps; apply Hps, elem_of_app; by right).
  assert (forall i, i ∈ seeds' ++ b -> t <= samples_at i) as Hge.
  { intros i [Hi|Hi]%elem_of_app; [specialize (Hab i x Hi Hx); lia|rewrite (Hb i Hi); lia]. }
  assert (forall j, j ∈ left -> samples_at j < t) as Hlt.
  { intros j Hj. rewrite <- Hxt. apply Hleft; [apply elem_of_app; by right|done]. }
  exists t. split; [|].
  - split_and!; [done| | |].
    + exists (at_index x). split; [|done]. assert (x ∈ (seeds' ++ b) ++ left) as [_ Hxl]%Hin by (rewrite !elem_of_app; auto).
      apply list_elem_of_lookup. exists x. destruct (lookup_lt_is_Some_2 rows x Hxl) as [r Hr]. unfold at_index. by rewrite (nth_lookup_Some _ _ _ _ Hr).
    + rewrite <- (split_at_threshold (t + 1) seeds' (b ++ left)); [done|lia|by rewrite app_assoc| |].
      * intros i Hi. specialize (Hab i x Hi Hx). lia.
      * intros j [Hj|Hj]%elem_of_app; [rewrite (Hb j Hj); lia|specialize (Hlt j Hj); lia].
    + assert (forall r, r ∈ rows -> 0 < periodicSample r -> exists i, i ∈ (seeds' ++ b) ++ left /\ at_index i = r) as Hall.
      { intros r Hr Hr0. assert (r ∈ at_index <$> ((seeds' ++ b) ++ left)) as (i & -> & Hi)%list_elem_of_fmap; [|by exists i].
        rewrite Hp. by apply list_elem_of_filter. }
      rewrite <- (split_at_threshold t (seeds' ++ b) left) by done.
      destruct Hend as [->|[Hend|(v & b' & left' & _ & -> & [Hb'ne Hb'] & Hlen' & Hab' & Hgt)]]; [right; left|by left|right; right].
      * intros r Hr Hr0. destruct (Hall r Hr Hr0) as (i & Hi & <-). rewrite app_nil_r in Hi. by apply Hge.
      * assert (exists y, y ∈ b') as (y & Hy) by (destruct b' as [|y b']; [done|]; exists y; left). pose proof (Hb' y Hy) as Hyv.
        assert (v < t) as Hvt by (rewrite <- Hyv; apply Hlt, elem_of_app; by left).
        assert (0 < v) as Hv0 by (rewrite <- Hyv; rewrite Forall_forall in Hpl; apply Hpl, elem_of_app; by left).
        exists v. split_and!; [done|done| | |].
        -- intros r Hr [Hvr Hrt]. destruct (Hall r Hr) as (i & Hi & <-); [lia|]. apply elem_of_app in Hi as [Hi|[Hi|Hi]%elem_of_app].
           ++ specialize (Hge i Hi). unfold samples_at in Hge. lia.
           ++ specialize (Hb' i Hi). unfold samples_at in Hb'. lia.
           ++ specialize (Hab' y i Hy Hi). rewrite Hyv in Hab'. unfold samples_at in Hab'. lia.
        -- assert (filter (fun r => periodicSample r = v) rows = filter (fun r => periodicSample r = v) (filter (fun r => 0 < periodicSample r) rows)) as ->.
           { rewrite list_filter_filter. apply list_filter_iff. intros r. lia. }
           rewrite <- Hp, !fmap_app, !filter_app, !length_app. rewrite <- !(filter_by_index (fun r => periodicSample r = v)), !length_fmap.
           assert (filter (fun i => periodicSample (at_index i) = v) b' = b') as ->; [|lia].
           clear -Hb'. induction b' as [|i b' IH]; [done|]. rewrite filter_cons_True by (apply Hb'; left). f_equal. apply IH. intros ? ?. apply Hb'. by right.
        -- rewrite <- (split_at_threshold v ((seeds' ++ b) ++ b') left'); [by rewrite total_of_app|done|by rewrite <- app_assoc| |].
           ++ intros i [Hi|Hi]%elem_of_app; [specialize (Hge i Hi); lia|rewrite (Hb' i Hi); lia].
           ++ intros j Hj. rewrite <- Hyv. by apply Hab'.
  - intros i. split.
    + intros Hi. split; [|by apply Hge]. apply (proj1 (Hin i)). apply elem_of_app. by left.
    + intros [Hi Hti]. assert (i ∈ (seeds' ++ b) ++ left) as [|Hl]%elem_of_app by (apply Hin; split; [lia|done]); [done|]. specialize (Hlt i Hl). lia.
Qed.

End Threshold.

(** The seeds of the windows are the instructions with at least some number of samples, so
    that ties are kept together: those with more samples have less than the share to cover, and
    the seeds reach it, or are all sampled instructions, or the next number of samples is of
    several instructions that together have too much. *)
Theorem seeds_by_threshold sort `{!SliceSort sort} rows (Hrows : Forall (fun r => 0 <= periodicSample r) rows)
    (Hmax : sum_samples rows < 2 ^ 64) (Hpos : 0 < sum_samples rows)
    (Htarget : float_lt (float64 0) (percent_of (sum_samples rows) disassemblyWindowsCoverageThresholdPercent) = true) :
  exists t, seed_threshold rows (percent_of (sum_samples rows) disassemblyWindowsCoverageThresholdPercent) t /\
    markDisassemblySeedInstructions sort rows (totalDisassemblySamples rows) =
      (fun r => if t <=? periodicSample r then with_seed r else r) <$> rows.
Proof.
  destruct (totalDisassemblySamples_sum rows Hrows Hmax) as [-> _].
  destruct (seed_indexes_spec sort rows (sum_samples rows) Hrows Hmax) as (t & Ht & Hseeds); [lia| |exact Htarget|].
  { intros Hnil. assert (sum_samples rows = 0) as Hz; [|lia]. clear -Hrows Hnil. unfold sum_samples. induction Hrows as [|r rows Hr _ IH]; [done|].
    rewrite filter_cons in Hnil. destruct (decide (0 < periodicSample r)); [done|]. cbn [foldr]. rewrite IH by done. lia. }
  exists t. split; [done|]. unfold markDisassemblySeedInstructions. apply list_eq. intros i. rewrite list_lookup_imap, list_lookup_fmap.
  destruct (rows !! i) as [r|] eqn:Hr; [|done]. cbn. f_equal. specialize (Hseeds i). unfold samples_at, at_index in Hseeds.
  rewrite (nth_lookup_Some _ _ _ _ Hr) in Hseeds. apply lookup_lt_Some in Hr.
  destruct (Z.leb_spec t (periodicSample r)).
  - by rewrite bool_decide_true by (apply Hseeds; done).
  - rewrite bool_decide_false; [done|]. rewrite Hseeds. lia.
Qed.

Definition sample_instruction (image : string) (addr samples line : Z) : disassemblyInstructionRow :=
  {| imageName := image; address := addr; offset := None; instruction := "nop"; arguments := EmptyString; periodicSample := samples;
     sourcePath := "a.c"; lineNo := line; seed := false |}.

Definition sample_instructions : list disassemblyInstructionRow :=
  [sample_instruction "a" 0 60 3; sample_instruction "a" 4 0 5; sample_instruction "a" 16 35 2; sample_instruction "b" 20 5 0].

Lemma seeds_by_threshold_witness :
  exists t, markDisassemblySeedInstructions (@sort_by) sample_instructions (totalDisassemblySamples sample_instructions) =
      (fun r => if t <=? periodicSample r then with_seed r else r) <$> sample_instructions.
Proof.
  assert (Forall (fun r => 0 <= periodicSample r) sample_instructions) as Hrows by (refine (bool_decide_unpack _ _); vm_compute; exact I).
  assert (sum_samples sample_instructions < 2 ^ 64) as Hmax by (vm_compute; reflexivity).
  assert (0 < sum_samples sample_instructions) as Hpos by (vm_compute; reflexivity).
  assert (float_lt (float64 0) (percent_of (sum_samples sample_instructions) disassemblyWindowsCoverageThresholdPercent) = true) as Ht
    by (vm_compute; reflexivity).
  destruct (seeds_by_threshold (@sort_by) sample_instructions Hrows Hmax Hpos Ht) as (t & _ & Heq). exists t. exact Heq.
Defined.
