(* ===== verification/DisasmWindows.v ===== *)
(** * Performix: the disassembly windows of a run

    Models the rest of [core/apap-engine/insights/disassembly_window.go]: the instructions of the
    images are marked, cut into segments of adjacent addresses, and the windows around the marked
    instructions are listed with their source lines, up to a byte limit. *)

From S2P Require Import Prelude.
From S2P Require Import GoStrings.
From S2P Require Import GoFloats.
From S2P Require Import Json.
From S2P Require Import Sorting.
From S2P Require Import RenderTables.
From S2P Require Import Insights.
From S2P Require Import DisasmRanges.
From Stdlib Require Import Ascii HexadecimalString.

Local Open Scope Z_scope.

Definition disassemblyWindowsSummaryName : string := "disassembly_windows".

Record disassemblyWindowSourceRange := { sr_Path : string; sr_StartLine : Z; sr_EndLine : Z }.

Record disassemblyWindowRange := {
  ImageName : string; StartAddress : Z; EndAddress : Z; Samples : Z; DisassemblyListing : string;
  SourceRanges : list disassemblyWindowSourceRange
}.

Record disassemblyWindowsPayload := { TotalSamplesAllImages : Z; Windows : list disassemblyWindowRange }.

Record disassemblyTables := { t_disassembly : string; t_symbols : string; t_images : string; t_sourceFiles : string }.

(** A row of the query. *)
Record disassemblyQueryRow := {
  q_address : Z; q_instruction : string; q_arguments : string; q_periodicSamples : option Z; q_offset : option Z;
  q_sourcePath : option string; q_lineNo : option Z; q_imageName : string
}.

(** ** Text *)

(** [%x] *)
Definition Hex (n : Z) : string := NilZero.string_of_uint (N.to_hex_uint (Z.to_N n)).

Definition formatDisassemblyOffset (offset : Z) : string :=
  if offset <? 0 then "(-0x" +:+ Hex (wrap_uint64 (wrap_uint64 (- (offset + 1)) + 1)) +:+ ")"
  else "(+0x" +:+ Hex (wrap_uint64 offset) +:+ ")".

Definition tab : string := String "009" EmptyString.
Definition line_feed : string := String "010" EmptyString.

Definition listing_line (r : disassemblyInstructionRow) : string :=
  "0x" +:+ Hex (address r) +:+
  (match offset r with Some o => " " +:+ formatDisassemblyOffset o | None => EmptyString end) +:+
  ":" +:+ tab +:+ instruction r +:+ (if bool_decide (arguments r = EmptyString) then EmptyString else "  " +:+ arguments r) +:+
  (if 0 <? periodicSample r then " ; samples=" +:+ Itoa (periodicSample r) else EmptyString).

Definition buildDisassemblyListing (instructions : list disassemblyInstructionRow) : string :=
  Join line_feed (listing_line <$> instructions).

(** ** Source ranges *)

Definition zero_source_range : disassemblyWindowSourceRange := {| sr_Path := EmptyString; sr_StartLine := 0; sr_EndLine := 0 |}.

Definition add_source_line (m : gmap string disassemblyWindowSourceRange) (r : disassemblyInstructionRow) : gmap string disassemblyWindowSourceRange :=
  if bool_decide (sourcePath r = EmptyString) || (lineNo r =? 0) then m
  else
    let sourceRange := default zero_source_range (m !! sourcePath r) in
    <[sourcePath r :=
      {| sr_Path := sourcePath r;
         sr_StartLine := if (sr_StartLine sourceRange =? 0) || (lineNo r <? sr_StartLine sourceRange) then lineNo r else sr_StartLine sourceRange;
         sr_EndLine := if sr_EndLine sourceRange <? lineNo r then lineNo r else sr_EndLine sourceRange |}]> m.

Section Windows.

Context (sort : forall A : Type, (A -> A -> comparison) -> list A -> list A).

(** The paths of the map, in any order, are sorted. *)
Definition buildSourceRanges (instructions : list disassemblyInstructionRow) : list disassemblyWindowSourceRange :=
  let sourceRangeByPath := foldl add_source_line ∅ instructions in
  (fun path => default zero_source_range (sourceRangeByPath !! path)) <$> sort string (asc_string id) (map_to_list sourceRangeByPath).*1.

(** ** Windows *)

(** The loops that cut a list where an element does not continue the run of the one before. *)
Fixpoint runs {A} (continues : A -> A -> bool) (l : list A) : list (list A) :=
  match l with
  | [] => []
  | x :: l' =>
      match runs continues l' with
      | (y :: run) :: rest => if continues x y then (x :: y :: run) :: rest else [x] :: (y :: run) :: rest
      | rest => [x] :: rest
      end
  end.

Definition adjacent (a b : disassemblyInstructionRow) : bool := address b =? wrap_uint64 (address a + 4).
Definition same_image (a b : disassemblyInstructionRow) : bool := bool_decide (imageName b = imageName a).

Definition window_of (first : disassemblyInstructionRow) (windowInstructions : list disassemblyInstructionRow) : disassemblyWindowRange :=
  {| ImageName := imageName first; StartAddress := address first; EndAddress := address (List.last windowInstructions first);
     Samples := totalDisassemblySamples windowInstructions; SourceRanges := buildSourceRanges windowInstructions;
     DisassemblyListing := buildDisassemblyListing windowInstructions |}.

(** [None] is an index out of range: a window without instructions. *)
Definition build_window (windowInstructions : list disassemblyInstructionRow) : option disassemblyWindowRange :=
  match windowInstructions with
  | [] => None
  | first :: _ => Some (window_of first windowInstructions)
  end.

Definition buildDisassemblyWindows (instructions : list disassemblyInstructionRow) (totalSamplesAllImages : Z)
    : option (list disassemblyWindowRange) :=
  mjoin <$> mapM (fun segment =>
    windows ← selectedDisassemblyWindowsForSegment sort segment totalSamplesAllImages;
    mapM build_window windows) (runs adjacent instructions).

(** The windows of all images. *)
Definition image_windows (instructions : list disassemblyInstructionRow) (totalSamples : Z) : option (list disassemblyWindowRange) :=
  mjoin <$> mapM (fun image => buildDisassemblyWindows image totalSamples) (runs same_image instructions).

(** ** Rows *)

Definition instruction_of (q : disassemblyQueryRow) : disassemblyInstructionRow :=
  {| imageName := q_imageName q; address := wrap_uint64 (q_address q); offset := q_offset q; instruction := q_instruction q;
     arguments := q_arguments q; sourcePath := default EmptyString (q_sourcePath q);
     periodicSample := match q_periodicSamples q with Some n => if 0 <? n then wrap_uint64 n else 0 | None => 0 end;
     lineNo := match q_lineNo q with Some n => if 0 <? n then wrap_uint32 n else 0 | None => 0 end; seed := false |}.

Definition instruction_order : disassemblyInstructionRow -> disassemblyInstructionRow -> comparison :=
  then_by (asc_string imageName) (asc address).

Definition collectDisassemblyInstructionRows (rows : Rows disassemblyQueryRow) : result insight_error (list disassemblyInstructionRow) :=
  l ← read_rows disassemblyWindowsSummaryName rows;
  Ok (sort disassemblyInstructionRow instruction_order (instruction_of <$> l)).

(** Descending samples, image, then address. *)
Definition window_order : disassemblyWindowRange -> disassemblyWindowRange -> comparison :=
  then_by (desc Samples) (then_by (asc_string ImageName) (asc StartAddress)).

(** ** The payload *)

Definition source_range_json (r : disassemblyWindowSourceRange) : json :=
  JObject [("f", JString (sr_Path r)); ("start", JInt (sr_StartLine r)); ("end", JInt (sr_EndLine r))].

Definition window_json (w : disassemblyWindowRange) : json :=
  JObject ([("image", JString (ImageName w)); ("start", JInt (StartAddress w)); ("end", JInt (EndAddress w)); ("s", JInt (Samples w));
            ("disasm", JString (DisassemblyListing w))] ++
           (if bool_decide (SourceRanges w = []) then [] else [("src", JArray (source_range_json <$> SourceRanges w))])).

Definition payload_json (p : disassemblyWindowsPayload) : json :=
  JObject [("s", JInt (TotalSamplesAllImages p)); ("windows", JArray (window_json <$> Windows p))].

Context (format_float32 : spec_float -> string) (disassemblyWindowsPromptFragment : string).

Definition summary_of (total : Z) (windows : list disassemblyWindowRange) : result insight_error RunSummary :=
  NewRunSummary format_float32 disassemblyWindowsSummaryName disassemblyWindowsPromptFragment
    (payload_json {| TotalSamplesAllImages := total; Windows := windows |}).

Definition buildDisassemblyWindowsPayload (instructions : list disassemblyInstructionRow) (byteLimit : Z)
    : result insight_error disassemblyWindowsPayload :=
  let totalSamples := totalDisassemblySamples instructions in
  let instructions := markDisassemblySeedInstructions sort instructions totalSamples in
  emptySummary ← summary_of totalSamples [];
  if byteLimit <? runSummarySizeBytes emptySummary then Err (InsufficientByteLimit disassemblyWindowsSummaryName byteLimit)
  else
    windows ← or_err IndexOutOfRange (image_windows instructions totalSamples);
    kept ← fit_windows (summary_of totalSamples) byteLimit [] (sort disassemblyWindowRange window_order windows);
    Ok {| TotalSamplesAllImages := totalSamples; Windows := kept |}.

Definition resolveDisassemblyWindowsTables (session : SessionTables) : result insight_error disassemblyTables :=
  resolveSummaryTablesByComponentType session disassemblyWindowsSummaryName ["disassembly"; "symbols"; "images"; "source_files"]
    (fun t => {| t_disassembly := t "disassembly"; t_symbols := t "symbols"; t_images := t "images"; t_sourceFiles := t "source_files" |}).

Definition SummarizeDisassemblyWindows {D} (query : disassemblyTables -> option (Rows disassemblyQueryRow)) (desc : D)
    (session : SessionTables) (byteLimit : Z) : result insight_error RunSummary :=
  tables ← resolveDisassemblyWindowsTables session;
  match query tables with
  | None => Err (RenderQueryFailed disassemblyWindowsSummaryName)
  | Some rows =>
      instructions ← collectDisassemblyInstructionRows rows;
      payload ← buildDisassemblyWindowsPayload instructions byteLimit;
      summary_of (TotalSamplesAllImages payload) (Windows payload)
  end.

Definition DisassemblyWindowsSummarizer {D} query : BudgetedRunSummarizer D SessionTables :=
  {| b_Name := disassemblyWindowsSummaryName; b_Summarize := SummarizeDisassemblyWindows query |}.

#[export] Instance DisassemblyWindows_keeps_budget {D} query : KeepsBudget (@DisassemblyWindowsSummarizer D query).
Proof.
  intros desc session limit s. cbn. unfold SummarizeDisassemblyWindows. intros (tables & _ & H)%bind_Ok. destruct (query tables) as [rows|]; [|done].
  apply bind_Ok in H as (instrs & _ & H). apply bind_Ok in H as (p & Hp & Hs). unfold buildDisassemblyWindowsPayload in Hp.
  apply bind_Ok in Hp as (e & He & H). destruct (Z.ltb_spec limit (runSummarySizeBytes e)); [done|].
  apply bind_Ok in H as (windows & _ & H). apply bind_Ok in H as (kept & Hk & [= <-]). cbn in Hs.
  destruct (fit_windows_fits _ _ _ _ _ Hk) as (s' & Hs' & Hle); [by exists e|]. rewrite Hs' in Hs. injection Hs as <-. split; [|done].
  by apply NewRunSummary_Ok in Hs' as [? _].
Qed.

End Windows.

Example listing_sample : listing_line
    {| imageName := "a.out"; address := 4198400; offset := Some (-16); instruction := "add"; arguments := "x0, x1, x2"; periodicSample := 7;
       sourcePath := EmptyString; lineNo := 0; seed := false |} =
  "0x401000 (-0x10):" +:+ tab +:+ "add  x0, x1, x2 ; samples=7".
Proof. vm_compute. reflexivity. Qed.

(** ** What the windows show *)

(** [shown parts l]: the parts are parts of the list, in order and apart, and no seed is between
    them. *)
Inductive shown : list (list disassemblyInstructionRow) -> list disassemblyInstructionRow -> Prop :=
| shown_nil gap : Forall (fun r => seed r = false) gap -> shown [] gap
| shown_cons gap part parts rest : Forall (fun r => seed r = false) gap -> part <> [] -> shown parts rest ->
    shown (part :: parts) (gap ++ part ++ rest).

Lemma shown_gap gap parts l : Forall (fun r => seed r = false) gap -> shown parts l -> shown parts (gap ++ l).
Proof.
  intros Hg. destruct 1; [by apply shown_nil, Forall_app|]. rewrite app_assoc. apply shown_cons; [by apply Forall_app|done|done].
Qed.

Lemma shown_app parts1 l1 parts2 l2 : shown parts1 l1 -> shown parts2 l2 -> shown (parts1 ++ parts2) (l1 ++ l2).
Proof.
  induction 1 as [gap Hg|gap part parts rest Hg Hne _ IH]; intros H2; cbn; [by apply shown_gap|].
  rewrite <- !app_assoc. apply shown_cons; [done|done|by apply IH].
Qed.

Lemma shown_join (partss : list (list (list disassemblyInstructionRow))) ls : Forall2 shown partss ls -> shown (mjoin partss) (mjoin ls).
Proof. induction 1; [by apply shown_nil|]. cbn. by apply shown_app. Qed.

(** A slice is what is between a prefix and a suffix. *)
Lemma slice_of_split {A} (segment : list A) r o l : within (Z.of_nat (length segment)) r -> slice_of segment r = Some l ->
  0 <= o <= start r ->
  drop (Z.to_nat o) segment = take (Z.to_nat (start r - o)) (drop (Z.to_nat o) segment) ++ l ++ drop (Z.to_nat (stop r + 1)) segment /\ l <> [].
Proof.
  intros [Hr Hr'] Hs Ho. unfold slice_of in Hs. destruct (_ && _ && _); [|done]. injection Hs as <-. split.
  - rewrite <- (take_drop (Z.to_nat (start r - o)) (drop (Z.to_nat o) segment)) at 1. f_equal. rewrite drop_drop.
    replace (Z.to_nat o + Z.to_nat (start r - o))%nat with (Z.to_nat (start r)) by lia.
    rewrite <- (take_drop (Z.to_nat (stop r + 1 - start r)) (drop (Z.to_nat (start r)) segment)) at 1. f_equal. rewrite drop_drop. f_equal. lia.
  - intros Hnil. apply (f_equal length) in Hnil. rewrite length_take, length_drop in Hnil. cbn in Hnil. lia.
Qed.

Lemma shown_ranges segment ranges : forall windows o, 0 <= o -> StronglySorted disjoint_order ranges ->
  Forall (within (Z.of_nat (length segment))) ranges -> Forall2 (fun r l => slice_of segment r = Some l) ranges windows ->
  Forall (fun r => o <= start r) ranges -> (forall i, o <= i -> seed_at segment i -> Exists (in_index i) ranges) ->
  shown windows (drop (Z.to_nat o) segment).
Proof.
  induction ranges as [|r ranges IH]; intros windows o Ho Hs Hw H2 Hst Hcov.
  { apply Forall2_nil_inv_l in H2 as ->. apply shown_nil, Forall_forall. intros x [k Hk]%list_elem_of_lookup. rewrite lookup_drop in Hk.
    destruct (seed x) eqn:Hx; [|done]. exfalso. specialize (Hcov (o + Z.of_nat k)). apply (Exists_nil (in_index (o + Z.of_nat k))), Hcov; [lia|].
    split; [lia|]. exists x. split; [|done]. rewrite <- Hk. f_equal. lia. }
  apply Forall2_cons_inv_l in H2 as (l & windows' & Hl & H2 & ->). apply Forall_cons in Hw as [Hr Hw]. apply Forall_cons in Hst as [Hor Hst].
  inversion Hs as [|? ? Hs' Hf]; subst. destruct (slice_of_split segment r o l Hr Hl) as [-> Hne]; [lia|]. pose proof Hr as [[Hr0 Hr1] Hr2].
  apply shown_cons; [|done|].
  - apply Forall_forall. intros x [k Hk]%list_elem_of_lookup. apply lookup_take_Some in Hk as [Hk Hlt]. rewrite lookup_drop in Hk.
    destruct (seed x) eqn:Hx; [|done]. exfalso.
    assert (Exists (in_index (o + Z.of_nat k)) (r :: ranges)) as [[? ?]|(r' & Hr' & [? ?])%Exists_exists]%Exists_cons.
    { apply Hcov; [lia|]. split; [lia|]. exists x. split; [|done]. rewrite <- Hk. f_equal. lia. }
    + lia.
    + rewrite Forall_forall in Hf. specialize (Hf r' Hr'). unfold disjoint_order in Hf. lia.
  - apply IH; [lia|done|done|done| |].
    + eapply Forall_impl; [exact Hf|]. unfold disjoint_order. intros; cbn in *; lia.
    + intros i Hi Hseed. assert (Exists (in_index i) (r :: ranges)) as [[? ?]|]%Exists_cons by (apply Hcov; [lia|done]); [lia|done].
Qed.

(** ** Runs *)

(** Every element continues the one before. *)
Definition chained {A} (continues : A -> A -> bool) (l : list A) : Prop :=
  forall i x y, l !! i = Some x -> l !! S i = Some y -> continues x y = true.

Lemma chained_infix {A} (continues : A -> A -> bool) a b c : chained continues (a ++ b ++ c) -> chained continues b.
Proof.
  intros H i x y Hx Hy. apply (H (length a + i)%nat x y).
  - rewrite lookup_app_r by lia. replace (length a + i - length a)%nat with i by lia. by apply lookup_app_l_Some.
  - rewrite lookup_app_r by lia. replace (S (length a + i) - length a)%nat with (S i) by lia. by apply lookup_app_l_Some.
Qed.

Lemma runs_spec {A} (continues : A -> A -> bool) (l : list A) :
  mjoin (runs continues l) = l /\ Forall (fun run => run <> [] /\ chained continues run) (runs continues l).
Proof.
  assert (forall x : A, chained continues [x]) as Hone by (intros x [|i] ? ? ? H; done).
  induction l as [|x l [IH1 IH2]]; [done|]. cbn [runs]. destruct (runs continues l) as [|[|y run] rest].
  - cbn in *. rewrite <- IH1. split; [done|]. repeat constructor; [done|apply Hone].
  - apply Forall_cons in IH2 as [[? _] _]. done.
  - apply Forall_cons in IH2 as [[_ Hc] IH2]. destruct (continues x y) eqn:Hxy.
    + split; [by rewrite <- IH1|]. constructor; [|done]. split; [done|]. intros [|i] a b Ha Hb; cbn in Ha, Hb; [by simplify_eq|].
      by apply (Hc i).
    + split; [by rewrite <- IH1|]. constructor; [split; [done|apply Hone]|]. by constructor.
Qed.

(** The parts of a chained list are chained. *)
Lemma shown_chained continues parts l : shown parts l -> chained continues l -> Forall (fun part => part <> [] /\ chained continues part) parts.
Proof.
  induction 1 as [gap Hg|gap part parts rest Hg Hne _ IH]; intros Hl; [constructor|]. constructor; [split; [done|by eapply chained_infix]|].
  apply IH. apply (chained_infix continues (gap ++ part) rest []). by rewrite app_nil_r, <- app_assoc.
Qed.

Section Shown.

Context (sort : forall A : Type, (A -> A -> comparison) -> list A -> list A) `{!SliceSort sort}.

Notation window part := (window_of sort (hd zero_instruction part) part).

Lemma build_window_parts parts : Forall (fun part => part <> []) parts ->
  mapM (build_window sort) parts = Some ((fun part => window part) <$> parts).
Proof. induction 1 as [|part parts Hne _ IH]; [done|]. cbn [mapM]. rewrite IH. by destruct part. Qed.

Definition part_ok (part : list disassemblyInstructionRow) : Prop := part <> [] /\ chained adjacent part.

(** The windows of the segments of a list of instructions. *)
Lemma segments_shown segments total : Forall (fun run => run <> [] /\ chained adjacent run) segments ->
  exists parts, mapM (fun segment => windows ← selectedDisassemblyWindowsForSegment sort segment total; mapM (build_window sort) windows) segments =
      Some ((fun ps => (fun part => window part) <$> ps) <$> parts) /\
    Forall2 shown parts segments /\ Forall part_ok (mjoin parts).
Proof.
  induction 1 as [|segment segments [Hne Hc] _ (parts & Hm & H2 & Hok)]; [by exists []|].
  destruct (segment_windows sort segment total) as (ranges & windows & Hw & Hsl & Hs & Hwi & Hcov & _).
  assert (shown windows segment) as Hsh.
  { rewrite <- (drop_0 segment). change 0%nat with (Z.to_nat 0). eapply shown_ranges; [done|exact Hs|exact Hwi|exact Hsl| |].
    - eapply Forall_impl; [exact Hwi|]. intros r [[? ?] ?]. cbn. lia.
    - intros i _. apply Hcov. }
  pose proof (shown_chained adjacent windows segment Hsh Hc) as Hch.
  exists (windows :: parts). cbn [mapM]. rewrite Hw. cbn [mbind option_bind]. rewrite build_window_parts, Hm.
  - split_and!; [done|by constructor|]. cbn. apply Forall_app. split; [exact Hch|done].
  - eapply Forall_impl; [exact Hch|]. by intros ? [? _].
Qed.

Lemma join_windows (partss : list (list (list disassemblyInstructionRow))) :
  mjoin ((fun ps => (fun part => window part) <$> ps) <$> partss) = (fun part => window part) <$> mjoin partss.
Proof. induction partss as [|ps partss IH]; [done|]. cbn. rewrite fmap_app. f_equal. exact IH. Qed.

Lemma buildDisassemblyWindows_shown instructions total : chained same_image instructions ->
  exists parts, buildDisassemblyWindows sort instructions total = Some ((fun part => window part) <$> parts) /\
    shown parts instructions /\ Forall (fun part => part_ok part /\ chained same_image part) parts.
Proof.
  intros Himg. destruct (runs_spec adjacent instructions) as [Hj Hruns].
  destruct (segments_shown (runs adjacent instructions) total Hruns) as (parts & Hm & H2 & Hok). exists (mjoin parts).
  unfold buildDisassemblyWindows. rewrite Hm. cbn [fmap option_fmap option_map]. rewrite join_windows. split; [done|].
  apply shown_join in H2. rewrite Hj in H2. split; [done|].
  pose proof (shown_chained same_image _ _ H2 Himg) as Hch. rewrite Forall_forall in Hok, Hch. apply Forall_forall. intros p Hp.
  split; [by apply Hok|by apply Hch].
Qed.

(** The disassembly windows are built without a failing index from parts of the list of
    instructions that are in order, do not overlap and have every seed instruction; a part is
    not empty, of one image and of adjacent addresses. *)
Theorem disassembly_windows_shown instructions total :
  exists parts, image_windows sort instructions total = Some ((fun part => window part) <$> parts) /\
    shown parts instructions /\ Forall (fun part => part_ok part /\ chained same_image part) parts.
Proof using SliceSort0.
  destruct (runs_spec same_image instructions) as [Hj Hruns]. unfold image_windows.
  assert (exists partss, mapM (fun image => buildDisassemblyWindows sort image total) (runs same_image instructions) =
      Some ((fun ps => (fun part => window part) <$> ps) <$> partss) /\ Forall2 shown partss (runs same_image instructions) /\
      Forall (fun part => part_ok part /\ chained same_image part) (mjoin partss)) as (partss & -> & H2 & Hok).
  { clear Hj. induction Hruns as [|run rest [_ Himg] _ (partss & Hm & H2 & Hok)]; [by exists []|].
    destruct (buildDisassemblyWindows_shown run total Himg) as (parts & Hb & Hsh & Hp). exists (parts :: partss). cbn [mapM]. rewrite Hb, Hm.
    split_and!; [done|by constructor|]. cbn. by apply Forall_app. }
  exists (mjoin partss). cbn [fmap option_fmap option_map]. rewrite join_windows. split; [done|]. apply shown_join in H2. rewrite Hj in H2. by split.
Qed.

End Shown.

(** Two segments of the first image have seeds; the second image has none. *)
Example windows_sample : option_map (map (fun w => (ImageName w, StartAddress w, EndAddress w, Samples w)))
    (image_windows (@sort_by) (markDisassemblySeedInstructions (@sort_by) sample_instructions 100) 100) =
  Some [("a", 0, 4, 60); ("a", 16, 16, 35)].
Proof. vm_compute. reflexivity. Qed.

Lemma disassembly_windows_shown_witness :
  exists parts, image_windows (@sort_by) sample_instructions 100 =
    Some ((fun part => window_of (@sort_by) (hd zero_instruction part) part) <$> parts) /\ shown parts sample_instructions.
Proof.
  destruct (disassembly_windows_shown (@sort_by) sample_instructions 100) as (parts & Hw & Hs & _). exists parts. split; [exact Hw|exact Hs].
Defined.

(** ** Source ranges *)

(** The lines of a path. *)
Definition lines_of (path : string) (l : list disassemblyInstructionRow) : list Z :=
  lineNo <$> filter (fun r => sourcePath r = path /\ lineNo r <> 0) l.

Definition bounds (l : list Z) (lo hi : Z) : Prop := lo ∈ l /\ hi ∈ l /\ forall n, n ∈ l -> lo <= n <= hi.

Lemma bounds_snoc l lo hi n : bounds l lo hi ->
  bounds (l ++ [n]) (if n <? lo then n else lo) (if hi <? n then n else hi).
Proof.
  intros (Hlo & Hhi & Hb). assert (lo <= hi) by (by apply Hb in Hlo as [? ?]).
  split_and!; [destruct (Z.ltb_spec n lo); apply elem_of_app; [right; left|by left]|destruct (Z.ltb_spec hi n); apply elem_of_app; [right; left|by left]|].
  intros m [Hm|Hm]%elem_of_app; [apply Hb in Hm|apply list_elem_of_singleton in Hm as ->]; destruct (Z.ltb_spec n lo), (Z.ltb_spec hi n); lia.
Qed.

Lemma source_range_map l path : Forall (fun r => 0 <= lineNo r) l ->
  match foldl add_source_line ∅ l !! path with
  | None => path = EmptyString \/ lines_of path l = []
  | Some r => path <> EmptyString /\ sr_Path r = path /\ bounds (lines_of path l) (sr_StartLine r) (sr_EndLine r)
  end.
Proof.
  induction l as [|r l IH] using rev_ind; [by right|]. intros [Hl [Hr _]%Forall_cons]%Forall_app. specialize (IH Hl). rewrite foldl_app. cbn [foldl].
  set (m := foldl add_source_line ∅ l) in *. unfold add_source_line, lines_of in *. rewrite filter_app, fmap_app, filter_cons, filter_nil.
  case_bool_decide as Hp; cbn [orb].
  { destruct (decide (sourcePath r = path /\ lineNo r <> 0)) as [[<- _]|]; [|by rewrite app_nil_r].
    destruct (m !! sourcePath r); [by destruct IH|by left]. }
  destruct (Z.eqb_spec (lineNo r) 0) as [Hz|Hz].
  { rewrite decide_False by (intros [_ ?]; done). by rewrite app_nil_r. }
  destruct (decide (sourcePath r = path)) as [<-|Hne].
  2: { rewrite lookup_insert_ne by done. rewrite decide_False by (intros [? _]; done). by rewrite app_nil_r. }
  rewrite lookup_insert_eq, decide_True by done. cbn [sr_Path sr_StartLine sr_EndLine]. split_and!; [done|done|]. cbn [fmap list_fmap].
  destruct (m !! sourcePath r) as [sr|]; cbn [default].
  - destruct IH as (_ & _ & Hb). pose proof Hb as (Hlo & _). assert (sr_StartLine sr <> 0) as Hs0.
    { apply list_elem_of_fmap in Hlo as (x & -> & [[_ ?] _]%list_elem_of_filter). done. }
    rewrite (proj2 (Z.eqb_neq _ _)) by done. cbn [orb]. by apply bounds_snoc.
  - destruct IH as [|IH]; [done|]. change (fun r => lineNo r) with lineNo in IH. rewrite IH. cbn. destruct (Z.ltb_spec 0 (lineNo r)); [|lia].
    split_and!; [left|left|]. intros n ->%list_elem_of_singleton. lia.
Qed.

(** The source ranges of a window are in the order of their paths, one for each path with
    a line, from the first to the last of the lines of its instructions. *)
Theorem source_ranges_exact sort `{!SliceSort sort} l (Hl : Forall (fun r => 0 <= lineNo r) l) :
  let ranges := buildSourceRanges sort l in
  StronglySorted (fun a b => String.compare (sr_Path a) (sr_Path b) <> Gt) ranges /\ NoDup (sr_Path <$> ranges) /\
  forall path lo hi, {| sr_Path := path; sr_StartLine := lo; sr_EndLine := hi |} ∈ ranges <->
    path <> EmptyString /\ bounds (lines_of path l) lo hi.
Proof.
  cbn zeta. unfold buildSourceRanges. pose proof (fun path => source_range_map l path Hl) as Hm. set (m := foldl add_source_line ∅ l) in *.
  pose proof (SliceSort0 string (asc_string id) _) as [P S]. specialize (P (map_to_list m).*1). specialize (S (map_to_list m).*1).
  assert (forall path, path ∈ sort string (asc_string id) (map_to_list m).*1 <-> is_Some (m !! path)) as Hkeys.
  { intros path. rewrite P, list_elem_of_fmap. split; [by intros ([p r] & -> & Hr%elem_of_map_to_list); eexists|].
    intros [r Hr]. exists (path, r). split; [done|]. by apply elem_of_map_to_list. }
  assert (forall path, path ∈ sort string (asc_string id) (map_to_list m).*1 -> sr_Path (default zero_source_range (m !! path)) = path) as Hpath.
  { intros path [r Hr]%Hkeys. specialize (Hm path). rewrite Hr in Hm |- *. by destruct Hm as (_ & ? & _). }
  split_and!.
  - eapply StronglySorted_fmap; [|exact S]. intros x y Hx Hy. unfold not_after, asc_string. by rewrite !Hpath.
  - rewrite <- list_fmap_compose. assert (forall k, k ⊆ sort string (asc_string id) (map_to_list m).*1 -> NoDup k ->
      NoDup ((sr_Path ∘ (fun path => default zero_source_range (m !! path))) <$> k)) as H.
    { intros k Hk. induction 1 as [|x k Hx Hnd IH]; [constructor|]. cbn. apply NoDup_cons. split.
      - rewrite Hpath by (apply Hk; left). intros (y & Heq & Hy)%list_elem_of_fmap. cbn in Heq. rewrite Hpath in Heq by (apply Hk; by right).
        by subst y.
      - apply IH. intros y Hy. apply Hk. by right. }
    apply H; [done|]. rewrite P. apply NoDup_fst_map_to_list.
  - intros path lo hi. rewrite list_elem_of_fmap. split.
    + intros (p & Heq & [r Hr]%Hkeys). specialize (Hm p). rewrite Hr in Heq, Hm. cbn in Heq. subst r. cbn in Hm. by destruct Hm as (? & -> & ?).
    + intros [Hne Hb]. exists path. specialize (Hm path). rewrite Hkeys. destruct (m !! path) as [r|].
      * destruct Hm as (_ & Hp & Hb'). split; [|by eexists]. cbn. destruct r as [p lo' hi']. cbn in *. subst p.
        destruct Hb as (Hlo & Hhi & Hin), Hb' as (Hlo' & Hhi' & Hin').
        pose proof (Hin _ Hlo'). pose proof (Hin _ Hhi'). pose proof (Hin' _ Hlo). pose proof (Hin' _ Hhi). f_equal; lia.
      * destruct Hm as [|Hm]; [done|]. destruct Hb as [Hlo _]. rewrite Hm in Hlo. by apply elem_of_nil in Hlo.
Qed.

Lemma source_ranges_exact_witness :
  NoDup (sr_Path <$> buildSourceRanges (@sort_by) sample_instructions) /\
  buildSourceRanges (@sort_by) sample_instructions = [{| sr_Path := "a.c"; sr_StartLine := 2; sr_EndLine := 5 |}].
Proof.
  assert (Forall (fun r => 0 <= lineNo r) sample_instructions) as Hl by (refine (bool_decide_unpack _ _); vm_compute; exact I).
  split; [exact (proj1 (proj2 (source_ranges_exact (@sort_by) sample_instructions Hl)))|vm_compute; reflexivity].
Defined.
