(* ===== verification/RunDetails.v ===== *)
(** * Performix: the details of a run

    Models [core/apap-engine/insights/run_details.go]: the summary of a run's metadata, of its
    target's operating system and of the processors, grouped by type. *)

From S2P Require Import Prelude.
From S2P Require Import GoStrings.
From S2P Require Import GoFloats.
From S2P Require Import Json.
From S2P Require Import Sorting.
From S2P Require Import RenderTables.
From S2P Require Import Insights.

Local Open Scope Z_scope.

Definition runDetailsSummaryName : string := "run_details".
Definition runDetailsOSComponentType : string := "target-info-os".
Definition runDetailsCPUsComponentType : string := "target-info-cpus".

(** The description of a run, with the parameters as JSON values. *)
Record RunDescription := {
  ID : string; Name : string; RecipeName : string; RunResult : string; RunError : string; WorkloadType : string; Cmdline : string;
  AndroidPackageName : string; AndroidActivityName : string; TargetName : string; StartTime : string; EndTime : string; Timeout : Z;
  Parameters : gmap string json
}.

Record runDetailsOSInfo := { Description : string; KernelVersion : string }.
Record runDetailsCPUType := { cpu_Name : string; Midr : string; CoreCount : Z; ClusterIDs : list Z }.
Record runDetailsCPUTopology := { TotalCPUCount : Z; CPUTypes : list runDetailsCPUType }.

(** ** Processors *)

(** A row: the name, the identification register and the cluster of a core. *)
Record cpuRow := { c_name : string; c_midr : string; c_cluster : option Z }.

Record cpuGroup := { g_name : string; g_midr : string; coreCount : Z; clusterIDs : gset Z }.

Definition cpu_key (r : cpuRow) : string * string := (c_name r, c_midr r).
Definition group_key (g : cpuGroup) : string * string := (g_name g, g_midr g).

(** The cluster when it is valid and fits 32 bits. *)
Definition cluster_of (r : cpuRow) : gset Z :=
  match c_cluster r with Some id => if (0 <=? id) && (id <=? 2 ^ 32 - 1) then {[id]} else ∅ | None => ∅ end.

Definition count_core (g : cpuGroup) (r : cpuRow) : cpuGroup :=
  {| g_name := g_name g; g_midr := g_midr g; coreCount := wrap_int64 (coreCount g + 1); clusterIDs := clusterIDs g ∪ cluster_of r |}.

(** The groups in the order in which their keys were first seen. *)
Fixpoint add_core (groups : list cpuGroup) (r : cpuRow) : list cpuGroup :=
  match groups with
  | [] => [count_core {| g_name := c_name r; g_midr := c_midr r; coreCount := 0; clusterIDs := ∅ |} r]
  | g :: rest => if bool_decide (group_key g = cpu_key r) then count_core g r :: rest else g :: add_core rest r
  end.

(** Descending number of cores, name, then identification. *)
Definition cpu_order : runDetailsCPUType -> runDetailsCPUType -> comparison :=
  then_by (desc CoreCount) (then_by (asc_string cpu_Name) (asc_string Midr)).

Section Details.

Context (sort : forall A : Type, (A -> A -> comparison) -> list A -> list A).

Definition cpu_type (g : cpuGroup) : runDetailsCPUType :=
  {| cpu_Name := g_name g; Midr := g_midr g; CoreCount := coreCount g; ClusterIDs := sort Z (asc id) (elements (clusterIDs g)) |}.

(** [query] runs the query over the table; any error leaves the section out. *)
Definition loadRunDetailsCPUTopology (query : string -> option (Rows cpuRow)) (session : SessionTables) : option runDetailsCPUTopology :=
  let tableName := singleTableByComponentType (entries session) runDetailsCPUsComponentType in
  if bool_decide (tableName = EmptyString) then None
  else
    rows ← query tableName;
    l ← mapM id (scanned rows);
    if rows_err rows || bool_decide (l = []) then None
    else Some {| TotalCPUCount := wrap_int64 (Z.of_nat (length l));
                 CPUTypes := sort runDetailsCPUType cpu_order (cpu_type <$> foldl add_core [] l) |}.

(** [query] gives the first row. *)
Definition loadRunDetailsOSInfo (query : string -> option (string * string)) (session : SessionTables) : option runDetailsOSInfo :=
  let tableName := singleTableByComponentType (entries session) runDetailsOSComponentType in
  if bool_decide (tableName = EmptyString) then None
  else
    '(description, kernelVersion) ← query tableName;
    if bool_decide (description = EmptyString) && bool_decide (kernelVersion = EmptyString) then None
    else Some {| Description := description; KernelVersion := kernelVersion |}.

(** ** The summary *)

(** A field with [omitempty] on a string. *)
Definition omit_empty (key s : string) : list (string * json) := if bool_decide (s = EmptyString) then [] else [(key, JString s)].

Definition os_json (os : runDetailsOSInfo) : json := JObject (omit_empty "Description" (Description os) ++ omit_empty "KernelVersion" (KernelVersion os)).

Definition cpu_json (c : runDetailsCPUType) : json :=
  JObject (omit_empty "Name" (cpu_Name c) ++ omit_empty "Midr" (Midr c) ++
           [("CoreCount", JInt (CoreCount c)); ("ClusterIds", JArray (JInt <$> ClusterIDs c))]).

Definition topology_json (t : runDetailsCPUTopology) : json :=
  JObject [("TotalCpuCount", JInt (TotalCPUCount t)); ("CpuTypes", JArray (cpu_json <$> CPUTypes t))].

(** The parameters are written in the order of their names. *)
Definition details_json (d : RunDescription) (os : option runDetailsOSInfo) (cpus : option runDetailsCPUTopology) : json :=
  JObject ([("RunId", JString (ID d)); ("RunName", JString (Name d)); ("RecipeName", JString (RecipeName d)); ("RunResult", JString (RunResult d));
            ("RunError", JString (RunError d)); ("WorkloadType", JString (WorkloadType d)); ("WorkloadCmdline", JString (Cmdline d))] ++
           omit_empty "AndroidPackageName" (AndroidPackageName d) ++ omit_empty "AndroidActivityName" (AndroidActivityName d) ++
           [("TargetName", JString (TargetName d)); ("StartTime", JString (StartTime d)); ("EndTime", JString (EndTime d));
            ("Timeout", JInt (Timeout d))] ++
           (if bool_decide (Parameters d = ∅) then [] else
              [("SamplingParameters", JObject (sort_by (asc_string fst) (map_to_list (Parameters d))))]) ++
           match os with Some os => [("Os", os_json os)] | None => [] end ++
           match cpus with Some cpus => [("CpuTopology", topology_json cpus)] | None => [] end).

Context (format_float32 : spec_float -> string) (runDetailsPromptFragment : string).

(** A session without a database is [None]. *)
Definition SummarizeRunDetails (os_query : string -> option (string * string)) (cpu_query : string -> option (Rows cpuRow))
    (desc : RunDescription) (session : option SessionTables) : result insight_error RunSummary :=
  NewRunSummary format_float32 runDetailsSummaryName runDetailsPromptFragment
    (details_json desc (s ← session; loadRunDetailsOSInfo os_query s) (s ← session; loadRunDetailsCPUTopology cpu_query s)).

Definition RunDetailsSummarizer os_query cpu_query : UnbudgetedRunSummarizer RunDescription SessionTables :=
  {| u_Name := runDetailsSummaryName; u_Summarize := fun desc session => SummarizeRunDetails os_query cpu_query desc (Some session) |}.

End Details.

(** ** The groups *)

Definition rows_of_key (k : string * string) (l : list cpuRow) : list cpuRow := filter (fun r => cpu_key r = k) l.

(** The group counts the rows of its key and has their clusters. *)
Definition group_ok (l : list cpuRow) (g : cpuGroup) : Prop :=
  coreCount g = Z.of_nat (length (rows_of_key (group_key g) l)) /\ 0 < coreCount g /\
  forall id, id ∈ clusterIDs g <-> exists r, r ∈ rows_of_key (group_key g) l /\ id ∈ cluster_of r.

Lemma rows_of_key_snoc k l r : rows_of_key k (l ++ [r]) = rows_of_key k l ++ if bool_decide (cpu_key r = k) then [r] else [].
Proof. unfold rows_of_key. rewrite filter_app, filter_cons, filter_nil. case_bool_decide; [by rewrite decide_True|by rewrite decide_False]. Qed.

Lemma group_ok_other l r g : group_ok l g -> cpu_key r <> group_key g -> group_ok (l ++ [r]) g.
Proof. unfold group_ok. intros (H1 & H2 & H3) Hne. rewrite rows_of_key_snoc, bool_decide_false by done. by rewrite app_nil_r. Qed.

Lemma group_ok_core l r g : (group_ok l g \/ coreCount g = 0 /\ clusterIDs g = ∅ /\ rows_of_key (group_key g) l = []) ->
  cpu_key r = group_key g -> Z.of_nat (length l) < int64_max -> group_ok (l ++ [r]) (count_core g r).
Proof.
  intros Hg Hk Hlen. unfold group_ok. change (group_key (count_core g r)) with (group_key g). rewrite rows_of_key_snoc, bool_decide_true by done.
  assert (coreCount g = Z.of_nat (length (rows_of_key (group_key g) l)) /\
          forall id, id ∈ clusterIDs g <-> exists r, r ∈ rows_of_key (group_key g) l /\ id ∈ cluster_of r) as [Hc Hids].
  { destruct Hg as [(H1 & _ & H3)|(-> & -> & ->)]; [by split|]. split; [done|]. intros id. split; [set_solver|]. by intros (? & ?%elem_of_nil & _). }
  pose proof (length_filter (fun r => cpu_key r = group_key g) l) as Hle. fold (rows_of_key (group_key g) l) in Hle.
  rewrite length_app. cbn [count_core coreCount clusterIDs length]. unfold int64_max in Hlen. rewrite wrap_int64_id by (unfold int64_min, int64_max; lia).
  split_and!; [lia|lia|]. intros id. rewrite elem_of_union, Hids. setoid_rewrite elem_of_app. setoid_rewrite list_elem_of_singleton. split.
  - intros [(x & ? & ?)|?]; [exists x; auto|exists r; auto].
  - intros (x & [?| ->] & ?); [left; by exists x|by right].
Qed.

Lemma add_core_keys groups r : group_key <$> add_core groups r =
  if bool_decide (cpu_key r ∈ group_key <$> groups) then group_key <$> groups else (group_key <$> groups) ++ [cpu_key r].
Proof.
  induction groups as [|g groups IH]; cbn [add_core]; [done|]. rewrite fmap_cons. destruct (decide (group_key g = cpu_key r)) as [Hg|Hg].
  - rewrite (bool_decide_true (group_key g = cpu_key r)) by done. rewrite bool_decide_true by (rewrite Hg; left). done.
  - rewrite (bool_decide_false (group_key g = cpu_key r)) by done. rewrite fmap_cons, IH.
    case_bool_decide as Hin; [by rewrite bool_decide_true by (by right)|]. rewrite bool_decide_false; [done|]. intros [?|?]%elem_of_cons; by auto.
Qed.

Lemma add_core_ok l r groups : Z.of_nat (length l) < int64_max ->
  Forall (group_ok l) groups -> NoDup (group_key <$> groups) -> (cpu_key r ∉ group_key <$> groups -> rows_of_key (cpu_key r) l = []) ->
  Forall (group_ok (l ++ [r])) (add_core groups r).
Proof.
  intros Hlen. induction 1 as [|g groups Hg Hgs IH]; intros Hnd Hnew; cbn [add_core].
  - constructor; [|constructor]. apply group_ok_core; [|done|done]. right. split_and!; [done|done|]. apply Hnew. by intros ?%elem_of_nil.
  - rewrite fmap_cons in Hnd. apply NoDup_cons in Hnd as [Hni Hnd]. case_bool_decide as Hk.
    + constructor; [by apply group_ok_core; [left|..]|]. apply Forall_forall. intros g' Hg'. rewrite Forall_forall in Hgs.
      apply group_ok_other; [by apply Hgs|]. intros Heq. apply Hni. rewrite Hk, Heq. by apply list_elem_of_fmap_2.
    + constructor; [by apply group_ok_other|]. apply IH; [done|]. intros Hn. apply Hnew. rewrite fmap_cons. by intros [?|?]%elem_of_cons.
Qed.

Lemma groups_ok l : Z.of_nat (length l) <= int64_max ->
  let groups := foldl add_core [] l in
  Forall (group_ok l) groups /\ NoDup (group_key <$> groups) /\ (forall r, r ∈ l -> cpu_key r ∈ group_key <$> groups) /\
  foldr (fun g n => coreCount g + n) 0 groups = Z.of_nat (length l).
Proof.
  cbn zeta. induction l as [|r l IH] using rev_ind; intros Hlen; [split_and!; [constructor|constructor|by intros ? ?%elem_of_nil|done]|].
  rewrite length_app in *. cbn [length] in *. destruct IH as (Hok & Hnd & Hin & Hsum); [lia|]. rewrite foldl_app. cbn [foldl].
  set (groups := foldl add_core [] l) in *.
  assert (cpu_key r ∉ group_key <$> groups -> rows_of_key (cpu_key r) l = []) as Hnew.
  { intros Hn. apply filter_nil_iff. intros x Hx Heq. apply Hn. rewrite <- Heq. by apply Hin. }
  split_and!.
  - apply add_core_ok; [lia|done|done|done].
  - rewrite add_core_keys. case_bool_decide; [done|]. apply NoDup_app. split_and!; [done| |apply NoDup_singleton].
    intros k Hk ->%list_elem_of_singleton. done.
  - intros x Hx. rewrite add_core_keys. apply elem_of_app in Hx as [Hx| ->%list_elem_of_singleton].
    + apply Hin in Hx. case_bool_decide; [done|]. apply elem_of_app. by left.
    + case_bool_decide; [done|]. apply elem_of_app. right. left.
  - clear Hnew Hin Hnd. assert (foldr (fun g n => coreCount g + n) 0 (add_core groups r) = foldr (fun g n => coreCount g + n) 0 groups + 1) as ->; [|lia].
    clear Hsum. clearbody groups. induction Hok as [|g groups (Hc & Hg & _) _ IH]; cbn [add_core foldr count_core coreCount].
    + by rewrite wrap_int64_id by (unfold int64_min, int64_max; lia).
    + case_bool_decide; cbn [foldr count_core coreCount]; [|lia]. pose proof (length_filter (fun r => cpu_key r = group_key g) l) as Hle.
      fold (rows_of_key (group_key g) l) in Hle. rewrite wrap_int64_id by (unfold int64_min, int64_max in *; lia). lia.
Qed.

(** What a type of processors says about the rows. *)
Definition cpu_type_ok (l : list cpuRow) (c : runDetailsCPUType) : Prop :=
  let cores := rows_of_key (cpu_Name c, Midr c) l in
  cores <> [] /\ CoreCount c = Z.of_nat (length cores) /\ StronglySorted Z.lt (ClusterIDs c) /\
  forall id, id ∈ ClusterIDs c <-> exists r, r ∈ cores /\ id ∈ cluster_of r.

(** The processors of a run are grouped into types: there is one type for each name and
    identification of a core, in the order of the number of cores, which add up to the total, and
    a type has the clusters of its cores, in ascending order. *)
Theorem cpu_topology_exact sort `{!SliceSort sort} query session t (Ht : loadRunDetailsCPUTopology sort query session = Some t)
    (Hlen : forall table rows, query table = Some rows -> Z.of_nat (length (scanned rows)) <= int64_max) :
  exists table rows l, query table = Some rows /\ scanned rows = Some <$> l /\ l <> [] /\
    TotalCPUCount t = Z.of_nat (length l) /\ foldr (fun c n => CoreCount c + n) 0 (CPUTypes t) = TotalCPUCount t /\
    StronglySorted (not_after cpu_order) (CPUTypes t) /\ Forall (cpu_type_ok l) (CPUTypes t) /\
    NoDup ((fun c => (cpu_Name c, Midr c)) <$> CPUTypes t) /\
    forall r, r ∈ l -> cpu_key r ∈ (fun c => (cpu_Name c, Midr c)) <$> CPUTypes t.
Proof.
  unfold loadRunDetailsCPUTopology in Ht. case_bool_decide; [done|]. set (table := singleTableByComponentType _ _) in *.
  destruct (query table) as [rows|] eqn:Hq; [|done]. cbn [mbind option_bind] in Ht. destruct (mapM id (scanned rows)) as [l|] eqn:Hm; [|done].
  cbn [mbind option_bind] in Ht. destruct (rows_err rows); [done|]. cbn [orb] in Ht. case_bool_decide as Hl; [done|]. injection Ht as <-.
  assert (scanned rows = Some <$> l) as Hscan.
  { apply mapM_Some in Hm. clear -Hm. induction Hm as [|o x os l Hx _ IH]; [done|]. cbn in *. by rewrite Hx, IH. }
  specialize (Hlen table rows Hq). rewrite Hscan, length_fmap in Hlen. exists table, rows, l.
  destruct (groups_ok l Hlen) as (Hok & Hnd & Hin & Hsum). set (groups := foldl add_core [] l) in *. cbn [TotalCPUCount CPUTypes].
  pose proof (SliceSort0 runDetailsCPUType cpu_order _) as [P S]. rewrite wrap_int64_id by (unfold int64_min, int64_max in *; lia).
  assert (forall gs, (fun c => (cpu_Name c, Midr c)) <$> (cpu_type sort <$> gs) = group_key <$> gs) as Hkeys by (intros gs; by rewrite <- list_fmap_compose).
  split_and!; [done|done|done|done| |apply S| | |].
  - rewrite <- Hsum. assert (forall cs cs', cs ≡ₚ cs' -> foldr (fun c n => CoreCount c + n) 0 cs = foldr (fun c n => CoreCount c + n) 0 cs') as Hperm
      by (clear; induction 1; cbn; lia). rewrite (Hperm _ _ (P _)). clear. induction groups as [|g gs IH]; [done|]. cbn. lia.
  - rewrite P. apply Forall_fmap. eapply Forall_impl; [exact Hok|]. intros g (Hc & Hpos & Hids). unfold cpu_type_ok. cbn.
    pose proof (SliceSort0 Z (asc id) _) as [PZ SZ]. specialize (PZ (elements (clusterIDs g))). specialize (SZ (elements (clusterIDs g))).
    change (g_name g, g_midr g) with (group_key g). split_and!; [intros Hnil; rewrite Hnil in Hc; cbn in Hc; lia|done| |].
    + assert (NoDup (sort Z (asc id) (elements (clusterIDs g)))) as Hn by (rewrite PZ; apply NoDup_elements). clear -SZ Hn.
      induction SZ as [|x xs Hs IH Hf]; [constructor|]. apply NoDup_cons in Hn as [Hx Hn]. constructor; [by apply IH|].
      rewrite Forall_forall in *. intros y Hy. specialize (Hf y Hy). unfold not_after, asc, id in Hf. destruct (Z.compare_spec x y) as [->| |]; [done|done|done].
    + intros i. rewrite PZ, elem_of_elements. apply Hids.
  - rewrite P, Hkeys. done.
  - intros r Hr. rewrite P, Hkeys. by apply Hin.
Qed.

Definition sample_cpus : Rows cpuRow :=
  {| scanned := Some <$> [{| c_name := "A"; c_midr := "1"; c_cluster := Some 1 |}; {| c_name := "B"; c_midr := "2"; c_cluster := None |};
       {| c_name := "B"; c_midr := "2"; c_cluster := Some 4 |}; {| c_name := "B"; c_midr := "2"; c_cluster := Some 0 |}]; rows_err := false |}.

Definition sample_cpu_session : SessionTables :=
  {| widgetDataSources := None;
     entries := [{| info := {| componentType := {| ct_name := "target-info-cpus"; SchemaVersion := "1.0" |};
                               rendererIdentity := {| ri_index := 0; ri_id := None; ri_name := "r" |}; associatedContent := []; pending := false |};
                    tableName := "cpus"; tableType := RegularTable |}] |}.

Example cpu_topology_sample : option_map (fun t => (TotalCPUCount t, map (fun c => (cpu_Name c, CoreCount c, ClusterIDs c)) (CPUTypes t)))
    (loadRunDetailsCPUTopology (@sort_by) (fun _ => Some sample_cpus) sample_cpu_session) =
  Some (4, [("B", 3, [0; 4]); ("A", 1, [1])]).
Proof. vm_compute. reflexivity. Qed.

Lemma cpu_topology_exact_witness : exists t, loadRunDetailsCPUTopology (@sort_by) (fun _ => Some sample_cpus) sample_cpu_session = Some t /\
  foldr (fun c n => CoreCount c + n) 0 (CPUTypes t) = TotalCPUCount t.
Proof.
  destruct (loadRunDetailsCPUTopology (@sort_by) (fun _ => Some sample_cpus) sample_cpu_session) as [t|] eqn:Ht; [|vm_compute in Ht; discriminate].
  exists t. split; [reflexivity|].
  assert (forall table rows, (fun _ : string => Some sample_cpus) table = Some rows -> Z.of_nat (length (scanned rows)) <= int64_max) as Hlen
    by (intros table rows [= <-]; vm_compute; discriminate).
  destruct (cpu_topology_exact (@sort_by) (fun _ => Some sample_cpus) sample_cpu_session t Ht Hlen) as (? & ? & ? & _ & _ & _ & _ & Hsum & _).
  exact Hsum.
Defined.
