(* ===== verification/InsightsBundle.v ===== *)
(** * Performix: the bundle of summaries of a run

    Models [core/apap-engine/grpcserver/api_apap_insights.go] and the choice of summarizers in
    [insights/summary.go]: the summaries without a byte limit come first, and the others
    share what is left by their weights. The summarizers are used through their interface
    [KeepsBudget], which bounds the size of the bundle. *)

From S2P Require Import Prelude.
From S2P Require Import GoStrings.
From S2P Require Import GoFloats.
From S2P Require Import Sorting.
From S2P Require Import RenderTables.
From S2P Require Import Insights.
From S2P Require Import HotFunctions.
From S2P Require Import CallTree.
From S2P Require Import SourceFetcher.
From S2P Require Import SourceLines.
From S2P Require Import SourceWindows.
From S2P Require Import DisasmWindows.
From S2P Require Import RunDetails.

Local Open Scope Z_scope.

Definition runSummaryBundleTextLimitBytes : Z := 1024 * 1024.

(** The sum of the sizes, as [int]. *)
Definition runSummaryBundleSizeBytes (summaries : list RunSummary) : Z :=
  foldl (fun totalBytes s => wrap_int64 (totalBytes + runSummarySizeBytes s)) 0 summaries.

Definition remainingRunSummaryBundleBytes (summaries : list RunSummary) (limitBytes : Z) : Z :=
  let remainingBytes := wrap_int64 (limitBytes - runSummaryBundleSizeBytes summaries) in
  if remainingBytes <? 0 then 0 else remainingBytes.

Definition limitRunSummaryBundleSize (summaries : list RunSummary) (limitBytes : Z) : result insight_error unit :=
  let totalBytes := runSummaryBundleSizeBytes summaries in
  if limitBytes <? totalBytes then Err (BundleSizeExceeded totalBytes limitBytes) else Ok tt.

Fixpoint validate_names (names : gset string) (summaries : list RunSummary) : result insight_error unit :=
  match summaries with
  | [] => Ok tt
  | s :: rest =>
      if bool_decide (s_Name s = EmptyString) then Err SummarizerNameMissing
      else if bool_decide (s_Name s ∈ names) then Err (SummarizerNameDuplicated (s_Name s))
      else validate_names ({[s_Name s]} ∪ names) rest
  end.

Definition validateRunSummaryBundle (summaries : list RunSummary) : result insight_error unit := validate_names ∅ summaries.

Section Bundle.

Context {S : Type}.

Definition total_weight (summarizers : list (BudgetedRunSummarizerConfig RunDescription S)) : Z :=
  foldl (fun totalWeight c => wrap_int64 (totalWeight + Weight c)) 0 summarizers.

Definition budgetedSummarizerByteLimit (availableBudgetBytes : Z) (c : BudgetedRunSummarizerConfig RunDescription S)
    (summarizers : list (BudgetedRunSummarizerConfig RunDescription S)) : result insight_error Z :=
  let totalWeight := total_weight summarizers in
  if totalWeight =? 0 then Err DivisionByZero
  else Ok (wrap_int64 (Z.quot (wrap_int64 (availableBudgetBytes * Weight c)) totalWeight)).

(** The loop over the summarizers with a byte limit, of a budget of so many bytes. *)
Definition summarize_budgeted (desc : RunDescription) (session : S) (budgetedSummaryBytes : Z)
    (all : list (BudgetedRunSummarizerConfig RunDescription S)) (summaries : list RunSummary)
    (rest : list (BudgetedRunSummarizerConfig RunDescription S)) : result insight_error (list RunSummary) :=
  fold_res (fun summaries c =>
    byteLimit ← budgetedSummarizerByteLimit budgetedSummaryBytes c all;
    summary ← b_Summarize (summarizer c) desc session byteLimit;
    Ok (summaries ++ [summary])) summaries rest.

Definition summarize_unbudgeted (desc : RunDescription) (session : S) (summaries : list RunSummary)
    (summarizers : list (UnbudgetedRunSummarizer RunDescription S)) : result insight_error (list RunSummary) :=
  fold_res (fun summaries u =>
    summary ← u_Summarize u desc session;
    Ok (summaries ++ [summary])) summaries summarizers.

(** What runs in the rendered session. *)
Definition summarize_all (desc : RunDescription) (summarizers : RecipeRunSummarizers RunDescription S) (bundleLimitBytes : Z) (session : S)
    : result insight_error (list RunSummary) :=
  summaries ← summarize_unbudgeted desc session [] (Unbudgeted summarizers);
  summarize_budgeted desc session (remainingRunSummaryBundleBytes summaries bundleLimitBytes) (Budgeted summarizers) summaries
    (Budgeted summarizers).

(** [run.RecipeSuccess] *)
Definition RecipeSuccess : string := "success".

(** [session] is the rendered session, or the error of rendering. *)
Definition getRunSummaryBundle (desc : RunDescription) (session : result insight_error S)
    (summarizersForRecipe : string -> RecipeRunSummarizers RunDescription S) (bundleLimitBytes : Z)
    : result insight_error (list RunSummary) :=
  if negb (bool_decide (RunResult desc = RecipeSuccess)) then Err (RunNotSuccessful (ID desc) (RunResult desc))
  else
    session ← session;
    summaries ← summarize_all desc (summarizersForRecipe (RecipeName desc)) bundleLimitBytes session;
    _ ← validateRunSummaryBundle summaries;
    _ ← limitRunSummaryBundleSize summaries bundleLimitBytes;
    Ok summaries.

End Bundle.

(** ** The summarizers of recipes *)

Section Recipes.

Context (format_float32 : spec_float -> string) (out_of_range : spec_float -> Z).
Context (sort : forall A : Type, (A -> A -> comparison) -> list A -> list A).
Context (map_range : forall A : Type, gmap Z A -> list (Z * A)).
Context (prompt : string -> string).
Context (os_query : string -> option (string * string)) (cpu_query : string -> option (Rows cpuRow)).
Context (hot_query : hotFunctionsTables -> option (Rows hotFunctionRow)) (tree_query : callTreeTables -> option (Rows callTreeRow)).
Context (disasm_query : disassemblyTables -> option (Rows disassemblyQueryRow)).
Context (source_query : sourceWindowsTables -> option (Rows (sourceWindowSampleLineRow * Z))).
Context (fetcher : RunDescription -> list SourceFile -> list SourceFileContent).

Definition budgeted_of (recipeName : string) : list (BudgetedRunSummarizerConfig RunDescription SessionTables) :=
  if bool_decide (recipeName = "code_hotspots") then
    [{| summarizer := HotFunctionsSummarizer format_float32 out_of_range (prompt hotFunctionsSummaryName) hot_query; Weight := 1 |};
     {| summarizer := CallTreeSummarizer format_float32 out_of_range sort (prompt callTreeSummaryName) tree_query; Weight := 1 |};
     {| summarizer := DisassemblyWindowsSummarizer sort format_float32 (prompt disassemblyWindowsSummaryName) disasm_query; Weight := 1 |};
     {| summarizer := SourceWindowsSummarizer sort map_range format_float32 (prompt sourceWindowsSummaryName) source_query fetcher; Weight := 1 |}]
  else [].

Definition SummarizersForRecipe (recipeName : string) : RecipeRunSummarizers RunDescription SessionTables :=
  {| Unbudgeted := [RunDetailsSummarizer sort format_float32 (prompt runDetailsSummaryName) os_query cpu_query];
     Budgeted := budgeted_of recipeName |}.

End Recipes.

(** ** Sizes *)

Definition bundle_size (summaries : list RunSummary) : Z := foldr (fun s n => runSummarySizeBytes s + n) 0 summaries.

Lemma runSummarySizeBytes_nonneg s : 0 <= runSummarySizeBytes s.
Proof. unfold runSummarySizeBytes, len. lia. Qed.

Lemma bundle_size_app l k : bundle_size (l ++ k) = bundle_size l + bundle_size k.
Proof. unfold bundle_size. induction l as [|s l IH]; cbn [foldr app]; [lia|]. rewrite IH. lia. Qed.

Lemma bundle_size_nonneg l : 0 <= bundle_size l.
Proof. unfold bundle_size. induction l as [|s l IH]; cbn [foldr]; [lia|]. pose proof (runSummarySizeBytes_nonneg s). lia. Qed.

Lemma runSummaryBundleSizeBytes_exact l : bundle_size l <= int64_max -> runSummaryBundleSizeBytes l = bundle_size l.
Proof.
  unfold runSummaryBundleSizeBytes. assert (forall n, 0 <= n -> n + bundle_size l <= int64_max ->
    foldl (fun totalBytes s => wrap_int64 (totalBytes + runSummarySizeBytes s)) n l = n + bundle_size l) as H.
  { induction l as [|s l IH]; intros n Hn Hl; cbn [foldl]; [cbn; lia|]. change (bundle_size (s :: l)) with (runSummarySizeBytes s + bundle_size l) in *.
    pose proof (runSummarySizeBytes_nonneg s). pose proof (bundle_size_nonneg l).
    rewrite wrap_int64_id by (unfold int64_min; lia). rewrite IH by lia. lia. }
  intros Hl. by rewrite H.
Qed.

Lemma validate_names_spec names l : is_ok (validate_names names l) = true <->
  Forall (fun s => s_Name s <> EmptyString /\ s_Name s ∉ names) l /\ NoDup (s_Name <$> l).
Proof.
  revert names. induction l as [|s l IH]; intros names; cbn [validate_names]; [split; [by split; constructor|done]|].
  rewrite Forall_cons, fmap_cons, NoDup_cons. case_bool_decide as Hne; [|case_bool_decide as Hin]; cbn [is_ok].
  - split; [done|]. by intros [[[? _] _] _].
  - split; [done|]. by intros [[[_ ?] _] _].
  - rewrite IH, !Forall_forall. split.
    + intros [Hall Hnd]. split_and!; [done|done| | |done].
      * intros x Hx. destruct (Hall x Hx) as [? ?]. set_solver.
      * intros (x & Heq & Hx)%list_elem_of_fmap. destruct (Hall x Hx) as [_ Hn]. apply Hn. rewrite <- Heq. set_solver.
    + intros [[_ Hall] [Hni Hnd]]. split; [|done]. intros x Hx. destruct (Hall x Hx) as [? ?]. split; [done|].
      assert (s_Name x <> s_Name s); [|set_solver]. intros Heq. apply Hni. rewrite <- Heq. by apply list_elem_of_fmap_2.
Qed.

Section Interface.

Context {S : Type} (all : list (BudgetedRunSummarizerConfig RunDescription S)).

(** Weights are positive and small. *)
Context (Hweights : Forall (fun c => 0 < Weight c <= 2 ^ 16) all) (Hcount : Z.of_nat (length all) <= 2 ^ 16).
Context (Hbudget : Forall (fun c => KeepsBudget (summarizer c)) all).

Definition weights (l : list (BudgetedRunSummarizerConfig RunDescription S)) : Z := foldr (fun c n => Weight c + n) 0 l.

Lemma weights_bound l : Forall (fun c => 0 < Weight c <= 2 ^ 16) l -> 0 <= weights l <= Z.of_nat (length l) * 2 ^ 16.
Proof using. clear. unfold weights. induction 1; cbn [foldr length]; lia. Qed.

Lemma total_weight_sum : total_weight all = weights all.
Proof using Hweights Hcount.
  clear Hbudget. unfold total_weight. assert (forall l, Forall (fun c => 0 < Weight c <= 2 ^ 16) l -> forall n, 0 <= n ->
    n + Z.of_nat (length l) * 2 ^ 16 <= int64_max ->
    foldl (fun totalWeight c => wrap_int64 (totalWeight + Weight c)) n l = n + weights l) as H.
  { unfold int64_max. change (2 ^ 16) with 65536. change (2 ^ 63 - 1) with 9223372036854775807. induction 1 as [|c l Hc Hl IH]; intros n Hn Hmax.
    - cbn. lia.
    - cbn [length] in Hmax. cbn [foldl]. unfold weights in *. cbn [foldr].
      rewrite wrap_int64_id by (unfold int64_min, int64_max; lia). rewrite IH by lia. lia. }
  rewrite H; [done|done|done|]. unfold int64_max. lia.
Qed.

Lemma byte_limit_share budget c : 0 <= budget <= 2 ^ 40 -> c ∈ all ->
  budgetedSummarizerByteLimit budget c all = Ok (budget * Weight c / weights all).
Proof using Hweights Hcount.
  intros Hb Hc. unfold budgetedSummarizerByteLimit. rewrite total_weight_sum. pose proof (weights_bound all Hweights) as [H0 _].
  assert (Weight c <= weights all) as Hle.
  { clear Hcount Hbudget H0. induction Hweights as [|c' l Hc' Hl IH]; [by apply elem_of_nil in Hc|]. unfold weights in *. cbn [foldr].
    pose proof (weights_bound l Hl) as [? _]. unfold weights in *. apply elem_of_cons in Hc as [->|Hc]; [lia|]. specialize (IH Hl Hc). lia. }
  rewrite Forall_forall in Hweights. specialize (Hweights c Hc). rewrite (proj2 (Z.eqb_neq _ _)) by lia.
  assert (0 <= budget * Weight c <= 2 ^ 40 * 2 ^ 16) by nia. rewrite (wrap_int64_id (budget * Weight c)) by (unfold int64_min, int64_max; lia).
  rewrite Z.quot_div_nonneg by lia. assert (0 <= budget * Weight c / weights all <= budget * Weight c) by (split; [apply Z.div_pos; lia|apply Z.div_le_upper_bound; nia]).
  rewrite wrap_int64_id by (unfold int64_min, int64_max; lia). done.
Qed.

(** The summaries with a byte limit fit the budget together, and are named as their summarizers. *)
Lemma summarize_budgeted_size desc session budget : 0 <= budget <= 2 ^ 40 ->
  forall rest summaries result, (forall c, c ∈ rest -> c ∈ all) ->
  summarize_budgeted desc session budget all summaries rest = Ok result ->
  exists new, result = summaries ++ new /\ s_Name <$> new = (fun c => b_Name (summarizer c)) <$> rest /\
    bundle_size new * weights all <= budget * weights rest.
Proof using Hweights Hcount Hbudget.
  intros Hb. induction rest as [|c rest IH]; intros summaries res Hin; unfold summarize_budgeted; cbn [fold_res].
  { intros [= <-]. exists []. rewrite app_nil_r. split_and!; [done|done|cbn; lia]. }
  assert (c ∈ all) as Hc by (apply Hin; left). rewrite (byte_limit_share budget c Hb Hc). cbn [mbind result_bind].
  intros (step & Hstep & H)%bind_Ok. apply bind_Ok in Hstep as (s & Hs & [= <-]). fold (summarize_budgeted desc session budget all) in H.
  apply IH in H as (new & -> & Hnames & Hsize); [|intros; apply Hin; by right]. exists (s :: new). rewrite <- app_assoc.
  rewrite Forall_forall in Hbudget. apply (Hbudget c Hc) in Hs as [Hname Hle]. split_and!; [done|by rewrite !fmap_cons, Hname, Hnames|].
  change (bundle_size (s :: new)) with (runSummarySizeBytes s + bundle_size new). change (weights (c :: rest)) with (Weight c + weights rest).
  pose proof (weights_bound all Hweights) as [Hw _].
  assert (runSummarySizeBytes s * weights all <= budget * Weight c); [|lia].
  destruct (decide (weights all = 0)) as [Hz|Hz]; [rewrite Forall_forall in Hweights; specialize (Hweights c Hc); rewrite Hz; nia|].
  pose proof (Z.mul_div_le (budget * Weight c) (weights all)). nia.
Qed.

End Interface.

(** ** The bundle of a recipe *)

Section RecipeBundle.

Context (format_float32 : spec_float -> string) (out_of_range : spec_float -> Z).
Context (sort : forall A : Type, (A -> A -> comparison) -> list A -> list A).
Context (map_range : forall A : Type, gmap Z A -> list (Z * A)).
Context (prompt : string -> string).
Context (os_query : string -> option (string * string)) (cpu_query : string -> option (Rows cpuRow)).
Context (hot_query : hotFunctionsTables -> option (Rows hotFunctionRow)) (tree_query : callTreeTables -> option (Rows callTreeRow)).
Context (disasm_query : disassemblyTables -> option (Rows disassemblyQueryRow)).
Context (source_query : sourceWindowsTables -> option (Rows (sourceWindowSampleLineRow * Z))).
Context (fetcher : RunDescription -> list SourceFile -> list SourceFileContent).

Notation budgeted := (budgeted_of format_float32 out_of_range sort map_range prompt hot_query tree_query disasm_query source_query fetcher).
Notation summarizers := (SummarizersForRecipe format_float32 out_of_range sort map_range prompt os_query cpu_query hot_query tree_query
  disasm_query source_query fetcher).

Lemma budgeted_keeps recipe : Forall (fun c => KeepsBudget (summarizer c)) (budgeted recipe) /\
  Forall (fun c => 0 < Weight c <= 2 ^ 16) (budgeted recipe) /\ Z.of_nat (length (budgeted recipe)) <= 2 ^ 16.
Proof.
  unfold budgeted_of. case_bool_decide; [|split_and!; [constructor|constructor|cbn; lia]].
  split_and!; [|repeat constructor; cbn; lia|cbn; lia].
  repeat (apply Forall_cons_2; [cbn [summarizer]; apply _|]). apply Forall_nil_2.
Qed.

Lemma budgeted_names recipe : NoDup (runDetailsSummaryName :: ((fun c => b_Name (summarizer c)) <$> budgeted recipe)) /\
  Forall (fun n => n <> EmptyString) ((fun c => b_Name (summarizer c)) <$> budgeted recipe).
Proof.
  unfold budgeted_of. case_bool_decide; (split; [refine (bool_decide_unpack _ _); vm_compute; exact I|repeat constructor; done]).
Qed.

(** C36: when the details of a run fit the limit of the bundle and every summarizer succeeds, the
    bundle is returned: the summarizers with a byte limit fit what is left together, so
    that the check of the size does not fail, and all names are different. *)
Theorem bundle_is_returned desc (Hresult : RunResult desc = RecipeSuccess) session limit (Hlimit : 0 <= limit <= 2 ^ 40) details
    (Hdetails : u_Summarize (RunDetailsSummarizer sort format_float32 (prompt runDetailsSummaryName) os_query cpu_query) desc session = Ok details)
    (Hfits : runSummarySizeBytes details <= limit) summaries
    (Hall : summarize_all desc (summarizers (RecipeName desc)) limit session = Ok summaries) :
  getRunSummaryBundle desc (Ok session) summarizers limit = Ok summaries /\ bundle_size summaries <= limit /\
  s_Name <$> summaries = runDetailsSummaryName :: ((fun c => b_Name (summarizer c)) <$> budgeted (RecipeName desc)).
Proof.
  unfold getRunSummaryBundle. rewrite bool_decide_true by done. cbn [negb mbind result_bind]. rewrite Hall. cbn [mbind result_bind].
  unfold summarize_all in Hall. cbn [Unbudgeted Budgeted SummarizersForRecipe] in Hall.
  unfold summarize_unbudgeted in Hall. cbn [fold_res] in Hall. rewrite Hdetails in Hall. cbn [mbind result_bind app] in Hall.
  pose proof (runSummarySizeBytes_nonneg details) as Hd0.
  assert (bundle_size [details] = runSummarySizeBytes details) as Hone by (unfold bundle_size; cbn [foldr]; lia).
  assert (remainingRunSummaryBundleBytes [details] limit = limit - runSummarySizeBytes details) as Hrem.
  { unfold remainingRunSummaryBundleBytes. rewrite runSummaryBundleSizeBytes_exact, Hone by (rewrite Hone; unfold int64_max; lia).
    rewrite wrap_int64_id by (unfold int64_min, int64_max; lia). destruct (Z.ltb_spec (limit - runSummarySizeBytes details) 0); lia. }
  rewrite Hrem in Hall. destruct (budgeted_keeps (RecipeName desc)) as (Hk & Hw & Hc).
  destruct (summarize_budgeted_size (budgeted (RecipeName desc)) Hw Hc Hk desc session (limit - runSummarySizeBytes details)) with
    (rest := budgeted (RecipeName desc)) (summaries := [details]) (result := summaries) as (new & -> & Hnames & Hsize); [lia|done|done|].
  assert (s_Name details = runDetailsSummaryName) as Hname by (by apply NewRunSummary_Ok in Hdetails as [? _]).
  assert (bundle_size new <= limit - runSummarySizeBytes details) as Hnew.
  { pose proof (weights_bound (budgeted (RecipeName desc)) Hw) as [Hw0 _]. destruct (decide (weights (budgeted (RecipeName desc)) = 0)) as [Hz|Hz]; [|nia].
    assert (budgeted (RecipeName desc) = []) as Hnil.
    { revert Hz Hw. generalize (budgeted (RecipeName desc)). intros [|c l] Hz Hw; [done|]. apply Forall_cons in Hw as [? Hw'].
      pose proof (weights_bound l Hw') as [? _]. unfold weights in *. cbn [foldr] in Hz. lia. }
    rewrite Hnil in Hnames. apply fmap_nil_inv in Hnames as ->. cbn. lia. }
  assert (bundle_size ([details] ++ new) <= limit) as Htotal by (rewrite bundle_size_app; lia).
  assert (s_Name <$> [details] ++ new = runDetailsSummaryName :: ((fun c => b_Name (summarizer c)) <$> budgeted (RecipeName desc))) as Hall'.
  { rewrite fmap_app, Hnames. cbn. by rewrite Hname. }
  destruct (budgeted_names (RecipeName desc)) as [Hnd Hne].
  assert (is_ok (validateRunSummaryBundle ([details] ++ new)) = true) as Hv.
  { apply validate_names_spec. rewrite Hall'. split; [|done]. apply Forall_forall. intros s Hs. split; [|set_solver].
    apply (list_elem_of_fmap_2 s_Name) in Hs. rewrite Hall' in Hs. rewrite Forall_forall in Hne. apply elem_of_cons in Hs as [->|Hs]; [done|by apply Hne]. }
  destruct (validateRunSummaryBundle _) as [[]|]; [|done]. cbn [mbind result_bind]. unfold limitRunSummaryBundleSize.
  rewrite runSummaryBundleSizeBytes_exact by (unfold int64_max; lia). rewrite (proj2 (Z.ltb_ge _ _)) by lia. done.
Qed.

End RecipeBundle.

Definition sample_table (name : string) : string * list TableRef := (name, [{| ref_name := "t_" +:+ name; ref_pending := false |}]).

Definition sample_entry (name : string) : ManifestEntry :=
  {| info := {| componentType := {| ct_name := name; SchemaVersion := "1.0" |};
                rendererIdentity := {| ri_index := 0; ri_id := None; ri_name := "r" |}; associatedContent := []; pending := false |};
     tableName := "t_" +:+ name; tableType := RegularTable |}.

Definition sample_bundle_session : SessionTables :=
  {| widgetDataSources := Some {["functions" := sample_table <$> ["flatFunctions"; "symbols"; "images"; "source_files"];
                                 "call_stack" := sample_table <$> ["drilldown"; "symbols"; "images"; "source_files"]]};
     entries := sample_entry <$> ["disassembly"; "symbols"; "images"; "source_files"; "periodic_samples"] |}.

Definition sample_desc : RunDescription :=
  {| ID := "42"; Name := "run"; RecipeName := "code_hotspots"; RunResult := "success"; RunError := EmptyString; WorkloadType := "launch";
     Cmdline := "./a.out"; AndroidPackageName := EmptyString; AndroidActivityName := EmptyString; TargetName := "board";
     StartTime := "0"; EndTime := "1"; Timeout := 0; Parameters := ∅ |}.

Definition no_rows {T A} (t : T) : option (Rows A) := Some {| scanned := []; rows_err := false |}.

Notation sample_summarizers := (SummarizersForRecipe (fun _ => "0") (fun _ => 0) (@sort_by) (fun A m => map_to_list m) (fun _ => "prompt")
  (fun _ => None) (fun _ => None) no_rows no_rows no_rows no_rows (fun _ _ => [])).

Lemma bundle_is_returned_witness : exists summaries,
  summarize_all sample_desc (sample_summarizers "code_hotspots") 1000 sample_bundle_session = Ok summaries /\
  getRunSummaryBundle sample_desc (Ok sample_bundle_session) sample_summarizers 1000 = Ok summaries /\ length summaries = 5%nat.
Proof.
  destruct (summarize_all sample_desc (sample_summarizers "code_hotspots") 1000 sample_bundle_session) as [summaries|e] eqn:Hall;
    [|vm_compute in Hall; discriminate].
  exists summaries. split; [reflexivity|].
  destruct (u_Summarize (RunDetailsSummarizer (@sort_by) (fun _ => "0") "prompt" (fun _ => None) (fun _ => None)) sample_desc sample_bundle_session)
    as [details|e] eqn:Hd; [|vm_compute in Hd; discriminate].
  assert (runSummarySizeBytes details <= 1000) as Hfits by (vm_compute in Hd; injection Hd as <-; vm_compute; discriminate).
  assert (RunResult sample_desc = RecipeSuccess) as Hresult by reflexivity.
  assert (0 <= 1000 <= 2 ^ 40) as Hlimit by lia.
  destruct (bundle_is_returned (fun _ => "0") (fun _ => 0) (@sort_by) (fun A m => map_to_list m) (fun _ => "prompt") (fun _ => None) (fun _ => None)
    no_rows no_rows no_rows no_rows (fun _ _ => []) sample_desc Hresult sample_bundle_session 1000 Hlimit details Hd Hfits summaries Hall)
    as (Hok & _ & Hnames).
  split; [exact Hok|]. rewrite <- (length_fmap s_Name), Hnames. vm_compute. reflexivity.
Defined.
