(* ===== verification/TransferSlots.v ===== *)
(** * Performix: slots for concurrent transfers

    Models [core/apap-engine/recipe/transfer_slots.go]: the manager that limits concurrent
    transfers and serves phase-one requests before background requests, and the callers
    that acquire, cancel and release as a step relation. *)

From S2P Require Import Prelude.

Local Open Scope Z_scope.

Inductive transferPhase := phase1TransferPhase | backgroundTransferPhase.

#[export] Instance transferPhase_eq_dec : EqDecision transferPhase.
Proof. solve_decision. Defined.

(** A [transferSlotRequest] is identified by the address of its channel. *)
Definition request := nat.

Record transferSlotManager := {
  max : Z;
  active : Z;
  phase1Queue : list request;
  backgroundQueue : list request
}.

Definition newTransferSlotManager (max : Z) : transferSlotManager :=
  {| max := max; active := 0; phase1Queue := []; backgroundQueue := [] |}.

Definition enqueueLocked (m : transferSlotManager) (phase : transferPhase) (req : request) : transferSlotManager :=
  match phase with
  | backgroundTransferPhase =>
      {| max := max m; active := active m; phase1Queue := phase1Queue m; backgroundQueue := backgroundQueue m ++ [req] |}
  | phase1TransferPhase =>
      {| max := max m; active := active m; phase1Queue := phase1Queue m ++ [req]; backgroundQueue := backgroundQueue m |}
  end.

(** The next request in priority order, and the manager without it. *)
Definition nextRequestLocked (m : transferSlotManager) : option (request * transferSlotManager) :=
  match phase1Queue m, backgroundQueue m with
  | req :: rest, _ =>
      Some (req, {| max := max m; active := active m; phase1Queue := rest; backgroundQueue := backgroundQueue m |})
  | [], req :: rest =>
      Some (req, {| max := max m; active := active m; phase1Queue := []; backgroundQueue := rest |})
  | [], [] => None
  end.

(** The loop of [dispatchAvailableLocked], with the channels it closes in order. *)
Fixpoint dispatch_loop (fuel : nat) (m : transferSlotManager) : option (transferSlotManager * list request) :=
  match fuel with
  | O => None
  | S fuel' =>
      if active m <? max m then
        match nextRequestLocked m with
        | None => Some (m, [])
        | Some (req, m') =>
            r ← dispatch_loop fuel' {| max := max m'; active := active m' + 1;
                                       phase1Queue := phase1Queue m'; backgroundQueue := backgroundQueue m' |};
            Some (r.1, req :: r.2)
        end
      else Some (m, [])
  end.

Definition dispatch_fuel (m : transferSlotManager) : nat := S (length (phase1Queue m) + length (backgroundQueue m)).

Definition dispatchAvailableLocked (m : transferSlotManager) : transferSlotManager * list request :=
  default (m, []) (dispatch_loop (dispatch_fuel m) m).

Fixpoint removeTransferSlotRequest (queue : list request) (req : request) : list request * bool :=
  match queue with
  | [] => ([], false)
  | queued :: rest =>
      if decide (queued = req) then (rest, true)
      else let r := removeTransferSlotRequest rest req in (queued :: r.1, r.2)
  end.

Definition removeLocked (m : transferSlotManager) (phase : transferPhase) (req : request) : transferSlotManager * bool :=
  match phase with
  | backgroundTransferPhase =>
      let r := removeTransferSlotRequest (backgroundQueue m) req in
      ({| max := max m; active := active m; phase1Queue := phase1Queue m; backgroundQueue := r.1 |}, r.2)
  | phase1TransferPhase =>
      let r := removeTransferSlotRequest (phase1Queue m) req in
      ({| max := max m; active := active m; phase1Queue := r.1; backgroundQueue := backgroundQueue m |}, r.2)
  end.

(** The first critical section of [Acquire]. *)
Definition acquire_enqueue (m : transferSlotManager) (phase : transferPhase) (req : request)
  : transferSlotManager * list request :=
  dispatchAvailableLocked (enqueueLocked m phase req).

Definition cancelQueuedRequest (m : transferSlotManager) (phase : transferPhase) (req : request)
  : transferSlotManager * list request * bool :=
  let '(m', removed) := removeLocked m phase req in
  if removed then (dispatchAvailableLocked m', true) else (m', [], false).

(** [None] is the error "transfer slot released without an active acquisition". *)
Definition Release (m : transferSlotManager) : option (transferSlotManager * list request) :=
  if active m =? 0 then None
  else Some (dispatchAvailableLocked {| max := max m; active := active m - 1;
                                        phase1Queue := phase1Queue m; backgroundQueue := backgroundQueue m |}).

Example phase1_first :
  let m := {| max := 1; active := 1; phase1Queue := [7%nat]; backgroundQueue := [5%nat; 6%nat] |} in
  (snd <$> Release m) = Some [7%nat].
Proof. reflexivity. Qed.

(** ** Dispatching *)

(** All waiting requests in the order they are served. *)
Definition waiting (m : transferSlotManager) : list request := phase1Queue m ++ backgroundQueue m.

(** The number of requests a dispatch serves. *)
Definition capacity (m : transferSlotManager) : nat := Nat.min (Z.to_nat (max m - active m)) (length (waiting m)).

Lemma dispatch_loop_spec fuel : forall m, (length (waiting m) < fuel)%nat ->
  exists m', dispatch_loop fuel m = Some (m', take (capacity m) (waiting m)) /\
    max m' = max m /\ active m' = active m + Z.of_nat (capacity m) /\
    phase1Queue m' = drop (capacity m) (phase1Queue m) /\
    waiting m' = drop (capacity m) (waiting m).
Proof.
  induction fuel as [|fuel IH]; intros [mx ac q1 q2] Hf; [lia|].
  unfold waiting, capacity in *. cbn [max active phase1Queue backgroundQueue] in *. cbn [dispatch_loop max active].
  destruct (Z.ltb_spec ac mx) as [Hlt|Hge].
  - destruct q1 as [|r q1]; [destruct q2 as [|r q2]|]; cbn [nextRequestLocked phase1Queue backgroundQueue max active].
    + eexists. cbn. rewrite Nat.min_0_r. cbn. rewrite Z.add_0_r. by split_and!.
    + destruct (IH {| max := mx; active := ac + 1; phase1Queue := []; backgroundQueue := q2 |})
        as (m' & -> & Hmx & Hac & Hq1 & Hq); [cbn in *; lia|].
      exists m'. cbn in *. replace (Nat.min (Z.to_nat (mx - ac)) (S (length q2)))
        with (S (Nat.min (Z.to_nat (mx - (ac + 1))) (length q2))) by lia.
      cbn. split_and!; [done|done|lia| |done]. by rewrite drop_nil in Hq1.
    + destruct (IH {| max := mx; active := ac + 1; phase1Queue := q1; backgroundQueue := q2 |})
        as (m' & -> & Hmx & Hac & Hq1 & Hq); [cbn in *; lia|].
      exists m'. cbn in *. replace (Nat.min (Z.to_nat (mx - ac)) (S (length (q1 ++ q2))))
        with (S (Nat.min (Z.to_nat (mx - (ac + 1))) (length (q1 ++ q2)))) by lia.
      cbn. split_and!; [done|done|lia|done|done].
  - eexists. replace (Z.to_nat (mx - ac)) with 0%nat by lia. cbn. rewrite !drop_0, Z.add_0_r. by split_and!.
Qed.

Lemma dispatch_spec m : exists m', dispatchAvailableLocked m = (m', take (capacity m) (waiting m)) /\
    max m' = max m /\ active m' = active m + Z.of_nat (capacity m) /\
    phase1Queue m' = drop (capacity m) (phase1Queue m) /\
    waiting m' = drop (capacity m) (waiting m).
Proof.
  unfold dispatchAvailableLocked.
  destruct (dispatch_loop_spec (dispatch_fuel m) m) as (m' & -> & H).
  { unfold dispatch_fuel, waiting. rewrite length_app. lia. }
  by exists m'.
Qed.

(** Dispatching always ends and serves as many waiting requests as there is capacity,
    all phase-one requests before any background request and each queue in order of
    arrival; afterwards nobody waits while a slot is free. *)
Theorem dispatch_serves_in_order m :
  exists m', dispatch_loop (dispatch_fuel m) m = Some (m', take (capacity m) (phase1Queue m ++ backgroundQueue m)) /\
    active m' = active m + Z.of_nat (capacity m) /\
    phase1Queue m' ++ backgroundQueue m' = drop (capacity m) (phase1Queue m ++ backgroundQueue m) /\
    (active m' < max m' -> phase1Queue m' = [] /\ backgroundQueue m' = []).
Proof.
  destruct (dispatch_loop_spec (dispatch_fuel m) m) as (m' & -> & Hmx & Hac & _ & Hq).
  { unfold dispatch_fuel, waiting. rewrite length_app. lia. }
  exists m'. split; [done|]. split; [done|]. split; [done|]. intros Hlt. apply app_nil.
  change (waiting m' = []). rewrite Hq. apply drop_ge. unfold capacity in *. lia.
Qed.

(** ** The callers *)

Inductive status :=
| Waiting (phase : transferPhase)   (* blocked in the [select] of [Acquire] *)
| Holding                           (* [Acquire] returned nil *)
| Cancelled                         (* [Acquire] returned the error of its context *)
| Released.

(** [closed] lists the [ready] channels closed so far; [holders] are the requests granted a
    slot that was not given back. *)
Record system := {
  manager : transferSlotManager;
  callers : gmap request status;
  closed : list request;
  holders : gset request
}.

Definition init (max : Z) : system :=
  {| manager := newTransferSlotManager max; callers := ∅; closed := []; holders := ∅ |}.

(** The system after a critical section that left manager [r.1] and closed the channels [r.2]. *)
Definition after (s : system) (r : transferSlotManager * list request) (cs : gmap request status) (hs : gset request) : system :=
  {| manager := r.1; callers := cs; closed := closed s ++ r.2; holders := list_to_set r.2 ∪ hs |}.

Inductive step : system -> system -> Prop :=
| acquire s req phase : callers s !! req = None ->
    step s (after s (acquire_enqueue (manager s) phase req) (<[req := Waiting phase]> (callers s)) (holders s))
| granted s req phase : callers s !! req = Some (Waiting phase) -> req ∈ closed s ->
    step s {| manager := manager s; callers := <[req := Holding]> (callers s); closed := closed s; holders := holders s |}
| cancelled s req phase r : callers s !! req = Some (Waiting phase) ->
    cancelQueuedRequest (manager s) phase req = (r, true) ->
    step s (after s r (<[req := Cancelled]> (callers s)) (holders s))
| cancelled_late s req phase r : callers s !! req = Some (Waiting phase) ->
    cancelQueuedRequest (manager s) phase req = (r, false) ->
    step s (after s r (<[req := Holding]> (callers s)) (holders s))
| release s req r : callers s !! req = Some Holding -> Release (manager s) = Some r ->
    step s (after s r (<[req := Released]> (callers s)) (holders s ∖ {[req]})).

Definition reachable (max : Z) : system -> Prop := rtc step (init max).

Definition queue (m : transferSlotManager) (phase : transferPhase) : list request :=
  match phase with phase1TransferPhase => phase1Queue m | backgroundTransferPhase => backgroundQueue m end.

(** The invariant of the slots and their callers. *)
Record slots_inv (limit : Z) (s : system) : Prop := {
  inv_max : max (manager s) = limit;
  inv_count : active (manager s) = Z.of_nat (size (holders s));
  inv_limit : active (manager s) <= Z.max 0 limit;
  inv_full : waiting (manager s) <> [] -> limit <= active (manager s);
  inv_nodup : NoDup (closed s ++ waiting (manager s));
  inv_holders : forall r, r ∈ holders s -> r ∈ closed s;
  inv_known : forall r, r ∈ closed s -> is_Some (callers s !! r);
  inv_queued : forall r p, r ∈ queue (manager s) p -> callers s !! r = Some (Waiting p);
  inv_waiting : forall r p, callers s !! r = Some (Waiting p) -> r ∈ queue (manager s) p \/ r ∈ holders s;
  inv_holding : forall r, callers s !! r = Some Holding -> r ∈ holders s
}.

Lemma elem_of_waiting m r : r ∈ waiting m <-> exists p, r ∈ queue m p.
Proof.
  unfold waiting. rewrite elem_of_app. split.
  - intros [?|?]; [by exists phase1TransferPhase|by exists backgroundTransferPhase].
  - intros [[] ?]; tauto.
Qed.

(** What a dispatch needs: the invariant up to the dispatch itself. *)
Record pre_inv (limit : Z) (m : transferSlotManager) (cs : gmap request status) (cl : list request) (hs : gset request) : Prop := {
  pre_max : max m = limit;
  pre_count : active m = Z.of_nat (size hs);
  pre_limit : active m <= Z.max 0 limit;
  pre_nodup : NoDup (cl ++ waiting m);
  pre_holders : forall r, r ∈ hs -> r ∈ cl;
  pre_known : forall r, r ∈ cl -> is_Some (cs !! r);
  pre_queued : forall r p, r ∈ queue m p -> cs !! r = Some (Waiting p);
  pre_waiting : forall r p, cs !! r = Some (Waiting p) -> r ∈ queue m p \/ r ∈ hs;
  pre_holding : forall r, cs !! r = Some Holding -> r ∈ hs
}.

Lemma size_list_disjoint (l : list request) (X : gset request) :
  NoDup l -> (forall r, r ∈ l -> r ∉ X) -> size (list_to_set l ∪ X) = (length l + size X)%nat.
Proof.
  intros Hnd Hdis. rewrite size_union by (intros r ?%elem_of_list_to_set ?; by eapply Hdis).
  by rewrite size_list_to_set.
Qed.

Lemma queue_after_dispatch m m' k :
  phase1Queue m' = drop k (phase1Queue m) -> waiting m' = drop k (waiting m) ->
  (forall r p, r ∈ queue m' p -> r ∈ queue m p) /\
  (forall r p, r ∈ queue m p -> r ∈ queue m' p \/ r ∈ take k (waiting m)).
Proof.
  unfold waiting. intros H1 Hw. rewrite H1, drop_app in Hw. apply app_inv_head in Hw. split.
  - intros r [] Hr; cbn in *; [rewrite H1 in Hr|rewrite Hw in Hr]; by eapply subseteq_drop.
  - intros r [] Hr; cbn in *; rewrite take_app, elem_of_app.
    + rewrite H1. rewrite <- (take_drop k) in Hr. apply elem_of_app in Hr as [?|?]; tauto.
    + rewrite Hw. rewrite <- (take_drop (k - length (phase1Queue m))) in Hr. apply elem_of_app in Hr as [?|?]; tauto.
Qed.

Lemma dispatch_inv limit s m cs hs :
  pre_inv limit m cs (closed s) hs -> slots_inv limit (after s (dispatchAvailableLocked m) cs hs).
Proof.
  intros [Hmax Hcount Hlimit Hnd Hhs Hkn Hq Hwt Hhd].
  destruct (dispatch_spec m) as (m' & -> & Hmx & Hac & Hq1 & Hw). set (k := capacity m) in *.
  destruct (queue_after_dispatch m m' k Hq1 Hw) as [Hsub Hsplit].
  assert (k <= length (waiting m))%nat as Hk by (unfold k, capacity; lia).
  assert (forall r, r ∈ take k (waiting m) -> r ∈ waiting m) as Htk by (intros r; apply subseteq_take).
  assert (forall r, r ∈ waiting m -> r ∉ closed s) as Hdis.
  { apply NoDup_app in Hnd as (_ & Hd & _). intros r Hr Hc. by apply (Hd r). }
  constructor; cbn [after manager callers closed holders fst snd].
  - congruence.
  - rewrite size_list_disjoint; [rewrite length_take_le by lia; lia| |].
    + apply NoDup_app in Hnd as (_ & _ & Hnd). rewrite <- (take_drop k) in Hnd. by apply NoDup_app in Hnd as [? _].
    + intros r Hr%Htk Hh%Hhs. by apply (Hdis r).
  - unfold k, capacity in *. lia.
  - rewrite Hw. intros Hne. assert (k < length (waiting m))%nat as Hkl.
    { destruct (decide (k < length (waiting m))%nat); [done|]. by rewrite drop_ge in Hne by lia. }
    unfold k, capacity in *. lia.
  - by rewrite Hw, <- app_assoc, take_drop.
  - intros r [Hr%elem_of_list_to_set|Hr]%elem_of_union; apply elem_of_app; [by right|left; by apply Hhs].
  - intros r [Hr|Hr]%elem_of_app; [by apply Hkn|]. apply Htk, elem_of_waiting in Hr as [p Hr]. by rewrite (Hq r p).
  - intros r p Hr. by apply Hq, Hsub.
  - intros r p Hr. destruct (Hwt r p Hr) as [Hin|?]; [|set_solver].
    destruct (Hsplit r p Hin) as [?|?]; [by left|right; set_solver].
  - intros r Hr. specialize (Hhd r Hr). set_solver.
Qed.

Lemma enqueue_queue m p r : forall r' p', r' ∈ queue (enqueueLocked m p r) p' <-> r' ∈ queue m p' \/ (p' = p /\ r' = r).
Proof. intros r' p'. destruct p, p'; cbn; rewrite ?elem_of_app, ?list_elem_of_singleton; naive_solver. Qed.

Lemma enqueue_waiting m p r : waiting (enqueueLocked m p r) ≡ₚ r :: waiting m.
Proof. destruct p; unfold waiting; cbn; solve_Permutation. Qed.

Lemma enqueue_fields m p r : max (enqueueLocked m p r) = max m /\ active (enqueueLocked m p r) = active m.
Proof. by destruct p. Qed.

Lemma removeTransferSlotRequest_spec l r : forall l' b, removeTransferSlotRequest l r = (l', b) ->
  if b then l ≡ₚ r :: l' else l' = l /\ r ∉ l.
Proof.
  induction l as [|x l IH]; intros l' b; cbn; [intros [= <- <-]; split; [done|set_solver]|].
  case_decide as Hx; [subst; by intros [= <- <-]|].
  destruct (removeTransferSlotRequest l r) as [l1 b1]. cbn. intros [= <- <-].
  specialize (IH _ _ eq_refl). destruct b1.
  - rewrite IH. apply Permutation_swap.
  - destruct IH as [-> ?]. split; [done|]. set_solver.
Qed.

Lemma removeLocked_spec m p r m' b : removeLocked m p r = (m', b) ->
  max m' = max m /\ active m' = active m /\
  if b then waiting m ≡ₚ r :: waiting m' /\ forall r' p', r' ∈ queue m p' <-> r' ∈ queue m' p' \/ (p' = p /\ r' = r)
  else m' = m /\ r ∉ queue m p.
Proof.
  destruct p; cbn; intros [= <- <-]; cbn;
    destruct (removeTransferSlotRequest _ r) as [l b] eqn:Hr; apply removeTransferSlotRequest_spec in Hr; cbn.
  - split; [done|]. split; [done|]. destruct b.
    + unfold waiting; cbn. split; [by rewrite Hr|]. intros r' []; cbn; [rewrite Hr, elem_of_cons|]; naive_solver.
    + destruct Hr as [-> ?]. by destruct m.
  - split; [done|]. split; [done|]. destruct b.
    + unfold waiting; cbn. split; [rewrite Hr; solve_Permutation|].
      intros r' []; cbn; [|rewrite Hr, elem_of_cons]; naive_solver.
    + destruct Hr as [-> ?]. by destruct m.
Qed.

Lemma size_remove (X : gset request) r : r ∈ X -> Z.of_nat (size (X ∖ {[r]})) = Z.of_nat (size X) - 1.
Proof.
  intros Hr. assert (size X = S (size (X ∖ {[r]}))) as ->; [|lia].
  rewrite (union_difference_L {[r]} X) at 1 by set_solver.
  rewrite size_union by set_solver. rewrite size_singleton. lia.
Qed.

Lemma NoDup_app_perm {A} (l k1 k2 : list A) : k1 ≡ₚ k2 -> NoDup (l ++ k1) -> NoDup (l ++ k2).
Proof. intros Hk. by rewrite Hk. Qed.

Ltac split_caller r' r := destruct (decide (r' = r)) as [->|?];
  [rewrite ?lookup_insert_eq|rewrite ?lookup_insert_ne by done].

Lemma acquire_pre limit s req phase : slots_inv limit s -> callers s !! req = None ->
  pre_inv limit (enqueueLocked (manager s) phase req) (<[req := Waiting phase]> (callers s)) (closed s) (holders s).
Proof.
  intros [Hmax Hcount Hlimit Hfull Hnd Hhs Hkn Hq Hwt Hhd] Hreq.
  destruct (enqueue_fields (manager s) phase req) as [Hm Ha].
  assert (req ∉ closed s) as Hnc by (intros Hc; apply Hkn in Hc as [? ?]; congruence).
  constructor; rewrite ?Hm, ?Ha; [done..| | | | | |].
  - eapply NoDup_app_perm; [symmetry; apply enqueue_waiting|]. rewrite <- Permutation_middle.
    apply NoDup_cons. split; [|done]. intros [?|[p Hp]%elem_of_waiting]%elem_of_app; [done|].
    apply Hq in Hp. congruence.
  - done.
  - intros r Hr. split_caller r req; [by eexists|by apply Hkn].
  - intros r p [Hr|[-> ->]]%enqueue_queue; [|by rewrite lookup_insert_eq].
    split_caller r req; [|by apply Hq]. apply Hq in Hr. congruence.
  - intros r p. rewrite enqueue_queue. split_caller r req; [naive_solver|]. intros Hr%Hwt. tauto.
  - intros r. split_caller r req; [done|]. apply Hhd.
Qed.

Lemma cancel_pre limit s req phase m' : slots_inv limit s -> callers s !! req = Some (Waiting phase) ->
  removeLocked (manager s) phase req = (m', true) ->
  pre_inv limit m' (<[req := Cancelled]> (callers s)) (closed s) (holders s).
Proof.
  intros [Hmax Hcount Hlimit Hfull Hnd Hhs Hkn Hq Hwt Hhd] Hreq (Hm & Ha & Hw & Hqm)%removeLocked_spec.
  assert (NoDup (req :: closed s ++ waiting m')) as [Hn Hnd']%NoDup_cons.
  { rewrite Permutation_middle. by eapply NoDup_app_perm. }
  rewrite elem_of_app, elem_of_waiting in Hn.
  constructor; rewrite ?Hm, ?Ha; [done..| | | |].
  - intros r Hr. split_caller r req; [by eexists|by apply Hkn].
  - intros r p Hr. split_caller r req; [destruct Hn; right; by exists p|]. apply Hq, Hqm. by left.
  - intros r p. split_caller r req; [done|]. intros Hr%Hwt. destruct Hr as [Hr|?]; [|tauto].
    apply Hqm in Hr as [?|[_ ?]]; [tauto|done].
  - intros r. split_caller r req; [done|]. apply Hhd.
Qed.

Lemma release_pre limit s req : slots_inv limit s -> callers s !! req = Some Holding ->
  let m := manager s in
  pre_inv limit {| max := max m; active := active m - 1; phase1Queue := phase1Queue m; backgroundQueue := backgroundQueue m |}
    (<[req := Released]> (callers s)) (closed s) (holders s ∖ {[req]}).
Proof.
  intros [Hmax Hcount Hlimit Hfull Hnd Hhs Hkn Hq Hwt Hhd] Hreq. pose proof (Hhd _ Hreq) as Hin.
  constructor; cbn [max active].
  - done.
  - rewrite size_remove by done. lia.
  - lia.
  - done.
  - set_solver.
  - intros r Hr. split_caller r req; [by eexists|by apply Hkn].
  - intros r p Hr. assert (r ∈ queue (manager s) p) as Hr' by by destruct p.
    split_caller r req; [|by apply Hq]. apply Hq in Hr'. congruence.
  - intros r p. split_caller r req; [done|]. intros [Hr|Hr]%Hwt; [left; by destruct p|right; set_solver].
  - intros r. split_caller r req; [done|]. intros Hr%Hhd. set_solver.
Qed.

Lemma slots_step_inv limit s s' : slots_inv limit s -> step s s' -> slots_inv limit s'.
Proof.
  intros Hinv Hstep. destruct Hstep as [s req phase Hc|s req phase Hc Hcl|s req phase r Hc Hr|s req phase r Hc Hr|s req r Hc Hr].
  - by apply dispatch_inv, acquire_pre.
  - destruct Hinv as [Hmax Hcount Hlimit Hfull Hnd Hhs Hkn Hq Hwt Hhd].
    assert (req ∉ waiting (manager s)) as Hnw.
    { intros Hw. apply NoDup_app in Hnd as (_ & Hd & _). by apply (Hd req). }
    constructor; cbn; [done..| | | |].
    + intros r Hr. split_caller r req; [by eexists|by apply Hkn].
    + intros r p Hr. split_caller r req; [|by apply Hq]. destruct Hnw. apply elem_of_waiting. by exists p.
    + intros r p. split_caller r req; [done|]. apply Hwt.
    + intros r. split_caller r req; [|apply Hhd]. intros _.
      destruct (Hwt req phase Hc) as [Hin|?]; [|done]. destruct Hnw. apply elem_of_waiting. by exists phase.
  - unfold cancelQueuedRequest in Hr. destruct (removeLocked _ _ _) as [m' []] eqn:Hm; [|done].
    injection Hr as <-. apply dispatch_inv. by eapply cancel_pre.
  - unfold cancelQueuedRequest in Hr. destruct (removeLocked _ _ _) as [m' []] eqn:Hm; [done|].
    injection Hr as <-. apply removeLocked_spec in Hm as (_ & _ & -> & Hn).
    destruct Hinv as [Hmax Hcount Hlimit Hfull Hnd Hhs Hkn Hq Hwt Hhd].
    constructor; cbn; rewrite ?app_nil_r, ?union_empty_l_L; try done.
    + intros r Hr. split_caller r req; [by eexists|by apply Hkn].
    + intros r p Hr. split_caller r req; [|by apply Hq]. apply Hq in Hr as Hr'. rewrite Hc in Hr'. by injection Hr' as ->.
    + intros r p. split_caller r req; [done|]. apply Hwt.
    + intros r. split_caller r req; [|apply Hhd]. intros _. by destruct (Hwt req phase Hc).
  - unfold Release in Hr. case_match; [done|]. injection Hr as <-. by apply dispatch_inv, release_pre.
Qed.

Lemma slots_reachable_inv limit s : reachable limit s -> slots_inv limit s.
Proof.
  unfold reachable. revert s. apply rtc_ind_r; [|intros x y _ ? ?; by eapply slots_step_inv].
  constructor; cbn; rewrite ?size_empty; try done; try lia; try set_solver; try by constructor.
  intros r []; set_solver.
Qed.

(** C3: in every reachable state at most [limit] callers hold a transfer slot, the counter
    [active] is exactly their number, no [ready] channel is closed twice, and a caller whose
    [Acquire] succeeded, also when its cancellation came too late, can release its slot. *)
Theorem slots_never_exceeded limit s : reachable limit s ->
  Z.of_nat (size (holders s)) <= Z.max 0 limit /\ active (manager s) = Z.of_nat (size (holders s)) /\
  NoDup (closed s) /\
  forall r, callers s !! r = Some Holding -> r ∈ holders s /\ is_Some (Release (manager s)).
Proof.
  intros [Hmax Hcount Hlimit Hfull Hnd Hhs Hkn Hq Hwt Hhd]%slots_reachable_inv.
  split; [lia|]. split; [done|]. split; [by apply NoDup_app in Hnd as [? _]|].
  intros r Hr%Hhd. split; [done|]. unfold Release. destruct (Z.eqb_spec (active (manager s)) 0) as [H0|]; [|by eexists].
  assert (size (holders s) = 0%nat) as Hs by lia. apply size_empty_inv in Hs. set_solver.
Qed.

(** No slot is lost: a caller that is still waiting has been granted a slot, or all
    slots are taken. *)
Theorem waiting_means_full limit s r p : reachable limit s -> callers s !! r = Some (Waiting p) ->
  r ∈ closed s \/ (r ∈ queue (manager s) p /\ limit <= active (manager s)).
Proof.
  intros [Hmax Hcount Hlimit Hfull Hnd Hhs Hkn Hq Hwt Hhd]%slots_reachable_inv Hr.
  destruct (Hwt r p Hr) as [Hin|Hin]; [right|left; by apply Hhs]. split; [done|]. apply Hfull.
  intros Hnil. assert (r ∈ waiting (manager s)) as Hw by (apply elem_of_waiting; by exists p).
  rewrite Hnil in Hw. set_solver.
Qed.

Definition two_waiting : system :=
  let s1 := after (init 1) (acquire_enqueue (newTransferSlotManager 1) backgroundTransferPhase 0%nat)
              {[0%nat := Waiting backgroundTransferPhase]} ∅ in
  after s1 (acquire_enqueue (manager s1) phase1TransferPhase 1%nat)
    (<[1%nat := Waiting phase1TransferPhase]> (callers s1)) (holders s1).

Lemma two_waiting_reachable : reachable 1 two_waiting.
Proof.
  eapply rtc_l; [by apply (acquire (init 1) 0%nat backgroundTransferPhase)|].
  apply rtc_once. by apply acquire.
Qed.

Lemma slots_never_exceeded_witness :
  Z.of_nat (size (holders two_waiting)) <= Z.max 0 1 /\ active (manager two_waiting) = Z.of_nat (size (holders two_waiting)) /\
  NoDup (closed two_waiting) /\
  forall r, callers two_waiting !! r = Some Holding -> r ∈ holders two_waiting /\ is_Some (Release (manager two_waiting)).
Proof. apply (slots_never_exceeded 1 two_waiting), two_waiting_reachable. Defined.

Lemma waiting_means_full_witness :
  1%nat ∈ closed two_waiting \/ (1%nat ∈ queue (manager two_waiting) phase1TransferPhase /\ 1 <= active (manager two_waiting)).
Proof. apply (waiting_means_full 1 two_waiting 1%nat); [apply two_waiting_reachable|reflexivity]. Defined.
