(* ===== verification/TransferProgress.v ===== *)
(** * Performix: the progress of transfers

    Models [core/apap-engine/recipe/transfer_logging.go]: the trackers that add up the sizes and
    the received bytes of the transfers of a phase, and decide when a progress report is
    shown. *)

From S2P Require Import Prelude.
From S2P Require Import TransferSlots.

Local Open Scope Z_scope.

(** Durations and times are in nanoseconds. *)
Definition ClientFileStreamUpdateInterval : Z := 250000000.
Definition LogFileStreamUpdateInterval : Z := 5000000000.

(** ** The log of one transfer *)

Record SpecificTransferTracker := { sp_transferred : Z; sp_fileSize : Z; sp_lastUpdate : Z }.

Definition NewSpecificTransferTracker (fileSize now : Z) : SpecificTransferTracker :=
  {| sp_transferred := 0; sp_fileSize := fileSize; sp_lastUpdate := now |}.

(** With the message that is logged, if any: the bytes received and the size. *)
Definition specific_Progress (received now : Z) (s : SpecificTransferTracker) : SpecificTransferTracker * option (Z * Z) :=
  let t := wrap_int64 (sp_transferred s + received) in
  if now - sp_lastUpdate s >=? LogFileStreamUpdateInterval
  then ({| sp_transferred := t; sp_fileSize := sp_fileSize s; sp_lastUpdate := now |}, Some (t, sp_fileSize s))
  else ({| sp_transferred := t; sp_fileSize := sp_fileSize s; sp_lastUpdate := sp_lastUpdate s |}, None).

(** ** The tracker of a phase *)

(** [lastUpdate] is [None] for the zero time. *)
Record StageProgressTracker := {
  count : Z;
  goalCount : Z;
  transferred : Z;
  totalBytes : Z;
  lastUpdate : option Z
}.

Definition new_tracker : StageProgressTracker :=
  {| count := 0; goalCount := 0; transferred := 0; totalBytes := 0; lastUpdate := None |}.

Definition SetGoalCount (c : Z) (s : StageProgressTracker) : StageProgressTracker :=
  if negb (goalCount s =? 0) then s
  else {| count := count s; goalCount := c; transferred := transferred s; totalBytes := totalBytes s; lastUpdate := lastUpdate s |}.

(** What a report says: the bytes received and the total. *)
Definition snapshotForReportLocked (now : Z) (s : StageProgressTracker) : StageProgressTracker * option (Z * Z) :=
  ({| count := count s; goalCount := goalCount s; transferred := transferred s; totalBytes := totalBytes s; lastUpdate := Some now |},
   Some (transferred s, totalBytes s)).

(** All sizes are known. *)
Definition ready (s : StageProgressTracker) : bool := negb ((goalCount s =? 0) || negb (count s =? goalCount s)).

Definition reportCurrent (now : Z) (s : StageProgressTracker) : StageProgressTracker * option (Z * Z) :=
  if ready s then snapshotForReportLocked now s else (s, None).

Definition AddBytesToTotal (bytes now : Z) (s : StageProgressTracker) : StageProgressTracker * option (Z * Z) :=
  if negb (goalCount s =? 0) && (count s =? goalCount s) then (s, None)
  else
    let s' := {| count := count s + 1; goalCount := goalCount s; transferred := transferred s;
                 totalBytes := wrap_int64 (totalBytes s + bytes); lastUpdate := lastUpdate s |} in
    if (count s' =? goalCount s') && (transferred s' >? 0) then reportCurrent now s' else (s', None).

Definition Progress (received now : Z) (s : StageProgressTracker) : StageProgressTracker * option (Z * Z) :=
  let newTransferred := wrap_int64 (transferred s + received) in
  let s' := {| count := count s; goalCount := goalCount s; transferred := newTransferred;
               totalBytes := totalBytes s; lastUpdate := lastUpdate s |} in
  if negb (ready s') then (s', None)
  else
    let update := match lastUpdate s' with
                  | None => true
                  | Some last => ((newTransferred >=? 0) && (newTransferred >=? totalBytes s')) ||
                                 (now - last >=? ClientFileStreamUpdateInterval)
                  end in
    if update then snapshotForReportLocked now s' else (s', None).

(** ** The trackers of both phases *)

Record multiPhaseProgressTracker := {
  phase1 : StageProgressTracker;
  background : StageProgressTracker;
  active_phase : transferPhase
}.

Definition newMultiPhaseProgressTracker : multiPhaseProgressTracker :=
  {| phase1 := new_tracker; background := new_tracker; active_phase := phase1TransferPhase |}.

Definition GetFromPhase (t : multiPhaseProgressTracker) (p : transferPhase) : StageProgressTracker :=
  match p with backgroundTransferPhase => background t | phase1TransferPhase => phase1 t end.

Definition set_phase (t : multiPhaseProgressTracker) (p : transferPhase) (s : StageProgressTracker) : multiPhaseProgressTracker :=
  match p with
  | backgroundTransferPhase => {| phase1 := phase1 t; background := s; active_phase := active_phase t |}
  | phase1TransferPhase => {| phase1 := s; background := background t; active_phase := active_phase t |}
  end.

(** A report that reaches the notifier: the phase, the bytes received and the total. *)
Definition report := (transferPhase * (Z * Z))%type.

Definition reportIfActive (t : multiPhaseProgressTracker) (p : transferPhase) (r : option (Z * Z)) : list report :=
  match r with Some r => if bool_decide (active_phase t = p) then [(p, r)] else [] | None => [] end.

(** An operation of the tracker of a phase, with its report. *)
Definition in_phase (p : transferPhase) (op : StageProgressTracker -> StageProgressTracker * option (Z * Z))
    (t : multiPhaseProgressTracker) : multiPhaseProgressTracker * list report :=
  let '(s, r) := op (GetFromPhase t p) in (set_phase t p s, reportIfActive t p r).

Definition SetGoalCounts (phase1Count backgroundCount now : Z) (t : multiPhaseProgressTracker)
    : multiPhaseProgressTracker * list report :=
  in_phase phase1TransferPhase (reportCurrent now)
    {| phase1 := SetGoalCount phase1Count (phase1 t); background := SetGoalCount backgroundCount (background t);
       active_phase := active_phase t |}.

Definition SetBackground (now : Z) (t : multiPhaseProgressTracker) : multiPhaseProgressTracker * list report :=
  in_phase backgroundTransferPhase (reportCurrent now)
    {| phase1 := phase1 t; background := background t; active_phase := backgroundTransferPhase |}.

(** ** The calls of a transfer manager *)

Inductive call :=
| CallGoals (phase1Count backgroundCount : Z)
| CallAdd (p : transferPhase) (bytes : Z)
| CallProgress (p : transferPhase) (received : Z)
| CallBackground.

Definition run_call (t : multiPhaseProgressTracker) (c : call * Z) : multiPhaseProgressTracker * list report :=
  let '(c, now) := c in
  match c with
  | CallGoals c1 c2 => SetGoalCounts c1 c2 now t
  | CallAdd p bytes => in_phase p (AddBytesToTotal bytes now) t
  | CallProgress p received => in_phase p (Progress received now) t
  | CallBackground => SetBackground now t
  end.

Fixpoint run_calls (t : multiPhaseProgressTracker) (cs : list (call * Z)) : multiPhaseProgressTracker * list report :=
  match cs with
  | [] => (t, [])
  | c :: rest => let '(t', rs) := run_call t c in let '(t'', rs') := run_calls t' rest in (t'', rs ++ rs')
  end.

Example small_files :
  let cs := [(CallAdd backgroundTransferPhase 10, 0); (CallProgress backgroundTransferPhase 10, 1); (CallAdd phase1TransferPhase 7, 2);
             (CallGoals 2 1, 3); (CallProgress phase1TransferPhase 7, 4); (CallAdd phase1TransferPhase 5, 5);
             (CallProgress phase1TransferPhase 2, 6); (CallProgress phase1TransferPhase 3, 7); (CallBackground, 8)] in
  (run_calls newMultiPhaseProgressTracker cs).2 =
  [(phase1TransferPhase, (7, 12)); (phase1TransferPhase, (12, 12)); (backgroundTransferPhase, (10, 10))].
Proof. vm_compute. reflexivity. Qed.

(** ** What the reports say *)

Lemma GetFromPhase_set t p q s : GetFromPhase (set_phase t p s) q = if decide (q = p) then s else GetFromPhase t q.
Proof. by destruct p, q. Qed.

Lemma active_phase_set t p s : active_phase (set_phase t p s) = active_phase t.
Proof. by destruct p. Qed.

Lemma ready_spec s : ready s = true <-> goalCount s <> 0 /\ count s = goalCount s.
Proof. unfold ready. destruct (Z.eqb_spec (goalCount s) 0), (Z.eqb_spec (count s) (goalCount s)); cbn; naive_solver. Qed.

(** The three operations of a tracker. *)
Inductive tracker_op : (StageProgressTracker -> StageProgressTracker * option (Z * Z)) -> Prop :=
| op_current now : tracker_op (reportCurrent now)
| op_add bytes now : tracker_op (AddBytesToTotal bytes now)
| op_progress received now : tracker_op (Progress received now).

(** A tracker that knows all sizes keeps its total, and only such a tracker reports. *)
Lemma tracker_op_spec op s : tracker_op op ->
  goalCount (op s).1 = goalCount s /\
  (ready s = true -> ready (op s).1 = true /\ totalBytes (op s).1 = totalBytes s) /\
  forall r, (op s).2 = Some r -> ready (op s).1 = true /\ r = (transferred (op s).1, totalBytes (op s).1).
Proof.
  intros []; cbn.
  - unfold reportCurrent. destruct (ready s) eqn:Hr; cbn; [|done]. split; [done|]. split; [done|]. by intros r [= <-].
  - unfold AddBytesToTotal. destruct (negb (goalCount s =? 0) && (count s =? goalCount s)) eqn:Hr; [done|].
    assert (ready s = false) as Hnr.
    { apply not_true_iff_false. rewrite ready_spec. intros [Hg Hc]. rewrite Hc, Z.eqb_refl in Hr. by destruct (Z.eqb_spec (goalCount s) 0). }
    rewrite Hnr. cbn zeta. unfold reportCurrent.
    match goal with |- context [if ?b && ?c then _ else _] => destruct (b && c) end;
      [match goal with |- context [if ready ?x then _ else _] => destruct (ready x) eqn:Hr' end|];
      cbn [fst snd goalCount]; (split; [done|split; [done|]]); try done. intros r [= <-]. done.
  - unfold Progress. cbn zeta.
    match goal with |- context [negb (ready ?x)] => destruct (ready x) eqn:Hr end; cbn [negb];
      [|split; [done|split; [|done]]; unfold ready in *; cbn in *; congruence].
    match goal with |- context [if ?b then snapshotForReportLocked _ _ else _] => destruct b end; cbn; (split; [done|split; [done|]]); try done; by intros r [= <-].
Qed.

(** A call is the operation of one phase, after a change of goals or of the active phase. *)
Lemma run_call_op t c : exists t0 p op, tracker_op op /\ run_call t c = in_phase p op t0 /\
  (match c.1 with
   | CallGoals c1 c2 => t0 = {| phase1 := SetGoalCount c1 (phase1 t); background := SetGoalCount c2 (background t);
                                active_phase := active_phase t |}
   | CallBackground => t0 = {| phase1 := phase1 t; background := background t; active_phase := backgroundTransferPhase |} /\
                       p = backgroundTransferPhase
   | _ => t0 = t
   end).
Proof. destruct c as [[] now]; cbn; eexists _, _, _; (split; [|split; [reflexivity|done]]); constructor. Qed.

Lemma SetGoalCount_ready c s : ready s = true -> SetGoalCount c s = s.
Proof. intros [Hg _]%ready_spec. unfold SetGoalCount. by destruct (Z.eqb_spec (goalCount s) 0). Qed.

Lemma in_phase_report t p op q r : In (q, r) (in_phase p op t).2 -> tracker_op op ->
  q = p /\ active_phase t = p /\ let s := GetFromPhase (in_phase p op t).1 p in ready s = true /\ r = (transferred s, totalBytes s).
Proof.
  unfold in_phase. destruct (op (GetFromPhase t p)) as [s o] eqn:Ho. cbn [fst snd]. rewrite GetFromPhase_set, decide_True by done.
  intros Hin Hop. destruct (tracker_op_spec op (GetFromPhase t p) Hop) as (_ & _ & Hr). rewrite Ho in Hr. cbn in Hr.
  unfold reportIfActive in Hin.
  destruct o as [r'|]; [|done]. case_bool_decide; [|done]. destruct Hin as [[= <- <-]|[]]. split; [done|]. split; [done|]. by apply Hr.
Qed.

Lemma run_call_frozen t c p : ready (GetFromPhase t p) = true ->
  ready (GetFromPhase (run_call t c).1 p) = true /\ totalBytes (GetFromPhase (run_call t c).1 p) = totalBytes (GetFromPhase t p).
Proof.
  intros Hr. destruct (run_call_op t c) as (t0 & q & op & Hop & -> & Ht0).
  assert (GetFromPhase t0 p = GetFromPhase t p) as Hg.
  { destruct c as [[] now]; cbn in Ht0; [|by subst t0..|destruct Ht0 as [-> _]; by destruct p].
    subst t0. destruct p; cbn in *; by apply SetGoalCount_ready. }
  unfold in_phase. destruct (op (GetFromPhase t0 q)) as [s o] eqn:Ho. cbn [fst]. rewrite GetFromPhase_set.
  case_decide; [subst q|by rewrite Hg]. destruct (tracker_op_spec op (GetFromPhase t0 p) Hop) as (_ & Hf & _).
  rewrite Ho, Hg in Hf. by apply Hf.
Qed.

Lemma run_calls_frozen cs p : forall t, ready (GetFromPhase t p) = true ->
  ready (GetFromPhase (run_calls t cs).1 p) = true /\ totalBytes (GetFromPhase (run_calls t cs).1 p) = totalBytes (GetFromPhase t p).
Proof.
  induction cs as [|c cs IH]; intros t Hr; [done|]. cbn [run_calls].
  destruct (run_call_frozen t c p Hr) as [Hr' Ht]. destruct (run_call t c) as [t' rs]. cbn in *.
  destruct (IH t' Hr') as [? Ht']. destruct (run_calls t' cs). cbn in *. split; [done|congruence].
Qed.

(** A progress bar is determinate: whatever the order of calls, every report of a phase
    is made after all its sizes are known, and states the total that the phase has in the
    end. *)
Theorem reports_are_determinate t cs p received total :
  In (p, (received, total)) (run_calls t cs).2 ->
  let s := GetFromPhase (run_calls t cs).1 p in
  goalCount s <> 0 /\ count s = goalCount s /\ total = totalBytes s.
Proof.
  revert t. induction cs as [|c cs IH]; intros t; [done|]. cbn [run_calls].
  destruct (run_call t c) as [t' rs] eqn:Hc. specialize (IH t').
  pose proof (run_calls_frozen cs p t') as Hf. destruct (run_calls t' cs) as [t'' rs']. cbn [fst snd] in *.
  intros [Hin|Hin]%in_app_or; [|by apply IH].
  destruct (run_call_op t c) as (t0 & q & op & Hop & Hrun & _). rewrite Hc in Hrun.
  assert (In (p, (received, total)) (in_phase q op t0).2) as Hin' by (by rewrite <- Hrun).
  destruct (in_phase_report _ _ _ _ _ Hin' Hop) as (-> & _ & Hs). rewrite <- Hrun in Hs. cbn in Hs. destruct Hs as [Hr [= -> ->]].
  destruct (Hf Hr) as [Hr' Ht]. apply ready_spec in Hr' as [? ?]. done.
Qed.

(** Nothing is missing from the last report of a phase whose bytes have arrived. *)
Definition caught_up (t : multiPhaseProgressTracker) (rs : list report) : Prop :=
  let p := active_phase t in
  let s := GetFromPhase t p in
  ready s = true -> 0 < transferred s -> totalBytes s <= transferred s ->
  last (filter (fun r => r.1 = p) rs) = Some (p, (transferred s, totalBytes s)).

Lemma last_filter_app (p : transferPhase) (rs rs' : list report) :
  last (filter (fun r => r.1 = p) (rs ++ rs')) =
  match last (filter (fun r => r.1 = p) rs') with Some r => Some r | None => last (filter (fun r => r.1 = p) rs) end.
Proof. rewrite filter_app. apply last_app. Qed.

(** An operation that leaves a complete tracker reports it, or does not change it. *)
Lemma tracker_op_complete op s : tracker_op op -> let s' := (op s).1 in
  ready s' = true -> 0 < transferred s' -> totalBytes s' <= transferred s' ->
  (op s).2 = Some (transferred s', totalBytes s') \/ s' = s.
Proof.
  intros []; cbn.
  - unfold reportCurrent. destruct (ready s) eqn:Hr; cbn; [by left|by right].
  - unfold AddBytesToTotal. destruct (negb (goalCount s =? 0) && _); [by right|]. cbn zeta.
    match goal with |- context [if ?b && ?c then _ else _] => destruct (b && c) eqn:Hc end; cbn [count goalCount transferred] in *.
    + unfold reportCurrent. match goal with |- context [if ready ?x then _ else _] => destruct (ready x) eqn:Hr end; [by left|].
      cbn [fst]. congruence.
    + intros [_ Hcount]%ready_spec Hpos. cbn in *. rewrite Hcount, Z.eqb_refl in Hc. apply Z.gtb_lt in Hpos. cbn in Hc. congruence.
  - unfold Progress. cbn zeta. match goal with |- context [negb (ready ?x)] => destruct (ready x) eqn:Hr end; cbn [negb];
      [|cbn [fst]; congruence].
    unfold snapshotForReportLocked. cbn [lastUpdate totalBytes transferred].
    destruct (lastUpdate s) as [last|]; [|by left].
    match goal with |- context [if ?b then _ else _] => destruct b eqn:Hu end; cbn [fst snd transferred totalBytes]; [by left|]. intros _ Hpos Hle.
    apply orb_false_iff in Hu as [Hu _]. apply andb_false_iff in Hu as [Hu|Hu]; rewrite Z.geb_leb in Hu; apply Z.leb_gt in Hu; lia.
Qed.

(** The report of an operation on the active phase. *)
Lemma reportIfActive_filter t p (o : option (Z * Z)) :
  filter (fun r => r.1 = active_phase t) (reportIfActive t p o) =
  match o with Some r => if decide (active_phase t = p) then [(p, r)] else [] | None => [] end.
Proof.
  unfold reportIfActive. destruct o as [r|]; [|done]. rewrite decide_bool_decide.
  case_bool_decide; [|done]. by rewrite filter_cons_True.
Qed.

Lemma in_phase_caught_up t p op rs : tracker_op op -> caught_up t rs ->
  caught_up (in_phase p op t).1 (rs ++ (in_phase p op t).2).
Proof.
  unfold caught_up, in_phase. intros Hop Hc. pose proof (tracker_op_complete op (GetFromPhase t p) Hop) as Ho.
  pose proof (tracker_op_spec op (GetFromPhase t p) Hop) as (_ & _ & Hs).
  destruct (op (GetFromPhase t p)) as [s o]. cbn [fst snd] in *. rewrite active_phase_set, GetFromPhase_set, last_filter_app, reportIfActive_filter.
  case_decide as Hp; [rewrite Hp in *|].
  - intros Hr Hpos Hle. destruct o as [r|]; [cbn; by destruct (Hs r eq_refl) as [_ ->]|].
    destruct (Ho Hr Hpos Hle) as [?|Heq]; [done|]. rewrite Heq in *. by apply Hc.
  - destruct o; exact Hc.
Qed.

(** Showing the current state of the active phase catches up. *)
Lemma reportCurrent_caught_up t now rs :
  caught_up (in_phase (active_phase t) (reportCurrent now) t).1 (rs ++ (in_phase (active_phase t) (reportCurrent now) t).2).
Proof.
  unfold caught_up, in_phase. destruct (reportCurrent now (GetFromPhase t (active_phase t))) as [s o] eqn:Ho. cbn [fst snd].
  rewrite active_phase_set, GetFromPhase_set, decide_True by done. unfold reportCurrent in Ho.
  destruct (ready (GetFromPhase t (active_phase t))) eqn:Hr; injection Ho as <- <-; [|congruence].
  intros _ _ _. rewrite last_filter_app, reportIfActive_filter. by rewrite decide_True.
Qed.

Definition is_goals (c : call * Z) : bool := match c.1 with CallGoals _ _ => true | _ => false end.
Definition is_background (c : call * Z) : bool := match c.1 with CallBackground => true | _ => false end.

Lemma run_call_caught_up t c rs : is_goals c = false -> caught_up t rs -> caught_up (run_call t c).1 (rs ++ (run_call t c).2).
Proof.
  destruct c as [[] now]; cbn; intros Hg Hc; [done|apply in_phase_caught_up; [constructor|done]..|].
  apply (reportCurrent_caught_up {| phase1 := phase1 t; background := background t; active_phase := backgroundTransferPhase |}).
Qed.

Lemma run_calls_caught_up cs : forall t rs, Forall (fun c => is_goals c = false) cs -> caught_up t rs ->
  caught_up (run_calls t cs).1 (rs ++ (run_calls t cs).2).
Proof.
  induction cs as [|c cs IH]; intros t rs Hg Hc; [by rewrite app_nil_r|]. cbn [run_calls].
  apply Forall_cons in Hg as [Hg Hgs]. pose proof (run_call_caught_up t c rs Hg Hc) as Hc'. destruct (run_call t c) as [t' rs1].
  specialize (IH t' _ Hgs Hc'). destruct (run_calls t' cs) as [t'' rs2]. cbn [fst snd] in *. by rewrite app_assoc.
Qed.

Lemma run_calls_app cs1 cs2 t : run_calls t (cs1 ++ cs2) =
  ((run_calls (run_calls t cs1).1 cs2).1, (run_calls t cs1).2 ++ (run_calls (run_calls t cs1).1 cs2).2).
Proof.
  revert t. induction cs1 as [|c cs1 IH]; intros t; cbn [run_calls app fst snd]; [by destruct (run_calls t cs2)|].
  destruct (run_call t c) as [t' rs]. rewrite IH. destruct (run_calls t' cs1) as [t1 rs1]. cbn [fst snd].
  destruct (run_calls t1 cs2). cbn. by rewrite app_assoc.
Qed.

Lemma in_phase_active p op t : active_phase (in_phase p op t).1 = active_phase t.
Proof. unfold in_phase. destruct (op (GetFromPhase t p)). apply active_phase_set. Qed.

Lemma run_calls_active cs : forall t, Forall (fun c => is_background c = false) cs -> active_phase (run_calls t cs).1 = active_phase t.
Proof.
  induction cs as [|c cs IH]; intros t Hb; [done|]. apply Forall_cons in Hb as [Hb Hbs]. cbn [run_calls].
  assert (active_phase (run_call t c).1 = active_phase t) as Ha.
  { destruct c as [[] now]; cbn in *; [|by apply in_phase_active..|done]. unfold SetGoalCounts. by rewrite in_phase_active. }
  destruct (run_call t c) as [t' rs]. specialize (IH t' Hbs). destruct (run_calls t' cs). cbn in *. congruence.
Qed.

(** No progress is lost: when the numbers of transfers are set once, before the
    background phase is shown, then however sizes and bytes arrive, also when they arrive
    before the phase is shown, the last report of the shown phase, once all its bytes have
    arrived, says exactly that. *)
Theorem last_report_is_complete before now1 c1 c2 after :
  Forall (fun c => is_goals c = false /\ is_background c = false) before ->
  Forall (fun c => is_goals c = false) after ->
  let '(t, rs) := run_calls newMultiPhaseProgressTracker (before ++ (CallGoals c1 c2, now1) :: after) in
  let p := active_phase t in
  let s := GetFromPhase t p in
  goalCount s <> 0 -> count s = goalCount s -> 0 < transferred s -> totalBytes s <= transferred s ->
  last (filter (fun r => r.1 = p) rs) = Some (p, (transferred s, totalBytes s)).
Proof.
  intros Hb Ha. rewrite run_calls_app. destruct (run_calls newMultiPhaseProgressTracker before) as [t1 rs1] eqn:Ht1.
  assert (active_phase t1 = phase1TransferPhase) as Hact.
  { change t1 with (t1, rs1).1. rewrite <- Ht1. apply run_calls_active. eapply Forall_impl; [exact Hb|]. by intros c [_ ?]. }
  cbn [fst snd run_calls run_call]. set (t2 := {| phase1 := SetGoalCount c1 (phase1 t1); background := SetGoalCount c2 (background t1);
                                              active_phase := active_phase t1 |}).
  pose proof (reportCurrent_caught_up t2 now1 rs1) as Hc. change (active_phase t2) with (active_phase t1) in Hc. rewrite Hact in Hc.
  unfold SetGoalCounts. fold t2. destruct (in_phase phase1TransferPhase (reportCurrent now1) t2) as [t3 rs3].
  pose proof (run_calls_caught_up after t3 _ Ha Hc) as Hd. cbn [fst snd] in *. destruct (run_calls t3 after) as [t4 rs4].
  cbn [fst snd] in *. rewrite app_assoc. intros Hg Hcount. apply Hd. by apply ready_spec.
Qed.

Lemma last_report_is_complete_witness :
  last (filter (fun r => r.1 = backgroundTransferPhase)
    [(phase1TransferPhase, (7, 7)); (backgroundTransferPhase, (10, 10))]) = Some (backgroundTransferPhase, (10, 10)).
Proof.
  pose proof (last_report_is_complete
    [(CallAdd backgroundTransferPhase 10, 0); (CallProgress backgroundTransferPhase 10, 1); (CallAdd phase1TransferPhase 7, 2)]
    3 1 1 [(CallProgress phase1TransferPhase 7, 4); (CallBackground, 8)] ltac:(by repeat constructor) ltac:(by repeat constructor)) as H.
  vm_compute in H. vm_compute. by apply H.
Defined.

Lemma reports_are_determinate_witness :
  let cs := [(CallAdd phase1TransferPhase 7, 2); (CallGoals 1 0, 3); (CallProgress phase1TransferPhase 7, 4)] in
  let s := GetFromPhase (run_calls newMultiPhaseProgressTracker cs).1 phase1TransferPhase in
  goalCount s <> 0 /\ count s = goalCount s /\ 7 = totalBytes s.
Proof. intros cs. apply (reports_are_determinate newMultiPhaseProgressTracker cs phase1TransferPhase 7 7). vm_compute. auto. Defined.
