(* ===== verification/TransferManager.v ===== *)
(** * Performix: retrieving the files of a run

    Models [core/apap-engine/recipe/transfer_manager.go], with [transfer_errors.go]: the
    manager that accepts transfer requests while a recipe runs, expands them to files on
    the target, transfers the files concurrently in two phases, and flushes what is left when
    the recipe ends. The goroutines are a step relation in which one step is what a
    goroutine does between two points where it waits. Logging is left out. *)

From S2P Require Import Prelude.
From S2P Require Import GoStrings.
From S2P Require Import FilePaths.
From S2P Require Import Migrations.
From S2P Require Import Model.
From S2P Require Import TransferSlots.
From S2P Require Import RunBuilder.
From S2P Require Import TransferProgress.
From Stdlib Require Import Ascii.

Local Open Scope Z_scope.

(** ** Requests and errors *)

(** [conductor.FileTransfer] *)
Record FileTransfer := { RemotePath : string; LocalPath : string; Exclude : list string; ComponentType_of : ComponentType }.

(** [AgentSupplier] says whether there is a supplier, [completion] whether somebody waits. *)
Record TransferRequest := {
  transfer_of : FileTransfer;
  ManifestRelativePath : string;
  AgentSupplier : bool;
  ImmediateRetrieval : bool;
  BackgroundTransfer : bool;
  completion : bool
}.

(** What a supplier returns, and the files that the agent lists. *)
Inductive agent_conn := NilConn | NilClient | Conn.
Record FileInfo := { info_Path : string; IsDir : bool; info_Error : string; Size : Z }.

Inductive transfer_error :=
| NoSupplier | NoConn | NoClient
| ListFilesError (text : string) | WrongResponseCount (n : nat)
| FileMissing (text : string) | ExcludeCheckError (text : string) | RemapError (e : remap_error string)
| SlotError | ReceiveError (text : string) | ReleaseError
| PendingEntryError (text : string) | UpdateEntryError (text : string) | RemoveEntryError (text : string).

Definition transferPhaseForRequest (req : TransferRequest) : transferPhase :=
  if BackgroundTransfer req then backgroundTransferPhase else phase1TransferPhase.

(** [cdf.IsLogComponentType] *)
Definition IsLogComponentType (t : ComponentType) : bool :=
  bool_decide (type_Name t = "log-text") || bool_decide (type_Name t = "log-json").

Definition isTransferMandatory (transfer : FileTransfer) : bool := IsLogComponentType (ComponentType_of transfer).

Definition resolveTransferAgentConn (request : TransferRequest) (conn : agent_conn) : result transfer_error unit :=
  if negb (AgentSupplier request) then Err NoSupplier
  else match conn with NilConn => Err NoConn | NilClient => Err NoClient | Conn => Ok tt end.

(** The errors of each phase, by remote and local path. *)
Notation error_map := (gmap (string * string) transfer_error).
Record transferErrors := { errors_phase1 : error_map; errors_background : error_map }.

Definition newTransferErrorKey (transfer : FileTransfer) : string * string := (RemotePath transfer, LocalPath transfer).

Definition add_error (p : transferPhase) (transfer : FileTransfer) (e : transfer_error) (es : transferErrors) : transferErrors :=
  match p with
  | backgroundTransferPhase =>
      {| errors_phase1 := errors_phase1 es; errors_background := <[newTransferErrorKey transfer := e]> (errors_background es) |}
  | phase1TransferPhase =>
      {| errors_phase1 := <[newTransferErrorKey transfer := e]> (errors_phase1 es); errors_background := errors_background es |}
  end.

Definition combined (es : transferErrors) : error_map := errors_background es ∪ errors_phase1 es.

(** The messages of stages, without their metadata. *)
Inductive stage_message :=
| RetrieveFile (key : string * string) (e : transfer_error)
| RetrieveFiles (errors : list ((string * string) * transfer_error))
| UserCanceled.

Definition transferErrorMessage (runSucceeded : bool) (es : error_map) : option stage_message :=
  if runSucceeded then
    match map_to_list es with
    | [] => None
    | [(key, e)] => Some (RetrieveFile key e)
    | l => Some (RetrieveFiles l)
    end
  else None.

(** ** The state *)

(** What a call of [Listen] is doing. *)
Inductive listen_state :=
| NotStarted
| Listening                              (* in the [select] of its loop *)
| StartingImmediate                      (* in [startTransferRequest] for an immediate request *)
| Cancelling                             (* waiting for the transfers after a cancellation *)
| WaitingForBase                         (* [baseWg.Wait], after a failed run *)
| FlushingPhase1 (runSucceeded : bool)   (* the goroutines of [flushPhase1DeferredTransfers] *)
| WaitingForPhase1 (runSucceeded : bool)
| AfterPhase1 (runSucceeded : bool)
| FlushingBackground (runSucceeded : bool)
| WaitingForBackground (runSucceeded : bool)
| Returned (flushed : option (option stage_message)). (* the message for [FlushTransfers], if it was called *)

Record contexts := { cancelRequested : bool; base_cancelled : bool; mandatory_cancelled : bool }.

(** The accepted requests, by a number for each, and the deferred ones in order. *)
Record backlog := {
  requests : gmap nat TransferRequest;
  phase1TransferCount : Z;
  backgroundTransferCount : Z;
  deferredPhase1Transfers : list nat;
  deferredBackgroundTransfers : list nat
}.

(** A goroutine that starts a request: it has been created, waits for [ListFiles], or has these
    files left to start. *)
Inductive starter := Queued | Listing | Starting (rest : list FileInfo).

(** [transferRequestCompletionTracker] *)
Record completionTracker := { total : Z; completed : Z; failed : bool }.

(** The goroutine of a file: before and in [Acquire], receiving, and its deferred calls, with
    the value of [success]. *)
Inductive worker_state :=
| Spawned | Acquiring | Receiving
| Releasing (success : bool) | Completing (success : bool) | Leaving (success : bool) | LeavingBase (success : bool)
| Ended (success : bool).

Record worker := { w_request : nat; w_phase : transferPhase; w_transfer : FileTransfer; w_state : worker_state }.

Record workers := {
  starters : gmap nat starter;
  trackers : gmap nat completionTracker;
  transfers : gmap nat worker;
  slots : system;
  phase1Wg : Z;
  backgroundWg : Z;
  baseWg : Z;
  pendingBackgroundConcreteTransfers : Z
}.

(** [updates] are the manifest updates that were asked for, each for a request and with the
    error of writing it; [finished] the calls of [finishTransferRequest]; [completions] what
    waiters receive, [None] for success. *)
Record results := {
  updates : list (nat * (mutation * option string));
  finished : list (nat * bool);
  completions : gmap nat (option string);
  completedTransfers : list FileTransfer;
  rollbacks : list FileTransfer;
  transferErrors_of : transferErrors
}.

Inductive event :=
| OnStageStart (p : transferPhase)
| OnStageProgress (p : transferPhase) (received max : Z)
| OnStageEnd (p : transferPhase) (msg : option stage_message)
| OnPhase1TransferComplete (hasPendingBackgroundTransfers : bool).

Record display := { startedPhaseStages : transferPhase -> bool; progress : multiPhaseProgressTracker; trace : list event }.

Record TransferManager := {
  pc : listen_state;
  ctx : contexts;
  queue_of : backlog;
  work : workers;
  res : results;
  disp : display
}.

Definition set_pc (s : TransferManager) (x : listen_state) : TransferManager :=
  {| pc := x; ctx := ctx s; queue_of := queue_of s; work := work s; res := res s; disp := disp s |}.
Definition set_ctx (s : TransferManager) (x : contexts) : TransferManager :=
  {| pc := pc s; ctx := x; queue_of := queue_of s; work := work s; res := res s; disp := disp s |}.
Definition set_queue (s : TransferManager) (x : backlog) : TransferManager :=
  {| pc := pc s; ctx := ctx s; queue_of := x; work := work s; res := res s; disp := disp s |}.
Definition set_work (s : TransferManager) (x : workers) : TransferManager :=
  {| pc := pc s; ctx := ctx s; queue_of := queue_of s; work := x; res := res s; disp := disp s |}.
Definition set_res (s : TransferManager) (x : results) : TransferManager :=
  {| pc := pc s; ctx := ctx s; queue_of := queue_of s; work := work s; res := x; disp := disp s |}.
Definition set_disp (s : TransferManager) (x : display) : TransferManager :=
  {| pc := pc s; ctx := ctx s; queue_of := queue_of s; work := work s; res := res s; disp := x |}.

(** [NewTransferManager], with the progress trackers of [Listen]. *)
Definition NewTransferManager (maxInFlightTransfers : Z) : TransferManager :=
  {| pc := NotStarted;
     ctx := {| cancelRequested := false; base_cancelled := false; mandatory_cancelled := false |};
     queue_of := {| requests := ∅; phase1TransferCount := 0; backgroundTransferCount := 0;
                    deferredPhase1Transfers := []; deferredBackgroundTransfers := [] |};
     work := {| starters := ∅; trackers := ∅; transfers := ∅; slots := init maxInFlightTransfers;
                phase1Wg := 0; backgroundWg := 0; baseWg := 0; pendingBackgroundConcreteTransfers := 0 |};
     res := {| updates := []; finished := []; completions := ∅; completedTransfers := []; rollbacks := [];
               transferErrors_of := {| errors_phase1 := ∅; errors_background := ∅ |} |};
     disp := {| startedPhaseStages := fun _ => false; progress := newMultiPhaseProgressTracker; trace := [] |} |}.

(** ** Results *)

Definition recordTransferError (e : transfer_error) (transfer : FileTransfer) (p : transferPhase) (r : results) : results :=
  {| updates := updates r; finished := finished r; completions := completions r; completedTransfers := completedTransfers r;
     rollbacks := rollbacks r; transferErrors_of := add_error p transfer e (transferErrors_of r) |}.

Definition record_all (es : list (transfer_error * FileTransfer)) (p : transferPhase) (r : results) : results :=
  foldl (fun r et => recordTransferError et.1 et.2 p r) r es.

(** An update of the manifest by the request, recording the error of writing it. *)
Definition update_manifest (id : nat) (req : TransferRequest) (m : mutation) (to_error : string -> transfer_error)
    (werr : option string) (r : results) : results :=
  if bool_decide (ManifestRelativePath req = EmptyString) then r
  else
    let r := {| updates := updates r ++ [(id, (m, werr))]; finished := finished r; completions := completions r;
                completedTransfers := completedTransfers r; rollbacks := rollbacks r; transferErrors_of := transferErrors_of r |} in
    match werr with
    | Some t => recordTransferError (to_error t) (transfer_of req) (transferPhaseForRequest req) r
    | None => r
    end.

Definition addPendingManifestEntry (id : nat) (req : TransferRequest) (werr : option string) : results -> results :=
  update_manifest id req (MAddPending (ManifestRelativePath req) (ComponentType_of (transfer_of req))) PendingEntryError werr.

Definition finishManifestRequest (id : nat) (req : TransferRequest) (artifactComplete : bool) (werr : option string) : results -> results :=
  update_manifest id req
    (if artifactComplete then MClear (ManifestRelativePath req) else MRemove (ManifestRelativePath req)) UpdateEntryError werr.

(** [complete]: only the first call counts. *)
Definition complete (id : nat) (req : TransferRequest) (err : option string) (c : gmap nat (option string)) : gmap nat (option string) :=
  if completion req then match c !! id with Some _ => c | None => <[id := err]> c end else c.

Definition finishTransferRequest (id : nat) (req : TransferRequest) (artifactComplete : bool) (werr : option string) (r : results) : results :=
  let r := finishManifestRequest id req artifactComplete werr r in
  {| updates := updates r; finished := finished r ++ [(id, artifactComplete)];
     completions := complete id req (if artifactComplete then None
                                     else Some ("transfer did not complete: " +:+ RemotePath (transfer_of req))) (completions r);
     completedTransfers := completedTransfers r; rollbacks := rollbacks r; transferErrors_of := transferErrors_of r |}.

#[global] Arguments finishTransferRequest : simpl never.

Definition addCompletedTransfer (t : FileTransfer) (r : results) : results :=
  {| updates := updates r; finished := finished r; completions := completions r; completedTransfers := completedTransfers r ++ [t];
     rollbacks := rollbacks r; transferErrors_of := transferErrors_of r |}.

(** The loop of [flushTransfers] over the completed transfers; [rollbacks] are the files
    that are removed, as far as the file system allows. *)
Definition rollback_optional (r : results) : results :=
  {| updates := updates r; finished := finished r; completions := completions r; completedTransfers := completedTransfers r;
     rollbacks := rollbacks r ++ List.filter (fun t => negb (isTransferMandatory t)) (completedTransfers r);
     transferErrors_of := transferErrors_of r |}.

(** ** Stages and progress *)

Definition emit (d : display) (es : list event) : display :=
  {| startedPhaseStages := startedPhaseStages d; progress := progress d; trace := trace d ++ es |}.

Definition set_started (p : transferPhase) (b : bool) (f : transferPhase -> bool) : transferPhase -> bool :=
  fun q => if decide (q = p) then b else f q.

Definition startPhaseStage (p : transferPhase) (d : display) : display :=
  if startedPhaseStages d p then d
  else {| startedPhaseStages := set_started p true (startedPhaseStages d); progress := progress d; trace := trace d ++ [OnStageStart p] |}.

Definition endPhaseStage (p : transferPhase) (msg : option stage_message) (d : display) : display :=
  if negb (startedPhaseStages d p) then d
  else {| startedPhaseStages := set_started p false (startedPhaseStages d); progress := progress d; trace := trace d ++ [OnStageEnd p msg] |}.

Definition progress_event (r : report) : event := OnStageProgress r.1 r.2.1 r.2.2.

(** A call of the progress trackers, with the reports it makes. *)
Definition track (c : call) (now : Z) (d : display) : display :=
  let '(t, reports) := run_call (progress d) (c, now) in
  {| startedPhaseStages := startedPhaseStages d; progress := t; trace := trace d ++ (progress_event <$> reports) |}.

(** ** The files of a request *)

Section Manager.

(** [doublestar.Match], of the pattern and the path. *)
Context (Match : string -> string -> result string bool).

(** [os.ErrNotExist.Error()] *)
Definition not_exist_text : string := "file does not exist".

Definition resolved (transfer : FileTransfer) (remote local : string) : FileTransfer :=
  {| RemotePath := remote; LocalPath := local; Exclude := []; ComponentType_of := ComponentType_of transfer |}.

(** The outcome of the filter loop of [startTransferRequest]. *)
Record filtered := {
  filteredInfos : list FileInfo;
  transferTotalSize : Z;
  requestFailed : bool;
  filter_errors : list (transfer_error * FileTransfer)
}.

Definition filter_info (transfer : FileTransfer) (f : filtered) (info : FileInfo) : filtered :=
  let infoTransfer := resolved transfer (info_Path info) (LocalPath transfer) in
  let failing es := {| filteredInfos := filteredInfos f; transferTotalSize := transferTotalSize f; requestFailed := true;
                       filter_errors := filter_errors f ++ es |} in
  if IsDir info then f
  else if negb (bool_decide (info_Error info = EmptyString)) then
    failing (if isTransferMandatory transfer then [] else [(FileMissing (info_Error info), infoTransfer)])
  else
    match MatchesAny Match (info_Path info) (Exclude transfer) with
    | Err e => failing [(ExcludeCheckError e, infoTransfer)]
    | Ok true => f
    | Ok false => {| filteredInfos := filteredInfos f ++ [info]; transferTotalSize := wrap_int64 (transferTotalSize f + Size info);
                     requestFailed := requestFailed f; filter_errors := filter_errors f |}
    end.

Definition filter_infos (transfer : FileTransfer) (infos : list FileInfo) : filtered :=
  foldl (filter_info transfer) {| filteredInfos := []; transferTotalSize := 0; requestFailed := false; filter_errors := [] |} infos.

(** Both paths are globs and the target says that nothing matches. *)
Definition glob_without_matches (transfer : FileTransfer) (infos : list FileInfo) : bool :=
  Contains (LocalPath transfer) "*" && Contains (RemotePath transfer) "*" &&
  match infos with [info] => bool_decide (info_Error info = not_exist_text) | _ => false end.

(** ** Starting a request *)

Inductive list_response := ListError (text : string) | Responses (responses : list (list FileInfo)).

Definition set_starters (w : workers) (x : gmap nat starter) : workers :=
  {| starters := x; trackers := trackers w; transfers := transfers w; slots := slots w; phase1Wg := phase1Wg w;
     backgroundWg := backgroundWg w; baseWg := baseWg w; pendingBackgroundConcreteTransfers := pendingBackgroundConcreteTransfers w |}.
Definition set_trackers (w : workers) (x : gmap nat completionTracker) : workers :=
  {| starters := starters w; trackers := x; transfers := transfers w; slots := slots w; phase1Wg := phase1Wg w;
     backgroundWg := backgroundWg w; baseWg := baseWg w; pendingBackgroundConcreteTransfers := pendingBackgroundConcreteTransfers w |}.
Definition set_transfers (w : workers) (x : gmap nat worker) : workers :=
  {| starters := starters w; trackers := trackers w; transfers := x; slots := slots w; phase1Wg := phase1Wg w;
     backgroundWg := backgroundWg w; baseWg := baseWg w; pendingBackgroundConcreteTransfers := pendingBackgroundConcreteTransfers w |}.
Definition set_slots (w : workers) (x : system) : workers :=
  {| starters := starters w; trackers := trackers w; transfers := transfers w; slots := x; phase1Wg := phase1Wg w;
     backgroundWg := backgroundWg w; baseWg := baseWg w; pendingBackgroundConcreteTransfers := pendingBackgroundConcreteTransfers w |}.
Definition set_wgs (w : workers) (p1 bg base pending : Z) : workers :=
  {| starters := starters w; trackers := trackers w; transfers := transfers w; slots := slots w; phase1Wg := p1;
     backgroundWg := bg; baseWg := base; pendingBackgroundConcreteTransfers := pending |}.

Definition on_work (f : workers -> workers) (s : TransferManager) : TransferManager := set_work s (f (work s)).
Definition on_res (f : results -> results) (s : TransferManager) : TransferManager := set_res s (f (res s)).
Definition on_disp (f : display -> display) (s : TransferManager) : TransferManager := set_disp s (f (disp s)).

Definition put_starter (id : nat) (x : starter) : TransferManager -> TransferManager :=
  on_work (fun w => set_starters w (<[id := x]> (starters w))).
Definition drop_starter (id : nat) : TransferManager -> TransferManager :=
  on_work (fun w => set_starters w (delete id (starters w))).

(** The starter goes on with the files that are left, or ends. *)
Definition next_files (id : nat) (rest : list FileInfo) : TransferManager -> TransferManager :=
  match rest with [] => drop_starter id | _ => put_starter id (Starting rest) end.

Definition add_bytes (req : TransferRequest) (bytes now : Z) : TransferManager -> TransferManager :=
  on_disp (track (CallAdd (transferPhaseForRequest req) bytes) now).

(** The request ends before any of its files is started. *)
Definition end_request (id : nat) (req : TransferRequest) (errs : list (transfer_error * FileTransfer)) (werr : option string)
    (now : Z) (s : TransferManager) : TransferManager :=
  add_bytes req 0 now
    (on_res (fun r => finishTransferRequest id req false werr (record_all errs (transferPhaseForRequest req) r)) (drop_starter id s)).

(** [startTransferRequest] up to its call of [ListFiles]. *)
Definition begin_request (id : nat) (req : TransferRequest) (conn : agent_conn) (werr : option string) (now : Z)
    (s : TransferManager) : TransferManager :=
  match resolveTransferAgentConn req conn with
  | Err e => end_request id req [(e, transfer_of req)] werr now s
  | Ok _ => put_starter id Listing s
  end.

(** From the answer of [ListFiles] to the loop that starts the files. *)
Definition list_answered (id : nat) (req : TransferRequest) (resp : list_response) (werr : option string) (now : Z)
    (s : TransferManager) : TransferManager :=
  match resp with
  | ListError t => end_request id req [(ListFilesError t, transfer_of req)] werr now s
  | Responses [infos] =>
      if glob_without_matches (transfer_of req) infos then end_request id req [] werr now s
      else
        let f := filter_infos (transfer_of req) infos in
        let s := on_res (record_all (filter_errors f) (transferPhaseForRequest req)) s in
        let s := add_bytes req (transferTotalSize f) now s in
        let tracker := {| total := Z.of_nat (length (filteredInfos f)); completed := 0; failed := requestFailed f |} in
        let s := on_work (fun w => set_trackers w (<[id := tracker]> (trackers w))) s in
        match filteredInfos f with
        | [] => on_res (finishTransferRequest id req false werr) (drop_starter id s)
        | l => put_starter id (Starting l) s
        end
  | Responses l => end_request id req [(WrongResponseCount (length l), transfer_of req)] werr now s
  end.

(** [done] of the tracker of the request. *)
Definition tracker_done (id : nat) (req : TransferRequest) (success : bool) (werr : option string) (s : TransferManager) : TransferManager :=
  match trackers (work s) !! id with
  | None => s
  | Some c =>
      let c' := {| total := total c; completed := completed c + 1; failed := failed c || negb success |} in
      let s := on_work (fun w => set_trackers w (<[id := c']> (trackers w))) s in
      if negb (completed c' =? total c') then s
      else on_res (finishTransferRequest id req (negb (failed c')) werr) s
  end.

(** [registerPhaseTransfer] and the base wait group. *)
Definition register (p : transferPhase) (mandatory : bool) (w : workers) : workers :=
  let base := if mandatory then baseWg w else baseWg w + 1 in
  match p with
  | backgroundTransferPhase => set_wgs w (phase1Wg w) (backgroundWg w + 1) base (pendingBackgroundConcreteTransfers w + 1)
  | phase1TransferPhase => set_wgs w (phase1Wg w + 1) (backgroundWg w) base (pendingBackgroundConcreteTransfers w)
  end.

Definition finishPhaseTransfer (p : transferPhase) (w : workers) : workers :=
  match p with
  | backgroundTransferPhase => set_wgs w (phase1Wg w) (backgroundWg w - 1) (baseWg w) (pendingBackgroundConcreteTransfers w - 1)
  | phase1TransferPhase => set_wgs w (phase1Wg w - 1) (backgroundWg w) (baseWg w) (pendingBackgroundConcreteTransfers w)
  end.

Definition put_worker (wid : nat) (x : worker) (w : workers) : workers := set_transfers w (<[wid := x]> (transfers w)).

(** [startConcreteTransfer] with the goroutine [wid]. *)
Definition startConcreteTransfer (wid id : nat) (req : TransferRequest) (t : FileTransfer) : TransferManager -> TransferManager :=
  on_work (fun w => put_worker wid {| w_request := id; w_phase := transferPhaseForRequest req; w_transfer := t; w_state := Spawned |}
                      (register (transferPhaseForRequest req) (isTransferMandatory (transfer_of req)) w)).

(** One turn of the loop over the files of a request. *)
Definition start_file (wid id : nat) (req : TransferRequest) (info : FileInfo) (rest : list FileInfo) (werr : option string)
    (s : TransferManager) : TransferManager :=
  let transfer := transfer_of req in
  next_files id rest
    match RemapGlobbedPath Match (LocalPath transfer) (info_Path info) (RemotePath transfer) with
    | Err e =>
        tracker_done id req false werr
          (on_res (recordTransferError (RemapError e) (resolved transfer (info_Path info) (LocalPath transfer)) (transferPhaseForRequest req)) s)
    | Ok localPath => startConcreteTransfer wid id req (resolved transfer (info_Path info) localPath) s
    end.

(** [flushTransfer] *)
Definition flushTransfer (runSucceeded : bool) (id : nat) (req : TransferRequest) (conn : agent_conn) (werr : option string) (now : Z)
    (s : TransferManager) : TransferManager :=
  if negb runSucceeded && negb (isTransferMandatory (transfer_of req)) then
    on_res (finishTransferRequest id req false werr) (add_bytes req 0 now (drop_starter id s))
  else begin_request id req conn werr now s.

(** ** The goroutine of a file *)

Definition with_state (w : worker) (x : worker_state) : worker :=
  {| w_request := w_request w; w_phase := w_phase w; w_transfer := w_transfer w; w_state := x |}.

Definition move (wid : nat) (w : worker) (x : worker_state) : TransferManager -> TransferManager :=
  on_work (put_worker wid (with_state w x)).

(** Its context is done. *)
Definition cancelled_for (w : worker) (s : TransferManager) : bool :=
  if isTransferMandatory (w_transfer w) then mandatory_cancelled (ctx s) else base_cancelled (ctx s).

(** The slots after a critical section that left the given manager and closed channels, with
    the caller [wid] in its new state. *)
Definition slots_after (wid : nat) (st : status) (r : transferSlotManager * list TransferSlots.request) (hs : gset TransferSlots.request)
    (w : workers) : workers :=
  set_slots w (after (slots w) r (<[wid := st]> (callers (slots w))) hs).

(** [Acquire]: refused at once, or queued. *)
Definition worker_acquire (wid : nat) (w : worker) (s : TransferManager) : TransferManager :=
  if cancelled_for w s then
    move wid w (Completing false) (on_res (recordTransferError SlotError (w_transfer w) (w_phase w)) s)
  else
    move wid w Acquiring
      (on_work (fun k => slots_after wid (Waiting (w_phase w)) (acquire_enqueue (TransferSlots.manager (slots k)) (w_phase w) wid)
                           (holders (slots k)) k) s).

(** The channel of the caller is closed. *)
Definition worker_granted (wid : nat) (w : worker) (s : TransferManager) : option TransferManager :=
  if bool_decide (wid ∈ closed (slots (work s))) then
    Some (move wid w Receiving
      (on_work (fun k => set_slots k {| TransferSlots.manager := TransferSlots.manager (slots k); callers := <[wid := Holding]> (callers (slots k));
                                        closed := closed (slots k); holders := holders (slots k) |}) s))
  else None.

(** The context is done while the caller waits. *)
Definition worker_abandon (wid : nat) (w : worker) (s : TransferManager) : option TransferManager :=
  if cancelled_for w s then
    let '(r, removed) := cancelQueuedRequest (TransferSlots.manager (slots (work s))) (w_phase w) wid in
    let hs := holders (slots (work s)) in
    if removed then
      Some (move wid w (Completing false)
        (on_res (recordTransferError SlotError (w_transfer w) (w_phase w)) (on_work (slots_after wid Cancelled r hs) s)))
    else Some (move wid w Receiving (on_work (slots_after wid Holding r hs) s))
  else None.

(** [ReceiveFile] returned. *)
Definition worker_received (wid : nat) (w : worker) (err : option string) (s : TransferManager) : TransferManager :=
  match err with
  | Some t => move wid w (Releasing false) (on_res (recordTransferError (ReceiveError t) (w_transfer w) (w_phase w)) s)
  | None => move wid w (Releasing true) (on_res (addCompletedTransfer (w_transfer w)) s)
  end.

Definition worker_release (wid : nat) (w : worker) (success : bool) (s : TransferManager) : TransferManager :=
  match Release (TransferSlots.manager (slots (work s))) with
  | None => move wid w (Completing false) (on_res (recordTransferError ReleaseError (w_transfer w) (w_phase w)) s)
  | Some r => move wid w (Completing success)
                (on_work (fun k => slots_after wid Released r (holders (slots k) ∖ {[wid]}) k) s)
  end.

(** ** The loop of [Listen] *)

(** Whether [OnPhase1TransferComplete] is set. *)
Context (has_callback : bool).

Definition count_request (req : TransferRequest) (id : nat) (q : backlog) : backlog :=
  let deferred := negb (ImmediateRetrieval req) in
  {| requests := <[id := req]> (requests q);
     phase1TransferCount := if BackgroundTransfer req then phase1TransferCount q else phase1TransferCount q + 1;
     backgroundTransferCount := if BackgroundTransfer req then backgroundTransferCount q + 1 else backgroundTransferCount q;
     deferredPhase1Transfers := if deferred && negb (BackgroundTransfer req) then deferredPhase1Transfers q ++ [id] else deferredPhase1Transfers q;
     deferredBackgroundTransfers := if deferred && BackgroundTransfer req then deferredBackgroundTransfers q ++ [id]
                                    else deferredBackgroundTransfers q |}.

Definition accept (id : nat) (req : TransferRequest) (werr : option string) (s : TransferManager) : TransferManager :=
  let s := set_queue s (count_request req id (queue_of s)) in
  let s := on_res (addPendingManifestEntry id req werr) s in
  if negb (ImmediateRetrieval req) then s
  else set_pc (put_starter id Queued (on_disp (startPhaseStage (transferPhaseForRequest req)) s)) StartingImmediate.

(** An answer to a request that is not accepted. *)
Definition refuse (id : nat) (req : TransferRequest) (text : string) (s : TransferManager) : TransferManager :=
  on_res (fun r => {| updates := updates r; finished := finished r; completions := complete id req (Some text) (completions r);
                      completedTransfers := completedTransfers r; rollbacks := rollbacks r; transferErrors_of := transferErrors_of r |}) s.

(** The channel [listeningDone] is closed. *)
Definition listening_done (x : listen_state) : bool :=
  match x with NotStarted | Listening | StartingImmediate => false | _ => true end.

Definition spawn (ids : list nat) : TransferManager -> TransferManager :=
  on_work (fun w => set_starters w (foldr (fun id m => <[id := Queued]> m) (starters w) ids)).

Definition cancel_base (c : contexts) : contexts :=
  {| cancelRequested := cancelRequested c; base_cancelled := true; mandatory_cancelled := mandatory_cancelled c |}.
Definition cancel_all (c : contexts) : contexts :=
  {| cancelRequested := cancelRequested c; base_cancelled := true; mandatory_cancelled := true |}.

(** [Listen] returns: its deferred calls cancel both contexts. *)
Definition return_with (msg : option (option stage_message)) (s : TransferManager) : TransferManager :=
  set_pc (set_ctx s (cancel_all (ctx s))) (Returned msg).

Definition removePending (werrs : nat -> option string) (s : TransferManager) (id : nat) : TransferManager :=
  match requests (queue_of s) !! id with
  | Some req => on_res (update_manifest id req (MRemovePending (ManifestRelativePath req)) RemoveEntryError (werrs id)) s
  | None => s
  end.

Definition removeDeferredPendingManifestEntries (werrs : nat -> option string) (s : TransferManager) : TransferManager :=
  foldl (removePending werrs) s (deferredPhase1Transfers (queue_of s) ++ deferredBackgroundTransfers (queue_of s)).

Definition hasPendingBackgroundTransfers (s : TransferManager) : bool :=
  (0 <? Z.of_nat (length (deferredBackgroundTransfers (queue_of s)))) || (pendingBackgroundConcreteTransfers (work s) >? 0).

Definition shouldSkipBackgroundTransfersAfterPhase1 (runSucceeded : bool) (s : TransferManager) : bool :=
  runSucceeded && base_cancelled (ctx s).

(** Receiving a flush message, up to the first wait. *)
Definition flush_received (runSucceeded : bool) (now : Z) (s : TransferManager) : TransferManager :=
  let s := on_disp (track (CallGoals (phase1TransferCount (queue_of s)) (backgroundTransferCount (queue_of s))) now) s in
  if negb runSucceeded then set_pc (set_ctx s (cancel_base (ctx s))) WaitingForBase
  else set_pc (spawn (deferredPhase1Transfers (queue_of s)) (on_disp (startPhaseStage phase1TransferPhase) s)) (FlushingPhase1 true).

Definition base_waited (s : TransferManager) : TransferManager :=
  let s := on_res rollback_optional s in
  set_pc (spawn (deferredPhase1Transfers (queue_of s)) (on_disp (startPhaseStage phase1TransferPhase) s)) (FlushingPhase1 false).

Definition phase1_waited (runSucceeded : bool) (s : TransferManager) : TransferManager :=
  let msg := transferErrorMessage runSucceeded (errors_phase1 (transferErrors_of (res s))) in
  let s := match msg with
           | None => if runSucceeded && has_callback
                     then on_disp (fun d => emit d [OnPhase1TransferComplete (hasPendingBackgroundTransfers s)]) s else s
           | Some _ => s
           end in
  set_pc (on_disp (endPhaseStage phase1TransferPhase msg) s) (AfterPhase1 runSucceeded).

Definition after_phase1 (runSucceeded : bool) (werrs : nat -> option string) (now : Z) (s : TransferManager) : TransferManager :=
  if shouldSkipBackgroundTransfersAfterPhase1 runSucceeded s
  then set_pc (removeDeferredPendingManifestEntries werrs s) (WaitingForBackground runSucceeded)
  else
    let s := if backgroundTransferCount (queue_of s) >? 0 then on_disp (startPhaseStage backgroundTransferPhase) s else s in
    set_pc (spawn (deferredBackgroundTransfers (queue_of s)) (on_disp (track CallBackground now) s)) (FlushingBackground runSucceeded).

Definition background_waited (runSucceeded : bool) (s : TransferManager) : TransferManager :=
  let backgroundMsg := transferErrorMessage runSucceeded (errors_background (transferErrors_of (res s))) in
  let msg := transferErrorMessage runSucceeded (combined (transferErrors_of (res s))) in
  return_with (Some (if cancelRequested (ctx s) then Some UserCanceled else msg))
    (on_disp (endPhaseStage backgroundTransferPhase backgroundMsg) s).

Definition cancel_waited (werrs : nat -> option string) (s : TransferManager) : TransferManager :=
  return_with None
    (on_disp (fun d => endPhaseStage backgroundTransferPhase (Some UserCanceled) (endPhaseStage phase1TransferPhase (Some UserCanceled) d))
      (removeDeferredPendingManifestEntries werrs s)).

(** ** The steps *)

(** The steps with what the environment answers: times, agents, errors of writing. *)
Inductive label :=
| LCancel | LWatcher | LListen
| LAdd (id : nat) (req : TransferRequest) (werr : option string)
| LImmediateStarted | LFlush (runSucceeded : bool) (now : Z) | LBaseWaited
| LPhase1Started | LPhase1Waited | LAfterPhase1 (werrs : nat -> option string) (now : Z)
| LBackgroundStarted | LBackgroundWaited | LCancelSeen | LCancelWaited (werrs : nat -> option string)
| LRun (id : nat) (conn : agent_conn) (werr : option string) (now : Z)
| LListed (id : nat) (resp : list_response) (werr : option string) (now : Z)
| LFile (wid id : nat) (werr : option string)
| LAcquire (wid : nat) | LGranted (wid : nat) | LAbandon (wid : nat)
| LProgress (wid : nat) (received now : Z) | LReceived (wid : nat) (err : option string)
| LRelease (wid : nat) | LComplete (wid : nat) (werr : option string) | LLeave (wid : nat) | LLeaveBase (wid : nat).

Definition no_starters (s : TransferManager) : bool := bool_decide (starters (work s) = ∅).

(** The steps of [Listen], of its watcher, and of the callers of the manager. *)
Definition exec_listen (l : label) (s : TransferManager) : option TransferManager :=
  match l, pc s with
  | LCancel, _ => Some (set_ctx s {| cancelRequested := true; base_cancelled := base_cancelled (ctx s); mandatory_cancelled := mandatory_cancelled (ctx s) |})
  | LWatcher, (NotStarted | Returned _) => None
  | LWatcher, _ => if cancelRequested (ctx s) then Some (set_ctx s (cancel_all (ctx s))) else None
  | LListen, NotStarted => if cancelRequested (ctx s) then Some (return_with None s) else Some (set_pc s Listening)
  | LAdd id req werr, x =>
      match requests (queue_of s) !! id, completions (res s) !! id with
      | None, None =>
          match x with
          | NotStarted => Some (refuse id req "transfer manager has not started listening yet" s)
          | Listening => Some (accept id req werr s)
          | _ => if listening_done x then Some (refuse id req "transfer manager is no longer listening" s) else None
          end
      | _, _ => None
      end
  | LImmediateStarted, StartingImmediate => if no_starters s then Some (set_pc s Listening) else None
  | LCancelSeen, Listening => if cancelRequested (ctx s) then Some (set_pc s Cancelling) else None
  | LCancelWaited werrs, Cancelling =>
      if (phase1Wg (work s) =? 0) && (backgroundWg (work s) =? 0) then Some (cancel_waited werrs s) else None
  | LFlush runSucceeded now, Listening => Some (flush_received runSucceeded now s)
  | LBaseWaited, WaitingForBase => if baseWg (work s) =? 0 then Some (base_waited s) else None
  | LPhase1Started, FlushingPhase1 ok => if no_starters s then Some (set_pc s (WaitingForPhase1 ok)) else None
  | LPhase1Waited, WaitingForPhase1 ok => if phase1Wg (work s) =? 0 then Some (phase1_waited ok s) else None
  | LAfterPhase1 werrs now, AfterPhase1 ok => Some (after_phase1 ok werrs now s)
  | LBackgroundStarted, FlushingBackground ok => if no_starters s then Some (set_pc s (WaitingForBackground ok)) else None
  | LBackgroundWaited, WaitingForBackground ok => if backgroundWg (work s) =? 0 then Some (background_waited ok s) else None
  | _, _ => None
  end.

(** The steps of a goroutine that starts a request. *)
Definition exec_starter (l : label) (s : TransferManager) : option TransferManager :=
  match l with
  | LRun id conn werr now =>
      req ← requests (queue_of s) !! id;
      match starters (work s) !! id, pc s with
      | Some Queued, StartingImmediate => Some (begin_request id req conn werr now s)
      | Some Queued, (FlushingPhase1 ok | FlushingBackground ok) => Some (flushTransfer ok id req conn werr now s)
      | _, _ => None
      end
  | LListed id resp werr now =>
      req ← requests (queue_of s) !! id;
      match starters (work s) !! id with Some Listing => Some (list_answered id req resp werr now s) | _ => None end
  | LFile wid id werr =>
      req ← requests (queue_of s) !! id;
      match starters (work s) !! id, transfers (work s) !! wid with
      | Some (Starting (info :: rest)), None => Some (start_file wid id req info rest werr s)
      | _, _ => None
      end
  | _ => None
  end.

(** The steps of the goroutine of a file. *)
Definition exec_worker (l : label) (s : TransferManager) : option TransferManager :=
  let at_ wid (f : worker -> option TransferManager) := transfers (work s) !! wid ≫= f in
  match l with
  | LAcquire wid => at_ wid (fun w => match w_state w with Spawned => Some (worker_acquire wid w s) | _ => None end)
  | LGranted wid => at_ wid (fun w => match w_state w with Acquiring => worker_granted wid w s | _ => None end)
  | LAbandon wid => at_ wid (fun w => match w_state w with Acquiring => worker_abandon wid w s | _ => None end)
  | LProgress wid received now =>
      at_ wid (fun w => match w_state w with Receiving => Some (on_disp (track (CallProgress (w_phase w) received) now) s) | _ => None end)
  | LReceived wid err => at_ wid (fun w => match w_state w with Receiving => Some (worker_received wid w err s) | _ => None end)
  | LRelease wid => at_ wid (fun w => match w_state w with Releasing b => Some (worker_release wid w b s) | _ => None end)
  | LComplete wid werr =>
      at_ wid (fun w => match w_state w, requests (queue_of s) !! w_request w with
                        | Completing b, Some req => Some (move wid w (Leaving b) (tracker_done (w_request w) req b werr s))
                        | _, _ => None
                        end)
  | LLeave wid =>
      at_ wid (fun w => match w_state w with
                        | Leaving b => Some (move wid w (if isTransferMandatory (w_transfer w) then Ended b else LeavingBase b)
                                              (on_work (finishPhaseTransfer (w_phase w)) s))
                        | _ => None
                        end)
  | LLeaveBase wid =>
      at_ wid (fun w => match w_state w with
                        | LeavingBase b => Some (move wid w (Ended b)
                            (on_work (fun k => set_wgs k (phase1Wg k) (backgroundWg k) (baseWg k - 1) (pendingBackgroundConcreteTransfers k)) s))
                        | _ => None
                        end)
  | _ => None
  end.

Definition exec (l : label) (s : TransferManager) : option TransferManager :=
  match exec_listen l s with
  | Some s' => Some s'
  | None => match exec_starter l s with Some s' => Some s' | None => exec_worker l s end
  end.

Definition step (s s' : TransferManager) : Prop := exists l, exec l s = Some s'.

Definition reachable (maxInFlightTransfers : Z) : TransferManager -> Prop := rtc step (NewTransferManager maxInFlightTransfers).

Fixpoint exec_all (ls : list label) (s : TransferManager) : option TransferManager :=
  match ls with [] => Some s | l :: rest => s' ← exec l s; exec_all rest s' end.

End Manager.

(** ** Two runs *)

Definition perf_type : ComponentType := {| type_Name := "perf"; SchemaVersion := "1.0.0" |}.
Definition log_type : ComponentType := {| type_Name := "log-text"; SchemaVersion := "1.0.0" |}.

Definition sample_request (remote path : string) (t : ComponentType) (immediate background : bool) : TransferRequest :=
  {| transfer_of := {| RemotePath := "/data/" +:+ remote; LocalPath := "/run/" +:+ path; Exclude := []; ComponentType_of := t |};
     ManifestRelativePath := path; AgentSupplier := true; ImmediateRetrieval := immediate; BackgroundTransfer := background; completion := false |}.

Definition match_all (pattern path : string) : result string bool := Ok true.

Definition one_file (path : string) (size : Z) : list_response :=
  Responses [[{| info_Path := path; IsDir := false; info_Error := EmptyString; Size := size |}]].

(** The steps of a goroutine whose file arrives. *)
Definition file_arrives (wid : nat) (size : Z) : list label :=
  [LAcquire wid; LGranted wid; LProgress wid size 5; LReceived wid None; LRelease wid; LComplete wid None; LLeave wid].

Definition good_run : list label :=
  [LListen; LAdd 0 (sample_request "a" "a" perf_type true false) None; LRun 0 Conn None 1; LListed 0 (one_file "/data/a" 3) None 1;
   LFile 0 0 None; LImmediateStarted; LAdd 1 (sample_request "b" "b" perf_type false true) None] ++ file_arrives 0 3 ++
  [LFlush true 6; LPhase1Started; LPhase1Waited; LAfterPhase1 (fun _ => None) 7; LRun 1 Conn None 8;
   LListed 1 (one_file "/data/b" 4) None 8; LFile 1 1 None; LBackgroundStarted] ++ file_arrives 1 4 ++ [LBackgroundWaited].

(** A recipe that fails after one file has been retrieved: the file is removed, and the log
    is retrieved nevertheless. *)
Definition failed_run : list label :=
  [LListen; LAdd 0 (sample_request "a" "a" perf_type true false) None; LRun 0 Conn None 1; LListed 0 (one_file "/data/a" 3) None 1;
   LFile 0 0 None; LImmediateStarted; LAdd 1 (sample_request "log" "log" log_type false false) None;
   LAdd 2 (sample_request "b" "b" perf_type false false) None] ++ file_arrives 0 3 ++
  [LLeaveBase 0; LFlush false 6; LBaseWaited; LRun 2 Conn None 7; LRun 1 Conn None 7; LListed 1 (one_file "/data/log" 4) None 8;
   LFile 1 1 None; LPhase1Started] ++ file_arrives 1 4 ++
  [LPhase1Waited; LAfterPhase1 (fun _ => None) 9; LBackgroundStarted; LBackgroundWaited].

Definition run_of (ls : list label) : option TransferManager := exec_all match_all true ls (NewTransferManager 4).

Example good_run_result :
  (fun s => (pc s, finished (res s), trace (disp s))) <$> run_of good_run =
  Some (Returned (Some None), [(0%nat, true); (1%nat, true)],
    [OnStageStart phase1TransferPhase; OnStageProgress phase1TransferPhase 3 3; OnPhase1TransferComplete true;
     OnStageEnd phase1TransferPhase None; OnStageStart backgroundTransferPhase; OnStageProgress backgroundTransferPhase 4 4;
     OnStageEnd backgroundTransferPhase None]).
Proof. vm_compute. reflexivity. Qed.

Example failed_run_result :
  (fun s => (pc s, finished (res s), (fun u => u.2.1) <$> updates (res s), LocalPath <$> rollbacks (res s))) <$> run_of failed_run =
  Some (Returned (Some None), [(0%nat, true); (2%nat, false); (1%nat, true)],
    [MAddPending "a" perf_type; MAddPending "log" log_type; MAddPending "b" perf_type; MClear "a"; MRemove "b"; MClear "log"], ["/run/a"]).
Proof. vm_compute. reflexivity. Qed.
