(* ===== verification/TransferWorkers.v ===== *)
(** * Performix: the goroutines of the transfer manager

    The workers of [TransferManager]: the wait groups count them, each holds exactly the slot
    its state says, and the manager never waits forever. *)

From S2P Require Import Prelude.
From S2P Require Import FilePaths.
From S2P Require Import TransferSlots.
From S2P Require Import RunBuilder.
From S2P Require Import TransferProgress.
From S2P Require Import TransferManager.

Local Open Scope Z_scope.

(** ** What a step does to the workers *)

(** The wait groups and the counter of pending background transfers. *)
Definition wgs (k : workers) : Z * Z * Z * Z := (phase1Wg k, backgroundWg k, baseWg k, pendingBackgroundConcreteTransfers k).

Definition mandatory (w : worker) : bool := isTransferMandatory (w_transfer w).

(** A worker changes its state together with the slots. *)
Inductive slot_change (wid : nat) (p : transferPhase) : worker_state -> worker_state -> system -> system -> Prop :=
| sc_refused sl : slot_change wid p Spawned (Completing false) sl sl
| sc_queued sl :
    slot_change wid p Spawned Acquiring sl
      (after sl (acquire_enqueue (TransferSlots.manager sl) p wid) (<[wid := Waiting p]> (callers sl)) (holders sl))
| sc_granted sl : wid ∈ closed sl ->
    slot_change wid p Acquiring Receiving sl
      {| TransferSlots.manager := TransferSlots.manager sl; callers := <[wid := Holding]> (callers sl); closed := closed sl; holders := holders sl |}
| sc_cancelled sl r : cancelQueuedRequest (TransferSlots.manager sl) p wid = (r, true) ->
    slot_change wid p Acquiring (Completing false) sl (after sl r (<[wid := Cancelled]> (callers sl)) (holders sl))
| sc_cancelled_late sl r : cancelQueuedRequest (TransferSlots.manager sl) p wid = (r, false) ->
    slot_change wid p Acquiring Receiving sl (after sl r (<[wid := Holding]> (callers sl)) (holders sl))
| sc_received sl b : slot_change wid p Receiving (Releasing b) sl sl
| sc_released sl r b : Release (TransferSlots.manager sl) = Some r ->
    slot_change wid p (Releasing b) (Completing b) sl (after sl r (<[wid := Released]> (callers sl)) (holders sl ∖ {[wid]}))
| sc_release_failed sl b : Release (TransferSlots.manager sl) = None -> slot_change wid p (Releasing b) (Completing false) sl sl
| sc_completed sl b : slot_change wid p (Completing b) (Leaving b) sl sl.

Inductive work_step (k k' : workers) : Prop :=
| ws_same : transfers k' = transfers k -> slots k' = slots k -> wgs k' = wgs k -> work_step k k'
| ws_spawn wid w : transfers k !! wid = None -> w_state w = Spawned ->
    transfers k' = <[wid := w]> (transfers k) -> slots k' = slots k ->
    wgs k' = wgs (register (w_phase w) (mandatory w) k) -> work_step k k'
| ws_move wid w st : transfers k !! wid = Some w -> slot_change wid (w_phase w) (w_state w) st (slots k) (slots k') ->
    transfers k' = <[wid := with_state w st]> (transfers k) -> wgs k' = wgs k -> work_step k k'
| ws_leave wid w b : transfers k !! wid = Some w -> w_state w = Leaving b ->
    transfers k' = <[wid := with_state w (if mandatory w then Ended b else LeavingBase b)]> (transfers k) -> slots k' = slots k ->
    wgs k' = wgs (finishPhaseTransfer (w_phase w) k) -> work_step k k'
| ws_leave_base wid w b : transfers k !! wid = Some w -> w_state w = LeavingBase b ->
    transfers k' = <[wid := with_state w (Ended b)]> (transfers k) -> slots k' = slots k ->
    wgs k' = (phase1Wg k, backgroundWg k, baseWg k - 1, pendingBackgroundConcreteTransfers k) -> work_step k k'.

(** Changes of starters and trackers are none of the workers. *)
Lemma begin_request_work id req conn werr now s : let k := work (begin_request id req conn werr now s) in
  transfers k = transfers (work s) /\ slots k = slots (work s) /\ wgs k = wgs (work s).
Proof. unfold begin_request. by destruct (resolveTransferAgentConn req conn). Qed.

Section Steps.
Context (Match : string -> string -> result string bool) (has_callback : bool).

Lemma list_answered_work id req resp werr now s : let k := work (list_answered Match id req resp werr now s) in
  transfers k = transfers (work s) /\ slots k = slots (work s) /\ wgs k = wgs (work s).
Proof.
  destruct resp as [t|[|infos [|]]]; [done|done| |done]. cbn [list_answered].
  destruct (glob_without_matches _ _); [done|]. cbn zeta. by destruct (filteredInfos _).
Qed.

Lemma tracker_done_work id req b werr s : let k := work (tracker_done id req b werr s) in
  transfers k = transfers (work s) /\ slots k = slots (work s) /\ wgs k = wgs (work s) /\ starters k = starters (work s).
Proof. unfold tracker_done. destruct (trackers (work s) !! id); [|done]. cbn zeta. by destruct (negb _). Qed.

Lemma removePending_work werrs ids s : work (foldl (removePending werrs) s ids) = work s.
Proof.
  revert s. induction ids as [|id ids IH]; intros s; [done|]. cbn [foldl]. rewrite IH. unfold removePending. by destruct (requests _ !! id).
Qed.

Lemma removeDeferred_work werrs s : work (removeDeferredPendingManifestEntries werrs s) = work s.
Proof. apply removePending_work. Qed.

Lemma start_file_work wid id req info rest werr s : transfers (work s) !! wid = None ->
  work_step (work s) (work (start_file Match wid id req info rest werr s)).
Proof.
  intros Hw. unfold start_file.
  assert (forall s', let k := work (next_files id rest s') in
    transfers k = transfers (work s') /\ slots k = slots (work s') /\ wgs k = wgs (work s')) as Hn by (intros s'; by destruct rest).
  destruct (RemapGlobbedPath _ _ _ _) as [local|e].
  - destruct (Hn (startConcreteTransfer wid id req (resolved (transfer_of req) (info_Path info) local) s)) as (Ht & Hs & Hg).
    apply (ws_spawn _ _ wid {| w_request := id; w_phase := transferPhaseForRequest req;
      w_transfer := resolved (transfer_of req) (info_Path info) local; w_state := Spawned |});
      [done|done| | |].
    all: rewrite ?Ht, ?Hs, ?Hg; unfold startConcreteTransfer; by destruct (transferPhaseForRequest req).
  - match goal with |- context [next_files id rest ?x] => destruct (Hn x) as (Ht & Hs & Hg) end.
    destruct (tracker_done_work id req false werr (on_res (recordTransferError (RemapError e)
      (resolved (transfer_of req) (info_Path info) (LocalPath (transfer_of req))) (transferPhaseForRequest req)) s)) as (Ht' & Hs' & Hg' & _).
    apply ws_same; (etransitivity; [eassumption|assumption]).
Qed.

Lemma exec_listen_work l s s' : exec_listen has_callback l s = Some s' ->
  transfers (work s') = transfers (work s) /\ slots (work s') = slots (work s) /\ wgs (work s') = wgs (work s).
Proof.
  intros H. destruct l, (pc s) eqn:Hpc; cbn in H; rewrite ?Hpc in H; try discriminate H; repeat case_match; simplify_eq; try done.
  all: try (unfold accept; by destruct (negb (ImmediateRetrieval req))).
  all: try (unfold flush_received; by destruct (negb runSucceeded)).
  all: try (unfold phase1_waited; cbn; by repeat case_match).
  all: try (unfold after_phase1; destruct (shouldSkipBackgroundTransfersAfterPhase1 _ _); [cbn [work set_pc]; by rewrite removeDeferred_work|]; by case_match).
  all: match goal with |- context [cancel_waited ?w ?s] =>
         change (work (cancel_waited w s)) with (work (removeDeferredPendingManifestEntries w s)) end; by rewrite removeDeferred_work.
Qed.

Lemma exec_starter_work l s s' : exec_starter Match l s = Some s' -> work_step (work s) (work s').
Proof.
  intros H. destruct l; cbn in H; try discriminate H; destruct (requests (queue_of s) !! id) as [req|]; try discriminate H; cbn in H.
  - destruct (starters (work s) !! id) as [[]|], (pc s); try discriminate H; injection H as <-.
    2,3: unfold flushTransfer; destruct (_ && _); [by apply ws_same|].
    all: destruct (begin_request_work id req conn werr now s) as (? & ? & ?); by apply ws_same.
  - destruct (starters (work s) !! id) as [[]|]; try discriminate H; injection H as <-.
    destruct (list_answered_work id req resp werr now s) as (? & ? & ?). by apply ws_same.
  - destruct (starters (work s) !! id) as [[| |[|info rest]]|]; try discriminate H.
    destruct (transfers (work s) !! wid) eqn:Hw; [discriminate H|]. injection H as <-. by apply start_file_work.
Qed.

Lemma exec_worker_work l s s' : exec_worker l s = Some s' -> work_step (work s) (work s').
Proof.
  intros H. destruct l; cbn in H; try discriminate H; destruct (transfers (work s) !! wid) as [w|] eqn:Hw; try discriminate H; cbn in H;
    destruct (w_state w) eqn:Hst; try discriminate H.
  - injection H as <-. unfold worker_acquire. destruct (cancelled_for w s);
      (eapply ws_move; [exact Hw|rewrite Hst; constructor|done|done]).
  - unfold worker_granted in H. case_bool_decide; [|discriminate H]. injection H as <-.
    eapply ws_move; [exact Hw|rewrite Hst; by constructor|done|done].
  - unfold worker_abandon in H. destruct (cancelled_for w s); [|discriminate H].
    destruct (cancelQueuedRequest _ _ _) as [r []] eqn:Hc; injection H as <-;
      (eapply ws_move; [exact Hw|rewrite Hst; by constructor|done|done]).
  - injection H as <-. unfold on_disp, track. destruct (run_call _ _). by apply ws_same.
  - injection H as <-. unfold worker_received. destruct err;
      (eapply ws_move; [exact Hw|rewrite Hst; constructor|done|done]).
  - injection H as <-. unfold worker_release. destruct (Release _) as [r|] eqn:Hr;
      (eapply ws_move; [exact Hw|rewrite Hst; by constructor|done|done]).
  - destruct (requests (queue_of s) !! w_request w) as [req|]; [|discriminate H]. injection H as <-.
    destruct (tracker_done_work (w_request w) req success werr s) as (Ht & Hs & Hg & _).
    eapply (ws_move _ _ wid w (Leaving success)); [done|rewrite Hst| |].
    + cbn. rewrite Hs. constructor.
    + cbn. by rewrite Ht.
    + exact Hg.
  - injection H as <-. eapply (ws_leave _ _ wid w success); [done|done| | |]; by destruct (w_phase w).
  - injection H as <-. by eapply (ws_leave_base _ _ wid w success).
Qed.

Lemma exec_work l s s' : exec Match has_callback l s = Some s' -> work_step (work s) (work s').
Proof.
  unfold exec. destruct (exec_listen has_callback l s) as [s1|] eqn:H1.
  - intros [= <-]. destruct (exec_listen_work l s s1 H1) as (? & ? & ?). by apply ws_same.
  - destruct (exec_starter Match l s) as [s2|] eqn:H2; [intros [= <-]; by apply exec_starter_work in H2|apply exec_worker_work].
Qed.

(** ** What a step leaves alone *)

Lemma finished_record e t p r : finished (recordTransferError e t p r) = finished r.
Proof. done. Qed.

Lemma finished_record_all es p r : finished (record_all es p r) = finished r.
Proof. unfold record_all. revert r. induction es as [|e es IH]; intros r; [done|]. cbn. by rewrite IH. Qed.

Lemma finished_update id req m f werr r : finished (update_manifest id req m f werr r) = finished r.
Proof. unfold update_manifest. destruct (bool_decide _); [done|]. by destruct werr. Qed.

Lemma finished_finish id req b werr r : finished (finishTransferRequest id req b werr r) = finished r ++ [(id, b)].
Proof. unfold finishTransferRequest, finishManifestRequest. cbn. by rewrite finished_update. Qed.

Lemma removePending_fields werrs ids s : let s' := foldl (removePending werrs) s ids in
  work s' = work s /\ finished (res s') = finished (res s) /\ queue_of s' = queue_of s /\ disp s' = disp s /\ ctx s' = ctx s /\ pc s' = pc s.
Proof.
  revert s. induction ids as [|id ids IH]; intros s; [done|]. cbn [foldl].
  assert (let s1 := removePending werrs s id in work s1 = work s /\ finished (res s1) = finished (res s) /\
    queue_of s1 = queue_of s /\ disp s1 = disp s /\ ctx s1 = ctx s /\ pc s1 = pc s) as (H1 & H2 & H3 & H4 & H5 & H6).
  { unfold removePending. destruct (requests _ !! id); [|done]. cbn. by rewrite finished_update. }
  destruct (IH (removePending werrs s id)) as (? & ? & ? & ? & ? & ?). split_and!; congruence.
Qed.

Lemma phase1_waited_fields ok s : queue_of (phase1_waited has_callback ok s) = queue_of s /\ pc (phase1_waited has_callback ok s) = AfterPhase1 ok.
Proof. unfold phase1_waited. cbn. split; [|done]. by repeat case_match. Qed.

Lemma after_phase1_fields ok werrs now s : queue_of (after_phase1 ok werrs now s) = queue_of s /\
  pc (after_phase1 ok werrs now s) = if shouldSkipBackgroundTransfersAfterPhase1 ok s then WaitingForBackground ok else FlushingBackground ok.
Proof.
  unfold after_phase1. destruct (shouldSkipBackgroundTransfersAfterPhase1 ok s); cbn; [|split; [by case_match|done]].
  split; [|done]. apply removePending_fields.
Qed.

Lemma cancel_waited_fields werrs s : queue_of (cancel_waited werrs s) = queue_of s /\ pc (cancel_waited werrs s) = Returned None.
Proof. split; [|done]. unfold cancel_waited, removeDeferredPendingManifestEntries. cbn. apply removePending_fields. Qed.

Lemma starter_pc l s s' : exec_starter Match l s = Some s' -> pc s' = pc s /\ queue_of s' = queue_of s /\ ctx s' = ctx s.
Proof.
  intros H. destruct l; cbn in H; try discriminate H; destruct (requests (queue_of s) !! id) as [req|]; try discriminate H; cbn in H.
  - assert (forall s', s' = begin_request id req conn werr now s -> pc s' = pc s /\ queue_of s' = queue_of s /\ ctx s' = ctx s) as Hb.
    { intros s0 ->. unfold begin_request. by destruct (resolveTransferAgentConn req conn). }
    destruct (starters (work s) !! id) as [[]|], (pc s) eqn:Hpc; try discriminate H; injection H as <-; [by apply Hb| |];
      unfold flushTransfer; (destruct (_ && _); [cbn; by rewrite Hpc|by apply Hb]).
  - destruct (starters (work s) !! id) as [[]|]; try discriminate H; injection H as <-.
    destruct resp as [|[|infos [|]]]; [done|done| |done]. cbn. destruct (glob_without_matches _ _); [done|]. by destruct (filteredInfos _).
  - destruct (starters (work s) !! id) as [[| |[|info rest]]|]; try discriminate H.
    destruct (transfers (work s) !! wid); [discriminate H|]. injection H as <-. unfold start_file.
    assert (forall s0, pc (next_files id rest s0) = pc s0 /\ queue_of (next_files id rest s0) = queue_of s0 /\ ctx (next_files id rest s0) = ctx s0)
      as Hn by (intros s0; by destruct rest).
    destruct (RemapGlobbedPath _ _ _ _); [by destruct (Hn (startConcreteTransfer wid id req (resolved (transfer_of req) (info_Path info) a) s)) as (-> & -> & ->)|].
    match goal with |- context [next_files id rest ?x] => destruct (Hn x) as (-> & -> & ->) end.
    unfold tracker_done. cbn. destruct (trackers (work s) !! id); [|done]. cbn. by destruct (negb _).
Qed.

Lemma worker_pc l s s' : exec_worker l s = Some s' ->
  pc s' = pc s /\ queue_of s' = queue_of s /\ ctx s' = ctx s /\ starters (work s') = starters (work s).
Proof.
  intros H. destruct l; cbn in H; try discriminate H; destruct (transfers (work s) !! wid) as [w|] eqn:Hw; try discriminate H; cbn in H;
    destruct (w_state w) eqn:Hst; try discriminate H.
  - injection H as <-. unfold worker_acquire. by destruct (cancelled_for w s).
  - unfold worker_granted in H. case_bool_decide; [|discriminate H]. by injection H as <-.
  - unfold worker_abandon in H. destruct (cancelled_for w s); [|discriminate H]. by destruct (cancelQueuedRequest _ _ _) as [r []]; injection H as <-.
  - injection H as <-. unfold on_disp, track. by destruct (run_call _ _).
  - injection H as <-. unfold worker_received. by destruct err.
  - injection H as <-. unfold worker_release. by destruct (Release _).
  - destruct (requests (queue_of s) !! w_request w) as [req|]; [|discriminate H]. injection H as <-.
    destruct (tracker_done_work (w_request w) req success werr s) as (_ & _ & _ & Hs). split_and!; [..|exact Hs];
      unfold tracker_done; (destruct (trackers (work s) !! w_request w); [cbn; by destruct (negb _)|done]).
  - injection H as <-. by destruct (w_phase w).
  - by injection H as <-.
Qed.

(** Accepted requests are kept. *)
Lemma accept_requests_kept id req werr s i r : requests (queue_of s) !! id = None -> requests (queue_of s) !! i = Some r ->
  requests (queue_of (accept id req werr s)) !! i = Some r.
Proof.
  intros Hn Hi. assert (id <> i) by congruence.
  assert (queue_of (accept id req werr s) = count_request req id (queue_of s)) as -> by (unfold accept; by destruct (negb _)).
  cbn. by rewrite lookup_insert_ne.
Qed.

Lemma exec_requests l s s' : exec Match has_callback l s = Some s' ->
  forall id req, requests (queue_of s) !! id = Some req -> requests (queue_of s') !! id = Some req.
Proof.
  unfold exec. destruct (exec_listen has_callback l s) as [s1|] eqn:H1; [|destruct (exec_starter Match l s) as [s2|] eqn:H2].
  - intros [= <-] i r Hi.
    destruct l as [| | |id req werr| |runSucceeded now| | | |werrs now| | | |werrs|id conn werr now|id resp werr now|wid id werr| | | | | | | | |];
      destruct (pc s) eqn:Hpc; cbn in H1; rewrite ?Hpc in H1; try discriminate H1; repeat case_match; simplify_eq; try done.
    all: try (by apply accept_requests_kept).
    all: try (unfold flush_received; by destruct (negb runSucceeded)).
    all: try (by rewrite (proj1 (phase1_waited_fields _ _))).
    all: try (by rewrite (proj1 (after_phase1_fields _ _ _ _))).
    by rewrite (proj1 (cancel_waited_fields _ _)).
  - intros [= <-]. destruct (starter_pc l s s2 H2) as (_ & -> & _). done.
  - intros H. destruct (worker_pc l s s' H) as (_ & -> & _). done.
Qed.

(** ** What a step does to the results *)

(** A relation that holds of what the goroutines record for the known requests, other than
    the completion of a file. *)
Record goroutine_closed (known : nat -> TransferRequest -> Prop) (R : relation results) : Prop := {
  rc_record : forall e t p r, R r (recordTransferError e t p r);
  rc_finish : forall id req b werr r, known id req -> R r (finishTransferRequest id req b werr r)
}.

(** The same for what [Listen] records. *)
Record listen_closed (known : nat -> TransferRequest -> Prop) (R : relation results) : Prop := {
  rc_pending : forall id req werr r, known id req -> R r (addPendingManifestEntry id req werr r);
  rc_remove : forall id req werr r, known id req ->
      R r (update_manifest id req (MRemovePending (ManifestRelativePath req)) RemoveEntryError werr r);
  rc_refuse : forall id req text s, (forall r, ~ known id r) -> R (res s) (res (refuse id req text s));
  rc_rollback : forall r, R r (rollback_optional r)
}.

Section Results.
Context (known : nat -> TransferRequest -> Prop) (R : relation results) {Rpre : PreOrder R}.

Section Goroutines.
Context (HR : goroutine_closed known R).

Lemma record_all_results es p r : R r (record_all es p r).
Proof using Rpre HR.
  unfold record_all. revert r. induction es as [|e es IH]; intros r; [done|]. cbn. etransitivity; [|apply IH]. by apply (rc_record known R HR).
Qed.

Lemma tracker_done_results id req b werr s : known id req -> R (res s) (res (tracker_done id req b werr s)).
Proof using Rpre HR.
  intros Hk. unfold tracker_done. destruct (trackers (work s) !! id); [|done]. cbn. destruct (negb _); [done|]. by apply (rc_finish known R HR).
Qed.

Lemma end_request_results id req errs werr now s : known id req -> R (res s) (res (end_request id req errs werr now s)).
Proof using Rpre HR.
  intros Hk. change (R (res s) (finishTransferRequest id req false werr (record_all errs (transferPhaseForRequest req) (res s)))).
  etransitivity; [apply record_all_results|by apply (rc_finish known R HR)].
Qed.

Lemma begin_request_results id req conn werr now s : known id req -> R (res s) (res (begin_request id req conn werr now s)).
Proof using Rpre HR. intros Hk. unfold begin_request. destruct (resolveTransferAgentConn req conn); [done|by apply end_request_results]. Qed.

Lemma list_answered_results id req resp werr now s : known id req -> R (res s) (res (list_answered Match id req resp werr now s)).
Proof using Rpre HR.
  intros Hk. destruct resp as [|[|infos [|]]]; [by apply end_request_results..| |by apply end_request_results]. cbn [list_answered].
  destruct (glob_without_matches _ _); [by apply end_request_results|]. cbn zeta.
  destruct (filteredInfos _); [|apply record_all_results].
  match goal with |- R _ (res ?x) => change (res x) with (finishTransferRequest id req false werr
    (record_all (filter_errors (filter_infos Match (transfer_of req) infos)) (transferPhaseForRequest req) (res s))) end.
  etransitivity; [apply record_all_results|by apply (rc_finish known R HR)].
Qed.

Lemma start_file_results wid id req info rest werr s : known id req -> R (res s) (res (start_file Match wid id req info rest werr s)).
Proof using Rpre HR.
  intros Hk. unfold start_file. assert (forall s0, res (next_files id rest s0) = res s0) as -> by (intros s0; by destruct rest).
  destruct (RemapGlobbedPath _ _ _ _); [by destruct (transferPhaseForRequest req)|].
  etransitivity; [|by apply tracker_done_results]. by apply (rc_record known R HR).
Qed.

Lemma exec_starter_results l s s' : (forall id req, requests (queue_of s) !! id = Some req -> known id req) ->
  exec_starter Match l s = Some s' -> R (res s) (res s').
Proof using Rpre HR.
  intros Hk H2. destruct l; cbn in H2; try discriminate H2; destruct (requests (queue_of s) !! id) as [req|] eqn:Hreq; try discriminate H2; cbn in H2;
    apply Hk in Hreq.
  - destruct (starters (work s) !! id) as [[]|], (pc s); try discriminate H2; injection H2 as <-; [by apply begin_request_results|..];
      unfold flushTransfer; (destruct (_ && _); [by apply (rc_finish known R HR)|by apply begin_request_results]).
  - destruct (starters (work s) !! id) as [[]|]; try discriminate H2; injection H2 as <-. by apply list_answered_results.
  - destruct (starters (work s) !! id) as [[| |[|info rest]]|]; try discriminate H2.
    destruct (transfers (work s) !! wid); [discriminate H2|]. injection H2 as <-. by apply start_file_results.
Qed.

Lemma exec_worker_results l s s' : (forall id req, requests (queue_of s) !! id = Some req -> known id req) ->
  exec_worker l s = Some s' ->
  R (res s) (res s') \/
  exists wid w, transfers (work s) !! wid = Some w /\ w_state w = Receiving /\ res s' = addCompletedTransfer (w_transfer w) (res s).
Proof using Rpre HR.
  intros Hk H. destruct l; cbn in H; try discriminate H; destruct (transfers (work s) !! wid) as [w|] eqn:Hw; try discriminate H; cbn in H;
    destruct (w_state w) eqn:Hst; try discriminate H.
  - left. injection H as <-. unfold worker_acquire. destruct (cancelled_for w s); [by apply (rc_record known R HR)|done].
  - left. unfold worker_granted in H. case_bool_decide; [|discriminate H]. by injection H as <-.
  - left. unfold worker_abandon in H. destruct (cancelled_for w s); [|discriminate H].
    destruct (cancelQueuedRequest _ _ _) as [r []]; injection H as <-; [by apply (rc_record known R HR)|done].
  - left. injection H as <-. unfold on_disp, track. by destruct (run_call _ _).
  - injection H as <-. unfold worker_received. destruct err; [left; by apply (rc_record known R HR)|right]. by exists wid, w.
  - left. injection H as <-. unfold worker_release. destruct (Release _); [done|by apply (rc_record known R HR)].
  - left. destruct (requests (queue_of s) !! w_request w) as [req|] eqn:Hreq; [|discriminate H]. injection H as <-.
    by apply tracker_done_results, Hk.
  - left. injection H as <-. by destruct (w_phase w).
  - left. by injection H as <-.
Qed.

End Goroutines.

Section Listen.
Context (HL : listen_closed known R).

Lemma removePending_results werrs ids s : (forall id req, requests (queue_of s) !! id = Some req -> known id req) -> R (res s) (res (foldl (removePending werrs) s ids)).
Proof using Rpre HL.
  revert s. induction ids as [|id ids IH]; intros s Hk; [done|]. cbn [foldl].
  etransitivity; [|apply IH; unfold removePending; by destruct (requests _ !! id)].
  unfold removePending. destruct (requests _ !! id) as [req|] eqn:Hr; [by apply (rc_remove known R HL), Hk|done].
Qed.

Lemma exec_listen_results l s s' : (forall id req, known id req <-> requests (queue_of s') !! id = Some req) ->
  exec_listen has_callback l s = Some s' -> R (res s) (res s').
Proof using Match Rpre HL.
  intros Hk H. assert (forall id req, requests (queue_of s) !! id = Some req -> known id req) as Hk0.
  { intros i r Hi. apply Hk. apply (exec_requests l s s'); [unfold exec; by rewrite H|done]. }
  destruct l as [| | |id req werr| |runSucceeded now| | | |werrs now| | | |werrs|id conn werr now|id resp werr now|wid id werr| | | | | | | | |];
    destruct (pc s) eqn:Hpc; cbn in H; rewrite ?Hpc in H; try discriminate H; repeat case_match; simplify_eq; try done.
  all: try (apply (rc_refuse known R HL); intros r0 Hr0%Hk; cbn in Hr0; congruence).
  all: try (assert (known id req) by (apply Hk; unfold accept; destruct (negb (ImmediateRetrieval req)); cbn; by rewrite lookup_insert_eq);
    unfold accept; destruct (negb (ImmediateRetrieval req)); by apply (rc_pending known R HL)).
  all: try (unfold flush_received; by destruct (negb runSucceeded)).
  all: try (unfold phase1_waited; cbn; by repeat case_match).
  all: try (unfold after_phase1; destruct (shouldSkipBackgroundTransfersAfterPhase1 _ _); [by apply removePending_results|by case_match]).
  all: try by apply removePending_results.
  by apply (rc_rollback known R HL).
Qed.

End Listen.

Lemma exec_results l s s' : goroutine_closed known R -> listen_closed known R ->
  (forall id req, known id req <-> requests (queue_of s') !! id = Some req) ->
  exec Match has_callback l s = Some s' ->
  R (res s) (res s') \/
  exists wid w, transfers (work s) !! wid = Some w /\ w_state w = Receiving /\ res s' = addCompletedTransfer (w_transfer w) (res s).
Proof using Rpre.
  intros HR HL Hk He. assert (forall id req, requests (queue_of s) !! id = Some req -> known id req) as Hk0.
  { intros i r Hi. apply Hk. by apply (exec_requests l s s'). }
  revert He. unfold exec. destruct (exec_listen has_callback l s) as [s1|] eqn:H1; [|destruct (exec_starter Match l s) as [s2|] eqn:H2].
  - intros [= <-]. left. by apply exec_listen_results in H1.
  - intros [= <-]. left. by apply (exec_starter_results HR l).
  - by apply exec_worker_results.
Qed.

End Results.

(** ** Wait groups and slots *)

(** The worker is counted by the wait group of its phase, and by that of optional transfers. *)
Definition in_phase_group (p : transferPhase) (w : worker) : bool :=
  bool_decide (w_phase w = p) && match w_state w with LeavingBase _ | Ended _ => false | _ => true end.
Definition in_base_group (w : worker) : bool := negb (mandatory w) && match w_state w with Ended _ => false | _ => true end.

(** What the slots know of a worker. *)
Definition slot_status (w : worker) (o : option status) : Prop :=
  match w_state w with
  | Spawned => o = None
  | Acquiring => o = Some (Waiting (w_phase w))
  | Receiving | Releasing _ => o = Some Holding
  | Completing false | Leaving false | LeavingBase false | Ended false => o <> Some Holding /\ (forall p, o <> Some (Waiting p))
  | _ => o = Some Released
  end.

Record workers_inv (limit : Z) (k : workers) : Prop := {
  inv_phase1 : phase1Wg k = count_if (in_phase_group phase1TransferPhase) (transfers k);
  inv_background : backgroundWg k = count_if (in_phase_group backgroundTransferPhase) (transfers k);
  inv_pending : pendingBackgroundConcreteTransfers k = backgroundWg k;
  inv_base : baseWg k = count_if in_base_group (transfers k);
  inv_leaving : forall wid w b, transfers k !! wid = Some w -> w_state w = LeavingBase b -> mandatory w = false;
  inv_slots : TransferSlots.reachable limit (slots k);
  inv_callers : forall wid, match transfers k !! wid with
                            | Some w => slot_status w (callers (slots k) !! wid)
                            | None => callers (slots k) !! wid = None
                            end
}.

Lemma init_workers limit : workers_inv limit (work (NewTransferManager limit)).
Proof.
  constructor; cbn; rewrite ?count_if_empty; try done. apply rtc_refl.
Qed.

Lemma wgs_eq k k' : wgs k' = wgs k -> phase1Wg k' = phase1Wg k /\ backgroundWg k' = backgroundWg k /\ baseWg k' = baseWg k /\
  pendingBackgroundConcreteTransfers k' = pendingBackgroundConcreteTransfers k.
Proof. unfold wgs. by intros [= -> -> -> ->]. Qed.

(** Moving a worker between states that are counted alike. *)
Lemma slot_change_counted wid w st sl sl' : slot_change wid (w_phase w) (w_state w) st sl sl' ->
  (forall p, in_phase_group p (with_state w st) = in_phase_group p w) /\ in_base_group (with_state w st) = in_base_group w /\
  (forall b, st <> LeavingBase b).
Proof. unfold in_phase_group, in_base_group, mandatory. cbn. by inversion 1. Qed.

Lemma holder_can_release limit sl wid : TransferSlots.reachable limit sl -> callers sl !! wid = Some Holding ->
  Release (TransferSlots.manager sl) <> None.
Proof.
  intros Hi%slots_reachable_inv Hw%(inv_holding limit sl Hi). unfold Release.
  destruct (Z.eqb_spec (active (TransferSlots.manager sl)) 0) as [H0|]; [|done].
  rewrite (inv_count limit sl Hi) in H0. assert (size (holders sl) = 0%nat) as Hs by lia. apply size_empty_inv in Hs. set_solver.
Qed.

Lemma slot_change_slots limit wid w st sl sl' : TransferSlots.reachable limit sl -> slot_status w (callers sl !! wid) ->
  slot_change wid (w_phase w) (w_state w) st sl sl' ->
  TransferSlots.reachable limit sl' /\ slot_status (with_state w st) (callers sl' !! wid) /\
  forall i, i <> wid -> callers sl' !! i = callers sl !! i.
Proof.
  intros Hr Hst Hc. unfold slot_status in *. inversion Hc as [?|?|? Hcl|? r Hq|? r Hq|? b|? r b Hq|? b Hq|? b]; subst;
    match goal with H : _ = w_state w |- _ => rewrite <- H in Hst end; cbn [with_state w_state w_phase].
  - split; [done|]. split; [by rewrite Hst|done].
  - split; [eapply rtc_r; [done|by apply TransferSlots.acquire]|]. cbn. rewrite lookup_insert_eq. split; [done|].
    intros i Hi. by rewrite lookup_insert_ne.
  - split; [eapply rtc_r; [done|by eapply TransferSlots.granted]|]. cbn. rewrite lookup_insert_eq. split; [done|].
    intros i Hi. by rewrite lookup_insert_ne.
  - split; [eapply rtc_r; [done|by eapply TransferSlots.cancelled]|]. cbn. rewrite lookup_insert_eq. split; [done|].
    intros i Hi. by rewrite lookup_insert_ne.
  - split; [eapply rtc_r; [done|by eapply TransferSlots.cancelled_late]|]. cbn. rewrite lookup_insert_eq. split; [done|].
    intros i Hi. by rewrite lookup_insert_ne.
  - split; [done|]. by split.
  - split; [eapply rtc_r; [done|by eapply TransferSlots.release]|]. cbn. rewrite lookup_insert_eq. split; [by destruct b|].
    intros i Hi. by rewrite lookup_insert_ne.
  - by destruct (holder_can_release limit sl' wid).
  - split; [done|]. split; [by destruct b|done].
Qed.

Lemma counted_same (P : worker -> bool) m wid w x : m !! wid = Some w -> P x = P w ->
  count_if P (<[wid := x]> m) = count_if P m.
Proof. intros Hw Hx. rewrite (count_if_update P m wid w x Hw), Hx. lia. Qed.

Lemma callers_insert (wid : nat) (x : worker) (m : gmap nat worker) (cs cs' : gmap nat status) :
  slot_status x (cs' !! wid) -> (forall i, i <> wid -> cs' !! i = cs !! i) ->
  (forall i, match m !! i with Some w => slot_status w (cs !! i) | None => cs !! i = None end) ->
  forall i, match <[wid := x]> m !! i with Some w => slot_status w (cs' !! i) | None => cs' !! i = None end.
Proof.
  intros Hx Hne Ha i. destruct (decide (i = wid)) as [->|Hi]; [by rewrite lookup_insert_eq|].
  rewrite lookup_insert_ne, Hne by done. apply Ha.
Qed.

Lemma leaving_insert (wid : nat) (x : worker) (m : gmap nat worker) :
  (forall b, w_state x = LeavingBase b -> mandatory x = false) ->
  (forall i w b, m !! i = Some w -> w_state w = LeavingBase b -> mandatory w = false) ->
  forall i w b, <[wid := x]> m !! i = Some w -> w_state w = LeavingBase b -> mandatory w = false.
Proof. intros Hx Hm i w b. rewrite lookup_insert_Some. intros [[<- <-]|[_ Hi]]; [apply Hx|by apply (Hm i)]. Qed.


Ltac counting := rewrite ?bool_decide_true, ?bool_decide_false by done; cbn; lia.

Lemma work_step_inv limit k k' : workers_inv limit k -> work_step k k' -> workers_inv limit k'.
Proof.
  intros [H1 H2 Hp Hb Hl Hr Hc] [Ht Hs Hg|wid w Hw Hst Ht Hs Hg|wid w st Hw Hch Ht Hg|wid w b Hw Hst Ht Hs Hg|wid w b Hw Hst Ht Hs Hg].
  - apply wgs_eq in Hg as (E1 & E2 & E3 & E4). constructor; rewrite ?Ht, ?Hs, ?E1, ?E2, ?E3, ?E4; done.
  - assert (forall p, in_phase_group p w = bool_decide (w_phase w = p)) as Hin.
    { intros p. unfold in_phase_group. by rewrite Hst, andb_true_r. }
    assert (in_base_group w = negb (mandatory w)) as Hbase by (unfold in_base_group; by rewrite Hst, andb_true_r).
    specialize (Hc wid) as Hcw. rewrite Hw in Hcw.
    constructor; rewrite ?Ht, ?Hs; try done; try (rewrite (count_if_new _ _ _ _ Hw), ?Hin, ?Hbase).
    + unfold register in Hg. destruct (w_phase w); apply wgs_eq in Hg as (-> & _); counting.
    + unfold register in Hg. destruct (w_phase w); apply wgs_eq in Hg as (_ & -> & _); counting.
    + unfold register in Hg. destruct (w_phase w); apply wgs_eq in Hg as (_ & -> & _ & ->); counting.
    + unfold register in Hg. destruct (w_phase w); apply wgs_eq in Hg as (_ & _ & -> & _); cbn; destruct (mandatory w); counting.
    + apply leaving_insert; [intros b; by rewrite Hst|done].
    + apply (callers_insert _ _ _ (callers (slots k))); [|done|done]. unfold slot_status. by rewrite Hst.
  - apply wgs_eq in Hg as (E1 & E2 & E3 & E4). destruct (slot_change_counted _ _ _ _ _ Hch) as (Hcp & Hcb & Hcl).
    specialize (Hc wid) as Hcw. rewrite Hw in Hcw. destruct (slot_change_slots limit _ _ _ _ _ Hr Hcw Hch) as (Hr' & Hst' & Hne).
    constructor; rewrite ?Ht, ?E1, ?E2, ?E3, ?E4; try done.
    + by rewrite (counted_same _ _ _ _ _ Hw).
    + by rewrite (counted_same _ _ _ _ _ Hw).
    + by rewrite (counted_same _ _ _ _ _ Hw).
    + apply leaving_insert; [intros b Heq; by destruct (Hcl b)|done].
    + by apply (callers_insert _ _ _ (callers (slots k))).
  - set (x := with_state w (if mandatory w then Ended b else LeavingBase b)) in *.
    assert (forall p, in_phase_group p x = false) as Hx.
    { intros p. unfold in_phase_group, x. cbn. destruct (mandatory w); by rewrite andb_false_r. }
    assert (forall p, in_phase_group p w = bool_decide (w_phase w = p)) as Hin.
    { intros p. unfold in_phase_group. by rewrite Hst, andb_true_r. }
    assert (in_base_group x = in_base_group w) as Hbase.
    { unfold in_base_group, x. change (mandatory (with_state w _)) with (mandatory w). rewrite Hst. cbn. by destruct (mandatory w). }
    specialize (Hc wid) as Hcw. rewrite Hw in Hcw.
    constructor; rewrite ?Ht, ?Hs; try done; try (rewrite (count_if_update _ _ _ _ _ Hw), Hx, Hin).
    + unfold finishPhaseTransfer in Hg. destruct (w_phase w); apply wgs_eq in Hg as (-> & _); counting.
    + unfold finishPhaseTransfer in Hg. destruct (w_phase w); apply wgs_eq in Hg as (_ & -> & _); counting.
    + unfold finishPhaseTransfer in Hg. destruct (w_phase w); apply wgs_eq in Hg as (_ & -> & _ & ->); counting.
    + rewrite (counted_same _ _ _ _ _ Hw Hbase). unfold finishPhaseTransfer in Hg. destruct (w_phase w); by apply wgs_eq in Hg as (_ & _ & -> & _).
    + apply leaving_insert; [|done]. intros b' Heq. unfold x in *. change (mandatory (with_state w _)) with (mandatory w). cbn in Heq.
      by destruct (mandatory w).
    + apply (callers_insert _ _ _ (callers (slots k))); [|done|done]. unfold slot_status in *. rewrite Hst in Hcw. unfold x. cbn.
      by destruct (mandatory w), b.
  - assert (forall p, in_phase_group p (with_state w (Ended b)) = in_phase_group p w) as Hx.
    { intros p. unfold in_phase_group. cbn. by rewrite Hst, !andb_false_r. }
    pose proof (Hl _ _ _ Hw Hst) as Hm. specialize (Hc wid) as Hcw. rewrite Hw in Hcw.
    unfold wgs in Hg. injection Hg as Hg1 Hg2 Hg3 Hg4.
    constructor; rewrite ?Ht, ?Hs; rewrite ?(counted_same _ _ _ _ _ Hw) by done; cbn in *; try congruence; try done.
    + rewrite (count_if_update _ _ _ _ _ Hw). unfold in_base_group at 2 3. change (mandatory (with_state w _)) with (mandatory w).
      rewrite Hst, Hm. cbn. lia.
    + by apply leaving_insert.
    + apply (callers_insert _ _ _ (callers (slots k))); [|done|done]. unfold slot_status in *. rewrite Hst in Hcw. by destruct b.
Qed.

Lemma workers_reachable limit s : reachable Match has_callback limit s -> workers_inv limit (work s).
Proof.
  unfold reachable. revert s. apply rtc_ind_r; [apply init_workers|].
  intros x y _ [l Hl] IH. by eapply work_step_inv, exec_work.
Qed.

(** The goroutines that hold a slot. *)
Definition holds_slot (w : worker) : bool := match w_state w with Receiving | Releasing _ => true | _ => false end.

Lemma holding_workers limit k : workers_inv limit k -> count_if holds_slot (transfers k) <= Z.of_nat (size (holders (slots k))).
Proof.
  intros [_ _ _ _ _ Hr Hc]. unfold count_if. apply Nat2Z.inj_le. rewrite <- size_dom. apply subseteq_size.
  intros wid Hw. apply elem_of_dom in Hw as [w Hw]. apply map_lookup_filter_Some in Hw as [Hw Hh]. cbn in Hh.
  specialize (Hc wid). rewrite Hw in Hc. apply slots_reachable_inv in Hr. apply (inv_holding limit (slots k) Hr).
  unfold holds_slot, slot_status in *. by destruct (w_state w).
Qed.

(** However transfers are started, cancelled and finished: the wait group of each phase
    counts exactly the goroutines of the phase that have not left it, the one for optional
    transfers exactly those not yet ended, so that no [Done] makes a counter negative and a
    [Wait] returns only when they are gone; at most as many files as there are slots are
    received at the same time; and giving a slot back never fails. *)
Theorem wait_groups_count_goroutines limit s : reachable Match has_callback limit s ->
  let k := work s in
  phase1Wg k = count_if (in_phase_group phase1TransferPhase) (transfers k) /\
  backgroundWg k = count_if (in_phase_group backgroundTransferPhase) (transfers k) /\
  pendingBackgroundConcreteTransfers k = backgroundWg k /\
  baseWg k = count_if in_base_group (transfers k) /\
  count_if holds_slot (transfers k) <= Z.max 0 limit /\
  forall wid w b, transfers k !! wid = Some w -> w_state w = Releasing b -> Release (TransferSlots.manager (slots k)) <> None.
Proof.
  intros Hi%workers_reachable k. pose proof Hi as [H1 H2 H3 H4 _ Hr Hc]. split; [done|]. split; [done|]. split; [done|]. split; [done|].
  split; [pose proof (holding_workers limit k Hi); apply slots_reachable_inv in Hr as [_ Hcount Hlimit _ _ _ _ _ _ _]; unfold k in *; lia|].
  intros wid w b Hw Hst. eapply holder_can_release; [exact Hr|]. specialize (Hc wid). unfold k in Hw. rewrite Hw in Hc.
  unfold slot_status in Hc. by rewrite Hst in Hc.
Qed.

End Steps.

Lemma exec_all_reachable M cb limit ls : forall s s', reachable M cb limit s -> exec_all M cb ls s = Some s' -> reachable M cb limit s'.
Proof.
  induction ls as [|l ls IH]; intros s s' Hr; cbn; [by intros [= <-]|].
  destruct (exec M cb l s) as [s1|] eqn:Hl; [|done]. cbn. apply IH. eapply rtc_r; [exact Hr|by exists l].
Qed.

(** The states of a concrete run are reachable. *)
Lemma run_reachable ls s : run_of ls = Some s -> reachable match_all true 4 s.
Proof. apply exec_all_reachable. apply rtc_refl. Qed.

(** The state after the given steps. *)
Definition state_after (ls : list label) : TransferManager := default (NewTransferManager 4) (run_of ls).

Lemma state_after_reachable ls : is_Some (run_of ls) -> reachable match_all true 4 (state_after ls).
Proof. intros [s Hs]. unfold state_after. rewrite Hs. by apply run_reachable in Hs. Qed.

Lemma wait_groups_count_goroutines_witness :
  let k := work (state_after (take 10 good_run)) in
  phase1Wg k = 1 /\ phase1Wg k = count_if (in_phase_group phase1TransferPhase) (transfers k) /\
  count_if holds_slot (transfers k) <= Z.max 0 4.
Proof.
  destruct (wait_groups_count_goroutines match_all true 4 (state_after (take 10 good_run))) as (H1 & _ & _ & _ & H5 & _).
  - apply state_after_reachable. refine (bool_decide_unpack _ _). vm_compute. exact I.
  - split; [vm_compute; reflexivity|by split].
Defined.
