(* ===== verification/TransferRequests.v ===== *)
(** * Performix: the requests of the transfer manager

    What becomes of each request that [TransferManager] accepts: it is finished exactly once,
    successfully only when all its files have arrived, and its entry in the manifest ends
    complete or is gone. *)

From S2P Require Import Prelude.
From S2P Require Import FilePaths.
From S2P Require Import Model.
From S2P Require Import TransferSlots.
From S2P Require Import RunBuilder.
From S2P Require Import TransferProgress.
From S2P Require Import TransferManager.
From S2P Require Import TransferWorkers.

Local Open Scope Z_scope.

(** ** The view of one request *)

Definition of_request (id : nat) (w : worker) : bool := bool_decide (w_request w = id).

(** The worker has not reported to the request's tracker. *)
Definition unreported (st : worker_state) : bool :=
  match st with Leaving _ | LeavingBase _ | Ended _ => false | _ => true end.
(** It has reported a failure. *)
Definition reported_failure (st : worker_state) : bool :=
  match st with Leaving false | LeavingBase false | Ended false => true | _ => false end.

Definition files_of (id : nat) (k : workers) : Z := count_if (of_request id) (transfers k).
Definition open_of (id : nat) (k : workers) : Z := count_if (fun w => of_request id w && unreported (w_state w)) (transfers k).
Definition failures_of (id : nat) (k : workers) : Z := count_if (fun w => of_request id w && reported_failure (w_state w)) (transfers k).

(** The calls of [finishTransferRequest] for the request. *)
Definition finishes (id : nat) (r : results) : list bool := (filter (fun f => f.1 = id) (finished r)).*2.

Record view := {
  v_starter : option starter;
  v_tracker : option completionTracker;
  v_files : Z;
  v_open : Z;
  v_failures : Z;
  v_finishes : list bool
}.

Definition view_of (id : nat) (s : TransferManager) : view :=
  {| v_starter := starters (work s) !! id; v_tracker := trackers (work s) !! id;
     v_files := files_of id (work s); v_open := open_of id (work s); v_failures := failures_of id (work s);
     v_finishes := finishes id (res s) |}.

(** The tracker and the finishes after a report. *)
Definition reported (b : bool) (c : completionTracker) (fin : list bool) : completionTracker * list bool :=
  let c' := {| total := total c; completed := completed c + 1; failed := failed c || negb b |} in
  (c', if negb (completed c' =? total c') then fin else fin ++ [negb (failed c')]).

Definition after_file (rest : list FileInfo) : option starter := match rest with [] => None | _ => Some (Starting rest) end.

(** What a step may do to the view of a request. *)
Inductive life_step : view -> view -> Prop :=
| life_queued c n o f fin : life_step
    {| v_starter := None; v_tracker := c; v_files := n; v_open := o; v_failures := f; v_finishes := fin |}
    {| v_starter := Some Queued; v_tracker := c; v_files := n; v_open := o; v_failures := f; v_finishes := fin |}
| life_listing c n o f fin : life_step
    {| v_starter := Some Queued; v_tracker := c; v_files := n; v_open := o; v_failures := f; v_finishes := fin |}
    {| v_starter := Some Listing; v_tracker := c; v_files := n; v_open := o; v_failures := f; v_finishes := fin |}
| life_ended st c n o f fin : st = Queued \/ st = Listing -> life_step
    {| v_starter := Some st; v_tracker := c; v_files := n; v_open := o; v_failures := f; v_finishes := fin |}
    {| v_starter := None; v_tracker := c; v_files := n; v_open := o; v_failures := f; v_finishes := fin ++ [false] |}
| life_listed infos bad c n o f fin : infos <> [] -> life_step
    {| v_starter := Some Listing; v_tracker := c; v_files := n; v_open := o; v_failures := f; v_finishes := fin |}
    {| v_starter := Some (Starting infos);
       v_tracker := Some {| total := Z.of_nat (length infos); completed := 0; failed := bad |};
       v_files := n; v_open := o; v_failures := f; v_finishes := fin |}
| life_nothing_listed bad c n o f fin : life_step
    {| v_starter := Some Listing; v_tracker := c; v_files := n; v_open := o; v_failures := f; v_finishes := fin |}
    {| v_starter := None; v_tracker := Some {| total := 0; completed := 0; failed := bad |};
       v_files := n; v_open := o; v_failures := f; v_finishes := fin ++ [false] |}
| life_file info rest c n o f fin : life_step
    {| v_starter := Some (Starting (info :: rest)); v_tracker := c; v_files := n; v_open := o; v_failures := f; v_finishes := fin |}
    {| v_starter := after_file rest; v_tracker := c; v_files := n + 1; v_open := o + 1; v_failures := f; v_finishes := fin |}
| life_file_failed info rest c n o f fin : life_step
    {| v_starter := Some (Starting (info :: rest)); v_tracker := Some c; v_files := n; v_open := o; v_failures := f; v_finishes := fin |}
    {| v_starter := after_file rest; v_tracker := Some (reported false c fin).1; v_files := n; v_open := o; v_failures := f;
       v_finishes := (reported false c fin).2 |}
| life_reported b st c n o f fin : life_step
    {| v_starter := st; v_tracker := Some c; v_files := n; v_open := o; v_failures := f; v_finishes := fin |}
    {| v_starter := st; v_tracker := Some (reported b c fin).1; v_files := n; v_open := o - 1;
       v_failures := f + Z.b2z (negb b); v_finishes := (reported b c fin).2 |}.

(** ** The life of a request *)

(** The tracker is right about the files: [left] are not started yet. *)
Definition tracks (c : completionTracker) (left : Z) (v : view) : Prop :=
  total c = completed c + v_open v + left /\ 0 <= completed c /\
  (failed c = false -> v_failures v = 0 /\ total c = v_files v + left).

Definition life (v : view) : Prop :=
  match v_starter v, v_tracker v with
  | None, None => v_files v = 0 /\ v_open v = 0 /\ v_failures v = 0 /\ (v_finishes v = [] \/ v_finishes v = [false])
  | Some Queued, None | Some Listing, None => v_files v = 0 /\ v_open v = 0 /\ v_failures v = 0 /\ v_finishes v = []
  | Some (Starting rest), Some c => rest <> [] /\ 0 <= v_open v /\ tracks c (Z.of_nat (length rest)) v /\ v_finishes v = []
  | None, Some c => 0 <= v_open v /\ tracks c 0 v /\
      v_finishes v = (if completed c =? total c then [negb (failed c || (total c =? 0))] else [])
  | _, _ => False
  end.

(** Nothing has happened to the request. *)
Definition untouched (v : view) : Prop := v_starter v = None /\ v_tracker v = None /\ v_finishes v = [].

Lemma life_step_preserves v v' : life v -> life_step v v' -> (v_starter v = None -> v_starter v' = Some Queued -> untouched v) ->
  0 <= v_open v' -> life v'.
Proof.
  intros Hl Hs Hq Ho. destruct Hs as [c n o f fin|c n o f fin|st c n o f fin Hst|infos bad c n o f fin Hne|bad c n o f fin|info rest c n o f fin|info rest c n o f fin|b st c n o f fin];
    unfold life, tracks, reported in *; cbn in *.
  - destruct (Hq eq_refl eq_refl) as (_ & Hc & Hf). cbn in *. subst. destruct Hl as (? & ? & ? & _). done.
  - by destruct c.
  - destruct c; [by destruct Hst as [-> | ->]|]. destruct Hst as [-> | ->]; destruct Hl as (? & ? & ? & ->); tauto.
  - destruct c; [done|]. destruct Hl as (-> & -> & -> & ->). repeat split; try done; lia.
  - destruct c; [done|]. destruct Hl as (-> & -> & -> & ->). cbn. rewrite orb_true_r. repeat split; try done; lia.
  - destruct c as [c|]; [|done]. destruct Hl as (_ & Hop & (Ht & Hc & Hf) & Hfin). destruct rest as [|i rest]; cbn in *.
    + split; [lia|]. split; [split; [lia|split; [done|]]; intros H; specialize (Hf H); lia|].
      rewrite Hfin. by destruct (Z.eqb_spec (completed c) (total c)); [lia|].
    + split; [done|]. split; [lia|]. split; [|done]. split; [lia|]. split; [done|]. intros H; specialize (Hf H); lia.
  - destruct Hl as (_ & Hop & (Ht & Hc & Hf) & Hfin). rewrite orb_true_r. subst fin. destruct rest as [|i rest]; cbn in *.
    + split; [done|]. split; [split; [lia|split; [lia|done]]|]. by destruct (Z.eqb_spec (completed c + 1) (total c)).
    + split; [done|]. split; [done|]. split; [split; [lia|split; [lia|done]]|]. by destruct (Z.eqb_spec (completed c + 1) (total c)); [lia|].
  - destruct st as [[| |rest]|]; [done|done| |].
    + destruct Hl as (Hr & Hop & (Ht & Hc & Hf) & Hfin). split; [done|]. split; [lia|]. split.
      * split; [lia|]. split; [lia|]. intros [H ?]%orb_false_iff. specialize (Hf H). destruct b; [cbn; lia|done].
      * subst fin. destruct (Z.eqb_spec (completed c + 1) (total c)); [|done]. destruct rest; [done|]. cbn in *. lia.
    + destruct Hl as (Hop & (Ht & Hc & Hf) & Hfin). split; [lia|]. split.
      * split; [lia|]. split; [lia|]. intros [H ?]%orb_false_iff. specialize (Hf H). destruct b; [cbn; lia|done].
      * destruct (Z.eqb_spec (completed c) (total c)); [lia|]. subst fin.
        destruct (Z.eqb_spec (completed c + 1) (total c)); cbn; [|done].
        destruct (Z.eqb_spec (total c) 0); [lia|]. by rewrite orb_false_r.
Qed.

(** ** Every step is a step of the views *)

Lemma finishes_snoc id id' b (l : list (nat * bool)) :
  (filter (fun f => f.1 = id') (l ++ [(id, b)])).*2 = (filter (fun f => f.1 = id') l).*2 ++ (if decide (id = id') then [b] else []).
Proof. rewrite filter_app, fmap_app. f_equal. rewrite filter_cons. cbn. by case_decide. Qed.

Lemma finishes_finish id id' req b werr r :
  finishes id' (finishTransferRequest id req b werr r) = finishes id' r ++ (if decide (id = id') then [b] else []).
Proof. unfold finishes. rewrite finished_finish. apply finishes_snoc. Qed.

Lemma finishes_record_all id es p r : finishes id (record_all es p r) = finishes id r.
Proof. unfold finishes. by rewrite finished_record_all. Qed.

(** Two states with the same workers, trackers and finishes. *)
Definition same_requests (s s' : TransferManager) : Prop :=
  transfers (work s') = transfers (work s) /\ trackers (work s') = trackers (work s) /\ finished (res s') = finished (res s).

Lemma same_view id s s' : same_requests s s' -> starters (work s') !! id = starters (work s) !! id -> view_of id s' = view_of id s.
Proof. intros (Ht & Hk & Hf) Hs. unfold view_of, files_of, open_of, failures_of, finishes. by rewrite Ht, Hk, Hf, Hs. Qed.

Lemma queued_view id s s' : same_requests s s' -> starters (work s) !! id = None -> starters (work s') !! id = Some Queued ->
  life_step (view_of id s) (view_of id s').
Proof.
  intros (Ht & Hk & Hf) Hs Hs'. unfold view_of, files_of, open_of, failures_of, finishes. rewrite Ht, Hk, Hf, Hs, Hs'. constructor.
Qed.

Lemma spawn_lookup ids (m : gmap nat starter) id :
  foldr (fun id m => <[id := Queued]> m) m ids !! id = if decide (id ∈ ids) then Some Queued else m !! id.
Proof.
  induction ids as [|i ids IH]; cbn; [done|]. destruct (decide (id = i)) as [->|Hi].
  - rewrite lookup_insert_eq, decide_True; [done|]. by left.
  - rewrite lookup_insert_ne, IH by done. destruct (decide (id ∈ ids)); [rewrite decide_True; [done|by right]|].
    rewrite decide_False; [done|]. by intros [|]%elem_of_cons.
Qed.

(** The goroutines that start requests only run in these states of [Listen]. *)
Definition starting (x : listen_state) : bool :=
  match x with StartingImmediate | FlushingPhase1 _ | FlushingBackground _ => true | _ => false end.

(** The requests for which a goroutine is created by the step. *)
Definition created (l : label) (s : TransferManager) : list nat :=
  match l, pc s with
  | LAdd id req _, Listening => if ImmediateRetrieval req then [id] else []
  | LFlush true _, Listening => deferredPhase1Transfers (queue_of s)
  | LBaseWaited, WaitingForBase => deferredPhase1Transfers (queue_of s)
  | LAfterPhase1 _ _, AfterPhase1 ok => if shouldSkipBackgroundTransfersAfterPhase1 ok s then [] else deferredBackgroundTransfers (queue_of s)
  | _, _ => []
  end.

Section Steps.
Context (Match : string -> string -> result string bool) (has_callback : bool).

Lemma not_created (id : nat) (o o' : option starter) : o' = o -> o' = (if decide (id ∈ []) then Some Queued else o).
Proof. intros ->. by rewrite decide_False by apply not_elem_of_nil. Qed.

Lemma accept_requests id req werr s : same_requests s (accept id req werr s) /\
  forall i, starters (work (accept id req werr s)) !! i =
    if decide (i ∈ (if ImmediateRetrieval req then [id] else [])) then Some Queued else starters (work s) !! i.
Proof.
  unfold accept. destruct (ImmediateRetrieval req); cbn; (split; [split; [done|split; [done|]]; cbn;
    unfold addPendingManifestEntry; by rewrite finished_update|]); intros i; [|by apply not_created].
  destruct (decide (i = id)) as [->|Hne]; [rewrite lookup_insert_eq, decide_True; [done|by left]|].
  rewrite lookup_insert_ne, decide_False; [done| |done]. intros Hin. by apply list_elem_of_singleton in Hin.
Qed.

Lemma after_phase1_requests ok werrs now s : same_requests s (after_phase1 ok werrs now s) /\
  forall i, starters (work (after_phase1 ok werrs now s)) !! i =
    if decide (i ∈ (if shouldSkipBackgroundTransfersAfterPhase1 ok s then [] else deferredBackgroundTransfers (queue_of s)))
    then Some Queued else starters (work s) !! i.
Proof.
  unfold after_phase1. destruct (shouldSkipBackgroundTransfersAfterPhase1 ok s).
  - destruct (removePending_fields werrs (deferredPhase1Transfers (queue_of s) ++ deferredBackgroundTransfers (queue_of s)) s)
      as (Hw & Hf & _). unfold same_requests, removeDeferredPendingManifestEntries. cbn. rewrite Hw, Hf.
    split; [done|]. intros i. by apply not_created.
  - cbn. destruct (backgroundTransferCount (queue_of s) >? 0); cbn; (split; [done|]); intros i; apply spawn_lookup.
Qed.

Lemma cancel_waited_requests werrs s : same_requests s (cancel_waited werrs s) /\
  starters (work (cancel_waited werrs s)) = starters (work s).
Proof.
  destruct (removePending_fields werrs (deferredPhase1Transfers (queue_of s) ++ deferredBackgroundTransfers (queue_of s)) s)
    as (Hw & Hf & _). unfold same_requests, cancel_waited, removeDeferredPendingManifestEntries. cbn. by rewrite Hw, Hf.
Qed.

Lemma exec_listen_requests l s s' : exec_listen has_callback l s = Some s' ->
  same_requests s s' /\
  forall id, starters (work s') !! id = if decide (id ∈ created l s) then Some Queued else starters (work s) !! id.
Proof.
  intros H. destruct l as [| | |id req werr| |runSucceeded now| | | |werrs now| | | |werrs|id conn werr now|id resp werr now|wid id werr| | | | | | | | |];
    destruct (pc s) eqn:Hpc; cbn in H; rewrite ?Hpc in H; try discriminate H; unfold created; rewrite ?Hpc.
  all: try (repeat case_match; simplify_eq; (split; [done|]); intros i; by apply not_created).
  - destruct (requests (queue_of s) !! id); [discriminate H|]. destruct (completions (res s) !! id); [discriminate H|].
    injection H as <-. apply accept_requests.
  - injection H as <-. unfold flush_received. destruct runSucceeded; cbn; (split; [done|]); intros i; [apply spawn_lookup|by apply not_created].
  - destruct (baseWg (work s) =? 0); [|discriminate H]. injection H as <-. split; [done|]. intros i. apply spawn_lookup.
  - destruct (phase1Wg (work s) =? 0); [|discriminate H]. injection H as <-. unfold phase1_waited. cbn.
    repeat case_match; (split; [done|]); intros i; by apply not_created.
  - injection H as <-. apply after_phase1_requests.
  - destruct (_ && _); [|discriminate H]. injection H as <-. destruct (cancel_waited_requests werrs s) as [? Hs].
    split; [done|]. intros i. apply not_created. by rewrite Hs.
Qed.

(** A request's own step, and no other request's. *)
Definition own_step (id : nat) (s s' : TransferManager) : Prop :=
  life_step (view_of id s) (view_of id s') /\ forall i, i <> id -> view_of i s' = view_of i s.

Lemma end_request_view id req errs werr now s st : starters (work s) !! id = Some st -> st = Queued \/ st = Listing ->
  own_step id s (end_request id req errs werr now s).
Proof.
  intros Hs Hst. unfold own_step, end_request, add_bytes, on_disp, on_res, drop_starter, on_work, view_of. cbn.
  split.
  - rewrite Hs, lookup_delete_eq, finishes_finish, ?finishes_record_all, decide_True by done. by apply life_ended.
  - intros i Hi. rewrite lookup_delete_ne, finishes_finish, ?finishes_record_all, decide_False, app_nil_r by done. done.
Qed.

Lemma begin_request_view id req conn werr now s : starters (work s) !! id = Some Queued ->
  own_step id s (begin_request id req conn werr now s).
Proof.
  intros Hs. unfold begin_request. destruct (resolveTransferAgentConn req conn); [|eapply end_request_view; [exact Hs|by left]].
  unfold own_step, put_starter, on_work, view_of. cbn. split; [rewrite Hs, lookup_insert_eq; constructor|].
  intros i Hi. by rewrite lookup_insert_ne.
Qed.

Lemma flushTransfer_view ok id req conn werr now s : starters (work s) !! id = Some Queued ->
  own_step id s (flushTransfer ok id req conn werr now s).
Proof.
  intros Hs. unfold flushTransfer. destruct (_ && _); [|by apply begin_request_view].
  unfold own_step, add_bytes, on_disp, on_res, drop_starter, on_work, view_of. cbn. split.
  - rewrite Hs, lookup_delete_eq, finishes_finish, ?finishes_record_all, decide_True by done. apply life_ended. by left.
  - intros i Hi. rewrite lookup_delete_ne, finishes_finish, ?finishes_record_all, decide_False, app_nil_r by done. done.
Qed.

Lemma list_answered_view id req resp werr now s : starters (work s) !! id = Some Listing ->
  own_step id s (list_answered Match id req resp werr now s).
Proof.
  intros Hs. destruct resp as [t|[|infos [|]]];
    [eapply end_request_view; [exact Hs|by right]|eapply end_request_view; [exact Hs|by right]| |eapply end_request_view; [exact Hs|by right]].
  cbn [list_answered]. destruct (glob_without_matches _ _); [eapply end_request_view; [exact Hs|by right]|]. cbn zeta.
  set (f := filter_infos Match (transfer_of req) infos).
  destruct (filteredInfos f) as [|info rest]; unfold own_step, add_bytes, put_starter, drop_starter, on_disp, on_res, on_work, view_of; cbn; split.
  - rewrite Hs, lookup_delete_eq, lookup_insert_eq, finishes_finish, ?finishes_record_all, decide_True by done. constructor.
  - intros i Hi. rewrite lookup_delete_ne, lookup_insert_ne, finishes_finish, ?finishes_record_all, decide_False, app_nil_r by done. done.
  - rewrite Hs, !lookup_insert_eq, finishes_record_all. by apply (life_listed (info :: rest)).
  - intros i Hi. by rewrite !lookup_insert_ne, finishes_record_all.
Qed.

(** The report of a file, as the view sees it. *)
Lemma tracker_done_view id req b werr s c i : trackers (work s) !! id = Some c ->
  let s' := tracker_done id req b werr s in
  starters (work s') = starters (work s) /\ transfers (work s') = transfers (work s) /\
  trackers (work s') !! i = (if decide (i = id) then Some (reported b c (finishes id (res s))).1 else trackers (work s) !! i) /\
  finishes i (res s') = (if decide (i = id) then (reported b c (finishes id (res s))).2 else finishes i (res s)).
Proof.
  intros Hc. unfold tracker_done, reported. rewrite Hc. cbn. split; [by destruct (negb _)|]. split; [by destruct (negb _)|].
  destruct (negb _) eqn:Hn; cbn; (split; [by case_decide as Hi; [subst; rewrite lookup_insert_eq|rewrite lookup_insert_ne]|]).
  - by case_decide; subst.
  - rewrite finishes_finish. case_decide; case_decide; subst; rewrite ?app_nil_r; done.
Qed.

Lemma next_files_view id rest s i : let s' := next_files id rest s in
  starters (work s') !! i = (if decide (i = id) then after_file rest else starters (work s) !! i) /\
  transfers (work s') = transfers (work s) /\ trackers (work s') = trackers (work s) /\ res s' = res s.
Proof.
  destruct rest; cbn; (split; [|done]); case_decide; subst; rewrite ?lookup_delete_eq, ?lookup_insert_eq, ?lookup_delete_ne, ?lookup_insert_ne by done; done.
Qed.

Lemma start_file_view wid id req info rest werr s c :
  starters (work s) !! id = Some (Starting (info :: rest)) -> trackers (work s) !! id = Some c -> transfers (work s) !! wid = None ->
  own_step id s (start_file Match wid id req info rest werr s).
Proof.
  intros Hs Hc Hw. unfold start_file, own_step. destruct (RemapGlobbedPath _ _ _ _) as [local|e].
  - set (s0 := startConcreteTransfer wid id req (resolved (transfer_of req) (info_Path info) local) s).
    assert (starters (work s0) = starters (work s) /\ trackers (work s0) = trackers (work s) /\ res s0 = res s /\
      transfers (work s0) = <[wid := {| w_request := id; w_phase := transferPhaseForRequest req;
        w_transfer := resolved (transfer_of req) (info_Path info) local; w_state := Spawned |}]> (transfers (work s))) as (H1 & H2 & H3 & H4).
    { unfold s0, startConcreteTransfer. by destruct (transferPhaseForRequest req). }
    split; [|intros i Hi]; unfold view_of, files_of, open_of, failures_of.
    + destruct (next_files_view id rest s0 id) as (-> & -> & -> & ->). rewrite decide_True by done.
      rewrite H2, H3, H4, !(count_if_new _ _ _ _ Hw), Hs, Hc. cbn. unfold of_request. cbn. rewrite bool_decide_true by done. cbn.
      rewrite Z.add_0_r. constructor.
    + destruct (next_files_view id rest s0 i) as (-> & -> & -> & ->). rewrite decide_False by done.
      rewrite H1, H2, H3, H4, !(count_if_new _ _ _ _ Hw). cbn. unfold of_request. cbn. rewrite bool_decide_false by done. cbn.
      by rewrite !Z.add_0_r.
  - set (s1 := on_res (recordTransferError _ _ _) s).
    assert (trackers (work s1) !! id = Some c) as Hc1 by done.
    split; [|intros i Hi]; unfold view_of, files_of, open_of, failures_of.
    + destruct (tracker_done_view id req false werr s1 c id Hc1) as (Ha & Hb & Hk & Hf). rewrite decide_True in Hk by done. rewrite decide_True in Hf by done.
      destruct (next_files_view id rest (tracker_done id req false werr s1) id) as (-> & -> & -> & ->).
      rewrite decide_True, Hb, Hk, Hf, Hs, Hc by done. apply (life_file_failed info).
    + destruct (tracker_done_view id req false werr s1 c i Hc1) as (Ha & Hb & Hk & Hf). rewrite decide_False in Hk by done. rewrite decide_False in Hf by done.
      destruct (next_files_view id rest (tracker_done id req false werr s1) i) as (-> & -> & -> & ->).
      rewrite decide_False, Ha, Hb, Hk, Hf by done. done.
Qed.

(** A worker moves without reporting. *)
Lemma move_view wid w st s s0 i : transfers (work s) !! wid = Some w ->
  unreported st = unreported (w_state w) -> reported_failure st = reported_failure (w_state w) ->
  same_requests s s0 -> starters (work s0) = starters (work s) ->
  view_of i (move wid w st s0) = view_of i s.
Proof.
  intros Hw Hu Hf (Ht & Hk & Hfin) Hs. unfold view_of, files_of, open_of, failures_of, finishes, move, on_work, put_worker. cbn.
  rewrite Ht, Hk, Hfin, Hs. f_equal; apply (counted_same _ _ _ _ _ Hw); unfold of_request; cbn; by rewrite ?Hu, ?Hf.
Qed.

Lemma worker_open wid w s : transfers (work s) !! wid = Some w -> unreported (w_state w) = true -> 0 < open_of (w_request w) (work s).
Proof.
  intros Hw Hu. pose proof (count_if_nonneg (fun x => of_request (w_request w) x && unreported (w_state x)) (transfers (work s))) as Hn.
  destruct (Z.eq_dec (open_of (w_request w) (work s)) 0) as [Hz|]; [|unfold open_of in *; lia].
  pose proof (count_if_zero _ _ Hz wid w Hw) as Hf. cbn in Hf. rewrite Hu in Hf. unfold of_request in Hf. by rewrite bool_decide_true in Hf.
Qed.

Lemma open_tracker id s : life (view_of id s) -> 0 < open_of id (work s) -> exists c, trackers (work s) !! id = Some c.
Proof.
  unfold life. cbn. intros Hl Ho. destruct (trackers (work s) !! id) as [c|]; [by exists c|].
  destruct (starters (work s) !! id) as [[| |]|]; destruct Hl; lia.
Qed.

Lemma complete_view wid w b req werr s c i : transfers (work s) !! wid = Some w -> w_state w = Completing b ->
  trackers (work s) !! w_request w = Some c ->
  let s' := move wid w (Leaving b) (tracker_done (w_request w) req b werr s) in
  if decide (i = w_request w) then life_step (view_of i s) (view_of i s') else view_of i s' = view_of i s.
Proof.
  intros Hw Hst Hc s'. destruct (tracker_done_view _ req b werr s c i Hc) as (Ha & Hb & Hk & Hf).
  unfold s', view_of, files_of, open_of, failures_of, move, on_work, put_worker. cbn. rewrite Ha, Hb, Hk, Hf, !(count_if_update _ _ _ _ _ Hw).
  unfold of_request. cbn. rewrite Hst. cbn. case_decide as Hi.
  - subst i. rewrite bool_decide_true, Hc by done. cbn. replace (Z.b2z (negb match b with _ => _ end)) with (Z.b2z (negb b)) by done.
    replace (count_if (fun w0 => bool_decide (w_request w0 = w_request w)) (transfers (work s)) - 1 + 1) with
      (count_if (fun w0 => bool_decide (w_request w0 = w_request w)) (transfers (work s))) by lia.
    rewrite Z.sub_0_r, Z.add_0_r. destruct b; cbn; [apply (life_reported true)|apply (life_reported false)].
  - rewrite bool_decide_false by done. cbn. f_equal; lia.
Qed.

Ltac moved Hw Hst := apply (move_view _ _ _ _ _ _ Hw); [by rewrite Hst|by rewrite Hst|done|done].

Lemma exec_worker_view l s s' i : exec_worker l s = Some s' -> life (view_of i s) ->
  view_of i s' = view_of i s \/ (life_step (view_of i s) (view_of i s') /\ trackers (work s) !! i <> None).
Proof.
  intros H Hl. destruct l; cbn in H; try discriminate H; destruct (transfers (work s) !! wid) as [w|] eqn:Hw; try discriminate H; cbn in H;
    destruct (w_state w) eqn:Hst; try discriminate H.
  - left. injection H as <-. unfold worker_acquire. destruct (cancelled_for w s); moved Hw Hst.
  - left. unfold worker_granted in H. case_bool_decide; [|discriminate H]. injection H as <-. moved Hw Hst.
  - left. unfold worker_abandon in H. destruct (cancelled_for w s); [|discriminate H].
    destruct (cancelQueuedRequest _ _ _) as [r []]; injection H as <-; moved Hw Hst.
  - left. injection H as <-. unfold on_disp, track. by destruct (run_call _ _).
  - left. injection H as <-. unfold worker_received. destruct err; moved Hw Hst.
  - left. injection H as <-. unfold worker_release. destruct (Release _); moved Hw Hst.
  - destruct (requests (queue_of s) !! w_request w) as [req|]; [|discriminate H]. injection H as <-.
    destruct (decide (i = w_request w)) as [->|Hi].
    + right. destruct (open_tracker (w_request w) s Hl) as [c Hc]; [eapply worker_open; [exact Hw|by rewrite Hst]|].
      pose proof (complete_view wid w success req werr s c (w_request w) Hw Hst Hc) as Hv. rewrite decide_True in Hv by done.
      split; [exact Hv|congruence].
    + left. destruct (trackers (work s) !! w_request w) as [c|] eqn:Hc.
      * pose proof (complete_view wid w success req werr s c i Hw Hst Hc) as Hv. by rewrite decide_False in Hv.
      * unfold tracker_done. rewrite Hc. unfold view_of, files_of, open_of, failures_of, move, on_work, put_worker. cbn.
        rewrite !(count_if_update _ _ _ _ _ Hw). unfold of_request. cbn. rewrite Hst. cbn. rewrite bool_decide_false by done. cbn. f_equal; lia.
  - left. injection H as <-. apply (move_view _ _ _ _ _ _ Hw); rewrite ?Hst; [by destruct (isTransferMandatory _)|by destruct (isTransferMandatory _), success|by destruct (w_phase w)..].
  - left. injection H as <-. moved Hw Hst.
Qed.

Lemma exec_starter_view l s s' : exec_starter Match l s = Some s' ->
  (forall i, life (view_of i s)) ->
  exists id st, starters (work s) !! id = Some st /\ is_Some (requests (queue_of s) !! id) /\ own_step id s s'.
Proof.
  intros H Hl. destruct l; cbn in H; try discriminate H; destruct (requests (queue_of s) !! id) as [req|] eqn:Hr; try discriminate H; cbn in H.
  - destruct (starters (work s) !! id) as [[]|] eqn:Hs, (pc s); try discriminate H; injection H as <-; exists id, Queued;
      (split; [done|split; [by rewrite Hr|]]); [by apply begin_request_view|by apply flushTransfer_view..].
  - destruct (starters (work s) !! id) as [[]|] eqn:Hs; try discriminate H; injection H as <-. exists id, Listing.
    split; [done|split; [by rewrite Hr|]]. by apply list_answered_view.
  - destruct (starters (work s) !! id) as [[| |[|info rest]]|] eqn:Hs; try discriminate H.
    destruct (transfers (work s) !! wid) eqn:Hw; [discriminate H|]. injection H as <-. exists id, (Starting (info :: rest)).
    split; [done|split; [by rewrite Hr|]]. specialize (Hl id). unfold life in Hl. cbn in Hl. rewrite Hs in Hl.
    destruct (trackers (work s) !! id) as [c|] eqn:Hc; [|done]. by apply start_file_view with c.
Qed.

(** ** The invariant of the requests *)

(** The deferred requests that [Listen] has still to start. *)
Definition ahead (x : listen_state) (q : backlog) : list nat :=
  match x with
  | NotStarted | Listening | StartingImmediate | Cancelling | WaitingForBase => deferredPhase1Transfers q ++ deferredBackgroundTransfers q
  | FlushingPhase1 _ | WaitingForPhase1 _ | AfterPhase1 _ => deferredBackgroundTransfers q
  | FlushingBackground _ | WaitingForBackground _ | Returned _ => []
  end.

(** Deferred requests that are left were given up. *)
Definition late (x : listen_state) : bool := match x with WaitingForBackground _ | Returned _ => true | _ => false end.

Definition deferred (q : backlog) : list nat := deferredPhase1Transfers q ++ deferredBackgroundTransfers q.

Record requests_inv (s : TransferManager) : Prop := {
  ri_life : forall i, life (view_of i s);
  ri_idle : starting (pc s) = false -> starters (work s) = ∅;
  ri_unknown : forall i, requests (queue_of s) !! i = None -> untouched (view_of i s);
  ri_deferred : forall i, i ∈ deferred (queue_of s) -> exists req, requests (queue_of s) !! i = Some req /\
      ImmediateRetrieval req = false /\ (BackgroundTransfer req = true <-> i ∈ deferredBackgroundTransfers (queue_of s));
  ri_nodup : NoDup (deferred (queue_of s));
  ri_ahead : forall i, i ∈ ahead (pc s) (queue_of s) -> untouched (view_of i s);
  ri_touched : forall i req, requests (queue_of s) !! i = Some req -> untouched (view_of i s) ->
      i ∈ ahead (pc s) (queue_of s) \/ (late (pc s) = true /\ i ∈ deferred (queue_of s))
}.

Lemma life_step_touched v v' : life v -> life_step v v' -> ~ untouched v'.
Proof.
  intros Hl Hs (H1 & H2 & H3). destruct Hs as [| |st c n o f fin Hst|infos bad c n o f fin Hne|bad c n o f fin|info rest c n o f fin|info rest c n o f fin|b st c n o f fin];
    cbn in *; try discriminate.
  - by destruct fin.
  - unfold life in Hl. cbn in Hl. subst c. done.
Qed.

(** A step of one of the goroutines keeps the invariant. *)
Lemma goroutine_inv s s' : requests_inv s -> pc s' = pc s -> queue_of s' = queue_of s ->
  (starting (pc s) = false -> starters (work s') = ∅) ->
  (forall i, requests (queue_of s) !! i = None -> view_of i s' = view_of i s) ->
  (forall i, view_of i s' = view_of i s \/ (life_step (view_of i s) (view_of i s') /\ ~ untouched (view_of i s) /\
      (v_starter (view_of i s) = None -> v_starter (view_of i s') <> Some Queued))) ->
  requests_inv s'.
Proof.
  intros [Hl Hi Hu Hd Hn Ha Ht] Hpc Hq Hidle Hnone Hv. constructor; rewrite ?Hpc, ?Hq; try done.
  - intros i. destruct (Hv i) as [->|(Hs & _ & Hnq)]; [done|]. apply (life_step_preserves (view_of i s)); [done|done| |apply count_if_nonneg].
    intros H1 H2. by destruct (Hnq H1).
  - intros i Hr. rewrite (Hnone i Hr). by apply Hu.
  - intros i Hin. destruct (Hv i) as [->|(_ & Hnt & _)]; [by apply Ha|]. destruct Hnt. by apply Ha.
  - intros i req Hr Hun. destruct (Hv i) as [Heq|(Hs & _)]; [rewrite Heq in Hun; by eapply Ht|].
    by destruct (life_step_touched _ _ (Hl i) Hs).
Qed.

Lemma exec_starter_inv l s s' : requests_inv s -> exec_starter Match l s = Some s' -> requests_inv s'.
Proof.
  intros Hinv H. destruct (exec_starter_view l s s' H (ri_life s Hinv)) as (id & st & Hst & [req Hr] & Hown & Hother).
  destruct (starter_pc Match l s s' H) as (Hpc & Hq & _). apply (goroutine_inv s); [done..| | |].
  - intros Hs. rewrite (ri_idle s Hinv Hs) in Hst. done.
  - intros i Hi. apply Hother. intros ->. congruence.
  - intros i. destruct (decide (i = id)) as [->|Hi]; [right|left; by apply Hother]. split; [done|].
    unfold untouched. cbn. rewrite Hst. split; [by intros []|done].
Qed.

Lemma exec_worker_inv l s s' : requests_inv s -> exec_worker l s = Some s' -> requests_inv s'.
Proof.
  intros Hinv H. destruct (worker_pc l s s' H) as (Hpc & Hq & _ & Hs).
  pose proof (fun i => exec_worker_view l s s' i H (ri_life s Hinv i)) as Hv.
  apply (goroutine_inv s); [done..| | |].
  - intros Hst. rewrite Hs. by apply (ri_idle s Hinv).
  - intros i Hi. destruct (Hv i) as [?|[_ Hc]]; [done|]. by destruct (ri_unknown s Hinv i Hi) as (_ & ? & _).
  - intros i. destruct (Hv i) as [?|[Hstep Hc]]; [by left|right]. split; [done|]. split; [by intros (_ & ? & _)|].
    cbn. rewrite Hs. by intros ->.
Qed.

(** How the steps of [Listen] that accept nothing go through the deferred requests. *)
Lemma listen_phases l s s' : exec_listen has_callback l s = Some s' -> NoDup (deferred (queue_of s)) ->
  (forall id req werr, l = LAdd id req werr -> pc s <> Listening) ->
  queue_of s' = queue_of s /\
  (forall i, i ∈ ahead (pc s') (queue_of s) -> i ∈ ahead (pc s) (queue_of s) /\ i ∉ created l s) /\
  (forall i, i ∈ ahead (pc s) (queue_of s) -> i ∉ created l s -> i ∈ ahead (pc s') (queue_of s) \/ (late (pc s') = true /\ i ∈ deferred (queue_of s))) /\
  (late (pc s) = true -> late (pc s') = true) /\
  (starting (pc s) = true -> starting (pc s') = false -> starters (work s) = ∅) /\
  (starting (pc s) = false -> starting (pc s') = false -> created l s = []) /\
  (forall i, i ∈ created l s -> i ∈ ahead (pc s) (queue_of s) /\ starting (pc s) = false).
Proof.
  unfold deferred. intros H (_ & Hdis & _)%NoDup_app Hadd. unfold created.
  destruct l as [| | |id req werr| |runSucceeded now| | | |werrs now| | | |werrs|id conn werr now|id resp werr now|wid id werr| | | | | | | | |];
    destruct (pc s) eqn:Hpc; cbn in H; rewrite ?Hpc in H; try discriminate H.
  all: try (by destruct (Hadd id req werr)).
  all: try (repeat case_match; simplify_eq; cbn; rewrite ?Hpc; unfold no_starters in *; bool_to_prop; cbn; set_solver).
  - destruct (phase1Wg (work s) =? 0); [|discriminate H]. injection H as <-.
    destruct (phase1_waited_fields has_callback runSucceeded s) as [-> ->]. cbn. set_solver.
  - injection H as <-. destruct (after_phase1_fields runSucceeded werrs now s) as [-> ->].
    destruct (shouldSkipBackgroundTransfersAfterPhase1 runSucceeded s); cbn; set_solver.
  - destruct (_ && _); [|discriminate H]. injection H as <-. destruct (cancel_waited_fields werrs s) as [-> ->]. cbn. set_solver.
Qed.

Lemma listen_inv l s s' : requests_inv s -> exec_listen has_callback l s = Some s' ->
  (forall id req werr, l = LAdd id req werr -> pc s <> Listening) -> requests_inv s'.
Proof.
  intros [Hl Hi Hu Hd Hn Ha Ht] H Hadd.
  destruct (listen_phases l s s' H Hn Hadd) as (Hq & Hahead & Hleft & Hlate & Hstop & Hnone & Hcr).
  destruct (exec_listen_requests l s s' H) as [Hsame Hst].
  assert (forall i, i ∉ created l s -> view_of i s' = view_of i s) as Hv.
  { intros i Hc. apply same_view; [done|]. by rewrite Hst, decide_False. }
  assert (forall i, i ∈ created l s -> life_step (view_of i s) (view_of i s') /\ untouched (view_of i s)) as Hc.
  { intros i Hc. destruct (Hcr i Hc) as [Hin Hidle]. split; [|by apply Ha]. apply queued_view; [done| |by rewrite Hst, decide_True].
    by rewrite (Hi Hidle). }
  constructor; rewrite ?Hq.
  - intros i. destruct (decide (i ∈ created l s)) as [Hin|Hin]; [|by rewrite Hv].
    destruct (Hc i Hin) as [Hs Hun]. by apply (life_step_preserves (view_of i s)); [|done..|apply count_if_nonneg].
  - intros Hs'. destruct (starting (pc s)) eqn:Hs.
    + apply map_empty. intros i. rewrite Hst, (Hstop eq_refl Hs'). case_decide as Hin; [|done]. by destruct (Hcr i Hin).
    + apply map_empty. intros i. rewrite Hst, (Hnone eq_refl Hs'), (Hi eq_refl). by rewrite decide_False by apply not_elem_of_nil.
  - intros i Hr. rewrite Hv; [by apply Hu|]. intros Hin. destruct (Hcr i Hin) as [Hin' _].
    assert (i ∈ deferred (queue_of s)) as Hdef by (unfold deferred; destruct (pc s); cbn in Hin'; set_solver).
    destruct (Hd i Hdef) as (req & Hr' & _). congruence.
  - done.
  - done.
  - intros i Hin. destruct (Hahead i Hin) as [Hin' Hnc]. rewrite Hv by done. by apply Ha.
  - intros i req Hr Hun. destruct (decide (i ∈ created l s)) as [Hin|Hin].
    + destruct (Hc i Hin) as [Hs _]. by destruct (life_step_touched _ _ (Hl i) Hs).
    + rewrite Hv in Hun by done. destruct (Ht i req Hr Hun) as [Hin'|[Hlt Hdef]]; [by apply Hleft|]. right. split; [by apply Hlate|done].
Qed.

Lemma accept_inv id req werr s : requests_inv s -> pc s = Listening -> requests (queue_of s) !! id = None ->
  requests_inv (accept id req werr s).
Proof.
  intros [Hl Hi Hu Hd Hn Ha Ht] Hpc Hr. destruct (accept_requests id req werr s) as [Hsame Hst].
  specialize (Hi ltac:(by rewrite Hpc)). pose proof (Hu id Hr) as Hunt.
  assert (forall i, i <> id \/ ImmediateRetrieval req = false -> view_of i (accept id req werr s) = view_of i s) as Hv.
  { intros i Hne. apply same_view; [done|]. rewrite Hst. rewrite decide_False; [done|].
    destruct (ImmediateRetrieval req); [|apply not_elem_of_nil]. rewrite list_elem_of_singleton. by destruct Hne. }
  assert (ImmediateRetrieval req = true -> life_step (view_of id s) (view_of id (accept id req werr s))) as Hq.
  { intros Him. apply queued_view; [done|by rewrite Hi|]. rewrite Hst, decide_True; [done|]. rewrite Him. by apply list_elem_of_singleton. }
  assert (queue_of (accept id req werr s) = count_request req id (queue_of s)) as HQ by (unfold accept; by destruct (negb _)).
  assert (pc (accept id req werr s) = if ImmediateRetrieval req then StartingImmediate else Listening) as HP.
  { unfold accept. destruct (ImmediateRetrieval req); [done|exact Hpc]. }
  assert (id ∉ deferred (queue_of s)) as Hnd by (intros Hin; destruct (Hd id Hin) as (? & ? & _); congruence).
  assert (forall i, i ∈ deferred (count_request req id (queue_of s)) <->
    i ∈ deferred (queue_of s) \/ (i = id /\ ImmediateRetrieval req = false)) as Hdef.
  { intros i. unfold deferred, count_request. cbn. destruct (ImmediateRetrieval req), (BackgroundTransfer req); cbn; set_solver. }
  assert (ahead (pc (accept id req werr s)) (count_request req id (queue_of s)) = deferred (count_request req id (queue_of s))) as Hah.
  { rewrite HP. by destruct (ImmediateRetrieval req). }
  constructor; rewrite ?HQ.
  - intros i. destruct (decide (i = id)) as [->|Hne]; [|rewrite Hv by (by left); apply Hl].
    destruct (ImmediateRetrieval req) eqn:Him; [|rewrite Hv by (by right); apply Hl].
    by apply (life_step_preserves (view_of id s)); [|apply Hq|done|apply count_if_nonneg].
  - rewrite HP. destruct (ImmediateRetrieval req) eqn:Him; [done|]. intros _. apply map_empty. intros i.
    rewrite Hst, Hi, decide_False; [done|]. rewrite ?Him. apply not_elem_of_nil.
  - intros i. cbn. rewrite lookup_insert_None. intros [Hni Hne]. rewrite Hv by (by left). by apply Hu.
  - intros i Hin%Hdef. cbn. destruct Hin as [Hin|[-> Him]].
    + destruct (Hd i Hin) as (r & Hr' & Him & Hbg). assert (i <> id) as Hne by (intros ->; congruence).
      exists r. rewrite lookup_insert_ne by done. split; [done|]. split; [done|]. rewrite Hbg.
      destruct (_ && _); [|done]. set_solver.
    + exists req. rewrite lookup_insert_eq. split; [done|]. split; [done|]. rewrite Him. cbn. unfold deferred in Hnd.
      destruct (BackgroundTransfer req); set_solver.
  - unfold deferred, count_request. cbn. unfold deferred in *.
    destruct (ImmediateRetrieval req), (BackgroundTransfer req); cbn; try done.
    + rewrite app_assoc. apply NoDup_app. split; [done|]. split; [set_solver|apply NoDup_singleton].
    + rewrite <- app_assoc, Permutation_app_comm, <- app_assoc. cbn. apply NoDup_cons. split; [set_solver|].
      by rewrite Permutation_app_comm.
  - rewrite Hah. intros i Hin%Hdef. destruct Hin as [Hin|[-> Him]].
    + rewrite Hv; [apply Ha; by rewrite Hpc|]. left. by intros ->.
    + rewrite Hv by (by right). done.
  - rewrite Hah. intros i r Hri Hun. left. apply Hdef. cbn in Hri.
    destruct (decide (i = id)) as [->|Hne].
    + right. split; [done|]. destruct (ImmediateRetrieval req) eqn:Him; [|done].
      by destruct (life_step_touched _ _ (Hl id) (Hq eq_refl)).
    + left. rewrite lookup_insert_ne in Hri by done. rewrite Hv in Hun by (by left).
      destruct (Ht i r Hri Hun) as [Hin|[Hlt _]]; rewrite Hpc in *; done.
Qed.

Lemma exec_inv l s s' : requests_inv s -> exec Match has_callback l s = Some s' -> requests_inv s'.
Proof.
  intros Hinv. unfold exec. destruct (exec_listen has_callback l s) as [s1|] eqn:H1.
  - intros [= <-]. destruct l as [| | |id req werr| | | | | | | | | | | | | | | | | | | | | |];
      try (by apply (listen_inv _ s s1 Hinv H1)).
    assert (pc s = Listening \/ pc s <> Listening) as [Hpc|Hpc] by (destruct (pc s); by (left + right)); [|apply (listen_inv _ s s1 Hinv H1); by intros ???].
    cbn in H1. rewrite Hpc in H1. destruct (requests (queue_of s) !! id) eqn:Hr; [discriminate H1|].
    destruct (completions (res s) !! id); [discriminate H1|]. injection H1 as <-. by apply accept_inv.
  - destruct (exec_starter Match l s) as [s2|] eqn:H2; [intros [= <-]; by apply exec_starter_inv in H2|by apply exec_worker_inv].
Qed.

Lemma requests_reachable limit s : reachable Match has_callback limit s -> requests_inv s.
Proof.
  unfold reachable. revert s. apply rtc_ind_r; [|intros x y _ [l Hl] IH; by eapply exec_inv].
  constructor; cbn; try done.
  - intros i. unfold life. cbn. rewrite !lookup_empty. cbn. unfold files_of, open_of, failures_of. cbn. rewrite !count_if_empty. auto.
  - intros i Hin. by apply elem_of_nil in Hin.
  - constructor.
Qed.

(** The worker of the file reported success. *)
Definition arrived (w : worker) : Prop := exists b, w_state w = b /\ unreported b = false /\ reported_failure b = false.

Lemma no_failures id s : failures_of id (work s) = 0 -> open_of id (work s) = 0 ->
  forall wid w, transfers (work s) !! wid = Some w -> w_request w = id -> arrived w.
Proof.
  intros Hf Ho wid w Hw Hid. pose proof (count_if_zero _ _ Hf wid w Hw) as H1. pose proof (count_if_zero _ _ Ho wid w Hw) as H2.
  cbn in H1, H2. unfold of_request in *. rewrite bool_decide_true in H1, H2 by done. by exists (w_state w).
Qed.

(** C4: a request is finished at most once, whatever order its files end in; it is finished
    successfully only if at least one file was started for it, every file listed for it was
    started, and each has been received and gave back its slot; and as long as one of its
    files is under way, it is not finished. *)
Theorem requests_are_finished_once limit s id : reachable Match has_callback limit s ->
  (length (finishes id (res s)) <= 1)%nat /\
  (finishes id (res s) = [true] ->
     exists c, trackers (work s) !! id = Some c /\ 0 < total c /\ total c = files_of id (work s) /\ starters (work s) !! id = None /\
       forall wid w, transfers (work s) !! wid = Some w -> w_request w = id -> arrived w) /\
  (0 < open_of id (work s) -> finishes id (res s) = []).
Proof.
  intros Hr. pose proof (ri_life s (requests_reachable limit s Hr) id) as Hl. unfold life, view_of in Hl. cbn in Hl.
  destruct (starters (work s) !! id) as [[| |rest]|], (trackers (work s) !! id) as [c|] eqn:Hc; try done.
  - destruct Hl as (_ & _ & _ & ->). split; [cbn; lia|by split].
  - destruct Hl as (_ & _ & _ & ->). split; [cbn; lia|by split].
  - destruct Hl as (_ & _ & _ & ->). split; [cbn; lia|by split].
  - destruct Hl as (Ho & (Ht & Hcomp & Hfail) & Hfin). cbn in *. rewrite Hfin.
    destruct (Z.eqb_spec (completed c) (total c)) as [He|]; cbn; [|split; [lia|by split]]. split; [lia|]. split; [|intros; lia].
    intros [= [Hf Hz]%negb_true_iff%orb_false_iff]. apply Z.eqb_neq in Hz. destruct (Hfail Hf) as [Hnf Htot].
    assert (open_of id (work s) = 0) as Hopen by lia.
    exists c. split; [done|]. split; [lia|]. split; [lia|]. split; [done|]. by apply no_failures.
  - destruct Hl as (_ & Ho & _ & [-> | ->]); (split; [cbn; lia|split; [discriminate|lia || done]]).
Qed.

End Steps.

Lemma requests_are_finished_once_witness :
  let s := state_after (take 14 good_run) in
  finishes 0 (res s) = [true] /\
  exists c, trackers (work s) !! 0%nat = Some c /\ 0 < total c /\ total c = files_of 0 (work s) /\ starters (work s) !! 0%nat = None /\
    forall wid w, transfers (work s) !! wid = Some w -> w_request w = 0%nat -> arrived w.
Proof.
  destruct (requests_are_finished_once match_all true 4 (state_after (take 14 good_run)) 0) as (_ & H & _).
  - apply state_after_reachable. refine (bool_decide_unpack _ _). vm_compute. exact I.
  - assert (finishes 0 (res (state_after (take 14 good_run))) = [true]) as Hf by (vm_compute; reflexivity).
    split; [exact Hf|exact (H Hf)].
Defined.
