(* ===== verification/TransferPhases.v ===== *)
(** * Performix: the two phases of the transfers, and failed runs

    The waits of [Listen] in [TransferManager]: when it returns every request it accepted is
    settled; a flush that reports no error has received every file; after a failed run the
    optional files are rolled back and none is fetched any more. *)

From S2P Require Import Prelude.
From S2P Require Import FilePaths.
From S2P Require Import Model.
From S2P Require Import TransferSlots.
From S2P Require Import RunBuilder.
From S2P Require Import TransferProgress.
From S2P Require Import TransferManager.
From S2P Require Import TransferWorkers.
From S2P Require Import TransferRequests.

Local Open Scope Z_scope.

(** ** Results only grow *)

Definition errors_of (p : transferPhase) (r : results) : error_map :=
  match p with
  | phase1TransferPhase => errors_phase1 (transferErrors_of r)
  | backgroundTransferPhase => errors_background (transferErrors_of r)
  end.

Record grows (r r' : results) : Prop := {
  gr_errors : forall p, errors_of p r <> ∅ -> errors_of p r' <> ∅;
  gr_completed : forall t, t ∈ completedTransfers r -> t ∈ completedTransfers r';
  gr_rollbacks : forall t, t ∈ rollbacks r -> t ∈ rollbacks r'
}.

#[export] Instance grows_preorder : PreOrder grows.
Proof.
  split.
  - intros r. by constructor.
  - intros r1 r2 r3 [H1 H2 H3] [G1 G2 G3]. constructor; eauto.
Qed.

Lemma errors_record e t p q r : errors_of q (recordTransferError e t p r) =
  if decide (q = p) then <[newTransferErrorKey t := e]> (errors_of q r) else errors_of q r.
Proof. by destruct p, q. Qed.

Lemma grows_record e t p r : grows r (recordTransferError e t p r).
Proof.
  constructor; [|done..]. intros q Hq. rewrite errors_record. case_decide; [apply insert_non_empty|done].
Qed.

Lemma grows_update id req m f werr r : grows r (update_manifest id req m f werr r).
Proof.
  unfold update_manifest. destruct (bool_decide _); [done|]. destruct werr as [t|]; [|by constructor].
  etransitivity; [|apply grows_record]. by constructor.
Qed.

Lemma grows_finish id req b werr r : grows r (finishTransferRequest id req b werr r).
Proof.
  unfold finishTransferRequest, finishManifestRequest.
  etransitivity; [apply (grows_update id req (if b then MClear (ManifestRelativePath req) else MRemove (ManifestRelativePath req)) UpdateEntryError werr)|].
  by constructor.
Qed.

Lemma grows_add_completed t r : grows r (addCompletedTransfer t r).
Proof. constructor; [done| |done]. intros t' Ht'. cbn. set_solver. Qed.

Lemma grows_rollback r : grows r (rollback_optional r).
Proof. constructor; [done..|]. intros t' Ht'. cbn. set_solver. Qed.

Lemma grows_closed known : goroutine_closed known grows.
Proof. constructor; intros; [apply grows_record|apply grows_finish]. Qed.

Lemma grows_listen known : listen_closed known grows.
Proof. constructor; intros; [apply grows_update..|by constructor|apply grows_rollback]. Qed.

Section Steps.
Context (Match : string -> string -> result string bool) (has_callback : bool).

Lemma exec_grows l s s' : exec Match has_callback l s = Some s' -> grows (res s) (res s').
Proof.
  intros H. destruct (exec_results Match has_callback _ grows l s s' (grows_closed _) (grows_listen _) (fun _ _ => iff_refl _) H) as [?|(wid & w & _ & _ & ->)]; [done|].
  apply grows_add_completed.
Qed.

(** ** Outcomes of the workers *)

(** The outcome of the file so far, when it is known. *)
Definition outcome (st : worker_state) : option bool :=
  match st with
  | Spawned | Acquiring | Receiving => None
  | Releasing b | Completing b | Leaving b | LeavingBase b | Ended b => Some b
  end.

(** The outcome is on record: a failure as an error of the phase, a success as a completed
    transfer. *)
Definition on_record (w : worker) (r : results) : Prop :=
  match outcome (w_state w) with
  | None => True
  | Some true => w_transfer w ∈ completedTransfers r
  | Some false => errors_of (w_phase w) r <> ∅
  end.

Lemma grows_on_record w r r' : grows r r' -> on_record w r -> on_record w r'.
Proof. intros [He Hc _]. unfold on_record. destruct (outcome (w_state w)) as [[]|]; [apply Hc|apply He|done]. Qed.

(** Where a worker comes from: it was there, it is new, or it moved. *)
Inductive worker_origin (s s' : TransferManager) (wid : nat) (w' : worker) : Prop :=
| wo_same : transfers (work s) !! wid = Some w' -> worker_origin s s' wid w'
| wo_new id req info rest local : requests (queue_of s) !! id = Some req -> starters (work s) !! id = Some (Starting (info :: rest)) ->
    w' = {| w_request := id; w_phase := transferPhaseForRequest req;
            w_transfer := resolved (transfer_of req) (info_Path info) local; w_state := Spawned |} ->
    worker_origin s s' wid w'
| wo_moved w st : transfers (work s) !! wid = Some w -> w' = with_state w st -> (on_record w (res s) -> on_record w' (res s')) ->
    worker_origin s s' wid w'.

Lemma record_not_empty e t p r : errors_of p (recordTransferError e t p r) <> ∅.
Proof. rewrite errors_record, decide_True by done. apply insert_non_empty. Qed.

Lemma moved_origin s s' wid w st : transfers (work s) !! wid = Some w -> transfers (work s') = <[wid := with_state w st]> (transfers (work s)) ->
  (on_record w (res s) -> on_record (with_state w st) (res s')) ->
  forall i w', transfers (work s') !! i = Some w' -> worker_origin s s' i w'.
Proof.
  intros Hw Ht Hrec i w'. rewrite Ht, lookup_insert_Some. intros [[<- <-]|[_ Hi]]; [by eapply wo_moved|by apply wo_same].
Qed.

Lemma exec_worker_origin l s s' : exec_worker l s = Some s' -> forall i w', transfers (work s') !! i = Some w' -> worker_origin s s' i w'.
Proof.
  intros H. pose proof (exec_worker_work l s s' H) as Hws.
  destruct l; cbn in H; try discriminate H; destruct (transfers (work s) !! wid) as [w|] eqn:Hw; try discriminate H; cbn in H;
    destruct (w_state w) eqn:Hst; try discriminate H.
  - injection H as <-. unfold worker_acquire in *. destruct (cancelled_for w s); eapply moved_origin; try done; unfold on_record; cbn; intros _.
    apply record_not_empty.
  - unfold worker_granted in H. case_bool_decide; [|discriminate H]. injection H as <-. by eapply moved_origin.
  - unfold worker_abandon in H. destruct (cancelled_for w s); [|discriminate H].
    destruct (cancelQueuedRequest _ _ _) as [r []]; injection H as <-; eapply moved_origin; try done; unfold on_record; cbn; intros _.
    apply record_not_empty.
  - injection H as <-. unfold on_disp, track. destruct (run_call _ _). intros i w' Hi. by apply wo_same.
  - injection H as <-. unfold worker_received. destruct err; eapply moved_origin; try done; unfold on_record; cbn; intros _.
    + apply record_not_empty.
    + apply elem_of_app. right. by apply list_elem_of_singleton.
  - injection H as <-. unfold worker_release. destruct (Release _); eapply moved_origin; try done; unfold on_record; cbn; rewrite Hst; [done|].
    intros _. apply record_not_empty.
  - destruct (requests (queue_of s) !! w_request w) as [req|]; [|discriminate H]. injection H as <-.
    pose proof (tracker_done_results _ grows (grows_closed (fun _ _ => True)) (w_request w) req success werr s I) as Hg.
    destruct (tracker_done_work (w_request w) req success werr s) as (Ht & _).
    eapply (moved_origin _ _ wid w (Leaving success)); [done|cbn; by rewrite Ht|]. intros Hr. apply (grows_on_record w _ _ Hg) in Hr.
    unfold on_record in *. rewrite Hst in Hr. exact Hr.
  - injection H as <-. eapply (moved_origin _ _ wid w (if isTransferMandatory (w_transfer w) then Ended success else LeavingBase success));
      [done|by destruct (w_phase w)|]. unfold on_record. rewrite Hst. cbn. by destruct (isTransferMandatory (w_transfer w)), (w_phase w).
  - injection H as <-. eapply (moved_origin _ _ wid w (Ended success)); [done|done|]. unfold on_record. rewrite Hst. done.
Qed.

Lemma exec_origin l s s' : exec Match has_callback l s = Some s' ->
  forall i w', transfers (work s') !! i = Some w' -> worker_origin s s' i w'.
Proof.
  unfold exec. destruct (exec_listen has_callback l s) as [s1|] eqn:H1; [|destruct (exec_starter Match l s) as [s2|] eqn:H2].
  - intros [= <-]. destruct (exec_listen_work has_callback l s s1 H1) as (Ht & _). intros i w'. rewrite Ht. apply wo_same.
  - intros [= <-]. destruct l; cbn in H2; try discriminate H2; destruct (requests (queue_of s) !! id) as [req|] eqn:Hreq; try discriminate H2; cbn in H2.
    + assert (transfers (work s2) = transfers (work s)) as Ht; [|intros i w'; rewrite Ht; apply wo_same].
      destruct (starters (work s) !! id) as [[]|], (pc s); try discriminate H2; injection H2 as <-;
        [by apply begin_request_work| |]; unfold flushTransfer; (destruct (_ && _); [done|by apply begin_request_work]).
    + destruct (starters (work s) !! id) as [[]|]; try discriminate H2; injection H2 as <-.
      destruct (list_answered_work Match id req resp werr now s) as (Ht & _). intros i w'. rewrite Ht. apply wo_same.
    + destruct (starters (work s) !! id) as [[| |[|info rest]]|] eqn:Hs; try discriminate H2.
      destruct (transfers (work s) !! wid) eqn:Hw; [discriminate H2|]. injection H2 as <-. unfold start_file.
      destruct (RemapGlobbedPath _ _ _ _) as [local|e].
      * match goal with |- context [next_files id rest ?x] => destruct (next_files_view id rest x id) as (_ & -> & _) end.
        intros i w'. assert (transfers (work (startConcreteTransfer wid id req (resolved (transfer_of req) (info_Path info) local) s)) =
          <[wid := {| w_request := id; w_phase := transferPhaseForRequest req;
            w_transfer := resolved (transfer_of req) (info_Path info) local; w_state := Spawned |}]> (transfers (work s))) as ->.
        { unfold startConcreteTransfer. by destruct (transferPhaseForRequest req). }
        rewrite lookup_insert_Some. intros [[<- <-]|[_ Hi]]; [by eapply wo_new|by apply wo_same].
      * match goal with |- context [next_files id rest ?x] => destruct (next_files_view id rest x id) as (_ & -> & _) end.
        match goal with |- context [tracker_done id req false werr ?x] => destruct (tracker_done_work id req false werr x) as (-> & _) end.
        intros i w' Hi. apply wo_same. exact Hi.
  - apply exec_worker_origin.
Qed.

(** ** The invariant of the phases *)

(** The run failed, and the optional transfers have been rolled back. *)
Definition rolled_back (x : listen_state) : bool :=
  match x with
  | FlushingPhase1 false | WaitingForPhase1 false | AfterPhase1 false | FlushingBackground false | WaitingForBackground false => true
  | _ => false
  end.

Definition phase1_over (x : listen_state) : bool :=
  match x with NotStarted | AfterPhase1 _ | FlushingBackground _ | WaitingForBackground _ | Returned _ => true | _ => false end.

(** The requests that are being started in this state of [Listen]. *)
Definition may_start (x : listen_state) (st : starter) (req : TransferRequest) : Prop :=
  match x with
  | FlushingPhase1 ok => BackgroundTransfer req = false /\ (ok = false -> st = Queued \/ isTransferMandatory (transfer_of req) = true)
  | FlushingBackground ok => BackgroundTransfer req = true /\ (ok = false -> st = Queued \/ isTransferMandatory (transfer_of req) = true)
  | _ => True
  end.

Record phases_inv (s : TransferManager) : Prop := {
  ph_worker : forall wid w, transfers (work s) !! wid = Some w ->
      (exists req, requests (queue_of s) !! w_request w = Some req /\ w_phase w = transferPhaseForRequest req /\
                   mandatory w = isTransferMandatory (transfer_of req)) /\ on_record w (res s);
  ph_starter : forall id st, starters (work s) !! id = Some st ->
      exists req, requests (queue_of s) !! id = Some req /\ may_start (pc s) st req;
  ph_phase1 : phase1_over (pc s) = true -> phase1Wg (work s) = 0;
  ph_background : (match pc s with NotStarted | Returned _ => True | _ => False end) -> backgroundWg (work s) = 0;
  ph_rolled_back : rolled_back (pc s) = true ->
      baseWg (work s) = 0 /\ forall t, t ∈ completedTransfers (res s) -> isTransferMandatory t = false -> t ∈ rollbacks (res s)
}.

Lemma completed_update id req m f werr r : completedTransfers (update_manifest id req m f werr r) = completedTransfers r.
Proof. unfold update_manifest. destruct (bool_decide _); [done|]. by destruct werr. Qed.

Definition same_completed (r r' : results) : Prop := completedTransfers r' = completedTransfers r.

#[export] Instance same_completed_preorder : PreOrder same_completed.
Proof. split; unfold same_completed; [done|intros ???; congruence]. Qed.

Lemma same_completed_closed known : goroutine_closed known same_completed.
Proof.
  constructor; unfold same_completed; intros; [done|]. unfold finishTransferRequest, finishManifestRequest. cbn. apply completed_update.
Qed.

Lemma same_completed_listen known : listen_closed known same_completed.
Proof. constructor; unfold same_completed; intros; [apply completed_update..|done|done]. Qed.

(** Only a worker that receives adds a completed transfer. *)
Lemma exec_completed l s s' : exec Match has_callback l s = Some s' ->
  completedTransfers (res s') = completedTransfers (res s) \/
  exists wid w, transfers (work s) !! wid = Some w /\ w_state w = Receiving /\ completedTransfers (res s') = completedTransfers (res s) ++ [w_transfer w].
Proof.
  intros H. destruct (exec_results Match has_callback _ same_completed l s s' (same_completed_closed _) (same_completed_listen _) (fun _ _ => iff_refl _) H)
    as [?|(wid & w & Hw & Hst & ->)]; [by left|right; by exists wid, w].
Qed.

(** ** The invariant is kept *)

Lemma listen_starters l s s' : requests_inv s -> phases_inv s -> exec_listen has_callback l s = Some s' ->
  (forall id req werr, l = LAdd id req werr -> pc s <> Listening) ->
  forall id st, starters (work s') !! id = Some st -> exists req, requests (queue_of s') !! id = Some req /\ may_start (pc s') st req.
Proof.
  intros Hri Hph H Hadd id st. destruct (listen_phases has_callback l s s' H (ri_nodup s Hri) Hadd) as (Hq & _ & _ & _ & Hstop & _ & Hcr).
  destruct (exec_listen_requests has_callback l s s' H) as [_ Hst]. rewrite Hst, Hq. case_decide as Hin.
  - intros [= <-]. destruct (Hcr id Hin) as [Hah _].
    assert (id ∈ deferred (queue_of s)) as Hdef by (unfold deferred; destruct (pc s); cbn in Hah; set_solver).
    destruct (ri_deferred s Hri id Hdef) as (req & Hr & _ & Hbg). exists req. split; [done|].
    assert (forall i, i ∈ deferredPhase1Transfers (queue_of s) -> i ∉ deferredBackgroundTransfers (queue_of s)) as Hdis.
    { pose proof (ri_nodup s Hri) as (_ & Hd & _)%NoDup_app. intros i H1 H2. by apply (Hd i). }
    unfold created in Hin. destruct l as [| | |id' req' werr| |[] now| | | |werrs now| | | |werrs|id' conn werr now|id' resp werr now|wid id' werr| | | | | | | | |];
      try (by apply elem_of_nil in Hin); destruct (pc s) eqn:Hpc; try (by apply elem_of_nil in Hin);
      cbn in H; rewrite ?Hpc in H.
    + by destruct (Hadd id' req' werr).
    + injection H as <-. cbn. split; [|by left]. apply not_true_iff_false. rewrite Hbg. by apply Hdis.
    + destruct (baseWg (work s) =? 0); [|discriminate H]. injection H as <-. cbn. split; [|by left].
      apply not_true_iff_false. rewrite Hbg. by apply Hdis.
    + injection H as <-. destruct (after_phase1_fields runSucceeded werrs now s) as [_ ->].
      destruct (shouldSkipBackgroundTransfersAfterPhase1 runSucceeded s); [by apply elem_of_nil in Hin|].
      cbn. split; [by apply Hbg|by left].
  - intros Hid. destruct (starting (pc s)) eqn:Hs; [|by rewrite (ri_idle s Hri Hs) in Hid].
    destruct (starting (pc s')) eqn:Hs'; [|by rewrite (Hstop eq_refl eq_refl) in Hid].
    assert (pc s' = pc s) as ->; [|by apply (ph_starter s Hph)]. clear - H Hs Hs'.
    destruct l as [| | |id' req' werr| |runSucceeded now| | | |werrs now| | | |werrs|id' conn werr now|id' resp werr now|wid id' werr| | | | | | | | |];
      destruct (pc s) eqn:Hpc; try discriminate Hs; cbn in H; rewrite ?Hpc in H; try discriminate H; repeat case_match; simplify_eq; done.
Qed.

Lemma may_start_on x st0 st req : may_start x st0 req -> st0 <> Queued -> may_start x st req.
Proof. destruct x; cbn; try done; intros [? Hm] Hne; (split; [done|]); intros Hok; destruct (Hm Hok); [done|by right|done|by right]. Qed.

Lemma begin_starter id req conn werr now s st : starters (work (begin_request id req conn werr now s)) !! id = Some st -> st = Listing.
Proof.
  unfold begin_request. destruct (resolveTransferAgentConn req conn); cbn; [rewrite lookup_insert_eq; by intros [= <-]|].
  by rewrite lookup_delete_eq.
Qed.

(** A goroutine goes on with a request that may be started in this state of [Listen]. *)
Lemma starter_stays l s s' : requests_inv s -> phases_inv s -> exec_starter Match l s = Some s' ->
  forall id st, starters (work s') !! id = Some st -> exists req, requests (queue_of s) !! id = Some req /\ may_start (pc s) st req.
Proof.
  intros Hri Hph H id st Hst.
  destruct (exec_starter_view Match l s s' H (ri_life s Hri)) as (id0 & st0 & Hst0 & [req0 Hr0] & _ & Hother).
  destruct (decide (id = id0)) as [->|Hne].
  2:{ assert (view_of id s' = view_of id s) as Hv by (by apply Hother). apply (ph_starter s Hph).
      change (starters (work s) !! id) with (v_starter (view_of id s)). by rewrite <- Hv. }
  exists req0. split; [done|]. destruct (ph_starter s Hph id0 st0 Hst0) as (req & Hr & Hmay). assert (req = req0) as -> by congruence.
  assert (st0 = Queued \/ st0 <> Queued) as [->|Hnq] by (destruct st0; by (left + right)); [|by eapply may_start_on].
  destruct l; cbn in H; try discriminate H; destruct (requests (queue_of s) !! id) as [req|] eqn:Hreq; try discriminate H; cbn in H.
  - destruct (decide (id = id0)) as [->|Hne].
    + rewrite Hst0 in H. destruct (pc s) eqn:Hpc; try discriminate H; [done|..]; injection H as <-; assert (req = req0) as -> by congruence;
        unfold flushTransfer in Hst; destruct (negb runSucceeded && negb (isTransferMandatory (transfer_of req0))) eqn:Hg;
        try (cbn in Hst; by rewrite lookup_delete_eq in Hst); cbn in *; (split; [by apply Hmay|]); intros ->; right;
        by apply negb_false_iff in Hg.
    + assert (starters (work s') !! id0 = starters (work s) !! id0) as Hsame.
      { destruct (starters (work s) !! id) as [[]|] eqn:Hid, (pc s); try discriminate H; injection H as <-;
          [destruct (begin_request_view id req conn werr now s Hid) as [_ Ho]|
           destruct (flushTransfer_view runSucceeded id req conn werr now s Hid) as [_ Ho]..]; by apply (f_equal v_starter (Ho id0 ltac:(done))). }
      rewrite Hsame, Hst0 in Hst. by injection Hst as <-.
  - destruct (starters (work s) !! id) as [[]|] eqn:Hid; try discriminate H; injection H as <-.
    destruct (list_answered_view Match id req resp werr now s Hid) as [_ Ho].
    assert (id0 <> id) as Hne by (intros ->; congruence). pose proof (f_equal v_starter (Ho id0 Hne)) as Hsame. cbn in Hsame.
    rewrite Hsame, Hst0 in Hst. by injection Hst as <-.
  - destruct (starters (work s) !! id) as [[| |[|info rest]]|] eqn:Hid; try discriminate H.
    destruct (transfers (work s) !! wid) eqn:Hw; [discriminate H|]. injection H as <-.
    pose proof (ri_life s Hri id) as Hl. unfold life in Hl. cbn in Hl. rewrite Hid in Hl. destruct (trackers (work s) !! id) as [c|] eqn:Hc; [|done].
    destruct (start_file_view Match wid id req info rest werr s c Hid Hc Hw) as [_ Ho].
    assert (id0 <> id) as Hne by (intros ->; congruence). pose proof (f_equal v_starter (Ho id0 Hne)) as Hsame. cbn in Hsame.
    rewrite Hsame, Hst0 in Hst. by injection Hst as <-.
Qed.

(** A wait group at zero stays there unless a goroutine it counts is created. *)
Lemma work_step_quiet limit k k' : workers_inv limit k' -> work_step k k' ->
  (phase1Wg k = 0 -> (forall wid w, transfers k !! wid = None -> transfers k' !! wid = Some w -> w_phase w <> phase1TransferPhase) -> phase1Wg k' = 0) /\
  (backgroundWg k = 0 -> (forall wid w, transfers k !! wid = None -> transfers k' !! wid = Some w -> w_phase w <> backgroundTransferPhase) -> backgroundWg k' = 0) /\
  (baseWg k = 0 -> (forall wid w, transfers k !! wid = None -> transfers k' !! wid = Some w -> mandatory w = true) -> baseWg k' = 0).
Proof.
  intros [H1 H2 _ H3 _ _ _] Hs.
  pose proof (count_if_nonneg (in_phase_group phase1TransferPhase) (transfers k')).
  pose proof (count_if_nonneg (in_phase_group backgroundTransferPhase) (transfers k')).
  pose proof (count_if_nonneg in_base_group (transfers k')).
  destruct Hs as [Ht _ Hg|wid w Hw Hst Ht _ Hg|wid w st Hw Hch Ht Hg|wid w b Hw Hst Ht _ Hg|wid w b Hw Hst Ht _ Hg].
  - apply wgs_eq in Hg as (-> & -> & -> & _). done.
  - assert (forall P : worker -> Prop, (forall i x, transfers k !! i = None -> transfers k' !! i = Some x -> P x) -> P w) as Hnew.
    { intros P HP. apply (HP wid w Hw). by rewrite Ht, lookup_insert_eq. }
    unfold register in Hg. destruct (w_phase w) eqn:Hph; apply wgs_eq in Hg as (-> & -> & -> & _); cbn; (split; [|split]);
      intros Hz Hn; try (apply Hnew in Hn; by rewrite ?Hph in Hn); try done; apply Hnew in Hn; by rewrite Hn.
  - apply wgs_eq in Hg as (-> & -> & -> & _). done.
  - unfold finishPhaseTransfer in Hg. destruct (w_phase w); apply wgs_eq in Hg as (E1 & E2 & E3 & _); cbn in *;
      (split; [|split]); intros; lia.
  - unfold wgs in Hg. injection Hg as E1 E2 E3 _. (split; [|split]); intros; lia.
Qed.

Lemma listen_quiet l s s' : exec_listen has_callback l s = Some s' ->
  (phase1_over (pc s') = true -> phase1_over (pc s) = true \/ phase1Wg (work s) = 0) /\
  (match pc s' with NotStarted | Returned _ => True | _ => False end ->
     match pc s with NotStarted | Returned _ => True | _ => False end \/ backgroundWg (work s) = 0) /\
  (rolled_back (pc s') = true -> rolled_back (pc s) = true \/
     (baseWg (work s) = 0 /\ res s' = rollback_optional (res s))).
Proof.
  intros H. destruct l as [| | |id' req' werr| |runSucceeded now| | | |werrs now| | | |werrs|id' conn werr now|id' resp werr now|wid id' werr| | | | | | | | |];
    destruct (pc s) eqn:Hpc; cbn in H; rewrite ?Hpc in H; try discriminate H.
  all: repeat match type of H with context [if ?x then _ else _] => destruct x eqn:?; try discriminate H
         | context [match ?x !! ?i with _ => _ end] => destruct (x !! i) eqn:?; try discriminate H end; injection H as <-.
  all: try (unfold accept; destruct (ImmediateRetrieval req')).
  all: try (unfold flush_received; destruct runSucceeded).
  all: rewrite ?(proj2 (phase1_waited_fields has_callback _ _)), ?(proj2 (after_phase1_fields _ _ _ _)).
  all: try destruct (shouldSkipBackgroundTransfersAfterPhase1 runSucceeded s).
  all: cbn; rewrite ?Hpc; cbn; bool_to_prop; (split; [|split]); intros; try discriminate; auto.
  all: by destruct (base_cancelled (ctx s)).
Qed.

Lemma listen_phases_inv l s s' : requests_inv s -> phases_inv s -> exec_listen has_callback l s = Some s' -> phases_inv s'.
Proof.
  intros Hri Hph H.
  assert (exec Match has_callback l s = Some s') as He by (unfold exec; by rewrite H).
  destruct (exec_listen_work has_callback l s s' H) as (Ht & _ & Hg). apply wgs_eq in Hg as (E1 & E2 & E3 & _).
  destruct (listen_quiet l s s' H) as (Hq1 & Hq2 & Hq3). pose proof (exec_grows l s s' He) as Hgr. constructor.
  - intros wid w. rewrite Ht. intros Hw. destruct (ph_worker s Hph wid w Hw) as [(req & Hr & Hp) Hrec].
    split; [exists req; split; [by eapply exec_requests|done]|]. by eapply grows_on_record.
  - assert ((exists id req werr, l = LAdd id req werr /\ pc s = Listening) \/
      (forall id req werr, l = LAdd id req werr -> pc s <> Listening)) as [(id & req & werr & -> & Hpc)|Hadd].
    { destruct l; try (right; done). destruct (pc s) eqn:Hpc; try (right; done). left. eauto. }
    + cbn in H. rewrite Hpc in H. destruct (requests (queue_of s) !! id) eqn:Hr; [discriminate H|].
      destruct (completions (res s) !! id); [discriminate H|]. injection H as <-. intros i st.
      destruct (accept_requests id req werr s) as [_ ->]. case_decide as Hin.
      * destruct (ImmediateRetrieval req) eqn:Hi; [|by apply elem_of_nil in Hin]. apply list_elem_of_singleton in Hin as ->. intros _.
        exists req. unfold accept. rewrite Hi. cbn. by rewrite lookup_insert_eq.
      * rewrite (ri_idle s Hri) by (by rewrite Hpc). done.
    + by apply (listen_starters l s s').
  - intros Ho. rewrite E1. destruct (Hq1 Ho); [by apply (ph_phase1 s Hph)|done].
  - intros Ho. rewrite E2. destruct (Hq2 Ho); [by apply (ph_background s Hph)|done].
  - intros Ho. rewrite E3. destruct (Hq3 Ho) as [Hr|[Hz ->]].
    + destruct (ph_rolled_back s Hph Hr) as [Hz Hall]. split; [done|]. intros t Hin Hm. apply (gr_rollbacks _ _ Hgr), Hall; [|done].
      by rewrite <- (exec_listen_results Match has_callback _ same_completed (same_completed_listen _) l s s' (fun _ _ => iff_refl _) H).
    + split; [done|]. intros t Hin Hm. cbn in *. apply elem_of_app. right.
      apply list_elem_of_In, filter_In. split; [by apply list_elem_of_In|by rewrite Hm].
Qed.

Lemma in_group_counted limit k p wid w : workers_inv limit k -> transfers k !! wid = Some w -> in_phase_group p w = true ->
  match p with phase1TransferPhase => phase1Wg k | backgroundTransferPhase => backgroundWg k end <> 0.
Proof.
  intros [H1 H2 _ _ _ _ _] Hw Hin Hz. destruct p; [rewrite H1 in Hz|rewrite H2 in Hz]; by rewrite (count_if_zero _ _ Hz wid w Hw) in Hin.
Qed.

(** The steps of the goroutines. *)
Lemma goroutine_phases_inv limit l s s' : workers_inv limit (work s) -> workers_inv limit (work s') -> requests_inv s -> phases_inv s ->
  exec Match has_callback l s = Some s' -> pc s' = pc s -> queue_of s' = queue_of s ->
  (forall id st, starters (work s') !! id = Some st -> exists req, requests (queue_of s) !! id = Some req /\ may_start (pc s) st req) ->
  phases_inv s'.
Proof.
  intros Hw Hw' Hri Hph He Hpc Hq Hst.
  destruct (work_step_quiet limit _ _ Hw' (exec_work Match has_callback l s s' He)) as (Hq1 & Hq2 & Hq3).
  assert (forall wid w, transfers (work s) !! wid = None -> transfers (work s') !! wid = Some w ->
    exists req st, w_phase w = transferPhaseForRequest req /\ mandatory w = isTransferMandatory (transfer_of req) /\
      may_start (pc s) st req /\ st <> Queued /\ starting (pc s) = true) as Hnew.
  { intros wid w Hn Hi. destruct (exec_origin l s s' He wid w Hi) as [?|id req info rest local Hr Hs ->|w0 st Hw0 _ _]; [congruence| |congruence].
    destruct (ph_starter s Hph id _ Hs) as (req' & Hr' & Hm). assert (req' = req) as -> by congruence.
    exists req, (Starting (info :: rest)). split; [done|]. split; [done|]. split; [done|]. split; [done|].
    destruct (starting (pc s)) eqn:Hstart; [done|]. by rewrite (ri_idle s Hri Hstart) in Hs. }
  constructor; rewrite ?Hpc, ?Hq.
  - intros wid w Hi. destruct (exec_origin l s s' He wid w Hi) as [Hi0|id req info rest local Hr Hs ->|w0 st Hw0 -> Hrec].
    + destruct (ph_worker s Hph wid w Hi0) as [? Hrec]. split; [done|]. eapply grows_on_record; [by eapply exec_grows|done].
    + split; [by exists req|done].
    + destruct (ph_worker s Hph wid w0 Hw0) as [? Hrec0]. split; [done|by apply Hrec].
  - done.
  - intros Ho. apply Hq1; [by apply (ph_phase1 s Hph)|]. intros wid w Hn Hi. destruct (Hnew wid w Hn Hi) as (req & st & -> & _ & Hm & _ & Hs).
    destruct (pc s); try discriminate Ho; try discriminate Hs. destruct Hm as [Hb _]. unfold transferPhaseForRequest. by rewrite Hb.
  - intros Ho. apply Hq2; [by apply (ph_background s Hph)|]. intros wid w Hn Hi. destruct (Hnew wid w Hn Hi) as (req & st & _ & _ & _ & _ & Hs).
    by destruct (pc s).
  - intros Ho. destruct (ph_rolled_back s Hph Ho) as [Hz Hall]. split.
    + apply Hq3; [done|]. intros wid w Hn Hi. destruct (Hnew wid w Hn Hi) as (req & st & _ & -> & Hm & Hnq & Hs).
      destruct (pc s) as [| | | | |[]|[]|[]|[]|[]|]; try discriminate Ho; try discriminate Hs; destruct Hm as [_ Hm]; by destruct (Hm eq_refl).
    + intros t Hin Hm. destruct (exec_completed l s s' He) as [Hc|(wid & w & Hi & Hrx & Hc)]; rewrite Hc in Hin.
      * apply (gr_rollbacks _ _ (exec_grows l s s' He)). by apply Hall.
      * apply elem_of_app in Hin as [Hin|Hin]; [apply (gr_rollbacks _ _ (exec_grows l s s' He)); by apply Hall|].
        apply list_elem_of_singleton in Hin as ->. exfalso. rewrite (inv_base limit _ Hw) in Hz.
        pose proof (count_if_zero _ _ Hz wid w Hi) as Hf. unfold in_base_group, mandatory in Hf. by rewrite Hm, Hrx in Hf.
Qed.

Lemma exec_phases_inv limit l s s' : workers_inv limit (work s) -> workers_inv limit (work s') -> requests_inv s -> phases_inv s ->
  exec Match has_callback l s = Some s' -> phases_inv s'.
Proof.
  intros Hw Hw' Hri Hph He. pose proof He as H. unfold exec in H.
  destruct (exec_listen has_callback l s) as [s1|] eqn:H1; [injection H as <-; by eapply listen_phases_inv|].
  destruct (exec_starter Match l s) as [s2|] eqn:H2.
  - injection H as <-. destruct (starter_pc Match l s s2 H2) as (Hpc & Hq & _). apply (goroutine_phases_inv limit l s s2); [done..|].
    by eapply starter_stays.
  - destruct (worker_pc l s s' H) as (Hpc & Hq & _ & Hs). apply (goroutine_phases_inv limit l s s'); [done..|]. intros id st. rewrite Hs. apply (ph_starter s Hph).
Qed.

Lemma phases_reachable limit s : reachable Match has_callback limit s -> phases_inv s.
Proof.
  intros Hr. assert (workers_inv limit (work s) /\ requests_inv s /\ phases_inv s) as (_ & _ & ?); [|done]. revert s Hr.
  unfold reachable. apply rtc_ind_r.
  - split; [apply init_workers|]. split; [apply (requests_reachable Match has_callback limit); apply rtc_refl|].
    constructor; cbn; try done.
  - intros x y _ [l Hl] (Hw & Hri & Hph).
    assert (workers_inv limit (work y)) as Hw' by (by eapply work_step_inv, exec_work).
    split; [done|]. split; [by eapply exec_inv|by apply (exec_phases_inv limit l x y)].
Qed.

(** ** Failed runs and clean flushes *)

Definition only_optional (r : results) : Prop := forall t, t ∈ rollbacks r -> isTransferMandatory t = false.

Definition keeps_optional (r r' : results) : Prop := only_optional r -> only_optional r'.

#[export] Instance keeps_optional_preorder : PreOrder keeps_optional.
Proof. split; [by intros r H|intros r1 r2 r3 H1 H2 H; by apply H2, H1]. Qed.

Lemma rollbacks_update id req m f werr r : rollbacks (update_manifest id req m f werr r) = rollbacks r.
Proof. unfold update_manifest. destruct (bool_decide _); [done|]. by destruct werr. Qed.

Lemma optional_reachable limit s : reachable Match has_callback limit s -> only_optional (res s).
Proof.
  unfold reachable. revert s. apply rtc_ind_r; [intros t Hin; by apply elem_of_nil in Hin|].
  intros x y _ [l Hl] IH.
  destruct (exec_results Match has_callback (fun id req => requests (queue_of y) !! id = Some req) keeps_optional l x y)
    as [H|(wid & w & _ & _ & ->)]; [| |done|done|by apply H|done].
  - constructor; unfold keeps_optional, only_optional; intros; [auto|].
    unfold finishTransferRequest, finishManifestRequest in *. cbn in *. rewrite rollbacks_update in *. auto.
  - constructor; unfold keeps_optional, only_optional, addPendingManifestEntry; intros *.
    + intros _ H t. rewrite rollbacks_update. apply H.
    + intros _ H t. rewrite rollbacks_update. apply H.
    + done.
    + intros H t. cbn. rewrite elem_of_app. intros [Ht|Ht]; [by apply H|].
      apply list_elem_of_In, filter_In in Ht as [_ Ht]. by apply negb_true_iff in Ht.
Qed.

(** The goroutine of the file is over, up to leaving the wait group of optional transfers. *)
Definition over (w : worker) (b : bool) : Prop := w_state w = LeavingBase b \/ w_state w = Ended b.

Lemma quiet_worker limit s wid w : workers_inv limit (work s) -> phase1Wg (work s) = 0 -> backgroundWg (work s) = 0 ->
  transfers (work s) !! wid = Some w -> exists b, over w b.
Proof.
  intros [H1 H2 _ _ _ _ _] Hz1 Hz2 Hw. rewrite H1 in Hz1. rewrite H2 in Hz2.
  pose proof (count_if_zero _ _ Hz1 wid w Hw) as E1. pose proof (count_if_zero _ _ Hz2 wid w Hw) as E2.
  unfold in_phase_group, over in *. destruct (w_state w); try (destruct (w_phase w); discriminate); eauto.
Qed.

(** C5: after a failed run: from the moment deferred requests are flushed until [Listen]
    returns, no goroutine of an optional file is left and none is started; every optional
    file that had been received, and no log, is rolled back. *)
Theorem failed_run_keeps_only_logs limit s : reachable Match has_callback limit s -> rolled_back (pc s) = true ->
  (forall wid w, transfers (work s) !! wid = Some w -> isTransferMandatory (w_transfer w) = false -> exists b, w_state w = Ended b) /\
  (forall t, t ∈ completedTransfers (res s) -> isTransferMandatory t = false -> t ∈ rollbacks (res s)) /\
  (forall t, t ∈ rollbacks (res s) -> isTransferMandatory t = false).
Proof.
  intros Hr Hp. destruct (ph_rolled_back s (phases_reachable limit s Hr) Hp) as [Hz Hall].
  split; [|split; [exact Hall|by apply (optional_reachable limit)]].
  intros wid w Hw Hm. rewrite (inv_base limit _ (workers_reachable Match has_callback limit s Hr)) in Hz.
  pose proof (count_if_zero _ _ Hz wid w Hw) as Hg. unfold in_base_group, mandatory in Hg. rewrite Hm in Hg. destruct (w_state w); try discriminate Hg. eauto.
Qed.

Lemma combined_errors p r : errors_of p r <> ∅ -> combined (transferErrors_of r) <> ∅.
Proof.
  intros Hne Hc. apply map_choose in Hne as (k & e & Hk).
  assert (combined (transferErrors_of r) !! k = None) as Hn by (by rewrite Hc).
  unfold combined in Hn. apply lookup_union_None in Hn as [H1 H2]. destruct p; cbn in Hk; congruence.
Qed.

Lemma no_message (es : error_map) : transferErrorMessage true es = None -> es = ∅.
Proof.
  unfold transferErrorMessage. destruct (map_to_list es) as [|[k e] [|]] eqn:Hl; [|done|done]. intros _. by apply map_to_list_empty_iff.
Qed.

(** C6: when the transfers of a successful run are flushed and no error is reported, every
    file that was started, in either phase, has been received and gave its slot back, and no
    error was recorded. *)
Theorem clean_flush_received_everything limit s s' : reachable Match has_callback limit s -> pc s = WaitingForBackground true ->
  exec Match has_callback LBackgroundWaited s = Some s' -> pc s' = Returned (Some None) ->
  combined (transferErrors_of (res s')) = ∅ /\ starters (work s') = ∅ /\
  forall wid w, transfers (work s') !! wid = Some w -> over w true /\ w_transfer w ∈ completedTransfers (res s').
Proof.
  intros Hr Hpc He Hpc'. pose proof (workers_reachable Match has_callback limit s Hr) as Hw.
  pose proof (phases_reachable limit s Hr) as Hph. unfold exec in He. cbn in He. rewrite Hpc in He.
  destruct (Z.eqb_spec (backgroundWg (work s)) 0) as [Hz2|]; [|discriminate He]. injection He as <-. cbn in *.
  injection Hpc' as Hmsg. destruct (cancelRequested (ctx s)); [discriminate Hmsg|]. apply no_message in Hmsg.
  split; [done|]. split; [apply (ri_idle s (requests_reachable Match has_callback limit s Hr)); by rewrite Hpc|].
  intros wid w Hi. assert (phase1Wg (work s) = 0) as Hz1 by (apply (ph_phase1 s Hph); by rewrite Hpc).
  destruct (quiet_worker limit s wid w Hw Hz1 Hz2 Hi) as [b Hb]. destruct (ph_worker s Hph wid w Hi) as [_ Hrec].
  unfold on_record in Hrec. assert (outcome (w_state w) = Some b) as Ho by (by destruct Hb as [-> | ->]). rewrite Ho in Hrec.
  destruct b; [done|]. by destruct (combined_errors _ _ Hrec).
Qed.

End Steps.

Lemma failed_run_keeps_only_logs_witness :
  let s := state_after (take 33 failed_run) in
  LocalPath <$> rollbacks (res s) = ["/run/a"] /\
  (forall t, t ∈ completedTransfers (res s) -> isTransferMandatory t = false -> t ∈ rollbacks (res s)).
Proof.
  destruct (failed_run_keeps_only_logs match_all true 4 (state_after (take 33 failed_run))) as (_ & H & _).
  - apply state_after_reachable. refine (bool_decide_unpack _ _). vm_compute. exact I.
  - vm_compute. reflexivity.
  - split; [vm_compute; reflexivity|exact H].
Defined.

Lemma clean_flush_received_everything_witness :
  let s' := state_after good_run in
  combined (transferErrors_of (res s')) = ∅ /\ starters (work s') = ∅ /\
  forall wid w, transfers (work s') !! wid = Some w -> over w true /\ w_transfer w ∈ completedTransfers (res s').
Proof.
  apply (clean_flush_received_everything match_all true 4 (state_after (take (length good_run - 1) good_run)) (state_after good_run)).
  - apply state_after_reachable. refine (bool_decide_unpack _ _). vm_compute. exact I.
  - vm_compute. reflexivity.
  - vm_compute. reflexivity.
  - vm_compute. reflexivity.
Defined.
