(* ===== verification/Admission.v ===== *)
(** * Performix: admission of requests during shutdown

    Models [core/atperf-agent/grpcserver/admission.go]: the interceptor that rejects new
    requests once restriction is enabled and lets its owner wait for those in flight. *)

From S2P Require Import Prelude.
From S2P Require Import GoStrings.

Local Open Scope Z_scope.

(** [ExemptOnlyShutdown] *)
Definition ExemptOnlyShutdown (fullMethod : string) : bool := HasSuffix fullMethod "/Shutdown".

Section Interceptor.
Context (isExemptDuringRestriction : string -> bool).

(** A request: before the interceptor, at the gate (found not exempt), running without or
    with a count in the wait group, and finished or rejected. *)
Inductive request_state :=
| Arrived (method : string)
| AtGate (method : string)
| Exempt (method : string)
| Running (method : string)
| Finished
| Rejected.

(** [waited]: a call of [Wait] that began after [Restrict] has returned. *)
Record interceptor := {
  restrict : bool;
  wg : Z;
  requests : gmap nat request_state;
  waited : bool
}.

Definition NewAdmissionInterceptor : interceptor :=
  {| restrict := false; wg := 0; requests := ∅; waited := false |}.

Definition with_request (a : interceptor) (count : Z) (r : nat) (st : request_state) : interceptor :=
  {| restrict := restrict a; wg := count; requests := <[r := st]> (requests a); waited := waited a |}.

Definition Restrict (a : interceptor) : interceptor :=
  {| restrict := true; wg := wg a; requests := requests a; waited := waited a |}.

(** The test for exemption, before the gate. *)
Definition enter (a : interceptor) (r : nat) (method : string) : interceptor :=
  with_request a (wg a) r (if isExemptDuringRestriction method then Exempt method else AtGate method).

(** The section under [gateMu.RLock]. *)
Definition pass_gate (a : interceptor) (r : nat) (method : string) : interceptor :=
  if restrict a then with_request a (wg a) r Rejected else with_request a (wg a + 1) r (Running method).

(** The steps of [Unary] and [Stream], whose bodies are the same, and of their owner. *)
Inductive admission_step : interceptor -> interceptor -> Prop :=
| arrive a r method : requests a !! r = None -> admission_step a (with_request a (wg a) r (Arrived method))
| check_exempt a r method : requests a !! r = Some (Arrived method) -> admission_step a (enter a r method)
| gate a r method : requests a !! r = Some (AtGate method) -> admission_step a (pass_gate a r method)
| finish a r method : requests a !! r = Some (Running method) -> admission_step a (with_request a (wg a - 1) r Finished)
| finish_exempt a r method : requests a !! r = Some (Exempt method) -> admission_step a (with_request a (wg a) r Finished)
| do_restrict a : admission_step a (Restrict a)
| wait_returns a : restrict a = true -> wg a = 0 ->
    admission_step a {| restrict := restrict a; wg := wg a; requests := requests a; waited := true |}.

Definition admitted : interceptor -> Prop := rtc admission_step NewAdmissionInterceptor.

Definition is_running (st : request_state) : Prop := match st with Running _ => True | _ => False end.
#[local] Instance is_running_dec st : Decision (is_running st).
Proof. destruct st; apply _. Defined.

Definition running (a : interceptor) : gmap nat request_state := filter (fun kv => is_running kv.2) (requests a).

(** How the count of running requests follows the state of one request. *)
Lemma running_update a count r st :
  running (with_request a count r st) =
  if decide (is_running st) then <[r := st]> (running a) else delete r (running a).
Proof.
  unfold running. cbn. destruct (decide (is_running st)) as [Hr|Hr].
  - by rewrite map_filter_insert_True.
  - by rewrite map_filter_insert_False, map_filter_delete.
Qed.

Lemma running_lookup a r st : running a !! r = Some st <-> requests a !! r = Some st /\ is_running st.
Proof. unfold running. by rewrite map_lookup_filter_Some. Qed.

Record admission_inv (a : interceptor) : Prop := {
  wg_counts : wg a = Z.of_nat (size (running a));
  exempt_ok : forall r m, requests a !! r = Some (Running m) \/ requests a !! r = Some (AtGate m) ->
    isExemptDuringRestriction m = false;
  waited_ok : waited a = true -> restrict a = true /\ wg a = 0
}.

(** A request that is not running and does not start to run leaves the count. *)
Lemma running_same a r st count : ~ is_running st -> (forall x, requests a !! r = Some x -> ~ is_running x) ->
  running (with_request a count r st) = running a.
Proof.
  intros Hst Hold. rewrite running_update, decide_False by done. apply delete_id.
  apply eq_None_not_Some. intros [x [Hx ?]%running_lookup]. by apply (Hold x).
Qed.

Lemma admission_step_inv a a' : admission_inv a -> admission_step a a' -> admission_inv a'.
Proof.
  intros [Hwg Hex Hwt] Hstep.
  assert (forall r st count, (forall m, st = Running m \/ st = AtGate m -> isExemptDuringRestriction m = false) ->
    forall r' m, requests (with_request a count r st) !! r' = Some (Running m) \/
                 requests (with_request a count r st) !! r' = Some (AtGate m) -> isExemptDuringRestriction m = false) as Hex'.
  { intros r st count Hst r' m. cbn. destruct (decide (r' = r)) as [->|];
      [rewrite lookup_insert_eq|rewrite lookup_insert_ne by done; apply Hex]. intros [[= ->]|[= ->]]; eauto. }
  destruct Hstep as [a r m Hr|a r m Hr|a r m Hr|a r m Hr|a r m Hr|a|a Hres Hzero].
  - constructor; [|apply Hex'; naive_solver|done]. cbn [wg with_request]. rewrite running_same; [done|auto|naive_solver].
  - unfold enter. destruct (isExemptDuringRestriction m) eqn:Hm; (constructor; [|apply Hex'; naive_solver|done]);
      cbn [wg with_request]; (rewrite running_same; [done|auto|intros x Hx; rewrite Hr in Hx; injection Hx as <-; intros []]).
  - unfold pass_gate. destruct (restrict a) eqn:Hrs; constructor.
    + cbn [wg with_request]. rewrite running_same; [done|auto|intros x Hx; rewrite Hr in Hx; injection Hx as <-; intros []].
    + apply Hex'; naive_solver.
    + intros Hw%Hwt. cbn. by rewrite Hrs.
    + cbn [wg with_request]. rewrite running_update, decide_True, Hwg by done. rewrite map_size_insert_None; [lia|].
      apply eq_None_not_Some. intros [x [Hx Hrun]%running_lookup]. rewrite Hr in Hx. injection Hx as <-. destruct Hrun.
    + apply Hex'. intros m' [[= ->]|?]; [|done]. apply (Hex r). by right.
    + cbn. by intros [? _]%Hwt.
  - assert (running a !! r = Some (Running m)) as Hin by by apply running_lookup.
    constructor.
    + cbn [wg with_request]. rewrite running_update, decide_False by auto. rewrite Hwg.
      rewrite (map_size_delete_Some r) by (by eexists). apply mk_is_Some, map_size_ne_0_lookup_2 in Hin. lia.
    + apply Hex'; naive_solver.
    + cbn. intros [? H0]%Hwt. apply mk_is_Some, map_size_ne_0_lookup_2 in Hin. lia.
  - constructor; [|apply Hex'; naive_solver|done]. cbn [wg with_request]. rewrite running_same; [done|auto|].
    intros x Hx. rewrite Hr in Hx. injection Hx as <-. intros [].
  - constructor; cbn; [done|done|]. intros [_ ?]%Hwt. done.
  - constructor; cbn; done.
Qed.

Lemma admitted_inv a : admitted a -> admission_inv a.
Proof.
  unfold admitted. revert a. apply rtc_ind_r; [|intros x y _ ? ?; by eapply admission_step_inv].
  constructor; cbn; [done|set_solver|done].
Qed.

End Interceptor.

(** After [Restrict] and a completed [Wait] no request that is not exempt is running,
    and none ever runs again: the wait group counts exactly the running requests, so it is
    never negative, and once it is waited for it stays at zero. *)
Theorem shutdown_is_quiet exempt a a' : admitted exempt a -> waited a = true -> rtc (admission_step exempt) a a' ->
  waited a' = true /\ restrict a' = true /\ wg a' = 0 /\
  forall r m, requests a' !! r <> Some (Running m).
Proof.
  intros Ha Hw Hsteps. assert (admitted exempt a') as Ha' by (unfold admitted in *; by etrans).
  assert (waited a' = true) as Hw'.
  { clear Ha Ha'. induction Hsteps as [|x y z Hxy _ IH]; [done|]. apply IH.
    destruct Hxy; cbn; try done; unfold enter, pass_gate; by destruct (restrict _). }
  apply admitted_inv in Ha' as [Hwg _ Hwt]. destruct (Hwt Hw') as [? H0]. split_and!; [done..|].
  intros r m Hr. assert (running a' !! r = Some (Running m)) as Hin by by apply running_lookup.
  apply mk_is_Some, map_size_ne_0_lookup_2 in Hin. lia.
Qed.

Definition sample_interceptor : interceptor :=
  let a1 := with_request NewAdmissionInterceptor 0 0%nat (Arrived "/api/Start") in
  let a2 := pass_gate (enter ExemptOnlyShutdown a1 0%nat "/api/Start") 0%nat "/api/Start" in
  let a3 := Restrict (with_request a2 (wg a2 - 1) 0%nat Finished) in
  {| restrict := true; wg := wg a3; requests := requests a3; waited := true |}.

Lemma shutdown_is_quiet_witness :
  let a' := pass_gate (enter ExemptOnlyShutdown (with_request sample_interceptor 0 1%nat (Arrived "/api/Run")) 1%nat "/api/Run") 1%nat "/api/Run" in
  waited a' = true /\ restrict a' = true /\ wg a' = 0 /\ forall r m, requests a' !! r <> Some (Running m).
Proof.
  apply (shutdown_is_quiet ExemptOnlyShutdown sample_interceptor).
  - eapply rtc_l; [by apply (arrive _ _ 0%nat "/api/Start")|].
    eapply rtc_l; [by apply (check_exempt _ _ 0%nat "/api/Start")|].
    eapply rtc_l; [by apply (gate _ _ 0%nat "/api/Start")|].
    eapply rtc_l; [by apply (finish _ _ 0%nat "/api/Start")|].
    eapply rtc_l; [apply do_restrict|]. apply rtc_once. by apply wait_returns.
  - reflexivity.
  - eapply rtc_l; [by apply (arrive _ _ 1%nat "/api/Run")|].
    eapply rtc_l; [by apply (check_exempt _ _ 1%nat "/api/Run")|]. apply rtc_once. by apply gate.
Defined.
