(* ===== verification/TokenStorage.v ===== *)
(** * Performix: tokens for privileged operations

    Models [core/atperf-agent/privilege/tokenstorage.go]: the token map with its time to
    live, absolute time to live and reference counts, and the garbage collector that marks
    and sweeps in two separate critical sections. Times are nanoseconds. *)

From S2P Require Import Prelude.

Local Open Scope Z_scope.

Definition second : Z := 1000000000.
Definition maxKeyLength : Z := 1024.
Definition maxTTL : Z := 24 * 3600 * second.
Definition maxGCPeriod : Z := 3600 * second.

Inductive token_error :=
| ErrInvalidTTL | ErrInvalidAbsoluteTTL | ErrInvalidGCPeriod | ErrInvalidKeyLength
| ErrTokenNotFound | ErrTokenExpired | ErrTokenClash.

Record TokenStorageConfig := { TTL : Z; AbsoluteTTL : Z; GCPeriod : Z; KeyLength : Z }.

Definition WithDefaultTokenStorageConfig : TokenStorageConfig :=
  {| TTL := 5 * 60 * second; AbsoluteTTL := maxTTL; KeyLength := 32; GCPeriod := 10 * second |}.

Record Token := {
  createdAt : Z;
  modifiedAt : Z;
  expiresAt : Z;
  absoluteExpAt : Z;
  refCount : Z
}.

Definition isExpired (t : Token) (now : Z) : bool := (expiresAt t <? now) || (absoluteExpAt t <? now).

Definition shouldRevoke (t : Token) (now : Z) : bool :=
  isExpired t now && ((refCount t =? 0) || (absoluteExpAt t <? now)).

Notation tokens := (gmap string Token).

Definition NewTokenStorage (c : TokenStorageConfig) : result token_error tokens :=
  if (TTL c <=? 0) || (maxTTL <? TTL c) then Err ErrInvalidTTL
  else if (AbsoluteTTL c <=? 0) || (maxTTL <? AbsoluteTTL c) then Err ErrInvalidAbsoluteTTL
  else if (GCPeriod c <=? 0) || (maxGCPeriod <? GCPeriod c) then Err ErrInvalidGCPeriod
  else if (KeyLength c <=? 0) || (maxKeyLength <? KeyLength c) then Err ErrInvalidKeyLength
  else Ok ∅.

Section Operations.
Context (c : TokenStorageConfig).

(** [id] is the encoded random number. *)
Definition Generate (ts : tokens) (now : Z) (id : string) : result token_error tokens :=
  match ts !! id with
  | Some _ => Err ErrTokenClash
  | None => Ok (<[id := {| createdAt := now; modifiedAt := now; expiresAt := now + TTL c;
                           absoluteExpAt := now + AbsoluteTTL c; refCount := 0 |}]> ts)
  end.

Definition Validate (ts : tokens) (now : Z) (id : string) : bool :=
  match ts !! id with
  | None => false
  | Some t => negb (isExpired t now)
  end.

Definition refreshed (t : Token) (now : Z) : Token :=
  {| createdAt := createdAt t; modifiedAt := now; expiresAt := now + TTL c;
     absoluteExpAt := absoluteExpAt t; refCount := refCount t |}.

Definition with_refs (t : Token) (n : Z) : Token :=
  {| createdAt := createdAt t; modifiedAt := modifiedAt t; expiresAt := expiresAt t;
     absoluteExpAt := absoluteExpAt t; refCount := n |}.

Definition Refresh (ts : tokens) (now : Z) (id : string) : result token_error tokens :=
  match ts !! id with
  | None => Err ErrTokenNotFound
  | Some t => if isExpired t now then Err ErrTokenExpired else Ok (<[id := refreshed t now]> ts)
  end.

Definition Revoke (ts : tokens) (id : string) : tokens := delete id ts.
Definition RevokeAll (ts : tokens) : tokens := ∅.

Definition Acquire (ts : tokens) (now : Z) (id : string) : result token_error tokens :=
  match ts !! id with
  | None => Err ErrTokenNotFound
  | Some t => if isExpired t now then Err ErrTokenExpired else Ok (<[id := with_refs t (refCount t + 1)]> ts)
  end.

(** The token is stored back only when it had a reference. *)
Definition Release (ts : tokens) (now : Z) (id : string) (shouldRefresh : bool) : result token_error tokens :=
  match ts !! id with
  | None => Err ErrTokenNotFound
  | Some t =>
      let t' := if shouldRefresh then refreshed t now else t in
      if 0 <? refCount t' then Ok (<[id := with_refs t' (refCount t' - 1)]> ts) else Ok ts
  end.

(** The two critical sections of a round of [gc]. The sweep is skipped when nothing is
    marked, and reports whether it calls [OnEmpty]. *)
Definition gc_mark (ts : tokens) (now : Z) : gset string := dom (filter (fun kv => shouldRevoke kv.2 now = true) ts).

Definition gc_sweep (ts : tokens) (expired : gset string) : tokens * bool :=
  if decide (expired = ∅) then (ts, false)
  else let ts' := filter (fun kv => kv.1 ∉ expired) ts in (ts', bool_decide (ts' = ∅)).

(** ** The storage over time *)

(** [marked]: the identifiers marked by a round of [gc] that has not swept yet; [used]: all
    identifiers generated so far. *)
Record storage := { clock : Z; store : tokens; marked : gset string; used : gset string }.

Definition with_store (s : storage) (ts : tokens) : storage :=
  {| clock := clock s; store := ts; marked := marked s; used := used s |}.

(** Random identifiers do not repeat; [gc] reads its clock some time before it marks. *)
Inductive step : storage -> storage -> Prop :=
| tick s now : clock s <= now -> step s {| clock := now; store := store s; marked := marked s; used := used s |}
| generate s id ts : id ∉ used s -> Generate (store s) (clock s) id = Ok ts ->
    step s {| clock := clock s; store := ts; marked := marked s; used := {[id]} ∪ used s |}
| refresh s id ts : Refresh (store s) (clock s) id = Ok ts -> step s (with_store s ts)
| acquire s id ts : Acquire (store s) (clock s) id = Ok ts -> step s (with_store s ts)
| release s id b ts : Release (store s) (clock s) id b = Ok ts -> step s (with_store s ts)
| revoke s id : step s (with_store s (Revoke (store s) id))
| revoke_all s : step s (with_store s (RevokeAll (store s)))
| mark s now : now <= clock s -> marked s = ∅ ->
    step s {| clock := clock s; store := store s; marked := gc_mark (store s) now; used := used s |}
| sweep s : step s {| clock := clock s; store := (gc_sweep (store s) (marked s)).1; marked := ∅; used := used s |}.

Definition initial (now : Z) : storage := {| clock := now; store := ∅; marked := ∅; used := ∅ |}.
Definition reachable (s : storage) : Prop := exists now, rtc step (initial now) s.

(** The fields of a stored token at time [now]. *)
Definition token_ok (now : Z) (t : Token) : Prop :=
  createdAt t <= modifiedAt t <= now /\ expiresAt t = modifiedAt t + TTL c /\
  absoluteExpAt t = createdAt t + AbsoluteTTL c /\ 0 <= refCount t.

Record storage_inv (s : storage) : Prop := {
  tokens_ok : forall id t, store s !! id = Some t -> token_ok (clock s) t /\ id ∈ used s;
  marked_ok : forall id, id ∈ marked s -> id ∈ used s /\
    forall t, store s !! id = Some t -> shouldRevoke t (clock s) = true
}.

(** One stored token is replaced, and a token to be revoked stays so. *)
Lemma update_inv s id t t' : storage_inv s -> store s !! id = Some t -> token_ok (clock s) t' ->
  (shouldRevoke t (clock s) = true -> shouldRevoke t' (clock s) = true) ->
  storage_inv (with_store s (<[id := t']> (store s))).
Proof.
  intros [Ht Hm] Hid Hok Hrev. constructor; cbn.
  - intros i u. destruct (decide (i = id)) as [->|]; [rewrite lookup_insert_eq|rewrite lookup_insert_ne by done; apply Ht].
    intros [= <-]. split; [done|]. by apply (Ht id t).
  - intros i Hi. split; [by apply Hm|]. intros u.
    destruct (decide (i = id)) as [->|]; [rewrite lookup_insert_eq|rewrite lookup_insert_ne by done; by apply Hm].
    intros [= <-]. apply Hrev. by apply (Hm id).
Qed.

(** Tokens are only removed. *)
Lemma shrink_inv s ts m : storage_inv s -> ts ⊆ store s -> m ⊆ marked s ->
  storage_inv {| clock := clock s; store := ts; marked := m; used := used s |}.
Proof.
  intros [Ht Hm] Hts Hms. constructor; cbn.
  - intros id t Hid. by apply Ht, (lookup_weaken _ _ _ _ Hid).
  - intros id Hid%Hms. split; [by apply Hm|]. intros t Ht'. apply (Hm id Hid). by eapply lookup_weaken.
Qed.

Lemma shouldRevoke_mono t now now' : now <= now' -> shouldRevoke t now = true -> shouldRevoke t now' = true.
Proof.
  unfold shouldRevoke, isExpired. rewrite !andb_true_iff, !orb_true_iff, !Z.ltb_lt. lia.
Qed.

Lemma shouldRevoke_expired t now : shouldRevoke t now = true -> isExpired t now = true.
Proof. unfold shouldRevoke. by rewrite andb_true_iff; intros [? _]. Qed.

Lemma gc_mark_spec ts now id : id ∈ gc_mark ts now -> exists t, ts !! id = Some t /\ shouldRevoke t now = true.
Proof.
  unfold gc_mark. rewrite elem_of_dom. intros [t Ht]. apply map_lookup_filter_Some in Ht as [? ?]. by exists t.
Qed.

Lemma token_step_inv s s' : storage_inv s -> step s s' -> storage_inv s'.
Proof.
  intros Hinv Hstep. pose proof Hinv as [Ht Hm].
  destruct Hstep as [s now Hle|s id ts Hfresh Hg|s id ts Hr|s id ts Ha|s id b ts Hr|s id|s|s now Hle Hnone|s].
  - constructor; cbn.
    + intros id t Hid. destruct (Ht id t Hid) as [(? & ? & ? & ?) ?]. split; [|done]. split_and!; lia.
    + intros id Hid. destruct (Hm id Hid) as [? Hm']. split; [done|]. intros t Hid'. eapply shouldRevoke_mono; eauto.
  - unfold Generate in Hg. destruct (store s !! id) eqn:Hid; [done|]. injection Hg as <-.
    constructor; cbn.
    + intros i t. destruct (decide (i = id)) as [->|]; [rewrite lookup_insert_eq|rewrite lookup_insert_ne by done].
      * intros [= <-]. split; [|set_solver]. split_and!; cbn; lia.
      * intros Hi%Ht. set_solver.
    + intros i Hi. destruct (Hm i Hi) as [Hu Hm']. split; [set_solver|]. intros t.
      rewrite lookup_insert_ne by (by intros ->). apply Hm'.
  - unfold Refresh in Hr. destruct (store s !! id) as [t|] eqn:Hid; [|done].
    destruct (isExpired t (clock s)) eqn:He; [done|]. injection Hr as <-.
    destruct (Ht id t Hid) as [(? & ? & ? & ?) _]. eapply update_inv; [done..| |].
    + split_and!; cbn; lia.
    + intros Hrev%shouldRevoke_expired. congruence.
  - unfold Acquire in Ha. destruct (store s !! id) as [t|] eqn:Hid; [|done].
    destruct (isExpired t (clock s)) eqn:He; [done|]. injection Ha as <-.
    destruct (Ht id t Hid) as [(? & ? & ? & ?) _]. eapply update_inv; [done..| |].
    + split_and!; cbn; lia.
    + intros Hrev%shouldRevoke_expired. congruence.
  - unfold Release in Hr. destruct (store s !! id) as [t|] eqn:Hid; [|done].
    set (t' := if b then refreshed t (clock s) else t) in *.
    destruct (Ht id t Hid) as [(? & ? & ? & ?) _].
    assert (refCount t' = refCount t /\ absoluteExpAt t' = absoluteExpAt t /\ token_ok (clock s) t') as (Hrc & Habs & Hok).
    { unfold t'. destruct b; cbn; (split; [done|]); (split; [done|]); split_and!; cbn; lia. }
    destruct (Z.ltb_spec 0 (refCount t')); injection Hr as <-; [|by destruct s].
    eapply update_inv; [done..| |].
    + destruct Hok as (? & ? & ? & ?). split_and!; cbn; lia.
    + unfold shouldRevoke, isExpired. cbn. rewrite !andb_true_iff, !orb_true_iff, !Z.eqb_eq, !Z.ltb_lt. lia.
  - apply shrink_inv; [done|apply delete_subseteq|done].
  - apply shrink_inv; [done|apply map_empty_subseteq|done].
  - constructor; cbn; [done|]. intros id (t & Hid & Hrev)%gc_mark_spec. split; [by apply (Ht id t)|].
    intros t' Hid'. rewrite Hid in Hid'. injection Hid' as <-. by eapply shouldRevoke_mono.
  - apply shrink_inv; [done| |set_solver]. unfold gc_sweep. case_decide; cbn; [done|]. apply map_filter_subseteq.
Qed.

Lemma token_reachable_inv s : reachable s -> storage_inv s.
Proof.
  intros [now Hs]. revert s Hs. apply rtc_ind_r; [|intros x y _ ? ?; by eapply token_step_inv].
  constructor; cbn; [intros id t; by rewrite lookup_empty|set_solver].
Qed.

End Operations.

(** ** Lifetime *)

(** An identifier in use keeps its creation time for as long as it is stored. *)
Lemma step_createdAt c s s' id t0 : storage_inv c s -> step c s s' ->
  id ∈ used s -> (forall t, store s !! id = Some t -> createdAt t = t0) ->
  id ∈ used s' /\ (forall t, store s' !! id = Some t -> createdAt t = t0).
Proof.
  intros [Ht Hm] Hstep Hu H0.
  assert (forall i t t', store s !! i = Some t -> createdAt t' = createdAt t ->
    forall u, <[i := t']> (store s) !! id = Some u -> createdAt u = t0) as Hup.
  { intros i t t' Hi Hc u. destruct (decide (id = i)) as [->|]; [rewrite lookup_insert_eq|rewrite lookup_insert_ne by done; apply H0].
    intros [= <-]. rewrite Hc. by apply H0. }
  assert (forall ts, ts ⊆ store s -> forall u, ts !! id = Some u -> createdAt u = t0) as Hsub.
  { intros ts Hts u Hu'. by eapply H0, lookup_weaken. }
  destruct Hstep as [s now Hle|s i ts Hfresh Hg|s i ts Hr|s i ts Ha|s i b ts Hr|s i|s|s now Hle Hnone|s]; cbn.
  - done.
  - unfold Generate in Hg. destruct (store s !! i) eqn:Hid; [done|]. injection Hg as <-.
    split; [set_solver|]. intros t. rewrite lookup_insert_ne by (by intros ->). apply H0.
  - unfold Refresh in Hr. destruct (store s !! i) as [t|] eqn:Hid; [|done]. case_hyp Hr; [done|].
    injection Hr as <-. split; [done|]. by eapply Hup.
  - unfold Acquire in Ha. destruct (store s !! i) as [t|] eqn:Hid; [|done]. case_hyp Ha; [done|].
    injection Ha as <-. split; [done|]. by eapply Hup.
  - unfold Release in Hr. destruct (store s !! i) as [t|] eqn:Hid; [|done].
    destruct (0 <? _); injection Hr as <-; [|done]. split; [done|]. eapply Hup; [done|]. by destruct b.
  - split; [done|]. apply Hsub, delete_subseteq.
  - split; [done|]. apply Hsub, map_empty_subseteq.
  - done.
  - split; [done|]. apply Hsub. unfold gc_sweep. case_decide; cbn; [done|]. apply map_filter_subseteq.
Qed.

(** C34: a token is never valid beyond its absolute lifetime, counted from the moment it was
    generated, whatever refreshes, acquisitions and releases happen in between, nor beyond
    its time to live after its last refresh. *)
Theorem absolute_lifetime c s s' id t : reachable c s -> store s !! id = Some t -> rtc (step c) s s' ->
  Validate (store s') (clock s') id = true ->
  clock s' <= createdAt t + AbsoluteTTL c /\
  exists t', store s' !! id = Some t' /\ createdAt t' = createdAt t /\ clock s' <= modifiedAt t' + TTL c.
Proof.
  intros Hreach Hid Hsteps Hval.
  assert (reachable c s' /\ id ∈ used s' /\ forall u, store s' !! id = Some u -> createdAt u = createdAt t) as (Hr' & _ & Hc).
  { assert (id ∈ used s /\ forall u, store s !! id = Some u -> createdAt u = createdAt t) as [Hu Hc].
    { split; [by apply (tokens_ok c s (token_reachable_inv c s Hreach) id t)|]. by intros u [= ->]%(eq_trans (eq_sym Hid)). }
    clear Hval Hid. induction Hsteps as [s|x y z Hxy _ IH]; [done|].
    destruct (step_createdAt c x y id (createdAt t)) as [? ?]; [by apply token_reachable_inv|done..|].
    apply IH; [|done..]. destruct Hreach as [now ?]. exists now. by eapply rtc_r. }
  unfold Validate in Hval. destruct (store s' !! id) as [t'|] eqn:Hid'; [|done].
  destruct (tokens_ok c s' (token_reachable_inv c s' Hr') id t' Hid') as [(? & ? & ? & _) _].
  specialize (Hc t' eq_refl). unfold isExpired in Hval.
  apply negb_true_iff, orb_false_iff in Hval as [Hv1%Z.ltb_ge Hv2%Z.ltb_ge].
  split; [lia|]. exists t'. split; [done|]. split; [done|]. lia.
Qed.

(** A marked token cannot be unmarked: from the mark to the sweep it is expired, so it
    is not valid and can be neither refreshed nor acquired, and the sweep never removes a
    token in use before its absolute lifetime has passed. *)
Theorem marked_tokens_are_dead c s id : reachable c s -> id ∈ marked s ->
  Validate (store s) (clock s) id = false /\
  is_ok (Refresh c (store s) (clock s) id) = false /\ is_ok (Acquire (store s) (clock s) id) = false /\
  (gc_sweep (store s) (marked s)).1 !! id = None /\
  forall t, store s !! id = Some t -> 0 < refCount t -> absoluteExpAt t < clock s.
Proof.
  intros Hr Hid. destruct (marked_ok c s (token_reachable_inv c s Hr) id Hid) as [_ Hrev].
  assert (forall t, store s !! id = Some t -> isExpired t (clock s) = true) as He.
  { intros t Ht. by apply shouldRevoke_expired, Hrev. }
  unfold Validate, Refresh, Acquire. split_and!.
  - destruct (store s !! id) as [t|]; [|done]. by rewrite He.
  - destruct (store s !! id) as [t|]; [|done]. by rewrite He.
  - destruct (store s !! id) as [t|]; [|done]. by rewrite He.
  - unfold gc_sweep. rewrite decide_False by set_solver. cbn.
    apply map_lookup_filter_None_2. right. intros t _ Hn. by apply Hn.
  - intros t Ht Href. specialize (Hrev t Ht). unfold shouldRevoke in Hrev.
    apply andb_true_iff in Hrev as [_ [H0%Z.eqb_eq|Habs%Z.ltb_lt]%orb_true_iff]; lia.
Qed.

(** What [Release] does in each case. It refreshes a token in use even when its time to
    live has passed, which [Refresh] refuses, and it drops the refresh of a token that is
    not in use without reporting an error. *)
Theorem Release_cases c ts now id shouldRefresh :
  match ts !! id with
  | None => Release c ts now id shouldRefresh = Err ErrTokenNotFound
  | Some t =>
      (refCount t <= 0 -> Release c ts now id shouldRefresh = Ok ts) /\
      (0 < refCount t -> exists t', Release c ts now id shouldRefresh = Ok (<[id := t']> ts) /\
         refCount t' = refCount t - 1 /\ createdAt t' = createdAt t /\ absoluteExpAt t' = absoluteExpAt t /\
         expiresAt t' = if shouldRefresh then now + TTL c else expiresAt t) /\
      (0 < refCount t -> shouldRefresh = true -> 0 <= TTL c -> isExpired t now = true -> now <= absoluteExpAt t ->
         Refresh c ts now id = Err ErrTokenExpired /\
         exists ts', Release c ts now id shouldRefresh = Ok ts' /\ Validate ts' now id = true)
  end.
Proof.
  unfold Release, Refresh, Validate. destruct (ts !! id) as [t|]; [|done].
  assert (refCount (if shouldRefresh then refreshed c t now else t) = refCount t) as -> by by destruct shouldRefresh.
  split_and!.
  - intros H. destruct (Z.ltb_spec 0 (refCount t)); [lia|done].
  - intros H. destruct (Z.ltb_spec 0 (refCount t)); [|lia]. eexists. split; [done|]. by destruct shouldRefresh.
  - intros H -> Httl He Habs. rewrite He. split; [done|]. destruct (Z.ltb_spec 0 (refCount t)); [|lia].
    eexists. split; [done|]. rewrite lookup_insert_eq. unfold isExpired. cbn.
    destruct (Z.ltb_spec (now + TTL c) now), (Z.ltb_spec (absoluteExpAt t) now); try lia; done.
Qed.

Definition sample_config : TokenStorageConfig := {| TTL := 10; AbsoluteTTL := 100; GCPeriod := 5; KeyLength := 32 |}.

Definition one_token : storage :=
  {| clock := 0; store := default ∅ (ok_value (Generate sample_config ∅ 0 "t")); marked := ∅; used := {["t"]} ∪ ∅ |}.

Lemma one_token_reachable : reachable sample_config one_token.
Proof. exists 0. apply rtc_once. by apply (generate _ (initial 0) "t"). Qed.

Lemma absolute_lifetime_witness :
  let t := {| createdAt := 0; modifiedAt := 0; expiresAt := 10; absoluteExpAt := 100; refCount := 0 |} in
  let s' := {| clock := 7; store := store one_token; marked := ∅; used := used one_token |} in
  clock s' <= createdAt t + AbsoluteTTL sample_config /\
  exists t', store s' !! "t" = Some t' /\ createdAt t' = createdAt t /\ clock s' <= modifiedAt t' + TTL sample_config.
Proof.
  intros t s'. apply (absolute_lifetime sample_config one_token s' "t" t); [apply one_token_reachable|reflexivity| |reflexivity].
  apply rtc_once. by apply (tick sample_config one_token 7).
Defined.

Definition marked_token : storage :=
  {| clock := 20; store := store one_token; marked := gc_mark (store one_token) 20; used := used one_token |}.

Lemma marked_tokens_are_dead_witness :
  Validate (store marked_token) (clock marked_token) "t" = false /\
  is_ok (Refresh sample_config (store marked_token) (clock marked_token) "t") = false /\
  is_ok (Acquire (store marked_token) (clock marked_token) "t") = false /\
  (gc_sweep (store marked_token) (marked marked_token)).1 !! "t" = None /\
  forall t, store marked_token !! "t" = Some t -> 0 < refCount t -> absoluteExpAt t < clock marked_token.
Proof.
  apply (marked_tokens_are_dead sample_config).
  - destruct one_token_reachable as [now Hr]. exists now. eapply rtc_r; [eapply rtc_r; [exact Hr|]|].
    + by apply (tick sample_config one_token 20).
    + by apply (mark sample_config {| clock := 20; store := store one_token; marked := ∅; used := used one_token |} 20).
  - apply (bool_decide_eq_true_1 ("t" ∈ marked marked_token)). vm_compute. reflexivity.
Defined.
