(* ===== verification/Messages.v ===== *)
(** * Performix: messages, and errors between processes

    Models [core/apap-engine/message/message.go], [error_payload.go] and [interceptor.go]:
    errors as trees, the chain of nodes an error is sent as, and what a client makes of the
    status it receives. An error is compared by identity, which is a number here; marshalling
    by the protobuf library and the delivery by gRPC are parameters. *)

From S2P Require Import Prelude.
From S2P Require Import GoStrings.
From Stdlib Require Import Ascii.

Local Open Scope Z_scope.

(** ** Errors *)

Definition LocaleEnglish : string := "en-US".

(** A code of gRPC with a text. *)
Record GRPCInfo := { GRPCCode : Z; GRPCMessage : string }.

Record MessageImpl := {
  domain : string;
  reason : string;
  metadata : gmap string string;
  locale : string;
  grpcInfo : GRPCInfo
}.

Definition no_info : GRPCInfo := {| GRPCCode := 0; GRPCMessage := EmptyString |}.

(** An error with its identity: a message with its cause, or an error of another type with the
    text and the errors it wraps. *)
Inductive err :=
| Msg (id : nat) (m : MessageImpl) (cause : option err)
| Other (id : nat) (type text : string) (causes : list err).

Definition err_id (e : err) : nat := match e with Msg id _ _ | Other id _ _ _ => id end.

(** [Unwrap], for one error and for many. *)
Definition childErrors (e : err) : list err :=
  match e with Msg _ _ None => [] | Msg _ _ (Some c) => [c] | Other _ _ _ causes => causes end.

(** The type of an error, as [%T] prints it. *)
Definition type_of (e : err) : string := match e with Msg _ _ _ => "*message.MessageImpl" | Other _ type _ _ => type end.

Definition Code (m : MessageImpl) : string := domain m +:+ "." +:+ reason m.
Definition Locale (m : MessageImpl) : string := if bool_decide (locale m = EmptyString) then LocaleEnglish else locale m.

Fixpoint Error (e : err) : string :=
  match e with
  | Msg _ m None => Code m
  | Msg _ m (Some c) => Code m +:+ ": " +:+ Error c
  | Other _ _ text _ => text
  end.

(** [New], up to the identity: [None] for a code without a dot. *)
Definition New (code : string) : option MessageImpl :=
  let lastDot := LastIndex code "." in
  if lastDot =? -1 then None
  else Some {| domain := slice code 0 lastDot; reason := slice code (lastDot + 1) (len code); metadata := ∅; locale := EmptyString; grpcInfo := no_info |}.

Definition WithMetadata (newData : gmap string string) (m : MessageImpl) : MessageImpl :=
  {| domain := domain m; reason := reason m; metadata := newData ∪ metadata m; locale := locale m; grpcInfo := grpcInfo m |}.
Definition with_locale (l : string) (m : MessageImpl) : MessageImpl :=
  {| domain := domain m; reason := reason m; metadata := metadata m; locale := l; grpcInfo := grpcInfo m |}.
Definition with_info (i : GRPCInfo) (m : MessageImpl) : MessageImpl :=
  {| domain := domain m; reason := reason m; metadata := metadata m; locale := locale m; grpcInfo := i |}.

(** [WithCause]: a cause without a text is not kept. *)
Definition WithCause (id : nat) (cause : err) (m : MessageImpl) : err :=
  Msg id m (if bool_decide (Error cause = EmptyString) then None else Some cause).

(** [errors.New], [fmt.Errorf("%s: %w", ...)] and [errors.Join] of errors that are not nil. *)
Definition errors_New (id : nat) (text : string) : err := Other id "*errors.errorString" text [].
Definition wrap_text (id : nat) (text : string) (cause : err) : err := Other id "*fmt.wrapError" (text +:+ ": " +:+ Error cause) [cause].
Definition errors_Join (id : nat) (causes : list err) : err :=
  Other id "*errors.joinError" (Join (String (ascii_of_nat 10) EmptyString) (Error <$> causes)) causes.

(** [IsMessage]: [errors.As] takes the first message of the tree. *)
Fixpoint IsMessage (e : err) : option err :=
  match e with
  | Msg _ _ _ => Some e
  | Other _ _ _ causes => (fix first (l : list err) := match l with [] => None | c :: rest => match IsMessage c with Some m => Some m | None => first rest end end) causes
  end.

(** ** Chains *)

Record MessageDetails := { md_Code : string; md_Metadata : gmap string string; md_Locale : string }.

#[export] Instance MessageDetails_eq_dec : EqDecision MessageDetails.
Proof. solve_decision. Defined.

Inductive ErrorNode := Node (error type : string) (message : option MessageDetails) (children : list ErrorNode).

Definition details (m : MessageImpl) : MessageDetails := {| md_Code := Code m; md_Metadata := metadata m; md_Locale := Locale m |}.

Definition own_message (e : err) : option MessageDetails := match e with Msg _ m _ => Some (details m) | Other _ _ _ _ => None end.

(** [toNode]: the errors that were seen before are nodes without message and children. *)
Fixpoint toNode (seen : gset nat) (e : err) {struct e} : gset nat * ErrorNode :=
  if bool_decide (err_id e ∈ seen) then (seen, Node (Error e) (type_of e) None [])
  else
    let seen := {[err_id e]} ∪ seen in
    match e with
    | Msg _ m None => (seen, Node (Error e) (type_of e) (Some (details m)) [])
    | Msg _ m (Some c) => let '(seen, n) := toNode seen c in (seen, Node (Error e) (type_of e) (Some (details m)) [n])
    | Other _ _ _ causes =>
        let '(seen, ns) := (fix nodes (seen : gset nat) (l : list err) :=
          match l with
          | [] => (seen, [])
          | c :: rest => let '(seen, n) := toNode seen c in let '(seen, ns) := nodes seen rest in (seen, n :: ns)
          end) seen causes in
        (seen, Node (Error e) (type_of e) None ns)
    end.

Definition BuildErrorChain (e : err) : ErrorNode := (toNode ∅ e).2.

(** [plainFrom], with the identities from [next] on. *)
Definition plainFrom (next : nat) (msg : string) (children : list err) : nat * err :=
  match children with
  | [] => (S next, errors_New next msg)
  | [c] => (S next, wrap_text next msg c)
  | _ => (S (S next), wrap_text (S next) msg (errors_Join next children))
  end.

(** What [fromNode] makes of a node whose children have been rebuilt. *)
Definition rebuild (next : nat) (error : string) (message : option MessageDetails) (children : list err) : nat * err :=
  match message with
  | Some md =>
      if bool_decide (md_Code md = EmptyString) then plainFrom next error children
      else
        match New (md_Code md) with
        | None => plainFrom next error children
        | Some msg =>
            let msg := WithMetadata (md_Metadata md) (with_locale (md_Locale md) msg) in
            match children with
            | [] => (S next, Msg next msg None)
            | [c] => (S next, WithCause next c msg)
            | _ => (S (S next), WithCause (S next) (errors_Join next children) msg)
            end
        end
  | None => plainFrom next error children
  end.

Fixpoint fromNode (next : nat) (n : ErrorNode) {struct n} : nat * err :=
  match n with
  | Node error _ message children =>
      let '(next, cs) := (fix rebuilt (next : nat) (l : list ErrorNode) :=
        match l with
        | [] => (next, [])
        | c :: rest => let '(next, e) := fromNode next c in let '(next, es) := rebuilt next rest in (next, e :: es)
        end) next children in
      rebuild next error message cs
  end.

Definition ReconstructFromChain (next : nat) (chain : ErrorNode) : err := (fromNode next chain).2.

(** ** Statuses *)

Inductive Detail :=
| ErrorInfo (d_Reason d_Domain : string) (d_Metadata : gmap string string)
| LocalizedMessage (d_Locale d_Message : string)
| Chain (root : ErrorNode).

Record Status := { st_Code : Z; st_Message : string; Details : list Detail }.

Definition code_Unknown : Z := 2.
Definition FailedPrecondition : Z := 9.

(** What a handler returns to gRPC, and what a call gives to a client. *)
Inductive rpc_error := IsStatus (st : Status) | IsError (e : err).

Section Transport.

(** Whether [anypb.New] and [WithDetails] can marshal these, and the generated code. *)
Context (marshals : ErrorNode -> bool) (with_details : list Detail -> bool) (CommonUnknownError : string).

(** The details of the status of a message: its code, the locale and the chain. *)
Definition status_details (e : err) (m : MessageImpl) : list Detail :=
  [ErrorInfo (reason m) (domain m) (metadata m); LocalizedMessage LocaleEnglish EmptyString] ++
  (if marshals (BuildErrorChain e) then [Chain (BuildErrorChain e)] else []).

Definition ToGRPCStatus (e : err) (m : MessageImpl) : Status :=
  {| st_Code := FailedPrecondition; st_Message := Error e; Details := if with_details (status_details e m) then status_details e m else [] |}.

(** [AsGRPCStatus], which the interceptors of a server apply to every error. *)
Definition AsGRPCStatus (e : err) : rpc_error :=
  match IsMessage e with
  | Some (Msg _ m _ as top) => IsStatus (ToGRPCStatus top m)
  | _ => IsError e
  end.

(** What the loop over the details extracts. *)
Record extracted := { x_domain : string; x_reason : string; x_locale : string; x_metadata : gmap string string; x_chain : option ErrorNode }.

Definition extract (x : extracted) (d : Detail) : extracted :=
  match d with
  | ErrorInfo r dom md => {| x_domain := dom; x_reason := r; x_locale := x_locale x; x_metadata := md; x_chain := x_chain x |}
  | LocalizedMessage l _ =>
      {| x_domain := x_domain x; x_reason := x_reason x; x_locale := if bool_decide (l = EmptyString) then x_locale x else l;
         x_metadata := x_metadata x; x_chain := x_chain x |}
  | Chain root => {| x_domain := x_domain x; x_reason := x_reason x; x_locale := x_locale x; x_metadata := x_metadata x; x_chain := Some root |}
  end.

Definition extract_details (ds : list Detail) : extracted :=
  foldl extract {| x_domain := EmptyString; x_reason := EmptyString; x_locale := EmptyString; x_metadata := ∅; x_chain := None |} ds.

(** [New(CommonUnknownError).WithCause(err)]; a code without a dot would be a nil message. *)
Definition unknown_error (next : nat) (cause : err) : option err := WithCause next cause <$> New CommonUnknownError.

Definition attach_info (i : GRPCInfo) (e : err) : err := match e with Msg id m c => Msg id (with_info i m) c | _ => e end.

(** [FromGRPCStatus], which the interceptors of a client apply; [status_error] is the error that
    a status is, as the cause of another error. *)
Definition FromGRPCStatus (next : nat) (status_error : Status -> err) (r : rpc_error) : option err :=
  match r with
  | IsError e => match IsMessage e with Some m => Some m | None => unknown_error next e end
  | IsStatus st =>
      let info := {| GRPCCode := st_Code st; GRPCMessage := st_Message st |} in
      let x := extract_details (Details st) in
      if bool_decide (length (Details st) = 0%nat) then Some (errors_New next (st_Message st))
      else if bool_decide (x_domain x = EmptyString) || bool_decide (x_reason x = EmptyString) then unknown_error next (status_error st)
      else
        match x_chain x with
        | Some chain => Some (attach_info info (ReconstructFromChain next chain))
        | None => Some (Msg next {| domain := x_domain x; reason := x_reason x; metadata := x_metadata x; locale := x_locale x; grpcInfo := info |} None)
        end
  end.

End Transport.

(** ** Payloads *)

(** The catalog entry of an error, once interpolated. *)
Record CatalogMessage := { cm_Code : string; Severity : string; cm_Message : string; Explanation : string; Advice : string }.

Definition SeverityInfo : string := "Info".
Definition SeverityWarning : string := "Warning".
Definition SeverityError : string := "Error".

#[export] Instance CatalogMessage_eq_dec : EqDecision CatalogMessage.
Proof. solve_decision. Defined.

Inductive ErrorPayload := Payload (p_Code p_Severity p_Message p_Explanation p_Advice p_Locale : string) (p_Metadata : gmap string string)
  (p_Children : list ErrorPayload).

(** [BuildErrorPayload] with the options [LookupMessage] and [FormatNonMessage]. *)
Fixpoint BuildErrorPayload (LookupMessage : err -> option CatalogMessage) (FormatNonMessage : err -> string) (e : err) : ErrorPayload :=
  match e with
  | Msg _ m cause =>
      let children := match cause with Some c => [BuildErrorPayload LookupMessage FormatNonMessage c] | None => [] end in
      match LookupMessage e with
      | Some cm => Payload (Code m) (Severity cm) (cm_Message cm) (Explanation cm) (Advice cm) (Locale m) (metadata m) children
      | None => Payload (Code m) SeverityError (Error e) EmptyString EmptyString (Locale m) (metadata m) children
      end
  | Other _ _ _ causes =>
      Payload EmptyString SeverityError (FormatNonMessage e) EmptyString EmptyString EmptyString ∅ (BuildErrorPayload LookupMessage FormatNonMessage <$> causes)
  end.

(** ** Induction on errors and nodes *)

(** The messages of an error, in the order in which [errors.Is] and [errors.As] visit them. *)
Fixpoint messages (e : err) : list MessageDetails :=
  match e with
  | Msg _ m None => [details m]
  | Msg _ m (Some c) => details m :: messages c
  | Other _ _ _ causes => causes ≫= messages
  end.

Fixpoint node_messages (n : ErrorNode) : list MessageDetails :=
  match n with Node _ _ message children => option_list message ++ (children ≫= node_messages) end.

(** An error and all that it wraps. *)
Fixpoint subs (e : err) : list err :=
  e :: match e with Msg _ _ None => [] | Msg _ _ (Some c) => subs c | Other _ _ _ causes => causes ≫= subs end.

Lemma elem_of_option_list {A} (x : A) o : x ∈ option_list o <-> o = Some x.
Proof. destruct o; cbn; [rewrite list_elem_of_singleton; naive_solver|]. split; [by intros ?%elem_of_nil|done]. Qed.

Section Induction.

Context (P : err -> Prop) (HP : forall e, Forall P (childErrors e) -> P e).

Fixpoint err_tree_ind (e : err) : P e :=
  HP e match e return Forall P (childErrors e) with
       | Msg _ _ None => Forall_nil_2 P
       | Msg _ _ (Some c) => Forall_cons_2 P c [] (err_tree_ind c) (Forall_nil_2 P)
       | Other _ _ _ causes => Forall_true P causes err_tree_ind
       end.

Context (Q : ErrorNode -> Prop) (HQ : forall t ty m cs, Forall Q cs -> Q (Node t ty m cs)).

Fixpoint node_tree_ind (n : ErrorNode) : Q n :=
  match n with Node t ty m cs => HQ t ty m cs (Forall_true Q cs node_tree_ind) end.

End Induction.

Lemma messages_eq e : messages e = option_list (own_message e) ++ (childErrors e ≫= messages).
Proof. destruct e as [id m [c|]|id ty t cs]; cbn; by rewrite ?app_nil_r. Qed.

Lemma subs_eq e : subs e = e :: (childErrors e ≫= subs).
Proof. destruct e as [id m [c|]|id ty t cs]; cbn; by rewrite ?app_nil_r. Qed.

Lemma subs_self e : e ∈ subs e.
Proof. rewrite subs_eq. by left. Qed.

Lemma subs_child e c x : c ∈ childErrors e -> x ∈ subs c -> x ∈ subs e.
Proof. intros Hc Hx. rewrite subs_eq. right. apply list_elem_of_bind. eauto. Qed.

Lemma subs_trans e x y : x ∈ subs e -> y ∈ subs x -> y ∈ subs e.
Proof.
  revert x y. induction e as [e IH] using err_tree_ind. intros x y Hx Hy. rewrite subs_eq in Hx. apply elem_of_cons in Hx as [->|Hx]; [done|].
  apply list_elem_of_bind in Hx as (c & Hx & Hc). eapply subs_child; [exact Hc|]. rewrite Forall_forall in IH. by eapply IH.
Qed.

Lemma subs_length e x : x ∈ subs e -> (length (subs x) <= length (subs e))%nat.
Proof.
  induction e as [e IH] using err_tree_ind. rewrite subs_eq at 1. intros [->|Hx]%elem_of_cons; [done|].
  apply list_elem_of_bind in Hx as (c & Hx & Hc). rewrite Forall_forall in IH. specialize (IH c Hc Hx).
  rewrite (subs_eq e). cbn. apply list_elem_of_split in Hc as (l1 & l2 & ->). rewrite bind_app. cbn. rewrite !length_app. lia.
Qed.

Lemma subs_length_child e c : c ∈ childErrors e -> (length (subs c) < length (subs e))%nat.
Proof.
  intros Hc. rewrite (subs_eq e). cbn. apply list_elem_of_split in Hc as (l1 & l2 & ->). rewrite bind_app. cbn. rewrite !length_app. lia.
Qed.

(** The messages of an error are those of what it wraps. *)
Lemma messages_subs e d : d ∈ messages e <-> exists x, x ∈ subs e /\ own_message x = Some d.
Proof.
  induction e as [e IH] using err_tree_ind. rewrite messages_eq, subs_eq, elem_of_app, elem_of_option_list, list_elem_of_bind. rewrite Forall_forall in IH.
  setoid_rewrite elem_of_cons. setoid_rewrite list_elem_of_bind. split.
  - intros [Hd|(c & Hd & Hc)]; [eauto|]. apply (IH c Hc) in Hd as (x & Hx & Hd). eauto 6.
  - intros (x & [->|(c & Hx & Hc)] & Hd); [by left|]. right. exists c. split; [|done]. apply (IH c Hc). eauto.
Qed.

(** *** The functions on lists of children *)

Fixpoint toNodes (seen : gset nat) (l : list err) : gset nat * list ErrorNode :=
  match l with
  | [] => (seen, [])
  | c :: rest => let '(seen, n) := toNode seen c in let '(seen, ns) := toNodes seen rest in (seen, n :: ns)
  end.

Lemma toNode_eq seen e : toNode seen e =
  if bool_decide (err_id e ∈ seen) then (seen, Node (Error e) (type_of e) None [])
  else let '(s, ns) := toNodes ({[err_id e]} ∪ seen) (childErrors e) in (s, Node (Error e) (type_of e) (own_message e) ns).
Proof.
  destruct e as [id m [c|]|id ty t cs]; cbn [toNode err_id childErrors toNodes own_message]; destruct (bool_decide _); try done.
  by destruct (toNode _ c).
Qed.

Fixpoint fromNodes (next : nat) (l : list ErrorNode) : nat * list err :=
  match l with
  | [] => (next, [])
  | c :: rest => let '(next, e) := fromNode next c in let '(next, es) := fromNodes next rest in (next, e :: es)
  end.

Lemma fromNode_eq next error type message children :
  fromNode next (Node error type message children) = let '(next, cs) := fromNodes next children in rebuild next error message cs.
Proof. done. Qed.

(** ** The chain has every message *)

Section Chain.

(** Identities tell errors of the tree apart. *)
Context (root : err) (Hsame : forall x y, x ∈ subs root -> y ∈ subs root -> err_id x = err_id y -> x = y).

(** What was seen of the errors of this size or less was seen with all that it wraps. *)
Definition closed (k : nat) (seen : gset nat) : Prop :=
  forall x, x ∈ subs root -> err_id x ∈ seen -> (length (subs x) <= k)%nat -> forall y, y ∈ subs x -> err_id y ∈ seen.

(** What visiting these errors adds to [seen] and gives. *)
Record visits (l : list err) (seen seen' : gset nat) (found : list MessageDetails) : Prop := {
  vi_sub : seen ⊆ seen';
  vi_all : forall y, y ∈ (l ≫= subs) -> err_id y ∈ seen';
  vi_only : forall i, i ∈ seen' -> i ∈ seen \/ exists y, y ∈ (l ≫= subs) /\ err_id y = i;
  vi_found : forall d, d ∈ found <-> exists y, y ∈ (l ≫= subs) /\ own_message y = Some d /\ err_id y ∉ seen
}.

Lemma visits_closed l seen seen' found k : (forall c, c ∈ l -> c ∈ subs root) -> visits l seen seen' found -> closed k seen -> closed k seen'.
Proof.
  intros Hl [H1 H2 H3 _] Hc x Hx Hid Hk y Hy. destruct (H3 _ Hid) as [Hs|(z & Hz & Heq)]; [by apply H1, (Hc x)|].
  apply list_elem_of_bind in Hz as (c & Hz & Hcl). assert (z = x) as ->.
  { apply Hsame; [|done|done]. by eapply subs_trans; [apply Hl|]. }
  apply H2, list_elem_of_bind. exists c. split; [by eapply subs_trans|done].
Qed.

Lemma visits_app l1 l2 s s1 s2 f1 f2 : (forall c, c ∈ l1 ++ l2 -> c ∈ subs root) -> visits l1 s s1 f1 -> visits l2 s1 s2 f2 -> visits (l1 ++ l2) s s2 (f1 ++ f2).
Proof.
  intros Hl [A1 A2 A3 A4] [B1 B2 B3 B4].
  assert (forall y, y ∈ ((l1 ++ l2) ≫= subs) -> y ∈ subs root) as Hroot.
  { intros y (c & Hy & Hc)%list_elem_of_bind. by eapply subs_trans; [apply Hl|]. }
  setoid_rewrite bind_app in Hroot. split; rewrite ?bind_app; [set_solver| | |].
  - intros y [Hy|Hy]%elem_of_app; [by apply B1, A2|by apply B2].
  - intros i Hi. setoid_rewrite elem_of_app. destruct (B3 i Hi) as [Hi1|(y & Hy & ?)]; [|eauto]. destruct (A3 i Hi1) as [?|(y & ? & ?)]; eauto.
  - intros d. rewrite elem_of_app, A4, B4. setoid_rewrite elem_of_app. split.
    + intros [(y & ? & ? & ?)|(y & ? & ? & Hn)]; [eauto|]. exists y. split_and!; [by right|done|]. intros Hs. by apply Hn, A1.
    + intros (y & [Hy|Hy] & Hd & Hn); [eauto|]. destruct (decide (err_id y ∈ s1)) as [Hin|Hout]; [|eauto].
      destruct (A3 _ Hin) as [?|(z & Hz & Heq)]; [done|]. left. exists z. rewrite Heq. split; [done|].
      replace z with y; [done|]. apply Hsame; [..|done]; apply Hroot, elem_of_app; auto.
Qed.

Lemma toNodes_visits l : (forall c, c ∈ l -> c ∈ subs root) ->
  Forall (fun e => forall seen, closed (length (subs e)) seen -> visits [e] seen (toNode seen e).1 (node_messages (toNode seen e).2)) l ->
  forall seen, (forall c, c ∈ l -> closed (length (subs c)) seen) ->
  visits l seen (toNodes seen l).1 ((toNodes seen l).2 ≫= node_messages).
Proof.
  intros Hl Hall. induction Hall as [|c l Hc _ IH]; intros seen Hcl.
  - split; cbn; try done; [by intros ? ?%elem_of_nil|by left|]. intros d. split; [by intros ?%elem_of_nil|]. by intros (y & ?%elem_of_nil & _).
  - cbn [toNodes]. specialize (Hc seen ltac:(by apply Hcl; left)). destruct (toNode seen c) as [s1 n] eqn:H1. cbn [fst snd] in Hc.
    specialize (IH ltac:(intros; apply Hl; by right) s1). destruct (toNodes s1 l) as [s2 ns]. cbn [fst snd mbind list_bind] in *.
    eapply (visits_app [c] l); [exact Hl|exact Hc|]. apply IH. intros d Hd. eapply visits_closed; [|exact Hc|apply Hcl; by right].
    intros x ->%list_elem_of_singleton. apply Hl. by left.
Qed.

Lemma toNode_visits e : e ∈ subs root -> forall seen, closed (length (subs e)) seen -> visits [e] seen (toNode seen e).1 (node_messages (toNode seen e).2).
Proof.
  induction e as [e IH] using err_tree_ind. intros He seen Hcl. rewrite toNode_eq. case_bool_decide as Hin.
  - cbn. assert (forall y, y ∈ ([e] ≫= subs) -> err_id y ∈ seen) as Hall.
    { intros y. cbn. rewrite app_nil_r. intros Hy. by apply (Hcl e). }
    split; [done|done|by left|]. intros d. split; [by intros ?%elem_of_nil|]. intros (y & Hy & _ & Hn). by destruct Hn; apply Hall.
  - assert (forall c, c ∈ childErrors e -> c ∈ subs root) as Hroot by (intros c Hc; eapply subs_trans; [exact He|]; eapply subs_child; [exact Hc|apply subs_self]).
    pose proof (toNodes_visits (childErrors e) Hroot) as Hv. ospecialize (Hv _ ({[err_id e]} ∪ seen) _).
    { apply Forall_forall. intros c Hc. rewrite Forall_forall in IH. by apply IH, Hroot. }
    { intros c Hc x Hx [Heq%elem_of_singleton|Hs]%elem_of_union Hlen y Hy; pose proof (subs_length_child e c Hc).
      - rewrite (Hsame x e) in Hlen by done. lia.
      - apply elem_of_union. right. eapply (Hcl x); [done|done|lia|done]. }
    destruct (toNodes _ (childErrors e)) as [s ns]. cbn [fst snd] in Hv |- *. destruct Hv as [V1 V2 V3 V4].
    split; cbn [mbind list_bind]; rewrite ?app_nil_r; cbn [node_messages].
    + set_solver.
    + intros y. rewrite subs_eq, elem_of_cons. intros [->|Hy]; [set_solver|by apply V2].
    + intros i Hi. destruct (V3 i Hi) as [[->%elem_of_singleton|?]%elem_of_union|(y & Hy & <-)]; [right; exists e|by left|right; exists y].
      * split; [apply subs_self|done].
      * rewrite subs_eq. split; [by right|done].
    + intros d. rewrite elem_of_app, elem_of_option_list, V4, subs_eq. setoid_rewrite elem_of_cons. split.
      * intros [Hd|(y & ? & ? & ?)]; [exists e; auto|]. exists y. split_and!; [by right|done|set_solver].
      * intros (y & [->|Hy] & Hd & Hn); [by left|]. destruct (decide (err_id y = err_id e)) as [Heq|]; [|right; exists y; set_solver].
        left. rewrite <- (Hsame y e); [done| |done|done]. eapply subs_trans; [exact He|]. rewrite subs_eq. by right.
Qed.

Lemma chain_messages d : d ∈ node_messages (BuildErrorChain root) <-> d ∈ messages root.
Proof.
  unfold BuildErrorChain. destruct (toNode_visits root (subs_self root) ∅) as [_ _ _ Hf].
  { intros x _ Hx. set_solver. }
  rewrite Hf, messages_subs. cbn. rewrite app_nil_r. split; intros (y & ? & ?); [exists y; naive_solver|]. exists y. set_solver.
Qed.

End Chain.

(** ** Rebuilding *)

Lemma last_cut (c : ascii) s : byte_free c s = true \/ exists a b, s = a +:+ String c b /\ byte_free c b = true.
Proof.
  induction s as [|d s [IH|(a & b & -> & Hb)]]; [by left| |right; by exists (String d a), b].
  destruct (Ascii.eqb_spec d c) as [->|Hne]; [right; by exists EmptyString, s|left]. cbn. rewrite IH. by apply Ascii.eqb_neq in Hne as ->.
Qed.

Lemma LastIndex_cut c a b : byte_free c b = true -> LastIndex (a +:+ String c b) (String c EmptyString) = len a.
Proof. intros Hb. unfold LastIndex. rewrite last_index_from_app by done. unfold len. lia. Qed.

Lemma slice_before a t : slice (a +:+ t) 0 (len a) = a.
Proof. unfold slice, len. rewrite Nat2Z.id. apply stake_prefix. Qed.

Lemma slice_after a c b : slice (a +:+ String c b) (len a + 1) (len (a +:+ String c b)) = b.
Proof.
  unfold slice, len. rewrite Nat2Z.id, stake_length. replace (Z.to_nat _) with (String.length (a +:+ String c EmptyString)) by (rewrite slength_app; cbn; lia).
  change (String c b) with (String c EmptyString +:+ b). rewrite <- sapp_assoc. apply sdrop_app.
Qed.

(** A code with a dot is split and put together again. *)
Lemma New_dot d r : exists m, New (d +:+ "." +:+ r) = Some m /\ Code m = d +:+ "." +:+ r /\ metadata m = ∅.
Proof.
  assert (exists a b, d +:+ "." +:+ r = a +:+ String "." b /\ byte_free "." b = true) as (a & b & -> & Hb).
  { destruct (last_cut "." r) as [Hr|(a & b & -> & Hb)]; [by exists d, r|]. exists (d +:+ "." +:+ a), b. by rewrite !sapp_assoc. }
  unfold New. rewrite LastIndex_cut by done. destruct (len a =? -1) eqn:Hl; [apply Z.eqb_eq in Hl; unfold len in Hl; lia|].
  eexists. split; [done|]. split; [|done]. unfold Code. cbn [domain reason]. by rewrite slice_before, slice_after.
Qed.

Lemma Code_nonempty m : Code m <> EmptyString.
Proof. unfold Code. by destruct (domain m). Qed.

(** Details that a message sends: a code with a dot, and a locale. *)
Definition sendable (md : MessageDetails) : Prop := (exists d r, md_Code md = d +:+ "." +:+ r) /\ md_Locale md <> EmptyString.

Lemma details_sendable m : sendable (details m).
Proof. split; [by exists (domain m), (reason m)|]. unfold details, Locale. cbn. by case_bool_decide. Qed.

Lemma messages_sendable e : Forall sendable (messages e).
Proof.
  apply Forall_forall. intros d (x & _ & Hd)%messages_subs. destruct x; [|done]. injection Hd as <-. apply details_sendable.
Qed.

Lemma rebuilt_details md m : sendable md -> New (md_Code md) = Some m ->
  details (WithMetadata (md_Metadata md) (with_locale (md_Locale md) m)) = md.
Proof.
  intros [(d & r & Hc) Hl] Hm. destruct (New_dot d r) as (m' & Hm' & Hcode & Hmd). rewrite Hc, Hm' in Hm. injection Hm as <-.
  destruct md as [c mdm l]. cbn in *. unfold details, Code, Locale, WithMetadata, with_locale. cbn. unfold Code in Hcode. rewrite Hcode, Hmd, <- Hc.
  rewrite bool_decide_false by done. by rewrite (right_id_L ∅ (∪)).
Qed.

(** What is rebuilt from a node: its identities lie between the numbers and are different, a
    text is empty only without messages, and the messages are those of the node. *)
Record rebuilt (next next' : nat) (e : err) (found : list MessageDetails) : Prop := {
  rb_next : (next <= next')%nat;
  rb_ids : Forall (fun i => next <= i < next')%nat (err_id <$> subs e);
  rb_nodup : NoDup (err_id <$> subs e);
  rb_messages : messages e = found;
  rb_empty : Error e = EmptyString -> found = []
}.

Definition all_rebuilt (next next' : nat) (l : list err) (found : list MessageDetails) : Prop :=
  (next <= next')%nat /\ Forall (fun i => next <= i < next')%nat (err_id <$> (l ≫= subs)) /\ NoDup (err_id <$> (l ≫= subs)) /\ l ≫= messages = found /\
  Forall (fun e => Error e = EmptyString -> messages e = []) l.

(** One error above others that have been rebuilt. *)
Lemma rebuilt_above next next' id e found : err_id e = id -> (next' <= id)%nat -> all_rebuilt next next' (childErrors e) found ->
  (Error e = EmptyString -> option_list (own_message e) ++ found = []) ->
  rebuilt next (S id) e (option_list (own_message e) ++ found).
Proof.
  intros Hid Hle (H1 & H2 & H3 & H4 & _) He. split; rewrite ?subs_eq, ?fmap_cons; [lia| | |by rewrite messages_eq, H4|done].
  - constructor; [lia|]. eapply Forall_impl; [exact H2|]. cbn. lia.
  - constructor; [|done]. intros Hin. rewrite Forall_forall in H2. specialize (H2 _ Hin). cbn in H2. lia.
Qed.

Lemma all_rebuilt_one next next' e found : rebuilt next next' e found -> all_rebuilt next next' [e] found.
Proof.
  intros [H1 H2 H3 H4 H5]. unfold all_rebuilt. cbn. rewrite !app_nil_r. split_and!; [done..|]. constructor; [|done]. by rewrite H4.
Qed.

Lemma all_rebuilt_cons next next1 next2 e l f1 f2 : rebuilt next next1 e f1 -> all_rebuilt next1 next2 l f2 -> all_rebuilt next next2 (e :: l) (f1 ++ f2).
Proof.
  intros [A1 A2 A3 A4 A5] (B1 & B2 & B3 & B4 & B5). unfold all_rebuilt. cbn [mbind list_bind]. rewrite fmap_app, Forall_app, NoDup_app. split_and!.
  - lia.
  - eapply Forall_impl; [exact A2|]. cbn. lia.
  - eapply Forall_impl; [exact B2|]. cbn. lia.
  - done.
  - intros i Hi Hj. rewrite Forall_forall in A2. rewrite Forall_forall in B2. specialize (A2 _ Hi). specialize (B2 _ Hj). cbn in *. lia.
  - done.
  - by rewrite A4, <- B4.
  - constructor; [|done]. by rewrite A4.
Qed.

Lemma Join_nonempty sep w ws : sep <> EmptyString -> ws <> [] -> Join sep (w :: ws) <> EmptyString.
Proof. intros Hs Hw. destruct ws; [done|]. cbn. by destruct w, sep. Qed.

Lemma errors_Join_nonempty id c1 c2 l : Error (errors_Join id (c1 :: c2 :: l)) <> EmptyString.
Proof. cbn [errors_Join Error fmap list_fmap]. by apply Join_nonempty. Qed.

Lemma wrap_text_nonempty t x : t +:+ ": " +:+ x <> EmptyString.
Proof. by destruct t. Qed.

Lemma plainFrom_rebuilt next0 next msg l found : all_rebuilt next0 next l found ->
  rebuilt next0 (plainFrom next msg l).1 (plainFrom next msg l).2 found.
Proof.
  intros Hl. destruct l as [|c [|c2 l]]; cbn [plainFrom fst snd].
  - pose proof Hl as (_ & _ & _ & <- & _). by apply (rebuilt_above next0 next next (errors_New next msg) []).
  - apply (rebuilt_above next0 next next (wrap_text next msg c) found); [done..|]. by intros ?%wrap_text_nonempty.
  - assert (rebuilt next0 (S next) (errors_Join next (c :: c2 :: l)) found) as Hj.
    { apply (rebuilt_above next0 next next (errors_Join next (c :: c2 :: l)) found); [done..|]. by intros ?%errors_Join_nonempty. }
    apply (rebuilt_above next0 (S next) (S next) (wrap_text (S next) msg _) found); [done|done|by apply all_rebuilt_one|]. by intros ?%wrap_text_nonempty.
Qed.

Lemma Msg_nonempty id m c : Error (Msg id m c) <> EmptyString.
Proof. pose proof (Code_nonempty m). destruct c; cbn; by destruct (Code m). Qed.

Lemma WithCause_rebuilt next0 next m c found : rebuilt next0 next c found -> rebuilt next0 (S next) (WithCause next c m) (details m :: found).
Proof.
  intros Hc. unfold WithCause. case_bool_decide as He.
  - rewrite (rb_empty _ _ _ _ Hc He). apply (rebuilt_above next0 next next (Msg next m None) []); [done|done| |by intros ?%Msg_nonempty].
    destruct Hc. unfold all_rebuilt. cbn. split_and!; try done. constructor.
  - apply (rebuilt_above next0 next next (Msg next m (Some c)) found); [done|done|by apply all_rebuilt_one|by intros ?%Msg_nonempty].
Qed.

Lemma rebuild_rebuilt next0 next error message l found : Forall sendable (option_list message) -> all_rebuilt next0 next l found ->
  rebuilt next0 (rebuild next error message l).1 (rebuild next error message l).2 (option_list message ++ found).
Proof.
  intros Hmd Hl. destruct message as [md|]; cbn [rebuild option_list app]; [|by apply plainFrom_rebuilt]. apply Forall_cons in Hmd as [Hmd _].
  pose proof Hmd as [(d & r & Hc) _]. rewrite bool_decide_false by (rewrite Hc; by destruct d). destruct (New_dot d r) as (m & Hm & _). rewrite Hc, Hm.
  pose proof (rebuilt_details md m Hmd ltac:(by rewrite Hc)) as Hd. set (msg := WithMetadata _ _) in *. destruct l as [|c [|c2 l]]; cbn [fst snd].
  - pose proof Hl as (_ & _ & _ & <- & _). rewrite <- Hd. apply (rebuilt_above next0 next next (Msg next msg None) []); [done|done|done|by intros ?%Msg_nonempty].
  - rewrite <- Hd. apply WithCause_rebuilt. destruct Hl as (H1 & H2 & H3 & H4 & H5). cbn in H2, H3, H4. rewrite app_nil_r in H2, H3, H4.
    apply Forall_cons in H5 as [H5 _]. split; [done..|]. by rewrite <- H4.
  - rewrite <- Hd. apply WithCause_rebuilt. apply (rebuilt_above next0 next next (errors_Join next (c :: c2 :: l)) found); [done..|]. by intros ?%errors_Join_nonempty.
Qed.

Lemma fromNodes_rebuilt ns :
  Forall (fun n => Forall sendable (node_messages n) -> forall next, rebuilt next (fromNode next n).1 (fromNode next n).2 (node_messages n)) ns ->
  Forall sendable (ns ≫= node_messages) ->
  forall next, all_rebuilt next (fromNodes next ns).1 (fromNodes next ns).2 (ns ≫= node_messages).
Proof.
  induction 1 as [|n ns Hn _ IH]; intros Hs next.
  - unfold all_rebuilt. cbn. split_and!; try done; constructor.
  - cbn [mbind list_bind] in Hs. apply Forall_app in Hs as [Hs1 Hs2]. specialize (Hn Hs1 next). cbn [fromNodes]. destruct (fromNode next n) as [next1 e].
    specialize (IH Hs2 next1). destruct (fromNodes next1 ns) as [next2 es]. by apply (all_rebuilt_cons next next1).
Qed.

Lemma fromNode_rebuilt n : Forall sendable (node_messages n) -> forall next, rebuilt next (fromNode next n).1 (fromNode next n).2 (node_messages n).
Proof.
  induction n as [error ty message ns IH] using node_tree_ind. intros Hs next. cbn [node_messages] in Hs |- *. apply Forall_app in Hs as [Hs1 Hs2].
  rewrite fromNode_eq. pose proof (fromNodes_rebuilt ns IH Hs2 next) as Hl. destruct (fromNodes next ns) as [next1 es]. by apply rebuild_rebuilt.
Qed.

(** ** Payloads list every message *)

Fixpoint payload_codes (p : ErrorPayload) : list string :=
  match p with Payload code _ _ _ _ _ _ children => (if bool_decide (code = EmptyString) then [] else [code]) ++ (children ≫= payload_codes) end.

Lemma payload_lists_codes lookup text e : payload_codes (BuildErrorPayload lookup text e) = md_Code <$> messages e.
Proof.
  assert (forall m, bool_decide (Code m = EmptyString) = false) as Hm by (intros m; apply bool_decide_false, Code_nonempty).
  induction e as [e IH] using err_tree_ind. destruct e as [id m [c|]|id ty t cs]; cbn [childErrors] in IH; cbn [BuildErrorPayload messages].
  - apply Forall_cons in IH as [IH _]. destruct (lookup _); cbn; by rewrite Hm, IH, app_nil_r.
  - destruct (lookup _); cbn; by rewrite Hm.
  - cbn [payload_codes]. rewrite bool_decide_true by done. cbn [app]. induction IH as [|c cs Hc _ IH]; [done|]. cbn. by rewrite Hc, IH, fmap_app.
Qed.

(** ** Errors between processes *)

Definition consistent (e : err) : Prop := forall x y, x ∈ subs e -> y ∈ subs e -> err_id x = err_id y -> x = y.

Lemma NoDup_consistent e : NoDup (err_id <$> subs e) -> consistent e.
Proof.
  intros Hn x y [i Hx]%list_elem_of_lookup [j Hy]%list_elem_of_lookup Heq. assert (i = j) as ->; [|congruence].
  apply (NoDup_lookup (err_id <$> subs e) i j (err_id x)); [done|by rewrite list_lookup_fmap, Hx|by rewrite list_lookup_fmap, Hy, Heq].
Qed.

Lemma reconstruct_spec next n : Forall sendable (node_messages n) ->
  messages (ReconstructFromChain next n) = node_messages n /\ consistent (ReconstructFromChain next n).
Proof. intros Hn. destruct (fromNode_rebuilt n Hn next) as [_ _ Hnd Hm _]. split; [done|by apply NoDup_consistent]. Qed.

(** [errors.As] finds the first message of the error, with all that it wraps. *)
Lemma IsMessage_spec e :
  match IsMessage e with
  | Some top => top ∈ subs e /\ head (messages e) = own_message top /\ exists id m c, top = Msg id m c
  | None => messages e = []
  end.
Proof.
  induction e as [e IH] using err_tree_ind. destruct e as [id m c|id ty t cs].
  - cbn [IsMessage]. split; [apply subs_self|]. split; [by destruct c|eauto].
  - rewrite messages_eq, subs_eq. cbn [childErrors own_message option_list app IsMessage] in IH |- *.
    enough (match IsMessage (Other id ty t cs) with
      | Some top => top ∈ (cs ≫= subs) /\ head (cs ≫= messages) = own_message top /\ exists id m c, top = Msg id m c
      | None => cs ≫= messages = []
      end) as Hl by (cbn [IsMessage] in Hl; destruct (_ cs) as [top|]; [destruct Hl; split; [by right|done]|done]).
    cbn [IsMessage]. induction IH as [|c cs Hc _ IH]; [done|]. cbn [mbind list_bind]. destruct (IsMessage c) as [top|].
    + destruct Hc as (Hin & Hh & Htop). split_and!; [apply elem_of_app; by left| |done].
      destruct Htop as (i & m & x & ->). by destruct (messages c).
    + rewrite Hc. match type of IH with match ?x with _ => _ end => destruct x as [top|] end; [|exact IH].
      destruct IH as (Hin & Hh & Htop). split_and!; [apply elem_of_app; by right|done|done].
Qed.

(** The top of a rebuilt message. *)
Lemma rebuilt_top next id m c : let r := ReconstructFromChain next (BuildErrorChain (Msg id m c)) in
  exists id' m' c', r = Msg id' m' c' /\ details m' = details m.
Proof.
  cbn zeta. unfold BuildErrorChain. rewrite toNode_eq, bool_decide_false by set_solver. destruct (toNodes _ _) as [s ns]. cbn [snd own_message].
  unfold ReconstructFromChain. rewrite fromNode_eq. destruct (fromNodes next ns) as [n1 cs]. cbn [rebuild].
  pose proof (details_sendable m) as Hs. rewrite bool_decide_false by (apply Code_nonempty). destruct (New_dot (domain m) (reason m)) as (m0 & Hm0 & _).
  unfold md_Code at 1, details at 1, Code. rewrite Hm0. pose proof (rebuilt_details _ m0 Hs Hm0) as Hd. destruct cs as [|c1 [|c2 cs]]; eauto.
  all: unfold WithCause; destruct (bool_decide _); eauto.
Qed.

(** The information of gRPC that is attached to it changes nothing else. *)
Lemma consistent_info id m m' c : consistent (Msg id m c) -> consistent (Msg id m' c).
Proof.
  intros Hc. assert (forall x, x ∈ (childErrors (Msg id m c) ≫= subs) -> err_id x <> id) as Hne.
  { intros x Hx Heq. assert (x = Msg id m c) as -> by (apply Hc; [rewrite subs_eq; by right|apply subs_self|done]).
    apply list_elem_of_bind in Hx as (d & Hx & Hd). pose proof (subs_length_child _ _ Hd). pose proof (subs_length _ _ Hx). lia. }
  intros x y. rewrite !(subs_eq (Msg id m' c)), !elem_of_cons. intros [->|Hx] [->|Hy] Heq; [done|by destruct (Hne y)|by destruct (Hne x)|].
  apply Hc; [rewrite subs_eq; by right..|done].
Qed.

Section Delivered.

Context (marshals : ErrorNode -> bool) (with_details : list Detail -> bool) (CommonUnknownError : string) (status_error : Status -> err).

(** gRPC delivers a status as it is, and any other error as a status without details. *)
Class Delivery := {
  deliver : rpc_error -> rpc_error;
  deliver_status st : deliver (IsStatus st) = IsStatus st;
  deliver_error e : deliver (IsError e) = IsStatus {| st_Code := code_Unknown; st_Message := Error e; Details := [] |}
}.

Context {D : Delivery}.

(** What a client has when a handler returns the error, with identities from [next] on. *)
Definition received (next : nat) (e : err) : option err :=
  FromGRPCStatus CommonUnknownError next status_error (deliver (AsGRPCStatus marshals with_details e)).


End Delivered.

(** ** An error of the agent that is wrapped twice *)

Definition sample_message (d r : string) (md : gmap string string) : MessageImpl :=
  {| domain := d; reason := r; metadata := md; locale := EmptyString; grpcInfo := no_info |}.

Definition busy : err := Msg 1 (sample_message "engine.run" "BUSY" {["runID" := "r042"]}) (Some (errors_New 2 "lock is held")).
Definition joined : err := errors_Join 3 [busy; errors_New 4 "timed out"; busy].
Definition sample_error : err := wrap_text 6 "render" (Msg 5 (sample_message "engine.render" "FAILED" ∅) (Some joined)).

#[export] Instance grpc_delivery : Delivery := {|
  deliver r := match r with IsError e => IsStatus {| st_Code := code_Unknown; st_Message := Error e; Details := [] |} | _ => r end;
  deliver_status st := eq_refl;
  deliver_error e := eq_refl
|}.

Lemma sample_consistent : consistent sample_error.
Proof.
  intros x y. change (subs sample_error) with [sample_error; Msg 5 (sample_message "engine.render" "FAILED" ∅) (Some joined); joined;
    busy; errors_New 2 "lock is held"; errors_New 4 "timed out"; busy; errors_New 2 "lock is held"].
  rewrite !elem_of_cons, !elem_of_nil. intros Hx Hy Heq.
  destruct Hx as [->|[->|[->|[->|[->|[->|[->|[->|[]]]]]]]]]; destruct Hy as [->|[->|[->|[->|[->|[->|[->|[->|[]]]]]]]]];
    first [reflexivity|discriminate Heq].
Qed.


(** The texts do not survive: that of a wrapped error is repeated at every level. *)
Example texts_grow :
  let e := Msg 0 (sample_message "engine.run" "BUSY" ∅) (Some (wrap_text 1 "open" (errors_New 2 "denied"))) in
  (Error e, Error <$> received (fun _ => true) (fun _ => true) "common.UNKNOWN" (fun _ => e) 0 e) =
  ("engine.run.BUSY: open: denied", Some "engine.run.BUSY: open: denied: denied").
Proof. vm_compute. reflexivity. Qed.
