(* ===== verification/MessageCatalog.v ===== *)
(** * Performix: the catalog of messages

    Models [core/apap-engine/message/catalog.go] and the lookup of [message.go]: the text of a
    message with its placeholders filled in. The catalogs are embedded data and a parameter;
    the order in which Go visits a map is an argument. *)

From S2P Require Import Prelude.
From S2P Require Import GoStrings.
From S2P Require Import Messages.
From Stdlib Require Import Ascii.

Local Open Scope Z_scope.

Definition open_brace : ascii := "{".
Definition close_brace : ascii := "}".

(** [strings.ReplaceAll] of a text that is not empty, with the bytes still to be skipped. *)
Fixpoint replace_from (skip : nat) (s old new : string) : string :=
  match s with
  | EmptyString => EmptyString
  | String c s' =>
      match skip with
      | S k => replace_from k s' old new
      | O => if HasPrefix s old then new +:+ replace_from (String.length old - 1) s' old new else String c (replace_from 0 s' old new)
      end
  end.

Definition ReplaceAll (s old new : string) : string := replace_from 0 s old new.

Example replaced : (ReplaceAll "a{x}b{x}{y" "{x}" "{x}!", ReplaceAll "aaa" "aa" "b") = ("a{x}!b{x}!{y", "ba").
Proof. vm_compute. reflexivity. Qed.

Definition placeholder (key : string) : string := String open_brace (key +:+ String close_brace EmptyString).

(** Keys of metadata that can be referred to. *)
Definition usable (key : string) : bool := match key with EmptyString => false | String c _ => negb (Ascii.eqb c "$") end.

Section Catalog.

(** The full name of the product, and the catalogs by locale and code. *)
Context (product : string) (CatalogByLocale : gmap string (gmap string CatalogMessage)).

Definition catalogConstants : gmap string string := {["PRODUCT_FULL_NAME" := product]}.

(** What is replaced: the placeholders of the metadata, and those of the constants. *)
Definition mappings (md : gmap string string) : list (string * string) :=
  ((fun kv => (placeholder kv.1, kv.2)) <$> filter (fun kv => usable kv.1 = true) (map_to_list md)) ++
  ((fun kv => (placeholder ("$" +:+ kv.1), kv.2)) <$> map_to_list catalogConstants).

Definition replace_fields (c : CatalogMessage) (pv : string * string) : CatalogMessage :=
  {| cm_Code := cm_Code c; Severity := Severity c; cm_Message := ReplaceAll (cm_Message c) pv.1 pv.2;
     Explanation := ReplaceAll (Explanation c) pv.1 pv.2; Advice := ReplaceAll (Advice c) pv.1 pv.2 |}.

(** [Interpolate], when the replacements are visited in the given order. *)
Definition Interpolate (order : list (string * string)) (c : CatalogMessage) : CatalogMessage := foldl replace_fields c order.

Definition unknownCatalogMessage : CatalogMessage :=
  {| cm_Code := "engine.message.LOOKUP_FAILED"; Severity := SeverityError; cm_Message := "There was an issue finding this message.";
     Explanation := "An internal error occurred while trying to find the message with code '{code}'."; Advice := "Contact Arm support." |}.

(** [Lookup]: English where the locale does not have the message. *)
Definition Lookup (m : MessageImpl) : option CatalogMessage :=
  match (catalog ← CatalogByLocale !! Locale m; catalog !! Code m) with
  | Some msg => Some msg
  | None => if bool_decide (Locale m = LocaleEnglish) then None else en ← CatalogByLocale !! LocaleEnglish; en !! Code m
  end.

Definition IsInfoOrWarning (m : MessageImpl) : bool :=
  match Lookup m with Some c => bool_decide (Severity c = SeverityInfo) || bool_decide (Severity c = SeverityWarning) | None => false end.

(** [LookupMessage] where [visit] gives the order of a map; the flag is whether there is an error. *)
Definition LookupMessage (visit : list (string * string) -> list (string * string)) (e : err) : CatalogMessage * bool :=
  match IsMessage e with
  | Some (Msg _ m _) =>
      match Lookup m with
      | Some c => (Interpolate (visit (mappings (metadata m))) c, false)
      | None => (Interpolate (visit (mappings {["code" := Code m]})) unknownCatalogMessage, false)
      end
  | _ => (Interpolate (visit (mappings {["code" := "nil"]})) unknownCatalogMessage, true)
  end.

(** ** Formatting *)

Definition newline_text : string := String (ascii_of_nat 10) EmptyString.

(** [StringWithIndent]; the text is empty for another severity. *)
Definition StringWithIndent (numChars : nat) (c : CatalogMessage) : string :=
  let indent := String.concat "" (replicate numChars " ") in
  let line := fun name text => indent +:+ "[" +:+ name +:+ "]: " +:+ text in
  if bool_decide (Severity c = SeverityInfo) then line (Severity c) (cm_Message c)
  else if bool_decide (Severity c = SeverityWarning)
  then Join newline_text [line (Severity c) (cm_Message c); line "Explanation" (Explanation c); line "Advice" (Advice c)]
  else if bool_decide (Severity c = SeverityError)
  then Join newline_text [line (Severity c) (cm_Message c); line "Explanation" (Explanation c); line "Advice" (Advice c); line "Code" (cm_Code c)]
  else EmptyString.

Definition Text (c : CatalogMessage) : string :=
  Join " " (filter (fun f => f <> EmptyString) [cm_Message c; Explanation c; Advice c]).

(** ** Templates *)

(** A text as parts: literal text, and the placeholder of a key. *)
Inductive part := Lit (s : string) | Hole (key : string).

Definition show_part (p : part) : string := match p with Lit s => s | Hole key => placeholder key end.
Definition show (ps : list part) : string := foldr (fun p s => show_part p +:+ s) EmptyString ps.

(** Literal text has no opening brace, and a key no brace at all. *)
Definition key_ok (key : string) : Prop := byte_free open_brace key = true /\ byte_free close_brace key = true.
Definition part_ok (p : part) : Prop := match p with Lit s => byte_free open_brace s = true | Hole key => key_ok key end.

(** The value of a key: that of a constant after a dollar sign, and otherwise of the metadata. *)
Definition value_of (md : gmap string string) (key : string) : option string :=
  match key with
  | EmptyString => None
  | String c k => if Ascii.eqb c "$" then catalogConstants !! k else md !! key
  end.

Definition fill (value : string -> option string) (p : part) : part :=
  match p with Hole key => match value key with Some v => Lit v | None => p end | Lit s => Lit s end.

End Catalog.

(** *** Replacing one placeholder *)

Lemma replace_skip a s old new : replace_from (String.length a) (a +:+ s) old new = replace_from 0 s old new.
Proof. induction a as [|c a IH]; [done|]. exact IH. Qed.

Lemma replace_free a s old new : byte_free open_brace a = true ->
  replace_from 0 (a +:+ s) (String open_brace old) new = a +:+ replace_from 0 s (String open_brace old) new.
Proof.
  induction a as [|c a IH]; intros Ha; [done|]. cbn in Ha. apply andb_true_iff in Ha as [Hc Ha]. rewrite !sapp_cons. cbn [replace_from].
  destruct (HasPrefix _ _) eqn:Hp; [|by rewrite IH]. apply prefix_spec in Hp as [t Ht]. injection Ht as -> _. by rewrite Ascii.eqb_refl in Hc.
Qed.

Lemma placeholder_prefix key k s : byte_free close_brace key = true -> byte_free close_brace k = true ->
  HasPrefix (placeholder key +:+ s) (placeholder k) = bool_decide (key = k).
Proof.
  intros Hkey Hk. apply eq_true_iff_eq. rewrite prefix_spec, bool_decide_eq_true. split.
  - intros [t Ht]. unfold placeholder in Ht. rewrite !sapp_cons in Ht. injection Ht as Ht. rewrite !sapp_assoc in Ht.
    assert (Some (key, s) = Some (k, t)) as [= -> _]; [|done]. transitivity (Cut close_brace (key +:+ String close_brace s)).
    + symmetry. by apply Cut_Some.
    + apply Cut_Some. split; [exact Ht|done].
  - intros ->. by exists s.
Qed.

Lemma replace_placeholder key k s v : key_ok key -> key_ok k -> 
  replace_from 0 (placeholder key +:+ s) (placeholder k) v = (if bool_decide (key = k) then v else placeholder key) +:+ replace_from 0 s (placeholder k) v.
Proof.
  intros [Hk1 Hk2] [Hk3 Hk4]. pose proof (placeholder_prefix key k s Hk2 Hk4) as Hp. unfold placeholder at 1 in Hp. unfold placeholder at 1.
  rewrite sapp_cons in Hp |- *.
  cbn [replace_from]. rewrite Hp. destruct (bool_decide (key = k)) eqn:Hkk.
  - apply bool_decide_eq_true in Hkk as <-. f_equal. cbn [placeholder String.length]. rewrite Nat.sub_succ, Nat.sub_0_r. apply replace_skip.
  - unfold placeholder at 2. rewrite sapp_cons. f_equal. unfold placeholder. apply replace_free. unfold byte_free in *. rewrite sall_app, Hk1. done.
Qed.

(** One replacement fills one placeholder. *)
Definition fill_one (k v : string) (p : part) : part := match p with Hole key => if bool_decide (key = k) then Lit v else p | Lit s => Lit s end.

Lemma replace_show k v ps : key_ok k -> Forall part_ok ps -> ReplaceAll (show ps) (placeholder k) v = show (fill_one k v <$> ps).
Proof.
  intros Hk. induction 1 as [|p ps Hp _ IH]; [done|]. unfold ReplaceAll in *. cbn [show foldr fmap list_fmap]. fold (show ps). fold (show (fill_one k v <$> ps)).
  destruct p as [s|key]; cbn [show_part fill_one].
  - cbn in Hp. unfold placeholder at 1. rewrite replace_free by done. fold (placeholder k). by rewrite IH.
  - rewrite replace_placeholder by done. rewrite IH. by destruct (bool_decide (key = k)).
Qed.

Lemma fill_one_ok k v ps : byte_free open_brace v = true -> Forall part_ok ps -> Forall part_ok (fill_one k v <$> ps).
Proof.
  intros Hv Hps. apply Forall_fmap. eapply Forall_impl; [exact Hps|]. intros [s|key] Hp; [done|]. cbn. by case_bool_decide.
Qed.

(** *** All replacements *)

(** Replacements of keys without braces by values without an opening one. *)
Definition replacement_ok (pv : string * string) : Prop := exists k, pv.1 = placeholder k /\ key_ok k /\ byte_free open_brace pv.2 = true.

Lemma placeholder_inj k1 k2 : key_ok k1 -> key_ok k2 -> placeholder k1 = placeholder k2 -> k1 = k2.
Proof.
  intros [_ H1] [_ H2] He. pose proof (placeholder_prefix k1 k2 EmptyString H1 H2) as Hp. rewrite sapp_nil_r, He in Hp.
  assert (HasPrefix (placeholder k2) (placeholder k2) = true) as Hr by (apply prefix_spec; exists EmptyString; by rewrite sapp_nil_r).
  rewrite Hr in Hp. by apply eq_sym, bool_decide_eq_true in Hp.
Qed.

Lemma replace_all_show order : forall ps, Forall replacement_ok order -> Forall part_ok ps ->
  foldl (fun s pv => ReplaceAll s pv.1 pv.2) (show ps) order = show (fill (fun key => (list_to_map order : gmap string string) !! placeholder key) <$> ps).
Proof.
  induction order as [|[p v] order IH]; intros ps Hord Hps.
  - cbn. f_equal. rewrite <- (list_fmap_id ps) at 1. apply list_fmap_ext. intros _ [s|key] _; [done|]. cbn. by rewrite lookup_empty.
  - apply Forall_cons in Hord as [(k & Hp & Hk & Hv) Hord]. cbn in Hp, Hv. subst p. cbn [foldl fst snd]. rewrite replace_show by done.
    rewrite IH by (done || by apply fill_one_ok). f_equal. rewrite <- list_fmap_compose. apply list_fmap_ext. intros i [s|key] Hi; [done|].
    pose proof (Forall_lookup_1 _ _ _ _ Hps Hi) as Hkey. cbn [compose fill_one fill]. rewrite list_to_map_cons. case_bool_decide as Hkk.
    + subst. by rewrite lookup_insert_eq.
    + cbn [fill]. rewrite lookup_insert_ne; [done|]. intros He. by apply placeholder_inj in He.
Qed.

Section Interpolation.

Context (product : string).

Lemma mappings_elem md p v : (p, v) ∈ mappings product md <->
  (exists key, p = placeholder key /\ usable key = true /\ md !! key = Some v) \/ p = placeholder "$PRODUCT_FULL_NAME" /\ v = product.
Proof.
  unfold mappings, catalogConstants. rewrite map_to_list_singleton, elem_of_app, list_elem_of_fmap. cbn [fmap list_fmap]. rewrite list_elem_of_singleton.
  apply Morphisms_Prop.or_iff_morphism.
  - split.
    + intros ([key w] & [= -> ->] & [Hu Hkv]%list_elem_of_filter). apply elem_of_map_to_list in Hkv. by exists key.
    + intros (key & -> & Hu & Hkv). exists (key, v). split; [done|]. apply list_elem_of_filter. split; [done|]. by apply elem_of_map_to_list.
  - split; [by intros [= -> ->]|by intros [-> ->]].
Qed.

(** Metadata that can be put into texts: no braces in keys, and no opening one in values. *)
Definition metadata_ok (md : gmap string string) : Prop :=
  forall key v, md !! key = Some v -> usable key = true -> key_ok key /\ byte_free open_brace v = true.

Lemma mappings_NoDup md : metadata_ok md -> NoDup (mappings product md).*1.
Proof.
  intros Hmd. unfold mappings. rewrite fmap_app, <- !list_fmap_compose. apply NoDup_app. split_and!.
  - apply NoDup_fmap_2_strong; [|apply list.NoDup_filter, NoDup_map_to_list]. intros [k1 v1] [k2 v2] [Hu1 H1%elem_of_map_to_list]%list_elem_of_filter
      [Hu2 H2%elem_of_map_to_list]%list_elem_of_filter Heq. cbn in Heq, Hu1, Hu2.
    apply placeholder_inj in Heq as ->; [congruence|by eapply Hmd..].
  - intros p Hp1 Hp2. apply list_elem_of_fmap in Hp1 as ([k v] & -> & [Hu Hk%elem_of_map_to_list]%list_elem_of_filter). cbn in Hp2, Hu.
    unfold catalogConstants in Hp2. rewrite map_to_list_singleton in Hp2. cbn [fmap list_fmap compose fst] in Hp2.
    apply list_elem_of_singleton, placeholder_inj in Hp2 as ->; [done|by eapply Hmd|done].
  - unfold catalogConstants. rewrite map_to_list_singleton. apply NoDup_singleton.
Qed.

Lemma order_value md order key : metadata_ok md -> key_ok key -> order ≡ₚ mappings product md ->
  (list_to_map order : gmap string string) !! placeholder key = value_of product md key.
Proof.
  intros Hmd Hkey Hord. pose proof (mappings_NoDup md Hmd) as Hn. rewrite <- Hord in Hn.
  apply option_eq. intros v. rewrite <- elem_of_list_to_map by done. rewrite Hord, mappings_elem.
  transitivity ((usable key = true /\ md !! key = Some v) \/ key = "$PRODUCT_FULL_NAME" /\ v = product).
  - apply Morphisms_Prop.or_iff_morphism.
    + split; [|by intros []; exists key]. intros (k & He & Hu & Hk). apply placeholder_inj in He as ->; [done..|by eapply Hmd].
    + split; intros [He ->]; [|by subst]. split; [|done]. by apply placeholder_inj in He.
  - destruct key as [|c k]; cbn; [naive_solver|]. unfold catalogConstants. destruct (Ascii.eqb_spec c "$") as [->|Hc]; cbn; [|naive_solver].
    rewrite lookup_singleton_Some. naive_solver.
Qed.

Lemma Interpolate_fields order : forall c, Interpolate order c =
  {| cm_Code := cm_Code c; Severity := Severity c; cm_Message := foldl (fun s pv => ReplaceAll s pv.1 pv.2) (cm_Message c) order;
     Explanation := foldl (fun s pv => ReplaceAll s pv.1 pv.2) (Explanation c) order; Advice := foldl (fun s pv => ReplaceAll s pv.1 pv.2) (Advice c) order |}.
Proof. induction order as [|pv order IH]; intros c; [by destruct c|]. unfold Interpolate in *. cbn [foldl]. by rewrite IH. Qed.

(** C33: when no value has an opening brace, the placeholders of a message are filled with the
    values of their keys at once, whatever the order in which the map of replacements is
    visited; placeholders without a value stay, and code and severity are kept. *)
Theorem interpolation_fills_placeholders md order code severity m e a : metadata_ok md -> byte_free open_brace product = true ->
  Forall part_ok m -> Forall part_ok e -> Forall part_ok a -> order ≡ₚ mappings product md ->
  Interpolate order {| cm_Code := code; Severity := severity; cm_Message := show m; Explanation := show e; Advice := show a |} =
  let filled := fun ps => show (fill (value_of product md) <$> ps) in
  {| cm_Code := code; Severity := severity; cm_Message := filled m; Explanation := filled e; Advice := filled a |}.
Proof.
  intros Hmd Hprod Hm He Ha Hord. assert (Forall replacement_ok order) as Hok.
  { rewrite Hord. apply Forall_forall. intros [p v] [(k & -> & Hu & Hk)|[-> ->]]%mappings_elem.
    - exists k. split; [done|]. by apply Hmd.
    - by exists "$PRODUCT_FULL_NAME". }
  assert (forall ps, Forall part_ok ps -> foldl (fun s pv => ReplaceAll s pv.1 pv.2) (show ps) order = show (fill (value_of product md) <$> ps)) as Hall.
  { intros ps Hps. rewrite replace_all_show by done. f_equal. apply list_fmap_ext. intros i [s|key] Hi; [done|]. cbn.
    pose proof (Forall_lookup_1 _ _ _ _ Hps Hi) as Hkey. by rewrite (order_value md). }
  rewrite Interpolate_fields. cbn. by rewrite !Hall.
Qed.

End Interpolation.

Lemma interpolation_fills_placeholders_witness :
  Interpolate (reverse (mappings "Performix" {["runID" := "r042"; "path" := "/data"]}))
    {| cm_Code := "engine.run.BUSY"; Severity := SeverityError; cm_Message := show [Lit "Run "; Hole "runID"; Lit " is busy."];
       Explanation := show [Hole "$PRODUCT_FULL_NAME"; Lit " holds `"; Hole "path"; Lit "` for "; Hole "user"]; Advice := show [] |} =
  {| cm_Code := "engine.run.BUSY"; Severity := SeverityError; cm_Message := "Run r042 is busy."; Explanation := "Performix holds `/data` for {user}"; Advice := "" |}.
Proof.
  refine (interpolation_fills_placeholders "Performix" {["runID" := "r042"; "path" := "/data"]} _ "engine.run.BUSY" SeverityError
    [Lit "Run "; Hole "runID"; Lit " is busy."] [Hole "$PRODUCT_FULL_NAME"; Lit " holds `"; Hole "path"; Lit "` for "; Hole "user"] [] _ eq_refl _ _ _ _).
  - intros key v [[<- <-]|[_ [<- <-]%lookup_singleton_Some]]%lookup_insert_Some _; repeat split.
  - repeat constructor.
  - repeat constructor.
  - repeat constructor.
  - apply reverse_Permutation.
Defined.

(** A value with the placeholder of another key: the text depends on the order of the map. *)
Example order_matters :
  let order := mappings "Performix" {["path" := "/tmp/{runID}"; "runID" := "r042"]} in
  let c := {| cm_Code := ""; Severity := SeverityError; cm_Message := "no {path}"; Explanation := ""; Advice := "" |} in
  bool_decide (Interpolate order c = Interpolate (reverse order) c) = false.
Proof. vm_compute. reflexivity. Qed.
