(* ===== verification/ProcessManager.v ===== *)
(** * Performix: the process manager of the agent

    Models [atperf-agent/process/process_manager_common.go] with the data of [process_manager.go]
    and the command lines of [process_manager_unix.go]: preparing a process and its handles,
    starting, registering, waiting and shutting down, as a step relation in which a step is one
    critical section, one operation on the map of processes or one system call. What the
    system answers is an argument; identifiers of processes are not used twice. *)

From S2P Require Import Prelude.
From S2P Require Import GoStrings.
From S2P Require Import FilePaths.
From Stdlib Require Import Ascii.

Local Open Scope Z_scope.

(** ** Requests *)

Inductive RedirectMode := NoRedirect | File | Stream | Both.

Definition IsStreamModeEnabled (mode : RedirectMode) : bool := match mode with Stream | Both => true | _ => false end.
Definition IsFileModeEnabled (mode : RedirectMode) : bool := match mode with File | Both => true | _ => false end.

Record StreamRedirect := { Mode : RedirectMode; FilePath : string }.

Inductive StdinMode := StdinNone | StdinBuffer | OtherStdin.

Record LaunchCommand := { Command : list string; Affinity : list string; Environment : list (string * string); WorkingDirectory : string }.

Record StartProcess := {
  sp_LaunchCommand : LaunchCommand;
  Stdout : StreamRedirect;
  Stderr : StreamRedirect;
  Stdin : StdinMode;
  UseGroupController : bool
}.

(** ** Commands *)

(** [mergeEnv], with the overrides in the order in which the map is visited. *)
Definition mergeEnv (inherited : list string) (overrides : list (string * string)) : list string :=
  inherited ++ ((fun kv => kv.1 +:+ "=" +:+ kv.2) <$> overrides).

Record Cmd := { Args : list string; cmd_Env : option (list string); cmd_Dir : string }.

(** [UnixProcessManager.buildCmd]; [None] is the failing index of an empty command. *)
Definition buildCmd (darwin : bool) (inherited : list string) (lc : LaunchCommand) : option Cmd :=
  match (if negb (bool_decide (Affinity lc = [])) && negb darwin then ["taskset"; "-c"; Join "," (Affinity lc)] else []) ++ Command lc with
  | [] => None
  | parts => Some {| Args := parts; cmd_Env := if bool_decide (Environment lc = []) then None else Some (mergeEnv inherited (Environment lc));
                     cmd_Dir := WorkingDirectory lc |}
  end.

Definition group_controller_args (execPath : string) : list string :=
  [execPath; "start-group-controller"; "--wait-for-child"; "--child-pid-fd=3"; "--"].

(** The identifier of the child, as the group controller writes it. *)
Definition writeChildPid (pid : Z) : string := Itoa pid +:+ String (ascii_of_nat 10) EmptyString.

Definition readChildPID (data : string) : option Z :=
  let pidStr := TrimSpace data in
  if bool_decide (pidStr = EmptyString) then None
  else pid ← Atoi pidStr; if pid <=? 0 then None else Some pid.

Example child_pids : (readChildPID (writeChildPid 4242), readChildPID "  ", readChildPID "-3", readChildPID "12x") = (Some 4242, None, None, None).
Proof. vm_compute. reflexivity. Qed.

(** ** Handles *)

(** The open files of the agent. *)
Record fd_table := { next_fd : nat; open_fds : gset nat }.

Definition new_fd (t : fd_table) : nat * fd_table := (next_fd t, {| next_fd := S (next_fd t); open_fds := {[next_fd t]} ∪ open_fds t |}).

(** [os.Pipe]: the reader and the writer. *)
Definition new_pipe (t : fd_table) : (nat * nat) * fd_table := let '(r, t1) := new_fd t in let '(w, t2) := new_fd t1 in ((r, w), t2).

Definition close_fds (fds : gset nat) (t : fd_table) : fd_table := {| next_fd := next_fd t; open_fds := open_fds t ∖ fds |}.

Record streamHandle := { reader : option nat; writer : option nat; file : option nat }.

Definition of_option (o : option nat) : gset nat := match o with Some n => {[n]} | None => ∅ end.

Definition writers_of (h : streamHandle) : gset nat := of_option (writer h) ∪ of_option (file h).
Definition stream_fds (h : streamHandle) : gset nat := of_option (reader h) ∪ writers_of h.

Definition pipe_fds (p : option (nat * nat)) : gset nat := match p with Some (r, w) => {[r; w]} | None => ∅ end.

Definition newStreamHandle (mode : RedirectMode) (pipe_ok create_ok : bool) (t : fd_table) : fd_table * option streamHandle :=
  let '(t1, h) :=
    if IsStreamModeEnabled mode then
      if pipe_ok then let '((r, w), t1) := new_pipe t in (t1, Some {| reader := Some r; writer := Some w; file := None |})
      else (t, None)
    else (t, Some {| reader := None; writer := None; file := None |}) in
  match h with
  | None => (t1, None)
  | Some h =>
      if IsFileModeEnabled mode then
        if create_ok then let '(fd, t2) := new_fd t1 in (t2, Some {| reader := reader h; writer := writer h; file := Some fd |})
        else (close_fds (stream_fds h) t1, None)
      else (t1, Some h)
  end.

Definition newRedirectHandle (mode : StdinMode) (pipe_ok : bool) (t : fd_table) : fd_table * option (option (nat * nat)) :=
  match mode with
  | StdinNone => (t, Some None)
  | StdinBuffer => if pipe_ok then let '(p, t1) := new_pipe t in (t1, Some (Some p)) else (t, None)
  | OtherStdin => (t, None)
  end.

(** ** Preparing a process *)

Inductive stat_answer := IsDirectory | IsFile | IsMissing | StatFailed.

Inductive start_error :=
| EmptyPath | NoDirectory (dir : string) | NotDirectory (dir : string) | FileExists (path : string) | FileUnchecked (path : string)
| SamePaths (path : string) | NoExecutable | NoPidPipe | NotBuilt | StdoutSetup | StderrSetup | StdinSetup.

(** [filepath.Dir] *)
Definition Dir (p : string) : string := Clean (Join "/" (removelast (Split "/" p) ++ [EmptyString])).

Example dirs : (Dir "/var/log/a.txt", Dir "/a", Dir "a", Dir "x/y") = ("/var/log", "/", ".", "x").
Proof. vm_compute. reflexivity. Qed.

(** What the system answers while a process is prepared. *)
Record start_answers := {
  Stat : string -> stat_answer;
  executable : option string;
  pid_pipe_ok : bool;
  build_ok : bool;
  stdout_pipe_ok : bool;
  stdout_create_ok : bool;
  stderr_pipe_ok : bool;
  stderr_create_ok : bool;
  stdin_pipe_ok : bool
}.

Definition validateFilePath (stat : string -> stat_answer) (filePath : string) : result start_error unit :=
  if bool_decide (filePath = EmptyString) || bool_decide (filePath = ".") then Err EmptyPath
  else
    match stat (Dir filePath) with
    | IsMissing | StatFailed => Err (NoDirectory (Dir filePath))
    | IsFile => Err (NotDirectory (Dir filePath))
    | IsDirectory =>
        match stat filePath with
        | IsDirectory | IsFile => Err (FileExists filePath)
        | IsMissing => Ok tt
        | StatFailed => Err (FileUnchecked filePath)
        end
    end.

Definition validate_redirect (stat : string -> stat_answer) (r : StreamRedirect) : result start_error StreamRedirect :=
  if IsFileModeEnabled (Mode r) then
    let p := Clean (FilePath r) in
    _ ← validateFilePath stat p; Ok {| Mode := Mode r; FilePath := p |}
  else Ok r.

(** The handles of a call: standard output, error and input, and the pipe for the identifier of
    the child of a group controller, which is closed when the identifier has been read. *)
Record handles := { h_out : streamHandle; h_err : streamHandle; h_in : option (nat * nat); h_pid : option (nat * nat) }.

Definition no_stream : streamHandle := {| reader := None; writer := None; file := None |}.
Definition no_handles : handles := {| h_out := no_stream; h_err := no_stream; h_in := None; h_pid := None |}.

(** What is closed on the error paths of a call, apart from the pipe for the identifier. *)
Definition stdio_fds (h : handles) : gset nat := stream_fds (h_out h) ∪ stream_fds (h_err h) ∪ pipe_fds (h_in h).
Definition handle_fds (h : handles) : gset nat := stdio_fds h ∪ pipe_fds (h_pid h).

(** The handles, once the command is built. The pipe [pid] is closed when the call returns. *)
Definition open_handles (sp : StartProcess) (a : start_answers) (pid : option (nat * nat)) (t : fd_table) : fd_table * result start_error handles :=
  if negb (build_ok a) then (close_fds (pipe_fds pid) t, Err NotBuilt)
  else
    match newStreamHandle (Mode (Stdout sp)) (stdout_pipe_ok a) (stdout_create_ok a) t with
    | (t1, None) => (close_fds (pipe_fds pid) t1, Err StdoutSetup)
    | (t1, Some out) =>
        match newStreamHandle (Mode (Stderr sp)) (stderr_pipe_ok a) (stderr_create_ok a) t1 with
        | (t2, None) => (close_fds (pipe_fds pid) (close_fds (stream_fds out) t2), Err StderrSetup)
        | (t2, Some err) =>
            match newRedirectHandle (Stdin sp) (stdin_pipe_ok a) t2 with
            | (t3, None) => (close_fds (pipe_fds pid) (close_fds (stream_fds err) (close_fds (stream_fds out) t3)), Err StdinSetup)
            | (t3, Some redirect) => (t3, Ok {| h_out := out; h_err := err; h_in := redirect; h_pid := pid |})
            end
        end
    end.

(** [StartProcessCommon] up to [incrementWaitGroup]: the command and the handles. *)
Definition prepare (sp : StartProcess) (a : start_answers) (t : fd_table) : fd_table * result start_error (list string * handles) :=
  match (out ← validate_redirect (Stat a) (Stdout sp); err ← validate_redirect (Stat a) (Stderr sp); mret (out, err)) with
  | Err e => (t, Err e)
  | Ok (out, err) =>
      if IsFileModeEnabled (Mode out) && IsFileModeEnabled (Mode err) && bool_decide (FilePath out = FilePath err)
      then (t, Err (SamePaths (FilePath out)))
      else if UseGroupController sp then
        match executable a with
        | None => (t, Err NoExecutable)
        | Some execPath =>
            if negb (pid_pipe_ok a) then (t, Err NoPidPipe)
            else
              let '(p, t1) := new_pipe t in
              let '(t2, r) := open_handles sp a (Some p) t1 in
              (t2, h ← r; Ok (group_controller_args execPath ++ Command (sp_LaunchCommand sp), h))
        end
      else let '(t2, r) := open_handles sp a None t in (t2, h ← r; Ok (Command (sp_LaunchCommand sp), h))
  end.

(** ** The state of the manager *)

Inductive shutdownState := stateRunning | stateGraceful | stateForced.

#[export] Instance shutdownState_eq_dec : EqDecision shutdownState.
Proof. solve_decision. Defined.

(** Where a call of [StartProcessCommon] or [ExecCommandCommon], with the goroutine it starts,
    stands. [Failed] is a return with an error, and [Abandoned] that after the process has been
    started. *)
Inductive phase :=
| Prepared
| Counted
| Controlled
| Launched (pid : Z)
| Registered (pid : Z)
| Signalling (pid : Z) (st : shutdownState)
| Running (pid : Z)
| Exited (pid : Z)
| Closed (pid : Z)
| Deleting (pid : Z)
| Finished
| Failed
| Abandoned (pid : Z).

Inductive call_kind := StartCall | ExecCall.

(** A stream is consumed once: whether it was taken, and whether its reader is closed. *)
Inductive stream_use := Unused | Draining | Drained.

Record call := {
  c_kind : call_kind;
  c_handles : handles;
  c_phase : phase;
  out_use : stream_use;
  err_use : stream_use;
  in_closed : bool
}.

Definition with_phase (ph : phase) (c : call) : call :=
  {| c_kind := c_kind c; c_handles := c_handles c; c_phase := ph; out_use := out_use c; err_use := err_use c; in_closed := in_closed c |}.

Definition new_call (k : call_kind) (h : handles) : call :=
  {| c_kind := k; c_handles := h; c_phase := Prepared; out_use := Unused; err_use := Unused; in_closed := false |}.

(** A process of the system, with the signals it was sent while it was alive. *)
Record os_process := { alive : bool; interrupted : bool; killed : bool }.

Definition started : os_process := {| alive := true; interrupted := false; killed := false |}.

(** A call of [shutdownProcesses]: after its critical section, while it visits the map of
    processes, while it waits, and after it has returned. *)
Inductive shutdown_phase :=
| Decided (next : shutdownState) (didTransition : bool)
| Ranging (next : shutdownState) (pending : gset Z)
| AwaitingExit
| ReturnedAfterWait
| ReturnedAtOnce.

Record manager := {
  state : shutdownState;
  shutdownWg : Z;
  managedProcesses : gmap Z nat;
  table : fd_table;
  calls : gmap nat call;
  processes : gmap Z os_process;
  shutdowns : gmap nat shutdown_phase;
  releasedPids : gset Z
}.

Definition newProcessCommon (t : fd_table) : manager :=
  {| state := stateRunning; shutdownWg := 0; managedProcesses := ∅; table := t; calls := ∅; processes := ∅; shutdowns := ∅; releasedPids := ∅ |}.

Definition set_call (id : nat) (c : call) (m : manager) : manager :=
  {| state := state m; shutdownWg := shutdownWg m; managedProcesses := managedProcesses m; table := table m; calls := <[id := c]> (calls m);
     processes := processes m; shutdowns := shutdowns m; releasedPids := releasedPids m |}.
Definition set_table (t : fd_table) (m : manager) : manager :=
  {| state := state m; shutdownWg := shutdownWg m; managedProcesses := managedProcesses m; table := t; calls := calls m;
     processes := processes m; shutdowns := shutdowns m; releasedPids := releasedPids m |}.
Definition set_managed (mp : gmap Z nat) (m : manager) : manager :=
  {| state := state m; shutdownWg := shutdownWg m; managedProcesses := mp; table := table m; calls := calls m;
     processes := processes m; shutdowns := shutdowns m; releasedPids := releasedPids m |}.
Definition set_process (pid : Z) (p : os_process) (m : manager) : manager :=
  {| state := state m; shutdownWg := shutdownWg m; managedProcesses := managedProcesses m; table := table m; calls := calls m;
     processes := <[pid := p]> (processes m); shutdowns := shutdowns m; releasedPids := releasedPids m |}.
Definition set_shutdown (id : nat) (ph : shutdown_phase) (m : manager) : manager :=
  {| state := state m; shutdownWg := shutdownWg m; managedProcesses := managedProcesses m; table := table m; calls := calls m;
     processes := processes m; shutdowns := <[id := ph]> (shutdowns m); releasedPids := releasedPids m |}.

(** ** Operations *)

(** [incrementWaitGroup]: the flag is whether new work is accepted. *)
Definition incrementWaitGroup (m : manager) : manager * bool :=
  match state m with
  | stateRunning => ({| state := state m; shutdownWg := shutdownWg m + 1; managedProcesses := managedProcesses m; table := table m; calls := calls m;
                        processes := processes m; shutdowns := shutdowns m; releasedPids := releasedPids m |}, true)
  | _ => (m, false)
  end.

Definition decrementWaitGroup (m : manager) : manager :=
  {| state := state m; shutdownWg := shutdownWg m - 1; managedProcesses := managedProcesses m; table := table m; calls := calls m;
     processes := processes m; shutdowns := shutdowns m; releasedPids := releasedPids m |}.

Definition close_all (fds : gset nat) (m : manager) : manager := set_table (close_fds fds (table m)) m.

(** [registerProcess], and the store of [ExecCommandCommon]. *)
Definition registerProcess (pid : Z) (id : nat) (m : manager) : manager := set_managed (<[pid := id]> (managedProcesses m)) m.

Definition ReleaseProcessHandles (pids : list Z) (m : manager) : manager :=
  {| state := state m; shutdownWg := shutdownWg m; managedProcesses := foldr (fun pid mp => delete pid mp) (managedProcesses m) pids;
     table := table m; calls := calls m; processes := processes m; shutdowns := shutdowns m; releasedPids := list_to_set pids ∪ releasedPids m |}.

(** A signal reaches a process that is alive. *)
Definition signal_process (g : os_process -> os_process) (pid : Z) (m : manager) : manager :=
  match processes m !! pid with
  | Some p => if alive p then set_process pid (g p) m else m
  | None => m
  end.

Definition InterruptProcess : Z -> manager -> manager :=
  signal_process (fun p => {| alive := alive p; interrupted := true; killed := killed p |}).
Definition KillProcess : Z -> manager -> manager :=
  signal_process (fun p => {| alive := alive p; interrupted := interrupted p; killed := true |}).

(** What is sent to a process in this state: by [applyInFlightShutdown], and for a visited
    process by [shutdownProcesses]. *)
Definition send_shutdown (st : shutdownState) (pid : Z) (m : manager) : manager :=
  match st with stateRunning => m | stateGraceful => InterruptProcess pid m | stateForced => KillProcess pid m end.

(** The critical section of [shutdownProcesses]. *)
Definition next_state (force : bool) (prev : shutdownState) : shutdownState :=
  if force && negb (bool_decide (prev = stateForced)) then stateForced
  else if negb force && bool_decide (prev = stateRunning) then stateGraceful
  else prev.

Definition enter_shutdown (force : bool) (id : nat) (m : manager) : manager :=
  let next := next_state force (state m) in
  set_shutdown id (Decided next (negb (bool_decide (state m = next))))
    {| state := next; shutdownWg := shutdownWg m; managedProcesses := managedProcesses m; table := table m; calls := calls m;
       processes := processes m; shutdowns := shutdowns m; releasedPids := releasedPids m |}.

(** Where [shutdownProcesses] goes after the processes were visited. *)
Definition after_range (next : shutdownState) : shutdown_phase :=
  match next with stateGraceful => AwaitingExit | _ => ReturnedAtOnce end.

(** A stream that can be drained: [StreamStdout] and [StreamStderr]. *)
Definition stream_of (m : manager) (pid : Z) (err : bool) : option (nat * call * nat) :=
  id ← managedProcesses m !! pid; c ← calls m !! id;
  r ← reader (if err : bool then h_err (c_handles c) else h_out (c_handles c)); Some (id, c, r).

Definition with_use (err : bool) (u : stream_use) (c : call) : call :=
  {| c_kind := c_kind c; c_handles := c_handles c; c_phase := c_phase c; out_use := if err then out_use c else u;
     err_use := if err then u else err_use c; in_closed := in_closed c |}.
Definition use_of (err : bool) (c : call) : stream_use := if err then err_use c else out_use c.

Definition with_in_closed (c : call) : call :=
  {| c_kind := c_kind c; c_handles := c_handles c; c_phase := c_phase c; out_use := out_use c; err_use := err_use c; in_closed := true |}.

(** What the goroutine of a process closes when the process has exited. *)
Definition exit_fds (h : handles) : gset nat := writers_of (h_out h) ∪ writers_of (h_err h) ∪ pipe_fds (h_in h).

(** *** Draining a stream *)

Inductive read_end := MoreData | EndOfFile | ReadFailed.

(** One turn of the loop: whether the context was done, what was read, whether it could be
    sent, and whether the context was done after a failing read. *)
Record drain_turn := { ctx_done : bool; chunk : string; ended : read_end; sent_ok : bool; ctx_done_after : bool }.

Inductive drain_result := StreamEnded | ContextDone | SendFailed | ReadError | StillDraining.

Fixpoint drain_loop (turns : list drain_turn) : list string * drain_result :=
  match turns with
  | [] => ([], StillDraining)
  | t :: rest =>
      if ctx_done t then ([], ContextDone)
      else
        let sends := negb (bool_decide (chunk t = EmptyString)) in
        if sends && negb (sent_ok t) then ([], SendFailed)
        else
          let sent := if sends then [chunk t] else [] in
          match ended t with
          | EndOfFile => (sent, StreamEnded)
          | ReadFailed => (sent, if ctx_done_after t then ContextDone else ReadError)
          | MoreData => let '(more, r) := drain_loop rest in (sent ++ more, r)
          end
  end.

(** ** Steps *)

Section Steps.

(** A call moves to its next phase. *)
Definition moves (id : nat) (c : call) (ph : phase) (m : manager) : manager := set_call id (with_phase ph c) m.

(** The manager after [moves], with a process that has just been started. *)
Definition launch (id : nat) (c : call) (pid : Z) (m : manager) : manager := moves id c (Launched pid) (set_process pid started m).

Inductive step (m : manager) : manager -> Prop :=
(* [StartProcessCommon] up to the wait group. *)
| step_prepare id sp a t cmd h : calls m !! id = None -> prepare sp a (table m) = (t, Ok (cmd, h)) ->
    step m (set_call id (new_call StartCall h) (set_table t m))
| step_prepare_fails sp a t e : prepare sp a (table m) = (t, Err e) -> step m (set_table t m)
| step_exec id : calls m !! id = None -> step m (set_call id (new_call ExecCall no_handles) m)
| step_count id c m1 : calls m !! id = Some c -> c_phase c = Prepared -> incrementWaitGroup m = (m1, true) ->
    step m (moves id c Counted m1)
| step_refused id c m1 : calls m !! id = Some c -> c_phase c = Prepared -> incrementWaitGroup m = (m1, false) ->
    step m (moves id c Failed (close_all (handle_fds (c_handles c)) m1))
(* [cmd.Start], and the child of a group controller, which is closed when the identifier has been read. *)
| step_start_fails id c : calls m !! id = Some c -> c_phase c = Counted ->
    step m (moves id c Failed (decrementWaitGroup (close_all (handle_fds (c_handles c)) m)))
| step_start id c pid : calls m !! id = Some c -> c_phase c = Counted -> h_pid (c_handles c) = None -> processes m !! pid = None ->
    step m (launch id c pid m)
| step_start_controller id c : calls m !! id = Some c -> c_phase c = Counted -> is_Some (h_pid (c_handles c)) ->
    step m (moves id c Controlled m)
| step_child id c data pid : calls m !! id = Some c -> c_phase c = Controlled -> readChildPID data = Some pid -> processes m !! pid = None ->
    step m (launch id c pid (close_all (pipe_fds (h_pid (c_handles c))) m))
| step_child_fails id c : calls m !! id = Some c -> c_phase c = Controlled ->
    step m (moves id c Failed (decrementWaitGroup (close_all (handle_fds (c_handles c)) m)))
(* Affinity, registering and the shutdown that may have begun. *)
| step_affinity_fails id c pid : calls m !! id = Some c -> c_phase c = Launched pid ->
    step m (moves id c (Abandoned pid) m)
| step_register id c pid : calls m !! id = Some c -> c_phase c = Launched pid ->
    step m (moves id c (Registered pid) (registerProcess pid id m))
| step_read_state id c pid : calls m !! id = Some c -> c_phase c = Registered pid ->
    step m (moves id c (Signalling pid (state m)) m)
| step_in_flight id c pid st : calls m !! id = Some c -> c_phase c = Signalling pid st ->
    step m (moves id c (Running pid) (send_shutdown st pid m))
(* The system, and the goroutine that waits for the process. *)
| step_exits pid p : processes m !! pid = Some p -> alive p = true ->
    step m (set_process pid {| alive := false; interrupted := interrupted p; killed := killed p |} m)
| step_wait id c pid p : calls m !! id = Some c -> c_phase c = Running pid -> processes m !! pid = Some p -> alive p = false ->
    step m (moves id c (Exited pid) m)
| step_close id c pid : calls m !! id = Some c -> c_phase c = Exited pid ->
    step m (moves id c (Closed pid) (close_all (exit_fds (c_handles c)) m))
| step_done id c pid : calls m !! id = Some c -> c_phase c = Closed pid ->
    step m (moves id c (match c_kind c with StartCall => Finished | ExecCall => Deleting pid end) (decrementWaitGroup m))
| step_delete id c pid : calls m !! id = Some c -> c_phase c = Deleting pid ->
    step m (moves id c Finished (set_managed (delete pid (managedProcesses m)) m))
(* Clients. *)
| step_client_interrupt pid : step m (InterruptProcess pid m)
| step_client_kill pid : step m (KillProcess pid m)
| step_release pids : step m (ReleaseProcessHandles pids m)
| step_drain pid err id c r : stream_of m pid err = Some (id, c, r) -> use_of err c = Unused ->
    step m (set_call id (with_use err Draining c) m)
| step_drained id c err r : calls m !! id = Some c -> use_of err c = Draining ->
    reader (if err : bool then h_err (c_handles c) else h_out (c_handles c)) = Some r ->
    step m (set_call id (with_use err Drained c) (close_all {[r]} m))
| step_stdin pid id c : managedProcesses m !! pid = Some id -> calls m !! id = Some c -> is_Some (h_in (c_handles c)) ->
    step m (set_call id (with_in_closed c) (close_all (pipe_fds (h_in (c_handles c))) m))
(* [shutdownProcesses]. *)
| step_shutdown id force : shutdowns m !! id = None -> step m (enter_shutdown force id m)
| step_decided id next : shutdowns m !! id = Some (Decided next false) -> step m (set_shutdown id (after_range next) m)
| step_range id next : shutdowns m !! id = Some (Decided next true) ->
    step m (set_shutdown id (Ranging next (dom (managedProcesses m))) m)
| step_visit id next pending pid : shutdowns m !! id = Some (Ranging next pending) -> is_Some (managedProcesses m !! pid) ->
    step m (set_shutdown id (Ranging next (pending ∖ {[pid]})) (send_shutdown next pid m))
| step_gone id next pending pid : shutdowns m !! id = Some (Ranging next pending) -> pid ∈ pending -> managedProcesses m !! pid = None ->
    step m (set_shutdown id (Ranging next (pending ∖ {[pid]})) m)
| step_range_done id next : shutdowns m !! id = Some (Ranging next ∅) -> step m (set_shutdown id (after_range next) m)
| step_wait_done id : shutdowns m !! id = Some AwaitingExit -> shutdownWg m = 0 -> step m (set_shutdown id ReturnedAfterWait m).

Definition reachable (m : manager) : Prop := exists t, rtc step (newProcessCommon t) m.

End Steps.
