(* ===== verification/ProcessShutdown.v ===== *)
(** * Performix: shutting processes down

    What the process manager of [ProcessManager] promises: its wait group counts the calls under
    way, a shutdown reaches every process, also those that are just being started, and a
    graceful shutdown that returns leaves no process. *)

From S2P Require Import Prelude.
From S2P Require Import GoStrings.
From S2P Require Import ProcessManager.

Local Open Scope Z_scope.

(** ** Calls under way *)

(** Between the two operations on the wait group. *)
Definition counted (c : call) : bool :=
  match c_phase c with Prepared | Finished | Failed | Deleting _ => false | _ => true end.

Definition pid_of (ph : phase) : option Z :=
  match ph with
  | Launched pid | Registered pid | Signalling pid _ | Running pid | Exited pid | Closed pid | Deleting pid | Abandoned pid => Some pid
  | _ => None
  end.

(** The process may still be alive. *)
Definition holds_process (ph : phase) : bool :=
  match ph with Launched _ | Registered _ | Signalling _ _ | Running _ | Abandoned _ => true | _ => false end.

(** The process has been registered, and the call has looked at the state of the manager. *)
Definition past_check (ph : phase) : option Z :=
  match ph with Signalling pid _ | Running pid => Some pid | _ => None end.

(** *** What the updates leave alone *)

Lemma signal_process_same g pid m : state (signal_process g pid m) = state m /\ shutdownWg (signal_process g pid m) = shutdownWg m /\
  managedProcesses (signal_process g pid m) = managedProcesses m /\ table (signal_process g pid m) = table m /\
  calls (signal_process g pid m) = calls m /\ shutdowns (signal_process g pid m) = shutdowns m /\ releasedPids (signal_process g pid m) = releasedPids m.
Proof. unfold signal_process. destruct (processes m !! pid) as [p|]; [destruct (alive p)|]; done. Qed.

Lemma send_shutdown_same st pid m : state (send_shutdown st pid m) = state m /\ shutdownWg (send_shutdown st pid m) = shutdownWg m /\
  managedProcesses (send_shutdown st pid m) = managedProcesses m /\ table (send_shutdown st pid m) = table m /\
  calls (send_shutdown st pid m) = calls m /\ shutdowns (send_shutdown st pid m) = shutdowns m /\ releasedPids (send_shutdown st pid m) = releasedPids m.
Proof. destruct st; [done|apply signal_process_same..]. Qed.

(** ** The wait group counts the calls under way *)

Definition wg_inv (m : manager) : Prop := shutdownWg m = count_if counted (calls m).

Lemma incrementWaitGroup_spec m m1 b : incrementWaitGroup m = (m1, b) ->
  calls m1 = calls m /\ managedProcesses m1 = managedProcesses m /\ table m1 = table m /\ processes m1 = processes m /\
  shutdowns m1 = shutdowns m /\ releasedPids m1 = releasedPids m /\ state m1 = state m /\
  shutdownWg m1 = shutdownWg m + Z.b2z b /\ (b = true -> state m = stateRunning).
Proof. unfold incrementWaitGroup. destruct (state m) eqn:Hst; intros [= <- <-]; cbn; split_and!; try done; lia. Qed.

Lemma wg_same m1 m2 : shutdownWg m1 = shutdownWg m2 -> calls m1 = calls m2 -> wg_inv m2 -> wg_inv m1.
Proof. unfold wg_inv. by intros -> ->. Qed.

Lemma wg_call m m1 id c c' : calls m !! id = Some c -> calls m1 = calls m -> wg_inv m ->
  shutdownWg m1 = shutdownWg m - Z.b2z (counted c) + Z.b2z (counted c') -> wg_inv (set_call id c' m1).
Proof.
  intros Hc Hcalls Hi Hw. unfold wg_inv. cbn [shutdownWg calls set_call]. rewrite Hcalls, (count_if_update _ _ _ _ _ Hc), <- Hi. exact Hw.
Qed.

Lemma wg_new m m1 id c : calls m !! id = None -> calls m1 = calls m -> shutdownWg m1 = shutdownWg m -> counted c = false ->
  wg_inv m -> wg_inv (set_call id c m1).
Proof.
  intros Hn Hcalls Hw Hc Hi. unfold wg_inv. cbn [shutdownWg calls set_call]. rewrite Hcalls, (count_if_new _ _ _ _ Hn), Hc, Hw, Hi. cbn. lia.
Qed.

(** A call that moves between phases, with its phase known. *)
Ltac counting_phases := unfold counted in *; cbn [c_phase with_phase with_use with_in_closed]; repeat match goal with H : c_phase _ = _ |- _ => rewrite H end;
  cbn [Z.b2z]; try lia.

Lemma stream_of_call m pid err id c r : stream_of m pid err = Some (id, c, r) ->
  managedProcesses m !! pid = Some id /\ calls m !! id = Some c /\
  reader (if err then h_err (c_handles c) else h_out (c_handles c)) = Some r.
Proof.
  unfold stream_of. destruct (managedProcesses m !! pid) as [i|]; [|done]. cbn. destruct (calls m !! i) as [c'|] eqn:Hc; [|done]. cbn.
  destruct (reader _) eqn:Hr; [|done]. cbn. by intros [= <- <- <-].
Qed.

Lemma wg_step m m' : wg_inv m -> step m m' -> wg_inv m'.
Proof.
  intros Hi Hs. destruct Hs; unfold moves, launch.
  all: try (by eapply wg_same; [..|exact Hi]).
  all: try (by eapply wg_new; [done..|exact Hi]).
  all: try match goal with H : incrementWaitGroup _ = _ |- _ => apply incrementWaitGroup_spec in H as (Hcalls & _ & _ & _ & _ & _ & _ & Hw & _) end.
  all: try (eapply wg_call; [eassumption|by rewrite ?Hcalls|exact Hi|]; cbn; try rewrite Hw; counting_phases; fail).
  - destruct (send_shutdown_same st pid m) as (_ & Hw & _ & _ & Hc & _). eapply wg_call; [eassumption|exact Hc|exact Hi|]. cbn. rewrite Hw. counting_phases.
  - eapply wg_call; [eassumption|done|exact Hi|]. cbn. destruct (c_kind c); counting_phases.
  - eapply wg_same; [..|exact Hi]; apply signal_process_same.
  - eapply wg_same; [..|exact Hi]; apply signal_process_same.
  - destruct (stream_of_call _ _ _ _ _ _ H) as (_ & Hc & _). eapply wg_call; [exact Hc|done|exact Hi|]. counting_phases.
  - destruct (send_shutdown_same next pid m) as (_ & Hw & _ & _ & Hc & _). by eapply wg_same; [..|exact Hi].
Qed.

(** ** Identifiers *)

(** Registered, and not yet waited for. *)
Definition registered_pid (ph : phase) : option Z :=
  match ph with Registered pid | Signalling pid _ | Running pid => Some pid | _ => None end.

Definition unregistered_pid (ph : phase) : option Z := match ph with Launched pid | Abandoned pid => Some pid | _ => None end.

(** Identifiers of calls are those of started processes, and different; who is alive belongs to
    a call; the map has the registered processes, but for those that were released. *)
Record pid_inv (m : manager) : Prop := {
  pid_started : forall id c pid, calls m !! id = Some c -> pid_of (c_phase c) = Some pid -> is_Some (processes m !! pid);
  pid_distinct : forall id1 id2 c1 c2 pid, calls m !! id1 = Some c1 -> calls m !! id2 = Some c2 ->
    pid_of (c_phase c1) = Some pid -> pid_of (c_phase c2) = Some pid -> id1 = id2;
  pid_alive : forall pid p, processes m !! pid = Some p -> alive p = true ->
    exists id c, calls m !! id = Some c /\ pid_of (c_phase c) = Some pid /\ holds_process (c_phase c) = true;
  pid_managed : forall id c pid, calls m !! id = Some c -> registered_pid (c_phase c) = Some pid ->
    is_Some (managedProcesses m !! pid) \/ pid ∈ releasedPids m;
  pid_managed_started : forall pid, is_Some (managedProcesses m !! pid) -> is_Some (processes m !! pid);
  pid_unmanaged : forall id c pid, calls m !! id = Some c -> unregistered_pid (c_phase c) = Some pid -> managedProcesses m !! pid = None
}.

(** The same calls and map, and no process that was not there or not alive. *)
Record tamer (m1 m : manager) : Prop := {
  tame_calls : calls m1 = calls m;
  tame_managed : managedProcesses m1 = managedProcesses m;
  tame_released : releasedPids m1 = releasedPids m;
  tame_started : forall pid, is_Some (processes m1 !! pid) <-> is_Some (processes m !! pid);
  tame_alive : forall pid p1, processes m1 !! pid = Some p1 -> alive p1 = true -> exists p, processes m !! pid = Some p /\ alive p = true
}.

Lemma tamer_same m1 m : calls m1 = calls m -> managedProcesses m1 = managedProcesses m -> releasedPids m1 = releasedPids m ->
  processes m1 = processes m -> tamer m1 m.
Proof. intros H1 H2 H3 H4. split; try done; [by rewrite H4|rewrite H4; eauto]. Qed.

Lemma tamer_set_process pid p p1 m : processes m !! pid = Some p -> (alive p1 = true -> alive p = true) -> tamer (set_process pid p1 m) m.
Proof.
  intros Hp Ha. split; try done; cbn; intros pid'.
  - destruct (decide (pid' = pid)) as [->|]; [rewrite lookup_insert_eq, Hp|by rewrite lookup_insert_ne]. by split.
  - intros p2. destruct (decide (pid' = pid)) as [->|]; [rewrite lookup_insert_eq|rewrite lookup_insert_ne by done; eauto]. intros [= <-] H2. eauto.
Qed.

Lemma tamer_refl m : tamer m m.
Proof. by apply tamer_same. Qed.

Lemma tamer_signal g pid m : (forall p, alive (g p) = alive p) -> tamer (signal_process g pid m) m.
Proof.
  intros Hg. unfold signal_process. destruct (processes m !! pid) as [p|] eqn:Hp; [|apply tamer_refl]. destruct (alive p) eqn:Ha; [|apply tamer_refl].
  eapply tamer_set_process; [exact Hp|done].
Qed.

Lemma tamer_send st pid m : tamer (send_shutdown st pid m) m.
Proof. destruct st; [apply tamer_refl|by apply tamer_signal..]. Qed.

Lemma tamer_trans m1 m2 m3 : tamer m1 m2 -> tamer m2 m3 -> tamer m1 m3.
Proof.
  intros [A1 A2 A3 A4 A5] [B1 B2 B3 B4 B5]. split; [congruence..| |].
  - intros pid. by rewrite A4.
  - intros pid p1 Hp Ha. destruct (A5 _ _ Hp Ha) as (p & Hp' & Ha'). eauto.
Qed.

Lemma pid_tamer m1 m : tamer m1 m -> pid_inv m -> pid_inv m1.
Proof.
  intros [H1 H2 H3 H4 H5] [I1 I2 I3 I4 I5 I6]. split; rewrite ?H1, ?H2, ?H3; try done.
  - intros id c pid Hc Hp. apply H4. eauto.
  - intros pid p Hp Ha. destruct (H5 _ _ Hp Ha) as (p' & Hp' & Ha'). eauto.
  - intros pid Hp. apply H4. eauto.
Qed.

(** A call that keeps or forgets its identifier, and loses its process only when it is dead. *)
Lemma pid_call m id c c' : calls m !! id = Some c ->
  (pid_of (c_phase c') = pid_of (c_phase c) \/ pid_of (c_phase c') = None) ->
  (holds_process (c_phase c) = true -> holds_process (c_phase c') = true /\ pid_of (c_phase c') = pid_of (c_phase c) \/
     exists pid p, pid_of (c_phase c) = Some pid /\ processes m !! pid = Some p /\ alive p = false) ->
  (forall pid, registered_pid (c_phase c') = Some pid -> registered_pid (c_phase c) = Some pid) ->
  (forall pid, unregistered_pid (c_phase c') = Some pid -> unregistered_pid (c_phase c) = Some pid) ->
  pid_inv m -> pid_inv (set_call id c' m).
Proof.
  intros Hc Hpid Hhold Hreg Hun [I1 I2 I3 I4 I5 I6].
  assert (forall id2 c2, calls (set_call id c' m) !! id2 = Some c2 -> exists c1, calls m !! id2 = Some c1 /\
    (forall pid, pid_of (c_phase c2) = Some pid -> pid_of (c_phase c1) = Some pid) /\
    (forall pid, registered_pid (c_phase c2) = Some pid -> registered_pid (c_phase c1) = Some pid) /\
    (forall pid, unregistered_pid (c_phase c2) = Some pid -> unregistered_pid (c_phase c1) = Some pid)) as Hold.
  { intros id2 c2. cbn. destruct (decide (id2 = id)) as [->|]; [rewrite lookup_insert_eq|rewrite lookup_insert_ne by done; eauto 6].
    intros [= <-]. exists c. split_and!; [done| |done|done]. intros pid Hp. destruct Hpid; congruence. }
  split; cbn [processes managedProcesses releasedPids set_call]; try done.
  - intros id2 c2 pid Hc2 Hp. destruct (Hold _ _ Hc2) as (c1 & ? & ? & _). eauto.
  - intros i1 i2 c1 c2 pid H1 H2 P1 P2. destruct (Hold _ _ H1) as (d1 & ? & Q1 & _), (Hold _ _ H2) as (d2 & ? & Q2 & _). eapply I2; eauto.
  - intros pid p Hp Ha. destruct (I3 _ _ Hp Ha) as (i & c1 & Hc1 & Hp1 & Hh1). destruct (decide (i = id)) as [->|Hne].
    + rewrite Hc in Hc1. injection Hc1 as <-. destruct (Hhold Hh1) as [[Hh2 Hp2]|(pid' & p' & Hpid' & Hp' & Ha')]; [|congruence].
      exists id, c'. cbn. rewrite lookup_insert_eq. split_and!; congruence.
    + exists i, c1. cbn. by rewrite lookup_insert_ne.
  - intros id2 c2 pid Hc2 Hp. destruct (Hold _ _ Hc2) as (c1 & ? & _ & ? & _). eauto.
  - intros id2 c2 pid Hc2 Hp. destruct (Hold _ _ Hc2) as (c1 & ? & _ & _ & ?). eauto.
Qed.

Lemma pid_new m id c : calls m !! id = None -> c_phase c = Prepared -> pid_inv m -> pid_inv (set_call id c m).
Proof.
  intros Hn Hc [I1 I2 I3 I4 I5 I6].
  assert (forall id2 c2, calls (set_call id c m) !! id2 = Some c2 -> calls m !! id2 = Some c2 \/ c_phase c2 = Prepared) as Hold.
  { intros id2 c2. cbn. destruct (decide (id2 = id)) as [->|]; [rewrite lookup_insert_eq|rewrite lookup_insert_ne by done; by left]. intros [= <-]. by right. }
  split; cbn [processes managedProcesses releasedPids set_call]; try done.
  - intros id2 c2 pid [Hc2|Hc2]%Hold; [eauto|by rewrite Hc2].
  - intros i1 i2 c1 c2 pid [H1|H1]%Hold [H2|H2]%Hold; rewrite ?H1, ?H2; try done. eauto.
  - intros pid p Hp Ha. destruct (I3 _ _ Hp Ha) as (i & c1 & Hc1 & Hh1). exists i, c1. cbn. split; [|done]. rewrite lookup_insert_ne; [done|]. intros ->. congruence.
  - intros id2 c2 pid [Hc2|Hc2]%Hold; [eauto|by rewrite Hc2].
  - intros id2 c2 pid [Hc2|Hc2]%Hold; [eauto|by rewrite Hc2].
Qed.

Lemma pid_launch m id c pid : calls m !! id = Some c -> pid_of (c_phase c) = None -> processes m !! pid = None -> pid_inv m -> pid_inv (launch id c pid m).
Proof.
  intros Hc Hph Hfree [I1 I2 I3 I4 I5 I6]. unfold launch, moves.
  assert (forall q, is_Some (processes m !! q) -> q <> pid) as Hne by (intros q [p Hq] ->; congruence).
  assert (managedProcesses m !! pid = None) as Hman.
  { destruct (managedProcesses m !! pid) eqn:E; [|done]. destruct (I5 pid) as [p Hp]; [by eexists|congruence]. }
  split; cbn [calls processes managedProcesses releasedPids set_call set_process].
  - intros i d q. destruct (decide (i = id)) as [->|]; [rewrite lookup_insert_eq; intros [= <-] [= <-]; rewrite lookup_insert_eq; by eexists|].
    rewrite lookup_insert_ne by done. intros Hd Hq. rewrite lookup_insert_ne; [eauto|]. intros <-. by apply (Hne pid); [eapply I1|].
  - intros i1 i2 d1 d2 q. destruct (decide (i1 = id)) as [->|], (decide (i2 = id)) as [->|]; rewrite ?lookup_insert_eq, ?lookup_insert_ne by done; try done.
    + intros [= <-] Hd [= <-] Hq. by destruct (Hne pid); [eapply I1|].
    + intros Hd [= <-] Hq [= <-]. by destruct (Hne pid); [eapply I1|].
    + eauto.
  - intros q p. destruct (decide (q = pid)) as [->|]; [rewrite lookup_insert_eq|rewrite lookup_insert_ne by done].
    + intros _ _. exists id, (with_phase (Launched pid) c). by rewrite lookup_insert_eq.
    + intros Hp Ha. destruct (I3 _ _ Hp Ha) as (i & d & Hd & Hq & Hh). exists i, d. rewrite lookup_insert_ne; [done|]. intros ->. congruence.
  - intros i d q. destruct (decide (i = id)) as [->|]; [rewrite lookup_insert_eq; by intros [= <-]|rewrite lookup_insert_ne by done; eauto].
  - intros q Hq. destruct (decide (q = pid)) as [->|]; [rewrite lookup_insert_eq; by eexists|rewrite lookup_insert_ne by done; eauto].
  - intros i d q. destruct (decide (i = id)) as [->|]; [rewrite lookup_insert_eq; by intros [= <-] [= <-]|rewrite lookup_insert_ne by done; eauto].
Qed.

Lemma pid_register m id c pid : calls m !! id = Some c -> c_phase c = Launched pid -> pid_inv m ->
  pid_inv (moves id c (Registered pid) (registerProcess pid id m)).
Proof.
  intros Hc Hph [I1 I2 I3 I4 I5 I6]. unfold moves, registerProcess.
  assert (pid_of (c_phase c) = Some pid) as Hpid by by rewrite Hph.
  split; cbn [calls processes managedProcesses releasedPids set_call set_managed].
  - intros i d q. destruct (decide (i = id)) as [->|]; [rewrite lookup_insert_eq; intros [= <-] [= <-]; eauto|rewrite lookup_insert_ne by done; eauto].
  - intros i1 i2 d1 d2 q. destruct (decide (i1 = id)) as [->|], (decide (i2 = id)) as [->|]; rewrite ?lookup_insert_eq, ?lookup_insert_ne by done; try done.
    + intros [= <-] Hd [= <-] Hq. by eapply I2.
    + intros Hd [= <-] Hq [= <-]. by eapply I2.
    + eauto.
  - intros q p Hp Ha. destruct (I3 _ _ Hp Ha) as (i & d & Hd & Hq & Hh). destruct (decide (i = id)) as [->|].
    + exists id, (with_phase (Registered pid) c). rewrite lookup_insert_eq. rewrite Hc in Hd. injection Hd as <-. split_and!; [done|cbn; congruence|done].
    + exists i, d. by rewrite lookup_insert_ne.
  - intros i d q. destruct (decide (i = id)) as [->|]; [rewrite lookup_insert_eq; intros [= <-] [= <-]; rewrite lookup_insert_eq; left; by eexists|].
    rewrite lookup_insert_ne by done. intros Hd Hq. destruct (decide (q = pid)) as [->|]; [rewrite lookup_insert_eq; left; by eexists|rewrite lookup_insert_ne by done; eauto].
  - intros q. destruct (decide (q = pid)) as [->|]; [intros _; eauto|rewrite lookup_insert_ne by done; eauto].
  - intros i d q. destruct (decide (i = id)) as [->|]; [rewrite lookup_insert_eq; by intros [= <-]|]. rewrite lookup_insert_ne by done. intros Hd Hq.
    rewrite lookup_insert_ne; [eauto|]. intros <-. apply n. eapply (I2 i id d c pid); [done..| |done].
    destruct (c_phase d); cbn in Hq |- *; congruence.
Qed.

(** Entries are only removed from the map: all are released, or belong to no registered process. *)
Lemma pid_unregister m m1 : calls m1 = calls m -> processes m1 = processes m ->
  (forall pid, is_Some (managedProcesses m1 !! pid) -> is_Some (managedProcesses m !! pid)) ->
  (forall pid, is_Some (managedProcesses m !! pid) -> is_Some (managedProcesses m1 !! pid) \/ pid ∈ releasedPids m1 \/
     forall id c, calls m !! id = Some c -> registered_pid (c_phase c) <> Some pid) ->
  releasedPids m ⊆ releasedPids m1 -> pid_inv m -> pid_inv m1.
Proof.
  intros H1 H2 Hsub Hkeep Hrel [I1 I2 I3 I4 I5 I6]. split; rewrite ?H1, ?H2; try done.
  - intros id c pid Hc Hp. destruct (I4 _ _ _ Hc Hp) as [Hm|Hm]; [|right; set_solver]. destruct (Hkeep _ Hm) as [?|[?|Hno]]; [by left|by right|].
    by destruct (Hno _ _ Hc).
  - intros pid Hm. eauto.
  - intros id c pid Hc Hp. specialize (I6 _ _ _ Hc Hp). destruct (managedProcesses m1 !! pid) eqn:E; [|done].
    destruct (Hsub pid) as [x Hx]; [by eexists|congruence].
Qed.

Lemma foldr_delete_lookup (pids : list Z) (mp : gmap Z nat) pid :
  foldr (fun q r => delete q r) mp pids !! pid = if decide (pid ∈ pids) then None else mp !! pid.
Proof.
  induction pids as [|q pids IH]; [by rewrite decide_False by (by intros ?%elem_of_nil)|]. cbn [foldr].
  destruct (decide (pid = q)) as [->|Hne].
  - rewrite lookup_delete_eq, decide_True; [done|]. by left.
  - rewrite lookup_delete_ne, IH by done. destruct (decide (pid ∈ pids)); [rewrite decide_True|rewrite decide_False]; try done; set_solver.
Qed.

(** The call of a phase. *)
Ltac phases := intros; cbn [c_phase with_phase with_use with_in_closed] in *; repeat match goal with H : c_phase _ = _ |- _ => rewrite H in * end; cbn in *; try congruence; auto.

(** A step that moves a call and changes none of the identifiers. *)
Lemma pid_moves m m1 id c c' : tamer m1 m -> calls m !! id = Some c ->
  (pid_of (c_phase c') = pid_of (c_phase c) \/ pid_of (c_phase c') = None) ->
  (holds_process (c_phase c) = true -> holds_process (c_phase c') = true /\ pid_of (c_phase c') = pid_of (c_phase c)) ->
  (forall pid, registered_pid (c_phase c') = Some pid -> registered_pid (c_phase c) = Some pid) ->
  (forall pid, unregistered_pid (c_phase c') = Some pid -> unregistered_pid (c_phase c) = Some pid) ->
  pid_inv m -> pid_inv (set_call id c' m1).
Proof.
  intros Ht Hc Hp Hh Hr Hu Hi. apply (pid_call m1 id c); [by rewrite (tame_calls _ _ Ht)|done| |done|done|by eapply pid_tamer]. intros H. left. by apply Hh.
Qed.

Lemma pid_step m m' : pid_inv m -> step m m' -> pid_inv m'.
Proof.
  intros Hi Hs. destruct Hs.
  all: try match goal with H : incrementWaitGroup _ = _ |- _ => apply incrementWaitGroup_spec in H as (Hcalls & Hman & _ & Hpro & _ & Hrel & _) end.
  all: try (eapply pid_tamer; [|exact Hi]; first [by apply tamer_same | by apply tamer_signal | apply tamer_send]; fail).
  all: try (eapply pid_moves; [..|exact Hi]; [|eassumption|..]; [by apply tamer_same|phases..]; fail).
  all: try (apply pid_launch; [done|phases|done|]; first [exact Hi | eapply pid_tamer; [by apply tamer_same|exact Hi]]; fail).
  - apply pid_new; [done|done|]. eapply pid_tamer; [|exact Hi]. by apply tamer_same.
  - by apply pid_new.
  - apply pid_launch; [exact H|phases|exact H2|]. apply (pid_tamer _ m); [by apply tamer_same|exact Hi].
  - by apply pid_register.
  - eapply pid_moves; [apply tamer_send|eassumption|phases..|exact Hi].
  - eapply pid_tamer; [|exact Hi]. by eapply tamer_set_process.
  - eapply pid_call; [eassumption|phases..|exact Hi]. right. exists pid, p. by split_and!.
  - eapply pid_moves; [|eassumption|..|exact Hi]; [by apply tamer_same|destruct (c_kind c); phases..].
  - eapply pid_call; [eassumption|phases..|]. apply (pid_unregister m); try done; cbn.
    + intros q. destruct (decide (q = pid)) as [->|]; [rewrite lookup_delete_eq; by intros []|by rewrite lookup_delete_ne].
    + intros q Hq. destruct (decide (q = pid)) as [->|]; [|left; by rewrite lookup_delete_ne]. right. right. intros i d Hd Hreg.
      assert (i = id) as ->; [|simplify_eq; phases]. eapply (pid_distinct m Hi i id d c pid); [done|done| |phases]. destruct (c_phase d); cbn in *; congruence.
  - apply (pid_unregister m); try done; cbn.
    + intros q. rewrite foldr_delete_lookup. destruct (decide (q ∈ pids)); [by intros []|done].
    + intros q Hq. rewrite foldr_delete_lookup. destruct (decide (q ∈ pids)) as [Hin|]; [right; left; set_solver|by left].
    + set_solver.
  - destruct (stream_of_call _ _ _ _ _ _ H) as (_ & Hc & _). eapply pid_moves; [apply tamer_refl|exact Hc|phases..|exact Hi].
  - eapply pid_tamer; [|exact Hi]. eapply tamer_trans; [|apply tamer_send]. by apply tamer_same.
Qed.

(** ** A shutdown reaches every process *)

(** The process is dead or was sent what this state sends. *)
Definition reached (st : shutdownState) (p : os_process) : Prop :=
  alive p = false \/
  match st with stateRunning => True | stateGraceful => interrupted p = true \/ killed p = true | stateForced => killed p = true end.

(** A shutdown to the present state has not yet visited the process. *)
Definition to_be_visited (m : manager) (pid : Z) (ph : shutdown_phase) : Prop :=
  match ph with
  | Decided next didTransition => next = state m /\ didTransition = true
  | Ranging next pending => next = state m /\ pid ∈ pending
  | _ => False
  end.

Definition covered (m : manager) (pid : Z) : Prop :=
  pid ∈ releasedPids m \/ (exists p, processes m !! pid = Some p /\ reached (state m) p) \/
  exists id ph, shutdowns m !! id = Some ph /\ to_be_visited m pid ph.

Definition looked_after (m : manager) (ph : phase) : Prop :=
  match ph with
  | Signalling pid st => st = state m \/ covered m pid
  | Running pid => covered m pid
  | _ => True
  end.

Record shutdown_inv (m : manager) : Prop := {
  sd_state : forall id ph, shutdowns m !! id = Some ph -> state m <> stateRunning;
  sd_calls : forall id c, calls m !! id = Some c -> looked_after m (c_phase c);
  sd_waited : forall id, shutdowns m !! id = Some ReturnedAfterWait -> shutdownWg m = 0
}.

(** No process is lost, revived or forgets a signal. *)
Definition more_reached (m1 m : manager) : Prop := forall pid p, processes m !! pid = Some p ->
  exists p1, processes m1 !! pid = Some p1 /\ (alive p = false -> alive p1 = false) /\
             (interrupted p = true -> interrupted p1 = true) /\ (killed p = true -> killed p1 = true).

Lemma more_reached_refl m1 m : processes m1 = processes m -> more_reached m1 m.
Proof. intros He pid p Hp. exists p. by rewrite He. Qed.

Lemma more_reached_trans m1 m2 m3 : more_reached m1 m2 -> more_reached m2 m3 -> more_reached m1 m3.
Proof. intros H1 H2 pid p Hp. destruct (H2 _ _ Hp) as (p2 & Hp2 & ? & ? & ?). destruct (H1 _ _ Hp2) as (p1 & Hp1 & ? & ? & ?). exists p1. auto 6. Qed.

Lemma more_reached_set pid p p1 m : processes m !! pid = Some p -> (alive p = false -> alive p1 = false) ->
  (interrupted p = true -> interrupted p1 = true) -> (killed p = true -> killed p1 = true) -> more_reached (set_process pid p1 m) m.
Proof.
  intros Hp Ha Hi Hk q p2 Hq. cbn. destruct (decide (q = pid)) as [->|]; [rewrite lookup_insert_eq|rewrite lookup_insert_ne by done; eauto 6].
  rewrite Hp in Hq. injection Hq as <-. exists p1. auto.
Qed.

Lemma more_reached_signal g pid m : (forall p, alive (g p) = alive p /\ (interrupted p = true -> interrupted (g p) = true) /\ (killed p = true -> killed (g p) = true)) ->
  more_reached (signal_process g pid m) m.
Proof.
  intros Hg. unfold signal_process. destruct (processes m !! pid) as [p|] eqn:Hp; [|by apply more_reached_refl]. destruct (alive p) eqn:Ha; [|by apply more_reached_refl].
  destruct (Hg p) as (Hga & ? & ?). apply (more_reached_set pid p); try done. by rewrite Hga.
Qed.

Lemma more_reached_send st pid m : more_reached (send_shutdown st pid m) m.
Proof. destruct st; [by apply more_reached_refl|by apply more_reached_signal..]. Qed.

(** The signal itself. *)
Lemma send_reaches st pid m p : processes m !! pid = Some p -> exists p1, processes (send_shutdown st pid m) !! pid = Some p1 /\ reached st p1.
Proof.
  intros Hp. destruct st; cbn [send_shutdown]; [exists p; split; [done|by right]| |];
    (unfold InterruptProcess, KillProcess, signal_process; rewrite Hp; destruct (alive p) eqn:Ha; [|exists p; split; [done|by left]]);
    cbn; rewrite lookup_insert_eq; eexists; (split; [done|]); right; cbn; auto.
Qed.

Lemma reached_more st p p1 : (alive p = false -> alive p1 = false) -> (interrupted p = true -> interrupted p1 = true) ->
  (killed p = true -> killed p1 = true) -> reached st p -> reached st p1.
Proof. unfold reached. destruct st; tauto. Qed.

Lemma covered_keep m m1 pid : state m1 = state m -> releasedPids m ⊆ releasedPids m1 -> more_reached m1 m ->
  (forall id ph, shutdowns m !! id = Some ph -> to_be_visited m pid ph -> covered m1 pid) ->
  covered m pid -> covered m1 pid.
Proof.
  intros Hst Hrel Hmore Hsd [?|[(p & Hp & Hr)|(id & ph & Hph & Hv)]]; [left; set_solver| |by eapply Hsd].
  destruct (Hmore _ _ Hp) as (p1 & Hp1 & ? & ? & ?). right. left. exists p1. split; [done|]. rewrite Hst. by eapply reached_more.
Qed.

(** Changes that leave the shutdowns alone. *)
Lemma covered_same m m1 pid : state m1 = state m -> releasedPids m ⊆ releasedPids m1 -> more_reached m1 m -> shutdowns m1 = shutdowns m ->
  covered m pid -> covered m1 pid.
Proof.
  intros Hst Hrel Hmore Hsd. apply covered_keep; [done..|]. intros id ph Hph Hv. right. right. exists id, ph. rewrite Hsd. split; [done|].
  destruct ph; cbn in *; by rewrite ?Hst.
Qed.

(** A change of the shutdown [sid] alone. *)
Lemma covered_set_shutdown m sid ph ph' pid : shutdowns m !! sid = Some ph -> (to_be_visited m pid ph -> covered (set_shutdown sid ph' m) pid) ->
  covered m pid -> covered (set_shutdown sid ph' m) pid.
Proof.
  intros Hph Hv. apply covered_keep; [done|done|by apply more_reached_refl|]. intros id ph2 Hph2 Hv2.
  destruct (decide (id = sid)) as [->|Hne]; [rewrite Hph in Hph2; injection Hph2 as <-; by apply Hv|].
  right. right. exists id, ph2. cbn. by rewrite lookup_insert_ne.
Qed.

Lemma looked_after_mono m m1 ph : state m1 = state m -> (forall pid, registered_pid ph = Some pid -> covered m pid -> covered m1 pid) ->
  looked_after m ph -> looked_after m1 ph.
Proof.
  intros Hst Hc. destruct ph; cbn; try done; rewrite ?Hst; [|by apply Hc]. intros [?|?]; [by left|right; by apply Hc].
Qed.

(** A step that leaves the shutdowns alone. *)
Record sd_tame (m1 m : manager) : Prop := {
  sdt_state : state m1 = state m;
  sdt_shutdowns : shutdowns m1 = shutdowns m;
  sdt_released : releasedPids m ⊆ releasedPids m1;
  sdt_more : more_reached m1 m;
  sdt_wg : state m <> stateRunning -> shutdownWg m = 0 -> shutdownWg m1 = 0
}.

Lemma sd_tame_same m1 m : state m1 = state m -> shutdowns m1 = shutdowns m -> releasedPids m1 = releasedPids m -> processes m1 = processes m ->
  shutdownWg m1 = shutdownWg m -> sd_tame m1 m.
Proof. intros H1 H2 H3 H4 H5. split; try done; [by rewrite H3|by apply more_reached_refl|by rewrite H5]. Qed.

Lemma sd_keep m m1 : sd_tame m1 m ->
  (forall id c1, calls m1 !! id = Some c1 -> looked_after m1 (c_phase c1) \/ exists c, calls m !! id = Some c /\ c_phase c1 = c_phase c) ->
  shutdown_inv m -> shutdown_inv m1.
Proof.
  intros [H1 H2 H3 H4 H5] Hcalls [I1 I2 I3]. split; rewrite ?H1, ?H2.
  - done.
  - intros id c1 Hc1. destruct (Hcalls _ _ Hc1) as [?|(c & Hc & ->)]; [done|]. eapply looked_after_mono; [done| |by eapply I2].
    intros pid _. by apply covered_same.
  - intros id Hid. apply H5; eauto.
Qed.

Lemma sd_same m m1 : sd_tame m1 m -> calls m1 = calls m -> shutdown_inv m -> shutdown_inv m1.
Proof. intros Ht Hc. apply sd_keep; [done|]. rewrite Hc. eauto. Qed.

Lemma sd_set_call m m1 id c' : sd_tame m1 m -> calls m1 = calls m ->
  looked_after (set_call id c' m1) (c_phase c') \/ (exists c, calls m !! id = Some c /\ c_phase c' = c_phase c) ->
  shutdown_inv m -> shutdown_inv (set_call id c' m1).
Proof.
  intros [H1 H2 H3 H4 H5] Hc Hl. apply sd_keep; [by split|]. intros i c1. cbn [calls set_call]. rewrite Hc.
  destruct (decide (i = id)) as [->|]; [rewrite lookup_insert_eq; by intros [= <-]|rewrite lookup_insert_ne by done; eauto].
Qed.

(** Two steps in a row, the second of which leaves the counter alone. *)
Lemma sd_tame_trans m1 m2 m3 : sd_tame m1 m2 -> sd_tame m2 m3 -> sd_tame m1 m3.
Proof.
  intros [A1 A2 A3 A4 A5] [B1 B2 B3 B4 B5]. split; [congruence..|set_solver|by eapply more_reached_trans|]. intros Hs Hw. apply A5; [by rewrite B1|auto].
Qed.

Lemma sd_tame_send st pid m : sd_tame (send_shutdown st pid m) m.
Proof.
  destruct (send_shutdown_same st pid m) as (H1 & H2 & _ & _ & _ & H3 & H4). split; [done|done|by rewrite H4|apply more_reached_send|by rewrite H2].
Qed.

Lemma sd_tame_signal g pid m : (forall p, alive (g p) = alive p /\ (interrupted p = true -> interrupted (g p) = true) /\ (killed p = true -> killed (g p) = true)) ->
  sd_tame (signal_process g pid m) m.
Proof.
  intros Hg. destruct (signal_process_same g pid m) as (H1 & H2 & _ & _ & _ & H3 & H4).
  split; [done|done|by rewrite H4|by apply more_reached_signal|by rewrite H2].
Qed.

(** A counted call keeps the counter away from zero. *)
Lemma counted_positive m id c : wg_inv m -> calls m !! id = Some c -> counted c = true -> 0 < shutdownWg m.
Proof.
  intros Hi Hc Hcount. pose proof (count_if_nonneg counted (calls m)). unfold wg_inv in Hi.
  destruct (Z.eq_dec (shutdownWg m) 0) as [Hz|]; [|lia]. rewrite Hi in Hz. by rewrite (count_if_zero counted _ Hz _ _ Hc) in Hcount.
Qed.

Lemma sd_tame_decrement m m1 id c : wg_inv m -> calls m !! id = Some c -> counted c = true ->
  state m1 = state m -> shutdowns m1 = shutdowns m -> releasedPids m1 = releasedPids m -> processes m1 = processes m -> shutdownWg m1 = shutdownWg m ->
  sd_tame (decrementWaitGroup m1) m.
Proof.
  intros Hi Hc Hcount H1 H2 H3 H4 H5. split; try done; [cbn; by rewrite H3|by apply more_reached_refl|]. cbn. rewrite H5. pose proof (counted_positive m id c Hi Hc Hcount). lia.
Qed.

Lemma sd_tame_launch m m1 pid : state m1 = state m -> shutdowns m1 = shutdowns m -> releasedPids m1 = releasedPids m -> processes m1 = processes m ->
  shutdownWg m1 = shutdownWg m -> processes m !! pid = None -> sd_tame (set_process pid started m1) m.
Proof.
  intros H1 H2 H3 H4 H5 Hn. split; cbn; try done; [by rewrite H3| |by rewrite H5]. intros q p Hp. cbn. rewrite H4, lookup_insert_ne; [eauto 6|]. intros ->. congruence.
Qed.

(** *** Starting and going through a shutdown *)

Lemma sd_enter m id force : pid_inv m -> shutdowns m !! id = None -> shutdown_inv m -> shutdown_inv (enter_shutdown force id m).
Proof.
  intros Hp Hid [I1 I2 I3]. unfold enter_shutdown. set (next := next_state force (state m)).
  assert (next <> stateRunning) as Hnext by (unfold next, next_state; by destruct force, (state m)).
  assert (state m <> stateRunning -> next = state m \/ state m = stateGraceful /\ next = stateForced) as Hup
    by (unfold next, next_state; destruct force, (state m); cbn; auto; by intros []).
  destruct (decide (state m = next)) as [He|He].
  - rewrite bool_decide_true by done. cbn [negb]. split; cbn [state shutdowns set_shutdown calls shutdownWg].
    + done.
    + intros i c Hc. eapply (looked_after_mono m); [done| |eauto]. intros pid _. apply covered_keep; [done|done|by apply more_reached_refl|].
      intros j ph Hph Hv. right. right. exists j, ph. cbn. rewrite lookup_insert_ne by (intros ->; congruence). split; [done|]. destruct ph; cbn in Hv |- *; try done; by rewrite <- He.
    + intros j. destruct (decide (j = id)) as [->|]; [by rewrite lookup_insert_eq|rewrite lookup_insert_ne by done; eauto].
  - rewrite bool_decide_false by done. cbn [negb]. split; cbn [state shutdowns set_shutdown calls shutdownWg].
    + done.
    + intros i c Hc. match goal with |- looked_after ?m1 _ => assert (forall pid, covered m1 pid) as Hall end.
      { intros pid. right. right. exists id, (Decided next true). cbn. by rewrite lookup_insert_eq. }
      destruct (c_phase c); cbn; auto.
    + intros j. destruct (decide (j = id)) as [->|]; [by rewrite lookup_insert_eq|rewrite lookup_insert_ne by done; eauto].
Qed.

(** A shutdown that goes on, when the processes it leaves behind are covered. *)
Lemma sd_advance m m1 id ph ph' : sd_tame m1 m -> calls m1 = calls m -> shutdowns m !! id = Some ph ->
  (ph' = ReturnedAfterWait -> shutdownWg m = 0) ->
  (forall pid i c, calls m !! i = Some c -> registered_pid (c_phase c) = Some pid -> to_be_visited m pid ph -> covered (set_shutdown id ph' m1) pid) ->
  shutdown_inv m -> shutdown_inv (set_shutdown id ph' m1).
Proof.
  intros [H1 H2 H3 H4 H5] Hc Hph Hret Hv [I1 I2 I3]. split; cbn [state shutdowns set_shutdown calls shutdownWg]; rewrite ?H1, ?Hc, ?H2.
  - intros i p. destruct (decide (i = id)) as [->|]; [rewrite lookup_insert_eq; eauto|rewrite lookup_insert_ne by done; eauto].
  - intros i c Hci. eapply (looked_after_mono m); [done| |eauto]. intros pid Hreg. apply covered_keep; [done|done|by intros q p Hq; apply H4|].
    intros j p Hj Hvis. destruct (decide (j = id)) as [->|Hne]; [rewrite Hph in Hj; injection Hj as <-; eauto|].
    right. right. exists j, p. cbn. rewrite lookup_insert_ne, H2 by done. split; [done|]. destruct p; cbn in *; by rewrite ?H1.
  - intros i. destruct (decide (i = id)) as [->|].
    + rewrite lookup_insert_eq. intros [= ->]. apply H5; [by eapply I1|by apply Hret].
    + rewrite lookup_insert_ne by done. intros Hi. apply H5; eauto.
Qed.

(** The signal of [applyInFlightShutdown]. *)
Lemma in_flight_covered m id c pid st : pid_inv m -> shutdown_inv m -> calls m !! id = Some c -> c_phase c = Signalling pid st ->
  covered (send_shutdown st pid m) pid.
Proof.
  intros Hp Hi Hc Hph. pose proof (sd_tame_send st pid m) as [H1 H2 H3 H4 _]. pose proof (sd_calls m Hi id c Hc) as Hl. rewrite Hph in Hl.
  destruct Hl as [->|Hcov]; [|by eapply covered_same]. destruct (pid_started m Hp id c pid Hc ltac:(by rewrite Hph)) as [p Hpro].
  destruct (send_reaches (state m) pid m p Hpro) as (p1 & Hp1 & Hr). right. left. exists p1. by rewrite H1.
Qed.

(** A visit: the process is signalled, and those that wait for a visit still do. *)
Lemma visited_covered m id next pending pid q : shutdowns m !! id = Some (Ranging next pending) ->
  is_Some (processes m !! pid) -> to_be_visited m q (Ranging next pending) ->
  covered (set_shutdown id (Ranging next (pending ∖ {[pid]})) (send_shutdown next pid m)) q.
Proof.
  intros Hid [p Hp] [-> Hq]. destruct (send_shutdown_same (state m) pid m) as (H1 & _). destruct (decide (q = pid)) as [->|Hne].
  - destruct (send_reaches (state m) pid m p Hp) as (p1 & Hp1 & Hr). right. left. exists p1. cbn. by rewrite H1.
  - right. right. exists id. eexists. cbn. rewrite lookup_insert_eq. split; [done|]. cbn. rewrite H1. set_solver.
Qed.

Lemma sd_step m m' : wg_inv m -> pid_inv m -> shutdown_inv m -> step m m' -> shutdown_inv m'.
Proof.
  intros Hw Hp Hi Hs. destruct Hs; unfold moves, launch.
  all: try match goal with H : incrementWaitGroup _ = _ |- _ => apply incrementWaitGroup_spec in H as (Hcalls & Hman & _ & Hpro & Hsd & Hrel & Hst & Hwg & Hacc) end.
  all: try (apply (sd_same m); [by apply sd_tame_same|done|exact Hi]; fail).
  all: try (apply (sd_set_call m); [by apply sd_tame_same|done|by left|exact Hi]; fail).
  all: try (apply (sd_set_call m); [by apply sd_tame_same|done|right; eauto|exact Hi]; fail).
  all: try (apply (sd_set_call m); [eapply sd_tame_decrement; [done|eassumption|counting_phases|done..]|done|by left|exact Hi]; fail).
  all: try (apply (sd_set_call m); [by apply sd_tame_launch|done|by left|exact Hi]; fail).
  all: try (apply (sd_same m); [by apply sd_tame_signal|apply signal_process_same|exact Hi]; fail).
  - apply (sd_set_call m); [|done|by left|exact Hi]. split; [done|done|by rewrite Hrel|by apply more_reached_refl|]. intros Hn. by destruct Hn; apply Hacc.
  - apply (sd_set_call m); [|done|by left|exact Hi]. apply sd_tame_same; try done. cbn in Hwg |- *. lia.
  - apply (sd_set_call m); [by apply sd_tame_same|done|left; by left|exact Hi].
  - destruct (send_shutdown_same st pid m) as (H1 & H2 & _ & _ & H3 & H4 & H5).
    apply (sd_set_call m); [apply sd_tame_send|exact H3| |exact Hi].
    left. cbn. eapply covered_same; [..|by eapply in_flight_covered]; try done. by apply more_reached_refl.
  - apply (sd_same m); [|done|exact Hi]. split; try done. by eapply more_reached_set.
  - apply (sd_set_call m); [apply (sd_tame_decrement m m id c Hw H); [counting_phases|done..]|done|left; by destruct (c_kind c)|exact Hi].
  - apply (sd_same m); [|done|exact Hi]. split; try done; [cbn; set_solver|by apply more_reached_refl].
  - destruct (stream_of_call _ _ _ _ _ _ H) as (_ & Hc & _). apply (sd_set_call m); [by apply sd_tame_same|done|right; eauto|exact Hi].
  - by apply sd_enter.
  - eapply sd_advance; [by apply sd_tame_same|done|exact H| | |exact Hi]; [by destruct next|by intros ? ? ? _ _ [_ ?]].
  - eapply sd_advance; [by apply sd_tame_same|done|exact H|done| |exact Hi]. intros q i c Hc Hreg [-> _].
    destruct (pid_managed m Hp i c q Hc Hreg) as [Hm|Hm]; [|by left]. right. right. exists id. eexists. cbn. rewrite lookup_insert_eq. split; [done|].
    cbn. split; [done|]. by apply elem_of_dom.
  - eapply sd_advance; [apply sd_tame_send|apply send_shutdown_same|exact H|done| |exact Hi]. intros q i c _ _ Hv.
    eapply visited_covered; [exact H| |exact Hv]. by apply (pid_managed_started m Hp).
  - eapply sd_advance; [by apply sd_tame_same|done|exact H|done| |exact Hi]. intros q i c Hc Hreg [-> Hq]. destruct (decide (q = pid)) as [->|Hne].
    + destruct (pid_managed m Hp i c pid Hc Hreg) as [[x Hm]|Hm]; [congruence|by left].
    + right. right. exists id. eexists. cbn. rewrite lookup_insert_eq. split; [done|]. cbn. set_solver.
  - eapply sd_advance; [by apply sd_tame_same|done|exact H|by destruct next| |exact Hi]. intros q i c _ _ [_ Hq]. set_solver.
  - eapply sd_advance; [by apply sd_tame_same|done|exact H|done|done|exact Hi].
Qed.

(** ** Reachable states *)

Record all_inv (m : manager) : Prop := { inv_wg : wg_inv m; inv_pid : pid_inv m; inv_shutdown : shutdown_inv m }.

Lemma all_inv_start t : all_inv (newProcessCommon t).
Proof.
  split; [|split|split]; try done; cbn; intros; try (by rewrite lookup_empty in *); try (by destruct H; rewrite lookup_empty in *).
Qed.

Lemma all_inv_step m m' : all_inv m -> step m m' -> all_inv m'.
Proof. intros [Hw Hp Hs] Hst. split; [by eapply wg_step|by eapply pid_step|by eapply sd_step]. Qed.

Lemma all_inv_rtc m m' : all_inv m -> rtc step m m' -> all_inv m'.
Proof. intros Hi. induction 1; eauto using all_inv_step. Qed.

Lemma reachable_inv m : reachable m -> all_inv m.
Proof. intros [t Ht]. eapply all_inv_rtc; [apply all_inv_start|exact Ht]. Qed.


(** A shutdown that has returned has returned for good. *)
Lemma returned_stays m m' id : shutdowns m !! id = Some ReturnedAfterWait -> rtc step m m' -> shutdowns m' !! id = Some ReturnedAfterWait.
Proof.
  intros Hid Hs. revert Hid. induction Hs as [|m m1 m2 H1 _ IH]; [done|]. intros Hid. apply IH. clear IH.
  destruct H1; unfold moves, launch, enter_shutdown; try done.
  all: try match goal with H : incrementWaitGroup _ = _ |- _ => apply incrementWaitGroup_spec in H as (_ & _ & _ & _ & Hsd & _); cbn; by rewrite Hsd end.
  all: try (cbn; rewrite lookup_insert_ne by (intros ->; congruence); exact Hid).
  - cbn. destruct (send_shutdown_same st pid m) as (_ & _ & _ & _ & _ & -> & _). exact Hid.
  - unfold InterruptProcess. destruct (signal_process_same (fun p => {| alive := alive p; interrupted := true; killed := killed p |}) pid m)
      as (_ & _ & _ & _ & _ & -> & _). exact Hid.
  - unfold KillProcess. destruct (signal_process_same (fun p => {| alive := alive p; interrupted := interrupted p; killed := true |}) pid m)
      as (_ & _ & _ & _ & _ & -> & _). exact Hid.
  - cbn. rewrite lookup_insert_ne by (intros ->; congruence). destruct (send_shutdown_same next pid m) as (_ & _ & _ & _ & _ & -> & _). exact Hid.
Qed.

(** C29: when a graceful shutdown returns after it has waited, no process that the manager
    started is alive, no call is under way, and none is ever accepted again. *)
Theorem graceful_shutdown_leaves_nothing m m' id : reachable m -> shutdowns m !! id = Some ReturnedAfterWait -> rtc step m m' ->
  (forall pid p, processes m' !! pid = Some p -> alive p = false) /\
  (forall i c, calls m' !! i = Some c -> counted c = false) /\ (incrementWaitGroup m').2 = false.
Proof.
  intros Hm Hid Hs. pose proof (returned_stays _ _ _ Hid Hs) as Hid'. destruct (all_inv_rtc _ _ (reachable_inv m Hm) Hs) as [Hw Hp Hi].
  pose proof (sd_waited m' Hi id Hid') as Hz. pose proof (sd_state m' Hi id _ Hid') as Hst.
  assert (forall i c, calls m' !! i = Some c -> counted c = false) as Hnone by (apply count_if_zero; unfold wg_inv in Hw; congruence).
  split_and!; [|done|unfold incrementWaitGroup; by destruct (state m')].
  intros pid p Hpid. destruct (alive p) eqn:Ha; [|done]. destruct (pid_alive m' Hp pid p Hpid Ha) as (i & c & Hc & _ & Hh).
  specialize (Hnone i c Hc). unfold counted in Hnone. by destruct (c_phase c).
Qed.

(** ** A graceful shutdown can return *)

Definition abandoned (c : call) : bool := match c_phase c with Abandoned _ => true | _ => false end.

(** The call can go on to its end, and nothing but this call and its process changes. *)
Definition drives (m : manager) (id : nat) : Prop :=
  exists m' c', rtc step m m' /\ calls m' = <[id := c']> (calls m) /\ counted c' = false /\ abandoned c' = false /\
    shutdownWg m' = shutdownWg m - 1 /\ state m' = state m /\ shutdowns m' = shutdowns m.

Lemma drives_step m m1 id c1 : step m m1 -> calls m1 = <[id := c1]> (calls m) -> shutdownWg m1 = shutdownWg m -> state m1 = state m ->
  shutdowns m1 = shutdowns m -> drives m1 id -> drives m id.
Proof.
  intros Hs Hc Hw Hst Hsd (m' & c' & Hr & Hc' & H1 & H2 & H3 & H4 & H5). exists m', c'. rewrite Hc, insert_insert_eq in Hc'.
  split_and!; [by eapply rtc_l|done..|congruence|congruence|congruence].
Qed.

Lemma drives_closed m id c pid : calls m !! id = Some c -> c_phase c = Closed pid -> drives m id.
Proof.
  intros Hc Hph. do 2 eexists. split; [apply rtc_once; by eapply step_done|]. split; [reflexivity|]. unfold counted, abandoned. by destruct (c_kind c).
Qed.

Lemma drives_exited m id c pid : calls m !! id = Some c -> c_phase c = Exited pid -> drives m id.
Proof.
  intros Hc Hph. eapply drives_step; [by eapply step_close|done..|]. eapply drives_closed; [apply lookup_insert_eq|done].
Qed.

Lemma drives_running m id c pid : pid_inv m -> calls m !! id = Some c -> c_phase c = Running pid -> drives m id.
Proof.
  intros Hp Hc Hph. destruct (pid_started m Hp id c pid Hc ltac:(by rewrite Hph)) as [p Hpro].
  assert (forall m1 p1, calls m1 !! id = Some c -> processes m1 !! pid = Some p1 -> alive p1 = false -> drives m1 id) as Hdead.
  { intros m1 p1 Hc1 Hp1 Ha. eapply drives_step; [by eapply step_wait|done..|]. eapply drives_exited; [apply lookup_insert_eq|done]. }
  destruct (alive p) eqn:Ha; [|by eapply Hdead]. pose proof (step_exits m pid p Hpro Ha) as Hs.
  match type of Hs with step _ ?m1 => destruct (Hdead m1 {| alive := false; interrupted := interrupted p; killed := killed p |} Hc) as (m' & c' & Hr & H1) end;
    [cbn; apply lookup_insert_eq|done|]. exists m', c'. split; [by eapply rtc_l|exact H1].
Qed.

Lemma drives_signalling m id c pid st : pid_inv m -> calls m !! id = Some c -> c_phase c = Signalling pid st -> drives m id.
Proof.
  intros Hp Hc Hph. pose proof (step_in_flight m id c pid st Hc Hph) as Hs. pose proof (pid_step _ _ Hp Hs) as Hp1.
  destruct (send_shutdown_same st pid m) as (H1 & H2 & _ & _ & H3 & H4 & _).
  eapply (drives_step m _ id (with_phase (Running pid) c)); [exact Hs|cbn; by rewrite H3|done..|].
  eapply drives_running; [done|cbn; apply lookup_insert_eq|done].
Qed.

Lemma drives_registered m id c pid : pid_inv m -> calls m !! id = Some c -> c_phase c = Registered pid -> drives m id.
Proof.
  intros Hp Hc Hph. pose proof (step_read_state m id c pid Hc Hph) as Hs. pose proof (pid_step _ _ Hp Hs) as Hp1.
  eapply drives_step; [exact Hs|done..|]. eapply drives_signalling; [done|apply lookup_insert_eq|done].
Qed.

Lemma drives_counted m id c : pid_inv m -> calls m !! id = Some c -> counted c = true -> abandoned c = false -> drives m id.
Proof.
  intros Hp Hc Hcount Hab. unfold counted, abandoned in *. destruct (c_phase c) eqn:Hph; try done.
  - do 2 eexists. split; [apply rtc_once; by eapply step_start_fails|]. done.
  - do 2 eexists. split; [apply rtc_once; by eapply step_child_fails|]. done.
  - pose proof (step_register m id c pid Hc Hph) as Hs. pose proof (pid_step _ _ Hp Hs) as Hp1.
    eapply drives_step; [exact Hs|done..|]. eapply drives_registered; [done|apply lookup_insert_eq|done].
  - by eapply drives_registered.
  - by eapply drives_signalling.
  - by eapply drives_running.
  - by eapply drives_exited.
  - by eapply drives_closed.
Qed.

Lemma counter_can_reach_zero n : forall m, all_inv m -> shutdownWg m = Z.of_nat n -> (forall i c, calls m !! i = Some c -> abandoned c = false) ->
  exists m', rtc step m m' /\ shutdownWg m' = 0 /\ state m' = state m /\ shutdowns m' = shutdowns m.
Proof.
  induction n as [|n IH]; intros m Hi Hw Hab; [by exists m|].
  assert (exists i c, calls m !! i = Some c /\ counted c = true) as (i & c & Hc & Hcount).
  { destruct (decide (filter (fun kv : nat * call => counted kv.2 = true) (calls m) = ∅)) as [He|He].
    - pose proof (inv_wg m Hi) as Hinv. unfold wg_inv, count_if in Hinv. rewrite He, map_size_empty in Hinv. lia.
    - apply map_choose in He as (i & c & Hf). apply map_lookup_filter_Some in Hf as [Hc Hcount]. eauto. }
  destruct (drives_counted m i c (inv_pid m Hi) Hc Hcount (Hab i c Hc)) as (m1 & c1 & Hr & Hcalls & _ & Hab1 & Hw1 & Hst1 & Hsd1).
  destruct (IH m1) as (m' & Hr' & Hw' & Hst' & Hsd'); [by eapply all_inv_rtc|lia| |].
  - intros j d. rewrite Hcalls. destruct (decide (j = i)) as [->|]; [rewrite lookup_insert_eq; by intros [= <-]|rewrite lookup_insert_ne by done; eauto].
  - exists m'. split_and!; [by etransitivity|done|congruence|congruence].
Qed.

(** *** Abandoned calls *)

(** An abandoned call stays so. *)
Lemma abandoned_stays m m' id c pid : step m m' -> calls m !! id = Some c -> c_phase c = Abandoned pid ->
  exists c', calls m' !! id = Some c' /\ c_phase c' = Abandoned pid.
Proof.
  intros Hs Hc Hph. assert (forall m1 i c1, calls m1 = calls m -> (i = id -> c_phase c1 = Abandoned pid) ->
    exists c', calls (set_call i c1 m1) !! id = Some c' /\ c_phase c' = Abandoned pid) as Hset.
  { intros m1 i c1 Hm1 Hi. cbn. rewrite Hm1. destruct (decide (i = id)) as [->|]; [rewrite lookup_insert_eq; eauto|rewrite lookup_insert_ne by done; eauto]. }
  destruct Hs; unfold moves, launch; try (by eauto).
  all: try match goal with H : incrementWaitGroup _ = _ |- _ => apply incrementWaitGroup_spec in H as (Hcalls & _) end.
  all: try (apply Hset; [by rewrite ?Hcalls|intros ->; cbn; congruence]; fail).
  - apply Hset; [apply send_shutdown_same|intros ->; cbn; congruence].
  - unfold InterruptProcess. rewrite (proj1 (proj2 (proj2 (proj2 (proj2 (signal_process_same _ pid0 m)))))). eauto.
  - unfold KillProcess. rewrite (proj1 (proj2 (proj2 (proj2 (proj2 (signal_process_same _ pid0 m)))))). eauto.
  - destruct (stream_of_call _ _ _ _ _ _ H) as (_ & Hc0 & _). apply Hset; [done|]. intros ->. cbn. congruence.
  - cbn. rewrite (proj1 (proj2 (proj2 (proj2 (proj2 (send_shutdown_same next pid0 m)))))). eauto.
Qed.

(** A shutdown waits as long as the counter is not zero. *)
Lemma waiting_stays m m' id : step m m' -> shutdowns m !! id = Some AwaitingExit -> 0 < shutdownWg m -> shutdowns m' !! id = Some AwaitingExit.
Proof.
  intros Hs Hid Hw. destruct Hs; unfold moves, launch, enter_shutdown; try done.
  all: try match goal with H : incrementWaitGroup _ = _ |- _ => apply incrementWaitGroup_spec in H as (_ & _ & _ & _ & Hsd & _); cbn; by rewrite Hsd end.
  all: try (cbn; rewrite lookup_insert_ne by (intros ->; congruence); exact Hid).
  - cbn. by rewrite (proj1 (proj2 (proj2 (proj2 (proj2 (proj2 (send_shutdown_same st pid m))))))).
  - unfold InterruptProcess. by rewrite (proj1 (proj2 (proj2 (proj2 (proj2 (proj2 (signal_process_same _ pid m))))))).
  - unfold KillProcess. by rewrite (proj1 (proj2 (proj2 (proj2 (proj2 (proj2 (signal_process_same _ pid m))))))).
  - cbn. rewrite lookup_insert_ne by (intros ->; congruence). by rewrite (proj1 (proj2 (proj2 (proj2 (proj2 (proj2 (send_shutdown_same next pid m))))))).
  - lia.
Qed.

Lemma abandoned_blocks m m' id i c pid : all_inv m -> rtc step m m' -> shutdowns m !! id = Some AwaitingExit -> calls m !! i = Some c ->
  c_phase c = Abandoned pid -> shutdowns m' !! id = Some AwaitingExit /\ managedProcesses m' !! pid = None.
Proof.
  intros Hi Hs. revert c Hi. induction Hs as [m|m m1 m2 H1 _ IH]; intros c Hi Hid Hc Hph.
  - split; [done|]. apply (pid_unmanaged m (inv_pid m Hi) i c); [done|by rewrite Hph].
  - destruct (abandoned_stays _ _ _ _ _ H1 Hc Hph) as (c1 & Hc1 & Hph1). apply (IH c1); [by eapply all_inv_step| |done|done].
    eapply waiting_stays; [exact H1|done|]. eapply counted_positive; [apply Hi|exact Hc|]. unfold counted. by rewrite Hph.
Qed.

(** C30: a graceful shutdown that waits can always return, when every process that was
    started can end, whatever has happened before, unless a call has been abandoned with its
    process running: then neither this shutdown nor any other that waits ever returns, and
    the process is not in the map that a forced shutdown visits. *)
Theorem graceful_shutdown_returns m id : reachable m -> shutdowns m !! id = Some AwaitingExit ->
  ((forall i c, calls m !! i = Some c -> abandoned c = false) ->
     exists m', rtc step m m' /\ shutdowns m' !! id = Some ReturnedAfterWait) /\
  (forall i c pid, calls m !! i = Some c -> c_phase c = Abandoned pid ->
     forall m', rtc step m m' -> shutdowns m' !! id = Some AwaitingExit /\ managedProcesses m' !! pid = None).
Proof.
  intros Hm Hid. pose proof (reachable_inv m Hm) as Hi. split.
  - intros Hab. assert (exists n, shutdownWg m = Z.of_nat n) as [n Hn].
    { exists (Z.to_nat (shutdownWg m)). rewrite (inv_wg m Hi). pose proof (count_if_nonneg counted (calls m)). lia. }
    destruct (counter_can_reach_zero n m Hi Hn Hab) as (m1 & Hr & Hw & _ & Hsd). exists (set_shutdown id ReturnedAfterWait m1). split.
    + eapply rtc_r; [exact Hr|]. apply step_wait_done; [by rewrite Hsd|done].
    + apply lookup_insert_eq.
  - intros i c pid Hc Hph m' Hr. by eapply abandoned_blocks.
Qed.

(** ** A process that is started and shut down *)

Definition sample_command : LaunchCommand := {| Command := ["perf"; "record"]; Affinity := []; Environment := []; WorkingDirectory := "" |}.

Definition sample_request : StartProcess :=
  {| sp_LaunchCommand := sample_command; Stdout := {| Mode := Both; FilePath := "/tmp/out.txt" |};
     Stderr := {| Mode := Stream; FilePath := "" |}; Stdin := StdinBuffer; UseGroupController := false |}.

Definition sample_answers : start_answers :=
  {| Stat := fun p => if bool_decide (p = "/tmp") then IsDirectory else IsMissing; executable := Some "/usr/bin/agent"; pid_pipe_ok := true; build_ok := true;
     stdout_pipe_ok := true; stdout_create_ok := true; stderr_pipe_ok := true; stderr_create_ok := true; stdin_pipe_ok := true |}.

Definition sample_fds : fd_table := {| next_fd := 3; open_fds := {[0; 1; 2]}%nat |}.
Definition sample_prepared : fd_table * handles :=
  match prepare sample_request sample_answers sample_fds with (t, Ok (_, h)) => (t, h) | (t, Err _) => (t, no_handles) end.
Definition sample_call : call := new_call StartCall sample_prepared.2.

Definition at_phase (ph : phase) (m : manager) : manager := moves 0 sample_call ph m.

Definition s_prepared : manager := set_call 0 sample_call (set_table sample_prepared.1 (newProcessCommon sample_fds)).
Definition s_counted : manager := at_phase Counted (incrementWaitGroup s_prepared).1.
Definition s_launched : manager := launch 0 sample_call 42 s_counted.
Definition s_registered : manager := at_phase (Registered 42) (registerProcess 42 0 s_launched).
Definition s_checked : manager := at_phase (Signalling 42 stateRunning) s_registered.
Definition s_running : manager := at_phase (Running 42) (send_shutdown stateRunning 42 s_checked).

(** A graceful shutdown of a state, up to its wait, when process 42 is all there is to visit. *)
Definition s_entered (m : manager) : manager := enter_shutdown false 0 m.
Definition s_ranging (m : manager) : manager := set_shutdown 0 (Ranging stateGraceful (dom (managedProcesses (s_entered m)))) (s_entered m).
Definition s_visited : manager := set_shutdown 0 (Ranging stateGraceful (dom (managedProcesses (s_entered s_running)) ∖ {[42]})) (send_shutdown stateGraceful 42 (s_ranging s_running)).
Definition s_waiting : manager := set_shutdown 0 AwaitingExit s_visited.

(** The end of the process, and of its call. *)
Definition s_exited : manager := set_process 42 {| alive := false; interrupted := true; killed := false |} s_waiting.
Definition s_closed : manager := at_phase (Closed 42) (close_all (exit_fds sample_prepared.2) (at_phase (Exited 42) s_exited)).
Definition s_returned : manager := set_shutdown 0 ReturnedAfterWait (at_phase Finished (decrementWaitGroup s_closed)).

(** A call that is abandoned because the affinity could not be set, and a shutdown after it. *)
Definition s_abandoned : manager := at_phase (Abandoned 42) s_launched.
Definition s_stuck : manager := set_shutdown 0 AwaitingExit (s_ranging s_abandoned).

Ltac go_on := eapply rtc_r; [eassumption|].

Lemma launched_reachable : rtc step (newProcessCommon sample_fds) s_launched.
Proof.
  assert (rtc step (newProcessCommon sample_fds) s_prepared) as H1.
  { apply rtc_once. apply (step_prepare _ 0 sample_request sample_answers _ ["perf"; "record"]); [done|vm_compute; reflexivity]. }
  assert (rtc step (newProcessCommon sample_fds) s_counted) as H2.
  { go_on. by apply (step_count _ 0 sample_call). }
  go_on. by apply (step_start _ 0 (with_phase Counted sample_call)).
Qed.

Lemma running_reachable : rtc step (newProcessCommon sample_fds) s_running.
Proof.
  pose proof launched_reachable as H1.
  assert (rtc step (newProcessCommon sample_fds) s_registered) as H2.
  { go_on. by apply (step_register _ 0 (with_phase (Launched 42) sample_call)). }
  assert (rtc step (newProcessCommon sample_fds) s_checked) as H3.
  { go_on. exact (step_read_state s_registered 0 (with_phase (Registered 42) sample_call) 42 eq_refl eq_refl). }
  go_on. by apply (step_in_flight _ 0 (with_phase (Signalling 42 stateRunning) sample_call) 42 stateRunning).
Qed.

Lemma entered_reachable m : rtc step (newProcessCommon sample_fds) m -> shutdowns m !! 0%nat = None -> state m = stateRunning ->
  rtc step (newProcessCommon sample_fds) (s_ranging m).
Proof.
  intros H1 Hn Hst. assert (rtc step (newProcessCommon sample_fds) (s_entered m)) as H2 by (go_on; by apply step_shutdown).
  go_on. apply step_range. unfold s_entered, enter_shutdown. rewrite Hst. cbn. by rewrite lookup_insert_eq.
Qed.

Lemma waiting_reachable : rtc step (newProcessCommon sample_fds) s_waiting.
Proof.
  pose proof (entered_reachable s_running running_reachable eq_refl eq_refl) as H1.
  assert (rtc step (newProcessCommon sample_fds) s_visited) as H2.
  { go_on. apply (step_visit _ 0 stateGraceful); [vm_compute; reflexivity|by eexists]. }
  go_on. apply (step_range_done _ 0 stateGraceful). vm_compute. reflexivity.
Qed.

Lemma stuck_reachable : rtc step (newProcessCommon sample_fds) s_stuck.
Proof.
  pose proof launched_reachable as H0.
  assert (rtc step (newProcessCommon sample_fds) s_abandoned) as H1.
  { go_on. by apply (step_affinity_fails _ 0 (with_phase (Launched 42) sample_call)). }
  pose proof (entered_reachable s_abandoned H1 eq_refl eq_refl) as H2.
  go_on. apply (step_range_done _ 0 stateGraceful). vm_compute. reflexivity.
Qed.

Lemma returned_reachable : rtc step (newProcessCommon sample_fds) s_returned.
Proof.
  pose proof waiting_reachable as H0.
  assert (rtc step (newProcessCommon sample_fds) s_exited) as H1.
  { go_on. by apply (step_exits _ 42 {| alive := true; interrupted := true; killed := false |}). }
  assert (rtc step (newProcessCommon sample_fds) (at_phase (Exited 42) s_exited)) as H2.
  { go_on. by apply (step_wait _ 0 (with_phase (Running 42) sample_call) 42 {| alive := false; interrupted := true; killed := false |}). }
  assert (rtc step (newProcessCommon sample_fds) s_closed) as H3.
  { go_on. by apply (step_close _ 0 (with_phase (Exited 42) sample_call)). }
  assert (rtc step (newProcessCommon sample_fds) (at_phase Finished (decrementWaitGroup s_closed))) as H4.
  { go_on. by apply (step_done _ 0 (with_phase (Closed 42) sample_call) 42). }
  go_on. by apply step_wait_done.
Qed.


Lemma graceful_shutdown_leaves_nothing_witness :
  (forall pid p, processes s_returned !! pid = Some p -> alive p = false) /\
  (forall i c, calls s_returned !! i = Some c -> counted c = false) /\ (incrementWaitGroup s_returned).2 = false.
Proof. exact (graceful_shutdown_leaves_nothing s_returned s_returned 0 (ex_intro _ _ returned_reachable) eq_refl (rtc_refl _ _)). Defined.

Lemma graceful_shutdown_returns_witness :
  (exists m', rtc step s_waiting m' /\ shutdowns m' !! 0%nat = Some ReturnedAfterWait) /\
  (forall m', rtc step s_stuck m' -> shutdowns m' !! 0%nat = Some AwaitingExit /\ managedProcesses m' !! 42 = None).
Proof.
  split.
  - refine (proj1 (graceful_shutdown_returns s_waiting 0 (ex_intro _ _ waiting_reachable) eq_refl) _).
    intros i c Hc. assert (calls s_waiting = {[0%nat := with_phase (Running 42) sample_call]}) as He by (vm_compute; reflexivity). rewrite He in Hc.
    apply lookup_singleton_Some in Hc as [_ <-]. reflexivity.
  - exact (proj2 (graceful_shutdown_returns s_stuck 0 (ex_intro _ _ stuck_reachable) eq_refl) 0%nat (with_phase (Abandoned 42) sample_call) 42 eq_refl eq_refl).
Defined.
