(* ===== verification/ProcessHandles.v ===== *)
(** * Performix: the handles of processes

    Which pipes and files the process manager of [ProcessManager] has open: exactly those of the
    calls under way, and of a process that has ended the readers of its streams until they
    are drained. *)

From S2P Require Import Prelude.
From S2P Require Import GoStrings.
From S2P Require Import ProcessManager.
From S2P Require Import ProcessShutdown.

(** ** What is open *)

Definition readers_of (h : handles) : gset nat := of_option (reader (h_out h)) ∪ of_option (reader (h_err h)).

(** What the phase of a call has open. *)
Definition phase_fds (ph : phase) (h : handles) : gset nat :=
  match ph with
  | Prepared | Counted | Controlled => handle_fds h
  | Launched _ | Registered _ | Signalling _ _ | Running _ | Exited _ | Abandoned _ => stdio_fds h
  | Closed _ | Deleting _ | Finished => readers_of h
  | Failed => ∅
  end.

(** What clients have closed: readers of drained streams, and the standard input after a write. *)
Definition drained_fd (u : stream_use) (h : streamHandle) : gset nat := match u with Drained => of_option (reader h) | _ => ∅ end.

Definition client_closed (c : call) : gset nat :=
  drained_fd (out_use c) (h_out (c_handles c)) ∪ drained_fd (err_use c) (h_err (c_handles c)) ∪
  (if in_closed c then pipe_fds (h_in (c_handles c)) else ∅).

Definition held (c : call) : gset nat := phase_fds (c_phase c) (c_handles c) ∖ client_closed c.

(** The parts of the handles of a call are different. *)
Record handles_ok (h : handles) : Prop := {
  ok_out : of_option (reader (h_out h)) ## writers_of (h_out h);
  ok_err : of_option (reader (h_err h)) ## writers_of (h_err h);
  ok_streams : stream_fds (h_out h) ## stream_fds (h_err h);
  ok_in : pipe_fds (h_in h) ## stream_fds (h_out h) ∪ stream_fds (h_err h);
  ok_pid : pipe_fds (h_pid h) ## stdio_fds h
}.

Definition below_next (t : fd_table) (s : gset nat) : Prop := forall fd, fd ∈ s -> fd < next_fd t.

(** ** Preparing *)

(** What is opened from [t] to [t']. *)
Record opens (t t' : fd_table) (s : gset nat) : Prop := {
  opens_next : next_fd t <= next_fd t';
  opens_new : forall fd, fd ∈ s -> next_fd t <= fd < next_fd t';
  opens_open : open_fds t' = open_fds t ∪ s
}.

Lemma opens_refl t : opens t t ∅.
Proof. split; [done|set_solver|set_solver]. Qed.

Lemma opens_trans t1 t2 t3 s1 s2 : opens t1 t2 s1 -> opens t2 t3 s2 -> opens t1 t3 (s1 ∪ s2).
Proof.
  intros [A1 A2 A3] [B1 B2 B3]. split; [lia| |rewrite B3, A3; set_solver]. intros fd [Hfd|Hfd]%elem_of_union; [specialize (A2 fd Hfd)|specialize (B2 fd Hfd)]; lia.
Qed.

Lemma new_fd_opens t : opens t (new_fd t).2 {[(new_fd t).1]}.
Proof. cbn. split; cbn; [lia|set_solver by lia|set_solver]. Qed.

Lemma opens_disjoint t1 t2 t3 s1 s2 : opens t1 t2 s1 -> opens t2 t3 s2 -> s1 ## s2.
Proof. intros [A1 A2 A3] [B1 B2 B3] fd H1 H2. specialize (A2 fd H1). specialize (B2 fd H2). lia. Qed.

(** Closing what has been opened. *)
Lemma opens_close t t' s : below_next t (open_fds t) -> opens t t' s -> open_fds (close_fds s t') = open_fds t /\ next_fd t <= next_fd (close_fds s t').
Proof.
  intros Hb [H1 H2 H3]. cbn. split; [|done]. rewrite H3. apply set_eq. intros fd. specialize (Hb fd). specialize (H2 fd). split; [set_solver|].
  intros Hfd. apply elem_of_difference. split; [set_solver|]. intros Hs. specialize (H2 Hs). specialize (Hb Hfd). lia.
Qed.

Lemma new_pipe_opens t r w t' : new_pipe t = ((r, w), t') -> opens t t' {[r; w]} /\ r <> w.
Proof.
  unfold new_pipe, new_fd. intros [= <- <- <-]. split; [|lia]. split; cbn; [lia| |set_solver].
  intros fd [?%elem_of_singleton|?%elem_of_singleton]%elem_of_union; lia.
Qed.

Lemma below_opens t t' s : below_next t (open_fds t) -> opens t t' s -> below_next t' (open_fds t').
Proof.
  intros Hb [H1 H2 H3] fd. rewrite H3. intros [Hfd|Hfd]%elem_of_union; [specialize (Hb fd Hfd)|specialize (H2 fd Hfd)]; lia.
Qed.

(** Nothing is left open. *)
Definition restored (t t' : fd_table) : Prop := open_fds t' = open_fds t /\ next_fd t <= next_fd t'.

Lemma newStreamHandle_spec mode p c t t' o : below_next t (open_fds t) -> newStreamHandle mode p c t = (t', o) ->
  match o with Some h => opens t t' (stream_fds h) /\ of_option (reader h) ## writers_of h | None => restored t t' end.
Proof.
  intros Hb. unfold newStreamHandle. destruct (IsStreamModeEnabled mode); [destruct p; [|by intros [= <- <-]]|].
  - destruct (new_pipe t) as [[r w] t1] eqn:Hp. apply new_pipe_opens in Hp as [Ho Hrw]. destruct (IsFileModeEnabled mode).
    + destruct c; cbn.
      * intros [= <- <-]. pose proof (new_fd_opens t1) as Hf. pose proof (opens_disjoint _ _ _ _ _ Ho Hf) as Hd. pose proof (opens_trans _ _ _ _ _ Ho Hf) as Ht.
        cbn in Hf, Hd, Ht. unfold stream_fds, writers_of. cbn [of_option reader writer file]. split; [|set_solver].
        rewrite (assoc_L (∪)). exact Ht.
      * intros [= <- <-]. apply (opens_close t t1). { done. } unfold stream_fds, writers_of. cbn [of_option reader writer file]. by rewrite (right_id_L ∅ (∪)).
    + intros [= <- <-]. unfold stream_fds, writers_of. cbn [of_option reader writer file]. rewrite (right_id_L ∅ (∪)). split; [done|set_solver].
  - destruct (IsFileModeEnabled mode); [destruct c; cbn|].
    + intros [= <- <-]. pose proof (new_fd_opens t) as Hf. unfold stream_fds, writers_of. cbn [of_option reader writer file]. rewrite !(left_id_L ∅ (∪)). split; [done|set_solver].
    + intros [= <- <-]. split; cbn; [set_solver|done].
    + intros [= <- <-]. unfold stream_fds, writers_of. cbn [of_option reader writer file]. rewrite !(left_id_L ∅ (∪)). split; [apply opens_refl|set_solver].
Qed.

Lemma newRedirectHandle_spec mode p t t' o : newRedirectHandle mode p t = (t', o) ->
  match o with Some r => opens t t' (pipe_fds r) | None => t' = t end.
Proof.
  unfold newRedirectHandle. destruct mode; [intros [= <- <-]; apply opens_refl| |by intros [= <- <-]]. destruct p; [|by intros [= <- <-]].
  destruct (new_pipe t) as [[r w] t1] eqn:Hp. intros [= <- <-]. by apply new_pipe_opens in Hp as [? _].
Qed.

(** Closing [s] after something else has been restored. *)
Lemma restored_close t t' t1 s : below_next t (open_fds t) -> opens t t' s -> restored t' t1 -> restored t (close_fds s t1).
Proof.
  intros Hb Ho [H1 H2]. destruct (opens_close t t' s Hb Ho) as [H3 H4]. split; cbn in *; [by rewrite H1|lia].
Qed.

Lemma open_handles_spec sp a pid t t' r : below_next t (open_fds t) ->
  forall t0, below_next t0 (open_fds t0) -> opens t0 t (pipe_fds pid) -> open_handles sp a pid t = (t', r) ->
  match r with Ok h => opens t0 t' (handle_fds h) /\ handles_ok h | Err _ => restored t0 t' end.
Proof.
  intros Hb t0 Hb0 Hpid. assert (restored t t) as Hrefl by done. unfold open_handles. destruct (build_ok a); cbn [negb]; [|intros [= <- <-]; by eapply restored_close].
  destruct (newStreamHandle (Mode (Stdout sp)) _ _ t) as [t1 [out|]] eqn:H1; apply newStreamHandle_spec in H1; [|done|intros [= <- <-]; by eapply restored_close|done].
  destruct H1 as [Ho1 Hd1]. pose proof (below_opens _ _ _ Hb Ho1) as Hb1.
  destruct (newStreamHandle (Mode (Stderr sp)) _ _ t1) as [t2 [err|]] eqn:H2; apply newStreamHandle_spec in H2;
    [|done|intros [= <- <-]; eapply restored_close; [done|done|]; by eapply restored_close|done].
  destruct H2 as [Ho2 Hd2]. pose proof (below_opens _ _ _ Hb1 Ho2) as Hb2.
  destruct (newRedirectHandle _ _ t2) as [t3 [redirect|]] eqn:H3; apply newRedirectHandle_spec in H3; intros [= <- <-].
  - pose proof (opens_trans _ _ _ _ _ Ho1 Ho2) as H12. pose proof (opens_trans _ _ _ _ _ H12 H3) as H123. pose proof (opens_trans _ _ _ _ _ Hpid H123) as Hall.
    split; [|split; cbn [h_out h_err h_in h_pid]; [done|done| | |]].
    + unfold handle_fds, stdio_fds. cbn [h_out h_err h_in h_pid]. by rewrite (comm_L (∪) _ (pipe_fds pid)).
    + by eapply opens_disjoint.
    + symmetry. by eapply opens_disjoint.
    + by eapply opens_disjoint.
  - subst t3. eapply restored_close; [done|done|]. destruct (opens_close t1 t2 _ Hb1 Ho2) as [E1 E2].
    assert (close_fds (stream_fds err) (close_fds (stream_fds out) t2) = close_fds (stream_fds out) (close_fds (stream_fds err) t2)) as ->.
    { unfold close_fds. cbn. f_equal. set_solver. }
    eapply restored_close; [done|done|]. by split.
Qed.

Lemma prepare_spec sp a t t' r : below_next t (open_fds t) -> prepare sp a t = (t', r) ->
  match r with Ok (_, h) => opens t t' (handle_fds h) /\ handles_ok h | Err _ => restored t t' end.
Proof.
  intros Hb. unfold prepare. destruct (_ ≫= _) as [[out err]|]; [|by intros [= <- <-]]. destruct (_ && _ && _); [by intros [= <- <-]|].
  destruct (UseGroupController sp).
  - destruct (executable a); [|by intros [= <- <-]]. destruct (pid_pipe_ok a); cbn [negb]; [|by intros [= <- <-]].
    destruct (new_pipe t) as [[r1 w1] t1] eqn:Hp. apply new_pipe_opens in Hp as [Hp _]. destruct (open_handles sp a _ t1) as [t2 [h|e]] eqn:Ho;
      eapply open_handles_spec in Ho; [|by eapply below_opens|exact Hb|exact Hp| |by eapply below_opens|exact Hb|exact Hp]; by intros [= <- <-].
  - destruct (open_handles sp a None t) as [t2 [h|e]] eqn:Ho; eapply open_handles_spec in Ho; [|done|exact Hb|apply opens_refl| |done|exact Hb|apply opens_refl];
      by intros [= <- <-].
Qed.

(** ** What is open is accounted for *)

Record fds_inv (base : gset nat) (m : manager) : Prop := {
  fi_below : below_next (table m) (open_fds (table m));
  fi_base : below_next (table m) base;
  fi_handles : forall id c, calls m !! id = Some c ->
    handles_ok (c_handles c) /\ below_next (table m) (handle_fds (c_handles c)) /\ handle_fds (c_handles c) ## base;
  fi_disjoint : forall id1 id2 c1 c2, calls m !! id1 = Some c1 -> calls m !! id2 = Some c2 -> id1 <> id2 ->
    handle_fds (c_handles c1) ## handle_fds (c_handles c2);
  fi_open : forall fd, fd ∈ open_fds (table m) <-> fd ∈ base \/ exists id c, calls m !! id = Some c /\ fd ∈ held c
}.

Lemma phase_fds_sub ph h : phase_fds ph h ⊆ handle_fds h.
Proof. destruct ph; cbn; unfold readers_of, handle_fds, stdio_fds, stream_fds; set_solver. Qed.

Lemma held_sub c : held c ⊆ handle_fds (c_handles c).
Proof. unfold held. pose proof (phase_fds_sub (c_phase c) (c_handles c)). set_solver. Qed.

Lemma close_nothing t : close_fds ∅ t = t.
Proof. destruct t as [n s]. unfold close_fds. cbn. by rewrite difference_empty_L. Qed.

Section Accounting.

Context (base : gset nat).

Lemma fds_same m m1 : table m1 = table m -> calls m1 = calls m -> fds_inv base m -> fds_inv base m1.
Proof. intros Ht Hc [I1 I2 I3 I4 I5]. split; rewrite ?Ht, ?Hc; done. Qed.

(** A call goes on and closes some of its handles. *)
Lemma fds_call m m1 id c c' F : calls m !! id = Some c -> calls m1 = calls m -> table m1 = close_fds F (table m) ->
  c_handles c' = c_handles c -> F ⊆ handle_fds (c_handles c) -> (handles_ok (c_handles c) -> held c' = held c ∖ F) ->
  fds_inv base m -> fds_inv base (set_call id c' m1).
Proof.
  intros Hc Hcalls Ht Hh HF Hheld [I1 I2 I3 I4 I5]. destruct (I3 id c Hc) as (Hok & Hbelow & Hbase). specialize (Hheld Hok).
  assert (forall i d, <[id := c']> (calls m) !! i = Some d -> exists d0, calls m !! i = Some d0 /\ c_handles d = c_handles d0) as Hold.
  { intros i d. destruct (decide (i = id)) as [->|]; [rewrite lookup_insert_eq; intros [= <-]; eauto|rewrite lookup_insert_ne by done; eauto]. }
  split; cbn [table calls set_call]; rewrite ?Hcalls, ?Ht; cbn.
  - intros fd Hfd. apply I1. set_solver.
  - done.
  - intros i d Hd. destruct (Hold i d Hd) as (d0 & Hd0 & ->). by apply (I3 i).
  - intros i1 i2 d1 d2 H1 H2 Hne. destruct (Hold _ _ H1) as (e1 & He1 & ->), (Hold _ _ H2) as (e2 & He2 & ->). by eapply I4.
  - intros fd. rewrite elem_of_difference, I5. split.
    + intros [[Hb|(i & d & Hd & Hfd)] HnF]; [by left|right]. destruct (decide (i = id)) as [->|Hne].
      * exists id, c'. rewrite lookup_insert_eq. split; [done|]. simplify_eq. rewrite Hheld. set_solver.
      * exists i, d. by rewrite lookup_insert_ne.
    + intros [Hb|(i & d & Hd & Hfd)]; [split; [by left|set_solver]|]. destruct (decide (i = id)) as [->|Hne].
      * rewrite lookup_insert_eq in Hd. injection Hd as <-. rewrite Hheld in Hfd. split; [right; exists id, c; set_solver|set_solver].
      * rewrite lookup_insert_ne in Hd by done. split; [right; eauto|]. intros HfF.
        apply (I4 i id d c Hd Hc Hne fd); [by apply held_sub|by apply HF].
Qed.

(** A new call with new handles. *)
Lemma fds_new m t id k h : calls m !! id = None -> opens (table m) t (handle_fds h) -> handles_ok h ->
  fds_inv base m -> fds_inv base (set_call id (new_call k h) (set_table t m)).
Proof.
  intros Hid Ho Hok [I1 I2 I3 I4 I5]. pose proof Ho as [O1 O2 O3].
  assert (forall s, below_next (table m) s -> below_next t s /\ handle_fds h ## s) as Hb.
  { intros s Hs. split; [intros fd Hfd; specialize (Hs fd Hfd); lia|]. intros fd H1 H2. specialize (O2 fd H1). specialize (Hs fd H2). lia. }
  assert (held (new_call k h) = handle_fds h) as Hheld.
  { unfold held, client_closed. cbn. set_solver. }
  split; cbn [table calls set_call set_table].
  - by eapply below_opens.
  - by apply Hb.
  - intros i c. destruct (decide (i = id)) as [->|Hne]; [rewrite lookup_insert_eq; intros [= <-]|rewrite lookup_insert_ne by done].
    + cbn [c_handles new_call]. split_and!; [done| |by apply Hb]. intros fd Hfd. by apply O2.
    + intros Hc. destruct (I3 i c Hc) as (? & Hbl & ?). split_and!; [done|by apply Hb|done].
  - intros i1 i2 c1 c2. destruct (decide (i1 = id)) as [->|], (decide (i2 = id)) as [->|]; rewrite ?lookup_insert_eq, ?lookup_insert_ne by done; try done.
    + intros [= <-] Hc2 _. cbn. apply Hb. by apply (I3 i2).
    + intros Hc1 [= <-] _. symmetry. cbn. apply Hb. by apply (I3 i1).
    + apply I4.
  - intros fd. rewrite O3, elem_of_union, I5. split.
    + intros [[?|(i & c & Hc & Hfd)]|Hfd]; [by left|right; exists i, c|right; exists id, (new_call k h)].
      * by rewrite lookup_insert_ne by (intros ->; congruence).
      * rewrite lookup_insert_eq, Hheld. done.
    + intros [?|(i & c & Hc & Hfd)]; [by left; left|]. destruct (decide (i = id)) as [->|Hne].
      * rewrite lookup_insert_eq in Hc. injection Hc as <-. rewrite Hheld in Hfd. by right.
      * rewrite lookup_insert_ne in Hc by done. left. right. eauto.
Qed.

(** What a call holds after it has closed some of its handles. *)
Lemma held_same c c' : phase_fds (c_phase c') (c_handles c) = phase_fds (c_phase c) (c_handles c) -> c_handles c' = c_handles c ->
  client_closed c' = client_closed c -> held c' = held c ∖ ∅.
Proof. intros H1 H2 H3. unfold held. rewrite H2, H3, H1. by rewrite difference_empty_L. Qed.

Lemma held_failed c : held (with_phase Failed c) = held c ∖ handle_fds (c_handles c).
Proof. unfold held at 1. cbn [phase_fds c_phase with_phase]. pose proof (held_sub c). set_solver. Qed.

Lemma held_returned c pid : phase_fds (c_phase c) (c_handles c) = handle_fds (c_handles c) -> handles_ok (c_handles c) ->
  held (with_phase (Launched pid) c) = held c ∖ pipe_fds (h_pid (c_handles c)).
Proof.
  intros Hph Hok. unfold held. rewrite Hph. cbn [phase_fds c_phase with_phase c_handles]. change (client_closed (with_phase _ c)) with (client_closed c).
  pose proof (ok_pid _ Hok). unfold handle_fds. set_solver.
Qed.

Lemma held_closed c pid : phase_fds (c_phase c) (c_handles c) = stdio_fds (c_handles c) -> handles_ok (c_handles c) ->
  held (with_phase (Closed pid) c) = held c ∖ exit_fds (c_handles c).
Proof.
  intros Hph [H1 H2 H3 H4 _]. unfold held. rewrite Hph. cbn [phase_fds c_phase with_phase c_handles]. change (client_closed (with_phase _ c)) with (client_closed c).
  unfold stdio_fds, exit_fds, readers_of, stream_fds in *. set_solver.
Qed.

Lemma held_drained err c r : use_of err c = Draining -> reader (if err : bool then h_err (c_handles c) else h_out (c_handles c)) = Some r ->
  held (with_use err Drained c) = held c ∖ {[r]}.
Proof.
  intros Hu Hr. unfold held, client_closed. destruct err; cbn in *; rewrite Hu, Hr; cbn; set_solver.
Qed.

Lemma held_stdin c : held (with_in_closed c) = held c ∖ pipe_fds (h_in (c_handles c)).
Proof. unfold held, client_closed. cbn. destruct (in_closed c); set_solver. Qed.

(** A call that moves and closes nothing. *)
Lemma fds_moves m m1 id c c' : calls m !! id = Some c -> calls m1 = calls m -> table m1 = table m -> c_handles c' = c_handles c ->
  phase_fds (c_phase c') (c_handles c) = phase_fds (c_phase c) (c_handles c) -> client_closed c' = client_closed c ->
  fds_inv base m -> fds_inv base (set_call id c' m1).
Proof.
  intros Hc Hcalls Ht Hh Hph Hcl. apply (fds_call m m1 id c c' ∅); [done|done|by rewrite close_nothing|done|set_solver|]. intros _. by apply held_same.
Qed.

Lemma fds_restored m t : restored (table m) t -> fds_inv base m -> fds_inv base (set_table t m).
Proof.
  intros [H1 H2] [I1 I2 I3 I4 I5]. assert (forall s, below_next (table m) s -> below_next t s) as Hb by (intros s Hs fd Hfd; specialize (Hs fd Hfd); lia).
  split; cbn [table calls set_table]; rewrite ?H1; auto. intros id c Hc. destruct (I3 id c Hc) as (? & ? & ?). auto.
Qed.

Lemma fds_step m m' : fds_inv base m -> step m m' -> fds_inv base m'.
Proof.
  intros Hi Hs. destruct Hs; unfold moves, launch.
  all: try match goal with H : incrementWaitGroup _ = _ |- _ => apply incrementWaitGroup_spec in H as (Hcalls & _ & Ht & _) end.
  all: try (eapply fds_same; [| |exact Hi]; first [done | apply signal_process_same | apply send_shutdown_same]; fail).
  all: try (eapply fds_moves; [eassumption|..|exact Hi]; [by rewrite ?Hcalls|by rewrite ?Ht|phases..]; fail).
  all: try (eapply fds_call; [eassumption|..|exact Hi]; [by rewrite ?Hcalls|cbn; by rewrite ?Ht|done|done|intros _; apply held_failed]; fail).
  - pose proof (prepare_spec _ _ _ _ _ (fi_below _ _ Hi) H0) as [Ho Hok]. by apply fds_new.
  - pose proof (prepare_spec _ _ _ _ _ (fi_below _ _ Hi) H) as Hr. by apply fds_restored.
  - replace m with (set_table (table m) m) at 2 by (by destruct m). apply fds_new; [done| | |done].
    + replace (handle_fds no_handles) with (∅ : gset nat) by (vm_compute; reflexivity). apply opens_refl.
    + split; vm_compute; intros; set_solver.
  - eapply (fds_call m _ id c _ ∅); [eassumption|done|cbn; by rewrite close_nothing|done|set_solver| |exact Hi].
    intros Hok. rewrite held_returned by (by rewrite ?H0). by rewrite H1.
  - eapply fds_call; [eassumption|done|done|done| | |exact Hi]; [unfold handle_fds; set_solver|].
    intros Hok. apply held_returned; [by rewrite H0|done].
  - destruct (send_shutdown_same st pid m) as (_ & _ & _ & Htab & Hc & _). eapply fds_moves; [eassumption|exact Hc|exact Htab|phases..|exact Hi].
  - eapply fds_call; [eassumption|done|done|done| | |exact Hi]; [unfold handle_fds, exit_fds, stdio_fds, stream_fds; set_solver|].
    intros Hok. apply held_closed; [by rewrite H0|done].
  - eapply fds_moves; [eassumption|done|done|done| |done|exact Hi]. rewrite H0. by destruct (c_kind c).
  - destruct (stream_of_call _ _ _ _ _ _ H) as (_ & Hc & _). eapply fds_moves; [exact Hc|done|done|done|done| |exact Hi].
    unfold client_closed. destruct err; cbn in *; by rewrite H0.
  - eapply fds_call; [eassumption|done|done|done| | |exact Hi]; [|intros _; by apply held_drained].
    unfold handle_fds, stdio_fds, stream_fds. destruct err; rewrite H1; cbn; set_solver.
  - eapply fds_call; [eassumption|done|done|done| | |exact Hi]; [unfold handle_fds, stdio_fds; set_solver|intros _; apply held_stdin].
Qed.

End Accounting.

(** C31: whatever fails on the way, a pipe or file is open exactly when it was open before the
    manager started or belongs to a call that has not closed it: a call that failed before its
    process was started has nothing open, and one that has finished at most the readers of
    streams that were not drained. No handle belongs to two calls. *)
Theorem handles_are_accounted t m : below_next t (open_fds t) -> rtc step (newProcessCommon t) m ->
  (forall fd, fd ∈ open_fds (table m) <-> fd ∈ open_fds t \/ exists id c, calls m !! id = Some c /\ fd ∈ held c) /\
  (forall id c, calls m !! id = Some c -> match c_phase c with
    | Failed => held c = ∅
    | Finished => held c ⊆ readers_of (c_handles c) /\ held c ## client_closed c
    | _ => True
    end) /\
  (forall id1 id2 c1 c2, calls m !! id1 = Some c1 -> calls m !! id2 = Some c2 -> id1 <> id2 -> held c1 ## held c2).
Proof.
  intros Ht Hs. assert (fds_inv (open_fds t) m) as Hi.
  { assert (fds_inv (open_fds t) (newProcessCommon t)) as H0.
    { split; cbn; try done; try (intros; by rewrite lookup_empty in *). intros fd. split; [by left|]. intros [?|(id & c & Hc & _)]; [done|by rewrite lookup_empty in Hc]. }
    clear Ht. induction Hs as [|m1 m2 m3 H1 _ IH]; [done|]. apply IH. by eapply fds_step. }
  split_and!; [apply Hi| |].
  - intros id c Hc. destruct (c_phase c) eqn:Hph; try done; unfold held; rewrite Hph; cbn; set_solver.
  - intros id1 id2 c1 c2 H1 H2 Hne fd Hf1 Hf2. apply (fi_disjoint _ _ Hi id1 id2 c1 c2 H1 H2 Hne fd); by apply held_sub.
Qed.

Lemma handles_are_accounted_witness :
  (forall fd, fd ∈ open_fds (table s_returned) <-> fd ∈ open_fds sample_fds \/ exists id c, calls s_returned !! id = Some c /\ fd ∈ held c) /\
  (forall id c, calls s_returned !! id = Some c -> match c_phase c with
    | Failed => held c = ∅
    | Finished => held c ⊆ readers_of (c_handles c) /\ held c ## client_closed c
    | _ => True
    end) /\
  (forall id1 id2 c1 c2, calls s_returned !! id1 = Some c1 -> calls s_returned !! id2 = Some c2 -> id1 <> id2 -> held c1 ## held c2).
Proof.
  refine (handles_are_accounted sample_fds s_returned _ returned_reachable).
  intros fd Hfd. change (open_fds sample_fds) with ({[0; 1; 2]} : gset nat) in Hfd. change (next_fd sample_fds) with 3. set_unfold. lia.
Defined.
