(* ===== verification/Regexp.v ===== *)
(** * Performix: regular expressions

    The part of Go's [regexp] syntax that the program's anchored patterns use, with the
    leftmost-first choice of submatches. A repetition is over a class of characters, so
    matching is structural and always ends. *)

From S2P Require Import Prelude.
From S2P Require Import GoStrings.
From Stdlib Require Import Ascii.

(** [RRep p least greedy]: [p+] when [least] is set, else [p*]; lazy when not [greedy]. *)
Inductive rx :=
| REps
| RChr (p : ascii -> bool)
| RSeq (a b : rx)
| ROpt (a : rx)
| RAlt (a b : rx)
| RRep (p : ascii -> bool) (least greedy : bool)
| RCap (n : nat) (a : rx)
| REnd.

Definition captures := gmap nat string.

(** [l] without its suffix [rest]. *)
Definition consumed (s rest : string) : string := stake (String.length s - String.length rest) s.

(** Repetition: [k] is tried before or after taking one more character. *)
Fixpoint rep (p : ascii -> bool) (greedy : bool) (k : string -> option captures) (s : string) : option captures :=
  match s with
  | EmptyString => k EmptyString
  | String c s' =>
      if p c then
        if greedy then match rep p greedy k s' with Some r => Some r | None => k s end
        else match k s with Some r => Some r | None => rep p greedy k s' end
      else k s
  end.

(** Matches [r] at the start of [s] and goes on with [k] on the rest. *)
Fixpoint rx_match (r : rx) (s : string) (caps : captures) (k : string -> captures -> option captures) : option captures :=
  match r with
  | REps => k s caps
  | RChr p => match s with String c s' => if p c then k s' caps else None | EmptyString => None end
  | RSeq a b => rx_match a s caps (fun s1 c1 => rx_match b s1 c1 k)
  | ROpt a => match rx_match a s caps k with Some x => Some x | None => k s caps end
  | RAlt a b => match rx_match a s caps k with Some x => Some x | None => rx_match b s caps k end
  | RRep p least greedy =>
      let k' rest := k rest caps in
      if least then match s with String c s' => if p c then rep p greedy k' s' else None | EmptyString => None end
      else rep p greedy k' s
  | RCap n a => rx_match a s caps (fun rest c1 => k rest (<[n := consumed s rest]> c1))
  | REnd => match s with EmptyString => k s caps | _ => None end
  end.

(** [FindStringSubmatch] of a pattern that starts with [^]. *)
Definition FindSubmatch (r : rx) (s : string) : option captures := rx_match r s ∅ (fun _ caps => Some caps).

(** The submatch [n], empty when the group took no part. *)
Definition submatch (caps : captures) (n : nat) : string := default EmptyString (caps !! n).

Definition dot (c : ascii) : bool := negb (Ascii.eqb c "010").
Definition is_space_class (c : ascii) : bool :=
  Ascii.eqb c " " || Ascii.eqb c "009" || Ascii.eqb c "010" || Ascii.eqb c "012" || Ascii.eqb c "013".
Definition is_word (c : ascii) : bool := between 97 122 c || between 65 90 c || is_digit c || Ascii.eqb c "_".

Fixpoint RLit (s : string) : rx :=
  match s with
  | EmptyString => REps
  | String c s' => RSeq (RChr (Ascii.eqb c)) (RLit s')
  end.

Fixpoint RSeqs (l : list rx) : rx := match l with [] => REps | r :: l' => RSeq r (RSeqs l') end.

Definition RPlus (p : ascii -> bool) : rx := RRep p true true.
Definition RStar (p : ascii -> bool) : rx := RRep p false true.
Definition RPlusLazy (p : ascii -> bool) : rx := RRep p true false.

Example greedy_last : (fun c => submatch c 0) <$> FindSubmatch (RSeqs [RCap 0 (RStar dot); RLit ") = "; RStar dot]) "a) = b) = c" = Some "a) = b".
Proof. vm_compute. reflexivity. Qed.

(** ** What a match means *)

(** The language of a pattern: [matches r s rest] when [r] can consume [s] up to [rest]. *)
Inductive matches : rx -> string -> string -> Prop :=
| m_eps s : matches REps s s
| m_chr p c s : p c = true -> matches (RChr p) (String c s) s
| m_seq a b s s1 s2 : matches a s s1 -> matches b s1 s2 -> matches (RSeq a b) s s2
| m_opt_none a s : matches (ROpt a) s s
| m_opt_some a s s1 : matches a s s1 -> matches (ROpt a) s s1
| m_alt_l a b s s1 : matches a s s1 -> matches (RAlt a b) s s1
| m_alt_r a b s s1 : matches b s s1 -> matches (RAlt a b) s s1
| m_rep p least greedy t rest : sall p t = true -> (least = true -> t <> EmptyString) ->
    matches (RRep p least greedy) (t +:+ rest) rest
| m_cap n a s s1 : matches a s s1 -> matches (RCap n a) s s1
| m_end : matches REnd EmptyString EmptyString.

Lemma rep_sound p greedy k s r : rep p greedy k s = Some r ->
  exists t rest, s = t +:+ rest /\ sall p t = true /\ k rest = Some r.
Proof.
  assert (forall s r, k s = Some r -> exists t rest, s = t +:+ rest /\ sall p t = true /\ k rest = Some r) as Hnow.
  { intros s1 r1 Hk. exists EmptyString, s1. by rewrite sapp_nil_l. }
  revert r. induction s as [|c s IH]; intros r; cbn; [apply Hnow|].
  destruct (p c) eqn:Hp; [|apply Hnow].
  assert (rep p greedy k s = Some r -> exists t rest, String c s = t +:+ rest /\ sall p t = true /\ k rest = Some r) as Hlater.
  { intros (t & rest & -> & Ht & Hk)%IH. exists (String c t), rest. rewrite sapp_cons. cbn. by rewrite Hp. }
  destruct greedy.
  - destruct (rep p true k s) as [x|] eqn:Hr; [intros [= ->]; by apply Hlater|apply Hnow].
  - destruct (k (String c s)) as [x|] eqn:Hk; [intros [= ->]; by apply Hnow|apply Hlater].
Qed.

Lemma rep_complete p greedy k t rest : sall p t = true -> is_Some (k rest) -> is_Some (rep p greedy k (t +:+ rest)).
Proof.
  intros Ht Hk. induction t as [|c t IH].
  - rewrite sapp_nil_l. destruct rest as [|c rest]; cbn; [done|].
    destruct (p c); [|done]. destruct Hk as [x Hk]. rewrite Hk. destruct greedy; [destruct (rep p true k rest)|]; by eexists.
  - rewrite sapp_cons. cbn in *. apply andb_true_iff in Ht as [-> Ht]. destruct (IH Ht) as [x Hx].
    rewrite Hx. destruct greedy; [by exists x|]. destruct (k (String c (t +:+ rest))) as [y|]; [by exists y|by exists x].
Qed.

Lemma rx_match_sound r : forall s caps k x, rx_match r s caps k = Some x ->
  exists rest caps', matches r s rest /\ k rest caps' = Some x.
Proof.
  induction r; intros s caps k x; cbn.
  - intros Hk. exists s, caps. by split; [constructor|].
  - destruct s as [|c s]; [done|]. destruct (p c) eqn:Hp; [|done]. intros Hk. exists s, caps. by split; [constructor|].
  - intros (s1 & c1 & H1 & (s2 & c2 & H2 & Hk)%IHr2)%IHr1. exists s2, c2. split; [by econstructor|done].
  - destruct (rx_match r s caps k) as [y|] eqn:Hr.
    + intros [= ->]. apply IHr in Hr as (s1 & c1 & H1 & Hk). exists s1, c1. split; [by constructor|done].
    + intros Hk. exists s, caps. by split; [constructor|].
  - destruct (rx_match r1 s caps k) as [y|] eqn:Hr.
    + intros [= ->]. apply IHr1 in Hr as (s1 & c1 & H1 & Hk). exists s1, c1. split; [by constructor|done].
    + intros (s1 & c1 & H1 & Hk)%IHr2. exists s1, c1. split; [by constructor|done].
  - destruct least.
    + destruct s as [|c s]; [done|]. destruct (p c) eqn:Hp; [|done].
      intros (t & rest & -> & Ht & Hk)%rep_sound. exists rest, caps. split; [|done]. rewrite <- sapp_cons.
      constructor; [cbn; by rewrite Hp|done].
    + intros (t & rest & -> & Ht & Hk)%rep_sound. exists rest, caps. split; [by constructor|done].
  - intros (s1 & c1 & H1 & Hk)%IHr. exists s1. eexists. split; [by constructor|done].
  - destruct s; [|done]. intros Hk. exists EmptyString, caps. split; [constructor|done].
Qed.

Lemma rx_match_complete r : forall s rest caps k, matches r s rest ->
  (forall caps', is_Some (k rest caps')) -> is_Some (rx_match r s caps k).
Proof.
  induction r; intros s rest caps k Hm Hk; inversion Hm as [|? ? ? Hp| | | | | |? ? ? t ? Ht Hne| |]; subst; cbn; eauto.
  - rewrite Hp. apply Hk.
  - destruct (rx_match r rest caps k); [by eexists|eauto].
  - assert (is_Some (rx_match r s caps k)) as [x ->] by eauto. by eexists.
  - assert (is_Some (rx_match r1 s caps k)) as [x ->] by eauto. by eexists.
  - destruct (rx_match r1 s caps k); [by eexists|eauto].
  - destruct least; [|by apply rep_complete].
    destruct t as [|c t]; [by destruct Hne|]. cbn in Ht. apply andb_true_iff in Ht as [Hc Ht].
    rewrite sapp_cons, Hc. by apply rep_complete.
Qed.

(** The matcher decides the language of the pattern. *)
Lemma FindSubmatch_spec r s : is_Some (FindSubmatch r s) <-> exists rest, matches r s rest.
Proof.
  unfold FindSubmatch. split.
  - intros [x (rest & _ & H & _)%rx_match_sound]. by exists rest.
  - intros [rest H]. by eapply rx_match_complete.
Qed.
