(* ===== verification/SyscallTrace.v ===== *)
(** * Performix: the strace parser

    Models [core/apap-cli/tools-builtin/syscall-trace/source/parser.go] (lines of strace
    output) and [main.go] (pairing interrupted system calls, statistics, ordering). *)

From S2P Require Import Prelude.
From S2P Require Import GoStrings.
From S2P Require Import Regexp.
From Stdlib Require Import Ascii.

Local Open Scope Z_scope.

(** ** Patterns *)

(** [(?:\[pid\s+([0-9]+)\]\s+)?(?:(\d+)\s+)?], common to the patterns of lines. *)
Definition pid_prefix : rx := RSeqs [
  ROpt (RSeqs [RLit "[pid"; RPlus is_space_class; RCap 1 (RPlus is_digit); RLit "]"; RPlus is_space_class]);
  ROpt (RSeqs [RCap 2 (RPlus is_digit); RPlus is_space_class])].

(** [(\d+\.\d+)\s+] *)
Definition timestamp : rx :=
  RSeqs [RCap 3 (RSeqs [RPlus is_digit; RLit "."; RPlus is_digit]); RPlus is_space_class].

(** [\)\s+=\s+(.+?)(?:\s+<([0-9.]+)>)?$] *)
Definition result_suffix : rx := RSeqs [
  RLit ")"; RPlus is_space_class; RLit "="; RPlus is_space_class; RCap 6 (RPlusLazy dot);
  ROpt (RSeqs [RPlus is_space_class; RLit "<"; RCap 7 (RPlus (fun c => is_digit c || Ascii.eqb c ".")); RLit ">"]);
  REnd].

Definition lineRE : rx :=
  RSeqs [pid_prefix; timestamp; RCap 4 (RPlus is_word); RLit "("; RCap 5 (RStar dot); result_suffix].

Definition unfinishedRE : rx :=
  RSeqs [pid_prefix; timestamp; RCap 4 (RPlus is_word); RLit "("; RCap 5 (RStar dot); RLit "<unfinished ...>"; REnd].

Definition resumedRE : rx :=
  RSeqs [pid_prefix; ROpt timestamp; RLit "<..."; RPlus is_space_class; RCap 4 (RPlus is_word); RPlus is_space_class;
         RLit "resumed>"; RCap 5 (RStar dot); result_suffix].

(** [^-\d+\s+([A-Z][A-Z0-9_]+)(?:\s|$)] *)
Definition errnoRE : rx := RSeqs [
  RLit "-"; RPlus is_digit; RPlus is_space_class;
  RCap 1 (RSeqs [RChr (between 65 90); RPlus (fun c => between 65 90 c || is_digit c || Ascii.eqb c "_")]);
  RAlt (RChr is_space_class) REnd].

(** ** Events *)

Record traceEvent := {
  timestampUS : Z;
  pid : Z;
  syscall : string;
  args : string;
  durationUS : Z;
  hasDuration : bool;
  te_result : string;
  errno : string
}.

Record unfinishedTraceEvent := {
  u_timestampUS : Z;
  u_pid : Z;
  u_syscall : string;
  argsPrefix : string;
  u_lineNo : Z;
  u_line : string
}.

Record resumedTraceEvent := {
  r_pid : Z;
  r_syscall : string;
  argsSuffix : string;
  r_durationUS : Z;
  r_hasDuration : bool;
  r_result : string;
  r_errno : string
}.

(** The causes of parse failures. *)
Inductive time_error := ExpectedSecondsMicroseconds | InvalidSeconds | MissingMicroseconds | TooManyDigits (n : Z) | InvalidMicroseconds.

Inductive parse_error :=
| NoSyscallFormat
| InvalidTimestamp (raw : string) (cause : time_error)
| MissingPid
| InvalidPid (raw : string)
| InvalidDuration (raw : string) (cause : time_error)
| PidMismatch (resumed unfinished : Z)
| SyscallMismatch (resumed unfinished : string)
| ReplacedBeforeResumed
| ResumedWithoutUnfinished
| DidNotResume.

(** The status and payload of a parsed line. *)
Inductive parsedTraceLine :=
| parseLineParsed (event : traceEvent)
| parseLineUnfinished (event : unfinishedTraceEvent)
| parseLineResumed (event : resumedTraceEvent)
| parseLineFailed (err : parse_error).

(** ** Times *)

Fixpoint pad_zeros (n : nat) (raw : string) : string :=
  match n with O => raw | S n' => pad_zeros n' (raw +:+ "0") end.

Definition parseMicroseconds (raw : string) : result time_error Z :=
  if len raw =? 0 then Err MissingMicroseconds
  else if 6 <? len raw then Err (TooManyDigits (len raw))
  else or_err InvalidMicroseconds (ParseInt 64 (pad_zeros (6 - String.length raw) raw)).

(** [sec*1_000_000 + usec] wraps around. *)
Definition parseSecondsToMicroseconds (raw : string) : result time_error Z :=
  match Cut "." raw with
  | None => Err ExpectedSecondsMicroseconds
  | Some (secRaw, fracRaw) =>
      if (len secRaw =? 0) || (len fracRaw =? 0) then Err ExpectedSecondsMicroseconds
      else
        sec ← or_err InvalidSeconds (ParseInt 64 secRaw);
        usec ← parseMicroseconds fracRaw;
        Ok (wrap_int64 (wrap_int64 (sec * 1000000) + usec))
  end.

Definition epochToMicroseconds : string -> result time_error Z := parseSecondsToMicroseconds.
Definition parseDurationUS : string -> result time_error Z := parseSecondsToMicroseconds.

(** [defaultPID] is [None] when [hasDefaultPID] is false. *)
Definition parsePID (pidRaw0 numericPIDRaw : string) (defaultPID : option Z) : result parse_error Z :=
  let pidRaw := if len pidRaw0 =? 0 then numericPIDRaw else pidRaw0 in
  match (if len pidRaw =? 0 then defaultPID else None) with
  | Some p => Ok p
  | None => if len pidRaw =? 0 then Err MissingPid else or_err (InvalidPid pidRaw) (ParseInt 64 pidRaw)
  end.

Definition parseOptionalDuration (raw : string) : result parse_error (Z * bool) :=
  if len raw =? 0 then Ok (0, false)
  else match parseDurationUS raw with
       | Err e => Err (InvalidDuration raw e)
       | Ok d => Ok (d, true)
       end.

Definition parseErrno (result : string) : string :=
  match FindSubmatch errnoRE result with Some m => submatch m 1 | None => EmptyString end.

(** ** Lines *)

Definition parse_timestamp (raw : string) : result parse_error Z :=
  match epochToMicroseconds raw with Err e => Err (InvalidTimestamp raw e) | Ok t => Ok t end.

Definition parseCompletedMatch (m : captures) (defaultPID : option Z) : result parse_error traceEvent :=
  timestampUS ← parse_timestamp (submatch m 3);
  pid ← parsePID (submatch m 1) (submatch m 2) defaultPID;
  d ← parseOptionalDuration (submatch m 7);
  let result := TrimSpace (submatch m 6) in
  Ok {| timestampUS := timestampUS; pid := pid; syscall := submatch m 4; args := submatch m 5;
        durationUS := d.1; hasDuration := d.2; te_result := result; errno := parseErrno result |}.

(** The line is filled in by [parseTraceLine], its number by [collectTraceEvents]. *)
Definition parseUnfinishedMatch (m : captures) (defaultPID : option Z) (line : string) : result parse_error unfinishedTraceEvent :=
  timestampUS ← parse_timestamp (submatch m 3);
  pid ← parsePID (submatch m 1) (submatch m 2) defaultPID;
  Ok {| u_timestampUS := timestampUS; u_pid := pid; u_syscall := submatch m 4; argsPrefix := submatch m 5;
        u_lineNo := 0; u_line := line |}.

Definition parseResumedMatch (m : captures) (defaultPID : option Z) : result parse_error resumedTraceEvent :=
  pid ← parsePID (submatch m 1) (submatch m 2) defaultPID;
  d ← parseOptionalDuration (submatch m 7);
  let result := TrimSpace (submatch m 6) in
  Ok {| r_pid := pid; r_syscall := submatch m 4; argsSuffix := submatch m 5;
        r_durationUS := d.1; r_hasDuration := d.2; r_result := result; r_errno := parseErrno result |}.

Definition parseTraceLine (line0 : string) (defaultPID : option Z) : parsedTraceLine :=
  let line := TrimSpace line0 in
  match FindSubmatch unfinishedRE line with
  | Some m => match parseUnfinishedMatch m defaultPID line with
              | Err e => parseLineFailed e | Ok u => parseLineUnfinished u end
  | None =>
      match FindSubmatch resumedRE line with
      | Some m => match parseResumedMatch m defaultPID with
                  | Err e => parseLineFailed e | Ok r => parseLineResumed r end
      | None =>
          match FindSubmatch lineRE line with
          | None => parseLineFailed NoSyscallFormat
          | Some m => match parseCompletedMatch m defaultPID with
                      | Err e => parseLineFailed e | Ok ev => parseLineParsed ev end
          end
      end
  end.

Example parse_completed :
  parseTraceLine "[pid 12] 1700000000.000123 openat(AT_FDCWD, (x) = 1) = -1 ENOENT (No such file) <0.25>" None =
  parseLineParsed {| timestampUS := 1700000000000123; pid := 12; syscall := "openat"; args := "AT_FDCWD, (x) = 1";
                     durationUS := 250000; hasDuration := true; te_result := "-1 ENOENT (No such file)"; errno := "ENOENT" |}.
Proof. vm_compute. reflexivity. Qed.

Fixpoint TrimRight (p : ascii -> bool) (s : string) : string :=
  match s with
  | EmptyString => EmptyString
  | String c s' => match TrimRight p s' with
                   | EmptyString => if p c then EmptyString else String c EmptyString
                   | t => String c t
                   end
  end.

Definition combineResumedArgs (prefix suffix : string) : string :=
  if len suffix =? 0 then TrimRight (fun c => Ascii.eqb c " " || Ascii.eqb c "009") prefix else prefix +:+ suffix.

Definition finishResumedSyscall (u : unfinishedTraceEvent) (r : resumedTraceEvent) : result parse_error traceEvent :=
  if negb (u_pid u =? r_pid r) then Err (PidMismatch (r_pid r) (u_pid u))
  else if negb (bool_decide (u_syscall u = r_syscall r)) then Err (SyscallMismatch (r_syscall r) (u_syscall u))
  else Ok {| timestampUS := u_timestampUS u; pid := u_pid u; syscall := u_syscall u;
             args := combineResumedArgs (argsPrefix u) (argsSuffix r);
             durationUS := r_durationUS r; hasDuration := r_hasDuration r; te_result := r_result r; errno := r_errno r |}.

(** ** Collecting the events of a file *)

Definition maxParseFailureExamples : nat := 10.

Record example := { e_source : string; e_lineNo : Z; e_err : parse_error; e_line : string }.

Record parseTraceStats := {
  parsed : Z;
  failed : Z;
  unfinished : Z;
  resumed : Z;
  unmatchedResumed : Z;
  droppedUnfinished : Z;
  examples : list example
}.

Definition recordFailure (s : parseTraceStats) (e : example) : parseTraceStats :=
  {| parsed := parsed s; failed := failed s + 1; unfinished := unfinished s; resumed := resumed s;
     unmatchedResumed := unmatchedResumed s; droppedUnfinished := droppedUnfinished s;
     examples := if (maxParseFailureExamples <=? length (examples s))%nat then examples s else examples s ++ [e] |}.

(** Increments of the counters, in the order of the fields but [failed]. *)
Definition bump (s : parseTraceStats) (dp du dr dm dd : Z) : parseTraceStats :=
  {| parsed := parsed s + dp; failed := failed s; unfinished := unfinished s + du; resumed := resumed s + dr;
     unmatchedResumed := unmatchedResumed s + dm; droppedUnfinished := droppedUnfinished s + dd; examples := examples s |}.

Record collect_state := {
  events : list traceEvent;
  stats : parseTraceStats;
  unfinishedByPID : gmap Z unfinishedTraceEvent;
  lineNo : Z
}.

Definition numbered (u : unfinishedTraceEvent) (n : Z) : unfinishedTraceEvent :=
  {| u_timestampUS := u_timestampUS u; u_pid := u_pid u; u_syscall := u_syscall u; argsPrefix := argsPrefix u;
     u_lineNo := n; u_line := u_line u |}.

(** The body of the loop, on what the line parsed to. *)
Definition collect_line (source : string) (st : collect_state) (line : string) (p : parsedTraceLine) : collect_state :=
  let n := lineNo st + 1 in
  match p with
  | parseLineParsed e =>
      {| events := events st ++ [e]; stats := bump (stats st) 1 0 0 0 0; unfinishedByPID := unfinishedByPID st; lineNo := n |}
  | parseLineUnfinished u0 =>
      let u := numbered u0 n in
      let s1 := bump (stats st) 0 1 0 0 0 in
      let s2 := match unfinishedByPID st !! u_pid u with
                | None => s1
                | Some existing => recordFailure (bump s1 0 0 0 0 1)
                    {| e_source := source; e_lineNo := u_lineNo existing; e_err := ReplacedBeforeResumed; e_line := u_line existing |}
                end in
      {| events := events st; stats := s2; unfinishedByPID := <[u_pid u := u]> (unfinishedByPID st); lineNo := n |}
  | parseLineResumed r =>
      match unfinishedByPID st !! r_pid r with
      | None =>
          {| events := events st;
             stats := recordFailure (bump (stats st) 0 0 0 1 0)
               {| e_source := source; e_lineNo := n; e_err := ResumedWithoutUnfinished; e_line := line |};
             unfinishedByPID := unfinishedByPID st; lineNo := n |}
      | Some u =>
          match finishResumedSyscall u r with
          | Err e =>
              {| events := events st;
                 stats := recordFailure (bump (stats st) 0 0 0 1 0)
                   {| e_source := source; e_lineNo := n; e_err := e; e_line := line |};
                 unfinishedByPID := delete (r_pid r) (unfinishedByPID st); lineNo := n |}
          | Ok ev =>
              {| events := events st ++ [ev]; stats := bump (stats st) 1 0 1 0 0;
                 unfinishedByPID := delete (r_pid r) (unfinishedByPID st); lineNo := n |}
          end
      end
  | parseLineFailed e =>
      {| events := events st;
         stats := recordFailure (stats st) {| e_source := source; e_lineNo := n; e_err := e; e_line := line |};
         unfinishedByPID := unfinishedByPID st; lineNo := n |}
  end.

Definition collect_lines (source : string) (defaultPID : option Z) (st : collect_state) (lines : list string) : collect_state :=
  foldl (fun st line => collect_line source st line (parseTraceLine line defaultPID)) st lines.

Definition drop_unfinished (source : string) (s : parseTraceStats) (u : unfinishedTraceEvent) : parseTraceStats :=
  recordFailure (bump s 0 0 0 0 1) {| e_source := source; e_lineNo := u_lineNo u; e_err := DidNotResume; e_line := u_line u |}.

(** [order] is the order in which [range] visits the calls left in the map. Reading errors
    of the scanner are not modelled: [lines] are the lines it yields. *)
Definition collectTraceEvents (order : gmap Z unfinishedTraceEvent -> list unfinishedTraceEvent)
    (lines : list string) (s : parseTraceStats) (source : string) (defaultPID : option Z) : list traceEvent * parseTraceStats :=
  let st := collect_lines source defaultPID {| events := []; stats := s; unfinishedByPID := ∅; lineNo := 0 |} lines in
  (events st, foldl (drop_unfinished source) (stats st) (order (unfinishedByPID st))).

Definition no_stats : parseTraceStats :=
  {| parsed := 0; failed := 0; unfinished := 0; resumed := 0; unmatchedResumed := 0; droppedUnfinished := 0; examples := [] |}.

(** [pidFromTracePath]; [None] is the false flag. *)
Definition pidFromTracePath (path rawPath : string) : option Z :=
  let suffix := TrimPrefix path (rawPath +:+ ".") in
  if bool_decide (suffix = path) || bool_decide (suffix = EmptyString) then None else ParseInt 64 suffix.

(** The loop of [parseTraceFiles] over the contents of the inputs: path, lines, default pid. *)
Definition parse_files (order : gmap Z unfinishedTraceEvent -> list unfinishedTraceEvent)
    (inputs : list (string * list string * option Z)) : list traceEvent * parseTraceStats :=
  foldl (fun acc input => let '(source, lines, defaultPID) := input in
           let r := collectTraceEvents order lines acc.2 source defaultPID in (acc.1 ++ r.1, r.2)) ([], no_stats) inputs.

(** ** Ordering *)

(** The comparison of [writeTraceEvents]. *)
Definition event_less (a b : traceEvent) : bool :=
  if negb (timestampUS a =? timestampUS b) then timestampUS a <? timestampUS b
  else if negb (pid a =? pid b) then pid a <? pid b
  else String.ltb (syscall a) (syscall b).

(** [sort.SliceStable]: elements that compare equal keep their order. *)
Fixpoint insert_event (e : traceEvent) (l : list traceEvent) : list traceEvent :=
  match l with
  | [] => [e]
  | x :: l' => if event_less x e then x :: insert_event e l' else e :: l
  end.

Definition sort_events (l : list traceEvent) : list traceEvent := foldr insert_event [] l.

(** ** Times are exact *)

Lemma pad_zeros_digits n raw : sall is_digit raw = true -> sall is_digit (pad_zeros n raw) = true.
Proof. revert raw. induction n as [|n IH]; intros raw H; [done|]. cbn. apply IH. by rewrite sall_app, H. Qed.

Lemma pad_zeros_value n raw : digits_value (pad_zeros n raw) 0 = digits_value raw 0 * 10 ^ Z.of_nat n.
Proof.
  revert raw. induction n as [|n IH]; intros raw; cbn [pad_zeros]; [cbn; lia|].
  rewrite IH, digits_value_app. rewrite Nat2Z.inj_succ, Z.pow_succ_r by lia.
  change (digits_value "0" (digits_value raw 0)) with (10 * digits_value raw 0 + (byte_of "0" - 48)).
  change (byte_of "0" - 48) with 0. lia.
Qed.

Lemma pad_zeros_nonempty n raw : raw <> EmptyString -> pad_zeros n raw <> EmptyString.
Proof. revert raw. induction n as [|n IH]; intros raw H; [done|]. cbn. apply IH. by destruct raw. Qed.

Lemma len_zero s : (len s =? 0) = true <-> s = EmptyString.
Proof. unfold len. rewrite Z.eqb_eq. destruct s; cbn; [done|]. split; [lia|done]. Qed.

Lemma len_pos s : 0 < len s -> s <> EmptyString.
Proof. intros H ->. by apply (Z.lt_irrefl 0). Qed.

Lemma parseMicroseconds_digits f : sall is_digit f = true -> 0 < len f <= 6 ->
  parseMicroseconds f = Ok (digits_value f 0 * 10 ^ (6 - len f)) /\ 0 <= digits_value f 0 * 10 ^ (6 - len f) < 1000000.
Proof.
  intros Hf Hl. assert (f <> EmptyString) as Hne by (apply len_pos; lia).
  assert (0 <= digits_value f 0 * 10 ^ (6 - len f) < 1000000) as Hb.
  { pose proof (digits_value_bounds f 0 Hf ltac:(lia)) as [Hlo Hhi].
    assert (10 ^ len f * 10 ^ (6 - len f) = 1000000) as Hp.
    { rewrite <- Z.pow_add_r by lia. by replace (len f + (6 - len f)) with 6 by lia. }
    assert (0 < 10 ^ (6 - len f)) by (apply Z.pow_pos_nonneg; lia). nia. }
  split; [|done]. unfold parseMicroseconds.
  destruct (len f =? 0) eqn:H0; [apply len_zero in H0; done|].
  destruct (Z.ltb_spec 6 (len f)); [lia|].
  rewrite ParseInt_digits, pad_zeros_value by (by apply pad_zeros_digits || by apply pad_zeros_nonempty).
  replace (Z.of_nat (6 - String.length f)) with (6 - len f) by (unfold len in *; lia).
  rewrite (proj2 (int_in_range_spec 64 _)) by lia. done.
Qed.

(** A time written as seconds and at most six decimals is read exactly, in microseconds,
    as long as the result fits in 64 bits; a larger number of seconds wraps around without
    an error, and more decimals are refused. *)
Theorem parse_time_exact s f : sall is_digit s = true -> sall is_digit f = true -> 0 < len s -> 0 < len f ->
  let sec := digits_value s 0 in
  let usec := digits_value f 0 * 10 ^ (6 - len f) in
  parseSecondsToMicroseconds (s +:+ "." +:+ f) =
    if int64_max <? sec then Err InvalidSeconds
    else if 6 <? len f then Err (TooManyDigits (len f))
    else Ok (if sec * 1000000 + usec <=? int64_max then sec * 1000000 + usec
             else wrap_int64 (sec * 1000000 + usec)).
Proof.
  intros Hs Hf Hls Hlf sec usec. unfold parseSecondsToMicroseconds.
  assert (Cut "." (s +:+ "." +:+ f) = Some (s, f)) as ->.
  { apply Cut_Some. split; [done|]. by apply digits_byte_free. }
  assert ((len s =? 0) = false) as -> by lia. assert ((len f =? 0) = false) as Hf0 by lia. rewrite Hf0. cbn [orb].
  assert (s <> EmptyString) as Hns by by apply len_pos.
  pose proof (digits_value_bounds s 0 Hs ltac:(lia)) as [Hsec _]. fold sec in Hsec.
  rewrite ParseInt_digits by done. fold sec. unfold int64_max.
  destruct (Z.ltb_spec (2 ^ 63 - 1) sec) as [Hbig|Hsmall].
  { replace (int_in_range 64 sec) with false; [done|]. symmetry. apply not_true_iff_false. rewrite int_in_range_spec. lia. }
  rewrite (proj2 (int_in_range_spec 64 sec)) by lia. cbn [or_err mbind result_bind].
  destruct (Z.ltb_spec 6 (len f)) as [Hlong|Hshort].
  { unfold parseMicroseconds. rewrite Hf0. by rewrite (proj2 (Z.ltb_lt 6 (len f)) Hlong). }
  destruct (parseMicroseconds_digits f Hf ltac:(lia)) as [-> Hu]. fold usec in Hu |- *. cbn [mbind result_bind]. f_equal.
  assert (wrap_int64 (wrap_int64 (sec * 1000000) + usec) = wrap_int64 (sec * 1000000 + usec)) as ->.
  { unfold wrap_int64. f_equal. replace (((sec * 1000000 + 2 ^ 63) mod 2 ^ 64 - 2 ^ 63) + usec + 2 ^ 63) with ((sec * 1000000 + 2 ^ 63) mod 2 ^ 64 + usec) by lia.
    rewrite Zplus_mod_idemp_l. f_equal. lia. }
  destruct (Z.leb_spec (sec * 1000000 + usec) (2 ^ 63 - 1)); [|done].
  apply wrap_int64_id. unfold int64_min, int64_max. lia.
Qed.

Lemma parse_time_exact_witness :
  parseSecondsToMicroseconds ("1700000000" +:+ "." +:+ "25") = Ok 1700000000250000 /\
  parseSecondsToMicroseconds ("9223372036854" +:+ "." +:+ "775808") = Ok (-9223372036854775808).
Proof.
  split.
  - rewrite (parse_time_exact "1700000000" "25") by (vm_compute; reflexivity). reflexivity.
  - rewrite (parse_time_exact "9223372036854" "775808") by (vm_compute; reflexivity). reflexivity.
Defined.

(** ** Accounting *)

Definition is_failed_line (p : parsedTraceLine) : bool := match p with parseLineFailed _ => true | _ => false end.

(** The balance of the counters after [n] lines, with [open] calls still unfinished. *)
Record balanced (n open : Z) (evs : list traceEvent) (s : parseTraceStats) : Prop := {
  bal_parsed : parsed s = Z.of_nat (length evs);
  bal_lines : parsed s + unfinished s + failed s = n + droppedUnfinished s;
  bal_pairs : resumed s + droppedUnfinished s + open <= unfinished s <= resumed s + droppedUnfinished s + unmatchedResumed s + open;
  bal_pos : 0 <= droppedUnfinished s /\ 0 <= resumed s /\ 0 <= unmatchedResumed s;
  bal_failed : 0 <= failed s /\ droppedUnfinished s + unmatchedResumed s <= failed s;
  bal_examples : Z.of_nat (length (examples s)) = Z.min (failed s) 10
}.

Definition map_open (m : gmap Z unfinishedTraceEvent) : Z := Z.of_nat (size m).

Lemma recordFailure_examples s e : Z.of_nat (length (examples s)) = Z.min (failed s) 10 -> 0 <= failed s ->
  Z.of_nat (length (examples (recordFailure s e))) = Z.min (failed s + 1) 10.
Proof.
  unfold recordFailure, maxParseFailureExamples. cbn [examples]. intros H Hpos.
  destruct (Nat.leb_spec 10 (length (examples s))); [lia|]. rewrite length_app. cbn [length]. lia.
Qed.

Lemma collect_line_balanced source st line p :
  balanced (lineNo st) (map_open (unfinishedByPID st)) (events st) (stats st) ->
  let st' := collect_line source st line p in
  lineNo st' = lineNo st + 1 /\ balanced (lineNo st') (map_open (unfinishedByPID st')) (events st') (stats st').
Proof.
  intros [Hp Hl Hpr Hpos Hf He]. destruct p as [e|u0|r|e]; cbn [collect_line].
  - split; [done|]. constructor; cbn; rewrite ?length_app; cbn; try lia.
  - split; [done|]. cbn [numbered u_pid lineNo events unfinishedByPID stats]. unfold map_open in *.
    destruct (unfinishedByPID st !! u_pid u0) as [existing|] eqn:Hu.
    + rewrite map_size_insert_Some by (by eexists). constructor; [cbn; lia..|rewrite recordFailure_examples; cbn; lia].
    + rewrite map_size_insert_None by done. constructor; cbn; try lia.
  - destruct (unfinishedByPID st !! r_pid r) as [u|] eqn:Hu; [destruct (finishResumedSyscall u r) as [ev|e]|].
    + split; [done|]. cbn [lineNo events unfinishedByPID stats]. unfold map_open in *.
      rewrite map_size_delete_Some by (by eexists). apply mk_is_Some, map_size_ne_0_lookup_2 in Hu.
      constructor; cbn; rewrite ?length_app; cbn; try lia.
    + split; [done|]. cbn [lineNo events unfinishedByPID stats]. unfold map_open in *.
      rewrite map_size_delete_Some by (by eexists). apply mk_is_Some, map_size_ne_0_lookup_2 in Hu.
      constructor; [cbn; lia..|rewrite recordFailure_examples; cbn; lia].
    + split; [done|]. cbn [lineNo events unfinishedByPID stats]. constructor; [cbn; lia..|rewrite recordFailure_examples; cbn; lia].
  - split; [done|]. cbn [lineNo events unfinishedByPID stats]. constructor; [cbn; lia..|rewrite recordFailure_examples; cbn; lia].
Qed.

Lemma collect_lines_balanced source d lines : forall st,
  balanced (lineNo st) (map_open (unfinishedByPID st)) (events st) (stats st) ->
  let st' := collect_lines source d st lines in
  lineNo st' = lineNo st + Z.of_nat (length lines) /\
  balanced (lineNo st') (map_open (unfinishedByPID st')) (events st') (stats st').
Proof.
  induction lines as [|line lines IH]; intros st Hb; cbn; [split; [lia|done]|].
  destruct (collect_line_balanced source st line (parseTraceLine line d) Hb) as [Hn Hb'].
  destruct (IH _ Hb') as [Hn' Hb'']. split; [|done]. unfold collect_lines in Hn'. lia.
Qed.

Lemma drop_balanced source n evs l : forall s, balanced n (Z.of_nat (length l)) evs s ->
  balanced n 0 evs (foldl (drop_unfinished source) s l).
Proof.
  induction l as [|u l IH]; intros s [Hp Hl Hpr Hpos Hf He]; cbn [foldl]; [done|]. apply IH.
  cbn [length] in *. unfold drop_unfinished. constructor; [cbn; lia..|rewrite recordFailure_examples; cbn; lia].
Qed.

(** The statistics of a trace file account for every line. One event is emitted per
    parsed line; each line is a parsed event, an unfinished call or a failure, apart from
    the failures of dropped calls; every unfinished call was resumed, dropped, or met by a
    resumed line that does not match; and the first ten failures are kept as examples. *)
Theorem collect_accounts order lines source d :
  (forall m, order m ≡ₚ (map_to_list m).*2) ->
  let r := collectTraceEvents order lines no_stats source d in
  parsed r.2 = Z.of_nat (length r.1) /\
  parsed r.2 + unfinished r.2 + failed r.2 = Z.of_nat (length lines) + droppedUnfinished r.2 /\
  resumed r.2 + droppedUnfinished r.2 <= unfinished r.2 <= resumed r.2 + droppedUnfinished r.2 + unmatchedResumed r.2 /\
  Z.of_nat (length (examples r.2)) = Z.min (failed r.2) 10.
Proof.
  intros Ho. unfold collectTraceEvents. cbn zeta. set (st0 := {| events := _ |}).
  destruct (collect_lines_balanced source d lines st0) as [Hn Hb].
  { unfold st0, map_open. cbn [unfinishedByPID]. rewrite map_size_empty. constructor; cbn; lia. }
  assert (Z.of_nat (length (order (unfinishedByPID (collect_lines source d st0 lines)))) =
          map_open (unfinishedByPID (collect_lines source d st0 lines))) as Hlen.
  { unfold map_open. rewrite Ho, length_fmap. by rewrite length_map_to_list. }
  rewrite <- Hlen in Hb. apply (drop_balanced source) in Hb as [Hp Hl Hpr Hpos Hf He].
  cbn [fst snd]. rewrite Hn in Hl. cbn in Hl. split_and!; [done|lia|lia|lia|done].
Qed.

(** ** Pairing *)

Section Pairing.
Context (source : string) (d : option Z) (all : list string).

(** What line [i] parsed to. *)
Definition line_is (i : nat) (p : parsedTraceLine) : Prop := exists l, all !! i = Some l /\ parseTraceLine l d = p.

(** Line [k] starts or resumes a call of process [x]. *)
Definition touches (k : nat) (x : Z) : Prop :=
  (exists u, line_is k (parseLineUnfinished u) /\ u_pid u = x) \/
  (exists r, line_is k (parseLineResumed r) /\ r_pid r = x).

(** The call left open by process [x] before line [n] is [u], started at line [i]. *)
Definition opened (n : nat) (x : Z) (u : unfinishedTraceEvent) : Prop :=
  exists i u0, (i < n)%nat /\ line_is i (parseLineUnfinished u0) /\ u_pid u0 = x /\
    u = numbered u0 (Z.of_nat i + 1) /\ forall k, (i < k < n)%nat -> ~ touches k x.

(** Where an event of the first [n] lines comes from. *)
Definition origin (n : nat) (e : traceEvent) : Prop :=
  (exists i, (i < n)%nat /\ line_is i (parseLineParsed e)) \/
  (exists j r u, (j < n)%nat /\ line_is j (parseLineResumed r) /\ opened j (r_pid r) u /\ finishResumedSyscall u r = Ok e).

Record paired (n : nat) (st : collect_state) : Prop := {
  pr_line : lineNo st = Z.of_nat n;
  pr_open : forall x u, unfinishedByPID st !! x = Some u -> opened n x u;
  pr_events : forall e, e ∈ events st -> origin n e
}.

Lemma opened_S n x u : opened n x u -> ~ touches n x -> opened (S n) x u.
Proof.
  intros (i & u0 & Hi & Hl & Hx & -> & Hk) Hn. exists i, u0. split_and!; [lia|done..|].
  intros k Hk'. destruct (decide (k = n)) as [->|]; [done|]. apply Hk. lia.
Qed.

Lemma origin_S n e : origin n e -> origin (S n) e.
Proof.
  intros [(i & Hi & Hl)|(j & r & u & Hj & Hr)]; [left; exists i|right; exists j, r, u]; (split; [lia|done]).
Qed.

Lemma line_is_inj i p q : line_is i p -> line_is i q -> p = q.
Proof. intros (l & Hl & <-) (l' & Hl' & <-). congruence. Qed.

Lemma collect_line_paired n st line : all !! n = Some line -> paired n st ->
  paired (S n) (collect_line source st line (parseTraceLine line d)).
Proof.
  intros Hline [Hn Ho He].
  assert (line_is n (parseTraceLine line d)) as Hp by by exists line.
  assert (forall e, e ∈ events st -> origin (S n) e) as He' by (intros e Hin; by apply origin_S, He).
  assert (forall x, touches n x -> match parseTraceLine line d with
            | parseLineUnfinished u => u_pid u = x | parseLineResumed r => r_pid r = x | _ => False end) as Ht.
  { intros x [(u & Hu & <-)|(r & Hr & <-)].
    - by rewrite (line_is_inj _ _ _ Hp Hu).
    - by rewrite (line_is_inj _ _ _ Hp Hr). }
  destruct (parseTraceLine line d) as [e|u0|r|e] eqn:Hparse; cbn [collect_line].
  - constructor; cbn; [lia| |].
    + intros x u Hu. apply opened_S; [by apply Ho|]. by intros ?%Ht.
    + intros e' [?|Hin]%elem_of_app; [by apply He'|]. apply list_elem_of_singleton in Hin as ->.
      left. exists n. split; [lia|done].
  - constructor; cbn; [lia| |done]. intros x u.
    destruct (decide (x = u_pid u0)) as [->|Hx]; [rewrite lookup_insert_eq|rewrite lookup_insert_ne by done].
    + intros [= <-]. exists n, u0. split_and!; [lia|done|done|f_equal; lia|lia].
    + intros Hu. apply opened_S; [by apply Ho|]. intros ?%Ht. congruence.
  - assert (forall x u, delete (r_pid r) (unfinishedByPID st) !! x = Some u -> opened (S n) x u) as Hdel.
    { intros x u [Hx Hu]%lookup_delete_Some. apply opened_S; [by apply Ho|]. intros ?%Ht. congruence. }
    destruct (unfinishedByPID st !! r_pid r) as [u|] eqn:Hu; [destruct (finishResumedSyscall u r) as [ev|e] eqn:Hf|].
    + constructor; cbn; [lia|done|]. intros e' [?|Hin]%elem_of_app; [by apply He'|].
      apply list_elem_of_singleton in Hin as ->. right. exists n, r, u. split_and!; [lia|done|by apply Ho|done].
    + constructor; cbn; [lia|done|done].
    + constructor; cbn; [lia| |done]. intros x u Hx. apply opened_S; [by apply Ho|]. intros ?%Ht. congruence.
  - constructor; cbn; [lia| |done]. intros x u Hu. apply opened_S; [by apply Ho|]. by intros ?%Ht.
Qed.

Lemma collect_lines_paired lines : forall n st, (forall k l, lines !! k = Some l -> all !! (n + k)%nat = Some l) -> paired n st ->
  paired (n + length lines) (collect_lines source d st lines).
Proof.
  induction lines as [|line lines IH]; intros n st Hall Hp; cbn; [by rewrite Nat.add_0_r|].
  rewrite <- Nat.add_succ_comm. apply IH.
  - intros k l Hk. rewrite Nat.add_succ_comm. by apply Hall.
  - apply collect_line_paired; [|done]. rewrite <- (Nat.add_0_r n). by apply Hall.
Qed.

End Pairing.

(** Every event is a completed line of the file, or joins a resumed line with the last
    line before it at which the same process started that same system call, with no other
    unfinished or resumed line of the process in between. *)
Theorem events_come_from_lines order lines s source d e :
  e ∈ (collectTraceEvents order lines s source d).1 ->
  (exists i, line_is d lines i (parseLineParsed e)) \/
  (exists i j u r, (i < j)%nat /\ line_is d lines i (parseLineUnfinished u) /\ line_is d lines j (parseLineResumed r) /\
     u_pid u = r_pid r /\ u_syscall u = r_syscall r /\
     timestampUS e = u_timestampUS u /\ pid e = r_pid r /\ syscall e = r_syscall r /\ te_result e = r_result r /\
     forall k, (i < k < j)%nat -> ~ touches d lines k (r_pid r)).
Proof.
  unfold collectTraceEvents. cbn [fst]. set (st0 := {| events := [] |}).
  assert (paired d lines (0 + length lines) (collect_lines source d st0 lines)) as [_ _ He].
  { apply collect_lines_paired; [done|]. constructor; cbn; [done|intros x u; by rewrite lookup_empty|set_solver]. }
  intros [(i & _ & Hi)|(j & r & u & _ & Hr & (i & u0 & Hij & Hu & Hx & -> & Hk) & Hf)]%He; [left; by exists i|].
  right. exists i, j, u0, r. unfold finishResumedSyscall in Hf.
  case_hyp Hf; [done|]. case_hyp Hf; [done|]. bool_to_prop. cbn in *. injection Hf as <-. by split_and!.
Qed.

Lemma events_come_from_lines_witness :
  let lines := ["7 1.5 read(3, <unfinished ...>"; "8 1.6 close(1) = 0"; "7 1.7 <... read resumed>x, 1) = 1 <0.2>"] in
  let e := {| timestampUS := 1500000; pid := 7; syscall := "read"; args := "3, x, 1"; durationUS := 200000;
              hasDuration := true; te_result := "1"; errno := EmptyString |} in
  (exists i, line_is None lines i (parseLineParsed e)) \/
  (exists i j u r, (i < j)%nat /\ line_is None lines i (parseLineUnfinished u) /\ line_is None lines j (parseLineResumed r) /\
     u_pid u = r_pid r /\ u_syscall u = r_syscall r /\
     timestampUS e = u_timestampUS u /\ pid e = r_pid r /\ syscall e = r_syscall r /\ te_result e = r_result r /\
     forall k, (i < k < j)%nat -> ~ touches None lines k (r_pid r)).
Proof.
  intros lines e. apply (events_come_from_lines (fun m => (map_to_list m).*2) lines no_stats "trace" None e).
  assert (e ∈ [e]) as He by left.
  assert ((collectTraceEvents (fun m => (map_to_list m).*2) lines no_stats "trace" None).1 !! 1%nat = Some e) as Hl by (vm_compute; reflexivity).
  by apply list_elem_of_lookup_2 in Hl.
Defined.

(** ** The order of events *)

Lemma event_less_asym a b : event_less a b = true -> event_less b a = false.
Proof.
  unfold event_less. destruct (Z.eqb_spec (timestampUS a) (timestampUS b)) as [Ht|Ht]; cbn.
  - rewrite Ht, Z.eqb_refl. cbn. destruct (Z.eqb_spec (pid a) (pid b)) as [Hp|Hp]; cbn.
    + rewrite Hp, Z.eqb_refl. cbn. unfold String.ltb. rewrite (String.compare_antisym (syscall b)).
      by destruct (syscall a ?= syscall b)%string.
    + destruct (Z.eqb_spec (pid b) (pid a)); cbn; lia.
  - destruct (Z.eqb_spec (timestampUS b) (timestampUS a)); cbn; lia.
Qed.

Definition in_order (a b : traceEvent) : Prop := event_less b a = false.

Lemma insert_event_perm e l : insert_event e l ≡ₚ e :: l.
Proof.
  induction l as [|x l IH]; cbn; [done|]. destruct (event_less x e); [|done].
  rewrite IH. apply Permutation_swap.
Qed.

Lemma insert_event_HdRel x e l : HdRel in_order x l -> in_order x e -> HdRel in_order x (insert_event e l).
Proof.
  intros Hl He. destruct l as [|y l]; cbn; [by constructor|].
  inversion Hl; subst. destruct (event_less y e); by constructor.
Qed.

Lemma insert_event_sorted e l : Sorted in_order l -> Sorted in_order (insert_event e l).
Proof.
  induction 1 as [|x l Hs IH Hx]; cbn; [by repeat constructor|].
  destruct (event_less x e) eqn:Hlt; [|by repeat constructor].
  constructor; [done|]. apply insert_event_HdRel; [done|]. by apply event_less_asym.
Qed.

(** Events that the comparison cannot tell apart. *)
Definition same_key (a b : traceEvent) : Prop := timestampUS a = timestampUS b /\ pid a = pid b /\ syscall a = syscall b.
#[export] Instance same_key_dec a b : Decision (same_key a b).
Proof. unfold same_key. apply _. Defined.

Lemma event_less_key a b : same_key a b -> event_less a b = false.
Proof.
  intros (Ht & Hp & Hs). unfold event_less. rewrite Ht, Hp, Hs, !Z.eqb_refl. cbn.
  destruct (String.ltb (syscall b) (syscall b)) eqn:Hl; [|done].
  unfold String.ltb in Hl. pose proof (String.compare_antisym (syscall b) (syscall b)) as Ha.
  by destruct (syscall b ?= syscall b)%string.
Qed.

Lemma insert_event_stable k e l : filter (same_key k) (insert_event e l) = filter (same_key k) (e :: l).
Proof.
  induction l as [|x l IH]; cbn [insert_event]; [done|]. destruct (event_less x e) eqn:Hlt; [|done].
  rewrite (filter_cons _ x), IH, !filter_cons.
  destruct (decide (same_key k x)) as [Hx|], (decide (same_key k e)) as [He|]; try done.
  rewrite event_less_key in Hlt; [done|]. destruct Hx as (? & ? & ?), He as (? & ? & ?). split_and!; congruence.
Qed.

(** Before they are written the events are put in order of time, process and system
    call; none is lost or added, and events with the same three keep their order. *)
Theorem sort_events_stable l :
  Sorted in_order (sort_events l) /\ sort_events l ≡ₚ l /\
  forall k, filter (same_key k) (sort_events l) = filter (same_key k) l.
Proof.
  induction l as [|e l (Hs & Hp & Hf)]; cbn [sort_events foldr]; [by repeat constructor|].
  fold (sort_events l). split; [by apply insert_event_sorted|]. split; [by rewrite insert_event_perm, Hp|].
  intros k. by rewrite insert_event_stable, !filter_cons, Hf.
Qed.

Lemma collect_accounts_witness :
  let r := collectTraceEvents (fun m => (map_to_list m).*2) ["7 1.5 read(3, <unfinished ...>"; "junk"] no_stats "trace" None in
  parsed r.2 = Z.of_nat (length r.1) /\
  parsed r.2 + unfinished r.2 + failed r.2 = 2 + droppedUnfinished r.2 /\
  resumed r.2 + droppedUnfinished r.2 <= unfinished r.2 <= resumed r.2 + droppedUnfinished r.2 + unmatchedResumed r.2 /\
  Z.of_nat (length (examples r.2)) = Z.min (failed r.2) 10.
Proof.
  apply (collect_accounts (fun m => (map_to_list m).*2) ["7 1.5 read(3, <unfinished ...>"; "junk"] "trace" None). done.
Defined.
