(* ===== verification/Parameters.v ===== *)
(** * Performix: parameters of recipes, tools and renders

    Models [core/apap-engine/parameters/parameter.go] (binding input values to declared
    parameters, validating them, render parameters) and [options.go] (options of select
    parameters, which depend on the version of the recipe). *)

From S2P Require Import Prelude.
From S2P Require Import GoStrings.
From S2P Require Import Semver.
From Stdlib Require Import Ascii SpecFloat.

Local Open Scope Z_scope.

(** Values of Go's [any] as JSON decoding and scripts produce them. *)
Inductive any :=
| VNil
| VString (s : string)
| VBool (b : bool)
| VFloat (f : spec_float)
| VList (l : list any)
| VStrings (l : list string)
| VObject (fields : list (string * any)).

Definition is_nil (v : any) : bool := match v with VNil => true | _ => false end.

(** Indexing a [map[string]any]: nil when the key is missing. *)
Definition index (m : gmap string any) (k : string) : any := default VNil (m !! k).

(** ** Declarations *)

Record ParameterOption := { Value : string; Label : string; OptionDescription : string }.

Record ParameterCommon := { ID : string; Required : bool }.

(** A select or radio parameter: the default and the values of its options. *)
Record SelectParameter (D : Type) := { sp : ParameterCommon; DefaultValue : D; Options : list string }.
Arguments sp {D}. Arguments DefaultValue {D}. Arguments Options {D}.

Record CheckboxParameter := { cp : ParameterCommon; cb_default : bool }.
Record InputParameter := { ip : ParameterCommon; in_default : string }.

Record ParameterSet := {
  SingleSelect : list (SelectParameter string);
  MultiSelect : list (SelectParameter (list string));
  Checkbox : list CheckboxParameter;
  Input : list InputParameter;
  Radio : list (SelectParameter string)
}.

Record ParameterValues := {
  v_Checkbox : list bool;
  v_Radio : list string;
  v_SingleSelect : list string;
  v_MultiSelect : list (list string);
  v_Input : list string
}.

Record BoundParameters := { b_parameters : ParameterSet; b_values : ParameterValues }.

(** The message codes, chosen by [ParameterMessages]. *)
Inductive code := InvalidParam | InvalidParams | InvalidCheckboxValue | InvalidRadioValue
  | InvalidSingleSelectValue | InvalidMultiSelectValue | InvalidInputValue.

(** The metadata "paramName", "paramNames", "value" (before formatting) and "source". *)
Record perror := { pe_code : code; pe_names : list string; pe_value : any; pe_source : string }.

(** ** Binding *)

Fixpoint strings_of (l : list any) : option (list string) :=
  match l with
  | [] => Some []
  | VString s :: rest => cons s <$> strings_of rest
  | _ => None
  end.

Definition convertToStringSlice : list any -> option (list string) := strings_of.

Definition to_lower_byte (c : ascii) : ascii :=
  if between 65 90 c then ascii_of_N (N_of_ascii c + 32) else c.
Fixpoint ToLower (s : string) : string :=
  match s with EmptyString => EmptyString | String c s' => String (to_lower_byte c) (ToLower s') end.

(** The type switches: [None] is the error of the parameter's kind, with the value shown. *)
Definition conv_input (v : any) : result any string := match v with VString s => Ok s | _ => Err v end.

Definition conv_single (v : any) : result any string :=
  match v with
  | VList l =>
      match convertToStringSlice l with
      | None => Err v
      | Some [] => Ok EmptyString
      | Some [s] => Ok s
      | Some converted => Err (VStrings converted)
      end
  | VString s => Ok s
  | _ => Err v
  end.

Definition conv_multi (v : any) : result any (list string) :=
  match v with
  | VList l => or_err v (convertToStringSlice l)
  | VString s => Ok [s]
  | VStrings l => Ok l
  | _ => Err v
  end.

Definition conv_checkbox (v : any) : result any bool :=
  match v with
  | VBool b => Ok b
  | VString s =>
      let lowerB := ToLower s in
      if negb (bool_decide (lowerB = "true")) && negb (bool_decide (lowerB = "false")) then Err v
      else Ok (bool_decide (lowerB = "true"))
  | _ => Err v
  end.

Definition conv_radio (v : any) : result any string := match v with VString s => Ok s | _ => Err v end.

Section Bind.
Context (parameterInputs : gmap string any) (source : string).

(** One of the five loops of [bindParameters]: the values, in the order of the parameters. *)
Fixpoint bind_loop {P V : Type} (id : P -> string) (conv : any -> result any V) (dflt : P -> V) (c : code) (ps : list P)
  : result perror (list V) :=
  match ps with
  | [] => Ok []
  | p :: rest =>
      v ← (let x := index parameterInputs (id p) in
           if is_nil x then Ok (dflt p)
           else match conv x with
                | Ok v => Ok v
                | Err shown => Err {| pe_code := c; pe_names := [id p]; pe_value := shown; pe_source := source |}
                end);
      vs ← bind_loop id conv dflt c rest;
      Ok (v :: vs)
  end.

Definition all_ids (ps : ParameterSet) : list string :=
  ((fun p => ID (ip p)) <$> Input ps) ++ ((fun p => ID (sp p)) <$> SingleSelect ps) ++
  ((fun p => ID (sp p)) <$> MultiSelect ps) ++ ((fun p => ID (cp p)) <$> Checkbox ps) ++
  ((fun p => ID (sp p)) <$> Radio ps).

(** [mappedParams]: the declared parameters with a value that is not nil. *)
Definition mappedParams (ps : ParameterSet) : gset string :=
  list_to_set (filter (fun k => is_nil (index parameterInputs k) = false) (all_ids ps)).

(** [order] is the order in which [range] visits the input map. *)
Definition unmapped_params (order : gmap string any -> list string) (ps : ParameterSet) : list string :=
  filter (fun k => k ∉ mappedParams ps) (order parameterInputs).

Definition bindParameters (order : gmap string any -> list string) (params : ParameterSet) : result perror BoundParameters :=
  input ← bind_loop (fun p => ID (ip p)) conv_input in_default InvalidInputValue (Input params);
  single ← bind_loop (fun p => ID (sp p)) conv_single DefaultValue InvalidSingleSelectValue (SingleSelect params);
  multi ← bind_loop (fun p => ID (sp p)) conv_multi DefaultValue InvalidMultiSelectValue (MultiSelect params);
  checkbox ← bind_loop (fun p => ID (cp p)) conv_checkbox cb_default InvalidCheckboxValue (Checkbox params);
  radio ← bind_loop (fun p => ID (sp p)) conv_radio DefaultValue InvalidRadioValue (Radio params);
  match unmapped_params order params with
  | [] => Ok {| b_parameters := params;
                b_values := {| v_Checkbox := checkbox; v_Radio := radio; v_SingleSelect := single;
                               v_MultiSelect := multi; v_Input := input |} |}
  | [name] => Err {| pe_code := InvalidParam; pe_names := [name]; pe_value := VNil; pe_source := source |}
  | names => Err {| pe_code := InvalidParams; pe_names := names; pe_value := VNil; pe_source := source |}
  end.

End Bind.

(** ** Validation of bound values *)

Definition value_error (id : string) (value : string) (c : code) (source : string) : perror :=
  {| pe_code := c; pe_names := [id]; pe_value := VString value; pe_source := source |}.

Definition str_empty (s : string) : bool := bool_decide (s = EmptyString).
Definition contains (l : list string) (s : string) : bool := bool_decide (s ∈ l).
Definition some_options {D} (p : SelectParameter D) : bool := negb (bool_decide (Options p = [])).

Definition check_input (source : string) (pv : InputParameter * string) : result perror unit :=
  let '(p, value) := pv in
  if Required (ip p) && str_empty value then Err (value_error (ID (ip p)) value InvalidInputValue source) else Ok tt.

(** Single select and radio parameters are checked alike. *)
Definition check_choice (source : string) (c : code) (pv : SelectParameter string * string) : result perror unit :=
  let '(p, value) := pv in
  if Required (sp p) && str_empty value then Err (value_error (ID (sp p)) EmptyString c source)
  else if some_options p && negb (str_empty value) && negb (contains (Options p) value) then
    Err (value_error (ID (sp p)) value c source)
  else Ok tt.

Definition check_multi (source : string) (pv : SelectParameter (list string) * list string) : result perror unit :=
  let '(p, values) := pv in
  if Required (sp p) && bool_decide (values = []) then Err (value_error (ID (sp p)) EmptyString InvalidMultiSelectValue source)
  else if some_options p then
    for_each (fun entry => if contains (Options p) entry then Ok tt
                           else Err (value_error (ID (sp p)) entry InvalidMultiSelectValue source)) values
  else Ok tt.

Definition validateParameterValues (params : BoundParameters) (source : string) : result perror unit :=
  let ps := b_parameters params in
  let vs := b_values params in
  _ ← for_each (check_input source) (zip (Input ps) (v_Input vs));
  _ ← for_each (check_choice source InvalidSingleSelectValue) (zip (SingleSelect ps) (v_SingleSelect vs));
  _ ← for_each (check_multi source) (zip (MultiSelect ps) (v_MultiSelect vs));
  for_each (check_choice source InvalidRadioValue) (zip (Radio ps) (v_Radio vs)).

(** ** Looking values up *)

Fixpoint find_value {P V} (id : P -> string) (wrap : V -> any) (ps : list P) (vs : list V) (paramID : string) : option any :=
  match ps, vs with
  | p :: ps', v :: vs' => if bool_decide (id p = paramID) then Some (wrap v) else find_value id wrap ps' vs' paramID
  | _, _ => None
  end.

Definition or_else {A} (a b : option A) : option A := match a with Some x => Some x | None => b end.

Definition FindValue (bd : BoundParameters) (paramID : string) : option any :=
  let ps := b_parameters bd in
  let vs := b_values bd in
  or_else (find_value (fun p => ID (cp p)) VBool (Checkbox ps) (v_Checkbox vs) paramID)
  (or_else (find_value (fun p => ID (ip p)) VString (Input ps) (v_Input vs) paramID)
  (or_else (find_value (fun p => ID (sp p)) VString (SingleSelect ps) (v_SingleSelect vs) paramID)
  (or_else (find_value (fun p => ID (sp p)) VStrings (MultiSelect ps) (v_MultiSelect vs) paramID)
           (find_value (fun p => ID (sp p)) VString (Radio ps) (v_Radio vs) paramID)))).

Fixpoint add_values {P V} (id : P -> string) (wrap : V -> any) (keep : V -> bool) (ps : list P) (vs : list V)
    (m : gmap string any) : gmap string any :=
  match ps, vs with
  | p :: ps', v :: vs' => add_values id wrap keep ps' vs' (if keep v then <[id p := wrap v]> m else m)
  | _, _ => m
  end.

(** An empty single-select value is left out. *)
Definition CollapseToMap (bd : BoundParameters) : gmap string any :=
  let ps := b_parameters bd in
  let vs := b_values bd in
  add_values (fun p => ID (sp p)) VString (fun _ => true) (Radio ps) (v_Radio vs)
  (add_values (fun p => ID (sp p)) VStrings (fun _ => true) (MultiSelect ps) (v_MultiSelect vs)
  (add_values (fun p => ID (sp p)) VString (fun v => negb (str_empty v)) (SingleSelect ps) (v_SingleSelect vs)
  (add_values (fun p => ID (ip p)) VString (fun _ => true) (Input ps) (v_Input vs)
  (add_values (fun p => ID (cp p)) VBool (fun _ => true) (Checkbox ps) (v_Checkbox vs) ∅)))).

(** ** Render parameters *)

Record RenderParameter := { rp_id : string; rp_type : string; IsArray : bool }.

Record BoundRenderParameters := { brp_parameters : list RenderParameter; brp_values : gmap string any }.

Definition CollapseRenderToMap (brp : BoundRenderParameters) : gmap string any := brp_values brp.

Definition finite (f : spec_float) : bool :=
  match f with S754_zero _ | S754_finite _ _ _ => true | S754_infinity _ | S754_nan => false end.

(** The causes of invalid values. *)
Inductive verror :=
| ExpectedString (id : string)
| ExpectedNumber (id : string)
| ExpectedFinite (id : string)
| ExpectedArray (id : string)
| UnknownType (type id : string)
| InvalidAt (i : nat) (cause : verror).

Definition validateRenderParameterSingleValue (p : RenderParameter) (v : any) : result verror unit :=
  if bool_decide (rp_type p = "string") then
    match v with VString _ => Ok tt | _ => Err (ExpectedString (rp_id p)) end
  else if bool_decide (rp_type p = "number") then
    match v with
    | VFloat f => if finite f then Ok tt else Err (ExpectedFinite (rp_id p))
    | _ => Err (ExpectedNumber (rp_id p))
    end
  else Err (UnknownType (rp_type p) (rp_id p)).

Fixpoint validate_items (p : RenderParameter) (i : nat) (l : list any) : result verror unit :=
  match l with
  | [] => Ok tt
  | item :: rest =>
      match validateRenderParameterSingleValue p item with
      | Err e => Err (InvalidAt i e)
      | Ok _ => validate_items p (S i) rest
      end
  end.

Definition validateRenderParameterValue (p : RenderParameter) (v : any) : result verror unit :=
  if IsArray p then match v with VList l => validate_items p 0 l | _ => Err (ExpectedArray (rp_id p)) end
  else validateRenderParameterSingleValue p v.

(** The error message: the parameter, the value and the cause, if shown, and the source. *)
Record render_error := { re_name : string; re_value : option any; re_cause : option verror; re_source : string }.

(** The last declaration of an identifier wins in the map [declared]. *)
Definition declared_params (params : list RenderParameter) : gmap string RenderParameter :=
  foldl (fun m p => <[rp_id p := p]> m) ∅ params.

Definition bind_render_one (declared : gmap string RenderParameter) (source : string) (values : gmap string any)
    (kv : string * any) : result render_error (gmap string any) :=
  let '(id, value) := kv in
  match declared !! id with
  | None => Err {| re_name := id; re_value := None; re_cause := None; re_source := source |}
  | Some p =>
      if is_nil value then Ok (<[id := VNil]> values)
      else match validateRenderParameterValue p value with
           | Err e => Err {| re_name := id; re_value := Some value; re_cause := Some e; re_source := source |}
           | Ok _ => Ok (<[id := value]> values)
           end
  end.

(** [inputs]: the entries of the input map in the order [range] visits them. *)
Definition BindRenderParameters (inputs : list (string * any)) (params : list RenderParameter) (source : string)
  : result render_error BoundRenderParameters :=
  values ← fold_res (bind_render_one (declared_params params) source)
             (foldl (fun m p => <[rp_id p := VNil]> m) ∅ params) inputs;
  Ok {| brp_parameters := params; brp_values := values |}.

Definition SetDefaultRenderParameter (brp : BoundRenderParameters) (id : string) (value : any) (source : string)
  : result render_error BoundRenderParameters :=
  match find_index (fun p => bool_decide (rp_id p = id)) (brp_parameters brp) ≫= (fun i => brp_parameters brp !! i) with
  | None => Err {| re_name := id; re_value := None; re_cause := None; re_source := source |}
  | Some p =>
      if negb (is_nil (index (brp_values brp) id)) || is_nil value then Ok brp
      else match validateRenderParameterValue p value with
           | Err e => Err {| re_name := id; re_value := Some value; re_cause := Some e; re_source := source |}
           | Ok _ => Ok {| brp_parameters := brp_parameters brp; brp_values := <[id := value]> (brp_values brp) |}
           end
  end.

(** ** Options that depend on the recipe version *)

Fixpoint field (fields : list (string * any)) (k : string) : option any :=
  match fields with
  | [] => None
  | (k', v) :: rest => if bool_decide (k' = k) then Some v else field rest k
  end.

Definition string_field (fields : list (string * any)) (k : string) : option string :=
  match field fields k with Some (VString s) => Some s | _ => None end.

Definition option_of_object (fields : list (string * any)) (value : string) : ParameterOption :=
  {| Value := value; Label := default EmptyString (string_field fields "label");
     OptionDescription := default EmptyString (string_field fields "description") |}.

Definition option_of_string (s : string) : ParameterOption := {| Value := s; Label := s; OptionDescription := EmptyString |}.

(** Scripts return strings or objects, at any version; [None] is the nil result. *)
Fixpoint ConvertOptionValuesAndItems (data : list any) : option (list string * list ParameterOption) :=
  match data with
  | [] => Some ([], [])
  | v :: rest =>
      item ← match v with
             | VString s => Some (option_of_string s)
             | VObject fields => (fun value => option_of_object fields value) <$> string_field fields "value"
             | _ => None
             end;
      r ← ConvertOptionValuesAndItems rest;
      Some (Value item :: r.1, item :: r.2)
  end.

Definition ConvertOptionValues (data : list any) : list string :=
  match ConvertOptionValuesAndItems data with Some r => r.1 | None => [] end.

Inductive option_error := MustUseObjects (paramType : string) (apiVersion : SemVer)
  | MustBeStringOrObject (paramType : string) (i : nat) | MustContainValue (paramType : string) (i : nat).

Section RecipeOptions.
Context (apiVersion legacyVersion : SemVer) (paramType : string).

Definition convert_item (i : nat) (v : any) : result option_error ParameterOption :=
  match v with
  | VString s => if 0 <? Cmp apiVersion legacyVersion then Err (MustUseObjects paramType apiVersion) else Ok (option_of_string s)
  | VObject fields =>
      match string_field fields "value" with
      | None => Err (MustContainValue paramType i)
      | Some value => Ok (option_of_object fields value)
      end
  | _ => Err (MustBeStringOrObject paramType i)
  end.

Fixpoint convert_items (i : nat) (l : list any) : result option_error (list ParameterOption) :=
  match l with
  | [] => Ok []
  | v :: rest => item ← convert_item i v; items ← convert_items (S i) rest; Ok (item :: items)
  end.

(** [None] is the nil result for data that is not a list. *)
Definition convertRecipeOptionValuesAndItems (data : any) : result option_error (option (list string * list ParameterOption)) :=
  match data with
  | VStrings v =>
      if 0 <? Cmp apiVersion legacyVersion then Err (MustUseObjects paramType apiVersion)
      else Ok (Some (v, option_of_string <$> v))
  | VList l => (fun items => Some (Value <$> (items : list ParameterOption), items)) <$> convert_items 0 l
  | _ => Ok None
  end.

End RecipeOptions.

Definition LegacyRecipeSelectStringOptionsAPIVersion : SemVer := {| Major := 1; Minor := 0; Patch := 0 |}.
Definition LegacyRecipeRadioStringOptionsAPIVersion : SemVer := {| Major := 1; Minor := 0; Patch := 0 |}.

Definition ConvertRecipeSelectOptionValuesAndItems (data : any) (apiVersion : SemVer) :=
  convertRecipeOptionValuesAndItems apiVersion LegacyRecipeSelectStringOptionsAPIVersion "select" data.
Definition ConvertRecipeRadioOptionValuesAndItems (data : any) (apiVersion : SemVer) :=
  convertRecipeOptionValuesAndItems apiVersion LegacyRecipeRadioStringOptionsAPIVersion "radio" data.

(** [nil] rows of the dynamic options are [None]; indices are not negative. *)
Definition GetParameterOptionsOrDefault {A} (defaults : list A) (paramIndex : nat) (all : list (option (list A))) : list A :=
  default defaults (mjoin (all !! paramIndex)).

Definition GetParameterOptionValuesOrDefault (defaults : list string) (paramIndex : nat)
    (all : list (option (list ParameterOption))) : list string :=
  match mjoin (all !! paramIndex) with Some items => Value <$> items | None => defaults end.

(** ** Binding is complete and exact *)

(** The value that a parameter [p] is bound to. *)
Definition binds {P V} (inputs : gmap string any) (id : P -> string) (conv : any -> result any V) (dflt : P -> V)
    (p : P) (v : V) : Prop :=
  if is_nil (index inputs (id p)) then v = dflt p else conv (index inputs (id p)) = Ok v.

Lemma bind_loop_Ok {P V} inputs source (id : P -> string) (conv : any -> result any V) dflt c ps : forall vs,
  bind_loop inputs source id conv dflt c ps = Ok vs <-> Forall2 (binds inputs id conv dflt) ps vs.
Proof.
  induction ps as [|p ps IH]; intros vs; cbn [bind_loop].
  { split; [intros [= <-]; constructor|by inversion 1]. }
  rewrite bind_Ok. setoid_rewrite bind_Ok. unfold binds at 1. cbn zeta. split.
  - intros (v & Hv & vs' & Hvs%IH & [= <-]). constructor; [|done]. unfold binds.
    destruct (is_nil _); [congruence|]. destruct (conv _); congruence.
  - intros Hf. apply Forall2_cons_inv_l in Hf as (v & vs' & Hv & Hvs%IH & ->). exists v. split; [|by exists vs'].
    unfold binds in Hv. destruct (is_nil _); [congruence|]. by rewrite Hv.
Qed.

Lemma mappedParams_spec inputs ps k : k ∈ mappedParams inputs ps <-> k ∈ all_ids ps /\ is_nil (index inputs k) = false.
Proof. unfold mappedParams. rewrite elem_of_list_to_set, list_elem_of_filter. tauto. Qed.

(** C35: binding the inputs succeeds exactly when every key of the inputs is declared and
    has a value that is not null, and every parameter that has a value can take it; the
    result then binds each parameter, in order, to its converted input or, without one, to
    its default. The order in which the input map is visited does not matter. *)
Theorem bindParameters_exact inputs source order ps b :
  (forall m : gmap string any, order m ≡ₚ (map_to_list m).*1) ->
  bindParameters inputs source order ps = Ok b <->
  (forall k v, inputs !! k = Some v -> k ∈ all_ids ps /\ v <> VNil) /\
  b_parameters b = ps /\
  Forall2 (binds inputs (fun p => ID (ip p)) conv_input in_default) (Input ps) (v_Input (b_values b)) /\
  Forall2 (binds inputs (fun p => ID (sp p)) conv_single DefaultValue) (SingleSelect ps) (v_SingleSelect (b_values b)) /\
  Forall2 (binds inputs (fun p => ID (sp p)) conv_multi DefaultValue) (MultiSelect ps) (v_MultiSelect (b_values b)) /\
  Forall2 (binds inputs (fun p => ID (cp p)) conv_checkbox cb_default) (Checkbox ps) (v_Checkbox (b_values b)) /\
  Forall2 (binds inputs (fun p => ID (sp p)) conv_radio DefaultValue) (Radio ps) (v_Radio (b_values b)).
Proof.
  intros Ho. unfold bindParameters. rewrite bind_Ok. setoid_rewrite bind_Ok. setoid_rewrite bind_Ok.
  setoid_rewrite bind_Ok. setoid_rewrite bind_Ok. setoid_rewrite bind_loop_Ok.
  assert (unmapped_params inputs order ps = [] <-> forall k v, inputs !! k = Some v -> k ∈ all_ids ps /\ v <> VNil) as Hun.
  { unfold unmapped_params. rewrite filter_nil_iff. split.
    - intros Hall k v Hk. assert (k ∈ mappedParams inputs ps) as Hin.
      { apply dec_stable, Hall. rewrite Ho. apply list_elem_of_fmap. exists (k, v). split; [done|]. by apply elem_of_map_to_list. }
      apply mappedParams_spec in Hin as [? Hnil]. split; [done|]. intros ->. unfold index in Hnil. by rewrite Hk in Hnil.
    - intros Hall k Hk Hn. rewrite Ho in Hk. apply list_elem_of_fmap in Hk as ([k' v] & -> & Hkv%elem_of_map_to_list).
      apply Hn, mappedParams_spec. destruct (Hall k' v Hkv) as [? Hv]. split; [done|]. unfold index. cbn. rewrite Hkv. by destruct v. }
  split.
  - intros (i & Hi & s & Hs & m & Hm & c & Hc & r & Hr & Hb). destruct (unmapped_params _ _ _) as [|x [|y l]]; [|done..].
    injection Hb as <-. cbn. split; [by apply Hun|]. done.
  - intros (Hall & Hp & Hi & Hs & Hm & Hc & Hr). destruct b as [bp [bc br bs bm bi]]; cbn in *. subst bp.
    exists bi. split; [done|]. exists bs. split; [done|]. exists bm. split; [done|]. exists bc. split; [done|].
    exists br. split; [done|]. by rewrite (proj2 Hun Hall).
Qed.

Definition sample_params : ParameterSet :=
  {| SingleSelect := []; MultiSelect := [{| sp := {| ID := "m"; Required := false |}; DefaultValue := ["d"]; Options := [] |}];
     Checkbox := [{| cp := {| ID := "c"; Required := false |}; cb_default := false |}];
     Input := [{| ip := {| ID := "i"; Required := true |}; in_default := "x" |}]; Radio := [] |}.

Lemma bindParameters_exact_witness :
  is_ok (bindParameters {["c" := VString "TRUE"]} "test" (fun m => (map_to_list m).*1) sample_params) = true /\
  forall k v, ({["c" := VString "TRUE"]} : gmap string any) !! k = Some v -> k ∈ all_ids sample_params /\ v <> VNil.
Proof.
  split; [vm_compute; reflexivity|].
  destruct (bindParameters {["c" := VString "TRUE"]} "test" (fun m => (map_to_list m).*1) sample_params) as [b|e] eqn:Hb;
    [|vm_compute in Hb; discriminate Hb].
  apply (bindParameters_exact {["c" := VString "TRUE"]} "test" (fun m => (map_to_list m).*1) sample_params b (fun _ => reflexivity _)) in Hb.
  apply Hb.
Defined.

(** A declared parameter whose input is null is not given its default: the call fails
    with the error for a parameter that does not exist. *)
Theorem null_input_is_rejected inputs source order ps k :
  (forall m : gmap string any, order m ≡ₚ (map_to_list m).*1) -> inputs !! k = Some VNil ->
  is_ok (bindParameters inputs source order ps) = false.
Proof.
  intros Ho Hk. destruct (bindParameters inputs source order ps) as [b|e] eqn:Hb; [|done].
  unfold bindParameters in Hb. apply bind_Ok in Hb as (i & _ & Hb). apply bind_Ok in Hb as (s & _ & Hb).
  apply bind_Ok in Hb as (m & _ & Hb). apply bind_Ok in Hb as (c & _ & Hb). apply bind_Ok in Hb as (r & _ & Hb).
  assert (k ∈ unmapped_params inputs order ps) as Hin.
  { unfold unmapped_params. apply list_elem_of_filter. split.
    - intros [_ Hn]%mappedParams_spec. unfold index in Hn. by rewrite Hk in Hn.
    - rewrite Ho. apply list_elem_of_fmap. exists (k, VNil). split; [done|]. by apply elem_of_map_to_list. }
  destruct (unmapped_params inputs order ps) as [|x [|y l]]; [by apply not_elem_of_nil in Hin|done|done].
Qed.

Lemma null_input_is_rejected_witness :
  is_ok (bindParameters {["i" := VNil]} "test" (fun m => (map_to_list m).*1) sample_params) = false.
Proof. by apply (null_input_is_rejected {["i" := VNil]} "test" (fun m => (map_to_list m).*1) sample_params "i"). Defined.

(** ** Validation accepts exactly the allowed values *)

Definition choice_ok (p : SelectParameter string) (v : string) : Prop :=
  (Required (sp p) = true -> v <> EmptyString) /\ (Options p <> [] -> v <> EmptyString -> v ∈ Options p).

Lemma check_choice_Ok source c p v : check_choice source c (p, v) = Ok tt <-> choice_ok p v.
Proof.
  unfold check_choice, choice_ok, str_empty, some_options, contains.
  destruct (Required (sp p)); repeat case_bool_decide; cbn; naive_solver.
Qed.

Lemma check_multi_Ok source p vs : check_multi source (p, vs) = Ok tt <->
  (Required (sp p) = true -> vs <> []) /\ (Options p <> [] -> forall v, v ∈ vs -> v ∈ Options p).
Proof.
  unfold check_multi, some_options.
  assert (for_each (fun entry => if contains (Options p) entry then Ok tt
            else Err (value_error (ID (sp p)) entry InvalidMultiSelectValue source)) vs = Ok tt <-> forall v, v ∈ vs -> v ∈ Options p) as Hf.
  { rewrite for_each_Ok, Forall_forall. unfold contains. split; intros H v Hv; specialize (H v Hv);
      [by case_bool_decide|by rewrite bool_decide_true]. }
  destruct (Required (sp p)); cbn.
  - case_bool_decide as Hvs; cbn; [split; [done|intros [H _]; by destruct H]|].
    case_bool_decide as Hopt; cbn; [naive_solver|]. rewrite Hf. naive_solver.
  - case_bool_decide as Hopt; cbn; [naive_solver|]. rewrite Hf. naive_solver.
Qed.

(** Validating bound values succeeds exactly when every required input, choice and
    selection is given and every given choice of a parameter with options is one of them. *)
Theorem validateParameterValues_accepts bd source :
  validateParameterValues bd source = Ok tt <->
  let ps := b_parameters bd in
  let vs := b_values bd in
  (forall p v, (p, v) ∈ zip (Input ps) (v_Input vs) -> Required (ip p) = true -> v <> EmptyString) /\
  (forall p v, (p, v) ∈ zip (SingleSelect ps) (v_SingleSelect vs) -> choice_ok p v) /\
  (forall p l, (p, l) ∈ zip (MultiSelect ps) (v_MultiSelect vs) ->
     (Required (sp p) = true -> l <> []) /\ (Options p <> [] -> forall v, v ∈ l -> v ∈ Options p)) /\
  (forall p v, (p, v) ∈ zip (Radio ps) (v_Radio vs) -> choice_ok p v).
Proof.
  cbn zeta. unfold validateParameterValues.
  assert (forall (r1 r2 : result perror unit), (_ ← r1; r2) = Ok tt <-> r1 = Ok tt /\ r2 = Ok tt) as Hseq.
  { intros r1 r2. rewrite bind_Ok. split; [intros ([] & ? & ?); done|intros [? ?]; by exists tt]. }
  rewrite !Hseq, !for_each_Ok, !Forall_forall. repeat apply and_iff_compat.
  - split; intros H.
    + intros p v Hin Hr ->. specialize (H _ Hin). cbn in H. by rewrite Hr in H.
    + intros [p v] Hin. cbn. specialize (H p v Hin). destruct (Required (ip p)); [|done]. unfold str_empty.
      rewrite bool_decide_false; [done|]. by apply H.
  - split; [intros H p v Hin; by apply (check_choice_Ok source InvalidSingleSelectValue), (H (p, v))|
            intros H [p v] Hin; by apply check_choice_Ok, H].
  - split; [intros H p v Hin; by apply (check_multi_Ok source), (H (p, v))|intros H [p v] Hin; by apply check_multi_Ok, H].
  - split; [intros H p v Hin; by apply (check_choice_Ok source InvalidRadioValue), (H (p, v))|
            intros H [p v] Hin; by apply check_choice_Ok, H].
Qed.

(** ** Render parameters keep their types *)

(** Every value that is set belongs to a declared parameter that allows it. *)
Definition render_values_ok (brp : BoundRenderParameters) : Prop :=
  forall id v, brp_values brp !! id = Some v -> v <> VNil ->
    exists p, p ∈ brp_parameters brp /\ rp_id p = id /\ validateRenderParameterValue p v = Ok tt.

Lemma declared_params_spec params : forall (m : gmap string RenderParameter) id p, foldl (fun m p => <[rp_id p := p]> m) m params !! id = Some p ->
  (p ∈ params /\ rp_id p = id) \/ m !! id = Some p.
Proof.
  induction params as [|q params IH]; intros m id p; cbn; [by right|].
  intros [[? ?]|H]%IH; [left; split; [by right|done]|].
  destruct (decide (id = rp_id q)) as [->|]; [rewrite lookup_insert_eq in H|rewrite lookup_insert_ne in H by done; by right].
  injection H as ->. left. split; [left|done].
Qed.

Lemma unset_values params : forall (m : gmap string any) id v,
  (forall i w, m !! i = Some w -> w = VNil) -> foldl (fun m p => <[rp_id p := VNil]> m) m params !! id = Some v -> v = VNil.
Proof.
  induction params as [|q params IH]; intros m id v Hm; cbn; [apply Hm|]. apply IH. intros i w.
  destruct (decide (i = rp_id q)) as [->|]; [rewrite lookup_insert_eq; by intros [= <-]|rewrite lookup_insert_ne by done; apply Hm].
Qed.

Lemma bind_render_one_Ok declared source values kv values' : bind_render_one declared source values kv = Ok values' <->
  (exists p, declared !! kv.1 = Some p /\ (kv.2 = VNil \/ validateRenderParameterValue p kv.2 = Ok tt)) /\
  values' = <[kv.1 := kv.2]> values.
Proof.
  destruct kv as [id v]. unfold bind_render_one. cbn.
  destruct (declared !! id) as [p|]; [|by split; [|intros [(p & ? & _) _]]].
  destruct (is_nil v) eqn:Hv.
  { assert (v = VNil) as -> by by destruct v. split; [intros [= <-]; split; [|done]|by intros [_ ->]].
    exists p. split; [done|by left]. }
  destruct (validateRenderParameterValue p v) as [[]|e] eqn:Hval.
  - split; [intros [= <-]; split; [|done]|by intros [_ ->]]. exists p. split; [done|by right].
  - split; [done|]. intros [(q & Hq & [->|Hok]) _]; [done|]. injection Hq as ->. congruence.
Qed.

Lemma bind_render_fold declared source l : forall values values',
  fold_res (bind_render_one declared source) values l = Ok values' <->
  (forall id v, (id, v) ∈ l -> exists p, declared !! id = Some p /\ (v = VNil \/ validateRenderParameterValue p v = Ok tt)) /\
  values' = foldl (fun m kv => <[kv.1 := kv.2]> m) values l.
Proof.
  induction l as [|kv l IH]; intros values values'; cbn [fold_res foldl].
  { split; [intros [= ->]; split; [set_solver|done]|by intros [_ ->]]. }
  rewrite bind_Ok. setoid_rewrite bind_render_one_Ok. setoid_rewrite IH. split.
  - intros (v1 & [Hp ->] & Hall & ->). split; [|done]. intros id v [<-|?]%elem_of_cons; [done|by apply Hall].
  - intros [Hall ->]. eexists. split; [split; [|done]|].
    + destruct kv as [id v]. apply (Hall id v). left.
    + split; [|done]. intros id v ?. apply Hall. by right.
Qed.

Lemma insert_all_lookup l : forall (m : gmap string any) id v, foldl (fun m kv => <[kv.1 := kv.2]> m) m l !! id = Some v ->
  (id, v) ∈ l \/ m !! id = Some v.
Proof.
  induction l as [|[k w] l IH]; intros m id v; cbn; [by right|]. intros [?|H]%IH; [left; by right|].
  destruct (decide (id = k)) as [->|]; [rewrite lookup_insert_eq in H|rewrite lookup_insert_ne in H by done; by right].
  injection H as ->. left. left.
Qed.

(** C39: binding render parameters succeeds exactly when every input is declared and null or
    allowed by its declaration, and from then on every value that is set is allowed:
    setting a default keeps this, changes only a parameter that is not set, and never
    changes it a second time. *)
Theorem render_parameters_typed inputs params source :
  (is_ok (BindRenderParameters inputs params source) = true <->
   forall id v, (id, v) ∈ inputs ->
     exists p, declared_params params !! id = Some p /\ (v = VNil \/ validateRenderParameterValue p v = Ok tt)) /\
  (forall brp, BindRenderParameters inputs params source = Ok brp -> render_values_ok brp) /\
  (forall brp id v src brp', render_values_ok brp -> SetDefaultRenderParameter brp id v src = Ok brp' ->
     render_values_ok brp' /\
     (forall k, k <> id \/ index (brp_values brp) k <> VNil -> brp_values brp' !! k = brp_values brp !! k) /\
     (v <> VNil -> forall w src', is_ok (SetDefaultRenderParameter brp' id w src') = true ->
        SetDefaultRenderParameter brp' id w src' = Ok brp')).
Proof.
  split_and!.
  - unfold BindRenderParameters. split.
    + destruct (fold_res _ _ _) as [values|] eqn:Hf; [|done]. intros _. by apply bind_render_fold in Hf as [? _].
    + intros Hall. rewrite (proj2 (bind_render_fold (declared_params params) source inputs _ _) (conj Hall eq_refl)). done.
  - intros brp (values & [Hall ->]%bind_render_fold & [= <-])%bind_Ok id v Hv Hnil. cbn in *.
    apply insert_all_lookup in Hv as [Hin|Hv].
    + destruct (Hall id v Hin) as (p & Hp & [->|Hok]); [done|]. exists p.
      apply declared_params_spec in Hp as [[? ?]|Hp]; [done|]. by rewrite lookup_empty in Hp.
    + destruct Hnil. eapply unset_values; [|exact Hv]. intros i w. by rewrite lookup_empty.
  - intros brp id v src brp' Hok. unfold SetDefaultRenderParameter.
    destruct (find_index _ (brp_parameters brp) ≫= _) as [p|] eqn:Hp; [|done].
    assert (p ∈ brp_parameters brp /\ rp_id p = id) as [Hpin Hpid].
    { destruct (find_index _ _) as [i|] eqn:Hi; [|done]. cbn in Hp. apply find_index_Some in Hi as (q & Hq & Hid%bool_decide_eq_true & _).
      assert (p = q) as -> by congruence. split; [by eapply list_elem_of_lookup_2|done]. }
    destruct (is_nil (index (brp_values brp) id)) eqn:Hset; cbn [negb orb].
    + destruct (is_nil v) eqn:Hv.
      { intros [= <-]. split; [done|]. split; [done|]. by destruct v. }
      destruct (validateRenderParameterValue p v) as [[]|] eqn:Hval; [|done]. intros [= <-]. cbn. split_and!.
      * intros k w Hk Hw. cbn in Hk. destruct (decide (k = id)) as [->|];
          [rewrite lookup_insert_eq in Hk; injection Hk as <-; by exists p|rewrite lookup_insert_ne in Hk by done; by apply Hok].
      * intros k [Hk|Hk]; [by rewrite lookup_insert_ne|]. destruct (decide (k = id)) as [->|]; [|by rewrite lookup_insert_ne].
        by destruct (index (brp_values brp) id).
      * intros _ w src' _. rewrite Hp. unfold index. rewrite lookup_insert_eq. cbn. by rewrite Hv.
    + intros [= <-]. split; [done|]. split; [done|]. intros _ w src' _. rewrite Hp, Hset. done.
Qed.

(** ** Options of select parameters *)

Lemma convert_items_Ok v l legacy t : forall i items, convert_items v legacy t i l = Ok items ->
  Forall2 (fun x item => match x with
    | VString s => Cmp v legacy <= 0 /\ item = option_of_string s
    | VObject fields => exists value, string_field fields "value" = Some value /\ item = option_of_object fields value
    | _ => False end) l items.
Proof.
  induction l as [|x l IH]; intros i items; cbn [convert_items]; [intros [= <-]; constructor|].
  intros (item & Hitem & (items' & Hitems & [= <-])%bind_Ok)%bind_Ok. constructor; [|by eapply IH].
  destruct x; cbn in Hitem; try done.
  - destruct (Z.ltb_spec 0 (Cmp v legacy)); [done|]. injection Hitem as <-. done.
  - destruct (string_field fields "value") as [value|]; [|done]. injection Hitem as <-. by exists value.
Qed.

(** Options converted for a recipe always come with the same number of values and
    items, each value being that of its item, and a recipe newer than version 1.0.0 only
    gets options that were written as objects with a value. *)
Theorem recipe_options_agree data v values items :
  ConvertRecipeSelectOptionValuesAndItems data v = Ok (Some (values, items)) ->
  values = Value <$> items /\
  (0 < Cmp v LegacyRecipeSelectStringOptionsAPIVersion ->
   exists l, data = VList l /\ Forall (fun x => exists fields value, x = VObject fields /\ string_field fields "value" = Some value) l).
Proof.
  unfold ConvertRecipeSelectOptionValuesAndItems, convertRecipeOptionValuesAndItems. intros H.
  destruct data as [|s|b|f|l|l|fields]; try done.
  - destruct (convert_items _ _ _ 0 l) as [its|] eqn:Hc; [|done]. cbn in H. injection H as <- <-. split; [done|].
    intros Hnew. exists l. split; [done|]. apply convert_items_Ok in Hc. clear -Hc Hnew.
    induction Hc as [|x item l its Hx Hc IH]; [constructor|]. constructor; [|done].
    destruct x; try done; [lia|]. destruct Hx as (value & ? & _). by exists fields, value.
  - destruct (Z.ltb_spec 0 (Cmp v LegacyRecipeSelectStringOptionsAPIVersion)); [done|]. injection H as <- <-.
    split; [|lia]. rewrite <- list_fmap_compose. symmetry. apply list_fmap_id.
Qed.

Lemma recipe_options_agree_witness :
  let items := [option_of_object [("value", VString "a")] "a"] in
  ["a"] = (Value <$> items) /\
  (0 < Cmp {| Major := 1; Minor := 1; Patch := 0 |} LegacyRecipeSelectStringOptionsAPIVersion ->
   exists l, VList [VObject [("value", VString "a")]] = VList l /\
     Forall (fun x => exists fields value, x = VObject fields /\ string_field fields "value" = Some value) l).
Proof. apply (recipe_options_agree (VList [VObject [("value", VString "a")]]) {| Major := 1; Minor := 1; Patch := 0 |}). reflexivity. Defined.
