(* ===== verification/CmdSync.v ===== *)
(** * Performix: commands to a running recipe

    Models [core/apap-engine/cmdsync/command_state_map.go] (the command state of every run,
    behind pointers shared by the map and the run) and [command_state_channel.go] (the
    goroutine that polls a command state and closes the stop and cancel channels). *)

From S2P Require Import Prelude.

Local Open Scope Z_scope.

(** ** Command states and their map *)

Definition CommandStop : Z := 1.
Definition CommandCancel : Z := 2.

Record CommandState := { RecipeCommand : Z; cancelErr : option string }.

Definition fresh_state : CommandState := {| RecipeCommand := 0; cancelErr := None |}.

Definition Read (s : CommandState) : Z := RecipeCommand s.
Definition Reset (s : CommandState) : CommandState := fresh_state.
Definition Set_ (s : CommandState) (flag : Z) : CommandState :=
  {| RecipeCommand := wrap_uint32 flag; cancelErr := cancelErr s |}.
Definition SetCancelError (s : CommandState) (err : option string) : CommandState :=
  {| RecipeCommand := RecipeCommand s; cancelErr := err |}.
Definition CancelError (s : CommandState) : option string := cancelErr s.

(** The states that exist, by address, and the map [Bus] from runs to addresses. *)
Record commandStateMap := { heap : gmap nat CommandState; Bus : gmap string nat }.

Definition NewCommandStateMap : commandStateMap := {| heap := ∅; Bus := ∅ |}.

(** The address of the new state is returned. *)
Definition CreateCommandState (b : commandStateMap) (id : string) : commandStateMap * nat :=
  let p := fresh (dom (heap b)) in
  ({| heap := <[p := fresh_state]> (heap b); Bus := <[id := p]> (Bus b) |}, p).

Inductive bus_error := DoesNotExist (id : string).

Definition Write (b : commandStateMap) (id : string) (flag : Z) : result bus_error commandStateMap :=
  match Bus b !! id with
  | None => Err (DoesNotExist id)
  | Some p => Ok {| heap := alter (fun s => Set_ s flag) p (heap b); Bus := Bus b |}
  end.

Definition Remove (b : commandStateMap) (id : string) : result bus_error commandStateMap :=
  b' ← Write b id 0;
  Ok {| heap := heap b'; Bus := delete id (Bus b') |}.

(** What the holder of an address reads. *)
Definition read_at (b : commandStateMap) (p : nat) : option Z := Read <$> heap b !! p.

(** Every run of the map has a state of its own. *)
Record map_ok (b : commandStateMap) : Prop := {
  mo_valid : forall id p, Bus b !! id = Some p -> is_Some (heap b !! p);
  mo_own : forall id id' p, Bus b !! id = Some p -> Bus b !! id' = Some p -> id = id'
}.

Inductive map_reachable : commandStateMap -> Prop :=
| mr_new : map_reachable NewCommandStateMap
| mr_create b id : map_reachable b -> map_reachable (CreateCommandState b id).1
| mr_write b id flag b' : map_reachable b -> Write b id flag = Ok b' -> map_reachable b'
| mr_remove b id b' : map_reachable b -> Remove b id = Ok b' -> map_reachable b'
| mr_holder b p f : map_reachable b -> map_reachable {| heap := alter f p (heap b); Bus := Bus b |}.

Lemma Write_Ok b id flag b' : Write b id flag = Ok b' <->
  exists p, Bus b !! id = Some p /\ b' = {| heap := alter (fun s => Set_ s flag) p (heap b); Bus := Bus b |}.
Proof.
  unfold Write. destruct (Bus b !! id) as [p|]; [|split; [done|by intros (? & ? & ?)]].
  split; [intros [= <-]; by exists p|]. by intros (p' & [= <-] & ->).
Qed.

Lemma Remove_Ok b id b' : Remove b id = Ok b' <->
  exists p, Bus b !! id = Some p /\ b' = {| heap := alter (fun s => Set_ s 0) p (heap b); Bus := delete id (Bus b) |}.
Proof.
  unfold Remove. rewrite bind_Ok. setoid_rewrite Write_Ok. split.
  - intros (b1 & (p & Hp & ->) & [= <-]). by exists p.
  - intros (p & Hp & ->). eexists. split; [by exists p|done].
Qed.

Lemma fresh_address b : heap b !! (CreateCommandState b EmptyString).2 = None.
Proof. cbn. apply not_elem_of_dom, is_fresh. Qed.

Lemma map_ok_alter b f p : map_ok b -> map_ok {| heap := alter f p (heap b); Bus := Bus b |}.
Proof. intros [Hv Ho]. split; [|done]. intros id q Hq. cbn. rewrite lookup_alter_is_Some. by eapply Hv. Qed.

Lemma map_reachable_ok b : map_reachable b -> map_ok b.
Proof.
  induction 1 as [|b id _ [Hv Ho]|b id flag b' _ IH Hw|b id b' _ IH Hr|b p f _ IH].
  - split; cbn; [intros id p H|intros id id' p H _]; by rewrite lookup_empty in H.
  - set (p := fresh (dom (heap b))). assert (heap b !! p = None) as Hp by apply fresh_address.
    split; cbn; fold p.
    + intros id' q [[<- <-]|[_ Hq]]%lookup_insert_Some; [rewrite lookup_insert_eq; by eexists|].
      rewrite lookup_insert_ne; [by eapply Hv|]. intros <-. apply Hv in Hq. rewrite Hp in Hq. by apply is_Some_None in Hq.
    + intros i j q [[<- <-]|[Hi Hq]]%lookup_insert_Some [[<- Heq]|[Hj Hq']]%lookup_insert_Some; try done.
      * apply Hv in Hq'. rewrite Hp in Hq'. by apply is_Some_None in Hq'.
      * subst q. apply Hv in Hq. rewrite Hp in Hq. by apply is_Some_None in Hq.
      * by eapply Ho.
  - apply Write_Ok in Hw as (p & _ & ->). by apply map_ok_alter.
  - apply Remove_Ok in Hr as (p & _ & ->). apply (map_ok_alter _ (fun s => Set_ s 0) p) in IH as [Hv Ho].
    split; cbn in *; [intros i q [_ Hq]%lookup_delete_Some; by eapply Hv|].
    intros i j q [_ Hi]%lookup_delete_Some [_ Hj]%lookup_delete_Some. by eapply Ho.
  - by apply map_ok_alter.
Qed.

(** A command written for a run reaches the state that was created for it and the state
    of no other run; a run that was removed reads no command and cannot be written again;
    and creating a state for a run that has one leaves the old state out of reach. *)
Theorem commands_reach_their_run b id : map_reachable b ->
  (forall flag, match Write b id flag with
   | Err _ => Bus b !! id = None
   | Ok b' => exists p, Bus b !! id = Some p /\ read_at b' p = Some (wrap_uint32 flag) /\
       forall id' q, id' <> id -> Bus b !! id' = Some q -> Bus b' !! id' = Some q /\ heap b' !! q = heap b !! q
   end) /\
  (forall b', Remove b id = Ok b' -> exists p, Bus b !! id = Some p /\ read_at b' p = Some 0 /\
     (forall flag, is_ok (Write b' id flag) = false) /\
     forall id' q, id' <> id -> Bus b !! id' = Some q -> Bus b' !! id' = Some q /\ heap b' !! q = heap b !! q) /\
  (forall b' p, CreateCommandState b id = (b', p) -> Bus b' !! id = Some p /\ read_at b' p = Some 0 /\
     (forall id' q, id' <> id -> Bus b !! id' = Some q -> Bus b' !! id' = Some q /\ heap b' !! q = heap b !! q) /\
     forall old, Bus b !! id = Some old -> forall id', Bus b' !! id' <> Some old).
Proof.
  intros Hok%map_reachable_ok. pose proof Hok as [Hv Ho]. split_and!.
  - intros flag. destruct (Write b id flag) as [b'|e] eqn:Hw.
    + apply Write_Ok in Hw as (p & Hp & ->). exists p. split; [done|]. destruct (Hv _ _ Hp) as [s Hs].
      split; [unfold read_at; cbn; by rewrite lookup_alter_eq, Hs|]. intros id' q Hne Hq. split; [done|].
      cbn. rewrite lookup_alter_ne; [done|]. intros ->. by apply Hne, (Ho id' id q).
    + unfold Write in Hw. by destruct (Bus b !! id).
  - intros b' (p & Hp & ->)%Remove_Ok. exists p. split; [done|]. destruct (Hv _ _ Hp) as [s Hs].
    split; [unfold read_at; cbn; by rewrite lookup_alter_eq, Hs|]. split.
    { intros flag. unfold Write. cbn. by rewrite lookup_delete_eq. }
    intros id' q Hne Hq. cbn. rewrite lookup_delete_ne by done. split; [done|].
    rewrite lookup_alter_ne; [done|]. intros ->. by apply Hne, (Ho id' id q).
  - unfold CreateCommandState. set (p := fresh (dom (heap b))). intros b' ? [= <- <-]. cbn.
    assert (heap b !! p = None) as Hp by apply fresh_address.
    assert (forall id' q, Bus b !! id' = Some q -> q <> p) as Hnp.
    { intros id' q Hq ->. apply Hv in Hq. rewrite Hp in Hq. by apply is_Some_None in Hq. }
    split; [by rewrite lookup_insert_eq|]. split; [unfold read_at; cbn; by rewrite lookup_insert_eq|]. split.
    + intros id' q Hne Hq. rewrite !lookup_insert_ne; [done|by intros <-; eapply Hnp|done].
    + intros old Hold id' [[<- <-]|[Hne Hq]]%lookup_insert_Some; [by eapply Hnp|]. by apply Hne, (Ho id id' old).
Qed.

Definition one_run : commandStateMap := (CreateCommandState NewCommandStateMap "r1").1.

Lemma commands_reach_their_run_witness :
  match Write one_run "r1" CommandCancel with
  | Err _ => False
  | Ok b' => exists p, Bus one_run !! "r1" = Some p /\ read_at b' p = Some 2
  end.
Proof.
  destruct (commands_reach_their_run one_run "r1") as (H & _); [apply mr_create, mr_new|].
  specialize (H CommandCancel). destruct (Write one_run "r1" CommandCancel) as [b'|e].
  - destruct H as (p & Hp & Hr & _). exists p. split; [exact Hp|exact Hr].
  - discriminate H.
Defined.

(** ** The polling goroutine *)

Inductive poller := Polling (prev : Z) | Exited.

(** A [CommandStateChannel] with the command state it polls and its context: [stop_closed]
    and the like count the closings of a channel; a second one would panic. *)
Record CommandStateChannel := {
  command : Z;
  ctx_done : bool;
  stop_closed : nat;
  cancel_closed : nat;
  runner_closed : nat;
  stopOnce : bool;
  closeOnce : bool;
  goroutine : poller
}.

Definition NewCommandStateChannel (value : Z) : CommandStateChannel :=
  {| command := value; ctx_done := false; stop_closed := 0; cancel_closed := 0; runner_closed := 0;
     stopOnce := false; closeOnce := false; goroutine := Polling 0 |}.

Definition with_command (c : CommandStateChannel) (v : Z) (done : bool) : CommandStateChannel :=
  {| command := v; ctx_done := done; stop_closed := stop_closed c; cancel_closed := cancel_closed c;
     runner_closed := runner_closed c; stopOnce := stopOnce c; closeOnce := closeOnce c; goroutine := goroutine c |}.

Definition Close (c : CommandStateChannel) : CommandStateChannel :=
  {| command := command c; ctx_done := ctx_done c; stop_closed := stop_closed c; cancel_closed := cancel_closed c;
     runner_closed := if closeOnce c then runner_closed c else S (runner_closed c);
     stopOnce := stopOnce c; closeOnce := true; goroutine := goroutine c |}.

(** The three cases of the [select] of [pollCommandState]. *)
Definition poll_done (c : CommandStateChannel) : CommandStateChannel :=
  {| command := command c; ctx_done := ctx_done c; stop_closed := stop_closed c; cancel_closed := S (cancel_closed c);
     runner_closed := runner_closed c; stopOnce := stopOnce c; closeOnce := closeOnce c; goroutine := Exited |}.

Definition poll_closed (c : CommandStateChannel) : CommandStateChannel :=
  {| command := command c; ctx_done := ctx_done c; stop_closed := stop_closed c; cancel_closed := cancel_closed c;
     runner_closed := runner_closed c; stopOnce := stopOnce c; closeOnce := closeOnce c; goroutine := Exited |}.

Definition poll_tick (c : CommandStateChannel) (prev : Z) : CommandStateChannel :=
  let cur := command c in
  if cur =? prev then c
  else if cur =? CommandStop then
    {| command := cur; ctx_done := ctx_done c; stop_closed := if stopOnce c then stop_closed c else S (stop_closed c);
       cancel_closed := cancel_closed c; runner_closed := runner_closed c; stopOnce := true;
       closeOnce := closeOnce c; goroutine := Polling cur |}
  else if cur =? CommandCancel then poll_done c
  else {| command := cur; ctx_done := ctx_done c; stop_closed := stop_closed c; cancel_closed := cancel_closed c;
          runner_closed := runner_closed c; stopOnce := stopOnce c; closeOnce := closeOnce c; goroutine := Polling cur |}.

(** A [select] takes any case that is ready; clients write commands, cancel the context and
    close the channel at any time. *)
Inductive channel_step : CommandStateChannel -> CommandStateChannel -> Prop :=
| write_command c v : channel_step c (with_command c v (ctx_done c))
| cancel_context c : channel_step c (with_command c (command c) true)
| close_channel c : channel_step c (Close c)
| select_done c prev : goroutine c = Polling prev -> ctx_done c = true -> channel_step c (poll_done c)
| select_closed c prev : goroutine c = Polling prev -> (0 < runner_closed c)%nat -> channel_step c (poll_closed c)
| select_tick c prev : goroutine c = Polling prev -> channel_step c (poll_tick c prev).

Definition channel_reachable (c : CommandStateChannel) : Prop := exists v, rtc channel_step (NewCommandStateChannel v) c.

Record channel_inv (c : CommandStateChannel) : Prop := {
  ci_stop : stop_closed c = if stopOnce c then 1%nat else 0%nat;
  ci_runner : runner_closed c = if closeOnce c then 1%nat else 0%nat;
  ci_cancel : match goroutine c with
              | Polling prev => cancel_closed c = 0%nat /\ prev <> CommandCancel /\ (prev = CommandStop -> stopOnce c = true)
              | Exited => cancel_closed c = 1%nat \/ (cancel_closed c = 0%nat /\ closeOnce c = true)
              end
}.

Lemma channel_step_inv c c' : channel_inv c -> channel_step c c' -> channel_inv c'.
Proof.
  intros [Hs Hr Hc] Hstep. destruct Hstep as [c v|c|c|c prev Hg _|c prev Hg Hcl|c prev Hg].
  - by split.
  - by split.
  - split; cbn; [done|by destruct (closeOnce c); lia|].
    destruct (goroutine c); [done|]. destruct Hc as [?|[? _]]; [by left|by right].
  - rewrite Hg in Hc. split; cbn; [done..|]. left. lia.
  - rewrite Hg in Hc. split; cbn; [done..|]. right. destruct (closeOnce c); [|lia]. by destruct Hc.
  - rewrite Hg in Hc. destruct Hc as (Hz & Hp & Hst). unfold poll_tick.
    destruct (command c =? prev) eqn:?; [split; [done..|]; by rewrite Hg|].
    destruct (command c =? CommandStop) eqn:?; [|destruct (command c =? CommandCancel) eqn:?]; bool_to_prop.
    + split; cbn; [by destruct (stopOnce c); lia|done|]. split_and!; [done| |done]. intros Heq.
      unfold CommandStop, CommandCancel in *. lia.
    + split; cbn; [done..|]. left. lia.
    + split; cbn; [done..|]. split_and!; [done..|]. intros ?. done.
Qed.

Lemma channel_reachable_inv c : channel_reachable c -> channel_inv c.
Proof.
  intros [v Hr]. remember (NewCommandStateChannel v) as c0 eqn:Hc0.
  assert (channel_inv c0) as H0 by (subst; split; cbn; [done..|]; split_and!; done).
  clear Hc0. induction Hr as [c|c c1 c2 Hs _ IH]; [done|]. by apply IH, (channel_step_inv c).
Qed.

(** In every reachable state no channel was closed twice, so polling never panics. While
    the goroutine polls, the next tick notices a command that is still set: it closes the
    stop channel for a stop, if it is not closed already, and the cancel channel for a
    cancel; and the goroutine only ends with the cancel channel closed or by [Close]. *)
Theorem polling_is_safe_and_notices c : channel_reachable c ->
  (stop_closed c <= 1)%nat /\ (cancel_closed c <= 1)%nat /\ (runner_closed c <= 1)%nat /\
  match goroutine c with
  | Exited => cancel_closed c = 1%nat \/ runner_closed c = 1%nat
  | Polling prev => cancel_closed c = 0%nat /\
      (command c = CommandStop -> stop_closed (poll_tick c prev) = 1%nat) /\
      (command c = CommandCancel -> cancel_closed (poll_tick c prev) = 1%nat /\ goroutine (poll_tick c prev) = Exited)
  end.
Proof.
  intros [Hs Hr Hc]%channel_reachable_inv. split; [rewrite Hs; by destruct (stopOnce c); lia|].
  assert (cancel_closed c <= 1)%nat as Hle by (destruct (goroutine c); lia).
  split; [done|]. split; [rewrite Hr; by destruct (closeOnce c); lia|].
  destruct (goroutine c) as [prev|]; [|destruct Hc as [?|[_ Hcl]]; [by left|right; by rewrite Hr, Hcl]].
  destruct Hc as (Hz & Hp & Hst). split; [done|]. unfold poll_tick. split; intros ->.
  - destruct (CommandStop =? prev) eqn:?; bool_to_prop.
    + rewrite Hs, Hst by done. done.
    + cbn. rewrite Hs. by destruct (stopOnce c).
  - destruct (CommandCancel =? prev) eqn:?; bool_to_prop; [congruence|]. cbn. by rewrite Hz.
Qed.

(** The bits of a command are not looked at one by one: a value with both bits set is neither
    a stop nor a cancel. *)
Example both_bits : let c := poll_tick (NewCommandStateChannel (Z.lor CommandStop CommandCancel)) 0 in
  (stop_closed c, cancel_closed c) = (0%nat, 0%nat).
Proof. vm_compute. reflexivity. Qed.

Lemma polling_is_safe_and_notices_witness :
  let c := with_command (NewCommandStateChannel 0) CommandCancel false in
  cancel_closed (poll_tick c 0) = 1%nat /\ goroutine (poll_tick c 0) = Exited.
Proof.
  intros c. assert (channel_reachable c) as Hc.
  { exists 0. apply rtc_once. exact (write_command (NewCommandStateChannel 0) CommandCancel). }
  destruct (polling_is_safe_and_notices c Hc) as (_ & _ & _ & _ & _ & H). exact (H eq_refl).
Defined.
