(* ===== verification/StageDriver.v ===== *)
(** * Performix: executing the stages of a recipe

    Models [DriveRecipeExecutionStages] of [core/apap-engine/recipe/runtime/driver.go] over
    the stages of [core/apap-engine/recipe/stage.go]. A stage is given by what its [Execute]
    does to the context; no stage writes the recorded failure, so [Execute] returns the rest
    of the context only, which holds the fields of the stages too: the kind of error of a
    stage is read after it has executed and may depend on them. What other goroutines do to
    the command state while a stage executes is part of what [Execute] returns. *)

From S2P Require Import Prelude.
From S2P Require Import CmdSync.

(** ** Results of runs *)

Definition RunResult := string.
Definition RecipeSuccess : RunResult := "success".
Definition RecipeFailureConnectSSH : RunResult := "failure_connect_ssh".
Definition RecipeFailureConnectAgent : RunResult := "failure_connect_to_agent".
Definition RecipeFailureCollect : RunResult := "failure_collect_target_info".
Definition RecipeFailureWorkloadOptions : RunResult := "failure_evaluate_workload_options".
Definition RecipeFailureNoShell : RunResult := "failure_no_shell_available".
Definition RecipeFailureIdentify : RunResult := "failure_identify_target_architecture".
Definition RecipeFailureUnsupportedPlatform : RunResult := "failure_target_platform_unsupported".
Definition RecipeFailureCheckPlatformSupport : RunResult := "failure_check_platform_support".
Definition RecipeFailureRetrieve : RunResult := "failure_retrieve_output_files".
Definition RecipeFailureRetrievePhase1Complete : RunResult := "failure_retrieve_output_files_phase1_complete".
Definition RecipeFailureDeploy : RunResult := "failure_tool_deployment".
Definition RecipeFailureStage : RunResult := "failure_recipe_stage".
Definition RecipeFailureTargetLock : RunResult := "failure_target_lock".

(** ** The driver *)

Section Driver.

(** Errors, cleanup functions and the rest of the context; the message of a cancellation. *)
Context {E C W : Type} (user_cancelled : E).

Record StageContextFailure := { Error : E; failure_result : RunResult }.

(** [Failure] is [None] as long as its [Error] is nil. *)
Record StageContext := { Failure : option StageContextFailure; commandState : CommandState; rest_of_context : W }.

Record Stage := {
  Name : string;
  ErrorType : W -> RunResult;
  AlwaysExecute : bool;
  Execute : StageContext -> CommandState * W * option C * option E
}.

Record StageInfo := { info_name : string; Num : nat; Count : nat }.

Inductive event :=
| OnStageStart (i : StageInfo)
| OnStageCancelled (i : StageInfo)
| OnStageEnd (i : StageInfo) (err : option E)
| CleanUp (c : C).

(** The loop from stage number [num] on: the notifications, with the deferred cleanups run at
    the return, and the result. The cancel error of a command state carries a text only, so
    [cancel_error] makes an error of it. *)
Context (cancel_error : string -> E).

Fixpoint drive (count num : nat) (ss : list Stage) (ctx : StageContext) : list event * (RunResult * option E) :=
  match ss with
  | [] => ([], match Failure ctx with
               | None => (RecipeSuccess, None)
               | Some f => (failure_result f, Some (Error f))
               end)
  | stage :: rest =>
      let stageInfo := {| info_name := Name stage; Num := S num; Count := count |} in
      if bool_decide (is_Some (Failure ctx)) && negb (AlwaysExecute stage) then drive count (S num) rest ctx
      else
        let '(state, w, cleanUp, err) := Execute stage ctx in
        let deferred := match cleanUp with Some c => [CleanUp c] | None => [] end in
        let failure := match err with
                       | Some e => Some {| Error := e; failure_result := ErrorType stage w |}
                       | None => Failure ctx
                       end in
        if (Read state =? CommandCancel)%Z then
          ([OnStageStart stageInfo; OnStageCancelled stageInfo; OnStageEnd stageInfo err] ++ deferred,
           (ErrorType stage w, Some (match CancelError state with Some e => cancel_error e | None => user_cancelled end)))
        else
          let r := drive count (S num) rest {| Failure := failure; commandState := state; rest_of_context := w |} in
          ([OnStageStart stageInfo; OnStageEnd stageInfo err] ++ r.1 ++ deferred, r.2)
  end.

Definition DriveRecipeExecutionStages (ss : list Stage) (ctx : StageContext) : list event * (RunResult * option E) :=
  drive (length ss) 0 ss ctx.

(** ** What the driver promises *)

(** The execution of one stage: its index, the command state afterwards, and the outcome. *)
Record execution := { x_index : nat; x_stage : Stage; x_state : CommandState; x_rest : W; x_cleanup : option C; x_err : option E }.

Definition info_of (count : nat) (x : execution) : StageInfo :=
  {| info_name := Name (x_stage x); Num := S (x_index x); Count := count |}.

Definition cancelled (x : execution) : bool := (Read (x_state x) =? CommandCancel)%Z.

Definition notifications (count : nat) (x : execution) : list event :=
  [OnStageStart (info_of count x)] ++
  (if cancelled x then [OnStageCancelled (info_of count x)] else []) ++ [OnStageEnd (info_of count x) (x_err x)].

Definition failure_of (x : execution) : option StageContextFailure :=
  (fun e => {| Error := e; failure_result := ErrorType (x_stage x) (x_rest x) |}) <$> x_err x.

(** The result of a run with the given executions, starting from [failed]: a cancelled last
    stage decides; otherwise the last failure, if any. *)
Definition result_of (failed : option StageContextFailure) (xs : list execution) : RunResult * option E :=
  match last xs with
  | Some x => if cancelled x
              then (ErrorType (x_stage x) (x_rest x), Some (match CancelError (x_state x) with Some e => cancel_error e | None => user_cancelled end))
              else match default failed (Some <$> last (omap failure_of xs)) with
                   | Some f => (failure_result f, Some (Error f))
                   | None => (RecipeSuccess, None)
                   end
  | None => match failed with Some f => (failure_result f, Some (Error f)) | None => (RecipeSuccess, None) end
  end.

(** The executions of the stages [ss], the first of which has index [num]. *)
Record executes (num : nat) (ss : list Stage) (ctx : StageContext) (xs : list execution) : Prop := {
  ex_order : StronglySorted (fun a b => x_index a < x_index b) xs;
  ex_real : forall x, x ∈ xs -> num <= x_index x /\ ss !! (x_index x - num) = Some (x_stage x) /\
    exists ctx', Execute (x_stage x) ctx' = (x_state x, x_rest x, x_cleanup x, x_err x);
  ex_which : forall i stage, ss !! i = Some stage ->
    (exists x, x ∈ xs /\ x_index x = num + i) <->
    (AlwaysExecute stage = true \/ (Failure ctx = None /\ forall x, x ∈ xs -> x_index x < num + i -> x_err x = None)) /\
    (forall x, x ∈ xs -> x_index x < num + i -> cancelled x = false);
  ex_cancelled : forall x y, x ∈ xs -> y ∈ xs -> x_index x < x_index y -> cancelled x = false
}.

Lemma executes_skip num stage rest ctx xs : AlwaysExecute stage = false -> Failure ctx <> None ->
  executes (S num) rest ctx xs -> executes num (stage :: rest) ctx xs.
Proof.
  intros Ha Hf [Ho Hr Hw Hc]. split; [done| | |done].
  - intros x Hx. destruct (Hr x Hx) as (Hle & Hs & Hex). split; [lia|]. split; [|done].
    replace (x_index x - num) with (S (x_index x - S num)) by lia. done.
  - intros [|i] stage' Hi.
    + injection Hi as <-. split.
      * intros (x & Hx & Heq). destruct (Hr x Hx). lia.
      * intros [[?|[? _]] _]; congruence.
    + cbn in Hi. replace (num + S i) with (S num + i) by lia. by apply Hw.
Qed.

(** One more execution in front of those of the later stages. *)
Lemma executes_cons num stage rest ctx state w cleanUp err xs ctx' :
  (AlwaysExecute stage = true \/ Failure ctx = None) ->
  Execute stage ctx = (state, w, cleanUp, err) ->
  let x := {| x_index := num; x_stage := stage; x_state := state; x_rest := w; x_cleanup := cleanUp; x_err := err |} in
  (if cancelled x then xs = []
   else executes (S num) rest ctx' xs /\ (Failure ctx' = None <-> Failure ctx = None /\ err = None)) ->
  executes num (stage :: rest) ctx (x :: xs).
Proof.
  intros Ha He x Hrest. assert (num <= x_index x /\ (stage :: rest) !! (x_index x - num) = Some (x_stage x) /\
    exists ctx0, Execute (x_stage x) ctx0 = (x_state x, x_rest x, x_cleanup x, x_err x)) as Hx0.
  { cbn. rewrite Nat.sub_diag. split; [lia|]. split; [done|]. by exists ctx. }
  destruct (cancelled x) eqn:Hcx.
  - subst xs. split.
    + repeat constructor.
    + by intros y ->%list_elem_of_singleton.
    + intros [|i] stage' Hi.
      * injection Hi as <-. split; [|intros _; exists x; split; [left|cbn; lia]]. intros _.
        split; [|intros y ->%list_elem_of_singleton; cbn; lia].
        destruct Ha as [?|?]; [by left|right]. split; [done|]. intros y ->%list_elem_of_singleton. cbn. lia.
      * split.
        -- intros (y & ->%list_elem_of_singleton & Heq). cbn in Heq. lia.
        -- intros [_ Hall]. specialize (Hall x ltac:(left) ltac:(cbn; lia)). congruence.
    + intros y z ->%list_elem_of_singleton ->%list_elem_of_singleton. lia.
  - destruct Hrest as [[Ho Hr Hw Hc] Hf]. split.
    + constructor; [done|]. apply Forall_forall. intros y Hy. destruct (Hr y Hy). cbn. lia.
    + intros y [->|Hy]%elem_of_cons; [done|]. destruct (Hr y Hy) as (Hle & Hs & Hex). split; [lia|]. split; [|done].
      replace (x_index y - num) with (S (x_index y - S num)) by lia. done.
    + intros [|i] stage' Hi.
      * injection Hi as <-. split; [|intros _; exists x; split; [left|cbn; lia]]. intros _.
        assert (forall y, y ∈ x :: xs -> ~ x_index y < num + 0) as Hno.
        { intros y [->|Hy]%elem_of_cons; [cbn; lia|]. destruct (Hr y Hy). lia. }
        split; [|by intros y Hy ?%Hno]. destruct Ha as [?|?]; [by left|right]. split; [done|]. by intros y Hy ?%Hno.
      * cbn in Hi. replace (num + S i) with (S num + i) by lia. specialize (Hw i stage' Hi).
        assert ((exists y, y ∈ x :: xs /\ x_index y = S num + i) <-> (exists y, y ∈ xs /\ x_index y = S num + i)) as ->.
        { split; intros (y & Hy & Heq); [|exists y; split; [by right|done]].
          apply elem_of_cons in Hy as [->|Hy]; [cbn in Heq; lia|by exists y]. }
        rewrite Hw, Hf. setoid_rewrite elem_of_cons. split.
        -- intros [Hor Hcan]. split; [|intros y [->|Hy] ?; [done|by apply Hcan]].
           destruct Hor as [?|[[? Herr] Hall]]; [by left|right]. split; [done|]. intros y [->|Hy] ?; [done|by apply Hall].
        -- intros [Hor Hcan]. split; [|intros y Hy ?; apply Hcan; [by right|done]].
           destruct Hor as [?|[? Hall]]; [by left|right]. split.
           ++ split; [done|]. apply (Hall x); [by left|cbn; lia].
           ++ intros y Hy ?. apply Hall; [by right|done].
    + intros y z [->|Hy]%elem_of_cons [->|Hz]%elem_of_cons; [done|done| |by apply Hc].
      destruct (Hr y Hy). cbn. lia.
Qed.

Lemma list_omap_nil_iff {A B} (f : A -> option B) l : (forall x, x ∈ l -> f x = None) <-> omap f l = [].
Proof.
  induction l as [|x l IH]; [split; [done|by intros _ x ?%elem_of_nil]|]. cbn. setoid_rewrite elem_of_cons.
  destruct (f x) eqn:Hx.
  - split; [|done]. intros Hall. specialize (Hall x (or_introl eq_refl)). congruence.
  - rewrite <- IH. split; [auto|]. intros Hall y [->|?]; auto.
Qed.

Lemma result_of_cons failed x xs : (cancelled x = true -> xs = []) ->
  result_of failed (x :: xs) =
    if cancelled x then (ErrorType (x_stage x) (x_rest x), Some (match CancelError (x_state x) with Some e => cancel_error e | None => user_cancelled end))
    else result_of (match failure_of x with Some f => Some f | None => failed end) xs.
Proof.
  intros Hc. destruct (cancelled x) eqn:Hx.
  - rewrite (Hc eq_refl). unfold result_of. cbn [last]. by rewrite Hx.
  - unfold result_of. rewrite last_cons. destruct (last xs) as [y|] eqn:Hl.
    + destruct (cancelled y); [done|]. cbn [omap list_omap]. destruct (failure_of x) as [f|] eqn:Hf; [|done].
      rewrite last_cons. by destruct (last (omap failure_of xs)).
    + apply last_None in Hl as ->. rewrite Hx. cbn. by destruct (failure_of x).
Qed.

(** The driver as a relation: from stage number [num] on, the executions and the context at the end. *)
Definition after (ctx : StageContext) (x : execution) : StageContext :=
  {| Failure := match failure_of x with Some f => Some f | None => Failure ctx end; commandState := x_state x; rest_of_context := x_rest x |}.

Definition executed (num : nat) (stage : Stage) (ctx : StageContext) (x : execution) : Prop :=
  x_index x = num /\ x_stage x = stage /\ Execute stage ctx = (x_state x, x_rest x, x_cleanup x, x_err x).

Inductive drives : nat -> list Stage -> StageContext -> list execution -> StageContext -> Prop :=
| drives_end num ctx : drives num [] ctx [] ctx
| drives_skip num stage rest ctx xs ctx' : Failure ctx <> None -> AlwaysExecute stage = false ->
    drives (S num) rest ctx xs ctx' -> drives num (stage :: rest) ctx xs ctx'
| drives_cancelled num stage rest ctx x : (AlwaysExecute stage = true \/ Failure ctx = None) -> executed num stage ctx x ->
    cancelled x = true -> drives num (stage :: rest) ctx [x] (after ctx x)
| drives_next num stage rest ctx x xs ctx' : (AlwaysExecute stage = true \/ Failure ctx = None) -> executed num stage ctx x ->
    cancelled x = false -> drives (S num) rest (after ctx x) xs ctx' -> drives num (stage :: rest) ctx (x :: xs) ctx'.

Lemma drives_executes num ss ctx xs ctx' : drives num ss ctx xs ctx' -> executes num ss ctx xs.
Proof.
  induction 1 as [num ctx|num stage rest ctx xs ctx' Hf Ha _ IH|num stage rest ctx x Ha (Hi & Hs & Hx) Hc|num stage rest ctx x xs ctx' Ha (Hi & Hs & Hx) Hc _ IH].
  - split; [constructor|by intros x ?%elem_of_nil|done|by intros x ? ?%elem_of_nil].
  - by apply executes_skip.
  - destruct x as [i st s w c e]; cbn in *. subst i st. eapply (executes_cons _ _ _ _ _ _ _ _ [] ctx); [done..|]. cbn zeta. by rewrite Hc.
  - destruct x as [i st s w c e]; cbn in *. subst i st. eapply (executes_cons _ _ _ _ _ _ _ _ xs _); [done..|]. cbn zeta. rewrite Hc.
    split; [exact IH|]. cbn. destruct e; cbn; [|tauto]. split; [done|]. by intros [_ ?].
Qed.

Lemma drive_spec count ss : forall num ctx, exists xs ctx', drives num ss ctx xs ctx' /\
  drive count num ss ctx =
    ((xs ≫= notifications count) ++ (CleanUp <$> reverse (omap x_cleanup xs)), result_of (Failure ctx) xs).
Proof.
  induction ss as [|stage rest IH]; intros num ctx; cbn [drive].
  { exists [], ctx. split; [constructor|]. cbn. by destruct (Failure ctx). }
  destruct (bool_decide (is_Some (Failure ctx)) && negb (AlwaysExecute stage)) eqn:Hskip.
  { apply andb_true_iff in Hskip as [Hf%bool_decide_eq_true Ha%negb_true_iff].
    destruct (IH (S num) ctx) as (xs & ctx' & Hxs & ->). exists xs, ctx'. split; [|done].
    apply drives_skip; [|done|done]. by destruct Hf as [? ->]. }
  assert (AlwaysExecute stage = true \/ Failure ctx = None) as Ha.
  { apply andb_false_iff in Hskip as [Hf|Ha]; [right|left].
    - apply bool_decide_eq_false in Hf. destruct (Failure ctx); [|done]. destruct Hf. by eexists.
    - by apply negb_false_iff in Ha. }
  destruct (Execute stage ctx) as [[[state w] cleanUp] err] eqn:He.
  set (x := {| x_index := num; x_stage := stage; x_state := state; x_rest := w; x_cleanup := cleanUp; x_err := err |}).
  assert (executed num stage ctx x) as Hx by done.
  destruct (Read state =? CommandCancel)%Z eqn:Hc.
  - exists [x], (after ctx x). assert (cancelled x = true) as Hcx by done. split; [by apply drives_cancelled|].
    rewrite result_of_cons, Hcx by done. f_equal. cbn. rewrite app_nil_r. unfold notifications. rewrite Hcx. cbn.
    by destruct cleanUp.
  - assert (cancelled x = false) as Hcx by done.
    destruct (IH (S num) (after ctx x)) as (xs & ctx' & Hxs & Hd). exists (x :: xs), ctx'. split; [by eapply drives_next|].
    assert (after ctx x = {| Failure := match err with
                               | Some e => Some {| Error := e; failure_result := ErrorType stage w |}
                               | None => Failure ctx
                               end; commandState := state; rest_of_context := w |}) as Heq by (unfold after, x, failure_of; cbn; by destruct err).
    rewrite <- Heq, Hd. rewrite result_of_cons, Hcx by congruence. cbn [fst snd]. f_equal.
    rewrite bind_cons. unfold notifications at 2. rewrite Hcx. cbn [app]. f_equal. f_equal.
    rewrite <- app_assoc. f_equal.
    change (omap x_cleanup (x :: xs)) with
      (match cleanUp with Some c => c :: omap x_cleanup xs | None => omap x_cleanup xs end).
    destruct cleanUp as [c|]; [by rewrite reverse_cons, fmap_app|by rewrite app_nil_r].
Qed.

(** What holds of the context before every stage, executed or not, holds when a stage executes,
    and at the end unless the run was cancelled. *)
Lemma drives_invariant (I : nat -> StageContext -> Prop) num ss ctx xs ctx' : drives num ss ctx xs ctx' -> I num ctx ->
  (forall i stage c, ss !! i = Some stage -> I (num + i) c -> Failure c <> None -> AlwaysExecute stage = false -> I (S (num + i)) c) ->
  (forall i stage c x, ss !! i = Some stage -> I (num + i) c -> (AlwaysExecute stage = true \/ Failure c = None) ->
     executed (num + i) stage c x -> cancelled x = false -> I (S (num + i)) (after c x)) ->
  (forall x, x ∈ xs -> exists c, I (x_index x) c /\ executed (x_index x) (x_stage x) c x /\
     (AlwaysExecute (x_stage x) = true \/ Failure c = None) /\ ss !! (x_index x - num) = Some (x_stage x) /\ num <= x_index x) /\
  ((forall x, x ∈ xs -> cancelled x = false) -> I (num + length ss) ctx').
Proof.
  intros Hd. revert I. induction Hd as [num ctx|num stage rest ctx xs ctx' Hf Ha _ IH|num stage rest ctx x Ha Hx Hc|num stage rest ctx x xs ctx' Ha Hx Hc _ IH];
    intros I H0 Hskip Hnext.
  1: { rewrite Nat.add_0_r. split; [by intros x ?%elem_of_nil|done]. }
  2: { split.
    - intros y ->%list_elem_of_singleton. exists ctx. pose proof Hx as (Hi & Hs & _). rewrite Hi, Hs, Nat.sub_diag. by split_and!.
    - intros Hall. specialize (Hall x ltac:(left)). congruence. }
  all: pose proof (Hskip 0 stage) as Hskip0; pose proof (Hnext 0 stage) as Hnext0; rewrite !Nat.add_0_r in *.
  all: assert (forall i : nat, num + S i = S num + i) as Hsucc by lia.
  all: destruct (IH I) as [Hall Hfin]; [by auto|intros i st c Hi; rewrite <- Hsucc; by apply Hskip|intros i st c y Hi; rewrite <- Hsucc; by apply Hnext|].
  all: assert (forall y, y ∈ xs -> exists c, I (x_index y) c /\ executed (x_index y) (x_stage y) c y /\
     (AlwaysExecute (x_stage y) = true \/ Failure c = None) /\ (stage :: rest) !! (x_index y - num) = Some (x_stage y) /\ num <= x_index y) as Hrest
    by (intros y Hy; destruct (Hall y Hy) as (c & ? & ? & ? & ? & ?); exists c; split_and!; [done..| |lia];
        by replace (x_index y - num) with (S (x_index y - S num)) by lia).
  all: cbn [length]; rewrite Hsucc; split; [|].
  - exact Hrest.
  - exact Hfin.
  - intros y [->|Hy]%elem_of_cons; [|by apply Hrest].
    exists ctx. pose proof Hx as (Hi & Hs & _). rewrite Hi, Hs, Nat.sub_diag. by split_and!.
  - intros Hno. apply Hfin. intros y Hy. apply Hno. by right.
Qed.


End Driver.

(** A run of three stages: the second fails, and only the third always executes. *)
Definition stage_of (name : string) (always : bool) (err : option string) : Stage (E := string) (C := string) (W := unit) :=
  {| Name := name; ErrorType := fun _ => "failure_" +:+ name; AlwaysExecute := always;
     Execute := fun ctx => (commandState ctx, tt, Some name, err) |}.

Example drive_failure :
  DriveRecipeExecutionStages "cancelled" id
    [stage_of "a" false None; stage_of "b" false (Some "boom"); stage_of "c" false None; stage_of "d" true None]
    {| Failure := None; commandState := fresh_state; rest_of_context := tt |} =
  let i name n := {| info_name := name; Num := n; Count := 4 |} in
  ([OnStageStart (i "a" 1); OnStageEnd (i "a" 1) None; OnStageStart (i "b" 2); OnStageEnd (i "b" 2) (Some "boom");
    OnStageStart (i "d" 4); OnStageEnd (i "d" 4) None; CleanUp "d"; CleanUp "b"; CleanUp "a"], ("failure_b", Some "boom")).
Proof. vm_compute. reflexivity. Qed.
