(* ===== verification/DeploymentSupport.v ===== *)
(** * Performix: which platforms a recipe supports, and what it deploys

    Models [core/apap-engine/deploymentsupport/deployment_support.go] (the deployments that
    recipes and tools declare, whether they support a platform under conditions on the
    parameters, and the tool bundles they need), the stages that use them,
    [recipe/stages/target_platform_support_stage.go] and [tool_bundle_resolution_stage.go], and
    [required_tools.go]. The deployments of a tool are what a resolver returns for its name. *)

From S2P Require Import Prelude.
From S2P Require Import GoStrings.
From S2P Require Import Sorting.
From S2P Require Import Parameters.
From S2P Require Import StageDriver.
From Stdlib Require Import Ascii SpecFloat.

Local Open Scope Z_scope.

(** ** Declarations *)

Record PlatformConfiguration := { Architecture : string; OS : string }.

Record PlatformConfigurationFilter := { f_Architecture : option string; f_OS : option string }.

Definition MatchOS : Z := 1.
Definition MatchArch : Z := 2.
Definition MatchAll : Z := 15.

Definition matches_field (wanted : option string) (actual : string) : bool :=
  match wanted with Some w => bool_decide (w = actual) | None => true end.

Definition MatchesPlatform (filter : PlatformConfigurationFilter) (platform : PlatformConfiguration) (flags : Z) : bool :=
  let flags := if flags =? 0 then MatchAll else flags in
  (if Z.land flags MatchArch =? 0 then true else matches_field (f_Architecture filter) (Architecture platform)) &&
  (if Z.land flags MatchOS =? 0 then true else matches_field (f_OS filter) (OS platform)).

Definition DependencyTypeTool : string := "tool".
Definition DependencyTypeToolBundle : string := "tool_bundle".
Definition DeploymentLocalityTarget : string := "target".
Definition DeploymentLocalityHost : string := "host".
Definition RequirementTypeAlways : string := "always".
Definition RequirementTypeIfParamIsSet : string := "param_is_set".
Definition RequirementTypeIfParamIsNotSet : string := "param_is_not_set".

Definition Negate (r : string) : string :=
  if bool_decide (r = RequirementTypeIfParamIsSet) then RequirementTypeIfParamIsNotSet
  else if bool_decide (r = RequirementTypeIfParamIsNotSet) then RequirementTypeIfParamIsSet
  else r.

Record RequirementSpec := { spec_Type : string; spec_Parameters : gmap string any }.

Record Dependency := {
  dep_Type : string; dep_Name : string; dep_Version : string; dep_Locality : string; RequiredWhen : RequirementSpec
}.

Record DeploymentDeclaration := { AppliesTo : list PlatformConfigurationFilter; Dependencies : list Dependency }.

Record ToolBundleInfo := { tb_Name : string; tb_Version : string; tb_Locality : string }.

#[export] Instance ToolBundleInfo_eq_dec : EqDecision ToolBundleInfo.
Proof. solve_decision. Defined.

Definition ContainsHostToolBundles (bundles : list ToolBundleInfo) : bool :=
  existsb (fun b => bool_decide (tb_Locality b = DeploymentLocalityHost)) bundles.

(** Recipes may depend on tools, and these on bundles only. *)
Definition maxToolDepth : nat := 1.

Inductive PlatformSupportResult := PlatformIsSupported | PlatformNotSupported | PlatformSupportConditional.

#[export] Instance PlatformSupportResult_eq_dec : EqDecision PlatformSupportResult.
Proof. solve_decision. Defined.

Record PlatformSupport := { Platform : PlatformConfiguration; Result : PlatformSupportResult; ConditionList : list RequirementSpec }.

Definition no_platform : PlatformConfiguration := {| Architecture := EmptyString; OS := EmptyString |}.

Definition appliesToPlatform (filters : list PlatformConfigurationFilter) (platform : PlatformConfiguration) (flags : Z) : bool :=
  match filters with [] => true | _ => existsb (fun f => MatchesPlatform f platform flags) filters end.

(** ** Values *)

(** Comparing interface values: [None] is a panic, of two values of one type that cannot be
    compared. *)
Definition go_equal (a b : any) : option bool :=
  match a, b with
  | VNil, VNil => Some true
  | VString s, VString t => Some (bool_decide (s = t))
  | VBool s, VBool t => Some (Bool.eqb s t)
  | VFloat x, VFloat y => Some (SFeqb x y)
  | VList _, VList _ | VStrings _, VStrings _ | VObject _, VObject _ => None
  | _, _ => Some false
  end.

Section Support.

(** Errors of the resolver. [format_float] is [%v] of a number; [order] is the order in which
    a map of conditions is visited. *)
Context {E : Type} (format_float : spec_float -> string) (order : gmap string any -> list (string * any)).

Inductive support_error :=
| InvalidRequirementType (t : string)
| NoParameters
| NotComparable                        (* the run-time panic *)
| LocalityNotAllowedForTool
| DependencyNotAllowed
| ConditionalDependency
| InvalidLocality (l : string)
| ToolBundleMissingFields
| ResolverError (e : E).

(** The text of a value by [%v]: the entries of a map are sorted by their keys. *)
Fixpoint sprint (v : any) : string :=
  match v with
  | VNil => "<nil>"
  | VString s => s
  | VBool b => if b then "true" else "false"
  | VFloat x => format_float x
  | VList l => "[" +:+ Join " " (map sprint l) +:+ "]"
  | VStrings l => "[" +:+ Join " " l +:+ "]"
  | VObject fields =>
      "map[" +:+ Join " " (map (fun kv => kv.1 +:+ ":" +:+ kv.2)
        (sort_by (asc_string fst) (map (fun '(k, x) => (k, sprint x)) fields))) +:+ "]"
  end.

(** ** Conditions on parameters *)

Fixpoint check_loop (requireParamToBeSet : bool) (conditions : list (string * any)) (params : BoundParameters) : result support_error bool :=
  match conditions with
  | [] => Ok true
  | (param, expectedValue) :: rest =>
      match FindValue params param with
      | None => Ok false
      | Some val =>
          match go_equal val expectedValue with
          | None => Err NotComparable
          | Some equal => if Bool.eqb equal requireParamToBeSet then check_loop requireParamToBeSet rest params else Ok false
          end
      end
  end.

Definition CheckParameterRequirement (spec : RequirementSpec) (params : BoundParameters) : result support_error bool :=
  requireParamToBeSet ←
    (if bool_decide (spec_Type spec = RequirementTypeIfParamIsSet) then Ok true
     else if bool_decide (spec_Type spec = RequirementTypeIfParamIsNotSet) then Ok false
     else Err (InvalidRequirementType (spec_Type spec)));
  if bool_decide (spec_Parameters spec = ∅) then Err NoParameters
  else check_loop requireParamToBeSet (order (spec_Parameters spec)) params.

Definition unsupported : PlatformSupport := {| Platform := no_platform; Result := PlatformNotSupported; ConditionList := [] |}.

Fixpoint resolve_loop (conds : list RequirementSpec) (params : BoundParameters) : result support_error PlatformSupport :=
  match conds with
  | [] => Ok {| Platform := no_platform; Result := PlatformIsSupported; ConditionList := [] |}
  | cond :: rest =>
      met ← CheckParameterRequirement cond params;
      if met : bool then resolve_loop rest params else Ok unsupported
  end.

Definition ResolveParameterSupport (ps : PlatformSupport) (params : BoundParameters) : result support_error PlatformSupport :=
  if bool_decide (Result ps = PlatformSupportConditional) then resolve_loop (ConditionList ps) params else Ok ps.

Definition normalizeDeploymentLocality (locality : string) : result support_error string :=
  if bool_decide (locality = EmptyString) then Ok DeploymentLocalityTarget
  else if bool_decide (locality = DeploymentLocalityTarget) || bool_decide (locality = DeploymentLocalityHost) then Ok locality
  else Err (InvalidLocality locality).

(** ** Supported platforms *)

Definition condition_key (rs : RequirementSpec) : string :=
  spec_Type rs +:+ "|" +:+ sprint (VObject (order (spec_Parameters rs))).

Fixpoint dedup_loop (seen : gset string) (l : list RequirementSpec) : list RequirementSpec :=
  match l with
  | [] => []
  | rs :: rest =>
      if bool_decide (condition_key rs ∈ seen) then dedup_loop seen rest
      else rs :: dedup_loop ({[condition_key rs]} ∪ seen) rest
  end.

Definition dedupConditions (l : list RequirementSpec) : list RequirementSpec := dedup_loop ∅ l.

Definition conditionallyRequired (dep : Dependency) : bool :=
  negb (bool_decide (spec_Type (RequiredWhen dep) = RequirementTypeAlways)).

Definition negated (dep : Dependency) : RequirementSpec :=
  {| spec_Type := Negate (spec_Type (RequiredWhen dep)); spec_Parameters := spec_Parameters (RequiredWhen dep) |}.

(** The loop over the dependencies of a deployment: whether the deployment is supported, and
    under which conditions. *)
Fixpoint dependency_loop (check : Dependency -> result support_error bool) (deps : list Dependency) (condList : list RequirementSpec)
  : result support_error (bool * list RequirementSpec) :=
  match deps with
  | [] => Ok (true, condList)
  | dep :: rest =>
      dependencySupported ← check dep;
      if dependencySupported : bool then dependency_loop check rest condList
      else if conditionallyRequired dep then dependency_loop check rest (condList ++ [negated dep])
      else Ok (false, condList)
  end.

Definition support_of (platform : PlatformConfiguration) (deploymentSupported : bool) (condList : list RequirementSpec) : PlatformSupport :=
  if negb deploymentSupported then {| Platform := platform; Result := PlatformNotSupported; ConditionList := [] |}
  else match condList with
       | [] => {| Platform := platform; Result := PlatformIsSupported; ConditionList := [] |}
       | _ => {| Platform := platform; Result := PlatformSupportConditional; ConditionList := dedupConditions condList |}
       end.

(** The loop over the deployments. *)
Fixpoint deployment_loop (check : Dependency -> result support_error bool) (flags : Z) (platform : PlatformConfiguration)
    (deployments : list DeploymentDeclaration) (deploymentSupported : bool) (condList : list RequirementSpec)
  : result support_error PlatformSupport :=
  match deployments with
  | [] => Ok (support_of platform deploymentSupported condList)
  | decl :: rest =>
      if negb (appliesToPlatform (AppliesTo decl) platform flags) then deployment_loop check flags platform rest false []
      else
        '(supported, conds) ← dependency_loop check (Dependencies decl) [];
        if supported : bool then Ok (support_of platform true conds)
        else deployment_loop check flags platform rest false conds
  end.

(** The functions that return the deployments of a tool. *)
Context (depResolver : string -> string -> result E (list DeploymentDeclaration)).

Definition resolve (name version : string) : result support_error (list DeploymentDeclaration) :=
  match depResolver name version with Ok l => Ok l | Err e => Err (ResolverError e) end.

(** Whether a dependency is supported; [tool] decides for a tool. *)
Definition check_dependency (tool : string -> string -> result support_error bool) (dep : Dependency) : result support_error bool :=
  if bool_decide (dep_Type dep = DependencyTypeTool) then
    if negb (bool_decide (dep_Locality dep = EmptyString)) then Err LocalityNotAllowedForTool
    else tool (dep_Name dep) (dep_Version dep)
  else if bool_decide (dep_Type dep = DependencyTypeToolBundle) then
    if bool_decide (dep_Name dep = EmptyString) || bool_decide (dep_Version dep = EmptyString) then Ok false
    else _ ← normalizeDeploymentLocality (dep_Locality dep); Ok true
  else Ok false.

(** [getDeploymentSupportForPlatformInternal] at the depth [maxToolDepth - left], for the
    deployments of a tool. *)
Fixpoint tool_supported (left : nat) (flags : Z) (platform : PlatformConfiguration) (name version : string) : result support_error bool :=
  match left with
  | O => Err DependencyNotAllowed
  | S left' =>
      toolDeployments ← resolve name version;
      depSupport ← deployment_loop (check_dependency (tool_supported left' flags platform)) flags platform toolDeployments true [];
      match Result depSupport with
      | PlatformSupportConditional => Err ConditionalDependency
      | PlatformNotSupported => Ok false
      | PlatformIsSupported => Ok true
      end
  end.

Definition dependency_supported (flags : Z) (platform : PlatformConfiguration) : Dependency -> result support_error bool :=
  check_dependency (tool_supported maxToolDepth flags platform).

Definition GetDeploymentSupportForPlatform (flags : Z) (deployments : list DeploymentDeclaration) (platform : PlatformConfiguration)
  : result support_error PlatformSupport :=
  deployment_loop (dependency_supported flags platform) flags platform deployments true [].

(** ** Tool bundles *)

Definition bundleKey (name version locality : string) : string := name +:+ "@" +:+ version +:+ "@" +:+ locality.

Definition shouldDeployDependency (dep : Dependency) (paramValues : option BoundParameters) : result support_error bool :=
  let t := spec_Type (RequiredWhen dep) in
  if bool_decide (t = RequirementTypeAlways) then Ok true
  else if bool_decide (t = RequirementTypeIfParamIsSet) || bool_decide (t = RequirementTypeIfParamIsNotSet) then
    match paramValues with
    | None => Ok (bool_decide (t = RequirementTypeIfParamIsNotSet))
    | Some params => CheckParameterRequirement (RequiredWhen dep) params
    end
  else Err (InvalidRequirementType t).

Definition add_bundle (b : ToolBundleInfo) (m : gmap string ToolBundleInfo) : gmap string ToolBundleInfo :=
  <[bundleKey (tb_Name b) (tb_Version b) (tb_Locality b) := b]> m.

(** The loop bodies of [resolveToolBundles]; [tool] adds the bundles of a tool. *)
Definition bundle_step (tool : string -> string -> gmap string ToolBundleInfo -> result support_error (gmap string ToolBundleInfo))
    (paramValues : option BoundParameters) (m : gmap string ToolBundleInfo) (dep : Dependency) : result support_error (gmap string ToolBundleInfo) :=
  if bool_decide (dep_Type dep = DependencyTypeToolBundle) then
    if bool_decide (dep_Name dep = EmptyString) || bool_decide (dep_Version dep = EmptyString) then Err ToolBundleMissingFields
    else
      locality ← normalizeDeploymentLocality (dep_Locality dep);
      shouldDeploy ← shouldDeployDependency dep paramValues;
      Ok (if shouldDeploy : bool
          then add_bundle {| tb_Name := dep_Name dep; tb_Version := dep_Version dep; tb_Locality := locality |} m else m)
  else if bool_decide (dep_Type dep = DependencyTypeTool) then
    if negb (bool_decide (dep_Locality dep = EmptyString)) then Err LocalityNotAllowedForTool
    else
      shouldDeploy ← shouldDeployDependency dep paramValues;
      if negb shouldDeploy then Ok m else tool (dep_Name dep) (dep_Version dep) m
  else Ok m.

Definition deployment_step (tool : string -> string -> gmap string ToolBundleInfo -> result support_error (gmap string ToolBundleInfo))
    (platform : PlatformConfiguration) (paramValues : option BoundParameters) (m : gmap string ToolBundleInfo) (decl : DeploymentDeclaration)
  : result support_error (gmap string ToolBundleInfo) :=
  if negb (appliesToPlatform (AppliesTo decl) platform MatchAll) then Ok m
  else fold_res (bundle_step tool paramValues) m (Dependencies decl).

(** The recursive call at the depth [maxToolDepth - left], for the deployments of a tool. *)
Fixpoint tool_bundles (left : nat) (platform : PlatformConfiguration) (paramValues : option BoundParameters)
    (name version : string) (m : gmap string ToolBundleInfo) : result support_error (gmap string ToolBundleInfo) :=
  match left with
  | O => Err DependencyNotAllowed
  | S left' =>
      toolDeployments ← resolve name version;
      fold_res (deployment_step (tool_bundles left' platform paramValues) platform paramValues) m toolDeployments
  end.

(** The bundles are returned in the order in which the map is visited. *)
Definition ResolveToolBundles (visit : gmap string ToolBundleInfo -> list ToolBundleInfo) (platform : PlatformConfiguration)
    (paramValues : option BoundParameters) (deployments : list DeploymentDeclaration) : result support_error (list ToolBundleInfo) :=
  visit <$> fold_res (deployment_step (tool_bundles maxToolDepth platform paramValues) platform paramValues) ∅ deployments.

(** ** Which deployment is chosen *)

(** The dependencies that are not supported. *)
Definition missing (check : Dependency -> result support_error bool) (deps : list Dependency) : list Dependency :=
  List.filter (fun dep => match check dep with Ok false => true | _ => false end) deps.

Lemma elem_of_missing check deps dep : dep ∈ missing check deps <-> dep ∈ deps /\ check dep = Ok false.
Proof.
  unfold missing. rewrite list_elem_of_In, List.filter_In, <- list_elem_of_In.
  destruct (check dep) as [[|]|]; naive_solver.
Qed.

(** A deployment is a candidate when it applies and misses no dependency that it always requires. *)
Definition candidate (check : Dependency -> result support_error bool) (flags : Z) (platform : PlatformConfiguration) (decl : DeploymentDeclaration) : Prop :=
  appliesToPlatform (AppliesTo decl) platform flags = true /\
  forall dep, dep ∈ Dependencies decl -> check dep = Ok true \/ (check dep = Ok false /\ conditionallyRequired dep = true).

Definition passed_over (check : Dependency -> result support_error bool) (flags : Z) (platform : PlatformConfiguration) (decl : DeploymentDeclaration) : Prop :=
  appliesToPlatform (AppliesTo decl) platform flags = false \/
  exists dep, dep ∈ Dependencies decl /\ check dep = Ok false /\ conditionallyRequired dep = false.

(** The first candidate, after deployments that are passed over. *)
Definition chosen (check : Dependency -> result support_error bool) (flags : Z) (platform : PlatformConfiguration)
    (deployments : list DeploymentDeclaration) (decl : DeploymentDeclaration) : Prop :=
  exists pre post, deployments = pre ++ decl :: post /\ Forall (passed_over check flags platform) pre /\ candidate check flags platform decl.

Lemma chosen_unique check flags platform deployments d d' :
  chosen check flags platform deployments d -> chosen check flags platform deployments d' -> d = d'.
Proof.
  assert (forall decl, candidate check flags platform decl -> passed_over check flags platform decl -> False) as Hno.
  { intros decl [Ha Hall] [?|(dep & Hd & Hc & Hr)]; [congruence|]. destruct (Hall dep Hd) as [?|[_ ?]]; congruence. }
  intros (pre & post & -> & Hpre & Hd) (pre' & post' & Heq & Hpre' & Hd').
  revert pre' Heq Hpre'. induction Hpre as [|x pre Hx _ IH]; intros [|y pre'] [= <- Heq] Hpre'; [done|..].
  - exfalso. inversion Hpre' as [|? ? Hy]. by apply (Hno _ Hd).
  - exfalso. by apply (Hno _ Hd').
  - inversion Hpre'. by eapply IH.
Qed.

Lemma dependency_loop_spec check deps : forall conds b conds', dependency_loop check deps conds = Ok (b, conds') ->
  if b then (forall dep, dep ∈ deps -> check dep = Ok true \/ (check dep = Ok false /\ conditionallyRequired dep = true)) /\
            conds' = conds ++ (negated <$> missing check deps)
  else exists dep, dep ∈ deps /\ check dep = Ok false /\ conditionallyRequired dep = false.
Proof.
  induction deps as [|dep deps IH]; intros conds b conds'; cbn.
  { intros [= <- <-]. split; [by intros ? ?%elem_of_nil|by rewrite app_nil_r]. }
  destruct (check dep) as [[|]|e] eqn:Hc; cbn; [| |done].
  - intros H%IH. destruct b; [|set_solver]. destruct H as [Hall ->]. split; [|done].
    intros d [->|Hd]%elem_of_cons; [by left|by apply Hall].
  - destruct (conditionallyRequired dep) eqn:Hr.
    + intros H%IH. destruct b; [|set_solver]. destruct H as [Hall ->]. split; [|by rewrite <- app_assoc].
      intros d [->|Hd]%elem_of_cons; [by right|by apply Hall].
    + intros [= <- <-]. exists dep. split; [by left|done].
Qed.

Lemma deployment_loop_spec check flags platform deployments : forall b conds ps,
  deployment_loop check flags platform deployments b conds = Ok ps ->
  (exists decl, chosen check flags platform deployments decl /\
     ps = support_of platform true (negated <$> missing check (Dependencies decl))) \/
  (Forall (passed_over check flags platform) deployments /\
     ps = match deployments with [] => support_of platform b conds | _ => support_of platform false [] end).
Proof.
  induction deployments as [|decl deployments IH]; intros b conds ps; cbn.
  { intros [= <-]. by right. }
  assert (forall c, passed_over check flags platform decl ->
    deployment_loop check flags platform deployments false c = Ok ps ->
    (exists d, chosen check flags platform (decl :: deployments) d /\ ps = support_of platform true (negated <$> missing check (Dependencies d))) \/
    Forall (passed_over check flags platform) (decl :: deployments) /\ ps = support_of platform false []) as Hrest.
  { intros c Hp [(d & (pre & post & -> & Hpre & Hcand) & ->)|[Hall ->]]%IH.
    - left. exists d. split; [|done]. exists (decl :: pre), post. split_and!; [done|by constructor|done].
    - right. split; [by constructor|]. by destruct deployments. }
  destruct (appliesToPlatform (AppliesTo decl) platform flags) eqn:Ha; cbn; [|apply Hrest; by left].
  destruct (dependency_loop check (Dependencies decl) []) as [[supported c]|e] eqn:Hd; cbn; [|done].
  apply dependency_loop_spec in Hd. destruct supported.
  - destruct Hd as [Hall ->]. intros [= <-]. left. exists decl. split; [|done]. by exists [], deployments.
  - apply Hrest. by right.
Qed.

(** ** Conditions *)

Lemma sub_elem_dedup seen l c : c ∈ dedup_loop seen l -> c ∈ l /\ condition_key c ∉ seen.
Proof.
  revert seen. induction l as [|rs l IH]; intros seen; cbn; [by intros ?%elem_of_nil|].
  case_bool_decide as Hk; [intros [? ?]%IH; split; [by right|done]|].
  intros [->|[? ?]%IH]%elem_of_cons; [by split; [left|]|]. split; [by right|set_solver].
Qed.

Lemma dedup_represents seen l c : c ∈ l -> condition_key c ∈ seen \/ exists c', c' ∈ dedup_loop seen l /\ condition_key c' = condition_key c.
Proof.
  revert seen. induction l as [|rs l IH]; intros seen; cbn; [by intros ?%elem_of_nil|].
  intros [->|Hc]%elem_of_cons; case_bool_decide as Hk; [by left|right; exists rs; split; [by left|done]|by apply IH|].
  destruct (IH ({[condition_key rs]} ∪ seen) Hc) as [[->%elem_of_singleton|?]%elem_of_union|(c' & Hc' & Heq)].
  - right. exists rs. split; [by left|done].
  - by left.
  - right. exists c'. split; [by right|done].
Qed.

(** Distinct conditions of the list have distinct texts. *)
Definition distinguished (l : list RequirementSpec) : Prop :=
  forall a b, a ∈ l -> b ∈ l -> condition_key a = condition_key b -> a = b.

Lemma elem_of_dedup l c : distinguished l -> c ∈ dedupConditions l <-> c ∈ l.
Proof.
  intros Hd. split; [by intros [? _]%(sub_elem_dedup ∅)|]. intros Hc.
  destruct (dedup_represents ∅ l c Hc) as [?%elem_of_empty|(c' & Hc' & Heq)]; [done|].
  rewrite <- (Hd c' c); [done| |done|done]. by apply (sub_elem_dedup ∅ l c').
Qed.

Context (Horder : forall m, order m ≡ₚ map_to_list m).

(** The condition on one parameter. *)
Definition holds (required : bool) (params : BoundParameters) (kv : string * any) : Prop :=
  exists val, FindValue params kv.1 = Some val /\ go_equal val kv.2 = Some required.

Lemma check_loop_true required l params : check_loop required l params = Ok true <-> Forall (holds required params) l.
Proof.
  induction l as [|[p v] l IH]; cbn; [by split|]. rewrite Forall_cons, <- IH. unfold holds. cbn.
  destruct (FindValue params p) as [val|]; [|naive_solver].
  destruct (go_equal val v) as [equal|] eqn:He; [|naive_solver].
  destruct (Bool.eqb equal required) eqn:Hb; [apply Bool.eqb_prop in Hb as ->; naive_solver|].
  apply Bool.eqb_false_iff in Hb. split; [done|]. intros [(? & [= <-] & ?) _]. congruence.
Qed.

Lemma condition_type_spec t b :
  (if bool_decide (t = RequirementTypeIfParamIsSet) then Ok true
   else if bool_decide (t = RequirementTypeIfParamIsNotSet) then Ok false
   else Err (InvalidRequirementType t)) = Ok b <->
  t = if b : bool then RequirementTypeIfParamIsSet else RequirementTypeIfParamIsNotSet.
Proof.
  split.
  - repeat case_bool_decide; by intros [= <-].
  - intros ->. by destruct b.
Qed.

Lemma CheckParameterRequirement_true spec params : CheckParameterRequirement spec params = Ok true <->
  exists required : bool, spec_Type spec = (if required then RequirementTypeIfParamIsSet else RequirementTypeIfParamIsNotSet) /\
    spec_Parameters spec <> ∅ /\ forall p v, spec_Parameters spec !! p = Some v -> holds required params (p, v).
Proof.
  unfold CheckParameterRequirement. rewrite bind_Ok.
  apply exist_proper. intros required. rewrite condition_type_spec. apply and_iff_compat; [done|].
  case_bool_decide as He; [split; [done|by intros [? _]]|]. rewrite check_loop_true, Horder, Forall_forall.
  split.
  - intros Hall. split; [done|]. intros p v Hp. apply Hall. by apply elem_of_map_to_list.
  - intros [_ Hall] [p v] Hp%elem_of_map_to_list. by apply Hall.
Qed.

Lemma order_first (m : gmap string any) : m <> ∅ -> exists p v rest, order m = (p, v) :: rest /\ m !! p = Some v.
Proof.
  intros Hm. destruct (order m) as [|[p v] rest] eqn:Ho.
  - pose proof (Horder m) as Hp. rewrite Ho in Hp. apply Permutation_nil in Hp. by apply map_to_list_empty_iff in Hp.
  - exists p, v, rest. split; [done|]. apply elem_of_map_to_list. rewrite <- Horder, Ho. by left.
Qed.

(** A requirement that is conditional on one parameter, which is bound and can be compared. *)
Definition decisive (params : BoundParameters) (dep : Dependency) : Prop :=
  exists (required equal : bool) p v val,
    RequiredWhen dep = {| spec_Type := if required then RequirementTypeIfParamIsSet else RequirementTypeIfParamIsNotSet;
                          spec_Parameters := {[p := v]} |} /\
    FindValue params p = Some val /\ go_equal val v = Some equal.

Lemma order_singleton p (v : any) : order {[p := v]} = [(p, v)].
Proof. apply Permutation_singleton_r. by rewrite Horder, map_to_list_singleton. Qed.

Lemma negated_met dep params : conditionallyRequired dep = true ->
  CheckParameterRequirement (negated dep) params = Ok true -> shouldDeployDependency dep (Some params) = Ok false.
Proof.
  unfold conditionallyRequired, shouldDeployDependency. intros Hr%negb_true_iff%bool_decide_eq_false.
  intros (required & Ht & Hne & Hall)%CheckParameterRequirement_true. cbn in Ht, Hne, Hall.
  rewrite bool_decide_eq_false_2 by done.
  assert (spec_Type (RequiredWhen dep) = if negb required then RequirementTypeIfParamIsSet else RequirementTypeIfParamIsNotSet) as Ht'.
  { unfold Negate in Ht. repeat case_bool_decide; destruct required; try done; congruence. }
  assert (bool_decide (spec_Type (RequiredWhen dep) = RequirementTypeIfParamIsSet) ||
          bool_decide (spec_Type (RequiredWhen dep) = RequirementTypeIfParamIsNotSet) = true) as ->
    by (rewrite Ht'; by destruct required).
  unfold CheckParameterRequirement. rewrite (proj2 (condition_type_spec _ _) Ht'). cbn.
  rewrite bool_decide_eq_false_2 by done. destruct (order_first _ Hne) as (p & v & rest & -> & Hp).
  destruct (Hall p v Hp) as (val & Hv & He). cbn in *. rewrite Hv, He. by destruct required.
Qed.

Lemma decisive_met dep params : decisive params dep ->
  CheckParameterRequirement (negated dep) params = Ok true <-> shouldDeployDependency dep (Some params) = Ok false.
Proof.
  intros (required & equal & p & v & val & Hw & Hv & He). split.
  - apply negated_met. unfold conditionallyRequired. rewrite Hw. by destruct required.
  - unfold shouldDeployDependency, negated, CheckParameterRequirement. rewrite !Hw. cbn.
    rewrite !(bool_decide_eq_false_2 ({[p := v]} = ∅)), !order_singleton by apply map_non_empty_singleton.
    cbn. rewrite Hv, He. by destruct required, equal.
Qed.

Lemma resolve_loop_spec l params ps : resolve_loop l params = Ok ps ->
  Result ps = PlatformIsSupported <-> Forall (fun c => CheckParameterRequirement c params = Ok true) l.
Proof.
  induction l as [|c l IH]; cbn; [intros [= <-]; by split|].
  destruct (CheckParameterRequirement c params) as [[|]|e] eqn:Hc; cbn; [| |done].
  - intros H%IH. rewrite Forall_cons, H. tauto.
  - intros [= <-]. split; [done|]. inversion 1. congruence.
Qed.

(** What the answer for a platform says of the parameters. *)
Lemma platform_decided flags deployments platform params ps r :
  (forall decl, decl ∈ deployments -> distinguished (negated <$> Dependencies decl)) ->
  GetDeploymentSupportForPlatform flags deployments platform = Ok ps -> ResolveParameterSupport ps params = Ok r ->
  let check := dependency_supported flags platform in
  Result r = PlatformIsSupported <->
  deployments = [] \/ exists decl, chosen check flags platform deployments decl /\
    forall dep, dep ∈ missing check (Dependencies decl) -> CheckParameterRequirement (negated dep) params = Ok true.
Proof.
  intros Hkeys Hps Hr check. unfold GetDeploymentSupportForPlatform in Hps. fold check in Hps.
  apply deployment_loop_spec in Hps as [(decl & Hd & ->)|[Hall ->]].
  - assert (Result r = PlatformIsSupported <->
      forall dep, dep ∈ missing check (Dependencies decl) -> CheckParameterRequirement (negated dep) params = Ok true) as ->.
    { assert (decl ∈ deployments) as Hin by (destruct Hd as (pre & post & -> & _); set_solver).
      assert (distinguished (negated <$> missing check (Dependencies decl))) as Hdist.
      { intros a b (x & -> & [Hx _]%elem_of_missing)%list_elem_of_fmap (y & -> & [Hy _]%elem_of_missing)%list_elem_of_fmap.
        apply (Hkeys decl Hin); by apply list_elem_of_fmap_2. }
      unfold support_of in Hr. cbn in Hr. destruct (negated <$> missing check (Dependencies decl)) as [|c conds] eqn:Hm.
      - apply fmap_nil_iff in Hm. rewrite Hm. injection Hr as <-. cbn. split; [by intros _ ? ?%elem_of_nil|done].
      - cbn in Hr. apply resolve_loop_spec in Hr. rewrite Hr, Forall_forall. setoid_rewrite (elem_of_dedup _ _ Hdist).
        rewrite <- Hm. setoid_rewrite list_elem_of_fmap. naive_solver. }
    split; [intros Hd'; right; by exists decl|]. intros [->|(decl' & Hd' & Hmet)].
    + by destruct Hd as ([|? ?] & post & ? & _).
    + by rewrite (chosen_unique _ _ _ _ _ _ Hd Hd').
  - destruct deployments as [|decl deployments].
    + cbn in Hr. injection Hr as <-. split; [by left|done].
    + cbn in Hr. injection Hr as <-. split; [done|]. intros [?|(d & (pre & post & Heq & _ & Hcand) & _)]; [done|].
      exfalso. rewrite Heq, Forall_app, Forall_cons in Hall. destruct Hall as (_ & Hp & _). destruct Hcand as [Ha Hc].
      destruct Hp as [?|(dep & Hdep & Hf & Hr)]; [congruence|]. destruct (Hc dep Hdep) as [?|[_ ?]]; congruence.
Qed.

(** ** The bundles that are needed *)

(** A bundle that a dependency brings; [tool] says which those of a tool are. *)
Definition brings (tool : string -> string -> ToolBundleInfo -> Prop) (paramValues : option BoundParameters) (dep : Dependency) (b : ToolBundleInfo) : Prop :=
  shouldDeployDependency dep paramValues = Ok true /\
  ((dep_Type dep = DependencyTypeToolBundle /\ tb_Name b = dep_Name dep /\ tb_Version b = dep_Version dep /\
    normalizeDeploymentLocality (dep_Locality dep) = Ok (tb_Locality b)) \/
   (dep_Type dep = DependencyTypeTool /\ tool (dep_Name dep) (dep_Version dep) b)).

(** The bundles of the required dependencies of every deployment that applies. *)
Definition needed_by (tool : string -> string -> ToolBundleInfo -> Prop) (platform : PlatformConfiguration) (paramValues : option BoundParameters)
    (deployments : list DeploymentDeclaration) (b : ToolBundleInfo) : Prop :=
  exists decl, decl ∈ deployments /\ appliesToPlatform (AppliesTo decl) platform MatchAll = true /\
    exists dep, dep ∈ Dependencies decl /\ brings tool paramValues dep b.

Fixpoint needed_by_tool (left : nat) (platform : PlatformConfiguration) (paramValues : option BoundParameters) (name version : string)
    (b : ToolBundleInfo) : Prop :=
  match left with
  | O => False
  | S left' => exists tools, resolve name version = Ok tools /\ needed_by (needed_by_tool left' platform paramValues) platform paramValues tools b
  end.

Definition needed (platform : PlatformConfiguration) (paramValues : option BoundParameters) : list DeploymentDeclaration -> ToolBundleInfo -> Prop :=
  needed_by (needed_by_tool maxToolDepth platform paramValues) platform paramValues.

(** No function that is called for a dependency returns an error. *)
Definition well_formed (tool : string -> string -> Prop) (paramValues : option BoundParameters) (dep : Dependency) : Prop :=
  (dep_Type dep = DependencyTypeToolBundle ->
     dep_Name dep <> EmptyString /\ dep_Version dep <> EmptyString /\
     is_ok (normalizeDeploymentLocality (dep_Locality dep)) = true /\ is_ok (shouldDeployDependency dep paramValues) = true) /\
  (dep_Type dep = DependencyTypeTool ->
     dep_Locality dep = EmptyString /\ is_ok (shouldDeployDependency dep paramValues) = true /\
     (shouldDeployDependency dep paramValues = Ok true -> tool (dep_Name dep) (dep_Version dep))).

Definition all_well_formed (tool : string -> string -> Prop) (platform : PlatformConfiguration) (paramValues : option BoundParameters)
    (deployments : list DeploymentDeclaration) : Prop :=
  forall decl, decl ∈ deployments -> appliesToPlatform (AppliesTo decl) platform MatchAll = true ->
  forall dep, dep ∈ Dependencies decl -> well_formed tool paramValues dep.

Fixpoint well_formed_tool (left : nat) (platform : PlatformConfiguration) (paramValues : option BoundParameters) (name version : string) : Prop :=
  match left with
  | O => False
  | S left' => exists tools, resolve name version = Ok tools /\ all_well_formed (well_formed_tool left' platform paramValues) platform paramValues tools
  end.

Definition well_declared (platform : PlatformConfiguration) (paramValues : option BoundParameters) : list DeploymentDeclaration -> Prop :=
  all_well_formed (well_formed_tool maxToolDepth platform paramValues) platform paramValues.

Definition key_of (b : ToolBundleInfo) : string := bundleKey (tb_Name b) (tb_Version b) (tb_Locality b).

(** The key of a bundle can be read back. *)
Definition readable (b : ToolBundleInfo) : Prop := byte_free "@"%char (tb_Version b) = true /\ byte_free "@"%char (tb_Locality b) = true.

Lemma key_of_inj a b : readable a -> readable b -> key_of a = key_of b -> a = b.
Proof.
  intros [Hva Hla] [Hvb Hlb]. unfold key_of, bundleKey.
  change ("@" +:+ tb_Version a +:+ "@" +:+ tb_Locality a) with (String "@"%char (tb_Version a +:+ String "@"%char (tb_Locality a))).
  change ("@" +:+ tb_Version b +:+ "@" +:+ tb_Locality b) with (String "@"%char (tb_Version b +:+ String "@"%char (tb_Locality b))).
  rewrite <- !sapp_cons, <- !sapp_assoc. intros [H1 H2]%last_cut_unique; [|done..].
  apply last_cut_unique in H1 as [H1 H3]; [|done..]. destruct a, b; cbn in *; congruence.
Qed.

Lemma normalized_locality l l' : normalizeDeploymentLocality l = Ok l' -> byte_free "@"%char l' = true.
Proof.
  unfold normalizeDeploymentLocality. case_bool_decide; [by intros [= <-]|]. case_bool_decide; [by intros [= <-]; subst|].
  case_bool_decide; [by intros [= <-]; subst|done].
Qed.

Lemma is_ok_bind {A B X} (m : result X A) (f : A -> result X B) : is_ok (m ≫= f) = true <-> exists a, m = Ok a /\ is_ok (f a) = true.
Proof. destruct m; cbn; naive_solver. Qed.

Lemma is_ok_Ok {A X} (m : result X A) : is_ok m = true <-> exists a, m = Ok a.
Proof. destruct m; cbn; naive_solver. Qed.

(** A loop of steps that return without an error exactly when their element is good. *)
Lemma fold_res_is_ok {A S X} (f : S -> A -> result X S) (good : A -> Prop) l :
  (forall s x, x ∈ l -> is_ok (f s x) = true <-> good x) ->
  forall s, is_ok (fold_res f s l) = true <-> forall x, x ∈ l -> good x.
Proof.
  induction l as [|x l IH]; intros Hf s; cbn; [by split; [intros _ ? ?%elem_of_nil|]|].
  rewrite is_ok_bind. setoid_rewrite IH; [|intros; apply Hf; by right].
  assert ((exists a, f s x = Ok a /\ forall y, y ∈ l -> good y) <-> good x /\ forall y, y ∈ l -> good y) as ->.
  { rewrite <- (Hf s x) by left. rewrite is_ok_Ok. naive_solver. }
  setoid_rewrite elem_of_cons. naive_solver.
Qed.

(** A loop of steps that add what belongs to their element. *)
Lemma fold_res_adds {A S X B} (f : S -> A -> result X S) (inv : S -> Prop) (has : S -> B -> Prop) (own : A -> B -> Prop) l :
  (forall s x s', x ∈ l -> inv s -> f s x = Ok s' -> inv s' /\ forall b, has s' b <-> has s b \/ own x b) ->
  forall s s', inv s -> fold_res f s l = Ok s' -> inv s' /\ forall b, has s' b <-> has s b \/ exists x, x ∈ l /\ own x b.
Proof.
  induction l as [|x l IH]; intros Hf s s' Hs; cbn.
  { intros [= <-]. split; [done|]. intros b. split; [by left|]. intros [?|(? & ?%elem_of_nil & _)]; done. }
  intros (s1 & H1 & H2)%bind_Ok. destruct (Hf s x s1 ltac:(left) Hs H1) as [Hs1 Hb1].
  destruct (IH ltac:(intros ? ? ? ?; apply Hf; by right) s1 s' Hs1 H2) as [Hs' Hb'].
  split; [done|]. intros b. rewrite Hb', Hb1. setoid_rewrite elem_of_cons. naive_solver.
Qed.

Lemma bundle_step_is_ok tool good pv m dep :
  (forall name version m, is_ok (tool name version m) = true <-> good name version) ->
  is_ok (bundle_step tool pv m dep) = true <-> well_formed good pv dep.
Proof.
  intros Ht. unfold bundle_step, well_formed. case_bool_decide as Hb.
  { rewrite Hb. destruct (bool_decide (dep_Name dep = EmptyString) || bool_decide (dep_Version dep = EmptyString)) eqn:He.
    - apply orb_true_iff in He as [?%bool_decide_eq_true|?%bool_decide_eq_true]; split; [done|naive_solver|done|naive_solver].
    - apply orb_false_iff in He as [?%bool_decide_eq_false ?%bool_decide_eq_false]. rewrite is_ok_bind.
      setoid_rewrite is_ok_bind. setoid_rewrite is_ok_Ok. naive_solver. }
  case_bool_decide as Hd; [|by split].
  rewrite Hd. case_bool_decide as Hl; cbn; [|naive_solver]. rewrite is_ok_bind.
  split.
  - intros (a & Ha & Hok). split; [done|]. intros _. split_and!; [done|by rewrite Ha|]. intros H. rewrite H in Ha.
    injection Ha as <-. by apply Ht in Hok.
  - intros [_ H]. destruct (H eq_refl) as (_ & (a & Ha)%is_ok_Ok & Hgood). exists a. split; [done|]. destruct a; [|done].
    by apply Ht, Hgood.
Qed.

Lemma deployment_steps_is_ok tool good platform pv deployments m :
  (forall name version m, is_ok (tool name version m) = true <-> good name version) ->
  is_ok (fold_res (deployment_step tool platform pv) m deployments) = true <-> all_well_formed good platform pv deployments.
Proof.
  intros Ht. apply fold_res_is_ok. intros m' decl _. unfold deployment_step.
  destruct (appliesToPlatform (AppliesTo decl) platform MatchAll); cbn; [|by split].
  rewrite (fold_res_is_ok _ (well_formed good pv)); [naive_solver|]. intros. by apply bundle_step_is_ok.
Qed.

Lemma tool_bundles_is_ok left platform pv : forall name version m,
  is_ok (tool_bundles left platform pv name version m) = true <-> well_formed_tool left platform pv name version.
Proof.
  induction left as [|left IH]; intros name version m; cbn; [done|]. rewrite is_ok_bind. apply exist_proper. intros tools.
  apply and_iff_compat; [done|]. by apply deployment_steps_is_ok.
Qed.

(** The bundles that have been found so far, each under its key. *)
Definition keyed (m : gmap string ToolBundleInfo) : Prop := map_Forall (fun k b => k = key_of b /\ readable b) m.
Definition contains_bundle (m : gmap string ToolBundleInfo) (b : ToolBundleInfo) : Prop := exists k, m !! k = Some b.

Lemma add_bundle_spec m b : keyed m -> readable b ->
  keyed (add_bundle b m) /\ forall b', contains_bundle (add_bundle b m) b' <-> contains_bundle m b' \/ b' = b.
Proof.
  intros Hm Hb. split; [by apply map_Forall_insert_2|]. intros b'. unfold contains_bundle, add_bundle. fold (key_of b). split.
  - intros (k & [[_ ->]|[_ ?]]%lookup_insert_Some); [by right|left; by exists k].
  - intros [(k & Hk)| ->]; [|exists (key_of b); by rewrite lookup_insert_eq].
    destruct (Hm k b' Hk) as [-> Hb']. destruct (decide (key_of b' = key_of b)) as [He|Hne].
    + apply key_of_inj in He as ->; [|done..]. exists (key_of b). by rewrite lookup_insert_eq.
    + exists (key_of b'). by rewrite lookup_insert_ne.
Qed.

(** The bundles that a tool or deployment brings can all be told apart. *)
Definition adds (step : gmap string ToolBundleInfo -> result support_error (gmap string ToolBundleInfo)) (own : ToolBundleInfo -> Prop) : Prop :=
  (forall b, own b -> readable b) -> forall m m', keyed m -> step m = Ok m' ->
  keyed m' /\ forall b, contains_bundle m' b <-> contains_bundle m b \/ own b.

Lemma bundle_step_adds tool own pv dep : (forall name version, adds (tool name version) (own name version)) ->
  adds (fun m => bundle_step tool pv m dep) (brings own pv dep).
Proof.
  intros Ht Hread m m' Hm. unfold bundle_step.
  assert ((forall b, ~ brings own pv dep b) -> (Ok m : result support_error _) = Ok m' ->
    keyed m' /\ forall b, contains_bundle m' b <-> contains_bundle m b \/ brings own pv dep b) as Hsame.
  { intros Hno [= <-]. split; [done|]. intros b. specialize (Hno b). tauto. }
  unfold brings in *. case_bool_decide as Hb.
  { destruct (_ || _); [done|]. intros (l & Hl & (should & Hs & Hm')%bind_Ok)%bind_Ok. destruct should.
    - injection Hm' as <-. set (b := {| tb_Name := _; tb_Version := _; tb_Locality := l |}).
      assert (forall b', b' = b <-> shouldDeployDependency dep pv = Ok true /\
        (dep_Type dep = DependencyTypeToolBundle /\ tb_Name b' = dep_Name dep /\ tb_Version b' = dep_Version dep /\
         normalizeDeploymentLocality (dep_Locality dep) = Ok (tb_Locality b') \/
         dep_Type dep = DependencyTypeTool /\ own (dep_Name dep) (dep_Version dep) b')) as Hiff.
      { intros b'. rewrite Hl, Hs, Hb. split; [intros ->; naive_solver|].
        intros [_ [(_ & ? & ? & [= ->])|[? _]]]; [|done]. destruct b'. unfold b. cbn in *. by subst. }
      setoid_rewrite <- Hiff. apply add_bundle_spec; [done|]. apply Hread, Hiff. done.
    - apply Hsame; [|done]. intros b [? _]. congruence. }
  case_bool_decide as Hd.
  - case_bool_decide as Hl; cbn; [|done]. intros (should & Hs & Hm')%bind_Ok. destruct should; cbn in Hm'.
    + destruct (Ht (dep_Name dep) (dep_Version dep)) with (m := m) (m' := m') as [Hk Hc]; [|done..|].
      * intros b Hown. apply Hread. split; [done|]. by right.
      * split; [done|]. intros b. rewrite Hc. naive_solver.
    + apply Hsame; [|done]. intros b [? _]. congruence.
  - apply Hsame. naive_solver.
Qed.

Lemma deployment_steps_adds tool own platform pv deployments : (forall name version, adds (tool name version) (own name version)) ->
  adds (fun m => fold_res (deployment_step tool platform pv) m deployments) (needed_by own platform pv deployments).
Proof.
  intros Ht Hread m m' Hm Hok. unfold needed_by in *.
  apply (fold_res_adds _ keyed contains_bundle (fun decl b => appliesToPlatform (AppliesTo decl) platform MatchAll = true /\
    exists dep, dep ∈ Dependencies decl /\ brings own pv dep b)) in Hok; [done| |done].
  clear m m' Hm Hok. intros m decl m' Hdecl Hm. unfold deployment_step.
  destruct (appliesToPlatform (AppliesTo decl) platform MatchAll) eqn:Ha; cbn.
  - intros Hok. apply (fold_res_adds _ keyed contains_bundle (brings own pv)) in Hok as [Hm' Hb]; [|..|done].
    + split; [done|]. intros b. rewrite Hb. naive_solver.
    + intros m1 dep m2 Hdep Hm1. apply (bundle_step_adds tool own pv dep Ht); [|done].
      intros b Hb. apply Hread. exists decl. split_and!; [done..|]. by exists dep.
  - intros [= <-]. split; [done|]. naive_solver.
Qed.

Lemma tool_bundles_adds left platform pv : forall name version,
  adds (tool_bundles left platform pv name version) (needed_by_tool left platform pv name version).
Proof.
  induction left as [|left IH]; intros name version Hread m m' Hm; cbn; [done|]. intros (tools & Ht & Hok)%bind_Ok.
  apply (deployment_steps_adds _ _ platform pv tools IH) in Hok; [|..|done].
  - destruct Hok as [Hk Hb]. split; [done|]. intros b. rewrite Hb, Ht. naive_solver.
  - intros b Hb. apply Hread. cbn. by exists tools.
Qed.

(** The resolved bundles are each returned once. *)
Context (visit : gmap string ToolBundleInfo -> list ToolBundleInfo) (Hvisit : forall m, visit m ≡ₚ (map_to_list m).*2).

Lemma visit_keyed m : keyed m -> NoDup (visit m) /\ forall b, b ∈ visit m <-> contains_bundle m b.
Proof.
  intros Hm. setoid_rewrite Hvisit. split.
  - pose proof (NoDup_fst_map_to_list m) as Hnd.
    assert ((map_to_list m).*1 = key_of <$> (map_to_list m).*2) as Heq; [|rewrite Heq in Hnd; by apply NoDup_fmap_1 in Hnd].
    rewrite <- list_fmap_compose. apply list_fmap_ext. intros i [k b] Hi. cbn.
    apply list_elem_of_lookup_2, elem_of_map_to_list, Hm in Hi. apply Hi.
  - intros b. unfold contains_bundle. rewrite list_elem_of_fmap. setoid_rewrite <- elem_of_map_to_list. split.
    + intros ([k b'] & -> & Hk). by exists k.
    + intros (k & Hk). by exists (k, b).
Qed.

(** C14: resolving the tool bundles of a recipe fails exactly when a dependency that it reaches
    is malformed, and otherwise returns, each once, the bundles of the required dependencies
    of every deployment that applies to the platform and of the tools that are required. *)
Theorem bundles_are_those_needed platform pv deployments :
  (forall b, needed platform pv deployments b -> byte_free "@"%char (tb_Version b) = true) ->
  (is_ok (ResolveToolBundles visit platform pv deployments) = true <-> well_declared platform pv deployments) /\
  forall bundles, ResolveToolBundles visit platform pv deployments = Ok bundles ->
    NoDup bundles /\ forall b, b ∈ bundles <-> needed platform pv deployments b.
Proof.
  intros Hversions. unfold ResolveToolBundles. split.
  - rewrite <- (deployment_steps_is_ok _ _ platform pv deployments ∅ (tool_bundles_is_ok maxToolDepth platform pv)).
    by destruct (fold_res _ _ _).
  - destruct (fold_res _ _ _) as [m|e] eqn:Hm; cbn; [|done]. intros bundles [= <-].
    apply (deployment_steps_adds _ _ platform pv deployments (tool_bundles_adds maxToolDepth platform pv)) in Hm as [Hk Hb].
    + destruct (visit_keyed m Hk) as [Hnd Hv]. split; [done|]. intros b. rewrite Hv, Hb. unfold contains_bundle.
      setoid_rewrite lookup_empty. unfold needed. split; [intros [[? ?]|?]; done|by right].
    + intros b Hneed. split; [by apply Hversions|]. clear -Hneed. unfold needed_by in Hneed.
      destruct Hneed as (decl & _ & _ & dep & _ & _ & [(_ & _ & _ & H)|[_ H]]); [by eapply normalized_locality|].
      cbn in H. destruct H as (tools & _ & decl' & _ & _ & dep' & _ & _ & [(_ & _ & _ & H)|[_ H]]); [by eapply normalized_locality|done].
    + by apply map_Forall_empty.
Qed.

End Support.

(** ** The stages *)

Section Stages.

(** Errors of the packages, numbers as text and the order of maps, and the integrations found. *)
Context {E : Type} (format_float : spec_float -> string) (order : gmap string any -> list (string * any)).

Inductive tool_error := NoToolIntegration (name version : string).

Inductive stage_error :=
| PackagesError (e : E)
| SupportError (e : support_error (E := tool_error))
| UnsupportedPlatformForRecipe (platform : PlatformConfiguration).

(** [FindTool] of the registry: the deployments of an integration. *)
Definition registry := string -> string -> option (list DeploymentDeclaration).

Definition depResolver (tools : registry) (name version : string) : result tool_error (list DeploymentDeclaration) :=
  or_err (NoToolIntegration name version) (tools name version).

Definition to_stage {A} (r : result support_error A) : result stage_error A :=
  match r with Ok a => Ok a | Err e => Err (SupportError e) end.

(** What the stage tells its notifiers: whether a target is supported, or that it is not ready. *)
Inductive support_event := OnTargetSupportChecked (ps : PlatformSupport) | OnReadinessProbed (unsupported_platform : PlatformConfiguration).

(** [TargetPlatformSupportStage.Execute]: the notifications, the kind of error and the error. *)
Definition support_stage_Execute (FailIfUnsuported : bool) (FindToolIntegrations : result E registry)
    (deployments : list DeploymentDeclaration) (platform : PlatformConfiguration) (params : BoundParameters)
  : list support_event * RunResult * result stage_error unit :=
  let failed e := ([], RecipeFailureCheckPlatformSupport, Err e) in
  let unsupported :=
    ([OnReadinessProbed platform], RecipeFailureUnsupportedPlatform, Err (UnsupportedPlatformForRecipe platform)) in
  match FindToolIntegrations with
  | Err e => failed (PackagesError e)
  | Ok tools =>
      match GetDeploymentSupportForPlatform format_float order (depResolver tools) MatchAll deployments platform with
      | Err e => failed (SupportError e)
      | Ok ps =>
          if negb FailIfUnsuported then ([OnTargetSupportChecked ps], RecipeFailureCheckPlatformSupport, Ok tt)
          else match Result ps with
               | PlatformNotSupported => unsupported
               | _ =>
                   match ResolveParameterSupport order ps params with
                   | Err e => failed (SupportError e)
                   | Ok ps' =>
                       if bool_decide (Result ps' = PlatformIsSupported) then ([], RecipeFailureCheckPlatformSupport, Ok tt)
                       else unsupported
                   end
               end
      end
  end.

(** [ToolBundleResolutionStage.Execute] *)
Definition bundle_stage_Execute (visit : gmap string ToolBundleInfo -> list ToolBundleInfo) (FindToolIntegrations : result E registry)
    (deployments : list DeploymentDeclaration) (platform : PlatformConfiguration) (params : option BoundParameters)
  : result stage_error (list ToolBundleInfo) :=
  match FindToolIntegrations with
  | Err e => Err (PackagesError e)
  | Ok tools => to_stage (ResolveToolBundles order (depResolver tools) visit platform params deployments)
  end.

Context (Horder : forall m, order m ≡ₚ map_to_list m).

(** The deployment with which a recipe would be run needs nothing that the platform misses. *)
Definition runs_complete (tools : registry) (deployments : list DeploymentDeclaration) (platform : PlatformConfiguration) (params : BoundParameters) : Prop :=
  let check := dependency_supported format_float order (depResolver tools) MatchAll platform in
  deployments = [] \/
  exists decl, chosen check MatchAll platform deployments decl /\
    forall dep, dep ∈ missing check (Dependencies decl) -> shouldDeployDependency order dep (Some params) = Ok (E := support_error (E := tool_error)) false.

(** The answers behind the outcomes of the stage. *)
Lemma support_stage_cases tools deployments platform params events kind r :
  support_stage_Execute true (Ok tools) deployments platform params = (events, kind, r) ->
  (exists e, r = Err (SupportError e)) \/
  exists ps ps', GetDeploymentSupportForPlatform format_float order (depResolver tools) MatchAll deployments platform = Ok ps /\
    ResolveParameterSupport order ps params = Ok (E := support_error (E := tool_error)) ps' /\
    if bool_decide (Result ps' = PlatformIsSupported) then events = [] /\ r = Ok tt
    else events = [OnReadinessProbed platform] /\ kind = RecipeFailureUnsupportedPlatform /\ r = Err (UnsupportedPlatformForRecipe platform).
Proof.
  unfold support_stage_Execute. destruct (GetDeploymentSupportForPlatform _ _ _ _ _ _) as [ps|e] eqn:Hps; cbn;
    [|intros [= <- <- <-]; left; by eexists].
  assert (Result ps <> PlatformSupportConditional -> ResolveParameterSupport order ps params = Ok (E := support_error (E := tool_error)) ps) as Hsame.
  { intros Hc. unfold ResolveParameterSupport. by rewrite bool_decide_eq_false_2. }
  destruct (Result ps) eqn:Hr.
  2: { intros [= <- <- <-]. right. exists ps, ps. split_and!; [done|by apply Hsame|]. by rewrite Hr. }
  all: destruct (ResolveParameterSupport order ps params) as [ps'|e] eqn:Hps'; [|intros [= <- <- <-]; left; by eexists].
  all: case_bool_decide as Hs; intros [= <- <- <-]; right; exists ps, ps'; split_and!; try done.
  all: by rewrite ?(bool_decide_eq_true_2 _ Hs), ?(bool_decide_eq_false_2 _ Hs).
Qed.

Lemma missing_conditional check flags platform deployments decl dep :
  chosen check flags platform deployments decl -> dep ∈ missing (E := tool_error) check (Dependencies decl) ->
  decl ∈ deployments /\ dep ∈ Dependencies decl /\ conditionallyRequired dep = true.
Proof.
  intros (pre & post & -> & _ & _ & Hc) [Hdep Hno]%elem_of_missing. split; [set_solver|]. split; [done|].
  destruct (Hc dep Hdep) as [?|[_ ?]]; [congruence|done].
Qed.


End Stages.

(** ** Required tools *)

Record ToolInfo := { ti_Name : string; ti_Version : string }.

#[export] Instance ToolInfo_eq_dec : EqDecision ToolInfo.
Proof. solve_decision. Defined.
#[export] Instance ToolInfo_countable : Countable ToolInfo.
Proof.
  apply (inj_countable' (fun t => (ti_Name t, ti_Version t)) (fun p => {| ti_Name := p.1; ti_Version := p.2 |})). by intros [].
Defined.

(** The loop over the additions, with the tools seen so far. *)
Fixpoint append_loop (tools : list ToolInfo) (seen : gset ToolInfo) (additions : list ToolInfo) : list ToolInfo :=
  match additions with
  | [] => tools
  | t :: rest => if bool_decide (t ∈ seen) then append_loop tools seen rest else append_loop (tools ++ [t]) ({[t]} ∪ seen) rest
  end.

Definition appendUniqueTools (tools additions : list ToolInfo) : list ToolInfo := append_loop tools (list_to_set tools) additions.

Definition tool_of_bundle (b : ToolBundleInfo) : ToolInfo := {| ti_Name := tb_Name b; ti_Version := tb_Version b |}.

(** [agent] is the agent with the version of the engine, which the build sets. *)
Definition requiredToolsForLocality (agent : ToolInfo) (bundles : list ToolBundleInfo) (locality : string) : list ToolInfo :=
  foldl (fun required b => if bool_decide (tb_Locality b = locality) then appendUniqueTools required [tool_of_bundle b] else required)
    [agent] bundles.

Lemma append_loop_spec additions : forall tools seen, NoDup tools -> (forall t, t ∈ seen <-> t ∈ tools) ->
  NoDup (append_loop tools seen additions) /\
  (forall t, t ∈ append_loop tools seen additions <-> t ∈ tools \/ t ∈ additions) /\ tools `prefix_of` append_loop tools seen additions.
Proof.
  induction additions as [|t additions IH]; intros tools seen Hnd Hseen; cbn.
  { split_and!; [done| |done]. intros t. rewrite elem_of_nil. tauto. }
  case_bool_decide as Ht.
  - destruct (IH tools seen Hnd Hseen) as (H1 & H2 & H3). split_and!; [done| |done]. intros u. rewrite H2, elem_of_cons.
    apply Hseen in Ht. naive_solver.
  - destruct (IH (tools ++ [t]) ({[t]} ∪ seen)) as (H1 & H2 & H3).
    + apply NoDup_app. split_and!; [done| |apply NoDup_singleton]. intros u Hu ->%list_elem_of_singleton. by apply Ht, Hseen.
    + intros u. rewrite elem_of_union, elem_of_singleton, elem_of_app, list_elem_of_singleton, Hseen. tauto.
    + split_and!; [done| |].
      * intros u. rewrite H2, elem_of_app, list_elem_of_singleton, elem_of_cons. tauto.
      * etrans; [|exact H3]. by apply prefix_app_r.
Qed.

(** The tools to deploy are the agent, first, and those of the bundles for the locality, each once. *)
Theorem required_tools_exact agent bundles locality :
  let required := requiredToolsForLocality agent bundles locality in
  NoDup required /\ head required = Some agent /\
  forall t, t ∈ required <-> t = agent \/ exists b, b ∈ bundles /\ tb_Locality b = locality /\ t = tool_of_bundle b.
Proof.
  unfold requiredToolsForLocality.
  assert (forall tools, NoDup tools -> head tools = Some agent ->
    let r := foldl (fun required b => if bool_decide (tb_Locality b = locality) then appendUniqueTools required [tool_of_bundle b] else required) tools bundles in
    NoDup r /\ head r = Some agent /\
    forall t, t ∈ r <-> t ∈ tools \/ exists b, b ∈ bundles /\ tb_Locality b = locality /\ t = tool_of_bundle b) as Hgen.
  { induction bundles as [|b bundles IH]; intros tools Hnd Hh; cbn.
    - split_and!; [done..|]. intros t. set_solver.
    - case_bool_decide as Hb.
      + destruct (append_loop_spec [tool_of_bundle b] tools (list_to_set tools) Hnd) as (H1 & H2 & H3); [intros; apply elem_of_list_to_set|].
        destruct (IH (appendUniqueTools tools [tool_of_bundle b])) as (H4 & H5 & H6); [done| |].
        { destruct tools; [done|]. destruct H3 as [l Hl]. unfold appendUniqueTools. by rewrite Hl. }
        split_and!; [done..|]. intros t. rewrite H6. unfold appendUniqueTools. rewrite H2, list_elem_of_singleton.
        setoid_rewrite elem_of_cons. naive_solver.
      + destruct (IH tools Hnd Hh) as (H4 & H5 & H6). split_and!; [done..|]. intros t. rewrite H6.
        setoid_rewrite elem_of_cons. naive_solver. }
  destruct (Hgen [agent]) as (H1 & H2 & H3); [apply NoDup_singleton|done|]. split_and!; [done..|]. intros t.
  by rewrite H3, list_elem_of_singleton.
Qed.

(** ** Samples *)

Definition linux_arm : PlatformConfiguration := {| Architecture := "aarch64"; OS := "Linux" |}.
Definition on_os (os : string) : list PlatformConfigurationFilter := [{| f_Architecture := None; f_OS := Some os |}].

(** A recipe that can use a profiler that exists for Windows only. *)
Definition sample_tools (name version : string) : option (list DeploymentDeclaration) :=
  if bool_decide (name = "windows-profiler") then Some [{| AppliesTo := on_os "Windows"; Dependencies := [] |}]
  else if bool_decide (name = "perf") then
    Some [{| AppliesTo := on_os "Linux";
             Dependencies := [{| dep_Type := DependencyTypeToolBundle; dep_Name := "perf"; dep_Version := "1.0.0"; dep_Locality := EmptyString;
                                 RequiredWhen := {| spec_Type := RequirementTypeAlways; spec_Parameters := ∅ |} |}] |}]
  else None.

Definition tool_when (name : string) (spec : RequirementSpec) : Dependency :=
  {| dep_Type := DependencyTypeTool; dep_Name := name; dep_Version := "1.0.0"; dep_Locality := EmptyString; RequiredWhen := spec |}.

Definition always : RequirementSpec := {| spec_Type := RequirementTypeAlways; spec_Parameters := ∅ |}.
Definition set_to (conditions : gmap string any) : RequirementSpec := {| spec_Type := RequirementTypeIfParamIsSet; spec_Parameters := conditions |}.

Definition recipe_when (specs : list RequirementSpec) : list DeploymentDeclaration :=
  [{| AppliesTo := on_os "Linux"; Dependencies := tool_when "perf" always :: (tool_when "windows-profiler" <$> specs) |}].

(** A checkbox and two inputs with their values. *)
Definition given (deep : bool) (mode scope : string) : BoundParameters :=
  {| b_parameters := {| SingleSelect := []; MultiSelect := []; Checkbox := [{| cp := {| ID := "deep"; Required := false |}; cb_default := false |}];
                        Input := [{| ip := {| ID := "mode"; Required := false |}; in_default := EmptyString |};
                                  {| ip := {| ID := "scope"; Required := false |}; in_default := EmptyString |}]; Radio := [] |};
     b_values := {| v_Checkbox := [deep]; v_Radio := []; v_SingleSelect := []; v_MultiSelect := []; v_Input := [mode; scope] |} |}.

Definition no_text (f : spec_float) : string := "number".
Definition visit_all (m : gmap string ToolBundleInfo) : list ToolBundleInfo := (map_to_list m).*2.

Definition supports (specs : list RequirementSpec) (params : BoundParameters) : bool :=
  is_ok (support_stage_Execute (E := string) no_text map_to_list true (Ok sample_tools) (recipe_when specs) linux_arm params).2.

Definition deploys (specs : list RequirementSpec) (params : BoundParameters) : option (list ToolBundleInfo) :=
  ok_value (bundle_stage_Execute (E := string) map_to_list visit_all (Ok sample_tools) (recipe_when specs) linux_arm (Some params)).

(** A tool that the target does not support is a reason to refuse only when it is required. *)
Example conditions_decide :
  supports [set_to {["mode" := VString "full"]}] (given false "quick" "all") = true /\
  supports [set_to {["mode" := VString "full"]}] (given false "full" "all") = false /\
  deploys [set_to {["mode" := VString "full"]}] (given false "quick" "all") =
    Some [{| tb_Name := "perf"; tb_Version := "1.0.0"; tb_Locality := "target" |}].
Proof. split_and!; vm_compute; reflexivity. Qed.

(** The negation of a condition is taken parameter by parameter, and a parameter that is not
    bound satisfies neither the condition nor its negation: a tool that is not required is
    then a reason to refuse. *)
Example negation_is_too_strong :
  supports [set_to {["mode" := VString "full"; "scope" := VString "all"]}] (given false "full" "part") = false /\
  supports [set_to {["unknown" := VString "full"]}] (given false "full" "part") = false /\
  (forall specs, specs ∈ [set_to {["mode" := VString "full"; "scope" := VString "all"]}; set_to {["unknown" := VString "full"]}] ->
     shouldDeployDependency (E := string) map_to_list (tool_when "windows-profiler" specs) (Some (given false "full" "part")) = Ok false).
Proof.
  split_and!; [vm_compute; reflexivity..|].
  intros specs [->|[->|[]%elem_of_nil]%elem_of_cons]%elem_of_cons; vm_compute; reflexivity.
Qed.

(** Conditions whose values have the same text are taken for duplicates: the second of these is
    forgotten, and a recipe runs although it requires a tool that the target does not support. *)
Example forgotten_condition :
  supports [set_to {["deep" := VString "true"]}; set_to {["deep" := VBool true]}] (given true "full" "all") = true /\
  shouldDeployDependency (E := string) map_to_list (tool_when "windows-profiler" (set_to {["deep" := VBool true]})) (Some (given true "full" "all")) = Ok true.
Proof. split; vm_compute; reflexivity. Qed.

Lemma distinguished_singleton d : distinguished no_text map_to_list [d].
Proof. intros a b ->%list_elem_of_singleton ->%list_elem_of_singleton. done. Qed.

Lemma sample_distinguished decl : decl ∈ recipe_when [set_to {["mode" := VString "full"]}] ->
  distinguished no_text map_to_list (negated <$> Dependencies decl).
Proof.
  intros ->%list_elem_of_singleton a b Ha Hb Hk. apply elem_of_cons in Ha as [->|Ha]; apply elem_of_cons in Hb as [->|Hb]; [done|..].
  - apply list_elem_of_singleton in Hb as ->. vm_compute in Hk. discriminate Hk.
  - apply list_elem_of_singleton in Ha as ->. vm_compute in Hk. discriminate Hk.
  - apply list_elem_of_singleton in Ha as ->, Hb as ->. done.
Qed.


Lemma bundles_are_those_needed_witness :
  NoDup [{| tb_Name := "perf"; tb_Version := "1.0.0"; tb_Locality := "target" |}] /\
  needed (E := tool_error) map_to_list (depResolver sample_tools) linux_arm (Some (given false "quick" "all"))
    (recipe_when [set_to {["mode" := VString "full"]}]) {| tb_Name := "perf"; tb_Version := "1.0.0"; tb_Locality := "target" |}.
Proof.
  destruct (bundles_are_those_needed (E := tool_error) map_to_list (depResolver sample_tools) visit_all (fun m => reflexivity _) linux_arm
    (Some (given false "quick" "all")) (recipe_when [set_to {["mode" := VString "full"]}])) as [_ Hb].
  - intros b (decl & ->%list_elem_of_singleton & _ & dep & [->|[->|[]%elem_of_nil]%elem_of_cons]%elem_of_cons & Hs & Hd).
    + destruct Hd as [[Hd _]|[_ Hd]]; [discriminate Hd|]. cbn in Hd. destruct Hd as (tools & Ht & Hn).
      injection Ht as <-. destruct Hn as (decl & ->%list_elem_of_singleton & _ & dep & ->%list_elem_of_singleton & _ & Hd).
      destruct Hd as [(_ & _ & -> & _)|[Hd _]]; [reflexivity|discriminate Hd].
    + vm_compute in Hs. discriminate Hs.
  - destruct (Hb [{| tb_Name := "perf"; tb_Version := "1.0.0"; tb_Locality := "target" |}] ltac:(vm_compute; reflexivity)) as [Hnd Hin].
    split; [exact Hnd|]. apply Hin. left.
Defined.
