(* ===== verification/TargetLock.v ===== *)
(** * Performix: the lock of a target

    Models [core/apap-engine/recipe/stages/target_lock_stage.go], by which a recipe acquires
    exclusive use of a target, and [HoldLock] of [core/atperf-agent/filelock/cross_process_lock.go]
    and [grpcserver/api_target_agent.go], by which the agents of the target grant it. Several
    agents may run on a target; they share the lock file, and each has a mutex for its own
    callers.

    An attempt is one execution of the stage, with the goroutine that watches for commands and
    the handler of its call in an agent. The context of the handler ends some time after that
    of the stage, or when the connection is lost. A file lock belongs to one process, and
    locking it again in the process that has it succeeds. *)

From S2P Require Import Prelude.

(** ** The stage *)

Inductive lock_error :=
| UserStopped | UserCanceled | LockTimeout
| TransportError               (* the stream ended *)
| AgentError (text : string).

#[export] Instance lock_error_eq_dec : EqDecision lock_error.
Proof. solve_decision. Defined.

(** The goroutine: in its [select], after it with the error of the channel, after loading
    [lockGranted], before [cancel()]. *)
Inductive watcher := Watching | Selected (e : lock_error) | Sending (e : lock_error) | Cancelling | Ended.

(** [Execute]: calling [HoldLock], receiving, before [lockGranted.Store(true)], in [mapError]. *)
Inductive progress := Calling | Receiving | Storing | Mapping (targetErr : option lock_error) | Returned (err : option lock_error).

(** [fired] are the channels that are ready: those of the commands, and that of the timer when
    there is a duration. [released] is [releaseOnce]. *)
Record TargetLockStage := {
  fired : list lock_error;
  lockGranted : bool;
  ctx_done : bool;
  stopCancelErr : option lock_error;
  goroutine : watcher;
  pc : progress;
  released : bool
}.

Definition NewTargetLockStage : TargetLockStage :=
  {| fired := []; lockGranted := false; ctx_done := false; stopCancelErr := None; goroutine := Watching; pc := Calling; released := false |}.

Definition set_goroutine (s : TargetLockStage) (g : watcher) : TargetLockStage :=
  {| fired := fired s; lockGranted := lockGranted s; ctx_done := ctx_done s; stopCancelErr := stopCancelErr s; goroutine := g;
     pc := pc s; released := released s |}.
Definition set_pc (s : TargetLockStage) (x : progress) : TargetLockStage :=
  {| fired := fired s; lockGranted := lockGranted s; ctx_done := ctx_done s; stopCancelErr := stopCancelErr s;
     goroutine := goroutine s; pc := x; released := released s |}.

(** What receiving from the stream returns. *)
Inductive received := LockGranted | EndOfStream | ReceiveError (text : string).

Inductive stage_label :=
| Fire (e : lock_error) | Select (e : lock_error) | Load | Send | CancelContext | SeeDone
| CallHoldLock (err : option string) | Recv (r : received) | Store | MapError | Release.

Definition command (e : lock_error) : bool := match e with UserStopped | UserCanceled | LockTimeout => true | _ => false end.

Definition stage_exec (l : stage_label) (s : TargetLockStage) : option TargetLockStage :=
  match l, goroutine s, pc s with
  | Fire e, _, _ =>
      if command e
      then Some {| fired := e :: fired s; lockGranted := lockGranted s; ctx_done := ctx_done s; stopCancelErr := stopCancelErr s;
                   goroutine := goroutine s; pc := pc s; released := released s |}
      else None
  | Select e, Watching, _ => if bool_decide (e ∈ fired s) then Some (set_goroutine s (Selected e)) else None
  | SeeDone, Watching, _ => if ctx_done s then Some (set_goroutine s Ended) else None
  | Load, Selected e, _ => Some (set_goroutine s (if lockGranted s then Ended else Sending e))
  | Send, Sending e, _ =>
      match stopCancelErr s with
      | Some _ => None
      | None => Some {| fired := fired s; lockGranted := lockGranted s; ctx_done := ctx_done s; stopCancelErr := Some e;
                        goroutine := Cancelling; pc := pc s; released := released s |}
      end
  | CancelContext, Cancelling, _ =>
      Some {| fired := fired s; lockGranted := lockGranted s; ctx_done := true; stopCancelErr := stopCancelErr s;
              goroutine := Ended; pc := pc s; released := released s |}
  | CallHoldLock err, _, Calling => Some (set_pc s (match err with Some text => Mapping (Some (AgentError text)) | None => Receiving end))
  | Recv r, _, Receiving =>
      Some (set_pc s (match r with
                      | LockGranted => Storing
                      | EndOfStream => Returned (Some TransportError)
                      | ReceiveError text => Mapping (Some (AgentError text))
                      end))
  | Store, _, Storing =>
      Some {| fired := fired s; lockGranted := true; ctx_done := ctx_done s; stopCancelErr := stopCancelErr s;
              goroutine := goroutine s; pc := Mapping None; released := released s |}
  | MapError, _, Mapping targetErr =>
      Some {| fired := fired s; lockGranted := lockGranted s; ctx_done := ctx_done s; stopCancelErr := None;
              goroutine := goroutine s; pc := Returned (match stopCancelErr s with Some e => Some e | None => targetErr end);
              released := released s |}
  | Release, _, Returned _ =>
      Some {| fired := fired s; lockGranted := lockGranted s; ctx_done := true; stopCancelErr := stopCancelErr s;
              goroutine := goroutine s; pc := pc s; released := true |}
  | _, _, _ => None
  end.

(** ** The agents *)

(** [CrossProcessLock.HoldLock]: trying the mutex, with it, trying the file lock, before and
    after [onLockGranted], and its deferred calls. *)
Inductive handler :=
| NotCalled | TryingMutex | MutexLocked | TryingFile | FileLocked | Holding
| UnlockingFile (err : option string) | UnlockingMutex (err : option string) | HandlerDone (err : option string).

Record attempt := {
  process : nat;
  stage : TargetLockStage;
  handled : handler;
  granted : bool;               (* [LockGranted] has been sent *)
  handler_ctx_done : bool
}.

(** The holders of the mutex of every agent, and the process that has the file lock. *)
Record world := { attempts : gmap nat attempt; inProcLoc : gmap nat nat; fileLock : option nat }.

Definition no_attempts : world := {| attempts := ∅; inProcLoc := ∅; fileLock := None |}.

Definition with_stage (a : attempt) (s : TargetLockStage) (h : handler) : attempt :=
  {| process := process a; stage := s; handled := h; granted := granted a; handler_ctx_done := handler_ctx_done a |}.
Definition with_handler (a : attempt) (h : handler) : attempt := with_stage a (stage a) h.

Inductive handler_label :=
| TryMutex | GiveUpMutex | EnsureLockPath (err : option string) | TryFile (err : option string) | GiveUpFile
| OnLockGranted | StopHolding | UnlockFile | UnlockMutex.

Inductive label :=
| Start (i p : nat)
| StageStep (i : nat) (l : stage_label)
| HandlerStep (i : nat) (l : handler_label)
| ContextDone (i : nat) (connection_lost : bool).

Definition context_error : option string := Some "context canceled".

(** A step of the handler of [a] with the holder of its mutex and of the file lock afterwards. *)
Definition handler_exec (i : nat) (l : handler_label) (a : attempt) (mutex file : option nat) : option (attempt * option nat * option nat) :=
  match l, handled a with
  | TryMutex, TryingMutex => match mutex with None => Some (with_handler a MutexLocked, Some i, file) | Some _ => Some (a, mutex, file) end
  | GiveUpMutex, TryingMutex => if handler_ctx_done a then Some (with_handler a (HandlerDone context_error), mutex, file) else None
  | EnsureLockPath None, MutexLocked => Some (with_handler a TryingFile, mutex, file)
  | EnsureLockPath (Some e), MutexLocked => Some (with_handler a (UnlockingMutex (Some e)), mutex, file)
  | TryFile (Some e), TryingFile => Some (with_handler a (UnlockingMutex (Some e)), mutex, file)
  | TryFile None, TryingFile =>
      if bool_decide (file = None \/ file = Some (process a)) then Some (with_handler a FileLocked, mutex, Some (process a))
      else Some (a, mutex, file)
  | GiveUpFile, TryingFile => if handler_ctx_done a then Some (with_handler a (UnlockingMutex context_error), mutex, file) else None
  | OnLockGranted, FileLocked =>
      Some ({| process := process a; stage := stage a; handled := Holding; granted := true; handler_ctx_done := handler_ctx_done a |}, mutex, file)
  | StopHolding, Holding => if handler_ctx_done a then Some (with_handler a (UnlockingFile None), mutex, file) else None
  | UnlockFile, UnlockingFile e => Some (with_handler a (UnlockingMutex e), mutex, None)
  | UnlockMutex, UnlockingMutex e => Some (with_handler a (HandlerDone e), None, file)
  | _, _ => None
  end.

(** A call that succeeds starts the handler, a grant is received after it was sent, and the
    stream ends without an error when the handler has returned none. *)
Definition stage_step (l : stage_label) (a : attempt) : option attempt :=
  s ← stage_exec l (stage a);
  match l with
  | CallHoldLock None => Some (with_stage a s TryingMutex)
  | Recv LockGranted => if granted a then Some (with_stage a s (handled a)) else None
  | Recv EndOfStream => match handled a with HandlerDone None => Some (with_stage a s (handled a)) | _ => None end
  | _ => Some (with_stage a s (handled a))
  end.

Definition put (i : nat) (a : attempt) (w : world) : world :=
  {| attempts := <[i := a]> (attempts w); inProcLoc := inProcLoc w; fileLock := fileLock w |}.

Definition exec (l : label) (w : world) : option world :=
  match l with
  | Start i p =>
      match attempts w !! i with
      | Some _ => None
      | None => Some (put i {| process := p; stage := NewTargetLockStage; handled := NotCalled; granted := false; handler_ctx_done := false |} w)
      end
  | StageStep i l => a ← attempts w !! i; a' ← stage_step l a; Some (put i a' w)
  | HandlerStep i l =>
      a ← attempts w !! i;
      '(a', mutex, file) ← handler_exec i l a (inProcLoc w !! process a) (fileLock w);
      Some {| attempts := <[i := a']> (attempts w);
              inProcLoc := match mutex with Some j => <[process a := j]> (inProcLoc w) | None => delete (process a) (inProcLoc w) end;
              fileLock := file |}
  | ContextDone i connection_lost =>
      a ← attempts w !! i;
      if ctx_done (stage a) || connection_lost
      then Some (put i {| process := process a; stage := stage a; handled := handled a; granted := granted a; handler_ctx_done := true |} w)
      else None
  end.

Definition step (w w' : world) : Prop := exists l, exec l w = Some w'.
Definition reachable : world -> Prop := rtc step no_attempts.

Fixpoint exec_all (ls : list label) (w : world) : option world :=
  match ls with [] => Some w | l :: rest => w' ← exec l w; exec_all rest w' end.

Lemma exec_all_rtc ls : forall w w', exec_all ls w = Some w' -> rtc step w w'.
Proof.
  induction ls as [|l ls IH]; intros w w'; cbn; [by intros [= <-]|]. intros (w1 & H1 & H2)%bind_Some.
  eapply rtc_l; [by exists l|by apply IH].
Qed.

(** ** One attempt *)

Definition watching (g : watcher) : bool := match g with Watching | Selected _ | Sending _ => true | _ => false end.
Definition chosen_error (g : watcher) : option lock_error := match g with Selected e | Sending e => Some e | _ => None end.

(** What has been found out about the grant. *)
Definition pc_ok (s : TargetLockStage) : Prop :=
  match pc s with
  | Calling | Receiving | Storing => lockGranted s = false
  | Mapping None | Returned None => lockGranted s = true
  | Mapping (Some e) => lockGranted s = false /\ command e = false
  | Returned (Some e) => e ∈ fired s \/ command e = false
  end.

Record stage_ok (s : TargetLockStage) : Prop := {
  so_commands : Forall (fun e => command e = true) (fired s);
  so_buffer : watching (goroutine s) = true -> stopCancelErr s = None;
  so_chosen : forall e, chosen_error (goroutine s) = Some e -> e ∈ fired s;
  so_error : forall e, stopCancelErr s = Some e -> e ∈ fired s;
  so_cancelling : goroutine s = Cancelling -> fired s <> [];
  so_done : ctx_done s = true -> released s = true \/ fired s <> [];
  so_released : released s = true -> ctx_done s = true;
  so_pc : pc_ok s
}.

Lemma NewTargetLockStage_ok : stage_ok NewTargetLockStage.
Proof. split; done. Qed.

Lemma stage_exec_ok l s s' : stage_exec l s = Some s' -> stage_ok s -> stage_ok s'.
Proof.
  intros Hx [Hco Hb Hc He Hca Hd Hr Hp]. destruct s as [fi lg cd se g pc0 re]; unfold pc_ok in *; cbn in *.
  assert (forall e, e ∈ fi -> fi <> []) as Hne by (intros e ? ->; by apply (not_elem_of_nil e)).
  destruct l; cbn in Hx; repeat case_match; simplify_eq/=.
  all: repeat match goal with H : bool_decide _ = true |- _ => apply bool_decide_eq_true in H end.
  all: split; cbn; unfold pc_ok in *; cbn in *; try done.
  all: try (by intros; simplify_eq; eauto).
  all: intros; simplify_eq/=.
  all: try (by right; eauto).
  all: try (by constructor).
  all: try (by left; eauto).
  all: try (by destruct Hp; [left; right|right]).
  by right; destruct Hp.
Qed.

Lemma stage_exec_released l s s' : stage_exec l s = Some s' -> released s = true -> released s' = true.
Proof. destruct l; cbn; repeat case_match; intros [= <-]; done. Qed.

(** ** The agents *)

Definition has_mutex (h : handler) : bool :=
  match h with MutexLocked | TryingFile | FileLocked | Holding | UnlockingFile _ | UnlockingMutex _ => true | _ => false end.
Definition has_file (h : handler) : bool := match h with FileLocked | Holding | UnlockingFile _ => true | _ => false end.

(** The handler has been called when the stage waits for it or has been granted the lock, and it
    holds the lock from the grant until its context ends. *)
Record attempt_ok (a : attempt) : Prop := {
  ao_stage : stage_ok (stage a);
  ao_called : pc (stage a) = Calling -> handled a = NotCalled;
  ao_granted : lockGranted (stage a) = true \/ pc (stage a) = Storing -> granted a = true;
  ao_sent : granted a = true -> match handled a with
    | Holding => True
    | UnlockingFile _ | UnlockingMutex _ | HandlerDone _ => handler_ctx_done a = true
    | _ => False
    end
}.

Lemma attempt_ok_new p :
  attempt_ok {| process := p; stage := NewTargetLockStage; handled := NotCalled; granted := false; handler_ctx_done := false |}.
Proof. split; [apply NewTargetLockStage_ok|done| |done]. by intros [?|?]. Qed.

Lemma stage_step_ok l a a' : stage_step l a = Some a' -> attempt_ok a ->
  attempt_ok a' /\ process a' = process a /\ handler_ctx_done a' = handler_ctx_done a /\
  (handled a' = handled a \/ (handled a = NotCalled /\ handled a' = TryingMutex)).
Proof.
  unfold stage_step. intros (s & Hs & Ha')%bind_Some [Hst Hca Hg Hse]. pose proof (stage_exec_ok _ _ _ Hs Hst) as Hok.
  assert (forall h, (handled a = h \/ (handled a = NotCalled /\ h = TryingMutex)) ->
    (pc s = Calling -> h = NotCalled) -> (lockGranted s = true \/ pc s = Storing -> granted a = true) ->
    attempt_ok (with_stage a s h) /\ process (with_stage a s h) = process a /\ handler_ctx_done (with_stage a s h) = handler_ctx_done a /\
    (h = handled a \/ (handled a = NotCalled /\ h = TryingMutex))) as Hput.
  { intros h Hh Hc Hg'. split; [|split_and!; naive_solver]. split; cbn; try done.
    - intros Hs'%Hse. destruct Hh as [<-|[Hn _]]; [done|]. by rewrite Hn in Hs'. }
  destruct l; cbn in Hs; repeat case_match; simplify_eq/=; apply Hput; cbn in *; try done; try tauto; try (by left).
  all: try (by right; split; [apply Hca|]).
  all: try (by intros [?|?]; auto; congruence).
Qed.

Lemma handler_exec_ok i l a mutex file a' mutex' file' : handler_exec i l a mutex file = Some (a', mutex', file') -> attempt_ok a ->
  attempt_ok a' /\ process a' = process a /\ stage a' = stage a.
Proof.
  intros Hx [Hst Hca Hg Hse]. destruct a as [p s h g c]; cbn in *.
  destruct l; cbn in Hx; repeat case_match; simplify_eq/=.
  all: split_and!; [split; cbn; try done|done|done].
  all: intros Hc%Hca; discriminate Hc.
Qed.

(** What the handler does to the mutex and to the file lock. *)
Lemma handler_exec_locks i l a mutex file a' mutex' file' : handler_exec i l a mutex file = Some (a', mutex', file') ->
  (has_mutex (handled a) = true -> mutex = Some i) ->
  ((mutex' = mutex /\ has_mutex (handled a') = has_mutex (handled a)) \/
   (mutex = None /\ mutex' = Some i /\ has_mutex (handled a') = true) \/
   (mutex = Some i /\ mutex' = None /\ has_mutex (handled a') = false)) /\
  ((file' = file /\ has_file (handled a') = has_file (handled a)) \/
   (has_mutex (handled a) = true /\ file' = Some (process a) /\ (file = None \/ file = Some (process a)) /\ has_file (handled a') = true) \/
   (file' = None /\ has_file (handled a) = true /\ has_file (handled a') = false)).
Proof.
  intros Hx Hm. destruct a as [p s h g c]; cbn in *.
  destruct l; cbn in Hx; repeat case_match; simplify_eq/=.
  all: try (specialize (Hm eq_refl); simplify_eq).
  all: try (match goal with H : bool_decide _ = true |- _ => apply bool_decide_eq_true in H end).
  all: by split; auto 6.
Qed.

Lemma has_file_mutex h : has_file h = true -> has_mutex h = true.
Proof. by destruct h. Qed.

Record world_ok (w : world) : Prop := {
  wo_attempt : forall i a, attempts w !! i = Some a -> attempt_ok a;
  wo_mutex : forall i a, attempts w !! i = Some a -> has_mutex (handled a) = true -> inProcLoc w !! process a = Some i;
  wo_owner : forall i p, inProcLoc w !! p = Some i -> exists a, attempts w !! i = Some a /\ process a = p /\ has_mutex (handled a) = true;
  wo_file : forall i a, attempts w !! i = Some a -> has_file (handled a) = true -> fileLock w = Some (process a);
  wo_file_owner : forall p, fileLock w = Some p -> exists i a, attempts w !! i = Some a /\ process a = p /\ has_file (handled a) = true
}.

(** Replacing an attempt by one that holds the same locks. *)
Lemma put_ok w i a a' : world_ok w -> attempts w !! i = Some a -> attempt_ok a' -> process a' = process a ->
  has_mutex (handled a') = has_mutex (handled a) -> has_file (handled a') = has_file (handled a) -> world_ok (put i a' w).
Proof.
  intros [Ha Hm Ho Hf Hfo] Hi Ha' Hp Hmu Hfi. split; cbn.
  - intros j b [[_ <-]|[_ ?]]%lookup_insert_Some; eauto.
  - intros j b [[<- <-]|[_ ?]]%lookup_insert_Some Hb; [|by eapply Hm]. rewrite Hp. rewrite Hmu in Hb. by eapply Hm.
  - intros j p (b & Hb & <- & Hbm)%Ho. destruct (decide (j = i)) as [->|Hne].
    + simplify_eq. exists a'. rewrite lookup_insert_eq. by rewrite Hmu.
    + exists b. by rewrite lookup_insert_ne.
  - intros j b [[<- <-]|[_ ?]]%lookup_insert_Some Hb; [|by eapply Hf]. rewrite Hp. rewrite Hfi in Hb. by eapply Hf.
  - intros p (j & b & Hb & <- & Hbf)%Hfo. destruct (decide (j = i)) as [->|Hne].
    + simplify_eq. exists i, a'. rewrite lookup_insert_eq. by rewrite Hfi.
    + exists j, b. by rewrite lookup_insert_ne.
Qed.

(** The attempts that have a mutex or the file lock after a step of a handler. *)
Lemma handler_step_ok w i l a a' mutex file : world_ok w -> attempts w !! i = Some a ->
  handler_exec i l a (inProcLoc w !! process a) (fileLock w) = Some (a', mutex, file) ->
  world_ok {| attempts := <[i := a']> (attempts w);
              inProcLoc := match mutex with Some j => <[process a := j]> (inProcLoc w) | None => delete (process a) (inProcLoc w) end;
              fileLock := file |}.
Proof.
  intros [Ha Hm Ho Hf Hfo] Hi Hx. pose proof (handler_exec_ok _ _ _ _ _ _ _ _ Hx (Ha i a Hi)) as (Ha' & Hp & _).
  destruct (handler_exec_locks _ _ _ _ _ _ _ _ Hx (Hm i a Hi)) as [Hmu Hfi].
  set (m' := match mutex with Some j => <[process a := j]> (inProcLoc w) | None => delete (process a) (inProcLoc w) end).
  assert (m' !! process a = mutex) as Hm1 by (unfold m'; destruct mutex; [by rewrite lookup_insert_eq|by rewrite lookup_delete_eq]).
  assert (forall p, p <> process a -> m' !! p = inProcLoc w !! p) as Hm2.
  { intros p Hne. unfold m'. destruct mutex; [by rewrite lookup_insert_ne|by rewrite lookup_delete_ne]. }
  split; cbn.
  - intros j b [[_ <-]|[_ ?]]%lookup_insert_Some; eauto.
  - intros j b [[<- <-]|[Hne Hj]]%lookup_insert_Some Hb.
    + rewrite Hp, Hm1. destruct Hmu as [[-> Heq]|[(_ & -> & _)|(_ & _ & ?)]]; [|done|congruence]. rewrite Heq in Hb. by apply Hm.
    + destruct (decide (process b = process a)) as [He|Hne']; [|rewrite Hm2 by done; by eapply Hm].
      pose proof (Hm j b Hj Hb) as Hjm. rewrite He in *. rewrite Hm1. destruct Hmu as [[-> _]|[(? & _)|(? & _)]]; congruence.
  - intros j p Hj. destruct (decide (p = process a)) as [->|Hne].
    + rewrite Hm1 in Hj. destruct Hmu as [[-> Heq]|[(_ & -> & Hb)|(_ & -> & _)]]; [|injection Hj as <-|done].
      * apply Ho in Hj as (b & Hb & Hpb & Hbm). destruct (decide (j = i)) as [->|Hne].
        -- simplify_eq. exists a'. rewrite lookup_insert_eq. by rewrite Heq.
        -- exists b. by rewrite lookup_insert_ne.
      * exists a'. by rewrite lookup_insert_eq.
    + rewrite Hm2 in Hj by done. apply Ho in Hj as (b & Hb & <- & Hbm). exists b. rewrite lookup_insert_ne; [done|]. intros <-. congruence.
  - intros j b [[<- <-]|[Hne Hj]]%lookup_insert_Some Hb.
    + rewrite Hp. destruct Hfi as [[-> Heq]|[(_ & -> & _)|(_ & _ & ?)]]; [|done|congruence]. rewrite Heq in Hb. by eapply Hf.
    + pose proof (Hf j b Hj Hb) as Hfb. destruct Hfi as [[-> _]|[(_ & -> & [?|?] & _)|(_ & Hfa & _)]]; [done|congruence|congruence|].
      pose proof (Hf i a Hi Hfa) as Hfa'. assert (process a = process b) as Hpe by congruence.
      pose proof (Hm i a Hi (has_file_mutex _ Hfa)) as H1. pose proof (Hm j b Hj (has_file_mutex _ Hb)) as H2. congruence.
  - intros p ->. destruct Hfi as [[Heq Hsame]|[(_ & [= ->] & _ & Hb)|(? & _)]]; [|exists i, a'; by rewrite lookup_insert_eq|done].
    symmetry in Heq. apply Hfo in Heq as (j & b & Hb & <- & Hbf). destruct (decide (j = i)) as [->|Hne].
    + simplify_eq. exists i, a'. rewrite lookup_insert_eq. by rewrite Hsame.
    + exists j, b. by rewrite lookup_insert_ne.
Qed.

Lemma exec_ok l w w' : exec l w = Some w' -> world_ok w -> world_ok w'.
Proof.
  intros Hx Hw. destruct l as [i p|i l|i l|i lost]; cbn in Hx.
  - case_match; [done|]. injection Hx as <-. destruct Hw as [Ha Hm Ho Hf Hfo]. split; cbn.
    + intros j b [[_ <-]|[_ ?]]%lookup_insert_Some; [apply attempt_ok_new|eauto].
    + intros j b [[_ <-]|[_ ?]]%lookup_insert_Some; [done|eauto].
    + intros j q (b & Hb & ? & ?)%Ho. exists b. rewrite lookup_insert_ne; [done|]. intros <-. congruence.
    + intros j b [[_ <-]|[_ ?]]%lookup_insert_Some; [done|eauto].
    + intros q (j & b & Hb & ? & ?)%Hfo. exists j, b. rewrite lookup_insert_ne; [done|]. intros <-. congruence.
  - apply bind_Some in Hx as (a & Hi & (a' & Hs & [= <-])%bind_Some).
    apply stage_step_ok in Hs as (Ha' & Hp & _ & Hh); [|by eapply wo_attempt].
    destruct Hh as [Hh|[Hn Hh]]; eapply put_ok; try done; by rewrite Hh, ?Hn.
  - apply bind_Some in Hx as (a & Hi & ([[a' mutex] file] & Hs & [= <-])%bind_Some). by eapply handler_step_ok.
  - apply bind_Some in Hx as (a & Hi & Hx). case_match; [|done]. injection Hx as <-. eapply put_ok; try done.
    destruct (wo_attempt _ Hw i a Hi) as [Hst Hca Hg Hse]. split; cbn; try done. intros Hs'%Hse. by destruct (handled a).
Qed.

Lemma reachable_ok w : reachable w -> world_ok w.
Proof.
  intros Hr. unfold reachable in Hr. remember no_attempts as w0 eqn:Hw0.
  assert (world_ok w0) as Hok by (subst w0; split; cbn; intros; by rewrite ?lookup_empty in *).
  clear Hw0. induction Hr as [|w0 w1 w2 [l Hl] _ IH]; [done|]. by eapply IH, exec_ok.
Qed.

(** ** Exclusive use *)

(** A stage that has returned without an error, and whose call has not come to its end. *)
Definition possesses (a : attempt) : Prop := pc (stage a) = Returned None /\ handler_ctx_done a = false.

(** C9: at most one attempt has the lock of a target, whichever agents the attempts use: a stage
    that returns without an error has been granted the lock by its agent, whose handler holds
    it from then on, until the connection is lost or the stage gives the lock up. The stage
    gives it up by a release, or for a command that came; an error that it returns is that
    of a command that came or of the agent. *)
Theorem target_lock_is_exclusive w i a : reachable w -> attempts w !! i = Some a ->
  (possesses a -> handled a = Holding /\ inProcLoc w !! process a = Some i /\ fileLock w = Some (process a) /\
     forall j b, attempts w !! j = Some b -> possesses b -> j = i) /\
  (pc (stage a) = Returned None -> granted a = true /\ (ctx_done (stage a) = true -> released (stage a) = true \/ fired (stage a) <> [])) /\
  (forall e, pc (stage a) = Returned (Some e) -> e ∈ fired (stage a) \/ command e = false).
Proof.
  intros Hw%reachable_ok Hi.
  assert (forall j b, attempts w !! j = Some b -> pc (stage b) = Returned None -> granted b = true) as Hgranted.
  { intros j b Hb Hpc. destruct (wo_attempt _ Hw j b Hb) as [Hst _ Hg _]. apply Hg. left.
    pose proof (so_pc _ Hst) as Hp. unfold pc_ok in Hp. by rewrite Hpc in Hp. }
  assert (forall j b, attempts w !! j = Some b -> possesses b -> handled b = Holding) as Hholds.
  { intros j b Hb [Hpc Hc]. destruct (wo_attempt _ Hw j b Hb) as [_ _ _ Hs]. specialize (Hs (Hgranted j b Hb Hpc)).
    destruct (handled b); try done; congruence. }
  split_and!.
  - intros Ha. pose proof (Hholds i a Hi Ha) as Hh. split; [done|].
    assert (inProcLoc w !! process a = Some i) as Hm by (apply (wo_mutex _ Hw); [done|by rewrite Hh]).
    assert (fileLock w = Some (process a)) as Hf by (eapply (wo_file _ Hw); [done|by rewrite Hh]).
    split_and!; [done..|]. intros j b Hb Hbp. pose proof (Hholds j b Hb Hbp) as Hhb.
    assert (fileLock w = Some (process b)) as Hf' by (eapply (wo_file _ Hw); [done|by rewrite Hhb]).
    assert (inProcLoc w !! process b = Some j) as Hm' by (apply (wo_mutex _ Hw); [done|by rewrite Hhb]).
    congruence.
  - intros Hpc. split; [by eapply Hgranted|]. apply so_done. by destruct (wo_attempt _ Hw i a Hi).
  - intros e Hpc. destruct (wo_attempt _ Hw i a Hi) as [Hst _ _ _]. pose proof (so_pc _ Hst) as Hp. unfold pc_ok in Hp. by rewrite Hpc in Hp.
Qed.

(** ** Giving the lock back *)

(** Steps that are left of the goroutine and of the handler once their contexts have ended. *)
Definition goroutine_left (g : watcher) : nat := match g with Selected _ => 3 | Sending _ => 2 | Watching | Cancelling => 1 | Ended => 0 end.
Definition handler_left (h : handler) : nat :=
  match h with
  | FileLocked => 4 | Holding | MutexLocked => 3 | UnlockingFile _ | TryingFile => 2 | UnlockingMutex _ | TryingMutex => 1
  | NotCalled | HandlerDone _ => 0
  end.

Lemma goroutine_moves s : stage_ok s -> ctx_done s = true -> goroutine_left (goroutine s) <> 0 ->
  exists l s', stage_exec l s = Some s' /\ l <> CallHoldLock None /\ (forall r, l <> Recv r) /\
    goroutine_left (goroutine s') < goroutine_left (goroutine s) /\ ctx_done s' = true.
Proof.
  intros Hok Hd Hl. destruct s as [fi lg cd se g pc0 re]; cbn in *. subst cd. destruct g as [|e|e| |]; cbn in *; [..|done].
  - exists SeeDone. eexists. split_and!; [done|done|done|cbn; lia|done].
  - exists Load. eexists. split_and!; [done|done|done|destruct lg; cbn; lia|done].
  - exists Send. rewrite (so_buffer _ Hok eq_refl : se = None). eexists. split_and!; [done|done|done|cbn; lia|done].
  - exists CancelContext. eexists. split_and!; [done|done|done|cbn; lia|done].
Qed.

Lemma handler_moves i a mutex file : handler_ctx_done a = true -> handler_left (handled a) <> 0 ->
  exists l a' mutex' file', handler_exec i l a mutex file = Some (a', mutex', file') /\
    handler_left (handled a') < handler_left (handled a) /\ handler_ctx_done a' = true /\ stage a' = stage a.
Proof.
  intros Hd Hl. destruct a as [p s h g c]; cbn in *. subst c. destruct h; cbn in *; try done.
  - exists GiveUpMutex. do 3 eexists. split_and!; [done|cbn; lia|done|done].
  - exists (EnsureLockPath None). do 3 eexists. split_and!; [done|cbn; lia|done|done].
  - exists GiveUpFile. do 3 eexists. split_and!; [done|cbn; lia|done|done].
  - exists OnLockGranted. do 3 eexists. split_and!; [done|cbn; lia|done|done].
  - exists StopHolding. do 3 eexists. split_and!; [done|cbn; lia|done|done].
  - exists UnlockFile. do 3 eexists. split_and!; [done|cbn; lia|done|done].
  - exists UnlockMutex. do 3 eexists. split_and!; [done|cbn; lia|done|done].
Qed.

Lemma goroutine_ends n : forall w i a, world_ok w -> attempts w !! i = Some a -> ctx_done (stage a) = true ->
  goroutine_left (goroutine (stage a)) = n ->
  exists w' a', rtc step w w' /\ attempts w' !! i = Some a' /\ ctx_done (stage a') = true /\ goroutine (stage a') = Ended.
Proof.
  induction (lt_wf n) as [n _ IH]. intros w i a Hw Hi Hd Hn. destruct (decide (n = 0)) as [->|Hne].
  { exists w, a. split_and!; [done..|]. by destruct (goroutine (stage a)). }
  destruct (goroutine_moves (stage a)) as (l & s' & Hl & Hc & Hr & Hlt & Hd'); [by eapply ao_stage, wo_attempt|done|by rewrite Hn|].
  assert (exec (StageStep i l) w = Some (put i (with_stage a s' (handled a)) w)) as Hx.
  { cbn. rewrite Hi. cbn. unfold stage_step. rewrite Hl. cbn. destruct l as [| | | | | |[]|[]| | |]; try done; exfalso; by eapply Hr. }
  destruct (IH (goroutine_left (goroutine s')) ltac:(lia) (put i (with_stage a s' (handled a)) w) i (with_stage a s' (handled a)))
    as (w' & a' & Hrtc & ? & ? & ?); [by eapply exec_ok|cbn; by rewrite lookup_insert_eq|done|done|].
  exists w', a'. split_and!; [|done..]. eapply rtc_l; [by eexists|done].
Qed.

Lemma handler_ends n : forall w i a, attempts w !! i = Some a -> handler_ctx_done a = true -> handler_left (handled a) = n ->
  exists w' a', rtc step w w' /\ attempts w' !! i = Some a' /\ stage a' = stage a /\ handler_left (handled a') = 0.
Proof.
  induction (lt_wf n) as [n _ IH]. intros w i a Hi Hd Hn. destruct (decide (n = 0)) as [->|Hne]; [by exists w, a|].
  destruct (handler_moves i a (inProcLoc w !! process a) (fileLock w) Hd) as (l & a' & mutex & file & Hx & Hlt & Hd' & Hs); [by rewrite Hn|].
  set (w1 := {| attempts := <[i := a']> (attempts w);
                inProcLoc := match mutex with Some j => <[process a := j]> (inProcLoc w) | None => delete (process a) (inProcLoc w) end;
                fileLock := file |}).
  assert (exec (HandlerStep i l) w = Some w1) as Hx1 by (cbn; rewrite Hi; cbn; by rewrite Hx).
  destruct (IH (handler_left (handled a')) ltac:(lia) w1 i a') as (w' & a'' & Hrtc & Ha'' & Hs'' & Hl''); [cbn; by rewrite lookup_insert_eq|done|done|].
  exists w', a''. split_and!; [|done|congruence|done]. eapply rtc_l; [by eexists|done].
Qed.

(** C10: once a stage has released the lock, its goroutine can end and its handler can return,
    whatever they were doing; then the attempt has neither the mutex of an agent nor the file
    lock: whoever has the file lock is another attempt. *)
Theorem release_gives_the_lock_back w i a : reachable w -> attempts w !! i = Some a -> released (stage a) = true ->
  exists w' a', rtc step w w' /\ attempts w' !! i = Some a' /\ goroutine (stage a') = Ended /\
    handler_left (handled a') = 0 /\ (forall p, inProcLoc w' !! p <> Some i) /\
    forall p, fileLock w' = Some p -> exists j, j <> i /\ inProcLoc w' !! p = Some j.
Proof.
  intros Hw Hi Hrel. pose proof (reachable_ok _ Hw) as Hok.
  assert (ctx_done (stage a) = true) as Hd by (by apply so_released; [eapply ao_stage, wo_attempt|]).
  destruct (goroutine_ends _ w i a Hok Hi Hd eq_refl) as (w1 & a1 & H1 & Hi1 & Hd1 & Hg1).
  set (a2 := {| process := process a1; stage := stage a1; handled := handled a1; granted := granted a1; handler_ctx_done := true |}).
  assert (exec (ContextDone i false) w1 = Some (put i a2 w1)) as Hx by (cbn; rewrite Hi1; cbn; by rewrite Hd1).
  destruct (handler_ends (handler_left (handled a1)) (put i a2 w1) i a2) as (w3 & a3 & H3 & Hi3 & Hs3 & Hl3); [cbn; by rewrite lookup_insert_eq|done|done|].
  assert (rtc step w w3) as Hrtc by (apply (rtc_trans w w1); [exact H1|]; eapply rtc_l; [by eexists|exact H3]).
  assert (world_ok w3) as Hok3 by (apply reachable_ok; exact (rtc_trans _ _ _ Hw Hrtc)).
  assert (has_mutex (handled a3) = false) as Hno by (by destruct (handled a3)).
  assert (forall p, inProcLoc w3 !! p <> Some i) as Hmutex.
  { intros p (b & Hb & _ & Hbm)%(wo_owner _ Hok3). assert (b = a3) as -> by congruence. congruence. }
  exists w3, a3. split_and!; [done|done|by rewrite Hs3|done|done|].
  intros p (j & b & Hb & <- & Hbf)%(wo_file_owner _ Hok3). exists j. pose proof (wo_mutex _ Hok3 j b Hb (has_file_mutex _ Hbf)) as Hj.
  split; [|done]. intros ->. by eapply Hmutex.
Qed.

(** ** Samples *)

(** An attempt that gets the lock. *)
Definition acquire (i : nat) : list label :=
  [StageStep i (CallHoldLock None); HandlerStep i TryMutex; HandlerStep i (EnsureLockPath None); HandlerStep i (TryFile None);
   HandlerStep i OnLockGranted; StageStep i (Recv LockGranted); StageStep i Store; StageStep i MapError].

(** A second agent of the target has to wait until the first has let go. *)
Definition two_recipes : list label :=
  [Start 0 7; Start 1 8] ++ acquire 0 ++
  [StageStep 1 (CallHoldLock None); HandlerStep 1 TryMutex; HandlerStep 1 (EnsureLockPath None); HandlerStep 1 (TryFile None)].

Definition world_after (ls : list label) : world := default no_attempts (exec_all ls no_attempts).

Lemma reachable_after ls : is_Some (exec_all ls no_attempts) -> reachable (world_after ls).
Proof. intros [w Hw]. unfold world_after. rewrite Hw. by eapply exec_all_rtc. Qed.

Example second_waits :
  (handled <$> attempts (world_after two_recipes) !! 1) = Some TryingFile /\
  (handled <$> attempts (world_after (two_recipes ++ [StageStep 0 Release; ContextDone 0 false; HandlerStep 0 StopHolding;
     HandlerStep 0 UnlockFile; HandlerStep 0 UnlockMutex; HandlerStep 1 (TryFile None)])) !! 1) = Some FileLocked.
Proof. split; vm_compute; reflexivity. Qed.

(** A stop that arrives while the lock is being granted: the goroutine finds that it is not granted
    yet, the stage returns without an error, and then the goroutine ends the context. The
    recipe goes on without the lock, and another recipe gets it. *)
Example grant_is_lost :
  let w := world_after ([Start 0 7; Start 1 8; StageStep 0 (CallHoldLock None); HandlerStep 0 TryMutex; HandlerStep 0 (EnsureLockPath None);
    HandlerStep 0 (TryFile None); HandlerStep 0 OnLockGranted; StageStep 0 (Fire UserStopped); StageStep 0 (Select UserStopped);
    StageStep 0 (Recv LockGranted); StageStep 0 Load; StageStep 0 Store; StageStep 0 MapError; StageStep 0 Send; StageStep 0 CancelContext;
    ContextDone 0 false; HandlerStep 0 StopHolding; HandlerStep 0 UnlockFile; HandlerStep 0 UnlockMutex] ++ acquire 1) in
  ((fun a => (pc (stage a), lockGranted (stage a), released (stage a))) <$> attempts w !! 0) = Some (Returned None, true, false) /\
  ((fun a => (pc (stage a), handled a)) <$> attempts w !! 1) = Some (Returned None, Holding).
Proof. split; vm_compute; reflexivity. Qed.

Lemma target_lock_is_exclusive_witness :
  exists a, attempts (world_after two_recipes) !! 0 = Some a /\ handled a = Holding /\ fileLock (world_after two_recipes) = Some 7.
Proof.
  eexists. split; [vm_compute; reflexivity|].
  match goal with |- handled ?a = _ /\ _ =>
    destruct (target_lock_is_exclusive (world_after two_recipes) 0 a
      (reachable_after two_recipes ltac:(vm_compute; eexists; reflexivity)) ltac:(vm_compute; reflexivity)) as [Hp _] end.
  destruct Hp as (Hh & _ & Hf & _); [split; reflexivity|]. split; [exact Hh|exact Hf].
Defined.

Lemma release_gives_the_lock_back_witness :
  exists w' a', rtc step (world_after ([Start 0 7] ++ acquire 0 ++ [StageStep 0 Release])) w' /\
    attempts w' !! 0 = Some a' /\ handler_left (handled a') = 0.
Proof.
  set (ls := [Start 0 7] ++ acquire 0 ++ [StageStep 0 Release]).
  destruct (attempts (world_after ls) !! 0) as [a|] eqn:Ha; [|vm_compute in Ha; discriminate Ha].
  destruct (release_gives_the_lock_back (world_after ls) 0 a (reachable_after ls ltac:(vm_compute; eexists; reflexivity)) Ha)
    as (w' & a' & Hr & Hi & _ & Hl & _); [vm_compute in Ha; injection Ha as <-; reflexivity|].
  exists w', a'. split; [exact Hr|]. split; [exact Hi|exact Hl].
Defined.
