(* ===== verification/RecipeStages.v ===== *)
(** * Performix: the stages of a recipe run

    Models [RunStageFactory.BuildStages] of [core/apap-engine/recipe/runtime/run.go], the names,
    kinds of error and [AlwaysExecute] of the stages under [recipe/stages], and what those stages
    do that order the others: acquiring and releasing the target lock, starting and waiting for
    the transfers, collecting and checking process identifiers. The remaining stages call
    targets, tools and scripts; what they answer is an argument. *)

From S2P Require Import Prelude.
From S2P Require Import GoStrings.
From S2P Require Import CmdSync.
From S2P Require Import StageDriver.

Local Open Scope Z_scope.

(** ** Configuration *)

Inductive Workload := WorkloadLaunch | WorkloadAndroidLaunch | WorkloadAttach (PID : Z) | WorkloadSystemWide.

(** The fields of [StageConfiguration] that decide which stages there are; scripted stages are
    their names. *)
Record StageConfiguration := {
  OrigWorkload : Workload;
  ToolDeploymentType : Z;
  TransferManagerEnabled : bool;
  ParameterValidationStage : bool;
  ParameterOptionsStages : list string;
  RunStages : list string
}.

Definition ToolDeployNONE : Z := 0.

Inductive stage_kind :=
| TargetConnectStage | TargetArchitectureStage | TargetPlatformSupportStage | WorkloadOptionsStage
| ToolBundleResolutionStage | ToolDeploymentStage (locality : string) | HostArchitectureStage
| ConnectingToTargetAgentStage | TargetLockStage | CollectTargetInfoStage | CollectTargetPIDStage
| ValidateTargetPIDStage (Pid : Z) | StartTransferManagerStage
| CustomRecipeStage (StageName : string)
| ReleaseTargetLockStage | WaitForTransfersStage | RetrieveAgentFilesStage.

#[export] Instance stage_kind_eq_dec : EqDecision stage_kind.
Proof. solve_decision. Defined.

(** [BuildStages], up to the scripted stages, which it adds in [scripted]. *)
Definition preparation (cfg : StageConfiguration) : list stage_kind :=
  [TargetConnectStage; TargetArchitectureStage; TargetPlatformSupportStage; WorkloadOptionsStage] ++
  (if negb (ToolDeploymentType cfg =? ToolDeployNONE)
   then [ToolBundleResolutionStage; ToolDeploymentStage "target"; HostArchitectureStage; ToolDeploymentStage "host"] else []) ++
  [ConnectingToTargetAgentStage; TargetLockStage; CollectTargetInfoStage; CollectTargetPIDStage] ++
  (match OrigWorkload cfg with WorkloadAttach pid => if 0 <? pid then [ValidateTargetPIDStage pid] else [] | _ => [] end) ++
  (if TransferManagerEnabled cfg then [StartTransferManagerStage] else []).

Definition scripted (cfg : StageConfiguration) : list stage_kind :=
  (if ParameterValidationStage cfg
   then (CustomRecipeStage <$> ParameterOptionsStages cfg) ++ [CustomRecipeStage "Validating recipe parameters"] else []) ++
  (CustomRecipeStage <$> RunStages cfg).

Definition retrieval (cfg : StageConfiguration) : stage_kind :=
  if TransferManagerEnabled cfg then WaitForTransfersStage else RetrieveAgentFilesStage.

Definition BuildStages (cfg : StageConfiguration) : list stage_kind :=
  preparation cfg ++ scripted cfg ++ [ReleaseTargetLockStage; retrieval cfg].

(** The callbacks of the tool deployments report their own stage: its position and the count. *)
Definition deployment_infos (cfg : StageConfiguration) : list StageInfo :=
  let ss := BuildStages cfg in
  omap (fun p => match p.2 with
                 | ToolDeploymentStage l =>
                     Some {| info_name := "Reconciling " +:+ l +:+ " tool deployment"; Num := S p.1; Count := length ss |}
                 | _ => None
                 end) (imap (fun i k => (i, k)) ss).

(** ** The stages *)

(** Where the recipe stands with the lock: [Released] also when it was never granted. *)
Inductive lock_status := NotAcquired | Held | Released.

Section Stages.

(** Errors, cleanup functions of the other stages, and their state. *)
Context {E C X : Type} (user_cancelled : E) (cancel_error : string -> E).

Record run_state := {
  lock : lock_status;
  ListeningStarted : bool;                      (* the transfer manager listens *)
  flushed : option bool;                        (* [FlushTransfers] was called, with this argument *)
  phase1_notified : option bool;                (* [onPhase1TransferComplete] was called *)
  CachedAgentProcessList : option (list Z);     (* its process identifiers *)
  CachedAgentProcessListErr : option E;
  workload_StageError : RunResult;
  support_StageError : RunResult;
  transfers_errorType : RunResult;
  others : X
}.

Inductive cleanup := ReleaseLock | OtherCleanup (c : C).

Definition Context_ := StageContext (E := E) (W := run_state).

(** What is asked of the environment: the command state after a stage; the target lock; the list
    of processes, or an error with whether it says that the platform has none; writing the list;
    the transfers, with the call of the callback and its argument; recording that the first phase
    is complete; everything else. *)
Record environment := {
  commands : stage_kind -> Context_ -> CommandState;
  acquire_lock : Context_ -> option E;
  list_processes : Context_ -> result (E * bool) (list Z);
  write_processes : list Z -> Context_ -> option E;
  FlushTransfers : bool -> Context_ -> option bool * option E;
  update_phase1 : Context_ -> option E;
  other_stage : stage_kind -> Context_ -> X * (RunResult * RunResult) * option C * option E
}.

Context (env : environment) (pid_not_found : Z -> E) (join : E -> E -> E).

Definition StageName_of (k : stage_kind) : string :=
  match k with
  | TargetConnectStage => "Establishing connection to target"
  | TargetArchitectureStage => "Identifying target architecture"
  | TargetPlatformSupportStage => "Checking target platform support"
  | WorkloadOptionsStage => "Evaluating workload options"
  | ToolBundleResolutionStage => "Resolving tool bundles"
  | ToolDeploymentStage l => "Reconciling " +:+ l +:+ " tool deployment"
  | HostArchitectureStage => "Identifying host architecture"
  | ConnectingToTargetAgentStage => "Connecting to target agent"
  | TargetLockStage => "Acquiring target lock"
  | CollectTargetInfoStage => "Collecting target information"
  | CollectTargetPIDStage => "Collecting target information (running processes)"
  | ValidateTargetPIDStage _ => "Validating selected PID matches a process running on the target"
  | StartTransferManagerStage => "Starting transfer manager"
  | CustomRecipeStage name => name
  | ReleaseTargetLockStage => "Releasing target lock"
  | WaitForTransfersStage => "Waiting for transfers to complete"
  | RetrieveAgentFilesStage => "Retrieving recipe artifacts"
  end.

Definition ErrorType_of (k : stage_kind) (s : run_state) : RunResult :=
  match k with
  | TargetConnectStage => RecipeFailureConnectSSH
  | TargetArchitectureStage | HostArchitectureStage => RecipeFailureIdentify
  | TargetPlatformSupportStage => support_StageError s
  | WorkloadOptionsStage => workload_StageError s
  | ToolBundleResolutionStage | ToolDeploymentStage _ => RecipeFailureDeploy
  | ConnectingToTargetAgentStage => RecipeFailureConnectAgent
  | TargetLockStage | ReleaseTargetLockStage => RecipeFailureTargetLock
  | CollectTargetInfoStage | CollectTargetPIDStage | ValidateTargetPIDStage _ => RecipeFailureCollect
  | StartTransferManagerStage | RetrieveAgentFilesStage => RecipeFailureRetrieve
  | CustomRecipeStage _ => RecipeFailureStage
  | WaitForTransfersStage => transfers_errorType s
  end.

Definition AlwaysExecute_of (k : stage_kind) : bool :=
  match k with
  | StartTransferManagerStage | ReleaseTargetLockStage | WaitForTransfersStage | RetrieveAgentFilesStage => true
  | _ => false
  end.

Definition with_lock (s : run_state) (x : lock_status) : run_state :=
  {| lock := x; ListeningStarted := ListeningStarted s; flushed := flushed s; phase1_notified := phase1_notified s;
     CachedAgentProcessList := CachedAgentProcessList s; CachedAgentProcessListErr := CachedAgentProcessListErr s;
     workload_StageError := workload_StageError s; support_StageError := support_StageError s;
     transfers_errorType := transfers_errorType s; others := others s |}.

Definition with_processes (s : run_state) (l : option (list Z)) (e : option E) : run_state :=
  {| lock := lock s; ListeningStarted := ListeningStarted s; flushed := flushed s; phase1_notified := phase1_notified s;
     CachedAgentProcessList := l; CachedAgentProcessListErr := e;
     workload_StageError := workload_StageError s; support_StageError := support_StageError s;
     transfers_errorType := transfers_errorType s; others := others s |}.

Definition with_listening (s : run_state) : run_state :=
  {| lock := lock s; ListeningStarted := true; flushed := flushed s; phase1_notified := phase1_notified s;
     CachedAgentProcessList := CachedAgentProcessList s; CachedAgentProcessListErr := CachedAgentProcessListErr s;
     workload_StageError := workload_StageError s; support_StageError := support_StageError s;
     transfers_errorType := transfers_errorType s; others := others s |}.

Definition with_others (s : run_state) (x : X) (errors : RunResult * RunResult) : run_state :=
  {| lock := lock s; ListeningStarted := ListeningStarted s; flushed := flushed s; phase1_notified := phase1_notified s;
     CachedAgentProcessList := CachedAgentProcessList s; CachedAgentProcessListErr := CachedAgentProcessListErr s;
     workload_StageError := errors.1; support_StageError := errors.2;
     transfers_errorType := transfers_errorType s; others := x |}.

(** [CollectTargetPIDStage.Execute] *)
Definition collect_processes (ctx : Context_) : run_state * option E :=
  let s := rest_of_context ctx in
  match list_processes env ctx with
  | Err (e, true) => (with_processes s (CachedAgentProcessList s) (Some e), None)
  | Err (e, false) => (s, Some e)
  | Ok pids =>
      match write_processes env pids ctx with
      | Some e => (s, Some e)
      | None => (with_processes s (Some pids) (CachedAgentProcessListErr s), None)
      end
  end.

Definition agentProcessListContainsPID (procList : option (list Z)) (pid : Z) : bool :=
  match procList with None => false | Some l => existsb (fun p => p =? pid) l end.

(** [ValidateTargetPIDStage.Execute] *)
Definition validate_pid (pid : Z) (s : run_state) : option E :=
  match CachedAgentProcessListErr s with
  | Some e => Some e
  | None => if agentProcessListContainsPID (CachedAgentProcessList s) pid then None else Some (pid_not_found pid)
  end.

Definition errors_Join (a b : option E) : option E :=
  match a, b with Some x, Some y => Some (join x y) | Some x, None => Some x | None, b => b end.

(** [WaitForTransfersStage.Execute] *)
Definition wait_for_transfers (ctx : Context_) : run_state * option E :=
  let s := rest_of_context ctx in
  let runSucceeded := bool_decide (Failure ctx = None) in
  let '(phase1, flush_err) := FlushTransfers env runSucceeded ctx in
  let phase1ResultErr := match phase1 with Some _ => update_phase1 env ctx | None => None end in
  let err := errors_Join flush_err phase1ResultErr in
  ({| lock := lock s; ListeningStarted := ListeningStarted s; flushed := Some runSucceeded;
      phase1_notified := match phase1ResultErr with Some _ => None | None => phase1 end;
      CachedAgentProcessList := CachedAgentProcessList s; CachedAgentProcessListErr := CachedAgentProcessListErr s;
      workload_StageError := workload_StageError s; support_StageError := support_StageError s;
      transfers_errorType := if bool_decide (is_Some err) && bool_decide (is_Some phase1)
                             then RecipeFailureRetrievePhase1Complete else RecipeFailureRetrieve;
      others := others s |}, err).

Definition Execute_of (k : stage_kind) (ctx : Context_) : run_state * option cleanup * option E :=
  let s := rest_of_context ctx in
  match k with
  | TargetLockStage =>
      let err := acquire_lock env ctx in
      (with_lock s (match err with None => Held | Some _ => NotAcquired end), Some ReleaseLock, err)
  | ReleaseTargetLockStage => (with_lock s Released, None, None)
  | StartTransferManagerStage => (with_listening s, None, None)
  | WaitForTransfersStage => let '(s, err) := wait_for_transfers ctx in (s, None, err)
  | CollectTargetPIDStage => let '(s, err) := collect_processes ctx in (s, None, err)
  | ValidateTargetPIDStage pid => (s, None, validate_pid pid s)
  | _ => let '(x, errors, c, err) := other_stage env k ctx in (with_others s x errors, OtherCleanup <$> c, err)
  end.

Definition stage_of_kind (k : stage_kind) : Stage (E := E) (C := cleanup) (W := run_state) :=
  {| Name := StageName_of k; ErrorType := ErrorType_of k; AlwaysExecute := AlwaysExecute_of k;
     Execute := fun ctx => let '(s, c, err) := Execute_of k ctx in (commands env k ctx, s, c, err) |}.

Definition run_stages (cfg : StageConfiguration) (ctx : Context_) :=
  DriveRecipeExecutionStages user_cancelled cancel_error (stage_of_kind <$> BuildStages cfg) ctx.

(** ** Where the stages are *)

Lemma elem_of_scripted cfg k : k ∈ scripted cfg -> exists name, k = CustomRecipeStage name.
Proof.
  unfold scripted. rewrite elem_of_app. intros [H|H]; [|apply list_elem_of_fmap in H as (n & -> & _); by exists n].
  destruct (ParameterValidationStage cfg); [|by apply elem_of_nil in H].
  apply elem_of_app in H as [(n & -> & _)%list_elem_of_fmap| ->%list_elem_of_singleton]; by eexists.
Qed.

Definition is_preparation (k : stage_kind) : bool :=
  match k with CustomRecipeStage _ | ReleaseTargetLockStage | WaitForTransfersStage | RetrieveAgentFilesStage => false | _ => true end.

Lemma preparation_plain cfg k : k ∈ preparation cfg -> is_preparation k = true.
Proof.
  assert (Forall (fun k => is_preparation k = true) (preparation cfg)) as Hall; [|rewrite Forall_forall in Hall; apply Hall].
  unfold preparation. rewrite !Forall_app.
  destruct (negb _), (OrigWorkload cfg) as [| |p|], (TransferManagerEnabled cfg); try destruct (0 <? p); split_and!; repeat constructor.
Qed.

Lemma lock_in_preparation cfg : TargetLockStage ∈ preparation cfg.
Proof. unfold preparation. rewrite !elem_of_app. set_solver. Qed.

(** The process identifiers are checked only after they have been collected. *)
Definition is_validation (k : stage_kind) : bool := match k with ValidateTargetPIDStage _ => true | _ => false end.

Lemma validated_after_collected cfg i pid : preparation cfg !! i = Some CollectTargetPIDStage ->
  ValidateTargetPIDStage pid ∉ take i (preparation cfg).
Proof.
  intros Hi Hin. assert (Forall (fun k => is_validation k = false) (take i (preparation cfg))) as Hall.
  { clear Hin. revert Hi. unfold preparation.
    destruct (negb _), (OrigWorkload cfg) as [| |p|], (TransferManagerEnabled cfg); try destruct (0 <? p); cbn;
      repeat (destruct i as [|i]; cbn; [first [discriminate|repeat constructor]|]); done. }
  rewrite Forall_forall in Hall. by apply Hall in Hin.
Qed.

Lemma is_preparation_false cfg k i : BuildStages cfg !! i = Some k -> is_preparation k = true -> preparation cfg !! i = Some k.
Proof.
  unfold BuildStages. intros [?|[Hlen Hi]]%lookup_app_Some Hk; [done|]. exfalso.
  apply list_elem_of_lookup_2 in Hi. apply elem_of_app in Hi as [(n & ->)%elem_of_scripted|Hi]; [done|].
  apply elem_of_cons in Hi as [->|Hi]; [done|]. apply list_elem_of_singleton in Hi as ->.
  unfold retrieval in Hk. by destruct (TransferManagerEnabled cfg).
Qed.

(** The stages before one of the preparation are of the preparation. *)
Lemma take_preparation cfg i k : BuildStages cfg !! i = Some k -> is_preparation k = true ->
  take i (BuildStages cfg) = take i (preparation cfg) /\ ReleaseTargetLockStage ∉ take i (BuildStages cfg).
Proof.
  intros Hi Hk. apply is_preparation_false in Hi; [|done]. apply lookup_lt_Some in Hi.
  assert (take i (BuildStages cfg) = take i (preparation cfg)) as Heq by (unfold BuildStages; rewrite take_app_le by lia; done).
  split; [done|]. rewrite Heq. intros Hin. apply elem_of_take in Hin as (n & Hn & _). apply list_elem_of_lookup_2, preparation_plain in Hn. done.
Qed.

(** Before a scripted stage are the whole preparation and scripted stages. *)
Lemma take_scripted cfg i name : BuildStages cfg !! i = Some (CustomRecipeStage name) ->
  exists l, take i (BuildStages cfg) = preparation cfg ++ l /\ forall k, k ∈ l -> exists n, k = CustomRecipeStage n.
Proof.
  unfold BuildStages. intros [Hi|[Hlen Hi]]%lookup_app_Some.
  { apply list_elem_of_lookup_2, preparation_plain in Hi. done. }
  exists (take (i - length (preparation cfg)) (scripted cfg)). apply lookup_app_Some in Hi as [Hi|[_ Hi]].
  - apply lookup_lt_Some in Hi. rewrite take_app_ge by lia. rewrite take_app_le by lia. split; [done|].
    intros k (n & Hn & _)%elem_of_take. by eapply elem_of_scripted, list_elem_of_lookup_2.
  - apply list_elem_of_lookup_2, elem_of_cons in Hi as [?|Hi]; [done|]. apply list_elem_of_singleton in Hi.
    unfold retrieval in Hi. by destruct (TransferManagerEnabled cfg).
Qed.

(** Files are retrieved at the end. *)
Lemma take_retrieval cfg i : BuildStages cfg !! i = Some (retrieval cfg) ->
  take i (BuildStages cfg) = preparation cfg ++ scripted cfg ++ [ReleaseTargetLockStage].
Proof.
  assert (is_preparation (retrieval cfg) = false /\ forall n, retrieval cfg <> CustomRecipeStage n) as [Hp Hc]
    by (unfold retrieval; by destruct (TransferManagerEnabled cfg)).
  unfold BuildStages. intros [Hi|[Hlen Hi]]%lookup_app_Some.
  { apply list_elem_of_lookup_2, preparation_plain in Hi. congruence. }
  rewrite take_app_ge by lia. f_equal. apply lookup_app_Some in Hi as [Hi|[Hlen' Hi]].
  { apply list_elem_of_lookup_2, elem_of_scripted in Hi as [n Hi]. by apply Hc in Hi. }
  rewrite take_app_ge by lia. f_equal. destruct (i - _ - _)%nat as [|[|m]]; cbn in *; [|done|done].
  injection Hi as Hi. unfold retrieval in Hi. by destruct (TransferManagerEnabled cfg).
Qed.

Lemma retrieval_last cfg : BuildStages cfg !! (length (preparation cfg) + length (scripted cfg) + 1)%nat = Some (retrieval cfg).
Proof.
  unfold BuildStages. rewrite lookup_app_r by lia. rewrite lookup_app_r by lia.
  by replace (_ + _ + 1 - _ - _)%nat with 1%nat by lia.
Qed.

(** ** What holds before every stage *)

Record before (cfg : StageConfiguration) (i : nat) (c : Context_) : Prop := {
  b_held : TargetLockStage ∈ take i (BuildStages cfg) -> ReleaseTargetLockStage ∉ take i (BuildStages cfg) ->
    Failure c = None -> lock (rest_of_context c) = Held;
  b_released : ReleaseTargetLockStage ∈ take i (BuildStages cfg) -> lock (rest_of_context c) <> Held;
  b_listening : StartTransferManagerStage ∈ take i (BuildStages cfg) -> ListeningStarted (rest_of_context c) = true;
  b_validated : forall pid, ValidateTargetPIDStage pid ∈ take i (BuildStages cfg) -> Failure c = None ->
    agentProcessListContainsPID (CachedAgentProcessList (rest_of_context c)) pid = true;
  b_flushed : WaitForTransfersStage ∉ take i (BuildStages cfg) -> flushed (rest_of_context c) = None
}.

Lemma before_skip cfg i k c : BuildStages cfg !! i = Some k -> before cfg i c -> Failure c <> None -> AlwaysExecute_of k = false ->
  before cfg (S i) c.
Proof.
  intros Hi [Hh Hr Hl Hv Hf] Hfail Ha.
  split; rewrite (take_S_r _ _ _ Hi); try (intros; done).
  - rewrite elem_of_app, list_elem_of_singleton. intros [?| <-]; [auto|done].
  - rewrite elem_of_app, list_elem_of_singleton. intros [?| <-]; [auto|done].
  - rewrite not_elem_of_app. intros [? _]. auto.
Qed.

Lemma Failure_after (c : Context_) (x : execution (E := E) (C := cleanup) (W := run_state)) : Failure (after c x) = None <-> Failure c = None /\ x_err x = None.
Proof. unfold after, failure_of. cbn. destruct (x_err x); cbn; naive_solver. Qed.

Lemma validate_pid_None pid s : validate_pid pid s = None -> agentProcessListContainsPID (CachedAgentProcessList s) pid = true.
Proof. unfold validate_pid. destruct (CachedAgentProcessListErr s); [done|]. by destruct (agentProcessListContainsPID _ pid). Qed.

(** What a stage leaves of the state. *)
Lemma Execute_of_spec k c s cl err : Execute_of k c = (s, cl, err) ->
  lock s = (match k with
            | TargetLockStage => match err with None => Held | Some _ => NotAcquired end
            | ReleaseTargetLockStage => Released
            | _ => lock (rest_of_context c)
            end) /\
  (ListeningStarted (rest_of_context c) = true \/ k = StartTransferManagerStage -> ListeningStarted s = true) /\
  (k <> CollectTargetPIDStage -> CachedAgentProcessList s = CachedAgentProcessList (rest_of_context c)) /\
  (k <> WaitForTransfersStage -> flushed s = flushed (rest_of_context c)) /\
  (k = WaitForTransfersStage -> flushed s = Some (bool_decide (Failure c = None))) /\
  (k = TargetLockStage -> cl = Some ReleaseLock) /\
  (forall pid, k = ValidateTargetPIDStage pid -> err = validate_pid pid (rest_of_context c) /\ s = rest_of_context c).
Proof.
  destruct k; cbn; try (destruct (other_stage env _ c) as [[[x errors] cl'] err']; intros [= <- <- <-]; cbn; naive_solver).
  - intros [= <- <- <-]. cbn. naive_solver.
  - unfold collect_processes. destruct (list_processes env c) as [pids|[e [|]]]; [destruct (write_processes env pids c)| |];
      intros [= <- <- <-]; cbn; naive_solver.
  - intros [= <- <- <-]. cbn. naive_solver.
  - intros [= <- <- <-]. cbn. naive_solver.
  - intros [= <- <- <-]. cbn. naive_solver.
  - unfold wait_for_transfers. destruct (FlushTransfers env _ c) as [phase1 fe]. intros [= <- <- <-]. cbn. naive_solver.
Qed.

Lemma before_next cfg i k c x : BuildStages cfg !! i = Some k -> before cfg i c ->
  executed i (stage_of_kind k) c x -> before cfg (S i) (after c x).
Proof.
  intros Hi [Hh Hr Hl Hv Hf] (_ & Hst & Hx). cbn in Hx.
  destruct (Execute_of k c) as [[s cl] err] eqn:Hex. injection Hx as Hstate Hrest Hcl Herr.
  destruct (Execute_of_spec k c s cl err Hex) as (Hlock & Hlisten & Hpids & Hflush & Hflush' & _ & Hval).
  assert (rest_of_context (after c x) = s) as Hs by done.
  split; rewrite (take_S_r _ _ _ Hi), ?Hs; clear Hs Hrest Hcl Hstate Hst.
  - rewrite !elem_of_app, !list_elem_of_singleton. intros Hin Hno [Hc He]%Failure_after. rewrite Hlock.
    destruct k; try (destruct Hin as [?|?]; [by apply Hh; [|intros ?; apply Hno; left|]|done]); [by rewrite Herr, He|].
    exfalso. apply Hno. by right.
  - rewrite elem_of_app, list_elem_of_singleton. rewrite Hlock. intros [Hin| <-]; [|done].
    destruct k; try (by apply Hr); [|done]. by destruct (take_preparation cfg i TargetLockStage Hi eq_refl) as [_ ?].
  - rewrite elem_of_app, list_elem_of_singleton. intros [Hin| <-]; apply Hlisten; auto.
  - intros pid. rewrite elem_of_app, list_elem_of_singleton. intros [Hin| <-] [Hc He]%Failure_after.
    + destruct (decide (k = CollectTargetPIDStage)) as [->|Hne]; [|rewrite Hpids by done; by apply Hv].
      exfalso. destruct (take_preparation cfg i CollectTargetPIDStage Hi eq_refl) as [Heq _]. rewrite Heq in Hin.
      revert Hin. by apply validated_after_collected, is_preparation_false.
    + destruct (Hval pid eq_refl) as [He' ->]. apply validate_pid_None. congruence.
  - rewrite elem_of_app, list_elem_of_singleton. intros Hno. rewrite Hflush by (intros ->; apply Hno; by right).
    apply Hf. intros ?. apply Hno. by left.
Qed.

(** C8: however the stages of a recipe end, the scripts of the recipe run only while the recipe
    holds the lock of the target, without a failure before, with the transfer manager listening,
    before the transfers are flushed, and with a process to attach to that exists. The lock has
    been given back when files are retrieved, which happens at the end of every run that is
    not cancelled, and in the end its release is called whenever it was asked for. *)
Theorem scripts_run_with_the_lock cfg (ctx : Context_) :
  Failure ctx = None -> flushed (rest_of_context ctx) = None ->
  exists xs ctx', drives 0 (stage_of_kind <$> BuildStages cfg) ctx xs ctx' /\
    run_stages cfg ctx = ((xs ≫= notifications (length (BuildStages cfg))) ++ (CleanUp <$> reverse (omap x_cleanup xs)),
                          result_of user_cancelled cancel_error None xs) /\
    (forall x, x ∈ xs -> exists k c, BuildStages cfg !! x_index x = Some k /\ executed (x_index x) (stage_of_kind k) c x /\
       (forall name, k = CustomRecipeStage name ->
          Failure c = None /\ lock (rest_of_context c) = Held /\ flushed (rest_of_context c) = None /\
          (TransferManagerEnabled cfg = true -> ListeningStarted (rest_of_context c) = true) /\
          (forall pid, OrigWorkload cfg = WorkloadAttach pid -> 0 < pid ->
             agentProcessListContainsPID (CachedAgentProcessList (rest_of_context c)) pid = true)) /\
       (k = retrieval cfg -> lock (rest_of_context c) <> Held) /\
       (k = TargetLockStage -> CleanUp ReleaseLock ∈ (run_stages cfg ctx).1)) /\
    ((forall x, x ∈ xs -> cancelled x = false) -> exists x, x ∈ xs /\ BuildStages cfg !! x_index x = Some (retrieval cfg)).
Proof.
  intros Hfail Hflush.
  destruct (drive_spec user_cancelled cancel_error (length (BuildStages cfg)) (stage_of_kind <$> BuildStages cfg) 0 ctx) as (xs & ctx' & Hd & Hrun).
  exists xs, ctx'. split; [done|].
  assert (run_stages cfg ctx = ((xs ≫= notifications (length (BuildStages cfg))) ++ (CleanUp <$> reverse (omap x_cleanup xs)),
                          result_of user_cancelled cancel_error None xs)) as Heq.
  { unfold run_stages, DriveRecipeExecutionStages. by rewrite length_fmap, Hrun, Hfail. }
  split; [done|]. split.
  - intros x Hx. destruct (drives_invariant (before cfg) _ _ _ _ _ Hd) as [Hall _].
    + split; cbn; try (by intros ?%elem_of_nil); [by intros ? ?%elem_of_nil|done].
    + intros i st c (k & -> & Hk)%list_lookup_fmap_Some Hb. by eapply before_skip.
    + intros i st c y (k & -> & Hk)%list_lookup_fmap_Some Hb _ Hy _. by eapply before_next.
    + destruct (Hall x Hx) as (c & Hb & Hex & Hdue & Hl & _). rewrite Nat.sub_0_r in Hl.
      apply list_lookup_fmap_Some in Hl as (k & Hst & Hk). exists k, c. rewrite <- Hst. split_and!; [done|done| | |].
      * intros name ->. destruct (take_scripted cfg _ name Hk) as (l & Htake & Hl).
        assert (forall k, k ∈ preparation cfg -> k ∈ take (x_index x) (BuildStages cfg)) as Hprep by (intros; rewrite Htake; apply elem_of_app; by left).
        assert (forall k, is_preparation k = false -> (forall n, k <> CustomRecipeStage n) -> k ∉ take (x_index x) (BuildStages cfg)) as Hno.
        { intros k Hp Hc. rewrite Htake. intros [Hin|(n & ->)%Hl]%elem_of_app; [|by eapply Hc].
          apply preparation_plain in Hin. congruence. }
        assert (Failure c = None) as Hc by (destruct Hdue as [Hd'|?]; [rewrite Hst in Hd'; discriminate Hd'|done]).
        split_and!; [done|apply (b_held _ _ _ Hb); [apply Hprep, lock_in_preparation|by apply Hno|done]|by apply (b_flushed _ _ _ Hb), Hno| |].
        -- intros Htm. apply (b_listening _ _ _ Hb), Hprep. unfold preparation. rewrite Htm, !elem_of_app. by do 4 right; left.
        -- intros pid Hw Hpos. apply (b_validated _ _ _ Hb); [|done]. apply Hprep. unfold preparation. rewrite Hw, !elem_of_app.
           do 3 right; left. rewrite (proj2 (Z.ltb_lt 0 pid) Hpos). by left.
      * intros ->. apply (b_released _ _ _ Hb). rewrite (take_retrieval cfg _ Hk), !elem_of_app, list_elem_of_singleton. by right; right.
      * intros ->. rewrite Heq. cbn [fst]. apply elem_of_app. right. apply list_elem_of_fmap. exists ReleaseLock. split; [done|].
        apply elem_of_reverse, list_elem_of_omap. exists x. split; [done|]. destruct Hex as (_ & _ & Hex). rewrite Hst in Hex. cbn in Hex.
        by injection Hex as _ _ <- _.
  - intros Hno. pose proof (retrieval_last cfg) as Hlast. set (i := (_ + _ + 1)%nat) in Hlast.
    apply drives_executes in Hd. assert ((stage_of_kind <$> BuildStages cfg) !! i = Some (stage_of_kind (retrieval cfg))) as Hi
      by (rewrite list_lookup_fmap, Hlast; done).
    destruct (ex_which _ _ _ _ Hd i _ Hi) as [_ Hw]. destruct Hw as (x & Hx & Hxi).
    + split; [left; unfold retrieval; by destruct (TransferManagerEnabled cfg)|]. intros y Hy _. by apply Hno.
    + exists x. split; [done|]. by rewrite Hxi.
Qed.

End Stages.

(** ** A sample *)

(** A recipe of two scripts attaches to a process; the first script fails. *)
Definition sample_configuration : StageConfiguration :=
  {| OrigWorkload := WorkloadAttach 42; ToolDeploymentType := 1; TransferManagerEnabled := true; ParameterValidationStage := false;
     ParameterOptionsStages := []; RunStages := ["record"; "report"] |}.

Definition sample_environment : environment (E := string) (C := string) (X := unit) :=
  {| commands := fun _ ctx => commandState ctx;
     acquire_lock := fun _ => None;
     list_processes := fun _ => Ok [1; 42];
     write_processes := fun _ _ => None;
     FlushTransfers := fun ok _ => if ok then (Some false, None) else (None, None);
     update_phase1 := fun _ => None;
     other_stage := fun k _ => (tt, ("failure_evaluate_workload_options", "failure_check_platform_support"), None,
                                if bool_decide (k = CustomRecipeStage "record") then Some "no counters" else None) |}.

Definition sample_context : Context_ (E := string) (X := unit) :=
  {| Failure := None; commandState := fresh_state;
     rest_of_context := {| lock := NotAcquired; ListeningStarted := false; flushed := None; phase1_notified := None;
       CachedAgentProcessList := None; CachedAgentProcessListErr := None; workload_StageError := EmptyString;
       support_StageError := EmptyString; transfers_errorType := EmptyString; others := tt |} |}.

Definition sample_run (cfg : StageConfiguration) :=
  run_stages "cancelled" id sample_environment (fun pid => "no process " +:+ Itoa pid) (fun a b => a +:+ b) cfg sample_context.

(** The script after the failed one is skipped, the lock is given back and files are waited for. *)
Example failing_script :
  omap (fun e => match e with OnStageStart i => Some (info_name i, Num i) | _ => None end) (drop 26 (sample_run sample_configuration).1) =
    [("Starting transfer manager", 14%nat); ("record", 15%nat); ("Releasing target lock", 17%nat); ("Waiting for transfers to complete", 18%nat)] /\
  (sample_run sample_configuration).2 = ("failure_recipe_stage", Some "no counters").
Proof. split; vm_compute; reflexivity. Qed.

Lemma scripts_run_with_the_lock_witness :
  exists xs : list (execution (E := string) (C := cleanup (C := string)) (W := run_state (E := string) (X := unit))),
    (forall x, x ∈ xs -> exists k, BuildStages sample_configuration !! x_index x = Some k) /\ flushed (rest_of_context sample_context) = None.
Proof.
  destruct (scripts_run_with_the_lock "cancelled" id sample_environment (fun pid => "no process " +:+ Itoa pid) (fun a b => a +:+ b)
    sample_configuration sample_context eq_refl eq_refl) as (xs & ctx' & _ & _ & Hx & _).
  exists xs. split; [|reflexivity]. intros x Hin. destruct (Hx x Hin) as (k & c & Hk & _). exists k. exact Hk.
Defined.
