(* ===== verification/RecipeJob.v ===== *)
(** * Performix: the life cycle of a recipe job

    Models [StartRecipeJob] of [core/apap-engine/recipe/runtime/recipe_job.go], the notifiers of
    [recipe/notifiers.go] through which a run reports to its client, and [awaitRecipeJob] of
    [grpcserver/api_apap.go], as one step relation. Its threads are the run, any number of
    notifications (of the stages, and of transfers that go on in the background) and the call of
    the client. A client may detach: then its call returns when the first phase of the
    transfers is complete, and the job goes on without it. *)

From S2P Require Import Prelude.
From S2P Require Import GoStrings.

Section Job.

(** Errors, and whether the client detaches from background transfers. *)
Context {E : Type} (ctx_error : E) (detachBackgroundTransfers : bool).

(** ** Notifications *)

Inductive note :=
| OnStageStart (stage : string) | OnStageEnd (stage : string) (err : option E) | OnStageProgress (stage : string)
| OnStageCancelled (stage : string) | OnRunCreated | OnRunMetadataChanged.

Definition background_stage : string := "Retrieving recipe artifacts (background)".

Definition stage_of_note (n : note) : option string :=
  match n with
  | OnStageStart s | OnStageEnd s _ | OnStageProgress s | OnStageCancelled s => Some s
  | OnRunCreated | OnRunMetadataChanged => None
  end.

(** [suppresses] *)
Definition suppresses (n : note) : bool := bool_decide (stage_of_note n = Some background_stage).

(** A call of the composite notifier: before the client's notifier, in [notify] before the lock,
    in the client's notifier, with the lock of [notify] if there is a detachable notifier, before
    the logging notifier, and at its end. *)
Inductive call := Entering (n : note) | Locking (n : note) | Delivering (n : note) | Logging (n : note) | CallEnded.

(** ** The job *)

(** The run: running, in [onPhase1TransferComplete] of the stage that waits for the transfers,
    before and after recording that the first phase is complete, in [Detach], before closing
    the channel, ended, and with its error sent. *)
Inductive run_pc :=
| Running | RecordingPhase1 (pending : bool) | Notifying (pending : bool) | LockingDetach | SettingDetached | ClosingPhase1
| RunEnded (err : option E) | Sent.

(** [awaitRecipeJob]: selecting, after the first phase or the end of the context was selected,
    waiting for a job that it has cancelled, and returned. *)
Inductive await_pc := Selecting | SawPhase1 | SawContextDone | Draining | AwaitReturned (completed : bool) (err : option E).

Record job := {
  mu : bool;                      (* the lock of the detachable notifier is held *)
  detached : bool;
  calls : gmap nat call;
  delivered : list note;
  logged : list note;
  run : run_pc;
  phase1_called : bool;           (* [OnPhase1TransferComplete] has been called *)
  phase1_recorded : bool;         (* the run is recorded as complete up to background transfers *)
  phase1Done : nat;               (* how often the channel was closed *)
  done_chan : option (option E);  (* its buffer *)
  finished : option (option E);   (* what the run returned *)
  job_cancelled : bool;
  rpc_done : bool;                (* the client's context is done *)
  await : await_pc
}.

Definition StartRecipeJob : job :=
  {| mu := false; detached := false; calls := ∅; delivered := []; logged := []; run := Running; phase1_called := false;
     phase1_recorded := false; phase1Done := 0; done_chan := None; finished := None; job_cancelled := false; rpc_done := false;
     await := Selecting |}.

Definition set_calls (s : job) (m : gmap nat call) (lock : bool) (client log : list note) : job :=
  {| mu := lock; detached := detached s; calls := m; delivered := client; logged := log; run := run s; phase1_called := phase1_called s;
     phase1_recorded := phase1_recorded s; phase1Done := phase1Done s; done_chan := done_chan s; finished := finished s;
     job_cancelled := job_cancelled s; rpc_done := rpc_done s; await := await s |}.

Definition set_run (s : job) (r : run_pc) : job :=
  {| mu := mu s; detached := detached s; calls := calls s; delivered := delivered s; logged := logged s; run := r;
     phase1_called := phase1_called s; phase1_recorded := phase1_recorded s; phase1Done := phase1Done s; done_chan := done_chan s;
     finished := finished s; job_cancelled := job_cancelled s; rpc_done := rpc_done s; await := await s |}.

Definition set_await (s : job) (a : await_pc) (chan : option (option E)) (cancelled : bool) : job :=
  {| mu := mu s; detached := detached s; calls := calls s; delivered := delivered s; logged := logged s; run := run s;
     phase1_called := phase1_called s; phase1_recorded := phase1_recorded s; phase1Done := phase1Done s; done_chan := chan;
     finished := finished s; job_cancelled := cancelled; rpc_done := rpc_done s; await := a |}.

(** The steps of a notification. *)
Definition call_step (i : nat) (s : job) : option job :=
  match calls s !! i with
  | Some (Entering n) =>
      if detachBackgroundTransfers
      then Some (set_calls s (<[i := if suppresses n then Logging n else Locking n]> (calls s)) (mu s) (delivered s) (logged s))
      else Some (set_calls s (<[i := Delivering n]> (calls s)) (mu s) (delivered s) (logged s))
  | Some (Locking n) =>
      if mu s then None
      else if detached s then Some (set_calls s (<[i := Logging n]> (calls s)) false (delivered s) (logged s))
      else Some (set_calls s (<[i := Delivering n]> (calls s)) true (delivered s) (logged s))
  | Some (Delivering n) =>
      Some (set_calls s (<[i := Logging n]> (calls s)) (if detachBackgroundTransfers then false else mu s) (delivered s ++ [n]) (logged s))
  | Some (Logging n) => Some (set_calls s (<[i := CallEnded]> (calls s)) (mu s) (delivered s) (logged s ++ [n]))
  | _ => None
  end.

Inductive run_label := Phase1Complete (pending : bool) | Recorded (ok : bool) | RunStep | RunReturns (err : option E).

(** The steps of the run. The transfer manager calls back at most once. *)
Definition run_step (l : run_label) (s : job) : option job :=
  match l, run s with
  | Phase1Complete pending, Running =>
      if phase1_called s then None
      else Some {| mu := mu s; detached := detached s; calls := calls s; delivered := delivered s; logged := logged s;
                   run := RecordingPhase1 pending; phase1_called := true; phase1_recorded := phase1_recorded s; phase1Done := phase1Done s;
                   done_chan := done_chan s; finished := finished s; job_cancelled := job_cancelled s; rpc_done := rpc_done s; await := await s |}
  | Recorded ok, RecordingPhase1 pending =>
      if ok
      then Some {| mu := mu s; detached := detached s; calls := calls s; delivered := delivered s; logged := logged s;
                   run := Notifying pending; phase1_called := phase1_called s; phase1_recorded := true; phase1Done := phase1Done s;
                   done_chan := done_chan s; finished := finished s; job_cancelled := job_cancelled s; rpc_done := rpc_done s; await := await s |}
      else Some (set_run s Running)
  | RunStep, Notifying pending => Some (set_run s (if negb detachBackgroundTransfers || negb pending then Running else LockingDetach))
  | RunStep, LockingDetach =>
      if mu s then None else Some (set_calls (set_run s SettingDetached) (calls s) true (delivered s) (logged s))
  | RunStep, SettingDetached =>
      Some {| mu := false; detached := true; calls := calls s; delivered := delivered s; logged := logged s; run := ClosingPhase1;
              phase1_called := phase1_called s; phase1_recorded := phase1_recorded s; phase1Done := phase1Done s; done_chan := done_chan s;
              finished := finished s; job_cancelled := job_cancelled s; rpc_done := rpc_done s; await := await s |}
  | RunStep, ClosingPhase1 =>
      Some {| mu := mu s; detached := detached s; calls := calls s; delivered := delivered s; logged := logged s; run := Running;
              phase1_called := phase1_called s; phase1_recorded := phase1_recorded s; phase1Done := S (phase1Done s); done_chan := done_chan s;
              finished := finished s; job_cancelled := job_cancelled s; rpc_done := rpc_done s; await := await s |}
  | RunReturns err, Running =>
      Some {| mu := mu s; detached := detached s; calls := calls s; delivered := delivered s; logged := logged s; run := RunEnded err;
              phase1_called := phase1_called s; phase1_recorded := phase1_recorded s; phase1Done := phase1Done s; done_chan := done_chan s;
              finished := Some err; job_cancelled := job_cancelled s; rpc_done := rpc_done s; await := await s |}
  | RunStep, RunEnded err =>
      match done_chan s with
      | Some _ => None
      | None => Some {| mu := mu s; detached := detached s; calls := calls s; delivered := delivered s; logged := logged s; run := Sent;
                        phase1_called := phase1_called s; phase1_recorded := phase1_recorded s; phase1Done := phase1Done s; done_chan := Some err;
                        finished := finished s; job_cancelled := true; rpc_done := rpc_done s; await := await s |}
      end
  | _, _ => None
  end.

Definition phase1_closed (s : job) : bool := negb (bool_decide (phase1Done s = 0)).

(** The channel that a [select] takes, of those that are ready. *)
Inductive choice := TakeDone | TakePhase1 | TakeContext | TakeDefault.

Definition await_step (c : choice) (s : job) : option job :=
  match await s, c with
  | Selecting, TakeDone => err ← done_chan s; Some (set_await s (AwaitReturned true err) None (job_cancelled s))
  | Selecting, TakePhase1 =>
      if detachBackgroundTransfers && phase1_closed s then Some (set_await s SawPhase1 (done_chan s) (job_cancelled s)) else None
  | Selecting, TakeContext =>
      if negb (rpc_done s) then None
      else if detachBackgroundTransfers then Some (set_await s SawContextDone (done_chan s) (job_cancelled s))
      else Some (set_await s Draining (done_chan s) true)
  | SawPhase1, TakeDone => err ← done_chan s; Some (set_await s (AwaitReturned true err) None (job_cancelled s))
  | SawPhase1, TakeDefault =>
      match done_chan s with Some _ => None | None => Some (set_await s (AwaitReturned false None) None (job_cancelled s)) end
  | SawContextDone, TakePhase1 =>
      if phase1_closed s then Some (set_await s (AwaitReturned false (Some ctx_error)) (done_chan s) (job_cancelled s)) else None
  | SawContextDone, TakeDefault => if phase1_closed s then None else Some (set_await s Draining (done_chan s) true)
  | Draining, TakeDone => _ ← done_chan s; Some (set_await s (AwaitReturned false (Some ctx_error)) None (job_cancelled s))
  | _, _ => None
  end.

Inductive label := NewCall (i : nat) (n : note) | CallStep (i : nat) | Run (l : run_label) | Await (c : choice) | RpcDone.

Definition exec (l : label) (s : job) : option job :=
  match l with
  | NewCall i n => match calls s !! i with
                   | Some _ => None
                   | None => Some (set_calls s (<[i := Entering n]> (calls s)) (mu s) (delivered s) (logged s))
                   end
  | CallStep i => call_step i s
  | Run l => run_step l s
  | Await c => await_step c s
  | RpcDone => Some {| mu := mu s; detached := detached s; calls := calls s; delivered := delivered s; logged := logged s; run := run s;
                       phase1_called := phase1_called s; phase1_recorded := phase1_recorded s; phase1Done := phase1Done s;
                       done_chan := done_chan s; finished := finished s; job_cancelled := job_cancelled s; rpc_done := true; await := await s |}
  end.

Definition step (s s' : job) : Prop := exists l, exec l s = Some s'.
Definition reachable : job -> Prop := rtc step StartRecipeJob.

(** ** Invariants *)

(** The lock is held by the one call that is delivering, or by [Detach]. *)
Record notes_ok (s : job) : Prop := {
  no_lock : detachBackgroundTransfers = true -> forall i n, calls s !! i = Some (Delivering n) -> mu s = true /\ run s <> SettingDetached;
  no_one : detachBackgroundTransfers = true -> forall i j n m, calls s !! i = Some (Delivering n) -> calls s !! j = Some (Delivering m) -> i = j;
  no_detach_lock : run s = SettingDetached -> mu s = true;
  no_holder : mu s = true -> run s = SettingDetached \/ (detachBackgroundTransfers = true /\ exists i n, calls s !! i = Some (Delivering n));
  no_locking : forall i n, calls s !! i = Some (Locking n) -> detachBackgroundTransfers = true;
  no_detached : detached s = true -> forall i n, calls s !! i <> Some (Delivering n);
  no_suppressed : detachBackgroundTransfers = true ->
    (forall n, n ∈ delivered s -> suppresses n = false) /\
    forall i n, calls s !! i = Some (Locking n) \/ calls s !! i = Some (Delivering n) -> suppresses n = false
}.

(** How far the run is with the end of the first phase. *)
Definition phase1_ok (s : job) : Prop :=
  match run s with
  | RecordingPhase1 _ => phase1_called s = true /\ detached s = false /\ phase1Done s = 0
  | Notifying _ => phase1_called s = true /\ detached s = false /\ phase1Done s = 0 /\ phase1_recorded s = true
  | LockingDetach | SettingDetached =>
      phase1_called s = true /\ detached s = false /\ phase1Done s = 0 /\ phase1_recorded s = true /\ detachBackgroundTransfers = true
  | ClosingPhase1 => phase1_called s = true /\ detached s = true /\ phase1Done s = 0 /\ phase1_recorded s = true /\ detachBackgroundTransfers = true
  | Running | RunEnded _ | Sent =>
      (phase1Done s = 0 /\ detached s = false) \/
      (phase1Done s = 1 /\ detached s = true /\ phase1_called s = true /\ phase1_recorded s = true /\ detachBackgroundTransfers = true)
  end.

Definition finished_ok (s : job) : Prop :=
  match run s with
  | RunEnded err => finished s = Some err /\ done_chan s = None
  | Sent => exists err, finished s = Some err /\ (done_chan s = Some err \/ (done_chan s = None /\ exists b e, await s = AwaitReturned b e))
  | _ => finished s = None /\ done_chan s = None
  end.

Definition await_ok (s : job) : Prop :=
  match await s with
  | Selecting => True
  | SawPhase1 => detachBackgroundTransfers = true /\ phase1Done s <> 0
  | SawContextDone => detachBackgroundTransfers = true /\ rpc_done s = true
  | Draining => job_cancelled s = true /\ rpc_done s = true
  | AwaitReturned true err => finished s = Some err
  | AwaitReturned false None => detachBackgroundTransfers = true /\ phase1Done s <> 0
  | AwaitReturned false (Some e) =>
      e = ctx_error /\ rpc_done s = true /\
      ((detachBackgroundTransfers = true /\ phase1Done s <> 0) \/ (job_cancelled s = true /\ finished s <> None))
  end.

Record job_ok (s : job) : Prop := { jo_notes : notes_ok s; jo_phase1 : phase1_ok s; jo_finished : finished_ok s; jo_await : await_ok s }.

Lemma job_ok_start : job_ok StartRecipeJob.
Proof.
  split; [|by left|done|done]. split; cbn; try done.
  intros _. split; [by intros n ?%elem_of_nil|]. intros i n. rewrite lookup_empty. by intros [?|?].
Qed.

(** Changing one call that is not delivering afterwards, or that takes the lock. *)
Lemma notes_ok_call s i c lock client log : notes_ok s ->
  (detachBackgroundTransfers = true ->
     (forall n, c = Locking n \/ c = Delivering n -> suppresses n = false) /\ (forall n, n ∈ client -> suppresses n = false) /\
     (forall n, c = Delivering n -> lock = true /\ mu s = false /\ run s <> SettingDetached) /\
     (lock = mu s \/ (exists n, c = Delivering n) \/ (lock = false /\ exists n, calls s !! i = Some (Delivering n)))) ->
  (detached s = true -> forall n, c <> Delivering n) -> (run s = SettingDetached -> lock = true) ->
  (forall n, c = Locking n -> detachBackgroundTransfers = true) ->
  ((forall n, calls s !! i <> Some (Delivering n)) \/ lock = false \/ detachBackgroundTransfers = false) ->
  (lock = mu s \/ lock = false \/ (detachBackgroundTransfers = true /\ exists n, c = Delivering n)) ->
  notes_ok (set_calls s (<[i := c]> (calls s)) lock client log).
Proof.
  intros [Hl Ho Hd Hh Hk Hde Hsu] Hc Hdet Hset Hlc Hother Hlk. split; cbn.
  - intros D j n [[<- ->]|[Hne Hj]]%lookup_insert_Some; destruct (Hc D) as (_ & _ & Hdel & Hlock).
    + destruct (Hdel n eq_refl) as (? & ? & ?). done.
    + destruct (Hl D j n Hj) as [Hm Hr]. split; [|done]. destruct Hlock as [->|[(m & ->)|[_ (m & Hi)]]]; [done|by apply (Hdel m)|].
      by destruct (Ho D i j m n).
  - intros D j k n m Hj Hj'. destruct (Hc D) as (_ & _ & Hdel & _).
    apply lookup_insert_Some in Hj as [[<- ->]|[Hne Hj]]; apply lookup_insert_Some in Hj' as [[<- Hm]|[Hne' Hj']]; [done|..].
    + destruct (Hdel n eq_refl) as (_ & Hmu & _). destruct (Hl D k m Hj'). congruence.
    + destruct (Hdel m Hm) as (_ & Hmu & _). destruct (Hl D j n Hj). congruence.
    + by eapply Ho.
  - done.
  - intros Hm. destruct Hlk as [->|[->|[D (n & ->)]]]; [|done|right; split; [done|]; exists i, n; by rewrite lookup_insert_eq].
    destruct (Hh Hm) as [?|[D (j & n & Hj)]]; [by left|right]. split; [done|]. destruct Hother as [Hno|[?|?]]; [|congruence..].
    exists j, n. rewrite lookup_insert_ne; [done|]. intros <-. by apply Hno in Hj.
  - intros j n [[<- ->]|[_ Hj]]%lookup_insert_Some; [by apply (Hlc n)|by apply (Hk j n)].
  - intros Hdt j n [[<- ->]|[Hne Hj]]%lookup_insert_Some; [by apply (Hdet Hdt n)|by apply (Hde Hdt j n)].
  - intros D. destruct (Hc D) as (Hs & Hcl & _). split; [done|].
    intros j n [[[<- ->]|[_ Hj]]%lookup_insert_Some|[[<- ->]|[_ Hj]]%lookup_insert_Some].
    + apply Hs. by left.
    + apply (proj2 (Hsu D) j). by left.
    + apply Hs. by right.
    + apply (proj2 (Hsu D) j). by right.
Qed.

Lemma notes_ok_same s s' : notes_ok s -> calls s' = calls s -> delivered s' = delivered s -> mu s' = mu s ->
  detached s' = detached s -> run s' <> SettingDetached -> run s <> SettingDetached -> notes_ok s'.
Proof.
  intros [Hl Ho Hd Hh Hk Hde Hsu] Hc Hdl Hmu Hdt Hr Hr0. split; rewrite ?Hc, ?Hdl, ?Hmu, ?Hdt; try done.
  - intros D i n Hi. destruct (Hl D i n Hi). done.
  - intros Hm. destruct (Hh Hm) as [?|?]; [done|by right].
Qed.

Lemma call_step_ok i s s' : call_step i s = Some s' -> job_ok s -> job_ok s'.
Proof.
  intros Hx [Hn Hp Hf Ha]. pose proof Hn as [Hl Ho Hd Hh Hk Hde Hsu]. unfold call_step in Hx.
  assert (forall c lock client log, notes_ok (set_calls s (<[i := c]> (calls s)) lock client log) ->
    job_ok (set_calls s (<[i := c]> (calls s)) lock client log)) as Hput by (intros; split; done).
  assert (phase1_ok s -> detached s = true -> detachBackgroundTransfers = true) as HD
    by (unfold phase1_ok; intros H ?; destruct (run s); intuition congruence).
  destruct (calls s !! i) as [[n|n|n|n|]|] eqn:Hi; [| | | |done|done].
  - assert (s' = set_calls s (<[i := if detachBackgroundTransfers then if suppresses n then Logging n else Locking n else Delivering n]> (calls s))
      (mu s) (delivered s) (logged s)) as -> by (destruct detachBackgroundTransfers; by injection Hx as <-).
    clear Hx. apply Hput, notes_ok_call; [done|..|rewrite Hi; by left|by left].
    + intros D. rewrite D. destruct (Hsu D) as [H1 H2]. split_and!; [|done| |by left]; destruct (suppresses n) eqn:Hs.
      * by intros m [?|?].
      * by intros m [[= <-]|?].
      * done.
      * done.
    + intros Hdt m Heq. rewrite (HD Hp Hdt) in Heq. by destruct (suppresses n).
    + exact Hd.
    + intros m Heq. by destruct detachBackgroundTransfers.
  - destruct (mu s) eqn:Hmu; [done|]. assert (run s <> SettingDetached) as Hrun by (intros Hr; apply Hd in Hr; congruence).
    pose proof (Hk i n Hi) as D. destruct (Hsu D) as [H1 H2].
    destruct (detached s) eqn:Hdt; injection Hx as <-; apply Hput, notes_ok_call; rewrite ?Hi, ?Hmu; try done.
    + intros _. split_and!; [by intros ? [?|?]|done|done|by left].
    + by left.
    + by left.
    + intros _. split_and!; [|done| |right; left; by eexists].
      * intros m [?|[= <-]]; [done|]. apply (H2 i). by left.
      * by intros m [= <-].
    + by rewrite Hdt.
    + by left.
    + right; right. split; [done|by eexists].
  - injection Hx as <-. apply Hput, notes_ok_call; try done.
    + intros D. destruct (Hsu D) as [H1 H2]. rewrite D. split_and!; [by intros ? [?|?]| |done|].
      * intros m [?| ->%list_elem_of_singleton]%elem_of_app; [auto|]. apply (H2 i). by right.
      * right; right. split; [done|]. by exists n.
    + intros Hr. destruct detachBackgroundTransfers eqn:D; [|by apply Hd]. by destruct (Hl eq_refl i n Hi).
    + destruct detachBackgroundTransfers; auto.
    + destruct detachBackgroundTransfers; auto.
  - injection Hx as <-. apply Hput, notes_ok_call; rewrite ?Hi; try done; try (by left).
    intros D. destruct (Hsu D). split_and!; [by intros ? [?|?]|done|done|by left].
Qed.

Lemma await_ok_later s s' : await_ok s -> await s' = await s -> (phase1Done s <> 0 -> phase1Done s' <> 0) ->
  (forall r, finished s = Some r -> finished s' = Some r) -> (rpc_done s = true -> rpc_done s' = true) ->
  (job_cancelled s = true -> job_cancelled s' = true) -> await_ok s'.
Proof.
  unfold await_ok. intros Ha Hw Hp Hf Hr Hj. rewrite Hw. destruct (await s) as [| | | |[|] [e|]]; try done; try (by apply Hf).
  1-3: intuition.
  - destruct Ha as (-> & ? & [[? ?]|[? ?]]); split_and!; auto. right. split; [auto|].
    destruct (finished s) as [r|] eqn:Hr'; [by rewrite (Hf r eq_refl)|done].
  - intuition.
Qed.

Lemma run_step_ok l s s' : run_step l s = Some s' -> job_ok s -> job_ok s'.
Proof.
  intros Hx [Hn Hp Hf Ha]. unfold run_step in Hx. unfold phase1_ok in Hp. unfold finished_ok in Hf.
  destruct l as [pending|ok| |err], (run s) as [|p|p| | | |err'|] eqn:Hr; try done.
  - destruct (phase1_called s) eqn:Hc; [done|]. injection Hx as <-. destruct Hp as [[? ?]|(_ & _ & ? & _)]; [|congruence].
    split; [by eapply notes_ok_same; [..|rewrite Hr]|done|done|by eapply await_ok_later].
  - destruct ok; injection Hx as <-.
    + split; [by eapply notes_ok_same; [..|rewrite Hr]| |done|by eapply await_ok_later]. unfold phase1_ok. cbn. tauto.
    + split; [by eapply notes_ok_same; [..|rewrite Hr]| |done|by eapply await_ok_later]. left. cbn. tauto.
  - injection Hx as <-. destruct (negb _ || negb p) eqn:Hb.
    + split; [by eapply notes_ok_same; [..|rewrite Hr]| |done|by eapply await_ok_later]. left. cbn. tauto.
    + apply orb_false_iff in Hb as [Hb%negb_false_iff _].
      split; [by eapply notes_ok_same; [..|rewrite Hr]| |done|by eapply await_ok_later]. unfold phase1_ok. cbn. tauto.
  - destruct (mu s) eqn:Hmu; [done|]. injection Hx as <-. destruct Hn as [Hl Ho Hd Hh Hk Hde Hsu].
    split; [|exact Hp|done|by eapply await_ok_later]. split; cbn; try done; [|by left].
    intros D i n Hi. destruct (Hl D i n Hi). congruence.
  - injection Hx as <-. destruct Hn as [Hl Ho Hd Hh Hk Hde Hsu]. destruct Hp as (? & ? & ? & ? & D).
    assert (forall i n, calls s !! i <> Some (Delivering n)) as Hno by (intros i n Hi; by destruct (Hl D i n Hi)).
    split; [|done|done|by eapply await_ok_later]. split; cbn; try done. intros _ i n Hi. by apply Hno in Hi.
  - injection Hx as <-. destruct Hp as (? & ? & H0 & ? & D).
    split; [by eapply notes_ok_same; [..|rewrite Hr]| |done|by eapply await_ok_later]. right. cbn. rewrite H0. done.
  - destruct (done_chan s) eqn:Hdc; [done|]. injection Hx as <-. destruct Hf as [Hf _].
    split; [by eapply notes_ok_same; [..|rewrite Hr]|done| |by eapply await_ok_later]. exists err'. cbn. split; [done|by left].
  - injection Hx as <-. destruct Hf as [Hf Hdc].
    split; [by eapply notes_ok_same; [..|rewrite Hr]|done|by split|]. eapply await_ok_later; cbn; try done. intros r. by rewrite Hf.
Qed.

Lemma phase1_closed_spec s : phase1_closed s = true <-> phase1Done s <> 0.
Proof. unfold phase1_closed. case_bool_decide; naive_solver. Qed.

Lemma finished_when_sent s err : finished_ok s -> done_chan s = Some err -> run s = Sent /\ finished s = Some err.
Proof. unfold finished_ok. intros Hf Hd. destruct (run s); naive_solver. Qed.

Lemma await_step_ok c s s' : await_step c s = Some s' -> job_ok s -> job_ok s'.
Proof.
  intros Hx [Hn Hp Hf Ha]. unfold await_step in Hx. unfold await_ok in Ha.
  assert (forall a chan cancelled, (chan = done_chan s \/ (chan = None /\ exists b e, a = AwaitReturned b e)) ->
    await_ok (set_await s a chan cancelled) -> (forall b e, await s <> AwaitReturned b e) -> job_ok (set_await s a chan cancelled)) as Hput.
  { intros a chan cancelled Hchan Hok Hno. split; [|done| |done].
    - destruct Hn as [Hl Ho Hd Hh Hk Hde Hsu]. by split.
    - unfold finished_ok in *. cbn. destruct (run s); try (destruct Hf; destruct Hchan as [->|[-> _]]; done).
      destruct Hf as (err & Hf & Hc). exists err. split; [done|]. destruct Hc as [Hc|(_ & b & e & Hw)]; [|by apply Hno in Hw].
      destruct Hchan as [->|[-> Hw]]; [by left|by right]. }
  destruct (await s) eqn:Hw, c; try done.
  - apply bind_Some in Hx as (err' & Hd & [= <-]). destruct (finished_when_sent s err' Hf Hd) as [_ Hfi].
    apply Hput; [right; eauto|exact Hfi|done].
  - destruct (detachBackgroundTransfers && phase1_closed s) eqn:Hc; [|done]. injection Hx as <-.
    apply andb_true_iff in Hc as [? ?%phase1_closed_spec]. apply Hput; [by left|done|done].
  - destruct (rpc_done s) eqn:Hrpc; [|done]. cbn in Hx. destruct detachBackgroundTransfers eqn:D; injection Hx as <-; apply Hput; try done; by left.
  - apply bind_Some in Hx as (err' & Hd & [= <-]). destruct (finished_when_sent s err' Hf Hd) as [_ Hfi].
    apply Hput; [right; eauto|exact Hfi|done].
  - destruct (done_chan s) eqn:Hd; [done|]. injection Hx as <-. apply Hput; [by right; eauto|done|done].
  - destruct (phase1_closed s) eqn:Hc; [|done]. injection Hx as <-. apply phase1_closed_spec in Hc. destruct Ha.
    apply Hput; [by left| |done]. unfold await_ok. cbn. split_and!; [done|done|by left].
  - destruct (phase1_closed s); [done|]. injection Hx as <-. destruct Ha. apply Hput; [by left|done|done].
  - apply bind_Some in Hx as (err' & Hd & [= <-]). destruct (finished_when_sent s err' Hf Hd) as [_ Hfi]. destruct Ha.
    apply Hput; [right; eauto| |done]. unfold await_ok. cbn. split_and!; [done|done|right]. by rewrite Hfi.
Qed.

Lemma job_exec_ok l s s' : exec l s = Some s' -> job_ok s -> job_ok s'.
Proof.
  intros Hx Hok. destruct l as [i n|i|l|c|]; cbn in Hx.
  - destruct (calls s !! i) eqn:Hi; [done|]. injection Hx as <-. destruct Hok as [Hn Hp Hf Ha]. pose proof Hn as [Hl Ho Hd Hh Hk Hde Hsu].
    split; [|done|done|done]. apply notes_ok_call; rewrite ?Hi; try done; try (by left). intros D. destruct (Hsu D). split_and!; [by intros ? [?|?]|done|done|by left].
  - by eapply call_step_ok.
  - by eapply run_step_ok.
  - by eapply await_step_ok.
  - injection Hx as <-. destruct Hok as [Hn Hp Hf Ha]. split; [by destruct Hn|done|done|by eapply await_ok_later].
Qed.

Lemma reachable_job_ok s : reachable s -> job_ok s.
Proof.
  unfold reachable. intros Hr. remember StartRecipeJob as s0 eqn:Hs0. assert (job_ok s0) as Hok by (subst; apply job_ok_start).
  clear Hs0. induction Hr as [|s0 s1 s2 [l Hl] _ IH]; [done|]. by eapply IH, job_exec_ok.
Qed.

Lemma step_ok s s' : step s s' -> job_ok s -> job_ok s'.
Proof. intros [l Hl]. by eapply job_exec_ok. Qed.

Lemma steps_ok s s' : rtc step s s' -> job_ok s -> job_ok s'.
Proof. induction 1 as [|s0 s1 s2 Hs _ IH]; [done|]. intros Hok. by eapply IH, step_ok. Qed.

(** ** Once the first phase is complete, the client's notifier is silent *)

Definition quiet (s : job) : Prop := detached s = true /\ forall i n, calls s !! i <> Some (Delivering n).

Lemma closed_is_quiet s : job_ok s -> phase1Done s <> 0 ->
  quiet s /\ phase1Done s = 1 /\ detachBackgroundTransfers = true /\ phase1_recorded s = true.
Proof.
  intros [Hn Hp _ _] Hc. assert (phase1Done s = 1 /\ detached s = true /\ phase1_recorded s = true /\ detachBackgroundTransfers = true) as (? & Hd & ? & ?)
    by (unfold phase1_ok in Hp; destruct (run s); intuition congruence).
  split_and!; try done. split; [done|]. exact (no_detached s Hn Hd).
Qed.

Lemma step_quiet s s' : step s s' -> job_ok s -> quiet s -> quiet s' /\ delivered s' = delivered s.
Proof.
  intros Hs Hok [Hd Hno]. pose proof (step_ok s s' Hs Hok) as [Hn' _ _ _]. destruct Hs as [l Hl].
  assert (detached s' = true /\ delivered s' = delivered s) as [Hd' ->].
  { destruct l as [i n|i|l|c|]; cbn in Hl.
    - destruct (calls s !! i); [done|]. by injection Hl as <-.
    - unfold call_step in Hl. destruct (calls s !! i) as [[n|n|n|n|]|] eqn:Hi; try done.
      + destruct detachBackgroundTransfers; by injection Hl as <-.
      + rewrite Hd in Hl. destruct (mu s); [done|]. by injection Hl as <-.
      + by apply Hno in Hi.
      + by injection Hl as <-.
    - unfold run_step in Hl. repeat case_match; try done; by injection Hl as <-.
    - unfold await_step in Hl. destruct (await s), c; try done; try (apply bind_Some in Hl as (? & _ & [= <-]); done);
        repeat case_match; try done; by injection Hl as <-.
    - by injection Hl as <-. }
  split; [|done]. split; [done|]. exact (no_detached s' Hn' Hd').
Qed.

Lemma steps_quiet s s' : rtc step s s' -> job_ok s -> quiet s -> delivered s' = delivered s.
Proof.
  induction 1 as [|s0 s1 s2 Hs _ IH]; [done|]. intros Hok Hq. destruct (step_quiet s0 s1 Hs Hok Hq) as [Hq' <-].
  apply IH; [by eapply step_ok|done].
Qed.

(** C11: when [StartRecipeJob] closes [phase1Done], which it does at most once and only for a client that detaches, the run
    is recorded as complete up to its background transfers, and from then on no notification, of those that have already
    entered the notifier included, reaches the client. A client that detaches is never told of the stage of the
    background transfers. [awaitRecipeJob] says that the job completed only with what the run returned, says that it goes
    on only when the first phase is complete, and returns the error of a client that went away only when the first phase
    is complete, so that the job goes on, or when it has cancelled the job and the run has ended. *)
Theorem detached_job_is_quiet s : reachable s ->
  phase1Done s <= 1 /\
  (phase1_closed s = true -> detachBackgroundTransfers = true /\ phase1_recorded s = true /\
     forall s', rtc step s s' -> delivered s' = delivered s) /\
  (detachBackgroundTransfers = true -> forall n, n ∈ delivered s -> suppresses n = false) /\
  match await s with
  | AwaitReturned true err => finished s = Some err
  | AwaitReturned false None => phase1_closed s = true
  | AwaitReturned false (Some e) =>
      e = ctx_error /\ rpc_done s = true /\ (phase1_closed s = true \/ (job_cancelled s = true /\ exists err, finished s = Some err))
  | _ => True
  end.
Proof.
  intros Hr%reachable_job_ok. split_and!.
  - destruct (decide (phase1Done s = 0)) as [->|Hc]; [lia|]. destruct (closed_is_quiet s Hr Hc) as (_ & -> & _). lia.
  - intros Hc%phase1_closed_spec. destruct (closed_is_quiet s Hr Hc) as (Hq & _ & ? & ?). split_and!; [done..|].
    intros s' Hs. by apply steps_quiet.
  - intros D. by destruct (no_suppressed s (jo_notes s Hr) D).
  - destruct Hr as [_ _ _ Ha]. unfold await_ok in Ha. destruct (await s) as [| | | |[|] [e|]]; try done.
    + destruct Ha as (? & ? & [[_ ?%phase1_closed_spec]|[? Hf]]); split_and!; try done; [by left|right].
      split; [done|]. destruct (finished s) as [r|]; [by eexists|done].
    + apply phase1_closed_spec. by destruct Ha.
Qed.

(** ** Nothing blocks *)

Lemma exec_step l s s' : exec l s = Some s' -> step s s'.
Proof. by exists l. Qed.

(** The lock can always be freed, without a step of the client's call and without touching the calls that wait for it. *)
Lemma free_lock s : job_ok s -> exists s', rtc step s s' /\ mu s' = false /\
  (run s' = run s \/ (run s = SettingDetached /\ run s' = ClosingPhase1)) /\
  forall i n, calls s !! i = Some (Locking n) -> calls s' !! i = Some (Locking n).
Proof.
  intros [Hn _ _ _]. destruct (mu s) eqn:Hmu; [|by exists s; split_and!; [constructor|done|left|]].
  destruct (no_holder s Hn Hmu) as [Hr|[D (i & n & Hi)]].
  - eexists. split; [apply rtc_once, (exec_step (Run RunStep)); cbn; by rewrite Hr|]. split_and!; [done|by right|done].
  - eexists. split; [apply rtc_once, (exec_step (CallStep i)); cbn; unfold call_step; by rewrite Hi|]. rewrite D.
    split_and!; [done|by left|]. intros j m Hj. cbn. rewrite lookup_insert_ne; [done|]. intros <-. congruence.
Qed.

Definition run_rank (r : run_pc) : nat :=
  match r with
  | RecordingPhase1 _ => 7 | Notifying _ => 6 | LockingDetach => 5 | SettingDetached => 4 | ClosingPhase1 => 3 | Running => 2
  | RunEnded _ => 1 | Sent => 0
  end.

Lemma run_advances s : job_ok s -> run s <> Sent -> exists s', rtc step s s' /\ run_rank (run s') < run_rank (run s).
Proof.
  intros Hok Hs. pose proof Hok as [_ _ Hf _]. unfold finished_ok in Hf.
  assert (forall l s', run_step l s = Some s' -> rtc step s s') as Hstep by (intros l s' Hl; by apply rtc_once, (exec_step (Run l))).
  destruct (run s) as [|p|p| | | |err|] eqn:Hr; [| | | | | | |done].
  - eexists. split; [apply (Hstep (RunReturns None)); unfold run_step; by rewrite Hr|cbn; lia].
  - eexists. split; [apply (Hstep (Recorded true)); unfold run_step; by rewrite Hr|cbn; lia].
  - eexists. split; [apply (Hstep RunStep); unfold run_step; by rewrite Hr|]. cbn. destruct (_ || _); cbn; lia.
  - destruct (free_lock s Hok) as (s1 & H1 & Hmu & [Hr1|[? _]] & _); [|congruence]. rewrite Hr in Hr1.
    eexists. split; [eapply rtc_r; [exact H1|]; apply (exec_step (Run RunStep)); cbn; by rewrite Hr1, Hmu|cbn; lia].
  - eexists. split; [apply (Hstep RunStep); unfold run_step; by rewrite Hr|cbn; lia].
  - eexists. split; [apply (Hstep RunStep); unfold run_step; by rewrite Hr|cbn; lia].
  - destruct Hf as [_ Hd]. eexists. split; [apply (Hstep RunStep); unfold run_step; by rewrite Hr, Hd|cbn; lia].
Qed.

Lemma run_can_end s : job_ok s -> exists s', rtc step s s' /\ run s' = Sent.
Proof.
  remember (run_rank (run s)) as k eqn:Hk. revert s Hk. induction (lt_wf k) as [k _ IH]. intros s -> Hok.
  destruct (decide (run_rank (run s) = 0)) as [H0|H0]; [exists s; split; [constructor|by destruct (run s)]|].
  destruct (run_advances s Hok) as (s1 & H1 & Hlt); [intros Hs; by rewrite Hs in H0|].
  destruct (IH _ Hlt s1 eq_refl) as (s2 & H2 & Hs2); [by eapply steps_ok|]. exists s2. split; [by etrans|done].
Qed.

(** The steps of the client's call alone. *)
Definition awaits (s s' : job) : Prop := exists c, await_step c s = Some s'.
Definition returned (s : job) : bool := if await s is AwaitReturned _ _ then true else false.

Lemma awaits_steps s s' : rtc awaits s s' -> rtc step s s'.
Proof. intros Hs. eapply rtc_subrel; [|done]. intros x y [c Hc]. by exists (Await c). Qed.

Lemma await_once c s s' : await_step c s = Some s' -> rtc awaits s s'.
Proof. intros Hc. apply rtc_once. by exists c. Qed.

Lemma await_can_return s : job_ok s -> run s = Sent \/ (phase1_closed s = true /\ await s <> Draining) ->
  exists s', rtc awaits s s' /\ returned s' = true.
Proof.
  intros Hok Hready. pose proof Hok as [_ _ Hf Ha]. unfold finished_ok in Hf. unfold await_ok in Ha.
  destruct (done_chan s) as [err|] eqn:Hd.
  - destruct (await s) eqn:Hw; [| | | |by exists s; split; [constructor|unfold returned; rewrite Hw]].
    + eexists. split; [apply (await_once TakeDone); unfold await_step; by rewrite Hw, Hd|done].
    + eexists. split; [apply (await_once TakeDone); unfold await_step; by rewrite Hw, Hd|done].
    + destruct (phase1_closed s) eqn:Hc.
      * eexists. split; [apply (await_once TakePhase1); unfold await_step; by rewrite Hw, Hc|done].
      * eexists. split; [eapply rtc_trans; [apply (await_once TakeDefault); unfold await_step; by rewrite Hw, Hc|];
          apply (await_once TakeDone); unfold await_step; cbn; by rewrite Hd|done].
    + eexists. split; [apply (await_once TakeDone); unfold await_step; by rewrite Hw, Hd|done].
  - destruct Hready as [Hr|[Hc Hnd]].
    + rewrite Hr in Hf. destruct Hf as (err & _ & [?|(_ & b & e & Hw)]); [done|]. exists s. split; [constructor|unfold returned; by rewrite Hw].
    + pose proof (proj1 (phase1_closed_spec s) Hc) as Hne. destruct (closed_is_quiet s Hok Hne) as (_ & _ & D & _).
      destruct (await s) eqn:Hw; [| | |done|by exists s; split; [constructor|unfold returned; rewrite Hw]].
      * eexists. split; [eapply rtc_trans; [apply (await_once TakePhase1); unfold await_step; by rewrite Hw, D, Hc|];
          apply (await_once TakeDefault); unfold await_step; cbn; by rewrite Hd|done].
      * eexists. split; [apply (await_once TakeDefault); unfold await_step; by rewrite Hw, Hd|done].
      * eexists. split; [apply (await_once TakePhase1); unfold await_step; by rewrite Hw, Hc|done].
Qed.

Definition call_rank (c : option call) : nat :=
  match c with Some (Entering _) => 4 | Some (Locking _) => 3 | Some (Delivering _) => 2 | Some (Logging _) => 1 | _ => 0 end.

Lemma call_advances i s : job_ok s -> call_rank (calls s !! i) <> 0 ->
  exists s', rtc step s s' /\ calls s' !! i <> None /\ call_rank (calls s' !! i) < call_rank (calls s !! i).
Proof.
  intros Hok Hc.
  assert (forall s1 s' c, rtc step s s1 -> call_step i s1 = Some s' -> calls s' = <[i := c]> (calls s1) ->
    call_rank (Some c) < call_rank (calls s !! i) ->
    exists s', rtc step s s' /\ calls s' !! i <> None /\ call_rank (calls s' !! i) < call_rank (calls s !! i)) as Hgo.
  { intros s1 s' c H1 Hs Hcs Hlt. exists s'. rewrite Hcs, lookup_insert_eq. split_and!; [|done|done].
    eapply rtc_r; [done|]. by apply (exec_step (CallStep i)). }
  destruct (calls s !! i) as [[n|n|n|n|]|] eqn:Hi; [| | | |done|done].
  - destruct detachBackgroundTransfers eqn:D; (eapply Hgo; [constructor|unfold call_step; rewrite Hi, ?D; reflexivity|reflexivity|]); cbn; [|lia].
    destruct (suppresses n); cbn; lia.
  - destruct (free_lock s Hok) as (s1 & H1 & Hmu & _ & Hl). specialize (Hl i n Hi). destruct (detached s1) eqn:Hd.
    + eapply Hgo; [done|unfold call_step; rewrite Hl, Hmu, Hd; reflexivity|reflexivity|cbn; lia].
    + eapply Hgo; [done|unfold call_step; rewrite Hl, Hmu, Hd; reflexivity|reflexivity|cbn; lia].
  - eapply Hgo; [constructor|unfold call_step; rewrite Hi; reflexivity|reflexivity|cbn; lia].
  - eapply Hgo; [constructor|unfold call_step; rewrite Hi; reflexivity|reflexivity|cbn; lia].
Qed.

Lemma call_can_end i s : job_ok s -> calls s !! i <> None -> exists s', rtc step s s' /\ calls s' !! i = Some CallEnded.
Proof.
  remember (call_rank (calls s !! i)) as k eqn:Hk. revert s Hk. induction (lt_wf k) as [k _ IH]. intros s -> Hok Hi.
  destruct (decide (call_rank (calls s !! i) = 0)) as [H0|H0].
  - exists s. split; [constructor|]. by destruct (calls s !! i) as [[]|].
  - destruct (call_advances i s Hok H0) as (s1 & H1 & Hi1 & Hlt).
    destruct (IH _ Hlt s1 eq_refl) as (s2 & H2 & Hs2); [by eapply steps_ok|done|]. exists s2. split; [by etrans|done].
Qed.

(** C12: in no state that a job can reach do its threads block each other: the run can end and send its result and
    [awaitRecipeJob] can then return; once the first phase is complete, a call that has not begun to wait for a job it
    cancelled returns by its own steps, whatever the run does; and every notification that was started can end, while
    [Detach] and the notifications compete for one lock. *)
Theorem job_never_blocks s : reachable s ->
  (exists s', rtc step s s' /\ run s' = Sent /\ returned s' = true) /\
  (phase1_closed s = true -> await s <> Draining -> exists s', rtc awaits s s' /\ returned s' = true) /\
  forall i, calls s !! i <> None -> exists s', rtc step s s' /\ calls s' !! i = Some CallEnded.
Proof.
  intros Hok%reachable_job_ok. split_and!.
  - destruct (run_can_end s Hok) as (s1 & H1 & Hr). destruct (await_can_return s1) as (s2 & H2 & Hw); [by eapply steps_ok|by left|].
    exists s2. split_and!; [etrans; [done|by apply awaits_steps]| |done].
    clear -H2 Hr. induction H2 as [|s0 s2 s3 [c Hc] _ IH]; [done|]. apply IH. unfold await_step in Hc.
    destruct (await s0), c; try done; try (apply bind_Some in Hc as (? & _ & [= <-]); done); repeat case_match; try done; by injection Hc as <-.
  - intros Hc Hd. apply await_can_return; [done|by right].
  - intros i Hi. by apply call_can_end.
Qed.

End Job.

(** ** Evaluation *)

Lemma foldl_exec_none {E} (ctx_error : E) detach ls : foldl (fun s l => s ≫= exec ctx_error detach l) None ls = None.
Proof. by induction ls. Qed.

(** The labels of a schedule, executed one after the other. *)
Definition execs {E} (ctx_error : E) (detach : bool) (ls : list label) : option (job (E := E)) :=
  foldl (fun s l => s ≫= exec ctx_error detach l) (Some StartRecipeJob) ls.

Lemma execs_reachable {E} (ctx_error : E) detach ls s : execs ctx_error detach ls = Some s -> reachable ctx_error detach s.
Proof.
  unfold execs, reachable. intros Hx. assert (rtc (step ctx_error detach) StartRecipeJob (@StartRecipeJob E)) as H0 by constructor.
  revert Hx H0. generalize (@StartRecipeJob E) at 1 3. induction ls as [|l ls IH]; intros s0; cbn; [by intros [= ->]|].
  destruct (exec ctx_error detach l s0) as [s1|] eqn:Hl; [|cbn; by rewrite foldl_exec_none]. intros Hx H0. apply (IH s1); [done|].
  eapply rtc_r; [done|by exists l].
Qed.

(** A client that detaches: a notification waits for the lock while the job detaches, and only the log sees it. *)
Definition schedule : list (label (E := string)) :=
  [NewCall 0 (OnStageStart "Run"); CallStep 0; CallStep 0; NewCall 1 (OnStageProgress "Run"); CallStep 1; CallStep 0;
   Run (Phase1Complete true); Run (Recorded true); Run RunStep; Run RunStep; Run RunStep; CallStep 1; Run RunStep; Await TakePhase1;
   CallStep 1; Await TakeDefault].

Example detached_schedule :
  option_map (fun s => (delivered s, logged s, await s, run s)) (execs "cancelled" true schedule) =
  Some ([OnStageStart "Run"], [OnStageProgress "Run"], AwaitReturned false None, Running).
Proof. vm_compute. reflexivity. Qed.

Definition detached_state : job (E := string) := default StartRecipeJob (execs "cancelled" true schedule).

Lemma detached_state_reachable : reachable "cancelled" true detached_state.
Proof. apply (execs_reachable "cancelled" true schedule). by vm_compute. Qed.

Lemma detached_job_is_quiet_witness :
  phase1_closed detached_state = true /\ await detached_state = AwaitReturned false None /\
  forall s', rtc (step "cancelled" true) detached_state s' -> delivered s' = [OnStageStart "Run"].
Proof.
  destruct (detached_job_is_quiet "cancelled" true detached_state detached_state_reachable) as (_ & Hc & _).
  assert (phase1_closed detached_state = true) as H by (vm_compute; reflexivity).
  destruct (Hc H) as (_ & _ & Hd). split; [exact H|split; [vm_compute; reflexivity|]].
  intros s' Hs. rewrite (Hd s' Hs). vm_compute. reflexivity.
Defined.

(** A state in the middle of detaching, with a notification that is waiting for the lock. *)
Definition detaching : list (label (E := string)) := firstn 10 schedule.
Definition detaching_state : job (E := string) := default StartRecipeJob (execs "cancelled" true detaching).

Lemma detaching_state_reachable : reachable "cancelled" true detaching_state.
Proof. apply (execs_reachable "cancelled" true detaching). by vm_compute. Qed.

Lemma job_never_blocks_witness :
  calls detaching_state !! 1 = Some (Locking (OnStageProgress "Run")) /\
  exists s', rtc (step "cancelled" true) detaching_state s' /\ calls s' !! 1 = Some CallEnded.
Proof.
  split; [vm_compute; reflexivity|].
  destruct (job_never_blocks "cancelled" true detaching_state detaching_state_reachable) as (_ & _ & Hc).
  apply (Hc 1). vm_compute. discriminate.
Defined.

Example detach_holds_the_lock :
  (run detaching_state, mu detaching_state, call_step true 1 detaching_state) = (SettingDetached, true, None).
Proof. vm_compute. reflexivity. Qed.
