(* ===== verification/NoiseConn.v ===== *)
(** * Performix: the encrypted connection to an agent

    Models [core/atperf-agent/grpcserver/transport/noiselistener.go]: the handshakes of the
    Noise protocol in both roles, and the connection that wraps a network connection
    afterwards, whose [Write] seals a stream of bytes into frames and whose [Read] opens
    them. The ciphers and the states of the handshake are those of the Noise package; they
    are arguments, and what is used of them is a hypothesis.

    A network connection is what it will deliver, in whichever segments, with errors
    between them, and how it will answer the writes to it. A call that waits for bytes that
    have not been delivered has not returned: its outcome is [Waits]. *)

From S2P Require Import Prelude.
From Stdlib Require Import Strings.Byte NArith.

Local Open Scope Z_scope.

Notation bytes := (list Byte.byte).

#[export] Instance byte_eq_decision : EqDecision Byte.byte := Byte.byte_eq_dec.

(** ** Lengths in big-endian order *)

Definition byte_of (z : Z) : Byte.byte :=
  match Byte.of_N (Z.to_N (z mod 256)) with Some b => b | None => x00 end.
Definition byte_value (b : Byte.byte) : Z := Z.of_N (Byte.to_N b).

(** [binary.BigEndian.PutUint32] and [Uint32] *)
Definition PutUint32 (n : Z) : bytes :=
  [byte_of (Z.shiftr n 24); byte_of (Z.shiftr n 16); byte_of (Z.shiftr n 8); byte_of n].

Definition Uint32 (hdr : bytes) : Z :=
  match hdr with
  | [a; b; c; d] =>
      Z.lor (byte_value d) (Z.lor (Z.shiftl (byte_value c) 8) (Z.lor (Z.shiftl (byte_value b) 16) (Z.shiftl (byte_value a) 24)))
  | _ => 0
  end.

Lemma byte_value_of z : byte_value (byte_of z) = z mod 256.
Proof.
  unfold byte_value, byte_of. pose proof (Z.mod_pos_bound z 256 ltac:(lia)) as Hz.
  destruct (Byte.of_N (Z.to_N (z mod 256))) as [b|] eqn:Hb.
  - apply Byte.to_of_N in Hb. rewrite Hb. lia.
  - apply Byte.of_N_None_iff in Hb. lia.
Qed.

Lemma byte_value_bounds b : 0 <= byte_value b < 256.
Proof. unfold byte_value. pose proof (Byte.to_N_bounded b). lia. Qed.

Lemma Uint32_bytes a b c d :
  Uint32 [a; b; c; d] = byte_value a * 2 ^ 24 + byte_value b * 2 ^ 16 + byte_value c * 2 ^ 8 + byte_value d.
Proof.
  pose proof (byte_value_bounds a). pose proof (byte_value_bounds b). pose proof (byte_value_bounds c). pose proof (byte_value_bounds d).
  assert (forall x y n, 0 <= n -> 0 <= x < 2 ^ n -> Z.lor x (Z.shiftl y n) = x + y * 2 ^ n) as Hlor.
  { intros x y n Hn Hx. rewrite Z.shiftl_mul_pow2 by done. rewrite <-Z.add_lor_land.
    assert (Z.land x (y * 2 ^ n) = 0) as ->; [|lia]. apply Z.bits_inj'. intros k Hk. rewrite Z.bits_0, Z.land_spec.
    destruct (Z.lt_ge_cases k n) as [Hl|Hl].
    - rewrite Z.mul_pow2_bits_low by done. apply andb_false_r.
    - by rewrite (proj1 (Z.bounded_iff_bits_nonneg n x Hn ltac:(lia)) ltac:(lia) k Hl). }
  unfold Uint32. rewrite Z.lor_assoc, Z.lor_assoc.
  rewrite (Hlor (byte_value d) (byte_value c) 8) by lia.
  rewrite (Hlor (byte_value d + byte_value c * 2 ^ 8) (byte_value b) 16) by lia.
  rewrite (Hlor _ (byte_value a) 24) by lia. lia.
Qed.

Lemma Uint32_PutUint32 n : 0 <= n < 2 ^ 32 -> Uint32 (PutUint32 n) = n.
Proof.
  intros Hn. unfold PutUint32. rewrite Uint32_bytes, !byte_value_of, !Z.shiftr_div_pow2 by lia.
  change (2 ^ 24) with (2 ^ 8 * 2 ^ 16). change (2 ^ 16) with (2 ^ 8 * 2 ^ 8). change 256 with (2 ^ 8).
  rewrite <-!Z.div_div by lia.
  pose proof (Z.div_mod n (2 ^ 8) ltac:(lia)). pose proof (Z.div_mod (n / 2 ^ 8) (2 ^ 8) ltac:(lia)).
  pose proof (Z.div_mod (n / 2 ^ 8 / 2 ^ 8) (2 ^ 8) ltac:(lia)).
  assert (n / 2 ^ 8 / 2 ^ 8 / 2 ^ 8 < 2 ^ 8) by (repeat (apply Z.div_lt_upper_bound; [lia|]); lia).
  rewrite (Z.mod_small (n / 2 ^ 8 / 2 ^ 8 / 2 ^ 8)) by (split; [repeat (apply Z.div_pos; [|lia]); lia|done]).
  lia.
Qed.

Lemma length_PutUint32 n : length (PutUint32 n) = 4%nat.
Proof. done. Qed.

(** ** The network connection *)

(** Errors of the network, and those of a connection: also of the package and the protocol. *)
Inductive net_error := EOF | UnexpectedEOF | NetClosed | Io (text : string).
Inductive conn_error := Net (e : net_error) | CipherError (text : string) | ZeroLength | TooLarge (n : Z).

Inductive segment := Data (b : bytes) | Broken (e : net_error).

(** How a call of [Write] is answered: it accepts at least one byte, or some and an error. *)
Inductive answer := Accept (n : nat) | Refuse (n : nat) (e : net_error).

Record wire := {
  segs : list segment;      (* what is going to be delivered *)
  answers : list answer;    (* how writes are answered; in the end they are all accepted *)
  sent : bytes;
  is_open : bool
}.

Definition with_segs (w : wire) (l : list segment) : wire :=
  {| segs := l; answers := answers w; sent := sent w; is_open := is_open w |}.
Definition close_wire (w : wire) : wire :=
  {| segs := segs w; answers := answers w; sent := sent w; is_open := false |}.

Inductive outcome (A : Type) := Got (a : A) | Failed (e : conn_error) | Waits.
Arguments Got {A} a.
Arguments Failed {A} e.
Arguments Waits {A}.

(** [io.ReadFull] of [n] bytes, of which [got] have been read. *)
Fixpoint read_full (n : nat) (got : bytes) (l : list segment) : list segment * outcome bytes :=
  match n with
  | O => (l, Got got)
  | _ =>
      match l with
      | [] => ([], Waits)
      | Data b :: l' =>
          if (n <=? length b)%nat then (Data (drop n b) :: l', Got (got ++ take n b)) else read_full (n - length b) (got ++ b) l'
      | Broken EOF :: l' => (Broken EOF :: l', Failed (Net (match got with [] => EOF | _ => UnexpectedEOF end)))
      | Broken e :: l' => (l', Failed (Net e))
      end
  end.

(** A call that waits has not taken anything away yet: it goes on when more is delivered. *)
Definition ReadFull (n : nat) (w : wire) : wire * outcome bytes :=
  if negb (is_open w) then (w, Failed (Net NetClosed))
  else match read_full n [] (segs w) with
       | (_, Waits) => (w, Waits)
       | (l, r) => (with_segs w l, r)
       end.

(** [writeAll] *)
Fixpoint write_all (l : list answer) (p : bytes) : list answer * bytes * option conn_error :=
  match p with
  | [] => (l, [], None)
  | _ =>
      match l with
      | [] => ([], p, None)
      | Accept n :: l' => let '(l'', s, e) := write_all l' (drop (S n) p) in (l'', take (S n) p ++ s, e)
      | Refuse n e :: l' => (l', take n p, Some (Net e))
      end
  end.

Definition writeAll (w : wire) (p : bytes) : wire * option conn_error :=
  if negb (is_open w) && negb (bool_decide (p = [])) then (w, Some (Net NetClosed))
  else let '(l, s, e) := write_all (answers w) p in
       ({| segs := segs w; answers := l; sent := sent w ++ s; is_open := is_open w |}, e).

(** ** Frames *)

Definition NoiseHeaderSize : Z := 4.
Definition NoiseAEADTagSize : Z := 16.
(** [noise.MaxMsgLen], the limit of the Noise protocol. *)
Definition MaxMsgLen : Z := 65535.
Definition NoiseMaxPlaintextSize : Z := MaxMsgLen - NoiseAEADTagSize.

Definition writeFrame (w : wire) (msg : bytes) : wire * option conn_error :=
  if Z.of_nat (length msg) >? MaxMsgLen then (w, Some (TooLarge (Z.of_nat (length msg))))
  else match writeAll w (PutUint32 (wrap_uint32 (Z.of_nat (length msg)))) with
       | (w, Some e) => (w, Some e)
       | (w, None) => writeAll w msg
       end.

(** The check of a length: a frame of no or too many bytes closes the connection. *)
Definition check_length (n : Z) : option conn_error :=
  if n =? 0 then Some ZeroLength else if n >? MaxMsgLen then Some (TooLarge n) else None.

Definition readFrame (w : wire) : wire * outcome bytes :=
  match ReadFull (Z.to_nat NoiseHeaderSize) w with
  | (_, Waits) => (w, Waits)
  | (w', Failed e) => (w', Failed e)
  | (w', Got hdr) =>
      match check_length (Uint32 hdr) with
      | Some e => (close_wire w', Failed e)
      | None => match ReadFull (Z.to_nat (Uint32 hdr)) w' with
                | (_, Waits) => (w, Waits)
                | r => r
                end
      end
  end.

(** ** Ciphers *)

Section Conn.

(** The states of the two ciphers of a connection, and [Encrypt] and [Decrypt] with additional
    data; a state that has failed is as it was. *)
Context {Tx Rx : Type}.
Context (Encrypt : Tx -> bytes -> bytes -> result string (bytes * Tx)).
Context (Decrypt : Rx -> bytes -> bytes -> result string (bytes * Rx)).

Record noiseConn := { tx : Tx; rx : Rx; peer_static : bytes; rbuf : bytes; c : wire }.

Definition newNoiseConn (w : wire) (t : Tx) (r : Rx) (ps : bytes) : noiseConn :=
  {| tx := t; rx := r; peer_static := ps; rbuf := []; c := w |}.

Definition with_wire (nc : noiseConn) (w : wire) : noiseConn :=
  {| tx := tx nc; rx := rx nc; peer_static := peer_static nc; rbuf := rbuf nc; c := w |}.

Definition zeroize (b : bytes) : bytes := (fun _ => x00) <$> b.

(** [Close] overwrites the buffered plaintext. *)
Definition Close (nc : noiseConn) : noiseConn :=
  {| tx := tx nc; rx := rx nc; peer_static := zeroize (peer_static nc); rbuf := zeroize (rbuf nc); c := close_wire (c nc) |}.

(** [Read] into a buffer of [k] bytes *)
Definition Read (k : nat) (nc : noiseConn) : noiseConn * outcome bytes :=
  match k, rbuf nc with
  | O, _ => (nc, Got [])
  | _, _ :: _ =>
      ({| tx := tx nc; rx := rx nc; peer_static := peer_static nc; rbuf := drop k (rbuf nc); c := c nc |}, Got (take k (rbuf nc)))
  | _, [] =>
      match ReadFull (Z.to_nat NoiseHeaderSize) (c nc) with
      | (_, Waits) => (nc, Waits)
      | (w, Failed e) => (with_wire nc w, Failed e)
      | (w, Got hdr) =>
          match check_length (Uint32 hdr) with
          | Some e => (Close (with_wire nc w), Failed e)
          | None =>
              match ReadFull (Z.to_nat (Uint32 hdr)) w with
              | (_, Waits) => (nc, Waits)
              | (w, Failed e) => (with_wire nc w, Failed e)
              | (w, Got ct) =>
                  match Decrypt (rx nc) hdr ct with
                  | Err e => (with_wire nc w, Failed (CipherError e))
                  | Ok (pt, rx') =>
                      ({| tx := tx nc; rx := rx'; peer_static := peer_static nc; rbuf := drop k pt; c := w |}, Got (take k pt))
                  end
              end
          end
      end
  end.

(** The loop of [Write] over the chunks of [p], with the number of bytes that are written. *)
Fixpoint write_loop (fuel : nat) (p : bytes) (total : nat) (nc : noiseConn) : option (noiseConn * nat * option conn_error) :=
  match p, fuel with
  | [], _ => Some (nc, total, None)
  | _, O => None
  | _, S fuel =>
      let chunk := take (Z.to_nat NoiseMaxPlaintextSize) p in
      let ctLen := wrap_uint32 (Z.of_nat (length chunk) + NoiseAEADTagSize) in
      let hdr := PutUint32 ctLen in
      match Encrypt (tx nc) hdr chunk with
      | Err e => Some (nc, total, Some (CipherError e))
      | Ok (ct, tx') =>
          let '(w, err) := writeAll (c nc) (hdr ++ ct) in
          let nc' := {| tx := tx'; rx := rx nc; peer_static := peer_static nc; rbuf := rbuf nc; c := w |} in
          match err with
          | Some e => Some (nc', total, Some e)
          | None => write_loop fuel (drop (Z.to_nat NoiseMaxPlaintextSize) p) (total + length chunk) nc'
          end
      end
  end.

Definition Write (p : bytes) (nc : noiseConn) : option (noiseConn * nat * option conn_error) := write_loop (length p) p 0 nc.

Fixpoint reads (ks : list nat) (nc : noiseConn) : noiseConn * list (outcome bytes) :=
  match ks with
  | [] => (nc, [])
  | k :: ks => let '(nc, o) := Read k nc in let '(nc, os) := reads ks nc in (nc, o :: os)
  end.

(** Writes one after another, up to the first that fails. *)
Fixpoint writes (ps : list bytes) (nc : noiseConn) : option (noiseConn * option conn_error) :=
  match ps with
  | [] => Some (nc, None)
  | p :: ps => '(nc, _, e) ← Write p nc; match e with Some e => Some (nc, Some e) | None => writes ps nc end
  end.

(** ** What a connection carries *)

(** A sealed message: additional data, ciphertext and plaintext. *)
Record frame := { f_ad : bytes; f_ct : bytes; f_pt : bytes }.
Definition frame_bytes (f : frame) : bytes := f_ad f ++ f_ct f.
Definition header_of (pt : bytes) : bytes := PutUint32 (wrap_uint32 (Z.of_nat (length pt) + NoiseAEADTagSize)).

(** The messages that a cipher seals for chunks, one after another. *)
Fixpoint seal (t : Tx) (pts : list bytes) : option (list frame * Tx) :=
  match pts with
  | [] => Some ([], t)
  | pt :: pts =>
      match Encrypt t (header_of pt) pt with
      | Err _ => None
      | Ok (ct, t') => '(l, t'') ← seal t' pts; Some ({| f_ad := header_of pt; f_ct := ct; f_pt := pt |} :: l, t'')
      end
  end.

(** A cipher opens these messages, in this order. *)
Fixpoint accepts (r : Rx) (l : list frame) : Prop :=
  match l with
  | [] => True
  | f :: l => exists r', Decrypt r (f_ad f) (f_ct f) = Ok (f_pt f, r') /\ accepts r' l
  end.

(** It opens these messages, in this order, and no others. *)
Fixpoint only_accepts (r : Rx) (l : list frame) : Prop :=
  match l with
  | [] => forall ad ct, is_ok (Decrypt r ad ct) = false
  | f :: l => (exists r', Decrypt r (f_ad f) (f_ct f) = Ok (f_pt f, r') /\ only_accepts r' l) /\
              forall ad ct, (ad, ct) <> (f_ad f, f_ct f) -> is_ok (Decrypt r ad ct) = false
  end.

(** The two ciphers of one direction: what one seals the other opens. *)
Definition peers (t : Tx) (r : Rx) : Prop := forall pts l t', seal t pts = Some (l, t') -> accepts r l.

(** The tag is appended to the ciphertext, which has the length of the plaintext. *)
Context (Encrypt_length : forall t ad pt ct t', Encrypt t ad pt = Ok (ct, t') ->
  Z.of_nat (length ct) = Z.of_nat (length pt) + NoiseAEADTagSize).

Definition chunk_ok (pt : bytes) : Prop := pt <> [] /\ Z.of_nat (length pt) <= NoiseMaxPlaintextSize.

Definition frame_ok (f : frame) : Prop :=
  length (f_ad f) = 4%nat /\ Uint32 (f_ad f) = Z.of_nat (length (f_ct f)) /\ check_length (Uint32 (f_ad f)) = None /\ f_pt f <> [].

Lemma chunk_frame_ok t pt ct t' : Encrypt t (header_of pt) pt = Ok (ct, t') -> chunk_ok pt ->
  frame_ok {| f_ad := header_of pt; f_ct := ct; f_pt := pt |} /\ Z.of_nat (length ct) = Z.of_nat (length pt) + 16.
Proof.
  intros He%Encrypt_length [Hne Hlen]. unfold NoiseMaxPlaintextSize, MaxMsgLen, NoiseAEADTagSize in *.
  assert (length pt <> 0%nat) by (by destruct pt).
  assert (Uint32 (header_of pt) = Z.of_nat (length ct)) as Hu.
  { unfold header_of, NoiseAEADTagSize. rewrite Uint32_PutUint32; unfold wrap_uint32; rewrite Z.mod_small; lia. }
  split; [|lia]. split_and!; cbn [f_ad f_ct f_pt]; [done|done| |done].
  rewrite Hu. unfold check_length, MaxMsgLen. destruct (Z.eqb_spec (Z.of_nat (length ct)) 0); [lia|].
  destruct (Z.gtb_spec (Z.of_nat (length ct)) 65535); [lia|done].
Qed.

Lemma seal_app t pts pts' l t' l' t'' : seal t pts = Some (l, t') -> seal t' pts' = Some (l', t'') ->
  seal t (pts ++ pts') = Some (l ++ l', t'').
Proof.
  revert t l. induction pts as [|pt pts IH]; cbn; intros t l; [by intros [= <- ->]|].
  destruct (Encrypt t (header_of pt) pt) as [[ct t1]|] eqn:He; [|done]. cbn.
  intros ((l1 & t2) & Hs & [= <- ->])%bind_Some Hs'. by rewrite (IH _ _ Hs Hs').
Qed.

Lemma seal_frames_ok t pts l t' : seal t pts = Some (l, t') -> Forall chunk_ok pts -> Forall frame_ok l.
Proof.
  revert t l. induction pts as [|pt pts IH]; cbn; intros t l; [by intros [= <- ->]|].
  destruct (Encrypt t (header_of pt) pt) as [[ct t1]|] eqn:He; [|done]. cbn.
  intros ((l1 & t2) & Hs & [= <- ->])%bind_Some [Hc Hp]%Forall_cons. constructor; [|by eapply IH].
  by destruct (chunk_frame_ok _ _ _ _ He Hc).
Qed.

Lemma seal_pts t pts l t' : seal t pts = Some (l, t') -> f_pt <$> l = pts.
Proof.
  revert t l. induction pts as [|pt pts IH]; cbn; intros t l; [by intros [= <- ->]|].
  destruct (Encrypt t (header_of pt) pt) as [[ct t1]|] eqn:He; [|done]. cbn.
  intros ((l1 & t2) & Hs & [= <- ->])%bind_Some. cbn. f_equal. by eapply IH.
Qed.

(** ** Writing *)

Lemma write_all_spec l p : let '(_, s, e) := write_all l p in s `prefix_of` p /\ (e = None -> s = p).
Proof.
  revert p. induction l as [|[n|n e] l IH]; intros [|b p]; cbn; try (split; [by apply prefix_nil|done]).
  - done.
  - specialize (IH (drop n p)). destruct (write_all l (drop n p)) as [[l' s] e]. destruct IH as [[k Hk] He]. split.
    + exists k. cbn. by rewrite <-app_assoc, <-Hk, take_drop.
    + intros ->. rewrite He by done. by rewrite take_drop.
  - split; [|done]. exists (drop n (b :: p)). by rewrite take_drop.
Qed.

Lemma writeAll_spec w p w' e : writeAll w p = (w', e) -> is_open w = true ->
  is_open w' = true /\ segs w' = segs w /\ exists s, sent w' = sent w ++ s /\ s `prefix_of` p /\ (e = None -> s = p).
Proof.
  intros Hw Ho. unfold writeAll in Hw. rewrite Ho in Hw. cbn in Hw. pose proof (write_all_spec (answers w) p) as Hs.
  destruct (write_all (answers w) p) as [[l s] e']. injection Hw as <- <-. cbn. split_and!; [done|done|]. by exists s.
Qed.

(** What a call of [Write] puts on the wire: complete frames, of which it counts the bytes, and
    after an error possibly a part of one more. *)
Definition written (p : bytes) (nc nc' : noiseConn) (total : nat) (err : option conn_error) : Prop :=
  exists pts l t part, seal (tx nc) pts = Some (l, t) /\ Forall chunk_ok pts /\ mjoin pts `prefix_of` p /\
    total = length (mjoin pts) /\ sent (c nc') = sent (c nc) ++ mjoin (frame_bytes <$> l) ++ part /\
    (err = None -> mjoin pts = p /\ part = [] /\ tx nc' = t) /\
    (err <> None -> (total < length p)%nat /\ Z.of_nat (length part) <= NoiseHeaderSize + MaxMsgLen).

Lemma max_chunk p : p <> [] -> chunk_ok (take (Z.to_nat NoiseMaxPlaintextSize) p) /\
  (length (drop (Z.to_nat NoiseMaxPlaintextSize) p) < length p)%nat.
Proof.
  intros Hp. assert (length p <> 0%nat) by (by destruct p). unfold NoiseMaxPlaintextSize, MaxMsgLen, NoiseAEADTagSize.
  rewrite length_drop. split; [split|lia].
  - intros Hn%(f_equal length). rewrite length_take in Hn. cbn [length] in Hn. lia.
  - rewrite length_take. unfold NoiseMaxPlaintextSize, MaxMsgLen, NoiseAEADTagSize. lia.
Qed.

Lemma write_loop_spec fuel : forall p total nc, (length p <= fuel)%nat -> is_open (c nc) = true ->
  exists nc' n err, write_loop fuel p total nc = Some (nc', (total + n)%nat, err) /\ written p nc nc' n err /\
    is_open (c nc') = true /\ segs (c nc') = segs (c nc) /\ rx nc' = rx nc /\ rbuf nc' = rbuf nc.
Proof.
  induction fuel as [|fuel IH]; intros p total nc Hlen Ho.
  - destruct p; [|cbn in Hlen; lia]. exists nc, 0%nat, None. rewrite Nat.add_0_r. split_and!; try done.
    exists [], [], (tx nc), []. by rewrite !app_nil_r.
  - destruct (decide (p = [])) as [->|Hp].
    { exists nc, 0%nat, None. rewrite Nat.add_0_r. split_and!; try done. exists [], [], (tx nc), []. by rewrite !app_nil_r. }
    destruct (max_chunk p Hp) as [Hck Hdrop]. remember (take (Z.to_nat NoiseMaxPlaintextSize) p) as chunk eqn:Hchunk.
    remember (drop (Z.to_nat NoiseMaxPlaintextSize) p) as rest eqn:Hrest.
    assert (p = chunk ++ rest) as Hcr by (subst; by rewrite take_drop).
    assert (write_loop (S fuel) p total nc =
      match Encrypt (tx nc) (header_of chunk) chunk with
      | Err e => Some (nc, total, Some (CipherError e))
      | Ok (ct, tx') =>
          let '(w, err) := writeAll (c nc) (header_of chunk ++ ct) in
          let nc' := {| tx := tx'; rx := rx nc; peer_static := peer_static nc; rbuf := rbuf nc; c := w |} in
          match err with Some e => Some (nc', total, Some e) | None => write_loop fuel rest (total + length chunk) nc' end
      end) as -> by (subst; by destruct p).
    assert (length chunk <> 0%nat) as Hc0 by (destruct Hck as [? _]; by destruct chunk).
    assert (length p = (length chunk + length rest)%nat) as Hpl by (by rewrite Hcr, length_app).
    destruct (Encrypt (tx nc) (header_of chunk) chunk) as [[ct tx']|e] eqn:He.
    + destruct (chunk_frame_ok _ _ _ _ He Hck) as [Hf Hct]. destruct (writeAll (c nc) (header_of chunk ++ ct)) as [w err] eqn:Hw.
      destruct (writeAll_spec _ _ _ _ Hw Ho) as (Ho' & Hseg & s & Hsent & Hpre & Herr). destruct err as [e|].
      * eexists _, 0%nat, (Some e). rewrite Nat.add_0_r. split_and!; try done. exists [], [], (tx nc), s. cbn.
        split_and!; try done; [apply prefix_nil|]. intros _. split; [lia|].
        apply prefix_length in Hpre. unfold header_of in Hpre. rewrite length_app, length_PutUint32 in Hpre.
        unfold chunk_ok, NoiseMaxPlaintextSize, NoiseHeaderSize, MaxMsgLen, NoiseAEADTagSize in *. lia.
      * rewrite Herr in Hsent by done. cbv beta iota zeta.
        destruct (IH rest (total + length chunk)%nat {| tx := tx'; rx := rx nc; peer_static := peer_static nc; rbuf := rbuf nc; c := w |})
          as (nc' & n & err & -> & Hwr & ? & Hs' & ? & ?); [lia|done|].
        exists nc', (length chunk + n)%nat, err. split; [by rewrite Nat.add_assoc|]. cbn in *. split_and!; try done; [|by rewrite Hs'].
        destruct Hwr as (pts & l & t & part & Hseal & Hall & Hpre' & -> & Hsent' & Hnone & Hsome). cbn in *.
        exists (chunk :: pts), ({| f_ad := header_of chunk; f_ct := ct; f_pt := chunk |} :: l), t, part. cbn. rewrite He, Hseal. cbn.
        split_and!; try done.
        -- by constructor.
        -- rewrite Hcr. by apply prefix_app.
        -- by rewrite length_app.
        -- rewrite Hsent', Hsent. cbn. by rewrite <-!app_assoc.
        -- intros E. destruct (Hnone E) as (Hm & -> & ->). split_and!; [|done..]. rewrite Hcr, <-Hm. done.
        -- intros E. destruct (Hsome E). split; [lia|done].
    + exists nc, 0%nat, (Some (CipherError e)). rewrite Nat.add_0_r. split_and!; try done. exists [], [], (tx nc), []. cbn.
      rewrite app_nil_r. split_and!; try done; [apply prefix_nil|]. intros _. split; [lia|].
      unfold NoiseHeaderSize, MaxMsgLen. cbn. lia.
Qed.

Lemma Write_spec p nc : is_open (c nc) = true ->
  exists nc' n err, Write p nc = Some (nc', n, err) /\ written p nc nc' n err /\
    is_open (c nc') = true /\ segs (c nc') = segs (c nc) /\ rx nc' = rx nc /\ rbuf nc' = rbuf nc.
Proof. intros Ho. by apply (write_loop_spec (length p) p 0 nc). Qed.

Lemma writes_spec ps : forall nc nc', writes ps nc = Some (nc', None) -> is_open (c nc) = true ->
  exists pts l, seal (tx nc) pts = Some (l, tx nc') /\ Forall chunk_ok pts /\ mjoin pts = mjoin ps /\
    sent (c nc') = sent (c nc) ++ mjoin (frame_bytes <$> l).
Proof.
  induction ps as [|p ps IH]; intros nc nc'; cbn [writes].
  - intros [= <-] _. exists [], []. by rewrite app_nil_r.
  - intros (([nc1 n] & err) & Hw & Hrest)%bind_Some Ho. destruct err as [e|]; [done|].
    destruct (Write_spec p nc Ho) as (nc2 & n2 & err2 & Hw2 & (pts & l & t & part & Hs & Hc & _ & _ & Hsent & Hnone & _) & Ho1 & _).
    rewrite Hw in Hw2. injection Hw2 as <- <- <-. destruct (Hnone eq_refl) as (Hm & -> & <-).
    destruct (IH nc1 nc' Hrest Ho1) as (pts' & l' & Hs' & Hc' & Hm' & Hsent').
    exists (pts ++ pts'), (l ++ l'). split_and!.
    + by eapply seal_app.
    + by apply Forall_app.
    + rewrite join_app, Hm, Hm'. done.
    + by rewrite Hsent', Hsent, fmap_app, join_app, app_nil_r, app_assoc.
Qed.

(** ** Reading *)

(** What is delivered when there are no errors. *)
Definition flat (l : list segment) : bytes := mjoin ((fun s => match s with Data b => b | Broken _ => [] end) <$> l).
Definition unbroken (l : list segment) : Prop := Forall (fun s => match s with Data _ => True | Broken _ => False end) l.

Lemma read_full_data n : forall got l, unbroken l ->
  exists l', unbroken l' /\
    if bool_decide (n <= length (flat l))%nat
    then read_full n got l = (l', Got (got ++ take n (flat l))) /\ flat l' = drop n (flat l)
    else read_full n got l = (l', Waits).
Proof.
  intros got l. revert n got. induction l as [|s l IH]; intros n got Hl.
  - destruct n; exists []; (split; [by constructor|]); cbn; [|done]. split; [by rewrite app_nil_r|done].
  - apply Forall_cons in Hl as [Hs Hl]. destruct s as [b|e]; [|done]. change (flat (Data b :: l)) with (b ++ flat l).
    destruct n as [|n]; [exists (Data b :: l); split; [by constructor|]; cbn; split; [by rewrite app_nil_r|done]|].
    cbn [read_full]. destruct (Nat.leb_spec (S n) (length b)) as [Hle|Hlt].
    + exists (Data (drop (S n) b) :: l). split; [by constructor|]. rewrite bool_decide_true by (rewrite length_app; lia).
      rewrite take_app_le, drop_app_le by done. done.
    + destruct (IH (S n - length b)%nat (got ++ b) Hl) as (l' & Hl' & Hr). exists l'. split; [done|]. rewrite length_app. revert Hr.
      case_bool_decide; case_bool_decide; try lia; [|done]. intros [-> ->].
      rewrite take_app_ge, drop_app_ge by lia. by rewrite app_assoc.
Qed.

Lemma ReadFull_data n w : unbroken (segs w) -> is_open w = true ->
  if bool_decide (n <= length (flat (segs w)))%nat
  then exists w', ReadFull n w = (w', Got (take n (flat (segs w)))) /\ is_open w' = true /\ unbroken (segs w') /\
         flat (segs w') = drop n (flat (segs w))
  else ReadFull n w = (w, Waits).
Proof.
  intros Hu Ho. unfold ReadFull. rewrite Ho. cbn. destruct (read_full_data n [] (segs w) Hu) as (l' & Hl' & Hr).
  revert Hr. case_bool_decide; [intros [-> Hf]|by intros ->]. cbn. eexists. split; [done|]. by destruct w.
Qed.

(** A connection on which these messages, and only these, arrive. *)
Record follows (nc : noiseConn) (l : list frame) : Prop := {
  fo_open : is_open (c nc) = true;
  fo_data : unbroken (segs (c nc));
  fo_flat : flat (segs (c nc)) = mjoin (frame_bytes <$> l);
  fo_rx : accepts (rx nc) l;
  fo_frames : Forall frame_ok l
}.

Definition plain (nc : noiseConn) (l : list frame) : bytes := rbuf nc ++ mjoin (f_pt <$> l).

Lemma Read_follows k nc l : (0 < k)%nat -> follows nc l ->
  (plain nc l = [] /\ Read k nc = (nc, Waits)) \/
  exists b nc' l', Read k nc = (nc', Got b) /\ b <> [] /\ (length b <= k)%nat /\ follows nc' l' /\ plain nc l = b ++ plain nc' l'.
Proof.
  intros Hk [Ho Hd Hf Hrx Hfr]. destruct k as [|k]; [lia|]. unfold Read, plain. destruct (rbuf nc) as [|b0 rest] eqn:Hb.
  2: { right. eexists _, _, l. split; [done|]. split_and!; [done|rewrite length_take; lia|done|].
    cbn [rbuf]. by rewrite app_assoc, take_drop. }
  pose proof (ReadFull_data (Z.to_nat NoiseHeaderSize) (c nc) Hd Ho) as Hh. destruct l as [|f l].
  { left. split; [done|]. revert Hh. rewrite Hf. cbn. by intros ->. }
  right. apply Forall_cons in Hfr as [(Ha & Hu & Hck & Hpt) Hfr]. destruct Hrx as (r' & Hdec & Hrx).
  assert (flat (segs (c nc)) = f_ad f ++ f_ct f ++ mjoin (frame_bytes <$> l)) as Hfl 
    by (rewrite Hf; change (mjoin (frame_bytes <$> f :: l)) with (frame_bytes f ++ mjoin (frame_bytes <$> l)); unfold frame_bytes at 1; by rewrite <-app_assoc).
  change (Z.to_nat NoiseHeaderSize) with 4%nat in *. rewrite bool_decide_true in Hh by (rewrite Hfl, length_app; lia).
  destruct Hh as (w1 & -> & Ho1 & Hd1 & Hf1). rewrite Hfl in Hf1 |- *. rewrite <-Ha, take_app_length. rewrite <-Ha, drop_app_length in Hf1.
  rewrite Hck. pose proof (ReadFull_data (Z.to_nat (Uint32 (f_ad f))) w1 Hd1 Ho1) as Hh.
  rewrite Hu, Nat2Z.id in *. rewrite bool_decide_true in Hh by (rewrite Hf1, length_app; lia).
  destruct Hh as (w2 & -> & Ho2 & Hd2 & Hf2). rewrite Hf1, take_app_length, Hdec. rewrite Hf1, drop_app_length in Hf2.
  eexists _, _, l. split; [done|]. cbn [rbuf rx c]. split_and!.
  - by destruct (f_pt f).
  - rewrite length_take. lia.
  - by split.
  - cbn. by rewrite app_assoc, take_drop.
Qed.

Definition got (os : list (outcome bytes)) : bytes := mjoin ((fun o => match o with Got b => b | _ => [] end) <$> os).

Lemma reads_follow ks : forall nc l nc' os, Forall (fun k => 0 < k)%nat ks -> follows nc l -> reads ks nc = (nc', os) ->
  got os `prefix_of` plain nc l /\
  Forall2 (fun k o => match o with
                      | Got b => b <> [] /\ (length b <= k)%nat
                      | Waits => got os = plain nc l
                      | Failed _ => False
                      end) ks os /\
  (length (plain nc l) <= length ks -> got os = plain nc l)%nat.
Proof.
  induction ks as [|k ks IH]; intros nc l nc' os Hks Hfo; cbn [reads].
  - intros [= <- <-]. split_and!; [apply prefix_nil|done|]. cbn. by destruct (plain nc l); cbn; [|lia].
  - apply Forall_cons in Hks as [Hk Hks]. destruct (Read_follows k nc l Hk Hfo) as [[Hp Hr]|(b & nc1 & l1 & Hr & Hb & Hbk & Hfo1 & Hp)];
      rewrite Hr; destruct (reads ks _) as [nc2 os2] eqn:Hrs; intros [= <- <-]; destruct (IH _ _ _ _ Hks ltac:(done) Hrs) as (Hpre & Hall & Hlen).
    + rewrite Hp in *. apply prefix_nil_inv in Hpre. change (got (Waits :: os2)) with (got os2). split_and!; [by rewrite Hpre|by constructor|done].
    + change (got (Got b :: os2)) with (b ++ got os2). rewrite Hp. split_and!.
      * by apply prefix_app.
      * constructor; [done|]. eapply Forall2_impl; [done|]. cbn. intros k' [b'|e|]; [done|done|]. by intros ->.
      * rewrite length_app. cbn. intros Hl. f_equal. apply Hlen. destruct b; [done|cbn in Hl; lia].
Qed.

(** ** Whatever arrives *)

Lemma ReadFull_open n w w' o : ReadFull n w = (w', o) -> is_open w' = is_open w.
Proof.
  unfold ReadFull. destruct (is_open w) eqn:Ho; cbn; [|by intros [= <- <-]].
  destruct (read_full n [] (segs w)) as [l [b|e|]]; intros [= <- <-]; done.
Qed.

Lemma Read_authentic k nc l nc' o : only_accepts (rx nc) l -> Read k nc = (nc', o) ->
  exists l', only_accepts (rx nc') l' /\
    match o with Got b => plain nc l = b ++ plain nc' l' | _ => plain nc' l' = plain nc l end.
Proof.
  intros Hl Hr. unfold Read, plain in *. destruct k as [|k]; [injection Hr as <- <-; by exists l|].
  destruct (rbuf nc) as [|b0 rest] eqn:Hb.
  2: { injection Hr as <- <-. exists l. cbn [rx rbuf]. split; [done|].
    rewrite <-(take_drop k rest) at 1. cbn. by rewrite <-app_assoc. }
  destruct (ReadFull (Z.to_nat NoiseHeaderSize) (c nc)) as [w [hdr|e|]] eqn:Hh; [|injection Hr as <- <-; exists l; cbn; by rewrite Hb..].
  destruct (check_length (Uint32 hdr)); [injection Hr as <- <-; exists l; cbn; by rewrite Hb|].
  destruct (ReadFull (Z.to_nat (Uint32 hdr)) w) as [w2 [ct|e|]]; [|injection Hr as <- <-; exists l; cbn; by rewrite Hb..].
  destruct (Decrypt (rx nc) hdr ct) as [[pt r']|e] eqn:Hd; [|injection Hr as <- <-; exists l; cbn; by rewrite Hb].
  injection Hr as <- <-. destruct l as [|f l]; cbn [only_accepts] in Hl.
  - specialize (Hl hdr ct). by rewrite Hd in Hl.
  - destruct Hl as [(r1 & Hd1 & Hl) Honly]. destruct (decide ((hdr, ct) = (f_ad f, f_ct f))) as [[= -> ->]|Hne].
    + rewrite Hd in Hd1. injection Hd1 as -> ->. exists l. cbn. split; [done|]. by rewrite app_assoc, take_drop.
    + specialize (Honly hdr ct Hne). by rewrite Hd in Honly.
Qed.

Lemma reads_authentic ks : forall nc l nc' os, only_accepts (rx nc) l -> reads ks nc = (nc', os) -> got os `prefix_of` plain nc l.
Proof.
  induction ks as [|k ks IH]; intros nc l nc' os Hl; cbn [reads]; [intros [= <- <-]; apply prefix_nil|].
  destruct (Read k nc) as [nc1 o] eqn:Hr. destruct (reads ks nc1) as [nc2 os2] eqn:Hrs. intros [= <- <-].
  destruct (Read_authentic _ _ _ _ _ Hl Hr) as (l1 & Hl1 & Ho). specialize (IH _ _ _ _ Hl1 Hrs).
  destruct o as [b|e|].
  - rewrite Ho. change (got (Got b :: os2)) with (b ++ got os2). by apply prefix_app.
  - by rewrite <-Ho.
  - by rewrite <-Ho.
Qed.

(** A connection that is closed, with nothing buffered, stays so. *)
Definition shut (nc : noiseConn) : Prop := is_open (c nc) = false /\ rbuf nc = [].

Lemma Read_shut k nc : shut nc -> Read (S k) nc = (nc, Failed (Net NetClosed)).
Proof. intros [Ho Hb]. unfold Read. rewrite Hb. unfold ReadFull. rewrite Ho. cbn. by destruct nc. Qed.

Lemma reads_shut ks : forall nc, Forall (fun k => 0 < k)%nat ks -> shut nc -> (reads ks nc).2 = (fun _ => Failed (Net NetClosed)) <$> ks.
Proof.
  induction ks as [|[|k] ks IH]; intros nc; [done|by intros [? _]%Forall_cons; lia|]. intros [_ Hks]%Forall_cons Hs. cbn [reads].
  rewrite Read_shut by done. specialize (IH nc Hks Hs). destruct (reads ks nc). cbn in *. by rewrite IH.
Qed.

Definition bad_length (o : outcome bytes) : bool := match o with Failed ZeroLength | Failed (TooLarge _) => true | _ => false end.

Lemma read_full_not_bad n : forall g l, bad_length (read_full n g l).2 = false.
Proof.
  intros g l. revert n g. induction l as [|[b|e] l IH]; intros [|n] g; cbn; try done.
  - case_match; [done|apply IH].
  - by destruct e.
Qed.

Lemma Read_bad_length k nc nc' o : Read k nc = (nc', o) -> bad_length o = true -> shut nc'.
Proof.
  intros Hr Hbad. assert (forall n w w' o, ReadFull n w = (w', o) -> bad_length o = false) as Hrf.
  { intros n w w' o'. unfold ReadFull. destruct (negb (is_open w)); [by intros [= <- <-]|].
    pose proof (read_full_not_bad n [] (segs w)) as Hn. destruct (read_full n [] (segs w)) as [l [b|e|]]; by intros [= <- <-]. }
  unfold Read in Hr. destruct k as [|k]; [by injection Hr as <- <-|]. destruct (rbuf nc) eqn:Hb; [|by injection Hr as <- <-].
  destruct (ReadFull (Z.to_nat NoiseHeaderSize) (c nc)) as [w [hdr|e|]] eqn:Hh; [|injection Hr as <- <-; by rewrite (Hrf _ _ _ _ Hh) in Hbad|by injection Hr as <- <-].
  destruct (check_length (Uint32 hdr)); [injection Hr as <- <-; split; cbn; [done|by rewrite Hb]|].
  destruct (ReadFull (Z.to_nat (Uint32 hdr)) w) as [w2 [ct|e|]] eqn:Hh2; [|injection Hr as <- <-; by rewrite (Hrf _ _ _ _ Hh2) in Hbad|by injection Hr as <- <-].
  destruct (Decrypt (rx nc) hdr ct) as [[pt r']|e]; by injection Hr as <- <-.
Qed.

Lemma reads_bad_length ks : forall nc nc' os i o, Forall (fun k => 0 < k)%nat ks -> reads ks nc = (nc', os) ->
  os !! i = Some o -> bad_length o = true -> forall j o', (i < j)%nat -> os !! j = Some o' -> o' = Failed (Net NetClosed).
Proof.
  induction ks as [|k ks IH]; intros nc nc' os i o Hks; cbn [reads]; [by intros [= <- <-]|].
  destruct (Read k nc) as [nc1 o1] eqn:Hr. destruct (reads ks nc1) as [nc2 os2] eqn:Hrs. intros [= <- <-] Hi Hbad j o' Hij Hj.
  apply Forall_cons in Hks as [_ Hks]. destruct j as [|j]; [lia|]. change (os2 !! j = Some o') in Hj. destruct i as [|i].
  - injection Hi as ->. pose proof (reads_shut ks nc1 Hks (Read_bad_length _ _ _ _ Hr Hbad)) as Hos. rewrite Hrs in Hos.
    assert (os2 = (fun _ => Failed (Net NetClosed)) <$> ks) as -> by exact Hos. rewrite list_lookup_fmap in Hj. by apply fmap_Some in Hj as (? & _ & ->).
  - eapply (IH _ _ _ i); [done|exact Hrs|done|done| |done]. lia.
Qed.

(** ** Theorems *)

(** C15: a connection carries a stream: when what was written without an error on one end arrives at the other, in whichever
    segments, reads into buffers of whichever sizes return it in order, without a byte lost, doubled or changed; a read
    returns at least one byte, and waits only when everything has been returned. *)
Theorem connection_carries_the_stream (s s' r r' : noiseConn) ps ks os :
  peers (tx s) (rx r) -> is_open (c s) = true -> is_open (c r) = true -> rbuf r = [] -> unbroken (segs (c r)) ->
  writes ps s = Some (s', None) -> sent (c s') = sent (c s) ++ flat (segs (c r)) ->
  Forall (fun k => 0 < k)%nat ks -> reads ks r = (r', os) ->
  got os `prefix_of` mjoin ps /\
  Forall2 (fun k o => match o with
                      | Got b => b <> [] /\ (length b <= k)%nat
                      | Waits => got os = mjoin ps
                      | Failed _ => False
                      end) ks os /\
  ((length (mjoin ps) <= length ks)%nat -> got os = mjoin ps).
Proof.
  intros Hpeer Hos Hor Hb Hu Hw Hsent Hks Hr. destruct (writes_spec ps s s' Hw Hos) as (pts & l & Hseal & Hck & Hm & Hsent').
  assert (plain r l = mjoin ps) as Hplain by (unfold plain; by rewrite Hb, (seal_pts _ _ _ _ Hseal), Hm).
  assert (follows r l) as Hfo.
  { split; [done|done| |by eapply Hpeer|by eapply seal_frames_ok]. apply (app_inv_head (sent (c s))). by rewrite <-Hsent. }
  pose proof (reads_follow ks r l r' os Hks Hfo Hr) as Hrf. by rewrite Hplain in Hrf.
Qed.

(** C16: whatever arrives, in whichever segments and with whichever errors, a connection whose cipher opens only what its
    peer sealed returns a prefix of what the peer sealed; after a frame of no or too many bytes it returns nothing more. *)
Theorem nothing_forged_is_read (t t' : Tx) (r r' : noiseConn) pts l ks os :
  seal t pts = Some (l, t') -> only_accepts (rx r) l -> rbuf r = [] -> reads ks r = (r', os) ->
  got os `prefix_of` mjoin pts /\
  (Forall (fun k => 0 < k)%nat ks -> forall i j o o', os !! i = Some o -> bad_length o = true -> (i < j)%nat -> os !! j = Some o' ->
     o' = Failed (Net NetClosed)).
Proof.
  intros Hs Ho Hb Hr. split.
  - pose proof (reads_authentic ks r l r' os Ho Hr) as Hp. unfold plain in Hp. by rewrite Hb, (seal_pts _ _ _ _ Hs) in Hp.
  - intros Hks i j o o' Hi Hbad Hij Hj. exact (reads_bad_length ks r r' os i o Hks Hr Hi Hbad j o' Hij Hj).
Qed.

(** C37: writing ends, in frames of at most 65535 bytes after their length, which does not overflow. Without an error
    exactly these frames are on the wire, for chunks that make up what was given; with an error the number that is
    returned is that of the bytes in complete frames, less than what was given. *)
Theorem writes_are_framed p nc : is_open (c nc) = true ->
  exists nc' total err pts l t part, Write p nc = Some (nc', total, err) /\ seal (tx nc) pts = Some (l, t) /\
    total = length (mjoin pts) /\ mjoin pts `prefix_of` p /\ sent (c nc') = sent (c nc) ++ mjoin (frame_bytes <$> l) ++ part /\
    Forall (fun f => f_pt f <> [] /\ Uint32 (f_ad f) = Z.of_nat (length (f_ct f)) /\
                     Z.of_nat (length (frame_bytes f)) <= NoiseHeaderSize + MaxMsgLen /\
                     Z.of_nat (length (f_ct f)) = Z.of_nat (length (f_pt f)) + NoiseAEADTagSize) l /\
    (err = None -> mjoin pts = p /\ part = []) /\
    (err <> None -> (total < length p)%nat /\ Z.of_nat (length part) <= NoiseHeaderSize + MaxMsgLen).
Proof.
  intros Ho. destruct (Write_spec p nc Ho) as (nc' & n & err & Hw & (pts & l & t & part & Hs & Hc & Hp & Hn & Hsent & Hnone & Hsome) & _).
  exists nc', n, err, pts, l, t, part. split_and!; try done; [|intros E; by destruct (Hnone E) as (? & ? & _)].
  clear -Hs Hc Encrypt_length. revert l Hs. generalize (tx nc). induction Hc as [|pt pts Hck Hc IH]; intros t0 l; cbn.
  - intros [= <- _]. constructor.
  - destruct (Encrypt t0 (header_of pt) pt) as [[ct t1]|] eqn:He; [|done]. cbn. intros ((l1 & t2) & Hs & [= <- ->])%bind_Some.
    constructor; [|by eapply IH]. destruct (chunk_frame_ok _ _ _ _ He Hck) as [(Ha & Hu & Hcl & Hpt) Hl].
    unfold frame_bytes. cbn [f_pt f_ad f_ct] in *. destruct Hck.
    unfold NoiseMaxPlaintextSize, NoiseHeaderSize, MaxMsgLen, NoiseAEADTagSize in *. split_and!; [done|done| |lia].
    rewrite length_app, Ha. lia.
Qed.

End Conn.

(** ** Evaluation *)

(** A cipher that appends the number of the message as its tag, and one that opens a list of
    messages. *)
Definition tag (n : nat) : bytes := replicate 16 (byte_of (Z.of_nat n)).
#[local] Arguments tag : simpl never.
Definition tag_Encrypt (n : nat) (ad pt : bytes) : result string (bytes * nat) := Ok (pt ++ tag n, S n).
Definition tag_Decrypt (n : nat) (ad ct : bytes) : result string (bytes * nat) :=
  let m := (length ct - 16)%nat in
  if bool_decide (drop m ct = tag n) then Ok (take m ct, S n) else Err "authentication failed".
Definition list_Decrypt (l : list frame) (ad ct : bytes) : result string (bytes * list frame) :=
  match l with
  | f :: l => if bool_decide ((ad, ct) = (f_ad f, f_ct f)) then Ok (f_pt f, l) else Err "authentication failed"
  | [] => Err "authentication failed"
  end.

Lemma tag_Encrypt_length t ad pt ct t' : tag_Encrypt t ad pt = Ok (ct, t') -> Z.of_nat (length ct) = Z.of_nat (length pt) + NoiseAEADTagSize.
Proof. intros [= <- <-]. rewrite length_app. change (length (tag t)) with 16%nat. unfold NoiseAEADTagSize. lia. Qed.

Lemma tag_peers n : peers tag_Encrypt tag_Decrypt n n.
Proof.
  intros pts. revert n. induction pts as [|pt pts IH]; intros n l t'; cbn; [by intros [= <- _]|].
  intros ((l1 & t1) & Hs & [= <- ->])%bind_Some. cbn. exists (S n). split; [|by eapply IH].
  unfold tag_Decrypt. rewrite length_app. change (length (tag n)) with 16%nat.
  replace (length pt + 16 - 16)%nat with (length pt) by lia. rewrite drop_app_length, take_app_length. by rewrite bool_decide_true.
Qed.

Lemma list_only_accepts l : only_accepts list_Decrypt l l.
Proof.
  induction l as [|f l IH]; cbn; [done|]. split; [exists l; by rewrite bool_decide_true|]. intros ad ct Hne. by rewrite bool_decide_false.
Qed.

Definition new_wire (l : list segment) (a : list answer) : wire := {| segs := l; answers := a; sent := []; is_open := true |}.
Definition hello : bytes := [x68; x65; x6c; x6c; x6f].
Definition world : bytes := [x77; x6f; x72; x6c; x64].

Definition sender : noiseConn := newNoiseConn (new_wire [] [Accept 2; Accept 0]) 0%nat 0%nat [].
Definition written_bytes (ps : list bytes) : bytes :=
  match writes tag_Encrypt ps sender with Some (s, _) => sent (c s) | None => [] end.
(** The bytes arrive in three segments, the first of which ends within a length. *)
Definition receiver (b : bytes) : noiseConn (Tx := nat) :=
  newNoiseConn (new_wire [Data (take 3 b); Data (take 20 (drop 3 b)); Data (drop 23 b)] []) 0%nat 0%nat [].

Lemma connection_carries_the_stream_witness :
  (reads tag_Decrypt [2; 10; 3; 7; 1]%nat (receiver (written_bytes [hello; world]))).2 =
    [Got [x68; x65]; Got [x6c; x6c; x6f]; Got [x77; x6f; x72]; Got [x6c; x64]; Waits] /\
  got (reads tag_Decrypt [2; 10; 3; 7; 1]%nat (receiver (written_bytes [hello; world]))).2 `prefix_of` mjoin [hello; world].
Proof.
  split; [vm_compute; reflexivity|].
  destruct (writes tag_Encrypt [hello; world] sender) as [[s' [e|]]|] eqn:Hw; [vm_compute in Hw; discriminate| |vm_compute in Hw; discriminate].
  assert (written_bytes [hello; world] = sent (c s')) as Hb by (unfold written_bytes; rewrite Hw; reflexivity).
  refine (proj1 (connection_carries_the_stream tag_Encrypt tag_Decrypt tag_Encrypt_length sender s' (receiver (written_bytes [hello; world])) _
    [hello; world] [2; 10; 3; 7; 1]%nat _ (tag_peers 0) eq_refl eq_refl eq_refl _ Hw _ _ (surjective_pairing _))).
  - repeat constructor.
  - rewrite <-Hb. vm_compute. reflexivity.
  - repeat constructor.
Defined.

Definition chunks : list bytes := [hello; world].
Definition frames : list (frame) := match seal tag_Encrypt 0%nat chunks with Some (l, _) => l | None => [] end.

(** The second message arrives first, then garbage of length zero. *)
Definition attacked : noiseConn (Tx := nat) :=
  newNoiseConn (new_wire [Data (mjoin (frame_bytes <$> drop 1 frames)); Data (mjoin (frame_bytes <$> frames)); Data [x00; x00; x00; x00];
                          Data (mjoin (frame_bytes <$> frames))] []) 0%nat frames [].

Lemma nothing_forged_is_read_witness :
  (reads list_Decrypt [9; 9; 9; 9; 9]%nat attacked).2 =
    [Failed (CipherError "authentication failed"); Got hello; Got world; Failed ZeroLength; Failed (Net NetClosed)] /\
  got (reads list_Decrypt [9; 9; 9; 9; 9]%nat attacked).2 `prefix_of` mjoin chunks.
Proof.
  split; [vm_compute; reflexivity|].
  refine (proj1 (nothing_forged_is_read tag_Encrypt list_Decrypt 0%nat 2%nat attacked _ chunks frames [9; 9; 9; 9; 9]%nat _
    _ (list_only_accepts frames) eq_refl (surjective_pairing _))).
  vm_compute. reflexivity.
Defined.

Lemma writes_are_framed_witness :
  exists nc' total err pts l t part, Write tag_Encrypt hello sender = Some (nc', total, err) /\ seal tag_Encrypt 0%nat pts = Some (l, t) /\
    sent (c nc') = mjoin (frame_bytes <$> l) ++ part.
Proof.
  destruct (writes_are_framed tag_Encrypt tag_Encrypt_length hello sender eq_refl) as (nc' & n & err & pts & l & t & part & Hw & Hs & _ & _ & Hsent & _).
  exists nc', n, err, pts, l, t, part. split; [exact Hw|split; [exact Hs|exact Hsent]].
Defined.

(** An error of the network within a frame, as when a deadline expires, loses the part of the
    frame that was read: the next call takes the rest for a length. *)
Example timeout_loses_frame :
  (reads tag_Decrypt [9; 9; 9]%nat
     (newNoiseConn (Tx := nat) (new_wire [Data (take 8 (written_bytes [hello; world])); Broken (Io "timeout");
                                          Data (drop 8 (written_bytes [hello; world]))] []) 0%nat 0%nat [])).2 =
  [Failed (Net (Io "timeout")); Failed (TooLarge 1862270976); Failed (Net NetClosed)].
Proof. vm_compute. reflexivity. Qed.

(** [Close] overwrites what is buffered and leaves it to be read. *)
Example closed_connection_reads_zeros :
  let '(nc, _) := Read tag_Decrypt 2 (receiver (written_bytes [hello; world])) in
  (Read tag_Decrypt 9 (Close nc)).2 = Got [x00; x00; x00].
Proof. vm_compute. reflexivity. Qed.
