(* ===== verification/NoiseHandshake.v ===== *)
(** * Performix: the handshake with an agent

    Models [initiatorHandshake] and [responderHandshake] of
    [core/atperf-agent/grpcserver/transport/noiselistener.go], in the monad of calls on a
    network connection, and what listeners and dialers make of them. The states of the
    handshake are those of the Noise package: arguments, with a run of the protocol XX between
    two of them as the hypothesis of the theorem. Deadlines are errors that the network
    delivers. *)

From S2P Require Import Prelude.
From S2P Require Import NoiseConn.

Local Open Scope Z_scope.

(** ** Calls on a network connection *)

Inductive handshake_error :=
| NoiseInit (e : string)
| Step (name : string) (e : conn_error)
| UnexpectedPeerStatic
| NoCipherState.

(** A call has returned, has failed, or waits for bytes that have not been delivered. *)
Inductive progress (A : Type) := Done (a : A) | Aborted (e : handshake_error) | Pending.
Arguments Done {A} a.
Arguments Aborted {A} e.
Arguments Pending {A}.

Definition handshake (A : Type) : Type := wire -> wire * progress A.

#[export] Instance handshake_ret : MRet handshake := fun A a w => (w, Done a).
#[export] Instance handshake_bind : MBind handshake := fun A B f m w =>
  match m w with
  | (w, Done a) => f a w
  | (w, Aborted e) => (w, Aborted e)
  | (w, Pending) => (w, Pending)
  end.

Definition abort {A} (e : handshake_error) : handshake A := fun w => (w, Aborted e).

Definition send (name : string) (msg : bytes) : handshake () := fun w =>
  match writeFrame w msg with (w, None) => (w, Done tt) | (w, Some e) => (w, Aborted (Step name e)) end.

Definition receive (name : string) : handshake bytes := fun w =>
  match readFrame w with (w, Got m) => (w, Done m) | (w, Failed e) => (w, Aborted (Step name e)) | (w, Waits) => (w, Pending) end.

Section Handshake.

(** Static keys, cipher states and handshake states, and the functions of the package on them.
    A message carries no payload; the last one also gives the two cipher states. *)
Context {DHKey Cs HandshakeState : Type}.

Record NoiseParams := { LocalStatic : DHKey; Prologue : bytes; ExpectedPeerStatic : bytes }.

Context (newHandshakeState : NoiseParams -> bool -> result string HandshakeState).
Context (WriteMessage : HandshakeState -> result string (bytes * option Cs * option Cs * HandshakeState)).
Context (ReadMessage : HandshakeState -> bytes -> result string (option Cs * option Cs * HandshakeState)).
Context (PeerStatic : HandshakeState -> bytes).

Definition package {A} (name : string) (r : result string A) : handshake A :=
  match r with Ok a => mret a | Err e => abort (Step name (CipherError e)) end.

Definition init (p : NoiseParams) (initiator : bool) : handshake HandshakeState :=
  match newHandshakeState p initiator with Ok hs => mret hs | Err e => abort (NoiseInit e) end.

Definition verifyPeerStatic (peerStatic : bytes) (p : NoiseParams) : handshake () :=
  if negb (bool_decide (ExpectedPeerStatic p = [])) && negb (bool_decide (peerStatic = ExpectedPeerStatic p))
  then abort UnexpectedPeerStatic else mret tt.

Definition finish (tx rx : option Cs) (hs : HandshakeState) : handshake (noiseConn (Tx := Cs) (Rx := Cs)) :=
  match tx, rx with
  | Some tx, Some rx => fun w => (w, Done (newNoiseConn w tx rx (PeerStatic hs)))
  | _, _ => abort NoCipherState
  end.

Definition initiatorHandshake (p : NoiseParams) : handshake (noiseConn (Tx := Cs) (Rx := Cs)) :=
  hs ← init p true;
  '(msg1, _, _, hs) ← package "-> e" (WriteMessage hs);
  _ ← send "-> e" msg1;
  msg2 ← receive "<- e, ee, s, es";
  '(_, _, hs) ← package "<- e, ee, s, es" (ReadMessage hs msg2);
  _ ← verifyPeerStatic (PeerStatic hs) p;
  '(msg3, tx, rx, hs) ← package "-> s, se" (WriteMessage hs);
  _ ← send "-> s, se" msg3;
  finish tx rx hs.

Definition responderHandshake (p : NoiseParams) : handshake (noiseConn (Tx := Cs) (Rx := Cs)) :=
  hs ← init p false;
  msg1 ← receive "<- e";
  '(_, _, hs) ← package "<- e" (ReadMessage hs msg1);
  '(msg2, _, _, hs) ← package "-> e, ee, s, es" (WriteMessage hs);
  _ ← send "-> e, ee, s, es" msg2;
  msg3 ← receive "<- s, se";
  '(rx, tx, hs) ← package "<- s, se" (ReadMessage hs msg3);
  _ ← verifyPeerStatic (PeerStatic hs) p;
  finish tx rx hs.

(** [Accept] of a listener and the function of a dialer close a connection whose handshake has
    failed. *)
Definition established (h : handshake (noiseConn (Tx := Cs) (Rx := Cs))) : handshake (noiseConn (Tx := Cs) (Rx := Cs)) := fun w =>
  match h w with (w, Aborted e) => (close_wire w, Aborted e) | r => r end.

Definition Accept (p : NoiseParams) := established (responderHandshake p).
Definition Dial (p : NoiseParams) := established (initiatorHandshake p).

(** ** Two ends of one connection *)

Definition frame_of (msg : bytes) : bytes := PutUint32 (wrap_uint32 (Z.of_nat (length msg))) ++ msg.
Definition message_ok (msg : bytes) : Prop := msg <> [] /\ Z.of_nat (length msg) <= MaxMsgLen.

(** A network that accepts what is written and delivers what it has without errors. *)
Record fine (w : wire) : Prop := { fine_open : is_open w = true; fine_answers : answers w = []; fine_segs : unbroken (segs w) }.

Definition set_sent (w : wire) (b : bytes) : wire := {| segs := segs w; answers := answers w; sent := b; is_open := is_open w |}.

Lemma check_length_ok msg : message_ok msg ->
  Uint32 (PutUint32 (wrap_uint32 (Z.of_nat (length msg)))) = Z.of_nat (length msg) /\ check_length (Z.of_nat (length msg)) = None.
Proof.
  intros [Hne Hlen]. unfold MaxMsgLen in *. assert (length msg <> 0%nat) by (by destruct msg). split.
  - rewrite Uint32_PutUint32; unfold wrap_uint32; rewrite Z.mod_small; lia.
  - unfold check_length, MaxMsgLen. destruct (Z.eqb_spec (Z.of_nat (length msg)) 0); [lia|].
    by destruct (Z.gtb_spec (Z.of_nat (length msg)) 65535); [lia|].
Qed.

Lemma writeAll_fine w p : fine w -> writeAll w p = (set_sent w (sent w ++ p), None).
Proof.
  intros [Ho Ha _]. unfold writeAll, set_sent. rewrite Ho, Ha. cbn. by destruct p.
Qed.

Lemma send_fine name msg w : fine w -> message_ok msg ->
  send name msg w = (set_sent w (sent w ++ frame_of msg), Done tt) /\ fine (set_sent w (sent w ++ frame_of msg)).
Proof.
  intros Hw Hm. split; [|by destruct Hw]. destruct Hm as [_ Hlen]. unfold send, writeFrame.
  destruct (Z.gtb_spec (Z.of_nat (length msg)) MaxMsgLen); [lia|].
  rewrite writeAll_fine by done. rewrite writeAll_fine by (by destruct Hw). cbn [sent set_sent].
  unfold frame_of, set_sent. cbn [segs answers is_open]. by rewrite app_assoc.
Qed.

Lemma receive_fine name msg rest w : fine w -> message_ok msg -> flat (segs w) = frame_of msg ++ rest ->
  exists w', receive name w = (w', Done msg) /\ fine w' /\ flat (segs w') = rest /\ sent w' = sent w.
Proof.
  intros [Ho Ha Hs] Hm Hf. destruct (check_length_ok msg Hm) as [Hu Hc]. unfold receive, readFrame.
  unfold frame_of in Hf. set (hdr := PutUint32 (wrap_uint32 (Z.of_nat (length msg)))) in *.
  pose proof (ReadFull_data 4 w Hs Ho) as H1. change (Z.to_nat NoiseHeaderSize) with 4%nat.
  rewrite bool_decide_true in H1 by (rewrite Hf, !length_app; change (length hdr) with 4%nat; lia).
  destruct H1 as (w1 & E1 & Ho1 & Hs1 & Hf1). rewrite E1, Hf, <-app_assoc. rewrite Hf, <-app_assoc in Hf1.
  change (take 4 (hdr ++ msg ++ rest)) with hdr. change (drop 4 (hdr ++ msg ++ rest)) with (msg ++ rest) in Hf1. rewrite Hu, Hc.
  pose proof (ReadFull_data (Z.to_nat (Z.of_nat (length msg))) w1 Hs1 Ho1) as H2. rewrite Nat2Z.id in *.
  rewrite bool_decide_true in H2 by (rewrite Hf1, length_app; lia). destruct H2 as (w2 & E2 & Ho2 & Hs2 & Hf2).
  rewrite E2, Hf1, take_app_length. exists w2. rewrite Hf1, drop_app_length in Hf2.
  assert (forall n w w' o, ReadFull n w = (w', Got o) -> answers w' = answers w /\ sent w' = sent w) as Hkeep.
  { intros n v v' o. unfold ReadFull. destruct (negb (is_open v)); [done|]. by destruct (read_full n [] (segs v)) as [l [b|e|]]; intros [= <- <-]. }
  destruct (Hkeep _ _ _ _ E1), (Hkeep _ _ _ _ E2). split_and!; [done| |done|congruence]. split; [done|congruence|done].
Qed.

Lemma receive_nothing name w : fine w -> flat (segs w) = [] -> receive name w = (w, Pending).
Proof.
  intros [Ho Ha Hs] Hf. unfold receive, readFrame. pose proof (ReadFull_data 4 w Hs Ho) as H1.
  change (Z.to_nat NoiseHeaderSize) with 4%nat. rewrite Hf in H1. cbn in H1. by rewrite H1.
Qed.

Lemma bind_Done {A B} (m : handshake A) (f : A -> handshake B) w w' b : (m ≫= f) w = (w', Done b) ->
  exists a w1, m w = (w1, Done a) /\ f a w1 = (w', Done b).
Proof.
  unfold mbind, handshake_bind. destruct (m w) as [w1 [a|e|]]; [|done..]. intros Hf. by exists a, w1.
Qed.

Lemma bind_step {A B} (m : handshake A) (f : A -> handshake B) w w1 a : m w = (w1, Done a) -> (m ≫= f) w = f a w1.
Proof. intros Hm. unfold mbind, handshake_bind. by rewrite Hm. Qed.

Definition accepted (p : NoiseParams) (peerStatic : bytes) : Prop := ExpectedPeerStatic p = [] \/ peerStatic = ExpectedPeerStatic p.

#[local] Instance accepted_dec p key : Decision (accepted p key).
Proof. unfold accepted. apply _. Defined.

Lemma verifyPeerStatic_spec key p w :
  verifyPeerStatic key p w = (w, if bool_decide (accepted p key) then Done tt else Aborted UnexpectedPeerStatic).
Proof.
  unfold verifyPeerStatic, accepted. repeat case_bool_decide; cbn; try done; naive_solver.
Qed.

(** A handshake gives a connection only to a peer whose static key is the expected one, if one is expected; the
    connection has the ciphers and the key that the handshake ended with, and no data from before. *)
Theorem no_connection_with_a_stranger (initiator : bool) p w w' nc :
  (forall hs m tx rx hs', WriteMessage hs = Ok (m, tx, rx, hs') -> PeerStatic hs' = PeerStatic hs) ->
  (if initiator then Dial p w else Accept p w) = (w', Done nc) ->
  accepted p (peer_static nc) /\ rbuf nc = [] /\ c nc = w' /\
  exists hs, peer_static nc = PeerStatic hs /\
    if initiator then exists hs0 m, WriteMessage hs0 = Ok (m, Some (tx nc), Some (rx nc), hs)
    else exists hs0 m, ReadMessage hs0 m = Ok (Some (rx nc), Some (tx nc), hs).
Proof.
  intros Hkeep Hh.
  assert (forall tx' rx' hs w1, finish tx' rx' hs w1 = (w', Done nc) ->
    peer_static nc = PeerStatic hs /\ rbuf nc = [] /\ c nc = w' /\ tx' = Some (tx nc) /\ rx' = Some (rx nc)) as Hfin.
  { intros [t|] [r|] hs w1; try done. by intros [= <- <-]. }
  assert (forall A name (r : result string A) w1 w2 a, package name r w1 = (w2, Done a) -> r = Ok a /\ w2 = w1) as Hpk
    by (intros A name [a|e] w1 w2 a'; [by intros [= <- <-]|done]).
  assert (forall key w1 w2 u, verifyPeerStatic key p w1 = (w2, Done u) -> accepted p key) as Hver.
  { intros key w1 w2 u. rewrite verifyPeerStatic_spec. by case_bool_decide; [|intros [=]]. }
  destruct initiator; unfold Dial, Accept, established in Hh.
  - destruct (initiatorHandshake p w) as [w1 [nc1|e|]] eqn:Hi; [|done..]. injection Hh as -> ->.
    unfold initiatorHandshake in Hi.
    apply bind_Done in Hi as (hs0 & v0 & _ & Hi). apply bind_Done in Hi as ([[[m1 t1] r1] hs1] & v1 & _ & Hi).
    apply bind_Done in Hi as ([] & v2 & _ & Hi). apply bind_Done in Hi as (msg2 & v3 & _ & Hi).
    apply bind_Done in Hi as ([[t2 r2] hs2] & v4 & _ & Hi). apply bind_Done in Hi as ([] & v5 & Hv & Hi).
    apply bind_Done in Hi as ([[[m3 t3] r3] hs3] & v6 & Hp & Hi). apply bind_Done in Hi as ([] & v7 & _ & Hi).
    apply Hpk in Hp as [Hp _]. apply Hfin in Hi as (-> & -> & -> & -> & ->). apply Hver in Hv.
    rewrite (Hkeep _ _ _ _ _ Hp). split_and!; try done. exists hs3. split; [by rewrite (Hkeep _ _ _ _ _ Hp)|eauto].
  - destruct (responderHandshake p w) as [w1 [nc1|e|]] eqn:Hi; [|done..]. injection Hh as -> ->.
    unfold responderHandshake in Hi.
    apply bind_Done in Hi as (hs0 & v0 & _ & Hi). apply bind_Done in Hi as (msg1 & v1 & _ & Hi).
    apply bind_Done in Hi as ([[t1 r1] hs1] & v2 & _ & Hi). apply bind_Done in Hi as ([[[m2 t2] r2] hs2] & v3 & _ & Hi).
    apply bind_Done in Hi as ([] & v4 & _ & Hi). apply bind_Done in Hi as (msg3 & v5 & _ & Hi).
    apply bind_Done in Hi as ([[r3 t3] hs3] & v6 & Hp & Hi). apply bind_Done in Hi as ([] & v7 & Hv & Hi).
    apply Hpk in Hp as [Hp _]. apply Hfin in Hi as (-> & -> & -> & -> & ->). apply Hver in Hv.
    split_and!; try done. exists hs3. split; [done|eauto].
Qed.

(** A run of the protocol XX: the states of both ends, the three messages, and the ciphers that
    the ends have after the last one, which names them in the same order. *)
Record xx_run (pi pr : NoiseParams) := {
  i0 : HandshakeState; i1 : HandshakeState; i2 : HandshakeState; i3 : HandshakeState;
  r0 : HandshakeState; r1 : HandshakeState; r2 : HandshakeState; r3 : HandshakeState;
  m1 : bytes; m2 : bytes; m3 : bytes;
  i_tx : Cs; i_rx : Cs; r_rx : Cs; r_tx : Cs;
  xx_init : newHandshakeState pi true = Ok i0 /\ newHandshakeState pr false = Ok r0;
  xx_1 : WriteMessage i0 = Ok (m1, None, None, i1) /\ ReadMessage r0 m1 = Ok (None, None, r1);
  xx_2 : WriteMessage r1 = Ok (m2, None, None, r2) /\ ReadMessage i1 m2 = Ok (None, None, i2);
  xx_3 : WriteMessage i2 = Ok (m3, Some i_tx, Some i_rx, i3) /\ ReadMessage r2 m3 = Ok (Some r_rx, Some r_tx, r3);
  xx_key : PeerStatic i3 = PeerStatic i2;
  xx_messages : message_ok m1 /\ message_ok m2 /\ message_ok m3
}.

Section Agreement.
Context {pi pr : NoiseParams} (x : xx_run pi pr).

(** What the initiator does before it waits, and after it has received the second message. *)
Definition after_m2 : handshake (noiseConn (Tx := Cs) (Rx := Cs)) :=
  _ ← verifyPeerStatic (PeerStatic (i2 _ _ x)) pi; _ ← send "-> s, se" (m3 _ _ x); finish (Some (i_tx _ _ x)) (Some (i_rx _ _ x)) (i3 _ _ x).

Lemma initiator_start w : fine w ->
  initiatorHandshake pi w =
    (msg2 ← receive "<- e, ee, s, es";
     '(_, _, hs) ← package "<- e, ee, s, es" (ReadMessage (i1 _ _ x) msg2);
     _ ← verifyPeerStatic (PeerStatic hs) pi;
     '(msg3, tx, rx, hs) ← package "-> s, se" (WriteMessage hs);
     _ ← send "-> s, se" msg3;
     finish tx rx hs) (set_sent w (sent w ++ frame_of (m1 _ _ x))).
Proof.
  intros Hw. destruct (xx_init _ _ x) as [Hi _], (xx_1 _ _ x) as [H1 _], (xx_messages _ _ x) as [Hm1 _].
  unfold initiatorHandshake. erewrite bind_step; [|unfold init; by rewrite Hi].
  erewrite bind_step; [|rewrite H1; reflexivity]. cbv beta iota.
  erewrite bind_step; [reflexivity|]. by apply send_fine.
Qed.

Lemma initiator_m2 w rest : fine w -> flat (segs w) = frame_of (m2 _ _ x) ++ rest ->
  exists w', initiatorHandshake pi w = after_m2 w' /\ fine w' /\ flat (segs w') = rest /\ sent w' = sent w ++ frame_of (m1 _ _ x).
Proof.
  intros Hw Hf. destruct (xx_2 _ _ x) as [_ H2], (xx_3 _ _ x) as [H3 _], (xx_messages _ _ x) as (Hm1 & Hm2 & _).
  destruct (send_fine "" (m1 _ _ x) w Hw Hm1) as [_ Hw1].
  destruct (receive_fine "<- e, ee, s, es" (m2 _ _ x) rest _ Hw1 Hm2) as (w' & Hr & Hw' & Hf' & Hs'); [done|].
  exists w'. split; [|done]. rewrite initiator_start by done. erewrite bind_step; [|exact Hr].
  erewrite bind_step; [|rewrite H2; reflexivity]. cbv beta iota. unfold after_m2. unfold mbind, handshake_bind.
  rewrite verifyPeerStatic_spec. case_bool_decide; [|done]. cbn. by rewrite H3.
Qed.

Lemma after_m2_spec w : fine w ->
  after_m2 w = if bool_decide (accepted pi (PeerStatic (i2 _ _ x)))
               then let w' := set_sent w (sent w ++ frame_of (m3 _ _ x)) in
                    (w', Done (newNoiseConn w' (i_tx _ _ x) (i_rx _ _ x) (PeerStatic (i2 _ _ x))))
               else (w, Aborted UnexpectedPeerStatic).
Proof.
  intros Hw. destruct (xx_messages _ _ x) as (_ & _ & Hm3). unfold after_m2. unfold mbind, handshake_bind.
  rewrite verifyPeerStatic_spec. case_bool_decide; [|done].
  destruct (send_fine "-> s, se" (m3 _ _ x) w Hw Hm3) as [-> _]. cbn. by rewrite (xx_key _ _ x).
Qed.

(** What the responder does after it has sent the second message. *)
Definition after_m1 : handshake (noiseConn (Tx := Cs) (Rx := Cs)) :=
  msg3 ← receive "<- s, se";
  '(rx, tx, hs) ← package "<- s, se" (ReadMessage (r2 _ _ x) msg3);
  _ ← verifyPeerStatic (PeerStatic hs) pr;
  finish tx rx hs.

Lemma responder_m1 w rest : fine w -> flat (segs w) = frame_of (m1 _ _ x) ++ rest ->
  exists w', responderHandshake pr w = after_m1 w' /\ fine w' /\ flat (segs w') = rest /\ sent w' = sent w ++ frame_of (m2 _ _ x).
Proof.
  intros Hw Hf. destruct (xx_init _ _ x) as [_ Hi], (xx_1 _ _ x) as [_ H1], (xx_2 _ _ x) as [H2 _].
  destruct (xx_messages _ _ x) as (Hm1 & Hm2 & _).
  destruct (receive_fine "<- e" (m1 _ _ x) rest w Hw Hm1 Hf) as (w1 & Hr & Hw1 & Hf1 & Hs1).
  destruct (send_fine "-> e, ee, s, es" (m2 _ _ x) w1 Hw1 Hm2) as [Hsend Hw2].
  eexists. split; [|split; [exact Hw2|split; [exact Hf1|cbn; by rewrite Hs1]]].
  unfold responderHandshake. erewrite bind_step; [|unfold init; by rewrite Hi].
  erewrite bind_step; [|exact Hr]. erewrite bind_step; [|rewrite H1; reflexivity]. cbv beta iota.
  erewrite bind_step; [|rewrite H2; reflexivity]. cbv beta iota. erewrite bind_step; [reflexivity|exact Hsend].
Qed.

Lemma after_m1_waits w : fine w -> flat (segs w) = [] -> after_m1 w = (w, Pending).
Proof. intros Hw Hf. unfold after_m1. unfold mbind, handshake_bind at 1. by rewrite receive_nothing. Qed.

Lemma after_m1_m3 w : fine w -> flat (segs w) = frame_of (m3 _ _ x) ->
  exists w', fine w' /\ flat (segs w') = [] /\ sent w' = sent w /\
    after_m1 w = (w', if bool_decide (accepted pr (PeerStatic (r3 _ _ x)))
                      then Done (newNoiseConn w' (r_tx _ _ x) (r_rx _ _ x) (PeerStatic (r3 _ _ x)))
                      else Aborted UnexpectedPeerStatic).
Proof.
  intros Hw Hf. destruct (xx_3 _ _ x) as [_ H3], (xx_messages _ _ x) as (_ & _ & Hm3).
  destruct (receive_fine "<- s, se" (m3 _ _ x) [] w Hw Hm3) as (w1 & Hr & Hw1 & Hf1 & Hs1); [by rewrite app_nil_r|].
  exists w1. split_and!; try done. unfold after_m1. erewrite bind_step; [|exact Hr].
  erewrite bind_step; [|rewrite H3; reflexivity]. cbv beta iota. unfold mbind, handshake_bind.
  rewrite verifyPeerStatic_spec. by case_bool_decide.
Qed.

(** A call never takes back what was sent. *)
Definition grows {A} (m : handshake A) : Prop := forall w, sent w `prefix_of` sent (m w).1.

Lemma grows_bind {A B} (m : handshake A) (f : A -> handshake B) : grows m -> (forall a, grows (f a)) -> grows (m ≫= f).
Proof.
  intros Hm Hf w. unfold mbind, handshake_bind. specialize (Hm w). destruct (m w) as [w1 [a|e|]]; cbn in *; [|done..].
  etrans; [done|apply Hf].
Qed.

Lemma grows_writeAll w p : sent w `prefix_of` sent (writeAll w p).1.
Proof.
  unfold writeAll. destruct (negb (is_open w) && negb (bool_decide (p = []))); [done|].
  destruct (write_all (answers w) p) as [[l s] e]. cbn. by apply prefix_app_r.
Qed.

Lemma grows_send name msg : grows (send name msg).
Proof.
  intros w. unfold send, writeFrame. destruct (_ >? MaxMsgLen); [done|].
  pose proof (grows_writeAll w (PutUint32 (wrap_uint32 (Z.of_nat (length msg))))) as H1.
  destruct (writeAll w (PutUint32 (wrap_uint32 (Z.of_nat (length msg))))) as [w1 [e|]]; [done|].
  pose proof (grows_writeAll w1 msg) as H2. cbn in *. destruct (writeAll w1 msg) as [w2 [e|]]; cbn in *; by etrans.
Qed.

Lemma ReadFull_sent n w : sent (ReadFull n w).1 = sent w.
Proof. unfold ReadFull. destruct (negb (is_open w)); [done|]. by destruct (read_full n [] (segs w)) as [l [b|e|]]. Qed.

Lemma grows_receive name : grows (receive name).
Proof.
  intros w. unfold receive, readFrame. pose proof (ReadFull_sent (Z.to_nat NoiseHeaderSize) w) as H1.
  destruct (ReadFull (Z.to_nat NoiseHeaderSize) w) as [w1 [hdr|e|]]; cbn in *; [|by rewrite H1|done].
  destruct (check_length (Uint32 hdr)); [cbn; by rewrite H1|]. pose proof (ReadFull_sent (Z.to_nat (Uint32 hdr)) w1) as H2.
  destruct (ReadFull (Z.to_nat (Uint32 hdr)) w1) as [w2 [b|e|]]; cbn in *; [by rewrite H2, H1..|done].
Qed.

Lemma grows_pure {A} (m : handshake A) : (forall w, (m w).1 = w) -> grows m.
Proof. intros Hm w. by rewrite Hm. Qed.

Lemma initiator_sends w : fine w -> sent w ++ frame_of (m1 _ _ x) `prefix_of` sent (initiatorHandshake pi w).1.
Proof.
  intros Hw. rewrite initiator_start by done.
  assert (forall (m : handshake (noiseConn (Tx := Cs) (Rx := Cs))), grows m ->
    sent w ++ frame_of (m1 _ _ x) `prefix_of` sent (m (set_sent w (sent w ++ frame_of (m1 _ _ x)))).1) as Hgrows by (intros m Hm; apply Hm).
  apply Hgrows. clear Hgrows.
  apply grows_bind; [apply grows_receive|]. intros msg2. apply grows_bind; [apply grows_pure; intros w'; by destruct (ReadMessage _ _)|].
  intros [[a b] hs]. apply grows_bind; [apply grows_pure; intros w'; by rewrite verifyPeerStatic_spec|]. intros u.
  apply grows_bind; [apply grows_pure; intros w'; by destruct (WriteMessage _)|]. intros [[[m t] r] hs'].
  apply grows_bind; [apply grows_send|]. intros u'. apply grows_pure. intros w'. by destruct t, r.
Qed.

(** After the second message the responder sends nothing. *)
Lemma after_m1_sends w : sent (after_m1 w).1 = sent w.
Proof.
  assert (forall name v, sent (receive name v).1 = sent v) as Hrec.
  { intros name v. unfold receive, readFrame. pose proof (ReadFull_sent (Z.to_nat NoiseHeaderSize) v) as H1.
    destruct (ReadFull (Z.to_nat NoiseHeaderSize) v) as [v1 [hdr|e|]]; cbn in H1; [|done..].
    destruct (check_length (Uint32 hdr)); [done|]. pose proof (ReadFull_sent (Z.to_nat (Uint32 hdr)) v1) as H2.
    destruct (ReadFull (Z.to_nat (Uint32 hdr)) v1) as [v2 [b|e|]]; cbn in *; congruence. }
  unfold after_m1. unfold mbind, handshake_bind. specialize (Hrec "<- s, se" w).
  destruct (receive "<- s, se" w) as [w1 [msg3|e|]]; cbn in Hrec; [|done..].
  destruct (ReadMessage (r2 _ _ x) msg3) as [[[t r] hs]|e]; [|done]. cbn. rewrite verifyPeerStatic_spec.
  case_bool_decide; [|done]. by destruct t, r.
Qed.

Lemma established_sent h w w' o : established h w = (w', o) -> sent w' = sent (h w).1.
Proof. unfold established. destruct (h w) as [w1 [nc|e|]]; by intros [= <- <-]. Qed.

(** C17: when each end of a connection receives what the other has sent, in whichever segments, the outcome of the handshake
    depends only on the keys that are expected. If the initiator expects the key of the responder, or none, it has a
    connection; then the responder has one if it expects the key of the initiator, or none, and otherwise closes the
    network connection. If the initiator expects another key it closes the network connection, and the responder has
    not learned of it: it waits for the third message. Ends that both have a connection have it with the ciphers of the
    run and with nothing left over of the handshake. *)
Theorem handshakes_agree wi wr wi' wr' oi orr :
  fine wi -> fine wr -> sent wi = [] -> sent wr = [] -> Dial pi wi = (wi', oi) -> Accept pr wr = (wr', orr) ->
  flat (segs wi) = sent wr' -> flat (segs wr) = sent wi' ->
  if bool_decide (accepted pi (PeerStatic (i2 _ _ x)))
  then oi = Done (newNoiseConn wi' (i_tx _ _ x) (i_rx _ _ x) (PeerStatic (i2 _ _ x))) /\ flat (segs wi') = [] /\ fine wi' /\
       if bool_decide (accepted pr (PeerStatic (r3 _ _ x)))
       then orr = Done (newNoiseConn wr' (r_tx _ _ x) (r_rx _ _ x) (PeerStatic (r3 _ _ x))) /\ flat (segs wr') = [] /\ fine wr'
       else orr = Aborted UnexpectedPeerStatic /\ is_open wr' = false
  else oi = Aborted UnexpectedPeerStatic /\ is_open wi' = false /\ orr = Pending.
Proof.
  intros Hwi Hwr Hsi Hsr Hd Ha Hfi Hfr. pose proof (established_sent _ _ _ _ Hd) as Hdi. pose proof (established_sent _ _ _ _ Ha) as Hda.
  destruct (initiator_sends wi Hwi) as [rest Hrest]. rewrite Hsi, app_nil_l in Hrest.
  destruct (responder_m1 wr rest Hwr) as (w1 & Hr1 & Hw1 & Hf1 & Hs1); [by rewrite Hfr, Hdi|]. rewrite Hsr, app_nil_l in Hs1.
  assert (sent (after_m1 w1).1 = frame_of (m2 _ _ x)) as Hm2 by (by rewrite after_m1_sends).
  destruct (initiator_m2 wi [] Hwi) as (w2 & Hi2 & Hw2 & Hf2 & Hs2); [by rewrite app_nil_r, Hfi, Hda, Hr1|]. rewrite Hsi, app_nil_l in Hs2.
  rewrite after_m2_spec in Hi2 by done. unfold Dial, established in Hd. unfold Accept, established in Ha.
  rewrite Hi2 in Hd, Hrest. rewrite Hr1 in Ha. revert Hd Hrest. case_bool_decide as Hacc; cbn [fst sent set_sent]; intros Hd Hrest.
  - injection Hd as <- <-. rewrite Hs2 in Hrest. apply app_inv_head in Hrest.
    split; [done|]. split; [done|]. split; [by destruct Hw2|].
    destruct (after_m1_m3 w1 Hw1) as (w3 & Hw3 & Hf3 & Hs3 & Hr3); [by rewrite Hf1, <-Hrest|]. rewrite Hr3 in Ha.
    case_bool_decide; injection Ha as <- <-; done.
  - injection Hd as <- <-. rewrite Hs2 in Hrest. rewrite <-(app_nil_r (frame_of (m1 _ _ x))) in Hrest at 1. apply app_inv_head in Hrest.
    rewrite after_m1_waits in Ha by (by rewrite ?Hf1, <-?Hrest). by injection Ha as <- <-.
Qed.

End Agreement.

End Handshake.

(** ** Evaluation *)

(** A handshake without cryptography: every message is the key of its sender. *)
Record toy_state := { toy_initiator : bool; toy_step : nat; toy_own : bytes; toy_peer : bytes }.

Definition toy_new (p : NoiseParams (DHKey := bytes)) (initiator : bool) : result string toy_state :=
  Ok {| toy_initiator := initiator; toy_step := 0; toy_own := LocalStatic p; toy_peer := [] |}.

Definition toy_cipher (n step : nat) : option nat := if bool_decide (step = 2)%nat then Some n else None.

Definition toy_write (s : toy_state) : result string (bytes * option nat * option nat * toy_state) :=
  Ok (toy_own s, toy_cipher 1 (toy_step s), toy_cipher 2 (toy_step s),
      {| toy_initiator := toy_initiator s; toy_step := S (toy_step s); toy_own := toy_own s; toy_peer := toy_peer s |}).

Definition toy_read (s : toy_state) (msg : bytes) : result string (option nat * option nat * toy_state) :=
  Ok (toy_cipher 1 (toy_step s), toy_cipher 2 (toy_step s),
      {| toy_initiator := toy_initiator s; toy_step := S (toy_step s); toy_own := toy_own s; toy_peer := msg |}).

Definition endpoint (own expected : bytes) : NoiseParams (DHKey := bytes) :=
  {| LocalStatic := own; Prologue := []; ExpectedPeerStatic := expected |}.

Definition toy_run : xx_run toy_new toy_write toy_read toy_peer (endpoint hello world) (endpoint world []).
Proof.
  simple refine {| m1 := hello; m2 := world; m3 := hello; i_tx := 1%nat; i_rx := 2%nat; r_rx := 1%nat; r_tx := 2%nat |}.
  all: try (split_and!; (reflexivity || (split; [discriminate|vm_compute; discriminate]))).
  reflexivity.
Defined.

Definition engine_wire : wire := new_wire [Data (take 6 (frame_of world)); Data (drop 6 (frame_of world))] [].
Definition agent_wire : wire := new_wire [Data (frame_of hello ++ frame_of hello)] [].

Lemma handshakes_agree_witness :
  (Dial toy_new toy_write toy_read toy_peer (endpoint hello world) engine_wire).2 =
    Done (newNoiseConn (Dial toy_new toy_write toy_read toy_peer (endpoint hello world) engine_wire).1 1%nat 2%nat world) /\
  (Accept toy_new toy_write toy_read toy_peer (endpoint world []) agent_wire).2 =
    Done (newNoiseConn (Accept toy_new toy_write toy_read toy_peer (endpoint world []) agent_wire).1 2%nat 1%nat hello).
Proof.
  assert (fine engine_wire) as Hi by (split; [reflexivity|reflexivity|repeat constructor]).
  assert (fine agent_wire) as Hr by (split; [reflexivity|reflexivity|repeat constructor]).
  pose proof (handshakes_agree toy_new toy_write toy_read toy_peer toy_run engine_wire agent_wire _ _ _ _ Hi Hr
    eq_refl eq_refl (surjective_pairing _) (surjective_pairing _)) as H.
  destruct (H ltac:(vm_compute; reflexivity) ltac:(vm_compute; reflexivity)) as (Hi' & _ & _ & Hr' & _).
  split; [exact Hi'|exact Hr'].
Defined.

Lemma no_connection_with_a_stranger_witness :
  (exists nc, (Dial toy_new toy_write toy_read toy_peer (endpoint hello world) engine_wire).2 = Done nc /\ peer_static nc = world) /\
  (Dial toy_new toy_write toy_read toy_peer (endpoint hello hello) engine_wire).2 = Aborted UnexpectedPeerStatic.
Proof.
  split; [|vm_compute; reflexivity].
  destruct (Dial toy_new toy_write toy_read toy_peer (endpoint hello world) engine_wire) as [w [nc|e|]] eqn:Hd;
    [|vm_compute in Hd; discriminate|vm_compute in Hd; discriminate].
  exists nc. split; [reflexivity|].
  assert (forall hs m tx rx hs', toy_write hs = Ok (m, tx, rx, hs') -> toy_peer hs' = toy_peer hs) as Hkeep by (intros hs m t r hs' [= _ _ _ <-]; reflexivity).
  destruct (no_connection_with_a_stranger toy_new toy_write toy_read toy_peer true (endpoint hello world) engine_wire w nc Hkeep Hd) as [[H|H] _].
  - discriminate H.
  - exact H.
Defined.
