(* ===== verification/Targets.v ===== *)
(** * Performix: the targets a user has configured

    Models [core/apap-engine/target] ([target.go], [jsontarget.go], [conversion.go] and the manager
    of [config.go]) and the conversion of targets to and from the API in
    [grpcserver/conversion.go]. The manager keeps named targets and the name of a default in one
    file; the local host is not in it, but appears whenever the file is read. The text of the
    file is what [encoding/json] makes of a value; that it reads back what it wrote is a
    hypothesis ([TargetText]). Keys of JSON objects are compared exactly. *)

From S2P Require Import Prelude.
From S2P Require Import GoStrings.
From S2P Require Import Sorting.
From S2P Require Import Json.
From S2P Require Import FilePaths.
From S2P Require Import Disk.
From Stdlib Require Import Ascii.

Local Open Scope Z_scope.

(** ** Targets *)

Definition LocalhostName : string := "localhost".

(** [HostKeyPolicy] and [SSHAuthMethod] are integers with these values. *)
Definition IgnoreHostKey : Z := 0.
Definition RejectHostKeyIfMissing : Z := 1.
Definition AcceptNewHost : Z := 2.
Definition AskNewHost : Z := 3.
Definition SSHAuthMethodKey : Z := 0.
Definition SSHAuthMethodPassword : Z := 1.

Record SSHHostConfig := {
  Host : string;
  Port : Z;
  Username : string;
  PrivateKeyFilename : string;
  hostKeyPolicy : Z;
  AuthMethod : Z
}.

Inductive Target :=
| SSHTarget (Jumps : list SSHHostConfig)
| LocalTarget
| AndroidTarget (SerialNumber : string) (DeviceIPAddress : option string).

#[export] Instance SSHHostConfig_eq_dec : EqDecision SSHHostConfig.
Proof. solve_decision. Defined.

#[export] Instance Target_eq_dec : EqDecision Target.
Proof. solve_decision. Defined.

Definition zero_host : SSHHostConfig :=
  {| Host := EmptyString; Port := 0; Username := EmptyString; PrivateKeyFilename := EmptyString; hostKeyPolicy := 0; AuthMethod := 0 |}.

Definition LastJump (Jumps : list SSHHostConfig) : SSHHostConfig := default zero_host (last Jumps).
Definition ReadKnownHostsPolicy (Jumps : list SSHHostConfig) : Z := hostKeyPolicy (LastJump Jumps).

Definition defaultSSHPort : Z := 22.

Definition DisplayString (c : SSHHostConfig) : string :=
  (if bool_decide (Username c = EmptyString) then "<unknown>" else Username c) +:+ "@" +:+
  (if bool_decide (Host c = EmptyString) then "<unknown>" else Host c) +:+
  (if Port c =? defaultSSHPort then EmptyString else ":" +:+ Itoa (Port c)).

Definition DisplayHost (t : Target) : string :=
  match t with
  | SSHTarget jumps => DisplayString (LastJump jumps)
  | LocalTarget => LocalhostName
  | AndroidTarget serial _ => if bool_decide (serial = EmptyString) then "<unknown>" else serial
  end.

(** The directory of a target under that of the temporary data; [current] is the name of the
    user, if it can be had. *)
Definition GetUserDataDirectoryName (current : result string string) (t : Target) : result string string :=
  match t with
  | SSHTarget [] => Err "cannot generate user data directory name: missing host configuration"
  | SSHTarget jumps =>
      if bool_decide (Username (LastJump jumps) = EmptyString) then Err "cannot generate user data directory name: missing user name"
      else Ok (Username (LastJump jumps))
  | LocalTarget => match current with Ok n => Ok n | Err e => Err ("cannot get user data directory name: " +:+ e) end
  | AndroidTarget serial _ =>
      if bool_decide (serial = EmptyString) then Err "cannot generate user data directory name: missing Android serial number" else Ok serial
  end.

Definition ApplyDefaults (current : result string string) (c : SSHHostConfig) : SSHHostConfig :=
  {| Host := Host c; Port := if Port c =? 0 then defaultSSHPort else Port c;
     Username := match current with Ok n => if bool_decide (Username c = EmptyString) then n else Username c | Err _ => Username c end;
     PrivateKeyFilename := PrivateKeyFilename c; hostKeyPolicy := hostKeyPolicy c; AuthMethod := AuthMethod c |}.

(** [String] of a target *)
Definition target_String (t : Target) : string :=
  match t with
  | SSHTarget jumps =>
      DisplayHost t +:+
      (if (1 <? length jumps)%nat then " (via " +:+ Join ", " (reverse (DisplayString <$> removelast jumps)) +:+ ")" else EmptyString)
  | LocalTarget => DisplayHost t
  | AndroidTarget _ ip =>
      match ip with
      | None | Some EmptyString => DisplayHost t
      | Some a => DisplayHost t +:+ " (" +:+ a +:+ ")"
      end
  end.

(** ** JSON *)

Definition policy_text (p : Z) : string :=
  if p =? IgnoreHostKey then "ignore" else if p =? RejectHostKeyIfMissing then "strict"
  else if p =? AcceptNewHost then "accept-new" else if p =? AskNewHost then "ask" else EmptyString.

Definition policy_of_text (s : string) : Z :=
  if bool_decide (s = "ignore") then IgnoreHostKey else if bool_decide (s = "accept-new") then AcceptNewHost
  else if bool_decide (s = "ask") then AskNewHost else RejectHostKeyIfMissing.

Definition auth_text (m : Z) : string :=
  if m =? SSHAuthMethodKey then "key" else if m =? SSHAuthMethodPassword then "password" else EmptyString.

Definition auth_of_text (s : string) : Z := if bool_decide (s = "password") then SSHAuthMethodPassword else SSHAuthMethodKey.

Definition json_of_host (h : SSHHostConfig) : json :=
  JObject [("host", JString (Host h)); ("port", JInt (Port h)); ("username", JString (Username h));
           ("private_key_filename", JString (PrivateKeyFilename h)); ("host_key_policy", JString (policy_text (hostKeyPolicy h)));
           ("authentication_method", JString (auth_text (AuthMethod h)))].

(** A [JSONTarget], whose three kinds have the fields of the engine's; [None] is a nil value. A
    nil slice is written as null. *)
Definition JSONTarget := option Target.

Definition json_of_target (t : JSONTarget) : json :=
  match t with
  | None => JObject [("type", JString EmptyString); ("value", JNull)]
  | Some (SSHTarget jumps) =>
      JObject [("type", JString "ssh"); ("value", JObject [("jumps", match jumps with [] => JNull | _ => JArray (json_of_host <$> jumps) end)])]
  | Some LocalTarget => JObject [("type", JString "local"); ("value", JObject [])]
  | Some (AndroidTarget serial ip) =>
      JObject [("type", JString "android");
               ("value", JObject (("serial_number", JString serial) :: match ip with None => [] | Some a => [("device_ip_address", JString a)] end))]
  end.

(** A value of the wrong kind is an error; null leaves what is there; the last of equal keys
    counts. *)
Definition field (k : string) (fields : list (string * json)) : option json :=
  foldl (fun found kv => if (kv.1 =? k)%string then Some kv.2 else found) None fields.

Definition as_object (j : json) : option (list (string * json)) :=
  match j with JObject l => Some l | JNull => Some [] | _ => None end.

Definition string_field (k : string) (fields : list (string * json)) : option string :=
  match field k fields with None | Some JNull => Some EmptyString | Some (JString s) => Some s | _ => None end.

Definition int32_field (k : string) (fields : list (string * json)) : option Z :=
  match field k fields with
  | None | Some JNull => Some 0
  | Some (JInt n) => if int_in_range 32 n then Some n else None
  | _ => None
  end.

(** A field with an [UnmarshalJSON] of its own, which is not called when the field is absent, and
    which reads null as the empty string. *)
Definition text_field (k : string) (of_text : string -> Z) (fields : list (string * json)) : option Z :=
  match field k fields with None => Some 0 | Some JNull => Some (of_text EmptyString) | Some (JString s) => Some (of_text s) | _ => None end.

Definition host_of_json (j : json) : option SSHHostConfig :=
  fields ← as_object j;
  h ← string_field "host" fields; p ← int32_field "port" fields; u ← string_field "username" fields;
  k ← string_field "private_key_filename" fields; policy ← text_field "host_key_policy" policy_of_text fields;
  auth ← text_field "authentication_method" auth_of_text fields;
  Some {| Host := h; Port := p; Username := u; PrivateKeyFilename := k; hostKeyPolicy := policy; AuthMethod := auth |}.

(** [UnmarshalJSON] of a target: without a type it is of the first version of the file. *)
Definition target_of_v1 (fields : list (string * json)) : option JSONTarget :=
  h ← string_field "host" fields; p ← int32_field "port" fields; u ← string_field "user" fields; k ← string_field "key" fields;
  Some (Some (SSHTarget [{| Host := h; Port := p; Username := u; PrivateKeyFilename := k; hostKeyPolicy := RejectHostKeyIfMissing;
                            AuthMethod := SSHAuthMethodKey |}])).

Definition value_of_json (type : string) (value : list (string * json)) : option Target :=
  if (type =? "ssh")%string then
    match field "jumps" value with
    | None | Some JNull => Some (SSHTarget [])
    | Some (JArray l) => SSHTarget <$> mapM host_of_json l
    | _ => None
    end
  else if (type =? "local")%string then Some LocalTarget
  else if (type =? "android")%string then
    serial ← string_field "serial_number" value;
    match field "device_ip_address" value with
    | None | Some JNull => Some (AndroidTarget serial None)
    | Some (JString a) => Some (AndroidTarget serial (Some a))
    | _ => None
    end
  else None.

Definition target_of_json (j : json) : option JSONTarget :=
  fields ← as_object j;
  type ← string_field "type" fields;
  if (type =? EmptyString)%string then target_of_v1 fields
  else match field "value" fields with
       | Some JNull => _ ← value_of_json type []; Some None
       | None => Some <$> value_of_json type []
       | Some (JObject l) => Some <$> value_of_json type l
       | _ => None
       end.

(** ** Validation *)

Inductive target_error :=
| EngineTargetConfigNameReserved (name : string) | EngineTargetConfigInvalidHostFormat (host node : string)
| EngineCommonInvalidPortFormat (port : Z) (node : string) | InvalidKey (e : string)
| EngineTargetConfigLocalhostAlreadyExists | EngineTargetConfigCreateFailure | EngineTargetConfigReadFailure
| EngineTargetConfigParseFailure | EngineTargetConfigParseTargetFailure | EngineTargetConfigWriteFailure
| EngineTargetConfigMissingDefault | EngineTargetConfigDoesNotExist (name : string) | EngineTargetConfigAlreadyExists (name : string)
| EngineTargetConfigCannotRemoveReserved (name : string) | EngineTargetConfigInvalidFormat.

Definition isNameReserved (name : string) : bool := bool_decide (name = LocalhostName).

(** The class of the pattern of [validateHost], on bytes: those beyond ASCII are accepted. *)
Definition host_byte (c : ascii) : bool :=
  (byte_of c >? 32) && negb (existsb (Ascii.eqb c) ["'"; dquote; "$"; "\"; ";"; "&"; "<"; ">"; "|"; "("; ")"; "{"; "}"]%char).

Definition validateHost (jump : SSHHostConfig) : result target_error () :=
  let invalid := Err (EngineTargetConfigInvalidHostFormat (Host jump) (DisplayString jump)) in
  if HasPrefix (Host jump) "-" then invalid
  else if negb (bool_decide (Host jump = EmptyString)) && sall host_byte (Host jump) then Ok tt else invalid.

Definition validatePort (jump : SSHHostConfig) : result target_error () :=
  if Port jump <=? 0 then Err (EngineCommonInvalidPortFormat (Port jump) (DisplayString jump)) else Ok tt.

(** [strings.ContainsAny(s, "\x00\t\n\r ")] and more than one colon *)
Definition bad_address (s : string) : bool :=
  negb (sall (fun c => negb (existsb (fun b => byte_of c =? b) [0; 9; 10; 13; 32])) s) || (1 <? CountByte s ":").

Definition invalid_android {A} (host : string) : result target_error A :=
  Err (EngineTargetConfigInvalidHostFormat host "Android target").

Section Manager.

(** [ValidateSSHKey] on the file system of the engine; whether the local host is supported; the
    file of the configuration, and what the disk refuses. *)
Context (ValidateSSHKey : string -> option string) (IsLocalhostSupported : bool).
Context (file : list string) (f : faults).

Definition validateKey (jump : SSHHostConfig) : result target_error () :=
  if bool_decide (PrivateKeyFilename jump = EmptyString) then Ok tt
  else match ValidateSSHKey (PrivateKeyFilename jump) with Some e => Err (InvalidKey e) | None => Ok tt end.

(** [Validate] of a target *)
Definition Validate (t : Target) (name : string) : result target_error () :=
  if isNameReserved name then Err (EngineTargetConfigNameReserved name)
  else match t with
       | SSHTarget jumps => for_each (fun jump => _ ← validateHost jump; _ ← validatePort jump; validateKey jump) jumps
       | LocalTarget => Ok tt
       | AndroidTarget serial ip =>
           if bool_decide (serial = EmptyString) then invalid_android EmptyString
           else if HasPrefix serial "-" || bad_address serial then invalid_android serial
           else match ip with
                | None | Some EmptyString => Ok tt
                | Some a => if HasPrefix a "-" || bad_address a then invalid_android (serial +:+ "@" +:+ a) else Ok tt
                end
       end.

(** ** The file *)

Class TargetText := {
  indent : json -> string;                   (* [json.MarshalIndent] *)
  parse : string -> option json;             (* the syntax that [json.Unmarshal] accepts *)
  survives : json -> Prop;                   (* the texts in it are valid UTF-8 *)
  parse_indent j : survives j -> parse (indent j) = Some j;
  indent_nonblank j : TrimSpace (indent j) <> EmptyString
}.
Context `{TargetText}.

Record TargetConfig := { SchemaVersion : string; Default : string; Targets : gmap string Target }.

Definition empty_config : TargetConfig := {| SchemaVersion := EmptyString; Default := EmptyString; Targets := ∅ |}.
Definition targetsSchemaV1 : string := "1.0.0".

Definition with_default (n : string) (c : TargetConfig) : TargetConfig :=
  {| SchemaVersion := SchemaVersion c; Default := n; Targets := Targets c |}.
Definition with_targets (m : gmap string Target) (c : TargetConfig) : TargetConfig :=
  {| SchemaVersion := SchemaVersion c; Default := Default c; Targets := m |}.

(** The decoding of the file: the map of targets, then their conversion ([EngineTargetFromJSON],
    which refuses a nil value). *)
Definition json_targets (fields : list (string * json)) : option (list (string * JSONTarget)) :=
  match field "targets" fields with
  | None | Some JNull => Some []
  | Some (JObject l) => mapM (fun kv => pair kv.1 <$> target_of_json kv.2) l
  | _ => None
  end.

Definition EngineTargetFromJSON (t : JSONTarget) : result target_error Target := or_err EngineTargetConfigParseTargetFailure t.

Definition engine_targets (m : gmap string JSONTarget) : result target_error (gmap string Target) :=
  if bool_decide (map_Forall (fun _ t => is_Some t) m) then Ok (omap id m) else Err EngineTargetConfigParseTargetFailure.

Definition config_of_text (data : string) : result target_error TargetConfig :=
  if bool_decide (TrimSpace data = EmptyString) then Ok empty_config
  else
    '(schema, dflt, l) ← or_err EngineTargetConfigParseFailure
      (j ← parse data; fields ← as_object j; schema ← string_field "schema_version" fields; dflt ← string_field "default" fields;
       l ← json_targets fields; Some (schema, dflt, l));
    m ← engine_targets (foldl (fun m kv => <[kv.1 := kv.2]> m) ∅ l);
    Ok {| SchemaVersion := schema; Default := dflt; Targets := m |}.

(** [json.MarshalIndent] sorts the keys of a map. *)
Definition json_of_config (c : TargetConfig) : json :=
  JObject ((if bool_decide (SchemaVersion c = EmptyString) then [] else [("schema_version", JString (SchemaVersion c))]) ++
           [("default", JString (Default c));
            ("targets", JObject ((fun kv => (kv.1, json_of_target (Some kv.2))) <$> sort_by (asc_string fst) (map_to_list (Targets c))))]).

Definition op (A : Type) : Type := disk -> disk * result target_error A.

#[export] Instance op_ret : MRet op := fun A a d => (d, Ok a).
#[export] Instance op_bind : MBind op := fun A B k m d => match m d with (d', Ok a) => k a d' | (d', Err e) => (d', Err e) end.

Definition lift {A} (r : result target_error A) : op A := fun d => (d, r).

(** What [os.ReadFile] finds: another error than absence when an ancestor is a file. *)
Inductive file_answer := Contents (data : string) | Absent | Unreadable.

Definition read_file (d : disk) (p : list string) : file_answer :=
  match node_at d p with
  | Some (NFile data) => Contents data
  | Some NDir => Unreadable
  | None => if existsb (fun n => match node_at d (take n p) with Some (NFile _) => true | _ => false end) (seq 0 (length p)) then Unreadable else Absent
  end.

Definition readTargetConfigFile : op TargetConfig := fun d =>
  match read_file d file with
  | Contents data => (d, config_of_text data)
  | Unreadable => (d, Err EngineTargetConfigReadFailure)
  | Absent => match MkdirAll f (parent file) d with
              | (d', true) => (d', Ok empty_config)
              | (d', false) => (d', Err EngineTargetConfigCreateFailure)
              end
  end.

Definition AddLocalHostToTargetConfig (c : TargetConfig) : TargetConfig :=
  let m := <[LocalhostName := LocalTarget]> (Targets c) in
  {| SchemaVersion := SchemaVersion c; Default := if bool_decide (is_Some (m !! Default c)) then Default c else LocalhostName; Targets := m |}.

Definition ReadTargetConfig : op TargetConfig :=
  config ← readTargetConfigFile;
  if bool_decide (is_Some (Targets config !! LocalhostName)) then lift (Err EngineTargetConfigLocalhostAlreadyExists)
  else mret (if IsLocalhostSupported then AddLocalHostToTargetConfig config else config).

(** Only remote targets are written. *)
Definition stored_config (c : TargetConfig) : TargetConfig :=
  {| SchemaVersion := if bool_decide (SchemaVersion c = EmptyString) then targetsSchemaV1 else SchemaVersion c;
     Default := Default c;
     Targets := filter (fun kv => kv.2 <> LocalTarget) (Targets c) |}.

Definition writeTargetConfig (c : TargetConfig) : op () := fun d =>
  match WriteFile f file (indent (json_of_config (stored_config c))) d with
  | (d', true) => (d', Ok tt)
  | (d', false) => (d', Err EngineTargetConfigWriteFailure)
  end.

(** ** The operations *)

Definition GetDefaultTarget : op Target :=
  config ← ReadTargetConfig; lift (or_err EngineTargetConfigMissingDefault (Targets config !! Default config)).

(** [IsJSON] and [TryUnmarshalJSONTargetString], whose result is an error or a target, if any. *)
Definition TryUnmarshalJSONTargetString (tgtString : string) : result target_error (option Target) :=
  let trimmed := TrimSpace tgtString in
  if negb (bool_decide (trimmed = EmptyString)) && bool_decide (is_Some (parse trimmed)) && (HasPrefix trimmed "{" || HasPrefix trimmed "[")
  then Some <$> or_err EngineTargetConfigInvalidFormat (j ← parse tgtString; t ← target_of_json j; t)
  else Ok None.

Definition GetTarget (targetName : string) : op Target :=
  _ ← lift (TryUnmarshalJSONTargetString targetName);
  config ← ReadTargetConfig;
  lift (if bool_decide (targetName = EmptyString)
        then or_err EngineTargetConfigMissingDefault (Targets config !! Default config)
        else or_err (EngineTargetConfigDoesNotExist targetName) (Targets config !! targetName)).

Definition GetDefaultTargetName : op string :=
  config ← ReadTargetConfig;
  lift (if bool_decide (Default config = EmptyString) then Err EngineTargetConfigMissingDefault else Ok (Default config)).

(** The changes of a configuration, between reading and writing it. *)
Definition add_target (name : string) (newTarget : Target) (config : TargetConfig) : result target_error TargetConfig :=
  if bool_decide (is_Some (Targets config !! name)) then Err (EngineTargetConfigAlreadyExists name)
  else
    let dflt := if negb (bool_decide (is_Some (Targets config !! Default config))) || isNameReserved (Default config) then name else Default config in
    Ok (with_default dflt (with_targets (<[name := newTarget]> (Targets config)) config)).

Definition remove_target (targetName : string) (config : TargetConfig) : result target_error TargetConfig :=
  if negb (bool_decide (is_Some (Targets config !! targetName))) then Err (EngineTargetConfigDoesNotExist targetName)
  else if isNameReserved targetName then Err (EngineTargetConfigCannotRemoveReserved targetName)
  else Ok (with_default (if bool_decide (Default config = targetName) then EmptyString else Default config)
             (with_targets (delete targetName (Targets config)) config)).

Definition set_default (targetName : string) (config : TargetConfig) : result target_error TargetConfig :=
  if negb (bool_decide (is_Some (Targets config !! targetName))) then Err (EngineTargetConfigDoesNotExist targetName)
  else Ok (with_default targetName config).

Record UpdateTargetFields := { upd_Name : string; DefaultFlag : bool; UpdatedTarget : Target }.

Definition update_target (oldTargetName : string) (updateFields : UpdateTargetFields) (config : TargetConfig) : result target_error TargetConfig :=
  if negb (bool_decide (is_Some (Targets config !! oldTargetName))) then Err (EngineTargetConfigDoesNotExist oldTargetName)
  else
    let name := if bool_decide (upd_Name updateFields = EmptyString) then oldTargetName else upd_Name updateFields in
    if bool_decide (is_Some (Targets config !! name)) && negb (bool_decide (name = oldTargetName)) then Err (EngineTargetConfigAlreadyExists name)
    else
      _ ← Validate (UpdatedTarget updateFields) name;
      Ok (with_default (if DefaultFlag updateFields || bool_decide (Default config = oldTargetName) then name else Default config)
            (with_targets (<[name := UpdatedTarget updateFields]> (delete oldTargetName (Targets config))) config)).

Definition changing (change : TargetConfig -> result target_error TargetConfig) : op () :=
  config ← ReadTargetConfig; config ← lift (change config); writeTargetConfig config.

Definition AddTarget (name : string) (newTarget : Target) : op () := _ ← lift (Validate newTarget name); changing (add_target name newTarget).
Definition RemoveTarget (targetName : string) : op () := changing (remove_target targetName).
Definition RemoveAllTargets : op () := writeTargetConfig empty_config.
Definition SetDefaultTarget (targetName : string) : op () := changing (set_default targetName).
Definition UpdateTarget (oldTargetName : string) (updateFields : UpdateTargetFields) : op () := changing (update_target oldTargetName updateFields).

(** ** The file keeps what is written *)

Definition policy_ok (p : Z) : Prop := 0 <= p <= 3.
Definition auth_ok (m : Z) : Prop := 0 <= m <= 1.
Definition host_ok (h : SSHHostConfig) : Prop := policy_ok (hostKeyPolicy h) /\ auth_ok (AuthMethod h) /\ int_in_range 32 (Port h) = true.
Definition target_ok (t : Target) : Prop := match t with SSHTarget jumps => Forall host_ok jumps | _ => True end.

Lemma policy_of_text_text p : policy_ok p -> policy_of_text (policy_text p) = p.
Proof. intros Hp. assert (p = 0 \/ p = 1 \/ p = 2 \/ p = 3) as [->|[->|[->| ->]]] by (unfold policy_ok in Hp; lia); done. Qed.

Lemma auth_of_text_text m : auth_ok m -> auth_of_text (auth_text m) = m.
Proof. intros Hm. assert (m = 0 \/ m = 1) as [->| ->] by (unfold auth_ok in Hm; lia); done. Qed.

#[local] Arguments int_in_range : simpl never.
#[local] Arguments policy_text : simpl never.
#[local] Arguments policy_of_text : simpl never.
#[local] Arguments auth_text : simpl never.
#[local] Arguments auth_of_text : simpl never.

Lemma host_of_json_of_host h : host_ok h -> host_of_json (json_of_host h) = Some h.
Proof.
  intros (Hp & Ha & Hport).
  assert (host_of_json (json_of_host h) =
    (p ← (if int_in_range 32 (Port h) then Some (Port h) else None);
     Some {| Host := Host h; Port := p; Username := Username h; PrivateKeyFilename := PrivateKeyFilename h;
             hostKeyPolicy := policy_of_text (policy_text (hostKeyPolicy h)); AuthMethod := auth_of_text (auth_text (AuthMethod h)) |})) as ->.
  { cbv [host_of_json json_of_host as_object mbind option_bind]. change (int32_field "port" _) with (if int_in_range 32 (Port h) then Some (Port h) else None).
    by destruct (int_in_range 32 (Port h)). }
  rewrite Hport. cbn. rewrite policy_of_text_text, auth_of_text_text by done. by destruct h.
Qed.

Lemma mapM_hosts l : Forall host_ok l -> mapM host_of_json (json_of_host <$> l) = Some l.
Proof. induction 1 as [|h l Hh Hl IH]; [done|]. rewrite fmap_cons. cbn [mapM]. rewrite host_of_json_of_host by done. cbn. by rewrite IH. Qed.

Lemma target_of_json_of_target t : target_ok t -> target_of_json (json_of_target (Some t)) = Some (Some t).
Proof.
  intros Ht. destruct t as [[|h l]| |serial [ip|]]; try reflexivity.
  change (Some <$> (SSHTarget <$> mapM host_of_json (json_of_host <$> h :: l)) = Some (Some (SSHTarget (h :: l)))).
  by rewrite mapM_hosts.
Qed.

Lemma foldl_insert_lookup {A} (l : list (string * A)) : forall (m : gmap string A) k v, NoDup l.*1 ->
  foldl (fun m kv => <[kv.1 := kv.2]> m) m l !! k = Some v <-> (k, v) ∈ l \/ (k ∉ l.*1 /\ m !! k = Some v).
Proof.
  induction l as [|[k0 v0] l IH]; intros m k v; cbn.
  - intros _. rewrite elem_of_nil. split; [intros Hm; right; split; [by intros ?%elem_of_nil|done]|by intros [[]|[_ Hm]]].
  - intros [Hk0 Hl]%NoDup_cons. rewrite IH by done. rewrite lookup_insert_Some, elem_of_cons, not_elem_of_cons. split.
    + intros [Hin|(Hk & [[<- <-]|[Hne Hm]])]; [left; by right|left; by left|right]. split; [|done]. split; [|done]. congruence.
    + intros [[Heq|Hin]|([Hne Hk] & Hm)]; [|by left|].
      * injection Heq as -> ->. right. split; [done|]. by left.
      * right. split; [done|]. right. done.
Qed.

Definition config_ok (c : TargetConfig) : Prop := map_Forall (fun _ t => target_ok t) (Targets c).

Lemma json_targets_config c : config_ok c ->
  exists l, json_targets [("targets", JObject ((fun kv => (kv.1, json_of_target (Some kv.2))) <$> sort_by (asc_string fst) (map_to_list (Targets c))))] = Some l /\
    engine_targets (foldl (fun m kv => <[kv.1 := kv.2]> m) ∅ l) = Ok (Targets c).
Proof.
  intros Hc. pose proof (merge_sort_Permutation (not_after (asc_string fst)) (map_to_list (Targets c))) as Hperm.
  fold (sort_by (A := string * Target) (asc_string fst) (map_to_list (Targets c))) in Hperm.
  set (s := sort_by (asc_string fst) (map_to_list (Targets c))) in *.
  exists ((fun kv => (kv.1, Some kv.2)) <$> s). split.
  - change (mapM (fun kv => pair kv.1 <$> target_of_json kv.2) ((fun kv => (kv.1, json_of_target (Some kv.2))) <$> s) =
            Some ((fun kv => (kv.1, Some kv.2)) <$> s)).
    assert (Forall (fun kv => target_ok kv.2) s) as Hs.
    { apply Forall_forall. intros [k t] Hk. rewrite Hperm in Hk. apply elem_of_map_to_list in Hk. by apply (Hc k t). }
    apply mapM_Some. rewrite Forall2_fmap. apply Forall_Forall2_diag. eapply Forall_impl; [done|].
    intros [k t] Ht. cbn [fst snd] in *. by rewrite target_of_json_of_target.
  - set (m := foldl _ _ _). assert (m = Some <$> Targets c) as ->.
    { assert (NoDup s.*1) as Hnd by (rewrite Hperm; apply NoDup_fst_map_to_list).
      apply map_eq. intros k. apply option_eq. intros v. unfold m.
      rewrite foldl_insert_lookup by (by rewrite <-list_fmap_compose).
      rewrite lookup_empty, lookup_fmap, fmap_Some. split.
      - intros [([k' t] & [= -> ->] & Hin)%list_elem_of_fmap|[_ ?]]; [|done]. exists t. split; [|done].
        rewrite Hperm in Hin. by apply elem_of_map_to_list in Hin.
      - intros (t & Ht & ->). left. apply list_elem_of_fmap. exists (k, t). split; [done|]. rewrite Hperm. by apply elem_of_map_to_list. }
    unfold engine_targets. rewrite bool_decide_true.
    + f_equal. apply map_eq. intros k. rewrite lookup_omap, lookup_fmap. by destruct (Targets c !! k).
    + intros k t. rewrite lookup_fmap, fmap_Some. intros (t' & _ & ->). by eexists.
Qed.

Lemma config_of_text_json c : config_ok c -> survives (json_of_config c) -> config_of_text (indent (json_of_config c)) = Ok c.
Proof.
  intros Hc Hs. unfold config_of_text. rewrite bool_decide_false by apply indent_nonblank. rewrite parse_indent by done.
  destruct (json_targets_config c Hc) as (l & Hl & Hm). cbn [mbind option_bind].
  assert (forall schema, json_targets ((if bool_decide (schema = EmptyString) then [] else [("schema_version", JString schema)]) ++
    [("default", JString (Default c));
     ("targets", JObject ((fun kv => (kv.1, json_of_target (Some kv.2))) <$> sort_by (asc_string fst) (map_to_list (Targets c))))]) = Some l) as Hl'.
  { intros schema. rewrite <-Hl. by case_bool_decide. }
  unfold json_of_config. cbn [as_object mbind option_bind].
  assert (string_field "schema_version" ((if bool_decide (SchemaVersion c = EmptyString) then [] else [("schema_version", JString (SchemaVersion c))]) ++
    [("default", JString (Default c));
     ("targets", JObject ((fun kv => (kv.1, json_of_target (Some kv.2))) <$> sort_by (asc_string fst) (map_to_list (Targets c))))]) = Some (SchemaVersion c)) as ->
    by (case_bool_decide as E; [by rewrite E|done]).
  assert (string_field "default" ((if bool_decide (SchemaVersion c = EmptyString) then [] else [("schema_version", JString (SchemaVersion c))]) ++
    [("default", JString (Default c));
     ("targets", JObject ((fun kv => (kv.1, json_of_target (Some kv.2))) <$> sort_by (asc_string fst) (map_to_list (Targets c))))]) = Some (Default c)) as ->
    by (by case_bool_decide).
  cbn [mbind option_bind]. rewrite Hl'. cbn. rewrite Hm. cbn. by destruct c.
Qed.

(** ** What the file says *)

Context (file_named : file <> []).

Definition config_at (d : disk) : result target_error TargetConfig :=
  match read_file d file with
  | Contents data => config_of_text data
  | Absent => Ok empty_config
  | Unreadable => Err EngineTargetConfigReadFailure
  end.

Lemma mkdir_from_files rest : forall made d q s, (mkdir_from f made rest d).1 !! q = Some (NFile s) <-> d !! q = Some (NFile s).
Proof.
  induction rest as [|x rest IH]; intros made d q s; cbn [mkdir_from]; [done|].
  destruct (d !! (made ++ [x])) as [[t|]|] eqn:Hx; [done|apply IH|]. destruct (refuses f (made ++ [x])); [done|].
  rewrite IH, lookup_insert_Some. split; [intros [[_ ?]|[_ ?]]; done|]. intros Hq. right. split; [|done]. intros <-. congruence.
Qed.

Lemma node_at_file d q s : q <> [] -> node_at d q = Some (NFile s) <-> d !! q = Some (NFile s).
Proof. by destruct q. Qed.

Lemma node_at_lookup d q : q <> [] -> node_at d q = d !! q.
Proof. by destruct q. Qed.

Lemma readTargetConfigFile_spec d d' r : readTargetConfigFile d = (d', r) ->
  config_at d' = config_at d /\ (r = config_at d \/ r = Err EngineTargetConfigCreateFailure) /\
  forall q n, d !! q = Some n -> d' !! q = Some n.
Proof.
  unfold readTargetConfigFile, config_at. destruct (read_file d file) as [data| |] eqn:Hr; [by intros [= <- <-]; rewrite Hr; auto| |by intros [= <- <-]; rewrite Hr; auto].
  pose proof (MkdirAll_adds f (parent file) d) as Ha. pose proof (mkdir_from_files (parent file) [] d) as Hf.
  unfold MkdirAll in *. destruct (mkdir_from f [] (parent file) d) as [d1 ok]. destruct Ha as [Ha _]. cbn [fst] in Hf.
  assert (read_file d1 file = Absent) as Hab.
  { revert Hr. unfold read_file. destruct (node_at d file) as [[|]|] eqn:Hn; [done..|].
    assert (node_at d1 file = None) as ->.
    { destruct (Ha file) as [Heq|[_ [_ [k Hk]]]]; [rewrite (node_at_lookup d1 file), Heq, <-(node_at_lookup d file) by done; done|].
      apply (f_equal length) in Hk. rewrite length_app in Hk. unfold parent in Hk.
      pose proof (app_removelast_last EmptyString file_named) as Hl. apply (f_equal length) in Hl. rewrite length_app in Hl. cbn in Hl. lia. }
    destruct (existsb (fun n => match node_at d (take n file) with Some (NFile _) => true | _ => false end) (seq 0 (length file))) eqn:He; [done|].
    intros _. destruct (existsb (fun n => match node_at d1 (take n file) with Some (NFile _) => true | _ => false end) (seq 0 (length file))) eqn:He1; [|done].
    apply existsb_exists in He1 as (n & Hin & Hn1). destruct (node_at d1 (take n file)) as [[s|]|] eqn:Hn1'; [|done..].
    assert (existsb (fun n => match node_at d (take n file) with Some (NFile _) => true | _ => false end) (seq 0 (length file)) = true); [|congruence].
    apply existsb_exists. exists n. split; [done|]. destruct (decide (take n file = [])) as [E|Hne]; [by rewrite E in Hn1'|].
    apply node_at_file in Hn1'; [|done]. apply Hf in Hn1'. by apply (node_at_file d) in Hn1' as ->. }
  destruct ok; intros [= <- <-]; rewrite Hab; (split; [done|]; split; [auto|]); intros q n Hq; by eapply adds_kept.
Qed.

Lemma config_ok_stored c : config_ok c -> config_ok (stored_config c).
Proof. intros Hc k t [Hk _]%map_lookup_filter_Some. by apply (Hc k t). Qed.

Lemma writeTargetConfig_spec c d d' r : config_ok c -> survives (json_of_config (stored_config c)) -> writeTargetConfig c d = (d', r) ->
  (r = Ok tt /\ config_at d' = Ok (stored_config c) \/ r = Err EngineTargetConfigWriteFailure) /\
  forall q n, q <> file -> d !! q = Some n -> d' !! q = Some n.
Proof.
  intros Hc Hs Hw. unfold writeTargetConfig in Hw. unfold WriteFile in Hw.
  destruct (write_file f true file (indent (json_of_config (stored_config c))) d) as [d1 ok] eqn:Hwf.
  destruct (write_file_spec _ _ _ _ _ _ _ Hwf) as [[-> ->]|(w & -> & Hok)].
  - injection Hw as <- <-. split; [by right|done].
  - assert (forall q n, q <> file -> d !! q = Some n -> <[file := NFile w]> d !! q = Some n) as Hkeep
      by (intros q n Hq Hn; by rewrite lookup_insert_ne).
    destruct ok; injection Hw as <- <-; [|split; [by right|done]]. split; [|done]. left. split; [done|].
    rewrite Hok by done. unfold config_at, read_file. rewrite (proj2 (node_at_file _ _ (indent (json_of_config (stored_config c))) file_named)) by (by rewrite lookup_insert_eq).
    apply config_of_text_json; [by apply config_ok_stored|done].
Qed.

Lemma policy_of_text_ok s : policy_ok (policy_of_text s).
Proof. unfold policy_ok, policy_of_text, IgnoreHostKey, AcceptNewHost, AskNewHost, RejectHostKeyIfMissing. repeat case_bool_decide; lia. Qed.

Lemma auth_of_text_ok s : auth_ok (auth_of_text s).
Proof. unfold auth_ok, auth_of_text, SSHAuthMethodPassword, SSHAuthMethodKey. case_bool_decide; lia. Qed.

Lemma int32_field_ok k l n : int32_field k l = Some n -> int_in_range 32 n = true.
Proof. unfold int32_field. destruct (field k l) as [[]|]; try done; try (by intros [= <-]). destruct (int_in_range 32 n0) eqn:Hn; [by intros [= <-]|done]. Qed.

Lemma text_field_ok k of_text l n (P : Z -> Prop) : text_field k of_text l = Some n -> P 0 -> (forall s, P (of_text s)) -> P n.
Proof. unfold text_field. intros Ht H0 Hs. destruct (field k l) as [[]|]; try done; injection Ht as <-; auto. Qed.

Lemma host_of_json_ok j h : host_of_json j = Some h -> host_ok h.
Proof.
  unfold host_of_json. intros (l & _ & Hl)%bind_Some. apply bind_Some in Hl as (h0 & _ & Hl). apply bind_Some in Hl as (p & Hp & Hl).
  apply bind_Some in Hl as (u & _ & Hl). apply bind_Some in Hl as (k & _ & Hl). apply bind_Some in Hl as (policy & Hpol & Hl).
  apply bind_Some in Hl as (auth & Hauth & [= <-]). split_and!; cbn.
  - eapply (text_field_ok _ _ _ _ policy_ok); [done|unfold policy_ok; lia|apply policy_of_text_ok].
  - eapply (text_field_ok _ _ _ _ auth_ok); [done|unfold auth_ok; lia|apply auth_of_text_ok].
  - by eapply int32_field_ok.
Qed.

Lemma value_of_json_ok type l t : value_of_json type l = Some t -> target_ok t.
Proof.
  unfold value_of_json. destruct (type =? "ssh")%string.
  - destruct (field "jumps" l) as [[| | | | |js|]|]; try done; try (intros [= <-]; by constructor). intros (hs & Hm & ->)%fmap_Some.
    cbn. apply mapM_Some in Hm. induction Hm as [|j h js hs Hj _ IH]; constructor; [by eapply host_of_json_ok|done].
  - destruct (type =? "local")%string; [by intros [= <-]|]. destruct (type =? "android")%string; [|done].
    intros (s & _ & Hs)%bind_Some. destruct (field "device_ip_address" l) as [[]|]; try done; by injection Hs as <-.
Qed.

Lemma target_of_json_ok j t : target_of_json j = Some (Some t) -> target_ok t.
Proof.
  unfold target_of_json. intros (l & _ & Hl)%bind_Some. apply bind_Some in Hl as (type & _ & Hl). destruct (type =? EmptyString)%string.
  - unfold target_of_v1 in Hl. apply bind_Some in Hl as (h & _ & Hl). apply bind_Some in Hl as (p & Hp & Hl).
    apply bind_Some in Hl as (u & _ & Hl). apply bind_Some in Hl as (k & _ & [= <-]).
    constructor; [|done]. split_and!; cbn; [done|done|by eapply int32_field_ok].
  - destruct (field "value" l) as [[| | | | | |v]|]; try done.
    + by apply bind_Some in Hl as (? & _ & [=]).
    + apply fmap_Some in Hl as (t' & Ht & [= ->]). by eapply value_of_json_ok.
    + apply fmap_Some in Hl as (t' & Ht & [= ->]). by eapply value_of_json_ok.
Qed.

Lemma foldl_insert_elem {A} (l : list (string * A)) : forall (m : gmap string A) k v,
  foldl (fun m kv => <[kv.1 := kv.2]> m) m l !! k = Some v -> (k, v) ∈ l \/ m !! k = Some v.
Proof.
  induction l as [|[k0 v0] l IH]; intros m k v; cbn; [by right|].
  intros [Hin|Hm]%IH; [left; by right|]. apply lookup_insert_Some in Hm as [[<- <-]|[_ Hm]]; [left; by left|by right].
Qed.

Lemma config_of_text_ok data c : config_of_text data = Ok c -> config_ok c.
Proof.
  unfold config_of_text. case_bool_decide; [intros [= <-]; apply map_Forall_empty|].
  intros ([[schema dflt] l] & Hl & Hm)%bind_Ok. apply bind_Ok in Hm as (m & Hm & [= <-]).
  assert (forall k t, (k, Some t) ∈ l -> target_ok t) as Hok.
  { destruct (_ ≫= _) as [r|] eqn:Hd in Hl; [|done]. injection Hl as ->. apply bind_Some in Hd as (j & _ & Hd). apply bind_Some in Hd as (fields & _ & Hd).
    apply bind_Some in Hd as (? & _ & Hd). apply bind_Some in Hd as (? & _ & Hd). apply bind_Some in Hd as (l' & Hd & [= -> -> ->]).
    unfold json_targets in Hd. destruct (field "targets" fields) as [[| | | | | |v]|]; try done; try (injection Hd as <-; by intros k t ?%elem_of_nil).
    intros k t Hin. apply mapM_Some in Hd. apply list_elem_of_lookup in Hin as [i Hi].
    destruct (Forall2_lookup_r _ _ _ _ _ Hd Hi) as ([k' j'] & _ & Hj). cbn in Hj. apply fmap_Some in Hj as (t' & Ht & [= -> <-]).
    by eapply target_of_json_ok. }
  unfold engine_targets in Hm. case_bool_decide; [|done]. injection Hm as <-. intros k t. cbn. rewrite lookup_omap.
  intros (o & Ho & Hid)%bind_Some. cbn in Hid. subst o. apply foldl_insert_elem in Ho as [Ho|Ho]; [by eapply Hok|by rewrite lookup_empty in Ho].
Qed.

Lemma config_at_ok d c : config_at d = Ok c -> config_ok c.
Proof. unfold config_at. destruct (read_file d file); [by apply config_of_text_ok|intros [= <-]; apply map_Forall_empty|done]. Qed.

(** ** The manager as a map with a default *)

(** What the manager shows of a stored configuration. *)
Definition visible (A : TargetConfig) : gmap string Target :=
  if IsLocalhostSupported then <[LocalhostName := LocalTarget]> (Targets A) else Targets A.
Definition current_default (A : TargetConfig) : string :=
  if IsLocalhostSupported && negb (bool_decide (is_Some (visible A !! Default A))) then LocalhostName else Default A.
Definition seen (A : TargetConfig) : TargetConfig := {| SchemaVersion := SchemaVersion A; Default := current_default A; Targets := visible A |}.

Definition keep (A : TargetConfig) (m : gmap string Target) (dflt : string) : TargetConfig :=
  {| SchemaVersion := if bool_decide (SchemaVersion A = EmptyString) then targetsSchemaV1 else SchemaVersion A; Default := dflt; Targets := m |}.

Inductive request :=
| Add (name : string) (t : Target) | Remove (name : string) | RemoveAll | MakeDefault (name : string)
| Update (oldName : string) (fields : UpdateTargetFields).

Definition run (req : request) : op () :=
  match req with
  | Add name t => AddTarget name t
  | Remove name => RemoveTarget name
  | RemoveAll => RemoveAllTargets
  | MakeDefault name => SetDefaultTarget name
  | Update old fields => UpdateTarget old fields
  end.

Definition new_name (old : string) (u : UpdateTargetFields) : string := if decide (upd_Name u = EmptyString) then old else upd_Name u.

Definition spec (req : request) (A : TargetConfig) : result target_error TargetConfig :=
  match req with
  | Add name t =>
      _ ← Validate t name;
      match Targets A !! name with
      | Some _ => Err (EngineTargetConfigAlreadyExists name)
      | None => Ok (keep A (<[name := t]> (Targets A)) (if decide (is_Some (Targets A !! Default A)) then Default A else name))
      end
  | Remove name =>
      if decide (name = LocalhostName)
      then Err (if IsLocalhostSupported then EngineTargetConfigCannotRemoveReserved name else EngineTargetConfigDoesNotExist name)
      else match Targets A !! name with
           | None => Err (EngineTargetConfigDoesNotExist name)
           | Some _ => Ok (keep A (delete name (Targets A)) (if decide (Default A = name) then EmptyString else current_default A))
           end
  | RemoveAll => Ok (keep empty_config ∅ EmptyString)
  | MakeDefault name =>
      match visible A !! name with None => Err (EngineTargetConfigDoesNotExist name) | Some _ => Ok (keep A (Targets A) name) end
  | Update old u =>
      match visible A !! old with
      | None => Err (EngineTargetConfigDoesNotExist old)
      | Some _ =>
          if decide (new_name old u <> old /\ is_Some (visible A !! new_name old u)) then Err (EngineTargetConfigAlreadyExists (new_name old u))
          else
            _ ← Validate (UpdatedTarget u) (new_name old u);
            Ok (keep A (<[new_name old u := UpdatedTarget u]> (delete old (Targets A)))
                  (if DefaultFlag u || bool_decide (current_default A = old) then new_name old u else current_default A))
      end
  end.

(** What is stored: neither the local host nor another local target. *)
Record clean (A : TargetConfig) : Prop := {
  clean_localhost : Targets A !! LocalhostName = None;
  clean_remote : map_Forall (fun _ t => t <> LocalTarget) (Targets A)
}.

Definition request_ok (req : request) : Prop :=
  match req with
  | Add _ t | Update _ {| UpdatedTarget := t |} => target_ok t /\ t <> LocalTarget
  | _ => True
  end.

Lemma ReadTargetConfig_spec d d' r A : config_at d = Ok A -> clean A -> ReadTargetConfig d = (d', r) ->
  config_at d' = Ok A /\ (r = Ok (seen A) \/ r = Err EngineTargetConfigCreateFailure) /\ forall q n, d !! q = Some n -> d' !! q = Some n.
Proof.
  intros HA [Hloc _] Hr. unfold ReadTargetConfig, mbind, op_bind in Hr. destruct (readTargetConfigFile d) as [d1 r1] eqn:Hf.
  destruct (readTargetConfigFile_spec _ _ _ Hf) as (Hc & Hr1 & Hk). rewrite HA in Hc, Hr1. destruct Hr1 as [-> | ->]; [|injection Hr as <- <-; auto].
  rewrite bool_decide_false in Hr by (rewrite Hloc; by intros [? ?]). injection Hr as <- <-. split_and!; [done| |done]. left. f_equal.
  unfold seen, visible, current_default, visible, AddLocalHostToTargetConfig. destruct IsLocalhostSupported; [|by destruct A].
  cbn [andb]. by case_bool_decide.
Qed.

Lemma changing_spec change d d' r A : config_at d = Ok A -> clean A -> changing change d = (d', r) ->
  (forall c, change (seen A) = Ok c -> config_ok c /\ survives (json_of_config (stored_config c))) ->
  match change (seen A) with
  | Err e => (r = Err e \/ r = Err EngineTargetConfigCreateFailure) /\ config_at d' = Ok A
  | Ok c => (r = Ok tt /\ config_at d' = Ok (stored_config c)) \/ (r = Err EngineTargetConfigCreateFailure /\ config_at d' = Ok A) \/
            r = Err EngineTargetConfigWriteFailure
  end /\ forall q n, q <> file -> d !! q = Some n -> d' !! q = Some n.
Proof.
  intros HA Hcl Hr Hok. unfold changing, mbind, op_bind in Hr. destruct (ReadTargetConfig d) as [d1 r1] eqn:Hread.
  destruct (ReadTargetConfig_spec _ _ _ _ HA Hcl Hread) as (HA1 & [-> | ->] & Hk).
  - unfold lift in Hr. destruct (change (seen A)) as [c|e] eqn:Hch.
    + destruct (Hok c eq_refl) as [Hc Hs]. destruct (writeTargetConfig_spec _ _ _ _ Hc Hs Hr) as [Hw Hk2].
      split; [destruct Hw; auto|]. intros q n Hq Hn. apply Hk2; auto.
    + injection Hr as <- <-. split; [auto|]. intros q n _ Hn. auto.
  - injection Hr as <- <-. split; [destruct (change (seen A)); auto|]. intros q n _ Hn. auto.
Qed.

Lemma filter_visible A : clean A -> filter (fun kv : string * Target => kv.2 <> LocalTarget) (visible A) = Targets A.
Proof.
  intros [Hl Hr]. assert (filter (fun kv : string * Target => kv.2 <> LocalTarget) (Targets A) = Targets A) as Hf.
  { apply map_filter_id. intros k t Hk. by apply (Hr k t). }
  unfold visible. destruct IsLocalhostSupported; [|done]. rewrite map_filter_insert_False by (by intros ?). by rewrite delete_id.
Qed.

Lemma stored_seen A m dflt : stored_config (with_default dflt (with_targets m (seen A))) = keep A (filter (fun kv => kv.2 <> LocalTarget) m) dflt.
Proof. done. Qed.

Lemma visible_other A n : n <> LocalhostName -> visible A !! n = Targets A !! n.
Proof. intros Hn. unfold visible. destruct IsLocalhostSupported; [|done]. by rewrite lookup_insert_ne. Qed.

Lemma current_default_stored A n t : clean A -> Targets A !! n = Some t -> current_default A = n <-> Default A = n.
Proof.
  intros [Hl _] Hn. assert (n <> LocalhostName) as Hne by (intros ->; congruence). unfold current_default.
  destruct (IsLocalhostSupported && _) eqn:Hd; [|done]. apply andb_true_iff in Hd as [_ Hd%negb_true_iff%bool_decide_eq_false].
  split; [by intros <-|]. intros <-. destruct Hd. by rewrite visible_other, Hn.
Qed.

Lemma add_target_spec name t A : clean A -> name <> LocalhostName -> t <> LocalTarget ->
  stored_config <$> add_target name t (seen A) =
    match Targets A !! name with
    | Some _ => Err (EngineTargetConfigAlreadyExists name)
    | None => Ok (keep A (<[name := t]> (Targets A)) (if decide (is_Some (Targets A !! Default A)) then Default A else name))
    end.
Proof.
  intros Hcl Hn Ht. unfold add_target. cbn [Targets Default seen]. rewrite visible_other by done.
  destruct (Targets A !! name) as [t0|] eqn:Hname; [by rewrite bool_decide_true|]. rewrite bool_decide_false by (by intros [? ?]).
  cbn. f_equal. rewrite stored_seen, map_filter_insert_True, filter_visible by done. f_equal.
  unfold isNameReserved. destruct (decide (is_Some (Targets A !! Default A))) as [[t1 Hd]|Hd].
  - assert (Default A <> LocalhostName) as Hne by (intros E; rewrite E, (clean_localhost A Hcl) in Hd; done).
    assert (current_default A = Default A) as -> by (by apply (current_default_stored A (Default A) t1)).
    rewrite visible_other, Hd by done. rewrite bool_decide_true, bool_decide_false by done. done.
  - destruct (decide (current_default A = LocalhostName)) as [E|Hne].
    + rewrite (bool_decide_true (current_default A = _)) by done. by rewrite orb_true_r.
    + rewrite visible_other by done. rewrite (bool_decide_false (is_Some _)); [done|]. intros [t1 Ht1].
      apply Hd.
      pose proof (proj1 (current_default_stored A (current_default A) t1 Hcl Ht1) eq_refl) as E. rewrite E. by eexists.
Qed.

Lemma remove_target_spec name A : clean A ->
  stored_config <$> remove_target name (seen A) = spec (Remove name) A.
Proof.
  intros Hcl. unfold remove_target, spec. cbn [Targets Default seen]. unfold isNameReserved.
  destruct (decide (name = LocalhostName)) as [->|Hn].
  - unfold visible. destruct IsLocalhostSupported.
    + rewrite lookup_insert_eq, bool_decide_true by done. cbn. by rewrite bool_decide_true.
    + rewrite (clean_localhost A Hcl), bool_decide_false by (by intros [? ?]). done.
  - rewrite visible_other by done. destruct (Targets A !! name) as [t|] eqn:Hname; [|by rewrite bool_decide_false by (by intros [? ?])].
    rewrite bool_decide_true, (bool_decide_false (name = _)) by done. cbn. f_equal. rewrite stored_seen.
    rewrite map_filter_delete, filter_visible by done. f_equal.
    destruct (decide (Default A = name)) as [E|Hd]; [rewrite bool_decide_true by (by apply (current_default_stored A name t)); done|].
    rewrite bool_decide_false; [done|]. by intros E%(current_default_stored A name t).
Qed.

Lemma set_default_spec name A : clean A -> stored_config <$> set_default name (seen A) = spec (MakeDefault name) A.
Proof.
  intros Hcl. unfold set_default, spec. cbn [Targets seen]. destruct (visible A !! name) as [t|]; [|done].
  rewrite bool_decide_true by done. cbn. f_equal.
  change (stored_config (with_default name (seen A))) with (keep A (filter (fun kv => kv.2 <> LocalTarget) (visible A)) name).
  by rewrite filter_visible.
Qed.

Lemma update_target_spec old u A : clean A -> UpdatedTarget u <> LocalTarget ->
  stored_config <$> update_target old u (seen A) = spec (Update old u) A.
Proof.
  intros Hcl Ht. unfold update_target, spec. cbn [Targets Default seen].
  destruct (visible A !! old) as [t|] eqn:Hold; [|done]. rewrite bool_decide_true by done. cbn [negb].
  assert ((if bool_decide (upd_Name u = EmptyString) then old else upd_Name u) = new_name old u) as ->
    by (unfold new_name; by case_bool_decide; case_decide).
  destruct (decide (new_name old u <> old /\ is_Some (visible A !! new_name old u))) as [[Hne Hs]|Hno].
  - rewrite bool_decide_true, bool_decide_false by done. done.
  - assert (bool_decide (is_Some (visible A !! new_name old u)) && negb (bool_decide (new_name old u = old)) = false) as ->
      by (repeat case_bool_decide; try done; by destruct Hno).
    destruct (Validate (UpdatedTarget u) (new_name old u)); [|done]. cbn [mbind result_bind fmap result_fmap]. f_equal.
    rewrite stored_seen, map_filter_insert_True, map_filter_delete, filter_visible by done. done.
Qed.

Lemma visible_ok A : config_ok A -> map_Forall (fun _ t => target_ok t) (visible A).
Proof. intros HA. unfold visible. destruct IsLocalhostSupported; [by apply map_Forall_insert_2|done]. Qed.

Lemma changes_ok A : config_ok A ->
  (forall name t c, target_ok t -> add_target name t (seen A) = Ok c -> config_ok c) /\
  (forall name c, remove_target name (seen A) = Ok c -> config_ok c) /\
  (forall name c, set_default name (seen A) = Ok c -> config_ok c) /\
  (forall old u c, target_ok (UpdatedTarget u) -> update_target old u (seen A) = Ok c -> config_ok c).
Proof.
  intros HA%visible_ok. split_and!.
  - intros name t c Ht. unfold add_target. destruct (bool_decide _); [done|]. intros [= <-]. by apply map_Forall_insert_2.
  - intros name c. unfold remove_target. destruct (negb _); [done|]. destruct (isNameReserved name); [done|]. intros [= <-]. by apply map_Forall_delete.
  - intros name c. unfold set_default. destruct (negb _); [done|]. by intros [= <-].
  - intros old u c Ht. unfold update_target. destruct (negb _); [done|]. destruct (_ && _); [done|].
    destruct (Validate _ _); [|done]. intros [= <-]. apply map_Forall_insert_2; [done|by apply map_Forall_delete].
Qed.

Lemma Validate_not_reserved t name : Validate t name = Ok tt -> name <> LocalhostName.
Proof. unfold Validate, isNameReserved. by case_bool_decide. Qed.

(** The default is unset, is the local host, or is stored. *)
Definition known_default (A : TargetConfig) : Prop :=
  Default A = EmptyString \/ Default A = LocalhostName \/ is_Some (Targets A !! Default A).

Lemma current_default_known A : known_default A -> current_default A = LocalhostName \/ current_default A = EmptyString \/ is_Some (Targets A !! current_default A).
Proof. unfold known_default, current_default. destruct (_ && _); [by left|]. intros [->|[->|?]]; auto. Qed.

Lemma spec_keeps req A A' : clean A -> request_ok req -> spec req A = Ok A' -> clean A' /\ (known_default A -> known_default A').
Proof.
  intros [Hl Hr] Hreq Hs. destruct req as [name t|name| |name|old u]; cbn in Hs.
  - apply bind_Ok in Hs as ([] & Hv%Validate_not_reserved & Hs). destruct (Targets A !! name) eqn:Hn; [done|]. injection Hs as <-. split.
    + split; cbn; [by rewrite lookup_insert_ne|]. apply map_Forall_insert_2; [apply Hreq|done].
    + intros _. right; right. cbn. destruct (decide (is_Some (Targets A !! Default A))) as [Hd|_]; [|by rewrite lookup_insert_eq].
      destruct (decide (name = Default A)) as [->|Hne]; [by rewrite lookup_insert_eq|by rewrite lookup_insert_ne].
  - destruct (decide (name = LocalhostName)); [by destruct IsLocalhostSupported|]. destruct (Targets A !! name) eqn:Hn; [|done]. injection Hs as <-. split.
    + split; cbn; [by rewrite lookup_delete_ne|by apply map_Forall_delete].
    + intros Hk. unfold known_default. cbn. destruct (decide (Default A = name)) as [E|Hne]; [by left|].
      destruct (current_default_known A Hk) as [E|[E|Hs]]; [by right; left|by left|]. right; right.
      rewrite lookup_delete_ne; [done|]. intros E. apply Hne, (current_default_stored A name _ ltac:(by split) Hn). done.
  - injection Hs as <-. split; [by split|]. intros _. by left.
  - destruct (visible A !! name) as [t|] eqn:Hv; [|done]. injection Hs as <-. split; [by split|]. intros _. unfold known_default. cbn.
    destruct (decide (name = LocalhostName)) as [E|Hne]; [by right; left|]. right; right. rewrite visible_other in Hv by done. by eexists.
  - destruct (visible A !! old) as [t|] eqn:Hold; [|done]. destruct (decide _) as [|Hno]; [done|].
    apply bind_Ok in Hs as ([] & Hv%Validate_not_reserved & [= <-]). assert (UpdatedTarget u <> LocalTarget) as Ht by (destruct u; apply Hreq). split.
    + split; cbn; [by rewrite lookup_insert_ne, lookup_delete_None; auto|]. apply map_Forall_insert_2; [done|by apply map_Forall_delete].
    + intros Hk. unfold known_default. cbn. destruct (DefaultFlag u || bool_decide (current_default A = old)) eqn:Hd; [right; right; by rewrite lookup_insert_eq|].
      apply orb_false_iff in Hd as [_ Hd%bool_decide_eq_false]. destruct (current_default_known A Hk) as [E|[E|Hs]]; [by right; left|by left|]. right; right.
      destruct (decide (new_name old u = current_default A)) as [->|Hne]; [by rewrite lookup_insert_eq|].
      rewrite lookup_insert_ne by done. by rewrite lookup_delete_ne.
Qed.


(** Looking targets up, when the name is not that of a JSON value that is not a target. *)
Lemma GetTarget_spec name o d d' r A : config_at d = Ok A -> clean A -> TryUnmarshalJSONTargetString name = Ok o -> GetTarget name d = (d', r) ->
  r = Err EngineTargetConfigCreateFailure \/
  r = if decide (name = EmptyString) then or_err EngineTargetConfigMissingDefault (visible A !! current_default A)
      else or_err (EngineTargetConfigDoesNotExist name) (visible A !! name).
Proof.
  intros HA Hcl Ho Hr. unfold GetTarget, mbind, op_bind, lift in Hr. rewrite Ho in Hr.
  destruct (ReadTargetConfig d) as [d1 r1] eqn:Hread. destruct (ReadTargetConfig_spec _ _ _ _ HA Hcl Hread) as (_ & [-> | ->] & _).
  - right. injection Hr as <- <-. by case_bool_decide; case_decide.
  - left. by injection Hr as <- <-.
Qed.

(** Which targets are valid. *)
Lemma validateHost_ok jump : validateHost jump = Ok tt <->
  Host jump <> EmptyString /\ HasPrefix (Host jump) "-" = false /\ sall host_byte (Host jump) = true.
Proof.
  unfold validateHost. destruct (HasPrefix (Host jump) "-"); [by split; [|intros (_ & ? & _)]|].
  case_bool_decide as He; [by split; [|intros (? & _)]|]. destruct (sall host_byte (Host jump)); [done|by split; [|intros (_ & _ & ?)]].
Qed.

Lemma validate_host_ok jump : (_ ← validateHost jump; _ ← validatePort jump; validateKey jump) = Ok tt <->
  validateHost jump = Ok tt /\ 0 < Port jump /\ validateKey jump = Ok tt.
Proof.
  unfold validatePort. destruct (validateHost jump) as [[]|e]; cbn; [|by split; [|intros [? _]]].
  destruct (Z.leb_spec (Port jump) 0); cbn; [split; [done|intros (_ & ? & _); lia]|].
  split; [done|by intros (_ & _ & ?)].
Qed.

End Manager.

(** ** Targets in the API *)

(** The values of the enumerations of the API. *)
Definition IGNORE_IF_MISSING : Z := 0.
Definition REJECT_IF_MISSING : Z := 1.
Definition ADD_IF_MISSING : Z := 2.
Definition ASK_IF_MISSING : Z := 4.

Record ProtoHost := { ph_Host : string; ph_Port : Z; ph_Username : string; ph_PrivateKeyFilename : string; ph_AuthMethod : option Z }.

(** A message; [None] is a nil pointer. *)
Inductive Connection :=
| Target_SshConfig (config : option (list ProtoHost * option Z))
| Target_LocalConfig
| Target_AndroidConfig (config : option (string * option string))
| NoConnection.

Inductive conversion_error := MissingTarget | SshConfigurationInvalid (reason : string) | NoAndroidConfig | UnsupportedConnection.

(** [None] is a panic: the policy is dereferenced. *)
Definition hostKeyBehaviourToPolicy (hostBehaviour : option Z) : option Z :=
  match hostBehaviour with
  | None => None
  | Some b => Some (if b =? IGNORE_IF_MISSING then IgnoreHostKey else if b =? ADD_IF_MISSING then AcceptNewHost
                    else if b =? ASK_IF_MISSING then AskNewHost else RejectHostKeyIfMissing)
  end.

Definition policyToHostKeyBehaviour (policy : Z) : Z :=
  if policy =? IgnoreHostKey then IGNORE_IF_MISSING else if policy =? AcceptNewHost then ADD_IF_MISSING
  else if policy =? AskNewHost then ASK_IF_MISSING else REJECT_IF_MISSING.

Definition authMethodFromProto (m : option Z) : Z := if bool_decide (m = Some 1) then SSHAuthMethodPassword else SSHAuthMethodKey.
Definition authMethodToProto (m : Z) : Z := if m =? SSHAuthMethodPassword then 1 else 0.

Definition host_from_proto (policy : Z) (h : ProtoHost) : SSHHostConfig :=
  {| Host := ph_Host h; Port := ph_Port h; Username := ph_Username h; PrivateKeyFilename := ph_PrivateKeyFilename h;
     hostKeyPolicy := policy; AuthMethod := authMethodFromProto (ph_AuthMethod h) |}.

Definition TargetFromProto (i : option Connection) : option (result conversion_error Target) :=
  match i with
  | None => Some (Err MissingTarget)
  | Some (Target_SshConfig None) => Some (Err (SshConfigurationInvalid "no ssh config found"))
  | Some (Target_SshConfig (Some ([], _))) => Some (Err (SshConfigurationInvalid "no hosts defined"))
  | Some (Target_SshConfig (Some (hosts, b))) =>
      policy ← hostKeyBehaviourToPolicy b; Some (Ok (SSHTarget (host_from_proto policy <$> hosts)))
  | Some Target_LocalConfig => Some (Ok LocalTarget)
  | Some (Target_AndroidConfig None) => Some (Err NoAndroidConfig)
  | Some (Target_AndroidConfig (Some (serial, ip))) => Some (Ok (AndroidTarget serial ip))
  | Some NoConnection => Some (Err UnsupportedConnection)
  end.

Definition host_to_proto (h : SSHHostConfig) : ProtoHost :=
  {| ph_Host := Host h; ph_Port := Port h; ph_Username := Username h; ph_PrivateKeyFilename := PrivateKeyFilename h;
     ph_AuthMethod := Some (authMethodToProto (AuthMethod h)) |}.

(** The policy of the first host stands for all. *)
Definition TargetToProto (t : Target) : Connection :=
  match t with
  | SSHTarget jumps =>
      Target_SshConfig (Some (host_to_proto <$> jumps,
        Some (match jumps with [] => REJECT_IF_MISSING | jump :: _ => policyToHostKeyBehaviour (hostKeyPolicy jump) end)))
  | LocalTarget => Target_LocalConfig
  | AndroidTarget serial ip => Target_AndroidConfig (Some (serial, ip))
  end.

Definition with_policy (p : Z) (h : SSHHostConfig) : SSHHostConfig :=
  {| Host := Host h; Port := Port h; Username := Username h; PrivateKeyFilename := PrivateKeyFilename h; hostKeyPolicy := p; AuthMethod := AuthMethod h |}.

Lemma policy_round_trip p : policy_ok p -> hostKeyBehaviourToPolicy (Some (policyToHostKeyBehaviour p)) = Some p.
Proof. intros Hp. assert (p = 0 \/ p = 1 \/ p = 2 \/ p = 3) as [->|[->|[->| ->]]] by (unfold policy_ok in Hp; lia); done. Qed.

Lemma host_round_trip p h : host_ok h -> host_from_proto p (host_to_proto h) = with_policy p h.
Proof.
  intros (_ & Ha & _). unfold host_from_proto, host_to_proto, with_policy. cbn. f_equal.
  assert (AuthMethod h = 0 \/ AuthMethod h = 1) as [->| ->] by (unfold auth_ok in Ha; lia); done.
Qed.

(** A target that is sent through the API arrives as it was, except that the hosts of an SSH target all arrive with the
    policy of the first one: it arrives unchanged exactly when they have the same policy. A target without hosts is
    refused. *)
Theorem api_keeps_targets t : target_ok t ->
  match t with
  | SSHTarget [] => TargetFromProto (Some (TargetToProto t)) = Some (Err (SshConfigurationInvalid "no hosts defined"))
  | SSHTarget (jump :: jumps) =>
      TargetFromProto (Some (TargetToProto t)) = Some (Ok (SSHTarget (with_policy (hostKeyPolicy jump) <$> jump :: jumps))) /\
      (TargetFromProto (Some (TargetToProto t)) = Some (Ok t) <-> Forall (fun j => hostKeyPolicy j = hostKeyPolicy jump) jumps)
  | _ => TargetFromProto (Some (TargetToProto t)) = Some (Ok t)
  end.
Proof.
  intros Ht. destruct t as [[|jump jumps]| |]; try done. cbn in Ht.
  assert (TargetFromProto (Some (TargetToProto (SSHTarget (jump :: jumps)))) =
    Some (Ok (SSHTarget (with_policy (hostKeyPolicy jump) <$> jump :: jumps)))) as Hr.
  { unfold TargetFromProto, TargetToProto. cbn [fmap list_fmap]. rewrite policy_round_trip by (by apply Forall_cons in Ht as [[? _] _]).
    cbn [mbind option_bind]. do 3 f_equal. change (host_from_proto (hostKeyPolicy jump) <$> (host_to_proto <$> jump :: jumps) = with_policy (hostKeyPolicy jump) <$> jump :: jumps).
    rewrite <-list_fmap_compose. apply list_fmap_ext. intros i h Hi. cbn. apply host_round_trip. by eapply Forall_lookup_1. }
  split; [done|]. rewrite Hr. split.
  - intros [= _ Hj]. clear -Hj. induction jumps as [|j jumps IH]; [done|]. cbn in Hj. injection Hj as Hj Hjs.
    constructor; [by rewrite <-Hj|by apply IH].
  - intros Hall. do 3 f_equal. cbn. f_equal; [by destruct jump|]. clear -Hall.
    induction Hall as [|j jumps Hj Hall IH]; [done|]. cbn. f_equal; [|done]. rewrite <-Hj. by destruct j.
Qed.

Definition gate : SSHHostConfig :=
  {| Host := "gate"; Port := 22; Username := "u"; PrivateKeyFilename := EmptyString; hostKeyPolicy := AskNewHost; AuthMethod := SSHAuthMethodKey |}.
Definition board : SSHHostConfig :=
  {| Host := "board"; Port := 2222; Username := "u"; PrivateKeyFilename := EmptyString; hostKeyPolicy := IgnoreHostKey; AuthMethod := SSHAuthMethodPassword |}.

Lemma api_keeps_targets_witness : target_ok (SSHTarget [gate; board]) /\
  TargetFromProto (Some (TargetToProto (SSHTarget [gate; board]))) <> Some (Ok (SSHTarget [gate; board])).
Proof.
  assert (target_ok (SSHTarget [gate; board])) as Hok by (repeat constructor; done).
  split; [done|]. destruct (api_keeps_targets (SSHTarget [gate; board]) Hok) as [_ Hiff].
  intros Hsame%Hiff. by apply Forall_cons in Hsame as [? _].
Defined.

Example without_policy : host_of_json (JObject [("host", JString "board"); ("port", JInt 2222)]) =
  Some {| Host := "board"; Port := 2222; Username := EmptyString; PrivateKeyFilename := EmptyString; hostKeyPolicy := IgnoreHostKey; AuthMethod := SSHAuthMethodKey |}.
Proof. reflexivity. Qed.

Example unknown_policy : hostKeyPolicy <$> host_of_json (JObject [("host", JString "board"); ("host_key_policy", JString "none")]) = Some RejectHostKeyIfMissing.
Proof. reflexivity. Qed.

Example backtick_accepted : sall host_byte "`id`" = true.
Proof. reflexivity. Qed.

Example through_a_gate : target_String (SSHTarget [gate; board]) = "u@board:2222 (via u@gate)".
Proof. vm_compute. reflexivity. Qed.

(** A text of one value only, for a file of targets. *)
Definition one_file : json := json_of_config {| SchemaVersion := targetsSchemaV1; Default := "b"; Targets := {[ "b" := SSHTarget [board] ]} |}.

Definition one_text : TargetText.
Proof.
  refine {| indent _ := "{}"; parse s := Some one_file; survives j := j = one_file |}; [by intros j ->|done].
Defined.

Definition targets_file : list string := ["cfg"; "targets.json"].


(** A local target under another name is not refused, and is not stored. *)
Example other_local_target_is_lost :
  let '(d, r) := run (fun _ => None) true targets_file no_faults (H := one_text) (Add "here" LocalTarget) ∅ in
  r = Ok tt /\ stored_config (with_targets {[ "here" := LocalTarget ]} empty_config) = with_targets ∅ (stored_config empty_config).
Proof. vm_compute. done. Qed.
