(* ===== verification/TargetAccess.v ===== *)
(** * Performix: exclusive access to targets

    Models [core/apap-engine/target/access.go], by which the calls of the API that prepare,
    describe or log in to a target exclude each other. A lock is a channel of one token; locks
    are found by the configuration of the target and never removed. The goroutines of calls
    interleave in steps; finding or creating a lock is one step, as is reading the name of the
    active command, for both hold the mutex that protects the list, and each store is atomic. *)

From stdpp Require Import functions.
From S2P Require Import Prelude.
From S2P Require Import Targets.

(** ** Locks *)

Record TargetLock := { target : Target; activeCommand : string; unlocked : bool }.

(** A call of [LockWithCancellation] and of [Unlock] afterwards: it waits for the token, has
    it, has stored its name, has cleared the name. [done_closed] is its cancellation. *)
Inductive phase := Waiting | Granted | Holding | Clearing.

#[export] Instance phase_eq_dec : EqDecision phase.
Proof. solve_decision. Defined.

Record call := { at_phase : phase; lock_index : nat; call_target : Target; operationName : string; done_closed : bool }.

Record world := { targets : list TargetLock; calls : nat -> option call }.

Definition no_calls : world := {| targets := []; calls := fun _ => None |}.

Definition set_call (n : nat) (x : option call) (w : world) : world := {| targets := targets w; calls := <[n := x]> (calls w) |}.
Definition set_lock (i : nat) (l : TargetLock) (w : world) : world := {| targets := <[i := l]> (targets w); calls := calls w |}.
Definition with_phase (p : phase) (x : call) : call :=
  {| at_phase := p; lock_index := lock_index x; call_target := call_target x; operationName := operationName x; done_closed := done_closed x |}.

Definition findOrCreateTargetLock (t : Target) (l : list TargetLock) : list TargetLock * nat :=
  match list_find (fun x => target x = t) l with
  | Some (i, _) => (l, i)
  | None => (l ++ [{| target := t; activeCommand := EmptyString; unlocked := true |}], length l)
  end.

Definition GetTargetActiveCommand (t : Target) (w : world) : string :=
  match list_find (fun x => target x = t) (targets w) with Some (_, x) => activeCommand x | None => EmptyString end.

(** ** Steps *)

Inductive label :=
| Call (n : nat) (t : Target) (op : string)   (* [findOrCreateTargetLock], then the select *)
| CloseDone (n : nat)                         (* the context of the call ends *)
| Canceled (n : nat)                          (* the select takes the channel [done]: nil is returned *)
| Receive (n : nat)                           (* the select takes the token *)
| StoreName (n : nat)                         (* the lock is returned *)
| ClearName (n : nat)                         (* [Unlock] *)
| Send (n : nat).                             (* the token is given back *)

Definition caller (l : label) : nat :=
  match l with Call n _ _ | CloseDone n | Canceled n | Receive n | StoreName n | ClearName n | Send n => n end.

Definition step (l : label) (w : world) : option world :=
  match l with
  | Call n t op =>
      match calls w n with
      | Some _ => None
      | None =>
          let '(ls, i) := findOrCreateTargetLock t (targets w) in
          Some {| targets := ls;
                  calls := <[n := Some {| at_phase := Waiting; lock_index := i; call_target := t; operationName := op; done_closed := false |}]> (calls w) |}
      end
  | CloseDone n =>
      x ← calls w n;
      Some (set_call n (Some {| at_phase := at_phase x; lock_index := lock_index x; call_target := call_target x;
                                operationName := operationName x; done_closed := true |}) w)
  | Canceled n =>
      x ← calls w n;
      if decide (at_phase x = Waiting) then if done_closed x then Some (set_call n None w) else None else None
  | Receive n =>
      x ← calls w n; l ← targets w !! lock_index x;
      if decide (at_phase x = Waiting) then
        if unlocked l
        then Some (set_lock (lock_index x) {| target := target l; activeCommand := activeCommand l; unlocked := false |}
                     (set_call n (Some (with_phase Granted x)) w))
        else None
      else None
  | StoreName n =>
      x ← calls w n; l ← targets w !! lock_index x;
      if decide (at_phase x = Granted)
      then Some (set_lock (lock_index x) {| target := target l; activeCommand := operationName x; unlocked := unlocked l |}
                   (set_call n (Some (with_phase Holding x)) w))
      else None
  | ClearName n =>
      x ← calls w n; l ← targets w !! lock_index x;
      if decide (at_phase x = Holding)
      then Some (set_lock (lock_index x) {| target := target l; activeCommand := EmptyString; unlocked := unlocked l |}
                   (set_call n (Some (with_phase Clearing x)) w))
      else None
  | Send n =>
      x ← calls w n; l ← targets w !! lock_index x;
      if decide (at_phase x = Clearing) then
        if unlocked l then None
        else Some (set_lock (lock_index x) {| target := target l; activeCommand := activeCommand l; unlocked := true |} (set_call n None w))
      else None
  end.

Fixpoint run (ls : list label) (w : world) : option world :=
  match ls with [] => Some w | l :: ls => w' ← step l w; run ls w' end.

Inductive reachable : world -> Prop :=
| reachable_start : reachable no_calls
| reachable_step w l w' : reachable w -> step l w = Some w' -> reachable w'.

(** ** The invariant *)

Definition owns (x : call) : bool := negb (bool_decide (at_phase x = Waiting)).

Record inv (w : world) : Prop := {
  inv_distinct : NoDup (target <$> targets w);
  inv_lock n x : calls w n = Some x -> exists l, targets w !! lock_index x = Some l /\ target l = call_target x /\
    (owns x = true -> unlocked l = false /\ activeCommand l = if decide (at_phase x = Holding) then operationName x else EmptyString);
  inv_one n m x y : calls w n = Some x -> calls w m = Some y -> owns x = true -> owns y = true -> lock_index x = lock_index y -> n = m;
  inv_owned i l : targets w !! i = Some l ->
    if unlocked l then activeCommand l = EmptyString else exists n x, calls w n = Some x /\ owns x = true /\ lock_index x = i
}.

Definition other_owns (x : option call) : bool := match x with Some y => owns y | None => false end.

(** A call of index [i] changes itself and its lock. *)
Lemma inv_move n x l x' l' w : inv w -> calls w n = Some x -> targets w !! lock_index x = Some l -> target l' = target l ->
  (forall y, x' = Some y -> lock_index y = lock_index x /\ call_target y = call_target x /\
     (owns y = true -> unlocked l' = false /\ activeCommand l' = if decide (at_phase y = Holding) then operationName y else EmptyString)) ->
  (if other_owns x' then owns x = true \/ unlocked l = true
   else (unlocked l' = true /\ activeCommand l' = EmptyString /\ owns x = true) \/ (l' = l /\ owns x = false)) ->
  inv (set_lock (lock_index x) l' (set_call n x' w)).
Proof.
  intros [Hd Hl Ho Hu] Hx Hlx Ht Hx' Hown.
  assert (forall m y, m <> n -> calls w m = Some y -> lock_index y = lock_index x -> owns y = true -> l' = l) as Hother.
  { intros m y Hne Hy Hi Hoy. destruct (owns x) eqn:Hox; [by destruct (Hne (Ho _ _ _ _ Hy Hx Hoy Hox Hi))|].
    destruct (other_owns x'); [|by destruct Hown as [(_ & _ & ?)|[? _]]]. destruct Hown as [?|Hf]; [done|].
    destruct (Hl _ _ Hy) as (l1 & E & _ & Hy1). rewrite Hi, Hlx in E. injection E as <-. destruct (Hy1 Hoy). congruence. }
  assert (forall m y, <[n := x']> (calls w) m = Some y -> (m = n /\ x' = Some y) \/ (m <> n /\ calls w m = Some y)) as Hcalls.
  { intros m y. destruct (decide (m = n)) as [->|Hne]; [rewrite fn_lookup_insert; by left|rewrite fn_lookup_insert_ne by done; by right]. }
  assert (lock_index x < length (targets w))%nat as Hlt by (by eapply lookup_lt_Some).
  split; cbn [targets calls set_lock set_call].
  - rewrite list_fmap_insert, Ht. rewrite list_insert_id; [done|]. by rewrite list_lookup_fmap, Hlx.
  - intros m y [[-> E]|[Hne Hy]]%Hcalls.
    + destruct (Hx' _ E) as (Hi & Hc & Hy). rewrite Hi, list_lookup_insert_eq by done. exists l'. split; [done|]. split; [|done].
      destruct (Hl _ _ Hx) as (l1 & E1 & Ht1 & _). rewrite Hlx in E1. injection E1 as <-. congruence.
    + destruct (Hl _ _ Hy) as (l1 & E1 & Ht1 & Hy1). destruct (decide (lock_index y = lock_index x)) as [Hi|Hni].
      * rewrite Hi in *. rewrite list_lookup_insert_eq by done. rewrite Hlx in E1. injection E1 as <-. exists l'. split; [done|]. split; [congruence|].
        intros Hoy. rewrite (Hother m y Hne Hy Hi Hoy). by apply Hy1.
      * rewrite list_lookup_insert_ne by done. eauto.
  - assert (forall y, x' = Some y -> forall m z, m <> n -> calls w m = Some z -> owns y = true -> owns z = true -> lock_index y = lock_index z -> False) as Hno.
    { intros y E m z Hne Hz Hoy Hoz Hi. destruct (Hx' _ E) as (Hiy & _ & Hy). destruct (Hy Hoy) as [Hul _].
      assert (l' = l) as -> by (apply (Hother m z); congruence). subst x'. cbn in Hown. rewrite Hoy in Hown.
      destruct Hown as [Hox|?]; [|congruence]. apply Hne. apply (Ho m n z x); congruence. }
    intros m m' y y' [[-> E]|[Hne Hy]]%Hcalls [[-> E']|[Hne' Hy']]%Hcalls Hoy Hoy' Hi; [done| | |by eapply Ho].
    + by destruct (Hno y E m' y').
    + by destruct (Hno y' E' m y).
  - intros i l1 Hi. destruct (decide (i = lock_index x)) as [->|Hne].
    + rewrite list_lookup_insert_eq in Hi by done. injection Hi as <-. destruct x' as [y|]; [cbn in Hown; destruct (owns y) eqn:Hoy|].
      * destruct (Hx' y eq_refl) as (Hiy & _ & Hy). destruct (Hy Hoy) as [-> _]. exists n, y. by rewrite fn_lookup_insert.
      * destruct Hown as [(-> & -> & _)|[-> Hox]]; [done|]. specialize (Hu _ _ Hlx). destruct (unlocked l); [done|].
        destruct Hu as (m & z & Hz & Hoz & Hiz). exists m, z. rewrite fn_lookup_insert_ne; [done|]. intros ->. congruence.
      * destruct Hown as [(-> & -> & _)|[-> Hox]]; [done|]. specialize (Hu _ _ Hlx). destruct (unlocked l); [done|].
        destruct Hu as (m & z & Hz & Hoz & Hiz). exists m, z. rewrite fn_lookup_insert_ne; [done|]. intros ->. congruence.
    + rewrite list_lookup_insert_ne in Hi by done. specialize (Hu _ _ Hi). destruct (unlocked l1); [done|].
      destruct Hu as (m & z & Hz & Hoz & Hiz). exists m, z. rewrite fn_lookup_insert_ne; [done|]. intros ->. congruence.
Qed.

Lemma findOrCreate_spec t l ls i : NoDup (target <$> l) -> findOrCreateTargetLock t l = (ls, i) ->
  exists x, ls !! i = Some x /\ target x = t /\
    (ls = l \/ (ls = l ++ [x] /\ i = length l /\ unlocked x = true /\ activeCommand x = EmptyString /\ t ∉ target <$> l)).
Proof.
  intros Hd. unfold findOrCreateTargetLock. destruct (list_find (fun x => target x = t) l) as [[j x]|] eqn:Hf.
  - intros [= <- <-]. apply list_find_Some in Hf as (Hx & Ht & _). eauto.
  - intros [= <- <-]. eexists. rewrite list_lookup_middle by done. split; [done|]. split; [done|]. right. split_and!; try done.
    apply list_find_None in Hf. intros (y & -> & (k & Hk)%list_elem_of_lookup)%list_elem_of_fmap. by apply (Forall_lookup_1 _ _ _ _ Hf Hk).
Qed.

Lemma inv_call n t op w ls i : inv w -> calls w n = None -> findOrCreateTargetLock t (targets w) = (ls, i) ->
  inv {| targets := ls; calls := <[n := Some {| at_phase := Waiting; lock_index := i; call_target := t; operationName := op; done_closed := false |}]> (calls w) |}.
Proof.
  intros [Hd Hl Ho Hu] Hn Hf. destruct (findOrCreate_spec _ _ _ _ Hd Hf) as (x & Hx & Ht & Hls).
  assert (forall j l, targets w !! j = Some l -> ls !! j = Some l) as Hkeep
    by (intros j l Hj; destruct Hls as [->|[-> _]]; [done|by apply lookup_app_l_Some]).
  set (y := {| at_phase := Waiting |}).
  assert (forall m z, <[n := Some y]> (calls w) m = Some z -> (z = y) \/ (m <> n /\ calls w m = Some z)) as Hcalls.
  { intros m z. destruct (decide (m = n)) as [->|Hne]; [rewrite fn_lookup_insert; intros [= <-]; by left|rewrite fn_lookup_insert_ne by done; by right]. }
  assert (forall m z, calls w m = Some z -> <[n := Some y]> (calls w) m = Some z) as Hstay.
  { intros m z Hz. rewrite fn_lookup_insert_ne; [done|]. intros ->. congruence. }
  split; cbn [targets calls].
  - destruct Hls as [->|(-> & _ & _ & _ & Hnew)]; [done|]. rewrite fmap_app. apply NoDup_app. split; [done|]. split; [|apply NoDup_singleton].
    intros z Hz. cbn. rewrite list_elem_of_singleton. congruence.
  - intros m z [->|[_ Hz]]%Hcalls; [exists x; by split_and!|]. destruct (Hl _ _ Hz) as (l & E & ?). eauto.
  - intros m m' z z' [->|[_ Hz]]%Hcalls [->|[_ Hz']]%Hcalls; [done|done|done|]. by apply Ho.
  - intros j l Hj. assert (targets w !! j = Some l \/ (unlocked l = true /\ activeCommand l = EmptyString)) as [Hold|[-> ->]]; [|
    |done].
    + destruct Hls as [->|(-> & -> & ? & ? & _)]; [by left|]. apply lookup_app_Some in Hj as [?|[Hge Hj]]; [by left|].
      right. apply list_lookup_singleton_Some in Hj as [_ <-]. done.
    + specialize (Hu _ _ Hold). destruct (unlocked l); [done|]. destruct Hu as (m & z & Hz & ?). eauto.
Qed.

Lemma set_lock_same i l w : targets w !! i = Some l -> set_lock i l w = w.
Proof. intros Hl. unfold set_lock. rewrite list_insert_id by done. by destruct w. Qed.

Lemma inv_step l w w' : inv w -> step l w = Some w' -> inv w'.
Proof.
  intros Hw Hs. pose proof Hw as [_ Hl _ Hu]. destruct l as [n t op|n|n|n|n|n|n]; cbn [step] in Hs.
  { destruct (calls w n) eqn:Hn; [done|]. destruct (findOrCreateTargetLock t (targets w)) as [ls i] eqn:Hf. injection Hs as <-. by apply inv_call. }
  all: apply bind_Some in Hs as (x & Hx & Hs); destruct (Hl _ _ Hx) as (l & Hlx & Ht & Hown).
  1, 2: erewrite <-(set_lock_same (lock_index x) l w') by (repeat case_decide; try done; try destruct (done_closed x); try done; by injection Hs as <-).
  3, 4, 5, 6: apply bind_Some in Hs as (l1 & E & Hs); rewrite Hlx in E; injection E as <-.
  - injection Hs as <-. apply (inv_move n x l); try done; [intros y [= <-]; done|]. cbn. unfold owns. cbn [at_phase]. case_bool_decide; cbn; [by right|by left].
  - destruct (decide (at_phase x = Waiting)) as [Hp|]; [|done]. destruct (done_closed x); [|done]. injection Hs as <-. apply (inv_move n x l); try done.
    right. split; [done|]. unfold owns. by rewrite Hp.
  - destruct (decide (at_phase x = Waiting)) as [Hp|]; [|done]. destruct (unlocked l) eqn:Hul; [|done]. injection Hs as <-. apply (inv_move n x l); try done; [|by right].
    intros y [= <-]. split_and!; [done|done|]. intros _. specialize (Hu _ _ Hlx). rewrite Hul in Hu. done.
  - destruct (decide (at_phase x = Granted)) as [Hp|]; [|done]. injection Hs as <-. assert (owns x = true) as Hox by (unfold owns; by rewrite Hp).
    apply (inv_move n x l); try done; [|by left]. intros y [= <-]. split_and!; [done|done|]. intros _. by destruct (Hown Hox).
  - destruct (decide (at_phase x = Holding)) as [Hp|]; [|done]. injection Hs as <-. assert (owns x = true) as Hox by (unfold owns; by rewrite Hp).
    apply (inv_move n x l); try done; [|by left]. intros y [= <-]. split_and!; [done|done|]. intros _. by destruct (Hown Hox).
  - destruct (decide (at_phase x = Clearing)) as [Hp|]; [|done]. assert (owns x = true) as Hox by (unfold owns; by rewrite Hp). destruct (Hown Hox) as [Hul Hac].
    rewrite Hul in Hs. injection Hs as <-. apply (inv_move n x l); try done. left. cbn. rewrite Hac. case_decide; [congruence|done].
Qed.

Lemma access_inv w : reachable w -> inv w.
Proof.
  induction 1 as [|w l w' _ IH Hs]; [|by eapply inv_step]. split; cbn.
  - apply NoDup_nil_2.
  - done.
  - done.
  - by intros i l.
Qed.

(** ** Theorems *)

Lemma active_command w n x : inv w -> calls w n = Some x -> owns x = true ->
  GetTargetActiveCommand (call_target x) w = if decide (at_phase x = Holding) then operationName x else EmptyString.
Proof.
  intros [Hd Hl _ _] Hx Ho. destruct (Hl _ _ Hx) as (l & Hlx & Ht & Hown). destruct (Hown Ho) as [_ <-]. unfold GetTargetActiveCommand.
  destruct (list_find (fun y => target y = call_target x) (targets w)) as [[j y]|] eqn:Hf.
  - apply list_find_Some in Hf as (Hj & Hy & _). assert (j = lock_index x) as ->; [|congruence].
    eapply NoDup_lookup; [exact Hd|by rewrite list_lookup_fmap, Hj|]. rewrite list_lookup_fmap, Hlx. cbn. congruence.
  - apply list_find_None in Hf. exfalso. apply (proj1 (Forall_lookup _ _) Hf _ _ Hlx). done.
Qed.

Lemma same_lock w n m x y : inv w -> calls w n = Some x -> calls w m = Some y -> call_target x = call_target y -> lock_index x = lock_index y.
Proof.
  intros [Hd Hl _ _] Hx Hy E. destruct (Hl _ _ Hx) as (l & Hlx & Ht & _). destruct (Hl _ _ Hy) as (l' & Hly & Ht' & _).
  eapply NoDup_lookup; [exact Hd|by rewrite list_lookup_fmap, Hlx|]. rewrite list_lookup_fmap, Hly. cbn. congruence.
Qed.

(** C19: of all calls on one target, at most one has its lock, from the moment it receives the token until it gives it back,
    which never blocks. While a call works, its operation is the active command of the target; when no call has the lock
    no command is. *)
Theorem one_call_per_target w t : reachable w ->
  (forall n m x y, calls w n = Some x -> calls w m = Some y -> call_target x = t -> call_target y = t -> owns x = true -> owns y = true -> n = m) /\
  (forall n x, calls w n = Some x -> call_target x = t -> at_phase x = Holding -> GetTargetActiveCommand t w = operationName x) /\
  ((forall n x, calls w n = Some x -> call_target x = t -> at_phase x <> Holding) -> GetTargetActiveCommand t w = EmptyString) /\
  (forall n x, calls w n = Some x -> at_phase x = Clearing -> is_Some (step (Send n) w)).
Proof.
  intros Hw%access_inv. split_and!.
  - intros n m x y Hx Hy Htx Hty Hox Hoy. eapply (inv_one _ Hw); [done..|]. apply (same_lock w n m); congruence.
  - intros n x Hx <- Hp. rewrite (active_command w n x); [by rewrite decide_True|done|done|]. unfold owns. by rewrite Hp.
  - intros Hno. unfold GetTargetActiveCommand. destruct (list_find (fun y => target y = t) (targets w)) as [[j l]|] eqn:Hf; [|done].
    apply list_find_Some in Hf as (Hj & Ht & _). pose proof (inv_owned _ Hw _ _ Hj) as Hu. destruct (unlocked l); [done|].
    destruct Hu as (n & x & Hx & Hox & Hi). destruct (inv_lock _ Hw _ _ Hx) as (l1 & E & Hc & Hown). rewrite Hi, Hj in E. injection E as <-.
    destruct (Hown Hox) as [_ ->]. apply decide_False. apply (Hno n x Hx). congruence.
  - intros n x Hx Hp. destruct (inv_lock _ Hw _ _ Hx) as (l & Hlx & _ & Hown). assert (owns x = true) as Hox by (unfold owns; by rewrite Hp).
    destruct (Hown Hox) as [Hul _]. cbn [step]. rewrite Hx. cbn. rewrite Hlx. cbn. rewrite decide_True, Hul by done. done.
Qed.

Lemma run_app ls ls' w : run (ls ++ ls') w = run ls w ≫= run ls'.
Proof. revert w. induction ls as [|l ls IH]; intros w; cbn; [done|]. destruct (step l w); cbn; [apply IH|done]. Qed.

Lemma run_inv ls : forall w w', inv w -> run ls w = Some w' -> inv w'.
Proof.
  induction ls as [|l ls IH]; intros w w' Hw; cbn; [by intros [= <-]|]. intros (w1 & Hs & Hr)%bind_Some. eapply IH; [by eapply inv_step|done].
Qed.

(** The steps by which the call that has a lock gives it back. *)
Definition releases (p : phase) (m : nat) : list label :=
  match p with Waiting => [] | Granted => [StoreName m; ClearName m; Send m] | Holding => [ClearName m; Send m] | Clearing => [Send m] end.

(** A step of call [m] on its lock. *)
Definition moved (m : nat) (x' : option call) (i : nat) (l' : TargetLock) (w : world) : world := set_lock i l' (set_call m x' w).

Lemma moved_spec m x' i l l' w : targets w !! i = Some l ->
  calls (moved m x' i l' w) m = x' /\ targets (moved m x' i l' w) !! i = Some l' /\
  forall n, n <> m -> calls (moved m x' i l' w) n = calls w n.
Proof.
  intros Hl. split_and!; cbn; [apply fn_lookup_insert| |intros n Hn; by apply fn_lookup_insert_ne].
  apply list_lookup_insert_eq. by eapply lookup_lt_Some.
Qed.

Lemma own_step w m y l : calls w m = Some y -> targets w !! lock_index y = Some l ->
  match at_phase y with
  | Waiting => unlocked l = true ->
      step (Receive m) w = Some (moved m (Some (with_phase Granted y)) (lock_index y) {| target := target l; activeCommand := activeCommand l; unlocked := false |} w)
  | Granted =>
      step (StoreName m) w = Some (moved m (Some (with_phase Holding y)) (lock_index y) {| target := target l; activeCommand := operationName y; unlocked := unlocked l |} w)
  | Holding =>
      step (ClearName m) w = Some (moved m (Some (with_phase Clearing y)) (lock_index y) {| target := target l; activeCommand := EmptyString; unlocked := unlocked l |} w)
  | Clearing => unlocked l = false ->
      step (Send m) w = Some (moved m None (lock_index y) {| target := target l; activeCommand := activeCommand l; unlocked := true |} w)
  end.
Proof.
  intros Hy Hl. destruct (at_phase y) eqn:Hp; try intros Hul; cbn [step]; rewrite Hy; cbn [mbind option_bind]; rewrite Hl; cbn [mbind option_bind];
    rewrite decide_True by done; rewrite ?Hul; done.
Qed.

Lemma releases_run p : forall w m y n x l, calls w m = Some y -> at_phase y = p -> p <> Waiting -> targets w !! lock_index y = Some l ->
  unlocked l = false -> calls w n = Some x -> n <> m ->
  exists w' l', run (releases p m) w = Some w' /\ calls w' n = Some x /\ targets w' !! lock_index y = Some l' /\ unlocked l' = true.
Proof.
  assert (forall w m y n x l, calls w m = Some y -> at_phase y = Clearing -> targets w !! lock_index y = Some l -> unlocked l = false ->
    calls w n = Some x -> n <> m ->
    exists w' l', run (releases Clearing m) w = Some w' /\ calls w' n = Some x /\ targets w' !! lock_index y = Some l' /\ unlocked l' = true) as HC.
  { intros w m y n x l Hy Hp Hl Hul Hx Hne. pose proof (own_step w m y l Hy Hl) as Hs. rewrite Hp in Hs. specialize (Hs Hul).
    cbn [releases run]. rewrite Hs. eexists _, _. split; [reflexivity|].
    edestruct moved_spec as (_ & -> & ->); [exact Hl|done|]. done. }
  assert (forall w m y n x l, calls w m = Some y -> at_phase y = Holding -> targets w !! lock_index y = Some l -> unlocked l = false ->
    calls w n = Some x -> n <> m ->
    exists w' l', run (releases Holding m) w = Some w' /\ calls w' n = Some x /\ targets w' !! lock_index y = Some l' /\ unlocked l' = true) as HH.
  { intros w m y n x l Hy Hp Hl Hul Hx Hne. pose proof (own_step w m y l Hy Hl) as Hs. rewrite Hp in Hs.
    change (releases Holding m) with (ClearName m :: releases Clearing m). cbn [run]. rewrite Hs. cbn [mbind option_bind].
    destruct (moved_spec m (Some (with_phase Clearing y)) _ _ {| target := target l; activeCommand := EmptyString; unlocked := unlocked l |} w Hl) as (E1 & E2 & E3).
    eapply (HC _ m (with_phase Clearing y)); [exact E1|done|exact E2|done|by rewrite E3|done]. }
  intros w m y n x l Hy Hp Hnw Hl Hul Hx Hne. destruct p; [done| |by eapply HH|by eapply HC].
  pose proof (own_step w m y l Hy Hl) as Hs. rewrite Hp in Hs.
  change (releases Granted m) with (StoreName m :: releases Holding m). cbn [run]. rewrite Hs. cbn [mbind option_bind].
  destruct (moved_spec m (Some (with_phase Holding y)) _ _ {| target := target l; activeCommand := operationName y; unlocked := unlocked l |} w Hl) as (E1 & E2 & E3).
  eapply (HH _ m (with_phase Holding y)); [exact E1|done|exact E2|done|by rewrite E3|done].
Qed.

Lemma waiting_gets_free_lock w n x l : calls w n = Some x -> at_phase x = Waiting -> targets w !! lock_index x = Some l -> unlocked l = true ->
  exists w', run [Receive n; StoreName n] w = Some w' /\ calls w' n = Some (with_phase Holding x).
Proof.
  intros Hx Hp Hl Hul. pose proof (own_step w n x l Hx Hl) as Hs. rewrite Hp in Hs. cbn [run]. rewrite (Hs Hul). cbn [mbind option_bind].
  destruct (moved_spec n (Some (with_phase Granted x)) _ _ {| target := target l; activeCommand := activeCommand l; unlocked := false |} w Hl) as (E1 & E2 & _).
  pose proof (own_step _ n (with_phase Granted x) _ E1 E2) as Hs2. cbn [at_phase with_phase] in Hs2. rewrite Hs2. cbn [mbind option_bind].
  eexists. split; [reflexivity|]. edestruct moved_spec as (-> & _); [exact E2|]. done.
Qed.

(** A call that waits for a target can always get it, by at most three steps of the call that has the lock and two of
    its own; a call that is not cancelled can end in no other way than by giving the token back. *)
Theorem waiting_call_can_get_target w n x : reachable w -> calls w n = Some x ->
  (at_phase x = Waiting -> exists ls w', (length ls <= 5)%nat /\ run ls w = Some w' /\ calls w' n = Some (with_phase Holding x) /\
     exists m, ls = [Receive n; StoreName n] \/ exists y, calls w m = Some y /\ lock_index y = lock_index x /\ owns y = true /\
       ls = releases (at_phase y) m ++ [Receive n; StoreName n]) /\
  (forall l w', step l w = Some w' -> calls w' n = None -> (l = Canceled n /\ done_closed x = true /\ at_phase x = Waiting) \/ (l = Send n /\ at_phase x = Clearing)).
Proof.
  intros Hw%access_inv Hx. split.
  - intros Hp. destruct (inv_lock _ Hw _ _ Hx) as (l & Hl & _). pose proof (inv_owned _ Hw _ _ Hl) as Hu. destruct (unlocked l) eqn:Hul.
    + destruct (waiting_gets_free_lock w n x l) as (w' & Hr & Hc); [done..|]. exists [Receive n; StoreName n], w'. split_and!; [cbn; lia|done|done|].
      exists n. by left.
    + destruct Hu as (m & y & Hy & Hoy & Hi). assert (n <> m) as Hne.
      { intros ->. rewrite Hx in Hy. injection Hy as <-. unfold owns in Hoy. by rewrite Hp in Hoy. }
      destruct (releases_run (at_phase y) w m y n x l) as (w1 & l1 & Hr & Hx1 & Hl1 & Hul1); [done|done|unfold owns in Hoy; by destruct (at_phase y)|by rewrite Hi|done..|]. rewrite Hi in Hl1.
      destruct (waiting_gets_free_lock w1 n x l1) as (w2 & Hr2 & Hc); [done..|].
      exists (releases (at_phase y) m ++ [Receive n; StoreName n]), w2. split_and!; [by destruct (at_phase y); cbn; lia| |done|exists m; right; by exists y].
      rewrite run_app, Hr. done.
  - assert (forall m (z : call), <[m := Some z]> (calls w) n = None -> False) as Hno.
    { intros m z. destruct (decide (m = n)) as [->|Hmn]; [by rewrite fn_lookup_insert|rewrite fn_lookup_insert_ne by done; congruence]. }
    assert (forall m, <[m := None]> (calls w) n = None -> m = n) as Hyes.
    { intros m. destruct (decide (m = n)) as [->|Hmn]; [done|]. rewrite fn_lookup_insert_ne by done. congruence. }
    intros l w' Hs Hn. destruct l as [m t op|m|m|m|m|m|m]; cbn [step] in Hs.
    { destruct (calls w m); [done|]. destruct (findOrCreateTargetLock t (targets w)). injection Hs as <-. by apply Hno in Hn. }
    all: apply bind_Some in Hs as (y & Hy & Hs).
    { injection Hs as <-. by apply Hno in Hn. }
    { destruct (decide (at_phase y = Waiting)) as [Hp|]; [|done]. destruct (done_closed y) eqn:Hd; [|done]. injection Hs as <-.
      apply Hyes in Hn as ->. rewrite Hx in Hy. injection Hy as <-. by left. }
    all: apply bind_Some in Hs as (l & Hl & Hs).
    1, 2, 3: destruct (decide _); [|done]; try destruct (unlocked l); try done; injection Hs as <-; by apply Hno in Hn.
    destruct (decide (at_phase y = Clearing)) as [Hp|]; [|done]. destruct (unlocked l); [done|]. injection Hs as <-.
    apply Hyes in Hn as ->. rewrite Hx in Hy. injection Hy as <-. by right.
Qed.

(** ** Evaluation *)

Lemma access_reachable ls : forall w w', reachable w -> run ls w = Some w' -> reachable w'.
Proof.
  induction ls as [|l ls IH]; intros w w' Hw; cbn; [by intros [= <-]|]. intros (w1 & Hs & Hr)%bind_Some.
  eapply IH; [by eapply reachable_step|done].
Qed.

(** Two calls on one target and one on another; the first has the lock. *)
Definition three_calls : list label :=
  [Call 0 (SSHTarget [board]) "target prepare"; Call 1 (SSHTarget [board]) "target info"; Call 2 LocalTarget "target login";
   Receive 0; StoreName 0; CloseDone 0].

Definition contended : world := default no_calls (run three_calls no_calls).

Lemma contended_reachable : reachable contended.
Proof. eapply (access_reachable three_calls); [constructor|vm_compute; reflexivity]. Qed.

Lemma one_call_per_target_witness :
  GetTargetActiveCommand (SSHTarget [board]) contended = "target prepare" /\ GetTargetActiveCommand LocalTarget contended = EmptyString.
Proof.
  split.
  - destruct (one_call_per_target contended (SSHTarget [board]) contended_reachable) as (_ & H & _).
    destruct (calls contended 0%nat) as [x|] eqn:Hx; [|vm_compute in Hx; discriminate].
    rewrite (H 0%nat x Hx); vm_compute in Hx; injection Hx as <-; reflexivity.
  - destruct (one_call_per_target contended LocalTarget contended_reachable) as (_ & _ & H & _). apply H.
    intros n x Hx Ht. destruct n as [|[|[|n]]]; vm_compute in Hx; try discriminate; injection Hx as <-; discriminate.
Defined.

Lemma waiting_call_can_get_target_witness : exists ls w' x, run ls contended = Some w' /\ calls w' 1%nat = Some x /\ at_phase x = Holding.
Proof.
  destruct (calls contended 1%nat) as [x|] eqn:Hx; [|vm_compute in Hx; discriminate].
  destruct (waiting_call_can_get_target contended 1 x contended_reachable Hx) as [H _].
  destruct H as (ls & w' & _ & Hr & Hc & _); [vm_compute in Hx; by injection Hx as <-|]. exists ls, w', (with_phase Holding x). split_and!; [done|done|reflexivity].
Defined.
