(* ===== verification/RunRenders.v ===== *)
(** * Performix: the renders of a run

    Models [core/apap-engine/run/rerender_builder.go]: a render of a run has a directory below
    the run, with a directory for temporary files, and a lock file elsewhere. Operations are
    functions on the disk, as those of [RunCollection]; what locks answer is an argument, and
    so is what [os.RemoveAll] cannot remove. Separators are slashes. *)

From S2P Require Import Prelude.
From S2P Require Import GoStrings.
From S2P Require Import FilePaths.
From S2P Require Import Disk.
From S2P Require Import RunCollection.
From Stdlib Require Import Ascii.

(** ** The file system *)

(** [os.Stat]: another error than absence when an ancestor is a file. *)
Inductive stat_answer := Exists (n : node) | NotExist | StatFailed.

Definition Stat (d : disk) (p : path) : stat_answer :=
  match node_at d p with
  | Some n => Exists n
  | None => if existsb (fun n => match node_at d (take n p) with Some (NFile _) => true | _ => false end) (seq 0 (length p)) then StatFailed else NotExist
  end.

(** [os.RemoveAll] where some entries cannot be removed: they stay, with the directories they
    are in. *)
Definition left_behind (stuck : path -> bool) (p : path) (d : disk) (q : path) : Prop :=
  map_Exists (fun r _ => p `prefix_of` r /\ q `prefix_of` r /\ stuck r = true) d.

#[export] Instance left_behind_dec stuck p d q : Decision (left_behind stuck p d q).
Proof. unfold left_behind. apply _. Defined.

Definition remove_tree (stuck : path -> bool) (p : path) (d : disk) : disk * bool :=
  (filter (fun kv => ~ p `prefix_of` kv.1 \/ left_behind stuck p d kv.1) d, bool_decide (~ left_behind stuck p d p)).

(** [os.Remove]: a file, or a directory with nothing in it. *)
Definition Remove (stuck : path -> bool) (p : path) (d : disk) : disk * bool :=
  match d !! p with
  | None => (d, false)
  | Some n =>
      if stuck p || bool_decide (n = NDir /\ map_Exists (fun q _ => p `prefix_of` q /\ q <> p) d) then (d, false)
      else (delete p d, true)
  end.

(** An operation that depends on what is there. *)
Definition looking {A} (k : disk -> op A) : op A := fun d => k d d.

(** ** Paths of a render *)

Definition lockDirName : string := "locks".

Definition RenderPath (renderID : string) : string := JoinPath [renderDirName; renderID].

(** [cleanRelativePath]: where the path escapes or is not relative, an error. *)
Definition cleanRelativePath (p : string) : result run_error string :=
  if bool_decide (p = EmptyString) then Err (UnknownError "path is empty")
  else
    let cleaned := Clean p in
    if HasPrefix cleaned "/" then Err (UnknownError "path must be relative")
    else if bool_decide (cleaned = ".") || bool_decide (cleaned = "..") || HasPrefix cleaned "../"
    then Err (UnknownError "path escapes render directory")
    else Ok cleaned.

Definition normalizeTempFilePath (tempFile tempRoot : string) : result run_error string :=
  if bool_decide (tempFile = EmptyString) then Err (UnknownError "path is empty")
  else
    let cleaned := Clean tempFile in
    if HasPrefix cleaned "/" then
      match Rel (Clean tempRoot) cleaned with
      | None => Err (UnknownError "failed to relativize temp path")
      | Some rel => cleanRelativePath rel
      end
    else cleanRelativePath tempFile.

Inductive try_answer := Acquired | Held | TryFailed.

Lemma mkdir_from_new fl rest : forall made d q, let d' := (mkdir_from fl made rest d).1 in d' !! q = d !! q \/ d !! q = None /\ d' !! q = Some NDir.
Proof.
  induction rest as [|x rest IH]; intros made d q; cbn [mkdir_from fst]; [by left|].
  destruct (d !! (made ++ [x])) as [[|]|] eqn:Hx; [by left|apply IH|]. destruct (refuses fl (made ++ [x])); [by left|].
  destruct (IH (made ++ [x]) (<[made ++ [x] := NDir]> d) q) as [->|[Hn ->]].
  - destruct (decide (q = made ++ [x])) as [->|Hne]; [right; by rewrite lookup_insert_eq|left; by rewrite lookup_insert_ne].
  - destruct (decide (q = made ++ [x])) as [->|Hne]; [by rewrite lookup_insert_eq in Hn|rewrite lookup_insert_ne in Hn by done; by right].
Qed.

(** Directories are made, at prefixes of the path, and nothing else changes. *)
Lemma MkdirAll_new fl p d d' ok q : MkdirAll fl p d = (d', ok) -> d' !! q = d !! q \/ d !! q = None /\ d' !! q = Some NDir /\ q `prefix_of` p.
Proof.
  intros Hm. pose proof (mkdir_from_new fl p [] d q) as H. pose proof (MkdirAll_adds fl p d) as Ha. unfold MkdirAll in Hm. rewrite Hm in *. cbn [fst] in H.
  unfold MkdirAll in Ha. rewrite Hm in Ha. destruct Ha as [Ha _]. destruct H as [H|[H1 H2]]; [by left|]. right. split; [done|]. split; [done|].
  destruct (Ha q) as [E|[_ [_ ?]]]; [congruence|done].
Qed.

(** A path that is accepted is one of plain names. *)
Lemma cleanRelativePath_Ok p r : cleanRelativePath p = Ok r ->
  HasPrefix p "/" = false /\ components p <> [] /\ Forall plain_name (components p) /\ Split "/" r = components p /\ r <> EmptyString.
Proof.
  unfold cleanRelativePath. case_bool_decide as Hp; [done|]. rewrite Clean_rooted. destruct (HasPrefix p "/") eqn:Hr; [done|].
  case_bool_decide as Hdot; [done|]. case_bool_decide as Hup; [done|]. destruct (HasPrefix (Clean p) "../") eqn:Hups; [done|]. intros [= <-].
  assert (components p <> []) as Hne by (intros E; apply Hdot; by rewrite Clean_components, E, Hr).
  assert (Clean p = Join "/" (components p)) as Hc by (by rewrite Clean_text, Hr by done).
  pose proof (components_ok p) as Hok.
  assert (".." ∉ components p) as Hno.
  { apply components_no_parent. destruct (components p) as [|x l] eqn:El; [done|]. intros [= ->]. rewrite Hc in Hup, Hups.
    destruct (Join_up l) as [?|?]; congruence. }
  split_and!; [done|done| | |].
  - apply Forall_forall. intros x Hx. split; [by eapply Forall_forall in Hok|]. intros ->. by apply Hno, list_elem_of_In.
  - rewrite Hc. apply (Split_Join "/"); [done|]. eapply Forall_impl; [exact Hok|]. by intros x (_ & _ & ?).
  - intros E. rewrite Hc in E. destruct (components p) as [|x l]; [done|]. destruct (Join_cons "/" x l) as (r & E' & _). rewrite E' in E.
    apply Forall_cons in Hok as [(? & _) _]. by destruct x.
Qed.

Lemma normalizeTempFilePath_Ok p root r : normalizeTempFilePath p root = Ok r ->
  exists t, t <> [] /\ Forall plain_name t /\ Split "/" r = t /\ r <> EmptyString /\ (HasPrefix p "/" = false -> t = components p).
Proof.
  unfold normalizeTempFilePath. case_bool_decide; [done|]. rewrite Clean_rooted. destruct (HasPrefix p "/") eqn:Hp.
  - destruct (Rel (Clean root) (Clean p)) as [rel|]; [|done]. intros (_ & ? & ? & ? & ?)%cleanRelativePath_Ok. exists (components rel). by split_and!.
  - intros (_ & ? & ? & ? & ?)%cleanRelativePath_Ok. exists (components p). by split_and!.
Qed.

Lemma names_plain l : Forall plain_name l -> names l = l.
Proof. intros Hl. apply names_ok_id. eapply Forall_impl; [exact Hl|]. by intros x [? _]. Qed.

Section Renders.

Context (c : RunCollection) (f : faults) (stuck : path -> bool).

(** A [RunRenderFS] *)
Context (run : string).

Definition render_dir (d : disk) (renderID : string) : path := components (JoinPath [GetRunPath c d run; RenderPath renderID]).
Definition render_root (d : disk) : path := components (JoinPath [GetRunPath c d run; renderDirName]).

(** [renderLockDir], below [getLockDir] of the run *)
Definition renderLockDir : path := parent (components (primaryPath c)) ++ [lockDirName; run; renderDirName].
Definition renderLockPath (renderID : string) : path := renderLockDir ++ [renderID].

(** [LockRun] and [RLockRun], during which others may change the disk. *)
Definition LockRun (ans : lock_answer) (meanwhile : disk -> disk) : op unit := lockRun c ans run;; modify meanwhile.

Definition nonempty_id (renderID : string) : op unit := fun d =>
  (d, if bool_decide (renderID = EmptyString) then Err (UnknownError "render ID is empty") else Ok tt).

(** ** Operations *)

Definition CreateTempRenderDir (ans : lock_answer) (meanwhile : disk -> disk) (renderID : string) : op string :=
  nonempty_id renderID;;
  LockRun ans meanwhile;;
  absPath ← from_result (fun d => Ok (JoinPath [GetRunPath c d run; RenderPath renderID; "temp"]));
  attempt (UnknownError "mkdir") (MkdirAll f (components absPath));;
  mret absPath.

Definition RemoveRenderDir (ans : lock_answer) (meanwhile : disk -> disk) (renderID : string) : op unit :=
  nonempty_id renderID;;
  looking (fun d =>
    match Stat d (render_root d) with
    | NotExist => mret tt
    | StatFailed => throw (UnknownError "stat")
    | Exists _ =>
        LockRun ans meanwhile;;
        looking (fun d => attempt (UnknownError "remove") (remove_tree stuck (render_dir d renderID)))
    end).

(** [MoveTempFile] with the lock held, below this directory of the run. *)
Definition move_temp (basePath renderID tempFile destRelPath : string) : op unit :=
  let tempRoot := JoinPath [basePath; RenderPath renderID; "temp"] in
  cleanTempFile ← from_result (fun _ => normalizeTempFilePath tempFile tempRoot);
  cleanDestPath ← from_result (fun _ => cleanRelativePath destRelPath);
  let srcPath := components (JoinPath [tempRoot; cleanTempFile]) in
  let destPath := components (JoinPath [basePath; RenderPath renderID; cleanDestPath]) in
  looking (fun d =>
    match Stat d srcPath, Stat d destPath with
    | NotExist, _ => throw (UnknownError "render temp file not found")
    | StatFailed, _ => throw (UnknownError "stat")
    | Exists _, Exists _ => throw (UnknownError "render destination already exists")
    | Exists _, StatFailed => throw (UnknownError "stat")
    | Exists _, NotExist =>
        attempt (UnknownError "mkdir") (MkdirAll f (parent destPath));;
        attempt (UnknownError "rename") (Rename f srcPath destPath)
    end).

Definition MoveTempFile (ans : lock_answer) (meanwhile : disk -> disk) (renderID tempFile destRelPath : string) : op unit :=
  nonempty_id renderID;;
  LockRun ans meanwhile;;
  looking (fun d => move_temp (GetRunPath c d run) renderID tempFile destRelPath).

Definition ListRenderDirs (ans : lock_answer) (meanwhile : disk -> disk) : op (list string) :=
  looking (fun d =>
    match Stat d (render_root d) with
    | NotExist => mret []
    | StatFailed => throw (UnknownError "stat")
    | Exists _ =>
        LockRun ans meanwhile;;
        from_result (fun d =>
          match ReadDir (render_root d) d with
          | None => Err (UnknownError "readdir")
          | Some entries => if forallb (fun e => bool_decide (e.2 = NDir)) entries then Ok entries.*1
                            else Err (UnknownError "unexpected non-directory entry in render dir")
          end)
    end).

(** [TryLock] of a file lock: opening the file creates it. *)
Definition TryLock (ans : try_answer) (p : path) : op bool := fun d =>
  match d !! p with
  | Some NDir => (d, Err (UnknownError "open"))
  | found =>
      if bool_decide (found = None) && refuses f p then (d, Err (UnknownError "open"))
      else
        (match found with None => <[p := NFile EmptyString]> d | _ => d end,
         match ans with Acquired => Ok true | Held => Ok false | TryFailed => Err (UnknownError "flock") end)
  end.

Definition TryLockRender (ans : try_answer) (renderID : string) : op bool :=
  attempt (UnknownError "failed to create render lock dir") (MkdirAll f renderLockDir);; TryLock ans (renderLockPath renderID).

Definition RemoveRenderLock (renderID : string) (d : disk) : disk * bool := Remove stuck (renderLockPath renderID) d.

(** ** Cleaning up *)

(** What the locks answer: that of the run for listing and for each removal, and those of the
    renders. *)
Record answers := { for_list : lock_answer; for_remove : string -> lock_answer; for_render : string -> try_answer; for_orphan : string -> try_answer }.

Definition id_disk : disk -> disk := fun d => d.

(** The first loop of [CleanupStaleRenders]. An error of [TryLockRender] is as if the render
    were active. *)
Definition tries (ans : try_answer) (id : string) : op bool := fun d =>
  match TryLockRender ans id d with (d', Ok b) => (d', Ok b) | (d', Err _) => (d', Ok false) end.

Definition clean_render (a : answers) (id : string) : op unit :=
  looking (fun d =>
    match Stat d (renderLockPath id) with
    | StatFailed => throw (UnknownError "stat")
    | NotExist => RemoveRenderDir (for_remove a id) id_disk id
    | Exists _ =>
        acquired ← tries (for_render a id) id;
        if (acquired : bool) then RemoveRenderDir (for_remove a id) id_disk id;; modify (fun d => (RemoveRenderLock id d).1) else mret tt
    end).

Fixpoint clean_renders (a : answers) (ids : list string) : op unit :=
  match ids with [] => mret tt | id :: rest => clean_render a id;; clean_renders a rest end.

(** The second loop, over the entries of the directory of locks. *)
Fixpoint clean_orphans (a : answers) (renders : list string) (entries : list (string * node)) : disk -> disk :=
  match entries with
  | [] => fun d => d
  | (name, n) :: rest => fun d =>
      if bool_decide (n = NDir) || bool_decide (name ∈ renders) then clean_orphans a renders rest d
      else match for_orphan a name with
           | Acquired => clean_orphans a renders rest (RemoveRenderLock name d).1
           | _ => clean_orphans a renders rest d
           end
  end.

Definition CleanupStaleRenders (a : answers) : op unit :=
  renderDirs ← ListRenderDirs (for_list a) id_disk;
  clean_renders a renderDirs;;
  looking (fun d =>
    match Stat d renderLockDir with
    | NotExist => mret tt
    | StatFailed => throw (UnknownError "stat")
    | Exists (NFile _) => throw (UnknownError "render lock path is not a directory")
    | Exists NDir =>
        match ReadDir renderLockDir d with
        | None => throw (UnknownError "readdir")
        | Some entries => modify (clean_orphans a renderDirs entries)
        end
    end).

(** ** Paths *)

Definition run_path (d : disk) : path := base_of c d run ++ [run].

Lemma RenderPath_Split renderID : plain_name renderID -> Split "/" (RenderPath renderID) = [renderDirName; renderID] /\ RenderPath renderID <> EmptyString.
Proof.
  intros Hid. pose proof (plain_name_nonempty _ Hid) as Hne. unfold RenderPath. rewrite JoinPath_pair by done.
  assert (components (renderDirName +:+ String "/" renderID) = [renderDirName; renderID]) as Hcomp.
  { rewrite components_slash by done. rewrite plain_name_Split by done. by rewrite components_names by (by constructor). }
  assert (Clean (renderDirName +:+ String "/" renderID) = Join "/" [renderDirName; renderID]) as ->.
  { rewrite Clean_text, Hcomp by (by rewrite Hcomp). done. }
  split; [|done]. apply (Split_Join "/"); [done|]. repeat constructor. by destruct Hid as [(_ & _ & ?) _].
Qed.

Lemma components_below_render base renderID : base <> EmptyString -> plain_name renderID ->
  components (JoinPath [base; RenderPath renderID]) = components base ++ [renderDirName; renderID].
Proof.
  intros Hb Hid. destruct (RenderPath_Split _ Hid) as [Hs Hne]. rewrite JoinPath_pair, components_Clean, components_slash, Hs by done.
  rewrite components_names by (repeat constructor; try apply Hid; done). by rewrite reverse_involutive.
Qed.

Lemma components_in_render base renderID x : base <> EmptyString -> plain_name renderID -> x <> EmptyString -> ".." ∉ Split "/" x ->
  components (JoinPath [base; RenderPath renderID; x]) = components base ++ renderDirName :: renderID :: names (Split "/" x).
Proof.
  intros Hb Hid Hx Hup. destruct (RenderPath_Split _ Hid) as [Hs Hne]. rewrite JoinPath_triple, components_Clean, components_slash by done.
  rewrite Split_app, Hs. rewrite clean_no_parent.
  - rewrite reverse_involutive. f_equal. cbn [app]. unfold names. rewrite filter_cons_True by done. rewrite filter_cons_True; [done|].
    destruct Hid as [(? & ? & _) _]. done.
  - cbn [app]. rewrite !elem_of_cons. intros [?|[?|?]]; [done| |done]. by destruct Hid as [_ []].
Qed.

(** ** Moving a file *)

Context (rooted : rooted_collection c) (run_named : plain_name run).

Lemma GetRunPath_nonempty d : GetRunPath c d run <> EmptyString.
Proof.
  intros E. pose proof (GetRunPath_components c d run rooted run_named) as H. rewrite E in H. apply (f_equal length) in H.
  rewrite length_app in H. change (components EmptyString) with ([] : list string) in H. cbn in H. lia.
Qed.

Lemma dest_path_components base renderID r l : base <> EmptyString -> plain_name renderID -> r <> EmptyString -> Split "/" r = l -> Forall plain_name l ->
  components (JoinPath [base; RenderPath renderID; r]) = components base ++ renderDirName :: renderID :: l.
Proof.
  intros Hb Hid Hr Hs Hl. rewrite components_in_render, Hs, names_plain by (done || (rewrite Hs; intros Hin; rewrite Forall_forall in Hl; by destruct (Hl _ Hin))). done.
Qed.

Lemma temp_plain : plain_name "temp".
Proof. apply (bool_decide_unpack _). vm_compute. done. Qed.

Lemma temp_path_components base renderID r t : base <> EmptyString -> plain_name renderID -> r <> EmptyString -> Split "/" r = t -> Forall plain_name t ->
  components (JoinPath [JoinPath [base; RenderPath renderID; "temp"]; r]) = components base ++ renderDirName :: renderID :: "temp" :: t.
Proof.
  intros Hb Hid Hr Hs Ht. assert (components (JoinPath [base; RenderPath renderID; "temp"]) = components base ++ [renderDirName; renderID; "temp"]) as Hroot.
  { rewrite (dest_path_components _ _ _ ["temp"]); [done|done|done|done|by apply plain_name_Split, temp_plain|constructor; [apply temp_plain|constructor]]. }
  assert (JoinPath [base; RenderPath renderID; "temp"] <> EmptyString) as Hne.
  { intros E. rewrite E in Hroot. change (components EmptyString) with ([] : list string) in Hroot. by apply (f_equal length) in Hroot; rewrite length_app in Hroot; cbn in Hroot; lia. }
  rewrite JoinPath_pair, components_Clean, components_slash, Hroot, Hs by done.
  rewrite components_names, reverse_involutive by done. by rewrite <-app_assoc.
Qed.

(** A file is moved between two paths, of which the second was absent. *)
Definition moved (src dest : path) (d d' : disk) : Prop :=
  (forall q, d' !! (dest ++ q) = d !! (src ++ q)) /\
  (forall q, ~ dest `prefix_of` q -> if decide (src `prefix_of` q) then d' !! q = None
                                     else d' !! q = d !! q \/ d !! q = None /\ d' !! q = Some NDir /\ q `prefix_of` dest).

Definition only_dirs (d d' : disk) : Prop := forall q, d' !! q = d !! q \/ d !! q = None /\ d' !! q = Some NDir.

Lemma Rename_apart fl old new d d' : Rename fl old new d = (d', true) -> ~ old `prefix_of` new.
Proof.
  unfold Rename. destruct (node_at d old); [|done].
  destruct (negb _ || is_dir d new || bool_decide (old `prefix_of` new) || refuses fl new || _) eqn:Hb; [done|]. intros _.
  apply orb_false_iff in Hb as [Hb _]. apply orb_false_iff in Hb as [Hb _]. by apply orb_false_iff in Hb as [_ ?%bool_decide_eq_false].
Qed.

Lemma move_between src dest d d' r :
  (attempt (UnknownError "mkdir") (MkdirAll f (parent dest));; attempt (UnknownError "rename") (Rename f src dest)) d = (d', r) ->
  match r with Ok _ => moved src dest d d' | Err _ => only_dirs d d' end.
Proof.
  unfold mbind, op_bind, attempt. destruct (MkdirAll f (parent dest) d) as [d1 [|]] eqn:Hm.
  2: { intros [= <- <-] q. destruct (MkdirAll_new _ _ _ _ _ q Hm) as [?|(? & ? & _)]; auto. }
  pose proof (fun q => MkdirAll_new _ _ _ _ _ q Hm) as Hq. destruct (Rename f src dest d1) as [d2 [|]] eqn:Hn.
  2: { apply Rename_failed in Hn as ->. intros [= <- <-] q. destruct (Hq q) as [?|(? & ? & _)]; auto. }
  intros [= <- <-]. pose proof (Rename_apart _ _ _ _ _ Hn) as Hap. apply Rename_lookup in Hn as [H1 H2]. split.
  - intros q. rewrite H1. destruct (Hq (src ++ q)) as [?|(_ & _ & Hp)]; [done|]. destruct Hap.
    etransitivity; [|apply parent_prefix]. etransitivity; [|exact Hp]. by eexists.
  - intros q Hnq. rewrite H2 by done. case_decide; [done|]. destruct (Hq q) as [->|(? & ? & Hp)]; [by left|]. right.
    split_and!; [done|done|]. etransitivity; [exact Hp|apply parent_prefix].
Qed.

(** Moving a file into a render, when it succeeds, takes it from below the directory for temporary files of that render
    to an absent path strictly below the directory of the render, whatever the two paths contain, and changes nothing
    else but that directories are made that lead there; a failure loses nothing and makes at most directories. *)
Theorem moved_stays_in_render ans meanwhile renderID tempFile destRelPath d d' r : plain_name renderID ->
  MoveTempFile ans meanwhile renderID tempFile destRelPath d = (d', r) ->
  match r with
  | Ok _ => exists t, let base := run_path (meanwhile d) ++ [renderDirName; renderID] in
      t <> [] /\ components destRelPath <> [] /\ Forall plain_name (t ++ components destRelPath) /\
      (HasPrefix tempFile "/" = false -> t = components tempFile) /\
      is_Some (meanwhile d !! (base ++ "temp" :: t)) /\ meanwhile d !! (base ++ components destRelPath) = None /\
      moved (base ++ "temp" :: t) (base ++ components destRelPath) (meanwhile d) d'
  | Err _ => d' = d \/ only_dirs (meanwhile d) d'
  end.
Proof.
  intros Hid. unfold MoveTempFile, LockRun, modify, lockRun, nonempty_id, looking. unfold mbind at 1, op_bind at 1.
  destruct (bool_decide (renderID = EmptyString)); [intros [= <- <-]; by left|]. unfold mbind at 1 2, op_bind at 1 2.
  destruct (if negb (runExists c d run) then _ else _) as [[]|e]; [|intros [= <- <-]; by left]. set (d1 := meanwhile d).
  assert (only_dirs d1 d1) as Hrefl by (intros q; by left).
  unfold move_temp. unfold mbind at 1, op_bind at 1, from_result at 1.
  destruct (normalizeTempFilePath _ _) as [ct|e] eqn:Hct; [|intros [= <- <-]; by right].
  unfold mbind at 1, op_bind at 1, from_result at 1. destruct (cleanRelativePath destRelPath) as [cd|e] eqn:Hcd; [|intros [= <- <-]; by right].
  apply normalizeTempFilePath_Ok in Hct as (t & Htne & Htp & Hts & Hcte & Htr). apply cleanRelativePath_Ok in Hcd as (_ & Hdne & Hdp & Hds & Hcde).
  pose proof (GetRunPath_nonempty d1) as Hgne.
  rewrite (temp_path_components _ _ _ t), (dest_path_components _ _ _ (components destRelPath)) by done.
  rewrite GetRunPath_components by done. fold (run_path d1). unfold looking.
  set (src := run_path d1 ++ renderDirName :: renderID :: "temp" :: t). set (dst := run_path d1 ++ renderDirName :: renderID :: components destRelPath).
  unfold Stat. destruct (node_at d1 src) as [n|] eqn:Hsrc; [|destruct (existsb _ _); intros [= <- <-]; by right].
  destruct (node_at d1 dst) eqn:Hdst; [intros [= <- <-]; by right|]. destruct (existsb _ _); [intros [= <- <-]; by right|].
  intros Hm. pose proof (move_between _ _ _ _ _ Hm) as Hmv. destruct r as [u|e]; [|by right]. exists t.
  assert (forall l, run_path d1 ++ renderDirName :: renderID :: l = (run_path d1 ++ [renderDirName; renderID]) ++ l) as Happ by (intros l; by rewrite <-app_assoc).
  unfold src, dst in *. rewrite (Happ ("temp" :: t)), (Happ (components destRelPath)) in *. clear Happ. split_and!; [done|done|by apply Forall_app|done| | |done].
  - unfold node_at in Hsrc. destruct (_ ++ "temp" :: t) eqn:E in Hsrc; [by destruct (run_path d1)|]. rewrite E. by eexists.
  - unfold node_at in Hdst. destruct (_ ++ components destRelPath) eqn:E in Hdst; [by destruct (run_path d1)|]. by rewrite E.
Qed.

(** ** Cleaning up *)

Lemma elem_of_ReadDir p d l name n : ReadDir p d = Some l -> (name, n) ∈ l <-> d !! (p ++ [name]) = Some n.
Proof.
  unfold ReadDir. destruct (is_dir d p); [|done]. intros [= <-]. rewrite list_elem_of_omap. split.
  - intros ([k m] & Hin & H). apply elem_of_walk in Hin as [Hk [q ->]]. cbn in H. rewrite drop_app_length in H. destruct q as [|x [|]]; [done| |done].
    by injection H as -> ->.
  - intros Hk. exists (p ++ [name], n). split; [apply elem_of_walk; split; [done|by eexists]|]. cbn. by rewrite drop_app_length.
Qed.

(** Removing entries. *)
Lemma remove_tree_spec p d d' ok q : remove_tree stuck p d = (d', ok) ->
  (d' !! q = d !! q \/ d' !! q = None /\ p `prefix_of` q) /\ (ok = true -> p `prefix_of` q -> d' !! q = None).
Proof.
  unfold remove_tree. intros [= <- <-]. split.
  - destruct (d !! q) as [n|] eqn:Hq; [|left; apply map_lookup_filter_None; by left].
    destruct (decide (~ p `prefix_of` q \/ left_behind stuck p d q)) as [Hk|Hk]; [left; by apply map_lookup_filter_Some|].
    right. split; [|destruct (decide (p `prefix_of` q)); [done|destruct Hk; by left]]. apply map_lookup_filter_None. right. intros n' _. cbn. done.
  - intros Hok%bool_decide_eq_true Hp. apply map_lookup_filter_None. right. intros n _. cbn. intros [?|Hl]; [done|]. apply Hok.
    destruct Hl as (r & m & Hr & ? & ? & ?). exists r, m. by split_and!.
Qed.

Lemma Remove_lookup p d q : (Remove stuck p d).1 !! q = d !! q \/ q = p /\ (Remove stuck p d).1 !! q = None.
Proof.
  unfold Remove. destruct (d !! p) as [n|]; [|by left]. destruct (_ || _); [by left|]. cbn.
  destruct (decide (q = p)) as [->|]; [right; by rewrite lookup_delete_eq|left; by rewrite lookup_delete_ne].
Qed.

(** Where the directories of runs are: not among the locks, nor in the renders of the run. *)
Definition apart (d : disk) : Prop := Forall (fun b =>
  let p := components b ++ [run] in
  ~ p `prefix_of` renderLockDir /\ ~ renderLockDir `prefix_of` p /\ ~ (run_path d ++ [renderDirName]) `prefix_of` p) (primaryPath c :: allPaths c).

Section Cleanup.

(** The disk before, what the locks answer, and the names of the renders. *)
Context (d0 : disk) (a : answers) (run_apart : apart d0).

Definition render_path (id : string) : path := run_path d0 ++ [renderDirName; id].

(** A render is stale when its lock file is missing or can be locked; a lock file is an orphan
    when it has no render and can be locked. *)
Definition stale (id : string) : Prop :=
  d0 !! render_path id = Some NDir /\ (d0 !! renderLockPath id = None \/ exists w, d0 !! renderLockPath id = Some (NFile w) /\ for_render a id = Acquired).
Definition orphan (name : string) : Prop :=
  d0 !! render_path name <> Some NDir /\ (exists w, d0 !! renderLockPath name = Some (NFile w)) /\ for_orphan a name = Acquired.

Definition removable (q : path) : Prop :=
  (exists id, stale id /\ (render_path id `prefix_of` q \/ q = renderLockPath id)) \/ exists name, orphan name /\ q = renderLockPath name.

(** What holds while cleaning up: only what is removable is missing, and nothing is new. *)
Record cleaning (d : disk) : Prop := {
  cleaning_kept q n : d0 !! q = Some n -> d !! q = Some n \/ d !! q = None /\ removable q;
  cleaning_new q n : d !! q = Some n -> d0 !! q = Some n
}.

Lemma run_path_base d : exists b, b ∈ primaryPath c :: allPaths c /\ run_path d = components b ++ [run].
Proof.
  unfold run_path, base_of, runBasePath. destruct (List.find _ (allPaths c)) as [b|] eqn:Hf.
  - apply List.find_some in Hf as [Hin _]. exists b. split; [|done]. right. by apply list_elem_of_In.
  - exists (primaryPath c). split; [left|done].
Qed.

Lemma render_root_apart : ~ (run_path d0 ++ [renderDirName]) `prefix_of` renderLockDir /\ ~ renderLockDir `prefix_of` (run_path d0 ++ [renderDirName]).
Proof.
  destruct (run_path_base d0) as (b & Hb & Hp). pose proof run_apart as Hap. unfold apart in Hap. rewrite Forall_forall in Hap.
  apply list_elem_of_In in Hb. specialize (Hap b ltac:(by apply list_elem_of_In)). cbn in Hap. rewrite <-Hp in Hap. destruct Hap as (H1 & H2 & _). split.
  - intros Hpre. apply H1. etransitivity; [|exact Hpre]. by eexists.
  - intros [r Hr]. destruct r as [|x r] using rev_ind.
    + rewrite app_nil_r in Hr. apply H1. rewrite <-Hr. by eexists.
    + rewrite app_assoc in Hr. apply app_inj_2 in Hr as [Hr _]; [|done]. apply H2. rewrite Hr. by eexists.
Qed.

Lemma removable_place q : removable q -> renderLockDir `prefix_of` q \/ (run_path d0 ++ [renderDirName]) `prefix_of` q.
Proof.
  unfold renderLockPath, render_path. intros [(id & _ & [Hp| ->])|(name & _ & ->)]; [right|left; by eexists|left; by eexists].
  etransitivity; [|exact Hp]. exists [id]. by rewrite <-app_assoc.
Qed.

Lemma cleaning_run d b : cleaning d -> b ∈ primaryPath c :: allPaths c -> PathExists d (JoinPath [b; run]) = PathExists d0 (JoinPath [b; run]).
Proof.
  intros [Hk Hn] Hb. unfold apart in run_apart. rewrite Forall_forall in run_apart. pose proof (run_apart b Hb) as Hap. cbn in Hap. destruct Hap as (H1 & H2 & H3).
  assert (HasPrefix b "/" = true) as Hr by (unfold rooted_collection in rooted; rewrite Forall_forall in rooted; by apply rooted).
  unfold PathExists. rewrite components_child by (done || by intros E; rewrite E in Hr). apply bool_decide_ext. unfold node_at.
  destruct (components b ++ [run]) as [|x p] eqn:Ep; [done|]. rewrite <-Ep in *. split; intros [n Hx].
  - rewrite (Hn _ _ Hx). by eexists.
  - destruct (Hk _ _ Hx) as [->|(_ & Hp)]; [by eexists|]. by destruct (removable_place _ Hp).
Qed.

Lemma cleaning_same_run d : cleaning d -> run_path d = run_path d0 /\ runExists c d run = runExists c d0 run.
Proof.
  intros Hd. split.
  - unfold run_path, base_of, runBasePath. do 3 f_equal. assert (forall l, l ⊆ allPaths c ->
      List.find (fun b => PathExists d (JoinPath [b; run])) l = List.find (fun b => PathExists d0 (JoinPath [b; run])) l) as ->; [|done|done].
    induction l as [|b l IH]; [done|]. intros Hl. cbn [List.find]. rewrite cleaning_run by (done || (right; apply Hl; left)).
    destruct (PathExists d0 _); [done|]. apply IH. intros x Hx. apply Hl. by right.
  - rewrite !runExists_spec by done. assert (forall l, l ⊆ allPaths c ->
      existsb (fun b => PathExists d (JoinPath [b; run])) l = existsb (fun b => PathExists d0 (JoinPath [b; run])) l) as ->; [|done|done].
    induction l as [|b l IH]; [done|]. intros Hl. cbn [existsb]. rewrite cleaning_run by (done || (right; apply Hl; left)). f_equal.
    apply IH. intros x Hx. apply Hl. by right.
Qed.

(** What is gone stays gone. *)
Definition later (d d' : disk) : Prop := forall q, d !! q = None -> d' !! q = None.

#[local] Instance later_preorder : PreOrder later.
Proof. split; [by intros d q|]. intros d1 d2 d3 H1 H2 q Hq. by apply H2, H1. Qed.

Lemma cleaning_start : cleaning d0.
Proof. split; [by left|done]. Qed.

Lemma cleaning_removes d d' : cleaning d -> (forall q, d' !! q = d !! q \/ d' !! q = None /\ (is_Some (d0 !! q) -> removable q)) -> cleaning d' /\ later d d'.
Proof.
  intros [Hk Hn] Hd. split; [split|].
  - intros q n Hq. destruct (Hd q) as [->|[-> Hr]]; [by apply Hk|]. right. split; [done|]. apply Hr. by eexists.
  - intros q n Hq. destruct (Hd q) as [E|[E _]]; [|congruence]. rewrite E in Hq. by apply Hn.
  - intros q Hq. destruct (Hd q) as [->|[-> _]]; done.
Qed.

Lemma not_removable_lock_prefix q : q `prefix_of` renderLockDir -> ~ removable q.
Proof.
  intros Hq [(id & _ & [Hp| ->])|(name & _ & ->)].
  - destruct render_root_apart as [[] _]. etransitivity; [|exact Hq]. etransitivity; [|exact Hp]. exists [id]. unfold render_path. by rewrite <-app_assoc.
  - apply prefix_length in Hq. unfold renderLockPath in Hq. rewrite length_app in Hq. cbn in Hq. lia.
  - apply prefix_length in Hq. unfold renderLockPath in Hq. rewrite length_app in Hq. cbn in Hq. lia.
Qed.

(** The directories of lock files are there. *)
Context (lock_dirs : forall id n q, d0 !! renderLockPath id = Some n -> q `prefix_of` renderLockDir -> is_dir d0 q = true).

Lemma cleaning_mkdir id n d : cleaning d -> d !! renderLockPath id = Some n -> MkdirAll f renderLockDir d = (d, true).
Proof.
  intros Hd Hl. apply MkdirAll_done. intros q Hq. pose proof (lock_dirs id n q (cleaning_new _ Hd _ _ Hl) Hq) as H0.
  apply is_dir_true in H0. apply is_dir_true. unfold node_at in *. destruct q as [|x q]; [done|].
  destruct (cleaning_kept _ Hd _ _ H0) as [?|[_ Hr]]; [done|]. by destruct (not_removable_lock_prefix _ Hq).
Qed.

(** A lock file that is removed is that of a stale render, or an orphan. *)
Lemma cleaning_remove_lock id d : cleaning d -> removable (renderLockPath id) -> cleaning (RemoveRenderLock id d).1 /\ later d (RemoveRenderLock id d).1.
Proof.
  intros Hd Hr. apply cleaning_removes; [done|]. intros q. destruct (Remove_lookup (renderLockPath id) d q) as [?|[-> ?]]; [by left|by right].
Qed.

Context (root_dir : d0 !! (run_path d0 ++ [renderDirName]) = Some NDir).

Lemma render_dir_path d id : cleaning d -> plain_name id -> render_dir d id = render_path id.
Proof.
  intros Hd Hid. unfold render_dir, render_path. rewrite components_below_render by (done || apply GetRunPath_nonempty).
  rewrite GetRunPath_components by done. fold (run_path d). by rewrite (proj1 (cleaning_same_run d Hd)).
Qed.

Lemma render_root_path d : render_root d = run_path d ++ [renderDirName].
Proof.
  unfold render_root. rewrite components_child; [|apply GetRunPath_nonempty|apply (bool_decide_unpack _); by vm_compute].
  by rewrite GetRunPath_components.
Qed.

Lemma RemoveRenderDir_spec id d d' r : cleaning d -> plain_name id -> stale id -> RemoveRenderDir (for_remove a id) id_disk id d = (d', r) ->
  (cleaning d' /\ later d d') /\ (is_ok r = true -> forall q, render_path id `prefix_of` q -> d' !! q = None).
Proof.
  intros Hd Hid Hst. unfold RemoveRenderDir, nonempty_id, looking. unfold mbind at 1, op_bind at 1.
  rewrite bool_decide_false by (by apply plain_name_nonempty).
  assert (d !! render_root d = Some NDir) as Hroot.
  { rewrite render_root_path, (proj1 (cleaning_same_run d Hd)). destruct (cleaning_kept _ Hd _ _ root_dir) as [?|[_ Hr]]; [done|].
    exfalso. destruct Hr as [(i & _ & [Hp|E])|(nm & _ & E)].
    - apply prefix_length in Hp. unfold render_path in Hp. rewrite !length_app in Hp. cbn in Hp. lia.
    - destruct render_root_apart as [_ []]. rewrite E. by eexists.
    - destruct render_root_apart as [_ []]. rewrite E. by eexists. }
  unfold Stat. unfold node_at at 1. destruct (render_root d) as [|x p] eqn:Er; [rewrite render_root_path in Er; by destruct (run_path d)|].
  rewrite Hroot. unfold LockRun, lockRun, modify, id_disk. unfold mbind, op_bind.
  destruct (if negb (runExists c d run) then _ else _) as [[]|e]; [|intros [= <- <-]; by split; [split|]].
  unfold attempt. rewrite render_dir_path by done. destruct (remove_tree stuck (render_path id) d) as [d1 ok] eqn:Hrm.
  assert ((if ok then (d1, Ok tt) else (d1, Err (UnknownError "remove"))) = (d', r) -> d1 = d' /\ (is_ok r = true -> ok = true)) as Hres by (by destruct ok; intros [= <- <-]).
  intros E%Hres. destruct E as [-> Hok]. split.
  - apply cleaning_removes; [done|]. intros q. destruct (remove_tree_spec _ _ _ _ q Hrm) as [[?|[? Hp]] _]; [by left|]. right. split; [done|].
    intros _. left. exists id. split; [done|by left].
  - intros Hr q Hp. destruct (remove_tree_spec _ _ _ _ q Hrm) as [_ Hgone]. apply Hgone; [by apply Hok|done].
Qed.

Definition listed (id : string) : Prop := plain_name id /\ d0 !! render_path id = Some NDir.

Lemma lock_path_cons id : exists x p, renderLockPath id = x :: p.
Proof. unfold renderLockPath, renderLockDir. destruct (parent (components (primaryPath c))); by eexists _, _. Qed.

Lemma listed_missing_lock id d : cleaning d -> listed id -> d !! renderLockPath id = None -> stale id.
Proof.
  intros [Hk _] [_ Hid] Hl. destruct (d0 !! renderLockPath id) as [n|] eqn:E; [|split; [done|by left]].
  destruct (Hk _ _ E) as [?|[_ [(i & Hi & [Hp|Ei])|(nm & (Hnd & _) & Ei)]]]; [congruence| | |].
  - destruct render_root_apart as [_ Hap]. exfalso. unfold render_path, renderLockPath in Hp.
    destruct Hp as [r Hp]. rewrite cons_middle, app_assoc, <-!app_assoc in Hp. cbn in Hp.
    destruct render_root_apart as [H1 H2]. destruct (prefix_weak_total (run_path d0 ++ [renderDirName]) renderLockDir (renderLockDir ++ [id])) as [?|?]; [|by eexists|done|done].
    exists (i :: r). rewrite Hp, <-app_assoc. done.
  - unfold renderLockPath in Ei. by apply app_inj_2 in Ei as [_ [= ->]].
  - unfold renderLockPath in Ei. apply app_inj_2 in Ei as [_ [= ->]]; done.
Qed.

Lemma clean_render_spec id d d' r : cleaning d -> listed id -> clean_render a id d = (d', r) ->
  (cleaning d' /\ later d d') /\ (is_ok r = true -> stale id -> forall q, render_path id `prefix_of` q -> d' !! q = None).
Proof.
  intros Hd Hid. unfold clean_render, looking. destruct (lock_path_cons id) as (x & p & Ep).
  unfold Stat. unfold node_at at 1. rewrite Ep, <-Ep. destruct (d !! renderLockPath id) as [n|] eqn:Hl.
  2: { destruct (existsb _ _); [intros [= <- <-]; split; [by split|done]|]. intros Hr.
       destruct (RemoveRenderDir_spec _ _ _ _ Hd (proj1 Hid) (listed_missing_lock _ _ Hd Hid Hl) Hr) as [? Hg]. split; [done|]. intros Ho _. by apply Hg. }
  assert (d0 !! renderLockPath id = Some n) as Hl0 by (by apply (cleaning_new _ Hd)).
  assert (stale id <-> exists w, n = NFile w /\ for_render a id = Acquired) as Hstl.
  { split; [intros [_ [E|(w & E & ?)]]; [congruence|exists w; by rewrite Hl0 in E; injection E]|].
    intros (w & -> & Ha). split; [apply Hid|right; by exists w]. }
  set (b := match n, for_render a id with NFile _, Acquired => true | _, _ => false end).
  assert (b = true <-> stale id) as Hb.
  { rewrite Hstl. unfold b. destruct n as [w|], (for_render a id); (split; [intros ?|intros (v & ? & ?)]); try done. by exists w. }
  unfold mbind at 1, op_bind at 1. assert (tries (for_render a id) id d = (d, Ok b)) as ->.
  { unfold tries, TryLockRender, mbind, op_bind, attempt. rewrite (cleaning_mkdir id n) by done. unfold TryLock. rewrite Hl.
    destruct n; [rewrite bool_decide_false by done; cbn|done]. by destruct (for_render a id). }
  destruct b; [|intros [= <- <-]; split; [by split|intros _ Hst; by apply Hb in Hst]].
  assert (stale id) as Hst by (by apply Hb). unfold mbind, op_bind, modify.
  destruct (RemoveRenderDir (for_remove a id) id_disk id d) as [d1 [[]|e]] eqn:Hr;
    destruct (RemoveRenderDir_spec _ _ _ _ Hd (proj1 Hid) Hst Hr) as [[Hd1 Hlt] Hg].
  - intros [= <- <-]. destruct (cleaning_remove_lock id d1 Hd1) as [Hd2 Hlt2]; [left; exists id; split; [done|by right]|].
    split; [split; [done|by etransitivity]|]. intros _ _ q Hq. apply Hlt2. by apply Hg.
  - intros [= <- <-]. by split.
Qed.

Lemma clean_renders_spec ids : forall d d' r, cleaning d -> Forall listed ids -> clean_renders a ids d = (d', r) ->
  (cleaning d' /\ later d d') /\ (is_ok r = true -> forall id, id ∈ ids -> stale id -> forall q, render_path id `prefix_of` q -> d' !! q = None).
Proof.
  induction ids as [|id ids IH]; intros d d' r Hd Hl.
  { intros [= <- <-]. split; [by split|]. intros _ id []%not_elem_of_nil. }
  apply Forall_cons in Hl as [Hid Hl]. cbn [clean_renders]. unfold mbind, op_bind.
  destruct (clean_render a id d) as [d1 [[]|e]] eqn:Hc; destruct (clean_render_spec _ _ _ _ Hd Hid Hc) as [[Hd1 Hlt] Hg].
  - intros Hr. destruct (IH _ _ _ Hd1 Hl Hr) as [[Hd2 Hlt2] Hg2]. split; [split; [done|by etransitivity]|].
    intros Ho i [->|Hi]%elem_of_cons Hs q Hq; [apply Hlt2; by apply Hg|by eapply Hg2].
  - intros [= <- <-]. by split.
Qed.

Lemma clean_orphans_spec renders entries : forall d, cleaning d ->
  (forall name n, (name, n) ∈ entries -> n <> NDir -> name ∉ renders -> for_orphan a name = Acquired -> removable (renderLockPath name)) ->
  cleaning (clean_orphans a renders entries d) /\ later d (clean_orphans a renders entries d).
Proof.
  induction entries as [|[name n] entries IH]; intros d Hd He; [by split|]. cbn [clean_orphans].
  assert (forall d1, cleaning d1 -> later d d1 -> cleaning (clean_orphans a renders entries d1) /\ later d (clean_orphans a renders entries d1)) as Hgo.
  { intros d1 Hd1 Hlt. destruct (IH d1 Hd1) as [? ?]; [intros nm m Hin; apply (He nm m); by right|]. split; [done|by etransitivity]. }
  case_bool_decide as Hn; cbn [orb]; [by apply Hgo|]. case_bool_decide as Hr; [by apply Hgo|].
  destruct (for_orphan a name) eqn:Ho; [|by apply Hgo..]. destruct (cleaning_remove_lock name d Hd) as [? ?]; [apply (He name n); [left|done..]|]. by apply Hgo.
Qed.

End Cleanup.

(** The renders and the lock files of the run are in directories, and their names are those of
    files. *)
Record render_tree (d : disk) : Prop := {
  tree_plain q n : d !! (run_path d ++ renderDirName :: q) = Some n -> Forall plain_name q;
  tree_render q n : d !! (run_path d ++ renderDirName :: q) = Some n -> q <> [] -> d !! (run_path d ++ [renderDirName]) = Some NDir;
  tree_locks id n q : d !! renderLockPath id = Some n -> q `prefix_of` renderLockDir -> is_dir d q = true
}.

Lemma ListRenderDirs_spec a d d' r : render_tree d -> ListRenderDirs (for_list a) id_disk d = (d', r) -> d' = d /\
  forall l, r = Ok l -> (forall id, id ∈ l <-> d !! render_path d id = Some NDir) /\ (l <> [] -> d !! (run_path d ++ [renderDirName]) = Some NDir).
Proof.
  intros Ht. unfold ListRenderDirs, looking. unfold Stat. rewrite render_root_path.
  assert (node_at d (run_path d ++ [renderDirName]) = d !! (run_path d ++ [renderDirName])) as Hnode.
  { unfold node_at. destruct (run_path d ++ [renderDirName]) eqn:E; [by destruct (run_path d)|done]. }
  assert (forall id, render_path d id = (run_path d ++ [renderDirName]) ++ [id]) as Hpath by (intros id; unfold render_path; by rewrite <-app_assoc).
  rewrite Hnode. destruct (d !! (run_path d ++ [renderDirName])) as [n|] eqn:Hroot.
  2: { destruct (existsb _ _); intros [= <- <-]; (split; [done|]); [done|]. intros l [= <-]. split; [|done]. intros id. split; [by intros []%not_elem_of_nil|].
       intros Hid. unfold render_path in Hid. pose proof (tree_render _ Ht [id] _ Hid ltac:(done)). congruence. }
  unfold LockRun, lockRun, modify, id_disk, mbind, op_bind, from_result.
  destruct (if negb (runExists c d run) then _ else _) as [[]|e]; [|by intros [= <- <-]]. intros [= <- <-]. split; [done|].
  rewrite render_root_path. destruct (ReadDir _ d) as [l'|] eqn:Hr; [|done]. destruct (forallb _ l') eqn:Hall; [|done]. intros l [= <-].
  assert (d !! (run_path d ++ [renderDirName]) = Some NDir) as Hdir.
  { unfold ReadDir in Hr. destruct (is_dir d _) eqn:Hd; [|done]. apply is_dir_true in Hd. congruence. }
  split; [|intros _; congruence]. intros id. rewrite Hpath, list_elem_of_fmap. split.
  - intros ([x m] & -> & Hin). pose proof Hin as Hin2. apply (elem_of_ReadDir _ _ _ _ _ Hr) in Hin. rewrite forallb_forall in Hall.
    apply list_elem_of_In in Hin2. specialize (Hall _ Hin2). apply bool_decide_eq_true in Hall. cbn in *. by subst.
  - intros Hid. exists (id, NDir). split; [done|]. by apply (elem_of_ReadDir _ _ _ _ _ Hr).
Qed.

(** C24: cleaning up removes nothing but stale renders with their lock files, and lock files without a render, which nobody
    holds: a render whose lock is held keeps every file, and so does everything else, whatever the disk and the locks
    refuse. When it succeeds no file of a stale render is left. *)
Theorem stale_renders_are_removed a d d' r : apart d -> render_tree d -> CleanupStaleRenders a d = (d', r) ->
  (forall q n, d' !! q = Some n -> d !! q = Some n) /\
  (forall q n, d !! q = Some n -> d' !! q = Some n \/ removable d a q) /\
  (r = Ok tt -> forall id q, stale d a id -> render_path d id `prefix_of` q -> d' !! q = None).
Proof.
  intros Hap Ht. unfold CleanupStaleRenders. unfold mbind at 1, op_bind at 1.
  destruct (ListRenderDirs (for_list a) id_disk d) as [d1 [l|e]] eqn:Hl; destruct (ListRenderDirs_spec _ _ _ _ Ht Hl) as [-> Hspec].
  2: { intros [= <- <-]. split_and!; [done|by left|done]. }
  destruct (Hspec l eq_refl) as [Hin Hroot]. unfold mbind at 1, op_bind at 1. pose proof (cleaning_start d a) as Hd.
  assert (forall d1 r1, clean_renders a l d = (d1, r1) -> (cleaning d a d1 /\ later d d1) /\
    (is_ok r1 = true -> forall id, id ∈ l -> stale d a id -> forall q, render_path d id `prefix_of` q -> d1 !! q = None)) as Hclean.
  { intros d1 r1 Hc. destruct l as [|i l']; [injection Hc as <- <-; split; [split; [done|by intros q]|by intros _ id []%not_elem_of_nil]|].
    eapply (clean_renders_spec d a Hap (tree_locks _ Ht) (Hroot ltac:(done))); [done| |exact Hc]. apply Forall_forall. intros id Hid.
    assert (d !! render_path d id = Some NDir) as E by (by apply Hin; first [exact Hid|apply list_elem_of_In]). split; [|exact E].
    unfold render_path in E. by apply (tree_plain _ Ht [id]), Forall_cons in E as [? _]. }
  destruct (clean_renders a l d) as [d1 [[]|e]] eqn:Hc; destruct (Hclean _ _ eq_refl) as [[Hd1 Hlt] Hg].
  2: { intros [= <- <-]. split_and!; [apply (cleaning_new _ _ _ Hd1)| |done]. intros q n Hq. destruct (cleaning_kept _ _ _ Hd1 q n Hq) as [?|[_ ?]]; auto. }
  assert (forall d2, cleaning d a d2 -> later d1 d2 -> (d2, Ok tt) = (d', r) -> (forall q n, d' !! q = Some n -> d !! q = Some n) /\
    (forall q n, d !! q = Some n -> d' !! q = Some n \/ removable d a q) /\
    (r = Ok tt -> forall id q, stale d a id -> render_path d id `prefix_of` q -> d' !! q = None)) as Hdone.
  { intros d2 Hd2 Hlt2 [= <- <-]. split_and!; [apply (cleaning_new _ _ _ Hd2)| |].
    - intros q n Hq. destruct (cleaning_kept _ _ _ Hd2 q n Hq) as [?|[_ ?]]; auto.
    - intros _ id q Hs Hq. apply Hlt2. eapply Hg; [done| |exact Hs|exact Hq]. apply Hin, Hs. }
  unfold looking, Stat.
  assert (forall e, (d1, Err e) = (d', r) -> (forall q n, d' !! q = Some n -> d !! q = Some n) /\
    (forall q n, d !! q = Some n -> d' !! q = Some n \/ removable d a q) /\
    (r = Ok tt -> forall id q, stale d a id -> render_path d id `prefix_of` q -> d' !! q = None)) as Hfail.
  { intros e [= <- <-]. split_and!; [apply (cleaning_new _ _ _ Hd1)| |done]. intros q n Hq. destruct (cleaning_kept _ _ _ Hd1 q n Hq) as [?|[_ ?]]; auto. }
  assert (later d1 d1) as Hrefl by (by intros q).
  destruct (node_at d1 renderLockDir) as [[w|]|]; [by apply Hfail| |destruct (existsb _ _); [by apply Hfail|by apply Hdone]].
  destruct (ReadDir renderLockDir d1) as [entries|] eqn:Hr; [|by apply Hfail]. unfold modify.
  destruct (clean_orphans_spec d a l entries d1 Hd1) as [Hd2 Hlt2]; [|by apply Hdone].
  intros name n He Hn Hnl Ho. apply (elem_of_ReadDir _ _ _ _ _ Hr) in He. right. exists name. split; [|done]. split_and!; [|destruct n as [w|]; [exists w|done]|done].
  - intros E. apply Hnl. by apply Hin.
  - by apply (cleaning_new _ _ _ Hd1).
Qed.

End Renders.

(** ** Evaluation *)

Definition runs_dir : RunCollection := {| primaryPath := "/d/runs"; allPaths := ["/d/runs"] |}.

(** Three renders: one without a lock file, one that is active, and one whose engine has ended;
    and a lock file without a render. *)
Definition renders_disk : disk := list_to_map
  ([(["d"], NDir); (["d"; "runs"], NDir); (["d"; "runs"; "r1"], NDir); (["d"; "runs"; "r1"; "render"], NDir);
    (["d"; "locks"], NDir); (["d"; "locks"; "r1"], NDir); (["d"; "locks"; "r1"; "render"], NDir);
    (["d"; "locks"; "r1"; "render"; "b"], NFile EmptyString); (["d"; "locks"; "r1"; "render"; "c"], NFile EmptyString);
    (["d"; "locks"; "r1"; "render"; "o"], NFile EmptyString)] ++
   ((fun id => (["d"; "runs"; "r1"; "render"; id], NDir)) <$> ["a"; "b"; "c"]) ++
   ((fun id => (["d"; "runs"; "r1"; "render"; id; "temp"], NDir)) <$> ["a"; "b"; "c"]) ++
   ((fun id => (["d"; "runs"; "r1"; "render"; id; "temp"; "x.csv"], NFile "1")) <$> ["a"; "b"; "c"])).

Definition one_active : answers :=
  {| for_list := Locked; for_remove := fun _ => Locked; for_render := fun id => if bool_decide (id = "b") then Held else Acquired;
     for_orphan := fun _ => Acquired |}.

Lemma runs_dir_rooted : rooted_collection runs_dir.
Proof. repeat constructor. Qed.

Lemma r1_plain : plain_name "r1".
Proof. apply (bool_decide_unpack _). vm_compute. done. Qed.

Lemma b_plain : plain_name "b".
Proof. apply (bool_decide_unpack _). vm_compute. done. Qed.

Lemma renders_apart : apart runs_dir "r1" renders_disk.
Proof. unfold apart. apply (bool_decide_unpack _). vm_compute. done. Qed.

(** A property of every entry of a disk is decided over its entries. *)
Lemma all_entries (P : path -> node -> bool) (d : disk) : forallb (fun kv => P kv.1 kv.2) (map_to_list d) = true -> forall q n, d !! q = Some n -> P q n = true.
Proof.
  rewrite forallb_forall. intros Hall q n Hq. apply (Hall (q, n)). apply list_elem_of_In. by apply elem_of_map_to_list.
Qed.

Lemma renders_tree : render_tree runs_dir "r1" renders_disk.
Proof.
  split.
  - intros q n Hq. apply (all_entries (fun p _ => forallb (fun x => bool_decide (plain_name x)) p)) in Hq; [|vm_compute; reflexivity].
    change (run_path runs_dir "r1" renders_disk ++ renderDirName :: q) with ("d" :: "runs" :: "r1" :: "render" :: q) in Hq.
    cbn [forallb] in Hq. repeat (apply andb_true_iff in Hq as [_ Hq]). rewrite forallb_forall in Hq. apply Forall_forall. intros x Hx.
    by apply (bool_decide_eq_true (plain_name x)), Hq, list_elem_of_In.
  - intros q n _ _. vm_compute. reflexivity.
  - intros id n q _ Hq. change (renderLockDir runs_dir "r1") with ["d"; "locks"; "r1"; "render"] in Hq.
    destruct q as [|? [|? [|? [|? [|? q]]]]]; repeat (pose proof (prefix_cons_inv_1 _ _ _ _ Hq) as ->; apply prefix_cons_inv_2 in Hq); try reflexivity.
    by apply prefix_nil_inv in Hq.
Qed.

Lemma stale_renders_are_removed_witness :
  let '(d', r) := CleanupStaleRenders runs_dir no_faults (fun _ => false) "r1" one_active renders_disk in
  r = Ok tt /\ d' !! ["d"; "runs"; "r1"; "render"; "a"; "temp"; "x.csv"] = None /\
  d' !! ["d"; "runs"; "r1"; "render"; "b"; "temp"; "x.csv"] = Some (NFile "1").
Proof.
  destruct (CleanupStaleRenders runs_dir no_faults (fun _ => false) "r1" one_active renders_disk) as [d' r] eqn:Hc.
  assert (r = Ok tt) as -> by (change r with (d', r).2; rewrite <-Hc; vm_compute; reflexivity). split; [done|].
  destruct (stale_renders_are_removed runs_dir no_faults (fun _ => false) "r1" runs_dir_rooted r1_plain one_active renders_disk d' (Ok tt)
    renders_apart renders_tree Hc) as (_ & Hk & Hg). split.
  - apply (Hg eq_refl "a"); [|exists ["temp"; "x.csv"]; reflexivity]. split; [vm_compute; reflexivity|left; vm_compute; reflexivity].
  - destruct (Hk ["d"; "runs"; "r1"; "render"; "b"; "temp"; "x.csv"] (NFile "1")) as [?|Hr]; [vm_compute; reflexivity|done|].
    exfalso. destruct Hr as [(id & [_ Hs] & [Hp|E])|(nm & _ & E)].
    + change (render_path runs_dir "r1" renders_disk id) with ["d"; "runs"; "r1"; "render"; id] in Hp.
      do 4 apply prefix_cons_inv_2 in Hp. apply prefix_cons_inv_1 in Hp as ->. destruct Hs as [Hn|(w & _ & Ha)]; [vm_compute in Hn; discriminate|].
      vm_compute in Ha. discriminate.
    + change (renderLockPath runs_dir "r1" id) with ["d"; "locks"; "r1"; "render"; id] in E. discriminate.
    + change (renderLockPath runs_dir "r1" nm) with ["d"; "locks"; "r1"; "render"; nm] in E. discriminate.
Defined.

(** A result is moved out of the directory for temporary files. *)
Lemma moved_stays_in_render_witness :
  let '(d', r) := MoveTempFile runs_dir no_faults "r1" Locked id_disk "b" "x.csv" "out/x.csv" renders_disk in
  r = Ok tt /\ d' !! ["d"; "runs"; "r1"; "render"; "b"; "out"; "x.csv"] = Some (NFile "1").
Proof.
  destruct (MoveTempFile runs_dir no_faults "r1" Locked id_disk "b" "x.csv" "out/x.csv" renders_disk) as [d' r] eqn:Hm.
  assert (r = Ok tt) as -> by (change r with (d', r).2; rewrite <-Hm; vm_compute; reflexivity). split; [done|].
  destruct (moved_stays_in_render runs_dir no_faults "r1" runs_dir_rooted r1_plain Locked id_disk "b" "x.csv" "out/x.csv" renders_disk d' (Ok tt) b_plain Hm)
    as (t & _ & _ & _ & Ht & _ & _ & [Hmv _]). specialize (Ht eq_refl). subst t. specialize (Hmv []). rewrite !app_nil_r in Hmv.
  vm_compute in Hmv |- *. exact Hmv.
Defined.

(** A path that would leave the render is refused. *)
Example move_outside : (MoveTempFile runs_dir no_faults "r1" Locked id_disk "b" "x.csv" "../c/x.csv" renders_disk).2 = Err (UnknownError "path escapes render directory").
Proof. vm_compute. reflexivity. Qed.
