(* ===== verification/RenderLocks.v ===== *)
(** * Performix: the locks of renders

    How sessions ([CreateTempDirForRun] and [RemoveRenderForRun] of
    [core/apap-engine/render/rerender.go]) and cleaning up ([CleanupStaleRenders] of
    [run/rerender_builder.go], at every loading of a run, in any number of engines) interleave.
    [RunRenders] says what cleaning up does by itself; here one step is one operation on the file
    system or on a lock. A file lock belongs to a file, not to its name: opening a name that
    was removed makes another file. A render has an identifier of its own, so that it has one
    session; sessions and engines may end at any time, and then their locks are free. *)

From stdpp Require Import functions.
From S2P Require Import Prelude.

(** ** State *)

(** A lock file, by the render it was made for and a number. *)
Notation inode := (nat * nat)%type.

(** The session of a render: it opens its lock file, locks it and makes its directory; when it
    fails it may do so again. At its end it removes the directory, unlocks the file and removes
    it. *)
Inductive session :=
| SIdle | SOpened (file : inode) | SFailed (file : inode) | SLocked (file : inode) | SActive (file : inode)
| SClosing (file : inode) | SUnlocked | SDone.

(** A call of [CleanupStaleRenders], with the renders that were listed and those that are still
    to be looked at, or the lock files. *)
Inductive cleaner :=
| CIdle
| CScan (todo renders : list nat)
| CMissing (id : nat) (todo renders : list nat)                  (* no lock file was found *)
| CFound (id : nat) (todo renders : list nat)
| COpened (id : nat) (file : inode) (todo renders : list nat)
| CHolds (id : nat) (file : inode) (todo renders : list nat)     (* its lock was free *)
| CCleaned (id : nat) (file : inode) (todo renders : list nat)   (* the directory is removed *)
| CRemove (id : nat) (todo renders : list nat)                   (* unlocked *)
| OScan (names : list nat)                                       (* the lock files without a render *)
| OOpened (id : nat) (file : inode) (names : list nat)
| OHolds (id : nat) (file : inode) (names : list nat)
| ORemove (id : nat) (names : list nat).

Inductive holder := BySession (id : nat) | ByCleaner (n : nat).

(** [raced id]: a call of [CleanupStaleRenders] locked the file of a render that its session had
    opened and not yet locked. *)
Record world := {
  lockfile : gmap nat inode;
  owner : gmap inode holder;
  next_inode : nat;
  dirs : gset nat;
  sessions : nat -> session;
  cleaners : nat -> cleaner;
  raced : nat -> bool
}.

Definition start : world :=
  {| lockfile := ∅; owner := ∅; next_inode := 0; dirs := ∅; sessions := fun _ => SIdle; cleaners := fun _ => CIdle; raced := fun _ => false |}.

Definition set_session (id : nat) (s : session) (w : world) : world :=
  {| lockfile := lockfile w; owner := owner w; next_inode := next_inode w; dirs := dirs w; sessions := <[id := s]> (sessions w); cleaners := cleaners w; raced := raced w |}.
Definition set_cleaner (n : nat) (x : cleaner) (w : world) : world :=
  {| lockfile := lockfile w; owner := owner w; next_inode := next_inode w; dirs := dirs w; sessions := sessions w; cleaners := <[n := x]> (cleaners w); raced := raced w |}.
Definition set_dirs (x : gset nat) (w : world) : world :=
  {| lockfile := lockfile w; owner := owner w; next_inode := next_inode w; dirs := x; sessions := sessions w; cleaners := cleaners w; raced := raced w |}.
Definition set_owner (x : gmap inode holder) (w : world) : world :=
  {| lockfile := lockfile w; owner := x; next_inode := next_inode w; dirs := dirs w; sessions := sessions w; cleaners := cleaners w; raced := raced w |}.
Definition remove_lock (id : nat) (w : world) : world :=
  {| lockfile := delete id (lockfile w); owner := owner w; next_inode := next_inode w; dirs := dirs w; sessions := sessions w; cleaners := cleaners w; raced := raced w |}.

(** Opening a lock file, which makes one when there is none of this name. *)
Definition open_lock (id : nat) (w : world) : inode * world :=
  match lockfile w !! id with
  | Some file => (file, w)
  | None => ((id, next_inode w),
             {| lockfile := <[id := (id, next_inode w)]> (lockfile w); owner := owner w; next_inode := S (next_inode w); dirs := dirs w;
                sessions := sessions w; cleaners := cleaners w; raced := raced w |})
  end.

Definition is_opened (s : session) : bool := match s with SOpened _ | SFailed _ => true | _ => false end.

(** A cleaner locks a file. *)
Definition lock_by_cleaner (n id : nat) (file : inode) (w : world) : world :=
  {| lockfile := lockfile w; owner := <[file := ByCleaner n]> (owner w); next_inode := next_inode w; dirs := dirs w; sessions := sessions w;
     cleaners := cleaners w; raced := if is_opened (sessions w id) then <[id := true]> (raced w) else raced w |}.

(** ** Steps *)

Definition session_step (id : nat) (w : world) : option world :=
  match sessions w id with
  | SIdle | SFailed _ => let '(file, w) := open_lock id w in Some (set_session id (SOpened file) w)
  | SOpened file =>
      match owner w !! file with
      | Some _ => Some (set_session id (SFailed file) w)  (* the render is locked *)
      | None => Some (set_session id (SLocked file) (set_owner (<[file := BySession id]> (owner w)) w))
      end
  | SLocked file => Some (set_session id (SActive file) (set_dirs ({[id]} ∪ dirs w) w))
  | SActive file => Some (set_session id (SClosing file) (set_dirs (dirs w ∖ {[id]}) w))
  | SClosing file => Some (set_session id SUnlocked (set_owner (delete file (owner w)) w))
  | SUnlocked => Some (set_session id SDone (remove_lock id w))
  | SDone => None
  end.

(** The directory cannot be made. *)
Definition mkdir_fails (id : nat) (w : world) : option world :=
  match sessions w id with SLocked file => Some (set_session id (SFailed file) (set_owner (delete file (owner w)) w)) | _ => None end.

(** The engine of a session ends. *)
Definition session_ends (id : nat) (w : world) : option world :=
  match sessions w id with
  | SLocked file | SActive file | SClosing file => Some (set_session id SDone (set_owner (delete file (owner w)) w))
  | _ => Some (set_session id SDone w)
  end.

Definition cleaner_step (n : nat) (w : world) : option world :=
  match cleaners w n with
  | CIdle => Some (set_cleaner n (CScan (elements (dirs w)) (elements (dirs w))) w)
  | CScan [] renders => Some (set_cleaner n (OScan (filter (fun id => id ∉ renders) (elements (dom (lockfile w))))) w)
  | CScan (id :: todo) renders =>
      Some (set_cleaner n (match lockfile w !! id with None => CMissing id todo renders | Some _ => CFound id todo renders end) w)
  | CMissing id todo renders => Some (set_cleaner n (CScan todo renders) (set_dirs (dirs w ∖ {[id]}) w))
  | CFound id todo renders => let '(file, w) := open_lock id w in Some (set_cleaner n (COpened id file todo renders) w)
  | COpened id file todo renders =>
      match owner w !! file with
      | Some _ => Some (set_cleaner n (CScan todo renders) w)
      | None => Some (set_cleaner n (CHolds id file todo renders) (lock_by_cleaner n id file w))
      end
  | CHolds id file todo renders => Some (set_cleaner n (CCleaned id file todo renders) (set_dirs (dirs w ∖ {[id]}) w))
  | CCleaned id file todo renders => Some (set_cleaner n (CRemove id todo renders) (set_owner (delete file (owner w)) w))
  | CRemove id todo renders => Some (set_cleaner n (CScan todo renders) (remove_lock id w))
  | OScan [] => Some (set_cleaner n CIdle w)
  | OScan (id :: names) => let '(file, w) := open_lock id w in Some (set_cleaner n (OOpened id file names) w)
  | OOpened id file names =>
      match owner w !! file with
      | Some _ => Some (set_cleaner n (OScan names) w)
      | None => Some (set_cleaner n (OHolds id file names) (lock_by_cleaner n id file w))
      end
  | OHolds id file names => Some (set_cleaner n (ORemove id names) (set_owner (delete file (owner w)) w))
  | ORemove id names => Some (set_cleaner n (OScan names) (remove_lock id w))
  end.

(** A call fails, or its engine ends. *)
Definition cleaner_ends (n : nat) (w : world) : option world :=
  match cleaners w n with
  | CHolds _ file _ _ | CCleaned _ file _ _ | OHolds _ file _ => Some (set_cleaner n CIdle (set_owner (delete file (owner w)) w))
  | _ => Some (set_cleaner n CIdle w)
  end.

Inductive label := Session (id : nat) | MkdirFails (id : nat) | SessionEnds (id : nat) | Cleaner (n : nat) | CleanerEnds (n : nat).

Definition step (l : label) (w : world) : option world :=
  match l with
  | Session id => session_step id w
  | MkdirFails id => mkdir_fails id w
  | SessionEnds id => session_ends id w
  | Cleaner n => cleaner_step n w
  | CleanerEnds n => cleaner_ends n w
  end.

Fixpoint run (ls : list label) (w : world) : option world :=
  match ls with [] => Some w | l :: ls => w' ← step l w; run ls w' end.

Inductive reachable : world -> Prop :=
| reachable_start : reachable start
| reachable_step w l w' : reachable w -> step l w = Some w' -> reachable w'.

(** ** The invariant *)

(** What is true of the lock file of a render in this state, when it has not been raced for: the
    file, its owner, and whether the directory is there. *)
Definition expect (id : nat) (s : session) : option (inode * option holder * bool) :=
  match s with
  | SOpened f | SFailed f => Some (f, None, false)
  | SLocked f => Some (f, Some (BySession id), false)
  | SActive f => Some (f, Some (BySession id), true)
  | _ => None
  end.

(** A cleaner that is not about to remove the directory or the lock file of this render, and
    that has opened no other file of this name. *)
Definition safe (x : cleaner) (id : nat) (f : inode) : Prop :=
  match x with
  | CMissing i _ _ | CHolds i _ _ _ | CCleaned i _ _ _ | CRemove i _ _ | OHolds i _ _ | ORemove i _ => i <> id
  | COpened i g _ _ | OOpened i g _ => i = id -> g = f
  | _ => True
  end.

Definition mentioned (x : cleaner) : list nat :=
  match x with
  | CIdle => []
  | CScan todo _ => todo
  | CMissing i todo _ | CFound i todo _ | COpened i _ todo _ | CHolds i _ todo _ | CCleaned i _ todo _ | CRemove i todo _ => i :: todo
  | OScan names => names
  | OOpened i _ names | OHolds i _ names | ORemove i names => i :: names
  end.

(** Files are of the render they were opened for, and have been made. *)
Definition file_ok (next i : nat) (f : inode) : Prop := f.1 = i /\ (f.2 < next)%nat.

Definition cleaner_ok (next : nat) (x : cleaner) : Prop :=
  match x with COpened i f _ _ | CHolds i f _ _ | CCleaned i f _ _ | OOpened i f _ | OHolds i f _ => file_ok next i f | _ => True end.

Definition session_ok (next id : nat) (s : session) : Prop :=
  match s with SOpened f | SFailed f | SLocked f | SActive f | SClosing f => file_ok next id f | _ => True end.

Lemma cleaner_ok_mono n m x : (n <= m)%nat -> cleaner_ok n x -> cleaner_ok m x.
Proof. destruct x; cbn; unfold file_ok; try done; lia. Qed.

Lemma session_ok_mono n m id s : (n <= m)%nat -> session_ok n id s -> session_ok m id s.
Proof. destruct s; cbn; unfold file_ok; try done; lia. Qed.

Record inv (w : world) : Prop := {
  inv_files i f : lockfile w !! i = Some f -> file_ok (next_inode w) i f;
  inv_owner f o : owner w !! f = Some o -> (f.2 < next_inode w)%nat;
  inv_cleaner n : cleaner_ok (next_inode w) (cleaners w n);
  inv_session id : session_ok (next_inode w) id (sessions w id);
  inv_unborn id : sessions w id = SIdle -> lockfile w !! id = None /\ id ∉ dirs w /\ (forall n, id ∉ mentioned (cleaners w n));
  inv_safe id f o b : raced w id = false -> expect id (sessions w id) = Some (f, o, b) ->
    lockfile w !! id = Some f /\ owner w !! f = o /\ (b = true -> id ∈ dirs w) /\ forall n, safe (cleaners w n) id f
}.

Lemma inv_set_cleaner n x w : inv w -> cleaner_ok (next_inode w) x ->
  (forall id, sessions w id = SIdle -> id ∉ mentioned x) ->
  (forall id f o b, raced w id = false -> expect id (sessions w id) = Some (f, o, b) -> safe x id f) -> inv (set_cleaner n x w).
Proof.
  intros [H1 H2 H3 H4 H5 H6] Hok Hm Hs. split; cbn [set_cleaner lockfile owner next_inode dirs sessions cleaners raced]; try done.
  - intros m. destruct (decide (m = n)) as [->|]; [by rewrite fn_lookup_insert|by rewrite fn_lookup_insert_ne].
  - intros id Hid. destruct (H5 id Hid) as (? & ? & Hn). split_and!; [done|done|]. intros m.
    destruct (decide (m = n)) as [->|]; [rewrite fn_lookup_insert; by apply Hm|by rewrite fn_lookup_insert_ne].
  - intros id f o b Hr He. destruct (H6 id f o b Hr He) as (? & ? & ? & Hn). split_and!; [done..|]. intros m.
    destruct (decide (m = n)) as [->|]; [rewrite fn_lookup_insert; by eapply Hs|by rewrite fn_lookup_insert_ne].
Qed.

(** The directory of a render that is not active is removed. *)
Lemma inv_remove_dir i w : inv w -> (forall f o, raced w i = false -> expect i (sessions w i) <> Some (f, o, true)) ->
  inv (set_dirs (dirs w ∖ {[i]}) w).
Proof.
  intros [H1 H2 H3 H4 H5 H6] Hi. split; cbn [set_dirs lockfile owner next_inode dirs sessions cleaners raced]; try done.
  - intros id Hid. destruct (H5 id Hid) as (? & Hd & ?). split_and!; [done| |done]. intros [? _]%elem_of_difference. done.
  - intros id f o b Hr He. destruct (H6 id f o b Hr He) as (? & ? & Hd & ?). split_and!; [done|done| |done]. intros ->.
    apply elem_of_difference. split; [by apply Hd|]. intros ->%elem_of_singleton. by apply (Hi f o).
Qed.

Lemma inv_unlock g w : inv w -> (forall id f o b, raced w id = false -> expect id (sessions w id) = Some (f, o, b) -> f = g -> o = None) ->
  inv (set_owner (delete g (owner w)) w).
Proof.
  intros [H1 H2 H3 H4 H5 H6] Hg. split; cbn [set_owner lockfile owner next_inode dirs sessions cleaners raced]; try done.
  - intros f o Ho. apply lookup_delete_Some in Ho as [_ Ho]. by eapply H2.
  - intros id f o b Hr He. destruct (H6 id f o b Hr He) as (? & Ho & ? & ?). split_and!; [done| |done|done].
    destruct (decide (f = g)) as [->|]; [|by rewrite lookup_delete_ne]. rewrite lookup_delete_eq. symmetry. by eapply Hg.
Qed.

Lemma inv_remove_lock i w : inv w -> (raced w i = false -> expect i (sessions w i) = None) -> inv (remove_lock i w).
Proof.
  intros [H1 H2 H3 H4 H5 H6] Hi. split; cbn [remove_lock lockfile owner next_inode dirs sessions cleaners raced]; try done.
  - intros j f Hj. apply lookup_delete_Some in Hj as [_ Hj]. by apply H1.
  - intros id Hid. destruct (H5 id Hid) as (Hl & ? & ?). split_and!; [|done|done]. apply lookup_delete_None. by right.
  - intros id f o b Hr He. destruct (H6 id f o b Hr He) as (Hl & ? & ? & ?). split_and!; [|done..].
    apply lookup_delete_Some. split; [|done]. intros ->. rewrite Hi in He by done. done.
Qed.

Lemma open_lock_spec i w g w' : inv w -> open_lock i w = (g, w') -> sessions w i <> SIdle ->
  inv w' /\ file_ok (next_inode w') i g /\ lockfile w' !! i = Some g /\ sessions w' = sessions w /\ cleaners w' = cleaners w /\ raced w' = raced w /\ owner w' = owner w /\
  (forall f o b, raced w i = false -> expect i (sessions w i) = Some (f, o, b) -> g = f).
Proof.
  intros Hw Hop Hi. unfold open_lock in Hop. destruct (lockfile w !! i) as [f|] eqn:Hl; injection Hop as <- <-.
  - split_and!; [done|by eapply inv_files|done..|]. intros f' o b Hr He. destruct (inv_safe _ Hw i f' o b Hr He) as (E & _). congruence.
  - destruct Hw as [H1 H2 H3 H4 H5 H6]. split_and!; try done; [|split; cbn; [done|lia]|cbn; apply lookup_insert_eq|].
    + split; cbn; try done.
      * intros j f Hj. apply lookup_insert_Some in Hj as [[<- <-]|[_ Hj]]; [split; cbn; [done|lia]|]. destruct (H1 _ _ Hj). split; [done|lia].
      * intros f o Ho. specialize (H2 f o Ho). lia.
      * intros n. eapply cleaner_ok_mono; [|apply H3]. lia.
      * intros id. eapply session_ok_mono; [|apply H4]. lia.
      * intros id Hid. destruct (H5 id Hid) as (? & ? & ?). split_and!; [|done..]. rewrite lookup_insert_ne; [done|]. intros ->. done.
      * intros id f o b Hr He. destruct (H6 id f o b Hr He) as (E & ? & ? & ?). split_and!; [|done..]. rewrite lookup_insert_ne; [done|]. intros ->. congruence.
    + intros f o b Hr He. destruct (H6 i f o b Hr He) as (E & _). congruence.
Qed.

Lemma inv_lock n i g w : inv w -> file_ok (next_inode w) i g -> sessions w i <> SIdle ->
  (forall f o b, raced w i = false -> expect i (sessions w i) = Some (f, o, b) -> g = f) -> owner w !! g = None -> inv (lock_by_cleaner n i g w) /\
  (forall f o b, raced (lock_by_cleaner n i g w) i = false -> expect i (sessions w i) <> Some (f, o, b)).
Proof.
  intros [H1 H2 H3 H4 H5 H6] [Hg Hlt] Hi Hsame Hno.
  assert (forall id, raced (lock_by_cleaner n i g w) id = false -> raced w id = false /\ (id = i -> is_opened (sessions w i) = false)) as Hr.
  { intros id. cbn. destruct (is_opened (sessions w i)) eqn:Ho; [|done]. destruct (decide (id = i)) as [->|]; [by rewrite fn_lookup_insert|].
    by rewrite fn_lookup_insert_ne. }
  assert (forall f o b, raced (lock_by_cleaner n i g w) i = false -> expect i (sessions w i) = Some (f, o, b) -> False) as Hnot.
  { intros f o b Hri He. destruct (Hr _ Hri) as [Hrw Hno']. specialize (Hno' eq_refl). destruct (H6 _ _ _ _ Hrw He) as (_ & Ho & _).
    rewrite <-(Hsame _ _ _ Hrw He), Hno in Ho. subst o. destruct (sessions w i); done. }
  split; [|intros f o b Hri He; by eapply Hnot]. split; cbn [lock_by_cleaner lockfile owner next_inode dirs sessions cleaners]; try done.
  - intros f o Ho. apply lookup_insert_Some in Ho as [[<- _]|[_ Ho]]; [done|by eapply H2].
  - intros id f o b Hri He. destruct (decide (id = i)) as [->|Hne]; [by destruct (Hnot f o b)|].
    destruct (Hr _ Hri) as [Hrw _]. destruct (H6 id f o b Hrw He) as (Hl & Ho & ? & ?). split_and!; [done| |done|done].
    rewrite lookup_insert_ne; [done|]. intros ->. destruct (H1 _ _ Hl) as [E _]. congruence.
Qed.

Lemma expect_file w id f o b : inv w -> expect id (sessions w id) = Some (f, o, b) -> f.1 = id.
Proof. intros Hw He. pose proof (inv_session _ Hw id) as Hs. destruct (sessions w id); try done; injection He as <- <- <-; apply Hs. Qed.

Lemma mentioned_born w n i : inv w -> i ∈ mentioned (cleaners w n) -> sessions w i <> SIdle.
Proof. intros Hw Hi Hs. destruct (inv_unborn _ Hw i Hs) as (_ & _ & Hm). by apply (Hm n). Qed.

(** A cleaner that drops to a state in which it threatens no render. *)
Lemma inv_set_calm n x w : inv w -> (forall id, sessions w id = SIdle -> id ∉ mentioned x) -> cleaner_ok (next_inode w) x -> (forall id f, safe x id f) ->
  inv (set_cleaner n x w).
Proof. intros Hw Hm Hok Hs. by apply inv_set_cleaner. Qed.

Lemma inv_cleaner_opens n i x w w' : inv w -> sessions w i <> SIdle -> (forall id, sessions w id = SIdle -> id ∉ mentioned (x (i, 0%nat))) ->
  (forall g, mentioned (x g) = mentioned (x (i, 0%nat))) -> (forall k g, file_ok k i g -> cleaner_ok k (x g)) ->
  (forall id f g, (i = id -> g = f) -> safe (x g) id f) ->
  (let '(file, w) := open_lock i w in Some (set_cleaner n (x file) w)) = Some w' -> inv w'.
Proof.
  intros Hw Hi Hm Hsame Hok Hs. destruct (open_lock i w) as [g w1] eqn:Hop. intros [= <-].
  destruct (open_lock_spec _ _ _ _ Hw Hop Hi) as (Hw1 & Hg & Hl & Es & Ec & Er & Eo & Hf). apply inv_set_cleaner; [done|by apply Hok| |].
  - rewrite Es. intros id Hid. rewrite Hsame. by apply Hm.
  - rewrite Es, Er. intros id f o b Hr He. apply Hs. intros ->. by eapply Hf.
Qed.

Lemma inv_cleaner_locks n i g x y w w' : inv w -> sessions w i <> SIdle -> file_ok (next_inode w) i g ->
  (forall f o b, raced w i = false -> expect i (sessions w i) = Some (f, o, b) -> g = f) ->
  (forall id, sessions w id = SIdle -> id ∉ mentioned x /\ id ∉ mentioned y) -> cleaner_ok (next_inode w) x -> cleaner_ok (next_inode w) y ->
  (forall id f, safe x id f) -> (forall id f, id <> i -> safe y id f) ->
  match owner w !! g with Some _ => Some (set_cleaner n x w) | None => Some (set_cleaner n y (lock_by_cleaner n i g w)) end = Some w' -> inv w'.
Proof.
  intros Hw Hi Hg Hf Hm Hx Hy Hsx Hsy. destruct (owner w !! g) eqn:Ho; intros [= <-].
  - apply inv_set_calm; [done| |done|done]. intros id Hid. by apply Hm.
  - destruct (inv_lock n i g w Hw Hg Hi Hf Ho) as [Hw1 Hno]. apply inv_set_cleaner; [done|done| |].
    + intros id Hid. by apply Hm.
    + intros id f o b Hr He. apply Hsy. intros ->. by eapply Hno.
Qed.

Lemma inv_cleaner_step n w w' : inv w -> cleaner_step n w = Some w' -> inv w'.
Proof.
  intros Hw Hs. pose proof (inv_cleaner _ Hw n) as Hok. pose proof (mentioned_born w n) as Hborn.
  pose proof (fun id f o b Hr He => proj2 (proj2 (proj2 (inv_safe _ Hw id f o b Hr He))) n) as Hsafe.
  assert (forall l : list nat, (forall i, i ∈ l -> i ∈ mentioned (cleaners w n)) -> forall id, sessions w id = SIdle -> id ∉ l) as Hmen
    by (intros l Hl id Hid Hin; by apply (Hborn id Hw (Hl _ Hin) Hid)).
  unfold cleaner_step in Hs.
  destruct (cleaners w n) as [|[|i todo] rs|i todo rs|i todo rs|i g todo rs|i g todo rs|i g todo rs|i todo rs|[|i names]|i g names|i g names|i names] eqn:Hc;
    cbn [mentioned cleaner_ok safe] in *.
  - injection Hs as <-. apply inv_set_calm; [done| |done|done]. intros id Hid. destruct (inv_unborn _ Hw id Hid) as (_ & Hd & _). cbn. by rewrite elem_of_elements.
  - injection Hs as <-. apply inv_set_calm; [done| |done|done]. intros id Hid. destruct (inv_unborn _ Hw id Hid) as (Hl & _). cbn.
    rewrite list_elem_of_filter, elem_of_elements, elem_of_dom, Hl. by intros [_ [? ?]].
  - injection Hs as <-. apply inv_set_cleaner; [done|by destruct (lockfile w !! i)| |].
    + apply Hmen. intros j. by destruct (lockfile w !! i).
    + intros id f o b Hr He. destruct (inv_safe _ Hw id f o b Hr He) as (Hl & _). destruct (lockfile w !! i) eqn:Hli; [done|]. cbn. congruence.
  - injection Hs as <-. apply inv_set_calm; [apply inv_remove_dir; [done|]|apply Hmen; by right|done|done].
    intros f o Hr He. exact (Hsafe i _ _ _ Hr He eq_refl).
  - refine (inv_cleaner_opens n i (fun g => COpened i g todo rs) w w' Hw _ (Hmen _ _) _ _ _ Hs); try done. apply Hborn; [done|left].
  - refine (inv_cleaner_locks n i g (CScan todo rs) (CHolds i g todo rs) w w' Hw _ Hok _ _ _ _ _ _ Hs); try done; [apply Hborn; [done|left]| |].
    + intros f o b Hr He. exact (Hsafe i _ _ _ Hr He eq_refl).
    + intros id Hid. split; apply Hmen; try done. by right.
  - injection Hs as <-. apply inv_set_cleaner; [apply inv_remove_dir; [done|]|done|by apply Hmen|].
    + intros f o Hr He. exact (Hsafe i _ _ _ Hr He eq_refl).
    + intros id f o b Hr He. cbn. exact (Hsafe id _ _ _ Hr He).
  - injection Hs as <-. apply inv_set_cleaner; [apply inv_unlock; [done|]|done|by apply Hmen|].
    + intros id f o b Hr He ->. destruct (Hsafe id _ _ _ Hr He). destruct Hok as [<- _]. by apply (expect_file w id g o b).
    + intros id f o b Hr He. cbn. exact (Hsafe id _ _ _ Hr He).
  - injection Hs as <-. apply inv_set_calm; [apply inv_remove_lock; [done|]|apply Hmen; by right|done|done].
    intros Hr. destruct (expect i (sessions w i)) as [[[f o] b]|] eqn:He; [|done]. exfalso. exact (Hsafe i _ _ _ Hr He eq_refl).
  - injection Hs as <-. apply inv_set_calm; [done|intros id _; apply not_elem_of_nil|done|done].
  - refine (inv_cleaner_opens n i (fun g => OOpened i g names) w w' Hw _ (Hmen _ _) _ _ _ Hs); try done. apply Hborn; [done|left].
  - refine (inv_cleaner_locks n i g (OScan names) (OHolds i g names) w w' Hw _ Hok _ _ _ _ _ _ Hs); try done; [apply Hborn; [done|left]| |].
    + intros f o b Hr He. exact (Hsafe i _ _ _ Hr He eq_refl).
    + intros id Hid. split; apply Hmen; try done. by right.
  - injection Hs as <-. apply inv_set_cleaner; [apply inv_unlock; [done|]|done|by apply Hmen|].
    + intros id f o b Hr He ->. destruct (Hsafe id _ _ _ Hr He). destruct Hok as [<- _]. by apply (expect_file w id g o b).
    + intros id f o b Hr He. cbn. exact (Hsafe id _ _ _ Hr He).
  - injection Hs as <-. apply inv_set_calm; [apply inv_remove_lock; [done|]|apply Hmen; by right|done|done].
    intros Hr. destruct (expect i (sessions w i)) as [[[f o] b]|] eqn:He; [|done]. exfalso. exact (Hsafe i _ _ _ Hr He eq_refl).
Qed.

Lemma inv_cleaner_ends n w w' : inv w -> cleaner_ends n w = Some w' -> inv w'.
Proof.
  intros Hw Hs. pose proof (inv_cleaner _ Hw n) as Hok.
  pose proof (fun id f o b Hr He => proj2 (proj2 (proj2 (inv_safe _ Hw id f o b Hr He))) n) as Hsafe. unfold cleaner_ends in Hs.
  assert (forall w1, inv w1 -> inv (set_cleaner n CIdle w1)) as Hidle
    by (intros w1 Hw1; apply inv_set_calm; [done|intros id _; apply not_elem_of_nil|done|done]).
  assert (forall i g, file_ok (next_inode w) i g -> (forall id f o b, raced w id = false -> expect id (sessions w id) = Some (f, o, b) -> i <> id) ->
    inv (set_owner (delete g (owner w)) w)) as Hun.
  { intros i g [Hg _] Hno. apply inv_unlock; [done|]. intros id f o b Hr He ->. destruct (Hno id _ _ _ Hr He). rewrite <-Hg. by eapply expect_file. }
  destruct (cleaners w n) eqn:Hc; cbn [cleaner_ok safe] in *; injection Hs as <-; apply Hidle; try done; by eapply Hun.
Qed.

(** A session changes its own state, and what belongs to its render. *)
Lemma inv_session_change id s lf ow nx dr w : inv w -> s <> SIdle -> session_ok nx id s -> (next_inode w <= nx)%nat ->
  (forall f, lf !! id = Some f -> file_ok nx id f) -> (forall f o, ow !! f = Some o -> (f.2 < nx)%nat) ->
  (forall i, i <> id -> lf !! i = lockfile w !! i /\ (i ∈ dr <-> i ∈ dirs w)) -> (forall f, f.1 <> id -> ow !! f = owner w !! f) ->
  (forall f o b, raced w id = false -> expect id s = Some (f, o, b) ->
     lf !! id = Some f /\ ow !! f = o /\ (b = true -> id ∈ dr) /\ forall n, safe (cleaners w n) id f) ->
  inv {| lockfile := lf; owner := ow; next_inode := nx; dirs := dr; sessions := <[id := s]> (sessions w); cleaners := cleaners w; raced := raced w |}.
Proof.
  intros [H1 H2 H3 H4 H5 H6] Hne Hok Hle Hlf How Hi Hf He.
  split; cbn [lockfile owner next_inode dirs sessions cleaners raced]; try done.
  - intros i f Hl. destruct (decide (i = id)) as [->|Hni]; [by apply Hlf|]. rewrite (proj1 (Hi i Hni)) in Hl. destruct (H1 _ _ Hl). split; [done|lia].
  - intros n. eapply cleaner_ok_mono; [exact Hle|apply H3].
  - intros j. destruct (decide (j = id)) as [->|]; [by rewrite fn_lookup_insert|rewrite fn_lookup_insert_ne by done; by eapply session_ok_mono].
  - intros j. destruct (decide (j = id)) as [->|Hnj]; [by rewrite fn_lookup_insert|rewrite fn_lookup_insert_ne by done].
    intros Hj. destruct (H5 j Hj) as (? & ? & ?), (Hi j Hnj) as [-> ->]. done.
  - intros j f o b Hr. destruct (decide (j = id)) as [->|Hnj]; [rewrite fn_lookup_insert; by apply He|rewrite fn_lookup_insert_ne by done].
    intros Hj. destruct (H6 j f o b Hr Hj) as (Hl & ? & ? & ?), (Hi j Hnj) as [-> ->]. split_and!; [done| |done|done].
    rewrite Hf; [done|]. destruct (H1 _ _ Hl) as [-> _]. done.
Qed.

Lemma unmentioned_safe x id f : id ∉ mentioned x -> safe x id f.
Proof. destruct x; cbn; try done; rewrite ?not_elem_of_cons; intros Hn; try (destruct Hn as [Hn _]); try done; intros ->; done. Qed.

Ltac session_change w := refine (inv_session_change _ _ _ _ _ _ w _ _ _ _ _ _ _ _ _);
  try done; cbn [session_ok expect owner lockfile next_inode dirs set_owner set_dirs remove_lock].

Lemma inv_session_step id w w' : inv w -> session_step id w = Some w' -> inv w'.
Proof.
  intros Hw Hs. pose proof (inv_session _ Hw id) as Hok. pose proof (inv_files _ Hw) as Hfiles. pose proof (inv_owner _ Hw) as Howner.
  pose proof (inv_safe _ Hw id) as Hsafe. pose proof (inv_unborn _ Hw id) as Hunborn. unfold session_step in Hs.
  destruct (sessions w id) as [|f|f|f|f|f| |] eqn:Hse; cbn [session_ok expect] in *; try done.
  - destruct (Hunborn eq_refl) as (Hl & Hd & Hm). unfold open_lock in Hs. rewrite Hl in Hs. injection Hs as <-. session_change w.
    + split; [done|cbn; lia].
    + lia.
    + intros f. cbn. rewrite lookup_insert_eq. intros [= <-]. split; [done|cbn; lia].
    + intros f o Ho. specialize (Howner f o Ho). lia.
    + intros i Hi. by rewrite lookup_insert_ne.
    + intros f o b Hr [= <- <- <-]. rewrite lookup_insert_eq. split_and!; [done| |done|intros n; by apply unmentioned_safe].
      destruct (owner w !! (id, next_inode w)) eqn:Ho; [|done]. specialize (Howner _ _ Ho). cbn in Howner. lia.
  - destruct (owner w !! f) eqn:Ho; injection Hs as <-; session_change w.
    + by apply Hfiles.
    + by apply Hfiles.
    + intros g o Hg. apply lookup_insert_Some in Hg as [[<- _]|[_ Hg]]; [apply Hok|by eapply Howner].
    + intros g Hg. rewrite lookup_insert_ne; [done|]. intros <-. by apply Hg, Hok.
    + intros g o b Hr [= <- <- <-]. rewrite lookup_insert_eq. by destruct (Hsafe f None false Hr eq_refl) as (? & _ & _ & ?).
  - destruct (open_lock id w) as [g w1] eqn:Hop. injection Hs as <-.
    destruct (open_lock_spec id w g w1 Hw Hop) as (Hw1 & Hg & Hl & Es & Ec & Er & Eo & Hf); [by rewrite Hse|]. rewrite Hse in Hf. cbn in Hf.
    session_change w1; [by apply inv_files|by apply (inv_owner _ Hw1)|].
    rewrite Er, Ec, Eo. intros f' o b Hr [= <- <- <-]. rewrite (Hf f None false Hr eq_refl) in *. by destruct (Hsafe f None false Hr eq_refl) as (_ & ? & _ & ?).
  - injection Hs as <-. session_change w; [by apply Hfiles| |].
    + intros i Hi. split; [done|]. set_solver.
    + intros g o b Hr [= <- <- <-]. destruct (Hsafe f _ false Hr eq_refl) as (? & ? & _ & ?). split_and!; [done|done| |done]. set_solver.
  - injection Hs as <-. session_change w; [by apply Hfiles|]. intros i Hi. split; [done|]. set_solver.
  - injection Hs as <-. session_change w; [by apply Hfiles| |].
    + intros g o Hg. apply lookup_delete_Some in Hg as [_ Hg]. by eapply Howner.
    + intros g Hg. rewrite lookup_delete_ne; [done|]. intros <-. by apply Hg, Hok.
  - injection Hs as <-. session_change w.
    + intros g. by rewrite lookup_delete_eq.
    + intros i Hi. by rewrite lookup_delete_ne.
Qed.

Lemma render_inv_step l w w' : inv w -> step l w = Some w' -> inv w'.
Proof.
  intros Hw Hs. destruct l as [id|id|id|n|n]; cbn [step] in Hs; [by eapply inv_session_step| | |by eapply inv_cleaner_step|by eapply inv_cleaner_ends].
  - pose proof (inv_session _ Hw id) as Hok. pose proof (inv_safe _ Hw id) as Hsafe. unfold mkdir_fails in Hs.
    destruct (sessions w id) as [| | |f| | | |] eqn:Hse; try done. cbn [session_ok expect] in *. injection Hs as <-. session_change w.
    + by apply inv_files.
    + intros g o Hg. apply lookup_delete_Some in Hg as [_ Hg]. by eapply inv_owner.
    + intros g Hg. rewrite lookup_delete_ne; [done|]. intros <-. by apply Hg, Hok.
    + intros g o b Hr [= <- <- <-]. rewrite lookup_delete_eq. by destruct (Hsafe f _ false Hr eq_refl) as (? & _ & _ & ?).
  - pose proof (inv_session _ Hw id) as Hok. unfold session_ends in Hs.
    assert (forall g, file_ok (next_inode w) id g -> inv (set_session id SDone (set_owner (delete g (owner w)) w))) as Hdel.
    { intros g Hg. session_change w; [by apply inv_files| |].
      - intros f o Hf. apply lookup_delete_Some in Hf as [_ Hf]. by eapply inv_owner.
      - intros f Hf. rewrite lookup_delete_ne; [done|]. intros <-. by apply Hf, Hg. }
    assert (inv (set_session id SDone w)) as Hdone by (session_change w; [by apply inv_files|by apply inv_owner]).
    destruct (sessions w id); injection Hs as <-; try done; by apply Hdel.
Qed.

Lemma reachable_render_inv w : reachable w -> inv w.
Proof.
  induction 1 as [|w l w' _ IH Hs]; [|by eapply render_inv_step]. split; cbn; try done.
  intros id _. split_and!; [done|set_solver|intros n; apply not_elem_of_nil].
Qed.

(** ** Theorems *)

(** C25: while a session renders it holds the lock of the file that has the name of its lock, no call that cleans up is about
    to remove its directory or that file, and its directory is there, whatever other sessions, engines and failures do,
    unless such a call locked the file after the session had opened it and before the session locked it. *)
Theorem active_render_survives w id f : reachable w -> sessions w id = SActive f -> raced w id = false ->
  id ∈ dirs w /\ lockfile w !! id = Some f /\ owner w !! f = Some (BySession id) /\ forall n, safe (cleaners w n) id f.
Proof.
  intros Hw%reachable_render_inv Hs Hr. destruct (inv_safe _ Hw id f (Some (BySession id)) true Hr) as (? & ? & Hd & ?); [by rewrite Hs|].
  split_and!; [by apply Hd|done..].
Qed.

(** ** Evaluation *)

Lemma locks_reachable ls : forall w w', reachable w -> run ls w = Some w' -> reachable w'.
Proof.
  induction ls as [|l ls IH]; intros w w' Hw; cbn; [by intros [= <-]|]. intros (w1 & Hs & Hr)%bind_Some.
  eapply IH; [by eapply reachable_step|done].
Qed.

Lemma run_default ls : (match run ls start with Some _ => true | None => false end) = true -> reachable (default start (run ls start)).
Proof. destruct (run ls start) as [w|] eqn:Hr; [|done]. intros _. by apply (locks_reachable ls start); [apply reachable_start|]. Qed.

(** Two sessions, the first of which has ended without tidying up, and an engine that cleans up. *)
Definition tidied : world := default start (run
  ([Session 0; Session 0; Session 0; Session 1; Session 1; Session 1; SessionEnds 0] ++ replicate 13 (Cleaner 0)) start).

Lemma active_render_survives_witness : 0%nat ∉ dirs tidied /\ 1%nat ∈ dirs tidied.
Proof.
  split; [apply (bool_decide_unpack _); vm_compute; done|].
  assert (reachable tidied) as Hr by (apply run_default; vm_compute; reflexivity).
  destruct (active_render_survives tidied 1 (1%nat, 1%nat) Hr) as [Hd _]; [vm_compute; reflexivity..|exact Hd].
Defined.

(** The race: the file is locked by a cleaner between opening and locking, and its name is
    removed once the session has locked it. The next cleaner takes the render for stale. *)
Definition race : list label :=
  [Session 0; Cleaner 0; Cleaner 0; Cleaner 0; Cleaner 0; Cleaner 0; Session 0; Cleaner 0; Session 0] ++ [Cleaner 1; Cleaner 1; Cleaner 1].

Definition after_race : world := default start (run race start).

Theorem active_render_can_be_removed : reachable after_race /\ sessions after_race 0 = SActive (0%nat, 0%nat) /\ 0%nat ∉ dirs after_race.
Proof.
  split; [apply run_default; vm_compute; reflexivity|].
  split; [vm_compute; reflexivity|apply (bool_decide_unpack _); vm_compute; done].
Qed.
