(* ===== verification/Packages.v ===== *)
(** * Performix: packages

    Models [core/apap-engine/packages/packages.go]: the tool bundles and tool integrations of the
    core package and of the extension packages, found on the disk of the host. Reading is not
    refused; loading tool integrations, which are JavaScript, is left out. *)

From S2P Require Import Prelude.
From S2P Require Import GoStrings.
From S2P Require Import FilePaths.
From S2P Require Import Disk.
From Stdlib Require Import Ascii.

Local Open Scope Z_scope.

(** ** Files of packages *)

Inductive packageFileKind := recipe | toolBundle | toolIntegration.

Definition subDir (kind : packageFileKind) : string :=
  match kind with recipe => "recipes" | toolBundle => "tools" | toolIntegration => "tool-integrations" end.

Record PackageFile := { kind : packageFileKind; packageDir : string; relativePath : string }.

Definition ID (f : PackageFile) : string := relativePath f.
Definition Path (f : PackageFile) : string := JoinPath [packageDir f; subDir (kind f); relativePath f].

Record packageFiles := {
  toolBundleMap : gmap string nat;
  toolIntegrationMap : gmap string nat;
  toolBundles : list PackageFile;
  toolIntegrations : list PackageFile
}.

Definition newPackageFiles : packageFiles := {| toolBundleMap := ∅; toolIntegrationMap := ∅; toolBundles := []; toolIntegrations := [] |}.

Inductive packages_error := LoadCoreToolBundles | LoadToolBundle (id : string).

(** [filepath.Split] and [filepath.Ext] *)
Definition split_path (p : string) : string * string :=
  let i := LastIndex p "/" + 1 in (slice p 0 i, slice p i (len p)).

Definition Ext (name : string) : string :=
  let i := LastIndex name "." in if i =? -1 then EmptyString else slice name i (len name).

(** The files below a directory that [filepath.WalkDir] visits, relative to it; an error when
    the directory is missing. *)
Definition relative_text (l : list string) : string := match l with [] => "." | _ => Join "/" l end.

Definition files_below (d : disk) (dir : string) : option (list string) :=
  let p := components dir in
  match node_at d p with
  | None => None
  | Some _ => Some (omap (fun kv => match kv.2 with NFile _ => Some (relative_text (drop (length p) kv.1)) | NDir => None end) (walk p d))
  end.

(** A bundle is at name/version/bundle.ext. *)
Definition bundle_path_ok (rel : string) : bool :=
  let '(relDir, bundle) := split_path rel in
  let dirs := Split "/" relDir in
  negb (bool_decide (bundle = EmptyString) || bool_decide (Ext bundle = EmptyString) || negb (bool_decide (length dirs = 3%nat))
        || negb (bool_decide (dirs !! 2%nat = Some EmptyString))).

Definition addPackageFile (f : PackageFile) (files : gmap string nat * list PackageFile) : gmap string nat * list PackageFile :=
  let '(m, l) := files in
  match m !! relativePath f with
  | Some _ => (m, l)
  | None => (<[relativePath f := length l]> m, l ++ [f])
  end.

Definition add_file (fileKind : packageFileKind) (dir rel : string) (p : packageFiles) : packageFiles :=
  let f := {| kind := fileKind; packageDir := dir; relativePath := rel |} in
  match fileKind with
  | toolBundle =>
      if bundle_path_ok rel then
        let '(m, l) := addPackageFile f (toolBundleMap p, toolBundles p) in
        {| toolBundleMap := m; toolIntegrationMap := toolIntegrationMap p; toolBundles := l; toolIntegrations := toolIntegrations p |}
      else p
  | toolIntegration =>
      let '(m, l) := addPackageFile f (toolIntegrationMap p, toolIntegrations p) in
      {| toolBundleMap := toolBundleMap p; toolIntegrationMap := m; toolBundles := toolBundles p; toolIntegrations := l |}
  | recipe => p
  end.

(** [findPackageFiles]; [None] is an error. *)
Definition findPackageFiles (d : disk) (dir : string) (fileKind : packageFileKind) (p : packageFiles) : option packageFiles :=
  match files_below d (JoinPath [dir; subDir fileKind]) with
  | None => None
  | Some rels => Some (foldl (fun p rel => add_file fileKind dir rel p) p rels)
  end.

(** Errors of other than the core's tool bundles are warnings. *)
Definition find_or_warn (d : disk) (dir : string) (fileKind : packageFileKind) (p : packageFiles) : packageFiles :=
  default p (findPackageFiles d dir fileKind p).

Definition find_extension (d : disk) (extensionsDir : string) (p : packageFiles) (entry : string * node) : packageFiles :=
  if bool_decide (entry.2 = NDir) then
    let dir := JoinPath [extensionsDir; entry.1] in find_or_warn d dir toolIntegration (find_or_warn d dir toolBundle p)
  else p.

Record PackageManager := { executableDir : string; extensionsDir : string }.

Section Packages.

Context (pm : PackageManager) (d : disk).

Definition extension_entries : list (string * node) :=
  if bool_decide (extensionsDir pm = EmptyString) then [] else default [] (ReadDir (components (extensionsDir pm)) d).

Definition findPackages : result packages_error packageFiles :=
  match findPackageFiles d (executableDir pm) toolBundle newPackageFiles with
  | None => Err LoadCoreToolBundles
  | Some packages => Ok (foldl (find_extension d (extensionsDir pm)) (find_or_warn d (executableDir pm) toolIntegration packages) extension_entries)
  end.

(** [None] is an index out of range. *)
Definition GetToolBundle (id : string) : option (result packages_error PackageFile) :=
  match findPackages with
  | Err e => Some (Err e)
  | Ok packages =>
      match toolBundleMap packages !! id with
      | None => Some (Err (LoadToolBundle id))
      | Some fileIndex => Ok <$> toolBundles packages !! fileIndex
      end
  end.

Definition ListToolBundles : result packages_error (list PackageFile) := toolBundles <$> findPackages.
Definition ListToolIntegrations : result packages_error (list PackageFile) := toolIntegrations <$> findPackages.

(** ** The first package that has a bundle *)

(** The packages in the order in which they are searched. *)
Definition package_dirs : list string :=
  executableDir pm :: omap (fun e => if bool_decide (e.2 = NDir) then Some (JoinPath [extensionsDir pm; e.1]) else None) extension_entries.

Definition has_bundle (id dir : string) : bool :=
  bool_decide (id ∈ default [] (files_below d (JoinPath [dir; subDir toolBundle]))) && bundle_path_ok id.

End Packages.

Definition lookup_bundle (p : packageFiles) (id : string) : option PackageFile := i ← toolBundleMap p !! id; toolBundles p !! i.

(** The map and the list agree. *)
Record indexed (p : packageFiles) : Prop := {
  indexed_map id i : toolBundleMap p !! id = Some i -> exists f, toolBundles p !! i = Some f /\ relativePath f = id;
  indexed_list i f : toolBundles p !! i = Some f -> toolBundleMap p !! relativePath f = Some i
}.

Lemma lookup_bundle_None p id : indexed p -> lookup_bundle p id = None <-> toolBundleMap p !! id = None.
Proof.
  intros [Hm _]. unfold lookup_bundle. destruct (toolBundleMap p !! id) as [i|] eqn:Hi; [|done]. destruct (Hm _ _ Hi) as (f & Hf & _).
  cbn. by rewrite Hf.
Qed.

Definition first_bundle (p : packageFiles) (id dir : string) (found : bool) : option PackageFile :=
  match lookup_bundle p id with Some f => Some f | None => if found then Some {| kind := toolBundle; packageDir := dir; relativePath := id |} else None end.

Lemma add_bundle dir rel p : indexed p -> indexed (add_file toolBundle dir rel p) /\
  forall id, lookup_bundle (add_file toolBundle dir rel p) id = first_bundle p id dir (bool_decide (id = rel) && bundle_path_ok rel).
Proof.
  intros Hp. unfold add_file, addPackageFile. cbn [relativePath]. destruct (bundle_path_ok rel).
  2: { split; [done|]. intros id. unfold first_bundle. rewrite andb_false_r. by destruct (lookup_bundle p id). }
  destruct (toolBundleMap p !! rel) as [i|] eqn:Hr.
  - assert ({| toolBundleMap := toolBundleMap p; toolIntegrationMap := toolIntegrationMap p; toolBundles := toolBundles p; toolIntegrations := toolIntegrations p |} = p) as -> by (by destruct p).
    split; [done|]. intros id. unfold first_bundle. destruct (lookup_bundle p id) eqn:Hl; [done|]. apply (lookup_bundle_None p id Hp) in Hl.
    rewrite bool_decide_false; [done|]. intros ->. congruence.
  - destruct Hp as [Hm Hl]. split; [split; cbn|].
    + intros id i. rewrite lookup_insert_Some. intros [[<- <-]|[Hne Hi]].
      * eexists. split; [by apply list_lookup_middle|done].
      * destruct (Hm _ _ Hi) as (f & Hf & ?). exists f. split; [by apply lookup_app_l_Some|done].
    + intros i f [Hi|[Hge Hi]]%lookup_app_Some.
      * rewrite lookup_insert_ne; [by apply Hl|]. intros E. specialize (Hl _ _ Hi). rewrite <-E in Hl. congruence.
      * apply list_lookup_singleton_Some in Hi as [Hz <-]. cbn. rewrite lookup_insert_eq. f_equal. lia.
    + intros id. unfold first_bundle, lookup_bundle at 1. cbn [toolBundleMap toolBundles]. rewrite andb_true_r. case_bool_decide as Hid.
      * subst id. rewrite lookup_insert_eq. cbn. rewrite list_lookup_middle by done. unfold lookup_bundle. by rewrite Hr.
      * rewrite lookup_insert_ne by done. unfold lookup_bundle. destruct (toolBundleMap p !! id) as [i|] eqn:Hi; [|done]. cbn.
        destruct (Hm _ _ Hi) as (f & Hf & _). rewrite Hf. by apply lookup_app_l_Some.
Qed.

Lemma first_bundle_twice p q id dir a b : lookup_bundle q id = first_bundle p id dir a ->
  first_bundle q id dir b = first_bundle p id dir (a || b).
Proof. unfold first_bundle. intros ->. by destruct (lookup_bundle p id), a. Qed.

Lemma add_bundles dir rels : forall p, indexed p -> let q := foldl (fun p rel => add_file toolBundle dir rel p) p rels in
  indexed q /\ forall id, lookup_bundle q id = first_bundle p id dir (bool_decide (id ∈ rels) && bundle_path_ok id).
Proof.
  induction rels as [|rel rels IH]; intros p Hp; cbn [foldl].
  { split; [done|]. intros id. unfold first_bundle. by destruct (lookup_bundle p id). }
  destruct (add_bundle dir rel p Hp) as [Hp1 Hl1]. destruct (IH _ Hp1) as [Hq Hl]. split; [done|]. intros id.
  rewrite Hl, (first_bundle_twice p _ id dir _ _ (Hl1 id)). f_equal. destruct (decide (id = rel)) as [->|Hne].
  - rewrite (bool_decide_true (rel = rel)), (bool_decide_true (rel ∈ rel :: rels)) by (done || left). destruct (bundle_path_ok rel); [done|]. by rewrite !andb_false_r.
  - rewrite (bool_decide_false (id = rel)) by done. cbn [andb orb]. f_equal. apply bool_decide_ext. rewrite elem_of_cons. naive_solver.
Qed.

(** What concerns the bundles only. *)
Definition same_bundles (p q : packageFiles) : Prop := toolBundleMap q = toolBundleMap p /\ toolBundles q = toolBundles p.

Lemma same_bundles_indexed p q : same_bundles p q -> indexed p -> indexed q /\ forall id, lookup_bundle q id = lookup_bundle p id.
Proof.
  intros [Em El] [Hm Hl]. unfold lookup_bundle. split; [split|].
  - intros id i. rewrite Em, El. apply Hm.
  - intros i f. rewrite Em, El. apply Hl.
  - intros id. by rewrite Em, El.
Qed.

Lemma integrations_same d dir p : same_bundles p (find_or_warn d dir toolIntegration p).
Proof.
  unfold find_or_warn, findPackageFiles. destruct (files_below d _) as [rels|]; [|done]. cbn [default].
  assert (forall q, same_bundles p q -> same_bundles p (foldl (fun p rel => add_file toolIntegration dir rel p) q rels)) as H; [|by apply H].
  induction rels as [|rel rels IH]; intros q Hq; [done|]. cbn [foldl]. apply IH. unfold add_file. by destruct (addPackageFile _ _).
Qed.

Lemma bundles_of_dir d dir p : indexed p ->
  indexed (find_or_warn d dir toolBundle p) /\ forall id, lookup_bundle (find_or_warn d dir toolBundle p) id = first_bundle p id dir (has_bundle d id dir).
Proof.
  intros Hp. unfold find_or_warn, findPackageFiles, has_bundle. destruct (files_below d _) as [rels|]; cbn [default].
  - by apply add_bundles.
  - split; [done|]. intros id. unfold first_bundle. by destruct (lookup_bundle p id).
Qed.

(** The bundle in the first of these packages that has it. *)
Definition bundle_in (d : disk) (id : string) (dirs : list string) : option PackageFile :=
  (fun dir => {| kind := toolBundle; packageDir := dir; relativePath := id |}) <$> List.find (has_bundle d id) dirs.

Lemma bundles_of_extensions d ext entries : forall p, indexed p -> let q := foldl (find_extension d ext) p entries in
  indexed q /\ forall id, lookup_bundle q id =
    match lookup_bundle p id with
    | Some f => Some f
    | None => bundle_in d id (omap (fun e => if bool_decide (e.2 = NDir) then Some (JoinPath [ext; e.1]) else None) entries)
    end.
Proof.
  induction entries as [|e entries IH]; intros p Hp; cbn [foldl].
  { split; [done|]. intros id. by destruct (lookup_bundle p id). }
  unfold find_extension at 2 4. cbn [omap list_omap]. case_bool_decide as He; [|by apply IH]. set (dir := JoinPath [ext; e.1]).
  destruct (bundles_of_dir d dir p Hp) as [Hp1 Hl1]. destruct (same_bundles_indexed _ _ (integrations_same d dir _) Hp1) as [Hp2 Hl2].
  destruct (IH _ Hp2) as [Hq Hl]. split; [done|]. intros id. rewrite Hl, Hl2, Hl1. unfold first_bundle, bundle_in. cbn [List.find].
  destruct (lookup_bundle p id); [done|]. by destruct (has_bundle d id dir).
Qed.

Lemma files_below_Some d dir : is_Some (files_below d dir) <-> is_Some (node_at d (components dir)).
Proof. unfold files_below. destruct (node_at d (components dir)); split; intros [? ?]; done. Qed.

(** A tool bundle is found exactly when one of the packages has it at a path of the expected form, the core package being
    searched first and the extensions in the order of their names, and is the one of the first such package; without
    the directory of the core's tools no bundle is found. No index is out of range. *)
Theorem bundle_is_of_first_package pm d id :
  GetToolBundle pm d id = Some (if bool_decide (is_Some (node_at d (components (JoinPath [executableDir pm; subDir toolBundle]))))
    then match List.find (has_bundle d id) (package_dirs pm d) with
         | Some dir => Ok {| kind := toolBundle; packageDir := dir; relativePath := id |}
         | None => Err (LoadToolBundle id)
         end
    else Err LoadCoreToolBundles).
Proof.
  assert (indexed newPackageFiles) as H0 by (split; cbn; [intros i j; by rewrite lookup_empty|intros i f; by rewrite lookup_nil]).
  destruct (bundles_of_dir d (executableDir pm) newPackageFiles H0) as [H1 Hl1]. unfold find_or_warn in H1, Hl1.
  unfold GetToolBundle, findPackages. pose proof (files_below_Some d (JoinPath [executableDir pm; subDir toolBundle])) as Hfb.
  unfold findPackageFiles in *. destruct (files_below d (JoinPath [executableDir pm; subDir toolBundle])) as [rels|] eqn:Hrels.
  2: { rewrite bool_decide_false; [done|]. intros Hs. by apply Hfb in Hs as [? ?]. }
  rewrite bool_decide_true by (by apply Hfb). cbn [default] in *.
  destruct (same_bundles_indexed _ _ (integrations_same d (executableDir pm) _) H1) as [H2 Hl2].
  destruct (bundles_of_extensions d (extensionsDir pm) (extension_entries pm d) _ H2) as [H3 Hl3].
  set (q := foldl (find_extension d (extensionsDir pm)) _ (extension_entries pm d)) in *.
  assert (lookup_bundle q id = bundle_in d id (package_dirs pm d)) as Hq.
  { rewrite Hl3, Hl2, Hl1. unfold first_bundle, package_dirs, bundle_in. cbn [List.find].
    change (lookup_bundle newPackageFiles id) with (@None PackageFile). by destruct (has_bundle d id (executableDir pm)). }
  unfold bundle_in in Hq. destruct (toolBundleMap q !! id) as [i|] eqn:Hi.
  - destruct (indexed_map _ H3 _ _ Hi) as (f & Hf & _). unfold lookup_bundle in Hq. rewrite Hi in Hq. cbn [mbind option_bind] in Hq. rewrite Hf in *. cbn [fmap option_fmap option_map].
    destruct (List.find (has_bundle d id) (package_dirs pm d)); cbn in Hq; [|done]. by injection Hq as ->.
  - apply (lookup_bundle_None q id H3) in Hi. rewrite Hi in Hq. by destruct (List.find (has_bundle d id) (package_dirs pm d)).
Qed.

(** ** Evaluation *)

Definition install_disk : disk := list_to_map
  ((fun p => (p, NDir)) <$> [["opt"]; ["opt"; "tools"]; ["opt"; "tools"; "perf"]; ["opt"; "tools"; "perf"; "1.0"]; ["ext"]; ["ext"; "more"]; ["ext"; "more"; "tools"];
    ["ext"; "more"; "tools"; "perf"]; ["ext"; "more"; "tools"; "perf"; "1.0"]]) ∪
  list_to_map ((fun p => (p, NFile "z")) <$> [["opt"; "tools"; "perf"; "1.0"; "a.tar.gz"]; ["opt"; "tools"; "README"]; ["ext"; "more"; "tools"; "perf"; "1.0"; "a.tar.gz"];
    ["ext"; "more"; "tools"; "perf"; "1.0"; "b.tar.gz"]]).

Definition install : PackageManager := {| executableDir := "/opt"; extensionsDir := "/ext" |}.

Example found_bundles : (fun id => match GetToolBundle install install_disk id with Some (Ok f) => Some (Path f) | _ => None end) <$>
    ["perf/1.0/a.tar.gz"; "perf/1.0/b.tar.gz"; "README"; "perf/1.0/c.tar.gz"] =
  [Some "/opt/tools/perf/1.0/a.tar.gz"; Some "/ext/more/tools/perf/1.0/b.tar.gz"; None; None].
Proof. vm_compute. reflexivity. Qed.
