(* ===== verification/Deployer.v ===== *)
(** * Performix: deploying tools to a target

    Models [core/apap-engine/tool/deployer/deployer.go] and the stage
    [recipe/stages/tool_deployment_stage.go] with [required_tools.go]. The file system of the
    target is a disk; each of its operations may fail in its own way, a removal half way and a
    copy after some of the bytes. What the command that unpacks a bundle does is a parameter
    ([Unpacking]). Progress reports, permissions and log lines are left out. *)

From S2P Require Import Prelude.
From S2P Require Import GoStrings.
From S2P Require Import FilePaths.
From S2P Require Import Disk.
From S2P Require Import RunCollection.
From S2P Require Import RunRenders.
From S2P Require Import Json.
From S2P Require Import Packages.
From S2P Require Import DeploymentSupport.
From Stdlib Require Import Ascii.

Local Open Scope Z_scope.

(** ** Tools *)

Inductive ReconcileResult := Deployed | NoAction | Deploy.

#[export] Instance ReconcileResult_eq_dec : EqDecision ReconcileResult.
Proof. solve_decision. Defined.

Inductive ToolDeploymentMode := ToolDeployNONE | ToolDeployAUTO | ToolDeployAUTOFORCE | ToolDeployCHECK.

#[export] Instance ToolDeploymentMode_eq_dec : EqDecision ToolDeploymentMode.
Proof. solve_decision. Defined.

Record ToolPaths := { DstDir : string; TargetBundle : string; SrcBundle : string }.

Definition deployedMarker : string := ".extracted".

Inductive deploy_error :=
| RemoveExistingTool | RemoveFailedDeployment (cause : deploy_error) | CreateToolDeploymentDir | CreateToolDeploymentDirPermissionDenied
| CopyTool | InflateToolBundle | WriteMarker | PackagesError (e : packages_error) | StatFailed.

Definition getToolDeployFileName (targetType : PlatformConfiguration) (t : ToolInfo) : string :=
  ti_Name t +:+ "-" +:+ OS targetType +:+ "-" +:+ Architecture targetType +:+ ".tar.gz".

(** [CreateToolDeploymentPaths]; the error of a bundle that is not found. *)
Definition CreateToolDeploymentPaths (targetType : PlatformConfiguration) (t : ToolInfo) (pm : PackageManager) (host : disk) (dstToolDir : string)
    : result deploy_error ToolPaths :=
  let bundleName := getToolDeployFileName targetType t in
  match GetToolBundle pm host (JoinPath [ti_Name t; ti_Version t; bundleName]) with
  | Some (Ok srcBundle) =>
      Ok {| DstDir := JoinPath [dstToolDir; ti_Name t; ti_Version t]; TargetBundle := JoinPath [dstToolDir; ti_Name t; ti_Version t; bundleName]; SrcBundle := Path srcBundle |}
  | Some (Err e) => Err (PackagesError e)
  | None => Err (PackagesError LoadCoreToolBundles)
  end.

(** ** One tool *)

(** How the operations on a target turn out, in the order in which a deployment makes them. *)
Record outcomes := {
  on_remove : path -> bool;
  on_create : faults;
  denied : bool;                (* a refusal to create is for want of permission *)
  on_copy : faults;
  on_marker : faults;
  on_tidy : path -> bool
}.

Definition marker_path (p : ToolPaths) : path := components (JoinPath [DstDir p; deployedMarker]).

(** [isToolDeployed]. A directory has a size. *)
Definition isToolDeployed (p : ToolPaths) (d : disk) : bool :=
  match node_at d (components (TargetBundle p)) with
  | None => false
  | Some (NFile EmptyString) => false
  | Some _ => bool_decide (is_Some (node_at d (marker_path p)))
  end.

(** [GetToolPath], with [getToolTargetPath]: where the bundle of a tool is, if it is deployed. *)
Definition getToolTargetPath (targetType : PlatformConfiguration) (t : ToolInfo) (dstToolDir : string) : ToolPaths :=
  {| DstDir := JoinPath [dstToolDir; ti_Name t; ti_Version t]; TargetBundle := JoinPath [dstToolDir; ti_Name t; ti_Version t; getToolDeployFileName targetType t];
     SrcBundle := EmptyString |}.

Definition GetToolPath (t : ToolInfo) (machineType : PlatformConfiguration) (deployedToolsDirectory : string) (d : disk) : string :=
  let toolPaths := getToolTargetPath machineType t deployedToolsDirectory in
  if isToolDeployed toolPaths d then TargetBundle toolPaths else EmptyString.

(** The command that unpacks a bundle. *)
Definition replace_quotes (s : string) : string :=
  (fix go (s : string) : string :=
     match s with EmptyString => EmptyString | String c r => if Ascii.eqb c "'" then "''" +:+ go r else String c (go r) end) s.

Definition QuotePowershellString (value : string) : string := "'" +:+ replace_quotes value +:+ "'".

Definition dquoted (s : string) : string := String dquote (s +:+ String dquote EmptyString).

Definition inflateCommand (targetType : PlatformConfiguration) (p : ToolPaths) : string :=
  if bool_decide (OS targetType = "Windows") then
    "powershell -NoProfile -NoLogo -WindowStyle Hidden -Command " +:+
    dquoted ("$bundle = " +:+ QuotePowershellString (TargetBundle p) +:+
      "; Set-Location -LiteralPath ([System.IO.Path]::GetDirectoryName($bundle)); tar -zxf ([System.IO.Path]::GetFileName($bundle)) -C " +:+
      QuotePowershellString (DstDir p))
  else "tar zxf " +:+ TargetBundle p +:+ " -C " +:+ DstDir p.

(** A text that a shell takes as one word, as it is. *)
Definition one_word (s : string) : bool :=
  negb (bool_decide (s = EmptyString)) &&
  sall (fun c => is_digit c || between 65 90 c || between 97 122 c || existsb (Ascii.eqb c) ["/"; "."; "_"; "-"]%char) s.

(** What is known of running commands: the command that unpacks a bundle changes only what is
    below the directory, not the bundle nor the marker, and when it succeeds the files of the
    archive are there. *)
Class Unpacking := {
  RunCommand : string -> disk -> disk * bool;
  unpacked : string -> path -> disk -> Prop;
  unpacked_local content dst marker d d' : unpacked content dst d -> marker = dst ++ [deployedMarker] ->
    (forall q, dst `prefix_of` q -> q <> marker -> d' !! q = d !! q) -> unpacked content dst d';
  unpacks targetType p d d' ok content : one_word (TargetBundle p) = true -> one_word (DstDir p) = true ->
    RunCommand (inflateCommand targetType p) d = (d', ok) ->
    d !! components (TargetBundle p) = Some (NFile content) ->
    (forall q, ~ components (DstDir p) `prefix_of` q \/ q = components (TargetBundle p) \/ q = marker_path p -> d' !! q = d !! q) /\
    (ok = true -> unpacked content (components (DstDir p)) d')
}.

Section Deploy.

Context `{Unpacking} (targetType : PlatformConfiguration) (host : disk).

(** [tidyUp] *)
Definition tidyUp (p : ToolPaths) (o : outcomes) (err : deploy_error) (d : disk) : disk * result deploy_error () :=
  match remove_tree (on_tidy o) (components (DstDir p)) d with
  | (d', true) => (d', Err err)
  | (d', false) => (d', Err (RemoveFailedDeployment err))
  end.

(** [CopyFromHost] *)
Definition CopyFromHost (f : faults) (src dst : string) (d : disk) : disk * bool :=
  match node_at host (components src) with
  | Some (NFile content) => WriteFile f (components dst) content d
  | _ => (d, false)
  end.

Definition deployTool (p : ToolPaths) (o : outcomes) (d : disk) : disk * result deploy_error () :=
  match MkdirAll (on_create o) (components (DstDir p)) d with
  | (d, false) => (d, Err (if denied o then CreateToolDeploymentDirPermissionDenied else CreateToolDeploymentDir))
  | (d, true) =>
      match CopyFromHost (on_copy o) (SrcBundle p) (TargetBundle p) d with
      | (d, false) => tidyUp p o CopyTool d
      | (d, true) =>
          match RunCommand (inflateCommand targetType p) d with
          | (d, false) => tidyUp p o InflateToolBundle d
          | (d, true) =>
              match WriteFile (on_marker o) (marker_path p) EmptyString d with
              | (d, false) => tidyUp p o WriteMarker d
              | (d, true) => (d, Ok tt)
              end
          end
      end
  end.

Definition ReconcileTool (deployMode : ToolDeploymentMode) (p : ToolPaths) (o : outcomes) (d : disk) : disk * result deploy_error ReconcileResult :=
  let toolDeployed := isToolDeployed p d in
  let deploy d := match deployTool p o d with (d, Ok _) => (d, Ok Deployed) | (d, Err e) => (d, Err e) end in
  match deployMode with
  | ToolDeployCHECK => (d, Ok (if toolDeployed then NoAction else Deploy))
  | ToolDeployAUTOFORCE =>
      match remove_tree (on_remove o) (components (DstDir p)) d with
      | (d, false) => (d, Err RemoveExistingTool)
      | (d, true) => deploy d
      end
  | _ => if toolDeployed then (d, Ok NoAction) else deploy d
  end.

(** ** What a deployment is *)

(** The bundle of the host is on the target, unpacked, with the marker. *)
Definition deployment (p : ToolPaths) (content : string) (d : disk) : Prop :=
  d !! components (TargetBundle p) = Some (NFile content) /\ unpacked content (components (DstDir p)) d /\ is_Some (d !! marker_path p).

(** What passes for deployed is. *)
Definition sound (p : ToolPaths) (content : string) (d : disk) : Prop := isToolDeployed p d = true -> deployment p content d.

(** The paths of a tool, as [CreateToolDeploymentPaths] makes them, with a bundle on the host. *)
Record paths_ok (p : ToolPaths) (content : string) : Prop := {
  bundle_below : exists name, name <> deployedMarker /\ components (TargetBundle p) = components (DstDir p) ++ [name];
  marker_below : marker_path p = components (DstDir p) ++ [deployedMarker];
  bundle_on_host : node_at host (components (SrcBundle p)) = Some (NFile content);
  bundle_not_empty : content <> EmptyString;
  dst_word : one_word (DstDir p) = true;
  bundle_word : one_word (TargetBundle p) = true
}.

(** Removing the directory failed half way. *)
Definition removal_failed (e : deploy_error) : bool := match e with RemoveExistingTool | RemoveFailedDeployment _ => true | _ => false end.

Section Tool.

Context (p : ToolPaths) (content : string) (Hp : paths_ok p content).

Lemma node_at_snoc d (q : path) x : node_at d (q ++ [x]) = d !! (q ++ [x]).
Proof. unfold node_at. destruct (q ++ [x]) eqn:E; [by destruct q|done]. Qed.

Lemma not_deployed_gone d : (forall q, components (DstDir p) `prefix_of` q -> d !! q = None) -> isToolDeployed p d = false.
Proof.
  intros Hd. destruct (bundle_below _ _ Hp) as (name & _ & E). unfold isToolDeployed. rewrite E, node_at_snoc, Hd; [done|by eexists].
Qed.

Lemma isToolDeployed_spec d : isToolDeployed p d = true -> is_Some (d !! components (TargetBundle p)) /\ is_Some (d !! marker_path p).
Proof.
  destruct (bundle_below _ _ Hp) as (name & _ & E). unfold isToolDeployed. rewrite E, (marker_below _ _ Hp), !node_at_snoc.
  destruct (d !! (components (DstDir p) ++ [name])) as [[[|]|]|]; try done; intros Hb%bool_decide_eq_true; done.
Qed.

Lemma removed_gone stuck d d' : remove_tree stuck (components (DstDir p)) d = (d', true) -> forall q, components (DstDir p) `prefix_of` q -> d' !! q = None.
Proof. intros Hr q Hq. by apply (remove_tree_spec stuck _ _ _ _ q Hr). Qed.

Lemma tidyUp_spec o e d d' r : tidyUp p o e d = (d', r) -> exists e', r = Err e' /\ (removal_failed e' = false -> isToolDeployed p d' = false).
Proof.
  unfold tidyUp. destruct (remove_tree (on_tidy o) _ d) as [d1 [|]] eqn:Hr; intros [= <- <-]; eexists; (split; [done|]); [|done].
  intros _. apply not_deployed_gone. by eapply removed_gone.
Qed.

(** A deployment, where nothing passed for one. *)
Lemma deployTool_spec o d d' r : isToolDeployed p d = false -> deployTool p o d = (d', r) ->
  match r with
  | Ok _ => isToolDeployed p d' = true /\ deployment p content d'
  | Err e => removal_failed e = false -> isToolDeployed p d' = false
  end.
Proof.
  intros Hno. destruct (bundle_below _ _ Hp) as (name & Hname & Hb). pose proof (marker_below _ _ Hp) as Hm. unfold deployTool.
  destruct (MkdirAll (on_create o) _ d) as [d1 [|]] eqn:Hmk.
  2: { intros [= <- <-] _. destruct (isToolDeployed p d1) eqn:E1; [|done]. rewrite <-E1, <-Hno. unfold isToolDeployed. rewrite Hb, Hm, !node_at_snoc.
       assert (forall x, d1 !! (components (DstDir p) ++ [x]) = d !! (components (DstDir p) ++ [x])) as Hsame.
       { intros x. destruct (MkdirAll_new _ _ _ _ _ (components (DstDir p) ++ [x]) Hmk) as [?|(_ & _ & Hpre)]; [done|].
         apply prefix_length in Hpre. rewrite length_app in Hpre. cbn in Hpre. lia. }
       by rewrite !Hsame. }
  assert (forall e d1, tidyUp p o e d1 = (d', r) -> match r with Ok _ => isToolDeployed p d' = true /\ deployment p content d'
    | Err e => removal_failed e = false -> isToolDeployed p d' = false end) as Htidy by (intros e d2 Ht; by destruct (tidyUp_spec _ _ _ _ _ Ht) as (e' & -> & ?)).
  unfold CopyFromHost. rewrite (bundle_on_host _ _ Hp). destruct (WriteFile (on_copy o) _ content d1) as [d2 [|]] eqn:Hw; [|by apply Htidy].
  destruct (write_file_spec _ _ _ _ _ _ _ Hw) as [[_ ?]|(w & -> & Hwc)]; [done|]. rewrite (Hwc eq_refl eq_refl) in *. clear w Hwc.
  destruct (RunCommand (inflateCommand targetType p) _) as [d3 [|]] eqn:Hrun; [|by apply Htidy].
  destruct (unpacks targetType p _ _ _ content (bundle_word _ _ Hp) (dst_word _ _ Hp) Hrun) as [Hkeep Hun]; [by rewrite lookup_insert_eq|].
  specialize (Hun eq_refl). destruct (WriteFile (on_marker o) _ EmptyString d3) as [d4 [|]] eqn:Hw2; [|by apply Htidy].
  destruct (write_file_spec _ _ _ _ _ _ _ Hw2) as [[_ ?]|(w & -> & Hwc)]; [done|]. intros [= <- <-].
  assert (components (TargetBundle p) <> marker_path p) as Hne by (rewrite Hb, Hm; intros [_ [= ?]]%app_inj_2; done).
  assert (d3 !! components (TargetBundle p) = Some (NFile content)) as Hbd by (rewrite Hkeep by (by right; left); by rewrite lookup_insert_eq).
  split.
  - unfold isToolDeployed. rewrite Hb, Hm, !node_at_snoc, <-Hb, <-Hm, lookup_insert_ne, Hbd by done.
    destruct content eqn:Ec; [by destruct (bundle_not_empty _ _ Hp)|]. rewrite lookup_insert_eq. by rewrite bool_decide_true.
  - split_and!; [by rewrite lookup_insert_ne| |by rewrite lookup_insert_eq]. eapply unpacked_local; [exact Hun|exact Hm|].
    intros q _ Hq. by rewrite lookup_insert_ne.
Qed.

Lemma ReconcileTool_spec deployMode o d d' r : ReconcileTool deployMode p o d = (d', r) ->
  match r with
  | Ok Deploy => deployMode = ToolDeployCHECK /\ d' = d /\ isToolDeployed p d = false
  | Ok NoAction => deployMode <> ToolDeployAUTOFORCE /\ d' = d /\ isToolDeployed p d = true
  | Ok Deployed => deployMode <> ToolDeployCHECK /\ isToolDeployed p d' = true /\ deployment p content d'
  | Err e => deployMode <> ToolDeployCHECK /\ (removal_failed e = false -> isToolDeployed p d' = false)
  end.
Proof.
  intros Hr. assert (forall d1, isToolDeployed p d1 = false -> deployMode <> ToolDeployCHECK ->
    match deployTool p o d1 with (d, Ok _) => (d, Ok Deployed) | (d, Err e) => (d, Err e) end = (d', r) ->
    match r with
    | Ok Deployed => deployMode <> ToolDeployCHECK /\ isToolDeployed p d' = true /\ deployment p content d'
    | Ok _ => False
    | Err e => deployMode <> ToolDeployCHECK /\ (removal_failed e = false -> isToolDeployed p d' = false)
    end) as Hdep.
  { intros d1 Hd1 Hmode. destruct (deployTool p o d1) as [d2 [u|e]] eqn:Hd; pose proof (deployTool_spec _ _ _ _ Hd1 Hd) as Hspec; cbn in Hspec; intros [= <- <-]; [destruct Hspec|]; by split_and!. }
  unfold ReconcileTool in Hr. destruct deployMode.
  1, 2: destruct (isToolDeployed p d) eqn:Hd; [injection Hr as <- <-; by split_and!|]; apply Hdep in Hr; try done; destruct r as [[]|]; done.
  - destruct (remove_tree (on_remove o) _ d) as [d1 [|]] eqn:Hrm; [|injection Hr as <- <-; by split_and!].
    apply Hdep in Hr; [destruct r as [[]|]; done| |done]. apply not_deployed_gone. by eapply removed_gone.
  - destruct (isToolDeployed p d) eqn:Hd; injection Hr as <- <-; by split_and!.
Qed.


(** Only what is below the directory of the tool changes, and the directories above it. *)
Definition elsewhere (d d' : disk) : Prop := forall q, ~ components (DstDir p) `prefix_of` q -> ~ q `prefix_of` components (DstDir p) -> d' !! q = d !! q.

Lemma elsewhere_trans d1 d2 d3 : elsewhere d1 d2 -> elsewhere d2 d3 -> elsewhere d1 d3.
Proof. intros H1 H2 q Hq Hq'. rewrite H2 by done. by apply H1. Qed.

Lemma remove_elsewhere stuck d d' ok : remove_tree stuck (components (DstDir p)) d = (d', ok) -> elsewhere d d'.
Proof. intros Hr q Hq _. destruct (remove_tree_spec stuck _ _ _ _ q Hr) as [[?|[_ ?]] _]; done. Qed.

Lemma tidyUp_elsewhere o e d d' r : tidyUp p o e d = (d', r) -> elsewhere d d'.
Proof. unfold tidyUp. destruct (remove_tree _ _ d) as [d1 []] eqn:Hr; intros [= <- <-]; by eapply remove_elsewhere. Qed.

Lemma write_elsewhere fl x w d d' ok : WriteFile fl (components (DstDir p) ++ [x]) w d = (d', ok) -> elsewhere d d'.
Proof.
  intros [[-> _]|(v & -> & _)]%write_file_spec; [done|]. intros q Hq _. rewrite lookup_insert_ne; [done|]. intros <-. apply Hq. by eexists.
Qed.

Lemma deployTool_elsewhere o d d' r : deployTool p o d = (d', r) -> elsewhere d d'.
Proof.
  destruct (bundle_below _ _ Hp) as (name & Hname & Hb). pose proof (marker_below _ _ Hp) as Hm. unfold deployTool.
  destruct (MkdirAll (on_create o) _ d) as [d1 ok] eqn:Hmk.
  assert (elsewhere d d1) as H1 by (intros q _ Hq; destruct (MkdirAll_new _ _ _ _ _ q Hmk) as [?|(_ & _ & ?)]; done).
  destruct ok; [|by intros [= <- <-]]. unfold CopyFromHost. rewrite (bundle_on_host _ _ Hp).
  destruct (WriteFile (on_copy o) _ content d1) as [d2 ok] eqn:Hw. pose proof Hw as H2. rewrite Hb in H2. apply write_elsewhere in H2.
  pose proof (elsewhere_trans _ _ _ H1 H2) as H12. destruct ok; [|intros ?%tidyUp_elsewhere; by eapply elsewhere_trans].
  destruct (RunCommand (inflateCommand targetType p) d2) as [d3 ok] eqn:Hrun.
  destruct (unpacks targetType p _ _ _ content (bundle_word _ _ Hp) (dst_word _ _ Hp) Hrun) as [Hkeep _].
  { destruct (write_file_spec _ _ _ _ _ _ _ Hw) as [[_ ?]|(w & -> & Hwc)]; [done|]. by rewrite (Hwc eq_refl eq_refl), lookup_insert_eq. }
  assert (elsewhere d d3) as H3 by (eapply elsewhere_trans; [exact H12|]; intros q Hq _; apply Hkeep; by left).
  destruct ok; [|intros ?%tidyUp_elsewhere; by eapply elsewhere_trans].
  destruct (WriteFile (on_marker o) _ EmptyString d3) as [d4 ok] eqn:Hw2. rewrite Hm in Hw2. apply write_elsewhere in Hw2.
  pose proof (elsewhere_trans _ _ _ H3 Hw2). destruct ok; [by intros [= <- <-]|intros ?%tidyUp_elsewhere; by eapply elsewhere_trans].
Qed.

Lemma ReconcileTool_elsewhere mode o d d' r : ReconcileTool mode p o d = (d', r) -> elsewhere d d'.
Proof.
  assert (forall d1, match deployTool p o d1 with (d, Ok _) => (d, Ok Deployed) | (d, Err e) => (d, Err e) end = (d', r) -> elsewhere d1 d') as Hdep.
  { intros d1. destruct (deployTool p o d1) as [d2 []] eqn:Hd; intros [= <- _]; by eapply deployTool_elsewhere. }
  unfold ReconcileTool. destruct mode.
  1, 2: destruct (isToolDeployed p d); [by intros [= <- _]|apply Hdep].
  - destruct (remove_tree (on_remove o) _ d) as [d1 ok] eqn:Hr. apply remove_elsewhere in Hr.
    destruct ok; [|by intros [= <- _]]. intros ?%Hdep. by eapply elsewhere_trans.
  - destruct (isToolDeployed p d); by intros [= <- _].
Qed.

(** A disk that is the same below the directory of the tool. *)
Lemma same_below d d' : (forall q, components (DstDir p) `prefix_of` q -> d' !! q = d !! q) ->
  isToolDeployed p d' = isToolDeployed p d /\ (deployment p content d -> deployment p content d').
Proof.
  intros Hd. destruct (bundle_below _ _ Hp) as (name & _ & Hb). pose proof (marker_below _ _ Hp) as Hm. split.
  - unfold isToolDeployed. rewrite Hb, Hm, !node_at_snoc, !Hd by (by eexists). done.
  - intros (Hc & Hu & Hk). split_and!.
    + rewrite Hb in *. rewrite Hd; [done|by eexists].
    + eapply unpacked_local; [exact Hu|exact Hm|]. intros q Hq _. by apply Hd.
    + rewrite Hm in *. rewrite Hd; [done|by eexists].
Qed.

End Tool.

End Deploy.

(** ** The stage *)

(** [updateStageResult] *)
Definition stage_result (results : list ReconcileResult) : ReconcileResult :=
  if bool_decide (Deploy ∈ results) then Deploy else if bool_decide (Deployed ∈ results) then Deployed else NoAction.

Record ToolDeploymentStage := { deploymentMode : ToolDeploymentMode; locality : string; Result : ReconcileResult; ToolsToDeploy : list ToolInfo }.

Definition finished (s : ToolDeploymentStage) (r : ReconcileResult) (tools : list ToolInfo) : ToolDeploymentStage :=
  {| deploymentMode := deploymentMode s; locality := locality s; Result := r; ToolsToDeploy := tools |}.

Section Stage.

Context `{Unpacking} (targetType : PlatformConfiguration) (host : disk) (pm : PackageManager) (toolsDir : string) (agent : ToolInfo).

(** [GetToolBundleFileInfo] *)
Definition GetToolBundleFileInfo (t : ToolInfo) : result deploy_error node :=
  match GetToolBundle pm host (JoinPath [ti_Name t; ti_Version t; getToolDeployFileName targetType t]) with
  | Some (Ok pack) => or_err StatFailed (node_at host (components (Path pack)))
  | Some (Err e) => Err (PackagesError e)
  | None => Err (PackagesError LoadCoreToolBundles)
  end.

(** The tools one after the other, with the results so far; [o] says how the operations for a
    tool turn out. *)
Fixpoint deploy_tools (mode : ToolDeploymentMode) (o : ToolInfo -> outcomes) (tools : list ToolInfo) (results : list ReconcileResult) (d : disk)
    : disk * result deploy_error (list ReconcileResult) :=
  match tools with
  | [] => (d, Ok results)
  | t :: rest =>
      match CreateToolDeploymentPaths targetType t pm host toolsDir with
      | Err e => (d, Err e)
      | Ok p => match ReconcileTool targetType host mode p (o t) d with
                | (d, Ok r) => deploy_tools mode o rest (results ++ [r]) d
                | (d, Err e) => (d, Err e)
                end
      end
  end.

(** [Execute], with the number of times the connection to the agent is closed. *)
Definition Execute (bundles : list ToolBundleInfo) (o : ToolInfo -> outcomes) (s : ToolDeploymentStage) (d : disk)
    : disk * ToolDeploymentStage * nat * result deploy_error () :=
  if bool_decide (locality s = DeploymentLocalityHost) && negb (ContainsHostToolBundles bundles)
  then (d, finished s NoAction (ToolsToDeploy s), 0%nat, Ok tt)
  else
    let forced := bool_decide (deploymentMode s = ToolDeployAUTOFORCE) in
    let tools := appendUniqueTools (ToolsToDeploy s) (requiredToolsForLocality agent bundles (locality s)) in
    let closed := if forced then 1%nat else 0%nat in
    match mapM GetToolBundleFileInfo tools with
    | Err e => (d, finished s (Result s) tools, closed, Err e)
    | Ok _ =>
        match deploy_tools (deploymentMode s) o tools [] d with
        | (d, Err e) => (d, finished s (Result s) tools, closed, Err e)
        | (d, Ok results) =>
            let r := stage_result results in
            (d, finished s r tools, if negb forced && bool_decide (r = Deployed) then 1%nat else closed, Ok tt)
        end
    end.

End Stage.

(** *** Paths *)

Lemma one_word_no_space s : one_word s = true -> s <> EmptyString /\ byte_free " " s = true.
Proof.
  unfold one_word. intros [Hne Hs]%andb_true_iff. split; [intros ->; discriminate|]. clear Hne.
  induction s as [|c s IH]; [done|]. cbn [sall] in Hs. apply andb_true_iff in Hs as [Hc Hs]. change (negb (Ascii.eqb c " ") && byte_free " " s = true). rewrite (IH Hs), andb_true_r.
  destruct (Ascii.eqb_spec c " ") as [->|]; [discriminate|done].
Qed.

Lemma marker_path_below p : DstDir p <> EmptyString -> marker_path p = components (DstDir p) ++ [deployedMarker].
Proof. intros Hne. unfold marker_path. rewrite components_child; [done|done|]. apply (bool_decide_unpack _); by vm_compute. Qed.

(** *** After the stage *)

Section AfterStage.

Context `{Unpacking} (targetType : PlatformConfiguration) (host : disk) (pm : PackageManager) (toolsDir : string) (agent : ToolInfo).
Context (content : ToolInfo -> string).

(** The bundle of a tool is on the host, and the names of the tool are those of files. *)
Record tool_ready (t : ToolInfo) : Prop := {
  ready_names : plain_name (ti_Name t) /\ plain_name (ti_Version t) /\ plain_name (getToolDeployFileName targetType t);
  ready_words : one_word (JoinPath [toolsDir; ti_Name t; ti_Version t]) = true /\
    one_word (JoinPath [toolsDir; ti_Name t; ti_Version t; getToolDeployFileName targetType t]) = true;
  ready_bundle : exists b, GetToolBundle pm host (JoinPath [ti_Name t; ti_Version t; getToolDeployFileName targetType t]) = Some (Ok b) /\
    node_at host (components (Path b)) = Some (NFile (content t));
  ready_content : content t <> EmptyString
}.

Definition tool_dir (t : ToolInfo) : path := components toolsDir ++ [ti_Name t; ti_Version t].

Context (tools_dir_given : toolsDir <> EmptyString).

Lemma tool_paths t : tool_ready t -> exists p, CreateToolDeploymentPaths targetType t pm host toolsDir = Ok p /\
  paths_ok host p (content t) /\ components (DstDir p) = tool_dir t.
Proof.
  intros [(Hn & Hv & Hf) [Hw Hwb] (b & Hb & Hc) Hne]. unfold CreateToolDeploymentPaths. rewrite Hb. eexists. split; [done|].
  pose proof (plain_name_nonempty _ Hn) as Hn'. pose proof (plain_name_nonempty _ Hv) as Hv'. pose proof (plain_name_nonempty _ Hf) as Hf'.
  assert (components (JoinPath [toolsDir; ti_Name t; ti_Version t]) = tool_dir t) as Hdst.
  { rewrite JoinPath_triple, components_Clean, components_slash by done. rewrite Split_app, !plain_name_Split by done. cbn [app].
    rewrite components_names by (by rewrite !Forall_cons). by rewrite reverse_involutive. }
  assert (components (JoinPath [toolsDir; ti_Name t; ti_Version t; getToolDeployFileName targetType t]) = tool_dir t ++ [getToolDeployFileName targetType t]) as Hbun.
  { unfold JoinPath. rewrite !filter_cons_True by done. cbn [filter list_filter Join]. change (components (Clean (toolsDir +:+ String "/" (ti_Name t +:+ String "/"
      (ti_Version t +:+ String "/" (getToolDeployFileName targetType t)))) ) = tool_dir t ++ [getToolDeployFileName targetType t]).
    rewrite components_Clean, components_slash by done. rewrite !Split_app, !plain_name_Split by done. cbn [app].
    rewrite components_names by (by rewrite !Forall_cons). rewrite reverse_involutive. unfold tool_dir. by rewrite <-app_assoc. }
  split; [|done]. split; cbn [DstDir TargetBundle SrcBundle]; try done.
  - exists (getToolDeployFileName targetType t). rewrite Hdst. split; [|done]. intros E.
    assert (byte_free "-" (getToolDeployFileName targetType t) = false) as Hd; [|rewrite E in Hd; discriminate].
    unfold getToolDeployFileName, byte_free. rewrite sall_app. by apply andb_false_r.
  - apply marker_path_below. cbn. apply one_word_no_space in Hw. by destruct Hw.
Qed.

Lemma tool_dirs_apart t u q : t <> u -> tool_dir t `prefix_of` q -> ~ tool_dir u `prefix_of` q /\ ~ q `prefix_of` tool_dir u.
Proof.
  intros Hne Ht. assert (~ tool_dir u `prefix_of` q) as Hu.
  { intros Hu. destruct (prefix_weak_total _ _ _ Ht Hu) as [Hp|Hp]; apply Hne; apply prefix_length_eq in Hp;
      try (unfold tool_dir; rewrite !length_app; cbn; lia); unfold tool_dir in Hp; apply app_inv_head in Hp; destruct t, u; cbn in Hp; congruence. }
  split; [done|]. intros Hq. apply Hu. assert (tool_dir t = tool_dir u) as <-; [|done].
  apply prefix_length_eq; [by etransitivity|]. unfold tool_dir. rewrite !length_app. cbn. lia.
Qed.

(** What the stage promises for a tool. *)
Definition deployed_from (d d' : disk) (t : ToolInfo) : Prop := exists p, CreateToolDeploymentPaths targetType t pm host toolsDir = Ok p /\
  isToolDeployed p d' = true /\ (sound p (content t) d -> deployment p (content t) d').

Lemma deploy_tools_spec mode o tools : mode <> ToolDeployCHECK -> forall results d d' rs, NoDup tools -> Forall tool_ready tools ->
  deploy_tools targetType host pm toolsDir mode o tools results d = (d', Ok rs) ->
  exists rs1, rs = results ++ rs1 /\ Forall (fun r => r <> Deploy) rs1 /\ (Deployed ∉ rs1 -> d' = d) /\
    (forall t q, t ∉ tools -> tool_dir t `prefix_of` q -> d' !! q = d !! q) /\ Forall (deployed_from d d') tools.
Proof.
  intros Hmode. induction tools as [|t tools IH]; intros results d d' rs Hnd Hok.
  { intros [= <- <-]. exists []. rewrite app_nil_r. by split_and!. }
  apply NoDup_cons in Hnd as [Hnt Hnd]. apply Forall_cons in Hok as [Ht Hok]. cbn [deploy_tools].
  destruct (tool_paths t Ht) as (p & Hp & Hpo & Hdir). rewrite Hp.
  destruct (ReconcileTool targetType host mode p (o t) d) as [d1 [r|e]] eqn:Hr; [|done]. intros Hrest.
  destruct (IH _ _ _ _ Hnd Hok Hrest) as (rs1 & -> & Hnodeploy & Hsame & Hframe & Hall).
  pose proof (ReconcileTool_spec targetType host p (content t) Hpo _ _ _ _ _ Hr) as Hspec.
  pose proof (ReconcileTool_elsewhere targetType host p (content t) Hpo _ _ _ _ _ Hr) as Hels. unfold elsewhere in Hels. rewrite Hdir in Hels.
  assert (r <> Deploy /\ (r <> Deployed -> d1 = d) /\ isToolDeployed p d1 = true /\ (sound p (content t) d -> deployment p (content t) d1)) as (Hr1 & Hr2 & Hr3 & Hr4).
  { destruct r; cbn in Hspec; [destruct Hspec as (_ & ? & ?)|destruct Hspec as (_ & -> & ?)|by destruct Hspec]; split_and!; try done. intros Hs. by apply Hs. }
  exists (r :: rs1). rewrite <-app_assoc. split_and!; [done|by constructor| | |].
  - intros [Hx Hin]%not_elem_of_cons. rewrite Hsame, Hr2; [done| |done]. by intros ->.
  - intros u q [Hu Hin]%not_elem_of_cons Hq. rewrite (Hframe u q Hin Hq). destruct (tool_dirs_apart u t q Hu Hq). by apply Hels.
  - constructor.
    + exists p. split; [done|]. destruct (same_below host p (content t) Hpo d1 d') as [E Hd]; [intros q; rewrite Hdir; by apply Hframe|].
      rewrite E. split; [done|]. intros Hs. by apply Hd, Hr4.
    + apply Forall_forall. intros u Hu. rewrite Forall_forall in Hall. destruct (Hall u Hu) as (pu & Hpu & Hdu & Hsu). exists pu. split_and!; [done|done|].
      intros Hs. apply Hsu. assert (tool_ready u) as Hru by (rewrite Forall_forall in Hok; by apply Hok).
      destruct (tool_paths u Hru) as (pu' & Hpu' & Hpou & Hdiru). assert (pu' = pu) as -> by congruence.
      destruct (same_below host pu (content u) Hpou d d1) as [E Hd].
      { intros q. rewrite Hdiru. intros Hq. assert (u <> t) as Hut by (intros ->; apply Hnt; first [done|by apply list_elem_of_In]). destruct (tool_dirs_apart u t q Hut Hq). by apply Hels. }
      intros Hdep. apply Hd, Hs. by rewrite <-E.
Qed.


End AfterStage.

(** ** Evaluation *)

(** An unpacker that reads the command for Linux; the archive holds one tool. *)
Definition unpack_tool (cmd : string) (d : disk) : disk * bool :=
  if HasPrefix cmd "tar" then
    match Split " " cmd with
    | [_; _; a; _; b] =>
        match d !! components a with
        | Some (NFile content) => if bool_decide (components a = components b ++ ["tool"]) then (d, false) else (<[components b ++ ["tool"] := NFile content]> d, true)
        | _ => (d, false)
        end
    | _ => (d, false)
    end
  else (d, false).

#[local] Program Instance tar : Unpacking := {
  RunCommand := unpack_tool;
  unpacked content dst d := d !! (dst ++ ["tool"]) = Some (NFile content)
}.
Next Obligation.
  intros content dst marker d d' Hu -> Hd. cbn in *. rewrite Hd; [done|by eexists|]. by intros [_ [= ]]%app_inj_2.
Qed.
Next Obligation.
  intros targetType p d d' ok content [Hb Hbs]%one_word_no_space [Hdst Hds]%one_word_no_space Hrun Hc. cbn in *.
  unfold inflateCommand in Hrun. case_bool_decide as Ho.
  { unfold unpack_tool in Hrun. cbn [String.append HasPrefix] in Hrun. injection Hrun as <- <-. by split. }
  assert ("tar zxf " +:+ TargetBundle p +:+ " -C " +:+ DstDir p = Join (String " " EmptyString) ["tar"; "zxf"; TargetBundle p; "-C"; DstDir p]) as E by done.
  rewrite E in Hrun. unfold unpack_tool in Hrun. rewrite Split_Join in Hrun by (done || by repeat constructor).
  rewrite <-E, Hc in Hrun. change (HasPrefix _ "tar") with true in Hrun. cbn [andb] in Hrun.
  case_bool_decide as Hx; injection Hrun as <- <-; [by split|]. split; [|by rewrite lookup_insert_eq].
  intros q Hq. rewrite lookup_insert_ne; [done|]. intros <-. destruct Hq as [Hq|[Hq|Hq]].
  - apply Hq. by eexists.
  - by apply Hx.
  - rewrite marker_path_below in Hq by done. by apply app_inj_2 in Hq as [_ [=]].
Qed.

(** A host with the agent and one tool, and an empty target. *)
Definition linux : PlatformConfiguration := {| Architecture := "aarch64"; OS := "Linux" |}.
Definition perf : ToolInfo := {| ti_Name := "perf"; ti_Version := "1.0" |}.
Definition an_agent : ToolInfo := {| ti_Name := "agent"; ti_Version := "2.0" |}.

Definition host_disk : disk := list_to_map
  (((fun p => (p, NDir)) <$> [["opt"]; ["opt"; "tools"]; ["opt"; "tools"; "perf"]; ["opt"; "tools"; "perf"; "1.0"]; ["opt"; "tools"; "agent"]; ["opt"; "tools"; "agent"; "2.0"]]) ++
   [(["opt"; "tools"; "perf"; "1.0"; "perf-Linux-aarch64.tar.gz"], NFile "perf"); (["opt"; "tools"; "agent"; "2.0"; "agent-Linux-aarch64.tar.gz"], NFile "agent")]).
Definition target_disk : disk := {[ ["t"] := NDir ]}.
Definition all_well : outcomes :=
  {| on_remove := fun _ => false; on_create := no_faults; denied := false; on_copy := no_faults; on_marker := no_faults; on_tidy := fun _ => false |}.

Definition perf_paths : ToolPaths :=
  {| DstDir := "/t/tools/perf/1.0"; TargetBundle := "/t/tools/perf/1.0/perf-Linux-aarch64.tar.gz"; SrcBundle := "/opt/tools/perf/1.0/perf-Linux-aarch64.tar.gz" |}.

Example perf_paths_made : CreateToolDeploymentPaths linux perf install host_disk "/t/tools" = Ok perf_paths.
Proof. vm_compute. reflexivity. Qed.

Lemma tools_ready : Forall (tool_ready linux host_disk install "/t/tools" ti_Name) [an_agent; perf].
Proof.
  repeat constructor.
  all: try (apply (bool_decide_unpack _); vm_compute; done).
  all: try (vm_compute; reflexivity).
  all: try (eexists; split; vm_compute; reflexivity).
Qed.

Lemma perf_paths_ok : paths_ok host_disk perf_paths "perf".
Proof.
  pose proof tools_ready as Hr. rewrite !Forall_cons in Hr. destruct Hr as (_ & Hr & _).
  destruct (tool_paths linux host_disk install "/t/tools" ti_Name ltac:(done) perf Hr) as (p & Hp & Hok & _).
  rewrite perf_paths_made in Hp. by injection Hp as <-.
Qed.

(** A copy that is cut short leaves nothing that passes for deployed; the next deployment
    succeeds. *)
Definition cut_copy : outcomes :=
  {| on_remove := fun _ => false; on_create := no_faults; denied := false; on_copy := {| refuses := fun _ => false; cut_short := fun _ => Some "pe" |};
     on_marker := no_faults; on_tidy := fun _ => false |}.


(** A removal that stops half way leaves the bundle and the marker: what is left passes for
    deployed. *)
Definition stuck_removal : outcomes :=
  {| on_remove := fun q => bool_decide (last q <> Some "tool"); on_create := no_faults; denied := false; on_copy := no_faults; on_marker := no_faults; on_tidy := fun _ => false |}.

Example half_removed_passes_for_deployed :
  let d1 := (ReconcileTool linux host_disk ToolDeployAUTO perf_paths all_well target_disk).1 in
  let '(d2, r2) := ReconcileTool linux host_disk ToolDeployAUTOFORCE perf_paths stuck_removal d1 in
  r2 = Err RemoveExistingTool /\ d2 !! ["t"; "tools"; "perf"; "1.0"; "tool"] = None /\
  (ReconcileTool linux host_disk ToolDeployAUTO perf_paths all_well d2).2 = Ok NoAction.
Proof. vm_compute. done. Qed.

(** A recipe that needs one tool on the target. *)
Definition perf_stage : ToolDeploymentStage := {| deploymentMode := ToolDeployAUTO; locality := DeploymentLocalityTarget; Result := NoAction; ToolsToDeploy := [] |}.
Definition perf_bundles : list ToolBundleInfo :=
  [{| tb_Name := "perf"; tb_Version := "1.0"; tb_Locality := DeploymentLocalityTarget |}; {| tb_Name := "perf"; tb_Version := "1.0"; tb_Locality := DeploymentLocalityHost |}].


(** A tool that cannot be deployed after another one was: the connection to the agent stays. *)
Example not_closed_after_failure :
  let '(d', s', closed, r) := Execute linux host_disk install "/t/tools" an_agent perf_bundles
    (fun t => if bool_decide (t = perf) then cut_copy else all_well) perf_stage target_disk in
  r = Err CopyTool /\ closed = 0%nat /\ d' !! ["t"; "tools"; "agent"; "2.0"; "tool"] = Some (NFile "agent").
Proof. vm_compute. done. Qed.
